(* ===== verification/_CoqProject ===== *)
-Q . S2P
Prelude.v
JsText.v
JsNumber.v
JsDate.v
Enums.v
Messages.v
World.v
RunService.v
Outbox.v
Consumers.v
Logic.v
BatchLaws.v
DispatchLaws.v
OutboxLaws.v
Chunker.v
Join.v
FanIn.v
PipelineConsumers.v
PipelineLaws.v
Incidents.v
Classification.v
SuggestionEngine.v
EngineLaws.v
PricingDb.v
SuggestionRules.v
Suggestions.v
PricingApply.v
PricingApplyLaws.v
PricingFlow.v
SuggestionsLaws.v
PricingRuns.v
PricingSchedule.v
ScheduleLaws.v
Erp.v
CatalogMutation.v
ApplyPrice.v
Promotion.v
CatalogLaws.v
CatalogContract.v
ApplyPriceLaws.v
MoneySafety.v
OfferRules.v
OfferRulesLaws.v
OfferBook.v
OfferBookLaws.v
OfferExecution.v
OfferExecutionLaws.v
OfferFlow.v
OfferReports.v
OfferSchedule.v
TenantCatalog.v
ErpReplica.v
SyncSteps.v
MetricsSteps.v
StockLaws.v
ClassificationSync.v
ProductSync.v
StoreOffers.v
MetricsLaws.v
PricingConfig.v
PricingConfigLaws.v
Programs.v
Stores.v
StoresLaws.v
CatalogReads.v
CatalogReadsLaws.v
Auth.v
AuthLaws.v
LegacyOfferRules.v
LegacyOfferLaws.v
LegacyOfferBook.v
LegacyOfferBookLaws.v
DeadLetters.v
DeadLettersLaws.v
IntegrationHealth.v
IntegrationHealthLaws.v
Tenants.v
TenantsLaws.v
Scrapers.v
ScrapersLaws.v
