(* ===== verification/Prelude.v ===== *)
(** * Farmacore: a verification development

    Farmacore is a multi-tenant pricing back end for pharmacies (TypeScript,
    NestJS, TypeORM over PostgreSQL, RabbitMQ).  This library models its core
    under [src/src/], and the offer book of the application it replaces
    ([src/legacy-app/]), and proves what makes it correct.  It was written
    against the source: a definition carries the name of the function it
    translates wherever Rocq allows it, and follows its guards, early returns
    and order of effects.

    ** The program

    - A nightly and an on-demand PIPELINE of steps.  Each step has a queue of
      messages; a dispatcher slices its work into batch messages, batch
      consumers execute them, and the last batch stages the messages of the
      next steps.  Progress is kept in [core.pipeline_run]; messages leave
      through a transactional outbox ([core.pipeline_outbox]).
    - PRICING: suggestion rules and a classification tree determine, per
      product and store, a suggested price ([pricing-suggestion.engine.ts],
      [pricing-suggestions.service.ts]); prices are applied in bulk runs
      ([pricing-apply.service.ts]), possibly after an approval or on a
      schedule ([pricing-schedule.*]); a pipeline step pushes them to the ERP
      ([apply-price.step.ts], [catalog-mutation.service.ts]).
    - OFFERS: rules of an offer book determine the discount of a product in a
      store ([offer-book-rules/]); a request (of an operator or of the
      schedule's cron) leaves a message in the outbox, a worker computes the
      offers and pushes them to the ERP ([execute-offer-book-rule.step.ts]).

    ** The files, in dependency order

    Foundations.
    - [Prelude]: exceptions and results as values ([Exn], [Res]), JavaScript
      collections ([js_map_set], [js_uniq], [slices], [js_sort]), tactics and
      hint databases.
    - [Programs]: requests as programs over calls to the outside.
    - [JsText], [JsNumber], [JsDate]: strings; numbers behind the class
      [JsNum], with binary64 ([F64]) and exact rational ([XQ]) instances and
      the order laws [JsNumLaws]; [toISOString] and its injectivity.
    - [Enums], [Messages]: [src/database/enums/], [src/queue/types.ts],
      [constants.ts], [queue.module.ts].

    The pipeline ([src/queue/], [src/pipeline/], [src/tenant/]).
    - [World]: the database, an open transaction as a log of statements, the
      broker, a clock, and an oracle that lets every external call succeed,
      fail before or after taking effect, or kill the process; the monad [M].
    - [RunService] ([pipeline-run.service.ts]), [Outbox]
      ([outbox.repository.ts], [outbox-publisher.service.ts],
      [pipeline-publisher.service.ts], [retry.service.ts]), [Consumers]
      ([base-], [dispatch-], [batch-pipeline.consumer.ts]),
      [PipelineConsumers] (the consumers of [pipeline/consumers/], with the
      bodies of their steps behind the class [StepImpls]).
    - [Logic]: the weakest-precondition style rules of [M]; [BatchLaws],
      [DispatchLaws], [OutboxLaws], [PipelineLaws]: what one delivery, one
      dispatcher and one publisher tick do under every fault.
    - [FanIn] and [Join]: the batch counter and the join of two branches over
      all interleavings of their statements.  [Incidents]: schedules that
      break what the comments promise.
    - [Chunker] ([embalagem-chunker.ts]): slicing by EAN.

    Pricing ([src/tenant-api/]).
    - [Classification] ([classification-index.ts]): building the index, stack
      overflow on cyclic parents included.
    - [SuggestionEngine], [EngineLaws] ([pricing-suggestion.engine.ts]).
    - [PricingDb]: the tables and the transactions [Tx] of the services.
    - [SuggestionRules] ([suggestion-rules.service.ts], its DTO and
      [pricing-rules.util.ts]), [Suggestions], [SuggestionsLaws]
      ([pricing-suggestions.service.ts]).
    - [PricingApply], [PricingApplyLaws] ([pricing-apply.service.ts],
      [pricing-retention.cron.ts]); [PricingFlow]: suggested prices pass the
      guards of the apply; [PricingRuns]: the life of a run over all
      histories ([evolves]), the workers through what they leave alone.
    - [PricingSchedule], [ScheduleLaws] ([pricing-schedule.service.ts],
      [pricing-schedule.cron.ts]).

    The ERP.
    - [Erp]: transactions with an effect that does not roll back ([ErpM]):
      the ERP's writes are kept when the database part is not; oracles decide
      the fate of each HTTP call and of each SQL statement
      ([a7-pharma-api.client.ts], [getApiCredentials]).
    - [CatalogMutation], [CatalogLaws], [CatalogContract]
      ([catalog-mutation.service.ts]): price and offer write-back.
    - [ApplyPrice] ([apply-price.step.ts] and its two consumers) is written
      against the class [PriceWriter]; [PriceWriterLaws] is what it relies
      on, [catalog_writer_laws] discharges it.  [Promotion],
      [ApplyPriceLaws], [MoneySafety]: what the step guarantees, and the
      counters of a run over its whole [life], dispatcher and steps included.

    Offer books ([src/tenant-api/offer-book-rules/]).
    - [OfferRules], [OfferRulesLaws] (the pure part of
      [offer-book-rules.service.ts] and its DTO): matching, validation and
      the price of one product, its bounds.
    - [OfferBook], [OfferBookLaws] ([offer-book-rules.service.ts]): rules,
      locks and previews over the tables [OB]; the text of the driver and the
      reads back.
    - [OfferExecution], [OfferExecutionLaws]
      ([offer-book-rules-execution.service.ts],
      [execute-offer-book-rule.step.ts]): the request, and the worker as a
      program over claims, transactions and pushes.  [OfferFlow]: the store
      invariant every operation keeps, and a run from request to completion.
    - [OfferReports] (the report reads), [OfferSchedule]
      ([offer-book-rule-schedule.cron.ts]).

    Synchronisation ([src/pipeline/steps/], [src/database/repositories/],
    [src/integration/repositories/a7pharma/]).
    - [TenantCatalog]: the tables the steps write, and the repositories of
      the tenant and of the shared catalogue over them ([Sy], a state monad
      whose transactions roll back).
    - [ErpReplica]: the tables of the ERP's replica and every query of the
      a7pharma repositories; [StoreOffers]: which offer a store sells by.
    - [SyncSteps]: the steps [sync-base-product], [-stock],
      [sync-product-items], [sync-stores], [sync-offer-books-info], the
      projector and [classification.repository.ts]; [MetricsSteps]: metrics,
      enrichment and import, and the tenant's settings
      ([tenant-api/config/settings.service.ts]).
    - [StockLaws], [ClassificationSync], [ProductSync], [MetricsLaws]: what a
      batch leaves in the catalogue.
    - [Scrapers], [ScrapersLaws] ([src/scrapers/], [scraperFor] of
      [import-competitor-products.step.ts]): the scrapers of the competitors
      as programs over HTTP calls, and what an import of their scrapes leaves.

    Configuration, stores and listings ([src/tenant-api/]).
    - [PricingConfig], [PricingConfigLaws] ([config/price-rounding.service.ts],
      [config/classifications.service.ts], [pricing/clusters.service.ts],
      [pricing/competitor-origins.service.ts]).
    - [Stores], [StoresLaws] ([stores/stores.service.ts], the store limit of
      [admin/controllers/tenants.controller.ts]): a request is a program
      [Prog] over SQL statements [Stmt]; [solo] runs it alone, [step]
      interleaves the statements of many transactions under READ COMMITTED
      with row locks.  [rely], [guarantee] and [wp] are the proof rules.
    - [CatalogReads], [CatalogReadsLaws] ([catalog/catalog.service.ts],
      [common/multi-sort.ts], [common/competitor-origin-sql.ts]).

    Sessions ([src/auth/]).
    - [Auth], [AuthLaws] ([auth.service.ts], [auth.controller.ts]): login,
      rotation and logout as programs over repository calls, any number of
      them interleaved ([auth_step]).

    Administration ([src/admin/], [src/integration/]).
    - [DeadLetters], [DeadLettersLaws] ([admin/services/dlq.service.ts]):
      looking at dead letters and replaying them, as programs over calls of a
      channel; the broker keeps what a channel has not acknowledged.
    - [IntegrationHealth], [IntegrationHealthLaws]
      ([integration-connection.service.ts]): the connections to the ERPs,
      their checks with the cache of pings, and the worker pool [Pool] of the
      check of all of them.
    - [Tenants], [TenantsLaws] ([admin/services/tenant-onboarding.service.ts],
      [tenant-offboarding.service.ts], [competitor-origin-admin.service.ts],
      [tenant/tenant-schema.ts]): a creation with its cleanup, where a call
      may take effect without being confirmed; [Facts] is what a request
      knows, [follows] that it keeps to it.

    The replaced application ([src/legacy-app/]).
    - [LegacyOfferRules], [LegacyOfferLaws] ([services/offer-book-rules.service.ts],
      [common/normalize-classification.helper.ts]): its engine, and on which
      conditions [OfferRules] computes the same.
    - [LegacyOfferBook], [LegacyOfferBookLaws] ([use-cases/create-],
      [update-], [execute-offer-book-rules.use-case.ts], the repositories and
      [cron/periodic-routines.cron.ts]): statements that are no transaction
      and fail one by one ([lw_fates]).

    ** What the theorems show (the tags [C<n>] are in the files)

    - Delivery: a batch delivery commits its work, its completion and its
      successors together or nothing, an acknowledged one is
      completed or dead-lettered, a dispatcher loses no batch, the outbox
      loses no row, marks only what was delivered, and drains when nothing
      fails; the fan-in and the join count exactly and fire.
    - Prices: every suggestion is sound and respects the margin floor; the
      rule that governs a product is determined by specificity, age and id;
      every accepted price of a run passed its guards; a suggested price is
      turned down only for its variation or for want of a caderno.
    - Runs: idempotent by key until they are swept, dispatched at most once
      and exactly once when free to run, the approval decision is final, and
      the counters tell the items, over every interleaving.
    - ERP: the step settles each item once with at most one write, returns
      whatever the ERP answers, and writes nothing on a redelivery; the
      mirror agrees with what was written.
    - Schedules: a tick ends and serves every due schedule; an occurrence
      creates one run.
    - Offers: the preview computes what the execution pushes, a discount lies
      in its bounds, a rule is claimed by one worker, an offer is pushed once
      and its execution completes; rules read back as they were written; the
      reports account for every item; a schedule fires once a day.
    - Synchronisation: deliveries of stock batches converge to the ERP's
      stock; classification paths become a tree that prints them; a product
      batch keeps the ERP ids unique; the offer of a store does not depend on
      the order of rows; metrics are written for a whole batch or not at all;
      settings read back, and are the thresholds the metrics use; a sweep
      answers every EAN, and its import writes whole rows where the request
      was answered and keeps what was known where it failed.
    - Configuration: clusters are created, changed and removed as their rules
      allow; the category picker shows three levels.
    - Stores: over every interleaving an activation stays within the store
      limit and leaves no price frozen while the store was inactive; the
      update of a store on every branch.
    - Listings: the decision of an ingredient is that of its cheapest stocked
      variant; the tally agrees with the listings; the pages of an order
      without ties tile the catalogue; the CSV reads back.
    - Sessions: a logout ends the sessions within a minute, a token revoked
      that long ago revokes the others, and tokens are issued on evidence
      only, over every interleaving.
    - Administration: no interleaving of looks and replays loses a dead
      letter; the pool answers every item in order within its limit and ends;
      checks write nothing but their two columns and share pings; a creation
      of a tenant is whole or undone, and a created tenant stays.
    - The replaced application: its validated sets are unambiguous, its
      engine agrees with the current one, an execution pushes all or nothing
      of a set and accounts for it.
    - Where the code does not keep what its comments say, the theorem
      exhibits it ([Incidents], [swept_key_answers_null],
      [apply_step_pushes_twice], [schedule_fraction_never_parked],
      [upsert_move_trips], [offer_price_escapes], [store_in_deleted_cluster],
      [ties_lose_a_product], [disabled_competitor_decides],
      [logout_misses_refresh_in_flight], [update_loses_products],
      [cron_restores_old_status], [stored_bounds_overlap],
      [unconfirmed_user_blocks], [null_replayed_as_object],
      [stale_ping_after_upsert], [long_page_erases_price],
      [query_errors_erase_price], [nameless_failure_erases_price],
      [other_item_priced], [late_dispatch_overcounts]).

    ** Modelling choices and bounds

    - A service method on a request's entity manager is a [Tx]: it maps the
      database to a result and a database, or throws and changes nothing.
      Interference of other transactions is an argument where the code guards
      against it; the pipeline's own transactions interleave by statement.
    - Loops: recursion on the list they walk; [fireForTenant] and the
      [for (;;)] and recursion of the classification index carry fuel, and
      [schedule_tick_ends] and [index_total_iff_acyclic] say which fuel is
      enough and when none is.  [slices_fuel_enough]: the length of the list
      suffices for slicing.
    - Numbers: the engine's arithmetic is abstract over [JsNum]; theorems
      about prices hold for every instance with the order laws, or are stated
      in exact arithmetic where rounding matters.  Database decimals are
      exact ([Numeric]); the casts of the driver's text are parameters.
      bigint columns are integers; ids, caderno numbers and store numbers are
      assumed below 2^53 where the code passes them through [Number].
    - Not under [src/] and hence parameters: the broker and PostgreSQL's
      text casts, collations and ILIKE, the cron library, the cipher of the
      stored credentials, [uuid_generate_v4].
    - The offer worker: the steps of one worker run in order, and between its
      transactions nothing else changes its rule, reports and items; the
      claim is where workers meet.  Zone-aware day bounds (ICU), ILIKE and
      the collation are parameters.
    - Synchronisation reads a frozen replica; a batch is one transaction; the
      bytes of a classification path are UTF-8, of which the marks of Latin-1
      letters are stripped.  [uuid_generate_v4] and the cast of a number to a
      [numeric] column are parameters.
    - Stores: the snapshot of a statement is taken when it starts, the rows it
      locks are read again when the lock is granted; a transaction may be
      rolled back at any time.  A row of the store synchronisation is a step
      of its own.
    - Scrapers: a call answers decoded JSON of its declared type or is
      rejected; the retries of the HTTP client are part of the call.  A sweep
      is a run against the answers of each round; [sweep_answers] says that
      these runs are all the scrapers may end with.
    - Administration: a call of a tenant's creation succeeds, is rejected, or
      takes effect and is not confirmed; a message of a channel that closes
      returns to its queue; the random choices are arguments of the step.
    - Listings: the order of rows with equal keys is an argument, and may
      differ from page to page.
    - Columns that no modelled code reads ([updated_at], audit columns, the
      [mode] of a run) are left out, as are logging, tracing and metrics
      other than the consumer events.

    ** Not modelled, and why

    - The composition of the step bodies of [SyncSteps] and [MetricsSteps]
      with the consumers: [PipelineConsumers] knows a step through
      [StepImpls], over its own database.
    - Product images, and the admin operations of
      [base-product.repository.ts].
    - Object storage, metrics registry: input and output with third parties.
      Of a scraped product the metadata that nothing modelled reads.
    - The factory of the ERP's data sources and the cipher of credentials:
      drivers and cryptography.  The migrations of a schema are one call.
    - The rest of [src/legacy-app/]: its own scrapers, synchronisation and
      listings; of its offer book the paginated listings and the preview's
      controller; migrations and scripts: data definition and operations. *)

From stdpp Require Export base tactics option list gmap sets strings pretty.
From Stdlib Require Export ZArith Lia Sorted.

#[export] Set Default Goal Selector "!".

Declare Scope farma_scope.
Delimit Scope farma_scope with farma.
Open Scope farma_scope.
#[export] Unset Mangle Names.

(* ------------------------------------------------------------------ *)
(** * Errors as values                                                  *)
(* ------------------------------------------------------------------ *)

(** The exceptions the program distinguishes: NestJS [HttpException]
    subclasses, the pipeline's [DuplicateDeliveryRepublishError], and any
    other [Error] (drivers, AMQP, [new Error(...)]). *)
Inductive Exn : Type :=
| EError (msg : string)
| EDuplicateDelivery (msg : string)
| EBadRequest (msg : string)
| ENotFound (msg : string)
| EConflict (msg : string)
| EUnprocessable (msg : string)
| EUnavailable (msg : string)
| EUnauthorized (msg : string).

#[export] Instance Exn_eq_dec : EqDecision Exn.
Proof. solve_decision. Defined.

(** [(err as Error).message] *)
Definition exn_message (e : Exn) : string :=
  match e with
  | EError m | EDuplicateDelivery m | EBadRequest m
  | ENotFound m | EConflict m | EUnprocessable m | EUnavailable m | EUnauthorized m => m
  end.

(** Result of pure code that may throw. *)
Inductive Res (A : Type) : Type :=
| Ok (a : A)
| Throw (e : Exn).
Arguments Ok {A} a.
Arguments Throw {A} e.

#[export] Instance Res_ret : MRet Res := @Ok.
#[export] Instance Res_bind : MBind Res := λ A B f m,
  match m with Ok a => f a | Throw e => Throw e end.

Definition isOk {A} (r : Res A) : bool :=
  match r with Ok _ => true | Throw _ => false end.

(* ------------------------------------------------------------------ *)
(** * JavaScript collections                                            *)
(* ------------------------------------------------------------------ *)

Section JsCollections.
Context {K V : Type} `{EqDecision K}.

(** [Map.prototype.set] on a [Map] seen through its iteration order:
    an existing key keeps its position and takes the new value. *)
Fixpoint js_map_set (k : K) (v : V) (m : list (K * V)) : list (K * V) :=
  match m with
  | [] => [(k, v)]
  | (k', v') :: m' =>
      if decide (k = k') then (k', v) :: m' else (k', v') :: js_map_set k v m'
  end.

Fixpoint js_map_get (k : K) (m : list (K * V)) : option V :=
  match m with
  | [] => None
  | (k', v') :: m' => if decide (k = k') then Some v' else js_map_get k m'
  end.

(** [new Map(entries)] *)
Definition js_map_of (entries : list (K * V)) : list (K * V) :=
  foldl (λ m '(k, v), js_map_set k v m) [] entries.

(** [[...new Set(l)]]: first occurrences, in order. *)
Fixpoint js_uniq_from (seen : list K) (l : list K) : list K :=
  match l with
  | [] => []
  | x :: l' =>
      if decide (x ∈ seen) then js_uniq_from seen l'
      else x :: js_uniq_from (x :: seen) l'
  end.
Definition js_uniq (l : list K) : list K := js_uniq_from [] l.

End JsCollections.

(** [for (let i = 0; i < l.length; i += k) out.push(l.slice(i, i + k))].
    The fuel is the length of the list: with [k >= 1] every round removes
    at least one element ([slices_fuel_enough] below). *)
Fixpoint slices_fuel {A} (fuel k : nat) (l : list A) : list (list A) :=
  match fuel, l with
  | _, [] => []
  | 0, _ => []
  | S f, _ => take k l :: slices_fuel f k (drop k l)
  end.
Definition slices {A} (k : nat) (l : list A) : list (list A) :=
  slices_fuel (length l) k l.

(** [arr.map((x, i) => ...)] with a 1-based counter. *)
Definition number_from {A} (n : Z) (l : list A) : list (Z * A) :=
  imap (λ i x, (n + Z.of_nat i, x)%Z) l.

(* ------------------------------------------------------------------ *)
(** * Tactics and hint databases                                        *)
(* ------------------------------------------------------------------ *)

Create HintDb farma.
Create Rewrite HintDb farma_simpl.

(** Split every [match]/[if] of the goal, keeping the equations. *)
Ltac split_matches :=
  repeat (case_match; simplify_eq/=; try done).

(** Case analysis on every [if]/[match] in hypothesis [H]. *)
Ltac split_matches_in H :=
  repeat match type of H with
  | context [match ?x with _ => _ end] =>
      let E := fresh "Hm" in destruct x eqn:E; simplify_eq/=
  end.

Ltac bool_prop :=
  repeat match goal with
  | H : _ && _ = true |- _ => apply andb_true_iff in H as [? ?]
  | H : _ || _ = false |- _ => apply orb_false_iff in H as [? ?]
  | H : negb _ = true |- _ => apply negb_true_iff in H
  | H : negb _ = false |- _ => apply negb_false_iff in H
  | H : bool_decide _ = true |- _ => apply bool_decide_eq_true in H
  | H : bool_decide _ = false |- _ => apply bool_decide_eq_false in H
  end.

(* ------------------------------------------------------------------ *)
(** * Generic lemmas                                                    *)
(* ------------------------------------------------------------------ *)

Lemma Res_bind_Ok {A B} (m : Res A) (f : A → Res B) b :
  m ≫= f = Ok b ↔ ∃ a, m = Ok a ∧ f a = Ok b.
Proof. destruct m; simpl; naive_solver. Qed.

Section JsCollectionsLemmas.
Context {K V : Type} `{EqDecision K}.
Implicit Types (m : list (K * V)) (k : K) (v : V).

Lemma js_map_get_set k k' v m :
  js_map_get k (js_map_set k' v m) =
  if decide (k = k') then Some v else js_map_get k m.
Proof.
  induction m as [|[k1 v1] m IH]; simpl; [by case_decide|].
  repeat (case_decide; simplify_eq/=); try done; by rewrite IH; case_decide.
Qed.

Lemma js_map_set_keys k v m :
  (js_map_set k v m).*1 = if decide (k ∈ m.*1) then m.*1 else m.*1 ++ [k].
Proof.
  induction m as [|[k1 v1] m IH]; simpl; [done|].
  repeat case_decide; simplify_eq/=; try done.
  all: rewrite ?IH, ?elem_of_cons in *.
  all: repeat case_decide; naive_solver.
Qed.

Lemma js_map_set_NoDup k v m : NoDup m.*1 → NoDup (js_map_set k v m).*1.
Proof.
  rewrite js_map_set_keys. case_decide; [done|]. intros Hnd.
  apply NoDup_app; split_and!; [done| |apply NoDup_singleton].
  intros x Hx ->%list_elem_of_singleton. done.
Qed.

Lemma js_map_of_snoc entries k v :
  js_map_of (entries ++ [(k, v)]) = js_map_set k v (js_map_of entries).
Proof. unfold js_map_of. by rewrite foldl_app. Qed.

Lemma js_map_of_NoDup (entries : list (K * V)) : NoDup (js_map_of entries).*1.
Proof.
  induction entries as [|[k v] l IH] using rev_ind; [apply NoDup_nil_2|].
  rewrite js_map_of_snoc. by apply js_map_set_NoDup.
Qed.

Lemma js_map_of_keys (entries : list (K * V)) k :
  k ∈ (js_map_of entries).*1 ↔ k ∈ entries.*1.
Proof.
  induction entries as [|[k' v] l IH] using rev_ind; [done|].
  rewrite js_map_of_snoc, js_map_set_keys, fmap_app, elem_of_app. simpl.
  rewrite list_elem_of_singleton. case_decide as Hd; [rewrite IH in *; naive_solver|].
  rewrite elem_of_app, list_elem_of_singleton. naive_solver.
Qed.

Lemma js_map_get_elem k v m : js_map_get k m = Some v → (k, v) ∈ m.
Proof.
  induction m as [|[k1 v1] m IH]; simpl; [done|].
  case_decide; intros; simplify_eq; [left|right; auto].
Qed.

Lemma js_map_get_NoDup k v m :
  NoDup m.*1 → (k, v) ∈ m → js_map_get k m = Some v.
Proof.
  induction m as [|[k1 v1] m IH]; simpl; [by intros ? ?%elem_of_nil|].
  intros [Hni Hnd]%NoDup_cons [Heq|Hin]%elem_of_cons; simplify_eq.
  - by rewrite decide_True.
  - case_decide; [|auto]. subst. destruct Hni. apply list_elem_of_fmap. by exists (k1, v).
Qed.

Lemma js_map_of_elem (entries : list (K * V)) k v :
  (k, v) ∈ js_map_of entries → (k, v) ∈ entries.
Proof.
  revert k v. induction entries as [|[k' v'] l IH] using rev_ind; [done|]. intros k v.
  rewrite js_map_of_snoc. intros Hin.
  assert (NoDup (js_map_set k' v' (js_map_of l)).*1) as Hnd
    by apply js_map_set_NoDup, js_map_of_NoDup.
  apply js_map_get_NoDup in Hin; [|done]. rewrite js_map_get_set in Hin.
  rewrite elem_of_app, list_elem_of_singleton. case_decide; simplify_eq; [by right|].
  left. by apply IH, js_map_get_elem.
Qed.

(** The value of a key is that of its last entry. *)
Lemma js_map_of_last (entries : list (K * V)) k :
  js_map_get k (js_map_of entries) = snd <$> last (filter (λ e, e.1 = k) entries).
Proof.
  induction entries as [|[k' v] l IH] using rev_ind; [done|].
  rewrite js_map_of_snoc, js_map_get_set, filter_app, IH. cbn [filter list_filter].
  destruct (decide (k = k')) as [->|Hne].
  - rewrite decide_True by done. by rewrite last_snoc.
  - rewrite decide_False by (simpl; congruence). by rewrite app_nil_r.
Qed.

Lemma js_uniq_from_elem seen l (x : K) :
  x ∈ js_uniq_from seen l ↔ x ∈ l ∧ x ∉ seen.
Proof.
  revert seen. induction l as [|y l IH]; intros seen; simpl.
  { rewrite !elem_of_nil. naive_solver. }
  case_decide; rewrite ?elem_of_cons, IH, ?elem_of_cons.
  - naive_solver.
  - destruct (decide (x = y)); naive_solver.
Qed.

Lemma js_uniq_elem l (x : K) : x ∈ js_uniq l ↔ x ∈ l.
Proof. unfold js_uniq. rewrite js_uniq_from_elem, elem_of_nil. naive_solver. Qed.

Lemma js_uniq_from_NoDup seen (l : list K) : NoDup (js_uniq_from seen l).
Proof.
  revert seen. induction l as [|y l IH]; intros seen; simpl; [apply NoDup_nil_2|].
  case_decide; [done|]. apply NoDup_cons; split; [|done].
  rewrite js_uniq_from_elem, elem_of_cons. naive_solver.
Qed.

Lemma js_uniq_NoDup (l : list K) : NoDup (js_uniq l).
Proof. apply js_uniq_from_NoDup. Qed.

Lemma js_uniq_from_id seen (l : list K) :
  NoDup l → (∀ x, x ∈ l → x ∉ seen) → js_uniq_from seen l = l.
Proof.
  revert seen. induction l as [|x l IH]; intros seen Hnd Hs; [done|]. simpl.
  apply NoDup_cons in Hnd as [Hx Hnd]. rewrite decide_False by (apply Hs; left).
  f_equal. apply IH; [done|]. intros y Hy [->|Hin]%elem_of_cons; [done|]. apply (Hs y); [by right|done].
Qed.

Lemma js_uniq_id (l : list K) : NoDup l → js_uniq l = l.
Proof. intros. apply js_uniq_from_id; [done|]. by intros ? _ ?%elem_of_nil. Qed.

End JsCollectionsLemmas.

Section SlicesLemmas.
Context {A : Type}.
Implicit Types (l : list A).

Lemma slices_fuel_concat fuel k l :
  0 < k → length l ≤ fuel → concat (slices_fuel fuel k l) = l.
Proof.
  intros Hk. revert l. induction fuel as [|f IH]; intros [|x l] Hl; simpl in *; try done; try lia.
  rewrite IH; [by rewrite take_drop|].
  rewrite length_drop. simpl. lia.
Qed.

Lemma slices_concat k l : 0 < k → concat (slices k l) = l.
Proof. intros. by apply slices_fuel_concat. Qed.

Lemma slices_fuel_bound fuel k l :
  0 < k → Forall (λ s, 0 < length s ≤ k) (slices_fuel fuel k l).
Proof.
  intros Hk. revert l. induction fuel as [|f IH]; intros [|x l]; simpl; try constructor.
  - rewrite length_take. simpl. lia.
  - apply IH.
Qed.

Lemma slices_bound k l : 0 < k → Forall (λ s, 0 < length s ≤ k) (slices k l).
Proof. apply slices_fuel_bound. Qed.

Lemma slices_nil_inv k l : slices k l = [] → l = [].
Proof. destruct l; [done|]. unfold slices. simpl. done. Qed.

(** Every element is in a slice, and only the list's elements are. *)
Lemma slices_elem k l x :
  0 < k → x ∈ l ↔ ∃ s, s ∈ slices k l ∧ x ∈ s.
Proof.
  intros Hk. rewrite <- (slices_concat k l) at 1 by done.
  rewrite list_elem_of_In, in_concat. by setoid_rewrite list_elem_of_In.
Qed.

Lemma slices_fuel_enough fuel k l :
  0 < k → length l ≤ fuel → slices_fuel fuel k l = slices k l.
Proof.
  intros Hk. unfold slices.
  cut (∀ f1 f2 l, length l ≤ f1 → length l ≤ f2 → slices_fuel f1 k l = slices_fuel f2 k l); [auto|].
  clear fuel l. induction f1 as [|f1 IH]; intros [|f2] [|x l] H1 H2; simpl in *; try done; try lia.
  f_equal. apply IH; rewrite length_drop; simpl; lia.
Qed.

End SlicesLemmas.

Lemma number_from_fst {A} n (l : list A) i p :
  number_from n l !! i = Some p → p.1 = (n + Z.of_nat i)%Z.
Proof.
  unfold number_from. rewrite list_lookup_imap. intros H.
  destruct (l !! i); simplify_eq/=. done.
Qed.

Lemma number_from_snd {A} n (l : list A) : (number_from n l).*2 = l.
Proof.
  unfold number_from. rewrite fmap_imap. 
  apply list_eq. intros i. rewrite list_lookup_imap. simpl. by destruct (l !! i).
Qed.

Lemma number_from_length {A} n (l : list A) : length (number_from n l) = length l.
Proof. apply length_imap. Qed.

#[export] Hint Resolve js_map_of_NoDup js_uniq_NoDup : farma.
#[export] Hint Rewrite @number_from_length @number_from_snd : farma_simpl.

(* ------------------------------------------------------------------ *)
(** * [Array.prototype.sort]                                            *)
(* ------------------------------------------------------------------ *)

Section JsSort.
Context {A : Type} (le : A → A → bool).

Fixpoint js_insert (x : A) (l : list A) : list A :=
  match l with
  | [] => [x]
  | y :: l' => if le x y then x :: l else y :: js_insert x l'
  end.

(** The stable sort for a comparator [cmp] with [le a b := cmp a b <= 0]. *)
Definition js_sort (l : list A) : list A := foldr js_insert [] l.

Lemma js_insert_perm x l : js_insert x l ≡ₚ x :: l.
Proof.
  induction l as [|y l IH]; simpl; [done|]. destruct (le x y); [done|].
  rewrite IH. apply Permutation_swap.
Qed.

Lemma js_sort_perm l : js_sort l ≡ₚ l.
Proof. induction l as [|x l IH]; simpl; [done|]. by rewrite js_insert_perm, IH. Qed.

Lemma js_insert_sorted x l :
  (∀ a b c, le a b = true → le b c = true → le a c = true) →
  (∀ a b, le a b = false → le b a = true) →
  StronglySorted (λ a b, le a b = true) l →
  StronglySorted (λ a b, le a b = true) (js_insert x l).
Proof.
  intros Htr Htot. induction 1 as [|y l Hs IH Hall]; simpl; [by repeat constructor|].
  destruct (le x y) eqn:E.
  - constructor; [by constructor|]. constructor; [done|].
    eapply Forall_impl; [exact Hall|]. intros z Hz. by eapply Htr.
  - constructor; [done|]. rewrite js_insert_perm. constructor; [by apply Htot|done].
Qed.

Lemma js_sort_sorted l :
  (∀ a b c, le a b = true → le b c = true → le a c = true) →
  (∀ a b, le a b = false → le b a = true) →
  StronglySorted (λ a b, le a b = true) (js_sort l).
Proof.
  intros Htr Htot. induction l as [|x l IH]; simpl; [constructor|]. by apply js_insert_sorted.
Qed.

End JsSort.
