(* ===== verification/JsText.v ===== *)
(** JavaScript strings as the program uses them: the [String.prototype]
    methods, the character classes of its regular expressions and the
    decimal grammar of [Number(string)].  Strings are byte strings; every
    string the program compares, slices or parses here is ASCII (ids, slugs,
    EANs, ISO dates, decimal literals), where a byte is a UTF-16 unit. *)

From Stdlib Require Import Ascii String.
From S2P Require Import Prelude.
Open Scope string_scope.
Open Scope Z_scope.

(* ------------------------------------------------------------------ *)
(** * Characters                                                        *)
(* ------------------------------------------------------------------ *)

Definition in_range (lo hi c : ascii) : bool :=
  (N_of_ascii lo <=? N_of_ascii c)%N && (N_of_ascii c <=? N_of_ascii hi)%N.

(** [\d], [[a-z]], [[A-Z]], [[0-9a-fA-F]] *)
Definition is_digit : ascii → bool := in_range "0" "9".
Definition is_lower : ascii → bool := in_range "a" "z".
Definition is_upper : ascii → bool := in_range "A" "Z".
Definition is_hex (c : ascii) : bool :=
  is_digit c || in_range "a" "f" c || in_range "A" "F" c.

(** ASCII white space and line terminators: what [trim] strips. *)
Definition is_space (c : ascii) : bool :=
  in_range "009" "013" c || (N_of_ascii c =? 32)%N.

Definition to_lower (c : ascii) : ascii :=
  if is_upper c then ascii_of_N (N_of_ascii c + 32) else c.

(* ------------------------------------------------------------------ *)
(** * Strings                                                           *)
(* ------------------------------------------------------------------ *)

Fixpoint str_forall (p : ascii → bool) (s : string) : bool :=
  match s with
  | EmptyString => true
  | String c s' => p c && str_forall p s'
  end.

Fixpoint str_map (f : ascii → ascii) (s : string) : string :=
  match s with
  | EmptyString => EmptyString
  | String c s' => String (f c) (str_map f s')
  end.

Fixpoint str_filter (p : ascii → bool) (s : string) : string :=
  match s with
  | EmptyString => EmptyString
  | String c s' => if p c then String c (str_filter p s') else str_filter p s'
  end.

(** [s.toLowerCase()] *)
Definition str_lower : string → string := str_map to_lower.

(** [s.replace(/a/g, b)] for one-character [a], [b] *)
Definition str_replace_all (a b : ascii) : string → string :=
  str_map (λ c, if Ascii.eqb c a then b else c).

(** [s.replace(a, b)]: the first occurrence only. *)
Fixpoint str_replace_first (a : ascii) (b : string) (s : string) : string :=
  match s with
  | EmptyString => EmptyString
  | String c s' =>
      if Ascii.eqb c a then b +:+ s' else String c (str_replace_first a b s')
  end.

(** [s.includes(p)] *)
Fixpoint str_includes (p s : string) : bool :=
  String.prefix p s ||
  match s with
  | EmptyString => false
  | String _ s' => str_includes p s'
  end.

(** [s.split(sep)] for a one-character separator: never empty. *)
Fixpoint str_split (sep : ascii) (s : string) : list string :=
  match s with
  | EmptyString => [""]
  | String c s' =>
      if Ascii.eqb c sep then "" :: str_split sep s'
      else match str_split sep s' with
           | [] => [String c ""]
           | w :: ws => String c w :: ws
           end
  end.

(** [parts.join(sep)] *)
Definition str_join (sep : string) (parts : list string) : string :=
  String.concat sep parts.

Fixpoint str_ltrim (s : string) : string :=
  match s with
  | String c s' => if is_space c then str_ltrim s' else s
  | EmptyString => ""
  end.

Fixpoint str_rev_app (s acc : string) : string :=
  match s with
  | EmptyString => acc
  | String c s' => str_rev_app s' (String c acc)
  end.
Definition str_rev (s : string) : string := str_rev_app s "".

(** [s.trim()] *)
Definition str_trim (s : string) : string := str_rev (str_ltrim (str_rev (str_ltrim s))).

(** [s.padStart(n, c)] *)
Definition str_pad_start (n : nat) (c : ascii) (s : string) : string :=
  String.concat "" (replicate (n - String.length s) (String c "")) +:+ s.

(** [s.slice(0, n)] *)
Definition str_take (n : nat) (s : string) : string := String.substring 0 n s.

(** [s.replace(/^0+(?=\d)/, '')]: leading zeros that a digit follows. *)
Fixpoint str_drop_zeros (s : string) : string :=
  match s with
  | String "0" (String d _ as s') => if is_digit d then str_drop_zeros s' else s
  | _ => s
  end.

(** [s1 < s2] on strings. *)
Definition str_ltb (s1 s2 : string) : bool := String.ltb s1 s2.

(** JavaScript truthiness of a nullable string. *)
Definition truthy (s : option string) : option string :=
  match s with
  | Some "" => None
  | _ => s
  end.

(** [^\d{lo,hi}$] *)
Definition matches_digits (lo hi : nat) (s : string) : bool :=
  str_forall is_digit s && bool_decide (lo ≤ String.length s ≤ hi)%nat.

(* ------------------------------------------------------------------ *)
(** * Decimal literals                                                  *)
(* ------------------------------------------------------------------ *)

Definition digit_val (c : ascii) : Z := Z.of_N (N_of_ascii c) - 48.

(** Longest run of digits: value appended to [acc], count, and the rest. *)
Fixpoint take_digits (acc : Z) (n : Z) (s : string) : Z * Z * string :=
  match s with
  | String c s' =>
      if is_digit c then take_digits (acc * 10 + digit_val c) (n + 1) s'
      else (acc, n, s)
  | EmptyString => (acc, n, s)
  end.

Definition take_sign (s : string) : bool * string :=
  match s with
  | String "-" s' => (true, s')
  | String "+" s' => (false, s')
  | _ => (false, s)
  end.

(** The exponent part, [Some 0] when absent, [None] when malformed. *)
Definition parse_exponent (s : string) : option Z :=
  match s with
  | EmptyString => Some 0
  | String "e" s' | String "E" s' =>
      let '(neg, s1) := take_sign s' in
      let '(v, n, rest) := take_digits 0 0 s1 in
      if (0 <? n) && String.eqb rest "" then Some (if neg then - v else v) else None
  | _ => None
  end.

(** [StrUnsignedDecimalLiteral] without [Infinity]: mantissa [m] and
    exponent [e] of the value [m * 10 ^ e]. *)
Definition parse_unsigned (s : string) : option (Z * Z) :=
  let '(i, ni, rest) := take_digits 0 0 s in
  let '(m, nf, rest') :=
    match rest with
    | String "." r => take_digits i 0 r
    | _ => (i, 0, rest)
    end in
  if 0 <? ni + nf then e ← parse_exponent rest'; Some (m, e - nf) else None.

(** Value of a run of decimal digits, as [Number] of such a string. *)
Definition digits_val (s : string) : Z := (take_digits 0 0 s).1.1.

(* ------------------------------------------------------------------ *)
(** * Lemmas                                                            *)
(* ------------------------------------------------------------------ *)

Lemma str_app_cons c s1 s2 : String c s1 +:+ s2 = String c (s1 +:+ s2).
Proof. done. Qed.

Lemma str_forall_app p s1 s2 :
  str_forall p (s1 +:+ s2) = str_forall p s1 && str_forall p s2.
Proof. induction s1 as [|c s1 IH]; simpl; [done|]. by rewrite IH, andb_assoc. Qed.

Lemma str_length_app s1 s2 :
  String.length (s1 +:+ s2) = (String.length s1 + String.length s2)%nat.
Proof. induction s1 as [|c s1 IH]; simpl; [done|]. by rewrite IH. Qed.

Lemma str_length_map f s : String.length (str_map f s) = String.length s.
Proof. induction s as [|c s IH]; simpl; [done|]. by rewrite IH. Qed.

Lemma str_forall_map p f s :
  (∀ c, p (f c) = true) → str_forall p (str_map f s) = true.
Proof. intros Hp. induction s as [|c s IH]; simpl; [done|]. by rewrite Hp. Qed.

Lemma str_forall_impl (p q : ascii → bool) s :
  (∀ c, p c = true → q c = true) → str_forall p s = true → str_forall q s = true.
Proof.
  intros Hpq. induction s as [|c s IH]; simpl; [done|].
  intros [? ?]%andb_true_iff. by rewrite Hpq, IH.
Qed.

Lemma str_forall_filter p s : str_forall p (str_filter p s) = true.
Proof. induction s as [|c s IH]; simpl; [done|]. destruct (p c) eqn:E; simpl; [by rewrite E|done]. Qed.

Lemma str_map_inj f p s1 s2 :
  (∀ c1 c2, p c1 = true → p c2 = true → f c1 = f c2 → c1 = c2) →
  str_forall p s1 = true → str_forall p s2 = true →
  str_map f s1 = str_map f s2 → s1 = s2.
Proof.
  intros Hf. revert s2. induction s1 as [|c1 s1 IH]; intros [|c2 s2]; simpl; try done.
  intros [? ?]%andb_true_iff [? ?]%andb_true_iff Heq. simplify_eq. f_equal; auto.
Qed.

Lemma str_app_inj_l s s1 s2 : s +:+ s1 = s +:+ s2 → s1 = s2.
Proof. induction s as [|c s IH]; simpl; [done|]. intros [=]. auto. Qed.

Lemma str_app_nil_r s : s +:+ "" = s.
Proof. induction s as [|c s IH]; [done|]. by rewrite str_app_cons, IH. Qed.

Lemma str_app_assoc s1 s2 s3 : s1 +:+ (s2 +:+ s3) = (s1 +:+ s2) +:+ s3.
Proof. induction s1 as [|c s IH]; [done|]. by rewrite !str_app_cons, IH. Qed.

Lemma str_split_cons sep s : str_split sep s ≠ [].
Proof. destruct s as [|c s]; simpl; [done|]. destruct (Ascii.eqb c sep); [done|]. by destruct (str_split sep s). Qed.

(** Splitting at a separator the prefix does not contain. *)
Lemma str_split_app sep w s :
  str_forall (λ c, negb (Ascii.eqb c sep)) w = true →
  str_split sep (w +:+ String sep s) = w :: str_split sep s.
Proof.
  induction w as [|c w IH]; simpl; [by rewrite Ascii.eqb_refl|].
  intros [Hc Hw]%andb_true_iff. apply negb_true_iff in Hc. rewrite Hc.
  by rewrite IH.
Qed.

Lemma str_split_join sep s : str_join (String sep "") (str_split sep s) = s.
Proof.
  unfold str_join. induction s as [|c s IH]; simpl; [done|].
  pose proof (str_split_cons sep s) as Hne.
  destruct (Ascii.eqb c sep) eqn:E.
  - apply Ascii.eqb_eq in E as ->. destruct (str_split sep s); [done|]. simpl in *. by rewrite IH.
  - destruct (str_split sep s) as [|w [|w' ws]]; [done| |]; simpl in *; [by rewrite IH|].
    by rewrite str_app_cons, IH.
Qed.

Lemma str_drop_zeros_digits s :
  str_forall is_digit s = true → str_forall is_digit (str_drop_zeros s) = true.
Proof.
  induction s as [|c s IH]; [done|]. intros H.
  simpl in H. apply andb_true_iff in H as [Hc Hs].
  cbn [str_drop_zeros]. destruct s as [|d s']; [by repeat case_match; simpl; rewrite ?Hc|].
  repeat case_match; simplify_eq; try (by apply IH); cbn [str_forall]; by rewrite ?Hc, ?Hs.
Qed.

Lemma str_ltb_irrefl s : str_ltb s s = false.
Proof.
  unfold str_ltb, String.ltb. induction s as [|c s IH]; simpl; [done|].
  unfold Ascii.compare. by rewrite N.compare_refl.
Qed.

Lemma str_ltb_asym s1 s2 : str_ltb s1 s2 = true → str_ltb s2 s1 = false.
Proof.
  unfold str_ltb, String.ltb. rewrite (String.compare_antisym s1 s2).
  by destruct (String.compare s2 s1).
Qed.

Lemma str_ltb_total s1 s2 : str_ltb s1 s2 = false → str_ltb s2 s1 = false → s1 = s2.
Proof.
  unfold str_ltb, String.ltb. rewrite (String.compare_antisym s1 s2).
  destruct (String.compare s2 s1) eqn:E; simpl; try done.
  by apply String.compare_eq_iff in E.
Qed.

Lemma str_ltb_trans s1 s2 s3 :
  str_ltb s1 s2 = true → str_ltb s2 s3 = true → str_ltb s1 s3 = true.
Proof.
  unfold str_ltb, String.ltb. revert s2 s3.
  induction s1 as [|a s1 IH]; intros [|b s2] [|c s3]; simpl; try done.
  unfold Ascii.compare. specialize (IH s2 s3).
  destruct (N.compare_spec (N_of_ascii a) (N_of_ascii b)) as [E1|E1|E1];
  destruct (N.compare_spec (N_of_ascii b) (N_of_ascii c)) as [E2|E2|E2];
  destruct (N.compare_spec (N_of_ascii a) (N_of_ascii c)) as [E3|E3|E3];
  try done; try lia; auto.
Qed.

#[export] Hint Resolve str_ltb_irrefl str_ltb_asym str_ltb_trans : farma.
Lemma pretty_N_char_digit d : (d < 10)%N →
  is_digit (pretty_N_char d) = true ∧ digit_val (pretty_N_char d) = Z.of_N d.
Proof.
  intros Hd. assert (d ∈ (N.of_nat <$> seq 0 10)) as Hin.
  { apply list_elem_of_fmap. exists (N.to_nat d). split; [lia|]. apply elem_of_seq. lia. }
  clear Hd. revert d Hin. apply Forall_forall. vm_compute. repeat constructor.
Qed.

Lemma take_digits_pretty x s :
  ∃ k, 0 <= k ∧ ∀ a n, take_digits a n (pretty_N_go x s) = take_digits (a * 10 ^ k + Z.of_N x) (n + k) s.
Proof.
  revert s. induction (N.lt_wf_0 x) as [x _ IH]. intros s.
  destruct (decide (0 < x)%N) as [Hx|Hx].
  2:{ assert (x = 0%N) as -> by lia. exists 0. split; [lia|]. intros a n. rewrite pretty_N_go_0.
      f_equal; lia. }
  rewrite pretty_N_go_step by done.
  destruct (IH (x `div` 10)%N (N.div_lt x 10 Hx eq_refl) (String (pretty_N_char (x `mod` 10)) s)) as (k & Hk & E).
  exists (k + 1). split; [lia|]. intros a n. rewrite E. cbn [take_digits].
  destruct (pretty_N_char_digit (x `mod` 10)) as [-> ->]; [apply N.mod_lt; lia|].
  f_equal; [|lia]. rewrite Z.pow_add_r by lia.
  rewrite N2Z.inj_div, N2Z.inj_mod. change (Z.of_N 10) with 10.
  pose proof (Z.div_mod (Z.of_N x) 10). lia.
Qed.

(** Reading back the decimal text of a natural number. *)
Lemma digits_val_pretty z : 0 <= z → digits_val (pretty z) = z.
Proof.
  intros Hz. unfold digits_val. assert (∃ k, pretty z = pretty_N_go k "" ∧ Z.of_N k = z ∨ z = 0) as (k & [[-> Hk]| ->]).
  { destruct z as [|p|p]; [exists 0%N; by right| |lia]. exists (Npos p). left. done. }
  - destruct (take_digits_pretty k "") as (n & _ & E). rewrite E. simpl. lia.
  - done.
Qed.
