(* ===== verification/JsNumber.v ===== *)
(** JavaScript numbers.

    [JsNum] is the interface the pricing code is written against: IEEE-754
    comparison, arithmetic, [Math.floor], [Math.round], [Math.abs],
    [Number.isFinite] and decimal literals.  Two implementations:

    - [F64]: binary64 with round-to-nearest-even, the numbers JavaScript
      computes with (the executable [SpecFloat] semantics of Corelib);
    - [XQ]: exact rationals with infinities and NaN, the idealisation under
      which statements about margins read as real arithmetic.

    [JsNumLaws] states the order laws both satisfy; client theorems that
    only compare numbers are proved against it and hold of both. *)

From Stdlib Require Import Ascii String QArith Qround Qabs Lqa.
From Corelib Require Import SpecFloat.
From S2P Require Import Prelude JsText.
Open Scope string_scope.
Open Scope Z_scope.

Class JsNum (N : Type) := {
  n_cmp : N → N → option comparison;
  n_add : N → N → N;
  n_sub : N → N → N;
  n_mul : N → N → N;
  n_div : N → N → N;
  n_opp : N → N;
  n_abs : N → N;
  n_floor : N → N;
  n_round : N → N;
  n_finite : N → bool;
  n_inf : bool → N;
  n_nan : N;
  (** [n_dec m k]: the literal [m * 10^(-k)] *)
  n_dec : Z → nat → N;
  (** sign and nearest number of hundredths of the magnitude, ties up;
      [None] for [NaN], infinities and magnitudes from [1e21] on *)
  n_hundredths : N → option (bool * Z);
}.

Declare Scope js_scope.
Delimit Scope js_scope with js.

Section Comparisons.
Context {N : Type} `{JsNum N}.
Definition n_lt (a b : N) : bool :=
  match n_cmp a b with Some Lt => true | _ => false end.
Definition n_le (a b : N) : bool :=
  match n_cmp a b with Some Lt | Some Eq => true | _ => false end.
Definition n_eq (a b : N) : bool :=
  match n_cmp a b with Some Eq => true | _ => false end.
(** Not [NaN]. *)
Definition is_num (a : N) : Prop := n_cmp a a = Some Eq.
Definition n_int (z : Z) : N := n_dec z 0.
End Comparisons.

Infix "+" := n_add : js_scope.
Infix "-" := n_sub : js_scope.
Infix "*" := n_mul : js_scope.
Infix "/" := n_div : js_scope.
Infix "<?" := n_lt : js_scope.
Infix "<=?" := n_le : js_scope.
Notation "a >? b" := (n_lt b a) (only parsing) : js_scope.
Notation "a >=? b" := (n_le b a) (only parsing) : js_scope.
Infix "=?" := n_eq : js_scope.
Notation "# z" := (n_int z) (at level 10, z at level 9, format "# z") : js_scope.

(* ------------------------------------------------------------------ *)
(** * Values of the database and of JSON that are read as numbers       *)
(* ------------------------------------------------------------------ *)

(** [number | string | null]: what [pg] returns for a numeric column
    (strings), JSON for a number field, and both for an absent one. *)
Inductive JsVal (N : Type) : Type :=
| VNull
| VNum (n : N)
| VStr (s : string).
Arguments VNull {N}.
Arguments VNum {N} n.
Arguments VStr {N} s.

Section NumberOfString.
Context {N : Type} `{JsNum N}.
Open Scope js_scope.

(** [m * 10^e] *)
Definition n_scaled (m e : Z) : N :=
  if (0 <=? e)%Z then n_dec (m * 10 ^ e)%Z 0 else n_dec m (Z.to_nat (- e)).

Definition radix_digit (c : ascii) : Z :=
  if is_digit c then digit_val c
  else if in_range "a" "f" c then (Z.of_N (N_of_ascii c) - 87)%Z
  else if in_range "A" "F" c then (Z.of_N (N_of_ascii c) - 55)%Z
  else 99.

(** Digits of a [0x], [0o] or [0b] literal; at least one. *)
Fixpoint radix_val (base acc : Z) (s : string) : option Z :=
  match s with
  | EmptyString => Some acc
  | String c s' =>
      if (radix_digit c <? base)%Z
      then radix_val base (acc * base + radix_digit c)%Z s' else None
  end.

Definition parse_radix (s : string) : option (option Z) :=
  match s with
  | String "0" (String p (String _ _ as ds)) =>
      if Ascii.eqb p "x" || Ascii.eqb p "X" then Some (radix_val 16 0 ds)
      else if Ascii.eqb p "o" || Ascii.eqb p "O" then Some (radix_val 8 0 ds)
      else if Ascii.eqb p "b" || Ascii.eqb p "B" then Some (radix_val 2 0 ds)
      else None
  | _ => None
  end.

(** [Number(s)] of a string: the [StringToNumber] of ECMA-262. *)
Definition js_Number (s : string) : N :=
  let t := str_trim s in
  if String.eqb t "" then #0
  else match parse_radix t with
  | Some (Some v) => n_dec v 0
  | Some None => n_nan
  | None =>
      let '(neg, u) := take_sign t in
      if String.eqb u "Infinity" then n_inf neg
      else match parse_unsigned u with
      | Some (m, e) => if neg then n_opp (n_scaled m e) else n_scaled m e
      | None => n_nan
      end
  end.

End NumberOfString.

(* ------------------------------------------------------------------ *)
(** * binary64                                                          *)
(* ------------------------------------------------------------------ *)

Abbreviation F64 := spec_float.

Definition f64_of_Z (z : Z) : F64 := binary_normalize 53 1024 z 0 false.

(** [m / 10^k] rounded once: [SFdiv] divides the unrounded integers. *)
Definition f64_dec (m : Z) (k : nat) : F64 :=
  match m with
  | Z0 => S754_zero false
  | Zpos p =>
      match k with
      | O => f64_of_Z m
      | _ => SFdiv 53 1024 (S754_finite false p 0)
                           (S754_finite false (Z.to_pos (10 ^ Z.of_nat k)) 0)
      end
  | Zneg p =>
      match k with
      | O => f64_of_Z m
      | _ => SFdiv 53 1024 (S754_finite true p 0)
                           (S754_finite false (Z.to_pos (10 ^ Z.of_nat k)) 0)
      end
  end.

Definition f64_floor (x : F64) : F64 :=
  match x with
  | S754_finite s m e =>
      if 0 <=? e then x
      else binary_normalize 53 1024 (cond_Zopp s (Zpos m) / 2 ^ (- e)) 0 s
  | _ => x
  end.

(** [Math.round]: the nearest integer, ties towards [+oo]. *)
Definition f64_round (x : F64) : F64 :=
  match x with
  | S754_finite s m e =>
      if 0 <=? e then x
      else binary_normalize 53 1024
             ((2 * cond_Zopp s (Zpos m) + 2 ^ (- e)) / 2 ^ (- e + 1)) 0 s
  | _ => x
  end.

Definition f64_finite (x : F64) : bool :=
  match x with S754_zero _ | S754_finite _ _ _ => true | _ => false end.

Definition f64_hundredths (x : F64) : option (bool * Z) :=
  match x with
  | S754_zero _ => Some (false, 0)
  | S754_finite s m e =>
      let n := if 0 <=? e then Zpos m * 2 ^ e * 100
               else (2 * (Zpos m * 100) + 2 ^ (- e)) / 2 ^ (- e + 1) in
      if n <? 10 ^ 23 then Some (s, n) else None
  | _ => None
  end.

#[export] Instance F64_num : JsNum F64 := {|
  n_cmp := SFcompare;
  n_add := SFadd 53 1024;
  n_sub := SFsub 53 1024;
  n_mul := SFmul 53 1024;
  n_div := SFdiv 53 1024;
  n_opp := SFopp;
  n_abs := SFabs;
  n_floor := f64_floor;
  n_round := f64_round;
  n_finite := f64_finite;
  n_inf := S754_infinity;
  n_nan := S754_nan;
  n_dec := f64_dec;
  n_hundredths := f64_hundredths;
|}.

(* ------------------------------------------------------------------ *)
(** * Exact rationals                                                   *)
(* ------------------------------------------------------------------ *)

Inductive XQ : Type :=
| XFin (q : Q)
| XInf (neg : bool)
| XNaN.

Definition xq_neg (q : Q) : bool := negb (Qle_bool 0 q).

Definition xq_cmp (a b : XQ) : option comparison :=
  match a, b with
  | XNaN, _ | _, XNaN => None
  | XFin p, XFin q => Some (p ?= q)%Q
  | XInf n, XInf n' => Some (if n then if n' then Eq else Lt else if n' then Gt else Eq)
  | XInf n, _ => Some (if n then Lt else Gt)
  | _, XInf n => Some (if n then Gt else Lt)
  end.

Definition xq_opp (a : XQ) : XQ :=
  match a with XFin q => XFin (- q) | XInf n => XInf (negb n) | XNaN => XNaN end.

Definition xq_add (a b : XQ) : XQ :=
  match a, b with
  | XNaN, _ | _, XNaN => XNaN
  | XFin p, XFin q => XFin (p + q)
  | XInf n, XInf n' => if Bool.eqb n n' then a else XNaN
  | XInf _, _ => a
  | _, XInf _ => b
  end.

Definition xq_mul (a b : XQ) : XQ :=
  match a, b with
  | XNaN, _ | _, XNaN => XNaN
  | XFin p, XFin q => XFin (p * q)
  | XInf n, XInf n' => XInf (xorb n n')
  | XInf n, XFin q | XFin q, XInf n =>
      if Qeq_bool q 0 then XNaN else XInf (xorb n (xq_neg q))
  end.

Definition xq_div (a b : XQ) : XQ :=
  match a, b with
  | XNaN, _ | _, XNaN => XNaN
  | XFin p, XFin q =>
      if Qeq_bool q 0
      then if Qeq_bool p 0 then XNaN else XInf (xq_neg p)
      else XFin (p / q)
  | XInf _, XInf _ => XNaN
  | XInf n, XFin q => XInf (xorb n (xq_neg q))
  | XFin _, XInf _ => XFin 0
  end.

Definition xq_lift (f : Q → Q) (a : XQ) : XQ :=
  match a with XFin q => XFin (f q) | _ => a end.

Definition xq_dec (m : Z) (k : nat) : XQ := XFin (m # Z.to_pos (10 ^ Z.of_nat k)).

Definition xq_hundredths (x : XQ) : option (bool * Z) :=
  match x with
  | XFin q =>
      let n := Qfloor (Qabs q * 100 + (1 # 2)) in
      if n <? 10 ^ 23 then Some (xq_neg q, n) else None
  | _ => None
  end.

#[export] Instance XQ_num : JsNum XQ := {|
  n_cmp := xq_cmp;
  n_add := xq_add;
  n_sub := λ a b, xq_add a (xq_opp b);
  n_mul := xq_mul;
  n_div := xq_div;
  n_opp := xq_opp;
  n_abs := λ a, match a with XFin q => XFin (Qabs q) | XInf _ => XInf false | XNaN => XNaN end;
  n_floor := xq_lift (λ q, inject_Z (Qfloor q));
  n_round := xq_lift (λ q, inject_Z (Qfloor (q + (1 # 2))));
  n_finite := λ a, match a with XFin _ => true | _ => false end;
  n_inf := XInf;
  n_nan := XNaN;
  n_dec := xq_dec;
  n_hundredths := xq_hundredths;
|}.

(* ------------------------------------------------------------------ *)
(** * Order laws                                                        *)
(* ------------------------------------------------------------------ *)

Class JsNumLaws (N : Type) `{JsNum N} := {
  cmp_flip : ∀ a b : N, n_cmp b a = CompOpp <$> n_cmp a b;
  cmp_num_l : ∀ (a b : N) c, n_cmp a b = Some c → is_num a;
  cmp_total : ∀ a b : N, is_num a → is_num b → is_Some (n_cmp a b);
  cmp_lt_trans : ∀ a b c : N,
    n_cmp a b = Some Lt → n_cmp b c = Some Lt → n_cmp a c = Some Lt;
  cmp_eq_l : ∀ a b c : N, n_cmp a b = Some Eq → n_cmp a c = n_cmp b c;
  finite_num : ∀ a : N, n_finite a = true → is_num a;
  zero_num : is_num (n_dec 0 0 : N);
  ninf_le : ∀ a : N, is_num a → n_le (n_inf true) a = true;
  le_inf : ∀ a : N, is_num a → n_le a (n_inf false) = true;
}.

Section OrderLemmas.
Context {N : Type} `{JsNumLaws N}.
Implicit Types (a b c : N).
Open Scope js_scope.

Lemma cmp_num_r a b o : n_cmp a b = Some o → is_num b.
Proof.
  intros E. apply (cmp_num_l b a (CompOpp o)). by rewrite cmp_flip, E.
Qed.

Lemma n_lt_cmp a b : (a <? b) = true ↔ n_cmp a b = Some Lt.
Proof. unfold n_lt. destruct (n_cmp a b) as [[]|]; naive_solver. Qed.

Lemma n_lt_irrefl a : (a <? a) = false.
Proof.
  unfold n_lt. destruct (n_cmp a a) as [[]|] eqn:E; try done.
  pose proof (cmp_flip a a) as F. rewrite E in F. done.
Qed.

Lemma n_lt_trans a b c : (a <? b) = true → (b <? c) = true → (a <? c) = true.
Proof. rewrite !n_lt_cmp. apply cmp_lt_trans. Qed.

Lemma n_le_refl a : is_num a → (a <=? a) = true.
Proof. unfold is_num, n_le. by intros ->. Qed.

Lemma n_lt_le a b : (a <? b) = true → (a <=? b) = true.
Proof. unfold n_lt, n_le. by destruct (n_cmp a b) as [[]|]. Qed.

Lemma n_le_num a b : (a <=? b) = true → is_num a ∧ is_num b.
Proof.
  unfold n_le. destruct (n_cmp a b) as [c|] eqn:E; [|done].
  intros _. split; [by eapply cmp_num_l|by eapply cmp_num_r].
Qed.

Lemma n_lt_num a b : (a <? b) = true → is_num a ∧ is_num b.
Proof. intros ?%n_lt_le. by apply n_le_num. Qed.

(** On numbers that are not [NaN], [!(a < b)] is [b <= a]. *)
Lemma n_not_lt a b : is_num a → is_num b → (a <? b) = false → (b <=? a) = true.
Proof.
  intros Ha Hb. destruct (cmp_total a b Ha Hb) as [c E].
  unfold n_lt, n_le. rewrite (cmp_flip a b), E. by destruct c.
Qed.

Lemma n_not_le a b : is_num a → is_num b → (a <=? b) = false → (b <? a) = true.
Proof.
  intros Ha Hb. destruct (cmp_total a b Ha Hb) as [c E].
  unfold n_lt, n_le. rewrite (cmp_flip a b), E. by destruct c.
Qed.

Lemma n_lt_not_le a b : (a <? b) = true → (b <=? a) = false.
Proof. unfold n_lt, n_le. rewrite (cmp_flip a b). by destruct (n_cmp a b) as [[]|]. Qed.

Lemma n_le_not_lt a b : (a <=? b) = true → (b <? a) = false.
Proof. unfold n_lt, n_le. rewrite (cmp_flip a b). by destruct (n_cmp a b) as [[]|]. Qed.

Lemma n_le_lt_trans a b c : (a <=? b) = true → (b <? c) = true → (a <? c) = true.
Proof.
  unfold n_le, n_lt. destruct (n_cmp a b) as [[]|] eqn:E; try done; intros _.
  - by rewrite (cmp_eq_l _ _ c E).
  - destruct (n_cmp b c) as [[]|] eqn:E'; try done. by rewrite (cmp_lt_trans _ _ _ E E').
Qed.

Lemma n_lt_le_trans a b c : (a <? b) = true → (b <=? c) = true → (a <? c) = true.
Proof.
  rewrite n_lt_cmp. unfold n_le, n_lt. intros E.
  destruct (n_cmp b c) as [[]|] eqn:E'; try done; intros _.
  - assert (n_cmp c b = Some Eq) as E2 by (by rewrite cmp_flip, E').
    rewrite cmp_flip. rewrite (cmp_eq_l _ _ a E2), cmp_flip, E. done.
  - by rewrite (cmp_lt_trans _ _ _ E E').
Qed.

Lemma n_le_trans a b c : (a <=? b) = true → (b <=? c) = true → (a <=? c) = true.
Proof.
  intros Hab Hbc. unfold n_le in Hab. destruct (n_cmp a b) as [[]|] eqn:E; try done.
  - unfold n_le in *. by rewrite (cmp_eq_l _ _ c E).
  - apply n_lt_le, n_lt_le_trans with b; [by apply n_lt_cmp|done].
Qed.

Lemma n_pos_num a : (#0 <? a) = true → is_num a.
Proof. intros [_ ?]%n_lt_num. done. Qed.

Lemma n_not_pos_zero a : is_num a → (a <=? #0) = false → (#0 <? a) = true.
Proof. intros Ha. apply n_not_le; [done|apply zero_num]. Qed.

End OrderLemmas.

#[export] Hint Resolve n_lt_le n_le_refl finite_num n_pos_num zero_num : farma.

(** ** The two implementations satisfy the laws *)

Lemma sf_cmp_flip a b : SFcompare b a = CompOpp <$> SFcompare a b.
Proof.
  destruct a as [sa|sa| |sa ma ea], b as [sb|sb| |sb mb eb]; simpl;
    try (destruct sa; reflexivity); try (destruct sb; reflexivity);
    try (destruct sa, sb; reflexivity); try reflexivity.
  f_equal. rewrite (Z.compare_antisym ea eb).
  change (PosDef.Pos.compare_cont Eq mb ma) with (mb ?= ma)%positive.
  change (PosDef.Pos.compare_cont Eq ma mb) with (ma ?= mb)%positive.
  rewrite (Pos.compare_antisym ma mb).
  destruct sa, sb, (ea ?= eb); simpl; rewrite ?CompOpp_involutive; reflexivity.
Qed.

(** [SFcompare] of finite numbers is a lexicographic comparison of keys. *)
Definition sf_key (x : F64) : Z * Z * Z :=
  match x with
  | S754_zero _ | S754_nan => (0, 0, 0)
  | S754_infinity s => (if s then -2 else 2, 0, 0)
  | S754_finite s m e =>
      if s then (-1, - e, Zneg m) else (1, e, Zpos m)
  end.

Definition key_cmp (a b : Z * Z * Z) : comparison :=
  match a.1.1 ?= b.1.1 with
  | Eq => match a.1.2 ?= b.1.2 with Eq => a.2 ?= b.2 | c => c end
  | c => c
  end.

Lemma sf_cmp_key a b :
  SFcompare a b =
  match a, b with
  | S754_nan, _ | _, S754_nan => None
  | _, _ => Some (key_cmp (sf_key a) (sf_key b))
  end.
Proof.
  destruct a as [[]|[]| |[] ma ea], b as [[]|[]| |[] mb eb]; try reflexivity.
  - simpl. unfold key_cmp; simpl. f_equal.

    change (PosDef.Pos.compare_cont Eq ma mb) with (ma ?= mb)%positive.
    destruct (Z.compare_spec ea eb), (Z.compare_spec (- ea) (- eb)); done || lia.
Qed.

Lemma key_cmp_trans a b c : key_cmp a b = Lt → key_cmp b c = Lt → key_cmp a c = Lt.
Proof.
  unfold key_cmp. destruct a as [[a1 a2] a3], b as [[b1 b2] b3], c as [[c1 c2] c3]; simpl.
  repeat match goal with |- context [?x ?= ?y] =>
    let E := fresh in destruct (Z.compare_spec x y) as [E|E|E] end; try done; lia.
Qed.

Lemma key_cmp_eq a b : key_cmp a b = Eq → a = b.
Proof.
  unfold key_cmp. destruct a as [[a1 a2] a3], b as [[b1 b2] b3]; simpl.
  repeat match goal with |- context [?x ?= ?y] =>
    let E := fresh in destruct (Z.compare_spec x y) as [E|E|E] end; try done; by intros; subst.
Qed.

Lemma key_cmp_refl a : key_cmp a a = Eq.
Proof. unfold key_cmp. by rewrite !Z.compare_refl. Qed.

#[export] Instance F64_laws : JsNumLaws F64.
Proof.
  split; unfold is_num; simpl.
  - apply sf_cmp_flip.
  - intros a b c. rewrite !sf_cmp_key, key_cmp_refl. by destruct a, b.
  - intros a b. rewrite !sf_cmp_key. destruct a, b; by eauto.
  - intros a b c. rewrite !sf_cmp_key.
    destruct a; try done; destruct b; try done; destruct c; try done; intros [=] [=];
      f_equal; eauto using key_cmp_trans.
  - intros a b c. rewrite !sf_cmp_key. destruct a; try done; destruct b; try done;
      intros [= E%key_cmp_eq]; destruct c; try done; f_equal;
      exact (f_equal (λ k, key_cmp k _) E).
  - intros a. rewrite sf_cmp_key, key_cmp_refl. by destruct a.
  - reflexivity.
  - by intros [[]|[]| |[] m e].
  - by intros [[]|[]| |[] m e].
Qed.

#[export] Instance XQ_laws : JsNumLaws XQ.
Proof.
  split; unfold is_num; simpl.
  - intros [p|[]|] [q|[]|]; simpl; try done. f_equal. by rewrite <- Qcompare_antisym.
  - intros [p|[]|] [q|[]|] c; simpl; try done; intros _; f_equal; by apply Qeq_alt.
  - intros [p|[]|] [q|[]|]; simpl; by eauto.
  - intros [p|[]|] [q|[]|] [r|[]|]; simpl; try done.
    intros [= H1] [= H2]. f_equal. rewrite <- Qlt_alt in *. by apply Qlt_trans with q.
  - intros [p|[]|] [q|[]|] [r|[]|]; simpl; try done.
    intros [= H1]. f_equal. apply Qeq_alt in H1. by rewrite H1.
  - intros [p|[]|]; try done. intros _. simpl. f_equal. by apply Qeq_alt.
  - reflexivity.
  - by intros [p|[]|].
  - by intros [p|[]|].
Qed.

(** ** Exact arithmetic *)

Lemma xq_le p q : n_le (XFin p) (XFin q) = true ↔ (p <= q)%Q.
Proof.
  unfold n_le; simpl. rewrite Qle_alt. destruct (p ?= q)%Q; naive_solver.
Qed.

Lemma xq_lt p q : n_lt (XFin p) (XFin q) = true ↔ (p < q)%Q.
Proof. unfold n_lt; simpl. rewrite Qlt_alt. destruct (p ?= q)%Q; naive_solver. Qed.

Lemma xq_lt_false p q : n_lt (XFin p) (XFin q) = false ↔ (q <= p)%Q.
Proof.
  destruct (n_lt _ _) eqn:E.
  - apply xq_lt in E. split; [done|]. intros. exfalso. lra.
  - split; [|done]. intros _. destruct (Qlt_le_dec p q) as [Hl|]; [|done].
    apply xq_lt in Hl. congruence.
Qed.

Lemma xq_le_false p q : n_le (XFin p) (XFin q) = false ↔ (q < p)%Q.
Proof.
  destruct (n_le _ _) eqn:E.
  - apply xq_le in E. split; [done|]. intros. exfalso. lra.
  - split; [|done]. intros _. destruct (Qlt_le_dec q p) as [|Hl]; [done|].
    apply xq_le in Hl. congruence.
Qed.

(** [Math.round] moves a number by at most one half. *)
Lemma Qround_half q :
  (q - (1 # 2) < inject_Z (Qfloor (q + (1 # 2))) <= q + (1 # 2))%Q.
Proof.
  pose proof (Qfloor_le (q + (1 # 2))) as H1.
  pose proof (Qlt_floor (q + (1 # 2))) as H2.
  rewrite inject_Z_plus in H2. change (inject_Z 1) with 1%Q in H2. lra.
Qed.

Lemma Qround_mono p q :
  (p <= q)%Q → (inject_Z (Qfloor (p + (1 # 2))) <= inject_Z (Qfloor (q + (1 # 2))))%Q.
Proof. intros. rewrite <- Zle_Qle. apply Qfloor_resp_le. lra. Qed.

Lemma Qround_int z : Qfloor (inject_Z z + (1 # 2)) = z.
Proof. 
  pose proof (Qround_half (inject_Z z)) as [H1 H2].
  pose proof (Qfloor_le (inject_Z z + (1#2))) as H3.
  set (f := Qfloor (inject_Z z + (1 # 2))) in *.
  assert (inject_Z z < inject_Z (f + 1))%Q.
  { rewrite inject_Z_plus. change (inject_Z 1) with 1%Q. lra. }
  assert (inject_Z f < inject_Z (z + 1))%Q.
  { rewrite inject_Z_plus. change (inject_Z 1) with 1%Q. lra. }
  rewrite <- Zlt_Qlt in *. lia.
Qed.

(** ** Evaluation examples *)

Example f64_number_ex :
  js_Number " 12.50 " = (f64_dec 125 1 : F64) ∧ (js_Number "0x10" : F64) = f64_of_Z 16
  ∧ (js_Number "1e3" : F64) = f64_of_Z 1000 ∧ (js_Number "12a" : F64) = S754_nan
  ∧ (js_Number "" : F64) = S754_zero false.
Proof. vm_compute. done. Qed.

(** The classic: [1.005 * 100] is [100.49999999999999]. *)
Example f64_1005 :
  f64_round (SFmul 53 1024 (f64_dec 1005 3) (f64_of_Z 100)) = f64_of_Z 100.
Proof. reflexivity. Qed.
