(* ===== verification/JsDate.v ===== *)
(** [Date.prototype.toISOString]: the proleptic Gregorian calendar of
    ECMA-262, from a time value in milliseconds, and the fact that the
    string determines the time, on which the idempotency keys of the
    schedules rest. *)

From Stdlib Require Import Ascii String.
From S2P Require Import Prelude JsText.
Open Scope string_scope.
Open Scope list_scope.
Open Scope Z_scope.

(* ------------------------------------------------------------------ *)
(** * Definitions                                                       *)
(* ------------------------------------------------------------------ *)

Definition digit_char (d : Z) : ascii := ascii_of_N (Z.to_N (48 + d)).

(** [n] in [w] decimal digits, zero-padded. *)
Fixpoint dec_pad (w : nat) (n : Z) : string :=
  match w with
  | O => ""
  | S w' => dec_pad w' (n / 10) +:+ String (digit_char (n mod 10)) ""
  end.

(** Day 0 of an era of 400 years is a 1st of March. *)
Definition civil_of_doe (doe : Z) : Z * Z * Z :=
  let yoe := (doe - doe / 1460 + doe / 36524 - doe / 146096) / 365 in
  let doy := doe - (365 * yoe + yoe / 4 - yoe / 100) in
  let mp := (5 * doy + 2) / 153 in
  let d := doy - (153 * mp + 2) / 5 + 1 in
  let m := if mp <? 10 then mp + 3 else mp - 9 in
  (yoe + (if m <=? 2 then 1 else 0), m, d).

(** Year, month and day of a day number counted from 1970-01-01. *)
Definition civil_from_days (days : Z) : Z * Z * Z :=
  let z := days + 719468 in
  let '(y, m, d) := civil_of_doe (z mod 146097) in
  (y + 400 * (z / 146097), m, d).

Definition ms_per_day : Z := 86400000.

Definition iso_year (y : Z) : string :=
  if (0 <=? y) && (y <=? 9999) then dec_pad 4 y
  else String (if y <? 0 then "-"%char else "+"%char) (dec_pad 6 (Z.abs y)).

Definition toISOString (t : Z) : string :=
  let '(y, m, d) := civil_from_days (t / ms_per_day) in
  let ms := t mod ms_per_day in
  iso_year y +:+ "-" +:+ dec_pad 2 m +:+ "-" +:+ dec_pad 2 d
  +:+ "T" +:+ dec_pad 2 (ms / 3600000) +:+ ":" +:+ dec_pad 2 (ms / 60000 mod 60)
  +:+ ":" +:+ dec_pad 2 (ms / 1000 mod 60) +:+ "." +:+ dec_pad 3 (ms mod 1000) +:+ "Z".

(** The day number of a date: the inverse of [civil_from_days]. *)
Definition doe_of_civil (y m d : Z) : Z :=
  let yy := if m <=? 2 then y - 1 else y in
  let mp := if 2 <? m then m - 3 else m + 9 in
  let doy := (153 * mp + 2) / 5 + d - 1 in
  365 * yy + yy / 4 - yy / 100 + yy / 400 + doy.

(* ------------------------------------------------------------------ *)
(** * Laws                                                              *)
(* ------------------------------------------------------------------ *)

Lemma dec_pad_length w n : String.length (dec_pad w n) = w.
Proof. revert n. induction w as [|w IH]; intros n; simpl; [done|]. rewrite str_length_app, IH. simpl. lia. Qed.

Lemma str_app_inj_len a a' b b' :
  String.length a = String.length a' → a +:+ b = a' +:+ b' → a = a' ∧ b = b'.
Proof.
  revert a'. induction a as [|c a IH]; intros [|c' a'] Hl H; simpl in *; try done.
  injection H as -> H. injection Hl as Hl. by destruct (IH _ Hl H) as [-> ->].
Qed.

Lemma digit_char_inj d d' : 0 <= d < 10 → 0 <= d' < 10 → digit_char d = digit_char d' → d = d'.
Proof.
  intros H H' E. apply (f_equal N_of_ascii) in E. unfold digit_char in E.
  rewrite !N_ascii_embedding in E by lia. lia.
Qed.

Lemma dec_pad_inj w n n' :
  0 <= n < 10 ^ Z.of_nat w → 0 <= n' < 10 ^ Z.of_nat w → dec_pad w n = dec_pad w n' → n = n'.
Proof.
  revert n n'. induction w as [|w IH]; intros n n' Hn Hn' E; [simpl in *; lia|].
  rewrite Nat2Z.inj_succ, Z.pow_succ_r in Hn, Hn' by lia. simpl in E.
  apply str_app_inj_len in E as [E1 E2]; [|by rewrite !dec_pad_length].
  injection E2 as E2. apply digit_char_inj in E2; [|apply Z.mod_pos_bound; lia..].
  apply IH in E1; [|split; [apply Z.div_pos; lia|apply Z.div_lt_upper_bound; lia]..].
  rewrite (Z.div_mod n 10), (Z.div_mod n' 10) by lia. lia.
Qed.

(** ** One era, by its 400 years and 366 days *)

Fixpoint all_below (p : Z → bool) (n : nat) (from : Z) : bool :=
  match n with O => true | S n' => p from && all_below p n' (from + 1) end.

Lemma all_below_spec p n from :
  all_below p n from = true → ∀ k, from <= k < from + Z.of_nat n → p k = true.
Proof.
  revert from. induction n as [|n IH]; intros from H k Hk; [lia|]. simpl in H.
  apply andb_true_iff in H as [H1 H2]. destruct (decide (k = from)) as [->|]; [done|].
  apply (IH (from + 1)); [done|lia].
Qed.

(** Days of an era without its leap days, and the first day of a year. *)
Definition no_leap (doe : Z) : Z := doe - doe / 1460 + doe / 36524 - doe / 146096.
Definition year_start (y : Z) : Z := 365 * y + y / 4 - y / 100.
Definition year_end (y : Z) : Z := if y =? 399 then 146096 else year_start (y + 1) - 1.

Lemma no_leap_mono a b : 0 <= a <= b → b <= 146096 → no_leap a <= no_leap b.
Proof.
  intros Ha Hb. unfold no_leap. pose proof (Z.div_le_mono a b 36524 ltac:(lia) ltac:(lia)).
  assert (a = b ∨ b - a >= 1 + (b / 1460 - a / 1460) ∨ b / 146096 = a / 146096 ∧ b - a >= b / 1460 - a / 1460)
    as [->|Hc]; [|lia|]; Z.to_euclidean_division_equations; lia.
Qed.

Definition year_ok (y : Z) : bool :=
  (no_leap (year_start y) / 365 =? y) && (no_leap (year_end y) / 365 =? y)
  && (0 <=? year_start y) && (year_end y <=? 146096) && (year_end y <=? year_start y + 365).

Definition day_ok (doy : Z) : bool :=
  let mp := (5 * doy + 2) / 153 in
  let d := doy - (153 * mp + 2) / 5 + 1 in
  (0 <=? mp) && (mp <=? 11) && (1 <=? d) && (d <=? 31).

Lemma years_ok y : 0 <= y < 400 → year_ok y = true.
Proof. assert (all_below year_ok 400 0 = true) as H by reflexivity. intros. apply (all_below_spec _ _ _ H). lia. Qed.

Lemma days_ok doy : 0 <= doy < 366 → day_ok doy = true.
Proof. assert (all_below day_ok 366 0 = true) as H by reflexivity. intros. apply (all_below_spec _ _ _ H). lia. Qed.

Ltac year_facts y :=
  let H := fresh in pose proof (years_ok y ltac:(lia)) as H; unfold year_ok in H; bool_prop.

(** The year of a day: [year_start y <= doe <= year_end y]. *)
Lemma year_of_doe doe y :
  0 <= doe <= 146096 → y = no_leap doe / 365 → 0 <= y < 400 ∧ year_start y <= doe <= year_end y.
Proof.
  intros Hd Hy.
  assert (∀ a b, 0 <= a <= b → b <= 146096 → no_leap a / 365 <= no_leap b / 365) as Hmono.
  { intros a b Ha Hb. apply Z.div_le_mono; [lia|]. by apply no_leap_mono. }
  assert (0 <= y < 400) as Hb.
  { pose proof (Hmono 0 doe ltac:(lia) ltac:(lia)) as H1.
    pose proof (Hmono doe 146096 ltac:(lia) ltac:(lia)) as H2.
    change (no_leap 0 / 365) with 0 in H1. change (no_leap 146096 / 365) with 399 in H2. lia. }
  split; [done|]. split.
  - destruct (decide (y = 0)) as [->|Hne]; [change (year_start 0) with 0; lia|].
    apply Z.le_ngt. intros Hlt. year_facts (y - 1). year_facts y.
    assert (year_end (y - 1) = year_start y - 1) as E.
    { unfold year_end. rewrite (proj2 (Z.eqb_neq _ _)) by lia. by replace (y - 1 + 1) with y by lia. }
    pose proof (Hmono doe (year_end (y - 1)) ltac:(lia) ltac:(lia)). lia.
  - unfold year_end. destruct (y =? 399) eqn:E; [lia|]. apply Z.eqb_neq in E.
    apply Z.le_ngt. intros Hlt. year_facts (y + 1).
    pose proof (Hmono (year_start (y + 1)) doe ltac:(lia) ltac:(lia)). lia.
Qed.

Lemma doe_roundtrip doe :
  0 <= doe < 146097 →
  let '(y, m, d) := civil_of_doe doe in
  doe_of_civil y m d = doe ∧ 1 <= m <= 12 ∧ 1 <= d <= 31.
Proof.
  intros Hd. unfold civil_of_doe.
  destruct (year_of_doe doe (no_leap doe / 365) ltac:(lia) eq_refl) as [Hy Hr].
  unfold no_leap in Hy, Hr. cbv zeta.
  set (yoe := (doe - doe / 1460 + doe / 36524 - doe / 146096) / 365) in *.
  year_facts yoe. replace (doe - (365 * yoe + yoe / 4 - yoe / 100)) with (doe - year_start yoe) by done.
  set (doy := doe - year_start yoe) in *.
  pose proof (days_ok doy ltac:(lia)) as Hdoy. unfold day_ok in Hdoy.
  set (mp := (5 * doy + 2) / 153) in *. bool_prop.
  assert (yoe / 400 = 0) as E4 by (apply Z.div_small; lia).
  assert (doe = 365 * yoe + yoe / 4 - yoe / 100 + doy) as Edoe by (unfold doy, year_start; lia).
  clearbody mp doy.
  unfold doe_of_civil.
  destruct (Z.ltb_spec mp 10).
  - rewrite (proj2 (Z.leb_gt (mp + 3) 2)), (proj2 (Z.ltb_lt 2 (mp + 3))) by lia.
    replace (yoe + 0) with yoe by lia. replace (mp + 3 - 3) with mp by lia.
    lia.
  - rewrite (proj2 (Z.leb_le (mp - 9) 2)), (proj2 (Z.ltb_ge 2 (mp - 9))) by lia.
    replace (yoe + 1 - 1) with yoe by lia. replace (mp - 9 + 9) with mp by lia.
    lia.
Qed.

Lemma doe_of_civil_era y m d k :
  doe_of_civil (y + 400 * k) m d = doe_of_civil y m d + 146097 * k.
Proof.
  unfold doe_of_civil.
  assert (∀ z, (z + 400 * k) / 4 = z / 4 + 100 * k) as H4.
  { intros z. replace (z + 400 * k) with (z + 100 * k * 4) by lia. by rewrite Z.div_add. }
  assert (∀ z, (z + 400 * k) / 100 = z / 100 + 4 * k) as H100.
  { intros z. replace (z + 400 * k) with (z + 4 * k * 100) by lia. by rewrite Z.div_add. }
  assert (∀ z, (z + 400 * k) / 400 = z / 400 + k) as H400.
  { intros z. replace (z + 400 * k) with (z + k * 400) by lia. by rewrite Z.div_add. }
  destruct (m <=? 2); [replace (y + 400 * k - 1) with (y - 1 + 400 * k) by lia|];
    cbv zeta; rewrite H4, H100, H400; generalize ((153 * (if 2 <? m then m - 3 else m + 9) + 2) / 5);
    intros; ring.
Qed.

Lemma civil_roundtrip days :
  let '(y, m, d) := civil_from_days days in
  doe_of_civil y m d = days + 719468 ∧ 1 <= m <= 12 ∧ 1 <= d <= 31.
Proof.
  unfold civil_from_days. set (z := days + 719468).
  pose proof (Z.mod_pos_bound z 146097 ltac:(lia)) as Hb.
  pose proof (doe_roundtrip _ Hb) as Hok.
  destruct (civil_of_doe _) as [[y m] d]. destruct Hok as (Hok & ? & ?).
  rewrite doe_of_civil_era. pose proof (Z.div_mod z 146097 ltac:(lia)). lia.
Qed.

(** The years with a four-digit form: [0000] to [9999]. *)
Definition four_digit_year (t : Z) : Prop :=
  0 <= (civil_from_days (t / ms_per_day)).1.1 <= 9999.

Lemma time_of_parts x x' :
  0 <= x → 0 <= x' →
  x / 3600000 = x' / 3600000 → x / 60000 mod 60 = x' / 60000 mod 60 →
  x / 1000 mod 60 = x' / 1000 mod 60 → x mod 1000 = x' mod 1000 → x = x'.
Proof.
  intros Hx Hx' H1 H2 H3 H4.
  assert (∀ y, y / 3600000 = y / 60000 / 60) as E1 by (intros; by rewrite Z.div_div).
  assert (∀ y, y / 60000 = y / 1000 / 60) as E2 by (intros; by rewrite Z.div_div).
  rewrite !E1 in H1.
  assert (x / 60000 = x' / 60000) as H5.
  { rewrite (Z.div_mod (x / 60000) 60), (Z.div_mod (x' / 60000) 60) by lia. lia. }
  rewrite !E2 in H5.
  assert (x / 1000 = x' / 1000) as H6.
  { rewrite (Z.div_mod (x / 1000) 60), (Z.div_mod (x' / 1000) 60) by lia. lia. }
  rewrite (Z.div_mod x 1000), (Z.div_mod x' 1000) by lia. lia.
Qed.

(** The ISO string determines the instant: two times of years 0 to
    9999 with the same [toISOString] are the same millisecond. *)
Lemma toISOString_inj t t' :
  four_digit_year t → four_digit_year t' → toISOString t = toISOString t' → t = t'.
Proof.
  unfold four_digit_year, toISOString.
  pose proof (civil_roundtrip (t / ms_per_day)) as Hc.
  pose proof (civil_roundtrip (t' / ms_per_day)) as Hc'.
  destruct (civil_from_days (t / ms_per_day)) as [[y m] d].
  destruct (civil_from_days (t' / ms_per_day)) as [[y' m'] d'].
  destruct Hc as (Hd & Hm & Hdd), Hc' as (Hd' & Hm' & Hdd'). cbn [fst snd]. intros Hy Hy' E.
  pose proof (Z.mod_pos_bound t ms_per_day ltac:(done)) as Hx.
  pose proof (Z.mod_pos_bound t' ms_per_day ltac:(done)) as Hx'.
  set (x := t mod ms_per_day) in *. set (x' := t' mod ms_per_day) in *.
  unfold ms_per_day in Hx, Hx'. unfold iso_year in E.
  rewrite !(proj2 (Z.leb_le _ _)) in E by lia. cbn [andb] in E.
  repeat (apply str_app_inj_len in E as [?E E]; [|by rewrite ?dec_pad_length]).
  repeat match goal with H : dec_pad _ _ = dec_pad _ _ |- _ =>
    apply dec_pad_inj in H; [|simpl Z.of_nat; first [lia
      |split; [apply Z.div_pos; lia|apply Z.div_lt_upper_bound; lia]
      |pose proof (Z.mod_pos_bound (x / 60000) 60 ltac:(lia)); lia
      |pose proof (Z.mod_pos_bound (x' / 60000) 60 ltac:(lia)); lia
      |pose proof (Z.mod_pos_bound (x / 1000) 60 ltac:(lia)); lia
      |pose proof (Z.mod_pos_bound (x' / 1000) 60 ltac:(lia)); lia
      |pose proof (Z.mod_pos_bound x 1000 ltac:(lia)); lia
      |pose proof (Z.mod_pos_bound x' 1000 ltac:(lia)); lia]..] end.
  subst y' m' d'. rewrite Hd in Hd'.
  assert (x = x') as Hxx by (apply time_of_parts; lia || done).
  rewrite (Z.div_mod t ms_per_day), (Z.div_mod t' ms_per_day) by done.
  fold x x'. unfold ms_per_day in *. lia.
Qed.

Example iso_examples :
  toISOString 0 = "1970-01-01T00:00:00.000Z" ∧
  toISOString 1780315200000 = "2026-06-01T12:00:00.000Z" ∧
  toISOString (-1) = "1969-12-31T23:59:59.999Z" ∧
  toISOString 951827696123 = "2000-02-29T12:34:56.123Z".
Proof. vm_compute. done. Qed.

Lemma toISOString_inj_witness :
  toISOString 951827696123 = toISOString (951827696000 + 123) ∧ 951827696123 = 951827696000 + 123.
Proof.
  split; [reflexivity|].
  apply (toISOString_inj 951827696123 (951827696000 + 123));
    [vm_compute; split; discriminate..|reflexivity].
Defined.
