(* ===== verification/Enums.v ===== *)
(** Enumerations of [src/src/database/enums], with the string each member
    carries on the wire and in the database. *)

From S2P Require Import Prelude JsText.
Open Scope string_scope.

Inductive PipelineStep :=
| SYNC_BASE_PRODUCT | SYNC_BASE_PRODUCT_STOCK | SYNC_OFFER_BOOKS_INFO
| IMPORT_COMPETITOR_PRODUCTS | CALC_BASE_PRODUCT_METRICS
| UPDATE_BASE_PRODUCT_PROPERTIES | SYNC_STORES | SYNC_PRODUCT_ITEMS
| APPLY_PRICE | EXECUTE_OFFER_BOOK_RULE.

#[export] Instance PipelineStep_eq_dec : EqDecision PipelineStep.
Proof. solve_decision. Defined.

Definition step_str (s : PipelineStep) : string :=
  match s with
  | SYNC_BASE_PRODUCT => "sync-base-product"
  | SYNC_BASE_PRODUCT_STOCK => "sync-base-product-stock"
  | SYNC_OFFER_BOOKS_INFO => "sync-offer-books-info"
  | IMPORT_COMPETITOR_PRODUCTS => "import-competitor-products"
  | CALC_BASE_PRODUCT_METRICS => "calc-base-product-metrics"
  | UPDATE_BASE_PRODUCT_PROPERTIES => "update-base-product-properties"
  | SYNC_STORES => "sync-stores"
  | SYNC_PRODUCT_ITEMS => "sync-product-items"
  | APPLY_PRICE => "apply-price"
  | EXECUTE_OFFER_BOOK_RULE => "execute-offer-book-rule"
  end.

(** [Object.values(PipelineStep)] *)
Definition all_steps : list PipelineStep :=
  [SYNC_BASE_PRODUCT; SYNC_BASE_PRODUCT_STOCK; SYNC_OFFER_BOOKS_INFO;
   IMPORT_COMPETITOR_PRODUCTS; CALC_BASE_PRODUCT_METRICS;
   UPDATE_BASE_PRODUCT_PROPERTIES; SYNC_STORES; SYNC_PRODUCT_ITEMS;
   APPLY_PRICE; EXECUTE_OFFER_BOOK_RULE].

Inductive CompetitorOrigin :=
| DROGAL | DROGASIL | PAGUE_MENOS | IKESAKI | MICHELASSI
| PACHECO | SAO_PAULO | VENANCIO | INDIANA.

#[export] Instance CompetitorOrigin_eq_dec : EqDecision CompetitorOrigin.
Proof. solve_decision. Defined.

Definition origin_str (o : CompetitorOrigin) : string :=
  match o with
  | DROGAL => "DROGAL" | DROGASIL => "DROGASIL" | PAGUE_MENOS => "PAGUE_MENOS"
  | IKESAKI => "IKESAKI" | MICHELASSI => "MICHELASSI" | PACHECO => "PACHECO"
  | SAO_PAULO => "SAO_PAULO" | VENANCIO => "VENANCIO" | INDIANA => "INDIANA"
  end.

(** [Object.values(CompetitorOrigin)] *)
Definition all_origins : list CompetitorOrigin :=
  [DROGAL; DROGASIL; PAGUE_MENOS; IKESAKI; MICHELASSI;
   PACHECO; SAO_PAULO; VENANCIO; INDIANA].

Inductive PipelineRunStatus := RUNNING | COMPLETED | FAILED.

#[export] Instance PipelineRunStatus_eq_dec : EqDecision PipelineRunStatus.
Proof. solve_decision. Defined.

Inductive TenantStatus := TENANT_ACTIVE | TENANT_PAUSED | TENANT_SUSPENDED.

#[export] Instance TenantStatus_eq_dec : EqDecision TenantStatus.
Proof. solve_decision. Defined.

Lemma all_steps_complete s : s ∈ all_steps.
Proof. destruct s; unfold all_steps; rewrite !elem_of_cons; tauto. Qed.

Lemma step_str_inj : Inj (=) (=) step_str.
Proof. intros [] [] H; try reflexivity; vm_compute in H; discriminate. Qed.

Lemma all_origins_complete o : o ∈ all_origins.
Proof. destruct o; unfold all_origins; rewrite !elem_of_cons; tauto. Qed.

Lemma origin_str_inj : Inj (=) (=) origin_str.
Proof. intros [] [] H; try reflexivity; vm_compute in H; discriminate. Qed.
