(* ===== verification/Messages.v ===== *)
(** Pipeline messages and the AMQP topology.

    [src/src/queue/types.ts], [constants.ts], [queue.module.ts], the message
    shape of [pipeline-outbox.entity.ts], and the topic matching of the
    broker (AMQP 0-9-1: words separated by dots, [*] one word, [#] any
    number of words).  The theorems show that the topology has no dead ends:
    every routing key the code builds reaches exactly one consumer queue,
    and its dead-letter key exactly the [.dlq] mirror of that queue. *)

From Stdlib Require Import Ascii String.
From S2P Require Import Prelude JsText Enums.
Open Scope string_scope.
Open Scope list_scope.
Open Scope Z_scope.

(* ------------------------------------------------------------------ *)
(** * Messages                                                          *)
(* ------------------------------------------------------------------ *)

Inductive PropertiesPass := PassSupplier | PassName | PassWeight | PassMeasures.

#[export] Instance PropertiesPass_eq_dec : EqDecision PropertiesPass.
Proof. solve_decision. Defined.

Record StoreRef := { sr_id : string; sr_externalId : string }.

#[export] Instance StoreRef_eq_dec : EqDecision StoreRef.
Proof. solve_decision. Defined.

(** The payload objects the producers build. *)
Inductive Payload :=
| PEmpty
| PStart (reason : string) (startedBy : option string)
| PEmbalagens (embalagemIds : list Z)
| PScrape (origin : CompetitorOrigin) (eans : list string)
| PEans (eans : list string)
| PPass (pass : PropertiesPass) (eans : list string)
| PItems (productIds : list string) (stores : list StoreRef).

#[export] Instance Payload_eq_dec : EqDecision Payload.
Proof. solve_decision. Defined.

(** [PipelineOutboxMessage]; [publishedAt] is the instant in ms. *)
Record Message := {
  pipelineRunId : string;
  tenantId : string;
  step : string;
  queue : option string;
  attempt : Z;
  publishedAt : Z;
  payload : Payload;
  batchSeq : option Z;
  standalone : option bool;
}.

#[export] Instance Message_eq_dec : EqDecision Message.
Proof. solve_decision. Defined.

(** [newPipelineMessage], at instant [now] *)
Definition newPipelineMessage (now : Z) (run tenant step : string)
    (queue : option string) (payload : Payload)
    (batchSeq : option Z) (standalone : option bool) : Message :=
  {| pipelineRunId := run; tenantId := tenant; step := step; queue := queue;
     attempt := 1; publishedAt := now; payload := payload;
     batchSeq := batchSeq; standalone := standalone |}.

(** [{ ...b, standalone: message.standalone }] *)
Definition with_standalone (s : option bool) (m : Message) : Message :=
  {| pipelineRunId := pipelineRunId m; tenantId := tenantId m; step := step m;
     queue := queue m; attempt := attempt m; publishedAt := publishedAt m;
     payload := payload m; batchSeq := batchSeq m; standalone := s |}.

(** [message.queue ?? message.step] *)
Definition routingSegment (m : Message) : string := default (step m) (queue m).

(** [`${m.tenantId}.${m.queue ?? m.step}`] *)
Definition routingKey (m : Message) : string := tenantId m +:+ "." +:+ routingSegment m.

Definition isStandalone (m : Message) : bool := default false (standalone m).

(** [m.batchSeq ?? 0] *)
Definition seqOf (m : Message) : Z := default 0 (batchSeq m).

(* ------------------------------------------------------------------ *)
(** * Queues                                                            *)
(* ------------------------------------------------------------------ *)

Definition AMQP_HEARTBEAT_INTERVAL_SECONDS : Z := 120.
Definition ACTIVE_BATCH_LOCK_MS : Z := 5 * 60 * 1000.

(** [EXCHANGE_NAME] and [DLX_NAME], for the value of [NODE_ENV]. *)
Definition EXCHANGE_NAME (env : option string) : string :=
  "pipeline." +:+ default "development" env.
Definition DLX_NAME (env : option string) : string := EXCHANGE_NAME env +:+ ".dlx".

Definition STEP_QUEUES : list PipelineStep :=
  [SYNC_OFFER_BOOKS_INFO; SYNC_STORES; EXECUTE_OFFER_BOOK_RULE].
Definition PIPELINE_START_QUEUE : string := "pipeline.start".
Definition MIGRATE_TENANT_QUEUE : string := "migrate-tenant".
Definition BATCHED_STEPS : list PipelineStep :=
  [SYNC_BASE_PRODUCT; SYNC_BASE_PRODUCT_STOCK; CALC_BASE_PRODUCT_METRICS;
   UPDATE_BASE_PRODUCT_PROPERTIES; APPLY_PRICE; SYNC_PRODUCT_ITEMS].
Definition PER_ORIGIN_STEPS : list (PipelineStep * list CompetitorOrigin) :=
  [(IMPORT_COMPETITOR_PRODUCTS,
    [DROGAL; DROGASIL; MICHELASSI; PAGUE_MENOS; IKESAKI; PACHECO; SAO_PAULO;
     VENANCIO; INDIANA])].

Definition dispatchStep (s : PipelineStep) : string := step_str s +:+ ".dispatch".
Definition batchStep (s : PipelineStep) : string := step_str s +:+ ".batch".
Definition originStep (s : PipelineStep) (o : CompetitorOrigin) : string :=
  step_str s +:+ "." +:+ origin_str o.

Definition allStepQueueNames : list string :=
  (step_str <$> STEP_QUEUES) ++ [PIPELINE_START_QUEUE; MIGRATE_TENANT_QUEUE]
  ++ (s ← BATCHED_STEPS; [dispatchStep s; batchStep s])
  ++ ('(s, os) ← PER_ORIGIN_STEPS; dispatchStep s :: (originStep s <$> os)).

(** [STEP_PREFETCH], as the entries of the object literal. *)
Definition STEP_PREFETCH : list (string * Z) :=
  [(step_str SYNC_OFFER_BOOKS_INFO, 1); (step_str SYNC_STORES, 1);
   (step_str EXECUTE_OFFER_BOOK_RULE, 1);
   (dispatchStep SYNC_BASE_PRODUCT, 1); (dispatchStep SYNC_BASE_PRODUCT_STOCK, 1);
   (dispatchStep CALC_BASE_PRODUCT_METRICS, 1);
   (dispatchStep UPDATE_BASE_PRODUCT_PROPERTIES, 1);
   (dispatchStep IMPORT_COMPETITOR_PRODUCTS, 1); (dispatchStep SYNC_PRODUCT_ITEMS, 1);
   (batchStep SYNC_BASE_PRODUCT, 1); (batchStep SYNC_BASE_PRODUCT_STOCK, 1);
   (batchStep CALC_BASE_PRODUCT_METRICS, 1);
   (batchStep UPDATE_BASE_PRODUCT_PROPERTIES, 1); (batchStep SYNC_PRODUCT_ITEMS, 1);
   (dispatchStep APPLY_PRICE, 1); (batchStep APPLY_PRICE, 1);
   (originStep IMPORT_COMPETITOR_PRODUCTS DROGAL, 2);
   (originStep IMPORT_COMPETITOR_PRODUCTS DROGASIL, 2);
   (originStep IMPORT_COMPETITOR_PRODUCTS MICHELASSI, 1);
   (originStep IMPORT_COMPETITOR_PRODUCTS PAGUE_MENOS, 1);
   (originStep IMPORT_COMPETITOR_PRODUCTS IKESAKI, 1);
   (originStep IMPORT_COMPETITOR_PRODUCTS PACHECO, 1);
   (originStep IMPORT_COMPETITOR_PRODUCTS SAO_PAULO, 1);
   (originStep IMPORT_COMPETITOR_PRODUCTS VENANCIO, 1);
   (originStep IMPORT_COMPETITOR_PRODUCTS INDIANA, 1)].

(** A queue declaration: name, exchange it is bound to, binding key, and the
    dead-letter exchange of its arguments. *)
Record QueueDecl := {
  q_name : string; q_exchange : string; q_binding : string; q_dlx : option string }.

Section Topology.
Variable env : option string.

Definition queueWithDlq (q : string) : list QueueDecl :=
  [ {| q_name := q; q_exchange := EXCHANGE_NAME env; q_binding := "*." +:+ q;
       q_dlx := Some (DLX_NAME env) |};
    {| q_name := q +:+ ".dlq"; q_exchange := DLX_NAME env; q_binding := "*." +:+ q;
       q_dlx := None |} ].

Definition perOriginQueueNames : list string :=
  '(s, os) ← PER_ORIGIN_STEPS; dispatchStep s :: (originStep s <$> os).

(** [channels] of the module options: one channel per queue, its prefetch. *)
Definition channels : list (string * option Z) :=
  js_map_of
    ((STEP_QUEUES ≫= λ s, [(step_str s, js_map_get (step_str s) STEP_PREFETCH)])
     ++ (BATCHED_STEPS ≫= λ s,
          [(dispatchStep s, js_map_get (dispatchStep s) STEP_PREFETCH);
           (batchStep s, js_map_get (batchStep s) STEP_PREFETCH)])
     ++ ((λ q, (q, Some (default 1 (js_map_get q STEP_PREFETCH)))) <$> perOriginQueueNames)
     ++ [("migrate-tenant", Some 10)]).

(** [queues] of the module options. *)
Definition queues : list QueueDecl :=
  (STEP_QUEUES ≫= λ s, queueWithDlq (step_str s))
  ++ (BATCHED_STEPS ≫= λ s, queueWithDlq (dispatchStep s) ++ queueWithDlq (batchStep s))
  ++ (perOriginQueueNames ≫= queueWithDlq)
  ++ queueWithDlq PIPELINE_START_QUEUE
  ++ queueWithDlq MIGRATE_TENANT_QUEUE.

(** Topic matching on words. *)
Fixpoint words_match (pat key : list string) : bool :=
  match pat with
  | [] => match key with [] => true | _ => false end
  | p :: pat' =>
      if String.eqb p "#" then
        (fix any (key : list string) : bool :=
           words_match pat' key || match key with [] => false | _ :: k => any k end) key
      else match key with
           | [] => false
           | k :: key' => (String.eqb p "*" || String.eqb p k) && words_match pat' key'
           end
  end.

Definition topic_match (binding key : string) : bool :=
  words_match (str_split "."%char binding) (str_split "."%char key).

(** The queues a publish to [exchange] with [key] is copied to. *)
Definition route (exchange key : string) : list string :=
  q_name <$> filter (λ d, q_exchange d = exchange ∧ topic_match (q_binding d) key = true) queues.

(** Dead-lettering by the broker (nack without requeue): the message goes to
    the queue's [x-dead-letter-exchange] with its original routing key. *)
Definition broker_dead_letter (q key : string) : list string :=
  filter (λ d, q_name d = q) queues ≫= λ d,
  match q_dlx d with Some x => route x key | None => [] end.

End Topology.

(* ------------------------------------------------------------------ *)
(** * The topology has no dead ends                                     *)
(* ------------------------------------------------------------------ *)

Definition no_dot (s : string) : bool := str_forall (λ c, negb (Ascii.eqb c ".")) s.

(** No word of the queue names is a wildcard. *)
Definition literal_words (ws : list string) : bool :=
  forallb (λ w, negb (String.eqb w "#") && negb (String.eqb w "*")) ws.

Lemma words_match_literal ws ks :
  literal_words ws = true → words_match ws ks = true ↔ ws = ks.
Proof.
  revert ks. induction ws as [|w ws IH]; intros [|k ks]; simpl; try done;
    rewrite andb_true_iff; intros [[?%negb_true_iff Hs%negb_true_iff]%andb_true_iff ?].
  - rewrite H. done.
  - rewrite H, Hs. simpl. rewrite andb_true_iff, String.eqb_eq, IH by done. naive_solver.
Qed.

Lemma topic_match_queue t q q' :
  no_dot t = true → literal_words (str_split "."%char q) = true →
  topic_match ("*." +:+ q) (t +:+ "." +:+ q') = true ↔ q = q'.
Proof.
  intros Ht Hq. unfold topic_match.
  change ("*." +:+ q) with ("*" +:+ String "."%char q).
  change ("." +:+ q') with (String "."%char q').
  rewrite !(str_split_app "."%char); [|done|reflexivity]. simpl.
  rewrite words_match_literal by done. split; [|by intros ->].
  intros E. rewrite <- (str_split_join "."%char q), <- (str_split_join "."%char q'). by rewrite E.
Qed.

Lemma exchange_neq_dlx env : EXCHANGE_NAME env ≠ DLX_NAME env.
Proof.
  unfold DLX_NAME. intros E. apply (f_equal String.length) in E.
  rewrite str_length_app in E. simpl in E. lia.
Qed.

(** The queue list, seen through the names of [allStepQueueNames]. *)
Definition queue_names_in_order : list string :=
  (step_str <$> STEP_QUEUES)
  ++ (BATCHED_STEPS ≫= λ s, [dispatchStep s; batchStep s])
  ++ perOriginQueueNames ++ [PIPELINE_START_QUEUE; MIGRATE_TENANT_QUEUE].

Lemma queues_by_name env : queues env = queue_names_in_order ≫= queueWithDlq env.
Proof. reflexivity. Qed.

Lemma queue_names_perm : queue_names_in_order ≡ₚ allStepQueueNames.
Proof.
  unfold queue_names_in_order, allStepQueueNames.
  change (_ ← PER_ORIGIN_STEPS; _) with perOriginQueueNames. solve_Permutation.
Qed.

Lemma queue_names_NoDup : NoDup queue_names_in_order.
Proof. refine (proj1 (bool_decide_eq_true _) _). vm_compute. reflexivity. Qed.

Lemma queue_names_literal q :
  q ∈ queue_names_in_order → literal_words (str_split "."%char q) = true.
Proof.
  assert (Forall (λ q, literal_words (str_split "."%char q) = true) queue_names_in_order) as H.
  { apply Forall_forall. intros x Hx.
    assert (forallb (λ q, literal_words (str_split "."%char q)) queue_names_in_order = true) as F
      by (vm_compute; reflexivity).
    rewrite forallb_forall in F. apply F. by apply list_elem_of_In. }
  intros Hq. rewrite Forall_forall in H. auto.
Qed.

Section Routing.
Variable env : option string.

(** The queues of one kind (main or mirror) that a key reaches. *)
Lemma filter_named (names : list string) (t q : string) (main : bool) :
  no_dot t = true →
  (∀ n, n ∈ names → literal_words (str_split "."%char n) = true) → NoDup names →
  q_name <$> filter (λ d, q_exchange d = (if main then EXCHANGE_NAME env else DLX_NAME env)
                          ∧ topic_match (q_binding d) (t +:+ "." +:+ q) = true)
                    (names ≫= queueWithDlq env)
  = if decide (q ∈ names) then [if main then q else q +:+ ".dlq"] else [].
Proof.
  intros Ht. induction names as [|n names IH]; intros Hlit Hnd; [done|].
  apply NoDup_cons in Hnd as [Hn Hnd].
  rewrite bind_cons, filter_app, fmap_app, IH; [|by intros; apply Hlit; right|done].
  pose proof (topic_match_queue t n q Ht ltac:(apply Hlit; left)) as Hm.
  pose proof (exchange_neq_dlx env) as Hx.
  unfold queueWithDlq. rewrite !filter_cons, filter_nil. simpl.
  destruct (decide (n = q)) as [->|Hne].
  - rewrite (decide_True (P := q ∈ q :: names)) by left.
    rewrite (decide_False (P := q ∈ names)) by done.
    assert (topic_match ("*." +:+ q) (t +:+ "." +:+ q) = true) as -> by (by apply Hm).
    destruct main; repeat case_decide; naive_solver.
  - assert (¬ topic_match ("*." +:+ n) (t +:+ "." +:+ q) = true) as Hf by naive_solver.
    destruct (decide (q ∈ names)) as [Hin|Hin]; destruct main;
      repeat case_decide; try done; exfalso; rewrite elem_of_cons in *; naive_solver.
Qed.

Lemma elem_queue_names q : q ∈ queue_names_in_order ↔ q ∈ allStepQueueNames.
Proof. by rewrite queue_names_perm. Qed.

Lemma route_spec (t q : string) (main : bool) :
  no_dot t = true →
  route env (if main then EXCHANGE_NAME env else DLX_NAME env) (t +:+ "." +:+ q)
  = if decide (q ∈ allStepQueueNames) then [if main then q else q +:+ ".dlq"] else [].
Proof.
  intros Ht. unfold route. rewrite queues_by_name, filter_named;
    [|done|apply queue_names_literal|apply queue_names_NoDup].
  pose proof (elem_queue_names q). repeat case_decide; tauto.
Qed.

(** No consumer queue is named like a mirror. *)
Lemma queue_not_mirror q n :
  q ∈ queue_names_in_order → n ∈ queue_names_in_order → q ≠ n +:+ ".dlq".
Proof.
  assert (forallb (λ q, forallb (λ n, negb (String.eqb q (n +:+ ".dlq")))
                    queue_names_in_order) queue_names_in_order = true) as F
    by (vm_compute; reflexivity).
  intros Hq%list_elem_of_In Hn%list_elem_of_In. rewrite forallb_forall in F.
  specialize (F _ Hq). rewrite forallb_forall in F.
  specialize (F _ Hn). apply negb_true_iff, String.eqb_neq in F. done.
Qed.

Lemma filter_by_name (names : list string) q :
  q ∈ queue_names_in_order → (∀ n, n ∈ names → n ∈ queue_names_in_order) → NoDup names →
  filter (λ d, q_name d = q) (names ≫= queueWithDlq env)
  = if decide (q ∈ names) then take 1 (queueWithDlq env q) else [].
Proof.
  intros Hq. induction names as [|n names IH]; intros Hall Hnd; [done|].
  apply NoDup_cons in Hnd as [Hn Hnd].
  rewrite bind_cons, filter_app, IH; [|by intros; apply Hall; right|done].
  pose proof (queue_not_mirror q n Hq ltac:(apply Hall; left)).
  unfold queueWithDlq. rewrite !filter_cons, filter_nil. simpl.
  rewrite (decide_False (P := n +:+ ".dlq" = q)) by naive_solver.
  pose proof (elem_of_cons names q n) as Hc.
  destruct (decide (q ∈ n :: names)), (decide (q ∈ names)); case_decide; naive_solver.
Qed.

Lemma queue_decls_of q :
  q ∈ allStepQueueNames →
  filter (λ d, q_name d = q) (queues env) = take 1 (queueWithDlq env q).
Proof.
  intros Hq. rewrite queues_by_name, filter_by_name;
    [|by apply elem_queue_names|done|apply queue_names_NoDup].
  rewrite decide_True; [done|]. by apply elem_queue_names.
Qed.

End Routing.

(** Every member of the enum has an entry queue. *)
Definition entry_queue (s : PipelineStep) : string :=
  if decide (s ∈ STEP_QUEUES) then step_str s else dispatchStep s.

Lemma entry_queue_known s : entry_queue s ∈ allStepQueueNames.
Proof.
  apply elem_queue_names. refine (proj1 (bool_decide_eq_true _) _).
  destruct s; vm_compute; reflexivity.
Qed.

(** The AMQP topology has no dead ends.  For every tenant slug (a word
    without dots) and every routing segment [q], a message published with key
    [slug.q] is copied to exactly the queue [q] if [q] is a declared queue and
    dropped otherwise; its dead-letter publish ([RetryService]) and the
    broker's own dead-lettering of a nacked delivery both reach exactly the
    mirror [q.dlq]; and the queues are pairwise distinct. *)
Theorem topology_no_dead_ends env (t q : string) :
  no_dot t = true →
  let key := t +:+ "." +:+ q in
  route env (EXCHANGE_NAME env) key = (if decide (q ∈ allStepQueueNames) then [q] else [])
  ∧ route env (DLX_NAME env) key
    = (if decide (q ∈ allStepQueueNames) then [q +:+ ".dlq"] else [])
  ∧ (q ∈ allStepQueueNames → broker_dead_letter env q key = [q +:+ ".dlq"])
  ∧ NoDup (q_name <$> queues env).
Proof.
  intros Ht key. split_and!.
  - apply (route_spec env t q true Ht).
  - apply (route_spec env t q false Ht).
  - intros Hq. unfold broker_dead_letter. rewrite queue_decls_of by done. simpl.
    unfold key. rewrite (route_spec env t q false Ht), decide_True by done. done.
  - rewrite queues_by_name. refine (proj1 (bool_decide_eq_true _) _). vm_compute. reflexivity.
Qed.

Lemma topology_no_dead_ends_witness :
  route None (EXCHANGE_NAME None) "acme.sync-base-product.batch" = ["sync-base-product.batch"]
  ∧ broker_dead_letter None "import-competitor-products.DROGAL"
      "acme.import-competitor-products.DROGAL" = ["import-competitor-products.DROGAL.dlq"].
Proof.
  split.
  - exact (proj1 (topology_no_dead_ends None "acme" "sync-base-product.batch" eq_refl)).
  - refine (proj1 (proj2 (proj2 (topology_no_dead_ends None "acme"
      "import-competitor-products.DROGAL" eq_refl))) _).
    refine (proj1 (bool_decide_eq_true _) _). vm_compute. reflexivity.
Defined.
