(* ===== verification/World.v ===== *)
(** The world the services run in.

    A service method is a computation [M A] over a [World]: the committed
    PostgreSQL state, the open tenant transaction, the broker, the metrics,
    the clock, and an oracle that decides the fate of every external call
    (query, commit, publish): it succeeds, it throws with or without having
    taken effect, or the process dies before or after the effect.  A result
    is a value, an exception, or the death of the process; [try]/[catch]
    intercepts exceptions only.

    Transactions are READ COMMITTED: statements of the entity manager [em]
    are logged and applied to the committed state at commit; statements of
    an injected repository commit at once, also while a transaction is open.

    The development never fixes the oracle: theorems quantify over it. *)

From Stdlib Require Import Ascii String.
From S2P Require Import Prelude JsText Enums Messages.
Open Scope string_scope.
Open Scope list_scope.
Open Scope Z_scope.

(* ------------------------------------------------------------------ *)
(** * State                                                             *)
(* ------------------------------------------------------------------ *)

(** A row of [core.pipeline_run] ([PipelineRunEntity]) without its key
    [(pipelineRunId, step, batchSeq)], which is unique
    ([UQ_PIPELINE_RUN_RUN_STEP_BATCH]). *)
Record RunRow := {
  rr_tenantId : string;
  rr_status : PipelineRunStatus;
  rr_attempt : Z;
  rr_batchesPlanned : option Z;
  rr_batchesDone : Z;
  rr_lastPublishedBatchSeq : Z;
  rr_startedAt : Z;
  rr_finishedAt : option Z;
  rr_error : option string;
}.

Abbreviation RunKey := (string * string * Z)%type.

(** A row of [core.pipeline_outbox] ([PipelineOutboxEntity]). *)
Record OutboxRow := {
  ob_id : Z;
  ob_pipelineRunId : string;
  ob_tenantId : string;
  ob_routingKey : string;
  ob_message : Message;
  ob_attempts : Z;
  ob_claimedAt : option Z;
  ob_publishedAt : option Z;
  ob_createdAt : Z;
}.

(** [TenantEntity] *)
Record Tenant := {
  tn_id : string;
  tn_slug : string;
  tn_schemaName : string;
  tn_status : TenantStatus;
}.

(** A publish the broker accepted. *)
Record Publish := { pb_exchange : string; pb_key : string; pb_msg : Message }.

Inductive ConsumeOutcome := CoOk | CoFail | CoSkip.

(** Calls to [PipelineMetricsRegistry]. *)
Inductive MetricEvent :=
| MConsumeStart (tenant queue : string)
| MConsumeEnd (tenant queue : string) (outcome : ConsumeOutcome) (ms : Z)
| MPublish (producer tenant targetQueue : string) (count : Z)
| MDispatchBatches (tenant step : string) (countsPerQueue : list (string * Z))
| MScrapeDispatch (tenant : string) (eansPerOrigin : list (string * Z))
| MOutboxDrain (size : Z).

(** The fate of one external call. *)
Inductive Fault :=
| FOk
| FThrow (e : Exn)
| FThrowAfter (e : Exn)
| FCrash
| FCrashAfter.

(** Committed state: run rows, the outbox in insertion order, and the rest
    of the database [D] (tenant schemas). *)
Record Db (D : Type) := {
  db_runs : gmap RunKey RunRow;
  db_outbox : list OutboxRow;
  db_data : D;
}.
Arguments db_runs {D} _.
Arguments db_outbox {D} _.
Arguments db_data {D} _.
Arguments Build_Db {D} _ _ _.

Record World (D : Type) := {
  w_db : Db D;
  (** schema of the [search_path] and the statements logged so far *)
  w_tx : option (string * list (Db D → Db D));
  w_tenants : list Tenant;
  w_amqp : list Publish;
  w_metrics : list MetricEvent;
  w_now : Z;
  (** fate and duration (ms) of the next external calls; [FOk] after them *)
  w_oracle : list (Fault * Z);
  (** the locals [metricsStarted], [metricsEnded] of the delivery at hand *)
  w_locals : bool * bool;
}.
Arguments w_db {D} _.
Arguments w_tx {D} _.
Arguments w_tenants {D} _.
Arguments w_amqp {D} _.
Arguments w_metrics {D} _.
Arguments w_now {D} _.
Arguments w_oracle {D} _.
Arguments w_locals {D} _.
Arguments Build_World {D} _ _ _ _ _ _ _ _.

(** Static configuration ([AppConfigService], [NODE_ENV]). *)
Record Config := {
  cfg_env : option string;
  pipelineDispatchOutboxPublish : bool;
  pipelineDispatchPublishCheckpoint : Z;
  outboxPublisherBatchSize : nat;
  importVtexEanBatchSize : Z;
  importNonVtexEanBatchSize : Z;
}.

Inductive Outcome (A : Type) := Done (a : A) | Raised (e : Exn) | Crashed.
Arguments Done {A} _.
Arguments Raised {A} _.
Arguments Crashed {A}.

(* ------------------------------------------------------------------ *)
(** * The monad                                                         *)
(* ------------------------------------------------------------------ *)

Section Monad.
Context {D : Type}.
Abbreviation W := (World D).

Definition M (A : Type) : Type := W → Outcome A * W.

#[export] Instance M_ret : MRet M := λ A a w, (Done a, w).
#[export] Instance M_bind : MBind M := λ A B f m w,
  match m w with
  | (Done a, w') => f a w'
  | (Raised e, w') => (Raised e, w')
  | (Crashed, w') => (Crashed, w')
  end.

Definition throw {A} (e : Exn) : M A := λ w, (Raised e, w).

(** [try { m } catch (e) { h(e) }] *)
Definition try_catch {A} (m : M A) (h : Exn → M A) : M A := λ w,
  match m w with
  | (Raised e, w') => h e w'
  | r => r
  end.

Definition gets {A} (f : W → A) : M A := λ w, (Done (f w), w).

(** [Date.now()] *)
Definition date_now : M Z := gets w_now.

(** [for (const x of xs) await f(x)] *)
Fixpoint for_each {A} (xs : list A) (f : A → M unit) : M unit :=
  match xs with
  | [] => mret ()
  | x :: xs' => f x;; for_each xs' f
  end.

Definition set_db (db : Db D) (w : W) : W :=
  Build_World db (w_tx w) (w_tenants w) (w_amqp w) (w_metrics w) (w_now w) (w_oracle w)
    (w_locals w).
Definition set_tx (tx : option (string * list (Db D → Db D))) (w : W) : W :=
  Build_World (w_db w) tx (w_tenants w) (w_amqp w) (w_metrics w) (w_now w) (w_oracle w)
    (w_locals w).
Definition set_oracle (o : list (Fault * Z)) (w : W) : W :=
  Build_World (w_db w) (w_tx w) (w_tenants w) (w_amqp w) (w_metrics w) (w_now w) o
    (w_locals w).
Definition set_now (t : Z) (w : W) : W :=
  Build_World (w_db w) (w_tx w) (w_tenants w) (w_amqp w) (w_metrics w) t (w_oracle w)
    (w_locals w).
Definition add_amqp (p : Publish) (w : W) : W :=
  Build_World (w_db w) (w_tx w) (w_tenants w) (w_amqp w ++ [p]) (w_metrics w) (w_now w)
    (w_oracle w) (w_locals w).
Definition add_metric (ev : MetricEvent) (w : W) : W :=
  Build_World (w_db w) (w_tx w) (w_tenants w) (w_amqp w) (w_metrics w ++ [ev]) (w_now w)
    (w_oracle w) (w_locals w).
Definition set_locals (l : bool * bool) (w : W) : W :=
  Build_World (w_db w) (w_tx w) (w_tenants w) (w_amqp w) (w_metrics w) (w_now w)
    (w_oracle w) l.

(** In-process metrics never fail. *)
Definition metric (ev : MetricEvent) : M unit := λ w, (Done (), add_metric ev w).

(** The next entry of the oracle; the clock moves by its duration. *)
Definition pop (w : W) : Fault * W :=
  match w_oracle w with
  | [] => (FOk, w)
  | (f, dt) :: o => (f, set_now (w_now w + Z.max 0 dt) (set_oracle o w))
  end.

(** An external call with effect [f]. *)
Definition ext {A} (f : W → Res A * W) : M A := λ w,
  let '(ft, w0) := pop w in
  match ft with
  | FOk => match f w0 with (Ok a, w') => (Done a, w') | (Throw e, w') => (Raised e, w') end
  | FThrow e => (Raised e, w0)
  | FThrowAfter e => (Raised e, (f w0).2)
  | FCrash => (Crashed, w0)
  | FCrashAfter => (Crashed, (f w0).2)
  end.

(* ------------------------------------------------------------------ *)
(** * Database                                                          *)
(* ------------------------------------------------------------------ *)

(** Which connection a statement runs on. *)
Inductive Conn := RepoConn | EmConn.

Definition replay (log : list (Db D → Db D)) (db : Db D) : Db D :=
  foldl (λ d f, f d) db log.

(** The state a statement of [c] sees. *)
Definition view (c : Conn) (w : W) : Db D :=
  match c, w_tx w with
  | EmConn, Some (_, log) => replay log (w_db w)
  | _, _ => w_db w
  end.

(** One statement: it computes a result and a write from the rows it sees; a
    statement that throws writes nothing. *)
Definition sql_step {A} (c : Conn) (f : Db D → Res A * (Db D → Db D)) (w : W) : Res A * W :=
  match f (view c w) with
  | (Throw e, _) => (Throw e, w)
  | (Ok a, wr) =>
      (Ok a,
       match c, w_tx w with
       | EmConn, Some (s, log) => set_tx (Some (s, log ++ [wr])) w
       | _, _ => set_db (wr (w_db w)) w
       end)
  end.

Definition sql {A} (c : Conn) (f : Db D → Res A * (Db D → Db D)) : M A := ext (sql_step c f).

Definition sql_read {A} (c : Conn) (f : Db D → A) : M A := sql c (λ db, (Ok (f db), id)).
Definition sql_write (c : Conn) (f : Db D → Db D) : M unit := sql c (λ _, (Ok (), f)).

(** COMMIT as an external call. *)
Definition commit_step (w : W) : Res () * W :=
  (Ok (), match w_tx w with
          | Some (_, log) => set_tx None (set_db (replay log (w_db w)) w)
          | None => w
          end).

(** [VALID_SCHEMA = /^[a-z_][a-z0-9_]{0,62}$/] *)
Definition valid_schema (s : string) : bool :=
  match s with
  | EmptyString => false
  | String c s' =>
      (is_lower c || Ascii.eqb c "_")
      && str_forall (λ c, is_lower c || is_digit c || Ascii.eqb c "_") s'
      && (Nat.leb (String.length s') 62)
  end.

(** [TenantTransactionService.runWithTenant]: BEGIN, [SET LOCAL search_path],
    the callback, COMMIT; any exception rolls back, and so does the death of
    the process.  A COMMIT that dies on the wire may or may not have
    happened ([FThrow]/[FCrash] against [FThrowAfter]/[FCrashAfter]). *)
Definition runWithTenant {A} (schemaName : string) (fn : M A) : M A :=
  if negb (valid_schema schemaName) then throw (EError ("invalid schema name: " +:+ schemaName))
  else λ w,
    let '(r, w1) :=
      (ext (λ w, (Ok (), set_tx (Some (schemaName, [])) w));;
       ext (λ w, (Ok (), w));;
       a ← fn;
       ext commit_step;;
       mret a) w in
    (r, set_tx None w1).

(** [TenantService.findActive] *)
Definition findBySlug (slug : string) : M Tenant :=
  t ← ext (λ w, (Ok (list_find (λ t, tn_slug t = slug) (w_tenants w)), w));
  match t with
  | Some (_, t) => mret t
  | None => throw (ENotFound ("Tenant " +:+ slug +:+ " not found"))
  end.

Definition findActive (slug : string) : M Tenant :=
  t ← findBySlug slug;
  if decide (tn_status t = TENANT_ACTIVE) then mret t
  else throw (ENotFound ("Tenant " +:+ slug +:+ " is not active")).

(** [AmqpConnection.publish] on the confirm channel: it resolves when the
    broker has the message. *)
Definition amqp_publish (exchange key : string) (m : Message) : M unit :=
  ext (λ w, (Ok (), add_amqp {| pb_exchange := exchange; pb_key := key; pb_msg := m |} w)).

End Monad.
Arguments M : clear implicits.
