(* ===== verification/RunService.v ===== *)
(** [PipelineRunService] ([src/src/queue/pipeline-run.service.ts]): the state
    of every step of a run, the idempotency check of a delivery, and the
    fan-in counter of the dispatch row.

    The row-level operations ([upd_*], [completeBatchAndIncrement_db]) are
    pure functions of the committed rows, so that both the sequential
    consumers and the concurrent fan-in machine use the same statements. *)

From Stdlib Require Import Ascii String.
From S2P Require Import Prelude JsText Enums Messages World.
Open Scope string_scope.
Open Scope list_scope.
Open Scope Z_scope.

Inductive StartOutcome := Started | AlreadyCompleted | InProgress.

#[export] Instance StartOutcome_eq_dec : EqDecision StartOutcome.
Proof. solve_decision. Defined.

Record BatchIncrement := { inc_done : Z; inc_planned : Z; inc_isLast : bool }.

Definition DISPATCH_BATCH_SEQ : Z := 0.

(* ------------------------------------------------------------------ *)
(** * Row updates                                                       *)
(* ------------------------------------------------------------------ *)

(** [update(key, {tenantId, attempt, status: RUNNING, startedAt: now,
    finishedAt: null, error: null})] *)
Definition upd_start (now : Z) (tenant : string) (attempt : Z) (r : RunRow) : RunRow :=
  {| rr_tenantId := tenant; rr_status := RUNNING; rr_attempt := attempt;
     rr_batchesPlanned := rr_batchesPlanned r; rr_batchesDone := rr_batchesDone r;
     rr_lastPublishedBatchSeq := rr_lastPublishedBatchSeq r;
     rr_startedAt := now; rr_finishedAt := None; rr_error := None |}.

(** [save({...})] of a new row; the other columns take their defaults. *)
Definition new_row (now : Z) (tenant : string) (attempt : Z) : RunRow :=
  {| rr_tenantId := tenant; rr_status := RUNNING; rr_attempt := attempt;
     rr_batchesPlanned := None; rr_batchesDone := 0; rr_lastPublishedBatchSeq := 0;
     rr_startedAt := now; rr_finishedAt := None; rr_error := None |}.

Definition upd_status (s : PipelineRunStatus) (fin : option Z) (err : option string)
    (r : RunRow) : RunRow :=
  {| rr_tenantId := rr_tenantId r; rr_status := s; rr_attempt := rr_attempt r;
     rr_batchesPlanned := rr_batchesPlanned r; rr_batchesDone := rr_batchesDone r;
     rr_lastPublishedBatchSeq := rr_lastPublishedBatchSeq r;
     rr_startedAt := rr_startedAt r; rr_finishedAt := fin; rr_error := err |}.

(** [complete] writes no [error]. *)
Definition upd_complete (now : Z) (r : RunRow) : RunRow :=
  upd_status COMPLETED (Some now) (rr_error r) r.

(** [error.slice(0, 4000)] *)
Definition upd_fail (now : Z) (error : string) (r : RunRow) : RunRow :=
  upd_status FAILED (Some now) (Some (str_take 4000 error)) r.

Definition upd_planned (n : Z) (r : RunRow) : RunRow :=
  {| rr_tenantId := rr_tenantId r; rr_status := rr_status r; rr_attempt := rr_attempt r;
     rr_batchesPlanned := Some n; rr_batchesDone := rr_batchesDone r;
     rr_lastPublishedBatchSeq := rr_lastPublishedBatchSeq r;
     rr_startedAt := rr_startedAt r; rr_finishedAt := rr_finishedAt r;
     rr_error := rr_error r |}.

Definition upd_done (n : Z) (r : RunRow) : RunRow :=
  {| rr_tenantId := rr_tenantId r; rr_status := rr_status r; rr_attempt := rr_attempt r;
     rr_batchesPlanned := rr_batchesPlanned r; rr_batchesDone := rr_batchesDone r + n;
     rr_lastPublishedBatchSeq := rr_lastPublishedBatchSeq r;
     rr_startedAt := rr_startedAt r; rr_finishedAt := rr_finishedAt r;
     rr_error := rr_error r |}.

Definition upd_lastPublished (n : Z) (r : RunRow) : RunRow :=
  {| rr_tenantId := rr_tenantId r; rr_status := rr_status r; rr_attempt := rr_attempt r;
     rr_batchesPlanned := rr_batchesPlanned r; rr_batchesDone := rr_batchesDone r;
     rr_lastPublishedBatchSeq := n;
     rr_startedAt := rr_startedAt r; rr_finishedAt := rr_finishedAt r;
     rr_error := rr_error r |}.

Section Rows.
Context {D : Type}.

(** [repo.update(key, ...)]: no row, no effect. *)
Definition update_run (k : RunKey) (f : RunRow → RunRow) (db : Db D) : Db D :=
  Build_Db (alter f k (db_runs db)) (db_outbox db) (db_data db).

Definition insert_run (k : RunKey) (r : RunRow) (db : Db D) : Db D :=
  Build_Db (<[k := r]> (db_runs db)) (db_outbox db) (db_data db).

(** [repo.save(...)] of an entity without id: INSERT, or a unique violation. *)
Definition save_run (c : Conn) (k : RunKey) (r : RunRow) : M D unit :=
  sql c (λ db,
    match db_runs db !! k with
    | Some _ => (Throw (EError "duplicate key value violates unique constraint"), id)
    | None => (Ok (), insert_run k r)
    end).

(* ------------------------------------------------------------------ *)
(** * Service methods                                                   *)
(* ------------------------------------------------------------------ *)

Definition start (run tenant step : string) (attempt batchSeq : Z) : M D StartOutcome :=
  existing ← sql_read RepoConn (λ db, db_runs db !! (run, step, batchSeq));
  now ← date_now;
  match existing with
  | Some r =>
      if decide (rr_status r = COMPLETED) then mret AlreadyCompleted
      else if bool_decide (rr_status r = RUNNING) && (now - rr_startedAt r <? ACTIVE_BATCH_LOCK_MS)
      then mret InProgress
      else
        sql_write RepoConn (update_run (run, step, batchSeq) (upd_start now tenant attempt));;
        mret Started
  | None =>
      save_run RepoConn (run, step, batchSeq) (new_row now tenant attempt);;
      mret Started
  end.

Definition complete (run step : string) (batchSeq : Z) (c : Conn) : M D unit :=
  now ← date_now;
  sql_write c (update_run (run, step, batchSeq) (upd_complete now)).

Definition fail (run step error : string) (batchSeq : Z) : M D unit :=
  now ← date_now;
  sql_write RepoConn (update_run (run, step, batchSeq) (upd_fail now error)).

Definition recordDispatch (run step : string) (planned : Z) (c : Conn) : M D unit :=
  sql_write c (update_run (run, step, DISPATCH_BATCH_SEQ) (upd_planned planned)).

(** The restart update of [startOrRestartDispatch] leaves [tenantId]. *)
Definition startOrRestartDispatch (run tenant step : string) (attempt : Z) :
    M D StartOutcome :=
  existing ← sql_read RepoConn (λ db, db_runs db !! (run, step, DISPATCH_BATCH_SEQ));
  now ← date_now;
  match existing with
  | Some r =>
      if decide (rr_status r = COMPLETED) then mret AlreadyCompleted
      else
        sql_write RepoConn (update_run (run, step, DISPATCH_BATCH_SEQ)
          (λ r, upd_start now (rr_tenantId r) attempt r));;
        mret Started
  | None =>
      save_run RepoConn (run, step, DISPATCH_BATCH_SEQ) (new_row now tenant attempt);;
      mret Started
  end.

(** The seqs of the COMPLETED rows of (run, step), above 0. *)
Definition completed_seqs (run step : string) (m : gmap RunKey RunRow) : list Z :=
  omap (λ '((run', step', seq), r),
         if decide (run' = run ∧ step' = step ∧ rr_status r = COMPLETED
                    ∧ DISPATCH_BATCH_SEQ < seq)
         then Some seq else None) (map_to_list m).

Definition completedBatchSeqs (run step : string) : M D (list Z) :=
  sql_read RepoConn (λ db, completed_seqs run step (db_runs db)).

Definition lastPublishedBatchSeq (run step : string) : M D Z :=
  row ← sql_read RepoConn (λ db, db_runs db !! (run, step, DISPATCH_BATCH_SEQ));
  mret (match row with Some r => rr_lastPublishedBatchSeq r | None => 0 end).

Definition updateLastPublishedBatchSeq (run step : string) (batchSeq : Z) : M D unit :=
  sql_write RepoConn (update_run (run, step, DISPATCH_BATCH_SEQ) (upd_lastPublished batchSeq)).

Definition batch_completed (run step : string) (batchSeq : Z) (m : gmap RunKey RunRow) : bool :=
  match m !! (run, step, batchSeq) with
  | Some r => bool_decide (rr_status r = COMPLETED)
  | None => false
  end.

Definition isBatchCompleted (run step : string) (batchSeq : Z) : M D bool :=
  sql_read RepoConn (λ db, batch_completed run step batchSeq (db_runs db)).

(** The CTE: both UPDATEs see the rows as they were; the counter moves by
    the number of batch rows that went from RUNNING to COMPLETED. *)
Definition completeBatchAndIncrement_db (now : Z) (run step : string) (batchSeq : Z)
    (m : gmap RunKey RunRow) : gmap RunKey RunRow * option BatchIncrement :=
  let kb := (run, step, batchSeq) in
  let kd := (run, step, DISPATCH_BATCH_SEQ) in
  let '(m1, n) :=
    match m !! kb with
    | Some r =>
        if decide (rr_status r = RUNNING)
        then (<[kb := upd_complete now r]> m, 1) else (m, 0)
    | None => (m, 0)
    end in
  match m1 !! kd with
  | None => (m1, None)
  | Some d =>
      let d' := upd_done n d in
      let planned := default 0 (rr_batchesPlanned d') in
      (<[kd := d']> m1,
       Some {| inc_done := rr_batchesDone d'; inc_planned := planned;
               inc_isLast := (0 <? planned) && (planned <=? rr_batchesDone d') |})
  end.

Definition completeBatchAndIncrement (run step : string) (batchSeq : Z) : M D BatchIncrement :=
  now ← date_now;
  inc ← sql EmConn (λ db,
    (Ok (completeBatchAndIncrement_db now run step batchSeq (db_runs db)).2,
     λ db', Build_Db (completeBatchAndIncrement_db now run step batchSeq (db_runs db')).1
              (db_outbox db') (db_data db')));
  match inc with
  | Some i => mret i
  | None => throw (EError ("completeBatchAndIncrement: no dispatch row for run=" +:+ run
                           +:+ " step=" +:+ step))
  end.

End Rows.
