(* ===== verification/Outbox.v ===== *)
(** The transactional outbox and the producers.

    [src/src/queue/outbox.repository.ts], [outbox-publisher.service.ts],
    [pipeline-publisher.service.ts], [retry.service.ts]. *)

From Stdlib Require Import Ascii String.
From S2P Require Import Prelude JsText Enums Messages World RunService.
Open Scope string_scope.
Open Scope list_scope.
Open Scope Z_scope.

Definition CLAIM_GRACE_MS : Z := 60000.

Section Outbox.
Context {D : Type}.
Variable cfg : Config.

(* ------------------------------------------------------------------ *)
(** * OutboxRepository                                                  *)
(* ------------------------------------------------------------------ *)

(** The row [insertMany] builds for a message; the id is the next one. *)
Definition stage_row (now : Z) (run tenant : string) (id : Z) (m : Message) : OutboxRow :=
  {| ob_id := id; ob_pipelineRunId := run; ob_tenantId := tenant;
     ob_routingKey := routingKey m; ob_message := m; ob_attempts := 0;
     ob_claimedAt := None; ob_publishedAt := None; ob_createdAt := now |}.

Definition stage_rows (now : Z) (run tenant : string) (ms : list Message)
    (rows : list OutboxRow) : list OutboxRow :=
  rows ++ imap (λ i m, stage_row now run tenant (Z.of_nat (length rows + i)) m) ms.

Definition stage (now : Z) (run tenant : string) (ms : list Message) (db : Db D) : Db D :=
  Build_Db (db_runs db) (stage_rows now run tenant ms (db_outbox db)) (db_data db).

Definition insertMany (run tenant : string) (successors : list Message) : M D unit :=
  match successors with
  | [] => mret ()
  | _ => now ← date_now; sql_write EmConn (stage now run tenant successors)
  end.

Definition insertBatchMessages (run tenant : string) (messages : list Message) : M D unit :=
  match messages with
  | [] => mret ()
  | _ => now ← date_now; sql_write RepoConn (stage now run tenant messages)
  end.

(** [published_at IS NULL AND (claimed_at IS NULL OR claimed_at < now() - grace)] *)
Definition claimable (now : Z) (r : OutboxRow) : bool :=
  match ob_publishedAt r with
  | Some _ => false
  | None => match ob_claimedAt r with
            | None => true
            | Some t => t <? now - CLAIM_GRACE_MS
            end
  end.

Definition claim_row (now : Z) (r : OutboxRow) : OutboxRow :=
  {| ob_id := ob_id r; ob_pipelineRunId := ob_pipelineRunId r; ob_tenantId := ob_tenantId r;
     ob_routingKey := ob_routingKey r; ob_message := ob_message r;
     ob_attempts := ob_attempts r + 1; ob_claimedAt := Some now;
     ob_publishedAt := ob_publishedAt r; ob_createdAt := ob_createdAt r |}.

(** The claim statement on rows in [created_at] order: claim the first
    [limit] claimable rows and return them. *)
Fixpoint claim_rows (now : Z) (limit : nat) (rows : list OutboxRow) :
    list OutboxRow * list OutboxRow :=
  match rows with
  | [] => ([], [])
  | r :: rows' =>
      match limit with
      | S l =>
          if claimable now r
          then let '(c, out) := claim_rows now l rows' in (claim_row now r :: c, claim_row now r :: out)
          else let '(c, out) := claim_rows now limit rows' in (c, r :: out)
      | O => ([], rows)
      end
  end.

Definition claimPending (limit : nat) : M D (list OutboxRow) :=
  now ← date_now;
  sql RepoConn (λ db,
    (Ok (claim_rows now limit (db_outbox db)).1,
     λ db', Build_Db (db_runs db') (claim_rows now limit (db_outbox db')).2 (db_data db'))).

Definition mark_row (now : Z) (r : OutboxRow) : OutboxRow :=
  {| ob_id := ob_id r; ob_pipelineRunId := ob_pipelineRunId r; ob_tenantId := ob_tenantId r;
     ob_routingKey := ob_routingKey r; ob_message := ob_message r;
     ob_attempts := ob_attempts r; ob_claimedAt := ob_claimedAt r;
     ob_publishedAt := Some now; ob_createdAt := ob_createdAt r |}.

(** [update({ id, publishedAt: IsNull() }, { publishedAt: now })] *)
Definition mark_rows (now id : Z) (rows : list OutboxRow) : list OutboxRow :=
  (λ r, if decide (ob_id r = id ∧ ob_publishedAt r = None) then mark_row now r else r) <$> rows.

Definition markPublished (id : Z) : M D unit :=
  now ← date_now;
  sql_write RepoConn (λ db, Build_Db (db_runs db) (mark_rows now id (db_outbox db)) (db_data db)).

(* ------------------------------------------------------------------ *)
(** * OutboxPublisher                                                   *)
(* ------------------------------------------------------------------ *)

(** [row.routingKey.split('.').slice(1).join('.')], or the key if empty *)
Definition target_queue (key : string) : string :=
  let q := str_join "." (drop 1 (str_split "."%char key)) in
  if String.eqb q "" then key else q.

(** The [try] body for one claimed row. *)
Definition publish_row (row : OutboxRow) : M D unit :=
  let msg := ob_message row in
  skip ← (if 0 <? seqOf msg
          then isBatchCompleted (ob_pipelineRunId row) (step msg) (seqOf msg)
          else mret false);
  if (skip : bool) then markPublished (ob_id row)
  else
    amqp_publish (EXCHANGE_NAME (cfg_env cfg)) (ob_routingKey row) msg;;
    metric (MPublish "outbox" (ob_tenantId row) (target_queue (ob_routingKey row)) 1);;
    markPublished (ob_id row).

(** One run of the scheduled publisher; an exception of one row is logged. *)
Definition tick : M D unit :=
  rows ← claimPending (outboxPublisherBatchSize cfg);
  match rows with
  | [] => mret ()
  | _ =>
      for_each rows (λ row, try_catch (publish_row row) (λ _, mret ()));;
      metric (MOutboxDrain (Z.of_nat (length rows)))
  end.

(* ------------------------------------------------------------------ *)
(** * RetryService and PipelinePublisher                                *)
(* ------------------------------------------------------------------ *)

(** [republishOnFailure]: straight to the dead-letter exchange. *)
Definition republishOnFailure (m : Message) : M D string :=
  amqp_publish (DLX_NAME (cfg_env cfg)) (routingKey m) m;; mret "dlq".

(** [meta?.producer ?? 'unknown'], [meta?.count ?? 1] *)
Definition publishStep (m : Message) (meta : option (string * option Z)) : M D unit :=
  amqp_publish (EXCHANGE_NAME (cfg_env cfg)) (routingKey m) m;;
  metric (MPublish (match meta with Some (p, _) => p | None => "unknown" end)
            (tenantId m) (routingSegment m)
            (match meta with Some (_, Some n) => n | _ => 1 end)).

(** [randomUUID()] is the parameter [uuid]. *)
Definition publishStart (uuid tenantSlug : string) (payload : Payload)
    (meta : option (string * option Z)) : M D string :=
  now ← date_now;
  let m := newPipelineMessage now uuid tenantSlug "pipeline.start" None payload None None in
  amqp_publish (EXCHANGE_NAME (cfg_env cfg)) (tenantSlug +:+ ".pipeline.start") m;;
  metric (MPublish (match meta with Some (p, _) => p | None => "unknown" end)
            tenantSlug "pipeline.start" (match meta with Some (_, Some n) => n | _ => 1 end));;
  mret uuid.

Definition publishSingleStep (uuid tenantSlug : string) (s : PipelineStep)
    (meta : option (string * option Z)) : M D string :=
  now ← date_now;
  let q := if decide (s ∈ STEP_QUEUES) then step_str s else dispatchStep s in
  let m := newPipelineMessage now uuid tenantSlug (step_str s) (Some q) PEmpty None (Some true) in
  amqp_publish (EXCHANGE_NAME (cfg_env cfg)) (tenantSlug +:+ "." +:+ q) m;;
  metric (MPublish (match meta with Some (p, _) => p | None => "unknown" end)
            tenantSlug q (match meta with Some (_, Some n) => n | _ => 1 end));;
  mret uuid.

End Outbox.
