(* ===== verification/Consumers.v ===== *)
(** The three base consumers of the pipeline.

    [src/src/queue/base-pipeline.consumer.ts],
    [dispatch-pipeline.consumer.ts] and [batch-pipeline.consumer.ts]: what
    happens to one delivery.  A concrete consumer is a record of its abstract
    members ([BaseConsumer], [DispatchConsumer], [BatchConsumer]).  Logging
    and tracing spans are left out. *)

From Stdlib Require Import Ascii String.
From S2P Require Import Prelude JsText Enums Messages World RunService Outbox.
Open Scope string_scope.
Open Scope list_scope.
Open Scope Z_scope.

Definition OUTBOX_INSERT_CHUNK : nat := 1000.

Record DispatchHandleResult := {
  dr_batches : list Message;
  dr_emptySuccessors : option (list Message);
}.

(** [(err as Error).message || String(err)] *)
Definition errMessage (e : Exn) : string :=
  if String.eqb (exn_message e) "" then
    match e with
    | EError _ | EDuplicateDelivery _ => "Error"
    | EBadRequest _ => "BadRequestException"
    | ENotFound _ => "NotFoundException"
    | EConflict _ => "ConflictException"
    | EUnprocessable _ => "UnprocessableEntityException"
    | EUnavailable _ => "ServiceUnavailableException"
    | EUnauthorized _ => "UnauthorizedException"
    end
  else exn_message e.

(** [err instanceof DuplicateDeliveryRepublishError] *)
Definition is_duplicate (e : Exn) : bool :=
  match e with EDuplicateDelivery _ => true | _ => false end.

Section Consumers.
Context {D I : Type}.
Variable cfg : Config.
(** [IntegrationDataSourceFactory.forTenantSlug] *)
Variable forTenantSlug : string → M D (option I).

Record BaseConsumer := {
  bc_step : PipelineStep;
  bc_handle : Message → option I → M D (list Message);
}.

Record DispatchConsumer := {
  dc_step : PipelineStep;
  dc_handle : Message → option I → Tenant → M D DispatchHandleResult;
  dc_onDispatch : Message → list Message → M D unit;
}.

Record BatchConsumer := {
  bt_step : PipelineStep;
  bt_handle : Message → option I → Z → Tenant → M D unit;
  bt_successors : Message → option I → M D (list Message);
}.

(* ------------------------------------------------------------------ *)
(** * Shared paths                                                      *)
(* ------------------------------------------------------------------ *)

(** The duplicate delivery of a batch or step in progress: to the DLQ, or
    past the generic catch when that publish fails. *)
Definition republish_duplicate (m : Message) : M D unit :=
  try_catch (republishOnFailure cfg m;; mret ())
            (λ e, throw (EDuplicateDelivery (exn_message e))).

(** The tail of the generic catch: dead-letter, then record the failure. *)
Definition route_failure (m : Message) (step : string) (batchSeq : Z) (err : Exn) : M D unit :=
  outcome ← republishOnFailure cfg m;
  fail (pipelineRunId m) step (errMessage err +:+ " (retry=" +:+ outcome +:+ ")") batchSeq.

(* ------------------------------------------------------------------ *)
(** * BasePipelineConsumer.process                                      *)
(* ------------------------------------------------------------------ *)

Definition consumeStart (m : Message) (q : string) : M D unit := λ w,
  (Done (), set_locals (true, (w_locals w).2) (add_metric (MConsumeStart (tenantId m) q) w)).

Definition consumeEnd (m : Message) (q : string) (o : ConsumeOutcome) (ms : Z) : M D unit := λ w,
  let '(started, ended) := w_locals w in
  if negb started || ended then (Done (), w)
  else (Done (), set_locals (started, true) (add_metric (MConsumeEnd (tenantId m) q o ms) w)).

Definition base_body (c : BaseConsumer) (m : Message) (q : string) : M D unit :=
  outcome ← start (pipelineRunId m) (tenantId m) (step_str (bc_step c)) (attempt m)
              DISPATCH_BATCH_SEQ;
  match outcome with
  | AlreadyCompleted => consumeStart m q;; consumeEnd m q CoSkip 0
  | InProgress =>
      consumeStart m q;; consumeEnd m q CoSkip 0;;
      republish_duplicate m
  | Started =>
      consumeStart m q;;
      t0 ← date_now;
      tenant ← findActive (tenantId m);
      integrationDs ← forTenantSlug (tn_slug tenant);
      runWithTenant (tn_schemaName tenant)
        (successors ← bc_handle c m integrationDs;
         complete (pipelineRunId m) (step_str (bc_step c)) DISPATCH_BATCH_SEQ EmConn;;
         insertMany (pipelineRunId m) (tenantId m)
           (if isStandalone m then [] else successors));;
      t1 ← date_now;
      consumeEnd m q CoOk (t1 - t0)
  end.

Definition base_catch (c : BaseConsumer) (m : Message) (q : string) (err : Exn) : M D unit :=
  if is_duplicate err then consumeEnd m q CoSkip 0;; throw err
  else
    consumeEnd m q CoFail 0;;
    route_failure m (step_str (bc_step c)) DISPATCH_BATCH_SEQ err.

Definition base_process (c : BaseConsumer) (m : Message) : M D unit :=
  let q := default (step_str (bc_step c)) (queue m) in
  (λ w, (Done (), set_locals (false, false) w));;
  try_catch (base_body c m q) (base_catch c m q).

(* ------------------------------------------------------------------ *)
(** * BatchPipelineConsumer.process                                     *)
(* ------------------------------------------------------------------ *)

(** The callback of the tenant transaction. *)
Definition batch_tx (c : BatchConsumer) (m : Message) (ds : option I) (seq : Z)
    (tenant : Tenant) : M D BatchIncrement :=
  bt_handle c m ds seq tenant;;
  inc ← completeBatchAndIncrement (pipelineRunId m) (step_str (bt_step c)) seq;
  if inc_isLast inc then
    successors ← (if isStandalone m then mret [] else bt_successors c m ds);
    insertMany (pipelineRunId m) (tenantId m) successors;;
    mret inc
  else mret inc.

Definition batch_body (c : BatchConsumer) (m : Message) (q : string) : M D unit :=
  let seq := seqOf m in
  if seq <=? 0 then
    throw (EError ("BatchPipelineConsumer requires batchSeq >= 1 (got " +:+ pretty seq
                   +:+ ") for step " +:+ step_str (bt_step c)))
  else
  outcome ← start (pipelineRunId m) (tenantId m) (step_str (bt_step c)) (attempt m) seq;
  match outcome with
  | AlreadyCompleted =>
      metric (MConsumeStart (tenantId m) q);;
      metric (MConsumeEnd (tenantId m) q CoSkip 0)
  | InProgress =>
      metric (MConsumeStart (tenantId m) q);;
      metric (MConsumeEnd (tenantId m) q CoSkip 0);;
      republish_duplicate m
  | Started =>
      metric (MConsumeStart (tenantId m) q);;
      t0 ← date_now;
      tenant ← findActive (tenantId m);
      integrationDs ← forTenantSlug (tn_slug tenant);
      runWithTenant (tn_schemaName tenant) (batch_tx c m integrationDs seq tenant);;
      t1 ← date_now;
      metric (MConsumeEnd (tenantId m) q CoOk (t1 - t0))
  end.

Definition batch_catch (c : BatchConsumer) (m : Message) (q : string) (err : Exn) : M D unit :=
  if is_duplicate err then throw err
  else
    metric (MConsumeEnd (tenantId m) q CoFail 0);;
    route_failure m (step_str (bt_step c)) (seqOf m) err.

Definition batch_process (c : BatchConsumer) (m : Message) : M D unit :=
  let q := default (step_str (bt_step c)) (queue m) in
  try_catch (batch_body c m q) (batch_catch c m q).

(* ------------------------------------------------------------------ *)
(** * DispatchPipelineConsumer                                          *)
(* ------------------------------------------------------------------ *)

(** [batches.filter((b) => seq > from && !done.has(seq))] *)
Definition pending_batches (done : list Z) (from : Z) (batches : list Message) : list Message :=
  filter (λ b, from < seqOf b ∧ seqOf b ∉ done) batches.

(** [Math.max(...slice.map((b) => b.batchSeq ?? 0))] of a non-empty slice *)
Definition max_seq (l : list Message) : Z :=
  match l with
  | [] => 0
  | b :: l' => foldl (λ a b, Z.max a (seqOf b)) (seqOf b) l'
  end.

(** Outbox mode: stage slice by slice, checkpoint after each. *)
Fixpoint emit_outbox (run tenant step : string) (sa : option bool)
    (chunks : list (list Message)) : M D nat :=
  match chunks with
  | [] => mret 0%nat
  | slice :: rest =>
      insertBatchMessages run tenant (with_standalone sa <$> slice);;
      updateLastPublishedBatchSeq run step (max_seq slice);;
      n ← emit_outbox run tenant step sa rest;
      mret (length slice + n)%nat
  end.

(** Direct mode: publish one by one, checkpoint every [checkpoint] seqs. *)
Fixpoint emit_direct (run step : string) (checkpoint : Z) (sa : option bool)
    (batches : list Message) : M D nat :=
  match batches with
  | [] => mret 0%nat
  | b :: rest =>
      publishStep cfg (with_standalone sa b) (Some ("dispatch:" +:+ step, Some 1));;
      (if (0 <? checkpoint) && (Z.rem (seqOf b) checkpoint =? 0)
       then updateLastPublishedBatchSeq run step (seqOf b) else mret ());;
      n ← emit_direct run step checkpoint sa rest;
      mret (S n)
  end.

Definition emitBatches (c : DispatchConsumer) (m : Message) (batches : list Message) : M D nat :=
  let step := step_str (dc_step c) in
  done ← completedBatchSeqs (pipelineRunId m) step;
  from ← lastPublishedBatchSeq (pipelineRunId m) step;
  match pending_batches done from batches with
  | [] => mret 0%nat
  | (b0 :: _) as pending =>
      if pipelineDispatchOutboxPublish cfg
      then emit_outbox (pipelineRunId m) (tenantId m) step (standalone m)
             (slices OUTBOX_INSERT_CHUNK pending)
      else
        n ← emit_direct (pipelineRunId m) step (pipelineDispatchPublishCheckpoint cfg)
              (standalone m) pending;
        let lastSeq := seqOf (List.last pending b0) in
        (if from <? lastSeq
         then updateLastPublishedBatchSeq (pipelineRunId m) step lastSeq else mret ());;
        mret n
  end.

(** [countsPerQueue] *)
Definition counts_per_queue (step : string) (batches : list Message) : list (string * Z) :=
  foldl (λ acc b, let q := default (step +:+ ".batch") (queue b) in
                  js_map_set q (default 0 (js_map_get q acc) + 1) acc) [] batches.

(** The callback of the tenant transaction. *)
Definition dispatch_tx (c : DispatchConsumer) (m : Message) (ds : option I) (tenant : Tenant) :
    M D DispatchHandleResult :=
  let step := step_str (dc_step c) in
  r ← dc_handle c m ds tenant;
  match dr_batches r with
  | [] =>
      recordDispatch (pipelineRunId m) step 0 EmConn;;
      complete (pipelineRunId m) step DISPATCH_BATCH_SEQ EmConn;;
      insertMany (pipelineRunId m) (tenantId m)
        (if isStandalone m then [] else default [] (dr_emptySuccessors r));;
      mret r
  | _ => mret r
  end.

Definition dispatch_body (c : DispatchConsumer) (m : Message) (q : string) : M D unit :=
  let step := step_str (dc_step c) in
  outcome ← startOrRestartDispatch (pipelineRunId m) (tenantId m) step (attempt m);
  match outcome with
  | AlreadyCompleted => metric (MConsumeEnd (tenantId m) q CoSkip 0)
  | _ =>
      metric (MConsumeStart (tenantId m) q);;
      t0 ← date_now;
      tenant ← findActive (tenantId m);
      integrationDs ← forTenantSlug (tn_slug tenant);
      result ← runWithTenant (tn_schemaName tenant) (dispatch_tx c m integrationDs tenant);
      match dr_batches result with
      | [] => t1 ← date_now; metric (MConsumeEnd (tenantId m) q CoOk (t1 - t0))
      | batches =>
          metric (MDispatchBatches (tenantId m) step (counts_per_queue step batches));;
          dc_onDispatch c m batches;;
          recordDispatch (pipelineRunId m) step (Z.of_nat (length batches)) RepoConn;;
          emitBatches c m batches;;
          complete (pipelineRunId m) step DISPATCH_BATCH_SEQ RepoConn;;
          t1 ← date_now;
          metric (MConsumeEnd (tenantId m) q CoOk (t1 - t0))
      end
  end.

Definition dispatch_catch (c : DispatchConsumer) (m : Message) (q : string) (err : Exn) :
    M D unit :=
  metric (MConsumeEnd (tenantId m) q CoFail 0);;
  route_failure m (step_str (dc_step c)) DISPATCH_BATCH_SEQ err.

Definition dispatch_process (c : DispatchConsumer) (m : Message) : M D unit :=
  let q := step_str (dc_step c) +:+ ".dispatch" in
  try_catch (dispatch_body c m q) (dispatch_catch c m q).

End Consumers.
