(* ===== verification/Logic.v ===== *)
(** Reasoning about service methods under an arbitrary oracle.

    [wp m Q E C w] says that running [m] from [w] ends in a value satisfying
    [Q], an exception satisfying [E], or the death of the process in a world
    satisfying [C].  The rules quantify over every fate of every external
    call, so a derivation holds for all of them.

    [frame_rel] is what a step's own code may do to the world while it runs
    inside the tenant transaction: write tenant data through the entity
    manager, commit join markers ([branch.*] rows), report metrics.  [Frame]
    is closed under the control structures, which is how the concrete
    handlers discharge it. *)

From Stdlib Require Import Ascii String.
From S2P Require Import Prelude JsText Enums Messages World RunService.
Open Scope string_scope.
Open Scope list_scope.
Open Scope Z_scope.

Section Wp.
Context {D : Type}.
Abbreviation W := (World D).

Definition wp {A} (m : M D A) (Q : A → W → Prop) (E : Exn → W → Prop) (C : W → Prop)
    (w : W) : Prop :=
  match m w with
  | (Done a, w') => Q a w'
  | (Raised e, w') => E e w'
  | (Crashed, w') => C w'
  end.

(** The same world after the oracle answered and time passed. *)
Definition ticked (o : list (Fault * Z)) (t : Z) (w : W) : W := set_now t (set_oracle o w).

Definition is_branch_step (s : string) : bool := String.prefix "branch." s.

(** A statement that only writes tenant data. *)
Definition data_only (f : Db D → Db D) : Prop :=
  ∀ db, db_runs (f db) = db_runs db ∧ db_outbox (f db) = db_outbox db.

Record frame_rel (w w' : W) : Prop := {
  fr_runs : ∀ k, is_branch_step k.1.2 = false →
    db_runs (w_db w') !! k = db_runs (w_db w) !! k;
  fr_outbox : db_outbox (w_db w') = db_outbox (w_db w);
  fr_data : db_data (w_db w') = db_data (w_db w);
  fr_amqp : w_amqp w' = w_amqp w;
  fr_tenants : w_tenants w' = w_tenants w;
  fr_locals : w_locals w' = w_locals w;
  fr_tx : match w_tx w, w_tx w' with
          | Some (s, l), Some (s', l') => s' = s ∧ ∃ l2, l' = l ++ l2 ∧ Forall data_only l2
          | None, None => True
          | _, _ => False
          end;
}.

Definition in_tx (w : W) : bool := match w_tx w with Some _ => true | None => false end.

(** Framed when started inside ([b = true]) or outside a transaction. *)
Definition Frame {A} (b : bool) (m : M D A) : Prop :=
  ∀ w, in_tx w = b → frame_rel w (m w).2.

(* ------------------------------------------------------------------ *)
(** * Rules                                                             *)
(* ------------------------------------------------------------------ *)

Lemma wp_ret {A} (a : A) Q E C w : Q a w → wp (mret a) Q E C w.
Proof. done. Qed.

Lemma M_bind_done {A B} (m : M D A) (f : A → M D B) w a w' :
  m w = (Done a, w') → (m ≫= f) w = f a w'.
Proof. intros E. unfold mbind, M_bind. by rewrite E. Qed.

Lemma wp_throw {A} e (Q : A → W → Prop) E C w : E e w → wp (throw e) Q E C w.
Proof. done. Qed.

Lemma wp_bind {A B} (m : M D A) (f : A → M D B) Q E C w :
  wp m (λ a w', wp (f a) Q E C w') E C w → wp (m ≫= f) Q E C w.
Proof. unfold wp, mbind, M_bind. destruct (m w) as [[a|e|] w']; done. Qed.

Lemma wp_catch {A} (m : M D A) h Q E C w :
  wp m Q (λ e w', wp (h e) Q E C w') C w → wp (try_catch m h) Q E C w.
Proof. unfold wp, try_catch. destruct (m w) as [[a|e|] w']; done. Qed.

Lemma wp_mono {A} (m : M D A) (Q Q' : A → W → Prop) (E E' : Exn → W → Prop) (C C' : W → Prop) w :
  wp m Q E C w → (∀ a w', Q a w' → Q' a w') → (∀ e w', E e w' → E' e w') →
  (∀ w', C w' → C' w') → wp m Q' E' C' w.
Proof. unfold wp. destruct (m w) as [[a|e|] w']; auto. Qed.

Lemma wp_conj {A} (m : M D A) (Q Q' : A → W → Prop) (E E' : Exn → W → Prop) (C C' : W → Prop) w :
  wp m Q E C w → wp m Q' E' C' w →
  wp m (λ a w', Q a w' ∧ Q' a w') (λ e w', E e w' ∧ E' e w') (λ w', C w' ∧ C' w') w.
Proof. unfold wp. destruct (m w) as [[a|e|] w']; auto. Qed.

Lemma wp_gets {A} (f : W → A) Q E C w : Q (f w) w → wp (gets f) Q E C w.
Proof. done. Qed.

Lemma wp_metric ev Q E C w : Q () (add_metric ev w) → wp (metric ev) Q E C w.
Proof. done. Qed.

Lemma pop_ticked (w : W) : ∃ o t, (pop w).2 = ticked o t w.
Proof.
  unfold pop, ticked. destruct w as [? ? ? ? ? n o l]; simpl.
  destruct o as [|[f dt] o]; simpl; [|eauto]. by exists [], n.
Qed.

Lemma wp_ext {A} (f : W → Res A * W) Q E C w :
  (∀ o t, let w0 := ticked o t w in
     match f w0 with (Ok a, w') => Q a w' | (Throw e, w') => E e w' end
     ∧ (∀ e, E e w0 ∧ E e (f w0).2) ∧ C w0 ∧ C (f w0).2) →
  wp (ext f) Q E C w.
Proof.
  intros H. unfold wp, ext. destruct (pop_ticked w) as (o & t & Hp).
  destruct (pop w) as [ft w0]. simpl in Hp. subst w0.
  destruct (H o t) as (H1 & H2 & H3 & H4).
  destruct ft; try done.
  - by destruct (f (ticked o t w)) as [[]].
  - apply H2.
  - apply H2.
Qed.

Lemma wp_sql_read {A} c (f : Db D → A) Q E C w :
  (∀ o t, let w0 := ticked o t w in
     Q (f (view c w)) (match c, w_tx w with
                       | EmConn, Some (s, l) => set_tx (Some (s, l ++ [id])) w0
                       | _, _ => w0 end)
     ∧ (∀ e, E e w0 ∧ E e (match c, w_tx w with
                       | EmConn, Some (s, l) => set_tx (Some (s, l ++ [id])) w0
                       | _, _ => w0 end))
     ∧ C w0 ∧ C (match c, w_tx w with
                       | EmConn, Some (s, l) => set_tx (Some (s, l ++ [id])) w0
                       | _, _ => w0 end)) →
  wp (sql_read c f) Q E C w.
Proof.
  intros H. apply wp_ext. intros o t. unfold sql_step. specialize (H o t). revert H.
  destruct w as [db tx tn am mt nw orc lc].
  unfold ticked, view, set_db, set_tx; simpl.
  destruct c; simpl; [done|]. by destruct tx as [[s l]|].
Qed.

(** A read through an injected repository. *)
Lemma wp_read_repo {A} (f : Db D → A) Q (E : Exn → W → Prop) (C : W → Prop) w :
  (∀ o t, let w0 := ticked o t w in
     Q (f (w_db w)) w0 ∧ (∀ e, E e w0) ∧ C w0) →
  wp (sql_read RepoConn f) Q E C w.
Proof.
  intros H. apply wp_sql_read. intros o t. destruct (H o t) as (H1 & H2 & H3). eauto.
Qed.

(** A write through an injected repository commits at once. *)
Lemma wp_write_repo (f : Db D → Db D) Q (E : Exn → W → Prop) (C : W → Prop) w :
  (∀ o t, let w0 := ticked o t w in let w1 := set_db (f (w_db w)) w0 in
     Q () w1 ∧ (∀ e, E e w0 ∧ E e w1) ∧ C w0 ∧ C w1) →
  wp (sql_write RepoConn f) Q E C w.
Proof. intros H. apply wp_ext. intros o t. apply (H o t). Qed.

(** A write through the entity manager is logged. *)
Lemma wp_write_em (f : Db D → Db D) Q (E : Exn → W → Prop) (C : W → Prop) w s l :
  w_tx w = Some (s, l) →
  (∀ o t, let w0 := ticked o t w in let w1 := set_tx (Some (s, l ++ [f])) w0 in
     Q () w1 ∧ (∀ e, E e w0 ∧ E e w1) ∧ C w0 ∧ C w1) →
  wp (sql_write EmConn f) Q E C w.
Proof.
  intros Htx H. apply wp_ext. intros o t. specialize (H o t).
  unfold sql_step. simpl. destruct w; simpl in *; subst. apply H.
Qed.

Lemma wp_publish x k m Q (E : Exn → W → Prop) (C : W → Prop) w :
  (∀ o t, let w0 := ticked o t w in
     let w1 := add_amqp {| pb_exchange := x; pb_key := k; pb_msg := m |} w0 in
     Q () w1 ∧ (∀ e, E e w0 ∧ E e w1) ∧ C w0 ∧ C w1) →
  wp (amqp_publish x k m) Q E C w.
Proof. intros H. apply wp_ext. intros o t. apply (H o t). Qed.

Lemma wp_runWithTenant {A} schema (fn : M D A) Q (E : Exn → W → Prop) (C : W → Prop) w :
  (∀ e, E e w) →
  (∀ o t, (∀ e, E e (set_tx None (ticked o t w))) ∧ C (set_tx None (ticked o t w))) →
  (∀ o t,
     wp fn
       (λ a w1, ∀ o' t', let w2 := ticked o' t' w1 in
          Q a (set_tx None (commit_step w2).2)
          ∧ (∀ e, E e (set_tx None w2) ∧ E e (set_tx None (commit_step w2).2))
          ∧ C (set_tx None w2) ∧ C (set_tx None (commit_step w2).2))
       (λ e w1, E e (set_tx None w1)) (λ w1, C (set_tx None w1))
       (set_tx (Some (schema, [])) (ticked o t w))) →
  wp (runWithTenant schema fn) Q E C w.
Proof.
  intros HE0 H0 H. unfold runWithTenant. destruct (valid_schema schema); simpl; [|apply HE0].
  set (body := mbind _ _).
  cut (wp body (λ a w', Q a (set_tx None w')) (λ e w', E e (set_tx None w'))
         (λ w', C (set_tx None w')) w).
  { unfold wp. by destruct (body w) as [[a|e|] w']. }
  assert (∀ o t o' t', ticked o' t' (set_tx (Some (schema, [])) (ticked o t w))
            = set_tx (Some (schema, [])) (ticked o' t' w)) as Heq by (by destruct w).
  assert (∀ o t, set_tx None (set_tx (Some (schema, [])) (ticked o t w))
            = set_tx None (ticked o t w)) as Heq' by (by destruct w).
  apply wp_bind, wp_ext. intros o t. simpl. rewrite Heq'.
  destruct (H0 o t) as [HE HC]. split_and!; auto.
  apply wp_bind, wp_ext. intros o1 t1. simpl. rewrite Heq, Heq'.
  destruct (H0 o1 t1) as [HE1 HC1]. split_and!; auto.
  apply wp_bind. eapply wp_mono; [apply (H o1 t1)| |auto|auto].
  intros a w1 Hw1. apply wp_bind, wp_ext. intros o2 t2.
  destruct (Hw1 o2 t2) as (Q1 & E1 & C1 & C2). simpl. split_and!; auto.
Qed.

(* ------------------------------------------------------------------ *)
(** * Frames                                                            *)
(* ------------------------------------------------------------------ *)

#[export] Instance frame_rel_preorder : PreOrder frame_rel.
Proof.
  split.
  - intros w. split; try done. destruct (w_tx w) as [[s l]|]; [|done].
    split; [done|]. exists []. by rewrite app_nil_r.
  - intros w1 w2 w3 [R1 O1 D1 A1 T1 L1 X1] [R2 O2 D2 A2 T2 L2 X2]. split; try congruence.
    + intros k Hk. by rewrite R2, R1.
    + destruct (w_tx w1) as [[s1 l1]|], (w_tx w2) as [[s2 l2]|], (w_tx w3) as [[s3 l3]|];
        simpl in *; try tauto.
      destruct X1 as [-> (l2' & -> & F2)], X2 as [-> (l3' & -> & F3)].
      split; [done|]. exists (l2' ++ l3'). rewrite <- (assoc (++)).
      split; [done|]. by apply Forall_app.
Qed.

Lemma frame_in_tx w w' : frame_rel w w' → in_tx w' = in_tx w.
Proof.
  intros [_ _ _ _ _ _ H]. unfold in_tx.
  by destruct (w_tx w) as [[]|], (w_tx w') as [[]|].
Qed.

Lemma frame_ticked o t w : frame_rel w (ticked o t w).
Proof.
  split; try done. simpl. destruct (w_tx w) as [[s l]|] eqn:E; [|done].
  split; [done|]. exists []. by rewrite app_nil_r.
Qed.

Lemma frame_metric ev w : frame_rel w (add_metric ev w).
Proof.
  split; try done. simpl. destruct (w_tx w) as [[s l]|]; [|done].
  split; [done|]. exists []. by rewrite app_nil_r.
Qed.

Lemma frame_em_write f s l w :
  w_tx w = Some (s, l) → data_only f → frame_rel w (set_tx (Some (s, l ++ [f])) w).
Proof.
  intros E Hf. split; try done. simpl. rewrite E. split; [done|]. exists [f]. eauto.
Qed.

Lemma Frame_wp {A} b (m : M D A) :
  Frame b m ↔
  ∀ w, in_tx w = b → wp m (λ _, frame_rel w) (λ _, frame_rel w) (frame_rel w) w.
Proof.
  unfold Frame, wp. split; intros H w Hw; specialize (H w Hw); by destruct (m w) as [[]].
Qed.

Lemma wp_frame {A} b (m : M D A) Q E C w :
  Frame b m → in_tx w = b → (∀ a w', frame_rel w w' → Q a w') →
  (∀ e w', frame_rel w w' → E e w') → (∀ w', frame_rel w w' → C w') → wp m Q E C w.
Proof. intros Hm Hb HQ HE HC. rewrite Frame_wp in Hm. eapply wp_mono; eauto. Qed.

Lemma Frame_ret {A} b (a : A) : Frame b (mret a).
Proof. intros w _. reflexivity. Qed.

Lemma Frame_throw {A} b e : Frame b (throw e : M D A).
Proof. intros w _. reflexivity. Qed.

Lemma Frame_gets {A} b (f : W → A) : Frame b (gets f).
Proof. intros w _. reflexivity. Qed.

Lemma Frame_metric b ev : Frame b (metric ev).
Proof. intros w _. apply frame_metric. Qed.

Lemma Frame_bind {A B} b (m : M D A) (f : A → M D B) :
  Frame b m → (∀ a, Frame b (f a)) → Frame b (m ≫= f).
Proof.
  intros Hm Hf w Hw. unfold mbind, M_bind. specialize (Hm w Hw).
  destruct (m w) as [[a|e|] w']; simpl in *; [|done..]. etrans; [done|].
  apply Hf. by rewrite (frame_in_tx w).
Qed.

Lemma Frame_if {A} b (x : bool) (m1 m2 : M D A) :
  Frame b m1 → Frame b m2 → Frame b (if x then m1 else m2).
Proof. by destruct x. Qed.

Lemma Frame_catch {A} b (m : M D A) h :
  Frame b m → (∀ e, Frame b (h e)) → Frame b (try_catch m h).
Proof.
  intros Hm Hh w Hw. unfold try_catch. specialize (Hm w Hw).
  destruct (m w) as [[a|e|] w']; simpl in *; [done| |done]. etrans; [done|].
  apply Hh. by rewrite (frame_in_tx w).
Qed.

Lemma Frame_for_each {A} b (xs : list A) (f : A → M D unit) :
  (∀ x, Frame b (f x)) → Frame b (for_each xs f).
Proof.
  intros Hf. induction xs; [apply Frame_ret|]. by apply Frame_bind.
Qed.

Lemma Frame_ext {A} b (f : W → Res A * W) :
  (∀ w, in_tx w = b → frame_rel w (f w).2) → Frame b (ext f).
Proof.
  intros Hf. apply Frame_wp. intros w Hw. apply wp_ext. intros o t w0.
  assert (frame_rel w w0) by apply frame_ticked.
  assert (frame_rel w (f w0).2) by (etrans; [done|by apply Hf]).
  split_and!; try done. destruct (f w0) as [[]]; done.
Qed.

(** A statement on tenant data through the entity manager, for code that
    runs inside a transaction; outside of one it is not framed. *)
Definition em_data_step {A} (f : Db D → Res A * (Db D → Db D)) : Prop :=
  ∀ db a wr, f db = (Ok a, wr) → data_only wr.

Lemma Frame_sql_em {A} (f : Db D → Res A * (Db D → Db D)) :
  em_data_step f → Frame true (sql EmConn f).
Proof.
  intros Hf. apply Frame_ext. intros w Hw. unfold sql_step.
  destruct (f (view EmConn w)) as [[a|e] wr] eqn:E; [|done].
  unfold in_tx in Hw. destruct (w_tx w) as [[s l]|] eqn:Etx; [|done].
  simpl. eapply frame_em_write; [done|]. by eapply Hf.
Qed.

Lemma Frame_em_write (f : Db D → Db D) : data_only f → Frame true (sql_write EmConn f).
Proof. intros Hf. apply Frame_sql_em. intros db a wr E. by simplify_eq. Qed.

Lemma Frame_read {A} b c (f : Db D → A) : Frame b (sql_read c f).
Proof.
  apply Frame_ext. intros w _. unfold sql_step. simpl.
  destruct c; simpl; [by destruct w|].
  destruct (w_tx w) as [[s l]|] eqn:Etx; [|by destruct w].
  apply frame_em_write; [done|]. by intros db.
Qed.

Lemma Frame_findActive b slug : Frame b (findActive (D := D) slug).
Proof.
  unfold findActive, findBySlug. apply Frame_bind.
  - apply Frame_bind; [by apply Frame_ext|].
    intros [[i t]|]; [apply Frame_ret|apply Frame_throw].
  - intros t. case_match; [apply Frame_ret|apply Frame_throw].
Qed.

Lemma data_only_replay (l : list (Db D → Db D)) db :
  Forall data_only l →
  db_runs (replay l db) = db_runs db ∧ db_outbox (replay l db) = db_outbox db.
Proof.
  unfold replay. revert db. induction l as [|f l IH]; intros db F; [done|]. simpl.
  inversion F as [|? ? Hf Hl]; subst. destruct (Hf db) as [E1 E2].
  destruct (IH (f db) Hl) as [-> ->]. done.
Qed.

Lemma replay_app (l1 l2 : list (Db D → Db D)) db : replay (l1 ++ l2) db = replay l2 (replay l1 db).
Proof. unfold replay. by rewrite foldl_app. Qed.

(** What a derivation says of the run. *)
Lemma wp_elim {A} (m : M D A) Q E C w :
  wp m Q E C w ↔
  match m w with
  | (Done a, w') => Q a w'
  | (Raised e, w') => E e w'
  | (Crashed, w') => C w'
  end.
Proof. done. Qed.

(** A run that ended, with its postcondition. *)
Lemma wp_run {A} (m : M D A) Q E C w :
  wp m Q E C w → wp m (λ a w', m w = (Done a, w') ∧ Q a w') E C w.
Proof. unfold wp. by destruct (m w) as [[a|e|] w']. Qed.

Lemma wp_frame_run {A} b (m : M D A) Q E C w :
  Frame b m → in_tx w = b → (∀ a w', m w = (Done a, w') → frame_rel w w' → Q a w') →
  (∀ e w', frame_rel w w' → E e w') → (∀ w', frame_rel w w' → C w') → wp m Q E C w.
Proof.
  intros Hm Hb HQ HE HC. rewrite Frame_wp in Hm. eapply wp_mono; [apply wp_run, (Hm w Hb)|..]; auto.
  intros a w' [? ?]. auto.
Qed.

(** Postconditions that only concern returned values. *)
Lemma wp_bind_any {A B} (m : M D A) (f : A → M D B) (Q : B → Prop) w :
  (∀ a w', wp (f a) (λ b _, Q b) (λ _ _, True) (λ _, True) w') →
  wp (m ≫= f) (λ b _, Q b) (λ _ _, True) (λ _, True) w.
Proof.
  intros H. unfold wp, mbind, M_bind in *. destruct (m w) as [[a|e|] w']; [apply H|done..].
Qed.

Lemma wp_ret_any {A} (a : A) (Q : A → Prop) (w : W) :
  Q a → wp (mret a) (λ b _, Q b) (λ _ _, True) (λ _, True) w.
Proof. done. Qed.

End Wp.

#[global] Opaque wp.
