(* ===== verification/BatchLaws.v ===== *)
(** What one delivery to a batch consumer does, whatever fails.

    [batch_process_spec] walks through [batch_process] under an arbitrary
    oracle; the properties are read off it: atomicity of the tenant
    transaction (work, completion, counter and staged successors together)
    and that an acknowledged delivery is completed or dead-lettered. *)

From Stdlib Require Import Ascii String.
From S2P Require Import Prelude JsText Enums Messages World RunService Outbox Consumers Logic.
Open Scope string_scope.
Open Scope list_scope.
Open Scope Z_scope.

(** The publish of [RetryService.republishOnFailure]. *)
Definition dlq_publish (cfg : Config) (m : Message) : Publish :=
  {| pb_exchange := DLX_NAME (cfg_env cfg); pb_key := routingKey m; pb_msg := m |}.

Definition in_dlq {D} (cfg : Config) (m : Message) (w : World D) : Prop :=
  dlq_publish cfg m ∈ w_amqp w.

(** The batch that moves the counter from [d] closes the fan-in. *)
Definition closes (d : RunRow) : bool :=
  (0 <? default 0 (rr_batchesPlanned d))
  && (default 0 (rr_batchesPlanned d) <=? rr_batchesDone d + 1).

Definition run_status {D} (k : RunKey) (w : World D) : option PipelineRunStatus :=
  rr_status <$> db_runs (w_db w) !! k.

(** What the code of a batch step may do, and what its successors are. *)
Class BatchLaws {D I : Type} (c : @BatchConsumer D I) (Succ : Message → list Message → Prop) := {
  bl_handle : ∀ m ds seq tenant, Frame true (bt_handle c m ds seq tenant);
  bl_successors : ∀ m ds, Frame true (bt_successors c m ds);
  bl_successors_post : ∀ m ds w,
    wp (bt_successors c m ds) (λ ms _, Succ m ms) (λ _ _, True) (λ _, True) w;
}.

Section Batch.
Context {D I : Type} (cfg : Config) (forTenantSlug : string → M D (option I)).
Context (Hint : ∀ s, Frame false (forTenantSlug s)).
Context (c : @BatchConsumer D I) (Succ : Message → list Message → Prop) `{!BatchLaws c Succ}.
Variable m : Message.
Abbreviation W := (World D).

Let run := pipelineRunId m.
Let stp := step_str (bt_step c).
Definition batch_key : RunKey := (run, stp, seqOf m).
Definition fanin_key : RunKey := (run, stp, DISPATCH_BATCH_SEQ).

(** Committed rows other than this batch's, the counter's and the join
    markers are as before. *)
Definition others_same (w w' : W) : Prop :=
  ∀ k, k ≠ batch_key → k ≠ fanin_key → is_branch_step k.1.2 = false →
    db_runs (w_db w') !! k = db_runs (w_db w) !! k.

(** The transaction did not commit. *)
Definition untouched (w w' : W) : Prop :=
  others_same w w'
  ∧ db_runs (w_db w') !! fanin_key = db_runs (w_db w) !! fanin_key
  ∧ db_outbox (w_db w') = db_outbox (w_db w) ∧ db_data (w_db w') = db_data (w_db w).

(** The tenant of the message. *)
Definition active_tenant (tenant : Tenant) (w : W) : Prop :=
  tn_slug tenant = tenantId m ∧ tn_status tenant = TENANT_ACTIVE ∧ tenant ∈ w_tenants w.

(** A run of the step's code in a transaction that has just begun, and the
    statements it issued. *)
Definition handled (ds : option I) (tenant : Tenant) (w : W) (work : list (Db D → Db D)) : Prop :=
  ∃ w2 w3, db_data (w_db w2) = db_data (w_db w)
  ∧ w_tx w2 = Some (tn_schemaName tenant, [])
  ∧ bt_handle c m ds (seqOf m) tenant w2 = (Done (), w3)
  ∧ w_tx w3 = Some (tn_schemaName tenant, work).

(** The messages to stage, and the statements issued to compute them: of a
    run of [successors] when the batch closes the fan-in of a message that is
    not standalone, none otherwise. *)
Definition succeeded (ds : option I) (d : RunRow) (ms : list Message) (more : list (Db D → Db D)) : Prop :=
  if closes d && negb (isStandalone m)
  then Succ m ms ∧ ∃ w4 w5 s l, w_tx w4 = Some (s, l) ∧ bt_successors c m ds w4 = (Done ms, w5)
         ∧ w_tx w5 = Some (s, l ++ more)
  else ms = [] ∧ more = [].

(** The statements of the step are committed, in their order. *)
Definition data_committed (work more : list (Db D → Db D)) (w w' : W) : Prop :=
  ∃ db0 db1, db_data db0 = db_data (w_db w) ∧ db_data db1 = db_data (replay work db0)
  ∧ db_data (w_db w') = db_data (replay more db1).

(** It committed: the statements of the step's run are in the tenant's data,
    the counter moved by one, and the successors are staged if and only if
    this batch closes the fan-in. *)
Definition applied (w w' : W) : Prop :=
  others_same w w'
  ∧ ∃ d ms now ds tenant work more,
      db_runs (w_db w) !! fanin_key = Some d
      ∧ db_runs (w_db w') !! fanin_key = Some (upd_done 1 d)
      ∧ db_outbox (w_db w') = stage_rows now run (tenantId m) ms (db_outbox (w_db w))
      ∧ active_tenant tenant w
      ∧ handled ds tenant w work ∧ succeeded ds d ms more ∧ data_committed work more w w'.

(** The batch's own row: completed by the transaction, or completed and then
    marked as failed after the message went to the dead letters, which
    happens when the confirmation of the commit is lost. *)
Definition completed_row (w' : W) : Prop :=
  ∃ n r, rr_status r = RUNNING ∧ db_runs (w_db w') !! batch_key = Some (upd_complete n r).
Definition overwritten_row (w' : W) : Prop :=
  in_dlq cfg m w' ∧ ∃ n n' text r, rr_status r = RUNNING
  ∧ db_runs (w_db w') !! batch_key = Some (upd_fail n' text (upd_complete n r)).

(** Up to the failure handler, and after it. *)
Definition settled_tx (w w' : W) : Prop := untouched w w' ∨ applied w w' ∧ completed_row w'.
Definition all_or_nothing (w w' : W) : Prop :=
  untouched w w' ∨ applied w w' ∧ (completed_row w' ∨ overwritten_row w').

(* ------------------------------------------------------------------ *)
(** * Lemmas                                                            *)
(* ------------------------------------------------------------------ *)

Lemma step_not_branch s : is_branch_step (step_str s) = false.
Proof. by destruct s. Qed.

Lemma stage_rows_nil now r t (rows : list OutboxRow) : stage_rows now r t [] rows = rows.
Proof. apply app_nil_r. Qed.

(** Closed under everything that only touches the batch's own row, the
    broker, metrics, clock and oracle. *)
Lemma untouched_same w w1 w2 :
  untouched w w1 →
  (∀ k, k ≠ batch_key → db_runs (w_db w2) !! k = db_runs (w_db w1) !! k) →
  fanin_key ≠ batch_key →
  db_outbox (w_db w2) = db_outbox (w_db w1) → db_data (w_db w2) = db_data (w_db w1) →
  untouched w w2.
Proof.
  intros (H1 & H2 & H3 & H4) Hk Hne Ho Hd. split_and!; [|rewrite Hk; congruence|congruence..].
  intros k ? ? ?. rewrite Hk by done. auto.
Qed.

Lemma applied_same w w1 w2 :
  applied w w1 →
  (∀ k, k ≠ batch_key → db_runs (w_db w2) !! k = db_runs (w_db w1) !! k) →
  fanin_key ≠ batch_key →
  db_outbox (w_db w2) = db_outbox (w_db w1) → db_data (w_db w2) = db_data (w_db w1) →
  applied w w2.
Proof.
  intros (H1 & d & ms & now & ds & tenant & work & more & H2 & H3 & H4 & Ht & H5 & H6 & H7) Hk Hne Ho Hd. split.
  - intros k ? ? ?. rewrite Hk by done. auto.
  - exists d, ms, now, ds, tenant, work, more. rewrite Hk, Ho by done. split_and!; try done.
    destruct H7 as (db0 & db1 & ? & ? & ?). exists db0, db1. by rewrite Hd.
Qed.

(** The rows [start] may leave behind. *)
Definition after_start (w w' : W) : Prop :=
  (∀ k, k ≠ batch_key → db_runs (w_db w') !! k = db_runs (w_db w) !! k)
  ∧ db_outbox (w_db w') = db_outbox (w_db w) ∧ db_data (w_db w') = db_data (w_db w)
  ∧ w_amqp w' = w_amqp w ∧ w_tx w' = w_tx w ∧ w_tenants w' = w_tenants w.

Lemma wp_start att (w : W) :
  wp (start run (tenantId m) stp att (seqOf m))
    (λ o w', after_start w w' ∧
       match o with
       | Started => run_status batch_key w' = Some RUNNING
       | AlreadyCompleted => run_status batch_key w' = Some COMPLETED
       | InProgress => True
       end)
    (λ _, after_start w) (after_start w) w.
Proof.
  unfold start. fold batch_key. apply wp_bind, wp_read_repo. intros o t.
  assert (after_start w (ticked o t w)) as H0 by done.
  split_and!; [|done..].
  apply wp_bind, wp_gets. destruct (db_runs (w_db w) !! batch_key) as [r|] eqn:Er.
  - destruct (decide (rr_status r = COMPLETED)) as [Hc|Hc].
    { apply wp_ret. split; [done|]. unfold run_status. simpl. rewrite Er. simpl. by rewrite Hc. }
    case_match; [by apply wp_ret|].
    apply wp_bind, wp_write_repo. intros o1 t1.
    assert (∀ n, after_start w (set_db (update_run batch_key
              (upd_start n (tenantId m) att) (w_db (ticked o t w)))
              (ticked o1 t1 (ticked o t w)))) as H1.
    { intros n. split_and!; try done. intros k Hk. simpl. by rewrite lookup_alter_ne. }
    split_and!; auto. apply wp_ret. split; [done|].
    unfold run_status. simpl. rewrite lookup_alter, decide_True by done. by rewrite Er.
  - apply wp_bind, wp_ext. intros o1 t1. unfold sql_step. simpl. rewrite Er. simpl.
    assert (∀ n, after_start w (set_db (insert_run batch_key
              (new_row n (tenantId m) att) (w_db w)) (ticked o1 t1 (ticked o t w)))) as H1.
    { intros n. split_and!; try done. intros k Hk. apply lookup_insert_ne. congruence. }
    split_and!; auto.
    apply wp_ret. split; [auto|].
    exact (f_equal (fmap rr_status) (lookup_insert_eq _ _ (new_row t (tenantId m) att))).
Qed.

Lemma cte_running (now : Z) (r d : RunRow) (rows : gmap RunKey RunRow) :
  fanin_key ≠ batch_key →
  rr_status r = RUNNING → rows !! batch_key = Some r → rows !! fanin_key = Some d →
  completeBatchAndIncrement_db now run stp (seqOf m) rows
  = (<[fanin_key := upd_done 1 d]> (<[batch_key := upd_complete now r]> rows),
     Some {| inc_done := rr_batchesDone d + 1; inc_planned := default 0 (rr_batchesPlanned d);
             inc_isLast := closes d |}).
Proof.
  intros Hne Hr Hb Hd. unfold completeBatchAndIncrement_db.
  fold batch_key fanin_key. rewrite Hb, decide_True by done.
  rewrite lookup_insert_ne, Hd by done. reflexivity.
Qed.

Lemma cte_no_dispatch (now : Z) (r : RunRow) (rows : gmap RunKey RunRow) :
  fanin_key ≠ batch_key →
  rr_status r = RUNNING → rows !! batch_key = Some r → rows !! fanin_key = None →
  (completeBatchAndIncrement_db now run stp (seqOf m) rows).2 = None.
Proof.
  intros Hne Hr Hb Hd. unfold completeBatchAndIncrement_db.
  fold batch_key fanin_key. rewrite Hb, decide_True by done.
  by rewrite lookup_insert_ne, Hd.
Qed.

Hypothesis Hseq : 0 < seqOf m.

Lemma keys_ne : fanin_key ≠ batch_key.
Proof. unfold fanin_key, batch_key, DISPATCH_BATCH_SEQ. intros [=]. lia. Qed.

Lemma batch_not_branch : is_branch_step (batch_key).1.2 = false.
Proof. apply step_not_branch. Qed.

Lemma fanin_not_branch : is_branch_step (fanin_key).1.2 = false.
Proof. apply step_not_branch. Qed.

(** Same committed state up to join markers, inside the transaction. *)
Definition uncommitted (w w' : W) : Prop :=
  (∀ k, is_branch_step k.1.2 = false → db_runs (w_db w') !! k = db_runs (w_db w) !! k)
  ∧ db_outbox (w_db w') = db_outbox (w_db w) ∧ db_data (w_db w') = db_data (w_db w)
  ∧ w_amqp w' = w_amqp w.

#[local] Instance uncommitted_preorder : PreOrder uncommitted.
Proof.
  split; [done|]. intros w1 w2 w3 (R1 & O1 & D1 & A1) (R2 & O2 & D2 & A2).
  split_and!; try congruence. intros k Hk. by rewrite R2, R1.
Qed.

Lemma frame_uncommitted w w' : frame_rel w w' → uncommitted w w'.
Proof. intros []. by split_and!. Qed.

Lemma uncommitted_untouched w w' : uncommitted w w' → untouched w w'.
Proof.
  intros (R & O & Dt & A). split_and!; try done.
  - intros k _ _ Hk. auto.
  - apply R, fanin_not_branch.
Qed.

(** The log of a finished callback: the handler's statements, the counter
    statement, those of [successors], and the staging insert. *)
Definition batch_log (now : Z) (cte : Db D → Db D) (ms : list Message)
    (l2 l3 log : list (Db D → Db D)) : Prop :=
  ∃ now', Forall data_only l2 ∧ Forall data_only l3
  ∧ (∀ db, db_runs (cte db) = (completeBatchAndIncrement_db now run stp (seqOf m) (db_runs db)).1
           ∧ db_outbox (cte db) = db_outbox db ∧ db_data (cte db) = db_data db)
  ∧ (log = l2 ++ [cte] ++ l3 ++ [stage now' run (tenantId m) ms]
     ∨ ms = [] ∧ log = l2 ++ [cte] ++ l3).

Lemma replay_batch now r d ms cte work more log db :
  batch_log now cte ms work more log → rr_status r = RUNNING →
  db_runs db !! batch_key = Some r → db_runs db !! fanin_key = Some d →
  (∃ now', db_outbox (replay log db) = stage_rows now' run (tenantId m) ms (db_outbox db))
  ∧ db_runs (replay log db)
    = <[fanin_key := upd_done 1 d]> (<[batch_key := upd_complete now r]> (db_runs db))
  ∧ ∃ db1, db_data db1 = db_data (replay work db) ∧ db_data (replay log db) = db_data (replay more db1).
Proof.
  intros (now' & F2 & F3 & Hcte & Hlog) Hr Hb Hd.
  destruct (data_only_replay work db F2) as [R2 O2].
  destruct (Hcte (replay work db)) as (Rc & Oc & Dc).
  destruct (data_only_replay more (cte (replay work db)) F3) as [R3 O3].
  assert (db_runs (replay more (cte (replay work db)))
    = <[fanin_key := upd_done 1 d]> (<[batch_key := upd_complete now r]> (db_runs db))) as Hruns.
  { rewrite R3, Rc, R2. erewrite cte_running by (done || apply keys_ne). done. }
  assert (∀ l, replay (work ++ [cte] ++ l) db = replay l (cte (replay work db))) as Happ
    by (intros l; by rewrite !replay_app).
  destruct Hlog as [->|[-> ->]]; rewrite Happ; [rewrite replay_app|];
    (split; [|split; [exact Hruns|by exists (cte (replay work db))]]).
  - exists now'. unfold replay at 1. simpl. by rewrite O3, Oc, O2.
  - exists 0. by rewrite stage_rows_nil, O3, Oc, O2.
Qed.

(** A finished callback, for the rows [r] and [d] it saw. *)
Definition logged (r d : RunRow) (tenant : Tenant) (w w' : W) : Prop :=
  ∃ s log ms now cte ds work more, w_tx w' = Some (s, log) ∧ uncommitted w w'
  ∧ handled ds tenant w work ∧ succeeded ds d ms more ∧ batch_log now cte ms work more log.

Lemma wp_insertMany ms (Q : unit → W → Prop) E C w s l :
  w_tx w = Some (s, l) →
  (∀ o t, let w0 := ticked o t w in
    (∀ e, E e w0) ∧ C w0
    ∧ (ms = [] → Q () w)
    ∧ ∀ now, ms ≠ [] →
      let w1 := set_tx (Some (s, l ++ [stage now run (tenantId m) ms])) w0 in
      Q () w1 ∧ (∀ e, E e w1) ∧ C w1) →
  wp (insertMany run (tenantId m) ms) Q E C w.
Proof.
  intros Htx H. unfold insertMany. destruct ms as [|m0 ms].
  { apply wp_ret. by destruct (H [] 0) as (_ & _ & H3 & _); apply H3. }
  apply wp_bind, wp_gets. eapply wp_write_em; [done|]. intros o t.
  destruct (H o t) as (H1 & H2 & _ & H4). destruct (H4 (w_now w) ltac:(done)) as (Q1 & E1 & C1).
  by split_and!.
Qed.

Lemma uncommitted_tick o t w w' : uncommitted w w' → uncommitted w (ticked o t w').
Proof. done. Qed.

Lemma uncommitted_set_tx x w w' : uncommitted w w' → uncommitted w (set_tx x w').
Proof. done. Qed.

(** The counter statement inside the transaction. *)
Lemma wp_completeBatchAndIncrement r s l (Q : BatchIncrement → W → Prop) E C (w : W) :
  w_tx w = Some (s, l) → Forall data_only l →
  db_runs (w_db w) !! batch_key = Some r → rr_status r = RUNNING →
  (∀ o t, let w0 := ticked o t w in
     (∀ e, E e w0) ∧ C w0
     ∧ ∀ now cte,
       (∀ db, db_runs (cte db)
              = (completeBatchAndIncrement_db now run stp (seqOf m) (db_runs db)).1
              ∧ db_outbox (cte db) = db_outbox db ∧ db_data (cte db) = db_data db) →
       let w1 := set_tx (Some (s, l ++ [cte])) w0 in
       (∀ e, E e w1) ∧ C w1
       ∧ ∀ d, db_runs (w_db w) !! fanin_key = Some d →
           Q {| inc_done := rr_batchesDone d + 1; inc_planned := default 0 (rr_batchesPlanned d);
                inc_isLast := closes d |} w1) →
  wp (completeBatchAndIncrement run stp (seqOf m)) Q E C w.
Proof.
  intros Htx Hl Hb Hr H. unfold completeBatchAndIncrement.
  apply wp_bind, wp_gets, wp_bind, wp_ext. intros o t w0.
  destruct (H o t) as (E0 & C0 & H1). unfold sql_step, view.
  assert (w_tx w0 = Some (s, l)) as -> by done.
  set (cte := λ db', Build_Db _ _ _).
  destruct (H1 (w_now w) cte) as (E1 & C1 & Q1); [done|]. clear H1.
  destruct (data_only_replay l (w_db w0) Hl) as [Hruns _]. rewrite Hruns.
  split_and!; [|auto|done..].
  destruct (db_runs (w_db w) !! fanin_key) as [d|] eqn:Hd.
  - change (w_db w0) with (w_db w). erewrite cte_running by (eauto using keys_ne).
    apply wp_ret. auto.
  - change (w_db w0) with (w_db w). erewrite cte_no_dispatch by (eauto using keys_ne).
    apply wp_throw. auto.
Qed.

Lemma frame_tx_some (w w' : W) s l :
  frame_rel w w' → w_tx w = Some (s, l) →
  ∃ l2, w_tx w' = Some (s, l ++ l2) ∧ Forall data_only l2.
Proof.
  intros [_ _ _ _ _ _ Htx] E. rewrite E in Htx. destruct (w_tx w') as [[s' l']|]; [|done].
  destruct Htx as [-> (l2 & -> & F)]. eauto.
Qed.

(** What a run appended to the open transaction. *)
Definition tx_log_after (w w' : W) : list (Db D → Db D) :=
  match w_tx w, w_tx w' with Some (_, l), Some (_, l') => drop (length l) l' | _, _ => [] end.

Lemma wp_successors ds d s l (w : W) :
  w_tx w = Some (s, l) → closes d = true →
  wp (if isStandalone m then mret [] else bt_successors c m ds)
    (λ ms w', frame_rel w w' ∧ Forall data_only (tx_log_after w w')
       ∧ w_tx w' = Some (s, l ++ tx_log_after w w') ∧ succeeded ds d ms (tx_log_after w w'))
    (λ _, frame_rel w) (frame_rel w) w.
Proof.
  intros Htx Hc. unfold succeeded. rewrite Hc. destruct (isStandalone m); cbn [negb andb].
  { apply wp_ret. unfold tx_log_after. rewrite Htx, drop_all.
    split; [reflexivity|]. split; [by constructor|]. split; [by rewrite app_nil_r|done]. }
  pose proof (bl_successors (c := c) m ds) as Fs. rewrite Frame_wp in Fs.
  assert (in_tx w = true) as Hin by (unfold in_tx; by rewrite Htx).
  pose proof (wp_run _ _ _ _ _ (wp_conj _ _ _ _ _ _ _ _ (Fs w Hin) (bl_successors_post (c := c) m ds w))) as Hwp.
  eapply wp_mono; [exact Hwp| |naive_solver..].
  intros ms w' (Hrun & F & Hs). destruct (frame_tx_some _ _ _ _ F Htx) as (l3 & Htx3 & Hl3).
  assert (tx_log_after w w' = l3) as -> by (unfold tx_log_after; by rewrite Htx, Htx3, drop_app_length).
  split_and!; try done. by exists w, w', s, l.
Qed.

Lemma wp_batch_tx r ds tenant (w : W) :
  w_tx w = Some (tn_schemaName tenant, []) → db_runs (w_db w) !! batch_key = Some r → rr_status r = RUNNING →
  wp (batch_tx c m ds (seqOf m) tenant)
    (λ _ w', ∃ d, db_runs (w_db w) !! fanin_key = Some d ∧ logged r d tenant w w')
    (λ _, uncommitted w) (uncommitted w) w.
Proof.
  intros Htx Hb Hr. unfold batch_tx. apply wp_bind.
  apply (wp_frame_run true); [apply bl_handle|by unfold in_tx; rewrite Htx| |
    intros; by apply frame_uncommitted..].
  intros [] w1 Hrun F1. pose proof (frame_uncommitted _ _ F1) as U1.
  destruct (frame_tx_some _ _ _ _ F1 Htx) as (l2 & Htx1 & Hl2). simpl in Htx1.
  assert (handled ds tenant w l2) as Hh by (by exists w, w1).
  assert (db_runs (w_db w1) !! batch_key = Some r) as Hb1
    by (destruct U1 as [R _]; by rewrite R by apply batch_not_branch).
  apply wp_bind. eapply wp_completeBatchAndIncrement; [done..|].
  intros o t w1'. split_and!; [done..|]. intros now cte Hcte w2.
  assert (uncommitted w w2) as U2 by done.
  split_and!; [done..|]. intros d Hd. simpl.
  assert (db_runs (w_db w) !! fanin_key = Some d) as Hdw
    by (destruct U1 as [R _]; by rewrite <- R by apply fanin_not_branch).
  destruct (closes d) eqn:Hc.
  - apply wp_bind.
    apply wp_mono with (Q := λ ms w3, frame_rel w2 w3 ∧ Forall data_only (tx_log_after w2 w3)
        ∧ w_tx w3 = Some (tn_schemaName tenant, (l2 ++ [cte]) ++ tx_log_after w2 w3)
        ∧ succeeded ds d ms (tx_log_after w2 w3))
      (E := λ _ w3, frame_rel w2 w3) (C := λ w3, frame_rel w2 w3);
      [| |intros; etrans; [done|by apply frame_uncommitted]..].
    { by apply wp_successors. }
    intros ms w3 (F3 & Hl3 & Htx3 & Hs3).
    assert (uncommitted w w3) as U3 by (etrans; [done|by apply frame_uncommitted]).
    apply wp_bind. eapply wp_insertMany; [exact Htx3|]. intros o3 t3 w3'.
    split_and!; [done..| |].
    + intros ->. apply wp_ret. exists d. split; [done|].
      eexists _, _, [], now, cte, ds, l2, _. split_and!; [exact Htx3|done|done|exact Hs3|].
      exists 0. split_and!; try done. right. by rewrite <- (assoc (++)).
    + intros now3 _ w4. split_and!; [|done..]. apply wp_ret. exists d. split; [done|].
      eexists _, _, ms, now, cte, ds, l2, _. split_and!; [done|done|done|exact Hs3|].
      exists now3. split_and!; try done. left. by rewrite <- !(assoc (++)).
  - apply wp_ret. exists d. split; [done|]. eexists _, _, [], now, cte, ds, l2, [].
    split_and!; [done|done|done|unfold succeeded; by rewrite Hc|]. exists 0. split_and!; try done.
    by right.
Qed.

(** ** From the transaction to the committed state *)

Lemma untouched_of w w1 w2 : after_start w w1 → uncommitted w1 w2 → untouched w w2.
Proof.
  intros (R1 & O1 & D1 & A1 & T1) (R2 & O2 & D2 & A2). split_and!; try congruence.
  - intros k H1 H2 H3. by rewrite R2, R1.
  - rewrite R2 by apply fanin_not_branch. apply R1, keys_ne.
Qed.

Lemma untouched_set_tx x w w' : untouched w w' → untouched w (set_tx x w').
Proof. done. Qed.

Lemma commit_applied r d tenant w w1 w2 w3 o t :
  active_tenant tenant w →
  after_start w w1 → uncommitted w1 w2 → logged r d tenant w2 w3 →
  db_runs (w_db w2) !! batch_key = Some r → db_runs (w_db w2) !! fanin_key = Some d →
  rr_status r = RUNNING →
  let w' := set_tx None (commit_step (ticked o t w3)).2 in
  applied w w' ∧ completed_row w'.
Proof.
  intros Hten (R1 & O1 & D1 & A1 & T1) (R2 & O2 & D2 & A2)
    (s & log & ms & now & cte & ds & work & more & Htx & (R3 & O3 & D3 & A3) & Hh & Hms & Hlog) Hb Hd Hr w'.
  assert (w_db w' = replay log (w_db w3)) as Hdb.
  { subst w'. unfold commit_step. simpl. by rewrite Htx. }
  destruct (replay_batch now r d ms cte work more log (w_db w3)) as ([now' Ho] & Hruns & db1 & E1 & E2); try done.
  { by rewrite R3 by apply batch_not_branch. }
  { by rewrite R3 by apply fanin_not_branch. }
  split; [split|].
  - intros k H1 H2 H3. rewrite Hdb, Hruns, !lookup_insert_ne, R3, R2, R1 by done. done.
  - exists d, ms, now', ds, tenant, work, more. split_and!.
    + rewrite <- R1, <- R2 by (apply keys_ne || apply fanin_not_branch). done.
    + by rewrite Hdb, Hruns, lookup_insert_eq.
    + by rewrite Hdb, Ho, O3, O2, O1.
    + done.
    + destruct Hh as (w4 & w5 & Hd4 & Hh). exists w4, w5. split; [congruence|done].
    + done.
    + exists (w_db w3), db1. split_and!; [congruence|done|by rewrite Hdb].
  - exists now, r. split; [done|]. rewrite Hdb, Hruns, lookup_insert_ne, lookup_insert_eq by apply keys_ne.
    done.
Qed.

(** ** The whole delivery *)

Definition acked (w' : W) : Prop :=
  run_status batch_key w' = Some COMPLETED ∨ in_dlq cfg m w'.

Lemma after_start_untouched w w' : after_start w w' → untouched w w'.
Proof. intros H. by apply (untouched_of w w' w'). Qed.

Lemma wp_republish_duplicate (w w1 : W) :
  after_start w w1 →
  wp (republish_duplicate cfg m) (λ _ w', untouched w w' ∧ in_dlq cfg m w')
    (λ _, untouched w) (untouched w) w1.
Proof.
  intros H%after_start_untouched. unfold republish_duplicate, republishOnFailure.
  apply wp_catch, wp_bind, wp_bind, wp_publish. intros o t. split_and!; try done.
  apply wp_ret, wp_ret. split; [done|]. unfold in_dlq. simpl. rewrite elem_of_app. right.
  apply list_elem_of_singleton. done.
Qed.

Lemma wp_findActive slug (w : W) : in_tx w = false →
  wp (findActive slug)
    (λ t w', frame_rel w w' ∧ tn_slug t = slug ∧ tn_status t = TENANT_ACTIVE ∧ t ∈ w_tenants w)
    (λ _, frame_rel w) (frame_rel w) w.
Proof.
  intros Hw. unfold findActive, findBySlug. apply wp_bind, wp_bind, wp_ext. intros o t w0.
  assert (frame_rel w w0) as F by apply frame_ticked. split_and!; try done.
  destruct (list_find _ (w_tenants w0)) as [[i tn]|] eqn:E; [|by apply wp_throw].
  apply list_find_Some in E as (Hi & Hs & _). apply wp_ret. case_decide; [|by apply wp_throw].
  apply wp_ret. split_and!; [done|done|done|by eapply list_elem_of_lookup_2].
Qed.

Lemma wp_batch_started (w w1 : W) q :
  w_tx w = None → after_start w w1 → run_status batch_key w1 = Some RUNNING →
  wp (t0 ← date_now;
      tenant ← findActive (tenantId m);
      integrationDs ← forTenantSlug (tn_slug tenant);
      runWithTenant (tn_schemaName tenant) (batch_tx c m integrationDs (seqOf m) tenant);;
      t1 ← date_now;
      metric (MConsumeEnd (tenantId m) q CoOk (t1 - t0)))
    (λ _ w', applied w w' ∧ completed_row w')
    (λ _, settled_tx w) (settled_tx w) w1.
Proof.
  intros Htx H1 Hrun.
  assert (w_tx w1 = None) as Htx1 by (destruct H1 as (_ & _ & _ & _ & T1 & _); congruence).
  assert (∀ w2, frame_rel w1 w2 → untouched w w2) as Hun
    by (intros w2 F; eapply untouched_of; [done|by apply frame_uncommitted]).
  apply wp_bind, wp_gets, wp_bind.
  eapply wp_mono; [apply (wp_findActive (tenantId m)); by unfold in_tx; rewrite Htx1| |by left; auto..].
  intros tenant w2 [F2 Hten1]. apply wp_bind.
  assert (active_tenant tenant w) as Hten.
  { destruct H1 as (_ & _ & _ & _ & _ & Et), Hten1 as (? & ? & ?). split_and!; [done|done|by rewrite <- Et]. }
  apply (wp_frame false); [apply Hint|rewrite (frame_in_tx w1) by done; by unfold in_tx; rewrite Htx1
    | |by left; apply Hun; etrans..].
  intros ds w3 F3. assert (frame_rel w1 w3) as F13 by (by etrans).
  assert (∀ x o t, untouched w (set_tx x (ticked o t w3))) as Hun3
    by (intros x o t; apply untouched_set_tx, Hun; etrans; [done|apply frame_ticked]).
  pose proof (frame_uncommitted _ _ F13) as U13.
  unfold run_status in Hrun. apply fmap_Some in Hrun as (r & Hb & Hr).
  assert (db_runs (w_db w3) !! batch_key = Some r) as Hb3
    by (destruct U13 as [R _]; by rewrite R by apply batch_not_branch).
  apply wp_bind, wp_runWithTenant.
  { intros e. left. by apply Hun. }
  { intros o t. split; [intros e|]; by left; apply Hun3. }
  intros o t. eapply wp_mono;
    [eapply (wp_batch_tx r); [done|apply Hb3|done]| | |].
  - intros inc w4 (d & Hd & Hlog) o' t' w5.
    destruct (commit_applied r d tenant w w1 _ w4 o' t' Hten H1 U13 Hlog Hb3 Hd (eq_sym Hr)) as [Ha Hs].
    destruct Hlog as (s & log & ms & now & cte & ds' & work & more & Htx4 & U4 & _).
    assert (untouched w (set_tx None w5)) as Hu5.
    { apply untouched_set_tx, (untouched_of w w1); [done|]. by etrans; [|apply U4]. }
    split_and!; [|intros e; split; [by left|by right]|by left|by right].
    apply wp_bind, wp_gets, wp_metric. done.
  - intros e w4 U4. left. apply untouched_set_tx, (untouched_of w w1); [done|]. by etrans; [|apply U4].
  - intros w4 U4. left. apply untouched_set_tx, (untouched_of w w1); [done|]. by etrans; [|apply U4].
Qed.

Lemma completed_acked w' : completed_row w' → acked w'.
Proof. intros (n & r & _ & E). left. unfold run_status. by rewrite E. Qed.

Lemma wp_batch_body (w : W) q :
  w_tx w = None →
  wp (batch_body cfg forTenantSlug c m q) (λ _ w', settled_tx w w' ∧ acked w')
    (λ _, settled_tx w) (settled_tx w) w.
Proof.
  intros Htx. unfold batch_body. rewrite (proj2 (Z.leb_gt _ _) Hseq).
  apply wp_bind. eapply wp_mono; [apply wp_start| |
    intros e w' H; left; by apply after_start_untouched|
    intros w' H; left; by apply after_start_untouched].
  intros [] w1 [H1 Hrun].
  - apply wp_bind, wp_metric. eapply wp_mono; [by apply (wp_batch_started w)|..]; auto.
    intros _ w' [Ha Hs]. split; [by right|by apply completed_acked].
  - apply wp_bind, wp_metric, wp_metric. split; [|by left].
    left. by apply after_start_untouched.
  - apply wp_bind, wp_metric, wp_bind, wp_metric.
    eapply wp_mono; [by apply (wp_republish_duplicate w)| |by left..].
    intros _ w' [Hu Hq]. split; [by left|by right].
Qed.

Lemma settled_all_or_nothing w w' : settled_tx w w' → all_or_nothing w w'.
Proof. intros [H|[H1 H2]]; [by left|right]. auto. Qed.

(** The mark of a failure, after the message went to the dead letters. *)
Lemma settled_failed w w1 w2 n text :
  settled_tx w w1 → in_dlq cfg m w2 → w_db w2 = update_run batch_key (upd_fail n text) (w_db w1) → all_or_nothing w w2.
Proof.
  intros H Hq Hdb.
  assert (∀ k, k ≠ batch_key → db_runs (w_db w2) !! k = db_runs (w_db w1) !! k) as Hk
    by (intros k Hk; rewrite Hdb; simpl; by rewrite lookup_alter_ne).
  assert (db_outbox (w_db w2) = db_outbox (w_db w1) ∧ db_data (w_db w2) = db_data (w_db w1)) as [Ho Hd] by (by rewrite Hdb).
  destruct H as [H|[H (n1 & r & Hr & E)]].
  - left. eapply untouched_same; eauto using keys_ne.
  - right. split; [eapply applied_same; eauto using keys_ne|]. right. split; [done|]. exists n1, n, text, r. split; [done|].
    rewrite Hdb. simpl. by rewrite lookup_alter, decide_True, E.
Qed.

(** The generic catch. *)
Lemma wp_route_failure err (w w1 : W) :
  settled_tx w w1 →
  wp (route_failure cfg m stp (seqOf m) err)
    (λ _ w', all_or_nothing w w' ∧ in_dlq cfg m w')
    (λ _, all_or_nothing w) (all_or_nothing w) w1.
Proof.
  intros H. unfold route_failure, republishOnFailure, fail.
  assert (∀ w2, w_db w2 = w_db w1 → all_or_nothing w w2) as Hsame.
  { intros w2 E. apply settled_all_or_nothing. unfold settled_tx, untouched, applied, others_same, completed_row, data_committed.
    by rewrite E. }
  apply wp_bind, wp_bind, wp_publish. intros o t. split_and!;
    [|intros e; split; by apply Hsame|by apply Hsame..].
  apply wp_ret, wp_bind, wp_gets, wp_write_repo. intros o1 t1 w2 w3.
  assert (in_dlq cfg m w3) as Hq.
  { unfold in_dlq. simpl. rewrite elem_of_app. right. by apply list_elem_of_singleton. }
  assert (all_or_nothing w w3) as H3 by (eapply settled_failed; [exact H|done|reflexivity]).
  split_and!; try (by apply Hsame); try done.
  intros e. split; [by apply Hsame|done].
Qed.

Lemma batch_process_spec (w : W) :
  w_tx w = None →
  wp (batch_process cfg forTenantSlug c m) (λ _ w', all_or_nothing w w' ∧ acked w')
    (λ _, all_or_nothing w) (all_or_nothing w) w.
Proof.
  intros Htx. unfold batch_process. apply wp_catch.
  eapply wp_mono; [by apply wp_batch_body|intros [] w' [H Hk]; auto using settled_all_or_nothing|intros e w1 H|auto using settled_all_or_nothing].
  unfold batch_catch. destruct (is_duplicate e); [by apply wp_throw, settled_all_or_nothing|].
  apply wp_bind, wp_metric. eapply wp_mono; [apply (wp_route_failure e w)| |done..].
  - exact H.
  - intros _ w' [H1 H2]. split; [done|by right].
Qed.

End Batch.
