(* ===== verification/DispatchLaws.v ===== *)
(** What deliveries to a dispatcher do, whatever fails: no batch is lost.

    The invariant [emit_inv] ties the publish checkpoint of the dispatch row
    to the messages that reached the broker or the outbox; it is preserved by
    every delivery under every oracle, so it holds after any number of
    crashes and restarts.  The premise is the one the code states ("slicing
    is deterministic"): every restart computes the same work list. *)

From Stdlib Require Import Ascii String Sorted.
From S2P Require Import Prelude JsText Enums Messages World RunService Outbox Consumers Logic BatchLaws.
Open Scope string_scope.
Open Scope list_scope.
Open Scope Z_scope.

(** What identifies the work a batch message carries. *)
Definition Work : Type := Z * option string * Payload.
Definition work (b : Message) : Work := (seqOf b, queue b, payload b).
Definition work_seq (x : Work) : Z := x.1.1.

Class DispatchLaws {D I : Type} (c : @DispatchConsumer D I) := {
  dl_handle : ∀ m ds tenant, Frame true (dc_handle c m ds tenant);
  dl_onDispatch : ∀ m bs, Frame false (dc_onDispatch c m bs);
}.

Section Dispatch.
Context {D I : Type} (cfg : Config) (forTenantSlug : string → M D (option I)).
Context (Hint : ∀ s, Frame false (forTenantSlug s)).
Context (c : @DispatchConsumer D I) `{!DispatchLaws c}.
Variable m : Message.
(** The work of the run, in seq order. *)
Variable Ws : list Work.
Abbreviation W := (World D).

Let run := pipelineRunId m.
Let stp := step_str (dc_step c).
Definition dispatch_key : RunKey := (run, stp, DISPATCH_BATCH_SEQ).

Definition published (w : W) (x : Work) : Prop :=
  ∃ b, work b = x ∧
    {| pb_exchange := EXCHANGE_NAME (cfg_env cfg); pb_key := routingKey b; pb_msg := b |}
    ∈ w_amqp w.

Definition staged (w : W) (x : Work) : Prop :=
  ∃ r, r ∈ db_outbox (w_db w) ∧ work (ob_message r) = x
       ∧ ob_routingKey r = routingKey (ob_message r).

Definition batch_done (w : W) (x : Work) : Prop :=
  run_status (run, stp, work_seq x) w = Some COMPLETED.

(** The batch reached the broker or the outbox, or is already executed. *)
Definition accounted (w : W) (x : Work) : Prop :=
  published w x ∨ staged w x ∨ batch_done w x.

Definition checkpoint_of (w : W) : Z :=
  match db_runs (w_db w) !! dispatch_key with
  | Some r => rr_lastPublishedBatchSeq r
  | None => 0
  end.

Definition ckpt_ok (w : W) : Prop :=
  ∀ x, x ∈ Ws → work_seq x <= checkpoint_of w → accounted w x.

Definition emit_inv (w : W) : Prop :=
  ckpt_ok w
  ∧ (run_status dispatch_key w = Some COMPLETED → ∀ x, x ∈ Ws → accounted w x).

(** The handler computes this work list whenever it returns. *)
Definition deterministic_slicing : Prop :=
  ∀ ds tenant w, wp (dc_handle c m ds tenant)
    (λ r _, work <$> dr_batches r = Ws) (λ _ _, True) (λ _, True) w.

Definition numbered : Prop :=
  (∀ x, x ∈ Ws → 1 <= work_seq x) ∧ StronglySorted Z.lt (work_seq <$> Ws).

(* ------------------------------------------------------------------ *)
(** * Monotonicity                                                      *)
(* ------------------------------------------------------------------ *)

(** Nothing emitted is taken back, and batch rows stay. *)
Record grows (w w' : W) : Prop := {
  gr_amqp : ∀ p, p ∈ w_amqp w → p ∈ w_amqp w';
  gr_outbox : ∀ r, r ∈ db_outbox (w_db w) → r ∈ db_outbox (w_db w');
  gr_rows : ∀ seq, seq ≠ DISPATCH_BATCH_SEQ →
    db_runs (w_db w') !! (run, stp, seq) = db_runs (w_db w) !! (run, stp, seq);
}.

#[local] Instance grows_preorder : PreOrder grows.
Proof.
  split; [by split|]. intros w1 w2 w3 [A1 O1 R1] [A2 O2 R2].
  split; [auto|auto|]. intros seq Hs. by rewrite R2, R1.
Qed.

Lemma accounted_grows w w' x :
  grows w w' → work_seq x ≠ 0 → accounted w x → accounted w' x.
Proof.
  intros [Ga Go Gr] Hx [(b & Hb & Hin)|[(r & Hr & Hw)|Hd]].
  - left. exists b. auto.
  - right. left. exists r. auto.
  - right. right. unfold batch_done, run_status in *. by rewrite Gr.
Qed.

Hypothesis Hnum : numbered.

Lemma ws_nonzero x : x ∈ Ws → work_seq x ≠ 0.
Proof. intros Hx. destruct Hnum as [H _]. specialize (H x Hx). lia. Qed.

Lemma ckpt_ok_grows w w' :
  grows w w' → checkpoint_of w' = checkpoint_of w → ckpt_ok w → ckpt_ok w'.
Proof.
  intros Hg Hc H x Hx Hle. rewrite Hc in Hle.
  apply (accounted_grows w); auto using ws_nonzero.
Qed.

Lemma grows_refl w : grows w w.
Proof. reflexivity. Qed.

(** A change of the dispatch row that keeps the checkpoint. *)
Lemma ckpt_ok_row (w : W) (f : RunRow → RunRow) w0 :
  w_amqp w0 = w_amqp w →
  (∀ r, rr_lastPublishedBatchSeq (f r) = rr_lastPublishedBatchSeq r) →
  w_db w0 = update_run dispatch_key f (w_db w) →
  ckpt_ok w → ckpt_ok w0.
Proof.
  intros Ha Hf Hdb. apply ckpt_ok_grows.
  - split; simpl; [by rewrite Ha|by rewrite Hdb|]. intros seq Hs. rewrite Hdb. simpl.
    rewrite lookup_alter_ne; [done|]. unfold dispatch_key. intros [=]. done.
  - unfold checkpoint_of. simpl. rewrite Hdb. simpl. rewrite lookup_alter_eq.
    destruct (db_runs (w_db w) !! dispatch_key); simpl; [apply Hf|done].
Qed.

Lemma step_key_not_branch seq : is_branch_step ((run, stp, seq) : RunKey).1.2 = false.
Proof. apply step_not_branch. Qed.

Lemma frame_grows (w w' : W) : frame_rel w w' → grows w w' ∧ checkpoint_of w' = checkpoint_of w
  ∧ db_runs (w_db w') !! dispatch_key = db_runs (w_db w) !! dispatch_key.
Proof.
  intros [R O Dt A T L X].
  assert (∀ seq, db_runs (w_db w') !! (run, stp, seq) = db_runs (w_db w) !! (run, stp, seq)) as HR
    by (intros; apply R, step_key_not_branch).
  split_and!; [split; [by rewrite A|by rewrite O|auto]| |apply HR].
  unfold checkpoint_of, dispatch_key. by rewrite HR.
Qed.

(* ------------------------------------------------------------------ *)
(** * Emission                                                          *)
(* ------------------------------------------------------------------ *)

(** Everything but [rest] is accounted for. *)
Definition emitting (rest : list Message) (w : W) : Prop :=
  ckpt_ok w ∧ ∀ x, x ∈ Ws → x ∉ (work <$> rest) → accounted w x.

Definition seq_sorted (l : list Message) : Prop := StronglySorted Z.lt (seqOf <$> l).

Definition row_running (w : W) : Prop := run_status dispatch_key w = Some RUNNING.

Lemma emitting_grows rest w w' :
  grows w w' → checkpoint_of w' = checkpoint_of w → emitting rest w → emitting rest w'.
Proof.
  intros Hg Hc [H1 H2]. split; [by eapply ckpt_ok_grows|].
  intros x Hx Hn. apply (accounted_grows w); auto using ws_nonzero.
Qed.

(** Moving the checkpoint to a seq below everything still to emit. *)
Lemma emitting_checkpoint rest n w w0 :
  w_amqp w0 = w_amqp w →
  w_db w0 = update_run dispatch_key (upd_lastPublished n) (w_db w) →
  (∀ b, b ∈ rest → n < seqOf b) →
  emitting rest w → emitting rest w0.
Proof.
  intros Ha Hdb Hn [H1 H2].
  assert (grows w w0) as Hg.
  { split; [by rewrite Ha|by rewrite Hdb|]. intros seq Hs. rewrite Hdb. simpl.
    rewrite lookup_alter_ne; [done|]. unfold dispatch_key. intros [=]. done. }
  split; [|intros; apply (accounted_grows w); auto using ws_nonzero].
  intros x Hx Hle. apply (accounted_grows w); [done|by apply ws_nonzero|].
  unfold checkpoint_of in Hle. rewrite Hdb in Hle. simpl in Hle. rewrite lookup_alter_eq in Hle.
  destruct (db_runs (w_db w) !! dispatch_key) as [r|] eqn:Er; simpl in Hle.
  - apply H2; [done|]. intros (b & -> & Hb)%list_elem_of_fmap. specialize (Hn b Hb).
    unfold work_seq, work in Hle. simpl in Hle. lia.
  - destruct Hnum as [Hpos _]. specialize (Hpos x Hx). lia.
Qed.

Lemma emitting_ckpt rest w : emitting rest w → ckpt_ok w.
Proof. by intros []. Qed.

Lemma running_update f w w0 :
  w_db w0 = update_run dispatch_key f (w_db w) → (∀ r, rr_status (f r) = rr_status r) →
  row_running w → row_running w0.
Proof.
  intros Hdb Hf. unfold row_running, run_status. rewrite Hdb. simpl. rewrite lookup_alter_eq.
  destruct (db_runs (w_db w) !! dispatch_key); simpl; [by rewrite Hf|done].
Qed.

(** Assertions kept while the dispatcher runs: exceptions and crashes. *)
Definition safe (w : W) : Prop := ckpt_ok w ∧ row_running w.

Lemma safe_emit_inv w : safe w → emit_inv w.
Proof. intros [H1 H2]. split; [done|]. unfold row_running in H2. congruence. Qed.

Lemma work_with_standalone sa b : work (with_standalone sa b) = work b.
Proof. done. Qed.

(** The checkpoint write. *)
Lemma wp_checkpoint rest n (Q : unit → W → Prop) w :
  emitting rest w → row_running w → (∀ b, b ∈ rest → n < seqOf b) →
  (∀ w', emitting rest w' → row_running w' → Q () w') →
  wp (updateLastPublishedBatchSeq run stp n) Q (λ _, safe) safe w.
Proof.
  intros He Hr Hn HQ. unfold updateLastPublishedBatchSeq. fold dispatch_key.
  apply wp_write_repo. intros o t w0 w1.
  assert (emitting rest w0) as He0 by (by apply (emitting_grows rest w)).
  assert (row_running w0) as Hr0 by done.
  assert (emitting rest w1) as He1 by (by apply (emitting_checkpoint rest n w)).
  assert (row_running w1) as Hr1 by (by apply (running_update (upd_lastPublished n) w)).
  split_and!; [by apply HQ|intros e; split|..]; by (split; [eapply emitting_ckpt|]).
Qed.

Lemma sorted_cons_inv b rest :
  seq_sorted (b :: rest) → seq_sorted rest ∧ ∀ b', b' ∈ rest → seqOf b < seqOf b'.
Proof.
  unfold seq_sorted. simpl. intros [H1 H2]%StronglySorted_inv. split; [done|].
  intros b' Hb. rewrite Forall_forall in H2. apply H2, list_elem_of_fmap. eauto.
Qed.

Lemma wp_emit_direct ck sa rest w :
  emitting rest w → row_running w → seq_sorted rest →
  wp (emit_direct cfg run stp ck sa rest)
    (λ _ w', emitting [] w' ∧ row_running w') (λ _, safe) safe w.
Proof.
  revert w. induction rest as [|b rest IH]; intros w He Hr Hs; simpl; [by apply wp_ret|].
  apply sorted_cons_inv in Hs as [Hs Hlt].
  apply wp_bind. unfold publishStep. apply wp_bind, wp_publish. intros o t w0 w1.
  assert (grows w w1 ∧ checkpoint_of w1 = checkpoint_of w ∧ row_running w1) as (Hg & Hc & Hr1).
  { split_and!; [|done|done]. split; try done. intros p Hp. simpl. rewrite elem_of_app. auto. }
  assert (emitting (b :: rest) w1) as He1 by (by eapply emitting_grows).
  assert (emitting rest w1) as He2.
  { split; [by eapply emitting_ckpt|]. intros x Hx Hn.
    destruct (decide (x = work b)) as [->|Hne].
    - left. exists (with_standalone sa b). split; [done|]. simpl. rewrite elem_of_app. right.
      by apply list_elem_of_singleton.
    - apply He1; [done|]. rewrite fmap_cons, elem_of_cons. tauto. }
  assert (safe w0) as Hsafe0 by (split; [by eapply emitting_ckpt|done]).
  assert (safe w1) as Hsafe1 by (split; [by eapply emitting_ckpt|done]).
  split_and!; [|by auto..]. apply wp_metric, wp_bind.
  set (w2 := add_metric _ w1). assert (emitting rest w2) as He3 by (by apply (emitting_grows rest w1)).
  assert (row_running w2) as Hr2 by done.
  assert (∀ w3, emitting rest w3 → row_running w3 →
    wp (n ← emit_direct cfg run stp ck sa rest; mret (S n))
      (λ _ w', emitting [] w' ∧ row_running w') (λ _, safe) safe w3) as Hrest.
  { intros w3 H3 Hr3. apply wp_bind. by eapply wp_mono; [apply IH|..]. }
  destruct ((0 <? ck) && _).
  - eapply wp_checkpoint; [exact He3|done|done|]. intros w3 H3 Hr3. by apply Hrest.
  - apply wp_ret. by apply Hrest.
Qed.

Lemma foldl_max l (a : Z) :
  a <= foldl (λ a (b : Message), Z.max a (seqOf b)) a l
  ∧ (foldl (λ a b, Z.max a (seqOf b)) a l = a
     ∨ ∃ b, b ∈ l ∧ foldl (λ a b, Z.max a (seqOf b)) a l = seqOf b).
Proof.
  revert a. induction l as [|x l IH]; intros a; simpl; [split; [lia|auto]|].
  destruct (IH (Z.max a (seqOf x))) as [H1 H2]. split; [lia|].
  destruct H2 as [H2|(b & Hb & H2)].
  - destruct (Z.max_spec a (seqOf x)) as [[_ E]|[_ E]]; rewrite E in *; [right|left; done].
    exists x. split; [left|done].
  - right. exists b. split; [by right|done].
Qed.

Lemma max_seq_elem l : l ≠ [] → ∃ b, b ∈ l ∧ max_seq l = seqOf b.
Proof.
  destruct l as [|b l]; [done|]. intros _. simpl.
  destruct (foldl_max l (seqOf b)) as [_ [->|(b' & Hb & ->)]].
  - exists b. split; [left|done].
  - exists b'. split; [by right|done].
Qed.

Lemma sorted_app_lt l1 l2 :
  seq_sorted (l1 ++ l2) → seq_sorted l2 ∧ ∀ a b, a ∈ l1 → b ∈ l2 → seqOf a < seqOf b.
Proof.
  induction l1 as [|x l1 IH]; simpl.
  { intros H. split; [done|]. intros a b Ha. by apply elem_of_nil in Ha. }
  intros [H1 H2]%sorted_cons_inv. destruct (IH H1) as [H3 H4]. split; [done|].
  intros a b [->|Ha]%elem_of_cons Hb; [apply H2, elem_of_app; by right|auto].
Qed.

Lemma stage_rows_in now r t ms rows b :
  b ∈ ms → ∃ x, x ∈ stage_rows now r t ms rows ∧ ob_message x = b
                ∧ ob_routingKey x = routingKey b.
Proof.
  intros Hb. apply list_elem_of_lookup in Hb as [i Hi].
  exists (stage_row now r t (Z.of_nat (length rows + i)) b). split; [|done].
  unfold stage_rows. rewrite elem_of_app. right. apply list_elem_of_lookup. exists i.
  by rewrite list_lookup_imap, Hi.
Qed.

Lemma wp_emit_outbox sa chunks w :
  emitting (concat chunks) w → row_running w → seq_sorted (concat chunks) →
  Forall (λ s, s ≠ []) chunks →
  wp (emit_outbox run (tenantId m) stp sa chunks)
    (λ _ w', emitting [] w' ∧ row_running w') (λ _, safe) safe w.
Proof.
  revert w. induction chunks as [|s rest IH]; intros w He Hr Hs Hne; simpl; [by apply wp_ret|].
  simpl in *. apply Forall_cons in Hne as [Hs0 Hne].
  apply sorted_app_lt in Hs as [Hs Hlt].
  apply wp_bind. unfold insertBatchMessages.
  destruct (with_standalone sa <$> s) as [|b0 bs] eqn:Ems; [by apply fmap_nil_inv in Ems|].
  rewrite <- Ems. apply wp_bind, wp_gets, wp_write_repo. intros o t w0 w1.
  assert (grows w w1 ∧ checkpoint_of w1 = checkpoint_of w ∧ row_running w1) as (Hg & Hc & Hr1).
  { split_and!; [|done|done]. split; try done. intros p Hp. simpl. unfold stage_rows.
    rewrite elem_of_app. auto. }
  assert (emitting (s ++ concat rest) w1) as He1 by (by eapply emitting_grows).
  assert (emitting (concat rest) w1) as He2.
  { split; [by eapply emitting_ckpt|]. intros x Hx Hn.
    destruct (decide (x ∈ work <$> s)) as [(b & -> & Hb)%list_elem_of_fmap|Hns].
    - right. left.
      destruct (stage_rows_in (w_now w) run (tenantId m) (with_standalone sa <$> s)
        (db_outbox (w_db w)) (with_standalone sa b)) as (x & Hin & Hm & Hk).
      { apply list_elem_of_fmap. eauto. }
      exists x. rewrite Hm. split_and!; done.
    - apply He1; [done|]. rewrite fmap_app, elem_of_app. tauto. }
  assert (safe w0) as Hsafe0 by (split; [by eapply emitting_ckpt|done]).
  assert (safe w1) as Hsafe1 by (split; [by eapply emitting_ckpt|done]).
  split_and!; [|by auto..]. apply wp_bind. eapply wp_checkpoint; [exact He2|done| |].
  - intros b Hb. destruct (max_seq_elem s Hs0) as (a & Ha & ->). by apply Hlt.
  - intros w2 H2 Hr2. apply wp_bind. by eapply wp_mono; [apply IH|..].
Qed.

Lemma completed_seqs_elem (seq : Z) (rows : gmap RunKey RunRow) :
  seq ∈ completed_seqs run stp rows ↔
  0 < seq ∧ rr_status <$> rows !! (run, stp, seq) = Some COMPLETED.
Proof.
  unfold completed_seqs. rewrite list_elem_of_omap. split.
  - intros ([[[r s] q] row] & Hin & Hd). apply elem_of_map_to_list in Hin.
    case_decide as Hc; [|done]. destruct Hc as (-> & -> & Hst & Hpos). simplify_eq.
    rewrite Hin. simpl. by rewrite Hst.
  - intros (Hpos & Hst). apply fmap_Some in Hst as (row & Hrow & Hst).
    exists ((run, stp, seq), row). rewrite elem_of_map_to_list. split; [done|].
    by rewrite decide_True.
Qed.

Lemma seq_sorted_filter (P : Message → Prop) `{∀ b, Decision (P b)} l :
  seq_sorted l → seq_sorted (filter P l).
Proof.
  unfold seq_sorted. induction l as [|b l IH]; [done|].
  rewrite fmap_cons, filter_cons. intros [H1 H2]%StronglySorted_inv.
  case_decide; [|auto]. rewrite fmap_cons. constructor; [auto|].
  rewrite Forall_forall in *. intros x (b' & -> & [_ Hb]%list_elem_of_filter)%list_elem_of_fmap.
  apply H2, list_elem_of_fmap. eauto.
Qed.

Lemma batches_sorted batches : work <$> batches = Ws → seq_sorted batches.
Proof.
  intros E. unfold seq_sorted. destruct Hnum as [_ H]. rewrite <- E, <- list_fmap_compose in H.
  exact H.
Qed.

Lemma emitting_pending batches w :
  work <$> batches = Ws → ckpt_ok w →
  emitting (pending_batches (completed_seqs run stp (db_runs (w_db w))) (checkpoint_of w) batches) w.
Proof.
  intros E Hck. split; [done|]. intros x Hx Hn.
  rewrite <- E in Hx. apply list_elem_of_fmap in Hx as (b & -> & Hb).
  destruct (decide (work_seq (work b) <= checkpoint_of w)) as [Hle|Hgt].
  { apply Hck; [|done]. rewrite <- E. apply list_elem_of_fmap. eauto. }
  destruct (decide (seqOf b ∈ completed_seqs run stp (db_runs (w_db w)))) as [Hd|Hd].
  { right. right. by apply completed_seqs_elem in Hd as [_ Hd]. }
  exfalso. apply Hn, list_elem_of_fmap. exists b. split; [done|].
  unfold pending_batches. apply list_elem_of_filter. split; [|done].
  split; [|done]. unfold work_seq, work in Hgt. simpl in Hgt. lia.
Qed.

Lemma wp_emitBatches batches w :
  work <$> batches = Ws → ckpt_ok w → row_running w →
  wp (emitBatches cfg c m batches) (λ _ w', emitting [] w' ∧ row_running w')
    (λ _, safe) safe w.
Proof.
  intros E Hck Hr. unfold emitBatches. fold run stp.
  apply wp_bind, wp_read_repo. intros o t w0.
  assert (safe w0) as Hs0 by done. split_and!; [|done..].
  apply wp_bind. unfold lastPublishedBatchSeq. apply wp_bind, wp_read_repo. intros o1 t1 w1.
  assert (safe w1) as Hs1 by done. split_and!; [|done..]. apply wp_ret.
  change (match db_runs (w_db w0) !! _ with Some r => _ | None => 0 end) with (checkpoint_of w).
  change (w_db w) with (w_db w1).
  pose proof (emitting_pending batches w1 E Hck) as He.
  change (checkpoint_of w) with (checkpoint_of w1).
  set (pending := pending_batches _ _ _) in *.
  assert (seq_sorted pending) as Hs by (by apply seq_sorted_filter, batches_sorted).
  destruct pending as [|b0 bs] eqn:Ep; [by apply wp_ret|]. rewrite <- Ep in *.
  destruct (pipelineDispatchOutboxPublish cfg).
  - assert (concat (slices OUTBOX_INSERT_CHUNK pending) = pending) as Hc
      by (apply slices_concat; unfold OUTBOX_INSERT_CHUNK; lia).
    apply wp_emit_outbox; rewrite ?Hc; try done.
    assert (0 < OUTBOX_INSERT_CHUNK)%nat as Hpos by (unfold OUTBOX_INSERT_CHUNK; lia).
    eapply Forall_impl; [apply (slices_bound _ pending Hpos)|]. intros l Hl ->. simpl in Hl. lia.
  - apply wp_bind. eapply wp_mono; [by apply wp_emit_direct| |done..].
    intros n w2 [He2 Hr2]. apply wp_bind. destruct (_ <? _).
    + eapply wp_checkpoint; [exact He2|done| |].
      * intros b Hb. by apply elem_of_nil in Hb.
      * intros w3 H3 Hr3. by apply wp_ret.
    + by apply wp_ret, wp_ret.
Qed.

(* ------------------------------------------------------------------ *)
(** * The delivery                                                      *)
(* ------------------------------------------------------------------ *)

Lemma emit_inv_nil w : Ws = [] → emit_inv w.
Proof. intros E. split; [intros x|intros _ x]; rewrite E; by intros ?%elem_of_nil. Qed.

Lemma safe_grows w w' :
  grows w w' → db_runs (w_db w') !! dispatch_key = db_runs (w_db w) !! dispatch_key →
  safe w → safe w'.
Proof.
  intros Hg Hk [H1 H2]. split.
  - apply (ckpt_ok_grows w); try done. unfold checkpoint_of. by rewrite Hk.
  - unfold row_running, run_status in *. by rewrite Hk.
Qed.

Lemma emit_inv_grows w w' :
  grows w w' → db_runs (w_db w') !! dispatch_key = db_runs (w_db w) !! dispatch_key →
  emit_inv w → emit_inv w'.
Proof.
  intros Hg Hk [H1 H2]. split.
  - apply (ckpt_ok_grows w); try done. unfold checkpoint_of. by rewrite Hk.
  - unfold run_status in *. rewrite Hk. intros Hs x Hx.
    apply (accounted_grows w); auto using ws_nonzero.
Qed.

Lemma safe_frame w w' : frame_rel w w' → safe w → safe w'.
Proof. intros (Hg & _ & Hk)%frame_grows. by apply safe_grows. Qed.

Lemma uncommitted_grows (w w' : W) : uncommitted w w' →
  grows w w' ∧ db_runs (w_db w') !! dispatch_key = db_runs (w_db w) !! dispatch_key.
Proof.
  intros (R & O & Dt & A).
  split; [split; [by rewrite A|by rewrite O|intros; apply R, step_key_not_branch]|].
  apply R, step_key_not_branch.
Qed.

Lemma safe_uncommitted w w' : uncommitted w w' → safe w → safe w'.
Proof. intros [Hg Hk]%uncommitted_grows. by apply safe_grows. Qed.

Lemma wp_startOrRestart att w :
  emit_inv w → w_tx w = None →
  wp (startOrRestartDispatch run (tenantId m) stp att)
    (λ o w', w_tx w' = None ∧
       match o with
       | AlreadyCompleted => emit_inv w' ∧ run_status dispatch_key w' = Some COMPLETED
       | _ => safe w'
       end)
    (λ _, emit_inv) emit_inv w.
Proof.
  intros Hi Htx. unfold startOrRestartDispatch. fold dispatch_key.
  apply wp_bind, wp_read_repo. intros o t w0.
  assert (emit_inv w0) as Hi0 by done. split_and!; [|done..].
  apply wp_bind, wp_gets.
  destruct (db_runs (w_db w) !! dispatch_key) as [r|] eqn:Er.
  - destruct (decide (rr_status r = COMPLETED)) as [Hc|Hc].
    { apply wp_ret. split_and!; try done. unfold run_status. simpl. rewrite Er. simpl.
      by rewrite Hc. }
    apply wp_bind, wp_write_repo. intros o1 t1 w1 w2.
    assert (safe w2) as Hs.
    { split.
      - apply (ckpt_ok_row w0 (λ r, upd_start (w_now w0) (rr_tenantId r) att r));
          try done. apply Hi0.
      - unfold row_running, run_status. simpl. rewrite lookup_alter_eq, Er. done. }
    pose proof (safe_emit_inv _ Hs) as Hi2.
    split_and!; [by apply wp_ret|intros e; by split|done|done].
  - apply wp_bind, wp_ext. intros o1 t1 w1. unfold sql_step. simpl. rewrite Er. simpl.
    set (w2 := set_db _ w1).
    assert (db_runs (w_db w2) !! dispatch_key = Some (new_row (w_now w0) (tenantId m) att)) as Ek
      by apply lookup_insert_eq.
    assert (safe w2) as Hs.
    { split.
      - apply (ckpt_ok_grows w).
        + split; try done. intros seq Hs. apply lookup_insert_ne. unfold dispatch_key. congruence.
        + unfold checkpoint_of. by rewrite Ek, Er.
        + apply Hi.
      - unfold row_running, run_status. by rewrite Ek. }
    pose proof (safe_emit_inv _ Hs) as Hi2.
    split_and!; [by apply wp_ret|intros e; by split|done|done].
Qed.

(** The log of a finished callback. *)
Definition dispatch_logged (w : W) (r : DispatchHandleResult) (w' : W) : Prop :=
  uncommitted w w' ∧ work <$> dr_batches r = Ws ∧
  ∃ s log, w_tx w' = Some (s, log)
  ∧ match dr_batches r with
    | [] => ∀ db, is_Some (db_runs db !! dispatch_key) →
        rr_status <$> db_runs (replay log db) !! dispatch_key = Some COMPLETED
    | _ => Forall data_only log
    end.

Lemma replay_snoc l (f : Db D → Db D) db : replay (l ++ [f]) db = f (replay l db).
Proof. by rewrite replay_app. Qed.

Hypothesis Hdet : deterministic_slicing.

Lemma wp_dispatch_tx ds tenant s w :
  w_tx w = Some (s, []) →
  wp (dispatch_tx c m ds tenant) (λ r w', dispatch_logged w r w')
    (λ _, uncommitted w) (uncommitted w) w.
Proof.
  intros Htx. unfold dispatch_tx. fold run stp. apply wp_bind.
  pose proof (dl_handle (c := c) m ds tenant) as Fh. rewrite Frame_wp in Fh.
  eapply wp_mono; [apply wp_conj; [apply (Fh w); by unfold in_tx; rewrite Htx|apply Hdet]|
    |intros e w' [H _]; by apply frame_uncommitted|intros w' [H _]; by apply frame_uncommitted].
  intros r w1 [F1 Hw]. destruct (frame_tx_some _ _ _ _ F1 Htx) as (l2 & Htx1 & Hl2).
  pose proof (frame_uncommitted _ _ F1) as U1. simpl in Htx1.
  destruct (dr_batches r) as [|b bs] eqn:Eb.
  - apply wp_bind. eapply wp_write_em; [done|]. intros o t w2 w3.
    split_and!; [|done..]. apply wp_bind. unfold complete.
    apply wp_bind, wp_gets. eapply wp_write_em; [done|]. intros o4 t4 w4 w5.
    split_and!; [|done..]. apply wp_bind.
    assert (∀ db, is_Some (db_runs db !! dispatch_key) →
      rr_status <$> db_runs (replay ((l2 ++ [update_run dispatch_key (upd_planned 0)])
        ++ [update_run dispatch_key (upd_complete (w_now w3))]) db) !! dispatch_key
      = Some COMPLETED) as Hlog.
    { intros db [row Hrow]. rewrite !replay_snoc. simpl. rewrite !lookup_alter_eq.
      rewrite (proj1 (data_only_replay l2 db Hl2)), Hrow. done. }
    eapply (wp_insertMany m); [done|]. intros o6 t6 w6. split_and!; [done..| |].
    + intros _. apply wp_ret. unfold dispatch_logged. rewrite Eb. split_and!; [done|done|].
      eexists s, _. split; [done|exact Hlog].
    + intros now Hne w7. split_and!; [|done..]. apply wp_ret. unfold dispatch_logged. rewrite Eb.
      split_and!; [done|done|]. eexists s, _. split; [done|]. intros db Hdb.
      rewrite replay_snoc. by apply Hlog.
  - apply wp_ret. unfold dispatch_logged. rewrite Eb. split_and!; [done|done|]. eauto.
Qed.

Definition dispatch_acked (w : W) : Prop :=
  run_status dispatch_key w = Some COMPLETED ∨ in_dlq cfg m w.

Lemma commit_dispatch r w w' o t :
  dispatch_logged w r w' → safe w →
  let w2 := set_tx None (commit_step (ticked o t w')).2 in
  match dr_batches r with
  | [] => emit_inv w2 ∧ run_status dispatch_key w2 = Some COMPLETED
  | _ => safe w2
  end.
Proof.
  intros (U & Hw & s & log & Htx & Hlog) Hs w2.
  assert (w_db w2 = replay log (w_db w')) as Hdb.
  { subst w2. unfold commit_step. simpl. by rewrite Htx. }
  assert (w_amqp w2 = w_amqp w') as Ha.
  { subst w2. unfold commit_step. simpl. by rewrite Htx. }
  pose proof (safe_uncommitted _ _ U Hs) as Hs'.
  destruct (dr_batches r) as [|b bs].
  - split; [by apply emit_inv_nil|]. unfold run_status. rewrite Hdb. apply Hlog.
    destruct Hs' as [_ Hr]. unfold row_running, run_status in Hr.
    destruct (db_runs (w_db w') !! dispatch_key); [by eexists|done].
  - destruct (data_only_replay log (w_db w') Hlog) as [Hr Ho].
    apply (safe_grows w'); [split| |done].
    + by rewrite Ha.
    + by rewrite Hdb, Ho.
    + intros. by rewrite Hdb, Hr.
    + by rewrite Hdb, Hr.
Qed.

(** The batches path after the transaction. *)
Lemma wp_dispatch_emit batches q t0 w :
  work <$> batches = Ws → safe w → w_tx w = None →
  wp (metric (MDispatchBatches (tenantId m) stp (counts_per_queue stp batches));;
      dc_onDispatch c m batches;;
      recordDispatch run stp (Z.of_nat (length batches)) RepoConn;;
      emitBatches cfg c m batches;;
      complete run stp DISPATCH_BATCH_SEQ RepoConn;;
      t1 ← date_now;
      metric (MConsumeEnd (tenantId m) q CoOk (t1 - t0)))
    (λ _ w', emit_inv w' ∧ run_status dispatch_key w' = Some COMPLETED)
    (λ _, emit_inv) emit_inv w.
Proof.
  intros Hw Hs Htx. apply wp_bind, wp_metric, wp_bind.
  apply (wp_frame false); [apply dl_onDispatch|unfold in_tx; simpl; by rewrite Htx| |
    intros; eapply safe_emit_inv, safe_frame; [done|exact Hs]..].
  intros _ w1 F1. assert (safe w1) as Hs1 by (eapply safe_frame; [exact F1|exact Hs]).
  apply wp_bind. unfold recordDispatch. fold dispatch_key. apply wp_write_repo. intros o t w2 w3.
  assert (safe w2) as Hs2 by exact Hs1.
  assert (safe w3) as Hs3.
  { split.
    - apply (ckpt_ok_row w2 (upd_planned (Z.of_nat (length batches)))); try done. apply Hs2.
    - apply (running_update (upd_planned (Z.of_nat (length batches))) w2); try done. apply Hs2. }
  split_and!; [|intros e; split|..]; [|by apply safe_emit_inv..].
  apply wp_bind. destruct Hs3 as [Hck3 Hr3].
  eapply wp_mono; [by apply (wp_emitBatches batches)| |intros; by apply safe_emit_inv..].
  intros _ w4 [[Hck4 Hall] Hr4]. apply wp_bind. unfold complete. fold dispatch_key.
  apply wp_bind, wp_gets, wp_write_repo. intros o5 t5 w5 w6.
  assert (safe w5) as Hs5 by done.
  assert (grows w4 w6) as Hg.
  { split; try done. intros seq Hne. apply lookup_alter_ne. unfold dispatch_key. congruence. }
  assert (∀ x, x ∈ Ws → accounted w6 x) as Hacc.
  { intros x Hx. apply (accounted_grows w4); [done|by apply ws_nonzero|]. apply Hall; [done|].
    apply not_elem_of_nil. }
  assert (emit_inv w6) as Hi6 by (split; [by intros x Hx _; apply Hacc|by intros _]).
  assert (run_status dispatch_key w6 = Some COMPLETED) as Hst.
  { unfold run_status. simpl. rewrite lookup_alter_eq. unfold row_running, run_status in Hr4.
    by destruct (db_runs (w_db w4) !! dispatch_key). }
  split_and!; [|intros e; split; [by apply safe_emit_inv|done]|by apply safe_emit_inv|done].
  by apply wp_bind, wp_gets, wp_metric.
Qed.

Lemma wp_dispatch_body q w :
  emit_inv w → w_tx w = None →
  wp (dispatch_body cfg forTenantSlug c m q) (λ _ w', emit_inv w' ∧ dispatch_acked w')
    (λ _, emit_inv) emit_inv w.
Proof.
  intros Hi Htx. unfold dispatch_body. fold run stp. apply wp_bind.
  eapply wp_mono; [by apply wp_startOrRestart| |done..].
  intros o w1 [Htx1 Ho].
  assert (safe w1 →
    wp (metric (MConsumeStart (tenantId m) q);;
      t0 ← date_now;
      tenant ← findActive (tenantId m);
      integrationDs ← forTenantSlug (tn_slug tenant);
      result ← runWithTenant (tn_schemaName tenant) (dispatch_tx c m integrationDs tenant);
      match dr_batches result with
      | [] => t1 ← date_now; metric (MConsumeEnd (tenantId m) q CoOk (t1 - t0))
      | batches =>
          metric (MDispatchBatches (tenantId m) stp (counts_per_queue stp batches));;
          dc_onDispatch c m batches;;
          recordDispatch run stp (Z.of_nat (length batches)) RepoConn;;
          emitBatches cfg c m batches;;
          complete run stp DISPATCH_BATCH_SEQ RepoConn;;
          t1 ← date_now;
          metric (MConsumeEnd (tenantId m) q CoOk (t1 - t0))
      end)
    (λ _ w', emit_inv w' ∧ dispatch_acked w') (λ _, emit_inv) emit_inv w1) as Hgo.
  2: { destruct o; [by apply Hgo| |by apply Hgo].
       apply wp_metric. destruct Ho as [H1 H2]. split; [exact H1|by left]. }
  clear Ho. intros Hs1.
  apply wp_bind, wp_metric, wp_bind, wp_gets, wp_bind. set (w1' := add_metric _ w1).
  assert (safe w1') as Hs1' by exact Hs1.
  assert (in_tx w1' = false) as Hin by (unfold in_tx; simpl; by rewrite Htx1).
  apply (wp_frame false); [apply Frame_findActive|done| |
    intros; eapply safe_emit_inv, safe_frame; done..].
  intros tenant w2 F2. apply wp_bind.
  apply (wp_frame false); [apply Hint|by rewrite (frame_in_tx w1')| |
    intros; eapply safe_emit_inv, safe_frame; [|exact Hs1']; by etrans..].
  intros ds w3 F3. assert (safe w3) as Hs3.
  { eapply safe_frame; [|exact Hs1']. by etrans. }
  apply wp_bind, wp_runWithTenant.
  { intros e. by apply safe_emit_inv. }
  { intros o' t. split; [intros e|]; by apply safe_emit_inv. }
  intros o' t. set (w4 := set_tx _ (ticked o' t w3)).
  assert (safe w4) as Hs4 by exact Hs3.
  eapply wp_mono; [by eapply (wp_dispatch_tx ds tenant)| | |].
  - intros r w5 Hlog o5 t5 w5'.
    pose proof (commit_dispatch r w4 w5 o5 t5 Hlog Hs4) as Hc.
    assert (safe (set_tx None w5')) as Hsafe.
    { destruct Hlog as (U & _). exact (safe_uncommitted _ _ U Hs4). }
    destruct Hlog as (_ & Hw & _).
    split_and!.
    + destruct (dr_batches r) as [|b bs] eqn:Eb.
      * destruct Hc as [H1 H2]. apply wp_bind, wp_gets, wp_metric. split; [exact H1|by left].
      * eapply wp_mono; [by apply wp_dispatch_emit| |done..].
        intros _ w6 [H1 H2]. split; [done|by left].
    + intros e. split; [by apply safe_emit_inv|].
      destruct (dr_batches r); [apply Hc|by apply safe_emit_inv].
    + by apply safe_emit_inv.
    + destruct (dr_batches r); [apply Hc|by apply safe_emit_inv].
  - intros e w5 U. apply safe_emit_inv. exact (safe_uncommitted _ _ U Hs4).
  - intros w5 U. apply safe_emit_inv. exact (safe_uncommitted _ _ U Hs4).
Qed.

Lemma dispatch_process_spec w :
  emit_inv w → w_tx w = None →
  wp (dispatch_process cfg forTenantSlug c m) (λ _ w', emit_inv w' ∧ dispatch_acked w')
    (λ _, emit_inv) emit_inv w.
Proof.
  intros Hi Htx. unfold dispatch_process. apply wp_catch.
  eapply wp_mono; [by apply wp_dispatch_body|done| |done].
  intros e w1 H1. cbn beta in H1. unfold dispatch_catch, route_failure, republishOnFailure, fail.
  fold run stp dispatch_key. apply wp_bind, wp_metric, wp_bind, wp_bind, wp_publish.
  intros o t w2 w3.
  assert (emit_inv w3) as H3.
  { apply (emit_inv_grows w1); try done. split; try done. intros p Hp. simpl.
    rewrite elem_of_app. auto. }
  split_and!; [|done..].
  apply wp_ret, wp_bind, wp_gets, wp_write_repo. intros o4 t4 w4 w5.
  assert (emit_inv w5) as H5.
  { split.
    - apply (ckpt_ok_row w4 (upd_fail (w_now w3) (errMessage e +:+ " (retry=" +:+ "dlq" +:+ ")")));
        try done. apply H3.
    - unfold run_status. simpl. rewrite lookup_alter_eq.
      by destruct (db_runs (w_db w1) !! dispatch_key). }
  split_and!; [exact H5|right|intros _; by split|exact H3|exact H5].
  unfold in_dlq. simpl. rewrite elem_of_app. right. by apply list_elem_of_singleton.
Qed.

End Dispatch.
