(* ===== verification/OutboxLaws.v ===== *)
(** The outbox publisher: leases, safety under arbitrary faults, and
    progress of a tick without faults. *)

From Stdlib Require Import Ascii String.
From S2P Require Import Prelude JsText Enums Messages World RunService Outbox Logic.
Open Scope string_scope.
Open Scope list_scope.
Open Scope Z_scope.

(* ------------------------------------------------------------------ *)
(** * Claims                                                            *)
(* ------------------------------------------------------------------ *)

(** The row of an id keeps its message and key over claims and marks. *)
Definition same_row (r0 r : OutboxRow) : Prop :=
  ob_id r = ob_id r0 ∧ ob_message r = ob_message r0 ∧ ob_routingKey r = ob_routingKey r0
  ∧ ob_pipelineRunId r = ob_pipelineRunId r0.

Lemma claim_rows_spec now limit rows :
  let '(claimed, out) := claim_rows now limit rows in
  (length claimed ≤ limit)%nat
  ∧ Forall2 (λ r0 r, same_row r0 r ∧ ob_publishedAt r = ob_publishedAt r0
       ∧ (r = r0 ∨ claimable now r0 = true ∧ r = claim_row now r0 ∧ r ∈ claimed)) rows out
  ∧ (∀ r, r ∈ claimed → ∃ r0, r0 ∈ rows ∧ claimable now r0 = true ∧ r = claim_row now r0)
  ∧ ((length rows ≤ limit)%nat → claimed = claim_row now <$> filter (λ r, claimable now r = true) rows).
Proof.
  assert (∀ l : list OutboxRow, Forall2 (λ r0 r, same_row r0 r ∧ ob_publishedAt r = ob_publishedAt r0
       ∧ (r = r0 ∨ claimable now r0 = true ∧ r = claim_row now r0 ∧ r ∈ [])) l l) as Hrefl.
  { intros l. apply Forall_Forall2_diag, Forall_true. intros r. split_and!; try done. by left. }
  revert limit. induction rows as [|r rows IH]; intros limit.
  { cbn [claim_rows]. split_and!; [simpl; lia|constructor| |done]. intros r Hr. by apply elem_of_nil in Hr. }
  cbn [claim_rows]. destruct limit as [|l].
  { split_and!; [done|apply Hrefl| |simpl; lia]. intros r' Hr. by apply elem_of_nil in Hr. }
  destruct (claimable now r) eqn:Hc.
  - specialize (IH l). destruct (claim_rows now l rows) as [cl out].
    destruct IH as (H1 & H2 & H3 & H4). split_and!.
    + simpl. lia.
    + constructor.
      * split_and!; try done. right. split_and!; try done. left.
      * eapply Forall2_impl; [exact H2|]. intros r0 r1 (Hs & Hp & Hr). split_and!; try done.
        destruct Hr as [?|(? & ? & ?)]; [by left|right]. split_and!; try done. by right.
    + intros r' [->|Hr]%elem_of_cons; [exists r; split; [left|done]|].
      destruct (H3 r' Hr) as (r0 & ? & ? & ?). exists r0. split; [by right|done].
    + intros Hlen. rewrite filter_cons, decide_True, fmap_cons, H4 by (done || simpl in Hlen; lia).
      done.
  - specialize (IH (S l)). destruct (claim_rows now (S l) rows) as [cl out].
    destruct IH as (H1 & H2 & H3 & H4). split_and!.
    + done.
    + constructor; [|done]. split_and!; try done. by left.
    + intros r' Hr. destruct (H3 r' Hr) as (r0 & ? & ? & ?). exists r0. split; [by right|done].
    + intros Hlen. rewrite filter_cons, decide_False, H4 by (congruence || simpl in Hlen; lia). done.
Qed.

Lemma claim_rows_ids now limit rows r :
  r ∈ (claim_rows now limit rows).1 → ∃ r0, r0 ∈ rows ∧ r = claim_row now r0.
Proof.
  pose proof (claim_rows_spec now limit rows) as Hs.
  destruct (claim_rows now limit rows) as [cl out]. destruct Hs as (_ & _ & H3 & _).
  intros Hr. destruct (H3 r Hr) as (r0 & ? & _ & ?). eauto.
Qed.

(** A claimed row is leased in the table. *)
Lemma claim_rows_leased now limit rows :
  NoDup (ob_id <$> rows) →
  ∀ r r', r ∈ (claim_rows now limit rows).1 → r' ∈ (claim_rows now limit rows).2 →
    ob_id r = ob_id r' → r = r'.
Proof.
  revert limit. induction rows as [|r0 rows IH]; intros limit Hnd r r' Hr Hr' Hid.
  { by apply elem_of_nil in Hr. }
  apply NoDup_cons in Hnd as [Hni Hnd]. cbn [claim_rows] in *.
  assert (∀ l x, x ∈ (claim_rows now l rows).1 → ob_id x ≠ ob_id r0) as Hcl.
  { intros l x (x0 & Hx0 & ->)%claim_rows_ids Heq. apply Hni, list_elem_of_fmap.
    exists x0. by rewrite <- Heq. }
  assert (∀ l x, x ∈ (claim_rows now l rows).2 → ob_id x ≠ ob_id r0) as Hout.
  { intros l x Hx Heq. pose proof (claim_rows_spec now l rows) as Hs.
    destruct (claim_rows now l rows) as [cl out]. destruct Hs as (_ & H2 & _).
    simpl in Hx. apply list_elem_of_lookup in Hx as [i Hi].
    destruct (Forall2_lookup_r _ _ _ _ _ H2 Hi) as (x0 & Hi0 & (Hs0 & _) & _).
    apply Hni, list_elem_of_fmap. exists x0. split; [congruence|].
    by eapply list_elem_of_lookup_2. }
  destruct limit as [|l]; [by apply elem_of_nil in Hr|].
  destruct (claimable now r0).
  - specialize (IH l Hnd). specialize (Hcl l). specialize (Hout l).
    destruct (claim_rows now l rows) as [cl out]. simpl in *.
    apply elem_of_cons in Hr as [->|Hr], Hr' as [->|Hr']; [done| | |by apply IH].
    + by destruct (Hout r' Hr').
    + by destruct (Hcl r Hr).
  - specialize (IH (S l) Hnd). specialize (Hcl (S l)).
    destruct (claim_rows now (S l) rows) as [cl out]. simpl in *.
    apply elem_of_cons in Hr' as [->|Hr']; [by destruct (Hcl r Hr)|by apply IH].
Qed.

(** The lease.  A claim takes at most [limit] unpublished rows whose
    lease is free, changes nothing but their [attempts] and [claimed_at], and
    excludes them: a second claim (another replica, the next tick) up to
    [CLAIM_GRACE_MS] later returns no row of the first. *)
Theorem claims_are_exclusive now now' limit limit' rows claimed out claimed' out' :
  claim_rows now limit rows = (claimed, out) →
  claim_rows now' limit' out = (claimed', out') →
  now' <= now + CLAIM_GRACE_MS → NoDup (ob_id <$> rows) →
  (length claimed ≤ limit)%nat
  ∧ (∀ r, r ∈ claimed → ob_publishedAt r = None)
  ∧ Forall2 (λ r0 r, same_row r0 r ∧ ob_publishedAt r = ob_publishedAt r0) rows out
  ∧ ∀ r r', r ∈ claimed → r' ∈ claimed' → ob_id r ≠ ob_id r'.
Proof.
  intros E E' Hnow Hnd.
  pose proof (claim_rows_spec now limit rows) as Hs. rewrite E in Hs.
  destruct Hs as (H1 & H2 & H3 & _).
  pose proof (claim_rows_spec now' limit' out) as Hs'. rewrite E' in Hs'.
  destruct Hs' as (_ & _ & H3' & _).
  split_and!; [done| | |].
  - intros r Hr. destruct (H3 r Hr) as (r0 & _ & Hc & ->). unfold claimable in Hc. simpl.
    by destruct (ob_publishedAt r0).
  - eapply Forall2_impl; [exact H2|]. naive_solver.
  - intros r r' Hr Hr' Hid.
    destruct (H3 r Hr) as (r0 & Hin0 & Hc0 & ->).
    destruct (H3' r' Hr') as (r1 & Hin1 & Hc1 & ->). simpl in Hid.
    assert (claim_row now r0 = r1) as <-.
    { pose proof (claim_rows_leased now limit rows Hnd) as Hl. rewrite E in Hl. by apply Hl. }
    unfold claimable in Hc1, Hc0. simpl in Hc1.
    destruct (ob_publishedAt r0); [done|]. apply Z.ltb_lt in Hc1. lia.
Qed.

Definition toy_row (id : Z) (claimed published : option Z) : OutboxRow :=
  {| ob_id := id; ob_pipelineRunId := "run"; ob_tenantId := "acme";
     ob_routingKey := "acme.sync-stores";
     ob_message := newPipelineMessage 0 "run" "acme" "sync-stores" None PEmpty None None;
     ob_attempts := 0; ob_claimedAt := claimed; ob_publishedAt := published; ob_createdAt := 0 |}.

Lemma claims_are_exclusive_witness :
  let rows := [toy_row 1 None (Some 5); toy_row 2 (Some 90000) None; toy_row 3 None None;
               toy_row 4 None None] in
  let '(c1, out1) := claim_rows 100000 1 rows in
  let '(c2, out2) := claim_rows 160000 10 out1 in
  (ob_id <$> c1) = [3] ∧ (ob_id <$> c2) = [2; 4] ∧ ∀ r r', r ∈ c1 → r' ∈ c2 → ob_id r ≠ ob_id r'.
Proof.
  intros rows.
  destruct (claim_rows 100000 1 rows) as [c1 out1] eqn:E1.
  destruct (claim_rows 160000 10 out1) as [c2 out2] eqn:E2.
  assert (NoDup (ob_id <$> rows)) as Hnd
    by (refine (proj1 (bool_decide_eq_true _) _); vm_compute; reflexivity).
  split_and!; [| |exact (proj2 (proj2 (proj2
    (claims_are_exclusive 100000 160000 1 10 rows c1 out1 c2 out2 E1 E2 (ltac:(done)) Hnd))))].
  - vm_compute in E1. by injection E1 as <- _.
  - vm_compute in E1. injection E1 as _ <-. vm_compute in E2. by injection E2 as <- _.
Defined.

(* ------------------------------------------------------------------ *)
(** * A tick                                                            *)
(* ------------------------------------------------------------------ *)

Section Tick.
Context {D : Type} (cfg : Config).
Abbreviation W := (World D).
(** The outbox when the tick starts. *)
Variable rows0 : list OutboxRow.
Hypothesis Hnd : NoDup (ob_id <$> rows0).

Definition outbox_publish (r : OutboxRow) : Publish :=
  {| pb_exchange := EXCHANGE_NAME (cfg_env cfg); pb_key := ob_routingKey r;
     pb_msg := ob_message r |}.

(** The message of a row is in the broker, or its batch is executed. *)
Definition delivered (w : W) (r0 : OutboxRow) : Prop :=
  outbox_publish r0 ∈ w_amqp w
  ∨ (0 < seqOf (ob_message r0)
     ∧ batch_completed (ob_pipelineRunId r0) (step (ob_message r0)) (seqOf (ob_message r0))
         (db_runs (w_db w)) = true).

Definition tick_inv (w : W) : Prop :=
  Forall2 (λ r0 r, same_row r0 r
             ∧ (ob_publishedAt r = ob_publishedAt r0 ∨ delivered w r0))
    rows0 (db_outbox (w_db w)).

Lemma delivered_mono (w w' : W) r :
  (∀ p, p ∈ w_amqp w → p ∈ w_amqp w') → db_runs (w_db w') = db_runs (w_db w) →
  delivered w r → delivered w' r.
Proof. intros Ha Hr [?|[? ?]]; [left; auto|right; by rewrite Hr]. Qed.

Lemma tick_inv_mono (w w' : W) :
  (∀ p, p ∈ w_amqp w → p ∈ w_amqp w') → w_db w' = w_db w → tick_inv w → tick_inv w'.
Proof.
  intros Ha Hdb Hi. unfold tick_inv. rewrite Hdb. eapply Forall2_impl; [exact Hi|].
  intros r0 r [Hs [?|?]]; (split; [done|]); [by left|right].
  eapply delivered_mono; eauto. by rewrite Hdb.
Qed.

Lemma tick_inv_mark now id (w w0 : W) r0 :
  tick_inv w → r0 ∈ rows0 → ob_id r0 = id → delivered w r0 → w_amqp w0 = w_amqp w →
  w_db w0 = Build_Db (db_runs (w_db w)) (mark_rows now id (db_outbox (w_db w))) (db_data (w_db w)) →
  tick_inv w0.
Proof.
  intros Hi Hr0 Hid Hd Ha Hdb. unfold tick_inv. rewrite Hdb. simpl. unfold mark_rows.
  assert (∀ r, delivered w r → delivered w0 r) as Hmono.
  { intros r. apply delivered_mono; [by rewrite Ha|by rewrite Hdb]. }
  apply Forall2_fmap_r. apply list_elem_of_lookup in Hr0 as [j Hj].
  apply Forall2_same_length_lookup. split; [by eapply Forall2_length|].
  intros i x y Hx Hy. destruct (Forall2_lookup_lr _ _ _ _ _ _ Hi Hx Hy) as [Hs Hp]. simpl.
  case_decide as Hdec; [|split; [done|]; destruct Hp; [by left|right; auto]].
  split; [done|]. right. apply Hmono.
  assert (i = j) as ->.
  { eapply NoDup_lookup; [exact Hnd| |].
    - rewrite list_lookup_fmap, Hx. simpl. destruct Hdec as [Hdec _], Hs as [Hs _].
      by rewrite <- Hs, Hdec.
    - rewrite list_lookup_fmap, Hj. simpl. by rewrite Hid. }
  assert (x = r0) as -> by congruence. done.
Qed.

Lemma wp_markPublished r0 (w : W) :
  tick_inv w → r0 ∈ rows0 → delivered w r0 →
  wp (markPublished (ob_id r0)) (λ _, tick_inv) (λ _, tick_inv) tick_inv w.
Proof.
  intros Hi Hr Hd. unfold markPublished. apply wp_bind, wp_gets, wp_write_repo. intros o t w0 w1.
  assert (tick_inv w0) by done.
  assert (tick_inv w1) by (by eapply (tick_inv_mark _ (ob_id r0) w)).
  by split_and!.
Qed.

Lemma wp_publish_row r0 row (w : W) :
  tick_inv w → r0 ∈ rows0 → same_row r0 row →
  wp (publish_row cfg row) (λ _, tick_inv) (λ _, tick_inv) tick_inv w.
Proof.
  intros Hi Hr (Eid & Em & Ek & Er). unfold publish_row. rewrite Eid, Em, Ek, Er.
  apply wp_bind.
  assert (∀ (skip : bool) w1, tick_inv w1 → (skip = true → delivered w1 r0) →
    wp (if skip then markPublished (ob_id r0)
        else amqp_publish (EXCHANGE_NAME (cfg_env cfg)) (ob_routingKey r0) (ob_message r0);;
             metric (MPublish "outbox" (ob_tenantId row) (target_queue (ob_routingKey r0)) 1);;
             markPublished (ob_id r0))
      (λ _, tick_inv) (λ _, tick_inv) tick_inv w1) as Hgo.
  { intros skip w1 Hi1 Hs. destruct skip; [by apply wp_markPublished; auto|].
    apply wp_bind, wp_publish. intros o t w2 w3.
    assert (tick_inv w2) by done.
    assert (tick_inv w3) as Hi3.
    { apply (tick_inv_mono w1); [|done|done]. intros p Hp. simpl. rewrite elem_of_app. auto. }
    split_and!; [|done..]. apply wp_bind, wp_metric. apply wp_markPublished; [done|done|].
    left. simpl. rewrite elem_of_app. right. by apply list_elem_of_singleton. }
  destruct (0 <? seqOf (ob_message r0)) eqn:Hseq.
  - unfold isBatchCompleted. apply wp_read_repo. intros o t w1. split_and!; [|done..].
    apply Hgo; [done|]. intros Hc. right. apply Z.ltb_lt in Hseq. split; [done|exact Hc].
  - apply wp_ret. by apply (Hgo false).
Qed.

Lemma wp_publish_rows rows (w : W) :
  tick_inv w → (∀ row, row ∈ rows → ∃ r0, r0 ∈ rows0 ∧ same_row r0 row) →
  wp (for_each rows (λ row, try_catch (publish_row cfg row) (λ _, mret ())))
    (λ _, tick_inv) (λ _, tick_inv) tick_inv w.
Proof.
  revert w. induction rows as [|row rows IH]; intros w Hi Hall; simpl; [by apply wp_ret|].
  apply wp_bind, wp_catch. destruct (Hall row ltac:(left)) as (r0 & Hr0 & Hs).
  assert (∀ row, row ∈ rows → ∃ r0, r0 ∈ rows0 ∧ same_row r0 row) as Hall'
    by (intros; apply Hall; by right).
  eapply wp_mono; [by apply (wp_publish_row r0)|intros ? w1 H1; by apply IH| |done].
  intros e w1 H1. apply wp_ret. by apply IH.
Qed.

Lemma wp_tick (w : W) :
  db_outbox (w_db w) = rows0 →
  wp (tick cfg) (λ _, tick_inv) (λ _, tick_inv) tick_inv w.
Proof.
  intros E. assert (tick_inv w) as Hi.
  { unfold tick_inv. rewrite E. apply Forall_Forall2_diag, Forall_true. intros r. by split; [|left]. }
  unfold tick, claimPending. apply wp_bind, wp_bind, wp_gets, wp_ext. intros o t w0.
  assert (tick_inv w0) as Hi0 by done.
  unfold sql_step. simpl. rewrite E.
  pose proof (claim_rows_spec (w_now w) (outboxPublisherBatchSize cfg) rows0) as Hs.
  destruct (claim_rows _ _ rows0) as [claimed out] eqn:Ec. destruct Hs as (_ & H2 & H3 & _).
  set (w1 := set_db _ w0).
  assert (tick_inv w1) as Hi1.
  { unfold tick_inv. simpl. rewrite ?E, ?Ec. eapply Forall2_impl; [exact H2|].
    intros r0 r (Hs & Hp & _). split; [done|by left]. }
  split_and!; [|done..].
  assert (∀ row, row ∈ claimed → ∃ r0, r0 ∈ rows0 ∧ same_row r0 row) as Hall.
  { intros row Hrow. destruct (H3 row Hrow) as (r0 & Hr0 & _ & ->). by exists r0. }
  simpl. destruct claimed as [|c cs] eqn:Ecl; [by apply wp_ret|]. rewrite <- Ecl in *.
  apply wp_bind. eapply wp_mono; [by apply wp_publish_rows| |done..].
  intros ? w2 Hi2. by apply wp_metric.
Qed.

End Tick.

(** [C4] The publisher loses and invents nothing.  For every fate of every
    query and publish of a tick (and the death of the process in the middle
    of it): the outbox keeps exactly its rows, with their messages and keys;
    and a row that became published had its message accepted by the broker
    with its routing key, or its batch was already executed. *)
Theorem outbox_tick_safe {D} cfg (w : World D) :
  NoDup (ob_id <$> db_outbox (w_db w)) →
  let w' := (tick cfg w).2 in
  Forall2 (λ r0 r, same_row r0 r
             ∧ (ob_publishedAt r = ob_publishedAt r0 ∨ delivered cfg w' r0))
    (db_outbox (w_db w)) (db_outbox (w_db w')).
Proof.
  intros Hnd w'. pose proof (wp_tick cfg (db_outbox (w_db w)) Hnd w eq_refl) as Hwp.
  rewrite wp_elim in Hwp. subst w'. by destruct (tick cfg w) as [[] w'].
Qed.

Definition toy_outbox_cfg : Config := {|
  cfg_env := None; pipelineDispatchOutboxPublish := false;
  pipelineDispatchPublishCheckpoint := 2; outboxPublisherBatchSize := 10;
  importVtexEanBatchSize := 1; importNonVtexEanBatchSize := 1 |}.

Definition toy_outbox_world (rows : list OutboxRow) (o : list (Fault * Z)) : World unit :=
  Build_World (Build_Db ∅ rows tt) None [] [] [] 100000 o (false, false).

(** The broker accepts the first message and the process dies: the row stays
    unpublished with its lease, and the message is in the broker. *)
Lemma outbox_tick_safe_witness :
  let w := toy_outbox_world [toy_row 1 None None; toy_row 2 None None]
             [(FOk, 0); (FCrashAfter, 0)] in
  let w' := (tick toy_outbox_cfg w).2 in
  (ob_publishedAt <$> db_outbox (w_db w')) = [None; None]
  ∧ length (w_amqp w') = 1%nat
  ∧ Forall2 (λ r0 r, same_row r0 r
       ∧ (ob_publishedAt r = ob_publishedAt r0 ∨ delivered toy_outbox_cfg w' r0))
      (db_outbox (w_db w)) (db_outbox (w_db w')).
Proof.
  intros w w'. split_and!; [vm_compute; reflexivity..|].
  apply (outbox_tick_safe toy_outbox_cfg w).
  refine (proj1 (bool_decide_eq_true _) _). vm_compute. reflexivity.
Defined.

(* ------------------------------------------------------------------ *)
(** * A tick without faults                                             *)
(* ------------------------------------------------------------------ *)

Section Progress.
Context {D : Type} (cfg : Config).
Abbreviation W := (World D).

Lemma ext_ok {A} (f : W → Res A * W) (w : W) a w' :
  w_oracle w = [] → f w = (Ok a, w') → ext f w = (Done a, w').
Proof. intros Ho Hf. unfold ext, pop. by rewrite Ho, Hf. Qed.

(** The world after the row's message is out and the row marked. *)
Definition row_out (w w' : W) (row : OutboxRow) : Prop :=
  w_oracle w' = [] ∧ w_now w' = w_now w ∧ w_tx w' = w_tx w
  ∧ db_runs (w_db w') = db_runs (w_db w)
  ∧ db_outbox (w_db w') = mark_rows (w_now w) (ob_id row) (db_outbox (w_db w))
  ∧ (∀ p, p ∈ w_amqp w → p ∈ w_amqp w') ∧ delivered cfg w' row.

Lemma markPublished_ok (w : W) id :
  w_oracle w = [] →
  markPublished id w = (Done (), set_db (Build_Db (db_runs (w_db w))
    (mark_rows (w_now w) id (db_outbox (w_db w))) (db_data (w_db w))) w).
Proof. intros Ho. unfold markPublished, mbind, M_bind, date_now, gets. by apply ext_ok. Qed.

Lemma publish_row_ok row (w : W) :
  w_oracle w = [] → ∃ w', publish_row cfg row w = (Done (), w') ∧ row_out w w' row.
Proof.
  intros Ho. unfold publish_row.
  destruct (0 <? seqOf (ob_message row)) eqn:Hseq.
  - unfold isBatchCompleted, mbind, M_bind at 1, sql_read, sql.
    erewrite ext_ok by (done || reflexivity).
    set (w1 := set_db _ w). assert (w1 = w) as -> by (by destruct w as [[] ]).
    destruct (batch_completed _ _ _ _) eqn:Hb.
    + rewrite markPublished_ok by done. eexists. split; [done|]. split_and!; try done.
      right. split; [by apply Z.ltb_lt|done].
    + unfold M_bind at 1, amqp_publish. erewrite ext_ok by (done || reflexivity).
      unfold M_bind, metric. rewrite markPublished_ok by done. eexists. split; [done|].
      split_and!; try done.
      * intros p Hp. simpl. rewrite elem_of_app. auto.
      * left. simpl. rewrite elem_of_app. right. by apply list_elem_of_singleton.
  - unfold mbind, M_bind at 1, mret, M_ret, M_bind at 1, amqp_publish.
    erewrite ext_ok by (done || reflexivity).
    unfold M_bind, metric. rewrite markPublished_ok by done. eexists. split; [done|].
    split_and!; try done.
    + intros p Hp. simpl. rewrite elem_of_app. auto.
    + left. simpl. rewrite elem_of_app. right. by apply list_elem_of_singleton.
Qed.

(** Marking keeps what is marked. *)
Lemma mark_rows_lookup now id rows i r :
  mark_rows now id rows !! i = Some r →
  ∃ r0, rows !! i = Some r0 ∧ same_row r0 r
  ∧ ob_publishedAt r = (if decide (ob_id r0 = id ∧ ob_publishedAt r0 = None) then Some now
                        else ob_publishedAt r0).
Proof.
  unfold mark_rows. rewrite list_lookup_fmap. destruct (rows !! i) as [r0|]; [|done].
  intros [= <-]. exists r0. split; [done|]. by case_decide.
Qed.

Lemma publish_rows_ok rows (w : W) :
  w_oracle w = [] →
  ∃ w', for_each rows (λ row, try_catch (publish_row cfg row) (λ _, mret ())) w = (Done (), w')
  ∧ (∀ p, p ∈ w_amqp w → p ∈ w_amqp w') ∧ db_runs (w_db w') = db_runs (w_db w)
  ∧ (∀ row, row ∈ rows → delivered cfg w' row)
  ∧ Forall2 (λ r0 r, same_row r0 r
      ∧ (ob_publishedAt r0 ≠ None → ob_publishedAt r = ob_publishedAt r0)
      ∧ (ob_id r0 ∈ (ob_id <$> rows) → ob_publishedAt r ≠ None))
      (db_outbox (w_db w)) (db_outbox (w_db w')).
Proof.
  revert w. induction rows as [|row rows IH]; intros w Ho; simpl.
  { exists w. split_and!; try done; [intros r Hr; by apply elem_of_nil in Hr|].
    apply Forall_Forall2_diag, Forall_true. intros r. split_and!; try done.
    by intros ?%elem_of_nil. }
  destruct (publish_row_ok row w Ho) as (w1 & E1 & Ho1 & Hn1 & Ht1 & Hr1 & Hob1 & Ha1 & Hd1).
  destruct (IH w1 Ho1) as (w2 & E2 & Ha2 & Hr2 & Hall & Hf2).
  exists w2. unfold mbind, M_bind, try_catch at 1. rewrite E1. split_and!.
  - done.
  - auto.
  - congruence.
  - intros r [->|Hr]%elem_of_cons; [|auto]. by apply (delivered_mono cfg w1).
  - rewrite Hob1 in Hf2. unfold mark_rows in Hf2. apply Forall2_fmap_l in Hf2.
    eapply Forall2_impl; [exact Hf2|]. intros r0 r (Hs & Hp & Hi). cbn beta in *.
    case_decide as Hd.
    + assert (ob_publishedAt r ≠ None) as Hne by (rewrite Hp; simpl; congruence).
      split_and!; [exact Hs| |done]. intros Hc. by destruct Hd.
    + split_and!; [done|done|]. intros [Heq|Hin]%elem_of_cons; [|by apply Hi].
      rewrite Hp by (intros Hnone; by apply Hd). intros Hnone. by apply Hd.
Qed.

Lemma tick_ok (w : W) :
  w_oracle w = [] → (length (db_outbox (w_db w)) ≤ outboxPublisherBatchSize cfg)%nat →
  ∃ w', tick cfg w = (Done (), w')
  ∧ ∀ r0, r0 ∈ db_outbox (w_db w) → claimable (w_now w) r0 = true →
      delivered cfg w' r0
      ∧ ∃ r, r ∈ db_outbox (w_db w') ∧ same_row r0 r ∧ ob_publishedAt r ≠ None.
Proof.
  intros Ho Hlen. unfold tick, claimPending.
  pose proof (claim_rows_spec (w_now w) (outboxPublisherBatchSize cfg) (db_outbox (w_db w))) as Hs.
  destruct (claim_rows _ _ (db_outbox (w_db w))) as [claimed out] eqn:Ec.
  destruct Hs as (_ & H2 & _ & H4). specialize (H4 Hlen).
  set (w1 := set_db (Build_Db (db_runs (w_db w)) out (db_data (w_db w))) w).
  assert ((now ← date_now;
           sql RepoConn (λ db,
             (Ok (claim_rows now (outboxPublisherBatchSize cfg) (db_outbox db)).1,
              λ db', Build_Db (db_runs db')
                       (claim_rows now (outboxPublisherBatchSize cfg) (db_outbox db)).2
                       (db_data db')))) w = (Done claimed, w1)) as E0.
  { unfold mbind, M_bind, date_now, gets. apply ext_ok; [done|].
    unfold sql_step. simpl. by rewrite Ec. }
  destruct (publish_rows_ok claimed w1 Ho) as (w2 & E2 & Ha & Hr & Hall & Hf).
  assert (∃ w', (match claimed with
     | [] => mret ()
     | _ => for_each claimed (λ row, try_catch (publish_row cfg row) (λ _, mret ()));;
            metric (MOutboxDrain (Z.of_nat (length claimed)))
     end) w1 = (Done (), w') ∧ w_db w' = w_db w2 ∧ w_amqp w' = w_amqp w2) as (w' & E' & Hdb & Ha').
  { destruct claimed as [|c cs]; [by exists w2|].
    eexists. unfold mbind, M_bind. rewrite E2. split_and!; done. }
  exists w'. split; [by rewrite (M_bind_done _ _ _ _ _ E0)|]. intros r0 Hr0 Hc.
  apply list_elem_of_lookup in Hr0 as [i Hi].
  destruct (Forall2_lookup_l _ _ _ _ _ H2 Hi) as (r1 & Hi1 & Hs1 & Hp1 & _).
  simpl in Hf. destruct (Forall2_lookup_l _ _ _ _ _ Hf Hi1) as (r2 & Hi2 & Hs2 & _ & Hpub).
  assert (claim_row (w_now w) r0 ∈ claimed) as Hin.
  { rewrite H4. apply list_elem_of_fmap. exists r0. split; [done|].
    apply list_elem_of_filter. split; [done|]. by eapply list_elem_of_lookup_2. }
  split.
  - pose proof (Hall _ Hin) as Hd. unfold delivered, outbox_publish in *. simpl in Hd.
    by rewrite Hdb, Ha'.
  - exists r2. split_and!.
    + rewrite Hdb. by eapply list_elem_of_lookup_2.
    + destruct Hs1 as (?&?&?&?), Hs2 as (?&?&?&?). split_and!; congruence.
    + apply Hpub. destruct Hs1 as (-> & _). apply list_elem_of_fmap.
      eexists. split; [|exact Hin]. done.
Qed.

End Progress.

(** Progress of the outbox.  A tick without faults, with a batch size
    that covers the table, returns and delivers every row that was pending
    (unpublished, lease free): its message is in the broker or its batch was
    already executed, and the row is marked published.  With
    [outbox_tick_safe], a staged successor is eventually published: at the
    latest by the first clean tick after its lease expires. *)
Theorem outbox_tick_drains {D} cfg (w : World D) :
  w_oracle w = [] → (length (db_outbox (w_db w)) ≤ outboxPublisherBatchSize cfg)%nat →
  ∃ w', tick cfg w = (Done (), w')
  ∧ ∀ r0, r0 ∈ db_outbox (w_db w) → claimable (w_now w) r0 = true →
      delivered cfg w' r0
      ∧ ∃ r, r ∈ db_outbox (w_db w') ∧ same_row r0 r ∧ ob_publishedAt r ≠ None.
Proof. apply tick_ok. Qed.

Lemma outbox_tick_drains_witness :
  let w := toy_outbox_world [toy_row 1 None None; toy_row 2 (Some 39999) None;
                             toy_row 3 (Some 40000) None] [] in
  ∃ w', tick toy_outbox_cfg w = (Done (), w')
  ∧ (claimable 100000 (toy_row 2 (Some 39999) None) = true
     ∧ delivered toy_outbox_cfg w' (toy_row 2 (Some 39999) None)).
Proof.
  intros w. destruct (outbox_tick_drains toy_outbox_cfg w) as (w' & E & H);
    [reflexivity|vm_compute; lia|].
  exists w'. split; [exact E|]. split; [reflexivity|].
  apply (H (toy_row 2 (Some 39999) None)); [right; left|reflexivity].
Defined.
