(* ===== verification/Chunker.v ===== *)
(** EAN canonicalisation and the slicing of embalagens into batches
    ([src/src/integration/repositories/a7pharma/embalagem-chunker.ts]), and
    the batch size per origin ([src/src/pipeline/import-batch-size.ts]). *)

From Stdlib Require Import Ascii String.
From S2P Require Import Prelude JsText Enums.
Open Scope string_scope.
Open Scope list_scope.
Open Scope Z_scope.

(** [parseEan].  [Number(padded)] of at most 14 digits is an exact integer,
    so finiteness is immediate and [<= 0] means zero. *)
Definition parseEan (codigobarras : option string) : option string :=
  match truthy codigobarras with
  | None => None
  | Some s =>
      let cleaned := str_filter is_digit s in
      if (String.length cleaned =? 0)%nat || (14 <? String.length cleaned)%nat then None
      else
        let padded := str_pad_start 13 "0" cleaned in
        if digits_val padded <=? 0 then None
        else
          let r := str_drop_zeros padded in
          Some (if String.eqb r "" then "0" else r)
  end.

(** A row of [findAllValidWithBarcode]. *)
Record EmbalagemRow := { em_id : Z; em_codigobarras : option string }.

(** [idsByEan]: [existing.push(row.id)] or a fresh entry. *)
Definition idsByEan (rows : list EmbalagemRow) : list (string * list Z) :=
  foldl (λ acc row,
    match parseEan (em_codigobarras row) with
    | None => acc
    | Some ean =>
        match js_map_get ean acc with
        | Some existing => js_map_set ean (existing ++ [em_id row]) acc
        | None => js_map_set ean [em_id row] acc
        end
    end) [] rows.

(** [chunkEmbalagensByEan], on the rows the repository returned. *)
Definition chunkEmbalagensByEan (rows : list EmbalagemRow) (batchSize : nat) : list (list Z) :=
  let m := idsByEan rows in
  (λ slice, slice ≫= λ ean, default [] (js_map_get ean m)) <$> slices batchSize (m.*1).

(** [VTEX_SIMPLE_ORIGINS.has(origin)] *)
Definition isVtexSimpleOrigin (o : CompetitorOrigin) : bool :=
  match o with
  | PAGUE_MENOS | IKESAKI | PACHECO | SAO_PAULO | VENANCIO | INDIANA => true
  | _ => false
  end.

Definition chunkSizeForOrigin (o : CompetitorOrigin) (vtex nonVtex : Z) : Z :=
  Z.max 1 (if isVtexSimpleOrigin o then vtex else nonVtex).

(* ------------------------------------------------------------------ *)
(** * Lemmas on digit strings                                           *)
(* ------------------------------------------------------------------ *)

Lemma take_digits_val s acc n :
  str_forall is_digit s = true →
  take_digits acc n s = ((take_digits acc n s).1.1, n + Z.of_nat (String.length s), "").
Proof.
  revert acc n. induction s as [|c s IH]; intros acc n; simpl.
  { intros _. f_equal. f_equal. lia. }
  intros [Hc Hs]%andb_true_iff. rewrite Hc, IH by done. simpl. f_equal. f_equal. lia.
Qed.

Lemma digit_val_nonneg c : is_digit c = true → 0 <= digit_val c.
Proof.
  unfold is_digit, in_range, digit_val. intros [H%N.leb_le _]%andb_true_iff.
  change (N_of_ascii "0") with 48%N in H. lia.
Qed.

Lemma take_digits_pos s acc n :
  str_forall is_digit s = true → 0 < acc → 0 < (take_digits acc n s).1.1.
Proof.
  revert acc n. induction s as [|c s IH]; intros acc n; simpl; [done|].
  intros [Hc Hs]%andb_true_iff Hacc. rewrite Hc. apply IH; [done|].
  pose proof (digit_val_nonneg c Hc). lia.
Qed.

Lemma take_digits_count_irrel s acc n n' :
  (take_digits acc n s).1.1 = (take_digits acc n' s).1.1.
Proof. revert acc n n'. induction s as [|c s IH]; intros; simpl; [done|]. case_match; auto. Qed.

(** Leading zeros do not change the value. *)
Lemma digits_val_zero s : digits_val (String "0" s) = digits_val s.
Proof. unfold digits_val. simpl. apply take_digits_count_irrel. Qed.

Lemma digits_val_pad n s : digits_val (str_pad_start n "0" s) = digits_val s.
Proof.
  unfold str_pad_start. generalize (n - String.length s)%nat as k.
  induction k as [|k IH]; [done|].
  assert (String.concat "" (replicate (S k) "0") +:+ s
          = String "0" (String.concat "" (replicate k "0") +:+ s)) as ->.
  { destruct k; done. }
  by rewrite digits_val_zero.
Qed.

Lemma str_pad_digits n s :
  str_forall is_digit s = true → str_forall is_digit (str_pad_start n "0" s) = true.
Proof.
  intros Hs. unfold str_pad_start. rewrite str_forall_app, Hs, andb_true_r.
  generalize (n - String.length s)%nat as k. induction k as [|[|k] IH]; done.
Qed.

Lemma digits_val_drop_zeros s : digits_val (str_drop_zeros s) = digits_val s.
Proof.
  induction s as [|c s IH]; [done|]. cbn [str_drop_zeros]. destruct s as [|d s'].
  { by repeat case_match. }
  repeat case_match; simplify_eq; try done. by rewrite IH, digits_val_zero.
Qed.

(** The canonical form: digits, no leading zero, positive. *)
Definition canonical_ean (e : string) : bool :=
  match e with
  | EmptyString => false
  | String c _ => str_forall is_digit e && negb (Ascii.eqb c "0")
  end.

Lemma drop_zeros_canonical s :
  str_forall is_digit s = true → 0 < digits_val s → canonical_ean (str_drop_zeros s) = true.
Proof.
  induction s as [|c s IH]; [done|]. intros Hd Hv.
  assert (Hd' := Hd). simpl in Hd. apply andb_true_iff in Hd as [Hc Hs].
  destruct (Ascii.eqb c "0") eqn:E.
  - apply Ascii.eqb_eq in E as ->. rewrite digits_val_zero in Hv.
    cbn [str_drop_zeros]. destruct s as [|d s']; [done|].
    simpl in Hs. apply andb_true_iff in Hs as [Hd2 Hs2]. rewrite Hd2.
    apply IH; [|done]. simpl. by rewrite Hd2.
  - assert (str_drop_zeros (String c s) = String c s) as ->.
    { cbn [str_drop_zeros]. repeat case_match; simplify_eq; done. }
    unfold canonical_ean. by rewrite Hd', E.
Qed.

Lemma canonical_filter e : canonical_ean e = true → str_filter is_digit e = e.
Proof.
  assert (∀ s, str_forall is_digit s = true → str_filter is_digit s = s) as H.
  { induction s as [|c s IH]; simpl; [done|]. intros [-> ?]%andb_true_iff. by rewrite IH. }
  destruct e as [|c e]; [done|]. intros [Hd _]%andb_true_iff. auto.
Qed.

Lemma canonical_drop e : canonical_ean e = true → str_drop_zeros e = e.
Proof.
  destruct e as [|c e]; [done|]. intros [_ Hz%negb_true_iff]%andb_true_iff.
  cbn [str_drop_zeros]. repeat case_match; simplify_eq; done.
Qed.

Lemma drop_zeros_pad n e : canonical_ean e = true → str_drop_zeros (str_pad_start n "0" e) = e.
Proof.
  intros He. unfold str_pad_start. generalize (n - String.length e)%nat as k.
  induction k as [|k IH]; [by apply canonical_drop|].
  assert (String.concat "" (replicate (S k) "0") +:+ e
          = String "0" (String.concat "" (replicate k "0") +:+ e)) as -> by (by destruct k).
  rewrite <- IH at 2. set (t := String.concat _ _ +:+ e).
  assert (str_forall is_digit t = true) as Ht.
  { subst t. destruct e as [|c e]; [done|]. apply andb_true_iff in He as [Hd _].
    rewrite str_forall_app, Hd, andb_true_r. clear. induction k as [|[|k] IH]; done. }
  destruct t as [|d t'] eqn:Et.
  - subst t. destruct k as [|[|]]; simpl in Et; destruct e; done.
  - simpl in Ht. apply andb_true_iff in Ht as [Hd _]. cbn [str_drop_zeros]. by rewrite Hd.
Qed.

Lemma str_drop_zeros_length s : (String.length (str_drop_zeros s) ≤ String.length s)%nat.
Proof.
  induction s as [|c s IH]; [done|]. cbn [str_drop_zeros]. destruct s as [|d s'].
  { by repeat case_match. }
  repeat case_match; simplify_eq; try done. simpl in *. lia.
Qed.

Lemma str_pad_length n s : String.length (str_pad_start n "0" s) = Nat.max n (String.length s).
Proof.
  unfold str_pad_start. rewrite str_length_app.
  assert (∀ k, String.length (String.concat "" (replicate k "0")) = k) as ->.
  { induction k as [|[|k] IH]; [done|done|].
    change (String.concat "" (replicate (S (S k)) "0"))
      with (String "0" (String.concat "" (replicate (S k) "0"))). simpl in *. lia. }
  lia.
Qed.

Lemma canonical_pos e : canonical_ean e = true → 0 < digits_val e.
Proof.
  destruct e as [|c e]; [done|]. intros [[Hc Hd]%andb_true_iff Hz]%andb_true_iff.
  unfold digits_val. simpl. rewrite Hc. apply take_digits_pos; [done|].
  unfold is_digit, in_range in Hc. apply andb_true_iff in Hc as [Hl%N.leb_le _].
  change (N_of_ascii "0") with 48%N in Hl. unfold digit_val.
  apply negb_true_iff, Ascii.eqb_neq in Hz.
  assert (N_of_ascii c ≠ 48%N); [|lia]. intros E. apply Hz.
  rewrite <- (ascii_N_embedding c), E. done.
Qed.

(** EAN canonicalisation.  A parsed EAN is a non-empty run of at most
    14 digits without leading zero; parsing is idempotent; and the
    EAN has the numeric value of the barcode's digits, so barcodes that
    differ in separators and leading zeros only share their EAN. *)
Theorem parseEan_canonical s e :
  parseEan s = Some e →
  canonical_ean e = true ∧ (String.length e ≤ 14)%nat
  ∧ parseEan (Some e) = Some e
  ∧ ∃ s', s = Some s' ∧ digits_val e = digits_val (str_filter is_digit s').
Proof.
  unfold parseEan at 1. destruct (truthy s) as [s'|] eqn:Ht; [|done]. intros H.
  destruct ((_ =? 0)%nat || _) eqn:Hlen; [done|].
  set (cl := str_filter is_digit s') in *.
  destruct (digits_val (str_pad_start 13 "0" cl) <=? 0) eqn:Hv; [done|].
  apply Z.leb_gt in Hv. apply orb_false_iff in Hlen as [Hl0 Hl14].
  apply Nat.eqb_neq in Hl0. apply Nat.ltb_ge in Hl14.
  assert (canonical_ean (str_drop_zeros (str_pad_start 13 "0" cl)) = true) as Hc.
  { apply drop_zeros_canonical; [apply str_pad_digits, str_forall_filter|done]. }
  assert (e = str_drop_zeros (str_pad_start 13 "0" cl)) as He.
  { injection H as <-. by destruct (str_drop_zeros _). }
  rewrite <- He in Hc.
  assert (String.length e ≤ 14)%nat as Hle.
  { rewrite He. etrans; [apply str_drop_zeros_length|]. rewrite str_pad_length. lia. }
  split_and!; [done|done| |].
  - unfold parseEan, truthy. destruct e as [|c e'] eqn:Ee; [done|]. rewrite <- Ee in *.
    rewrite canonical_filter by done.
    assert ((String.length e =? 0)%nat || (14 <? String.length e)%nat = false) as ->.
    { apply orb_false_iff. split; [apply Nat.eqb_neq; by rewrite Ee|by apply Nat.ltb_ge]. }
    rewrite digits_val_pad, (proj2 (Z.leb_gt _ _) (canonical_pos e Hc)).
    rewrite drop_zeros_pad by done. by rewrite Ee.
  - exists s'. split; [by destruct s as [[]|]; simplify_eq/=|].
    rewrite He, digits_val_drop_zeros, digits_val_pad. done.
Qed.

Lemma parseEan_canonical_witness :
  parseEan (Some "0-789123456-7895") = Some "7891234567895"
  ∧ parseEan (Some "7891234567895") = Some "7891234567895".
Proof.
  split; [reflexivity|].
  exact (proj1 (proj2 (proj2 (parseEan_canonical (Some "0-789123456-7895") "7891234567895"
    eq_refl)))).
Defined.

(* ------------------------------------------------------------------ *)
(** * Chunking                                                          *)
(* ------------------------------------------------------------------ *)

(** The embalagens of one EAN, and those with an EAN at all. *)
Definition ids_of (e : string) (rows : list EmbalagemRow) : list Z :=
  omap (λ r, if decide (parseEan (em_codigobarras r) = Some e) then Some (em_id r) else None) rows.

Definition valid_ids (rows : list EmbalagemRow) : list Z :=
  omap (λ r, match parseEan (em_codigobarras r) with Some _ => Some (em_id r) | None => None end)
    rows.

Lemma ids_of_app e l1 l2 : ids_of e (l1 ++ l2) = ids_of e l1 ++ ids_of e l2.
Proof. apply omap_app. Qed.

Lemma idsByEan_snoc rows r :
  idsByEan (rows ++ [r]) =
  match parseEan (em_codigobarras r) with
  | None => idsByEan rows
  | Some ean => js_map_set ean (default [] (js_map_get ean (idsByEan rows)) ++ [em_id r])
                  (idsByEan rows)
  end.
Proof.
  unfold idsByEan. rewrite foldl_app. simpl.
  destruct (parseEan _) as [e|]; [|done]. by destruct (js_map_get e _).
Qed.

Lemma idsByEan_get rows e :
  default [] (js_map_get e (idsByEan rows)) = ids_of e rows.
Proof.
  induction rows as [|r rows IH] using rev_ind; [done|].
  rewrite idsByEan_snoc, ids_of_app. simpl.
  destruct (parseEan (em_codigobarras r)) as [e'|].
  - rewrite js_map_get_set. repeat case_decide; simplify_eq/=; by rewrite ?IH, ?app_nil_r.
  - rewrite decide_False by done. by rewrite app_nil_r.
Qed.

Lemma idsByEan_keys rows e :
  e ∈ (idsByEan rows).*1 ↔ ∃ r, r ∈ rows ∧ parseEan (em_codigobarras r) = Some e.
Proof.
  revert e. induction rows as [|r rows IH] using rev_ind; intros e.
  { simpl. rewrite elem_of_nil. split; [done|]. intros (r & Hr & _). by apply elem_of_nil in Hr. }
  rewrite idsByEan_snoc. setoid_rewrite elem_of_app. setoid_rewrite list_elem_of_singleton.
  destruct (parseEan (em_codigobarras r)) as [e'|] eqn:E.
  - rewrite js_map_set_keys. case_decide as Hd.
    + rewrite IH. apply IH in Hd as (r' & Hr' & Hp'). split; [naive_solver|].
      intros (r0 & [?| ->] & ?); simplify_eq; eauto.
    + rewrite elem_of_app, IH, list_elem_of_singleton. naive_solver.
  - rewrite IH. naive_solver.
Qed.

Lemma idsByEan_NoDup rows : NoDup (idsByEan rows).*1.
Proof.
  induction rows as [|r rows IH] using rev_ind; [apply NoDup_nil_2|].
  rewrite idsByEan_snoc. destruct (parseEan _); [|done]. by apply js_map_set_NoDup.
Qed.

Lemma ids_of_cons e r rows :
  ids_of e (r :: rows)
  = (if decide (parseEan (em_codigobarras r) = Some e) then [em_id r] else []) ++ ids_of e rows.
Proof. unfold ids_of. simpl. by case_decide. Qed.

Lemma bind_ids_absent r rows (l : list string) :
  (∀ e, parseEan (em_codigobarras r) = Some e → e ∉ l) →
  (l ≫= λ e', ids_of e' (r :: rows)) = (l ≫= λ e', ids_of e' rows).
Proof.
  induction l as [|x l IHl]; [done|]. intros Hx. rewrite !bind_cons, ids_of_cons.
  rewrite decide_False by (intros E; apply (Hx _ E); left). simpl. f_equal.
  apply IHl. intros e E Hin. apply (Hx e E). by right.
Qed.

(** Grouping by EAN permutes the embalagens. *)
Lemma ids_of_perm (eans : list string) rows :
  NoDup eans → (∀ r e, r ∈ rows → parseEan (em_codigobarras r) = Some e → e ∈ eans) →
  (eans ≫= λ e, ids_of e rows) ≡ₚ valid_ids rows.
Proof.
  intros Hnd. induction rows as [|r rows IH]; intros Hall.
  { simpl. clear. induction eans as [|e eans IHe]; [done|]. by rewrite bind_cons. }
  specialize (IH ltac:(intros; eapply Hall; [by right|done])).
  pose proof (λ e, Hall r e ltac:(by left)) as Hr. clear Hall. unfold valid_ids in *.
  cbn [omap list_omap]. destruct (parseEan (em_codigobarras r)) as [e|] eqn:E.
  - rewrite <- IH. specialize (Hr e eq_refl). clear IH.
    apply list_elem_of_split in Hr as (l1 & l2 & ->).
    apply NoDup_app in Hnd as (_ & H1 & Hnd2). apply NoDup_cons in Hnd2 as [H2 _].
    rewrite !bind_app, !bind_cons.
    rewrite (bind_ids_absent r rows l2) by (intros; congruence).
    rewrite (bind_ids_absent r rows l1)
      by (intros e' E' Hin; rewrite E in E'; injection E' as <-; by apply (H1 e Hin); left).
    rewrite ids_of_cons, decide_True by done. cbn [app]. symmetry. apply Permutation_middle.
  - rewrite <- IH. by rewrite bind_ids_absent by (intros; congruence).
Qed.

Lemma chunk_slice rows batchSize slice :
  slice ∈ chunkEmbalagensByEan rows batchSize →
  ∃ eans, eans ∈ slices batchSize (idsByEan rows).*1 ∧ slice = eans ≫= λ e, ids_of e rows.
Proof.
  unfold chunkEmbalagensByEan. intros (eans & -> & Hin)%list_elem_of_fmap.
  exists eans. split; [done|]. clear Hin. induction eans as [|e eans IH]; [done|].
  by rewrite !bind_cons, IH, idsByEan_get.
Qed.

Lemma concat_bind {A B} (f : A → list B) (ls : list (list A)) :
  concat ((λ l, l ≫= f) <$> ls) = concat ls ≫= f.
Proof.
  induction ls as [|l ls IH]; [done|]. rewrite fmap_cons. cbn [concat]. by rewrite bind_app, IH.
Qed.

Lemma bind_ids_elem (eans : list string) rows id :
  id ∈ (eans ≫= λ e, ids_of e rows) ↔
  ∃ r e, r ∈ rows ∧ em_id r = id ∧ parseEan (em_codigobarras r) = Some e ∧ e ∈ eans.
Proof.
  rewrite list_elem_of_bind. unfold ids_of. setoid_rewrite list_elem_of_omap. split.
  - intros (e & (r & Hr & Hd) & He). case_decide; naive_solver.
  - intros (r & e & Hr & <- & Hp & He). exists e. split; [|done]. exists r. by rewrite decide_True.
Qed.

(** A batch: the embalagens of at most [batchSize] EANs, all of them. *)
Lemma chunk_slice_spec rows batchSize slice :
  (0 < batchSize)%nat → slice ∈ chunkEmbalagensByEan rows batchSize →
  slice ≠ []
  ∧ ∃ eans, NoDup eans ∧ (length eans ≤ batchSize)%nat
    ∧ (∀ id, id ∈ slice ↔ ∃ r e, r ∈ rows ∧ em_id r = id
                            ∧ parseEan (em_codigobarras r) = Some e ∧ e ∈ eans)
    ∧ ∀ r e, r ∈ rows → parseEan (em_codigobarras r) = Some e → e ∈ eans → em_id r ∈ slice.
Proof.
  intros Hb (eans & Hin & ->)%chunk_slice.
  pose proof (slices_bound batchSize (idsByEan rows).*1 Hb) as Hbd.
  rewrite Forall_forall in Hbd. destruct (Hbd eans Hin) as [H1 H2]. split.
  - destruct eans as [|e eans]; [simpl in H1; lia|].
    assert (e ∈ (idsByEan rows).*1) as (r & Hr & He)%idsByEan_keys.
    { apply (slices_elem batchSize); [done|]. eexists. split; [done|left]. }
    intros Hnil. assert (em_id r ∈ []) as Habs by (rewrite <- Hnil; apply bind_ids_elem; do 2 eexists;
      split_and!; [done..|left]). by apply elem_of_nil in Habs.
  - exists eans. split_and!; [|done|apply bind_ids_elem|].
    + pose proof (idsByEan_NoDup rows) as Hnd. rewrite <- (slices_concat batchSize) in Hnd by done.
      apply list_elem_of_split in Hin as (l1 & l2 & E). rewrite E in Hnd.
      rewrite concat_app in Hnd. simpl in Hnd.
      by apply NoDup_app in Hnd as (_ & _ & (? & _ & _)%NoDup_app).
    + intros r e Hr He Hee. apply bind_ids_elem. eauto 6.
Qed.

(** The batches together are the embalagens with an EAN. *)
Lemma chunk_concat rows batchSize :
  (0 < batchSize)%nat → concat (chunkEmbalagensByEan rows batchSize) ≡ₚ valid_ids rows.
Proof.
  intros Hb.
  assert (chunkEmbalagensByEan rows batchSize
          = (λ l, l ≫= λ e, ids_of e rows) <$> slices batchSize (idsByEan rows).*1) as ->.
  { unfold chunkEmbalagensByEan. apply list_fmap_ext. intros _ l _.
    induction l as [|e l IH]; [done|]. by rewrite !bind_cons, IH, idsByEan_get. }
  rewrite concat_bind, slices_concat by done. apply ids_of_perm; [apply idsByEan_NoDup|].
  intros r e Hr He. apply idsByEan_keys. eauto.
Qed.

(** Slicing by EAN.  With a positive batch size, the batches together
    hold every embalagem that has an EAN exactly once (as many times as its
    id occurs among the rows); no batch is empty or spans more than
    [batchSize] EANs; and all embalagens that share an EAN are in the same
    batch: a batch that holds one of them holds all of them. *)
Theorem chunk_by_ean rows batchSize :
  (0 < batchSize)%nat →
  concat (chunkEmbalagensByEan rows batchSize) ≡ₚ valid_ids rows
  ∧ ∀ slice, slice ∈ chunkEmbalagensByEan rows batchSize →
      slice ≠ []
      ∧ ∃ eans, NoDup eans ∧ (length eans ≤ batchSize)%nat
        ∧ (∀ id, id ∈ slice ↔ ∃ r e, r ∈ rows ∧ em_id r = id
                                ∧ parseEan (em_codigobarras r) = Some e ∧ e ∈ eans)
        ∧ ∀ r e, r ∈ rows → parseEan (em_codigobarras r) = Some e → e ∈ eans → em_id r ∈ slice.
Proof. intros Hb. split; [by apply chunk_concat|]. intros slice. by apply chunk_slice_spec. Qed.

Lemma chunk_by_ean_witness :
  let rows := [ {| em_id := 1; em_codigobarras := Some "789" |};
                {| em_id := 2; em_codigobarras := Some "790" |};
                {| em_id := 3; em_codigobarras := None |};
                {| em_id := 4; em_codigobarras := Some "0-789" |} ] in
  chunkEmbalagensByEan rows 1 = [[1; 4]; [2]]
  ∧ concat (chunkEmbalagensByEan rows 1) ≡ₚ valid_ids rows.
Proof. intros rows. split; [reflexivity|]. apply (chunk_by_ean rows 1). lia. Defined.
