(* ===== verification/Join.v ===== *)
(** The join of the two stock branches
    ([src/src/pipeline/pipeline-join.service.ts]): the ERP-stock and the
    competitor branch of a run both mark their completion, and the one that
    sees both markers fires the next step. *)

From Stdlib Require Import Ascii String.
From S2P Require Import Prelude JsText Enums Messages World RunService Logic.
Open Scope string_scope.
Open Scope list_scope.
Open Scope Z_scope.

Inductive JoinBranch := StockA | StockB.

#[export] Instance JoinBranch_eq_dec : EqDecision JoinBranch.
Proof. solve_decision. Defined.

Definition branch_str (b : JoinBranch) : string :=
  match b with StockA => "stock-a" | StockB => "stock-b" end.

(** [`branch.${branch}`] *)
Definition branch_step (b : JoinBranch) : string := "branch." +:+ branch_str b.

Inductive JoinOutcome := Wait | Fire.

#[export] Instance JoinOutcome_eq_dec : EqDecision JoinOutcome.
Proof. solve_decision. Defined.

Section Join.
Context {D : Type}.

Definition branch_row (now : Z) (tenant : string) : RunRow :=
  {| rr_tenantId := tenant; rr_status := COMPLETED; rr_attempt := 1;
     rr_batchesPlanned := None; rr_batchesDone := 0; rr_lastPublishedBatchSeq := 0;
     rr_startedAt := now; rr_finishedAt := Some now; rr_error := None |}.

(** [INSERT ... ON CONFLICT DO NOTHING] *)
Definition join_insert (now : Z) (run tenant : string) (b : JoinBranch)
    (rows : gmap RunKey RunRow) : gmap RunKey RunRow :=
  match rows !! (run, branch_step b, 0) with
  | Some _ => rows
  | None => <[(run, branch_step b, 0) := branch_row now tenant]> rows
  end.

(** [count] of the COMPLETED marker rows of the run, any batch seq. *)
Definition join_count (run : string) (rows : gmap RunKey RunRow) : nat :=
  length (filter (λ '((run', step', _), r),
    run' = run ∧ (step' = branch_step StockA ∨ step' = branch_step StockB)
    ∧ rr_status r = COMPLETED) (map_to_list rows)).

Definition join_outcome (count : nat) : JoinOutcome := if (2 <=? count)%nat then Fire else Wait.

(** [markBranchComplete]: two statements outside the tenant transaction. *)
Definition markBranchComplete (run tenant : string) (b : JoinBranch) : M D JoinOutcome :=
  now ← date_now;
  sql_write RepoConn (λ db, Build_Db (join_insert now run tenant b (db_runs db))
                              (db_outbox db) (db_data db));;
  n ← sql_read RepoConn (λ db, join_count run (db_runs db));
  mret (join_outcome n).

End Join.

(* ------------------------------------------------------------------ *)
(** * Concurrent markers                                                *)
(* ------------------------------------------------------------------ *)

(** Any number of deliveries mark branches of the same run concurrently
    (duplicates and replays included); their statements interleave. *)
Inductive JoinPc := AtInsert | AtCount | AtEnd (o : JoinOutcome).

Record JoinState := {
  js_rows : gmap RunKey RunRow;
  js_workers : list (JoinBranch * JoinPc);
}.

Section Machine.
Variables run tenant : string.

Inductive join_step : JoinState → JoinState → Prop :=
| join_do_insert rows ws i b now :
    ws !! i = Some (b, AtInsert) →
    join_step {| js_rows := rows; js_workers := ws |}
      {| js_rows := join_insert now run tenant b rows;
         js_workers := <[i := (b, AtCount)]> ws |}
| join_do_count rows ws i b :
    ws !! i = Some (b, AtCount) →
    join_step {| js_rows := rows; js_workers := ws |}
      {| js_rows := rows;
         js_workers := <[i := (b, AtEnd (join_outcome (join_count run rows)))]> ws |}
| join_do_start rows ws b :
    join_step {| js_rows := rows; js_workers := ws |}
      {| js_rows := rows; js_workers := ws ++ [(b, AtInsert)] |}.

Definition join_init (s : JoinState) : Prop :=
  js_workers s = [] ∧ ∀ step seq r, js_rows s !! (run, step, seq) = Some r →
    step ≠ branch_step StockA ∧ step ≠ branch_step StockB.

Definition marked (b : JoinBranch) (rows : gmap RunKey RunRow) : Prop :=
  ∃ r, rows !! (run, branch_step b, 0) = Some r ∧ rr_status r = COMPLETED.

(** Only seq 0 is used by marker rows, and they are COMPLETED. *)
Definition markers_ok (rows : gmap RunKey RunRow) : Prop :=
  ∀ b seq r, rows !! (run, branch_step b, seq) = Some r → seq = 0 ∧ rr_status r = COMPLETED.

Lemma branch_step_inj b b' : branch_step b = branch_step b' → b = b'.
Proof. by destruct b, b'. Qed.

(** ** Counting *)

Lemma join_count_2 rows :
  markers_ok rows → (2 ≤ join_count run rows)%nat ↔ marked StockA rows ∧ marked StockB rows.
Proof.
  intros Hok. unfold join_count.
  set (P := λ kr : RunKey * RunRow, _).
  set (l := filter P (map_to_list rows)).
  assert (NoDup l.*1) as Hnd.
  { apply NoDup_fmap_fst; [|apply NoDup_filter, NoDup_map_to_list].
    intros k r1 r2 [_ H1]%list_elem_of_filter [_ H2]%list_elem_of_filter.
    apply elem_of_map_to_list in H1, H2. congruence. }
  assert (∀ k r, (k, r) ∈ l ↔ ∃ b, k = (run, branch_step b, 0)
            ∧ rows !! (run, branch_step b, 0) = Some r ∧ rr_status r = COMPLETED) as Hl.
  { intros [[run' step'] seq] r. unfold l. rewrite list_elem_of_filter, elem_of_map_to_list.
    unfold P. split.
    - intros [(-> & Hs & Hc) Hr]. destruct Hs as [-> | ->]; [exists StockA|exists StockB];
        destruct (Hok _ _ _ Hr) as [-> _]; eauto.
    - intros (b & [= -> -> ->] & Hr & Hc). split; [|done]. split_and!; [done| |done].
      destruct b; auto. }
  assert (∀ k, k ∈ l.*1 ↔ ∃ b, k = (run, branch_step b, 0) ∧ marked b rows) as Hk.
  { intros k. rewrite list_elem_of_fmap. split.
    - intros ([k' r] & -> & Hin). apply Hl in Hin as (b & -> & Hr & Hc).
      exists b. split; [done|]. by exists r.
    - intros (b & -> & r & Hr & Hc). exists ((run, branch_step b, 0), r).
      split; [done|]. apply Hl. eauto. }
  rewrite <- (length_fmap fst l). revert Hnd Hk. generalize (l.*1) as ks. clear. intros ks Hnd Hk.
  split.
  - destruct ks as [|k1 [|k2 ks]]; simpl; [lia..|]. intros _.
    apply NoDup_cons in Hnd as [H1 _]. rewrite elem_of_cons in H1.
    destruct (proj1 (Hk k1) ltac:(left)) as ([] & -> & M1);
    destruct (proj1 (Hk k2) ltac:(right; left)) as ([] & -> & M2); naive_solver.
  - intros [MA MB].
    assert ((run, branch_step StockA, 0) ∈ ks) as HA by (apply Hk; eauto).
    assert ((run, branch_step StockB, 0) ∈ ks) as HB by (apply Hk; eauto).
    destruct ks as [|k1 [|k2 ks]]; simpl; [by apply elem_of_nil in HA| |lia].
    apply list_elem_of_singleton in HA, HB. by subst.
Qed.

Lemma join_outcome_fire rows :
  markers_ok rows →
  join_outcome (join_count run rows) = Fire ↔ marked StockA rows ∧ marked StockB rows.
Proof.
  intros Hok. rewrite <- join_count_2 by done. unfold join_outcome.
  destruct (2 <=? _)%nat eqn:E; [apply Nat.leb_le in E|apply Nat.leb_gt in E]; split; (done || lia).
Qed.

(** ** The invariant *)

Definition has (ws : list (JoinBranch * JoinPc)) (b : JoinBranch) (pc : JoinPc) : Prop :=
  ∃ i, ws !! i = Some (b, pc).

Record JoinInv (s : JoinState) : Prop := {
  ji_ok : markers_ok (js_rows s);
  ji_marked : ∀ b, marked b (js_rows s) ↔ ∃ pc, has (js_workers s) b pc ∧ pc ≠ AtInsert;
  ji_fire : ∀ b, has (js_workers s) b (AtEnd Fire) →
    marked StockA (js_rows s) ∧ marked StockB (js_rows s);
  ji_progress : marked StockA (js_rows s) → marked StockB (js_rows s) →
    ∃ b, has (js_workers s) b AtCount ∨ has (js_workers s) b (AtEnd Fire);
}.

Lemma marked_insert now b b' rows :
  markers_ok rows → marked b' (join_insert now run tenant b rows) ↔ b' = b ∨ marked b' rows.
Proof.
  intros Hok. unfold join_insert, marked.
  destruct (rows !! (run, branch_step b, 0)) as [r|] eqn:E.
  - split; [eauto|]. intros [->|]; [|done]. exists r. split; [done|]. by apply (Hok b 0 r).
  - destruct (decide (b' = b)) as [->|Hne].
    + rewrite lookup_insert_eq. naive_solver.
    + rewrite lookup_insert_ne by (intros H; by apply Hne, branch_step_inj, (f_equal (λ k : RunKey, k.1.2) (eq_sym H))).
      naive_solver.
Qed.

Lemma markers_insert now b rows : markers_ok rows → markers_ok (join_insert now run tenant b rows).
Proof.
  intros Hok. unfold join_insert.
  destruct (rows !! (run, branch_step b, 0)) eqn:E; [done|]. intros b' seq r.
  destruct (decide ((run, branch_step b', seq) = (run, branch_step b, 0))) as [Heq|Hn].
  - rewrite Heq, lookup_insert_eq. injection Heq as _ ->. by intros [= <-].
  - rewrite lookup_insert_ne by congruence. apply Hok.
Qed.

Lemma has_insert ws i b pc0 pc b' pc' :
  ws !! i = Some (b, pc0) →
  has (<[i := (b, pc)]> ws) b' pc' ↔
  (b' = b ∧ pc' = pc) ∨ ∃ j, j ≠ i ∧ ws !! j = Some (b', pc').
Proof.
  intros Hi. assert (i < length ws)%nat as Hlt by (by eapply lookup_lt_Some).
  unfold has. split.
  - intros [j Hj]. destruct (decide (j = i)) as [->|Hne].
    + rewrite list_lookup_insert_eq in Hj by done. left. by simplify_eq.
    + rewrite list_lookup_insert_ne in Hj by done. right. eauto.
  - intros [[-> ->]|(j & Hne & Hj)].
    + exists i. by rewrite list_lookup_insert_eq.
    + exists j. by rewrite list_lookup_insert_ne.
Qed.

Lemma has_other ws i b pc0 b' pc' :
  ws !! i = Some (b, pc0) → pc' ≠ pc0 → has ws b' pc' → ∃ j, j ≠ i ∧ ws !! j = Some (b', pc').
Proof. intros Hi Hne [j Hj]. exists j. split; [|done]. intros ->. naive_solver. Qed.

Lemma join_inv_init s : join_init s → JoinInv s.
Proof.
  destruct s as [rows ws]. unfold join_init. simpl. intros [-> H].
  assert (∀ b, ¬ marked b rows) as Hn.
  { intros b (r & Hr & _). destruct (H _ _ _ Hr), b; done. }
  split; simpl; unfold has.
  - intros b seq r Hr. destruct (H _ _ _ Hr), b; done.
  - intros b. split; [by intros ?%Hn|]. by intros (pc & [i Hi] & _).
  - by intros b [i Hi].
  - by intros ?%Hn.
Qed.

Lemma join_inv_step s s' : JoinInv s → join_step s s' → JoinInv s'.
Proof.
  intros [Hok Hm Hf Hp] Hs. destruct Hs as [rows ws i b now Hi|rows ws i b Hi|rows ws b];
    simpl in *.
  - assert (∀ b' pc, has (<[i:=(b, AtCount)]> ws) b' pc ↔
      (b' = b ∧ pc = AtCount) ∨ ∃ j, j ≠ i ∧ ws !! j = Some (b', pc)) as Hh
      by (intros; by eapply has_insert).
    split; simpl.
    + by apply markers_insert.
    + intros b'. rewrite marked_insert, Hm by done. setoid_rewrite Hh. split.
      * intros [->|(pc & Hhas & Hne)]; [eauto 6|]. exists pc. split; [|done]. right.
        by apply (has_other ws i b AtInsert b' pc).
      * intros (pc & [[-> ->]|(j & Hj & Hw)] & Hne); [by left|]. right. exists pc.
        split; [by exists j|done].
    + intros b'. rewrite Hh. intros [[_ [=]]|(j & Hj & Hw)]. rewrite !marked_insert by done.
      destruct (Hf b') as [? ?]; [by exists j|]. auto.
    + intros _ _. exists b. left. apply Hh. by left.
  - set (o := join_outcome (join_count run rows)).
    assert (∀ b' pc, has (<[i:=(b, AtEnd o)]> ws) b' pc ↔
      (b' = b ∧ pc = AtEnd o) ∨ ∃ j, j ≠ i ∧ ws !! j = Some (b', pc)) as Hh
      by (intros; by eapply has_insert).
    pose proof (join_outcome_fire rows Hok) as Ho. fold o in Ho.
    split; simpl; [done|..].
    + intros b'. rewrite Hm. setoid_rewrite Hh. split.
      * intros (pc & [j Hj] & Hne). destruct (decide (j = i)) as [->|Hji].
        -- exists (AtEnd o). simplify_eq. auto.
        -- exists pc. split; [right; eauto|done].
      * intros (pc & [[-> ->]|(j & Hj & Hw)] & Hne).
        -- exists AtCount. split; [by exists i|done].
        -- exists pc. split; [by exists j|done].
    + intros b'. rewrite Hh. intros [[_ [= E]]|(j & Hj & Hw)]; [by apply Ho|].
      apply (Hf b'). by exists j.
    + intros MA MB. exists b. right. apply Hh. left. split; [done|]. f_equal. symmetry.
      apply Ho. by split.
  - assert (∀ b' pc, has (ws ++ [(b, AtInsert)]) b' pc ↔ (b' = b ∧ pc = AtInsert) ∨ has ws b' pc)
      as Hh.
    { intros b' pc. unfold has. split.
      - intros [j Hj]. apply lookup_app_Some in Hj as [Hj|[_ Hj]]; [eauto|].
        apply list_lookup_singleton_Some in Hj as [_ [= -> ->]]. auto.
      - intros [[-> ->]|[j Hj]].
        + exists (length ws). by rewrite lookup_app_r, Nat.sub_diag by done.
        + exists j. by apply lookup_app_l_Some. }
    split; simpl; [done|..].
    + intros b'. rewrite Hm. setoid_rewrite Hh. naive_solver.
    + intros b'. rewrite Hh. intros [[_ [=]]|?]; eauto.
    + intros MA MB. destruct (Hp MA MB) as (b' & [H|H]); exists b'; rewrite !Hh; auto.
Qed.

Lemma join_inv_reach s s' : join_init s → rtc join_step s s' → JoinInv s'.
Proof.
  intros Hi Hr. apply join_inv_init in Hi. induction Hr; [done|].
  eauto using join_inv_step.
Qed.

End Machine.


