(* ===== verification/FanIn.v ===== *)
(** The fan-in counter under concurrency.

    Any number of batch workers, dispatch restarts and failure handlers of
    one (run, step) interleave.  A transition is one committed statement of
    [PipelineRunService] on the rows; nothing is assumed about which worker
    issues it or how stale its view is.  The ghost counter [fs_undone] counts
    the statements that took a batch row out of COMPLETED: [fail] of a
    delivery whose commit had succeeded, or the RUNNING update of a delivery
    whose check was stale. *)

From Stdlib Require Import Ascii String.
From S2P Require Import Prelude JsText Enums Messages World RunService.
Open Scope string_scope.
Open Scope list_scope.
Open Scope Z_scope.

Section FanIn.
Variables run stp : string.
Implicit Types (k : RunKey) (r d : RunRow) (rows : gmap RunKey RunRow) (seq : Z).

Definition bkey (seq : Z) : RunKey := (run, stp, seq).

Record FanState := { fs_rows : gmap RunKey RunRow; fs_undone : nat }.

Definition row_completed (seq : Z) (rows : gmap RunKey RunRow) : bool :=
  batch_completed run stp seq rows.

(** The ghost after a statement that rewrites the row of batch [seq]. *)
Definition undo (seq : Z) (s : FanState) : nat :=
  if row_completed seq (fs_rows s) then S (fs_undone s) else fs_undone s.

Inductive fan_step : FanState → option BatchIncrement → FanState → Prop :=
(** [start]: the UPDATE of an existing batch row, or the INSERT of a new one *)
| fan_start s seq now tenant att :
    0 < seq →
    fan_step s None
      {| fs_rows := alter (upd_start now tenant att) (bkey seq) (fs_rows s);
         fs_undone := undo seq s |}
| fan_insert s seq now tenant att :
    0 < seq → fs_rows s !! bkey seq = None →
    fan_step s None
      {| fs_rows := <[bkey seq := new_row now tenant att]> (fs_rows s); fs_undone := fs_undone s |}
(** [fail] of a batch delivery *)
| fan_fail s seq now error :
    0 < seq →
    fan_step s None
      {| fs_rows := alter (upd_fail now error) (bkey seq) (fs_rows s); fs_undone := undo seq s |}
(** the commit of a batch transaction; without a dispatch row it throws and
    rolls back *)
| fan_commit s seq now rows' inc :
    0 < seq →
    completeBatchAndIncrement_db now run stp seq (fs_rows s) = (rows', Some inc) →
    fan_step s (Some inc) {| fs_rows := rows'; fs_undone := fs_undone s |}
(** the dispatcher: first insert, restart, plan, checkpoint, complete, fail *)
| fan_dispatch_insert s now tenant att :
    fs_rows s !! bkey DISPATCH_BATCH_SEQ = None →
    fan_step s None
      {| fs_rows := <[bkey DISPATCH_BATCH_SEQ := new_row now tenant att]> (fs_rows s);
         fs_undone := fs_undone s |}
| fan_dispatch_update s f :
    (∀ r, rr_batchesDone (f r) = rr_batchesDone r) →
    fan_step s None
      {| fs_rows := alter f (bkey DISPATCH_BATCH_SEQ) (fs_rows s); fs_undone := fs_undone s |}
(** anything on the rows of other steps and runs *)
| fan_other s k o :
    k.1 ≠ (run, stp) →
    fan_step s None
      {| fs_rows := partial_alter (λ _, o) k (fs_rows s); fs_undone := fs_undone s |}.

Inductive fan_reach : FanState → Prop :=
| fan_init rows :
    (∀ seq, rows !! bkey seq = None) → fan_reach {| fs_rows := rows; fs_undone := 0 |}
| fan_next s o s' : fan_reach s → fan_step s o s' → fan_reach s'.

(* ------------------------------------------------------------------ *)
(** * Counting completed batches                                        *)
(* ------------------------------------------------------------------ *)

Definition completed (rows : gmap RunKey RunRow) : list Z := completed_seqs run stp rows.

Definition counts (seq : Z) (r : RunRow) : list Z :=
  if decide (rr_status r = COMPLETED ∧ 0 < seq) then [seq] else [].

Lemma completed_elem (seq : Z) (rows : gmap RunKey RunRow) :
  seq ∈ completed rows ↔ 0 < seq ∧ rr_status <$> rows !! bkey seq = Some COMPLETED.
Proof.
  unfold completed, completed_seqs. rewrite list_elem_of_omap. split.
  - intros ([[[r s] q] row] & Hin & Hd). apply elem_of_map_to_list in Hin.
    case_decide as Hc; [|done]. destruct Hc as (-> & -> & Hst & Hpos). simplify_eq.
    unfold bkey. rewrite Hin. simpl. by rewrite Hst.
  - intros (Hpos & Hst). apply fmap_Some in Hst as (row & Hrow & Hst).
    exists (bkey seq, row). rewrite elem_of_map_to_list. split; [done|].
    simpl. by rewrite decide_True.
Qed.

Lemma completed_insert_fresh k r (rows : gmap RunKey RunRow) :
  rows !! k = None →
  completed (<[k := r]> rows)
  ≡ₚ (if decide (k.1 = (run, stp)) then counts k.2 r else []) ++ completed rows.
Proof.
  intros Hk. unfold completed, completed_seqs. rewrite map_to_list_insert by done. simpl.
  destruct k as [[run' step'] seq]. simpl. unfold counts, DISPATCH_BATCH_SEQ.
  repeat case_decide; simplify_eq; try done; exfalso; naive_solver.
Qed.

Lemma completed_split k r (rows : gmap RunKey RunRow) :
  rows !! k = Some r →
  completed rows
  ≡ₚ (if decide (k.1 = (run, stp)) then counts k.2 r else []) ++ completed (delete k rows).
Proof.
  intros Hk. rewrite <- (insert_delete_id rows k r Hk) at 1.
  by rewrite completed_insert_fresh by apply lookup_delete_eq.
Qed.

Lemma completed_insert k r (rows : gmap RunKey RunRow) :
  completed (<[k := r]> rows)
  ≡ₚ (if decide (k.1 = (run, stp)) then counts k.2 r else []) ++ completed (delete k rows).
Proof.
  rewrite <- insert_delete_eq. by rewrite completed_insert_fresh by apply lookup_delete_eq.
Qed.

Lemma counts_not_completed seq r : rr_status r ≠ COMPLETED → counts seq r = [].
Proof. intros. unfold counts. by rewrite decide_False by naive_solver. Qed.

Lemma counts_dispatch r : counts DISPATCH_BATCH_SEQ r = [].
Proof. unfold counts, DISPATCH_BATCH_SEQ. by rewrite decide_False by lia. Qed.

Lemma alter_absent f k rows : rows !! k = None → alter f k rows = rows.
Proof.
  intros E. apply map_eq. intros k'. destruct (decide (k' = k)) as [->|Hne].
  - by rewrite lookup_alter_eq, E.
  - by rewrite lookup_alter_ne.
Qed.

Lemma alter_present f k r rows : rows !! k = Some r → alter f k rows = <[k := f r]> rows.
Proof.
  intros E. apply map_eq. intros k'. destruct (decide (k' = k)) as [->|Hne].
  - by rewrite lookup_alter_eq, lookup_insert_eq, E.
  - by rewrite lookup_alter_ne, lookup_insert_ne.
Qed.

(** ** The invariant *)

Definition fan_inv (s : FanState) : Prop :=
  match fs_rows s !! bkey DISPATCH_BATCH_SEQ with
  | Some d => rr_batchesDone d = Z.of_nat (length (completed (fs_rows s)) + fs_undone s)
  | None => completed (fs_rows s) = [] ∧ fs_undone s = 0%nat
  end.

Lemma bkey_ne seq : 0 < seq → bkey seq ≠ bkey DISPATCH_BATCH_SEQ.
Proof. unfold bkey, DISPATCH_BATCH_SEQ. intros ? [=]. lia. Qed.

(** Rewriting a batch row to a status other than COMPLETED. *)
Lemma completed_rewrite seq f rows :
  0 < seq → (∀ r, rr_status (f r) ≠ COMPLETED) →
  length (completed rows)
  = (length (completed (alter f (bkey seq) rows))
     + if row_completed seq rows then 1 else 0)%nat.
Proof.
  intros Hseq Hf. unfold row_completed, batch_completed. fold (bkey seq).
  destruct (rows !! bkey seq) as [r|] eqn:E.
  - rewrite (alter_present f _ r) by done.
    rewrite completed_insert, (completed_split _ _ _ E). rewrite !decide_True by done. simpl.
    rewrite (counts_not_completed _ (f r)) by done. rewrite !length_app. simpl.
    unfold counts. repeat case_decide; case_bool_decide; simpl; try lia; naive_solver.
  - rewrite alter_absent by done. simpl. lia.
Qed.

Lemma completed_dispatch_insert d rows :
  rows !! bkey DISPATCH_BATCH_SEQ = None →
  completed (<[bkey DISPATCH_BATCH_SEQ := d]> rows) ≡ₚ completed rows.
Proof.
  intros E. rewrite completed_insert_fresh by done. rewrite decide_True by done. simpl.
  by rewrite counts_dispatch.
Qed.

Lemma completed_dispatch_update d d' rows :
  rows !! bkey DISPATCH_BATCH_SEQ = Some d →
  completed (<[bkey DISPATCH_BATCH_SEQ := d']> rows) ≡ₚ completed rows.
Proof.
  intros E. rewrite completed_insert, (completed_split _ _ _ E). rewrite !decide_True by done.
  simpl. by rewrite !counts_dispatch.
Qed.

Lemma completed_other k o rows :
  k.1 ≠ (run, stp) → completed (partial_alter (λ _, o) k rows) ≡ₚ completed rows.
Proof.
  intros Hk.
  assert (completed rows ≡ₚ completed (delete k rows)) as ->.
  { destruct (rows !! k) as [r|] eqn:E; [|by rewrite delete_id].
    rewrite (completed_split _ _ _ E). by rewrite decide_False. }
  destruct o as [r|].
  - assert (partial_alter (λ _, Some r) k rows = <[k := r]> (delete k rows)) as ->
      by (by rewrite insert_delete_eq).
    rewrite completed_insert_fresh by apply lookup_delete_eq. by rewrite decide_False.
  - done.
Qed.

Lemma completed_complete seq now r rows :
  0 < seq → rows !! bkey seq = Some r → rr_status r = RUNNING →
  completed (<[bkey seq := upd_complete now r]> rows) ≡ₚ seq :: completed rows.
Proof.
  intros Hseq E Hr. rewrite completed_insert, (completed_split _ _ _ E).
  rewrite !decide_True by done. simpl. rewrite (counts_not_completed _ r) by congruence.
  unfold counts. by rewrite decide_True.
Qed.

(** What a successful commit did. *)
Lemma commit_spec seq now rows rows' inc :
  0 < seq → completeBatchAndIncrement_db now run stp seq rows = (rows', Some inc) →
  ∃ d n, rows !! bkey DISPATCH_BATCH_SEQ = Some d
  ∧ rows' !! bkey DISPATCH_BATCH_SEQ = Some (upd_done (Z.of_nat n) d)
  ∧ length (completed rows') = (length (completed rows) + n)%nat
  ∧ inc = {| inc_done := rr_batchesDone d + Z.of_nat n;
             inc_planned := default 0 (rr_batchesPlanned d);
             inc_isLast := (0 <? default 0 (rr_batchesPlanned d))
                           && (default 0 (rr_batchesPlanned d) <=? rr_batchesDone d + Z.of_nat n) |}.
Proof.
  intros Hseq. unfold completeBatchAndIncrement_db. fold (bkey seq) (bkey DISPATCH_BATCH_SEQ).
  pose proof (bkey_ne seq Hseq) as Hne.
  destruct (rows !! bkey seq) as [r|] eqn:Er; [destruct (decide (rr_status r = RUNNING)) as [Hr|Hr]|].
  - rewrite lookup_insert_ne by done.
    destruct (rows !! bkey DISPATCH_BATCH_SEQ) as [d|] eqn:Ed; [|done].
    intros [= <- <-]. exists d, 1%nat. split_and!; [done|by rewrite lookup_insert_eq| |done].
    rewrite (completed_dispatch_update d) by (by rewrite lookup_insert_ne).
    rewrite completed_complete by done. simpl. lia.
  - destruct (rows !! bkey DISPATCH_BATCH_SEQ) as [d|] eqn:Ed; [|done].
    intros [= <- <-]. exists d, 0%nat. split_and!; [done|by rewrite lookup_insert_eq| |done].
    rewrite (completed_dispatch_update d) by done. lia.
  - destruct (rows !! bkey DISPATCH_BATCH_SEQ) as [d|] eqn:Ed; [|done].
    intros [= <- <-]. exists d, 0%nat. split_and!; [done|by rewrite lookup_insert_eq| |done].
    rewrite (completed_dispatch_update d) by done. lia.
Qed.

Lemma completed_nil_length rows : completed rows = [] ↔ length (completed rows) = 0%nat.
Proof. symmetry. apply length_zero_iff_nil. Qed.

Lemma fan_inv_init rows : (∀ seq, rows !! bkey seq = None) →
  fan_inv {| fs_rows := rows; fs_undone := 0 |}.
Proof.
  intros H. unfold fan_inv. simpl. rewrite H. split; [|done].
  destruct (completed rows) as [|seq l] eqn:E; [done|].
  assert (seq ∈ completed rows) as [_ Hc]%completed_elem by (rewrite E; left). by rewrite H in Hc.
Qed.

(** A statement that rewrites a batch row, whatever its status was. *)
Lemma fan_inv_rewrite s seq f :
  0 < seq → (∀ r, rr_status (f r) ≠ COMPLETED) → fan_inv s →
  fan_inv {| fs_rows := alter f (bkey seq) (fs_rows s); fs_undone := undo seq s |}.
Proof.
  intros Hseq Hf Hi. unfold fan_inv in *. simpl.
  rewrite lookup_alter_ne by (by apply bkey_ne).
  pose proof (completed_rewrite seq f (fs_rows s) Hseq Hf) as Hc. unfold undo.
  destruct (fs_rows s !! bkey DISPATCH_BATCH_SEQ) as [d|].
  - rewrite Hi, Hc. destruct (row_completed seq (fs_rows s)); lia.
  - destruct Hi as [Hn Hu]. rewrite completed_nil_length in *.
    destruct (row_completed seq (fs_rows s)); lia.
Qed.

Lemma fan_inv_step s o s' : fan_inv s → fan_step s o s' → fan_inv s'.
Proof.
  intros Hi. destruct 1 as [s seq now t att Hs|s seq now t att Hs Hn|s seq now err Hs
    |s seq now rows' inc Hs Hc|s now t att Hn|s f Hf|s k o Hk].
  - by apply fan_inv_rewrite.
  - unfold fan_inv in *. simpl. rewrite lookup_insert_ne by (by apply bkey_ne).
    assert (length (completed (<[bkey seq := new_row now t att]> (fs_rows s)))
            = length (completed (fs_rows s))) as Hl.
    { by rewrite completed_insert_fresh, decide_True, counts_not_completed by done. }
    destruct (fs_rows s !! bkey DISPATCH_BATCH_SEQ); [by rewrite Hl|].
    rewrite completed_nil_length in *. by rewrite Hl.
  - by apply fan_inv_rewrite.
  - destruct (commit_spec seq now _ _ _ Hs Hc) as (d & n & Ed & Ed' & Hl & _).
    unfold fan_inv in *. simpl. rewrite Ed in Hi. rewrite Ed', Hl. simpl. lia.
  - unfold fan_inv in *. simpl. rewrite lookup_insert_eq. simpl. rewrite Hn in Hi.
    rewrite completed_dispatch_insert by done. destruct Hi as [-> ->]. done.
  - unfold fan_inv in *. simpl. rewrite lookup_alter_eq.
    destruct (fs_rows s !! bkey DISPATCH_BATCH_SEQ) as [d|] eqn:Ed; simpl.
    + rewrite Hf. rewrite Hi. f_equal. f_equal.
      rewrite (alter_present f _ d) by done.
      by rewrite (completed_dispatch_update d) by done.
    + by rewrite alter_absent.
  - unfold fan_inv in *. simpl.
    assert (length (completed (partial_alter (λ _, o) k (fs_rows s)))
            = length (completed (fs_rows s))) as Hl by (by rewrite completed_other).
    rewrite lookup_partial_alter_ne by (intros ->; by apply Hk).
    destruct (fs_rows s !! bkey DISPATCH_BATCH_SEQ); [by rewrite Hl|].
    rewrite completed_nil_length in *. by rewrite Hl.
Qed.

Lemma fan_reach_inv s : fan_reach s → fan_inv s.
Proof. induction 1; [by apply fan_inv_init|by eapply fan_inv_step]. Qed.

Lemma completed_NoDup rows : NoDup (completed rows).
Proof.
  unfold completed, completed_seqs.
  assert (NoDup (map_to_list rows).*1) as Hnd by apply NoDup_fst_map_to_list.
  revert Hnd. generalize (map_to_list rows) as l. clear.
  induction l as [|[[[r0 s0] q] row] l IH]; simpl; [intros; apply NoDup_nil_2|].
  intros [Hni Hnd]%NoDup_cons. specialize (IH Hnd).
  case_decide as Hc; [|done]. destruct Hc as (-> & -> & _). apply NoDup_cons. split; [|done].
  rewrite list_elem_of_omap. intros ([[[r1 s1] q1] row1] & Hin & Hd).
  case_decide as Hc; [|done]. destruct Hc as (-> & -> & _). simplify_eq.
  apply Hni. change (bkey q ∈ l.*1). apply list_elem_of_fmap. by exists (bkey q, row1).
Qed.

(** [n] distinct completed seqs in [1..n] are all of them. *)
Lemma all_completed rows (n : nat) :
  (∀ seq, seq ∈ completed rows → seq <= Z.of_nat n) → (n ≤ length (completed rows))%nat →
  ∀ seq, 1 <= seq <= Z.of_nat n → seq ∈ completed rows.
Proof.
  intros Hle Hlen seq Hseq.
  assert (completed rows ⊆+ (Z.of_nat <$> List.seq 1 n)) as Hsub.
  { apply NoDup_submseteq; [apply completed_NoDup|]. intros x Hx. specialize (Hle x Hx).
    apply completed_elem in Hx as [Hpos _]. apply list_elem_of_fmap. exists (Z.to_nat x).
    rewrite elem_of_seq. lia. }
  apply submseteq_length_Permutation in Hsub; [|by rewrite length_fmap, length_seq].
  rewrite Hsub. apply list_elem_of_fmap. exists (Z.to_nat seq). rewrite elem_of_seq. lia.
Qed.

End FanIn.

(** [C3] The fan-in counter, under every interleaving of workers, restarts
    and failures of a run's step: in every reachable state [batches_done] is
    the number of COMPLETED batches plus the number of times a COMPLETED row
    was overwritten.  Hence, for a commit that returns [inc]: (1) if no
    COMPLETED row was ever overwritten and the batches are 1..planned, the
    commit reports [isLast] only if all planned batches are COMPLETED; and
    (2) always, a commit that leaves all planned batches COMPLETED reports
    [isLast], so the next step is staged at least once. *)
Theorem fanin_counts_completed run stp s seq now rows' inc (n : nat) d :
  fan_reach run stp s → 0 < seq →
  completeBatchAndIncrement_db now run stp seq (fs_rows s) = (rows', Some inc) →
  rows' !! (run, stp, DISPATCH_BATCH_SEQ) = Some d → rr_batchesPlanned d = Some (Z.of_nat n) →
  rr_batchesDone d = Z.of_nat (length (completed_seqs run stp rows') + fs_undone s)
  ∧ (fs_undone s = 0%nat → (∀ q, q ∈ completed_seqs run stp rows' → q <= Z.of_nat n) →
     inc_isLast inc = true →
     ∀ q, 1 <= q <= Z.of_nat n → batch_completed run stp q rows' = true)
  ∧ ((0 < n)%nat → (∀ q, 1 <= q <= Z.of_nat n → batch_completed run stp q rows' = true) →
     inc_isLast inc = true).
Proof.
  intros Hr Hs Hc Hd Hp.
  assert (fan_reach run stp {| fs_rows := rows'; fs_undone := fs_undone s |}) as Hr'
    by (eapply fan_next; [done|by eapply fan_commit]).
  pose proof (fan_reach_inv run stp _ Hr') as Hi. unfold fan_inv, bkey in Hi. simpl in Hi.
  rewrite Hd in Hi.
  destruct (commit_spec run stp seq now _ _ _ Hs Hc) as (d0 & k & Ed0 & Ed & _ & ->).
  unfold bkey in Ed. rewrite Hd in Ed. injection Ed as ->. simpl in Hp, Hi. rewrite Hp. simpl.
  assert (∀ q, q ∈ completed run stp rows' ↔ 0 < q ∧ batch_completed run stp q rows' = true) as Hel.
  { intros q. rewrite completed_elem. unfold batch_completed, bkey.
    destruct (rows' !! (run, stp, q)) as [r|]; simpl.
    - rewrite bool_decide_eq_true. split; intros [? ?]; (split; [done|congruence]).
    - split; by intros []. }
  split_and!; [done| |].
  - intros Hu Hle [_ Hl%Z.leb_le]%andb_true_iff q Hq. apply Hel, (all_completed run stp rows' n);
      [done|unfold completed in *; lia|done].
  - intros Hn Hall. apply andb_true_iff. split; [apply Z.ltb_lt; lia|]. apply Z.leb_le.
    assert ((Z.of_nat <$> List.seq 1 n) ⊆+ completed run stp rows') as Hsub%submseteq_length.
    { apply NoDup_submseteq; [apply NoDup_fmap; [apply _|apply NoDup_seq]|].
      intros x (i & -> & Hi2)%list_elem_of_fmap. rewrite elem_of_seq in Hi2.
      apply Hel. split; [lia|]. apply Hall. lia. }
    rewrite length_fmap, length_seq in Hsub. unfold completed in *. lia.
Qed.

Lemma pair_snd {A B} (p : A * B) (b : B) : p.2 = b → p = (p.1, b).
Proof. intros <-. apply surjective_pairing. Qed.

(** One dispatch row, a plan of two batches, both started, the first
    committed: the commit of the second reports [isLast]. *)
Lemma fanin_counts_completed_witness :
  ∃ s, fan_reach "r" "st" s
  ∧ ∃ rows' inc, completeBatchAndIncrement_db 50 "r" "st" 2 (fs_rows s) = (rows', Some inc)
  ∧ (inc_isLast inc = true → ∀ q, 1 <= q <= 2 → batch_completed "r" "st" q rows' = true)
  ∧ inc_isLast inc = true.
Proof.
  set (k q := ("r", "st", q) : RunKey).
  set (r0 := <[k 0 := new_row 1 "t" 1]> (∅ : gmap RunKey RunRow)).
  set (r1 := alter (upd_planned 2) (k 0) r0).
  set (r2 := <[k 1 := new_row 2 "t" 1]> r1).
  set (r3 := <[k 2 := new_row 3 "t" 1]> r2).
  set (c := completeBatchAndIncrement_db 40 "r" "st" 1 r3).
  assert (fan_reach "r" "st" {| fs_rows := c.1; fs_undone := 0 |}) as Hr.
  { eapply fan_next.
    2: { apply (fan_commit "r" "st" {| fs_rows := r3; fs_undone := 0 |} 1 40 c.1
           {| inc_done := 1; inc_planned := 2; inc_isLast := false |}); [lia|].
         apply pair_snd. vm_compute. reflexivity. }
    eapply fan_next; [|by apply (fan_insert "r" "st" {| fs_rows := r2; fs_undone := 0 |} 2 3 "t" 1)].
    eapply fan_next; [|by apply (fan_insert "r" "st" {| fs_rows := r1; fs_undone := 0 |} 1 2 "t" 1)].
    eapply fan_next; [|by apply (fan_dispatch_update "r" "st" {| fs_rows := r0; fs_undone := 0 |}
                                   (upd_planned 2))].
    eapply fan_next; [|by apply (fan_dispatch_insert "r" "st" {| fs_rows := ∅; fs_undone := 0 |}
                                   1 "t" 1)].
    by apply fan_init. }
  exists {| fs_rows := c.1; fs_undone := 0 |}. split; [done|]. simpl.
  set (c2 := completeBatchAndIncrement_db 50 "r" "st" 2 c.1).
  exists c2.1, {| inc_done := 2; inc_planned := 2; inc_isLast := true |}.
  assert (c2 = (c2.1, Some {| inc_done := 2; inc_planned := 2; inc_isLast := true |})) as Hc
    by (apply pair_snd; vm_compute; reflexivity).
  split_and!; [exact Hc| |done].
  destruct (fanin_counts_completed "r" "st" {| fs_rows := c.1; fs_undone := 0 |} 2 50 c2.1
    {| inc_done := 2; inc_planned := 2; inc_isLast := true |} 2
    (upd_done 2 (upd_planned 2 (new_row 1 "t" 1)))) as (_ & H & _);
    [done|lia|exact Hc|vm_compute; reflexivity|reflexivity|].
  intros Hl. apply H; [reflexivity| |exact Hl].
  assert (completed_seqs "r" "st" c2.1 = [1; 2]) as -> by (vm_compute; reflexivity).
  intros q [->|[->|Hq]%elem_of_cons]%elem_of_cons; [lia..|].
  by apply elem_of_nil in Hq.
Defined.
