(* ===== verification/PipelineConsumers.v ===== *)
(** The concrete consumers of the daily pipeline and of the on-demand steps
    ([src/src/pipeline/consumers]): what each dispatcher emits, what each
    batch does, and which step comes next.

    The bodies of the steps ([*.step.ts]) and the repository queries are
    behind the interface [StepImpls]; [StepImplsLaws] states what the
    consumers rely on: they run on the tenant transaction. *)

From Stdlib Require Import Ascii String.
From S2P Require Import Prelude JsText Enums Messages World RunService Outbox Consumers Logic Chunker Join BatchLaws.
Open Scope string_scope.
Open Scope list_scope.
Open Scope Z_scope.

Definition SYNC_BATCH_SIZE : nat := 500.
Definition APPLY_BATCH_SIZE : nat := 50.

Class StepImpls (D I : Type) := {
  si_syncBaseProduct : option I → list Z → M D unit;
  si_syncBaseProductStock : option I → list Z → M D unit;
  si_importCompetitorProducts : string → CompetitorOrigin → list string → M D unit;
  si_calcBaseProductMetrics : string → list string → M D unit;
  si_updateBaseProductProperties : PropertiesPass → list string → M D unit;
  si_syncProductItems : option I → list string → list StoreRef → M D unit;
  si_syncStores : option I → string → M D unit;
  si_syncOfferBooksInfo : option I → M D unit;
  si_applyPrice : string → string → Z → M D unit;
  si_executeOfferBookRule : string → string → M D unit;
  (** repository queries of the dispatchers *)
  si_findAllValidWithBarcode : I → M D (list EmbalagemRow);
  si_findAllEans : M D (list string);
  si_findEansMissing : PropertiesPass → M D (list string);
  si_findEnabledOrigins : string → M D (list CompetitorOrigin);
  si_resolveTenantId : string → M D string;
  si_activeStores : string → M D (list StoreRef);
  si_productsByEan : M D (list string);
  (** the SQL of the apply-price consumers *)
  si_applyItemIds : string → M D (list string);
  si_getApiCredentials : string → M D bool;
  si_setRunDone : string → M D unit;
  si_failPendingItems : string → M D unit;
  si_setRunAllFailed : string → M D unit;
  si_setRunRunning : string → M D unit;
  si_setItemsBatchSeq : list string → Z → M D unit;
}.

Class StepImplsLaws (D I : Type) `{StepImpls D I} := {
  sl_syncBaseProduct : ∀ ds ids, Frame true (si_syncBaseProduct ds ids);
  sl_syncBaseProductStock : ∀ ds ids, Frame true (si_syncBaseProductStock ds ids);
  sl_importCompetitorProducts : ∀ t o es, Frame true (si_importCompetitorProducts t o es);
  sl_calcBaseProductMetrics : ∀ t es, Frame true (si_calcBaseProductMetrics t es);
  sl_updateBaseProductProperties : ∀ p es, Frame true (si_updateBaseProductProperties p es);
  sl_syncProductItems : ∀ ds ps ss, Frame true (si_syncProductItems ds ps ss);
  sl_applyPrice : ∀ t r n, Frame true (si_applyPrice t r n);
  sl_setRunDone : ∀ r, Frame true (si_setRunDone r);
  sl_findAllValidWithBarcode : ∀ i, Frame true (si_findAllValidWithBarcode i);
  sl_findAllEans : Frame true si_findAllEans;
  sl_findEansMissing : ∀ p, Frame true (si_findEansMissing p);
  sl_findEnabledOrigins : ∀ t, Frame true (si_findEnabledOrigins t);
  sl_resolveTenantId : ∀ t, Frame true (si_resolveTenantId t);
  sl_activeStores : ∀ t, Frame true (si_activeStores t);
  sl_productsByEan : Frame true si_productsByEan;
  sl_applyItemIds : ∀ r, Frame true (si_applyItemIds r);
  sl_getApiCredentials : ∀ t, Frame true (si_getApiCredentials t);
  sl_failPendingItems : ∀ r, Frame true (si_failPendingItems r);
  sl_setRunAllFailed : ∀ r, Frame true (si_setRunAllFailed r);
  sl_setRunRunning : ∀ r, Frame true (si_setRunRunning r);
  sl_setItemsBatchSeq : ∀ ids n, Frame true (si_setItemsBatchSeq ids n);
}.

Section PipelineConsumers.
Context {D I : Type} `{StepImpls D I}.
Variable cfg : Config.

(* ------------------------------------------------------------------ *)
(** * Messages to the next step                                         *)
(* ------------------------------------------------------------------ *)

(** A successor of message [m]: same run and tenant, empty payload. *)
Definition successor (m : Message) (s : PipelineStep) (q : option string) : M D Message :=
  now ← date_now;
  mret (newPipelineMessage now (pipelineRunId m) (tenantId m) (step_str s) q PEmpty None None).

Definition dispatch_successor (m : Message) (s : PipelineStep) : M D Message :=
  successor m s (Some (dispatchStep s)).

(** A batch message of the run: seq, queue and payload. *)
Definition batch_message (now : Z) (m : Message) (s : PipelineStep) (q : string)
    (sp : Z * Payload) : Message :=
  newPipelineMessage now (pipelineRunId m) (tenantId m) (step_str s) (Some q) sp.2
    (Some sp.1) None.

(** [markBranchComplete] and CALC when the sibling is done. *)
Definition join_successors (m : Message) (b : JoinBranch) : M D (list Message) :=
  outcome ← markBranchComplete (pipelineRunId m) (tenantId m) b;
  match outcome with
  | Wait => mret []
  | Fire => s ← dispatch_successor m CALC_BASE_PRODUCT_METRICS; mret [s]
  end.

Definition no_onDispatch (_ : Message) (_ : list Message) : M D unit := mret ().

(* ------------------------------------------------------------------ *)
(** * pipeline.start                                                    *)
(* ------------------------------------------------------------------ *)

Definition pipelineStart_handle (m : Message) : M D unit :=
  s1 ← dispatch_successor m SYNC_BASE_PRODUCT;
  publishStep cfg s1 (Some ("pipeline-start", None));;
  s2 ← successor m SYNC_OFFER_BOOKS_INFO None;
  publishStep cfg s2 (Some ("pipeline-start", None)).

(* ------------------------------------------------------------------ *)
(** * sync-base-product                                                 *)
(* ------------------------------------------------------------------ *)

Definition payload_embalagemIds (p : Payload) : list Z :=
  match p with PEmbalagens ids => ids | _ => [] end.
Definition payload_eans (p : Payload) : list string :=
  match p with PEans es | PScrape _ es | PPass _ es => es | _ => [] end.

Definition syncBaseProductDispatch : @DispatchConsumer D I := {|
  dc_step := SYNC_BASE_PRODUCT;
  dc_handle := λ m ds _,
    succ ← dispatch_successor m SYNC_BASE_PRODUCT_STOCK;
    match ds with
    | None => mret {| dr_batches := []; dr_emptySuccessors := Some [succ] |}
    | Some i =>
        rows ← si_findAllValidWithBarcode i;
        match chunkEmbalagensByEan rows SYNC_BATCH_SIZE with
        | [] => mret {| dr_batches := []; dr_emptySuccessors := Some [succ] |}
        | slices =>
            now ← date_now;
            mret {| dr_batches :=
                      batch_message now m SYNC_BASE_PRODUCT (batchStep SYNC_BASE_PRODUCT)
                        <$> number_from 1 (PEmbalagens <$> slices);
                    dr_emptySuccessors := None |}
        end
    end;
  dc_onDispatch := no_onDispatch |}.

Definition syncBaseProductBatch : @BatchConsumer D I := {|
  bt_step := SYNC_BASE_PRODUCT;
  bt_handle := λ m ds _ _, si_syncBaseProduct ds (payload_embalagemIds (payload m));
  bt_successors := λ m _, s ← dispatch_successor m SYNC_BASE_PRODUCT_STOCK; mret [s] |}.

(* ------------------------------------------------------------------ *)
(** * sync-base-product-stock (branch stock-a)                          *)
(* ------------------------------------------------------------------ *)

Definition syncBaseProductStockDispatch : @DispatchConsumer D I := {|
  dc_step := SYNC_BASE_PRODUCT_STOCK;
  dc_handle := λ m ds _,
    slices ← (match ds with
              | Some i => rows ← si_findAllValidWithBarcode i;
                          mret (chunkEmbalagensByEan rows SYNC_BATCH_SIZE)
              | None => mret []
              end);
    match slices with
    | [] => ms ← join_successors m StockA;
            mret {| dr_batches := []; dr_emptySuccessors := Some ms |}
    | _ =>
        now ← date_now;
        mret {| dr_batches :=
                  batch_message now m SYNC_BASE_PRODUCT_STOCK
                    (batchStep SYNC_BASE_PRODUCT_STOCK)
                    <$> number_from 1 (PEmbalagens <$> slices);
                dr_emptySuccessors := None |}
    end;
  dc_onDispatch := no_onDispatch |}.

Definition syncBaseProductStockBatch : @BatchConsumer D I := {|
  bt_step := SYNC_BASE_PRODUCT_STOCK;
  bt_handle := λ m ds _ _, si_syncBaseProductStock ds (payload_embalagemIds (payload m));
  bt_successors := λ m _, join_successors m StockA |}.

(* ------------------------------------------------------------------ *)
(** * import-competitor-products (branch stock-b)                       *)
(* ------------------------------------------------------------------ *)

(** The (queue, payload) pairs of all origins, in order. *)
Definition scrape_slices (eans : list string) (origins : list CompetitorOrigin) :
    list (string * Payload) :=
  origins ≫= λ o,
    (λ es, (originStep IMPORT_COMPETITOR_PRODUCTS o, PScrape o es))
    <$> slices (Z.to_nat (chunkSizeForOrigin o (importVtexEanBatchSize cfg)
                            (importNonVtexEanBatchSize cfg))) eans.

Definition importDispatch_handle (m : Message) (tenant : Tenant) : M D DispatchHandleResult :=
  enabledOrigins ← si_findEnabledOrigins (tn_id tenant);
  match enabledOrigins with
  | [] => ms ← join_successors m StockB;
          mret {| dr_batches := []; dr_emptySuccessors := Some ms |}
  | _ =>
      eans ← si_findAllEans;
      match eans with
      | [] => ms ← join_successors m StockB;
              mret {| dr_batches := []; dr_emptySuccessors := Some ms |}
      | _ =>
          now ← date_now;
          mret {| dr_batches :=
                    (λ '(seq, (q, p)), batch_message now m IMPORT_COMPETITOR_PRODUCTS q (seq, p))
                    <$> number_from 1 (scrape_slices eans enabledOrigins);
                  dr_emptySuccessors := None |}
      end
  end.

(** [onDispatch]: EANs per origin, for the metrics. *)
Definition eans_per_origin (batches : list Message) : list (string * Z) :=
  foldl (λ acc b,
    match payload b with
    | PScrape o es =>
        js_map_set (origin_str o)
          (default 0 (js_map_get (origin_str o) acc) + Z.of_nat (length es)) acc
    | _ => acc
    end) [] batches.

Definition importDispatch : @DispatchConsumer D I := {|
  dc_step := IMPORT_COMPETITOR_PRODUCTS;
  dc_handle := λ m _ tenant, importDispatch_handle m tenant;
  dc_onDispatch := λ m batches, metric (MScrapeDispatch (tenantId m) (eans_per_origin batches)) |}.

(** [CompetitorProductsBatchBase]; the nine per-origin consumers differ in
    the queue they subscribe to only. *)
Definition importBatch : @BatchConsumer D I := {|
  bt_step := IMPORT_COMPETITOR_PRODUCTS;
  bt_handle := λ m _ _ _,
    match payload m with
    | PScrape o es => si_importCompetitorProducts (tenantId m) o es
    | _ => throw (EError "undefined payload")
    end;
  bt_successors := λ m _, join_successors m StockB |}.

(* ------------------------------------------------------------------ *)
(** * calc-base-product-metrics                                         *)
(* ------------------------------------------------------------------ *)

Definition calcDispatch : @DispatchConsumer D I := {|
  dc_step := CALC_BASE_PRODUCT_METRICS;
  dc_handle := λ m _ _,
    succ ← dispatch_successor m UPDATE_BASE_PRODUCT_PROPERTIES;
    eans ← si_findAllEans;
    match eans with
    | [] => mret {| dr_batches := []; dr_emptySuccessors := Some [succ] |}
    | _ =>
        now ← date_now;
        mret {| dr_batches :=
                  batch_message now m CALC_BASE_PRODUCT_METRICS
                    (batchStep CALC_BASE_PRODUCT_METRICS)
                    <$> number_from 1 (PEans <$> slices SYNC_BATCH_SIZE eans);
                dr_emptySuccessors := None |}
    end;
  dc_onDispatch := no_onDispatch |}.

Definition calcBatch : @BatchConsumer D I := {|
  bt_step := CALC_BASE_PRODUCT_METRICS;
  bt_handle := λ m _ _ tenant,
    si_calcBaseProductMetrics (tn_id tenant) (payload_eans (payload m));
  bt_successors := λ m _, s ← dispatch_successor m UPDATE_BASE_PRODUCT_PROPERTIES; mret [s] |}.

(* ------------------------------------------------------------------ *)
(** * update-base-product-properties                                    *)
(* ------------------------------------------------------------------ *)

Definition all_passes : list PropertiesPass := [PassSupplier; PassName; PassWeight; PassMeasures].

(** The four candidate queries, then the slices of each pass in order. *)
Fixpoint pass_candidates (ps : list PropertiesPass) : M D (list Payload) :=
  match ps with
  | [] => mret []
  | p :: ps' =>
      eans ← si_findEansMissing p;
      rest ← pass_candidates ps';
      mret ((PPass p <$> slices SYNC_BATCH_SIZE eans) ++ rest)
  end.

Definition updatePropertiesDispatch : @DispatchConsumer D I := {|
  dc_step := UPDATE_BASE_PRODUCT_PROPERTIES;
  dc_handle := λ m _ _,
    payloads ← pass_candidates all_passes;
    match payloads with
    | [] => s ← successor m SYNC_STORES None;
            mret {| dr_batches := []; dr_emptySuccessors := Some [s] |}
    | _ =>
        now ← date_now;
        mret {| dr_batches :=
                  batch_message now m UPDATE_BASE_PRODUCT_PROPERTIES
                    (batchStep UPDATE_BASE_PRODUCT_PROPERTIES) <$> number_from 1 payloads;
                dr_emptySuccessors := None |}
    end;
  dc_onDispatch := no_onDispatch |}.

Definition updatePropertiesBatch : @BatchConsumer D I := {|
  bt_step := UPDATE_BASE_PRODUCT_PROPERTIES;
  bt_handle := λ m _ _ _,
    match payload m with
    | PPass p es => si_updateBaseProductProperties p es
    | _ => throw (EError "undefined payload")
    end;
  bt_successors := λ m _, s ← successor m SYNC_STORES None; mret [s] |}.

(* ------------------------------------------------------------------ *)
(** * The tail: stores, then product items                              *)
(* ------------------------------------------------------------------ *)

Definition syncStores : @BaseConsumer D I := {|
  bc_step := SYNC_STORES;
  bc_handle := λ m ds,
    si_syncStores ds (tenantId m);;
    s ← dispatch_successor m SYNC_PRODUCT_ITEMS; mret [s] |}.

Definition syncOfferBooksInfo : @BaseConsumer D I := {|
  bc_step := SYNC_OFFER_BOOKS_INFO;
  bc_handle := λ m ds,
    si_syncOfferBooksInfo ds;;
    s ← dispatch_successor m IMPORT_COMPETITOR_PRODUCTS; mret [s] |}.

Definition executeOfferBookRule : @BaseConsumer D I := {|
  bc_step := EXECUTE_OFFER_BOOK_RULE;
  bc_handle := λ m _, si_executeOfferBookRule (tenantId m) (pipelineRunId m);; mret [] |}.

Definition syncProductItemsDispatch : @DispatchConsumer D I := {|
  dc_step := SYNC_PRODUCT_ITEMS;
  dc_handle := λ m _ _,
    tid ← si_resolveTenantId (tenantId m);
    stores ← si_activeStores tid;
    match stores with
    | [] => mret {| dr_batches := []; dr_emptySuccessors := Some [] |}
    | _ =>
        products ← si_productsByEan;
        match products with
        | [] => mret {| dr_batches := []; dr_emptySuccessors := Some [] |}
        | _ =>
            now ← date_now;
            mret {| dr_batches :=
                      batch_message now m SYNC_PRODUCT_ITEMS (batchStep SYNC_PRODUCT_ITEMS)
                        <$> number_from 1 ((λ ps, PItems ps stores)
                                           <$> slices SYNC_BATCH_SIZE products);
                    dr_emptySuccessors := None |}
        end
    end;
  dc_onDispatch := no_onDispatch |}.

Definition syncProductItemsBatch : @BatchConsumer D I := {|
  bt_step := SYNC_PRODUCT_ITEMS;
  bt_handle := λ m ds _ _,
    match payload m with
    | PItems ps ss => si_syncProductItems ds ps ss
    | _ => throw (EError "undefined payload")
    end;
  bt_successors := λ _ _, mret [] |}.

(* ------------------------------------------------------------------ *)
(** * apply-price (on demand)                                           *)
(* ------------------------------------------------------------------ *)

(** The loop over slices of item ids: number the items of each slice. *)
Fixpoint number_items (seq : Z) (parts : list (list string)) : M D unit :=
  match parts with
  | [] => mret ()
  | ids :: rest => si_setItemsBatchSeq ids seq;; number_items (seq + 1) rest
  end.

Definition applyPriceDispatch : @DispatchConsumer D I := {|
  dc_step := APPLY_PRICE;
  dc_handle := λ m _ _,
    let run := pipelineRunId m in
    items ← si_applyItemIds run;
    match items with
    | [] => si_setRunDone run;; mret {| dr_batches := []; dr_emptySuccessors := None |}
    | _ =>
        creds ← si_getApiCredentials (tenantId m);
        if negb creds then
          si_failPendingItems run;; si_setRunAllFailed run;;
          mret {| dr_batches := []; dr_emptySuccessors := None |}
        else
          si_setRunRunning run;;
          let parts := slices APPLY_BATCH_SIZE items in
          number_items 1 parts;;
          now ← date_now;
          mret {| dr_batches :=
                    batch_message now m APPLY_PRICE (batchStep APPLY_PRICE)
                      <$> number_from 1 ((λ _, PEmpty) <$> parts);
                  dr_emptySuccessors := None |}
    end;
  dc_onDispatch := no_onDispatch |}.

Definition applyPriceBatch : @BatchConsumer D I := {|
  bt_step := APPLY_PRICE;
  bt_handle := λ m _ seq _, si_applyPrice (tenantId m) (pipelineRunId m) seq;
  bt_successors := λ m _, si_setRunDone (pipelineRunId m);; mret [] |}.

End PipelineConsumers.
