(* ===== verification/PipelineLaws.v ===== *)
(** The contracts of the concrete consumers, and the properties of the
    pipeline as a whole that follow from them and from [BatchLaws]. *)

From Stdlib Require Import Ascii String.
From S2P Require Import Prelude JsText Enums Messages World RunService Outbox Consumers Logic Chunker Join BatchLaws DispatchLaws PipelineConsumers.
Open Scope string_scope.
Open Scope list_scope.
Open Scope Z_scope.

(* ------------------------------------------------------------------ *)
(** * The graph of steps                                                *)
(* ------------------------------------------------------------------ *)

(** The step a step hands over to, and the queue of the message. *)
Definition next_of (s : PipelineStep) : option (PipelineStep * option string) :=
  match s with
  | SYNC_BASE_PRODUCT => Some (SYNC_BASE_PRODUCT_STOCK, Some (dispatchStep SYNC_BASE_PRODUCT_STOCK))
  | SYNC_BASE_PRODUCT_STOCK | IMPORT_COMPETITOR_PRODUCTS =>
      Some (CALC_BASE_PRODUCT_METRICS, Some (dispatchStep CALC_BASE_PRODUCT_METRICS))
  | CALC_BASE_PRODUCT_METRICS =>
      Some (UPDATE_BASE_PRODUCT_PROPERTIES, Some (dispatchStep UPDATE_BASE_PRODUCT_PROPERTIES))
  | UPDATE_BASE_PRODUCT_PROPERTIES => Some (SYNC_STORES, None)
  | SYNC_STORES => Some (SYNC_PRODUCT_ITEMS, Some (dispatchStep SYNC_PRODUCT_ITEMS))
  | SYNC_OFFER_BOOKS_INFO =>
      Some (IMPORT_COMPETITOR_PRODUCTS, Some (dispatchStep IMPORT_COMPETITOR_PRODUCTS))
  | SYNC_PRODUCT_ITEMS | APPLY_PRICE | EXECUTE_OFFER_BOOK_RULE => None
  end.

(** Steps whose hand-over waits for the sibling branch. *)
Definition is_join (s : PipelineStep) : bool :=
  match s with SYNC_BASE_PRODUCT_STOCK | IMPORT_COMPETITOR_PRODUCTS => true | _ => false end.

(** The successors a step stages for message [m]. *)
Definition dag_successors (s : PipelineStep) (m : Message) (ms : list Message) : Prop :=
  match next_of s with
  | None => ms = []
  | Some (s', q) =>
      (∃ now, ms = [newPipelineMessage now (pipelineRunId m) (tenantId m) (step_str s') q
                      PEmpty None None])
      ∨ (is_join s = true ∧ ms = [])
  end.

(** Position of a step in the pipeline. *)
Definition step_rank (s : PipelineStep) : nat :=
  match s with
  | SYNC_BASE_PRODUCT | SYNC_OFFER_BOOKS_INFO => 0
  | SYNC_BASE_PRODUCT_STOCK | IMPORT_COMPETITOR_PRODUCTS => 1
  | CALC_BASE_PRODUCT_METRICS => 2
  | UPDATE_BASE_PRODUCT_PROPERTIES => 3
  | SYNC_STORES => 4
  | SYNC_PRODUCT_ITEMS => 5
  | APPLY_PRICE | EXECUTE_OFFER_BOOK_RULE => 0
  end.

Definition hands_over (s s' : PipelineStep) : Prop := ∃ q, next_of s = Some (s', q).

(* ------------------------------------------------------------------ *)
(** * Frames of the concrete code                                       *)
(* ------------------------------------------------------------------ *)

Create HintDb frame.
#[export] Hint Resolve Frame_ret Frame_throw Frame_gets Frame_metric Frame_read : frame.
#[export] Hint Resolve sl_syncBaseProduct sl_syncBaseProductStock sl_importCompetitorProducts
  sl_calcBaseProductMetrics sl_updateBaseProductProperties sl_syncProductItems sl_applyPrice
  sl_setRunDone sl_findAllValidWithBarcode sl_findAllEans sl_findEansMissing
  sl_findEnabledOrigins sl_resolveTenantId sl_activeStores sl_productsByEan sl_applyItemIds
  sl_getApiCredentials sl_failPendingItems sl_setRunAllFailed sl_setRunRunning
  sl_setItemsBatchSeq : frame.

Ltac frame :=
  repeat first [ progress intros | solve [eauto with frame] | apply Frame_bind | case_match ].

Section Frames.
Context {D I : Type}.

Lemma Frame_date_now b : Frame (D := D) b date_now.
Proof. apply Frame_gets. Qed.

Lemma join_insert_frame (now : Z) (run tenant : string) (b : JoinBranch) (rows : gmap RunKey RunRow) (k : RunKey) :
  is_branch_step k.1.2 = false → join_insert now run tenant b rows !! k = rows !! k.
Proof.
  intros Hk. unfold join_insert. case_match; [done|].
  apply lookup_insert_ne. intros <-. by destruct b.
Qed.

Lemma Frame_markBranchComplete fl run tenant b :
  Frame (D := D) fl (markBranchComplete run tenant b).
Proof.
  unfold markBranchComplete. apply Frame_bind; [apply Frame_gets|]. intros now.
  apply Frame_bind.
  - apply Frame_ext. intros w _. unfold sql_step. simpl.
    split; simpl; try done.
    + intros k Hk. by apply join_insert_frame.
    + destruct (w_tx w) as [[s l]|]; [|done]. split; [done|]. exists []. by rewrite app_nil_r.
  - intros _. apply Frame_bind; [apply Frame_read|]. intros n. apply Frame_ret.
Qed.

Lemma Frame_dispatch_successor fl m s : Frame (D := D) fl (dispatch_successor m s).
Proof. unfold dispatch_successor, successor. frame. Qed.

Lemma Frame_join_successors fl m b : Frame (D := D) fl (join_successors m b).
Proof.
  unfold join_successors. apply Frame_bind; [apply Frame_markBranchComplete|].
  intros []; [apply Frame_ret|]. apply Frame_bind; [apply Frame_dispatch_successor|].
  intros. apply Frame_ret.
Qed.

Lemma wp_successor_post (m : Message) s q (w : World D) :
  wp (x ← successor m s q; mret [x])
     (λ ms _, ∃ now, ms = [newPipelineMessage now (pipelineRunId m) (tenantId m) (step_str s) q
                             PEmpty None None])
     (λ _ _, True) (λ _, True) w.
Proof. apply wp_bind, wp_bind, wp_gets, wp_ret, wp_ret. eauto. Qed.

Lemma wp_join_post m b (w : World D) :
  wp (join_successors m b)
     (λ ms _, (∃ now, ms = [newPipelineMessage now (pipelineRunId m) (tenantId m)
                             (step_str CALC_BASE_PRODUCT_METRICS)
                             (Some (dispatchStep CALC_BASE_PRODUCT_METRICS)) PEmpty None None])
              ∨ ms = []) (λ _ _, True) (λ _, True) w.
Proof.
  unfold join_successors. apply wp_bind.
  eapply wp_mono with (Q := λ _ _, True) (E := λ _ _, True) (C := λ _, True); [|..]; try done.
  { apply wp_elim. by destruct (markBranchComplete _ _ _ w) as [[]]. }
  intros [] w' _; [apply wp_ret; by right|].
  eapply wp_mono; [apply wp_successor_post|..]; try done. intros. by left.
Qed.

End Frames.

#[export] Hint Resolve Frame_date_now Frame_dispatch_successor Frame_join_successors : frame.

(* ------------------------------------------------------------------ *)
(** * The batch consumers satisfy the interface                         *)
(* ------------------------------------------------------------------ *)

Section BatchInstances.
Context {D I : Type} `{StepImplsLaws D I}.

Ltac successor_post :=
  intros m ds w; eapply wp_mono; [apply wp_successor_post|..]; try done; intros; by left.
Ltac join_post :=
  intros m ds w; eapply wp_mono; [apply wp_join_post|..]; try done;
  intros ms w' [?|?]; [by left|by right].

#[export] Instance syncBaseProductBatch_laws :
  BatchLaws (D := D) (I := I) syncBaseProductBatch (dag_successors SYNC_BASE_PRODUCT).
Proof. split; simpl; [frame..|successor_post]. Qed.

#[export] Instance syncBaseProductStockBatch_laws :
  BatchLaws (D := D) (I := I) syncBaseProductStockBatch (dag_successors SYNC_BASE_PRODUCT_STOCK).
Proof. split; simpl; [frame..|join_post]. Qed.

#[export] Instance importBatch_laws :
  BatchLaws (D := D) (I := I) importBatch (dag_successors IMPORT_COMPETITOR_PRODUCTS).
Proof. split; simpl; [frame..|join_post]. Qed.

#[export] Instance calcBatch_laws :
  BatchLaws (D := D) (I := I) calcBatch (dag_successors CALC_BASE_PRODUCT_METRICS).
Proof. split; simpl; [frame..|successor_post]. Qed.

#[export] Instance updatePropertiesBatch_laws :
  BatchLaws (D := D) (I := I) updatePropertiesBatch
    (dag_successors UPDATE_BASE_PRODUCT_PROPERTIES).
Proof. split; simpl; [frame..|successor_post]. Qed.

#[export] Instance syncProductItemsBatch_laws :
  BatchLaws (D := D) (I := I) syncProductItemsBatch (dag_successors SYNC_PRODUCT_ITEMS).
Proof. split; simpl; [frame..|]. intros m ds w. by apply wp_ret. Qed.

#[export] Instance applyPriceBatch_laws :
  BatchLaws (D := D) (I := I) applyPriceBatch (dag_successors APPLY_PRICE).
Proof.
  split; simpl; [frame..|]. intros m ds w. apply wp_bind, wp_elim.
  by destruct (si_setRunDone (pipelineRunId m) w) as [[]].
Qed.

End BatchInstances.

(* ------------------------------------------------------------------ *)
(** * The dispatchers satisfy the interface                             *)
(* ------------------------------------------------------------------ *)

Section DispatchInstances.
Context {D I : Type} `{StepImplsLaws D I} (cfg : Config).

Lemma Frame_number_items b parts : Frame true (number_items (D := D) (I := I) b parts).
Proof.
  revert b. induction parts as [|ids parts IH]; intros b; simpl; [apply Frame_ret|].
  apply Frame_bind; [apply sl_setItemsBatchSeq|]. intros _. apply IH.
Qed.

Lemma Frame_pass_candidates ps : Frame true (pass_candidates (D := D) (I := I) ps).
Proof.
  induction ps as [|p ps IH]; simpl; [apply Frame_ret|].
  apply Frame_bind; [apply sl_findEansMissing|]. intros eans.
  apply Frame_bind; [apply IH|]. intros. apply Frame_ret.
Qed.

Lemma Frame_successor fl m s q : Frame (D := D) fl (successor m s q).
Proof. unfold successor. frame. Qed.

#[local] Hint Resolve Frame_number_items Frame_pass_candidates Frame_successor : frame.

#[export] Instance syncBaseProductDispatch_laws :
  DispatchLaws (D := D) (I := I) syncBaseProductDispatch.
Proof. split; simpl; frame. Qed.
#[export] Instance syncBaseProductStockDispatch_laws :
  DispatchLaws (D := D) (I := I) syncBaseProductStockDispatch.
Proof. split; simpl; frame. Qed.
#[export] Instance importDispatch_laws : DispatchLaws (D := D) (I := I) (importDispatch cfg).
Proof. split; simpl; unfold importDispatch_handle; frame. Qed.
#[export] Instance calcDispatch_laws : DispatchLaws (D := D) (I := I) calcDispatch.
Proof. split; simpl; frame. Qed.
#[export] Instance updatePropertiesDispatch_laws :
  DispatchLaws (D := D) (I := I) updatePropertiesDispatch.
Proof. split; simpl; frame. Qed.
#[export] Instance syncProductItemsDispatch_laws :
  DispatchLaws (D := D) (I := I) syncProductItemsDispatch.
Proof. split; simpl; frame. Qed.
#[export] Instance applyPriceDispatch_laws : DispatchLaws (D := D) (I := I) applyPriceDispatch.
Proof. split; simpl; frame. Qed.

End DispatchInstances.

(** The dispatcher of a batched step. *)
Definition dispatch_consumer {D I} `{StepImpls D I} (cfg : Config) (s : PipelineStep) :
    option (@DispatchConsumer D I) :=
  match s with
  | SYNC_BASE_PRODUCT => Some syncBaseProductDispatch
  | SYNC_BASE_PRODUCT_STOCK => Some syncBaseProductStockDispatch
  | IMPORT_COMPETITOR_PRODUCTS => Some (importDispatch cfg)
  | CALC_BASE_PRODUCT_METRICS => Some calcDispatch
  | UPDATE_BASE_PRODUCT_PROPERTIES => Some updatePropertiesDispatch
  | SYNC_PRODUCT_ITEMS => Some syncProductItemsDispatch
  | APPLY_PRICE => Some applyPriceDispatch
  | _ => None
  end.

Lemma dispatch_consumer_laws {D I} `{StepImplsLaws D I} cfg s (c : @DispatchConsumer D I) :
  dispatch_consumer cfg s = Some c → dc_step c = s ∧ DispatchLaws c.
Proof. destruct s; intros [= <-]; (split; [done|apply _]). Qed.

(** The batch consumer of a batched step. *)
Definition batch_consumer {D I} `{StepImpls D I} (s : PipelineStep) :
    option (@BatchConsumer D I) :=
  match s with
  | SYNC_BASE_PRODUCT => Some syncBaseProductBatch
  | SYNC_BASE_PRODUCT_STOCK => Some syncBaseProductStockBatch
  | IMPORT_COMPETITOR_PRODUCTS => Some importBatch
  | CALC_BASE_PRODUCT_METRICS => Some calcBatch
  | UPDATE_BASE_PRODUCT_PROPERTIES => Some updatePropertiesBatch
  | SYNC_PRODUCT_ITEMS => Some syncProductItemsBatch
  | APPLY_PRICE => Some applyPriceBatch
  | _ => None
  end.

Lemma batch_consumer_laws {D I} `{StepImplsLaws D I} s (c : @BatchConsumer D I) :
  batch_consumer s = Some c → bt_step c = s ∧ BatchLaws c (dag_successors s).
Proof. destruct s; intros [= <-]; (split; [done|apply _]). Qed.

(* ------------------------------------------------------------------ *)
(** * A concrete world for the witnesses                                *)
(* ------------------------------------------------------------------ *)

(** Tenant data is a log of what the steps wrote. *)
Definition log_write (s : string) : M (list string) unit :=
  sql_write EmConn (λ db, Build_Db (db_runs db) (db_outbox db) (db_data db ++ [s])).

Definition toy_impls : StepImpls (list string) unit := {|
  si_syncBaseProduct := λ _ _, log_write "sync-base-product";
  si_syncBaseProductStock := λ _ _, log_write "stock";
  si_importCompetitorProducts := λ _ _ _, log_write "import";
  si_calcBaseProductMetrics := λ _ _, log_write "calc";
  si_updateBaseProductProperties := λ _ _, log_write "properties";
  si_syncProductItems := λ _ _ _, log_write "items";
  si_syncStores := λ _ _, log_write "stores";
  si_syncOfferBooksInfo := λ _, log_write "offer-books";
  si_applyPrice := λ _ _ _, log_write "apply";
  si_executeOfferBookRule := λ _ _, log_write "execute";
  si_findAllValidWithBarcode := λ _, mret [];
  si_findAllEans := mret ["1"; "2"];
  si_findEansMissing := λ _, mret ["1"; "2"];
  si_findEnabledOrigins := λ _, mret [DROGAL];
  si_resolveTenantId := λ s, mret s;
  si_activeStores := λ _, mret [];
  si_productsByEan := mret [];
  si_applyItemIds := λ _, mret [];
  si_getApiCredentials := λ _, mret true;
  si_setRunDone := λ _, log_write "run-done";
  si_failPendingItems := λ _, log_write "fail-pending";
  si_setRunAllFailed := λ _, log_write "all-failed";
  si_setRunRunning := λ _, log_write "running";
  si_setItemsBatchSeq := λ _ _, log_write "batch-seq";
|}.

Lemma Frame_log_write s : Frame true (log_write s).
Proof. by apply Frame_em_write. Qed.

#[export] Hint Resolve Frame_log_write : frame.

Definition toy_laws : StepImplsLaws (list string) unit (H := toy_impls).
Proof. split; simpl; intros; first [apply Frame_log_write|apply Frame_ret]. Defined.

Definition toy_cfg : Config := {|
  cfg_env := None; pipelineDispatchOutboxPublish := false;
  pipelineDispatchPublishCheckpoint := 2; outboxPublisherBatchSize := 10;
  importVtexEanBatchSize := 1; importNonVtexEanBatchSize := 1 |}.

Definition toy_tenant : Tenant :=
  {| tn_id := "t1"; tn_slug := "acme"; tn_schemaName := "tenant_acme"; tn_status := TENANT_ACTIVE |}.

Definition toy_world (rows : list (RunKey * RunRow)) (o : list (Fault * Z)) :
    World (list string) :=
  Build_World (Build_Db (list_to_map rows) [] []) None [toy_tenant] [] [] 1000 o (false, false).

Definition toy_forTenantSlug (_ : string) : M (list string) (option unit) := mret None.

Definition batch_msg (s : PipelineStep) (seq : Z) : Message :=
  newPipelineMessage 900 "run" "acme" (step_str s) (Some (batchStep s)) (PEans ["1"])
    (Some seq) None.

Definition toy_fanin (planned done : Z) : RunRow :=
  upd_done done (upd_planned planned (new_row 800 "acme" 1)).

Lemma toy_forTenantSlug_frame s : Frame false (toy_forTenantSlug s).
Proof. apply Frame_ret. Qed.

(* ------------------------------------------------------------------ *)
(** * Properties                                                        *)
(* ------------------------------------------------------------------ *)



(** An acknowledged delivery is not lost.  Whatever fails, when
    [process] of a batch consumer returns normally (so the broker drops the
    message), the batch row is COMPLETED in the committed state or the
    message is in the dead-letter exchange for replay. *)
Theorem batch_ack_completed_or_dlq {D I} `{StepImplsLaws D I} cfg forTenantSlug
    (Hint : ∀ s, Frame false (forTenantSlug s)) (s : PipelineStep) (c : @BatchConsumer D I)
    (m : Message) (w w' : World D) :
  batch_consumer s = Some c → 0 < seqOf m → w_tx w = None →
  batch_process cfg forTenantSlug c m w = (Done (), w') →
  run_status (batch_key c m) w' = Some COMPLETED ∨ in_dlq cfg m w'.
Proof.
  intros [Hs Hc]%batch_consumer_laws Hseq Htx E.
  pose proof (batch_process_spec cfg forTenantSlug Hint c (dag_successors s) m Hseq w Htx) as Hwp.
  rewrite wp_elim, E in Hwp. apply Hwp.
Qed.

(** The handler's query throws: the message is in the DLQ. *)
Lemma batch_ack_completed_or_dlq_witness :
  let H := toy_impls in
  let m := batch_msg CALC_BASE_PRODUCT_METRICS 2 in
  let w := toy_world [(("run", step_str CALC_BASE_PRODUCT_METRICS, 0), toy_fanin 2 1)]
    [(FOk, 0); (FOk, 0); (FOk, 0); (FOk, 0); (FOk, 0); (FThrow (EError "boom"), 0)] in
  let w' := (batch_process toy_cfg toy_forTenantSlug calcBatch m w).2 in
  run_status (batch_key calcBatch m) w' = Some FAILED
  ∧ (run_status (batch_key calcBatch m) w' = Some COMPLETED ∨ in_dlq toy_cfg m w').
Proof.
  intros H m w w'. split; [vm_compute; reflexivity|].
  assert ((batch_process toy_cfg toy_forTenantSlug calcBatch m w).1 = Done ()) as Hd
    by (vm_compute; reflexivity).
  apply (@batch_ack_completed_or_dlq _ _ toy_impls toy_laws toy_cfg toy_forTenantSlug
    toy_forTenantSlug_frame CALC_BASE_PRODUCT_METRICS calcBatch m w w');
    [reflexivity|reflexivity|reflexivity|].
  rewrite <- Hd. apply surjective_pairing.
Defined.

(* ------------------------------------------------------------------ *)
(** ** Dispatchers                                                      *)
(* ------------------------------------------------------------------ *)

(** A new delivery: no transaction is open, and the oracle is arbitrary. *)
Definition redelivered {D} (o : list (Fault * Z)) (w : World D) : World D :=
  set_tx None (set_oracle o w).

(** What the rest of the system may do between two deliveries of a dispatch
    message: publish and stage more, update the bookkeeping of outbox rows,
    and complete batches.  Completed batches stay completed and the dispatch
    row is the dispatcher's. *)
Definition environment {D I} (c : @DispatchConsumer D I) (m : Message) (w w' : World D) : Prop :=
  (∀ p, p ∈ w_amqp w → p ∈ w_amqp w')
  ∧ (∀ r, r ∈ db_outbox (w_db w) → ∃ r', r' ∈ db_outbox (w_db w')
       ∧ ob_message r' = ob_message r ∧ ob_routingKey r' = ob_routingKey r)
  ∧ (∀ seq, run_status (pipelineRunId m, step_str (dc_step c), seq) w = Some COMPLETED →
       seq ≠ DISPATCH_BATCH_SEQ →
       run_status (pipelineRunId m, step_str (dc_step c), seq) w' = Some COMPLETED)
  ∧ run_status (dispatch_key c m) w' = run_status (dispatch_key c m) w
  ∧ checkpoint_of c m w' = checkpoint_of c m w.

(** Any number of deliveries of the message [m], each with its own faults,
    interleaved with the environment. *)
Inductive attempts {D I} (cfg : Config) (fts : string → M D (option I))
    (c : @DispatchConsumer D I) (m : Message) (w : World D) : World D → Prop :=
| att_start : attempts cfg fts c m w w
| att_deliver w1 o :
    attempts cfg fts c m w w1 →
    attempts cfg fts c m w (dispatch_process cfg fts c m (redelivered o w1)).2
| att_env w1 w2 :
    attempts cfg fts c m w w1 → environment c m w1 w2 → attempts cfg fts c m w w2.

Lemma emit_inv_environment {D I} cfg (c : @DispatchConsumer D I) m Ws (w w' : World D) :
  numbered Ws → environment c m w w' → emit_inv cfg c m Ws w → emit_inv cfg c m Ws w'.
Proof.
  intros Hn (Ha & Ho & Hd & Hs & Hc) [H1 H2].
  assert (∀ x, x ∈ Ws → accounted cfg c m w x → accounted cfg c m w' x) as Hacc.
  { intros x Hx [(b & Hb & Hin)|[(r & Hr & Hw & Hk)|Hdone]].
    - left. exists b. auto.
    - right. left. destruct (Ho r Hr) as (r' & Hr' & Em & Ek). exists r'.
      rewrite Em, Ek. auto.
    - right. right. apply Hd; [done|]. by apply (ws_nonzero Ws). }
  split.
  - intros x Hx Hle. apply Hacc; [done|]. apply H1; [done|]. by rewrite <- Hc.
  - rewrite Hs. auto.
Qed.

Lemma emit_inv_attempts {D I} cfg fts (c : @DispatchConsumer D I) `{!DispatchLaws c} m Ws w w' :
  (∀ s, Frame false (fts s)) → numbered Ws → deterministic_slicing c m Ws →
  emit_inv cfg c m Ws w → attempts cfg fts c m w w' → emit_inv cfg c m Ws w'.
Proof.
  intros Hf Hn Hd Hi. induction 1 as [|w1 o Ha IH|w1 w2 Ha IH He]; [done| |].
  - assert (emit_inv cfg c m Ws (redelivered o w1)) as Hi1 by exact IH.
    pose proof (dispatch_process_spec cfg fts Hf c m Ws Hn Hd _ Hi1 eq_refl) as Hwp.
    rewrite wp_elim in Hwp. by destruct (dispatch_process _ _ _ _ _) as [[] w2]; naive_solver.
  - by eapply emit_inv_environment.
Qed.

(** [C2] No batch is lost by crashes and restarts of a dispatcher.  Let a
    dispatcher compute the same numbered work list [Ws] whenever its handler
    returns (deterministic slicing).  Then, from a state without a dispatch
    row, after any number of deliveries of its message with arbitrary faults,
    interleaved with other services: every batch up to the publish checkpoint
    was published, staged in the outbox, or already executed; and once the
    dispatch row is COMPLETED this holds of every batch of the run. *)
Theorem dispatch_loses_no_batch {D I} `{StepImplsLaws D I} cfg fts (s : PipelineStep)
    (c : @DispatchConsumer D I) (m : Message) (Ws : list Work) (w w' : World D) :
  dispatch_consumer cfg s = Some c → (∀ s, Frame false (fts s)) →
  numbered Ws → deterministic_slicing c m Ws →
  db_runs (w_db w) !! dispatch_key c m = None →
  attempts cfg fts c m w w' →
  (∀ x, x ∈ Ws → work_seq x <= checkpoint_of c m w' → accounted cfg c m w' x)
  ∧ (run_status (dispatch_key c m) w' = Some COMPLETED →
     ∀ x, x ∈ Ws → accounted cfg c m w' x).
Proof.
  intros [Hs Hc]%dispatch_consumer_laws Hf Hn Hd Hnone Ha.
  assert (emit_inv cfg c m Ws w) as Hi.
  { split.
    - intros x Hx Hle. unfold checkpoint_of in Hle. rewrite Hnone in Hle.
      destruct Hn as [Hpos _]. specialize (Hpos x Hx). lia.
    - unfold run_status. by rewrite Hnone. }
  apply (emit_inv_attempts cfg fts c m Ws w w' Hf Hn Hd Hi Ha).
Qed.

Definition toy_scrape_works : list Work :=
  [(1, Some "import-competitor-products.DROGAL", PScrape DROGAL ["1"]);
   (2, Some "import-competitor-products.DROGAL", PScrape DROGAL ["2"])].

Definition dispatch_msg (s : PipelineStep) : Message :=
  newPipelineMessage 900 "run" "acme" (step_str s) (Some (dispatchStep s)) PEmpty None None.

Definition toy_import_dispatch : @DispatchConsumer (list string) unit :=
  @importDispatch (list string) unit toy_impls toy_cfg.

(** The process dies right after the first of two publishes; the redelivery
    completes and both batches were published. *)
Lemma dispatch_loses_no_batch_witness :
  let m := dispatch_msg IMPORT_COMPETITOR_PRODUCTS in
  let w0 := toy_world [] [] in
  let crash := repeat (FOk, 0) 9 ++ [(FCrashAfter, 0)] in
  let w1 := (dispatch_process toy_cfg toy_forTenantSlug toy_import_dispatch m
               (redelivered crash w0)).2 in
  let w2 := (dispatch_process toy_cfg toy_forTenantSlug toy_import_dispatch m
               (redelivered [] w1)).2 in
  (seqOf ∘ pb_msg <$> w_amqp w1) = [1]
  ∧ run_status (dispatch_key toy_import_dispatch m) w1 = Some RUNNING
  ∧ (seqOf ∘ pb_msg <$> w_amqp w2) = [1; 1; 2]
  ∧ ∀ x, x ∈ toy_scrape_works → accounted toy_cfg toy_import_dispatch m w2 x.
Proof.
  intros m w0 crash w1 w2. split_and!; [vm_compute; reflexivity..|].
  apply (@dispatch_loses_no_batch _ _ toy_impls toy_laws toy_cfg toy_forTenantSlug
    IMPORT_COMPETITOR_PRODUCTS toy_import_dispatch m toy_scrape_works w0 w2).
  - reflexivity.
  - apply toy_forTenantSlug_frame.
  - split.
    + intros x [->|[->|Hx]%elem_of_cons]%elem_of_cons; [vm_compute; discriminate..|].
      by apply elem_of_nil in Hx.
    + repeat constructor.
  - intros ds tenant w. apply wp_elim. vm_compute. reflexivity.
  - reflexivity.
  - apply att_deliver, att_deliver, att_start.
  - vm_compute. reflexivity.
Defined.

(* ------------------------------------------------------------------ *)
(** ** The graph                                                        *)
(* ------------------------------------------------------------------ *)

(** The queues whose consumers execute the batches of a step. *)
Definition batch_queues (s : PipelineStep) : list string :=
  match s with
  | IMPORT_COMPETITOR_PRODUCTS => originStep s <$> all_origins
  | _ => [batchStep s]
  end.

(** What a dispatcher may return for message [m]. *)
Definition dispatch_result_ok (s : PipelineStep) (m : Message) (r : DispatchHandleResult) : Prop :=
  seqOf <$> dr_batches r = (λ i, 1 + Z.of_nat i) <$> seq 0 (length (dr_batches r))
  ∧ (∀ b, b ∈ dr_batches r →
       pipelineRunId b = pipelineRunId m ∧ tenantId b = tenantId m ∧ step b = step_str s
       ∧ standalone b = None ∧ routingSegment b ∈ batch_queues s
       ∧ routingSegment b ∈ allStepQueueNames)
  ∧ (dr_batches r = [] → dag_successors s m (default [] (dr_emptySuccessors r))).

Lemma numbered_seqs {A} (f : Z * A → Message) (l : list A) :
  (∀ x, seqOf (f x) = x.1) →
  seqOf <$> (f <$> number_from 1 l) = (λ i, 1 + Z.of_nat i) <$> seq 0 (length l).
Proof.
  intros Hf. apply list_eq. intros i. rewrite !list_lookup_fmap. unfold number_from.
  rewrite list_lookup_imap. destruct (l !! i) eqn:E; simpl.
  - rewrite lookup_seq_lt by (by eapply lookup_lt_Some). simpl. by rewrite Hf.
  - rewrite lookup_seq_ge by (by apply lookup_ge_None). done.
Qed.

Lemma number_from_elem {A} (l : list A) x : x ∈ number_from 1 l → x.2 ∈ l.
Proof.
  intros Hx. rewrite <- (number_from_snd 1 l). apply list_elem_of_fmap. eauto.
Qed.

(** Batches built by [batch_message] on one queue. *)
Lemma batches_ok now s m q (payloads : list Payload) es :
  q ∈ batch_queues s → q ∈ allStepQueueNames → payloads ≠ [] →
  dispatch_result_ok s m
    {| dr_batches := batch_message now m s q <$> number_from 1 payloads;
       dr_emptySuccessors := es |}.
Proof.
  intros Hq Hk Hne. split_and!; simpl.
  - rewrite numbered_seqs by done. by rewrite length_fmap, number_from_length.
  - intros b (x & -> & Hx)%list_elem_of_fmap. by split_and!.
  - intros E%fmap_nil_inv. destruct payloads; [done|]. unfold number_from in E. done.
Qed.

Lemma empty_ok s m ms :
  dag_successors s m (default [] ms) →
  dispatch_result_ok s m {| dr_batches := []; dr_emptySuccessors := ms |}.
Proof.
  intros Hd. split_and!; simpl; [done| |done]. intros b Hb. by apply elem_of_nil in Hb.
Qed.

Lemma known_queue q : bool_decide (q ∈ allStepQueueNames) = true → q ∈ allStepQueueNames.
Proof. apply bool_decide_eq_true. Qed.

Section DispatchPosts.
Context {D I : Type} `{StepImplsLaws D I} (cfg : Config).

Lemma wp_join_dispatch s m b (w : World D) :
  is_join s = true →
  wp (ms ← join_successors m b; mret {| dr_batches := []; dr_emptySuccessors := Some ms |})
     (λ r _, dispatch_result_ok s m r) (λ _ _, True) (λ _, True) w.
Proof.
  intros Hs. apply wp_bind. eapply wp_mono; [apply wp_join_post|..]; try done.
  intros ms w' Hms. apply wp_ret, empty_ok. simpl. unfold dag_successors.
  destruct s; try done; simpl; destruct Hms; eauto.
Qed.

Lemma wp_successor m s q (w : World D) :
  wp (successor m s q)
     (λ x _, ∃ now, x = newPipelineMessage now (pipelineRunId m) (tenantId m) (step_str s) q
                          PEmpty None None) (λ _ _, True) (λ _, True) w.
Proof. apply wp_bind, wp_gets, wp_ret. eauto. Qed.

Ltac known := apply known_queue; vm_compute; reflexivity.
Ltac one_queue := apply wp_ret, batches_ok; [by apply list_elem_of_singleton|known|done].
Ltac one_successor := apply wp_ret, empty_ok; left; eexists; reflexivity.

Lemma scrape_ok now m eans origins :
  origins ≠ [] → eans ≠ [] →
  dispatch_result_ok IMPORT_COMPETITOR_PRODUCTS m
    {| dr_batches := (λ '(seq, (q, p)), batch_message now m IMPORT_COMPETITOR_PRODUCTS q (seq, p))
                       <$> number_from 1 (scrape_slices cfg eans origins);
       dr_emptySuccessors := None |}.
Proof.
  intros Ho He. split_and!; simpl.
  - rewrite numbered_seqs by (by intros [? []]). by rewrite length_fmap, number_from_length.
  - intros b ([i [q p]] & -> & Hx)%list_elem_of_fmap.
    apply number_from_elem in Hx. simpl in Hx. unfold scrape_slices in Hx.
    apply list_elem_of_bind in Hx as (o & Hx & _).
    apply list_elem_of_fmap in Hx as (es & Hx & _). simplify_eq.
    split_and!; try done.
    + change (originStep IMPORT_COMPETITOR_PRODUCTS o
              ∈ originStep IMPORT_COMPETITOR_PRODUCTS <$> all_origins).
      apply list_elem_of_fmap. eexists. split; [done|apply all_origins_complete].
    + simpl. destruct o; known.
  - intros E%fmap_nil_inv. exfalso.
    destruct origins as [|o origins]; [done|]. unfold number_from in E.
    assert (scrape_slices cfg eans (o :: origins) = []) as E2
      by (destruct (scrape_slices cfg eans (o :: origins)); done).
    unfold scrape_slices in E2. rewrite bind_cons in E2. apply app_eq_nil in E2 as [E2 _].
    apply fmap_nil_inv, slices_nil_inv in E2. done.
Qed.

Lemma dispatch_result_wp s (c : @DispatchConsumer D I) m ds tenant w :
  dispatch_consumer cfg s = Some c →
  wp (dc_handle c m ds tenant) (λ r _, dispatch_result_ok s m r) (λ _ _, True) (λ _, True) w.
Proof.
  destruct s; intros [= <-]; cbn [dc_handle syncBaseProductDispatch syncBaseProductStockDispatch
    importDispatch calcDispatch updatePropertiesDispatch syncProductItemsDispatch
    applyPriceDispatch].
  - apply wp_bind. eapply wp_mono; [apply wp_successor| |done..].
    intros succ w1 [now0 ->]. destruct ds as [i|]; [|one_successor].
    apply wp_bind_any. intros rows w2.
    destruct (chunkEmbalagensByEan rows SYNC_BATCH_SIZE) eqn:E; [one_successor|].
    apply wp_bind, wp_gets. one_queue.
  - apply wp_bind_any. intros [|sl slices] w1; [by apply wp_join_dispatch|].
    apply wp_bind, wp_gets. one_queue.
  - unfold importDispatch_handle. apply wp_bind_any. intros [|o os] w1; [by apply wp_join_dispatch|].
    apply wp_bind_any. intros [|e es] w2; [by apply wp_join_dispatch|].
    apply wp_bind, wp_gets, wp_ret. by apply scrape_ok.
  - apply wp_bind. eapply wp_mono; [apply wp_successor| |done..].
    intros succ w1 [now0 ->]. apply wp_bind_any. intros [|e es] w2; [one_successor|].
    apply wp_bind, wp_gets. one_queue.
  - apply wp_bind_any. intros [|p ps] w1.
    + apply wp_bind. eapply wp_mono; [apply wp_successor| |done..].
      intros succ w2 [now0 ->]. one_successor.
    + apply wp_bind, wp_gets. one_queue.
  - apply wp_bind_any. intros tid w1. apply wp_bind_any. intros [|st sts] w2; [by apply wp_ret, empty_ok|].
    apply wp_bind_any. intros [|p ps] w3; [by apply wp_ret, empty_ok|].
    apply wp_bind, wp_gets. one_queue.
  - apply wp_bind_any. intros [|i items] w1.
    { apply wp_bind_any. intros _ w2. by apply wp_ret, empty_ok. }
    apply wp_bind_any. intros creds w2. destruct (negb creds).
    { apply wp_bind_any. intros _ w3. apply wp_bind_any. intros _ w4. by apply wp_ret, empty_ok. }
    apply wp_bind_any. intros _ w3. apply wp_bind_any. intros _ w4.
    apply wp_bind, wp_gets. one_queue.
Qed.

(** The single-queue steps of the daily pipeline. *)
Definition base_consumer (s : PipelineStep) : option (@BaseConsumer D I) :=
  match s with
  | SYNC_STORES => Some syncStores
  | SYNC_OFFER_BOOKS_INFO => Some syncOfferBooksInfo
  | EXECUTE_OFFER_BOOK_RULE => Some executeOfferBookRule
  | _ => None
  end.

Lemma base_result_wp s (c : @BaseConsumer D I) m ds w :
  base_consumer s = Some c →
  wp (bc_handle c m ds) (λ ms _, dag_successors s m ms) (λ _ _, True) (λ _, True) w.
Proof.
  destruct s; intros [= <-]; cbn [bc_handle syncStores syncOfferBooksInfo executeOfferBookRule];
    apply wp_bind_any; intros _ w1; [| |by apply wp_ret];
    (apply wp_bind; eapply wp_mono; [apply wp_successor| |done..];
     intros succ w2 [now ->]; apply wp_ret; left; eauto).
Qed.

End DispatchPosts.

(** [C6] What the steps of the pipeline emit, for every source data and
    every fault: a dispatcher returns batches numbered 1..N in order, of its
    run, tenant and step, each routed to a declared queue whose consumer
    executes that step; and the only messages a step hands over (on the last
    batch, on an empty dispatch, or from a single-queue step) are one message
    to the next step of the graph, or none at a terminal step or a join that
    still waits for its sibling. *)
Theorem steps_emit_along_the_graph {D I} `{StepImplsLaws D I} cfg (s : PipelineStep)
    (m : Message) (ds : option I) (w : World D) :
  (∀ c tenant, dispatch_consumer cfg s = Some c →
     ∀ r w', dc_handle c m ds tenant w = (Done r, w') → dispatch_result_ok s m r)
  ∧ (∀ c, batch_consumer s = Some c →
     ∀ ms w', bt_successors c m ds w = (Done ms, w') → dag_successors s m ms)
  ∧ (∀ c, base_consumer s = Some c →
     ∀ ms w', bc_handle c m ds w = (Done ms, w') → dag_successors s m ms).
Proof.
  split_and!.
  - intros c tenant Hc r w' E. pose proof (dispatch_result_wp cfg s c m ds tenant w Hc) as Hwp.
    by rewrite wp_elim, E in Hwp.
  - intros c Hc ms w' E. destruct (batch_consumer_laws s c Hc) as [_ L].
    pose proof (bl_successors_post (c := c) m ds w) as Hwp. by rewrite wp_elim, E in Hwp.
  - intros c Hc ms w' E. pose proof (base_result_wp s c m ds w Hc) as Hwp.
    by rewrite wp_elim, E in Hwp.
Qed.

(** Two enabled EANs of one origin: two batches on the origin's queue; the
    last metrics batch hands over to the properties step. *)
Lemma steps_emit_along_the_graph_witness :
  let m := dispatch_msg IMPORT_COMPETITOR_PRODUCTS in
  let w := toy_world [] [] in
  ∃ r w', dc_handle toy_import_dispatch m None toy_tenant w = (Done r, w')
  ∧ (work <$> dr_batches r) = toy_scrape_works
  ∧ dispatch_result_ok IMPORT_COMPETITOR_PRODUCTS m r.
Proof.
  intros m w. do 2 eexists. split_and!; [reflexivity|reflexivity|].
  exact (proj1 (@steps_emit_along_the_graph _ _ toy_impls toy_laws toy_cfg
    IMPORT_COMPETITOR_PRODUCTS m None w) toy_import_dispatch toy_tenant eq_refl _ _ eq_refl).
Defined.

(** The pipeline is a finite acyclic graph that covers the daily steps.
    Every hand-over goes to the entry queue of the next step, which is a
    declared queue, and to a step of higher rank, so a run ends; and every
    step of the daily pipeline is reached from the two steps that
    [pipeline.start] publishes, while the on-demand steps are not part of it. *)
Theorem pipeline_dag :
  (∀ s s' q, next_of s = Some (s', q) →
     default (step_str s') q = entry_queue s' ∧ entry_queue s' ∈ allStepQueueNames
     ∧ (step_rank s < step_rank s')%nat)
  ∧ ∀ s, (s ≠ APPLY_PRICE ∧ s ≠ EXECUTE_OFFER_BOOK_RULE)
     ↔ ∃ s0, (s0 = SYNC_BASE_PRODUCT ∨ s0 = SYNC_OFFER_BOOKS_INFO) ∧ rtc hands_over s0 s.
Proof.
  split.
  - intros s s' q Hn. split_and!; [|apply entry_queue_known|];
      destruct s; simplify_eq/=; (reflexivity || lia).
  - intros s. split.
    + intros [Hn1 Hn2].
      exists (match s with SYNC_OFFER_BOOKS_INFO | IMPORT_COMPETITOR_PRODUCTS =>
                SYNC_OFFER_BOOKS_INFO | _ => SYNC_BASE_PRODUCT end).
      destruct s; try done; (split; [by auto|]);
        repeat first [apply rtc_refl | eapply rtc_l; [by eexists|]].
    + intros (s0 & Hs0 & Hr).
      assert (s0 ≠ APPLY_PRICE ∧ s0 ≠ EXECUTE_OFFER_BOOK_RULE) as Hne by naive_solver.
      clear Hs0. induction Hr as [|s1 s2 s3 [q Hq] Hr IH]; [done|]. apply IH.
      by destruct s1; simplify_eq/=.
Qed.
