(* ===== verification/Incidents.v ===== *)
(** Schedules under which the pipeline does not keep its promise.

    Each theorem runs the consumers of the development on a concrete world
    and fault schedule; they delimit the hypotheses of the positive theorems
    ([dispatch_loses_no_batch] needs deterministic slicing, the fan-in
    invariant needs COMPLETED rows to stay COMPLETED). *)

From Stdlib Require Import Ascii String.
From S2P Require Import Prelude JsText Enums Messages World RunService Outbox Consumers Logic Chunker Join BatchLaws DispatchLaws PipelineConsumers PipelineLaws.
Open Scope string_scope.
Open Scope list_scope.
Open Scope Z_scope.

(* ------------------------------------------------------------------ *)
(** * A commit whose acknowledgement is lost                            *)
(* ------------------------------------------------------------------ *)

Definition metrics_rows : list (RunKey * RunRow) :=
  [(("run", step_str CALC_BASE_PRODUCT_METRICS, 0), toy_fanin 2 0)].

(** The COMMIT of batch 1 takes effect and then reports a broken connection. *)
Definition commit_ack_lost : list (Fault * Z) :=
  repeat (FOk, 0) 7 ++ [(FThrowAfter (EError "Connection terminated"), 0)].

Definition calc_delivery (o : list (Fault * Z)) (w : World (list string)) :
    World (list string) :=
  (batch_process toy_cfg toy_forTenantSlug (@calcBatch _ _ toy_impls)
     (batch_msg CALC_BASE_PRODUCT_METRICS 1) (redelivered o w)).2.

(** The fan-in can close while a batch never ran.  Two batches are
    planned.  Batch 1 commits (work, COMPLETED, counter 1) but the driver
    reports the commit as failed, so the generic catch dead-letters the
    message and [fail] flips the COMPLETED row to FAILED; when the operator
    replays the dead letter, the batch runs again and the counter reaches 2:
    the next step is staged although batch 2 has not even started. *)
Theorem fanin_closes_early :
  let key n : RunKey := ("run", step_str CALC_BASE_PRODUCT_METRICS, n) in
  let w1 := calc_delivery commit_ack_lost (toy_world metrics_rows []) in
  let w2 := calc_delivery [] w1 in
  (db_data (w_db w1) = ["calc"] ∧ run_status (key 1) w1 = Some FAILED
   ∧ in_dlq toy_cfg (batch_msg CALC_BASE_PRODUCT_METRICS 1) w1)
  ∧ db_data (w_db w2) = ["calc"; "calc"]
  ∧ run_status (key 2) w2 = None
  ∧ (rr_batchesDone <$> db_runs (w_db w2) !! key 0) = Some 2
  ∧ (routingSegment ∘ ob_message <$> db_outbox (w_db w2))
    = ["update-base-product-properties.dispatch"].
Proof.
  intros key w1 w2. split_and!; try (vm_compute; reflexivity).
  vm_compute. by left.
Qed.

(* ------------------------------------------------------------------ *)
(** * Slicing that is not deterministic                                 *)
(* ------------------------------------------------------------------ *)

(** Tenant data: the EANs that miss each property. *)
Definition Missing : Type := list (PropertiesPass * list string).

Definition missing_of (p : PropertiesPass) (d : Missing) : list string :=
  default [] (js_map_get p d).

(** The properties step fills in what its slice misses. *)
Definition fill (p : PropertiesPass) (eans : list string) (d : Missing) : Missing :=
  js_map_set p (filter (λ e, e ∉ eans) (missing_of p d)) d.

Definition missing_impls : StepImpls Missing unit := {|
  si_syncBaseProduct := λ _ _, mret ();
  si_syncBaseProductStock := λ _ _, mret ();
  si_importCompetitorProducts := λ _ _ _, mret ();
  si_calcBaseProductMetrics := λ _ _, mret ();
  si_updateBaseProductProperties := λ p es,
    sql_write EmConn (λ db, Build_Db (db_runs db) (db_outbox db) (fill p es (db_data db)));
  si_syncProductItems := λ _ _ _, mret ();
  si_syncStores := λ _ _, mret ();
  si_syncOfferBooksInfo := λ _, mret ();
  si_applyPrice := λ _ _ _, mret ();
  si_executeOfferBookRule := λ _ _, mret ();
  si_findAllValidWithBarcode := λ _, mret [];
  si_findAllEans := mret [];
  si_findEansMissing := λ p, sql_read EmConn (λ db, missing_of p (db_data db));
  si_findEnabledOrigins := λ _, mret [];
  si_resolveTenantId := λ s, mret s;
  si_activeStores := λ _, mret [];
  si_productsByEan := mret [];
  si_applyItemIds := λ _, mret [];
  si_getApiCredentials := λ _, mret true;
  si_setRunDone := λ _, mret ();
  si_failPendingItems := λ _, mret ();
  si_setRunAllFailed := λ _, mret ();
  si_setRunRunning := λ _, mret ();
  si_setItemsBatchSeq := λ _ _, mret ();
|}.

Definition missing_world (d : Missing) : World Missing :=
  Build_World (Build_Db ∅ [] d) None [toy_tenant] [] [] 1000 [] (false, false).

Definition missing_fts (_ : string) : M Missing (option unit) := mret None.

Definition properties_dispatch (o : list (Fault * Z)) (w : World Missing) : World Missing :=
  (dispatch_process toy_cfg missing_fts (@updatePropertiesDispatch _ _ missing_impls)
     (dispatch_msg UPDATE_BASE_PRODUCT_PROPERTIES) (redelivered o w)).2.

Definition properties_batch (m : Message) (w : World Missing) : World Missing :=
  (batch_process toy_cfg missing_fts (@updatePropertiesBatch _ _ missing_impls) m
     (redelivered [] w)).2.

(** The process dies right after publishing the first batch. *)
Definition dies_after_first_publish : list (Fault * Z) :=
  repeat (FOk, 0) 13 ++ [(FCrashAfter, 0)].

(** A restarted properties dispatch can stall the run.  One EAN misses
    its supplier and its name: two batches.  The dispatcher dies after
    publishing the first one; that batch executes and fills the supplier.
    The redelivered dispatcher queries the candidates again: only the name
    pass is left, it is numbered 1, and seq 1 is already done, so nothing is
    emitted and the plan shrinks to one batch, which is already counted.  The
    dispatch row is COMPLETED, every published batch is executed, the name is
    never filled, and no batch is left to stage the next step: the run ends
    without [sync-stores]. *)
Theorem properties_restart_stalls :
  let key n : RunKey := ("run", step_str UPDATE_BASE_PRODUCT_PROPERTIES, n) in
  let w0 := missing_world [(PassSupplier, ["1"]); (PassName, ["1"])] in
  let w1 := properties_dispatch dies_after_first_publish w0 in
  let w2 := foldl (λ w p, properties_batch (pb_msg p) w) w1 (w_amqp w1) in
  let w3 := properties_dispatch [] w2 in
  (seqOf ∘ pb_msg <$> w_amqp w1) = [1]
  ∧ run_status (key 1) w2 = Some COMPLETED
  ∧ run_status (key 0) w3 = Some COMPLETED
  ∧ w_amqp w3 = w_amqp w1
  ∧ db_outbox (w_db w3) = []
  ∧ missing_of PassName (db_data (w_db w3)) = ["1"]
  ∧ (db_runs (w_db w3) !! key 0 ≫= λ r, planned ← rr_batchesPlanned r;
       Some (planned, rr_batchesDone r)) = Some (1, 1).
Proof. intros key w0 w1 w2 w3. split_and!; vm_compute; reflexivity. Qed.
