(* ===== verification/Classification.v ===== *)
(** The classification tree index ([tenant-api/classification/
    classification-index.ts]): depth of a node, subtree tests, and the set
    of a subtree's nodes, as the pricing rules consume them.

    [buildClassificationIndex] recurses over [parentId] without a cycle
    check: on cyclic rows the recursion exhausts the stack.  The model
    recurses with fuel [length rows], and [build_index_ok] shows the fuel
    runs out exactly on cyclic rows. *)

From Stdlib Require Import Ascii String.
From S2P Require Import Prelude JsText.
Open Scope string_scope.
Open Scope list_scope.
Open Scope Z_scope.

(* ------------------------------------------------------------------ *)
(** * Definitions                                                       *)
(* ------------------------------------------------------------------ *)

Record ClassificationRow := {
  cr_id : string;
  cr_name : string;
  cr_parentId : option string;
}.

(** The object [buildClassificationIndex] returns: the interface the rule
    matcher is written against. *)
Record ClassificationIndex := {
  depthById : gmap string Z;
  isUnder : option string → string → bool;
  idsOverlap : string → string → bool;
  expandSubtree : list string → list string;
}.

Section Build.
Context (rows : list ClassificationRow).

(** [new Map(rows.map((r) => [r.id, r]))] *)
Definition byId : gmap string ClassificationRow :=
  foldl (λ m r, <[cr_id r := r]> m) ∅ rows.

(** [byId.get(cur)?.parentId], when truthy *)
Definition parentOf (id : string) : option string :=
  r ← byId !! id; truthy (cr_parentId r).

Definition stack_overflow : Exn := EError "Maximum call stack size exceeded".

Fixpoint memoDepth (fuel : nat) (id : string) (depths : gmap string Z) : Res (Z * gmap string Z) :=
  match depths !! id with
  | Some cached => Ok (cached, depths)
  | None =>
      match byId !! id with
      | None => Ok (0, depths)
      | Some row =>
          match truthy (cr_parentId row) with
          | None => Ok (0, <[id := 0]> depths)
          | Some p =>
              match fuel with
              | O => Throw stack_overflow
              | S f => '(d, depths') ← memoDepth f p depths;
                       Ok (d + 1, <[id := d + 1]> depths')
              end
          end
      end
  end.

Fixpoint memo_all (fuel : nat) (ids : list string) (depths : gmap string Z) : Res (gmap string Z) :=
  match ids with
  | [] => Ok depths
  | id :: ids' => '(_, depths') ← memoDepth fuel id depths; memo_all fuel ids' depths'
  end.

(** The [while (cur)] walk; [None] when the fuel runs out. *)
Fixpoint ancestorsOf (fuel : nat) (cur : option string) : option (list string) :=
  match truthy cur with
  | None => Some []
  | Some id =>
      match fuel with
      | O => None
      | S f => chain ← ancestorsOf f (parentOf id); Some (id :: chain)
      end
  end.

(** [childrenOf.get(id) ?? []]: the rows naming [id], in order. *)
Definition childrenOf (id : string) : list string :=
  omap (λ r, match truthy (cr_parentId r) with
             | Some p => if decide (p = id) then Some (cr_id r) else None
             | None => None
             end) rows.

(** The [while (stack.length)] loop.  The top of the stack is the head of
    the list; [out] is the [Set] in insertion order. *)
Fixpoint expand_loop (fuel : nat) (stack out : list string) : list string :=
  match stack, fuel with
  | [], _ | _, O => out
  | id :: stack', S f =>
      if decide (id ∈ out) then expand_loop f stack' out
      else expand_loop f (reverse (childrenOf id) ++ stack') (out ++ [id])
  end.

Definition expand (rootIds : list string) : list string :=
  expand_loop (length rootIds + length rows) (reverse rootIds) [].

Definition is_under (nodeId : option string) (ancestorId : string) : bool :=
  match truthy nodeId with
  | None => false
  | Some n =>
      if decide (is_Some (byId !! ancestorId)) then
        match ancestorsOf (S (length rows)) (Some n) with
        | Some chain => bool_decide (ancestorId ∈ chain)
        | None => false
        end
      else false
  end.

Definition buildClassificationIndex : Res ClassificationIndex :=
  depths ← memo_all (length rows) (cr_id <$> rows) ∅;
  Ok {| depthById := depths;
        isUnder := is_under;
        idsOverlap := λ a b,
          if decide (a = b) then true else is_under (Some a) b || is_under (Some b) a;
        expandSubtree := expand |}.

End Build.

(* ------------------------------------------------------------------ *)
(** * Ancestors                                                         *)
(* ------------------------------------------------------------------ *)

Section Laws.
Context (rows : list ClassificationRow).
Implicit Types (id p a : string).

(** [p] is the parent of [id]. *)
Definition parent id p : Prop := parentOf rows id = Some p.
(** No infinite chain of parents. *)
Definition acyclic : Prop := ∀ id, Acc (λ p c, parent c p) id.

Lemma byId_elem_gen (m0 : gmap string ClassificationRow) id (r : ClassificationRow) :
  foldl (λ m r, <[cr_id r := r]> m) m0 rows !! id = Some r →
  m0 !! id = Some r ∨ r ∈ rows ∧ cr_id r = id.
Proof.
  revert m0. induction rows as [|x l IH]; simpl; intros m0 H; [by left|].
  destruct (IH _ H) as [[[Hk Hx]|[Hk Hx]]%lookup_insert_Some|[? ?]].
  - subst. right. split; [left|done].
  - by left.
  - right. split; [by right|done].
Qed.

Lemma byId_elem id r : byId rows !! id = Some r → r ∈ rows ∧ cr_id r = id.
Proof. intros [H|?]%byId_elem_gen; [by rewrite lookup_empty in H|done]. Qed.

Lemma byId_dom_gen (m0 : gmap string ClassificationRow) id :
  is_Some (foldl (λ m r, <[cr_id r := r]> m) m0 rows !! id)
  ↔ is_Some (m0 !! id) ∨ id ∈ cr_id <$> rows.
Proof.
  revert m0. induction rows as [|x l IH]; intros m0; cbn [foldl].
  { rewrite fmap_nil, elem_of_nil. naive_solver. }
  rewrite IH, fmap_cons, elem_of_cons, lookup_insert_is_Some.
  destruct (decide (cr_id x = id)); naive_solver.
Qed.

Lemma byId_dom id : is_Some (byId rows !! id) ↔ id ∈ cr_id <$> rows.
Proof. unfold byId. rewrite byId_dom_gen, lookup_empty. split; [intros [[? [=]]|?]|]; auto. Qed.

Lemma truthy_Some (o : option string) s : truthy o = Some s ↔ o = Some s ∧ s ≠ "".
Proof. destruct o as [[|c t]|]; simpl; naive_solver. Qed.

Lemma parent_nonempty id p : parent id p → p ≠ "".
Proof. unfold parent, parentOf. intros (r & _ & [_ ?]%truthy_Some)%bind_Some. done. Qed.

Lemma parent_dom id p : parent id p → id ∈ cr_id <$> rows.
Proof. unfold parent, parentOf. intros (r & ? & _)%bind_Some. apply byId_dom. eauto. Qed.

(** On acyclic rows nothing is its own proper ancestor. *)
Lemma acyclic_irrefl id : acyclic → ¬ tc parent id id.
Proof.
  intros Hac. induction (Hac id) as [x _ IH]. intros Htc.
  inversion Htc as [? ? H|? y ? H Hr]; subst.
  - by apply (IH _ H), tc_once.
  - apply (IH _ H). by apply tc_r with x.
Qed.

(** ** The walk to the root *)

Definition walk_spec (cur : option string) (chain : list string) : Prop :=
  match truthy cur with
  | None => chain = []
  | Some n => ∀ a, a ∈ chain ↔ rtc parent n a
  end.

Lemma ancestorsOf_spec fuel cur chain :
  ancestorsOf rows fuel cur = Some chain → walk_spec cur chain.
Proof.
  unfold walk_spec. revert cur chain. induction fuel as [|f IH]; intros cur chain; simpl.
  { destruct (truthy cur); naive_solver. }
  destruct (truthy cur) as [n|] eqn:Hn; [|by intros [= <-]].
  intros (ch & Hch & [= <-])%bind_Some. specialize (IH _ _ Hch).
  destruct (parentOf rows n) as [p|] eqn:Hp.
  - pose proof (parent_nonempty n p Hp) as Hne.
    assert (truthy (Some p) = Some p) as E by (by apply truthy_Some). rewrite E in IH.
    intros a. rewrite elem_of_cons, IH. split.
    + intros [->|H]; [done|]. by apply rtc_l with p.
    + intros H. inversion H as [|? y ? Hy Hr]; subst; [by left|right].
      unfold parent in Hy. congruence.
  - simpl in IH. subst. intros a. rewrite list_elem_of_singleton. split; [by intros ->|].
    intros H. inversion H as [|? y ? Hy Hr]; subst; [done|]. unfold parent in Hy. congruence.
Qed.

(** A chain of distinct nodes below a node bounds the fuel still needed. *)
Definition visited (path : list string) (id : string) : Prop :=
  NoDup path ∧ Forall (λ d, tc parent d id ∧ d ∈ cr_id <$> rows) path.

Lemma visited_step path id p :
  acyclic → visited path id → parent id p → visited (id :: path) p.
Proof.
  intros Hac [Hnd Hall] Hp. split.
  - constructor; [|done]. intros Hin. rewrite Forall_forall in Hall.
    destruct (Hall _ Hin) as [Htc _]. by apply (acyclic_irrefl id Hac).
  - constructor; [split; [by apply tc_once|by eapply parent_dom]|].
    eapply Forall_impl; [exact Hall|]. simpl. intros d [? ?]. split; [by eapply tc_r|done].
Qed.

Lemma visited_bound path id : visited path id → (length path ≤ length rows)%nat.
Proof.
  intros [Hnd Hall]. rewrite <- (length_fmap cr_id rows). apply submseteq_length, NoDup_submseteq; [done|].
  intros d Hd. rewrite Forall_forall in Hall. by apply Hall.
Qed.

Lemma ancestorsOf_total fuel path cur :
  acyclic → (∀ n, truthy cur = Some n → visited path n) →
  (length rows < fuel + length path)%nat →
  is_Some (ancestorsOf rows fuel cur).
Proof.
  intros Hac. revert path cur. induction fuel as [|f IH]; intros path cur Hv Hlen; simpl.
  { destruct (truthy cur) as [n|] eqn:Hn; [|done].
    pose proof (visited_bound _ _ (Hv n eq_refl)). lia. }
  destruct (truthy cur) as [n|] eqn:Hn; [|done].
  destruct (IH (n :: path) (parentOf rows n)) as [ch ->].
  - intros p [Hp _]%truthy_Some. by apply visited_step; auto.
  - simpl. lia.
  - simpl. done.
Qed.

Lemma visited_nil id : visited [] id.
Proof. split; [apply NoDup_nil_2|by constructor]. Qed.

Lemma ancestorsOf_ok cur : acyclic → is_Some (ancestorsOf rows (S (length rows)) cur).
Proof.
  intros Hac. apply (ancestorsOf_total _ [] cur Hac); [|simpl; lia].
  intros n _. apply visited_nil.
Qed.

(** [isUnder] is the reflexive-transitive closure of [parent], restricted to
    ancestors that are rows. *)
Lemma is_under_spec node a :
  acyclic →
  is_under rows node a = true ↔
  ∃ n, truthy node = Some n ∧ rtc parent n a ∧ a ∈ cr_id <$> rows.
Proof.
  intros Hac. unfold is_under. destruct (truthy node) as [n|] eqn:Hn; [|naive_solver].
  apply truthy_Some in Hn as [-> Hne].
  assert (truthy (Some n) = Some n) as E by (by apply truthy_Some).
  destruct (ancestorsOf_ok (Some n) Hac) as [ch Hch]. rewrite Hch.
  pose proof (ancestorsOf_spec _ _ _ Hch) as Hs. unfold walk_spec in Hs. rewrite E in Hs.
  case_decide as Hd; rewrite byId_dom in Hd; [rewrite bool_decide_eq_true, Hs|]; naive_solver.
Qed.

(* ------------------------------------------------------------------ *)
(** * Depths                                                            *)
(* ------------------------------------------------------------------ *)

(** [n] is [k] steps below the root of its chain. *)
Inductive depth_of : string → Z → Prop :=
| depth_root id : parentOf rows id = None → depth_of id 0
| depth_child id p k : parent id p → depth_of p k → depth_of id (k + 1).

Lemma depth_of_fun id k k' : depth_of id k → depth_of id k' → k = k'.
Proof.
  unfold parent. intros H. revert k'. induction H as [id H|id p k Hp Hd IH]; intros k' H'.
  - destruct H' as [|id p k' Hp']; [done|]. unfold parent in *. congruence.
  - destruct H' as [|id p' k' Hp']; unfold parent in *; [congruence|].
    simplify_eq. f_equal. by apply IH.
Qed.

Lemma depth_of_acc id k : depth_of id k → Acc (λ p c, parent c p) id.
Proof.
  unfold parent. induction 1 as [id H|id p k Hp Hd IH]; constructor; intros y Hy.
  - unfold parent in Hy. congruence.
  - unfold parent in *. by simplify_eq.
Qed.

(** Entries of the memo are depths of rows. *)
Definition memo_ok (m : gmap string Z) : Prop :=
  ∀ id k, m !! id = Some k → depth_of id k ∧ id ∈ cr_id <$> rows.

Lemma memoDepth_ok fuel id m d m' :
  memo_ok m → memoDepth rows fuel id m = Ok (d, m') →
  memo_ok m' ∧ depth_of id d ∧ m ⊆ m' ∧ (id ∈ cr_id <$> rows → m' !! id = Some d).
Proof.
  revert id d m'. induction fuel as [|f IH]; intros id d m' Hm; cbn [memoDepth];
    (destruct (m !! id) as [c|] eqn:Hc;
     [intros [= -> ->]; split_and!; [done|by apply Hm|done|done]|]);
    (destruct (byId rows !! id) as [row|] eqn:Hr;
     [|intros [= <- <-]; split_and!; [done| |done|];
       [constructor; unfold parentOf; by rewrite Hr
       |intros Hin%byId_dom; rewrite Hr in Hin; by destruct Hin]]);
    assert (id ∈ cr_id <$> rows) as Hin by (apply byId_dom; eauto);
    (destruct (truthy (cr_parentId row)) as [p|] eqn:Hp; [try done|]).
  1, 3: intros [= <- <-]; assert (depth_of id 0) by (constructor; unfold parentOf; by rewrite Hr);
    (split_and!; [|done|by apply insert_subseteq|by rewrite lookup_insert_eq]);
    intros i k [[<- <-]|[_ ?]]%lookup_insert_Some; [done|by apply Hm].
  intros ([d0 m0] & Hd0 & [= <- <-])%Res_bind_Ok.
  destruct (IH _ _ _ Hm Hd0) as (Hm0 & Hdep & Hsub & _).
  assert (depth_of id (d0 + 1)).
  { apply depth_child with p; [|done]. unfold parent, parentOf. by rewrite Hr. }
  split_and!; [|done| |by rewrite lookup_insert_eq].
  - intros i k [[<- <-]|[_ ?]]%lookup_insert_Some; [done|by apply Hm0].
  - destruct (m0 !! id) as [k|] eqn:Hk.
    + destruct (Hm0 _ _ Hk) as [Hk' _]. rewrite (depth_of_fun _ _ _ H Hk').
      by rewrite insert_id.
    + etrans; [exact Hsub|]. by apply insert_subseteq.
Qed.

Lemma memo_all_ok fuel ids m m' :
  memo_ok m → memo_all rows fuel ids m = Ok m' →
  memo_ok m' ∧ m ⊆ m' ∧ ∀ id, id ∈ ids → id ∈ cr_id <$> rows → is_Some (m' !! id).
Proof.
  revert m. induction ids as [|id ids IH]; intros m Hm; cbn [memo_all].
  { intros [= <-]. split_and!; [done|done|]. by intros ? ?%elem_of_nil. }
  intros ([d m0] & Hd & Ha)%Res_bind_Ok.
  destruct (memoDepth_ok _ _ _ _ _ Hm Hd) as (Hm0 & _ & Hs0 & Hin0).
  destruct (IH _ Hm0 Ha) as (Hm' & Hs & Hin). split_and!; [done|by etrans|].
  intros i [->|Hi]%elem_of_cons Hr; [|by apply Hin].
  exists d. eapply lookup_weaken; [|exact Hs]. by apply Hin0.
Qed.

Lemma memoDepth_total fuel path id m :
  acyclic → visited path id → (length rows < S fuel + length path)%nat →
  ∃ d m', memoDepth rows fuel id m = Ok (d, m').
Proof.
  intros Hac. revert path id. induction fuel as [|f IH]; intros path id Hv Hlen; cbn [memoDepth];
    (destruct (m !! id) as [c|]; [eauto|]);
    (destruct (byId rows !! id) as [row|] eqn:Hr; [|eauto]);
    (destruct (truthy (cr_parentId row)) as [p|] eqn:Hp; [|eauto]);
    assert (parent id p) as Hpar by (unfold parent, parentOf; by rewrite Hr).
  - pose proof (visited_bound _ _ (visited_step _ _ _ Hac Hv Hpar)). simpl in *. lia.
  - destruct (IH (id :: path) p) as (d & m' & ->); [by apply visited_step|simpl; lia|].
    simpl. eauto.
Qed.

Lemma memo_all_total ids m : acyclic → ∃ m', memo_all rows (length rows) ids m = Ok m'.
Proof.
  intros Hac. revert m. induction ids as [|id ids IH]; intros m; cbn [memo_all]; [eauto|].
  destruct (memoDepth_total (length rows) [] id m Hac (visited_nil id)) as (d & m' & ->); [simpl; lia|].
  simpl. apply IH.
Qed.

(** The index is built exactly when the rows are acyclic. *)
Lemma build_index_ok : isOk (buildClassificationIndex rows) = true ↔ acyclic.
Proof.
  unfold buildClassificationIndex. split.
  - destruct (memo_all _ _ _ _) as [m|e] eqn:Hm; [|done]. intros _.
    assert (memo_ok ∅) as H0 by (intros ? ?; by rewrite lookup_empty).
    destruct (memo_all_ok _ _ _ _ H0 Hm) as (Hok & _ & Hall).
    intros id. destruct (decide (id ∈ cr_id <$> rows)) as [Hin|Hni].
    + destruct (Hall id Hin Hin) as [k Hk]. by eapply depth_of_acc, Hok.
    + constructor. intros p Hp. destruct Hni. by eapply parent_dom.
  - intros Hac. destruct (memo_all_total (cr_id <$> rows) ∅ Hac) as [m ->]. done.
Qed.

(* ------------------------------------------------------------------ *)
(** * Subtrees                                                          *)
(* ------------------------------------------------------------------ *)

Definition child (p c : string) : Prop := c ∈ childrenOf rows p.

(** Rows whose parent is not expanded yet: each will be pushed once. *)
Definition open_edges (out : list string) : nat :=
  length (filter (λ p, p ∉ out) (omap (λ r, truthy (cr_parentId r)) rows)).

Lemma open_edges_expand out id :
  id ∉ out → open_edges out = (length (childrenOf rows id) + open_edges (out ++ [id]))%nat.
Proof.
  intros Hni. unfold open_edges, childrenOf. induction rows as [|r l IH]; [done|].
  cbn [omap list_omap] in *.
  destruct (truthy (cr_parentId r)) as [p|] eqn:Hp; [|done].
  rewrite !filter_cons. destruct (decide (p = id)) as [->|Hne].
  - rewrite (decide_True (P := id ∉ out)) by done.
    rewrite (decide_False (P := id ∉ out ++ [id])) by set_solver. simpl. by rewrite IH.
  - destruct (decide (p ∉ out)), (decide (p ∉ out ++ [id])); try set_solver.
    simpl. rewrite IH. lia.
Qed.

(** Invariant of the work list, for the roots it started from. *)
Record expand_inv (roots stack out : list string) : Prop := {
  ei_sound : ∀ x, x ∈ stack ∨ x ∈ out → ∃ r, r ∈ roots ∧ rtc child r x;
  ei_roots : ∀ r, r ∈ roots → r ∈ stack ∨ r ∈ out;
  ei_closed : ∀ x c, x ∈ out → child x c → c ∈ stack ∨ c ∈ out;
  ei_nodup : NoDup out;
}.

Lemma expand_step_old roots id stack out :
  id ∈ out → expand_inv roots (id :: stack) out → expand_inv roots stack out.
Proof.
  intros Hin [Hs Hr Hc Hn]. split; [|..|done].
  - intros x [?|?]; apply Hs; [left; by right|by right].
  - intros r [[->|?]%elem_of_cons|?]%Hr; auto.
  - intros x c Hx [[->|?]%elem_of_cons|?]%(Hc x c Hx); auto.
Qed.

Lemma expand_step_new roots id stack out :
  id ∉ out → expand_inv roots (id :: stack) out →
  expand_inv roots (reverse (childrenOf rows id) ++ stack) (out ++ [id]).
Proof.
  intros Hni [Hs Hr Hc Hn].
  assert (∀ x, x ∈ reverse (childrenOf rows id) ++ stack ↔ child id x ∨ x ∈ stack) as Hst
    by (intros; by rewrite elem_of_app, elem_of_reverse).
  assert (∀ x, x ∈ out ++ [id] ↔ x ∈ out ∨ x = id) as Hout
    by (intros; by rewrite elem_of_app, list_elem_of_singleton).
  split.
  - intros x. rewrite Hst, Hout.
    assert (id ∈ id :: stack) as Hid by left. destruct (Hs id (or_introl Hid)) as (r & ? & Hrt).
    intros [[Hch|Hin]|[Hin| ->]]; [|apply Hs; left; by right|apply Hs; by right|by exists r].
    exists r. split; [done|]. by eapply rtc_r.
  - intros r [[->|?]%elem_of_cons|?]%Hr; rewrite Hst, Hout; auto.
  - intros x c. rewrite Hst, !Hout. intros [Hx| ->] Hch; [|by auto].
    destruct (Hc x c Hx Hch) as [[->|?]%elem_of_cons|?]; auto.
  - apply NoDup_app. split_and!; [done| |apply NoDup_singleton].
    intros x Hx ->%list_elem_of_singleton. done.
Qed.

Lemma expand_loop_inv roots fuel stack out :
  expand_inv roots stack out → (length stack + open_edges out ≤ fuel)%nat →
  expand_inv roots [] (expand_loop rows fuel stack out).
Proof.
  revert stack out. induction fuel as [|f IH]; intros [|id stack] out Hi Hf; simpl in *; try done; try lia.
  case_decide as Hd.
  - apply IH; [by apply (expand_step_old _ id)|lia].
  - apply IH; [by apply expand_step_new|].
    rewrite length_app, length_reverse. rewrite (open_edges_expand out id Hd) in Hf. lia.
Qed.

Lemma open_edges_nil : (open_edges [] ≤ length rows)%nat.
Proof.
  unfold open_edges. etrans; [apply length_filter|].
  induction rows as [|r l IH]; [done|]. cbn [omap list_omap length] in *.
  destruct (truthy _); cbn [length]; lia.
Qed.

(** The fuel of [expand] is enough: the result is the closure of the roots. *)
Lemma expand_spec roots x :
  x ∈ expand rows roots ↔ ∃ r, r ∈ roots ∧ rtc child r x.
Proof.
  destruct (expand_loop_inv roots (length roots + length rows) (reverse roots) [])
    as [Hs Hr Hc _].
  - split; [|..|apply NoDup_nil_2].
    + intros y [Hy|Hy]; [|by apply elem_of_nil in Hy]. exists y.
      by rewrite elem_of_reverse in Hy.
    + intros r Hr. left. by rewrite elem_of_reverse.
    + by intros y c Hy%elem_of_nil.
  - rewrite length_reverse. pose proof open_edges_nil. lia.
  - split; [intros Hx; apply Hs; by right|].
    intros (r & Hin & Hrt). assert (r ∈ expand rows roots) as H0.
    { destruct (Hr r Hin) as [?%elem_of_nil|?]; done. }
    clear Hin. induction Hrt as [r|r y z Hch _ IH]; [done|]. apply IH.
    by destruct (Hc r y H0 Hch) as [?%elem_of_nil|?].
Qed.

Lemma child_parent p c :
  NoDup (cr_id <$> rows) → child p c ↔ parent c p.
Proof.
  intros Hnd. unfold child, parent, parentOf, childrenOf. rewrite list_elem_of_omap. split.
  - intros (r & Hr & Hx).
    destruct (truthy (cr_parentId r)) as [q|] eqn:Hq; [|done]. case_decide; simplify_eq.
    assert (is_Some (byId rows !! cr_id r)) as [r' Hr'].
    { apply byId_dom, list_elem_of_fmap. eauto. }
    destruct (byId_elem _ _ Hr') as [Hin' Hid']. rewrite Hr'. simpl.
    assert (r' = r) as ->; [|done].
    apply list_elem_of_lookup in Hr as [i Hi]. apply list_elem_of_lookup in Hin' as [j Hj].
    assert (i = j) as ->; [|by simplify_eq].
    eapply (NoDup_lookup _ _ _ (cr_id r) Hnd); rewrite list_lookup_fmap.
    + by rewrite Hi.
    + rewrite Hj. simpl. by rewrite Hid'.
  - intros (r & Hr & Hp)%bind_Some. destruct (byId_elem _ _ Hr) as [? <-].
    exists r. split; [done|]. rewrite Hp. by rewrite decide_True.
Qed.

Lemma rtc_child_parent p c :
  NoDup (cr_id <$> rows) → rtc child p c ↔ rtc parent c p.
Proof.
  intros Hnd. split; induction 1 as [|x y z H _ IH]; try done.
  - apply rtc_r with y; [done|]. by apply child_parent.
  - apply rtc_r with y; [done|]. by apply child_parent.
Qed.

Lemma depth_lt n a dn da :
  tc parent n a → depth_of n dn → depth_of a da → da < dn.
Proof.
  intros H. revert dn. induction H as [x y H|x y z H _ IH]; intros dn Hn Ha.
  - destruct Hn as [?|? p k Hp Hk]; unfold parent in *; [congruence|]. simplify_eq.
    rewrite (depth_of_fun _ _ _ Ha Hk). lia.
  - destruct Hn as [?|? p k Hp Hk]; unfold parent in *; [congruence|]. simplify_eq.
    specialize (IH k Hk Ha). lia.
Qed.

(** What a successful build promises. *)
Record index_spec (idx : ClassificationIndex) : Prop := {
  is_isUnder : ∀ node a, isUnder idx node a = true ↔
    ∃ n, truthy node = Some n ∧ rtc parent n a ∧ a ∈ cr_id <$> rows;
  is_depth : ∀ n, n ∈ cr_id <$> rows → ∃ k, depthById idx !! n = Some k ∧ depth_of n k;
  is_expand : ∀ roots x, x ∈ expandSubtree idx roots ↔ ∃ r, r ∈ roots ∧ rtc child r x;
}.

Lemma build_index_spec idx : buildClassificationIndex rows = Ok idx → index_spec idx.
Proof.
  intros Hb. assert (acyclic) as Hac by (apply build_index_ok; by rewrite Hb).
  unfold buildClassificationIndex in Hb. apply Res_bind_Ok in Hb as (m & Hm & [= <-]).
  assert (memo_ok ∅) as H0 by (intros ? ?; by rewrite lookup_empty).
  destruct (memo_all_ok _ _ _ _ H0 Hm) as (Hok & _ & Hall).
  split; simpl.
  - intros. by apply is_under_spec.
  - intros n Hn. destruct (Hall n Hn Hn) as [k Hk]. exists k. split; [done|]. by apply Hok.
  - apply expand_spec.
Qed.

Lemma rtc_tc_ne (n a : string) : rtc parent n a → n ≠ a → tc parent n a.
Proof. intros H Hne. apply rtc_tc in H as [?|?]; done. Qed.

(** Two ancestors of one node are one above the other. *)
Lemma rtc_parent_linear n a b : rtc parent n a → rtc parent n b → rtc parent a b ∨ rtc parent b a.
Proof.
  intros Ha. revert b. induction Ha as [x|x y a Hxy Hya IH]; intros b Hb; [by left|].
  inversion Hb as [|? y' ? Hy' Hyb]; subst.
  - right. by apply rtc_l with y.
  - unfold parent in Hxy, Hy'. rewrite Hxy in Hy'. injection Hy' as <-. by apply IH.
Qed.

Lemma rtc_parent_nonempty n a : n ≠ "" → rtc parent n a → a ≠ "".
Proof. intros Hn. induction 1 as [|x y z H _ IH]; [done|]. by apply IH, (parent_nonempty x). Qed.

(** Two classifications above one product overlap. *)
Lemma common_node_overlap idx node a b :
  buildClassificationIndex rows = Ok idx →
  isUnder idx node a = true → isUnder idx node b = true → idsOverlap idx a b = true.
Proof.
  intros Hb Ha Hb'. pose proof (build_index_spec _ Hb) as [Hu _ _].
  assert (acyclic) as Hac by (apply build_index_ok; by rewrite Hb).
  apply Hu in Ha as (n & Hn & Hna & Hia). apply Hu in Hb' as (n' & Hn' & Hnb & Hib). simplify_eq.
  apply truthy_Some in Hn as [-> Hne].
  pose proof (rtc_parent_nonempty _ _ Hne Hna) as Hnea. pose proof (rtc_parent_nonempty _ _ Hne Hnb) as Hneb.
  unfold buildClassificationIndex in Hb. apply Res_bind_Ok in Hb as (m & _ & [= <-]). simpl.
  case_decide; [done|]. apply orb_true_iff. rewrite !is_under_spec by done.
  destruct (rtc_parent_linear _ _ _ Hna Hnb) as [H1|H1]; [left; exists a|right; exists b];
    (split; [by apply truthy_Some|done]).
Qed.

End Laws.

(** The classification index is built exactly when the [parentId]
    links have no cycle: on acyclic rows both recursions terminate, and on
    cyclic rows the depth recursion never returns (the fuel, one unit per
    row, runs out). *)
Theorem index_total_iff_acyclic (rows : list ClassificationRow) :
  isOk (buildClassificationIndex rows) = true ↔ acyclic rows.
Proof. apply build_index_ok. Qed.

(** On rows with distinct ids the three views of the tree agree:
    [isUnder] is the ancestor relation, an ancestor is strictly shallower
    than its proper descendants (so the deepest match of a rule is the most
    specific one), [expandSubtree] of a row is exactly what is under it, and
    [idsOverlap] says that the two subtrees share a node. *)
Theorem index_views_agree (rows : list ClassificationRow) idx :
  NoDup (cr_id <$> rows) → buildClassificationIndex rows = Ok idx →
  (∀ n a, n ≠ "" → isUnder idx (Some n) a = true ↔ rtc (parent rows) n a ∧ a ∈ cr_id <$> rows) ∧
  (∀ n a, n ∈ cr_id <$> rows → n ≠ a → isUnder idx (Some n) a = true →
     ∃ dn da, depthById idx !! n = Some dn ∧ depthById idx !! a = Some da ∧ da < dn) ∧
  (∀ roots x, x ≠ "" → Forall (λ r, r ∈ cr_id <$> rows) roots →
     x ∈ expandSubtree idx roots ↔ ∃ r, r ∈ roots ∧ isUnder idx (Some x) r = true) ∧
  (∀ a b, a ∈ cr_id <$> rows → b ∈ cr_id <$> rows → a ≠ "" → b ≠ "" →
     idsOverlap idx a b = true ↔
     ∃ x, x ∈ expandSubtree idx [a] ∧ x ∈ expandSubtree idx [b]).
Proof.
  intros Hnd Hb. pose proof (build_index_spec _ _ Hb) as [Hu Hd He].
  assert (∀ n a, n ≠ "" → isUnder idx (Some n) a = true ↔ rtc (parent rows) n a ∧ a ∈ cr_id <$> rows) as Hu'.
  { intros n a Hn. rewrite Hu. assert (truthy (Some n) = Some n) as -> by (by apply truthy_Some).
    naive_solver. }
  assert (∀ r x, x ∈ expandSubtree idx [r] ↔ rtc (parent rows) x r) as He1.
  { intros r x. rewrite He. setoid_rewrite list_elem_of_singleton.
    setoid_rewrite rtc_child_parent; naive_solver. }
  split_and!; [done|..].
  - intros n a Hn Hne (n' & [[= ->] ?]%truthy_Some & Hr & Ha)%Hu.
    destruct (Hd _ Hn) as (dn & ? & Hdn), (Hd _ Ha) as (da & ? & Hda).
    exists dn, da. split_and!; [done|done|].
    eapply (depth_lt rows n' a); [by apply rtc_tc_ne|done|done].
  - intros roots x Hx Hroots. rewrite He. rewrite Forall_forall in Hroots.
    split; intros (r & Hr & H); exists r; (split; [done|]).
    + apply Hu'; [done|]. split; [by apply rtc_child_parent|by apply Hroots].
    + apply rtc_child_parent; [done|]. by apply Hu' in H as [? _].
  - intros a b Ha Hb' Hna Hnb. setoid_rewrite He1.
    assert (idsOverlap idx a b = true ↔ rtc (parent rows) a b ∨ rtc (parent rows) b a) as ->.
    { unfold buildClassificationIndex in Hb. apply Res_bind_Ok in Hb as (m & _ & Hb).
      injection Hb as <-. simpl in *. case_decide as Hab.
      - subst. split; [by left|done].
      - rewrite orb_true_iff. rewrite (Hu' a b Hna), (Hu' b a Hnb). naive_solver. }
    split; [intros [H|H]; [by exists a|by exists b]|].
    intros (x & Hxa & Hxb). by eapply rtc_parent_linear.
Qed.

Definition sample_rows : list ClassificationRow :=
  [ {| cr_id := "med"; cr_name := "MEDICAMENTOS"; cr_parentId := None |};
    {| cr_id := "gen"; cr_name := "GENERICOS"; cr_parentId := Some "med" |};
    {| cr_id := "dor"; cr_name := "DOR"; cr_parentId := Some "gen" |};
    {| cr_id := "out"; cr_name := "OUTROS"; cr_parentId := None |} ].

Lemma index_views_agree_witness :
  ∃ idx, buildClassificationIndex sample_rows = Ok idx ∧
    isUnder idx (Some "dor") "med" = true ∧ isUnder idx (Some "dor") "out" = false ∧
    expandSubtree idx ["med"] = ["med"; "gen"; "dor"] ∧
    ∃ dn da, depthById idx !! "dor" = Some dn ∧ depthById idx !! "med" = Some da ∧ da < dn.
Proof.
  destruct (buildClassificationIndex sample_rows) as [idx|e] eqn:Hb; [|by vm_compute in Hb].
  exists idx. split; [done|].
  assert (NoDup (cr_id <$> sample_rows)) as Hnd
    by (refine (proj1 (bool_decide_eq_true _) _); vm_compute; reflexivity).
  destruct (index_views_agree sample_rows idx Hnd Hb) as (_ & Hdep & _).
  assert (isUnder idx (Some "dor") "med" = true) as Hu
    by (unfold buildClassificationIndex in Hb; apply Res_bind_Ok in Hb as (m & _ & Hb);
        injection Hb as <-; vm_compute; reflexivity).
  split_and!; [done| | |].
  - unfold buildClassificationIndex in Hb. apply Res_bind_Ok in Hb as (m & _ & Hb).
    injection Hb as <-. by vm_compute.
  - unfold buildClassificationIndex in Hb. apply Res_bind_Ok in Hb as (m & _ & Hb).
    injection Hb as <-. by vm_compute.
  - apply Hdep; [|done|done]. refine (proj1 (bool_decide_eq_true _) _). vm_compute. reflexivity.
Defined.
