(* ===== verification/SuggestionEngine.v ===== *)
(** The price-suggestion engine ([tenant-api/pricing/
    pricing-suggestion.engine.ts]): which rule governs a product, and the
    price it suggests.  Pure code, over any number type of [JsNum]: the
    binary64 instance is what JavaScript computes, the exact one is what
    the margins mean.

    [SuggestionRule] is the rule as the services pass it to the engine
    ([SuggestionRuleApi] of suggestion-rules.service.ts), whose extra fields
    the engine ignores. *)

From Stdlib Require Import Ascii String.
From S2P Require Import Prelude JsText JsNumber Classification.
Open Scope string_scope.
Open Scope list_scope.
Open Scope Z_scope.

Inductive SuggestionTarget := precoVenda | precoOferta.
Inductive SuggestionStrategy := margem | concorrencia.
Inductive CompetitorMode := weighted | cascade | lowest.
Inductive SuggestionBasis := basis_concorrencia | basis_margem_minima | basis_margem_sem_concorrente.
Inductive NoSuggestionReason :=
| sem_regra | sem_custo | margem_ok | sem_concorrente | pbm | acima_do_venda | ja_no_alvo.

#[export] Instance SuggestionTarget_eq_dec : EqDecision SuggestionTarget.
Proof. solve_decision. Defined.
#[export] Instance SuggestionStrategy_eq_dec : EqDecision SuggestionStrategy.
Proof. solve_decision. Defined.
#[export] Instance CompetitorMode_eq_dec : EqDecision CompetitorMode.
Proof. solve_decision. Defined.
#[export] Instance SuggestionBasis_eq_dec : EqDecision SuggestionBasis.
Proof. solve_decision. Defined.
#[export] Instance NoSuggestionReason_eq_dec : EqDecision NoSuggestionReason.
Proof. solve_decision. Defined.

Record SuggestionProduct (N : Type) := {
  sp_ean : string;
  sp_classificationId : option string;
  sp_classificacao : string;
  sp_custo : N;
  sp_precoVenda : N;
  sp_precoOferta : N;
  sp_competitorPrices : gmap string N;
  sp_pbm : bool;
}.
Arguments Build_SuggestionProduct {N}.
Arguments sp_ean {N}. Arguments sp_classificationId {N}. Arguments sp_classificacao {N}.
Arguments sp_custo {N}. Arguments sp_precoVenda {N}. Arguments sp_precoOferta {N}.
Arguments sp_competitorPrices {N}. Arguments sp_pbm {N}.

Record SuggestionRule (N : Type) := {
  r_id : string;
  r_name : string;
  r_classifications : list string;
  r_storeIds : list string;
  r_clusterId : option string;
  r_clusterName : option string;
  r_excludeClusterIds : list string;
  r_strategy : SuggestionStrategy;
  r_minMargin : JsVal N;
  r_competitorMode : CompetitorMode;
  r_competitors : list (string * JsVal N);
  r_variationPct : JsVal N;
  r_noCompetitorMargin : JsVal N;
  r_priceControlled : bool;
  r_ignorePbm : bool;
  r_blockPbmInMargin : bool;
  r_cascadeByPriority : bool;
  r_applyRounding : bool;
  r_active : bool;
  r_createdAt : string;
  r_updatedAt : string;
}.
Arguments Build_SuggestionRule {N}.
Arguments r_id {N}. Arguments r_name {N}. Arguments r_classifications {N}.
Arguments r_storeIds {N}. Arguments r_clusterId {N}. Arguments r_clusterName {N}.
Arguments r_excludeClusterIds {N}. Arguments r_strategy {N}. Arguments r_minMargin {N}.
Arguments r_competitorMode {N}. Arguments r_competitors {N}. Arguments r_variationPct {N}.
Arguments r_noCompetitorMargin {N}. Arguments r_priceControlled {N}. Arguments r_ignorePbm {N}.
Arguments r_blockPbmInMargin {N}. Arguments r_cascadeByPriority {N}. Arguments r_applyRounding {N}.
Arguments r_active {N}. Arguments r_createdAt {N}. Arguments r_updatedAt {N}.

Record PriceRoundingRule (N : Type) := { decimal_min : N; decimal_max : N; round_to : N }.
Arguments Build_PriceRoundingRule {N}.
Arguments decimal_min {N}. Arguments decimal_max {N}. Arguments round_to {N}.

Record PriceRoundingRange (N : Type) := {
  price_min : N;
  price_max : N;
  pr_rules : list (PriceRoundingRule N);
}.
Arguments Build_PriceRoundingRange {N}.
Arguments price_min {N}. Arguments price_max {N}. Arguments pr_rules {N}.

(** One entry of [priceComposition]. *)
Record Quote (N : Type) := { q_competitor : string; q_price : N; q_weight : N }.
Arguments Build_Quote {N}.
Arguments q_competitor {N}. Arguments q_price {N}. Arguments q_weight {N}.

Record PriceSuggestion (N : Type) := {
  s_price : N;
  s_margin : N;
  s_rule : SuggestionRule N;
  s_target : SuggestionTarget;
  s_basis : SuggestionBasis;
  s_lockApplied : bool;
  s_priceComposition : option (list (Quote N));
}.
Arguments Build_PriceSuggestion {N}.
Arguments s_price {N}. Arguments s_margin {N}. Arguments s_rule {N}. Arguments s_target {N}.
Arguments s_basis {N}. Arguments s_lockApplied {N}. Arguments s_priceComposition {N}.

Inductive SuggestionResult (N : Type) :=
| Suggestion (suggestion : PriceSuggestion N)
| NoSuggestion (reason : NoSuggestionReason) (rule : option (SuggestionRule N)).
Arguments Suggestion {N}.
Arguments NoSuggestion {N}.

Section Engine.
Context {N : Type} `{JsNum N}.
Implicit Types (rule : SuggestionRule N) (product : SuggestionProduct N).
Open Scope js_scope.

Definition round2 (n : N) : N := n_round (n * #100) / #100.

Definition toFiniteNumber (value : JsVal N) (fallback : N) : N :=
  match value with
  | VNum n => if n_finite n then n else fallback
  | VNull => fallback
  | VStr s =>
      let parsed := js_Number (str_replace_first "," "." (str_replace_first "%" "" s)) in
      if n_finite parsed then parsed else fallback
  end.

Definition competitorPrice product (competitor : string) : N :=
  default (#0) (sp_competitorPrices product !! competitor).

Definition isExcluded rule (productClusterIds : list string) : bool :=
  negb (bool_decide (r_excludeClusterIds rule = []))
  && existsb (λ id, bool_decide (id ∈ productClusterIds)) (r_excludeClusterIds rule).

(** The [for (const c of classifications)] loop over the filters of a rule. *)
Definition deepest_match (index : ClassificationIndex) (classificationId : option string)
    (classifications : list string) : Z :=
  foldl (λ matchSpecificity c,
    if negb (isUnder index classificationId c) then matchSpecificity
    else let depth := default 0%Z (depthById index !! c) in
         if (matchSpecificity <? depth)%Z then depth else matchSpecificity)
    (-1)%Z classifications.

Definition match_specificity product rule (index : option ClassificationIndex) : Z :=
  match r_classifications rule with
  | [] => 0%Z
  | cs => match truthy (sp_classificationId product), index with
          | Some _, Some idx => deepest_match idx (sp_classificationId product) cs
          | _, _ => (-1)%Z
          end
  end.

(** [rule.createdAt < best.createdAt || (=== && rule.id < best.id)] *)
Definition wins_tie rule (best : SuggestionRule N) : bool :=
  str_ltb (r_createdAt rule) (r_createdAt best)
  || String.eqb (r_createdAt rule) (r_createdAt best) && str_ltb (r_id rule) (r_id best).

Definition rule_step product (productClusterIds : list string) (index : option ClassificationIndex)
    (acc : option (SuggestionRule N) * Z) rule : option (SuggestionRule N) * Z :=
  let '(best, bestSpecificity) := acc in
  if negb (r_active rule) then acc
  else if isExcluded rule productClusterIds then acc
  else let matchSpecificity := match_specificity product rule index in
  if (matchSpecificity <? 0)%Z then acc
  else
    let winsTie := (matchSpecificity =? bestSpecificity)%Z
      && match best with Some b => wins_tie rule b | None => false end in
    if (bestSpecificity <? matchSpecificity)%Z || winsTie
    then (Some rule, matchSpecificity) else acc.

Definition findRuleForProduct product (rules : list (SuggestionRule N))
    (productClusterIds : list string) (index : option ClassificationIndex) :
    option (SuggestionRule N) :=
  (foldl (rule_step product productClusterIds index) (None, (-1)%Z) rules).1.

Definition cluster_step (clusterIds : list string) (best : option (SuggestionRule N)) rule :
    option (SuggestionRule N) :=
  if negb (r_active rule) then best
  else match truthy (r_clusterId rule) with
  | None => best
  | Some cid =>
      if negb (bool_decide (cid ∈ clusterIds)) then best
      else if isExcluded rule clusterIds then best
      else if match best with None => true | Some b => wins_tie rule b end
      then Some rule else best
  end.

Definition findClusterRuleForProduct (clusterRules : list (SuggestionRule N))
    (clusterIds : list string) : option (SuggestionRule N) :=
  foldl (cluster_step clusterIds) None clusterRules.

(** [(winner, overrodeRule)] *)
Definition resolveWinner (clusterRule classRule : option (SuggestionRule N)) :
    option (SuggestionRule N) * option (SuggestionRule N) :=
  match clusterRule with
  | Some r => (Some r, classRule)
  | None => (classRule, None)
  end.

Definition priceForMargin (custo marginPct : N) : N := custo / (#1 - marginPct / #100).

Definition applyPriceRounding (price : N) (ranges : list (PriceRoundingRange N))
    (minPrice : option N) : N :=
  match list_find (λ r, (price_min r <=? price) && (price <=? price_max r)) ranges with
  | None => price
  | Some (_, range) =>
      let integer := n_floor price in
      let decimal := round2 (price - integer) in
      match list_find (λ r, (decimal_min r <=? decimal) && (decimal <=? decimal_max r))
              (pr_rules range) with
      | None => price
      | Some (_, rule) =>
          let rounded := round2 (integer + round_to rule) in
          match minPrice with
          | Some m => if rounded <? m then round2 (integer + #1 + round_to rule) else rounded
          | None => rounded
          end
      end
  end.

(** ** The price of the competition: [(alvo, priceComposition)] *)

Definition with_variation (price variationPct : N) : N := price * (#1 + variationPct / #100).

Fixpoint cascade_alvo product (variationPct : N) (competitors : list (string * JsVal N)) :
    option (N * list (Quote N)) :=
  match competitors with
  | [] => None
  | (c, _) :: rest =>
      let price := competitorPrice product c in
      if #0 <? price
      then Some (with_variation price variationPct, [Build_Quote c price (#1)])
      else cascade_alvo product variationPct rest
  end.

Definition cheapest_of product (competitors : list (string * JsVal N)) : option (string * N) :=
  foldl (λ cheapest '(c, _),
    let price := competitorPrice product c in
    if (#0 <? price) && match cheapest with None => true | Some (_, p) => price <? p end
    then Some (c, price) else cheapest) None competitors.

Definition lowest_alvo product (variationPct : N) (competitors : list (string * JsVal N)) :
    option (N * list (Quote N)) :=
  '(c, p) ← cheapest_of product competitors;
  Some (with_variation p variationPct, [Build_Quote c p (#1)]).

Definition quotes_of product (competitors : list (string * JsVal N)) : list (Quote N) :=
  filter (λ qt, (#0 <? q_price qt) && (#0 <? q_weight qt) = true)
    ((λ '(c, w), Build_Quote c (competitorPrice product c) (toFiniteNumber w (#0))) <$> competitors).

Definition weighted_alvo product (variationPct : N) (competitors : list (string * JsVal N)) :
    option (N * list (Quote N)) :=
  match quotes_of product competitors with
  | [] => None
  | quotes =>
      let totalWeight := foldl (λ acc qt, acc + q_weight qt) (#0) quotes in
      let weightedAvg :=
        foldl (λ acc qt, acc + q_price qt * q_weight qt) (#0) quotes / totalWeight in
      Some (with_variation weightedAvg variationPct, quotes)
  end.

Definition competition product rule (variationPct : N) : option (N * list (Quote N)) :=
  match r_strategy rule with
  | margem => None
  | concorrencia =>
      match r_competitorMode rule with
      | cascade => cascade_alvo product variationPct (r_competitors rule)
      | lowest => lowest_alvo product variationPct (r_competitors rule)
      | weighted => weighted_alvo product variationPct (r_competitors rule)
      end
  end.

(** ** [computeSuggestion] *)

Record Target := {
  t_target : N;
  t_basis : SuggestionBasis;
  t_lockApplied : bool;
  t_priceComposition : option (list (Quote N));
}.

(** [alvo < floor ? floor : alvo], with the lock flag. *)
Definition lock_to_floor (alvo floor : N) (basis : SuggestionBasis)
    (composition : option (list (Quote N))) : Target :=
  if alvo <? floor then Build_Target floor basis true composition
  else Build_Target alvo basis false composition.

Definition basePrice product : N :=
  if #0 <? sp_precoOferta product then sp_precoOferta product else sp_precoVenda product.

Definition pick_target product rule (floor minMargin variationPct : N) :
    NoSuggestionReason + Target :=
  match competition product rule variationPct with
  | Some (alvo, composition) => inr (lock_to_floor alvo floor basis_concorrencia (Some composition))
  | None =>
      match r_strategy rule, r_noCompetitorMargin rule with
      | concorrencia, (VNum _ | VStr _) as m =>
          let alvo := priceForMargin (sp_custo product) (toFiniteNumber m minMargin) in
          inr (lock_to_floor alvo floor basis_margem_sem_concorrente None)
      | _, _ =>
          let currentMargin := (basePrice product - sp_custo product) / basePrice product * #100 in
          if minMargin <=? currentMargin
          then inl (match r_strategy rule with
                    | concorrencia => sem_concorrente | margem => margem_ok end)
          else inr (Build_Target floor basis_margem_minima false None)
      end
  end.

Definition suggestion_target product rule : SuggestionTarget :=
  if r_priceControlled rule || (#0 <? sp_precoOferta product) then precoOferta else precoVenda.

Definition final_price rule (roundingRanges : list (PriceRoundingRange N)) (target floor : N) : N :=
  let price := round2 target in
  if r_applyRounding rule then applyPriceRounding price roundingRanges (Some floor) else price.

Definition pbm_blocked product rule : bool :=
  sp_pbm product
  && (bool_decide (r_strategy rule = concorrencia) || r_ignorePbm rule
      || bool_decide (r_strategy rule = margem) && r_blockPbmInMargin rule).

Definition computeSuggestion product rule (roundingRanges : list (PriceRoundingRange N)) :
    SuggestionResult N :=
  let custo := sp_custo product in
  let base := basePrice product in
  let minMargin := toFiniteNumber (r_minMargin rule) (#0) in
  let variationPct := toFiniteNumber (r_variationPct rule) (#0) in
  if (custo <=? #0) || (base <=? #0) || (#100 <=? minMargin) then NoSuggestion sem_custo (Some rule)
  else if pbm_blocked product rule then NoSuggestion pbm (Some rule)
  else
    let floor := priceForMargin custo minMargin in
    match pick_target product rule floor minMargin variationPct with
    | inl reason => NoSuggestion reason (Some rule)
    | inr t =>
        let price := final_price rule roundingRanges (t_target t) floor in
        if negb (n_finite price) || (price <=? #0) then NoSuggestion sem_custo (Some rule)
        else if n_abs (price - base) <? n_dec 5 3 then NoSuggestion ja_no_alvo (Some rule)
        else
          let suggestionTarget := suggestion_target product rule in
          if bool_decide (suggestionTarget = precoOferta) && (#0 <? sp_precoVenda product)
             && (sp_precoVenda product <? price)
          then NoSuggestion acima_do_venda (Some rule)
          else Suggestion {|
            s_price := price;
            s_margin := round2 ((price - custo) / price * #100);
            s_rule := rule;
            s_target := suggestionTarget;
            s_basis := t_basis t;
            s_lockApplied := t_lockApplied t;
            s_priceComposition := t_priceComposition t;
          |}
    end.

Definition suggestionDelta product (result : SuggestionResult N) : option N :=
  match result with
  | NoSuggestion _ _ => None
  | Suggestion s =>
      let base := basePrice product in
      if base <=? #0 then None
      else let pct := (s_price s - base) / base * #100 in
           if n_abs pct <? n_dec 5 2 then None else Some pct
  end.

End Engine.
Arguments Target : clear implicits.
