(* ===== verification/EngineLaws.v ===== *)
(** The suggestion engine: which rule governs a product, what every
    suggested price satisfies, and the margin floor in exact arithmetic. *)

From Stdlib Require Import Ascii String QArith Qround Qabs Lqa.
From S2P Require Import Prelude JsText JsNumber Classification SuggestionEngine.
Open Scope string_scope.
Open Scope list_scope.
Open Scope Z_scope.

(* ------------------------------------------------------------------ *)
(** * Choosing the best element of a list                               *)
(* ------------------------------------------------------------------ *)

Section Best.
Context {A : Type} (elig : A → bool) (beats : A → A → bool).

(** One round of a loop that keeps the best eligible element. *)
Definition best_step (best : option A) (r : A) : option A :=
  if elig r then
    match best with
    | None => Some r
    | Some b => if beats r b then Some r else best
    end
  else best.

Definition is_best (l : list A) (best : option A) : Prop :=
  match best with
  | None => ∀ r, r ∈ l → elig r = false
  | Some b => b ∈ l ∧ elig b = true ∧ ∀ r, r ∈ l → elig r = true → beats r b = false
  end.

Lemma best_step_spec l best r :
  (∀ x y z, beats x y = true → beats y z = true → beats x z = true) →
  (∀ x, beats x x = false) →
  is_best l best → is_best (l ++ [r]) (best_step best r).
Proof.
  intros Htr Hirr Hb. unfold best_step.
  assert (∀ x, x ∈ l ++ [r] ↔ x ∈ l ∨ x = r) as Hin
    by (intros; by rewrite elem_of_app, list_elem_of_singleton).
  destruct (elig r) eqn:He.
  - destruct best as [b|]; simpl in *.
    + destruct Hb as (Hbl & Hbe & Hmax). destruct (beats r b) eqn:Hrb; simpl; split_and!;
        try (rewrite Hin; by auto); try done.
      * intros x [Hx| ->]%Hin Hxe; [|apply Hirr].
        destruct (beats x r) eqn:Hxr; [|done].
        rewrite <- (Hmax x Hx Hxe). symmetry. by apply Htr with r.
      * intros x [Hx| ->]%Hin Hxe; [by apply Hmax|done].
    + split_and!; [rewrite Hin; by right|done|].
      intros x [Hx| ->]%Hin Hxe; [|apply Hirr]. by rewrite Hb in Hxe.
  - destruct best as [b|]; simpl in *.
    + destruct Hb as (Hbl & Hbe & Hmax). split_and!; [rewrite Hin; by left|done|].
      intros x [Hx| ->]%Hin Hxe; [by apply Hmax|congruence].
    + intros x [Hx| ->]%Hin; [by apply Hb|done].
Qed.

Lemma best_spec l :
  (∀ x y z, beats x y = true → beats y z = true → beats x z = true) →
  (∀ x, beats x x = false) →
  is_best l (foldl best_step None l).
Proof.
  intros Htr Hirr. induction l as [|r l IH] using rev_ind; [by intros r ?%elem_of_nil|].
  rewrite foldl_app. by apply best_step_spec.
Qed.

(** Two best elements of the same set are the same when [beats] separates
    the elements of the list. *)
Lemma is_best_unique l l' o o' :
  (∀ x, x ∈ l ↔ x ∈ l') →
  (∀ x y, x ∈ l → y ∈ l → beats x y = false → beats y x = false → x = y) →
  is_best l o → is_best l' o' → o = o'.
Proof.
  intros Hl Htot. destruct o as [b|], o' as [b'|]; simpl; [|..|done].
  - intros (Hb & He & Hm) (Hb' & He' & Hm'). f_equal. rewrite <- Hl in Hb'.
    apply Htot; [done|done| |]; [apply Hm'|apply Hm]; try done. by apply Hl.
  - intros (Hb & He & _) Hn. rewrite Hn in He; [done|by apply Hl].
  - intros Hn (Hb & He & _). rewrite Hn in He; [done|by apply Hl].
Qed.

End Best.

(* ------------------------------------------------------------------ *)
(** * The governing rule                                                *)
(* ------------------------------------------------------------------ *)

Section Selection.
Context {N : Type} `{JsNum N}.
Implicit Types (r b rule : SuggestionRule N) (product : SuggestionProduct N).

Lemma wins_tie_irrefl r : wins_tie r r = false.
Proof. unfold wins_tie. rewrite !str_ltb_irrefl. by destruct (String.eqb _ _). Qed.

Lemma wins_tie_spec r b :
  wins_tie r b = true ↔
  str_ltb (r_createdAt r) (r_createdAt b) = true
  ∨ r_createdAt r = r_createdAt b ∧ str_ltb (r_id r) (r_id b) = true.
Proof. unfold wins_tie. by rewrite orb_true_iff, andb_true_iff, String.eqb_eq. Qed.

Lemma wins_tie_trans r b c : wins_tie r b = true → wins_tie b c = true → wins_tie r c = true.
Proof.
  rewrite !wins_tie_spec. intros [H1|[E1 H1]] [H2|[E2 H2]].
  - left. by eapply str_ltb_trans.
  - left. by rewrite <- E2.
  - left. by rewrite E1.
  - right. split; [congruence|by eapply str_ltb_trans].
Qed.

Lemma wins_tie_total r b : wins_tie r b = false → wins_tie b r = false → r_id r = r_id b.
Proof.
  unfold wins_tie. rewrite !orb_false_iff. intros [H1 H1'] [H2 H2'].
  pose proof (str_ltb_total _ _ H1 H2) as E. rewrite E, String.eqb_refl in H1', H2'.
  by apply str_ltb_total.
Qed.

Context (product : SuggestionProduct N) (clusterIds : list string)
  (index : option ClassificationIndex).

(** A classification rule that matches the product. *)
Definition class_eligible rule : bool :=
  r_active rule && negb (isExcluded rule clusterIds)
  && (0 <=? match_specificity product rule index).

Definition class_beats rule b : bool :=
  (match_specificity product b index <? match_specificity product rule index)
  || (match_specificity product rule index =? match_specificity product b index)
     && wins_tie rule b.

Definition cluster_eligible rule : bool :=
  r_active rule
  && match truthy (r_clusterId rule) with Some c => bool_decide (c ∈ clusterIds) | None => false end
  && negb (isExcluded rule clusterIds).

Lemma class_beats_trans x y z :
  class_beats x y = true → class_beats y z = true → class_beats x z = true.
Proof.
  unfold class_beats. rewrite !orb_true_iff, !andb_true_iff, !Z.ltb_lt, !Z.eqb_eq.
  intros [?|[? ?]] [?|[? ?]]; try (left; lia). right. split; [lia|by eapply wins_tie_trans].
Qed.

Lemma class_beats_irrefl x : class_beats x x = false.
Proof. unfold class_beats. by rewrite Z.ltb_irrefl, wins_tie_irrefl, andb_false_r. Qed.

Lemma rule_step_best l :
  let '(best, spec) := foldl (rule_step product clusterIds index) (None, -1) l in
  best = foldl (best_step class_eligible class_beats) None l
  ∧ match best with Some b => spec = match_specificity product b index ∧ 0 <= spec | None => spec = -1 end.
Proof.
  induction l as [|r l IH] using rev_ind; [done|]. rewrite !foldl_app. simpl.
  destruct (foldl (rule_step _ _ _) _ l) as [best spec]. destruct IH as [-> Hsp].
  set (o := foldl _ None l) in *. unfold rule_step, best_step, class_eligible.
  destruct (r_active r); simpl; [|done]. destruct (isExcluded r clusterIds); simpl; [done|].
  destruct (Z.ltb_spec (match_specificity product r index) 0) as [Hlt|Hge]; simpl.
  { rewrite (proj2 (Z.leb_gt _ _)) by lia. done. }
  rewrite (proj2 (Z.leb_le _ _)) by lia. destruct o as [b|]; simpl.
  - destruct Hsp as [-> ?]. unfold class_beats. destruct (_ || _); done || (split; [done|]; lia).
  - subst. rewrite (proj2 (Z.ltb_lt _ _)) by lia. simpl. split; [done|lia].
Qed.

Lemma findRule_best rules :
  is_best class_eligible class_beats rules (findRuleForProduct product rules clusterIds index).
Proof.
  unfold findRuleForProduct. pose proof (rule_step_best rules) as Hs.
  destruct (foldl _ _ rules) as [best spec]. destruct Hs as [-> _]. simpl.
  apply best_spec; [apply class_beats_trans|apply class_beats_irrefl].
Qed.

Lemma findCluster_best rules :
  is_best cluster_eligible wins_tie rules (findClusterRuleForProduct rules clusterIds).
Proof.
  assert (findClusterRuleForProduct rules clusterIds
          = foldl (best_step cluster_eligible wins_tie) None rules) as ->.
  { unfold findClusterRuleForProduct. generalize (@None (SuggestionRule N)).
    induction rules as [|r l IH]; intros o; [done|]. simpl. rewrite IH. f_equal.
    unfold cluster_step, best_step, cluster_eligible.
    destruct (r_active r); simpl; [|done]. destruct (truthy _) as [c|]; simpl; [|done].
    case_bool_decide; simpl; [|done]. destruct (isExcluded _ _); simpl; [done|].
    by destruct o. }
  apply best_spec; [apply wins_tie_trans|apply wins_tie_irrefl].
Qed.

Lemma same_id_eq (rules : list (SuggestionRule N)) x y :
  NoDup (r_id <$> rules) → x ∈ rules → y ∈ rules → r_id x = r_id y → x = y.
Proof.
  intros Hnd [i Hi]%list_elem_of_lookup [j Hj]%list_elem_of_lookup Heq.
  assert (i = j) as ->; [|congruence].
  eapply (NoDup_lookup _ _ _ (r_id x) Hnd); rewrite list_lookup_fmap; [by rewrite Hi|].
  rewrite Hj. simpl. by rewrite Heq.
Qed.

End Selection.

(** The rule that governs a product is a function of the set of rules,
    not of the order the database returns them in: among the active, not
    excluded rules that match, the classification winner has the deepest
    match, then the oldest creation, then the smallest id; the cluster
    winner the oldest creation, then the smallest id; a cluster winner
    always overrides the classification winner. *)
Theorem rule_selection {N} `{JsNum N} (product : SuggestionProduct N)
    (clusterRules classRules : list (SuggestionRule N)) clusterIds index :
  NoDup (r_id <$> clusterRules) → NoDup (r_id <$> classRules) →
  let cl := findClusterRuleForProduct clusterRules clusterIds in
  let cs := findRuleForProduct product classRules clusterIds index in
  is_best (cluster_eligible clusterIds) wins_tie clusterRules cl ∧
  is_best (class_eligible product clusterIds index) (class_beats product index) classRules cs ∧
  (resolveWinner cl cs).1 = (match cl with Some r => Some r | None => cs end) ∧
  (∀ l, l ≡ₚ clusterRules → findClusterRuleForProduct l clusterIds = cl) ∧
  (∀ l, l ≡ₚ classRules → findRuleForProduct product l clusterIds index = cs).
Proof.
  intros Hn1 Hn2 cl cs. split_and!.
  - apply findCluster_best.
  - apply findRule_best.
  - by destruct cl.
  - intros l Hl. eapply is_best_unique; [|..|apply findCluster_best|apply findCluster_best].
    + intros x. by rewrite Hl.
    + intros x y Hx Hy H1 H2. rewrite Hl in Hx, Hy.
      apply (same_id_eq clusterRules); [done..|]. by apply wins_tie_total.
  - intros l Hl. eapply is_best_unique; [|..|apply findRule_best|apply findRule_best].
    + intros x. by rewrite Hl.
    + intros x y Hx Hy. unfold class_beats. rewrite !orb_false_iff, !Z.ltb_ge. intros [? H1] [? H2].
      assert (match_specificity product x index = match_specificity product y index) as E by lia.
      rewrite E, Z.eqb_refl in H1, H2. simpl in *. rewrite Hl in Hx, Hy.
      apply (same_id_eq classRules); [done..|]. by apply wins_tie_total.
Qed.

(* ------------------------------------------------------------------ *)
(** * What a suggestion satisfies, in any arithmetic                    *)
(* ------------------------------------------------------------------ *)

Section Safety.
Context {N : Type} `{JsNumLaws N}.
Implicit Types (rule : SuggestionRule N) (product : SuggestionProduct N).
Open Scope js_scope.

Definition min_margin rule : N := toFiniteNumber (r_minMargin rule) (#0).
Definition variation rule : N := toFiniteNumber (r_variationPct rule) (#0).
Definition floor_of product rule : N := priceForMargin (sp_custo product) (min_margin rule).

(** The guards a suggestion has passed, and where its price comes from. *)
Record suggested product rule (ranges : list (PriceRoundingRange N)) (s : PriceSuggestion N)
    (sg_target : Target N) : Prop := {
  sg_pick : pick_target product rule (floor_of product rule) (min_margin rule) (variation rule)
            = inr sg_target;
  sg_price : s_price s = final_price rule ranges (t_target sg_target) (floor_of product rule);
  sg_fields : s_rule s = rule ∧ s_target s = suggestion_target product rule
    ∧ s_basis s = t_basis sg_target ∧ s_lockApplied s = t_lockApplied sg_target
    ∧ s_priceComposition s = t_priceComposition sg_target;
  sg_cost : (sp_custo product <=? #0) = false ∧ (basePrice product <=? #0) = false
    ∧ (#100 <=? min_margin rule) = false;
  sg_pbm : pbm_blocked product rule = false;
  sg_finite : n_finite (s_price s) = true ∧ (#0 <? s_price s) = true;
  sg_moves : (n_abs (s_price s - basePrice product) <? n_dec 5 3) = false;
  sg_cap : s_target s = precoOferta → (#0 <? sp_precoVenda product) = true →
    (sp_precoVenda product <? s_price s) = false;
}.

Lemma computeSuggestion_inv product rule ranges s :
  computeSuggestion product rule ranges = Suggestion s → ∃ t, suggested product rule ranges s t.
Proof.
  unfold computeSuggestion. fold (min_margin rule) (variation rule) (floor_of product rule).
  destruct (_ || _ || _) eqn:E1; [done|]. apply orb_false_iff in E1 as [[? ?]%orb_false_iff ?].
  destruct (pbm_blocked _ _) eqn:E2; [done|].
  destruct (pick_target _ _ _ _ _) as [?|t] eqn:E3; [done|].
  destruct (negb _ || _) eqn:E4; [done|].
  apply orb_false_iff in E4 as [Hf%negb_false_iff Hp].
  destruct (n_abs _ <? _) eqn:E5; [done|].
  destruct (_ && _ && _) eqn:E6; [done|]. intros [= <-].
  exists t. split; simpl; try done.
  - split; [done|]. apply n_not_pos_zero; [by apply finite_num|done].
  - intros Ht Hv. rewrite bool_decide_true, Hv in E6 by done. done.
Qed.

(** The outcome of the engine when it does not suggest. *)
Definition none_justified product rule (ranges : list (PriceRoundingRange N))
    (reason : NoSuggestionReason) : Prop :=
  match reason with
  | sem_regra => False
  | pbm => pbm_blocked product rule = true
  | sem_custo =>
      (sp_custo product <=? #0) = true ∨ (basePrice product <=? #0) = true
      ∨ (#100 <=? min_margin rule) = true
      ∨ ∃ t, pick_target product rule (floor_of product rule) (min_margin rule) (variation rule) = inr t
          ∧ let p := final_price rule ranges (t_target t) (floor_of product rule) in
            (n_finite p = false ∨ (p <=? #0) = true)
  | margem_ok => r_strategy rule = margem
      ∧ (min_margin rule <=? (basePrice product - sp_custo product) / basePrice product * #100) = true
  | sem_concorrente => r_strategy rule = concorrencia ∧ competition product rule (variation rule) = None
      ∧ r_noCompetitorMargin rule = VNull
      ∧ (min_margin rule <=? (basePrice product - sp_custo product) / basePrice product * #100) = true
  | ja_no_alvo => ∃ t,
      pick_target product rule (floor_of product rule) (min_margin rule) (variation rule) = inr t
      ∧ (n_abs (final_price rule ranges (t_target t) (floor_of product rule) - basePrice product)
         <? n_dec 5 3) = true
  | acima_do_venda => suggestion_target product rule = precoOferta ∧ ∃ t,
      pick_target product rule (floor_of product rule) (min_margin rule) (variation rule) = inr t
      ∧ (sp_precoVenda product <? final_price rule ranges (t_target t) (floor_of product rule)) = true
  end.

Lemma pick_target_none product rule (reason : NoSuggestionReason) :
  pick_target product rule (floor_of product rule) (min_margin rule) (variation rule) = inl reason →
  none_justified product rule [] reason ∧ (reason = margem_ok ∨ reason = sem_concorrente).
Proof.
  unfold pick_target. destruct (competition _ _ _) as [[alvo comp]|] eqn:Ec; [done|].
  destruct (r_strategy rule) eqn:Es.
  - destruct (min_margin rule <=? _) eqn:Em; [|done]. intros [= <-]. simpl. auto.
  - destruct (r_noCompetitorMargin rule) as [|?|?] eqn:En; [|done|done].
    destruct (min_margin rule <=? _) eqn:Em; [|done]. intros [= <-]. simpl. auto.
Qed.

Lemma computeSuggestion_none product rule ranges reason o :
  computeSuggestion product rule ranges = NoSuggestion reason o →
  o = Some rule ∧ none_justified product rule ranges reason.
Proof.
  unfold computeSuggestion. fold (min_margin rule) (variation rule) (floor_of product rule).
  destruct (_ || _ || _) eqn:E1.
  { intros [= <- <-]. simpl. apply orb_true_iff in E1 as [[?|?]%orb_true_iff|?]; auto 6. }
  destruct (pbm_blocked _ _) eqn:E2; [by intros [= <- <-]|].
  destruct (pick_target _ _ _ _ _) as [r|t] eqn:E3.
  { intros [= -> <-]. split; [done|]. destruct (pick_target_none _ _ _ E3) as [Hj [->| ->]]; exact Hj. }
  destruct (negb _ || _) eqn:E4.
  { intros [= <- <-]. split; [done|]. simpl. do 3 right. exists t. split; [done|].
    apply orb_true_iff in E4 as [?%negb_true_iff|?]; auto. }
  destruct (n_abs _ <? _) eqn:E5; [intros [= <- <-]; split; [done|]; by exists t|].
  destruct (_ && _ && _) eqn:E6; [|done]. intros [= <- <-]. split; [done|].
  apply andb_true_iff in E6 as [[?%bool_decide_eq_true ?]%andb_true_iff ?]. split; [done|]. by exists t.
Qed.

(** ** The price of the competition *)

Definition priced product (c : string * JsVal N) : bool := #0 <? competitorPrice product c.1.

Lemma cascade_alvo_spec product v competitors :
  cascade_alvo product v competitors =
  match list_find (λ c, priced product c = true) competitors with
  | Some (_, (c, _)) =>
      Some (with_variation (competitorPrice product c) v,
            [Build_Quote c (competitorPrice product c) (#1)])
  | None => None
  end.
Proof.
  induction competitors as [|[c w] l IH]; [done|]. cbn [cascade_alvo list_find].
  destruct (decide (priced product (c, w) = true)) as [E|E]; unfold priced in E; cbn [fst] in E.
  - by rewrite E.
  - destruct (#0 <? competitorPrice product c); [done|]. rewrite IH.
    by destruct (list_find _ l) as [[i [c' w']]|].
Qed.

Definition dearer product (c d : string * JsVal N) : bool :=
  competitorPrice product c.1 <? competitorPrice product d.1.

Lemma cheapest_of_best product competitors :
  cheapest_of product competitors =
  (λ d, (d.1, competitorPrice product d.1))
    <$> foldl (best_step (priced product) (dearer product)) None competitors.
Proof.
  induction competitors as [|[c w] l IH] using rev_ind; [done|].
  unfold cheapest_of in *. rewrite !foldl_app, IH.
  generalize (foldl (best_step (priced product) (dearer product)) None l). intros o.
  cbn [foldl]. unfold best_step, priced, dearer. cbn [fst].
  destruct (#0 <? competitorPrice product c); cbn [andb]; [|done].
  destruct o as [[c' w']|]; cbn; [|done].
  by destruct (competitorPrice product c <? competitorPrice product c').
Qed.

Lemma dearer_trans product x y z :
  dearer product x y = true → dearer product y z = true → dearer product x z = true.
Proof. apply n_lt_trans. Qed.

Lemma dearer_irrefl product x : dearer product x x = false.
Proof. apply n_lt_irrefl. Qed.

End Safety.

(** [C14] Every suggestion the engine makes is a finite positive price that
    differs from the current one, for a product with cost and price that no
    PBM lock covers; an offer suggestion never exceeds a known shelf price;
    [lockApplied] and the [basis] tell where the price came from.  When it
    makes none, the reason it gives is the true one.  This holds of binary64
    and of exact arithmetic alike. *)
Theorem suggestion_sound {N} `{JsNumLaws N} (product : SuggestionProduct N)
    (rule : SuggestionRule N) (ranges : list (PriceRoundingRange N)) :
  match computeSuggestion product rule ranges with
  | Suggestion s =>
      s_rule s = rule ∧
      n_finite (s_price s) = true ∧ (#0 <? s_price s)%js = true ∧
      (n_abs (s_price s - basePrice product) <? n_dec 5 3)%js = false ∧
      pbm_blocked product rule = false ∧
      (s_target s = precoOferta ↔
         r_priceControlled rule = true ∨ (#0 <? sp_precoOferta product)%js = true) ∧
      (s_target s = precoOferta → (#0 <? sp_precoVenda product)%js = true →
         (sp_precoVenda product <? s_price s)%js = false) ∧
      (s_basis s = basis_concorrencia ↔
         ∃ alvo quotes, competition product rule (variation rule) = Some (alvo, quotes)
           ∧ s_priceComposition s = Some quotes) ∧
      (s_lockApplied s = true →
         s_price s = final_price rule ranges (floor_of product rule) (floor_of product rule))
  | NoSuggestion reason r => r = Some rule ∧ none_justified product rule ranges reason
  end.
Proof.
  destruct (computeSuggestion product rule ranges) as [s|reason r] eqn:Hc;
    [|by apply computeSuggestion_none].
  destruct (computeSuggestion_inv _ _ _ _ Hc) as [t [Hpick Hprice (Hr & Ht & Hb & Hl & Hq) _ Hpbm [Hf Hpos] Hmv Hcap]].
  split_and!; try done.
  - rewrite Ht. unfold suggestion_target. rewrite <- orb_true_iff. destruct (_ || _); naive_solver.
  - rewrite Hb, Hq. clear -Hpick. unfold pick_target, lock_to_floor in Hpick.
    destruct (competition _ _ _) as [[alvo quotes]|] eqn:Ec.
    + injection Hpick as <-. destruct (_ <? _)%js; simpl; naive_solver.
    + split; [|naive_solver]. intros Hbc. exfalso. revert Hpick.
      destruct (r_strategy rule), (r_noCompetitorMargin rule); repeat case_match; intros [= <-]; done.
  - rewrite Hl, Hprice. clear -Hpick. unfold pick_target, lock_to_floor in Hpick.
    repeat case_match; simplify_eq/=; done.
Qed.

(* ------------------------------------------------------------------ *)
(** * Exact arithmetic                                                  *)
(* ------------------------------------------------------------------ *)

Section Exact.
Implicit Types (product : SuggestionProduct XQ) (rule : SuggestionRule XQ).
Open Scope Q_scope.

Lemma finite_XFin (x : XQ) : n_finite x = true → ∃ q, x = XFin q.
Proof. destruct x; naive_solver. Qed.

Definition q100 (q : Q) : Q := inject_Z (Qfloor (q * 100 + (1 # 2))) / 100.

Lemma round2_fin q : round2 (XFin q) = XFin (q100 q).
Proof. reflexivity. Qed.

Lemma q100_lb q : q - (1 # 200) <= q100 q.
Proof.
  unfold q100. pose proof (Qround_half (q * 100)) as [H1 H2].
  apply Qle_shift_div_l; [reflexivity|]. lra.
Qed.

Lemma q100_int z : q100 (inject_Z z) == inject_Z z.
Proof.
  unfold q100. assert (inject_Z z * 100 == inject_Z (z * 100))%Q as -> by (by rewrite inject_Z_mult).
  rewrite Qround_int, inject_Z_mult. change (inject_Z 100) with 100%Q. field.
Qed.

Lemma q100_mono p q : p <= q → q100 p <= q100 q.
Proof.
  intros H. unfold q100. apply Qmult_le_compat_r; [|done]. apply Qround_mono. lra.
Qed.

(** The hundredths of a number that is below the next integer are below it
    by a hundredth. *)
Lemma q100_below q (z : Z) : q100 q < inject_Z z → q100 q <= inject_Z z - (1 # 100).
Proof.
  unfold q100. set (k := Qfloor _). intros H.
  assert (inject_Z k < inject_Z z * 100)%Q as H'.
  { unfold Qdiv in H. change (/ 100) with (1 # 100) in H. lra. }
  assert (inject_Z k < inject_Z (z * 100))%Q as H2 by (by rewrite inject_Z_mult).
  rewrite <- Zlt_Qlt in H2. assert (k + 1 <= z * 100)%Z as H3 by lia.
  rewrite Zle_Qle, inject_Z_plus, inject_Z_mult in H3.
  change (inject_Z 1) with 1%Q in H3. change (inject_Z 100) with 100%Q in H3.
  apply Qle_shift_div_r; [reflexivity|]. lra.
Qed.

(** Rounding tables whose [round_to] is a non-negative number, which the
    DTO enforces ([@Min(0)]). *)
Definition ranges_ok (ranges : list (PriceRoundingRange XQ)) : Prop :=
  Forall (λ r, Forall (λ rr, ∃ q, round_to rr = XFin q ∧ 0 <= q) (pr_rules r)) ranges.

Lemma rounding_floor ranges t f p :
  ranges_ok ranges → f <= t →
  applyPriceRounding (round2 (XFin t)) ranges (Some (XFin f)) = XFin p →
  f - (1 # 200) <= p.
Proof.
  intros Hok Hft. rewrite round2_fin. unfold applyPriceRounding.
  pose proof (q100_lb t) as Hlb.
  destruct (list_find _ ranges) as [[i range]|] eqn:Hr; [|intros [= <-]; lra].
  destruct (list_find _ (pr_rules range)) as [[j rr]|] eqn:Hrr; [|intros [= <-]; lra].
  assert (∃ d, round_to rr = XFin d ∧ 0 <= d) as (d & Hd & Hd0).
  { apply list_find_Some in Hr as (Hr & _). apply list_find_Some in Hrr as (Hrr & _).
    unfold ranges_ok in Hok. rewrite Forall_lookup in Hok. specialize (Hok _ _ Hr).
    rewrite Forall_lookup in Hok. by apply (Hok j). }
  rewrite Hd. change (n_floor (XFin (q100 t))) with (XFin (inject_Z (Qfloor (q100 t)))).
  set (I := Qfloor (q100 t)).
  change (n_add (XFin (inject_Z I)) (XFin d)) with (XFin (inject_Z I + d)).
  change (n_add (n_add (XFin (inject_Z I)) (#1)%js) (XFin d)) with (XFin (inject_Z I + 1 + d)).
  rewrite !round2_fin. destruct (n_lt _ _) eqn:Hlt.
  - intros [= <-].
    pose proof (Qlt_floor (q100 t)) as HI. fold I in HI.
    apply q100_below in HI. rewrite inject_Z_plus in HI. change (inject_Z 1) with 1 in HI.
    assert (inject_Z I + 1 <= q100 (inject_Z I + 1 + d)).
    { pose proof (q100_int (I + 1)) as Hi. rewrite inject_Z_plus in Hi. change (inject_Z 1) with 1 in Hi.
      pose proof (q100_mono (inject_Z I + 1) (inject_Z I + 1 + d)). lra. }
    lra.
  - intros [= <-]. apply xq_lt_false in Hlt. lra.
Qed.

Lemma final_price_finite rule ranges (x : XQ) (f p : Q) :
  final_price rule ranges x (XFin f) = XFin p → ∃ t, x = XFin t.
Proof.
  destruct x as [t|neg|]; [by eauto| |]; unfold final_price, applyPriceRounding.
  - assert (round2 (XInf neg) = XInf neg) as -> by (by destruct neg). destruct (r_applyRounding rule); [|done].
    destruct (list_find _ ranges) as [[i range]|]; [|done].
    destruct (list_find _ (pr_rules range)) as [[j rr]|] eqn:Hf; [|done].
    apply list_find_Some in Hf as (_ & Hf & _).
    assert (round2 (n_sub (XInf neg) (n_floor (XInf neg))) = XNaN) as E by (by destruct neg).
    rewrite E in Hf. by destruct (decimal_min rr).
  - change (round2 XNaN) with (XNaN : XQ). destruct (r_applyRounding rule); [|done].
    destruct (list_find _ ranges) as [[i range]|] eqn:Hf; [|done].
    apply list_find_Some in Hf as (_ & Hf & _). by destruct (price_min range).
Qed.

Lemma final_price_floor rule ranges (t f p : Q) :
  ranges_ok ranges → f <= t →
  final_price rule ranges (XFin t) (XFin f) = XFin p → f - (1 # 200) <= p.
Proof.
  intros Hok Hft. unfold final_price. destruct (r_applyRounding rule).
  - by apply rounding_floor.
  - rewrite round2_fin. intros [= <-]. pose proof (q100_lb t). lra.
Qed.

Lemma toFiniteNumber_finite (w : JsVal XQ) (fallback : XQ) :
  n_finite fallback = true → n_finite (toFiniteNumber w fallback) = true.
Proof.
  intros Hf. assert (∀ x : XQ, n_finite (if n_finite x then x else fallback) = true) as Haux
    by (intros x; destruct (n_finite x) eqn:E; done).
  destruct w; [done|apply Haux..].
Qed.

Lemma floor_of_fin product rule c :
  sp_custo product = XFin c → (#100 <=? min_margin rule)%js = false →
  ∃ m, min_margin rule = XFin m ∧ m < 100 ∧
    floor_of product rule = XFin (c / (1 - m / 100)).
Proof.
  intros Hc Hm. assert (∃ m, min_margin rule = XFin m) as [m Hmm].
  { by apply finite_XFin, toFiniteNumber_finite. }
  exists m. rewrite Hmm in Hm. apply xq_le_false in Hm.
  change (m < 100) in Hm.
  split_and!; [done|done|]. unfold floor_of, priceForMargin. rewrite Hc, Hmm. simpl.
  change (Pos.to_nat 1) with 1%nat.
  destruct (Qeq_bool _ 0) eqn:E; [|done].
  apply Qeq_bool_iff in E. exfalso. change (100 # 1) with 100 in *. unfold Qdiv in E.
  change (/ (100 # 1)) with (1 # 100) in E. lra.
Qed.

Lemma pick_target_floor product rule (f : Q) mm v tgt (t : Q) :
  pick_target product rule (XFin f) mm v = inr tgt → t_target tgt = XFin t → f <= t.
Proof.
  unfold pick_target, lock_to_floor.
  destruct (competition _ _ _) as [[alvo quotes]|].
  - destruct (n_lt alvo (XFin f)) eqn:E; intros [= <-]; simpl; [intros [= <-]; lra|].
    intros ->. by apply xq_lt_false in E.
  - assert (∀ alvo, (if n_lt alvo (XFin f) then Build_Target (XFin f) basis_margem_sem_concorrente true None
               else Build_Target alvo basis_margem_sem_concorrente false None) = tgt →
               t_target tgt = XFin t → f <= t) as Haux.
    { intros alvo. destruct (n_lt alvo (XFin f)) eqn:E; intros <-; simpl; [intros [= <-]; lra|].
      intros ->. by apply xq_lt_false in E. }
    destruct (r_strategy rule), (r_noCompetitorMargin rule);
      try (destruct (n_le _ _); [done|]; intros [= <-] [= <-]; lra);
      intros [= Heq]; by eapply Haux.
Qed.

Lemma margin_below_floor b c m :
  0 < b → m < 100 → (b - c) / b * 100 < m → b < c / (1 - m / 100).
Proof.
  intros Hb Hm H. apply Qlt_shift_div_l; [unfold Qdiv; change (/ 100) with (1 # 100); lra|].
  assert ((b - c) / b * 100 * b < m * b) as H2 by (by apply Qmult_lt_r).
  assert ((b - c) / b * 100 * b == (b - c) * 100) as E by (field; lra).
  rewrite E in H2. unfold Qdiv. change (/ 100) with (1 # 100). lra.
Qed.

End Exact.

(** The price of a suggestion and its floor, as rationals. *)
Lemma suggestion_parts (product : SuggestionProduct XQ) (rule : SuggestionRule XQ)
    (ranges : list (PriceRoundingRange XQ)) (s : PriceSuggestion XQ) :
  n_finite (sp_custo product) = true → ranges_ok ranges →
  computeSuggestion product rule ranges = Suggestion s →
  ∃ c m p t, sp_custo product = XFin c ∧ min_margin rule = XFin m ∧ (m < 100)%Q
    ∧ floor_of product rule = XFin (c / (1 - m / 100)) ∧ s_price s = XFin p
    ∧ suggested product rule ranges s t ∧ (c / (1 - m / 100) - (1 # 200) <= p)%Q.
Proof.
  intros (c & Hc)%finite_XFin Hok Hcomp. destruct (computeSuggestion_inv _ _ _ _ Hcomp) as [t Ht].
  pose proof Ht as [Hpick Hprice _ (_ & _ & Hm) _ [Hf _] _ _].
  destruct (floor_of_fin _ _ c Hc Hm) as (m & Hmm & Hm100 & Hfl).
  apply finite_XFin in Hf as [p Hp]. exists c, m, p, t. split_and!; [done..|].
  rewrite Hfl in Hpick, Hprice. rewrite Hp in Hprice. symmetry in Hprice.
  destruct (final_price_finite _ _ _ _ _ Hprice) as [q Hq]. rewrite Hq in Hprice.
  eapply final_price_floor; [done| |exact Hprice]. by eapply pick_target_floor.
Qed.

Lemma suggestion_floor (product : SuggestionProduct XQ) (rule : SuggestionRule XQ)
    (ranges : list (PriceRoundingRange XQ)) (s : PriceSuggestion XQ) :
  n_finite (sp_custo product) = true → ranges_ok ranges →
  computeSuggestion product rule ranges = Suggestion s →
  (s_price s + n_dec 5 3 <? floor_of product rule)%js = false.
Proof.
  intros Hc Hok Hcomp.
  destruct (suggestion_parts _ _ _ _ Hc Hok Hcomp) as (c & m & p & t & _ & _ & _ & -> & -> & _ & Hle).
  apply xq_lt_false. change (c / (1 - m / 100) <= p + (5 # 1000))%Q. lra.
Qed.

(** [C11] In exact arithmetic the minimum margin is a floor: whatever the
    strategy, the competitors, the variation and the rounding tables, a
    suggested price is at most half a cent below the price of the minimum
    margin, which is the tolerance of the apply guard; and a suggestion of
    the minimum-margin kind only ever raises the current price. *)
Theorem suggestion_respects_floor (product : SuggestionProduct XQ) (rule : SuggestionRule XQ)
    (ranges : list (PriceRoundingRange XQ)) (s : PriceSuggestion XQ) :
  n_finite (sp_custo product) = true → n_finite (basePrice product) = true → ranges_ok ranges →
  computeSuggestion product rule ranges = Suggestion s →
  (s_price s + n_dec 5 3 <? floor_of product rule)%js = false ∧
  (s_basis s = basis_margem_minima → (basePrice product <? s_price s)%js = true).
Proof.
  intros Hc (b & Hbase)%finite_XFin Hok Hcomp. split; [by eapply suggestion_floor|].
  destruct (suggestion_parts _ _ _ _ Hc Hok Hcomp)
    as (c & m & p & t & Hcc & Hmm & Hm100 & Hfl & Hp & [Hpick _ (_ & _ & Hb & _) (_ & Hbp & _) _ _ Hmv _] & Hpf).
  rewrite Hfl, Hbase, ?Hp in *. set (f := (c / (1 - m / 100))%Q) in *. apply xq_le_false in Hbp.
  intros Hbasis. rewrite Hb in Hbasis.
  assert (b < f)%Q as Hbf.
  { unfold pick_target, lock_to_floor in Hpick. rewrite Hbase, Hcc, Hmm in Hpick.
    destruct (competition _ _ _) as [[alvo quotes]|].
    { injection Hpick as <-. by destruct (n_lt _ _). }
    apply margin_below_floor; [exact Hbp|done|].
    assert ((XFin b - XFin c) / XFin b * #100 = XFin ((b - c) / b * 100))%js as Hcm.
    { simpl. destruct (Qeq_bool b 0) eqn:Hb0; [apply Qeq_bool_iff in Hb0; change (0 < b)%Q in Hbp; lra|done]. }
    rewrite Hcm in Hpick.
    destruct (r_strategy rule), (r_noCompetitorMargin rule);
      try (injection Hpick as <-; by destruct (n_lt _ _));
      (destruct (n_le _ _) eqn:Hle'; [done|]; by apply xq_le_false in Hle'). }
  apply xq_lt. apply (xq_lt_false (Qabs (p + - b)) (5 # 1000)) in Hmv.
  apply Qnot_le_lt. intros Hpb. rewrite Qabs_neg in Hmv by lra. lra.
Qed.

(* ------------------------------------------------------------------ *)
(** * The three competitor modes                                        *)
(* ------------------------------------------------------------------ *)

Lemma quotes_of_elem {N} `{JsNum N} (product : SuggestionProduct N) competitors (qt : Quote N) :
  qt ∈ quotes_of product competitors ↔
  ∃ c w, (c, w) ∈ competitors ∧ priced product (c, w) = true
    ∧ (#0 <? toFiniteNumber w (n_int 0))%js = true
    ∧ qt = Build_Quote c (competitorPrice product c) (toFiniteNumber w (n_int 0)).
Proof.
  unfold quotes_of. rewrite list_elem_of_filter, list_elem_of_fmap, andb_true_iff. split.
  - intros ([Hp Hw] & [c w] & -> & Hin). exists c, w. auto.
  - intros (c & w & Hin & Hp & Hw & ->). split; [done|]. by exists (c, w).
Qed.

(** The competition price per mode.  Cascade follows the first listed
    competitor that has a price.  Lowest follows a competitor with a price
    that none undercuts.  Weighted uses exactly the competitors with a price
    and a positive weight.  In each mode there is no competition price only
    when no competitor qualifies, and the variation applies to the
    reference price. *)
Theorem competition_modes {N} `{JsNumLaws N} (product : SuggestionProduct N)
    (rule : SuggestionRule N) (v : N) :
  r_strategy rule = concorrencia →
  let cs := r_competitors rule in
  match r_competitorMode rule, competition product rule v with
  | cascade, Some (alvo, quotes) => ∃ i c w,
      cs !! i = Some (c, w) ∧ priced product (c, w) = true
      ∧ (∀ j d, (j < i)%nat → cs !! j = Some d → priced product d = false)
      ∧ alvo = with_variation (competitorPrice product c) v
      ∧ quotes = [Build_Quote c (competitorPrice product c) (#1)%js]
  | lowest, Some (alvo, quotes) => ∃ c w,
      (c, w) ∈ cs ∧ priced product (c, w) = true
      ∧ (∀ d, d ∈ cs → priced product d = true →
           (competitorPrice product d.1 <? competitorPrice product c)%js = false)
      ∧ alvo = with_variation (competitorPrice product c) v
      ∧ quotes = [Build_Quote c (competitorPrice product c) (#1)%js]
  | weighted, Some (alvo, quotes) =>
      quotes ≠ [] ∧ quotes = quotes_of product cs
  | weighted, None => ∀ c w, (c, w) ∈ cs → priced product (c, w) = true →
      (#0 <? toFiniteNumber w (n_int 0))%js = false
  | _, None => ∀ d, d ∈ cs → priced product d = false
  end.
Proof.
  intros Hs cs. unfold competition. rewrite Hs. fold cs. destruct (r_competitorMode rule).
  - unfold weighted_alvo. destruct (quotes_of product cs) as [|q l] eqn:Hq; [|done].
    intros c w Hin Hp. apply not_true_is_false. intros Hw.
    assert (Build_Quote c (competitorPrice product c) (toFiniteNumber w (n_int 0))
            ∈ quotes_of product cs) as Hin' by (apply quotes_of_elem; eauto 6).
    rewrite Hq in Hin'. by apply elem_of_nil in Hin'.
  - rewrite cascade_alvo_spec. destruct (list_find _ cs) as [[i [c w]]|] eqn:Hf.
    + apply list_find_Some in Hf as (Hi & Hp & Hb). exists i, c, w. split_and!; try done.
      intros j d Hj Hd. apply not_true_is_false. by eapply Hb.
    + apply list_find_None in Hf. rewrite Forall_forall in Hf. intros d Hd.
      by apply not_true_is_false, Hf.
  - unfold lowest_alvo. rewrite cheapest_of_best.
    pose proof (best_spec (priced product) (dearer product) cs (dearer_trans product)
      (dearer_irrefl product)) as Hb.
    destruct (foldl _ None cs) as [[c w]|]; simpl in *; [|done].
    destruct Hb as (Hin & Hp & Hm). exists c, w. by split_and!.
Qed.

Section WeightedAverage.
Open Scope Q_scope.
Implicit Types (quotes : list (Quote XQ)).

Definition quote_within (lo hi : Q) (qt : Quote XQ) : Prop :=
  ∃ p w, q_price qt = XFin p ∧ q_weight qt = XFin w ∧ 0 < w ∧ lo <= p ∧ p <= hi.

Lemma weighted_sums lo hi quotes (a b : Q) :
  Forall (quote_within lo hi) quotes →
  ∃ A B, foldl (λ acc qt, acc + q_weight qt)%js (XFin a) quotes = XFin A
    ∧ foldl (λ acc qt, acc + q_price qt * q_weight qt)%js (XFin b) quotes = XFin B
    ∧ a <= A ∧ (quotes ≠ [] → a < A)
    ∧ lo * (A - a) <= B - b ∧ B - b <= hi * (A - a).
Proof.
  revert a b. induction quotes as [|qt l IH]; intros a b Hall.
  { exists a, b. split_and!; try done; lra. }
  apply Forall_cons in Hall as [(p & w & Hp & Hw & Hw0 & Hlo & Hhi) Hall].
  destruct (IH (a + w) (b + p * w) Hall) as (A & B & HA & HB & HaA & _ & Hl & Hh).
  exists A, B. cbn [foldl]. rewrite Hp, Hw. split_and!; [done|done|lra|intros; lra| |].
  - assert (lo * w <= p * w) by (apply Qmult_le_compat_r; lra).
    assert (lo * (A - a) == lo * (A - (a + w)) + lo * w)%Q as E by ring. lra.
  - assert (p * w <= hi * w) by (apply Qmult_le_compat_r; lra).
    assert (hi * (A - a) == hi * (A - (a + w)) + hi * w)%Q as E by ring. lra.
Qed.

End WeightedAverage.

(** In exact arithmetic the weighted reference price lies between the
    lowest and the highest price quoted, whatever the weights, and the
    competition price is that reference moved by the variation. *)
Theorem weighted_between_quotes (product : SuggestionProduct XQ) competitors (v lo hi : Q)
    alvo quotes :
  (∀ qt, qt ∈ quotes_of product competitors →
     ∃ p, q_price qt = XFin p ∧ (lo <= p)%Q ∧ (p <= hi)%Q) →
  weighted_alvo product (XFin v) competitors = Some (alvo, quotes) →
  ∃ avg, (lo <= avg)%Q ∧ (avg <= hi)%Q ∧ alvo = with_variation (XFin avg) (XFin v).
Proof.
  intros Hin. unfold weighted_alvo. destruct (quotes_of product competitors) as [|q l] eqn:Hq; [done|].
  rewrite <- Hq in *. intros [= <- _].
  assert (Forall (quote_within lo hi) (quotes_of product competitors)) as Hall.
  { apply Forall_forall. intros qt Hqt. destruct (Hin qt Hqt) as (p & Hp & Hlo & Hhi).
    apply quotes_of_elem in Hqt as (c & w & _ & _ & Hw & ->).
    destruct (toFiniteNumber w (n_int 0)) as [x|n|] eqn:Hx; [| |done].
    - exists p, x. split_and!; try done. by apply xq_lt in Hw.
    - pose proof (toFiniteNumber_finite w (XFin 0) eq_refl) as Hf. change (XFin 0) with (n_int 0 : XQ) in Hf.
      by rewrite Hx in Hf. }
  destruct (weighted_sums lo hi _ 0 0 Hall) as (A & B & HA & HB & _ & Hpos & Hl & Hh).
  assert (0 < A)%Q as HA0 by (apply Hpos; by rewrite Hq).
  exists (B / A)%Q. split_and!.
  - apply Qle_shift_div_l; [done|]. assert (lo * A == lo * (A - 0))%Q as E by ring. lra.
  - apply Qle_shift_div_r; [done|]. assert (hi * A == hi * (A - 0))%Q as E by ring. lra.
  - match type of HA with ?SA = _ => match type of HB with ?SB = _ =>
      transitivity (with_variation (n_div SB SA) (XFin v)); [reflexivity|] end end.
    rewrite HA, HB. simpl. destruct (Qeq_bool A 0) eqn:E; [|done]. apply Qeq_bool_iff in E. lra.
Qed.

(* ------------------------------------------------------------------ *)
(** * Evaluation                                                        *)
(* ------------------------------------------------------------------ *)

(** The fixtures of [pricing-suggestion.engine.spec.ts]. *)
Section Fixtures.
Context {N : Type} `{JsNum N}.
Open Scope js_scope.

Definition fx_product (venda : N) (prices : gmap string N) : SuggestionProduct N := {|
  sp_ean := "7891234567890"; sp_classificationId := Some "dor";
  sp_classificacao := "MEDICAMENTOS > GENERICOS > DOR"; sp_custo := #6; sp_precoVenda := venda;
  sp_precoOferta := #0; sp_competitorPrices := prices; sp_pbm := false;
|}.

Definition fx_rule (id : string) (cs : list string) (strategy : SuggestionStrategy)
    (mode : CompetitorMode) (competitors : list (string * JsVal N)) : SuggestionRule N := {|
  r_id := id; r_name := id; r_classifications := cs; r_storeIds := []; r_clusterId := None;
  r_clusterName := None; r_excludeClusterIds := []; r_strategy := strategy;
  r_minMargin := VStr "30.00"; r_competitorMode := mode; r_competitors := competitors;
  r_variationPct := VStr "0"; r_noCompetitorMargin := VNull; r_priceControlled := false;
  r_ignorePbm := false; r_blockPbmInMargin := false; r_cascadeByPriority := false;
  r_applyRounding := true; r_active := true; r_createdAt := "2026-06-01T00:00:00.000Z";
  r_updatedAt := "2026-06-01T00:00:00.000Z";
|}.

Definition fx_ranges : list (PriceRoundingRange N) :=
  [Build_PriceRoundingRange (#0) (#100)
     [Build_PriceRoundingRule (#0) (n_dec 49 2) (n_dec 49 2);
      Build_PriceRoundingRule (n_dec 50 2) (n_dec 99 2) (n_dec 99 2)]].

Definition fx_prices (a b : N) : gmap string N := <["drogal" := a]> (<["drogasil" := b]> ∅).
Definition fx_competitors : list (string * JsVal N) :=
  [("drogal", VNum (#50)); ("drogasil", VNum (#50))].
End Fixtures.

(** 6 / 0.7 = 8.571... rounds to 8.57; the rounding table makes it 8.99. *)
Example engine_f64 :
  (match computeSuggestion (fx_product (#8)%js ∅) (fx_rule "r1" [] margem weighted []) [] with
   | Suggestion s => Some (s_price s, s_basis s) | _ => None end
   = Some (n_dec 857 2 : F64, basis_margem_minima)) ∧
  (match computeSuggestion (fx_product (#8)%js ∅) (fx_rule "r1" [] margem weighted []) fx_ranges with
   | Suggestion s => Some (s_price s) | _ => None end = Some (n_dec 899 2 : F64)).
Proof. vm_compute. done. Qed.

Lemma rule_selection_witness :
  findRuleForProduct (fx_product (#8)%js ∅ : SuggestionProduct F64)
    [fx_rule "b" [] margem weighted []; fx_rule "a" [] margem weighted []] [] None
  = Some (fx_rule "a" [] margem weighted []).
Proof.
  assert (NoDup (r_id <$> [fx_rule "b" [] margem weighted []; fx_rule "a" [] margem weighted []
     : SuggestionRule F64])) as Hn
    by (refine (proj1 (bool_decide_eq_true _) _); vm_compute; reflexivity).
  destruct (rule_selection (N := F64) (fx_product (#8)%js ∅) [] [fx_rule "b" [] margem weighted [];
    fx_rule "a" [] margem weighted []] [] None (NoDup_nil_2) Hn) as (_ & _ & _ & _ & Hp).
  rewrite <- (Hp [fx_rule "a" [] margem weighted []; fx_rule "b" [] margem weighted []])
    by apply perm_swap.
  vm_compute. reflexivity.
Defined.

Lemma suggestion_sound_witness :
  ∃ s, computeSuggestion (fx_product (#8)%js ∅ : SuggestionProduct F64)
         (fx_rule "r1" [] margem weighted []) fx_ranges = Suggestion s
    ∧ (#0 <? s_price s)%js = true ∧ pbm_blocked (N := F64) (fx_product (#8)%js ∅)
         (fx_rule "r1" [] margem weighted []) = false.
Proof.
  pose proof (suggestion_sound (N := F64) (fx_product (#8)%js ∅)
    (fx_rule "r1" [] margem weighted []) fx_ranges) as Hs.
  destruct (computeSuggestion _ _ _) as [s|r o] eqn:E; [|vm_compute in E; discriminate E].
  destruct Hs as (_ & _ & Hp & _ & Hb & _). exists s. split; [reflexivity|]. split; [exact Hp|exact Hb].
Defined.

Lemma competition_modes_witness :
  ∃ alvo, competition (N := F64) (fx_product (#8)%js (fx_prices (#10)%js (#9)%js))
            (fx_rule "r1" [] concorrencia lowest fx_competitors) (#0)%js
          = Some (alvo, [Build_Quote "drogasil" (#9)%js (#1)%js]).
Proof.
  pose proof (competition_modes (N := F64) (fx_product (#8)%js (fx_prices (#10)%js (#9)%js))
    (fx_rule "r1" [] concorrencia lowest fx_competitors) (#0)%js eq_refl) as Hc.
  cbn [r_competitorMode fx_rule] in Hc.
  destruct (competition _ _ _) as [[alvo quotes]|] eqn:E.
  - exists alvo. destruct Hc as (c & w & Hin & _ & Hmin & _ & ->).
    vm_compute in E. injection E as _ <- _. reflexivity.
  - vm_compute in E. discriminate E.
Defined.

Lemma weighted_between_quotes_witness :
  ∃ avg, (9 <= avg)%Q ∧ (avg <= 10)%Q ∧
    weighted_alvo (fx_product (#8)%js (fx_prices (#10)%js (#9)%js)) (XFin 0) fx_competitors
    = Some (with_variation (XFin avg) (XFin 0), quotes_of
        (fx_product (#8)%js (fx_prices (#10)%js (#9)%js)) fx_competitors).
Proof.
  destruct (weighted_alvo (fx_product (#8)%js (fx_prices (#10)%js (#9)%js)) (XFin 0) fx_competitors)
    as [[alvo quotes]|] eqn:E; [|vm_compute in E; discriminate E].
  assert (quotes = quotes_of (fx_product (#8)%js (fx_prices (#10)%js (#9)%js)) fx_competitors) as Hq.
  { vm_compute in E. injection E as _ <-. vm_compute. reflexivity. }
  destruct (weighted_between_quotes (fx_product (#8)%js (fx_prices (#10)%js (#9)%js))
    fx_competitors 0 9 10 alvo quotes) as (avg & H1 & H2 & H3).
  - intros qt. vm_compute (quotes_of _ _). intros [->|[->|[]%elem_of_nil]%elem_of_cons]%elem_of_cons;
      eexists; (split; [vm_compute; reflexivity|split; vm_compute; discriminate]).
  - exact E.
  - exists avg. split_and!; [exact H1|exact H2|]. rewrite Hq, H3. reflexivity.
Defined.

Lemma suggestion_respects_floor_witness :
  ∃ s, computeSuggestion (fx_product (#8)%js ∅ : SuggestionProduct XQ)
         (fx_rule "r1" [] margem weighted []) fx_ranges = Suggestion s
    ∧ (s_price s + n_dec 5 3 <? floor_of (fx_product (#8)%js ∅) (fx_rule "r1" [] margem weighted []))%js
      = false.
Proof.
  destruct (computeSuggestion (fx_product (#8)%js ∅ : SuggestionProduct XQ)
    (fx_rule "r1" [] margem weighted []) fx_ranges) as [s|r o] eqn:E; [|vm_compute in E; discriminate E].
  exists s. split; [reflexivity|].
  refine (proj1 (suggestion_respects_floor (fx_product (#8)%js ∅) _ fx_ranges s eq_refl eq_refl _ E)).
  repeat constructor; eexists; (split; [vm_compute; reflexivity|vm_compute; discriminate]).
Defined.
