(* ===== verification/PricingDb.v ===== *)
(** The database the pricing services work on, and their transactions.

    A pricing request runs in one transaction (the SearchPathInterceptor of
    the API, [runWithTenant] in the crons): the model of a service method is
    a function [Tx A] from the database at its start to a result and the
    database at its end, or to an exception, which rolls everything back.
    Where the code guards against other transactions committing in between
    ([ON CONFLICT DO NOTHING], [UPDATE ... WHERE status = 'pending'],
    [FOR UPDATE SKIP LOCKED]), the definitions take the interference as an
    argument or are single steps of an interleaving.

    Tables with a unique index are maps from its key; [core.pipeline_run]
    and [core.pipeline_outbox] are those of [World.Db].  A numeric column
    holds an exact decimal ([Numeric]); JavaScript reads its text, so
    [Number(...)] of it is the number nearest to that decimal. *)

From Stdlib Require Import Ascii String.
From S2P Require Import Prelude JsText JsNumber JsDate Enums Messages World Outbox Classification SuggestionEngine.
Open Scope string_scope.
Open Scope list_scope.
Open Scope Z_scope.

(* ------------------------------------------------------------------ *)
(** * Columns                                                           *)
(* ------------------------------------------------------------------ *)

(** The decimal [nm_unscaled * 10 ^ (- nm_scale)] of a numeric column. *)
Record Numeric := Num { nm_unscaled : Z; nm_scale : nat }.

Definition num_of {N} `{JsNum N} (x : option Numeric) : option N :=
  match x with
  | None => None
  | Some n => let v := n_dec (nm_unscaled n) (nm_scale n) in
              if n_finite v then Some v else None
  end.

(** SQL [x > 0]; NULL does not satisfy a WHERE clause. *)
Definition sql_pos (x : option Numeric) : bool :=
  match x with Some n => 0 <? nm_unscaled n | None => false end.

Definition COALESCE {A} (a b : option A) : option A :=
  match a with Some _ => a | None => b end.

Definition ean_text (ean : Z) : string := pretty ean.

(* ------------------------------------------------------------------ *)
(** * Tables                                                            *)
(* ------------------------------------------------------------------ *)

(** [product], by [ean] ([ProductEntity]). *)
Record ProductRow := {
  p_id : string;
  p_name : option string;
  p_supplier : option string;
  p_status : option string;
  p_active : bool;
  p_deleted : bool;
  p_price : option Numeric;
  p_cost : option Numeric;
  p_classificationId : option string;
  p_monitored : bool;
  p_externalId : option string;
  p_averageUnitCost : option Numeric;
  p_unitSalePrice : option Numeric;
  p_margin : option Numeric;
}.

(** [product_item], by [(product_id, store_id)] ([ProductItemEntity]). *)
Record ItemRow := {
  pi_price : option Numeric;
  pi_cost : option Numeric;
  pi_price_offer : option Numeric;
  pi_offer_external_id : option Z;
  pi_offer_description : option string;
}.

(** [offer_book], by [ean] ([OfferBookEntity]). *)
Record OfferBookRow := {
  of_description : option string;
  of_target_price : option Numeric;
  of_external_id : option Z;
}.

(** [shared_catalog.product], by [(ean, origin)]. *)
Record SharedProductRow := {
  sh_price : option Numeric;
  sh_isPbm : bool;
  sh_van : option string;
  sh_deleted : bool;
}.

(** [core.tenant_store], by [id] ([TenantStoreEntity]). *)
Record StoreRow := {
  ts_tenant_id : string;
  ts_external_id : Z;
  ts_name : string;
  ts_cnpj : option string;
  ts_active : bool;
  ts_deleted : bool;
}.

(** [core.tenant_competitor_origin], by [(tenant_id, origin)]. *)
Record OriginRow := { co_enabled : bool; co_priority : Z; co_deleted : bool }.

(** [core.price_rounding_range] and [core.price_rounding_rule]. *)
Record RoundingRangeRow := {
  rg_id : string; rg_tenant_id : string; rg_price_min : Numeric; rg_price_max : Numeric;
}.
Record RoundingRuleRow := {
  rl_range_id : string; rl_decimal_min : Numeric; rl_decimal_max : Numeric; rl_round_to : Numeric;
}.

(** [classification] *)
Record ClassificationEntity := { ce_row : ClassificationRow; ce_deleted : bool }.

(** [tenant_offer_campaign], by [external_id]; times in ms. *)
Record CampaignRow := {
  cp_name : string;
  cp_active : bool;
  cp_startDate : option Z;
  cp_expirationDate : option Z;
  cp_deleted : bool;
}.

(** [core.integration_database_connection], by [tenant_id]: the columns of
    the write-back API. *)
Record ConnectionRow := { cn_apiBaseUrl : option string; cn_apiKeyEncrypted : option string }.

(** [product_cluster], by [id]; times in ms. *)
Record ClusterRow := { cl_name : string; cl_createdAt : Z; cl_updatedAt : Z; cl_deleted : bool }.

(** [pricing_suggestion_rule] ([PricingSuggestionRuleEntity]); numeric
    columns as the text the driver returns, times in ms; a number inside a
    jsonb column is the JavaScript number it was written from (JSON numbers
    round trip). *)
Record RuleRow (N : Type) := {
  ru_id : string;
  ru_name : string;
  ru_classifications : list string;
  ru_storeIds : list string;
  ru_clusterId : option string;
  ru_excludeClusterIds : list string;
  ru_strategy : SuggestionStrategy;
  ru_minMargin : string;
  ru_competitorMode : CompetitorMode;
  ru_competitors : list (string * N);
  ru_variationPct : string;
  ru_noCompetitorMargin : option string;
  ru_priceControlled : bool;
  ru_ignorePbm : bool;
  ru_blockPbmInMargin : bool;
  ru_cascadeByPriority : bool;
  ru_applyRounding : bool;
  ru_active : bool;
  ru_createdAt : Z;
  ru_updatedAt : Z;
  ru_deleted : bool;
}.
Arguments Build_RuleRow {N}.
Arguments ru_id {N}. Arguments ru_name {N}. Arguments ru_classifications {N}.
Arguments ru_storeIds {N}. Arguments ru_clusterId {N}. Arguments ru_excludeClusterIds {N}.
Arguments ru_strategy {N}. Arguments ru_minMargin {N}. Arguments ru_competitorMode {N}.
Arguments ru_competitors {N}. Arguments ru_variationPct {N}.
Arguments ru_noCompetitorMargin {N}. Arguments ru_priceControlled {N}.
Arguments ru_ignorePbm {N}. Arguments ru_blockPbmInMargin {N}.
Arguments ru_cascadeByPriority {N}. Arguments ru_applyRounding {N}. Arguments ru_active {N}.
Arguments ru_createdAt {N}. Arguments ru_updatedAt {N}. Arguments ru_deleted {N}.

Inductive ApplyRunStatus := run_pending | run_running | run_done | run_failed.
Inductive ApprovalStatus := approval_pending | approval_approved | approval_rejected.
Inductive ApplyItemStatus := item_pending | item_applied | item_skipped | item_failed.
Inductive ScheduleStatus := sched_pending | sched_fired | sched_cancelled | sched_failed.

#[export] Instance ApplyRunStatus_eq_dec : EqDecision ApplyRunStatus.
Proof. solve_decision. Defined.
#[export] Instance ApprovalStatus_eq_dec : EqDecision ApprovalStatus.
Proof. solve_decision. Defined.
#[export] Instance ApplyItemStatus_eq_dec : EqDecision ApplyItemStatus.
Proof. solve_decision. Defined.
#[export] Instance ScheduleStatus_eq_dec : EqDecision ScheduleStatus.
Proof. solve_decision. Defined.

(** [pricing_apply_run], by [id] ([PricingApplyRunEntity]). *)
Record ApplyRun := {
  ar_idempotencyKey : string;
  ar_requestedBy : option string;
  ar_status : ApplyRunStatus;
  ar_total : Z;
  ar_applied : Z;
  ar_skipped : Z;
  ar_failed : Z;
  ar_approvalStatus : option ApprovalStatus;
  ar_createdAt : Z;
  ar_deleted : bool;
}.

(** [pricing_apply_item] ([PricingApplyItemEntity]). *)
Record ApplyItem := {
  ai_id : string;
  ai_applyRunId : string;
  ai_batchSeq : option Z;
  ai_ean : string;
  ai_target : SuggestionTarget;
  ai_storeId : option string;
  ai_price : Numeric;
  ai_cadernoId : option Z;
  ai_priceOldSell : option Numeric;
  ai_priceOldOffer : option Numeric;
  ai_ruleId : option string;
  ai_basis : option SuggestionBasis;
  ai_costAtApply : option Numeric;
  ai_status : ApplyItemStatus;
  ai_reason : option string;
  ai_erpResult : option string;
  ai_appliedAt : option Z;
}.

(** The tables the pricing services read. *)
Record Catalog (N : Type) := {
  ct_tenants : gmap string string;
  ct_products : gmap Z ProductRow;
  ct_productItems : gmap (string * string) ItemRow;
  ct_offerBook : gmap Z OfferBookRow;
  ct_shared : gmap (Z * string) SharedProductRow;
  ct_stores : gmap string StoreRow;
  ct_origins : gmap (string * string) OriginRow;
  ct_defaultCaderno : gmap string (option Z);
  ct_roundingRanges : list RoundingRangeRow;
  ct_roundingRules : list RoundingRuleRow;
  ct_classifications : list ClassificationEntity;
  ct_rules : list (RuleRow N);
  ct_clusters : gmap string ClusterRow;
  ct_members : list (string * string);
  ct_campaigns : gmap Z CampaignRow;
  ct_connections : gmap string ConnectionRow;
}.
Arguments Build_Catalog {N}.
Arguments ct_tenants {N}. Arguments ct_products {N}. Arguments ct_productItems {N}.
Arguments ct_offerBook {N}. Arguments ct_shared {N}. Arguments ct_stores {N}.
Arguments ct_origins {N}. Arguments ct_defaultCaderno {N}. Arguments ct_roundingRanges {N}.
Arguments ct_roundingRules {N}. Arguments ct_classifications {N}. Arguments ct_rules {N}.
Arguments ct_clusters {N}. Arguments ct_members {N}. Arguments ct_campaigns {N}.
Arguments ct_connections {N}.

(** An item of the [items] column of [pricing_schedule]. *)
Record ScheduleItem (N : Type) := {
  si_ean : string;
  si_target : SuggestionTarget;
  si_price : N;
  si_cadernoId : option Z;
  si_storeId : option string;
}.
Arguments Build_ScheduleItem {N}.
Arguments si_ean {N}. Arguments si_target {N}. Arguments si_price {N}.
Arguments si_cadernoId {N}. Arguments si_storeId {N}.

(** [pricing_schedule] ([PricingScheduleEntity]), by [id]; a timestamptz
    column in microseconds, PostgreSQL's resolution. *)
Record ScheduleRow (N : Type) := {
  sc_runAt : Z;
  sc_status : ScheduleStatus;
  sc_requestedBy : option string;
  sc_items : list (ScheduleItem N);
  sc_applyRunId : option string;
  sc_firedAt : option Z;
  sc_cronExpr : option string;
  sc_recalc : bool;
  sc_createdAt : Z;
  sc_removed : bool;
}.
Arguments Build_ScheduleRow {N}.
Arguments sc_runAt {N}. Arguments sc_status {N}. Arguments sc_requestedBy {N}.
Arguments sc_items {N}. Arguments sc_applyRunId {N}. Arguments sc_firedAt {N}.
Arguments sc_cronExpr {N}. Arguments sc_recalc {N}. Arguments sc_createdAt {N}.
Arguments sc_removed {N}.

Record PricingData (N : Type) := {
  pd_catalog : Catalog N;
  pd_runs : gmap string ApplyRun;
  pd_items : list ApplyItem;
  pd_schedules : gmap string (ScheduleRow N);
}.
Arguments Build_PricingData {N}.
Arguments pd_catalog {N}. Arguments pd_runs {N}. Arguments pd_items {N}.
Arguments pd_schedules {N}.

Abbreviation PricingDb N := (Db (PricingData N)).

(* ------------------------------------------------------------------ *)
(** * Transactions                                                      *)
(* ------------------------------------------------------------------ *)

Section Transactions.
Context {N : Type}.

Definition Tx (A : Type) : Type := PricingDb N → Res (A * PricingDb N).

#[export] Instance Tx_ret : MRet Tx := λ A a db, Ok (a, db).
#[export] Instance Tx_bind : MBind Tx := λ A B f m db,
  match m db with Ok (a, db') => f a db' | Throw e => Throw e end.

Definition tx_throw {A} (e : Exn) : Tx A := λ _, Throw e.
Definition tx_get : Tx (PricingDb N) := λ db, Ok (db, db).
Definition tx_lift {A} (r : Res A) : Tx A := λ db,
  match r with Ok a => Ok (a, db) | Throw e => Throw e end.
Definition tx_modify (f : PricingDb N → PricingDb N) : Tx unit := λ db, Ok ((), f db).

Definition catalog (db : PricingDb N) : Catalog N := pd_catalog (db_data db).
Definition applyRuns (db : PricingDb N) : gmap string ApplyRun := pd_runs (db_data db).
Definition applyItems (db : PricingDb N) : list ApplyItem := pd_items (db_data db).
Definition schedules (db : PricingDb N) : gmap string (ScheduleRow N) := pd_schedules (db_data db).

Definition set_data (d : PricingData N) (db : PricingDb N) : PricingDb N :=
  Build_Db (db_runs db) (db_outbox db) d.
Definition set_catalog (c : Catalog N) (db : PricingDb N) : PricingDb N :=
  set_data (Build_PricingData c (applyRuns db) (applyItems db) (schedules db)) db.
Definition set_applyRuns (runs : gmap string ApplyRun) (db : PricingDb N) : PricingDb N :=
  set_data (Build_PricingData (catalog db) runs (applyItems db) (schedules db)) db.
Definition set_applyItems (items : list ApplyItem) (db : PricingDb N) : PricingDb N :=
  set_data (Build_PricingData (catalog db) (applyRuns db) items (schedules db)) db.
Definition set_schedules (ss : gmap string (ScheduleRow N)) (db : PricingDb N) : PricingDb N :=
  set_data (Build_PricingData (catalog db) (applyRuns db) (applyItems db) ss) db.

(** [OutboxRepository.insertMany] inside the transaction. *)
Definition tx_insertMany (now : Z) (runId slug : string) (ms : list Message) : Tx unit :=
  match ms with [] => mret () | _ => tx_modify (stage now runId slug ms) end.

(** A transaction commits its final state or, on an exception, nothing. *)
Definition commit {A} (m : Tx A) (db : PricingDb N) : Res A * PricingDb N :=
  match m db with Ok (a, db') => (Ok a, db') | Throw e => (Throw e, db) end.

End Transactions.
Arguments Tx : clear implicits.

(* ------------------------------------------------------------------ *)
(** * Shared lookups                                                    *)
(* ------------------------------------------------------------------ *)

Section Lookups.
Context {N : Type} `{JsNum N}.

(** [tenant-lookup.ts: resolveTenantId] *)
Definition resolveTenantId (c : Catalog N) (slug : string) : Res string :=
  match ct_tenants c !! slug with
  | Some id => Ok id
  | None => Throw (ENotFound ("tenant " +:+ slug +:+ " not found"))
  end.

(** [CompetitorOriginsService.list] (priority, then name) as
    [(origin, enabled)]; the names are ASCII capitals, on which
    [localeCompare] is the code point order. *)
Definition origin_configs (c : Catalog N) (tenantId : string) : list (string * bool * Z) :=
  js_sort (λ a b, (a.2 <? b.2) || (a.2 =? b.2) && negb (str_ltb b.1.1 a.1.1))
    ((λ o, match ct_origins c !! (tenantId, origin_str o) with
           | Some r => if co_deleted r then (origin_str o, false, 100)
                       else (origin_str o, co_enabled r, co_priority r)
           | None => (origin_str o, false, 100)
           end) <$> all_origins).

Definition enabledOrigins (c : Catalog N) (slug : string) : Res (list string) :=
  tenantId ← resolveTenantId c slug;
  Ok ((λ x, x.1.1) <$> filter (λ x : string * bool * Z, x.1.2 = true) (origin_configs c tenantId)).

(** [pricing-rules.util.ts: originPriorities] *)
Definition originPriorities (c : Catalog N) (slug : string) : Res (gmap string Z) :=
  tenantId ← resolveTenantId c slug;
  Ok (list_to_map (omap (λ o,
        match ct_origins c !! (tenantId, origin_str o) with
        | Some r => if co_deleted r then None else Some (origin_str o, co_priority r)
        | None => None
        end) all_origins)).

(** [ClassificationsService.list] and [index] *)
Definition classification_index (c : Catalog N) : Res ClassificationIndex :=
  buildClassificationIndex
    (ce_row <$> filter (λ e, ce_deleted e = false) (ct_classifications c)).

(** [ClustersService.loadActiveClusterMembership]: members of the clusters
    an active rule targets or excludes, by EAN. *)
Definition referenced_clusters (c : Catalog N) : list string :=
  r ← filter (λ r, ru_active r = true ∧ ru_deleted r = false) (ct_rules c);
  option_list (ru_clusterId r) ++ ru_excludeClusterIds r.

Definition loadActiveClusterMembership (c : Catalog N) : gmap string (list string) :=
  foldl (λ m '(cid, ean),
    if decide (cid ∈ referenced_clusters c)
    then <[ean := default [] (m !! ean) ++ [cid]]> m else m)
    ∅ (ct_members c).

(** [PriceRoundingService.list] as the suggestions service maps it. *)
Definition dec_of (n : Numeric) : N := n_dec (nm_unscaled n) (nm_scale n).

Definition numeric_le (a b : Numeric) : bool :=
  nm_unscaled a * 10 ^ Z.of_nat (nm_scale b) <=? nm_unscaled b * 10 ^ Z.of_nat (nm_scale a).

Definition rounding_list (c : Catalog N) (slug : string) : Res (list (PriceRoundingRange N)) :=
  tenantId ← resolveTenantId c slug;
  let rulesFor id :=
    js_sort (λ a b, numeric_le (rl_decimal_min a) (rl_decimal_min b))
      (filter (λ r, rl_range_id r = id) (ct_roundingRules c)) in
  Ok ((λ r, Build_PriceRoundingRange (dec_of (rg_price_min r)) (dec_of (rg_price_max r))
              ((λ d, Build_PriceRoundingRule (dec_of (rl_decimal_min d)) (dec_of (rl_decimal_max d))
                       (dec_of (rl_round_to d))) <$> rulesFor (rg_id r)))
      <$> js_sort (λ a b, numeric_le (rg_price_min a) (rg_price_min b))
            (filter (λ r, rg_tenant_id r = tenantId) (ct_roundingRanges c))).

(** [SuggestionRulesService.toApi] after the [LEFT JOIN product_cluster] *)
Definition toApi (c : Catalog N) (r : RuleRow N) : SuggestionRule N := {|
  r_id := ru_id r;
  r_name := ru_name r;
  r_classifications := ru_classifications r;
  r_storeIds := ru_storeIds r;
  r_clusterId := ru_clusterId r;
  r_clusterName := cid ← ru_clusterId r; cl_name <$> ct_clusters c !! cid;
  r_excludeClusterIds := ru_excludeClusterIds r;
  r_strategy := ru_strategy r;
  r_minMargin := VNum (js_Number (ru_minMargin r));
  r_competitorMode := ru_competitorMode r;
  r_competitors := (λ '(o, w), (o, VNum w)) <$> ru_competitors r;
  r_variationPct := VNum (js_Number (ru_variationPct r));
  r_noCompetitorMargin := match ru_noCompetitorMargin r with
                          | None => VNull | Some s => VNum (js_Number s) end;
  r_priceControlled := ru_priceControlled r;
  r_ignorePbm := ru_ignorePbm r;
  r_blockPbmInMargin := ru_blockPbmInMargin r;
  r_cascadeByPriority := ru_cascadeByPriority r;
  r_applyRounding := ru_applyRounding r;
  r_active := ru_active r;
  r_createdAt := toISOString (ru_createdAt r);
  r_updatedAt := toISOString (ru_updatedAt r);
|}.

(** [SuggestionRulesService.list]: live rules, latest update first. *)
Definition list_rules (c : Catalog N) : list (SuggestionRule N) :=
  toApi c <$> js_sort (λ a b, ru_updatedAt b <=? ru_updatedAt a)
                (filter (λ r, ru_deleted r = false) (ct_rules c)).

End Lookups.
