(* ===== verification/SuggestionRules.v ===== *)
(** Suggestion rules: CRUD and validation ([tenant-api/pricing/
    suggestion-rules.service.ts]) and the predicates the suggestion and the
    apply flows share ([pricing-rules.util.ts]). *)

From Stdlib Require Import Ascii String.
From S2P Require Import Prelude JsText JsNumber JsDate Enums Messages World Outbox Classification SuggestionEngine PricingDb.
Open Scope string_scope.
Open Scope list_scope.
Open Scope Z_scope.

(** [UpsertSuggestionRuleDto] after the ValidationPipe: absent optional
    fields are [None]. *)
Record UpsertSuggestionRuleDto (N : Type) := {
  d_name : string;
  d_classifications : option (list string);
  d_clusterId : option string;
  d_excludeClusterIds : option (list string);
  d_storeIds : option (list string);
  d_strategy : option SuggestionStrategy;
  d_minMargin : N;
  d_competitorMode : option CompetitorMode;
  d_competitors : option (list (string * option N));
  d_variationPct : option N;
  d_noCompetitorMargin : option N;
  d_priceControlled : option bool;
  d_ignorePbm : option bool;
  d_blockPbmInMargin : option bool;
  d_cascadeByPriority : option bool;
  d_applyRounding : option bool;
  d_active : option bool;
}.
Arguments Build_UpsertSuggestionRuleDto {N}.
Arguments d_name {N}. Arguments d_classifications {N}. Arguments d_clusterId {N}.
Arguments d_excludeClusterIds {N}. Arguments d_storeIds {N}. Arguments d_strategy {N}.
Arguments d_minMargin {N}. Arguments d_competitorMode {N}. Arguments d_competitors {N}.
Arguments d_variationPct {N}. Arguments d_noCompetitorMargin {N}. Arguments d_priceControlled {N}.
Arguments d_ignorePbm {N}. Arguments d_blockPbmInMargin {N}. Arguments d_cascadeByPriority {N}.
Arguments d_applyRounding {N}. Arguments d_active {N}.

(** What [validate] returns: the columns to write. *)
Record RuleValues (N : Type) := {
  v_name : string;
  v_classifications : list string;
  v_storeIds : list string;
  v_clusterId : option string;
  v_excludeClusterIds : list string;
  v_strategy : SuggestionStrategy;
  v_minMargin : string;
  v_competitorMode : CompetitorMode;
  v_competitors : list (string * N);
  v_variationPct : string;
  v_noCompetitorMargin : option string;
  v_priceControlled : bool;
  v_ignorePbm : bool;
  v_blockPbmInMargin : bool;
  v_cascadeByPriority : bool;
  v_applyRounding : bool;
  v_active : bool;
}.
Arguments Build_RuleValues {N}.
Arguments v_name {N}. Arguments v_classifications {N}. Arguments v_storeIds {N}.
Arguments v_clusterId {N}. Arguments v_excludeClusterIds {N}. Arguments v_strategy {N}.
Arguments v_minMargin {N}. Arguments v_competitorMode {N}. Arguments v_competitors {N}.
Arguments v_variationPct {N}. Arguments v_noCompetitorMargin {N}. Arguments v_priceControlled {N}.
Arguments v_ignorePbm {N}. Arguments v_blockPbmInMargin {N}. Arguments v_cascadeByPriority {N}.
Arguments v_applyRounding {N}. Arguments v_active {N}.

Section Rules.
Context {N : Type} `{JsNum N}.

(* ------------------------------------------------------------------ *)
(** * pricing-rules.util.ts                                             *)
(* ------------------------------------------------------------------ *)

Definition ruleParticipates (rule : SuggestionRule N) (storeId : option string) : bool :=
  match r_storeIds rule with
  | [] => true
  | ids => match storeId with Some s => bool_decide (s ∈ ids) | None => false end
  end.

Definition MAX_SAFE_INTEGER : Z := 9007199254740991.

Definition with_competitors (rule : SuggestionRule N) (cs : list (string * JsVal N)) : SuggestionRule N :=
  {| r_id := r_id rule; r_name := r_name rule; r_classifications := r_classifications rule;
     r_storeIds := r_storeIds rule; r_clusterId := r_clusterId rule; r_clusterName := r_clusterName rule;
     r_excludeClusterIds := r_excludeClusterIds rule; r_strategy := r_strategy rule;
     r_minMargin := r_minMargin rule; r_competitorMode := r_competitorMode rule; r_competitors := cs;
     r_variationPct := r_variationPct rule; r_noCompetitorMargin := r_noCompetitorMargin rule;
     r_priceControlled := r_priceControlled rule; r_ignorePbm := r_ignorePbm rule;
     r_blockPbmInMargin := r_blockPbmInMargin rule; r_cascadeByPriority := r_cascadeByPriority rule;
     r_applyRounding := r_applyRounding rule; r_active := r_active rule;
     r_createdAt := r_createdAt rule; r_updatedAt := r_updatedAt rule |}.

Definition competitor_priority (prio : gmap string Z) (c : string * JsVal N) : Z :=
  default MAX_SAFE_INTEGER (prio !! c.1).

Definition is_cascade_by_priority (rule : SuggestionRule N) : bool :=
  bool_decide (r_competitorMode rule = cascade) && r_cascadeByPriority rule.

Definition applyCascadePriority (rules : list (SuggestionRule N)) (prio : gmap string Z) :
    list (SuggestionRule N) :=
  (λ r, if is_cascade_by_priority r
        then with_competitors r
               (js_sort (λ a b, competitor_priority prio a <=? competitor_priority prio b)
                  (r_competitors r))
        else r) <$> rules.

(* ------------------------------------------------------------------ *)
(** * Validation                                                        *)
(* ------------------------------------------------------------------ *)

(** [Number.prototype.toFixed(2)] for magnitudes below [1e21]. *)
Definition toFixed2 (x : N) : option string :=
  '(neg, n) ← n_hundredths x;
  Some ((if (neg : bool) then "-" else "") +:+ pretty (n / 100) +:+ "." +:+ dec_pad 2 (n mod 100)).

(** The DTO bounds keep [toFixed] arguments far below [1e21]; a number
    outside them never reaches the service. *)
Definition dto_fixed (x : N) : Res string :=
  match toFixed2 x with Some s => Ok s | None => Throw (EBadRequest "Validation failed") end.

(** [[...new Set(l.map((c) => c.trim()).filter(Boolean))]] *)
Definition clean_ids (l : option (list string)) : list string :=
  js_uniq (filter (λ c, c ≠ "") (str_trim <$> default [] l)).

(** [/^[0-9a-f-]{36}$/i] *)
Definition classification_uuid (c : string) : bool :=
  str_forall (λ ch, is_hex (to_lower ch) || Ascii.eqb ch "-") c && Nat.eqb (String.length c) 36.

(** The [for (const raw of dto.competitors ?? [])] loop. *)
Fixpoint check_competitors (mode : CompetitorMode) (raws : list (string * option N))
    (acc : list (string * N)) : Res (list (string * N)) :=
  match raws with
  | [] => Ok acc
  | (competitor, w) :: rest =>
      if negb (bool_decide (competitor ∈ origin_str <$> all_origins))
      then Throw (EBadRequest ("Concorrente inválido: " +:+ competitor +:+ "."))
      else
        weight ← match mode with
                 | weighted =>
                     match w with
                     | Some x => if n_le x (n_int 0) || n_lt (n_int 100) x
                                 then Throw (EBadRequest "Peso de concorrente precisa ser maior que 0 e até 100.")
                                 else Ok x
                     | None => Throw (EBadRequest "Peso de concorrente precisa ser maior que 0 e até 100.")
                     end
                 | _ => Ok (n_int 1)
                 end;
        if bool_decide (competitor ∈ acc.*1)
        then Throw (EBadRequest ("Concorrente duplicado: " +:+ competitor +:+ "."))
        else check_competitors mode rest (acc ++ [(competitor, weight)])
  end.

Definition validate (dto : UpsertSuggestionRuleDto N) : Res (RuleValues N) :=
  let classifications := clean_ids (d_classifications dto) in
  if existsb (λ c, negb (classification_uuid c)) classifications
  then Throw (EBadRequest "Classificação inválida (UUID esperado).")
  else
  let clusterId := str_trim <$> truthy (d_clusterId dto) in
  let cluster := truthy clusterId in
  if bool_decide (is_Some cluster) && negb (bool_decide (classifications = []))
  then Throw (EBadRequest "Uma regra mira classificação OU cluster, nunca os dois.")
  else
  let excludeClusterIds := clean_ids (d_excludeClusterIds dto) in
  let storeIds := clean_ids (d_storeIds dto) in
  if match cluster with Some c => bool_decide (c ∈ excludeClusterIds) | None => false end
  then Throw (EBadRequest "A regra não pode excluir o próprio cluster que ela mira.")
  else
  let strategy := default margem (d_strategy dto) in
  let competitorMode := default weighted (d_competitorMode dto) in
  competitors ← check_competitors competitorMode (default [] (d_competitors dto)) [];
  if bool_decide (strategy = concorrencia) && bool_decide (competitors = [])
  then Throw (EBadRequest "Estratégia de concorrência precisa de pelo menos um concorrente.")
  else
  noCompetitorMargin ← match strategy, d_noCompetitorMargin dto with
                       | concorrencia, Some m => s ← dto_fixed m; Ok (Some s)
                       | _, _ => Ok None
                       end;
  minMargin ← dto_fixed (d_minMargin dto);
  variationPct ← dto_fixed (default (n_int 0) (d_variationPct dto));
  Ok {| v_name := str_trim (d_name dto); v_classifications := classifications; v_storeIds := storeIds;
        v_clusterId := clusterId; v_excludeClusterIds := excludeClusterIds; v_strategy := strategy;
        v_minMargin := minMargin; v_competitorMode := competitorMode; v_competitors := competitors;
        v_variationPct := variationPct; v_noCompetitorMargin := noCompetitorMargin;
        v_priceControlled := default false (d_priceControlled dto);
        v_ignorePbm := default false (d_ignorePbm dto);
        v_blockPbmInMargin := default false (d_blockPbmInMargin dto);
        v_cascadeByPriority := default false (d_cascadeByPriority dto);
        v_applyRounding := default true (d_applyRounding dto);
        v_active := default true (d_active dto) |}.

Definition buildTransient (dto : UpsertSuggestionRuleDto N) : Res (SuggestionRule N) :=
  v ← validate dto;
  Ok {| r_id := "preview"; r_name := v_name v; r_classifications := v_classifications v;
        r_storeIds := v_storeIds v; r_clusterId := v_clusterId v; r_clusterName := None;
        r_excludeClusterIds := v_excludeClusterIds v; r_strategy := v_strategy v;
        r_minMargin := VNum (js_Number (v_minMargin v)); r_competitorMode := v_competitorMode v;
        r_competitors := (λ '(c, w), (c, VNum w)) <$> v_competitors v;
        r_variationPct := VNum (js_Number (v_variationPct v));
        r_noCompetitorMargin := match v_noCompetitorMargin v with
                                | None => VNull | Some s => VNum (js_Number s) end;
        r_priceControlled := v_priceControlled v; r_ignorePbm := v_ignorePbm v;
        r_blockPbmInMargin := v_blockPbmInMargin v; r_cascadeByPriority := v_cascadeByPriority v;
        r_applyRounding := v_applyRounding v; r_active := true; r_createdAt := ""; r_updatedAt := "" |}.

(* ------------------------------------------------------------------ *)
(** * CRUD                                                              *)
(* ------------------------------------------------------------------ *)

(** A [numeric(6,2)] column returns the text written, but zero has no sign. *)
Definition numeric_6_2 (s : string) : string := if String.eqb s "-0.00" then "0.00" else s.

Definition row_of_values (id : string) (now : Z) (createdAt : Z) (deleted : bool) (v : RuleValues N) : RuleRow N :=
  {| ru_id := id; ru_name := v_name v; ru_classifications := v_classifications v;
     ru_storeIds := v_storeIds v; ru_clusterId := v_clusterId v;
     ru_excludeClusterIds := v_excludeClusterIds v; ru_strategy := v_strategy v;
     ru_minMargin := numeric_6_2 (v_minMargin v); ru_competitorMode := v_competitorMode v;
     ru_competitors := v_competitors v; ru_variationPct := numeric_6_2 (v_variationPct v);
     ru_noCompetitorMargin := numeric_6_2 <$> v_noCompetitorMargin v;
     ru_priceControlled := v_priceControlled v; ru_ignorePbm := v_ignorePbm v;
     ru_blockPbmInMargin := v_blockPbmInMargin v; ru_cascadeByPriority := v_cascadeByPriority v;
     ru_applyRounding := v_applyRounding v; ru_active := v_active v;
     ru_createdAt := createdAt; ru_updatedAt := now; ru_deleted := deleted |}.

Definition set_rules (rules : list (RuleRow N)) (c : Catalog N) : Catalog N :=
  Build_Catalog (ct_tenants c) (ct_products c) (ct_productItems c) (ct_offerBook c) (ct_shared c)
    (ct_stores c) (ct_origins c) (ct_defaultCaderno c) (ct_roundingRanges c) (ct_roundingRules c)
    (ct_classifications c) rules (ct_clusters c) (ct_members c)
    (ct_campaigns c) (ct_connections c).

Definition tx_set_rules (rules : list (RuleRow N)) : Tx N unit :=
  tx_modify (λ db, set_catalog (set_rules rules (catalog db)) db).

(** Stores of the tenant, deleted ones excluded, inactive ones included. *)
Definition owned_stores (c : Catalog N) (tenantId : string) (storeIds : list string) : list string :=
  filter (λ s, match ct_stores c !! s with
               | Some st => String.eqb (ts_tenant_id st) tenantId && negb (ts_deleted st)
               | None => false
               end = true) storeIds.

Definition assertStores (slug : string) (storeIds : list string) : Tx N unit :=
  match storeIds with
  | [] => mret ()
  | _ =>
      db ← tx_get;
      tenantId ← tx_lift (resolveTenantId (catalog db) slug);
      if Nat.eqb (length (owned_stores (catalog db) tenantId storeIds)) (length storeIds)
      then mret ()
      else tx_throw (EBadRequest "Loja inválida na regra (não existe neste tenant).")
  end.

(** The foreign key on [cluster_id], mapped by [runOrMapFk]. *)
Definition assertClusterFk (clusterId : option string) : Tx N unit :=
  db ← tx_get;
  match clusterId with
  | Some cid => if decide (is_Some (ct_clusters (catalog db) !! cid)) then mret ()
                else tx_throw (EBadRequest "Cluster da regra não existe (pode ter sido removido).")
  | None => mret ()
  end.

Definition get_rule (id : string) : Tx N (SuggestionRule N) :=
  db ← tx_get;
  match list_find (λ r, r_id r = id) (list_rules (catalog db)) with
  | Some (_, r) => mret r
  | None => tx_throw (ENotFound ("rule " +:+ id +:+ " not found"))
  end.

(** [id] and [now] are the primary key and the time PostgreSQL assigns. *)
Definition create_rule (slug id : string) (now : Z) (dto : UpsertSuggestionRuleDto N) :
    Tx N (SuggestionRule N) :=
  values ← tx_lift (validate dto);
  assertStores slug (v_storeIds values);;
  assertClusterFk (v_clusterId values);;
  db ← tx_get;
  tx_set_rules (ct_rules (catalog db) ++ [row_of_values id now now false values]);;
  get_rule id.

Definition update_rule (slug id : string) (now : Z) (dto : UpsertSuggestionRuleDto N) :
    Tx N (SuggestionRule N) :=
  values ← tx_lift (validate dto);
  assertStores slug (v_storeIds values);;
  assertClusterFk (v_clusterId values);;
  db ← tx_get;
  if bool_decide (id ∈ ru_id <$> ct_rules (catalog db)) then
    tx_set_rules ((λ r, if decide (ru_id r = id)
                        then row_of_values id now (ru_createdAt r) (ru_deleted r) values else r)
                    <$> ct_rules (catalog db));;
    get_rule id
  else tx_throw (ENotFound ("rule " +:+ id +:+ " not found")).

Definition delete_row (r : RuleRow N) : RuleRow N :=
  {| ru_id := ru_id r; ru_name := ru_name r; ru_classifications := ru_classifications r;
     ru_storeIds := ru_storeIds r; ru_clusterId := ru_clusterId r;
     ru_excludeClusterIds := ru_excludeClusterIds r; ru_strategy := ru_strategy r;
     ru_minMargin := ru_minMargin r; ru_competitorMode := ru_competitorMode r;
     ru_competitors := ru_competitors r; ru_variationPct := ru_variationPct r;
     ru_noCompetitorMargin := ru_noCompetitorMargin r; ru_priceControlled := ru_priceControlled r;
     ru_ignorePbm := ru_ignorePbm r; ru_blockPbmInMargin := ru_blockPbmInMargin r;
     ru_cascadeByPriority := ru_cascadeByPriority r; ru_applyRounding := ru_applyRounding r;
     ru_active := ru_active r; ru_createdAt := ru_createdAt r; ru_updatedAt := ru_updatedAt r;
     ru_deleted := true |}.

Definition remove_rule (id : string) : Tx N (string * bool) :=
  db ← tx_get;
  if bool_decide (id ∈ ru_id <$> ct_rules (catalog db)) then
    tx_set_rules ((λ r, if decide (ru_id r = id) then delete_row r else r) <$> ct_rules (catalog db));;
    mret (id, true)
  else tx_throw (ENotFound ("rule " +:+ id +:+ " not found")).

End Rules.

(* ------------------------------------------------------------------ *)
(** * What a validated rule satisfies                                   *)
(* ------------------------------------------------------------------ *)

Section RulesLaws.
Context {N : Type} `{JsNum N}.

(** The invariant of a stored rule; the first clause is the CHECK constraint
    [chk_psr_class_xor_cluster]. *)
Record rule_ok (clusterId : option string) (classifications excludeClusterIds storeIds : list string)
    (strategy : SuggestionStrategy) (mode : CompetitorMode) (competitors : list (string * N))
    (noCompetitorMargin : option string) : Prop := {
  ro_xor : truthy clusterId = None ∨ classifications = [];
  ro_self : ∀ c, truthy clusterId = Some c → c ∉ excludeClusterIds;
  ro_uuids : Forall (λ c, classification_uuid c = true) classifications;
  ro_distinct : NoDup classifications ∧ NoDup excludeClusterIds ∧ NoDup storeIds ∧ NoDup competitors.*1;
  ro_known : Forall (λ c, c ∈ origin_str <$> all_origins) competitors.*1;
  ro_weights : Forall (λ w, if decide (mode = weighted) then n_le w (n_int 0) = false ∧ n_lt (n_int 100) w = false
                            else w = n_int 1) competitors.*2;
  ro_competitors : strategy = concorrencia → competitors ≠ [];
  ro_margin : is_Some noCompetitorMargin → strategy = concorrencia;
}.

Definition row_ok (r : RuleRow N) : Prop :=
  rule_ok (ru_clusterId r) (ru_classifications r) (ru_excludeClusterIds r) (ru_storeIds r)
    (ru_strategy r) (ru_competitorMode r) (ru_competitors r) (ru_noCompetitorMargin r).

Definition values_ok (v : RuleValues N) : Prop :=
  rule_ok (v_clusterId v) (v_classifications v) (v_excludeClusterIds v) (v_storeIds v)
    (v_strategy v) (v_competitorMode v) (v_competitors v) (v_noCompetitorMargin v).

Definition competitors_ok (mode : CompetitorMode) (l : list (string * N)) : Prop :=
  NoDup l.*1 ∧ Forall (λ c, c ∈ origin_str <$> all_origins) l.*1 ∧
  Forall (λ w, if decide (mode = weighted) then n_le w (n_int 0) = false ∧ n_lt (n_int 100) w = false
               else w = n_int 1) l.*2.

Lemma check_competitors_ok mode raws (acc out : list (string * N)) :
  competitors_ok mode acc → check_competitors mode raws acc = Ok out →
  competitors_ok mode out.
Proof.
  revert acc. induction raws as [|[c w] raws IH]; intros acc Hacc; cbn [check_competitors].
  { by intros [= <-]. }
  case_bool_decide as Hk; cbn [negb]; [|done].
  intros (x & Hx & Hr)%Res_bind_Ok. case_bool_decide as Hd; [done|].
  apply IH in Hr; [done|]. destruct Hacc as (H1 & H2 & H3).
  split_and!; rewrite fmap_app; simpl.
  - apply NoDup_app. split_and!; [done| |apply NoDup_singleton].
    by intros y Hy ->%list_elem_of_singleton.
  - apply Forall_app. split; [done|]. by constructor.
  - apply Forall_app. split; [done|]. constructor; [|done].
    destruct mode; cbn in Hx |- *; [|by injection Hx..].
    destruct w as [w|]; [|done]. destruct (_ || _) eqn:E; [done|]. injection Hx as <-.
    by apply orb_false_iff in E.
Qed.

Lemma clean_ids_NoDup l : NoDup (clean_ids l).
Proof. apply js_uniq_NoDup. Qed.

Lemma validate_ok (dto : UpsertSuggestionRuleDto N) v :
  validate dto = Ok v → values_ok v.
Proof.
  unfold validate. destruct (existsb _ _) eqn:E1; [done|].
  destruct (_ && negb _) eqn:E2; [done|]. destruct (match _ with Some _ => _ | None => _ end) eqn:E3; [done|].
  intros (cs & Hcs & Hr)%Res_bind_Ok.
  destruct (_ && bool_decide (cs = [])) eqn:E4; [done|].
  apply Res_bind_Ok in Hr as (ncm & Hncm & Hr).
  apply Res_bind_Ok in Hr as (mm & Hmm & Hr). apply Res_bind_Ok in Hr as (vp & Hvp & [= <-]).
  apply check_competitors_ok in Hcs as (H1 & H2 & H3);
    [|split_and!; [apply NoDup_nil_2|by constructor..]].
  split; simpl; try done.
  - destruct (truthy (str_trim <$> truthy (d_clusterId dto))); [right|by left].
    rewrite bool_decide_true in E2 by done. by apply negb_false_iff, bool_decide_eq_true in E2.
  - intros c Hc. rewrite Hc in E3. by apply bool_decide_eq_false in E3.
  - apply Forall_forall. intros c Hc. apply not_false_is_true. intros Hf.
    apply not_true_iff_false in E1. destruct E1. apply existsb_exists. exists c.
    split; [by apply list_elem_of_In|]. by rewrite Hf.
  - split_and!; [apply clean_ids_NoDup..|done].
  - intros Hst ->. by rewrite Hst in E4.
  - intros Hs. destruct (default margem (d_strategy dto)); [|done]. injection Hncm as <-. by destruct Hs.
Qed.

(** ** The stored rules *)

Definition rules_wf (c : Catalog N) : Prop :=
  NoDup (ru_id <$> ct_rules c) ∧ Forall row_ok (ct_rules c)
  ∧ Forall (λ r, ∀ cid, ru_clusterId r = Some cid → is_Some (ct_clusters c !! cid)) (ct_rules c).

Lemma tx_bind_Ok {A B} (m : Tx N A) (f : A → Tx N B) db b db' :
  (m ≫= f) db = Ok (b, db') ↔ ∃ a db1, m db = Ok (a, db1) ∧ f a db1 = Ok (b, db').
Proof. unfold mbind, Tx_bind. destruct (m db) as [[a db1]|]; naive_solver. Qed.

Lemma tx_lift_Ok {A} (r : Res A) (db db' : PricingDb N) a :
  tx_lift r db = Ok (a, db') ↔ r = Ok a ∧ db' = db.
Proof. unfold tx_lift. destruct r; naive_solver. Qed.

Lemma assertStores_db slug ids (db db' : PricingDb N) u : assertStores slug ids db = Ok (u, db') → db' = db.
Proof.
  unfold assertStores. destruct ids; [by intros [= _ <-]|].
  rewrite tx_bind_Ok. intros (? & ? & [= <- <-] & H1).
  rewrite tx_bind_Ok in H1. destruct H1 as (t & db2 & [_ ->]%tx_lift_Ok & H1).
  case_match; [by injection H1 as _ <-|done].
Qed.

Lemma assertClusterFk_db cid (db db' : PricingDb N) u :
  assertClusterFk cid db = Ok (u, db') →
  db' = db ∧ ∀ c, cid = Some c → is_Some (ct_clusters (catalog db) !! c).
Proof.
  unfold assertClusterFk. rewrite tx_bind_Ok. intros (? & ? & [= <- <-] & H1). revert H1. destruct cid; [|by intros [= _ <-]]. case_decide; [|done].
  intros [= _ <-]. split; [done|]. by intros ? [= <-].
Qed.

Lemma get_rule_db id (db db' : PricingDb N) r :
  get_rule id db = Ok (r, db') → db' = db ∧ r ∈ list_rules (catalog db) ∧ r_id r = id.
Proof.
  unfold get_rule. rewrite tx_bind_Ok. intros (? & ? & [= <- <-] & H1). revert H1. destruct (list_find _ _) as [[i r0]|] eqn:E; [|done].
  intros [= <- <-]. apply list_find_Some in E as (E & ? & _). split_and!; [done| |done].
  by eapply list_elem_of_lookup_2.
Qed.

Lemma list_rules_elem (c : Catalog N) (r : SuggestionRule N) :
  r ∈ list_rules c ↔ ∃ row, row ∈ ct_rules c ∧ ru_deleted row = false ∧ r = toApi c row.
Proof.
  unfold list_rules. rewrite list_elem_of_fmap. setoid_rewrite js_sort_perm.
  setoid_rewrite list_elem_of_filter. naive_solver.
Qed.

Lemma row_unique (rows : list (RuleRow N)) x y :
  NoDup (ru_id <$> rows) → x ∈ rows → y ∈ rows → ru_id x = ru_id y → x = y.
Proof.
  intros Hnd [i Hi]%list_elem_of_lookup [j Hj]%list_elem_of_lookup Heq.
  assert (i = j) as ->; [|congruence].
  eapply (NoDup_lookup _ _ _ (ru_id x) Hnd); rewrite list_lookup_fmap; [by rewrite Hi|].
  rewrite Hj. simpl. by rewrite Heq.
Qed.

Lemma row_of_values_ok id now created del v : values_ok v → row_ok (row_of_values id now created del v).
Proof.
  intros [? ? ? ? ? ? ? Hm]. split; try done. simpl. intros [x Hx]. apply Hm.
  destruct (v_noCompetitorMargin v); [done|]. by simpl in Hx.
Qed.

(** The row the database holds under an id, when the rule is live. *)
Lemma get_rule_row id (db db' : PricingDb N) r row :
  NoDup (ru_id <$> ct_rules (catalog db)) → row ∈ ct_rules (catalog db) → ru_id row = id →
  get_rule id db = Ok (r, db') → r = toApi (catalog db) row ∧ ru_deleted row = false.
Proof.
  intros Hnd Hin Hid Hg. apply get_rule_db in Hg as (_ & (row' & Hin' & Hd & ->)%list_rules_elem & Hid').
  assert (row' = row) as -> by (apply (row_unique (ct_rules (catalog db))); [done..|]; simpl in Hid'; congruence).
  done.
Qed.

Lemma map_rows_ids id (rows : list (RuleRow N)) (f : RuleRow N → RuleRow N) :
  (∀ r, ru_id (f r) = ru_id r) →
  ru_id <$> ((λ r, if decide (ru_id r = id) then f r else r) <$> rows) = ru_id <$> rows.
Proof.
  intros Hf. rewrite <- list_fmap_compose. apply list_fmap_ext. intros i r _. simpl.
  by case_decide; rewrite ?Hf.
Qed.

Lemma map_rows_elem id (rows : list (RuleRow N)) (f : RuleRow N → RuleRow N) x :
  x ∈ (λ r, if decide (ru_id r = id) then f r else r) <$> rows →
  x ∈ rows ∧ ru_id x ≠ id ∨ ∃ r, r ∈ rows ∧ ru_id r = id ∧ x = f r.
Proof. intros (r & -> & Hr)%list_elem_of_fmap. case_decide; [right; by exists r|by left]. Qed.

Lemma create_rule_wf slug id now dto (db db' : PricingDb N) r :
  rules_wf (catalog db) → id ∉ ru_id <$> ct_rules (catalog db) →
  create_rule slug id now dto db = Ok (r, db') →
  rules_wf (catalog db') ∧
  ∃ v, validate dto = Ok v ∧ r = toApi (catalog db') (row_of_values id now now false v)
    ∧ ct_rules (catalog db') = ct_rules (catalog db) ++ [row_of_values id now now false v].
Proof.
  intros (Hnd & Hok & Hfk) Hid. unfold create_rule. rewrite tx_bind_Ok. intros (v' & db1 & Hv & H1).
  apply tx_lift_Ok in Hv as [Hval ->].
  rewrite tx_bind_Ok in H1. destruct H1 as ([] & db2 & Hs & H1). apply assertStores_db in Hs as ->.
  rewrite tx_bind_Ok in H1. destruct H1 as ([] & db2 & Hs & H1). apply assertClusterFk_db in Hs as [-> Hc].
  rewrite tx_bind_Ok in H1. destruct H1 as (db2 & db3 & [= <- <-] & H1).
  rewrite tx_bind_Ok in H1. destruct H1 as ([] & db2 & [= <-] & Hg).
  pose proof (get_rule_db _ _ _ _ Hg) as [-> _].
  set (row := row_of_values id now now false v') in *.
  assert (NoDup (ru_id <$> (ct_rules (catalog db) ++ [row]))) as Hnd'.
  { rewrite fmap_app. apply NoDup_app. split_and!; [done| |apply NoDup_singleton].
    intros x Hx ->%list_elem_of_singleton. done. }
  split.
  - split_and!; [done|apply Forall_app; split; [done|]; constructor; [|done]|].
    + by eapply row_of_values_ok, validate_ok.
    + apply Forall_app; split; [done|]. constructor; [|done]. intros c Hrc. by apply Hc.
  - exists v'. split_and!; [done| |done].
    apply (get_rule_row id _ _ r row) in Hg as [-> _]; [done|done| |done].
    simpl. rewrite elem_of_app, list_elem_of_singleton. by right.
Qed.

Lemma update_rule_wf slug id now dto (db db' : PricingDb N) r :
  rules_wf (catalog db) →
  update_rule slug id now dto db = Ok (r, db') →
  rules_wf (catalog db') ∧
  ∃ v created, validate dto = Ok v ∧ r = toApi (catalog db') (row_of_values id now created false v)
    ∧ (∀ x, ru_id x ≠ id → x ∈ ct_rules (catalog db') ↔ x ∈ ct_rules (catalog db)).
Proof.
  intros (Hnd & Hok & Hfk). unfold update_rule. rewrite tx_bind_Ok. intros (v' & db1 & Hv & H1).
  apply tx_lift_Ok in Hv as [Hval ->].
  rewrite tx_bind_Ok in H1. destruct H1 as ([] & db2 & Hs & H1). apply assertStores_db in Hs as ->.
  rewrite tx_bind_Ok in H1. destruct H1 as ([] & db2 & Hs & H1). apply assertClusterFk_db in Hs as [-> Hc].
  rewrite tx_bind_Ok in H1. destruct H1 as (db2 & db3 & [= <- <-] & H1).
  case_bool_decide as Hin; [|done].
  rewrite tx_bind_Ok in H1. destruct H1 as ([] & db2 & [= <-] & Hg).
  pose proof (get_rule_db _ _ _ _ Hg) as [-> _].
  set (f := λ r : RuleRow N, row_of_values id now (ru_createdAt r) (ru_deleted r) v') in *.
  set (rows := (λ r, if decide (ru_id r = id) then f r else r) <$> ct_rules (catalog db)) in *.
  assert (ru_id <$> rows = ru_id <$> ct_rules (catalog db)) as Hids.
  { unfold rows. rewrite <- list_fmap_compose. apply list_fmap_ext. intros i x _. simpl. by case_decide. }
  assert (∀ x, x ∈ rows → x ∈ ct_rules (catalog db) ∧ ru_id x ≠ id
            ∨ ∃ y, y ∈ ct_rules (catalog db) ∧ ru_id y = id ∧ x = f y) as Hrows by apply map_rows_elem.
  split.
  - split_and!; [change (NoDup (ru_id <$> rows)); by rewrite Hids|..];
      apply Forall_forall; intros x Hx; apply Hrows in Hx as [[Hx _]|(y & Hy & _ & ->)].
    + rewrite Forall_forall in Hok. by apply Hok.
    + by eapply row_of_values_ok, validate_ok.
    + rewrite Forall_forall in Hfk. intros c Hrc. by apply (Hfk x).
    + intros c Hrc. by apply Hc.
  - apply list_elem_of_fmap in Hin as (y & Hy & Hyin).
    assert (f y ∈ rows) as Hfy.
    { apply list_elem_of_fmap. exists y. by rewrite decide_True. }
    assert (NoDup (ru_id <$> rows)) as Hnd' by (by rewrite Hids).
    destruct (get_rule_row id (set_catalog (set_rules rows (catalog db)) db) _ r (f y) Hnd' Hfy eq_refl Hg) as [-> Hdel].
    exists v', (ru_createdAt y). split_and!; [done| |].
    + by f_equal.
    + intros x Hx. change (x ∈ rows ↔ x ∈ ct_rules (catalog db)). split.
      * intros [[? _]|(z & _ & _ & ->)]%Hrows; [done|]. by destruct Hx.
      * intros Hxi. apply list_elem_of_fmap. exists x. by rewrite decide_False.
Qed.

Lemma remove_rule_wf id (db db' : PricingDb N) res :
  rules_wf (catalog db) → remove_rule id db = Ok (res, db') →
  rules_wf (catalog db') ∧ res = (id, true)
  ∧ ∀ r, r ∈ list_rules (catalog db') ↔ r ∈ list_rules (catalog db) ∧ r_id r ≠ id.
Proof.
  intros (Hnd & Hok & Hfk). unfold remove_rule. rewrite tx_bind_Ok. intros (db1 & db2 & [= <- <-] & H1).
  case_bool_decide as Hin; [|done]. rewrite tx_bind_Ok in H1. destruct H1 as ([] & db2 & [= <-] & [= <- <-]).
  set (rows := (λ r, if decide (ru_id r = id) then delete_row r else r) <$> ct_rules (catalog db)) in *.
  assert (∀ x, x ∈ rows → x ∈ ct_rules (catalog db) ∧ ru_id x ≠ id
            ∨ ∃ y, y ∈ ct_rules (catalog db) ∧ ru_id y = id ∧ x = delete_row y) as Hrows
    by apply map_rows_elem.
  split_and!; [|done|].
  - split_and!; [change (NoDup (ru_id <$> rows)); by unfold rows; rewrite map_rows_ids|..];
      apply Forall_forall; intros x Hx; apply Hrows in Hx as [[Hx _]|(y & Hy & _ & ->)].
    + rewrite Forall_forall in Hok. by apply Hok.
    + rewrite Forall_forall in Hok. by apply (Hok y).
    + rewrite Forall_forall in Hfk. intros c Hrc. by apply (Hfk x).
    + rewrite Forall_forall in Hfk. intros c Hrc. by apply (Hfk y).
  - intros r. rewrite !list_rules_elem. split.
    + intros (row & [[Hr Hne]|(y & _ & _ & ->)]%Hrows & Hd & ->); [|done]. split; [by exists row|done].
    + intros [(row & Hr & Hd & ->) Hne]. exists row. split_and!; [|done|done].
      apply list_elem_of_fmap. exists row. by rewrite decide_False.
Qed.

End RulesLaws.

(* ------------------------------------------------------------------ *)
(** * Properties                                                        *)
(* ------------------------------------------------------------------ *)

Section Preview.
Context {N : Type} `{JsNum N}.

(** Two rules with the same terms: whom they cover and how they price. *)
Record same_terms (a b : SuggestionRule N) : Prop := {
  st_scope : r_classifications a = r_classifications b ∧ r_storeIds a = r_storeIds b
    ∧ r_clusterId a = r_clusterId b ∧ r_excludeClusterIds a = r_excludeClusterIds b;
  st_strategy : r_strategy a = r_strategy b;
  st_minMargin : r_minMargin a = r_minMargin b;
  st_mode : r_competitorMode a = r_competitorMode b ∧ r_cascadeByPriority a = r_cascadeByPriority b;
  st_competitors : r_competitors a = r_competitors b;
  st_variation : r_variationPct a = r_variationPct b;
  st_margin : r_noCompetitorMargin a = r_noCompetitorMargin b;
  st_flags : r_priceControlled a = r_priceControlled b ∧ r_ignorePbm a = r_ignorePbm b
    ∧ r_blockPbmInMargin a = r_blockPbmInMargin b ∧ r_applyRounding a = r_applyRounding b;
}.

(** The outcome of the engine without the rule object it carries. *)
Definition result_view (r : SuggestionResult N) :
    (N * N * SuggestionTarget * SuggestionBasis * bool * option (list (Quote N))) + NoSuggestionReason :=
  match r with
  | Suggestion s => inl (s_price s, s_margin s, s_target s, s_basis s, s_lockApplied s, s_priceComposition s)
  | NoSuggestion reason _ => inr reason
  end.

Lemma same_terms_outcome (a b : SuggestionRule N) product ranges :
  same_terms a b →
  result_view (computeSuggestion product a ranges) = result_view (computeSuggestion product b ranges).
Proof.
  intros [_ Hs Hm [Hmode _] Hc Hv Hn (Hp & Hi & Hb & Ha)].
  unfold computeSuggestion.
  assert (pbm_blocked product a = pbm_blocked product b) as -> by (unfold pbm_blocked; by rewrite Hs, Hi, Hb).
  assert (suggestion_target product a = suggestion_target product b) as ->
    by (unfold suggestion_target; by rewrite Hp).
  assert (∀ t f, final_price a ranges t f = final_price b ranges t f) as Hf
    by (intros; unfold final_price; by rewrite Ha).
  assert (∀ f m v, pick_target product a f m v = pick_target product b f m v) as Hpick
    by (intros; unfold pick_target, competition; by rewrite Hs, Hmode, Hc, Hn).
  rewrite Hm, Hv, Hpick. destruct (_ || _ || _); [done|]. destruct (pbm_blocked _ _); [done|].
  destruct (pick_target _ _ _ _ _) as [?|t]; [done|]. rewrite Hf.
  destruct (_ || _); [done|]. destruct (n_lt (n_abs _) _); [done|]. by destruct (_ && _ && _).
Qed.

Lemma applyCascadePriority_spec (rules : list (SuggestionRule N)) prio :
  Forall2 (λ r r', r' = with_competitors r (r_competitors r')
      ∧ r_competitors r' ≡ₚ r_competitors r
      ∧ (is_cascade_by_priority r = false → r' = r)
      ∧ (is_cascade_by_priority r = true →
           StronglySorted (λ a b, competitor_priority prio a <= competitor_priority prio b) (r_competitors r')))
    rules (applyCascadePriority rules prio).
Proof.
  unfold applyCascadePriority. apply Forall2_fmap_r, Forall_Forall2_diag, Forall_true. intros r.
  rewrite ?fmap_id. simpl. destruct (is_cascade_by_priority r) eqn:E.
  - split; [reflexivity|]. split; [apply js_sort_perm|]. split; [done|]. intros _.
    assert (StronglySorted (λ a b, (competitor_priority prio a <=? competitor_priority prio b) = true)
      (js_sort (λ a b, competitor_priority prio a <=? competitor_priority prio b) (r_competitors r))) as Hs.
    { apply js_sort_sorted; [intros ???; rewrite !Z.leb_le; lia|intros ??; rewrite Z.leb_gt, Z.leb_le; lia]. }
    simpl. induction Hs as [|a l Hl IH Hall]; [constructor|].
    constructor; [done|]. eapply Forall_impl; [exact Hall|]. simpl. by intros ? ?%Z.leb_le.
  - split; [by destruct r|done].
Qed.

End Preview.

(** CRUD keeps the rules table well formed: ids are unique, a rule
    targets a classification or a cluster but not both and never excludes
    its own cluster, competitors are known and distinct with valid weights,
    a competition rule has competitors, and cluster references exist.
    Create and update return exactly the validated rule and touch no other
    row; remove hides exactly the rule removed. *)
Theorem suggestion_rules_crud {N} `{JsNum N} (db : PricingDb N) :
  rules_wf (catalog db) →
  (∀ slug id now dto r db', id ∉ ru_id <$> ct_rules (catalog db) →
     create_rule slug id now dto db = Ok (r, db') →
     rules_wf (catalog db') ∧ ∃ v, validate dto = Ok v
       ∧ r = toApi (catalog db') (row_of_values id now now false v)
       ∧ ct_rules (catalog db') = ct_rules (catalog db) ++ [row_of_values id now now false v]) ∧
  (∀ slug id now dto r db', update_rule slug id now dto db = Ok (r, db') →
     rules_wf (catalog db') ∧ ∃ v created, validate dto = Ok v
       ∧ r = toApi (catalog db') (row_of_values id now created false v)
       ∧ ∀ x, ru_id x ≠ id → x ∈ ct_rules (catalog db') ↔ x ∈ ct_rules (catalog db)) ∧
  (∀ id res db', remove_rule id db = Ok (res, db') →
     rules_wf (catalog db') ∧
     ∀ r, r ∈ list_rules (catalog db') ↔ r ∈ list_rules (catalog db) ∧ r_id r ≠ id).
Proof.
  intros Hwf. split_and!.
  - intros. by eapply create_rule_wf.
  - intros. by eapply update_rule_wf.
  - intros id res db' Hr. destruct (remove_rule_wf id db db' res Hwf Hr) as (? & _ & ?). done.
Qed.

(** The dry run of a rule not saved yet reflects the rule as it would
    be saved: [buildTransient] and the row [create] writes have the same
    scope and terms, so the engine prices every product alike under both
    (a negative percentage that [toFixed] turns into a negative zero, which
    PostgreSQL stores as zero, is the exception the hypothesis excludes). *)
Theorem preview_reflects_saved_rule {N} `{JsNum N} (db db' : PricingDb N) slug id now dto
    (preview saved : SuggestionRule N) :
  rules_wf (catalog db) → id ∉ ru_id <$> ct_rules (catalog db) →
  buildTransient dto = Ok preview → create_rule slug id now dto db = Ok (saved, db') →
  (∀ v, validate dto = Ok v →
     "-0.00" ∉ v_minMargin v :: v_variationPct v :: option_list (v_noCompetitorMargin v)) →
  same_terms preview saved ∧
  ∀ product ranges,
    result_view (computeSuggestion product preview ranges)
    = result_view (computeSuggestion product saved ranges).
Proof.
  intros Hwf Hid Hp Hc Hz. unfold buildTransient in Hp. apply Res_bind_Ok in Hp as (v & Hv & [= <-]).
  destruct (create_rule_wf _ _ _ _ _ _ _ Hwf Hid Hc) as (_ & v' & Hv' & -> & _).
  rewrite Hv in Hv'. injection Hv' as <-. specialize (Hz v Hv).
  rewrite !not_elem_of_cons in Hz. destruct Hz as (Hz1 & Hz2 & Hz3).
  assert (∀ s, "-0.00" ≠ s → numeric_6_2 s = s) as Hn.
  { intros s Hs. unfold numeric_6_2. destruct (String.eqb_spec s "-0.00"); congruence. }
  match goal with |- same_terms ?a ?b ∧ _ => assert (same_terms a b) as Hst end.
  { split; simpl; rewrite ?Hn by done; try done.
    destruct (v_noCompetitorMargin v) as [m|]; simpl in *; [|done].
    rewrite Hn; [done|]. intros <-. destruct Hz3. by left. }
  split; [done|]. intros. by apply same_terms_outcome.
Qed.

(** ** Witnesses *)

Definition wit_dto : UpsertSuggestionRuleDto F64 := {|
  d_name := " Seguir Drogal "; d_classifications := None; d_clusterId := None;
  d_excludeClusterIds := None; d_storeIds := None; d_strategy := Some concorrencia;
  d_minMargin := n_dec 30 0; d_competitorMode := None;
  d_competitors := Some [("DROGAL", Some (n_dec 50 0))]; d_variationPct := Some (n_dec (-25) 1);
  d_noCompetitorMargin := Some (n_dec 35 0); d_priceControlled := None; d_ignorePbm := None;
  d_blockPbmInMargin := None; d_cascadeByPriority := None; d_applyRounding := None; d_active := None;
|}.

Definition empty_catalog {N} : Catalog N :=
  Build_Catalog {["acme" := "t1"]} ∅ ∅ ∅ ∅ ∅ ∅ ∅ [] [] [] [] ∅ [] ∅ ∅.
Definition empty_pricing {N} : PricingDb N := Build_Db ∅ [] (Build_PricingData empty_catalog ∅ [] ∅).

Lemma empty_rules_wf {N} `{JsNum N} : rules_wf (catalog (empty_pricing : PricingDb N)).
Proof. split_and!; [apply NoDup_nil_2|constructor..]. Qed.

Lemma suggestion_rules_crud_witness :
  ∃ r db', create_rule "acme" "r1" 1780315200000 wit_dto empty_pricing = Ok (r, db')
    ∧ rules_wf (catalog db') ∧ r_name r = "Seguir Drogal" ∧ ru_id <$> ct_rules (catalog db') = ["r1"].
Proof.
  destruct (create_rule "acme" "r1" 1780315200000 wit_dto empty_pricing) as [[r db']|e] eqn:E;
    [|vm_compute in E; discriminate E].
  exists r, db'. split; [reflexivity|].
  destruct (suggestion_rules_crud (empty_pricing : PricingDb F64) empty_rules_wf) as (Hc & _).
  destruct (Hc "acme" "r1" 1780315200000 wit_dto r db' (not_elem_of_nil _) E)
    as (Hwf & v & Hv & -> & Hr).
  split; [exact Hwf|]. rewrite Hr. vm_compute in Hv. injection Hv as <-. split; reflexivity.
Defined.

Lemma preview_reflects_saved_rule_witness :
  ∃ p r db', buildTransient wit_dto = Ok p
    ∧ create_rule "acme" "r1" 1780315200000 wit_dto empty_pricing = Ok (r, db')
    ∧ same_terms p r.
Proof.
  destruct (create_rule "acme" "r1" 1780315200000 wit_dto empty_pricing) as [[r db']|e] eqn:E;
    [|vm_compute in E; discriminate E].
  destruct (buildTransient wit_dto) as [p|e] eqn:Ep; [|vm_compute in Ep; discriminate Ep].
  exists p, r, db'. split; [reflexivity|]. split; [reflexivity|].
  refine (proj1 (preview_reflects_saved_rule empty_pricing db' "acme" "r1" 1780315200000 wit_dto p r
    empty_rules_wf (not_elem_of_nil _) Ep E _)).
  intros v Hv. vm_compute in Hv. injection Hv as <-.
  refine (proj1 (bool_decide_eq_true _) _). vm_compute. reflexivity.
Defined.
