(* ===== verification/Suggestions.v ===== *)
(** The suggestion service ([tenant-api/pricing/
    pricing-suggestions.service.ts]): the catalogue joined with stores,
    offers and competitors, the rule context, the price of every product,
    the paginated listing and the price map the scheduler recalculates with.

    Not modelled of the row: [margin] and [averageVariation], which are
    displayed only.  [ILIKE] and the pt-BR collation are PostgreSQL's and
    ICU's: parameters of the model. *)

From Stdlib Require Import Ascii String.
From S2P Require Import Prelude JsText JsNumber JsDate Enums Messages World Outbox Classification SuggestionEngine PricingDb SuggestionRules.
Open Scope string_scope.
Open Scope list_scope.
Open Scope Z_scope.

Record CompetitorView (N : Type) := {
  cv_origin : string; cv_price : option N; cv_isPbm : bool; cv_van : option string;
}.
Arguments Build_CompetitorView {N}.
Arguments cv_origin {N}. Arguments cv_price {N}. Arguments cv_isPbm {N}. Arguments cv_van {N}.

Record ResponseProduct (N : Type) := {
  rp_ean : string;
  rp_name : string;
  rp_supplier : option string;
  rp_classificationId : option string;
  rp_classification : option string;
  rp_book : option string;
  rp_cost : option N;
  rp_priceForSell : option N;
  rp_priceForOffer : option N;
  rp_status : option string;
  rp_competitors : list (CompetitorView N);
}.
Arguments Build_ResponseProduct {N}.
Arguments rp_ean {N}. Arguments rp_name {N}. Arguments rp_supplier {N}.
Arguments rp_classificationId {N}. Arguments rp_classification {N}. Arguments rp_book {N}.
Arguments rp_cost {N}. Arguments rp_priceForSell {N}. Arguments rp_priceForOffer {N}.
Arguments rp_status {N}. Arguments rp_competitors {N}.

Record ClusterOrigin := { co_clusterId : string; co_clusterName : option string; co_overrodeRuleName : option string }.

(** [computeRow]'s result *)
Record ComputedRow (N : Type) := {
  cr_product : ResponseProduct N;
  cr_sp : SuggestionProduct N;
  cr_result : SuggestionResult N;
  cr_origem : option ClusterOrigin;
}.
Arguments Build_ComputedRow {N}.
Arguments cr_product {N}. Arguments cr_sp {N}. Arguments cr_result {N}. Arguments cr_origem {N}.

Record RuleContext (N : Type) := {
  rc_activeRules : list (SuggestionRule N);
  rc_clusterRules : list (SuggestionRule N);
  rc_classRules : list (SuggestionRule N);
  rc_membership : gmap string (list string);
  rc_roundingRanges : list (PriceRoundingRange N);
  rc_classificationIndex : ClassificationIndex;
}.
Arguments Build_RuleContext {N}.
Arguments rc_activeRules {N}. Arguments rc_clusterRules {N}. Arguments rc_classRules {N}.
Arguments rc_membership {N}. Arguments rc_roundingRanges {N}. Arguments rc_classificationIndex {N}.

(** [ListSuggestionsQueryDto] *)
Record ListSuggestionsQuery := {
  q_page : option Z; q_perPage : option Z; q_name : option string; q_store : option string;
  q_classification : option string; q_books : option string; q_onlyWithSuggestion : option string;
  q_direction : option string; q_origem : option string;
}.

Record SuggestionsResponse (N : Type) := {
  sr_rows : list (ResponseProduct N * SuggestionResult N * option ClusterOrigin);
  sr_count : Z;
  sr_suggestionCount : Z;
  sr_lockCount : Z;
  sr_activeRuleCount : Z;
  sr_availableBooks : list string;
}.
Arguments Build_SuggestionsResponse {N}.
Arguments sr_rows {N}. Arguments sr_count {N}. Arguments sr_suggestionCount {N}.
Arguments sr_lockCount {N}. Arguments sr_activeRuleCount {N}. Arguments sr_availableBooks {N}.

Section Suggestions.
Context {N : Type} `{JsNum N}.
(** PostgreSQL's [ILIKE] of a text and a pattern, and [localeCompare <= 0]. *)
Variable ilike : string → string → bool.
Variable collate_le : string → string → bool.

Definition money (v : option N) : N := default (n_int 0) v.

(** The bigint cast of an EAN text; the DTOs admit 1 to 18 digits. *)
Definition ean_cast (s : string) : Res Z :=
  if matches_digits 1 18 s then Ok (digits_val s)
  else Throw (EError "invalid input syntax for type bigint").

Definition ean_casts (l : list string) : Res (list Z) :=
  foldr (λ e acc, z ← ean_cast e; zs ← acc; Ok (z :: zs)) (Ok []) l.

(* ------------------------------------------------------------------ *)
(** * loadProducts                                                      *)
(* ------------------------------------------------------------------ *)

(** The row of the store, when a store is asked for and has one. *)
Definition store_item (c : Catalog N) (storeUuid : option string) (p : ProductRow) : option ItemRow :=
  s ← storeUuid; ct_productItems c !! (p_id p, s).

Definition eff_cost (pi : option ItemRow) (p : ProductRow) : option Numeric :=
  COALESCE (pi ≫= pi_cost) (p_cost p).
Definition eff_price (pi : option ItemRow) (p : ProductRow) : option Numeric :=
  COALESCE (pi ≫= pi_price) (p_price p).
(** [CASE WHEN pi.id IS NULL THEN ob.target_price ELSE pi.price_offer END] *)
Definition eff_offer (pi : option ItemRow) (ob : option OfferBookRow) : option Numeric :=
  match pi with Some i => pi_price_offer i | None => ob ≫= of_target_price end.
Definition eff_book (pi : option ItemRow) (ob : option OfferBookRow) : option string :=
  match pi with Some i => pi_offer_description i | None => ob ≫= of_description end.

Definition shared_of (c : Catalog N) (ean : Z) (origin : string) : option SharedProductRow :=
  r ← ct_shared c !! (ean, origin); if sh_deleted r then None else Some r.

Definition competitor_view (c : Catalog N) (ean : Z) (origin : string) : CompetitorView N :=
  let r := shared_of c ean origin in
  {| cv_origin := origin; cv_price := num_of (r ≫= sh_price);
     cv_isPbm := match r with Some r => sh_isPbm r | None => false end;
     cv_van := r ≫= sh_van |}.

Definition classification_name (c : Catalog N) (id : option string) : option string :=
  i ← id;
  '(_, e) ← list_find (λ e, cr_id (ce_row e) = i) (ct_classifications c);
  Some (cr_name (ce_row e)).

Definition response_product (c : Catalog N) (origins : list string) (storeUuid : option string)
    (ean : Z) (p : ProductRow) : ResponseProduct N :=
  let pi := store_item c storeUuid p in
  let ob := ct_offerBook c !! ean in
  {| rp_ean := ean_text ean;
     rp_name := default "" (p_name p);
     rp_supplier := p_supplier p;
     rp_classificationId := p_classificationId p;
     rp_classification := classification_name c (p_classificationId p);
     rp_book := eff_book pi ob;
     rp_cost := num_of (eff_cost pi p);
     rp_priceForSell := num_of (eff_price pi p);
     rp_priceForOffer := num_of (eff_offer pi ob);
     rp_status := p_status p;
     rp_competitors := competitor_view c ean <$> origins |}.

(** The WHERE clause. *)
Definition product_selected (c : Catalog N) (name classification : option string)
    (storeUuid : option string) (eans : option (list Z)) (ean : Z) (p : ProductRow) : bool :=
  let pi := store_item c storeUuid p in
  let ob := ct_offerBook c !! ean in
  p_active p && negb (p_deleted p)
  && (sql_pos (eff_cost pi p) || sql_pos (eff_price pi p) || sql_pos (eff_offer pi ob))
  && match eans with Some ((_ :: _) as l) => bool_decide (ean ∈ l) | _ => true end
  && match truthy name with
     | Some n => match p_name p with Some t => ilike t ("%" +:+ n +:+ "%") | None => false end
     | None => true end
  && match truthy classification with
     | Some n => match classification_name c (p_classificationId p) with
                 | Some t => ilike t ("%" +:+ n +:+ "%") | None => false end
     | None => true end.

Definition loadProducts (c : Catalog N) (origins : list string) (name classification : option string)
    (storeUuid : option string) (eans : option (list string)) : Res (list (ResponseProduct N)) :=
  ids ← match eans with
        | Some l => zs ← ean_casts l; Ok (Some zs)
        | None => Ok None
        end;
  Ok ((λ '(ean, p), response_product c origins storeUuid ean p)
        <$> js_sort (λ a b : Z * ProductRow, a.1 <=? b.1)
              (filter (λ '(ean, p), product_selected c name classification storeUuid ids ean p = true)
                 (map_to_list (ct_products c)))).

Definition toSuggestionProduct (p : ResponseProduct N) : SuggestionProduct N := {|
  sp_ean := rp_ean p;
  sp_classificationId := rp_classificationId p;
  sp_classificacao := default "" (rp_classification p);
  sp_custo := money (rp_cost p);
  sp_precoVenda := money (rp_priceForSell p);
  sp_precoOferta := money (rp_priceForOffer p);
  sp_competitorPrices :=
    foldl (λ m v, match cv_price v with
                  | Some x => if n_lt (n_int 0) x then <[cv_origin v := x]> m else m
                  | None => m end) ∅ (rp_competitors p);
  sp_pbm := existsb cv_isPbm (rp_competitors p);
|}.

(* ------------------------------------------------------------------ *)
(** * Rules                                                             *)
(* ------------------------------------------------------------------ *)

Definition is_cluster_rule (r : SuggestionRule N) : bool := bool_decide (is_Some (truthy (r_clusterId r))).

Definition ruleContext (c : Catalog N) (slug : string) (overrideRules : option (list (SuggestionRule N)))
    (storeUuid : option string) : Res (RuleContext N) :=
  let active := filter (λ r, r_active r && ruleParticipates r storeUuid = true)
                  (default (list_rules c) overrideRules) in
  activeRules ← if existsb is_cascade_by_priority active
                then prio ← originPriorities c slug; Ok (applyCascadePriority active prio)
                else Ok active;
  let usesClusters := existsb (λ r, is_cluster_rule r || negb (bool_decide (r_excludeClusterIds r = [])))
                        activeRules in
  roundingRanges ← if existsb r_applyRounding activeRules then rounding_list c slug else Ok [];
  index ← classification_index c;
  Ok {| rc_activeRules := activeRules;
        rc_clusterRules := filter (λ r, is_cluster_rule r = true) activeRules;
        rc_classRules := filter (λ r, is_cluster_rule r = false) activeRules;
        rc_membership := if usesClusters then loadActiveClusterMembership c else ∅;
        rc_roundingRanges := roundingRanges;
        rc_classificationIndex := index |}.

Definition governing_rules (clusterRules classRules : list (SuggestionRule N)) (clusterIds : list string)
    (sp : SuggestionProduct N) (index : ClassificationIndex) :
    option (SuggestionRule N) * option (SuggestionRule N) :=
  let clusterRule := match clusterIds with
                     | [] => None
                     | _ => findClusterRuleForProduct clusterRules clusterIds
                     end in
  resolveWinner clusterRule (findRuleForProduct sp classRules clusterIds (Some index)).

Definition computeRow (ctx : RuleContext N) (product : ResponseProduct N) : ComputedRow N :=
  let sp := toSuggestionProduct product in
  let clusterIds := default [] (rc_membership ctx !! rp_ean product) in
  let '(winner, overrodeRule) :=
    governing_rules (rc_clusterRules ctx) (rc_classRules ctx) clusterIds sp (rc_classificationIndex ctx) in
  {| cr_product := product;
     cr_sp := sp;
     cr_result := match winner with
                  | Some w => computeSuggestion sp w (if r_applyRounding w then rc_roundingRanges ctx else [])
                  | None => NoSuggestion sem_regra None
                  end;
     cr_origem := w ← winner; cid ← truthy (r_clusterId w);
                  Some {| co_clusterId := cid; co_clusterName := r_clusterName w;
                          co_overrodeRuleName := r_name <$> overrodeRule |} |}.

Definition resultHadRule (r : SuggestionResult N) : bool :=
  match r with
  | Suggestion _ => true
  | NoSuggestion reason _ => negb (bool_decide (reason = sem_regra))
  end.

Definition is_suggestion (r : SuggestionResult N) : bool :=
  match r with Suggestion _ => true | _ => false end.

(* ------------------------------------------------------------------ *)
(** * The services                                                      *)
(* ------------------------------------------------------------------ *)

(** The uuid of an ACTIVE store from its external id. *)
Definition storeUuid (c : Catalog N) (slug : string) (store : option string) : Res (option string) :=
  match truthy store with
  | None => Ok None
  | Some s =>
      if negb (matches_digits 1 18 s) then Throw (EBadRequest "store must be a numeric store id")
      else
        tenantId ← resolveTenantId c slug;
        match filter (λ '(_, st), String.eqb (ts_tenant_id st) tenantId && (ts_external_id st =? digits_val s)
                          && ts_active st && negb (ts_deleted st) = true)
                (map_to_list (ct_stores c)) with
        | [] => Throw (EBadRequest ("store " +:+ s +:+ " unknown or inactive"))
        | (id, _) :: _ => Ok (Some id)
        end
  end.

Definition availableBooks (rows : list (ResponseProduct N)) : list string :=
  js_sort collate_le
    (js_uniq (filter (λ b, b ≠ "") ((λ r, str_trim (default "" (rp_book r))) <$> rows))).

(** The filters on the computed rows, in the code's order. *)
Definition direction_ok (direction : string) (r : ComputedRow N) : bool :=
  if String.eqb direction "subir" || String.eqb direction "abaixar" then
    match suggestionDelta (cr_sp r) (cr_result r) with
    | None => false
    | Some delta => if String.eqb direction "subir" then n_lt (n_int 0) delta else n_lt delta (n_int 0)
    end
  else true.

Definition origem_ok (origem : string) (r : ComputedRow N) : bool :=
  if String.eqb origem "cluster" then bool_decide (is_Some (cr_origem r))
  else if String.eqb origem "classificacao"
  then negb (bool_decide (is_Some (cr_origem r))) && resultHadRule (cr_result r)
  else true.

Definition row_listed (q : ListSuggestionsQuery) (r : ComputedRow N) : bool :=
  (negb (bool_decide (q_onlyWithSuggestion q = Some "true")) || is_suggestion (cr_result r))
  && origem_ok (default "todas" (q_origem q)) r
  && direction_ok (default "todas" (q_direction q)) r.

Definition page_of (q : ListSuggestionsQuery) : Z := Z.max 1 (default 1 (q_page q)).
Definition perPage_of (q : ListSuggestionsQuery) : Z := Z.min 1000 (Z.max 1 (default 50 (q_perPage q))).

(** [l.slice(start, start + n)] *)
Definition js_slice {A} (start n : Z) (l : list A) : list A :=
  take (Z.to_nat n) (drop (Z.to_nat start) l).

Definition suggestions (c : Catalog N) (slug : string) (q : ListSuggestionsQuery)
    (overrideRules : option (list (SuggestionRule N))) : Res (SuggestionsResponse N) :=
  let books := filter (λ b, b ≠ "") (str_trim <$> str_split "," (default "" (q_books q))) in
  store ← storeUuid c slug (q_store q);
  origins ← enabledOrigins c slug;
  allRows ← loadProducts c origins (q_name q) (q_classification q) store None;
  let productRows := match books with
                     | [] => allRows
                     | _ => filter (λ p, str_trim (default "" (rp_book p)) ∈ books) allRows
                     end in
  ctx ← ruleContext c slug overrideRules store;
  let filtered := filter (λ r, row_listed q r = true) (computeRow ctx <$> productRows) in
  let start := (page_of q - 1) * perPage_of q in
  Ok {| sr_rows := (λ r, (cr_product r, cr_result r, cr_origem r)) <$> js_slice start (perPage_of q) filtered;
        sr_count := Z.of_nat (length filtered);
        sr_suggestionCount := Z.of_nat (length (filter (λ r, is_suggestion (cr_result r) = true) filtered));
        sr_lockCount := Z.of_nat (length (filter
           (λ r, match cr_result r with Suggestion s => s_lockApplied s | _ => false end = true) filtered));
        sr_activeRuleCount := Z.of_nat (length (rc_activeRules ctx));
        sr_availableBooks := availableBooks allRows |}.

Definition preview (c : Catalog N) (slug : string) (dto : UpsertSuggestionRuleDto N)
    (q : ListSuggestionsQuery) : Res (SuggestionsResponse N) :=
  r ← buildTransient dto; suggestions c slug q (Some [r]).

Abbreviation SuggestedPriceMap := (gmap string (SuggestionTarget * N)).

Definition priceMap (c : Catalog N) (slug : string) (storeUuid : option string)
    (eans : option (list string)) : Res SuggestedPriceMap :=
  origins ← enabledOrigins c slug;
  allRows ← loadProducts c origins None None storeUuid eans;
  ctx ← ruleContext c slug None storeUuid;
  Ok (foldl (λ m product,
        match cr_result (computeRow ctx product) with
        | Suggestion s => <[rp_ean product := (s_target s, s_price s)]> m
        | NoSuggestion _ _ => m
        end) ∅ allRows).

End Suggestions.
