(* ===== verification/PricingApply.v ===== *)
(** Bulk price application ([tenant-api/pricing/pricing-apply.service.ts]
    and the retention sweep of [pricing-retention.cron.ts]): revalidation of
    approved prices against the guard rails, idempotent creation of apply
    runs, approval, rollback and reports.

    [apply] takes the work other transactions commit between its key lookup
    and its insert as the argument [meanwhile]; a response of [None] is the
    JavaScript [null] that the non-null assertion after a lost race lets
    through. *)

From Stdlib Require Import Ascii String.
From S2P Require Import Prelude JsText JsNumber JsDate Enums Messages World Outbox Classification SuggestionEngine PricingDb SuggestionRules Suggestions.
Open Scope string_scope.
Open Scope list_scope.
Open Scope Z_scope.

(** [ApplyItemDto]: the shape of a schedule item. *)
Abbreviation ApplyItemDto := ScheduleItem.

Inductive RejectReason :=
| nao_encontrado | loja_invalida | loja_inativa | rej_sem_custo | preco_invalido
| abaixo_do_piso | variacao_excessiva | rej_acima_do_venda | caderno_nao_cobre_loja
| sem_caderno | caderno_duplicado | caderno_conflitante.

#[export] Instance RejectReason_eq_dec : EqDecision RejectReason.
Proof. solve_decision. Defined.

Record ApplyRejection := { rj_ean : string; rj_reason : RejectReason; rj_storeId : option string }.

Record ApplyResponse := {
  rs_applyRunId : string;
  rs_accepted : Z;
  rs_rejected : list ApplyRejection;
  rs_idempotent : bool;
  rs_approvalPending : bool;
}.

(** The row [loadEansData] builds ([ProductRow] of the service). *)
Record EanData (N : Type) := {
  ed_ean : string;
  ed_productId : string;
  ed_cost : option Numeric;
  ed_precoVenda : option Numeric;
  ed_precoOferta : option Numeric;
  ed_classificationId : option string;
  ed_classificacao : option string;
  ed_cadernoId : option Z;
  ed_competitorPrices : gmap string N;
  ed_pbm : bool;
}.
Arguments Build_EanData {N}.
Arguments ed_ean {N}. Arguments ed_productId {N}. Arguments ed_cost {N}. Arguments ed_precoVenda {N}.
Arguments ed_precoOferta {N}. Arguments ed_classificationId {N}. Arguments ed_classificacao {N}.
Arguments ed_cadernoId {N}. Arguments ed_competitorPrices {N}. Arguments ed_pbm {N}.

Record AcceptedItem (N : Type) := {
  a_ean : string;
  a_target : SuggestionTarget;
  a_storeId : option string;
  a_price : N;
  a_cadernoId : option Z;
  a_priceOldSell : option N;
  a_priceOldOffer : option N;
  a_ruleId : option string;
  a_basis : option SuggestionBasis;
  a_costAtApply : option N;
}.
Arguments Build_AcceptedItem {N}.
Arguments a_ean {N}. Arguments a_target {N}. Arguments a_storeId {N}. Arguments a_price {N}.
Arguments a_cadernoId {N}. Arguments a_priceOldSell {N}. Arguments a_priceOldOffer {N}.
Arguments a_ruleId {N}. Arguments a_basis {N}. Arguments a_costAtApply {N}.

Section Apply.
Context {N : Type} `{JsNum N}.
(** PostgreSQL's cast of the driver's text of a number to [numeric(_, k)]. *)
Variable to_numeric : nat → N → Numeric.
(** [uuid_generate_v4()]: the id of the n-th row of [pricing_apply_item]. *)
Variable item_uuid : nat → string.

Definition PRICE_EPSILON : N := n_dec 5 3.
Definition VARIATION_CEILING : N := n_int 3.
Definition CIRCUIT_MIN_ITEMS : Z := 10.

(* ------------------------------------------------------------------ *)
(** * Revalidation                                                      *)
(* ------------------------------------------------------------------ *)

Definition ean_data (c : Catalog N) (origins : list string) (ean : Z) (p : ProductRow) : EanData N :=
  let ob := ct_offerBook c !! ean in
  {| ed_ean := ean_text ean; ed_productId := p_id p;
     ed_cost := p_cost p; ed_precoVenda := p_price p; ed_precoOferta := ob ≫= of_target_price;
     ed_classificationId := p_classificationId p;
     ed_classificacao := classification_name c (p_classificationId p);
     ed_cadernoId := ob ≫= of_external_id;
     ed_competitorPrices :=
       foldl (λ m o, match num_of (shared_of c ean o ≫= sh_price) with
                     | Some x => if n_lt (n_int 0) x then <[o := x]> m else m
                     | None => m end) ∅ origins;
     ed_pbm := existsb (λ o, match shared_of c ean o with Some r => sh_isPbm r | None => false end)
                 origins |}.

(** [loadEansData]: products of the EANs, inactive ones included. *)
Definition loadEansData (c : Catalog N) (origins : list string) (eans : list string) :
    Res (list (EanData N)) :=
  ids ← ean_casts eans;
  Ok (omap (λ ean, p ← ct_products c !! ean;
                   if p_deleted p then None else Some (ean_data c origins ean p)) (js_uniq ids)).

Definition byEan (rows : list (EanData N)) : list (string * EanData N) :=
  js_map_of ((λ r, (ed_ean r, r)) <$> rows).

(** [loadStores]: the tenant's live stores among the ids, with [active]. *)
Definition loadStores (c : Catalog N) (slug : string) (storeIds : list string) :
    Res (gmap string bool) :=
  match storeIds with
  | [] => Ok ∅
  | _ =>
      tenantId ← resolveTenantId c slug;
      Ok (list_to_map (omap (λ s, st ← ct_stores c !! s;
            if String.eqb (ts_tenant_id st) tenantId && negb (ts_deleted st)
            then Some (s, ts_active st) else None) storeIds))
  end.

(** [settings ->> 'defaultCadernoId'] of the tenant. *)
Definition default_caderno (c : Catalog N) (slug : string) : option Z :=
  t ← ct_tenants c !! slug; mjoin (ct_defaultCaderno c !! t).

Definition sp_of_data (row : EanData N) (custo venda oferta : N) : SuggestionProduct N :=
  {| sp_ean := ed_ean row; sp_classificationId := ed_classificationId row;
     sp_classificacao := default "" (ed_classificacao row); sp_custo := custo;
     sp_precoVenda := venda; sp_precoOferta := oferta;
     sp_competitorPrices := ed_competitorPrices row; sp_pbm := ed_pbm row |}.

(** What [revalidate] loads before its loop. *)
Record RevalidateCtx := {
  rv_rows : list (string * EanData N);
  rv_stores : gmap string bool;
  rv_storeItem : string → string → option ItemRow;
  rv_defaultCaderno : option Z;
  rv_rules : list (SuggestionRule N);
  rv_membership : gmap string (list string);
  rv_index : ClassificationIndex;
}.

Definition js_val_Number (v : JsVal N) : N :=
  match v with VNum n => n | VStr s => js_Number s | VNull => n_int 0 end.

(** [x || null] *)
Definition or_null (x : N) : option N :=
  if n_eq x (n_int 0) || negb (n_eq x x) then None else Some x.

Definition winning_rule (ctx : RevalidateCtx) (storeId : option string) (sp : SuggestionProduct N) :
    option (SuggestionRule N) :=
  let clusterIds := default [] (rv_membership ctx !! sp_ean sp) in
  let participantes := filter (λ r, ruleParticipates r storeId = true) (rv_rules ctx) in
  (governing_rules (filter (λ r, is_cluster_rule r = true) participantes)
     (filter (λ r, is_cluster_rule r = false) participantes) clusterIds sp (rv_index ctx)).1.

Definition price_floor (winner : option (SuggestionRule N)) (cost : N) : N :=
  match winner with
  | Some w => priceForMargin cost (js_val_Number (r_minMargin w))
  | None => cost
  end.

(** The store row an item resolves to: [inr None] for a global item. *)
Definition item_store (ctx : RevalidateCtx) (item : ApplyItemDto N) : RejectReason + option ItemRow :=
  match truthy (si_storeId item) with
  | None => inr None
  | Some s => match rv_stores ctx !! s with
              | None => inl loja_invalida
              | Some false => inl loja_inativa
              | Some true => inr (rv_storeItem ctx (si_ean item) s)
              end
  end.

(** The caderno an offer item writes to. *)
Definition item_caderno (ctx : RevalidateCtx) (row : EanData N) (si : option ItemRow)
    (item : ApplyItemDto N) : RejectReason + Z :=
  match truthy (si_storeId item) with
  | Some _ =>
      match si ≫= pi_offer_external_id with
      | Some sc => match si_cadernoId item with
                   | Some k => if k =? sc then inr sc else inl caderno_nao_cobre_loja
                   | None => inr sc
                   end
      | None => match rv_defaultCaderno ctx with Some d => inr d | None => inl sem_caderno end
      end
  | None =>
      match COALESCE (si_cadernoId item) (ed_cadernoId row) with
      | Some k => inr k | None => inl sem_caderno end
  end.

(** The values an item is validated against: the store's with the global
    ones as fallback; the offer is the store's own when it has a row. *)
Definition item_values (row : EanData N) (si : option ItemRow) : N * N * N :=
  (money (COALESCE (num_of (si ≫= pi_cost)) (num_of (ed_cost row))),
   money (COALESCE (num_of (si ≫= pi_price)) (num_of (ed_precoVenda row))),
   match si with Some i => money (num_of (pi_price_offer i)) | None => money (num_of (ed_precoOferta row)) end).

Definition variation_excessive (price current : N) : bool :=
  n_lt (n_int 0) current
  && (n_lt (n_mul current VARIATION_CEILING) price || n_lt (n_mul price VARIATION_CEILING) current).

(** One round of the loop. *)
Definition check_item (ctx : RevalidateCtx) (item : ApplyItemDto N) : RejectReason + AcceptedItem N :=
  match js_map_get (si_ean item) (rv_rows ctx) with
  | None => inl nao_encontrado
  | Some row =>
  match item_store ctx item with
  | inl r => inl r
  | inr si =>
  let '(cost, venda, oferta) := item_values row si in
  if n_le cost (n_int 0) then inl rej_sem_custo
  else if n_le (si_price item) (n_int 0) then inl preco_invalido
  else
  let sp := sp_of_data row cost venda oferta in
  let winner := winning_rule ctx (si_storeId item) sp in
  if n_lt (n_add (si_price item) PRICE_EPSILON) (price_floor winner cost) then inl abaixo_do_piso
  else if variation_excessive (si_price item)
            (match si_target item with precoOferta => oferta | precoVenda => venda end) then inl variacao_excessiva
  else
  let accept cadernoId := {|
    a_ean := si_ean item; a_target := si_target item; a_storeId := si_storeId item;
    a_price := si_price item; a_cadernoId := cadernoId;
    a_priceOldSell := or_null venda; a_priceOldOffer := or_null oferta;
    a_ruleId := r_id <$> winner;
    a_basis := w ← winner; match computeSuggestion sp w [] with
                           | Suggestion s => Some (s_basis s) | NoSuggestion _ _ => None end;
    a_costAtApply := or_null cost |} in
  match si_target item with
  | precoVenda => inr (accept None)
  | precoOferta =>
      if n_lt (n_int 0) venda && n_lt (n_add venda PRICE_EPSILON) (si_price item)
      then inl rej_acima_do_venda
      else match item_caderno ctx row si item with
           | inl r => inl r
           | inr k => inr (accept (Some k))
           end
  end
  end
  end.

(** [`${ean}|${target}|${storeId ?? ''}`]; an EAN is digits, so joining
    with bars loses nothing. *)
Definition item_key (i : ApplyItemDto N) : string * SuggestionTarget * string :=
  (si_ean i, si_target i, default "" (si_storeId i)).

Definition dedup (items : list (ApplyItemDto N)) : list (ApplyItemDto N) :=
  (js_map_of ((λ i, (item_key i, i)) <$> items)).*2.

Definition check_items (ctx : RevalidateCtx) (items : list (ApplyItemDto N)) :
    list (AcceptedItem N) * list ApplyRejection :=
  foldl (λ '(acc, rej) item,
    match check_item ctx item with
    | inr a => (acc ++ [a], rej)
    | inl r => (acc, rej ++ [{| rj_ean := si_ean item; rj_reason := r; rj_storeId := si_storeId item |}])
    end) ([], []) items.

(** [`${ean}|${cadernoId}`] of an offer *)
Definition caderno_key (a : AcceptedItem N) : option (string * Z) :=
  match a_target a, a_cadernoId a with
  | precoOferta, Some k => Some (a_ean a, k)
  | _, _ => None
  end.

Definition last_of_caderno (k : string * Z) (l : list (AcceptedItem N)) : option (AcceptedItem N) :=
  last (filter (λ a, caderno_key a = Some k) l).

(** [resolveCadernoConflicts]: of the items that write the same caderno for
    the same EAN the last is kept. *)
Fixpoint resolveCadernoConflicts (accepted : list (AcceptedItem N)) (rejected : list ApplyRejection) :
    list (AcceptedItem N) * list ApplyRejection :=
  match accepted with
  | [] => ([], rejected)
  | a :: rest =>
      match k ← caderno_key a; last_of_caderno k rest with
      | None => let '(kept, rej) := resolveCadernoConflicts rest rejected in (a :: kept, rej)
      | Some winner =>
          resolveCadernoConflicts rest (rejected ++
            [{| rj_ean := a_ean a;
                rj_reason := if n_lt (n_abs (n_sub (a_price winner) (a_price a))) PRICE_EPSILON
                             then caderno_duplicado else caderno_conflitante;
                rj_storeId := a_storeId a |}])
      end
  end.

Definition revalidate_ctx (c : Catalog N) (slug : string) (items : list (ApplyItemDto N)) :
    Res RevalidateCtx :=
  let eans := js_uniq (si_ean <$> items) in
  origins ← enabledOrigins c slug;
  rows ← loadEansData c origins eans;
  let storeIds := js_uniq (omap (λ i, truthy (si_storeId i)) items) in
  stores ← loadStores c slug storeIds;
  let active := filter (λ r, r_active r = true) (list_rules c) in
  rules ← if existsb is_cascade_by_priority active
          then prio ← originPriorities c slug; Ok (applyCascadePriority active prio)
          else Ok active;
  let usesClusters := existsb (λ r, is_cluster_rule r || negb (bool_decide (r_excludeClusterIds r = []))) rules in
  index ← classification_index c;
  Ok {| rv_rows := byEan rows;
        rv_stores := stores;
        rv_storeItem := λ ean s, row ← js_map_get ean (byEan rows); ct_productItems c !! (ed_productId row, s);
        rv_defaultCaderno := default_caderno c slug;
        rv_rules := rules;
        rv_membership := if usesClusters then loadActiveClusterMembership c else ∅;
        rv_index := index |}.

Definition revalidate (c : Catalog N) (slug : string) (items : list (ApplyItemDto N)) :
    Res (list (AcceptedItem N) * list ApplyRejection) :=
  ctx ← revalidate_ctx c slug items;
  let '(accepted, rejected) := check_items ctx (dedup items) in
  Ok (resolveCadernoConflicts accepted rejected).

Definition breaker_exempt (r : RejectReason) : bool :=
  match r with caderno_duplicado | caderno_conflitante => true | _ => false end.

(** [counted / total > 0.5] on integers *)
Definition wouldTripBreaker (acceptedCount : Z) (rejected : list ApplyRejection) : bool :=
  let counted := Z.of_nat (length (filter (λ r, breaker_exempt (rj_reason r) = false) rejected)) in
  let total := acceptedCount + Z.of_nat (length rejected) in
  (CIRCUIT_MIN_ITEMS <=? total) && (total <? 2 * counted).

(* ------------------------------------------------------------------ *)
(** * Runs                                                              *)
(* ------------------------------------------------------------------ *)

Definition with_approval (st : option ApprovalStatus) (r : ApplyRun) : ApplyRun :=
  {| ar_idempotencyKey := ar_idempotencyKey r; ar_requestedBy := ar_requestedBy r;
     ar_status := ar_status r; ar_total := ar_total r; ar_applied := ar_applied r;
     ar_skipped := ar_skipped r; ar_failed := ar_failed r; ar_approvalStatus := st;
     ar_createdAt := ar_createdAt r; ar_deleted := ar_deleted r |}.
Definition with_status (st : ApplyRunStatus) (r : ApplyRun) : ApplyRun :=
  {| ar_idempotencyKey := ar_idempotencyKey r; ar_requestedBy := ar_requestedBy r;
     ar_status := st; ar_total := ar_total r; ar_applied := ar_applied r;
     ar_skipped := ar_skipped r; ar_failed := ar_failed r;
     ar_approvalStatus := ar_approvalStatus r; ar_createdAt := ar_createdAt r; ar_deleted := ar_deleted r |}.
Definition with_counts (applied skipped failed : Z) (r : ApplyRun) : ApplyRun :=
  {| ar_idempotencyKey := ar_idempotencyKey r; ar_requestedBy := ar_requestedBy r;
     ar_status := ar_status r; ar_total := ar_total r; ar_applied := applied;
     ar_skipped := skipped; ar_failed := failed;
     ar_approvalStatus := ar_approvalStatus r; ar_createdAt := ar_createdAt r; ar_deleted := ar_deleted r |}.
Definition mark_deleted (r : ApplyRun) : ApplyRun :=
  {| ar_idempotencyKey := ar_idempotencyKey r; ar_requestedBy := ar_requestedBy r;
     ar_status := ar_status r; ar_total := ar_total r; ar_applied := ar_applied r;
     ar_skipped := ar_skipped r; ar_failed := ar_failed r;
     ar_approvalStatus := ar_approvalStatus r; ar_createdAt := ar_createdAt r; ar_deleted := true |}.

Definition with_item_status (st : ApplyItemStatus) (reason erpResult : option string) (i : ApplyItem) : ApplyItem :=
  {| ai_id := ai_id i; ai_applyRunId := ai_applyRunId i; ai_batchSeq := ai_batchSeq i; ai_ean := ai_ean i;
     ai_target := ai_target i; ai_storeId := ai_storeId i; ai_price := ai_price i;
     ai_cadernoId := ai_cadernoId i; ai_priceOldSell := ai_priceOldSell i;
     ai_priceOldOffer := ai_priceOldOffer i; ai_ruleId := ai_ruleId i; ai_basis := ai_basis i;
     ai_costAtApply := ai_costAtApply i; ai_status := st; ai_reason := reason; ai_erpResult := erpResult;
     ai_appliedAt := ai_appliedAt i |}.

(** [UPDATE pricing_apply_run SET ... WHERE id = ...] *)
Definition update_run (id : string) (f : ApplyRun → ApplyRun) : Tx N unit :=
  tx_modify (λ db, set_applyRuns (alter f id (applyRuns db)) db).

(** The live run of a key ([findOne] hides soft-deleted rows). *)
Definition live_run_of_key (key : string) (runs : gmap string ApplyRun) : option (string * ApplyRun) :=
  head (filter (λ '(_, r), String.eqb (ar_idempotencyKey r) key && negb (ar_deleted r) = true)
          (map_to_list runs)).

Definition findByIdempotencyKey (key : string) : Tx N (option ApplyResponse) :=
  db ← tx_get;
  mret ('(id, run) ← live_run_of_key key (applyRuns db);
        Some {| rs_applyRunId := id; rs_accepted := ar_total run; rs_rejected := [];
                rs_idempotent := true; rs_approvalPending := false |}).

(** The unique index covers soft-deleted rows too. *)
Definition key_taken (key : string) (runs : gmap string ApplyRun) : bool :=
  existsb (λ '(_, r), String.eqb (ar_idempotencyKey r) key) (map_to_list runs).

Definition new_run (key : string) (requestedBy : option string) (total now : Z) : ApplyRun :=
  {| ar_idempotencyKey := key; ar_requestedBy := requestedBy; ar_status := run_pending; ar_total := total;
     ar_applied := 0; ar_skipped := 0; ar_failed := 0; ar_approvalStatus := None;
     ar_createdAt := now; ar_deleted := false |}.

(** [INSERT ... ON CONFLICT (idempotency_key) DO NOTHING RETURNING id] *)
Definition insert_apply_run (id : string) (r : ApplyRun) : Tx N bool :=
  db ← tx_get;
  if key_taken (ar_idempotencyKey r) (applyRuns db) then mret false
  else if decide (is_Some (applyRuns db !! id))
  then tx_throw (EError "duplicate key value violates unique constraint")
  else tx_modify (λ db, set_applyRuns (<[id := r]> (applyRuns db)) db);; mret true.

Definition item_row (runId : string) (id : string) (a : AcceptedItem N) : ApplyItem :=
  {| ai_id := id; ai_applyRunId := runId; ai_batchSeq := None; ai_ean := a_ean a; ai_target := a_target a;
     ai_storeId := a_storeId a; ai_price := to_numeric 2 (a_price a); ai_cadernoId := a_cadernoId a;
     ai_priceOldSell := to_numeric 2 <$> a_priceOldSell a;
     ai_priceOldOffer := to_numeric 2 <$> a_priceOldOffer a; ai_ruleId := a_ruleId a;
     ai_basis := a_basis a; ai_costAtApply := to_numeric 4 <$> a_costAtApply a;
     ai_status := item_pending; ai_reason := None; ai_erpResult := None; ai_appliedAt := None |}.

Definition INSERT_CHUNK : nat := 500.

(** One multi-row INSERT per chunk. *)
Definition insertItems (runId : string) (accepted : list (AcceptedItem N)) : Tx N unit :=
  tx_modify (λ db, foldl (λ db chunk,
    set_applyItems (applyItems db
      ++ imap (λ i a, item_row runId (item_uuid (length (applyItems db) + i)) a) chunk) db)
    db (slices INSERT_CHUNK accepted)).

Definition enqueueDispatch (now : Z) (slug runId : string) : Tx N unit :=
  tx_insertMany now runId slug
    [newPipelineMessage now runId slug (step_str APPLY_PRICE) (Some (dispatchStep APPLY_PRICE)) PEmpty None None].

Definition apply (meanwhile : PricingDb N → PricingDb N) (applyRunId : string) (now : Z) (slug : string)
    (requestedBy : option string) (idempotencyKey : string) (items : list (ApplyItemDto N))
    (requireApproval : bool) : Tx N (option ApplyResponse) :=
  existing ← findByIdempotencyKey idempotencyKey;
  match existing with
  | Some e => mret (Some e)
  | None =>
      db ← tx_get;
      '(accepted, rejected) ← tx_lift (revalidate (catalog db) slug items);
      let total := Z.of_nat (length accepted) in
      if wouldTripBreaker total rejected then tx_throw (EUnprocessable "Lote abortado")
      else
        tx_modify meanwhile;;
        inserted ← insert_apply_run applyRunId (new_run idempotencyKey requestedBy total now);
        if negb inserted then findByIdempotencyKey idempotencyKey
        else
          insertItems applyRunId accepted;;
          let response pending := Some {| rs_applyRunId := applyRunId; rs_accepted := total;
                rs_rejected := rejected; rs_idempotent := false; rs_approvalPending := pending |} in
          match accepted with
          | [] => update_run applyRunId (with_status run_done);; mret (response false)
          | _ =>
              if requireApproval
              then update_run applyRunId (with_approval (Some approval_pending));; mret (response true)
              else enqueueDispatch now slug applyRunId;; mret (response false)
          end
  end.

Definition approvalConflict (runId : string) : Tx N Exn :=
  db ← tx_get;
  mret (match applyRuns db !! runId with
        | Some r => if ar_deleted r then ENotFound ("apply run " +:+ runId +:+ " not found")
                    else EConflict ("apply run " +:+ runId +:+ " não está aguardando aprovação")
        | None => ENotFound ("apply run " +:+ runId +:+ " not found")
        end).

Definition awaiting_approval (runId : string) (db : PricingDb N) : bool :=
  match applyRuns db !! runId with
  | Some r => bool_decide (ar_approvalStatus r = Some approval_pending)
  | None => false
  end.

Definition approve (now : Z) (slug runId : string) : Tx N (string * bool) :=
  db ← tx_get;
  if awaiting_approval runId db then
    update_run runId (with_approval (Some approval_approved));;
    enqueueDispatch now slug runId;;
    mret (runId, true)
  else e ← approvalConflict runId; tx_throw e.

Definition reject (runId : string) : Tx N (string * bool) :=
  db ← tx_get;
  if awaiting_approval runId db then
    update_run runId (λ r, with_status run_failed (with_approval (Some approval_rejected) r));;
    update_run runId (λ r, with_counts (ar_applied r) (ar_skipped r) (ar_total r) r);;
    tx_modify (λ db, set_applyItems
      ((λ i, if decide (ai_applyRunId i = runId ∧ ai_status i = item_pending)
             then with_item_status item_failed (Some "rejeitado") (ai_erpResult i) i else i)
         <$> applyItems db) db);;
    mret (runId, true)
  else e ← approvalConflict runId; tx_throw e.

(** The items a rollback re-applies: the previous price of the target. *)
Definition rollback_items (runId : string) (items : list ApplyItem) : list (ApplyItemDto N) :=
  filter (λ i, n_lt (n_int 0) (si_price i) = true)
    ((λ i, {| si_ean := ai_ean i; si_target := ai_target i;
              si_price := money (num_of (match ai_target i with
                                         | precoOferta => ai_priceOldOffer i
                                         | precoVenda => ai_priceOldSell i end));
              si_cadernoId := ai_cadernoId i; si_storeId := ai_storeId i |})
       <$> filter (λ i, ai_applyRunId i = runId ∧ ai_status i = item_applied) items).

Definition rollback (meanwhile : PricingDb N → PricingDb N) (applyRunId : string) (now : Z) (slug : string)
    (requestedBy : option string) (runId : string) : Tx N (option ApplyResponse) :=
  db ← tx_get;
  match applyRuns db !! runId with
  | Some r =>
      if ar_deleted r then tx_throw (ENotFound ("apply run " +:+ runId +:+ " not found"))
      else match rollback_items runId (applyItems db) with
      | [] => tx_throw (EUnprocessable ("Run " +:+ runId +:+ " não tem item aplicado reversível."))
      | items => apply meanwhile applyRunId now slug requestedBy ("rollback:" +:+ runId) items false
      end
  | None => tx_throw (ENotFound ("apply run " +:+ runId +:+ " not found"))
  end.

(** [preview]: [(accepted, rejected, wouldAbort)] without writing. *)
Definition preview_apply (c : Catalog N) (slug : string) (items : list (ApplyItemDto N)) :
    Res (list (AcceptedItem N) * list ApplyRejection * bool) :=
  '(accepted, rejected) ← revalidate c slug items;
  Ok (accepted, rejected, wouldTripBreaker (Z.of_nat (length accepted)) rejected).

Definition page_limit (perPage : Z) : Z := Z.min (Z.max perPage 1) 1000.
Definition page_offset (page perPage : Z) : Z := (Z.max page 1 - 1) * page_limit perPage.

(** [report]: the run and a page of its items by EAN. *)
Definition report (id : string) (page perPage : Z) : Tx N (ApplyRun * list ApplyItem) :=
  db ← tx_get;
  match applyRuns db !! id with
  | Some run =>
      if ar_deleted run then tx_throw (ENotFound ("apply run " +:+ id +:+ " not found"))
      else mret (run, js_slice (page_offset page perPage) (page_limit perPage)
                        (js_sort (λ a b, negb (str_ltb (ai_ean b) (ai_ean a)))
                           (filter (λ i, ai_applyRunId i = id) (applyItems db))))
  | None => tx_throw (ENotFound ("apply run " +:+ id +:+ " not found"))
  end.

(** [list]: the live runs, latest first; ties in the order of the rows. *)
Definition list_runs (page perPage : Z) : Tx N (list (string * ApplyRun)) :=
  db ← tx_get;
  mret (js_slice (page_offset page perPage) (page_limit perPage)
          (js_sort (λ a b : string * ApplyRun, ar_createdAt b.2 <=? ar_createdAt a.2)
             (filter (λ '(_, r), ar_deleted r = false) (map_to_list (applyRuns db))))).

(** [PricingRetentionCron.sweepTenant] *)
Definition day_ms : Z := 86400000.
Definition swept (now ttlDays : Z) (r : ApplyRun) : bool :=
  negb (ar_deleted r) && bool_decide (ar_status r ∈ [run_done; run_failed])
  && (ar_createdAt r <? now - ttlDays * day_ms).
Definition sweepTenant (now ttlDays : Z) : Tx N unit :=
  tx_modify (λ db, set_applyRuns
    ((λ r, if swept now ttlDays r then mark_deleted r else r) <$> applyRuns db) db).

End Apply.
Arguments RevalidateCtx : clear implicits.
