(* ===== verification/PricingApplyLaws.v ===== *)
(** Bulk price application: the guard rails of an accepted price, the
    accounting of a batch, idempotency and the approval state machine. *)

From Stdlib Require Import Ascii String.
From S2P Require Import Prelude JsText JsNumber JsDate Enums Messages World Outbox Classification SuggestionEngine PricingDb SuggestionRules Suggestions PricingApply.
Open Scope string_scope.
Open Scope list_scope.
Open Scope Z_scope.

(* ------------------------------------------------------------------ *)
(** * Batch accounting                                                  *)
(* ------------------------------------------------------------------ *)

Section Accounting.
Context {N : Type} `{JsNum N}.
Implicit Types (items : list (ApplyItemDto N)) (a : AcceptedItem N).

Lemma check_items_snoc ctx items i :
  check_items ctx (items ++ [i]) =
  let '(acc, rej) := check_items ctx items in
  match check_item ctx i with
  | inr a => (acc ++ [a], rej)
  | inl r => (acc, rej ++ [{| rj_ean := si_ean i; rj_reason := r; rj_storeId := si_storeId i |}])
  end.
Proof. unfold check_items. rewrite foldl_app. by destruct (foldl _ _ items). Qed.

(** An accepted item keeps the key, the price and the store of its item. *)
Lemma check_item_fields ctx i a :
  check_item ctx i = inr a →
  a_ean a = si_ean i ∧ a_target a = si_target i ∧ a_storeId a = si_storeId i ∧ a_price a = si_price i.
Proof.
  unfold check_item. destruct (js_map_get _ _); [|done]. destruct (item_store _ _); [done|].
  destruct (item_values _ _) as [[cost venda] oferta].
  repeat (case_match; try done); by intros [= <-].
Qed.

Definition acc_key a : string * SuggestionTarget * string :=
  (a_ean a, a_target a, default "" (a_storeId a)).

Lemma check_items_spec ctx items :
  let '(acc, rej) := check_items ctx items in
  (length acc + length rej = length items)%nat
  ∧ sublist (acc_key <$> acc) (item_key <$> items)
  ∧ (∀ a, a ∈ acc → ∃ i, i ∈ items ∧ check_item ctx i = inr a)
  ∧ (∀ r, r ∈ rej → ∃ i, i ∈ items ∧ check_item ctx i = inl (rj_reason r)
       ∧ rj_ean r = si_ean i ∧ rj_storeId r = si_storeId i).
Proof.
  induction items as [|i items IH] using rev_ind.
  { split_and!; [done|constructor|by intros ? ?%elem_of_nil..]. }
  rewrite check_items_snoc. destruct (check_items ctx items) as [acc rej].
  destruct IH as (Hl & Hsub & Ha & Hr).
  assert (∀ x, x ∈ items → x ∈ items ++ [i]) as Hin by (intros; rewrite elem_of_app; by left).
  assert (i ∈ items ++ [i]) as Hi by (rewrite elem_of_app, list_elem_of_singleton; by right).
  destruct (check_item ctx i) as [r|a] eqn:Hc.
  - split_and!.
    + rewrite !length_app. simpl. lia.
    + rewrite fmap_app. by apply sublist_inserts_r.
    + intros x Hx. destruct (Ha x Hx) as (j & ? & ?). eauto.
    + intros x [Hx| ->%list_elem_of_singleton]%elem_of_app.
      * destruct (Hr x Hx) as (j & ? & ?). eauto.
      * by exists i.
  - split_and!.
    + rewrite !length_app. simpl. lia.
    + rewrite !fmap_app. apply sublist_app; [done|]. simpl.
      destruct (check_item_fields _ _ _ Hc) as (He & Ht & Hs & _).
      unfold acc_key, item_key. rewrite He, Ht, Hs. done.
    + intros x [Hx| ->%list_elem_of_singleton]%elem_of_app; [|by exists i].
      destruct (Ha x Hx) as (j & ? & ?). eauto.
    + intros x Hx. destruct (Hr x Hx) as (j & ? & ?). eauto.
Qed.

Lemma last_of_caderno_None k (l : list (AcceptedItem N)) :
  last_of_caderno k l = None ↔ ∀ a, a ∈ l → caderno_key a ≠ Some k.
Proof.
  unfold last_of_caderno. rewrite last_None. split.
  - intros Hf a Ha Hk. assert (a ∈ filter (λ a, caderno_key a = Some k) l) as Hin
      by (by apply list_elem_of_filter). rewrite Hf in Hin. by apply elem_of_nil in Hin.
  - intros Hno. destruct (filter _ l) as [|a l'] eqn:Hf; [done|].
    assert (a ∈ filter (λ a, caderno_key a = Some k) l) as Hin by (rewrite Hf; left).
    apply list_elem_of_filter in Hin as [Hk Hin]. by destruct (Hno a Hin).
Qed.

Lemma resolve_spec (accepted : list (AcceptedItem N)) rejected :
  let '(kept, rej) := resolveCadernoConflicts accepted rejected in
  (length kept + length rej = length accepted + length rejected)%nat
  ∧ sublist kept accepted
  ∧ NoDup (omap caderno_key kept)
  ∧ (∀ a, a ∈ kept → ∀ k, caderno_key a = Some k → last_of_caderno k accepted = Some a)
  ∧ ∃ extra, rej = rejected ++ extra ∧ Forall (λ r, breaker_exempt (rj_reason r) = true) extra.
Proof.
  revert rejected. induction accepted as [|a rest IH]; intros rejected; cbn [resolveCadernoConflicts].
  { split_and!; [done|constructor|apply NoDup_nil_2|by intros ? ?%elem_of_nil|].
    exists []. by rewrite app_nil_r. }
  destruct (k ← caderno_key a; last_of_caderno k rest) as [w|] eqn:Hw.
  - set (r := Build_ApplyRejection _ _ _). specialize (IH (rejected ++ [r])).
    destruct (resolveCadernoConflicts rest _) as [kept rej]. destruct IH as (H1 & H2 & H3 & H4 & ex & -> & H5).
    apply bind_Some in Hw as (k & Hk & Hw).
    split_and!; [rewrite !length_app in *; simpl in *; lia|by constructor|done| |].
    + intros b Hb k' Hk'. unfold last_of_caderno. rewrite filter_cons. case_decide as Hd; [|by apply H4].
      rewrite last_cons. change (last (filter _ rest)) with (last_of_caderno k' rest).
      by rewrite (H4 b Hb k' Hk').
    + exists (r :: ex). rewrite <- app_assoc. split; [done|]. constructor; [|done].
      unfold r; simpl. by destruct (n_lt _ _).
  - specialize (IH rejected).
    destruct (resolveCadernoConflicts rest _) as [kept rej]. destruct IH as (H1 & H2 & H3 & H4 & H5).
    split_and!; [simpl; lia|by constructor| | |done].
    + cbn [omap list_omap]. destruct (caderno_key a) as [k|] eqn:Hk; [|done].
      constructor; [|done]. intros (b & Hb & Hbk)%list_elem_of_omap.
      simpl in Hw. rewrite last_of_caderno_None in Hw. apply (Hw b); [|done].
      eapply elem_of_submseteq; [exact Hb|by apply sublist_submseteq].
    + intros b [->|Hb]%elem_of_cons k Hk; unfold last_of_caderno; rewrite filter_cons.
      * rewrite decide_True, last_cons by done. change (last (filter _ rest)) with (last_of_caderno k rest).
        rewrite Hk in Hw. simpl in Hw. by rewrite Hw.
      * case_decide as Hd; [|by apply H4]. rewrite last_cons.
        change (last (filter _ rest)) with (last_of_caderno k rest). by rewrite (H4 b Hb k Hk).
Qed.

End Accounting.

(* ------------------------------------------------------------------ *)
(** * Revalidation                                                      *)
(* ------------------------------------------------------------------ *)

Section Revalidate.
Context {N : Type} `{JsNum N}.
Implicit Types (items : list (ApplyItemDto N)) (a : AcceptedItem N).

Lemma dedup_keys items : item_key <$> dedup items = (js_map_of ((λ i, (item_key i, i)) <$> items)).*1.
Proof.
  unfold dedup. set (m := js_map_of _). assert (Forall (λ e, item_key e.2 = e.1) m) as Hm.
  { apply Forall_forall. intros [k v] Hin. apply js_map_of_elem in Hin.
    by apply list_elem_of_fmap in Hin as (i & [= -> ->] & _). }
  clearbody m. induction Hm as [|[k v] m Hk _ IH]; [done|]. rewrite !fmap_cons. by f_equal.
Qed.

Lemma dedup_NoDup items : NoDup (item_key <$> dedup items).
Proof. rewrite dedup_keys. apply js_map_of_NoDup. Qed.

(** An item kept is the last one of its key, and every key is kept. *)
Lemma dedup_last items d :
  d ∈ dedup items → last (filter (λ i, item_key i = item_key d) items) = Some d.
Proof.
  unfold dedup. intros ([k v] & -> & Hin)%list_elem_of_fmap. simpl.
  assert (item_key v = k) as Hk.
  { pose proof (js_map_of_elem _ _ _ Hin) as Hin'. by apply list_elem_of_fmap in Hin' as (i & [= -> ->] & _). }
  apply js_map_get_NoDup in Hin; [|apply js_map_of_NoDup]. rewrite js_map_of_last in Hin.
  rewrite Hk. clear Hk. revert Hin. generalize v.
  assert (∀ l : list (ApplyItemDto N), filter (λ e, e.1 = k) ((λ i, (item_key i, i)) <$> l)
     = (λ i, (item_key i, i)) <$> filter (λ i, item_key i = k) l) as ->.
  { induction l as [|i l IH]; [done|]. rewrite fmap_cons, !filter_cons, IH. simpl. by case_decide. }
  intros w. rewrite fmap_last. destruct (last _); [|done]. simpl. by intros [= <-].
Qed.

Lemma dedup_complete items i :
  i ∈ items → ∃ d, d ∈ dedup items ∧ item_key d = item_key i.
Proof.
  intros Hi. assert (item_key i ∈ item_key <$> dedup items) as Hin.
  { rewrite dedup_keys, js_map_of_keys. apply list_elem_of_fmap. exists (item_key i, i).
    split; [done|]. apply list_elem_of_fmap. by exists i. }
  apply list_elem_of_fmap in Hin as (d & ? & ?). by exists d.
Qed.

Lemma dedup_subset items d : d ∈ dedup items → d ∈ items.
Proof.
  intros Hd. apply dedup_last in Hd. apply last_Some_elem_of, list_elem_of_filter in Hd as [_ ?]. done.
Qed.

(** What the accepted items of a batch went through. *)
Lemma revalidate_spec (c : Catalog N) slug items acc rej :
  revalidate c slug items = Ok (acc, rej) →
  ∃ ctx acc0, revalidate_ctx c slug items = Ok ctx
    ∧ (length acc + length rej = length (dedup items))%nat
    ∧ sublist (acc_key <$> acc0) (item_key <$> dedup items) ∧ sublist acc acc0
    ∧ NoDup (omap caderno_key acc)
    ∧ (∀ a, a ∈ acc → ∃ i, i ∈ dedup items ∧ check_item ctx i = inr a).
Proof.
  unfold revalidate. intros (ctx & Hctx & Hr)%Res_bind_Ok. exists ctx.
  pose proof (check_items_spec ctx (dedup items)) as Hc.
  destruct (check_items ctx (dedup items)) as [acc0 rej0]. destruct Hc as (H1 & H2 & H3 & H4).
  pose proof (resolve_spec acc0 rej0) as Hs. injection Hr as Hr. rewrite Hr in Hs.
  destruct Hs as (Hs1 & Hs2 & Hs3 & Hs4 & Hs5). exists acc0. split_and!; try done; [lia|].
  intros a Ha. apply H3. eapply elem_of_submseteq; [exact Ha|by apply sublist_submseteq].
Qed.

(** ** The rows behind the context *)

Lemma loadEansData_elem (c : Catalog N) origins eans rows row :
  loadEansData c origins eans = Ok rows → row ∈ rows →
  ∃ ean p, ct_products c !! ean = Some p ∧ p_deleted p = false ∧ row = ean_data c origins ean p.
Proof.
  unfold loadEansData. intros (ids & _ & [= <-])%Res_bind_Ok (ean & _ & Hp)%list_elem_of_omap.
  apply bind_Some in Hp as (p & Hp & Hd). destruct (p_deleted p) eqn:E; [done|].
  injection Hd as <-. by exists ean, p.
Qed.

Lemma byEan_get rows ean (row : EanData N) :
  js_map_get ean (byEan rows) = Some row → row ∈ rows ∧ ed_ean row = ean.
Proof.
  intros Hg%js_map_get_elem%js_map_of_elem. by apply list_elem_of_fmap in Hg as (r & [= -> ->] & ?).
Qed.

Lemma loadStores_get (c : Catalog N) slug ids m s act :
  loadStores c slug ids = Ok m → m !! s = Some act →
  ∃ t st, ct_tenants c !! slug = Some t ∧ ct_stores c !! s = Some st
    ∧ ts_tenant_id st = t ∧ ts_deleted st = false ∧ ts_active st = act.
Proof.
  unfold loadStores. destruct ids as [|x l]; [by intros [= <-]; rewrite lookup_empty|].
  generalize (x :: l). intros ids (t & Ht & [= <-])%Res_bind_Ok Hm. exists t.
  apply elem_of_list_to_map_2, list_elem_of_omap in Hm as (y & _ & Hy).
  apply bind_Some in Hy as (st & Hst & Hy). destruct (_ && _) eqn:E; [|done]. injection Hy as -> <-.
  apply andb_true_iff in E as [?%String.eqb_eq ?%negb_true_iff]. exists st. split_and!; try done.
  unfold resolveTenantId in Ht. by destruct (ct_tenants c !! slug); [injection Ht as ->|].
Qed.

(** The data a context was loaded from. *)
Record ctx_of (c : Catalog N) (slug : string) (ctx : RevalidateCtx N) : Prop := {
  cx_origins : ∃ origins, enabledOrigins c slug = Ok origins ∧ ∀ ean row,
    js_map_get ean (rv_rows ctx) = Some row →
    ∃ z p, ean_text z = ean ∧ ct_products c !! z = Some p ∧ p_deleted p = false
      ∧ row = ean_data c origins z p;
  cx_stores : ∀ s act, rv_stores ctx !! s = Some act →
    ∃ t st, ct_tenants c !! slug = Some t ∧ ct_stores c !! s = Some st
      ∧ ts_tenant_id st = t ∧ ts_deleted st = false ∧ ts_active st = act;
  cx_item : ∀ ean s, rv_storeItem ctx ean s
    = row ← js_map_get ean (rv_rows ctx); ct_productItems c !! (ed_productId row, s);
  cx_caderno : rv_defaultCaderno ctx = default_caderno c slug;
}.

Lemma revalidate_ctx_of (c : Catalog N) slug items ctx :
  revalidate_ctx c slug items = Ok ctx → ctx_of c slug ctx.
Proof.
  unfold revalidate_ctx. intros (os & Hos & H1)%Res_bind_Ok.
  apply Res_bind_Ok in H1 as (rows & Hrows & H1). apply Res_bind_Ok in H1 as (sts & Hsts & H1).
  apply Res_bind_Ok in H1 as (rules & _ & H1). apply Res_bind_Ok in H1 as (idx & _ & [= <-]).
  split; simpl; [|intros; by eapply loadStores_get|done|done].
  exists os. split; [done|]. intros ean row [Hin <-]%byEan_get.
  destruct (loadEansData_elem _ _ _ _ _ Hrows Hin) as (z & p & ? & ? & ->).
  by exists z, p.
Qed.

End Revalidate.

(** The guard rails of one accepted item, in terms of the catalogue: the
    product exists, the store is the tenant's and active, the price covers
    the cost and the margin floor of the governing rule, it moves the
    current price by at most the ceiling, and an offer does not exceed the
    shelf price and has a caderno. *)
Definition guarded {N} `{JsNum N} (c : Catalog N) (slug : string) (ctx : RevalidateCtx N)
    (i : ApplyItemDto N) (a : AcceptedItem N) : Prop :=
  ∃ z p row si cost venda oferta,
    ean_text z = a_ean a ∧ ct_products c !! z = Some p ∧ p_deleted p = false
    ∧ js_map_get (a_ean a) (rv_rows ctx) = Some row
    ∧ item_store ctx i = inr si
    ∧ (∀ s, truthy (a_storeId a) = Some s → ∃ t st, ct_tenants c !! slug = Some t
         ∧ ct_stores c !! s = Some st ∧ ts_tenant_id st = t ∧ ts_deleted st = false
         ∧ ts_active st = true ∧ si = ct_productItems c !! (p_id p, s))
    ∧ (truthy (a_storeId a) = None → si = None)
    ∧ item_values row si = (cost, venda, oferta)
    ∧ n_le cost (n_int 0) = false ∧ n_le (a_price a) (n_int 0) = false
    ∧ n_lt (n_add (a_price a) PRICE_EPSILON)
        (price_floor (winning_rule ctx (a_storeId a) (sp_of_data row cost venda oferta)) cost) = false
    ∧ variation_excessive (a_price a) (match a_target a with precoOferta => oferta | precoVenda => venda end) = false
    ∧ match a_target a with
      | precoVenda => a_cadernoId a = None
      | precoOferta => (n_lt (n_int 0) venda = true → n_lt (n_add venda PRICE_EPSILON) (a_price a) = false)
          ∧ ∃ k, item_caderno ctx row si i = inr k ∧ a_cadernoId a = Some k
      end.

Lemma check_item_guarded {N} `{JsNum N} (c : Catalog N) slug ctx i a :
  ctx_of c slug ctx → check_item ctx i = inr a → guarded c slug ctx i a.
Proof.
  intros Hctx Hc. destruct (check_item_fields _ _ _ Hc) as (He & Ht & Hs & Hp).
  unfold check_item in Hc. destruct (js_map_get _ _) as [row|] eqn:Hrow; [|done].
  destruct (item_store ctx i) as [?|si] eqn:Hsi; [done|].
  destruct (item_values row si) as [[cost venda] oferta] eqn:Hv.
  destruct (n_le cost _) eqn:G1; [done|]. destruct (n_le (si_price i) _) eqn:G2; [done|].
  destruct (n_lt (n_add (si_price i) _) _) eqn:G3; [done|].
  destruct (variation_excessive _ _) eqn:G4; [done|].
  destruct (cx_origins _ _ _ Hctx) as (os & _ & Horig). destruct (Horig _ _ Hrow) as (z & p & Hz & Hzp & Hd & Hr).
  exists z, p, row, si, cost, venda, oferta. rewrite He, Ht, Hs, Hp.
  split_and!; try done.
  - intros s Hts. unfold item_store in Hsi. rewrite Hts in Hsi.
    destruct (rv_stores ctx !! s) as [[]|] eqn:Hst; [|done..].
    destruct (cx_stores _ _ _ Hctx _ _ Hst) as (t & st & ? & ? & ? & ? & ?).
    exists t, st. split_and!; try done. injection Hsi as <-.
    rewrite (cx_item _ _ _ Hctx), Hrow. subst row. done.
  - intros Hts. unfold item_store in Hsi. rewrite Hts in Hsi. by injection Hsi.
  - destruct (si_target i); [by injection Hc as <-|].
    destruct (_ && _) eqn:G5; [done|]. destruct (item_caderno _ _ _ _) as [?|k] eqn:Hk; [done|].
    injection Hc as <-. split; [|by exists k]. intros Hv0. by rewrite Hv0 in G5.
Qed.


(** Batch accounting: of the items with the same EAN, target and store
    exactly the last is processed, each processed item has exactly one
    outcome, and what is accepted determines the ERP state whatever the
    order of the batches: no two accepted items write the same target of the
    same product and store, nor the same caderno of the same product. *)
Theorem revalidate_accounts {N} `{JsNum N} (c : Catalog N) slug items acc rej :
  revalidate c slug items = Ok (acc, rej) →
  (length acc + length rej = length (dedup items))%nat ∧
  NoDup (item_key <$> dedup items) ∧
  (∀ i, i ∈ items → ∃ d, d ∈ dedup items ∧ item_key d = item_key i
     ∧ last (filter (λ j, item_key j = item_key i) items) = Some d) ∧
  NoDup (acc_key <$> acc) ∧ NoDup (omap caderno_key acc).
Proof.
  intros Hr. destruct (revalidate_spec _ _ _ _ _ Hr) as (ctx & acc0 & _ & Hl & Hs & Hs' & Hn & _).
  split_and!; [done|apply dedup_NoDup| | |done].
  - intros i Hi. destruct (dedup_complete items i Hi) as (d & Hd & Hk). exists d.
    split_and!; [done..|]. rewrite <- Hk. by apply dedup_last.
  - eapply sublist_NoDup; [apply (dedup_NoDup items)|].
    etrans; [|exact Hs]. by apply fmap_sublist.
Qed.

(* ------------------------------------------------------------------ *)
(** * A small catalogue                                                 *)
(* ------------------------------------------------------------------ *)

Definition ap_product (id : string) (price cost : Z) : ProductRow :=
  {| p_id := id; p_name := None; p_supplier := None; p_status := None; p_active := true;
     p_deleted := false; p_price := Some (Num price 2); p_cost := Some (Num cost 2);
     p_classificationId := None; p_monitored := false; p_externalId := Some "77";
     p_averageUnitCost := None; p_unitSalePrice := None; p_margin := None |}.

Definition ap_rule {N} : RuleRow N := {|
  ru_id := "r1"; ru_name := "Base"; ru_classifications := []; ru_storeIds := [];
  ru_clusterId := None; ru_excludeClusterIds := []; ru_strategy := margem; ru_minMargin := "20.00";
  ru_competitorMode := lowest; ru_competitors := []; ru_variationPct := "0.00";
  ru_noCompetitorMargin := None; ru_priceControlled := false; ru_ignorePbm := false;
  ru_blockPbmInMargin := false; ru_cascadeByPriority := false; ru_applyRounding := false;
  ru_active := true; ru_createdAt := 1780315200000; ru_updatedAt := 1780315200000; ru_deleted := false |}.

(** Tenant [acme] with three products, a store and a margin rule of 20 %. *)
Definition ap_catalog {N} : Catalog N :=
  Build_Catalog {["acme" := "t1"]}
    {[ 1001 := ap_product "p1" 2000 1000; 1002 := ap_product "p2" 1500 1000;
      1004 := ap_product "p4" 1100 1000 ]}
    {[ ("p1", "s1") := {| pi_price := None; pi_cost := None; pi_price_offer := None;
                          pi_offer_external_id := Some 9; pi_offer_description := None |} ]}
    ∅ ∅
    {[ "s1" := {| ts_tenant_id := "t1"; ts_external_id := 4; ts_name := "Centro"; ts_cnpj := None; ts_active := true;
                  ts_deleted := false |} ]}
    ∅ {["t1" := Some 9]} [] [] [] [ap_rule] ∅ [] ∅
    {["t1" := {| cn_apiBaseUrl := Some "https://erp"; cn_apiKeyEncrypted := Some "k" |}]}.

Definition ap_item {N} `{JsNum N} (ean : string) (t : SuggestionTarget) (cents : Z) (store : option string) :
    ApplyItemDto N :=
  Build_ScheduleItem ean t (n_dec cents 2) None store.

(** A good shelf price, the same item again with a better price, an offer,
    a price below the floor and an unknown product. *)
Definition ap_items : list (ApplyItemDto F64) :=
  [ap_item "1001" precoVenda 1900 None; ap_item "1001" precoVenda 1850 None;
   ap_item "1001" precoOferta 1500 (Some "s1"); ap_item "1002" precoVenda 1100 None;
   ap_item "1003" precoVenda 1100 None].

Definition ap_result : list (AcceptedItem F64) * list ApplyRejection :=
  Eval vm_compute in match revalidate ap_catalog "acme" ap_items with Ok r => r | Throw _ => ([], []) end.

Lemma ap_revalidate : revalidate ap_catalog "acme" ap_items = Ok (ap_result.1, ap_result.2).
Proof. vm_compute. reflexivity. Qed.


Lemma revalidate_accounts_witness :
  revalidate ap_catalog "acme" ap_items = Ok (ap_result.1, ap_result.2)
  ∧ length ap_items = 5%nat ∧ (length ap_result.1 + length ap_result.2 = 4)%nat
  ∧ NoDup (acc_key <$> ap_result.1).
Proof.
  destruct (revalidate_accounts _ _ _ _ _ ap_revalidate) as (Hl & _ & _ & Hn & _).
  split; [exact ap_revalidate|]. split; [reflexivity|]. split; [|exact Hn].
  rewrite Hl. vm_compute. reflexivity.
Defined.
