(* ===== verification/PricingFlow.v ===== *)
(** From a suggestion to its application: the price the suggestion services
    compute for a product passes the guard rails of the apply service.  Both
    services load the product, the governing rule and the store on their own;
    the lemmas here relate the two paths. *)

From Stdlib Require Import Ascii String QArith Lqa.
From S2P Require Import Prelude JsText JsNumber JsDate Enums Messages World Outbox Classification SuggestionEngine EngineLaws PricingDb SuggestionRules Suggestions PricingApply PricingApplyLaws.
Open Scope string_scope.
Open Scope list_scope.
Open Scope Z_scope.

Section Flow.
Context {N : Type} `{JsNum N}.
Implicit Types (c : Catalog N).

(* ------------------------------------------------------------------ *)
(** * The same product                                                  *)
(* ------------------------------------------------------------------ *)

Lemma loadProducts_elem ilike c origins nm cl store eans rows row :
  loadProducts ilike c origins nm cl store eans = Ok rows → row ∈ rows →
  ∃ z p, ct_products c !! z = Some p ∧ p_deleted p = false ∧ row = response_product c origins store z p.
Proof.
  unfold loadProducts. intros (ids & _ & [= <-])%Res_bind_Ok ([z p] & -> & Hin)%list_elem_of_fmap.
  rewrite js_sort_perm in Hin. apply list_elem_of_filter in Hin as [Hs Hin].
  apply elem_of_map_to_list in Hin. exists z, p. split_and!; [done| |done].
  unfold product_selected in Hs. by destruct (p_deleted p); rewrite ?andb_false_r in Hs.
Qed.

(** The competitor prices of the two loads. *)
Lemma competitor_prices_agree c origins z (m : gmap string N) :
  foldl (λ m v, match cv_price v with
                | Some x => if n_lt (n_int 0) x then <[cv_origin v := x]> m else m
                | None => m end) m (competitor_view c z <$> origins)
  = foldl (λ m o, match num_of (shared_of c z o ≫= sh_price) with
                  | Some x => if n_lt (n_int 0) x then <[o := x]> m else m
                  | None => m end) m origins.
Proof. revert m. induction origins as [|o origins IH]; intros m; [done|]. apply IH. Qed.

Lemma pbm_agree c origins z :
  existsb cv_isPbm (competitor_view c z <$> origins)
  = existsb (λ o, match shared_of c z o with Some r => sh_isPbm r | None => false end) origins.
Proof. induction origins as [|o origins IH]; [done|]. cbn. by rewrite IH. Qed.

Lemma products_agree c origins store z p cost venda oferta :
  money (num_of (eff_cost (store_item c store p) p)) = cost →
  money (num_of (eff_price (store_item c store p) p)) = venda →
  money (num_of (eff_offer (store_item c store p) (ct_offerBook c !! z))) = oferta →
  toSuggestionProduct (response_product c origins store z p) = sp_of_data (ean_data c origins z p) cost venda oferta.
Proof.
  intros <- <- <-. unfold toSuggestionProduct, sp_of_data, response_product, ean_data. cbn.
  f_equal; [apply competitor_prices_agree|apply pbm_agree].
Qed.

(* ------------------------------------------------------------------ *)
(** * The same rule                                                     *)
(* ------------------------------------------------------------------ *)

Lemma cascade_participates (rules : list (SuggestionRule N)) prio store :
  filter (λ r, ruleParticipates r store = true) (applyCascadePriority rules prio)
  = applyCascadePriority (filter (λ r, ruleParticipates r store = true) rules) prio.
Proof.
  unfold applyCascadePriority. induction rules as [|r rules IH]; [done|]. rewrite fmap_cons, !filter_cons.
  assert (ruleParticipates (if is_cascade_by_priority r then with_competitors r
    (js_sort (λ a b, competitor_priority prio a <=? competitor_priority prio b) (r_competitors r)) else r) store
    = ruleParticipates r store) as -> by (by destruct (is_cascade_by_priority r)).
  case_decide; [|done]. rewrite fmap_cons. by f_equal.
Qed.

Lemma cascade_noop (rules : list (SuggestionRule N)) prio :
  existsb is_cascade_by_priority rules = false → applyCascadePriority rules prio = rules.
Proof.
  unfold applyCascadePriority. induction rules as [|r rules IH]; [done|]. cbn.
  intros [-> E]%orb_false_iff. f_equal. by apply IH.
Qed.

(** Without cluster rules and exclusions the membership does not matter. *)
Lemma governing_no_clusters (cr cs : list (SuggestionRule N)) ids sp index :
  existsb (λ r, is_cluster_rule r || negb (bool_decide (r_excludeClusterIds r = []))) (cr ++ cs) = false →
  governing_rules cr cs ids sp index = governing_rules cr cs [] sp index.
Proof.
  rewrite existsb_app. intros [Hc Hs]%orb_false_iff. unfold governing_rules. f_equal.
  - assert (∀ (b : option (SuggestionRule N)), foldl (cluster_step ids) b cr = b) as E.
    { induction cr as [|r cr IH]; [done|]. intros b. cbn in Hc |- *.
      apply orb_false_iff in Hc as [[Hr _]%orb_false_iff Hc]. rewrite IH by done.
      unfold cluster_step, is_cluster_rule in *. destruct (negb _); [done|].
      destruct (truthy (r_clusterId r)); [|done]. by apply bool_decide_eq_false in Hr; destruct Hr. }
    destruct ids; [done|]. apply E.
  - unfold findRuleForProduct. f_equal. generalize (@None (SuggestionRule N), (-1)). 
    induction cs as [|r cs IH]; [done|]. intros acc. cbn in Hs |- *.
    apply orb_false_iff in Hs as [[_ Hr]%orb_false_iff Hs]. rewrite IH by done. f_equal.
    unfold rule_step. destruct acc as [b s]. unfold isExcluded. by rewrite Hr.
Qed.

Definition uses_clusters (rules : list (SuggestionRule N)) : bool :=
  existsb (λ r, is_cluster_rule r || negb (bool_decide (r_excludeClusterIds r = []))) rules.

Lemma uses_clusters_false rules :
  uses_clusters rules = false ↔
  Forall (λ r, is_cluster_rule r || negb (bool_decide (r_excludeClusterIds r = [])) = false) rules.
Proof.
  unfold uses_clusters. induction rules as [|r rules IH]; [by split|]. cbn.
  rewrite orb_false_iff, Forall_cons, IH. done.
Qed.

Lemma uses_clusters_mono (P : SuggestionRule N → bool) rules :
  uses_clusters rules = false → uses_clusters (filter (λ r, P r = true) rules) = false.
Proof. rewrite !uses_clusters_false, !Forall_forall. intros Hf r [_ Hr]%list_elem_of_filter. by apply Hf. Qed.

(** The rule context of [revalidate]. *)
Lemma revalidate_ctx_rules c slug items ctx :
  revalidate_ctx c slug items = Ok ctx →
  ∃ prio, (existsb is_cascade_by_priority (filter (λ r, r_active r = true) (list_rules c)) = true →
             originPriorities c slug = Ok prio)
    ∧ rv_rules ctx = applyCascadePriority (filter (λ r, r_active r = true) (list_rules c)) prio
    ∧ rv_membership ctx = (if uses_clusters (rv_rules ctx) then loadActiveClusterMembership c else ∅)
    ∧ classification_index c = Ok (rv_index ctx).
Proof.
  unfold revalidate_ctx. intros (os & _ & H1)%Res_bind_Ok.
  apply Res_bind_Ok in H1 as (rows & _ & H1). apply Res_bind_Ok in H1 as (sts & _ & H1).
  apply Res_bind_Ok in H1 as (rules & Hr & H1). apply Res_bind_Ok in H1 as (idx & Hi & [= <-]). cbn.
  destruct (existsb is_cascade_by_priority _) eqn:E.
  - apply Res_bind_Ok in Hr as (prio & Hp & [= <-]). by exists prio.
  - injection Hr as <-. exists ∅. by rewrite (cascade_noop _ ∅ E).
Qed.

Lemma ruleContext_rules c slug store rc prio :
  ruleContext c slug None store = Ok rc →
  let A := filter (λ r, r_active r = true) (list_rules c) in
  (existsb is_cascade_by_priority A = true → originPriorities c slug = Ok prio) →
  rc_activeRules rc = filter (λ r, ruleParticipates r store = true) (applyCascadePriority A prio)
  ∧ rc_clusterRules rc = filter (λ r, is_cluster_rule r = true) (rc_activeRules rc)
  ∧ rc_classRules rc = filter (λ r, is_cluster_rule r = false) (rc_activeRules rc)
  ∧ rc_membership rc = (if uses_clusters (rc_activeRules rc) then loadActiveClusterMembership c else ∅)
  ∧ classification_index c = Ok (rc_classificationIndex rc)
  ∧ (if existsb r_applyRounding (rc_activeRules rc) then rounding_list c slug else Ok []) = Ok (rc_roundingRanges rc).
Proof.
  intros Hrc A Hprio. unfold ruleContext in Hrc. cbn [default] in Hrc.
  assert (filter (λ r, r_active r && ruleParticipates r store = true) (list_rules c)
    = filter (λ r, ruleParticipates r store = true) A) as E.
  { unfold A. rewrite list_filter_filter. apply list_filter_iff. intros r. rewrite andb_true_iff. tauto. }
  rewrite E in Hrc. apply Res_bind_Ok in Hrc as (rules & Hr & H1).
  apply Res_bind_Ok in H1 as (rr & Hrr & H1). apply Res_bind_Ok in H1 as (idx & Hi & [= <-]). cbn.
  split_and!; [|done..]. rewrite cascade_participates. destruct (existsb is_cascade_by_priority (filter _ A)) eqn:Ec.
  - apply Res_bind_Ok in Hr as (prio' & Hp & [= <-]). rewrite Hprio in Hp; [by injection Hp as ->|].
    apply existsb_exists in Ec as (r & Hin & Hc). apply existsb_exists. exists r. split; [|done].
    apply list_elem_of_In in Hin. apply list_elem_of_In. by apply list_elem_of_filter in Hin as [_ ?].
  - injection Hr as <-. by rewrite cascade_noop.
Qed.

(** Both services let the same rule govern a product. *)
Lemma winners_agree c slug store items ctx rc sp :
  revalidate_ctx c slug items = Ok ctx → ruleContext c slug None store = Ok rc →
  winning_rule ctx store sp
  = (governing_rules (rc_clusterRules rc) (rc_classRules rc) (default [] (rc_membership rc !! sp_ean sp)) sp
       (rc_classificationIndex rc)).1.
Proof.
  intros (prio & Hp & Hrules & Hmem & Hidx)%revalidate_ctx_rules Hrc.
  destruct (ruleContext_rules _ _ _ _ _ Hrc Hp) as (Hact & Hcl & Hcs & Hmem' & Hidx' & _).
  assert (rv_index ctx = rc_classificationIndex rc) as Hie by congruence.
  unfold winning_rule. rewrite Hrules, <- Hact, <- Hcl, <- Hcs, Hie, Hmem, Hmem'.
  destruct (uses_clusters (rc_activeRules rc)) eqn:Hu.
  - destruct (uses_clusters (rv_rules ctx)) eqn:Hu'; [done|].
    apply (uses_clusters_mono (λ r, ruleParticipates r store)) in Hu'. rewrite Hrules, <- Hact in Hu'. congruence.
  - assert (uses_clusters (rc_clusterRules rc ++ rc_classRules rc) = false) as Huc.
    { rewrite uses_clusters_false in *. rewrite Forall_app, Hcl, Hcs. rewrite Forall_forall in Hu.
      split; apply Forall_forall; intros r [_ Hr]%list_elem_of_filter; by apply Hu. }
    rewrite (governing_no_clusters _ _ (default [] (_ !! _)) _ _ Huc).
    by rewrite (governing_no_clusters _ _ (default [] (∅ !! _)) _ _ Huc).
Qed.

End Flow.

Section Accepted.
Context {N : Type} `{JsNum N}.
Implicit Types (c : Catalog N) (items : list (ApplyItemDto N)).

Lemma ean_cast_text z zc : ean_cast (ean_text z) = Ok zc → zc = z.
Proof.
  unfold ean_cast. destruct (matches_digits 1 18 (ean_text z)) eqn:E; [|done]. intros [= <-].
  apply digits_val_pretty. destruct z as [|p|p]; [lia..|].
  exfalso. unfold matches_digits in E. by apply andb_true_iff in E as [E _].
Qed.

Lemma ean_casts_elem l zs e : ean_casts l = Ok zs → e ∈ l → ∃ z, ean_cast e = Ok z ∧ z ∈ zs.
Proof.
  revert zs. induction l as [|x l IH]; intros zs Hl; [by intros ?%elem_of_nil|]. cbn in Hl.
  apply Res_bind_Ok in Hl as (z & Hz & Hl). apply Res_bind_Ok in Hl as (zs' & Hzs & [= <-]).
  intros [->|Hin]%elem_of_cons; [exists z; split; [done|left]|].
  destruct (IH _ Hzs Hin) as (z' & ? & ?). exists z'. split; [done|by right].
Qed.

(** The row an item is checked against. *)
Lemma revalidate_ctx_row c slug items ctx i z p :
  revalidate_ctx c slug items = Ok ctx → i ∈ items → si_ean i = ean_text z →
  ct_products c !! z = Some p → p_deleted p = false →
  ∃ origins, enabledOrigins c slug = Ok origins
    ∧ js_map_get (si_ean i) (rv_rows ctx) = Some (ean_data c origins z p).
Proof.
  unfold revalidate_ctx. intros (os & Hos & H1)%Res_bind_Ok Hi He Hp Hd.
  apply Res_bind_Ok in H1 as (rows & Hrows & H1). apply Res_bind_Ok in H1 as (sts & _ & H1).
  apply Res_bind_Ok in H1 as (rules & _ & H1). apply Res_bind_Ok in H1 as (idx & _ & [= <-]). cbn.
  exists os. split; [done|].
  assert (ean_data c os z p ∈ rows) as Hin.
  { pose proof Hrows as Hr. unfold loadEansData in Hr. apply Res_bind_Ok in Hr as (ids & Hids & [= <-]).
    destruct (ean_casts_elem _ _ (si_ean i) Hids) as (zc & Hzc & Hin).
    { apply js_uniq_elem, list_elem_of_fmap. by exists i. }
    rewrite He in Hzc. apply ean_cast_text in Hzc as ->.
    apply list_elem_of_omap. exists z. rewrite js_uniq_elem. split; [done|]. by rewrite Hp; cbn; rewrite Hd. }
  assert (si_ean i ∈ (byEan rows).*1) as Hk.
  { unfold byEan. rewrite js_map_of_keys. apply list_elem_of_fmap. exists (si_ean i, ean_data c os z p).
    split; [done|]. apply list_elem_of_fmap. exists (ean_data c os z p). by rewrite He. }
  apply list_elem_of_fmap in Hk as ([k v] & Hk & Hv). simpl in Hk. subst k.
  apply js_map_get_NoDup in Hv; [|apply js_map_of_NoDup]. rewrite Hv. f_equal.
  apply byEan_get in Hv as [Hv Hve].
  destruct (loadEansData_elem _ _ _ _ _ Hrows Hv) as (z' & p' & Hp' & _ & ->).
  cbn in Hve. rewrite He in Hve. unfold ean_text in Hve. apply (inj pretty) in Hve as ->. congruence.
Qed.

(** A live, active store of the tenant. *)
Definition store_ok c slug (store : option string) : Prop :=
  ∀ s, store = Some s → s ≠ "" ∧ ∃ t st, ct_tenants c !! slug = Some t ∧ ct_stores c !! s = Some st
    ∧ ts_tenant_id st = t ∧ ts_deleted st = false ∧ ts_active st = true.

Lemma loadStores_complete c slug ids m s t st :
  loadStores c slug ids = Ok m → s ∈ ids → ct_tenants c !! slug = Some t → ct_stores c !! s = Some st →
  ts_tenant_id st = t → ts_deleted st = false → m !! s = Some (ts_active st).
Proof.
  unfold loadStores. destruct ids as [|x l]; [by intros _ ?%elem_of_nil|]. generalize (x :: l). intros ids.
  intros (t' & Ht' & [= <-])%Res_bind_Ok Hs Ht Hst <- Hd.
  unfold resolveTenantId in Ht'. rewrite Ht in Ht'. injection Ht' as <-.
  assert (∀ y, (s, y) ∈ omap (λ s0, st0 ← ct_stores c !! s0;
    if String.eqb (ts_tenant_id st0) (ts_tenant_id st) && negb (ts_deleted st0) then Some (s0, ts_active st0) else None)
    ids → y = ts_active st) as Hfun.
  { intros y (s0 & _ & Hy)%list_elem_of_omap. apply bind_Some in Hy as (st0 & Hst0 & Hy).
    destruct (_ && _); [|done]. injection Hy as -> <-. congruence. }
  apply elem_of_list_to_map_1'; [intros y Hy; by rewrite (Hfun y Hy)|].
  apply list_elem_of_omap. exists s. split; [done|]. rewrite Hst. cbn. by rewrite String.eqb_refl, Hd.
Qed.

Lemma item_store_ok c slug items ctx i z p origins :
  revalidate_ctx c slug items = Ok ctx → i ∈ items → store_ok c slug (si_storeId i) →
  js_map_get (si_ean i) (rv_rows ctx) = Some (ean_data c origins z p) →
  item_store ctx i = inr (store_item c (si_storeId i) p).
Proof.
  intros Hctx Hi Hs Hrow. unfold item_store, store_item. destruct (si_storeId i) as [s|] eqn:Es; [|done].
  destruct (Hs s eq_refl) as (Hne & t & st & Ht & Hst & Htn & Hd & Ha).
  assert (truthy (Some s) = Some s) as -> by (by destruct s).
  assert (rv_stores ctx !! s = Some true) as Hrv.
  { unfold revalidate_ctx in Hctx. apply Res_bind_Ok in Hctx as (os & _ & H1).
    apply Res_bind_Ok in H1 as (rows & _ & H1). apply Res_bind_Ok in H1 as (sts & Hsts & H1).
    apply Res_bind_Ok in H1 as (rules & _ & H1). apply Res_bind_Ok in H1 as (idx & _ & [= <-]). cbn.
    rewrite <- Ha. eapply loadStores_complete; [exact Hsts| |done..].
    apply js_uniq_elem, list_elem_of_omap. exists i. split; [done|]. rewrite Es. by destruct s. }
  rewrite Hrv. pose proof (revalidate_ctx_of _ _ _ _ Hctx) as Hof.
  by rewrite (cx_item _ _ _ Hof), Hrow.
Qed.

End Accepted.

Section Exact.
Implicit Types (c : Catalog XQ).

(** Numeric columns in exact arithmetic. *)
Lemma num_of_COALESCE (a b : option Numeric) :
  num_of (COALESCE a b) = COALESCE (num_of a) (num_of b :> option XQ).
Proof. by destruct a. Qed.

Lemma money_fin (a : option Numeric) : ∃ q, money (num_of a) = XFin q.
Proof. destruct a as [[u k]|]; eexists; reflexivity. Qed.

Lemma item_values_agree c origins store z p :
  item_values (ean_data c origins z p) (store_item c store p)
  = (money (num_of (eff_cost (store_item c store p) p)),
     money (num_of (eff_price (store_item c store p) p)),
     money (num_of (eff_offer (store_item c store p) (ct_offerBook c !! z)))).
Proof.
  unfold item_values, eff_cost, eff_price, eff_offer. rewrite !num_of_COALESCE.
  by destruct (store_item c store p).
Qed.

Lemma findRule_elem (sp : SuggestionProduct XQ) rs ids index r :
  findRuleForProduct sp rs ids index = Some r → r ∈ rs.
Proof. intros Hr. pose proof (findRule_best sp ids index rs) as Hb. rewrite Hr in Hb. by destruct Hb. Qed.

Lemma findCluster_elem (rs : list (SuggestionRule XQ)) ids r :
  findClusterRuleForProduct rs ids = Some r → r ∈ rs.
Proof. intros Hr. pose proof (findCluster_best ids rs) as Hb. rewrite Hr in Hb. by destruct Hb. Qed.

Lemma winning_rule_elem ctx store (sp : SuggestionProduct XQ) w :
  winning_rule ctx store sp = Some w → w ∈ rv_rules ctx.
Proof.
  unfold winning_rule, governing_rules. set (ids := default [] _).
  set (cr := filter _ (filter _ _)). set (cs := filter _ (filter _ _)).
  assert (∀ r, r ∈ cr ∨ r ∈ cs → r ∈ rv_rules ctx) as Hin.
  { intros r [[_ [_ ?]%list_elem_of_filter]%list_elem_of_filter|[_ [_ ?]%list_elem_of_filter]%list_elem_of_filter]; done. }
  intros Hw. apply Hin. destruct ids as [|i l].
  - right. cbn in Hw. by eapply findRule_elem.
  - destruct (findClusterRuleForProduct cr (i :: l)) as [r|] eqn:Hk; cbn in Hw.
    + injection Hw as ->. left. by eapply findCluster_elem.
    + right. by eapply findRule_elem.
Qed.

(** The minimum margin of a stored rule is a number. *)
Lemma stored_margin c slug items ctx r :
  revalidate_ctx c slug items = Ok ctx → r ∈ rv_rules ctx → ∃ x, r_minMargin r = VNum x.
Proof.
  intros (prio & _ & -> & _)%revalidate_ctx_rules (r0 & -> & Hin)%list_elem_of_fmap.
  apply list_elem_of_filter in Hin as [_ Hin]. unfold list_rules in Hin.
  apply list_elem_of_fmap in Hin as (ru & -> & _).
  exists (js_Number (ru_minMargin ru)). by destruct (is_cascade_by_priority _).
Qed.

(** The apply service's floor is at most the engine's. *)
Lemma price_floor_met (product : SuggestionProduct XQ) w x (q p : Q) :
  r_minMargin w = VNum x → sp_custo product = XFin q → (0 < p)%Q →
  n_lt (n_add (XFin p) (n_dec 5 3)) (floor_of product w) = false →
  n_lt (n_add (XFin p) PRICE_EPSILON) (price_floor (Some w) (XFin q)) = false.
Proof.
  intros Hm Hq Hp. unfold floor_of, min_margin, price_floor. rewrite Hm, Hq.
  destruct x as [m|neg|]; [done| |done]. intros _. cbn [js_val_Number].
  assert (priceForMargin (XFin q) (XInf neg) = XFin 0) as -> by (by destruct neg).
  apply (xq_lt_false (p + (5 # 1000)) 0). lra.
Qed.

Lemma rounding_ranges_ok c slug rr :
  Forall (λ r, 0 <= nm_unscaled (rl_round_to r)) (ct_roundingRules c) →
  rounding_list c slug = Ok rr → ranges_ok rr.
Proof.
  intros Hall (t & _ & [= <-])%Res_bind_Ok. apply Forall_fmap, Forall_forall. intros r _. cbn.
  apply Forall_fmap, Forall_forall. intros d Hd. rewrite js_sort_perm in Hd.
  apply list_elem_of_filter in Hd as [_ Hd]. rewrite Forall_forall in Hall. specialize (Hall d Hd).
  eexists. split; [reflexivity|]. unfold Qle. cbn. lia.
Qed.

Lemma context_ranges_ok c slug store items ctx rc (rounding : bool) :
  Forall (λ r, 0 <= nm_unscaled (rl_round_to r)) (ct_roundingRules c) →
  revalidate_ctx c slug items = Ok ctx → ruleContext c slug None store = Ok rc →
  ranges_ok (if rounding then rc_roundingRanges rc else []).
Proof.
  intros Hround Hctx Hrc. destruct (revalidate_ctx_rules _ _ _ _ Hctx) as (prio & Hprio & _).
  destruct (ruleContext_rules _ _ _ _ _ Hrc Hprio) as (_ & _ & _ & _ & _ & Hrr).
  destruct rounding; [|constructor]. destruct (existsb r_applyRounding _); [|injection Hrr as <-; constructor].
  by eapply rounding_ranges_ok.
Qed.

(** The price map holds suggestions of products of the catalogue. *)
Lemma priceMap_elem ilike c slug store eans m ean t x :
  priceMap ilike c slug store eans = Ok m → m !! ean = Some (t, x) →
  ∃ origins rc z p s, enabledOrigins c slug = Ok origins ∧ ruleContext c slug None store = Ok rc
    ∧ ct_products c !! z = Some p ∧ p_deleted p = false ∧ ean = ean_text z
    ∧ cr_result (computeRow rc (response_product c origins store z p)) = Suggestion s
    ∧ s_target s = t ∧ s_price s = x.
Proof.
  unfold priceMap. intros (os & Hos & H1)%Res_bind_Ok.
  apply Res_bind_Ok in H1 as (rows & Hrows & H1). apply Res_bind_Ok in H1 as (rc & Hrc & [= <-]). intros Hm.
  assert (∃ row s, row ∈ rows ∧ rp_ean row = ean ∧ cr_result (computeRow rc row) = Suggestion s
    ∧ s_target s = t ∧ s_price s = x) as (row & s & Hin & He & Hs & Ht & Hx).
  { assert (∀ (m0 : gmap string (SuggestionTarget * XQ)), foldl (λ m product,
        match cr_result (computeRow rc product) with
        | Suggestion s => <[rp_ean product := (s_target s, s_price s)]> m
        | NoSuggestion _ _ => m end) m0 rows !! ean = Some (t, x) →
      m0 !! ean = Some (t, x) ∨ ∃ row s, row ∈ rows ∧ rp_ean row = ean
        ∧ cr_result (computeRow rc row) = Suggestion s ∧ s_target s = t ∧ s_price s = x) as Hf.
    { clear. induction rows as [|row rows IH]; intros m0 Hm; [by left|]. cbn in Hm.
      apply IH in Hm as [Hm|(r & s & ? & ?)]; [|right; exists r, s; split; [by right|done]].
      destruct (cr_result _) as [s|] eqn:Es; [|by left].
      apply lookup_insert_Some in Hm as [[He [= <- <-]]|[_ Hm]]; [|by left].
      right. exists row, s. split; [left|done]. }
    by destruct (Hf ∅ Hm) as [?%lookup_empty_Some|?]. }
  destruct (loadProducts_elem _ _ _ _ _ _ _ _ _ Hrows Hin) as (z & p & ? & ? & ->).
  exists os, rc, z, p, s. done.
Qed.

End Exact.

(** The reasons a suggested price may still be turned down for: it moves the
    current price by more than the ceiling, or there is no caderno to write
    the offer to. *)
Definition structural (r : RejectReason) : bool :=
  match r with variacao_excessiva | sem_caderno | caderno_nao_cobre_loja => true | _ => false end.

Lemma item_caderno_structural {N} `{JsNum N} ctx (row : EanData N) si i r :
  item_caderno ctx row si i = inl r → structural r = true.
Proof. unfold item_caderno. repeat case_match; by intros [= <-]. Qed.


Definition pf_item : ApplyItemDto XQ := ap_item "1004" precoVenda 1250 None.
Definition pf_map : gmap string (SuggestionTarget * XQ) := {[ "1004" := (precoVenda, n_dec 1250 2 : XQ) ]}.

Lemma pf_priceMap : priceMap (λ _ _, true) ap_catalog "acme" None None = Ok pf_map.
Proof. vm_compute. reflexivity. Qed.

