(* ===== verification/SuggestionsLaws.v ===== *)
(** The paginated suggestion listing: its pages partition the listing. *)

From Stdlib Require Import Ascii String.
From S2P Require Import Prelude JsText JsNumber JsDate Enums Messages World Outbox Classification SuggestionEngine PricingDb SuggestionRules Suggestions PricingApply PricingApplyLaws PricingFlow.
Open Scope string_scope.
Open Scope list_scope.
Open Scope Z_scope.

Definition with_page (k : Z) (q : ListSuggestionsQuery) : ListSuggestionsQuery := {|
  q_page := Some k; q_perPage := q_perPage q; q_name := q_name q; q_store := q_store q;
  q_classification := q_classification q; q_books := q_books q;
  q_onlyWithSuggestion := q_onlyWithSuggestion q; q_direction := q_direction q; q_origem := q_origem q |}.

Lemma pages_concat {A} (p : nat) (l : list A) n :
  concat ((λ k, take p (drop (k * p) l)) <$> seq 0 n) = take (n * p) l.
Proof.
  induction n as [|n IH]; [done|]. rewrite seq_S, fmap_app, concat_app, IH. cbn. rewrite app_nil_r.
  replace (p + n * p)%nat with (n * p + p)%nat by lia. by rewrite take_take_drop.
Qed.

Lemma fmap_concat {A B} (f : A → B) (ls : list (list A)) : concat ((λ l : list A, f <$> l) <$> ls) = f <$> concat ls.
Proof. induction ls as [|l ls IH]; [done|]. cbn. by rewrite fmap_app, <- IH. Qed.

Section Listing.
Context {N : Type} `{JsNum N}.
Variable ilike : string → string → bool.
Variable collate_le : string → string → bool.

(** The rows of a page, [[]] when the request fails. *)
Definition page_rows (c : Catalog N) slug q over (k : Z) :=
  match suggestions ilike collate_le c slug (with_page k q) over with
  | Ok r => sr_rows r | Throw _ => [] end.

Lemma loadProducts_NoDup c origins nm cl store eans (rows : list (ResponseProduct N)) :
  loadProducts ilike c origins nm cl store eans = Ok rows → NoDup (rp_ean <$> rows).
Proof.
  unfold loadProducts. intros (ids & _ & [= <-])%Res_bind_Ok.
  set (l := js_sort _ _).
  assert ((rp_ean <$> ((λ '(z, p), response_product c origins store z p) <$> l)) = ean_text <$> l.*1) as ->.
  { rewrite <- !list_fmap_compose. apply list_fmap_ext. by intros ? [z p]. }
  apply NoDup_fmap_2; [apply _|]. unfold l. rewrite js_sort_perm.
  eapply sublist_NoDup; [apply (NoDup_fst_map_to_list (ct_products c))|].
  apply fmap_sublist, sublist_filter.
Qed.

Lemma computeRow_product (ctx : RuleContext N) p : cr_product (computeRow ctx p) = p.
Proof. unfold computeRow. by destruct (governing_rules _ _ _ _ _). Qed.

(** The listing behind the pages. *)
Lemma suggestions_listing c slug q over k r :
  suggestions ilike collate_le c slug (with_page k q) over = Ok r →
  ∃ all books active,
    NoDup ((λ x : ComputedRow N, rp_ean (cr_product x)) <$> all)
    ∧ ∀ k', ∃ r', suggestions ilike collate_le c slug (with_page k' q) over = Ok r'
      ∧ sr_rows r' = (λ x, (cr_product x, cr_result x, cr_origem x))
                       <$> js_slice ((Z.max 1 k' - 1) * perPage_of q) (perPage_of q) all
      ∧ sr_count r' = Z.of_nat (length all)
      ∧ sr_suggestionCount r' = Z.of_nat (length (filter (λ x, is_suggestion (cr_result x) = true) all))
      ∧ sr_availableBooks r' = books ∧ sr_activeRuleCount r' = active.
Proof.
  unfold suggestions. cbn [with_page q_store q_name q_classification q_books].
  intros (st & Hst & H1)%Res_bind_Ok. apply Res_bind_Ok in H1 as (os & Hos & H1).
  apply Res_bind_Ok in H1 as (rows & Hrows & H1). apply Res_bind_Ok in H1 as (ctx & Hctx & _).
  set (books := filter (λ b, b ≠ "") (str_trim <$> str_split "," (default "" (q_books q)))).
  set (listed := match books with [] => rows
                 | _ => filter (λ p, str_trim (default "" (rp_book p)) ∈ books) rows end).
  exists (filter (λ x, row_listed q x = true) (computeRow ctx <$> listed)), (availableBooks collate_le rows),
    (Z.of_nat (length (rc_activeRules ctx))). split.
  2:{ intros k'. eexists. split.
      { do 4 (apply Res_bind_Ok; eexists; split; [eassumption|]). fold books. fold listed. reflexivity. }
      split_and!; reflexivity. }
  pose proof (loadProducts_NoDup _ _ _ _ _ _ _ Hrows) as Hn.
  eapply sublist_NoDup; [|apply fmap_sublist, sublist_filter].
  assert ((λ x : ComputedRow N, rp_ean (cr_product x)) <$> (computeRow ctx <$> listed) = rp_ean <$> listed) as ->.
  { rewrite <- list_fmap_compose. apply list_fmap_ext. intros _ p _. unfold compose. by rewrite computeRow_product. }
  unfold listed. destruct books as [|b bs]; [exact Hn|].
  eapply sublist_NoDup; [exact Hn|]. apply (fmap_sublist rp_ean), sublist_filter.
Qed.

(** The pages of the suggestion listing partition it: the totals do not
    depend on the page; a page holds at most [perPage] rows (1 to 1000); the
    first [n] pages together, once they reach the count, hold exactly
    [count] rows, [suggestionCount] of them suggestions, and no product
    twice. *)
Theorem suggestions_pages_partition (c : Catalog N) slug q over r n :
  suggestions ilike collate_le c slug (with_page 1 q) over = Ok r →
  sr_count r <= Z.of_nat n * perPage_of q →
  let rows := concat (page_rows c slug q over <$> ((λ k, Z.of_nat (S k)) <$> seq 0 n)) in
  Z.of_nat (length rows) = sr_count r
  ∧ Z.of_nat (length (filter (λ x : ResponseProduct N * SuggestionResult N * option ClusterOrigin,
                               is_suggestion x.1.2 = true) rows)) = sr_suggestionCount r
  ∧ NoDup ((λ x, rp_ean x.1.1) <$> rows)
  ∧ ∀ k, ∃ rk, suggestions ilike collate_le c slug (with_page k q) over = Ok rk
      ∧ sr_count rk = sr_count r ∧ sr_suggestionCount rk = sr_suggestionCount r
      ∧ sr_availableBooks rk = sr_availableBooks r
      ∧ Z.of_nat (length (sr_rows rk)) <= perPage_of q ∧ 1 <= perPage_of q <= 1000.
Proof.
  intros Hr Hn rows. destruct (suggestions_listing _ _ _ _ _ _ Hr) as (all & books & active & Hnd & Hk).
  assert (1 <= perPage_of q <= 1000) as Hp by (unfold perPage_of; lia).
  destruct (Hk 1) as (r1 & Hr1 & _ & Hc & Hs & Hb & _). rewrite Hr in Hr1. injection Hr1 as <-.
  assert (rows = (λ x, (cr_product x, cr_result x, cr_origem x)) <$> all) as ->.
  { unfold rows. rewrite <- list_fmap_compose.
    transitivity (concat ((λ l, (λ x : ComputedRow N, (cr_product x, cr_result x, cr_origem x)) <$> l)
      <$> ((λ k, take (Z.to_nat (perPage_of q)) (drop (k * Z.to_nat (perPage_of q)) all)) <$> seq 0 n))).
    - f_equal. rewrite <- list_fmap_compose. apply list_fmap_ext. intros _ k _. unfold compose, page_rows.
      destruct (Hk (Z.of_nat (S k))) as (rk & -> & -> & _). unfold js_slice. do 3 f_equal. nia.
    - rewrite fmap_concat, pages_concat. f_equal. apply take_ge. nia. }
  rewrite length_fmap. split_and!; [done| | |].
  - rewrite Hs. f_equal. clear. induction all as [|x all IH]; [done|].
    rewrite fmap_cons, !filter_cons. cbn. case_decide; simpl; by rewrite IH.
  - by rewrite <- list_fmap_compose.
  - intros k. destruct (Hk k) as (rk & Hrk & Hrows & ? & ? & ? & _). exists rk. split_and!; [congruence..| |lia|lia].
    rewrite Hrows, length_fmap. unfold js_slice. rewrite length_take. lia.
Qed.

End Listing.

Definition sl_query : ListSuggestionsQuery := {|
  q_page := None; q_perPage := Some 2; q_name := None; q_store := None; q_classification := None;
  q_books := None; q_onlyWithSuggestion := None; q_direction := None; q_origem := None |}.

Lemma suggestions_pages_partition_witness :
  ∃ r, suggestions (λ _ _, true) (λ _ _, true) (ap_catalog : Catalog F64) "acme" (with_page 1 sl_query) None = Ok r
    ∧ sr_count r = 3
    ∧ length (page_rows (λ _ _, true) (λ _ _, true) (ap_catalog : Catalog F64) "acme" sl_query None 1) = 2%nat
    ∧ Z.of_nat (length (concat (page_rows (λ _ _, true) (λ _ _, true) (ap_catalog : Catalog F64) "acme" sl_query None
        <$> [1; 2]))) = sr_count r.
Proof.
  destruct (suggestions (λ _ _, true) (λ _ _, true) (ap_catalog : Catalog F64) "acme" (with_page 1 sl_query) None)
    as [r|e] eqn:E; [|vm_compute in E; discriminate E].
  assert (Some (sr_count r) = Some 3) as Hc.
  { change (Some (sr_count r)) with (match Ok r with Ok r => Some (sr_count r) | Throw _ => None end).
    rewrite <- E. vm_compute. reflexivity. }
  injection Hc as Hc. exists r. split; [reflexivity|]. split; [exact Hc|]. split; [vm_compute; reflexivity|].
  refine (proj1 (suggestions_pages_partition (λ _ _, true) (λ _ _, true) ap_catalog "acme" sl_query None r 2 E _)).
  rewrite Hc. vm_compute. discriminate.
Defined.
