(* ===== verification/PricingRuns.v ===== *)
(** The life of a price application over every interleaving of requests:
    [apply], [approve], [reject], [rollback], the retention sweep, and the
    workers, on the same database.  Idempotency, at most one dispatch to the
    ERP per run, and the approval decision being final. *)

From Stdlib Require Import Ascii String.
From S2P Require Import Prelude JsText JsNumber JsDate Enums Messages World Outbox Classification SuggestionEngine PricingDb SuggestionRules Suggestions PricingApply PricingApplyLaws.
Open Scope string_scope.
Open Scope list_scope.
Open Scope Z_scope.

Section Runs.
Context {N : Type} `{JsNum N}.
Variable to_numeric : nat → N → Numeric.
Variable item_uuid : nat → string.
Implicit Types (db : PricingDb N).

Abbreviation do_apply := (apply to_numeric item_uuid).
Abbreviation do_rollback := (rollback to_numeric item_uuid).

(* ------------------------------------------------------------------ *)
(** * Observations                                                      *)
(* ------------------------------------------------------------------ *)

(** The staged dispatch messages of a run. *)
Definition is_dispatch (id : string) (r : OutboxRow) : bool :=
  String.eqb (ob_pipelineRunId r) id
  && bool_decide (queue (ob_message r) = Some (dispatchStep APPLY_PRICE)).

Definition dispatches (id : string) (db : PricingDb N) : nat :=
  length (filter (λ r, is_dispatch id r = true) (db_outbox db)).

Definition items_of (id : string) (db : PricingDb N) : list ApplyItem :=
  filter (λ i, ai_applyRunId i = id) (applyItems db).

(** What every transaction but the five below leaves alone: keys, totals,
    approvals and deletion marks of the runs, the number of their items and
    of their staged dispatches. *)
Definition run_core (r : ApplyRun) := (ar_idempotencyKey r, ar_total r, ar_approvalStatus r, ar_deleted r).

Definition worker_frame (db db' : PricingDb N) : Prop :=
  run_core <$> applyRuns db' = run_core <$> applyRuns db
  ∧ (∀ id, length (items_of id db') = length (items_of id db))
  ∧ (∀ id, dispatches id db' = dispatches id db).

(* ------------------------------------------------------------------ *)
(** * [apply], case by case                                             *)
(* ------------------------------------------------------------------ *)

Lemma live_run_Some key (runs : gmap string ApplyRun) i r :
  live_run_of_key key runs = Some (i, r) →
  runs !! i = Some r ∧ ar_idempotencyKey r = key ∧ ar_deleted r = false.
Proof.
  unfold live_run_of_key. intros Hh. apply head_Some_elem_of in Hh.
  apply list_elem_of_filter in Hh as [Hb Hin]. apply elem_of_map_to_list in Hin.
  apply andb_true_iff in Hb as [Hk Hd]. apply String.eqb_eq in Hk. apply negb_true_iff in Hd. done.
Qed.

Lemma live_run_None key (runs : gmap string ApplyRun) :
  live_run_of_key key runs = None →
  ∀ i r, runs !! i = Some r → ar_idempotencyKey r = key → ar_deleted r = true.
Proof.
  unfold live_run_of_key. intros Hh i r Hr Hk. destruct (ar_deleted r) eqn:Hd; [done|exfalso].
  apply head_None in Hh.
  assert ((i, r) ∈ filter (λ '(_, r), String.eqb (ar_idempotencyKey r) key && negb (ar_deleted r) = true)
    (map_to_list runs)) as Hin.
  { apply list_elem_of_filter. split; [|by apply elem_of_map_to_list].
    apply andb_true_iff. split; [by apply String.eqb_eq|by rewrite Hd]. }
  rewrite Hh in Hin. by apply elem_of_nil in Hin.
Qed.

Lemma key_taken_spec key (runs : gmap string ApplyRun) :
  key_taken key runs = true ↔ ∃ i r, runs !! i = Some r ∧ ar_idempotencyKey r = key.
Proof.
  unfold key_taken. rewrite existsb_exists. split.
  - intros ([i r] & Hin & Hk). apply list_elem_of_In, elem_of_map_to_list in Hin.
    apply String.eqb_eq in Hk. by exists i, r.
  - intros (i & r & Hr & Hk). exists (i, r). split; [|by apply String.eqb_eq].
    by apply list_elem_of_In, elem_of_map_to_list.
Qed.

(** The response for the run [i] found under the key. *)
Definition found (i : string) (r : ApplyRun) : ApplyResponse :=
  {| rs_applyRunId := i; rs_accepted := ar_total r; rs_rejected := []; rs_idempotent := true;
     rs_approvalPending := false |}.

Lemma findByIdempotencyKey_eq key db :
  findByIdempotencyKey key db = Ok ('(i, r) ← live_run_of_key key (applyRuns db); Some (found i r), db).
Proof. done. Qed.

(** The rows [insertItems] adds. *)
Lemma insertItems_spec runId (accepted : list (AcceptedItem N)) db :
  ∃ rows, insertItems to_numeric item_uuid runId accepted db
      = Ok ((), set_applyItems (applyItems db ++ rows) db)
    ∧ length rows = length accepted
    ∧ Forall (λ i, ai_applyRunId i = runId ∧ ai_status i = item_pending) rows
    ∧ (λ i, (ai_ean i, ai_target i, ai_storeId i)) <$> rows
      = (λ a, (a_ean a, a_target a, a_storeId a)) <$> accepted.
Proof.
  unfold insertItems, tx_modify.
  assert (∀ (chunks : list (list (AcceptedItem N))) d, ∃ rows,
    foldl (λ db chunk, set_applyItems (applyItems db
      ++ imap (λ i a, item_row to_numeric runId (item_uuid (length (applyItems db) + i)) a) chunk) db) d chunks
      = set_applyItems (applyItems d ++ rows) d
    ∧ length rows = length (concat chunks)
    ∧ Forall (λ i, ai_applyRunId i = runId ∧ ai_status i = item_pending) rows
    ∧ (λ i, (ai_ean i, ai_target i, ai_storeId i)) <$> rows
      = (λ a, (a_ean a, a_target a, a_storeId a)) <$> concat chunks) as Hf.
  { induction chunks as [|c cs IH]; intros d.
    - exists []. rewrite app_nil_r. split_and!; [by destruct d as [? ? []]|done|constructor|done].
    - cbn [foldl]. set (d' := set_applyItems _ d). destruct (IH d') as (rows & -> & Hl & HF & Hm).
      eexists (_ ++ rows). split_and!.
      + unfold d', set_applyItems, applyItems. cbn. by rewrite app_assoc.
      + cbn. rewrite !length_app, length_imap, Hl. done.
      + apply Forall_app. split; [|done]. apply Forall_lookup. intros k x. rewrite list_lookup_imap.
        intros (a & _ & ->)%fmap_Some. done.
      + cbn. rewrite !fmap_app, Hm. f_equal.
        generalize (length (applyItems d)). intros n. revert n. clear.
        assert (∀ (f : nat → AcceptedItem N → ApplyItem), (∀ n a, (ai_ean (f n a), ai_target (f n a), ai_storeId (f n a))
          = (a_ean a, a_target a, a_storeId a)) →
          (λ i, (ai_ean i, ai_target i, ai_storeId i)) <$> imap f c
          = (λ a, (a_ean a, a_target a, a_storeId a)) <$> c) as Hi.
        { induction c as [|a c IH]; intros f Hf; [done|]. rewrite imap_cons, !fmap_cons, Hf. f_equal.
          apply IH. intros. apply Hf. }
        intros n. by apply Hi. }
  destruct (Hf (slices INSERT_CHUNK accepted) db) as (rows & E & Hl & HF & Hm).
  rewrite E. exists rows. rewrite slices_concat in Hl, Hm by (unfold INSERT_CHUNK; lia). done.
Qed.

Definition dispatch_message (now : Z) (runId slug : string) : Message :=
  newPipelineMessage now runId slug (step_str APPLY_PRICE) (Some (dispatchStep APPLY_PRICE)) PEmpty None None.

(** The run an accepted batch creates. *)
Record created (mw : PricingDb N) (id : string) (now : Z) (slug key : string) (ap : bool)
    (acc : list (AcceptedItem N)) (rej : list ApplyRejection) (res : option ApplyResponse)
    (db' : PricingDb N) : Prop := {
  cr_response : res = Some {| rs_applyRunId := id; rs_accepted := Z.of_nat (length acc); rs_rejected := rej;
    rs_idempotent := false; rs_approvalPending := ap && negb (bool_decide (acc = [])) |};
  cr_run : ∃ run, applyRuns db' = <[id := run]> (applyRuns mw)
    ∧ run_core run = (key, Z.of_nat (length acc),
         if ap && negb (bool_decide (acc = [])) then Some approval_pending else None, false);
  cr_items : ∃ rows, applyItems db' = applyItems mw ++ rows ∧ length rows = length acc
    ∧ Forall (λ i, ai_applyRunId i = id ∧ ai_status i = item_pending) rows
    ∧ (λ i, (ai_ean i, ai_target i, ai_storeId i)) <$> rows
      = (λ a, (a_ean a, a_target a, a_storeId a)) <$> acc;
  cr_outbox : db_outbox db' =
    if ap || bool_decide (acc = []) then db_outbox mw
    else stage_rows now id slug [dispatch_message now id slug] (db_outbox mw);
}.

Lemma insert_apply_run_Ok id r db b db' :
  insert_apply_run id r db = Ok (b, db') →
  if b then key_taken (ar_idempotencyKey r) (applyRuns db) = false ∧ applyRuns db !! id = None
            ∧ db' = set_applyRuns (<[id := r]> (applyRuns db)) db
  else key_taken (ar_idempotencyKey r) (applyRuns db) = true ∧ db' = db.
Proof.
  unfold insert_apply_run. intros (d & d1 & [= <- <-] & Hi)%tx_bind_Ok.
  destruct (key_taken _ _); [by injection Hi as <- <-|].
  case_decide as Hd; [done|]. apply tx_bind_Ok in Hi as (u & d2 & [= <- <-] & [= <- <-]).
  split_and!; [done| |done]. by apply eq_None_not_Some.
Qed.

Lemma apply_cases mw id now slug by_ key items ap db res db' :
  do_apply mw id now slug by_ key items ap db = Ok (res, db') →
  (∃ i r, live_run_of_key key (applyRuns db) = Some (i, r) ∧ res = Some (found i r) ∧ db' = db)
  ∨ live_run_of_key key (applyRuns db) = None ∧
    ∃ acc rej, revalidate (catalog db) slug items = Ok (acc, rej)
      ∧ wouldTripBreaker (Z.of_nat (length acc)) rej = false
      ∧ (key_taken key (applyRuns (mw db)) = true ∧ db' = mw db
           ∧ res = ('(i, r) ← live_run_of_key key (applyRuns (mw db)); Some (found i r))
         ∨ key_taken key (applyRuns (mw db)) = false ∧ applyRuns (mw db) !! id = None
           ∧ created (mw db) id now slug key ap acc rej res db').
Proof.
  unfold apply. intros (e & d & Hf & Hr)%tx_bind_Ok.
  rewrite findByIdempotencyKey_eq in Hf. injection Hf as <- <-.
  destruct (live_run_of_key key (applyRuns db)) as [[i r]|] eqn:Hl; simpl in Hr.
  { injection Hr as <- <-. left. by exists i, r. }
  right. split; [done|].
  apply tx_bind_Ok in Hr as (d & d1 & [= <- <-] & Hr).
  apply tx_bind_Ok in Hr as ([acc rej] & d1 & [Hrev ->]%tx_lift_Ok & Hr). exists acc, rej.
  destruct (wouldTripBreaker _ _) eqn:Hw; [done|]. split_and!; [done..|].
  apply tx_bind_Ok in Hr as (u & d1 & [= <- <-] & Hr).
  apply tx_bind_Ok in Hr as (b & d1 & Hi & Hr). apply insert_apply_run_Ok in Hi. simpl in Hi.
  destruct b; simpl in Hr; destruct Hi as [Hk Hi].
  2:{ left. subst d1. rewrite findByIdempotencyKey_eq in Hr. by injection Hr as <- <-. }
  right. destruct Hi as [Hfresh ->]. split_and!; [done..|].
  apply tx_bind_Ok in Hr as (u2 & d1 & Hins & Hr).
  destruct (insertItems_spec id acc (set_applyRuns (<[id:=new_run key by_ (Z.of_nat (length acc)) now]>
    (applyRuns (mw db))) (mw db))) as (rows & Hins' & Hlen & HF & Hm).
  rewrite Hins' in Hins. injection Hins as <- <-. clear Hins'.
  assert (∃ rows, applyItems (mw db) ++ rows = applyItems (mw db) ++ rows ∧ length rows = length acc
    ∧ Forall (λ i, ai_applyRunId i = id ∧ ai_status i = item_pending) rows
    ∧ (λ i, (ai_ean i, ai_target i, ai_storeId i)) <$> rows
      = (λ a, (a_ean a, a_target a, a_storeId a)) <$> acc) as Hrows by (by exists rows).
  destruct acc as [|a acc]; [|destruct ap].
  - apply tx_bind_Ok in Hr as (u2 & d1 & [= <- <-] & [= <- <-]). split; simpl.
    + by rewrite andb_false_r.
    + eexists. unfold update_run. cbn. rewrite alter_insert_eq. split; [done|]. by rewrite andb_false_r.
    + by exists rows.
    + by rewrite orb_true_r.
  - apply tx_bind_Ok in Hr as (u2 & d1 & [= <- <-] & [= <- <-]). split; [done| | |done].
    + eexists. cbn. rewrite alter_insert_eq. by split.
    + by exists rows.
  - apply tx_bind_Ok in Hr as (u2 & d1 & [= <- <-] & [= <- <-]). split; [done| | |done].
    + eexists. cbn. by split.
    + by exists rows.
Qed.

(* ------------------------------------------------------------------ *)
(** * All interleavings                                                 *)
(* ------------------------------------------------------------------ *)

(** [evolves db db']: committed transactions lead from [db] to [db'].  While
    an [apply] is between its two reads, others may commit ([mw]). *)
Inductive evolves : PricingDb N → PricingDb N → Prop :=
| ev_refl db : evolves db db
| ev_apply db0 db mw id now slug by_ key items ap res db' :
    evolves db0 db → evolves db (mw db) →
    do_apply mw id now slug by_ key items ap db = Ok (res, db') → evolves db0 db'
| ev_rollback db0 db mw id now slug by_ run res db' :
    evolves db0 db → evolves db (mw db) →
    do_rollback mw id now slug by_ run db = Ok (res, db') → evolves db0 db'
| ev_approve db0 db now slug id res db' :
    evolves db0 db → approve now slug id db = Ok (res, db') → evolves db0 db'
| ev_reject db0 db id res db' :
    evolves db0 db → reject id db = Ok (res, db') → evolves db0 db'
| ev_sweep db0 db now ttl res db' :
    evolves db0 db → sweepTenant now ttl db = Ok (res, db') → evolves db0 db'
| ev_worker db0 db db' :
    evolves db0 db → worker_frame db db' → evolves db0 db'.

(** An [apply] nothing interleaves with. *)
Lemma ev_apply_alone db0 db id now slug by_ key items ap res db' :
  evolves db0 db → do_apply (λ d, d) id now slug by_ key items ap db = Ok (res, db') → evolves db0 db'.
Proof. intros He Ha. exact (ev_apply _ _ (λ d, d) _ _ _ _ _ _ _ _ _ He (ev_refl db) Ha). Qed.

(** How often a run in this state has been dispatched. *)
Definition expected_dispatches (st : option ApprovalStatus) (total : Z) : nat :=
  match st with
  | None => if total =? 0 then 0 else 1
  | Some approval_approved => 1
  | Some _ => 0
  end.

Record runs_inv db : Prop := {
  ri_keys : ∀ i j r r', applyRuns db !! i = Some r → applyRuns db !! j = Some r' →
    ar_idempotencyKey r = ar_idempotencyKey r' → i = j;
  ri_run : ∀ i r, applyRuns db !! i = Some r →
    dispatches i db = expected_dispatches (ar_approvalStatus r) (ar_total r)
    ∧ Z.of_nat (length (items_of i db)) = ar_total r;
  ri_none : ∀ i, applyRuns db !! i = None → dispatches i db = 0%nat ∧ items_of i db = [];
}.

(** The runs, seen through [run_core], determine the rest of the invariant. *)
Lemma core_lookup db db' i r :
  run_core <$> applyRuns db' = run_core <$> applyRuns db →
  applyRuns db' !! i = Some r → ∃ r0, applyRuns db !! i = Some r0 ∧ run_core r0 = run_core r.
Proof.
  intros E Hr. assert ((run_core <$> applyRuns db) !! i = Some (run_core r)) as Hc
    by (by rewrite <- E, lookup_fmap, Hr).
  rewrite lookup_fmap in Hc. by apply fmap_Some in Hc as (r0 & ? & ?); exists r0.
Qed.

Lemma core_lookup_None db db' i :
  run_core <$> applyRuns db' = run_core <$> applyRuns db →
  applyRuns db' !! i = None → applyRuns db !! i = None.
Proof.
  intros E Hr. assert ((run_core <$> applyRuns db) !! i = None) as Hc
    by (by rewrite <- E, lookup_fmap, Hr).
  rewrite lookup_fmap in Hc. by apply fmap_None in Hc.
Qed.

Lemma worker_inv db db' : worker_frame db db' → runs_inv db → runs_inv db'.
Proof.
  intros (Hc & Hi & Hd) [K R Z0]. split.
  - intros i j r r' Hr Hr' Hk.
    destruct (core_lookup _ _ _ _ Hc Hr) as (r0 & H0 & E0).
    destruct (core_lookup _ _ _ _ Hc Hr') as (r1 & H1 & E1).
    injection E0 as E0 _ _ _. injection E1 as E1 _ _ _. eapply K; [done..|congruence].
  - intros i r Hr. destruct (core_lookup _ _ _ _ Hc Hr) as (r0 & H0 & E0).
    destruct (R _ _ H0) as [Rd Ri]. injection E0 as _ Et Ea _. rewrite Hd, Hi, <- Et, <- Ea. done.
  - intros i Hr. pose proof (core_lookup_None _ _ _ Hc Hr) as H0. destruct (Z0 i H0) as [Zd Zi].
    rewrite Hd. split; [done|]. apply nil_length_inv. by rewrite Hi, Zi.
Qed.

Lemma dispatches_stage now id slug ms db i :
  dispatches i (stage now id slug ms db) =
  (dispatches i db + if String.eqb id i then
     length (filter (λ m, queue m = Some (dispatchStep APPLY_PRICE)) ms) else 0)%nat.
Proof.
  unfold dispatches, stage, stage_rows. cbn. rewrite filter_app, length_app. f_equal.
  assert (∀ j m, is_dispatch i (stage_row now id slug j m)
    = String.eqb id i && bool_decide (queue m = Some (dispatchStep APPLY_PRICE))) as E by done.
  destruct (String.eqb id i); generalize (length (db_outbox db)) as n;
    induction ms as [|m ms IH]; intros n; [done| |done|];
    rewrite imap_cons, !filter_cons, E; specialize (IH (S n));
    (rewrite (imap_ext _ (λ i0 m0, stage_row now id slug (Z.of_nat (S n + i0)) m0)) by
      (intros; unfold compose; do 2 f_equal; lia)).
  - rewrite andb_true_l. destruct (decide (queue m = Some (dispatchStep APPLY_PRICE))) as [Hq|Hq].
    + rewrite decide_True by (by apply bool_decide_eq_true). cbn [length]. rewrite IH. lia.
    + rewrite decide_False by (by rewrite bool_decide_eq_true). apply IH.
  - rewrite andb_false_l, decide_False by done. apply IH.
Qed.

(** Updating one run in place. *)
Lemma update_inv db db' id (f : ApplyRun → ApplyRun) r0 :
  runs_inv db → applyRuns db !! id = Some r0 → applyRuns db' = alter f id (applyRuns db) →
  (∀ r, ar_idempotencyKey (f r) = ar_idempotencyKey r ∧ ar_total (f r) = ar_total r) →
  (∀ i, length (items_of i db') = length (items_of i db)) →
  (∀ i, i ≠ id → dispatches i db' = dispatches i db) →
  dispatches id db' = expected_dispatches (ar_approvalStatus (f r0)) (ar_total r0) →
  runs_inv db'.
Proof.
  intros [K R Z0] H0 Hr Hf Hi Hd Hid.
  assert (∀ i r, applyRuns db' !! i = Some r → ∃ r1, applyRuns db !! i = Some r1
    ∧ ar_idempotencyKey r = ar_idempotencyKey r1 ∧ ar_total r = ar_total r1
    ∧ ((i ≠ id ∧ r = r1) ∨ (i = id ∧ r = f r1))) as Hback.
  { intros i r. rewrite Hr, lookup_alter_Some. intros [(-> & r1 & H1 & ->)|(Hne & H1)].
    - exists r1. destruct (Hf r1). eauto 10.
    - exists r. split_and!; eauto. }
  split.
  - intros i j r r' (r1 & H1 & E1 & _)%Hback (r2 & H2 & E2 & _)%Hback Hk. eapply K; [done..|congruence].
  - intros i r Hi'. destruct (Hback i r Hi') as (r1 & H1 & _ & Et & [[Hne ->]|[-> ->]]).
    + rewrite Hd, Hi by done. by apply R.
    + rewrite Hi, Et. assert (r1 = r0) as -> by congruence. split; [done|]. by apply R.
  - intros i. rewrite Hr, lookup_alter_None. intros Hn.
    assert (i ≠ id) by congruence. destruct (Z0 i Hn) as [Zd Zi]. rewrite Hd by done.
    split; [done|]. apply nil_length_inv. by rewrite Hi, Zi.
Qed.

(** [approve] and [reject] on success: the run was waiting. *)
Lemma approve_cases now slug id db res db' :
  approve now slug id db = Ok (res, db') →
  ∃ r, applyRuns db !! id = Some r ∧ ar_approvalStatus r = Some approval_pending
    ∧ db' = stage now id slug [dispatch_message now id slug]
              (set_applyRuns (alter (with_approval (Some approval_approved)) id (applyRuns db)) db).
Proof.
  unfold approve. intros (d & d1 & [= <- <-] & Ha)%tx_bind_Ok.
  destruct (awaiting_approval id db) eqn:Hw.
  - unfold awaiting_approval in Hw. destruct (applyRuns db !! id) as [r|] eqn:Hr; [|done].
    apply bool_decide_eq_true in Hw. exists r. split_and!; [done..|].
    apply tx_bind_Ok in Ha as (u & d1 & [= <- <-] & Ha).
    apply tx_bind_Ok in Ha as (u2 & d2 & [= <- <-] & [= <- <-]). done.
  - by apply tx_bind_Ok in Ha as (e & d1 & _ & Ha).
Qed.

Definition rejected_run (r : ApplyRun) : ApplyRun :=
  with_counts (ar_applied r) (ar_skipped r) (ar_total r)
    (with_status run_failed (with_approval (Some approval_rejected) r)).
Definition rejected_item (id : string) (i : ApplyItem) : ApplyItem :=
  if decide (ai_applyRunId i = id ∧ ai_status i = item_pending)
  then with_item_status item_failed (Some "rejeitado") (ai_erpResult i) i else i.

Lemma reject_cases id db res db' :
  reject id db = Ok (res, db') →
  ∃ r, applyRuns db !! id = Some r ∧ ar_approvalStatus r = Some approval_pending
    ∧ db' = set_applyItems (rejected_item id <$> applyItems db)
              (set_applyRuns (alter rejected_run id (applyRuns db)) db).
Proof.
  unfold reject. intros (d & d1 & [= <- <-] & Ha)%tx_bind_Ok.
  destruct (awaiting_approval id db) eqn:Hw.
  - unfold awaiting_approval in Hw. destruct (applyRuns db !! id) as [r|] eqn:Hr; [|done].
    apply bool_decide_eq_true in Hw. exists r. split_and!; [done..|].
    apply tx_bind_Ok in Ha as (u & d1 & [= <- <-] & Ha).
    apply tx_bind_Ok in Ha as (u2 & d2 & [= <- <-] & Ha).
    apply tx_bind_Ok in Ha as (u3 & d3 & [= <- <-] & [= <- <-]).
    unfold set_applyItems, set_applyRuns, set_data, applyRuns, applyItems. cbn. by rewrite alter_alter_eq.
  - by apply tx_bind_Ok in Ha as (e & d1 & _ & Ha).
Qed.

Lemma items_of_rejected id i (items : list ApplyItem) :
  length (filter (λ x, ai_applyRunId x = i) (rejected_item id <$> items))
  = length (filter (λ x, ai_applyRunId x = i) items).
Proof.
  induction items as [|x items IH]; [done|]. rewrite fmap_cons, !filter_cons.
  assert (ai_applyRunId (rejected_item id x) = ai_applyRunId x) as ->
    by (unfold rejected_item; by destruct (decide _)).
  case_decide; simpl; by rewrite IH.
Qed.

Lemma approve_inv now slug id db res db' :
  approve now slug id db = Ok (res, db') → runs_inv db → runs_inv db'.
Proof.
  intros (r & Hr & Hp & ->)%approve_cases Hinv.
  eapply (update_inv db _ id (with_approval (Some approval_approved)) r); try done.
  - intros i Hne. rewrite dispatches_stage. apply String.eqb_neq in Hne.
    rewrite String.eqb_sym, Hne. unfold dispatches. cbn. lia.
  - rewrite dispatches_stage, String.eqb_refl. destruct (ri_run _ Hinv _ _ Hr) as [Hd _].
    rewrite Hp in Hd. unfold dispatches in *. cbn in *. rewrite Hd. done.
Qed.

Lemma reject_inv id db res db' : reject id db = Ok (res, db') → runs_inv db → runs_inv db'.
Proof.
  intros (r & Hr & Hp & ->)%reject_cases Hinv.
  eapply (update_inv db _ id rejected_run r); try done.
  - intros i. apply (items_of_rejected id i).
  - destruct (ri_run _ Hinv _ _ Hr) as [Hd _]. rewrite Hp in Hd. exact Hd.
Qed.

Lemma sweep_inv now ttl db res db' :
  sweepTenant now ttl db = Ok (res, db') → runs_inv db → runs_inv db'.
Proof.
  intros [= <- <-] [K R Z0].
  assert (∀ i r, applyRuns (set_applyRuns ((λ r, if swept now ttl r then mark_deleted r else r)
      <$> applyRuns db) db) !! i = Some r → ∃ r1, applyRuns db !! i = Some r1
    ∧ ar_idempotencyKey r = ar_idempotencyKey r1 ∧ ar_total r = ar_total r1
    ∧ ar_approvalStatus r = ar_approvalStatus r1) as Hback.
  { intros i r. cbn. rewrite lookup_fmap. intros (r1 & H1 & ->)%fmap_Some. exists r1.
    by destruct (swept now ttl r1). }
  split.
  - intros i j r r' (r1 & H1 & E1 & _)%Hback (r2 & H2 & E2 & _)%Hback Hk. eapply K; [done..|congruence].
  - intros i r (r1 & H1 & _ & Et & Ea)%Hback. rewrite Et, Ea. apply R. done.
  - intros i Hn. apply Z0. cbn in Hn. rewrite lookup_fmap in Hn. by apply fmap_None in Hn.
Qed.

Lemma items_of_app id i db db' rows :
  applyItems db' = applyItems db ++ rows → Forall (λ x, ai_applyRunId x = id ∧ ai_status x = item_pending) rows →
  length (items_of i db') = (length (items_of i db) + if String.eqb id i then length rows else 0)%nat.
Proof.
  intros E HF. unfold items_of. rewrite E, filter_app, length_app. f_equal. clear E.
  destruct (String.eqb_spec id i) as [<-|Hne].
  - f_equal. induction HF as [|x rows [Hx _] _ IH]; [done|]. rewrite filter_cons, decide_True by done. by f_equal.
  - induction HF as [|x rows [Hx _] _ IH]; [done|]. rewrite filter_cons, decide_False by congruence. done.
Qed.

Lemma created_inv mw id now slug key ap acc rej res db' :
  created mw id now slug key ap acc rej res db' → key_taken key (applyRuns mw) = false →
  applyRuns mw !! id = None → runs_inv mw → runs_inv db'.
Proof.
  intros [_ (run & Hruns & Hcore) (rows & Hrows & Hlen & HF & _) Hout] Hkey Hfresh [K R Z0].
  injection Hcore as Ek Et Ea _.
  assert (∀ i r, applyRuns mw !! i = Some r → ar_idempotencyKey r ≠ key) as Hk.
  { intros i r Hr Hkr. assert (key_taken key (applyRuns mw) = true) by (apply key_taken_spec; eauto). congruence. }
  assert (∀ i, dispatches i db' = (dispatches i mw
    + if String.eqb id i then if ap || bool_decide (acc = []) then 0 else 1 else 0)%nat) as Hd.
  { intros i. unfold dispatches. rewrite Hout. destruct (ap || _).
    - destruct (String.eqb id i); lia.
    - exact (dispatches_stage now id slug [dispatch_message now id slug] mw i). }
  pose proof (λ i, items_of_app id i mw db' rows Hrows HF) as Hit.
  destruct (Z0 id Hfresh) as [Zd Zi].
  split.
  - intros i j r r'. rewrite Hruns, !lookup_insert_Some.
    intros [(<- & <-)|(Hi & Hr)] [(<- & <-)|(Hj & Hr')] E; [done| | |eapply K; eauto].
    + destruct (Hk _ _ Hr'). congruence.
    + destruct (Hk _ _ Hr). congruence.
  - intros i r. rewrite Hruns, lookup_insert_Some. intros [(<- & <-)|(Hi & Hr)].
    + rewrite Hd, Hit, Zd, Zi, Ea, Et, String.eqb_refl, Hlen. simpl. split; [|lia].
      destruct acc as [|a acc], ap; done.
    + apply String.eqb_neq in Hi. rewrite Hd, Hit, Hi, !Nat.add_0_r. by apply R.
  - intros i. rewrite Hruns, lookup_insert_None. intros [Hn Hi]. apply String.eqb_neq in Hi.
    destruct (Z0 i Hn) as [Zd' Zi']. rewrite Hd, Hi, Zd'. split; [done|].
    apply nil_length_inv. by rewrite Hit, Hi, Zi'.
Qed.

Lemma apply_inv mw id now slug by_ key items ap db res db' :
  do_apply mw id now slug by_ key items ap db = Ok (res, db') →
  (runs_inv db → runs_inv (mw db)) → runs_inv db → runs_inv db'.
Proof.
  intros [(i & r & _ & _ & ->)|(_ & acc & rej & _ & _ & [(_ & -> & _)|(Hk & Hf & Hc)])]%apply_cases Hmw Hinv;
    [done|by apply Hmw|]. eapply created_inv; [done..|by apply Hmw].
Qed.

Lemma rollback_cases mw id now slug by_ run db res db' :
  do_rollback mw id now slug by_ run db = Ok (res, db') →
  ∃ items, do_apply mw id now slug by_ ("rollback:" +:+ run) items false db = Ok (res, db').
Proof.
  unfold rollback. intros (d & d1 & [= <- <-] & Hr)%tx_bind_Ok.
  destruct (applyRuns db !! run) as [r|]; [|done]. destruct (ar_deleted r); [done|].
  destruct (rollback_items run (applyItems db)) as [|i l]; [done|]. eauto.
Qed.

Lemma evolves_inv db db' : evolves db db' → runs_inv db → runs_inv db'.
Proof.
  induction 1 as [ |? ? ? ? ? ? ? ? ? ? ? ? _ IH _ IHm Ha|? ? ? ? ? ? ? ? ? ? _ IH _ IHm Hr|
    ? ? ? ? ? ? ? _ IH Ha|? ? ? ? ? _ IH Hr|? ? ? ? ? ? _ IH Hs|? ? ? _ IH Hw]; intros H0; [done|..].
  - eapply apply_inv; [exact Ha|exact IHm|auto].
  - apply rollback_cases in Hr as (items & Ha). eapply apply_inv; [exact Ha|exact IHm|auto].
  - eapply approve_inv; eauto.
  - eapply reject_inv; eauto.
  - eapply sweep_inv; eauto.
  - eapply worker_inv; eauto.
Qed.

(** What a transaction may do to a run that exists. *)
Definition run_step (r r' : ApplyRun) : Prop :=
  ar_idempotencyKey r' = ar_idempotencyKey r ∧ ar_total r' = ar_total r
  ∧ (ar_deleted r = true → ar_deleted r' = true)
  ∧ (ar_approvalStatus r' = ar_approvalStatus r ∨ ar_approvalStatus r = Some approval_pending).

#[local] Instance run_step_preorder : PreOrder run_step.
Proof.
  split; [by repeat split; auto|]. intros x y z (K1 & T1 & D1 & A1) (K2 & T2 & D2 & A2).
  split_and!; [congruence..|auto|]. destruct A1 as [A1|A1]; [|by right]. rewrite <- A1. destruct A2; auto.
Qed.

Definition runs_step (m m' : gmap string ApplyRun) : Prop :=
  ∀ i r, m !! i = Some r → ∃ r', m' !! i = Some r' ∧ run_step r r'.

#[local] Instance runs_step_preorder : PreOrder runs_step.
Proof.
  split; [intros m i r Hr; exists r; by split|]. intros x y z H1 H2 i r (r1 & Hr1 & S1)%H1.
  destruct (H2 _ _ Hr1) as (r2 & ? & S2). exists r2. split; [done|]. by etrans.
Qed.

Lemma runs_step_alter (m : gmap string ApplyRun) id f r0 :
  m !! id = Some r0 → run_step r0 (f r0) → runs_step m (alter f id m).
Proof.
  intros H0 Hf i r Hr. destruct (decide (i = id)) as [->|Hne].
  - rewrite lookup_alter_eq, Hr. exists (f r). split; [done|]. by replace r with r0 by congruence.
  - exists r. rewrite lookup_alter_ne by done. by split.
Qed.

Lemma apply_runs_step mw id now slug by_ key items ap db res db' :
  do_apply mw id now slug by_ key items ap db = Ok (res, db') →
  runs_step (applyRuns db) (applyRuns (mw db)) → runs_step (applyRuns db) (applyRuns db').
Proof.
  intros [(i & r & _ & _ & ->)|(_ & acc & rej & _ & _ & [(_ & -> & _)|(Hk & Hf & Hc)])]%apply_cases Hmw;
    [done|done|]. etrans; [exact Hmw|]. destruct Hc as [_ (run & -> & _) _ _].
  intros i r Hr. exists r. rewrite lookup_insert_ne by congruence. by split.
Qed.

Lemma evolves_runs_step db db' : evolves db db' → runs_step (applyRuns db) (applyRuns db').
Proof.
  induction 1 as [ |? ? ? ? ? ? ? ? ? ? ? ? _ IH _ IHm Ha|? ? ? ? ? ? ? ? ? ? _ IH _ IHm Hr|
    ? ? ? ? ? ? ? _ IH Ha|? ? ? ? ? _ IH Hr|? ? ? ? ? ? _ IH Hs|? ? ? _ IH Hw]; [done|etrans; [exact IH|]..].
  - by eapply apply_runs_step.
  - apply rollback_cases in Hr as (items & Ha). by eapply apply_runs_step.
  - apply approve_cases in Ha as (r & Hr & Hp & ->). eapply runs_step_alter; [done|]. by split_and!; auto.
  - apply reject_cases in Hr as (r & Hr & Hp & ->). eapply runs_step_alter; [done|]. by split_and!; auto.
  - injection Hs as _ <-. intros i r Hr. cbn. rewrite lookup_fmap, Hr. eexists. split; [done|].
    destruct (swept _ _ r); by split_and!; auto.
  - destruct Hw as [Hc _]. intros i r Hr.
    assert ((run_core <$> applyRuns db') !! i = Some (run_core r)) as Hl by (by rewrite Hc, lookup_fmap, Hr).
    rewrite lookup_fmap in Hl. apply fmap_Some in Hl as (r' & Hr' & E). exists r'. split; [done|].
    injection E as ? ? ? ?. split_and!; [congruence..|left; congruence].
Qed.

Lemma live_run_unique key db i r :
  runs_inv db → applyRuns db !! i = Some r → ar_idempotencyKey r = key → ar_deleted r = false →
  live_run_of_key key (applyRuns db) = Some (i, r).
Proof.
  intros Hinv Hr Hk Hd. destruct (live_run_of_key key (applyRuns db)) as [[j r']|] eqn:E.
  - apply live_run_Some in E as (Hr' & Hk' & _).
    assert (i = j) as <- by (eapply (ri_keys _ Hinv); [done..|congruence]). congruence.
  - pose proof (live_run_None _ _ E i r Hr Hk). congruence.
Qed.

(** A database no price was applied in yet. *)
Definition no_runs db : Prop :=
  applyRuns db = ∅ ∧ applyItems db = [] ∧ ∀ id, dispatches id db = 0%nat.

Lemma no_runs_inv db : no_runs db → runs_inv db.
Proof.
  intros (Hr & Hi & Hd). split.
  - intros i j r r'. by rewrite Hr, lookup_empty.
  - intros i r. by rewrite Hr, lookup_empty.
  - intros i _. unfold items_of. by rewrite Hd, Hi.
Qed.

(* ------------------------------------------------------------------ *)
(** * Theorems                                                          *)
(* ------------------------------------------------------------------ *)

(** [C8] No price change reaches the ERP twice or without approval: over
    every interleaving of apply requests (also with the same key), approvals,
    rejections, rollbacks, retention sweeps and workers, a run has exactly
    one dispatch message once it is approved or needs no approval and has
    items, and none while it waits for approval, when it was rejected or when
    it is empty; it has exactly its [total] items; and no two runs share an
    idempotency key. *)
Theorem runs_dispatched_once db0 db :
  no_runs db0 → evolves db0 db →
  (∀ id r, applyRuns db !! id = Some r →
     dispatches id db = match ar_approvalStatus r with
                        | None => if (ar_total r =? 0)%Z then 0 else 1
                        | Some approval_approved => 1
                        | Some approval_pending | Some approval_rejected => 0
                        end%nat
     ∧ Z.of_nat (length (items_of id db)) = ar_total r)
  ∧ (∀ id, applyRuns db !! id = None → dispatches id db = 0%nat ∧ items_of id db = [])
  ∧ (∀ i j r r', applyRuns db !! i = Some r → applyRuns db !! j = Some r' →
       ar_idempotencyKey r = ar_idempotencyKey r' → i = j).
Proof.
  intros H0 He. destruct (evolves_inv _ _ He (no_runs_inv _ H0)) as [K R Z0].
  split_and!; [|exact Z0|exact K]. intros id r Hr. destruct (R id r Hr) as [Rd Ri]. split; [|done].
  rewrite Rd. by destruct (ar_approvalStatus r) as [[]|].
Qed.

(** An approval decision is final: whatever happens afterwards, a run
    that is not waiting keeps its approval state, its key and its total, and
    every further [approve] or [reject] of it fails and changes nothing. *)
Theorem approval_is_final db db' id r :
  evolves db db' → applyRuns db !! id = Some r → ar_approvalStatus r ≠ Some approval_pending →
  (∃ r', applyRuns db' !! id = Some r' ∧ ar_approvalStatus r' = ar_approvalStatus r
     ∧ ar_idempotencyKey r' = ar_idempotencyKey r ∧ ar_total r' = ar_total r)
  ∧ (∀ now slug, ∃ e, commit (approve now slug id) db' = (Throw e, db'))
  ∧ (∃ e, commit (reject id) db' = (Throw e, db')).
Proof.
  intros He Hr Hp. destruct (evolves_runs_step _ _ He id r Hr) as (r' & Hr' & Hk & Ht & _ & Ha).
  destruct Ha as [Ha|?]; [|done]. split; [by exists r'|]. unfold commit. split.
  - intros now slug. destruct (approve now slug id db') as [[res d]|e] eqn:E; [|by exists e].
    apply approve_cases in E as (r1 & ? & ? & _). congruence.
  - destruct (reject id db') as [[res d]|e] eqn:E; [|by exists e].
    apply reject_cases in E as (r1 & ? & ? & _). congruence.
Qed.

(** [C13] Applying is idempotent: once [apply] answered for a key (as the
    winner or the loser of a race), a later request with that key, whatever
    its items and however many transactions committed in between, answers
    the same run and the same total and changes nothing, as long as the run
    has not been swept. *)
Theorem apply_idempotent db0 db1 mw id now slug by_ key items ap resp db2 db3 :
  no_runs db0 → evolves db0 db1 → evolves db1 (mw db1) →
  do_apply mw id now slug by_ key items ap db1 = Ok (Some resp, db2) → evolves db2 db3 →
  (∀ r, applyRuns db3 !! rs_applyRunId resp = Some r → ar_deleted r = false) →
  ∀ mw' id' now' slug' by' items' ap',
    do_apply mw' id' now' slug' by' key items' ap' db3
    = Ok (Some {| rs_applyRunId := rs_applyRunId resp; rs_accepted := rs_accepted resp; rs_rejected := [];
                  rs_idempotent := true; rs_approvalPending := false |}, db3).
Proof.
  intros H0 E1 Em Ha E3 Hlive mw' id' now' slug' by' items' ap'.
  assert (evolves db0 db2) as E2 by (eapply ev_apply; eauto).
  pose proof (evolves_inv _ _ E2 (no_runs_inv _ H0)) as I2. pose proof (evolves_inv _ _ E3 I2) as I3.
  assert (∃ r, applyRuns db2 !! rs_applyRunId resp = Some r ∧ ar_idempotencyKey r = key
    ∧ ar_total r = rs_accepted resp) as (r & Hr & Hk & Ht).
  { apply apply_cases in Ha as [(i & r & Hl & [= ->] & ->)|(_ & acc & rej & _ & _ & [(_ & -> & Hres)|(_ & _ & Hc)])].
    - apply live_run_Some in Hl as (? & ? & _). by exists r.
    - symmetry in Hres. apply bind_Some in Hres as ([i r] & Hl & [= <-]).
      apply live_run_Some in Hl as (? & ? & _). by exists r.
    - destruct Hc as [Hres (run & Hruns & Hcore) _ _]. injection Hres as ->. injection Hcore as ? ? _ _.
      exists run. rewrite Hruns. simpl. by rewrite lookup_insert_eq. }
  destruct (evolves_runs_step _ _ E3 _ _ Hr) as (r3 & Hr3 & Hk3 & Ht3 & _).
  assert (live_run_of_key key (applyRuns db3) = Some (rs_applyRunId resp, r3)) as Hl3.
  { apply live_run_unique; [done..|congruence|by apply Hlive]. }
  unfold apply, mbind, Tx_bind. rewrite findByIdempotencyKey_eq, Hl3. simpl. unfold mret, Tx_ret.
  unfold found. by rewrite Ht3, Ht.
Qed.

(** The retention sweep breaks idempotency: it soft-deletes old runs,
    which the lookup by key no longer sees, while the unique index still
    holds the key.  A request with the key of a swept run, if it succeeds at
    all, creates and dispatches nothing and answers [null]. *)
Theorem swept_key_answers_null db0 db i r id now slug by_ items ap res db' :
  no_runs db0 → evolves db0 db → applyRuns db !! i = Some r → ar_deleted r = true →
  do_apply (λ d, d) id now slug by_ (ar_idempotencyKey r) items ap db = Ok (res, db') →
  res = None ∧ db' = db.
Proof.
  intros H0 He Hr Hd. pose proof (evolves_inv _ _ He (no_runs_inv _ H0)) as Hinv.
  assert (live_run_of_key (ar_idempotencyKey r) (applyRuns db) = None) as Hn.
  { destruct (live_run_of_key _ _) as [[j r']|] eqn:E; [|done].
    apply live_run_Some in E as (Hr' & Hk & Hd').
    assert (i = j) as <- by (eapply (ri_keys _ Hinv); [done..|congruence]). congruence. }
  intros [(j & r' & Hl & _)|(_ & acc & rej & _ & _ & [(_ & -> & ->)|(Hk & _)])]%apply_cases.
  - congruence.
  - by rewrite Hn.
  - assert (key_taken (ar_idempotencyKey r) (applyRuns db) = true) by (apply key_taken_spec; eauto). congruence.
Qed.

End Runs.

(* ------------------------------------------------------------------ *)
(** * An execution                                                      *)
(* ------------------------------------------------------------------ *)

Definition two_decimals (k : nat) (x : F64) : Numeric :=
  match n_hundredths x with Some (neg, z) => Num (if neg then - z else z) 2 | None => Num 0 0 end.
Definition nth_uuid (n : nat) : string := "item-" +:+ pretty n.

Definition outcome {A} (m : Tx F64 A) (db : PricingDb F64) : option A * PricingDb F64 :=
  match m db with Ok (a, db') => (Some a, db') | Throw _ => (None, db) end.

(** An apply with approval required, its approval, an apply whose only item
    is rejected, and the sweep ninety days later. *)
Definition pr_db0 : PricingDb F64 := Build_Db ∅ [] (Build_PricingData ap_catalog ∅ [] ∅).
Definition pr_now : Z := 1780315200000.
Definition pr_apply (id key : string) (items : list (ApplyItemDto F64)) (ap : bool) :=
  apply two_decimals nth_uuid (λ d, d) id pr_now "acme" None key items ap.
Definition pr_db1 : PricingDb F64 := Eval vm_compute in (outcome (pr_apply "run1" "k1" ap_items true) pr_db0).2.
Definition pr_db2 : PricingDb F64 := Eval vm_compute in (outcome (approve pr_now "acme" "run1") pr_db1).2.
Definition pr_bad : list (ApplyItemDto F64) := [ap_item "1003" precoVenda 1100 None].
Definition pr_db3 : PricingDb F64 := Eval vm_compute in (outcome (pr_apply "run2" "k2" pr_bad false) pr_db2).2.
Definition pr_db4 : PricingDb F64 := Eval vm_compute in (outcome (sweepTenant (pr_now + 91 * day_ms) 90) pr_db3).2.

Lemma pr_step1 : ∃ rej, pr_apply "run1" "k1" ap_items true pr_db0
  = Ok (Some {| rs_applyRunId := "run1"; rs_accepted := 2; rs_rejected := rej;
                rs_idempotent := false; rs_approvalPending := true |}, pr_db1).
Proof. eexists. vm_compute. reflexivity. Qed.

Lemma pr_step3 : snd <$> (match pr_apply "run2" "k2" pr_bad false pr_db2 with Ok r => Some r | _ => None end)
  = Some pr_db3.
Proof. vm_compute. reflexivity. Qed.

Lemma pr_evolves1 : evolves two_decimals nth_uuid pr_db0 pr_db1.
Proof.
  destruct pr_step1 as (rej & E). unfold pr_apply in E.
  eapply ev_apply_alone; [apply ev_refl|exact E].
Qed.

Lemma pr_evolves12 : evolves two_decimals nth_uuid pr_db1 pr_db2.
Proof.
  apply (ev_approve _ _ _ pr_db1 pr_now "acme" "run1" ("run1", true)); [apply ev_refl|].
  vm_compute. reflexivity.
Qed.

Lemma pr_evolves24 : evolves two_decimals nth_uuid pr_db2 pr_db4.
Proof.
  apply (ev_sweep _ _ _ pr_db3 (pr_now + 91 * day_ms) 90 ()); [|vm_compute; reflexivity].
  destruct (pr_apply "run2" "k2" pr_bad false pr_db2) as [[res db]|e] eqn:E; [|vm_compute in E; discriminate E].
  assert (db = pr_db3) as -> by (pose proof pr_step3 as E'; rewrite E in E'; by injection E').
  unfold pr_apply in E. eapply ev_apply_alone; [apply ev_refl|exact E].
Qed.

#[local] Instance evolves_trans (f : nat → F64 → Numeric) (g : nat → string) : Transitive (evolves f g).
Proof.
  intros x y z Hxy Hyz. revert x Hxy. induction Hyz; intros x Hxy; [done|..].
  - eapply ev_apply; [by apply IHHyz1|exact Hyz2|eassumption].
  - eapply ev_rollback; [by apply IHHyz1|exact Hyz2|eassumption].
  - eapply ev_approve; [by apply IHHyz|eassumption].
  - eapply ev_reject; [by apply IHHyz|eassumption].
  - eapply ev_sweep; [by apply IHHyz|eassumption].
  - eapply ev_worker; [by apply IHHyz|eassumption].
Qed.

Lemma pr_evolves2 : evolves two_decimals nth_uuid pr_db0 pr_db2.
Proof. etrans; [exact pr_evolves1|exact pr_evolves12]. Qed.

Lemma pr_evolves4 : evolves two_decimals nth_uuid pr_db0 pr_db4.
Proof. etrans; [exact pr_evolves2|exact pr_evolves24]. Qed.

Lemma pr_fresh : no_runs pr_db0.
Proof. by split_and!. Qed.

Lemma runs_dispatched_once_witness :
  evolves two_decimals nth_uuid pr_db0 pr_db2
  ∧ (∃ r, applyRuns pr_db2 !! "run1" = Some r ∧ ar_approvalStatus r = Some approval_approved
      ∧ dispatches "run1" pr_db2 = 1%nat ∧ Z.of_nat (length (items_of "run1" pr_db2)) = 2).
Proof.
  destruct (runs_dispatched_once _ _ _ _ pr_fresh pr_evolves2) as (Hr & _).
  split; [exact pr_evolves2|].
  destruct (applyRuns pr_db2 !! "run1") as [r|] eqn:E; [|vm_compute in E; discriminate E].
  exists r. destruct (Hr "run1" r E) as [Hd Hi]. split; [reflexivity|].
  assert (ar_approvalStatus r = Some approval_approved ∧ ar_total r = 2) as [Ea Et].
  { assert (Some (ar_approvalStatus r, ar_total r) = Some (Some approval_approved, 2)) as [= -> ->]; [|done].
    change (Some (ar_approvalStatus r, ar_total r)) with ((λ r, (ar_approvalStatus r, ar_total r)) <$> Some r).
    rewrite <- E. vm_compute. reflexivity. }
  rewrite Ea in Hd. rewrite Et in Hi. by rewrite Ea, Hd, Hi.
Defined.

Lemma approval_is_final_witness :
  ∃ r, applyRuns pr_db2 !! "run1" = Some r
    ∧ (∃ e, commit (reject "run1") pr_db4 = (Throw e, pr_db4)).
Proof.
  destruct (applyRuns pr_db2 !! "run1") as [r|] eqn:E; [|vm_compute in E; discriminate E].
  exists r. split; [reflexivity|].
  refine (proj2 (proj2 (approval_is_final two_decimals nth_uuid pr_db2 pr_db4 "run1" r _ E _))).
  - exact pr_evolves24.
  - assert (ar_approvalStatus <$> Some r = Some (Some approval_approved)) as [= ->]; [|discriminate].
    rewrite <- E. vm_compute. reflexivity.
Defined.

Lemma apply_idempotent_witness :
  pr_apply "run9" "k1" pr_bad false pr_db2
  = Ok (Some {| rs_applyRunId := "run1"; rs_accepted := 2; rs_rejected := []; rs_idempotent := true;
                rs_approvalPending := false |}, pr_db2).
Proof.
  destruct pr_step1 as (rej & E). unfold pr_apply in E.
  refine (apply_idempotent two_decimals nth_uuid pr_db0 pr_db0 (λ d, d) "run1" pr_now "acme" None "k1" ap_items true
    _ pr_db1 pr_db2 pr_fresh (ev_refl _ _ _) (ev_refl _ _ _) E _ _ (λ d, d) "run9" pr_now "acme" None pr_bad false).
  - exact pr_evolves12.
  - intros r Hr. assert (ar_deleted <$> Some r = Some false) as [= ->]; [|reflexivity].
    simpl in Hr. rewrite <- Hr. vm_compute. reflexivity.
Defined.

Lemma swept_key_answers_null_witness :
  ∃ r res db', applyRuns pr_db4 !! "run2" = Some r
    ∧ pr_apply "run9" (ar_idempotencyKey r) ap_items false pr_db4 = Ok (res, db') ∧ res = None ∧ db' = pr_db4.
Proof.
  destruct (applyRuns pr_db4 !! "run2") as [r|] eqn:E; [|vm_compute in E; discriminate E].
  assert (Some (ar_idempotencyKey r, ar_deleted r) = Some ("k2", true)) as [= Ek Ed].
  { change (Some (ar_idempotencyKey r, ar_deleted r)) with ((λ r, (ar_idempotencyKey r, ar_deleted r)) <$> Some r).
    rewrite <- E. vm_compute. reflexivity. }
  destruct (pr_apply "run9" (ar_idempotencyKey r) ap_items false pr_db4) as [[res db']|e] eqn:Ea;
    [|rewrite Ek in Ea; vm_compute in Ea; discriminate Ea].
  exists r, res, db'. split; [reflexivity|]. split; [exact Ea|]. unfold pr_apply in Ea.
  exact (swept_key_answers_null two_decimals nth_uuid _ _ _ _ _ _ _ _ _ _ _ _ pr_fresh pr_evolves4 E Ed Ea).
Defined.
