(* ===== verification/PricingSchedule.v ===== *)
(** Scheduled price applications ([tenant-api/pricing/
    pricing-schedule.service.ts] and [pricing-schedule.cron.ts]).

    A column of type timestamptz has microseconds, a JavaScript [Date] has
    milliseconds: [js_date] is what the driver returns for a column,
    [js_param] what it sends for a [Date].  The cron library is the pair of
    parameters [cron_valid] ([validateCronExpression]) and [next_occurrence]
    ([CronTime.sendAt] after a time, in ms); [parse_timestamptz] is
    PostgreSQL's reading of the text of [runAt].

    One round of the cron's loop runs two transactions: the claim with the
    apply, and, when that failed, the park.  A [Tick] says what the rest of
    the world does meanwhile: the clock, the rows other replicas hold, what
    commits between the statements and between the transactions, and
    infrastructure errors. *)

From Stdlib Require Import Ascii String.
From S2P Require Import Prelude JsText JsNumber JsDate Enums Messages World Outbox Classification SuggestionEngine PricingDb SuggestionRules Suggestions PricingApply.
Open Scope string_scope.
Open Scope list_scope.
Open Scope Z_scope.

Definition js_date (us : Z) : Z := us / 1000.
Definition js_param (ms : Z) : Z := ms * 1000.

Record CreateScheduleDto (N : Type) := {
  cs_runAt : string;
  cs_items : list (ScheduleItem N);
  cs_cronExpr : option string;
  cs_recalc : option bool;
}.
Arguments Build_CreateScheduleDto {N}.
Arguments cs_runAt {N}. Arguments cs_items {N}. Arguments cs_cronExpr {N}. Arguments cs_recalc {N}.

Record ScheduleView := {
  sv_id : string;
  sv_runAt : string;
  sv_status : ScheduleStatus;
  sv_applyRunId : option string;
  sv_itemCount : Z;
  sv_cronExpr : option string;
  sv_recalc : bool;
  sv_createdAt : string;
}.

(** The row [claimNext] returns; [ds_runAt] is a [Date]. *)
Record DueSchedule (N : Type) := {
  ds_id : string;
  ds_runAt : Z;
  ds_requestedBy : option string;
  ds_items : list (ScheduleItem N);
  ds_cronExpr : option string;
  ds_recalc : bool;
}.
Arguments Build_DueSchedule {N}.
Arguments ds_id {N}. Arguments ds_runAt {N}. Arguments ds_requestedBy {N}. Arguments ds_items {N}.
Arguments ds_cronExpr {N}. Arguments ds_recalc {N}.

Definition schedule_status_str (s : ScheduleStatus) : string :=
  match s with
  | sched_pending => "pending" | sched_fired => "fired"
  | sched_cancelled => "cancelled" | sched_failed => "failed"
  end.

Section Schedule.
Context {N : Type} `{JsNum N}.
Variable to_numeric : nat → N → Numeric.
Variable item_uuid : nat → string.
Variable cron_valid : string → bool.
Variable next_occurrence : string → Z → Res Z.
Variable parse_timestamptz : string → Res Z.
(** [localeCompare <= 0], as in [Suggestions]. *)
Variable db_le : string → string → bool.

(* ------------------------------------------------------------------ *)
(** * The service                                                       *)
(* ------------------------------------------------------------------ *)

Definition toView (id : string) (r : ScheduleRow N) : ScheduleView :=
  {| sv_id := id; sv_runAt := toISOString (js_date (sc_runAt r)); sv_status := sc_status r;
     sv_applyRunId := sc_applyRunId r; sv_itemCount := Z.of_nat (length (sc_items r));
     sv_cronExpr := sc_cronExpr r; sv_recalc := sc_recalc r;
     sv_createdAt := toISOString (js_date (sc_createdAt r)) |}.

Definition with_schedule (status : ScheduleStatus) (runAt : Z) (applyRunId : option string)
    (firedAt : option Z) (r : ScheduleRow N) : ScheduleRow N :=
  {| sc_runAt := runAt; sc_status := status; sc_requestedBy := sc_requestedBy r; sc_items := sc_items r;
     sc_applyRunId := applyRunId; sc_firedAt := firedAt; sc_cronExpr := sc_cronExpr r;
     sc_recalc := sc_recalc r; sc_createdAt := sc_createdAt r; sc_removed := sc_removed r |}.

Definition with_sched_status (st : ScheduleStatus) (r : ScheduleRow N) : ScheduleRow N :=
  with_schedule st (sc_runAt r) (sc_applyRunId r) (sc_firedAt r) r.

Definition create_schedule (id : string) (now : Z) (requestedBy : string) (dto : CreateScheduleDto N) :
    Tx N ScheduleView :=
  match truthy (cs_cronExpr dto) with
  | Some c => if cron_valid c then mret () else tx_throw (EBadRequest ("cron inválido: " +:+ c))
  | None => mret ()
  end;;
  runAt ← tx_lift (parse_timestamptz (cs_runAt dto));
  let row := {| sc_runAt := runAt; sc_status := sched_pending; sc_requestedBy := Some requestedBy;
                sc_items := cs_items dto; sc_applyRunId := None; sc_firedAt := None;
                sc_cronExpr := cs_cronExpr dto; sc_recalc := default false (cs_recalc dto);
                sc_createdAt := now; sc_removed := false |} in
  db ← tx_get;
  if decide (is_Some (schedules db !! id))
  then tx_throw (EError "duplicate key value violates unique constraint")
  else tx_modify (λ db, set_schedules (<[id := row]> (schedules db)) db);; mret (toView id row).

Definition list_schedules : Tx N (list ScheduleView) :=
  db ← tx_get;
  mret ((λ '(id, r), toView id r) <$>
          js_sort (λ a b : string * ScheduleRow N, sc_runAt b.2 <=? sc_runAt a.2)
            (filter (λ '(_, r), sc_removed r = false) (map_to_list (schedules db)))).

Definition get_schedule (id : string) : Tx N ScheduleView :=
  db ← tx_get;
  match schedules db !! id with
  | Some r => if sc_removed r then tx_throw (ENotFound ("schedule " +:+ id +:+ " not found")) else mret (toView id r)
  | None => tx_throw (ENotFound ("schedule " +:+ id +:+ " not found"))
  end.

(** [UPDATE ... SET status = 'cancelled' WHERE id AND status = 'pending'];
    when it affects nothing, the status decides the error. *)
Definition cancel_schedule (id : string) : Tx N (string * bool) :=
  db ← tx_get;
  match schedules db !! id with
  | Some r =>
      if decide (sc_status r = sched_pending)
      then tx_modify (λ db, set_schedules (<[id := with_sched_status sched_cancelled r]> (schedules db)) db);;
           mret (id, true)
      else current ← get_schedule id;
           tx_throw (EConflict ("schedule " +:+ id +:+ " is " +:+ schedule_status_str (sv_status current)
             +:+ " and cannot be cancelled"))
  | None => current ← get_schedule id; tx_throw (EConflict "")
  end.

Definition due (now : Z) (locked : list string) (id : string) (r : ScheduleRow N) : bool :=
  bool_decide (sc_status r = sched_pending) && negb (sc_removed r) && (sc_runAt r <=? now)
  && bool_decide (id ∉ locked).

Definition to_due (id : string) (r : ScheduleRow N) : DueSchedule N :=
  {| ds_id := id; ds_runAt := js_date (sc_runAt r); ds_requestedBy := sc_requestedBy r; ds_items := sc_items r;
     ds_cronExpr := sc_cronExpr r; ds_recalc := sc_recalc r |}.

(** [ORDER BY run_at ASC LIMIT 1 FOR UPDATE SKIP LOCKED] *)
Definition claimNext (now : Z) (locked : list string) : Tx N (option (DueSchedule N)) :=
  db ← tx_get;
  mret ('(id, r) ← head (js_sort (λ a b : string * ScheduleRow N, sc_runAt a.2 <=? sc_runAt b.2)
                     (filter (λ '(id, r), due now locked id r = true) (map_to_list (schedules db))));
        Some (to_due id r)).

Definition update_schedule (id : string) (f : ScheduleRow N → ScheduleRow N) : Tx N unit :=
  tx_modify (λ db, set_schedules (alter f id (schedules db)) db).

Definition markFired (now : Z) (id : string) (applyRunId : option string) : Tx N unit :=
  update_schedule id (λ r, with_schedule sched_fired (sc_runAt r) applyRunId (Some now) r).

Definition markFailed (id : string) (claimedRunAt : Z) : Tx N unit :=
  update_schedule id (λ r,
    if bool_decide (sc_status r = sched_pending) && (sc_runAt r =? js_param claimedRunAt)
    then with_sched_status sched_failed r else r).

Definition reArm (now : Z) (id cronExpr : string) (applyRunId : option string) : Tx N unit :=
  next ← tx_lift (next_occurrence cronExpr (js_date now));
  update_schedule id (λ r, with_schedule (sc_status r) (js_param next) applyRunId (Some now) r).

Abbreviation SuggestedPriceMap := (gmap string (SuggestionTarget * N)).

(* ------------------------------------------------------------------ *)
(** * Recalculation                                                     *)
(* ------------------------------------------------------------------ *)

Definition item_store_key (i : ScheduleItem N) : string := default "" (si_storeId i).

(** The scheduled EANs per store key, keys in order of first use. *)
Definition eansByKey (items : list (ScheduleItem N)) : list (string * list string) :=
  (λ key, (key, js_uniq (si_ean <$> filter (λ i, item_store_key i = key) items)))
    <$> js_uniq (item_store_key <$> items).

(** [UUID_RE]: hexadecimal digits but for the four hyphens. *)
Fixpoint uuid_chars (i : nat) (s : string) : bool :=
  match s with
  | EmptyString => Nat.eqb i 36
  | String c s' =>
      (if existsb (Nat.eqb i) [8; 13; 18; 23]%nat then Ascii.eqb c "-" else is_hex (to_lower c))
      && uuid_chars (S i) s'
  end.
Definition uuid_re (s : string) : bool := uuid_chars 0 s.

Definition activeStoreIds (c : Catalog N) (slug : string) (keys : list string) : list string :=
  omap (λ key,
    t ← ct_tenants c !! slug;
    st ← ct_stores c !! str_lower key;
    if String.eqb (ts_tenant_id st) t && ts_active st && negb (ts_deleted st) then Some (str_lower key) else None) keys.

Definition recalcMaps (c : Catalog N) (slug : string) (items : list (ScheduleItem N)) :
    Res (list (string * SuggestedPriceMap)) :=
  let groups := eansByKey items in
  let uuidKeys := filter (λ k, is_Some (truthy (Some k)) ∧ uuid_re k = true) groups.*1 in
  let activeIds := activeStoreIds c slug uuidKeys in
  foldr (λ '(key, eans) acc,
    if bool_decide (is_Some (truthy (Some key))) && negb (bool_decide (key ∈ activeIds)) then acc
    else m ← priceMap db_le c slug (truthy (Some key)) (Some eans); rest ← acc; Ok ((key, m) :: rest))
    (Ok []) groups.

(** The frozen prices replaced by fresh suggestions; an item without one is
    dropped. *)
Definition recalcItems (items : list (ScheduleItem N)) (maps : list (string * SuggestedPriceMap)) :
    list (ApplyItemDto N) :=
  omap (λ i,
    m ← js_map_get (item_store_key i) maps;
    '(target, price) ← (m : SuggestedPriceMap) !! si_ean i;
    Some {| si_ean := si_ean i; si_target := target; si_price := price;
            si_cadernoId := match truthy (si_storeId i) with Some _ => None | None => si_cadernoId i end;
            si_storeId := si_storeId i |}) items.

(* ------------------------------------------------------------------ *)
(** * The cron                                                          *)
(* ------------------------------------------------------------------ *)

Record Tick := {
  tk_now : Z;                                      (** [now()] of the claim, in microseconds *)
  tk_locked : list string;                         (** schedules other replicas hold *)
  tk_runId : string;                               (** the id of a new apply run *)
  tk_meanwhile : PricingDb N → PricingDb N;        (** commits seen during the apply *)
  tk_claim_error : option Exn;                     (** the first transaction breaks down *)
  tk_gap : PricingDb N → PricingDb N;              (** commits between the transactions *)
  tk_park_error : option Exn;                      (** the second one does *)
}.

Definition schedule_key (id : string) (runAt : Z) : string :=
  "sched:" +:+ id +:+ ":" +:+ toISOString runAt.

(** The [try] of the claim's transaction. *)
Definition fire_claimed (tk : Tick) (slug : string) (s : DueSchedule N) : Tx N unit :=
  db ← tx_get;
  items ← (if ds_recalc s
           then maps ← tx_lift (recalcMaps (catalog db) slug (ds_items s)); mret (recalcItems (ds_items s) maps)
           else mret (ds_items s));
  runId ← match items with
          | [] => mret None
          | _ =>
              res ← apply to_numeric item_uuid (tk_meanwhile tk) (tk_runId tk) (js_date (tk_now tk)) slug
                      (ds_requestedBy s) (schedule_key (ds_id s) (ds_runAt s)) items false;
              match res with
              | Some r => mret (Some (rs_applyRunId r))
              | None => tx_throw (EError "Cannot read properties of null")
              end
          end;
  match truthy (ds_cronExpr s) with
  | Some c => reArm (tk_now tk) (ds_id s) c runId
  | None => markFired (tk_now tk) (ds_id s) runId
  end.

(** The outcome of the first transaction of a round. *)
Inductive Fired :=
| FIdle
| FDone (id : string)
| FError (id : string) (claimedRunAt : Z) (err : Exn)
| FBroken (err : Exn).

Definition fire_tx (tk : Tick) (slug : string) (db : PricingDb N) : Fired * PricingDb N :=
  match tk_claim_error tk with
  | Some e => (FBroken e, db)
  | None =>
      match claimNext (tk_now tk) (tk_locked tk) db with
      | Throw e => (FBroken e, db)
      | Ok (None, db') => (FIdle, db')
      | Ok (Some s, db') =>
          match fire_claimed tk slug s db' with
          | Ok (_, db2) => (FDone (ds_id s), db2)
          | Throw e => (FError (ds_id s) (ds_runAt s) e, db)
          end
      end
  end.

(** What the loop does next. *)
Inductive Round := RNext | RReturn | RThrow (err : Exn).

Definition fire_round (tk : Tick) (slug : string) (db : PricingDb N) : Round * PricingDb N :=
  match fire_tx tk slug db with
  | (FIdle, db') => (RReturn, db')
  | (FDone _, db') => (RNext, db')
  | (FBroken e, db') => (RThrow e, db')
  | (FError id claimedRunAt _, db') =>
      let db1 := tk_gap tk db' in
      match tk_park_error tk with
      | Some _ => (RReturn, db1)
      | None => match commit (markFailed id claimedRunAt) db1 with
                | (Ok _, db2) => (RNext, db2)
                | (Throw _, db2) => (RReturn, db2)
                end
      end
  end.

(** [for (;;)]: [None] when the rounds of the fuel do not suffice. *)
Fixpoint fireForTenant (fuel : nat) (ticks : nat → Tick) (slug : string) (db : PricingDb N) :
    option (Res unit * PricingDb N) :=
  match fuel with
  | O => None
  | S fuel =>
      match fire_round (ticks 0%nat) slug db with
      | (RReturn, db') => Some (Ok (), db')
      | (RThrow e, db') => Some (Throw e, db')
      | (RNext, db') => fireForTenant fuel (λ k, ticks (S k)) slug db'
      end
  end.

Record CronTenant := { cn_slug : string; cn_schema : string; cn_modules : list string }.

Definition fires_for (t : CronTenant) : bool :=
  negb (String.eqb (cn_slug t) "system") && existsb (String.eqb "pricing-rules") (cn_modules t).

(** One tick over the active tenants, each with its schema's database; an
    error is logged and the next tenant follows. *)
Fixpoint fire_tenants (fuel : nat) (ticks : string → nat → Tick) (tenants : list CronTenant)
    (dbs : gmap string (PricingDb N)) : option (gmap string (PricingDb N)) :=
  match tenants with
  | [] => Some dbs
  | t :: rest =>
      if fires_for t then
        match dbs !! cn_schema t with
        | None => fire_tenants fuel ticks rest dbs
        | Some db =>
            '(_, db') ← fireForTenant fuel (ticks (cn_slug t)) (cn_slug t) db;
            fire_tenants fuel ticks rest (<[cn_schema t := db']> dbs)
        end
      else fire_tenants fuel ticks rest dbs
  end.

Definition fire (workerMode : bool) (fuel : nat) (ticks : string → nat → Tick) (tenants : list CronTenant)
    (dbs : gmap string (PricingDb N)) : option (gmap string (PricingDb N)) :=
  if workerMode then Some dbs else fire_tenants fuel ticks tenants dbs.

End Schedule.
