(* ===== verification/ScheduleLaws.v ===== *)
(** The schedule cron: a tick ends after at most one round per due schedule,
    provided run times are whole milliseconds; an occurrence has a key of
    its own, and firing it again finds the run it created.  A run time with
    a fraction of a millisecond is never parked: the claimed [Date] has lost
    the fraction, the guard of [markFailed] does not match, and the loop
    claims the same schedule forever. *)

From Stdlib Require Import Ascii String.
From S2P Require Import Prelude JsText JsNumber JsDate Enums Messages World Outbox Classification SuggestionEngine PricingDb SuggestionRules Suggestions PricingApply PricingApplyLaws PricingRuns PricingSchedule.
Open Scope string_scope.
Open Scope list_scope.
Open Scope Z_scope.

Section ScheduleLaws.
Context {N : Type} `{JsNum N}.
Variable to_numeric : nat → N → Numeric.
Variable item_uuid : nat → string.
Variable next_occurrence : string → Z → Res Z.
Variable db_le : string → string → bool.
Implicit Types (db : PricingDb N) (r : ScheduleRow N).

Abbreviation do_round := (fire_round to_numeric item_uuid next_occurrence db_le).
Abbreviation do_loop := (fireForTenant to_numeric item_uuid next_occurrence db_le).
Abbreviation do_claimed := (fire_claimed to_numeric item_uuid next_occurrence db_le).

(* ------------------------------------------------------------------ *)
(** * The apply leaves the schedules alone                              *)
(* ------------------------------------------------------------------ *)

Definition keeps {A} (m : Tx N A) : Prop := ∀ db a db', m db = Ok (a, db') → schedules db' = schedules db.

Lemma keeps_ret {A} (a : A) : keeps (mret a).
Proof. by intros db b db' [= <- <-]. Qed.
Lemma keeps_throw {A} x : keeps (tx_throw x : Tx N A).
Proof. by intros db b db'. Qed.
Lemma keeps_get : keeps tx_get.
Proof. by intros db b db' [= <- <-]. Qed.
Lemma keeps_lift {A} (x : Res A) : keeps (tx_lift x).
Proof. intros db b db'. unfold tx_lift. destruct x; [by intros [= <- <-]|done]. Qed.
Lemma keeps_modify f : (∀ db, schedules (f db) = schedules db) → keeps (tx_modify f).
Proof. intros Hf db b db' [= <- <-]. apply Hf. Qed.
Lemma keeps_bind {A B} (m : Tx N A) (f : A → Tx N B) : keeps m → (∀ a, keeps (f a)) → keeps (m ≫= f).
Proof. intros Hm Hf db b db' (a & db1 & E1 & E2)%tx_bind_Ok. by rewrite (Hf _ _ _ _ E2), (Hm _ _ _ E1). Qed.

Lemma keeps_find key : keeps (findByIdempotencyKey key).
Proof. apply keeps_bind; [apply keeps_get|]. intros d. apply keeps_ret. Qed.

Lemma keeps_insertItems runId acc : keeps (insertItems to_numeric item_uuid runId acc).
Proof.
  intros db a db' Hi. destruct (insertItems_spec to_numeric item_uuid runId acc db) as (rows & E & _).
  rewrite E in Hi. by injection Hi as <- <-.
Qed.

Lemma keeps_apply mw id now slug by_ key items ap :
  (∀ db, schedules (mw db) = schedules db) →
  keeps (apply to_numeric item_uuid mw id now slug by_ key items ap).
Proof.
  intros Hmw. apply keeps_bind; [apply keeps_find|]. intros [x|]; [apply keeps_ret|].
  apply keeps_bind; [apply keeps_get|]. intros d. apply keeps_bind; [apply keeps_lift|]. intros [acc rej].
  cbn zeta. case_match; [apply keeps_throw|].
  apply keeps_bind; [by apply keeps_modify|]. intros _. apply keeps_bind.
  { apply keeps_bind; [apply keeps_get|]. intros d2. case_match; [apply keeps_ret|]. case_match; [apply keeps_throw|].
    apply keeps_bind; [by apply keeps_modify|]. intros _. apply keeps_ret. }
  intros ins. case_match; [apply keeps_find|]. apply keeps_bind; [apply keeps_insertItems|]. intros _.
  destruct acc; [|destruct ap]; (apply keeps_bind; [|intros; apply keeps_ret]); by apply keeps_modify.
Qed.

(* ------------------------------------------------------------------ *)
(** * One round                                                         *)
(* ------------------------------------------------------------------ *)

(** The other transactions leave the tenant's schedules alone. *)
Definition quiet (tk : Tick (N := N)) : Prop :=
  (∀ db, schedules (tk_meanwhile tk db) = schedules db) ∧ (∀ db, schedules (tk_gap tk db) = schedules db).

Definition due_at (t : Z) r : Prop :=
  sc_status r = sched_pending ∧ sc_removed r = false ∧ sc_runAt r ≤ t.

#[local] Instance due_at_dec t r : Decision (due_at t r).
Proof. unfold due_at. apply _. Defined.

Definition whole_ms r : Prop := sc_status r = sched_pending → sc_runAt r mod 1000 = 0.

Lemma claimNext_spec now locked db o db' :
  claimNext now locked db = Ok (o, db') →
  db' = db ∧ match o with
             | Some s => ∃ r, schedules db !! ds_id s = Some r ∧ due_at now r ∧ s = to_due (ds_id s) r
             | None => ∀ id r, schedules db !! id = Some r → due_at now r → id ∈ locked
             end.
Proof.
  unfold claimNext. intros (d & d' & [= <- <-] & [= <- <-])%tx_bind_Ok. split; [done|].
  set (l := js_sort _ _). assert (∀ id r, (id, r) ∈ l ↔ schedules db !! id = Some r ∧ due now locked id r = true) as Hl.
  { intros id r. unfold l. rewrite js_sort_perm, list_elem_of_filter, elem_of_map_to_list. tauto. }
  assert (∀ id r, due now locked id r = true ↔ due_at now r ∧ id ∉ locked) as Hdue.
  { intros id r. unfold due, due_at. rewrite !andb_true_iff, !bool_decide_eq_true, negb_true_iff, Z.leb_le. tauto. }
  destruct l as [|[id r] l'] eqn:El; cbn.
  - intros id r Hr Hd. destruct (decide (id ∈ locked)) as [|Hni]; [done|].
    assert ((id, r) ∈ []) as Hin by (apply Hl; split; [done|by apply Hdue]). by apply elem_of_nil in Hin.
  - assert ((id, r) ∈ (id, r) :: l') as Hin by left. apply Hl in Hin as [Hr [Hd _]%Hdue]. by exists r.
Qed.

Lemma alter_lookup_insert {A} (f : A → A) (m : gmap string A) i x :
  m !! i = Some x → alter f i m = <[i := f x]> m.
Proof. intros Hx. rewrite <- (insert_id m i x) at 1 by done. by rewrite alter_insert_eq. Qed.

Lemma fire_claimed_spec tk slug s r db db' u :
  (∀ db, schedules (tk_meanwhile tk db) = schedules db) →
  do_claimed tk slug s db = Ok (u, db') → schedules db !! ds_id s = Some r → s = to_due (ds_id s) r →
  ∃ r', schedules db' = <[ds_id s := r']> (schedules db) ∧ sc_removed r' = sc_removed r ∧
    (sc_status r' = sched_fired ∧ sc_runAt r' = sc_runAt r
     ∨ ∃ c next, truthy (sc_cronExpr r) = Some c ∧ next_occurrence c (js_date (tk_now tk)) = Ok next
         ∧ sc_runAt r' = js_param next).
Proof.
  intros Hmw Hf Hr Hs. unfold fire_claimed in Hf.
  apply tx_bind_Ok in Hf as (d & db0 & [= <- <-] & Hf). apply tx_bind_Ok in Hf as (items & db1 & E1 & Hf).
  assert (schedules db1 = schedules db) as H1.
  { destruct (ds_recalc s); [|by injection E1 as <- <-].
    apply tx_bind_Ok in E1 as (m & db2 & E2 & [= <- <-]). by apply (keeps_lift _ _ _ _ E2). }
  apply tx_bind_Ok in Hf as (runId & db2 & E2 & Hf).
  assert (schedules db2 = schedules db) as H2.
  { rewrite <- H1. destruct items; [by injection E2 as <- <-|]. apply tx_bind_Ok in E2 as (res & db3 & E3 & E4).
    apply keeps_apply in E3; [|done]. rewrite <- E3. destruct res; [by injection E4 as <- <-|done]. }
  rewrite Hs in Hf. cbn [to_due ds_cronExpr ds_id] in Hf.
  destruct (truthy (sc_cronExpr r)) as [c|] eqn:Hc.
  - apply tx_bind_Ok in Hf as (next & db3 & E3 & [= <- <-]). unfold tx_lift in E3.
    destruct (next_occurrence c _) as [n|] eqn:Hn; [|done]. injection E3 as <- <-.
    eexists. cbn. rewrite H2, (alter_lookup_insert _ _ _ r) by done. split; [done|]. split; [done|].
    right. by exists c, n.
  - injection Hf as <- <-. eexists. cbn. rewrite H2, (alter_lookup_insert _ _ _ r) by done.
    split; [done|]. split; [done|]. by left.
Qed.

Lemma js_param_date us : us mod 1000 = 0 → js_param (js_date us) = us.
Proof. intros Hm. unfold js_param, js_date. pose proof (Z.div_mod us 1000). lia. Qed.

(** A round after which the loop goes on has taken one due schedule out of
    the due ones: fired, parked, or re-armed for a later time. *)
Lemma round_next tk slug db db' :
  quiet tk → map_Forall (λ _, whole_ms) (schedules db) →
  do_round tk slug db = (RNext, db') →
  ∃ id r r', schedules db !! id = Some r ∧ due_at (tk_now tk) r
    ∧ schedules db' = <[id := r']> (schedules db)
    ∧ (sc_status r' = sched_fired ∨ sc_status r' = sched_failed
       ∨ ∃ c next, next_occurrence c (js_date (tk_now tk)) = Ok next ∧ sc_runAt r' = js_param next).
Proof.
  intros [Hmw Hgap] Hms Hr. unfold fire_round, fire_tx in Hr.
  destruct (tk_claim_error tk); [done|].
  destruct (claimNext (tk_now tk) (tk_locked tk) db) as [[[s|] db1]|x] eqn:Ec; [|done..].
  apply claimNext_spec in Ec as (-> & r & Hs & Hdue & Heq).
  destruct (do_claimed tk slug s db) as [[u db2]|x] eqn:Ef.
  - injection Hr as <-. eapply fire_claimed_spec in Ef as (r' & Hsch & _ & Hr'); try done.
    exists (ds_id s), r, r'. split_and!; try done. destruct Hr' as [[? _]|(c & n & _ & ? & ?)]; [by left|].
    right; right. by exists c, n.
  - destruct (tk_park_error tk); [done|]. cbn in Hr. injection Hr as <-.
    exists (ds_id s), r, (with_sched_status sched_failed r). split_and!; [done|done| |by right; left].
    unfold schedules at 1. cbn. fold (schedules (tk_gap tk db)). rewrite Hgap.
    rewrite (alter_lookup_insert _ _ _ r) by done. rewrite Heq. cbn [to_due ds_runAt].
    destruct Hdue as (Hp & _ & _). rewrite (js_param_date (sc_runAt r)), Z.eqb_refl, bool_decide_true; [done|done|].
    exact (Hms _ _ Hs Hp).
Qed.

Definition due_count (t : Z) db : nat := size (filter (λ e, due_at t e.2) (schedules db)).

Lemma due_count_insert t db id r r' (m : gmap string (ScheduleRow N)) :
  m !! id = Some r → due_at t r → ¬ due_at t r' →
  (size (filter (λ e, due_at t e.2) (<[id := r']> m)) < size (filter (λ e, due_at t e.2) m))%nat.
Proof.
  intros Hr Hd Hn. rewrite map_filter_insert_False by done. rewrite map_filter_delete.
  rewrite map_size_delete_Some; [|eexists; apply map_lookup_filter_Some; by split].
  assert (size (filter (λ e : string * ScheduleRow N, due_at t e.2) m) ≠ 0)%nat; [|lia].
  intros H0%map_size_empty_inv. assert (filter (λ e : string * ScheduleRow N, due_at t e.2) m !! id = Some r) as Hc
    by (apply map_lookup_filter_Some; by split). by rewrite H0, lookup_empty in Hc.
Qed.

Lemma loop_ends t (ticks : nat → Tick (N := N)) slug db :
  (∀ k, quiet (ticks k)) → (∀ k, tk_now (ticks k) ≤ t) →
  (∀ c k n, next_occurrence c (js_date (tk_now (ticks k))) = Ok n → t < js_param n) →
  map_Forall (λ _, whole_ms) (schedules db) →
  ∃ res db', do_loop (S (due_count t db)) ticks slug db = Some (res, db').
Proof.
  remember (due_count t db) as n eqn:Hn. assert (due_count t db ≤ n)%nat as Hle by lia. clear Hn.
  revert ticks db Hle. induction n as [n IH] using lt_wf_ind. intros ticks db Hle Hq Hnow Hnext Hms.
  cbn [fireForTenant]. destruct (do_round (ticks 0%nat) slug db) as [rd db1] eqn:Er. destruct rd; [|by eauto..].
  apply round_next in Er as (id & r & r' & Hr & Hdue & Hsch & Hr'); [|done..].
  assert (due_at t r) as Hdt by (destruct Hdue as (? & ? & ?); specialize (Hnow 0%nat); repeat split; [done|done|lia]).
  assert (¬ due_at t r') as Hnd.
  { intros (Hp & _ & Hru). destruct Hr' as [?|[?|(c & nx & Hnx & Hru')]]; [congruence..|].
    specialize (Hnext c 0%nat nx Hnx). lia. }
  assert (due_count t db1 < due_count t db)%nat as Hlt.
  { unfold due_count. rewrite Hsch. by eapply due_count_insert. }
  destruct n as [|n]; [lia|].
  apply (IH n ltac:(lia) (λ k, ticks (S k)) db1); try done; [lia|..].
  - intros c k nx. apply (Hnext c (S k)).
  - rewrite Hsch. apply map_Forall_insert_2; [|done]. intros Hp.
    destruct Hr' as [?|[?|(c & nx & _ & ->)]]; [congruence..|]. unfold js_param. by rewrite Z.mod_mul.
Qed.

(** Nothing in a tick's way. *)
Definition calm (tk : Tick (N := N)) : Prop :=
  tk_locked tk = [] ∧ tk_claim_error tk = None ∧ tk_park_error tk = None.

Lemma round_return tk slug db rd db' :
  calm tk → do_round tk slug db = (rd, db') → rd ≠ RNext →
  rd = RReturn ∧ ∀ id r, schedules db' !! id = Some r → ¬ due_at (tk_now tk) r.
Proof.
  intros (Hl & Hc & Hp) Hr Hne. unfold fire_round, fire_tx in Hr. rewrite Hc, Hp in Hr.
  destruct (claimNext _ _ _) as [[[s|] db1]|x] eqn:Ec; [| |by cbn in Ec].
  - destruct (do_claimed tk slug s db1) as [[u db2]|x]; cbn in Hr; by injection Hr as <- <-.
  - injection Hr as <- <-. split; [done|]. apply claimNext_spec in Ec as [-> Hn]. rewrite Hl in Hn.
    intros id r Hr Hd. by eapply elem_of_nil, Hn.
Qed.

Lemma loop_serves t0 fuel (ticks : nat → Tick (N := N)) slug db res db' :
  (∀ k, calm (ticks k) ∧ t0 ≤ tk_now (ticks k)) →
  do_loop fuel ticks slug db = Some (res, db') →
  res = Ok () ∧ ∀ id r, schedules db' !! id = Some r → ¬ due_at t0 r.
Proof.
  revert ticks db. induction fuel as [|fuel IH]; intros ticks db Hc Hl; [done|]. cbn [fireForTenant] in Hl.
  destruct (do_round (ticks 0%nat) slug db) as [rd db1] eqn:Er. destruct (Hc 0%nat) as [Hc0 Ht0].
  destruct rd as [| |x].
  - eapply IH; [|exact Hl]. intros k. apply Hc.
  - injection Hl as <- <-. split; [done|]. apply (round_return _ _ _ _ _ Hc0) in Er as [_ Hn]; [|done].
    intros id r Hr (? & ? & ?). apply (Hn id r Hr). repeat split; [done|done|lia].
  - by apply (round_return _ _ _ _ _ Hc0) in Er as [? _].
Qed.

(** [C18] A tick of the cron ends: when the tenant's other transactions leave
    its schedules alone, the clock stays below [t], the cron library's next
    occurrences lie beyond [t], and run times are whole milliseconds, the
    loop runs at most one round per schedule due at [t] and one more.  When
    nothing is locked and no transaction breaks down, every schedule due at
    the beginning has then been served: whatever its apply did, it is fired,
    parked or re-armed. *)
Theorem schedule_tick_ends t0 t (ticks : nat → Tick (N := N)) slug db :
  (∀ k, quiet (ticks k)) → (∀ k, t0 ≤ tk_now (ticks k) ≤ t) →
  (∀ c k n, next_occurrence c (js_date (tk_now (ticks k))) = Ok n → t < js_param n) →
  map_Forall (λ _, whole_ms) (schedules db) →
  ∃ res db', do_loop (S (due_count t db)) ticks slug db = Some (res, db')
    ∧ ((∀ k, calm (ticks k)) → res = Ok () ∧ ∀ id r, schedules db' !! id = Some r → ¬ due_at t0 r).
Proof.
  intros Hq Hnow Hnext Hms.
  destruct (loop_ends t ticks slug db Hq (λ k, proj2 (Hnow k)) Hnext Hms) as (res & db' & E).
  exists res, db'. split; [done|]. intros Hc. eapply loop_serves; [|exact E]. intros k. split; [apply Hc|apply Hnow].
Qed.

(** A schedule whose run time has a fraction of a millisecond
    ([IsDateString] and timestamptz both allow it) and whose apply throws is
    never parked, and the tick never ends: the guard of [markFailed]
    compares the column with a [Date] that has lost the fraction, so every
    round claims the same schedule again. *)
Theorem schedule_fraction_never_parked tk slug db s r x :
  tk_claim_error tk = None → tk_park_error tk = None → tk_gap tk db = db →
  claimNext (tk_now tk) (tk_locked tk) db = Ok (Some s, db) →
  schedules db !! ds_id s = Some r → sc_runAt r mod 1000 ≠ 0 → ds_runAt s = js_date (sc_runAt r) →
  do_claimed tk slug s db = Throw x →
  ∀ fuel, do_loop fuel (λ _, tk) slug db = None.
Proof.
  intros Hc Hp Hg Ecl Hr Hms Hru Hx.
  assert (do_round tk slug db = (RNext, db)) as Hround.
  { unfold fire_round, fire_tx. rewrite Hc, Ecl, Hx, Hp, Hg. unfold commit. f_equal.
    assert (alter (λ r, if bool_decide (sc_status r = sched_pending) && (sc_runAt r =? js_param (ds_runAt s))
        then with_sched_status sched_failed r else r) (ds_id s) (schedules db) = schedules db) as Ha.
    { apply map_eq. intros k. destruct (decide (k = ds_id s)) as [->|Hne]; [|by rewrite lookup_alter_ne].
      rewrite lookup_alter_eq, Hr. cbn. f_equal. rewrite Hru. destruct (Z.eqb_spec (sc_runAt r) (js_param (js_date (sc_runAt r)))) as [Heq|].
      - exfalso. apply Hms. rewrite Heq. unfold js_param. by rewrite Z.mod_mul.
      - by rewrite andb_false_r. }
    unfold markFailed, update_schedule, tx_modify. rewrite Ha. by destruct db as [? ? []]. }
  intros fuel. induction fuel as [|fuel IH]; [done|]. cbn [fireForTenant]. by rewrite Hround.
Qed.

(** Ids are uuids: no colon. *)
Definition no_colon (s : string) : Prop := str_forall (λ c, negb (Ascii.eqb c ":")) s = true.

Lemma split_colon a b s s' :
  no_colon a → no_colon b → a +:+ ":" +:+ s = b +:+ ":" +:+ s' → a = b ∧ s = s'.
Proof.
  unfold no_colon. revert b. induction a as [|x a IH]; intros [|y b] Ha Hb He; cbn in *; simplify_eq; try done.
  apply andb_true_iff in Ha as [Ha1 Ha]. apply andb_true_iff in Hb as [Hb1 Hb].
  destruct (IH b Ha Hb) as [-> ->]; done.
Qed.

Lemma schedule_key_inj id id' t t' :
  no_colon id → no_colon id' → four_digit_year t → four_digit_year t' →
  schedule_key id t = schedule_key id' t' → id = id' ∧ t = t'.
Proof.
  unfold schedule_key. intros Hi Hi' Ht Ht' He.
  assert (id +:+ ":" +:+ toISOString t = id' +:+ ":" +:+ toISOString t') as He' by (by apply (inj (String.append "sched:")) in He).
  apply split_colon in He' as [-> He']; [|done..]. split; [done|]. by apply toISOString_inj.
Qed.

(** Every occurrence of a schedule has an idempotency key of its own,
    and firing an occurrence whose run exists (a schedule re-claimed after
    a commit whose acknowledgement was lost, another replica) creates
    nothing: it records that run on the schedule and touches no run, no
    item and no staged message. *)
Theorem schedule_occurrence_once tk slug db s runId run u db' :
  live_run_of_key (schedule_key (ds_id s) (ds_runAt s)) (applyRuns db) = Some (runId, run) →
  ds_recalc s = false → ds_items s ≠ [] →
  do_claimed tk slug s db = Ok (u, db') →
  (applyRuns db' = applyRuns db ∧ applyItems db' = applyItems db ∧ db_outbox db' = db_outbox db)
  ∧ (∀ r, schedules db !! ds_id s = Some r → ∃ r', schedules db' !! ds_id s = Some r' ∧ sc_applyRunId r' = Some runId)
  ∧ ∀ id' t', no_colon (ds_id s) → no_colon id' → four_digit_year (ds_runAt s) → four_digit_year t' →
      schedule_key (ds_id s) (ds_runAt s) = schedule_key id' t' → ds_id s = id' ∧ ds_runAt s = t'.
Proof.
  intros Hlive Hrec Hit Hf. unfold fire_claimed in Hf. rewrite Hrec in Hf.
  apply tx_bind_Ok in Hf as (d & db0 & [= <- <-] & Hf). apply tx_bind_Ok in Hf as (items & db1 & [= <- <-] & Hf).
  apply tx_bind_Ok in Hf as (rid & db2 & E2 & Hf).
  assert (rid = Some runId ∧ db2 = db) as [-> ->].
  { destruct (ds_items s) as [|i l]; [done|]. apply tx_bind_Ok in E2 as (res & db3 & E3 & E4).
    unfold apply in E3. apply tx_bind_Ok in E3 as (ex & db4 & Hfind & E3).
    rewrite findByIdempotencyKey_eq, Hlive in Hfind. injection Hfind as <- <-. injection E3 as <- <-.
    by injection E4 as <- <-. }
  assert (∀ f, (applyRuns (set_schedules f db) = applyRuns db ∧ applyItems (set_schedules f db) = applyItems db
    ∧ db_outbox (set_schedules f db) = db_outbox db)) as Hk by done.
  split; [|split; [|intros; by apply schedule_key_inj]].
  - destruct (truthy (ds_cronExpr s)); [|by injection Hf as <- <-].
    apply tx_bind_Ok in Hf as (nx & db3 & [_ ->]%tx_lift_Ok & [= <- <-]). apply Hk.
  - intros r Hr. destruct (truthy (ds_cronExpr s)).
    + apply tx_bind_Ok in Hf as (nx & db3 & [_ ->]%tx_lift_Ok & [= <- <-]). eexists. cbn.
      rewrite lookup_alter_eq, Hr. by split.
    + injection Hf as <- <-. eexists. cbn. rewrite lookup_alter_eq, Hr. by split.
Qed.

End ScheduleLaws.

(* ------------------------------------------------------------------ *)
(** * Concrete runs                                                     *)
(* ------------------------------------------------------------------ *)

(** A cron library whose next occurrence is an hour later. *)
Definition sl_next (c : string) (t : Z) : Res Z := Ok (t + 3600000).
Definition sl_le (a b : string) : bool := negb (str_ltb b a).
Definition sl_now : Z := js_param (pr_now + 60000).

Definition sl_tick : Tick (N := F64) :=
  {| tk_now := sl_now; tk_locked := []; tk_runId := "run1"; tk_meanwhile := λ d, d; tk_claim_error := None;
     tk_gap := λ d, d; tk_park_error := None |}.

Definition sl_row (runAt : Z) (items : list (ScheduleItem F64)) (cron : option string) : ScheduleRow F64 :=
  {| sc_runAt := runAt; sc_status := sched_pending; sc_requestedBy := None; sc_items := items;
     sc_applyRunId := None; sc_firedAt := None; sc_cronExpr := cron; sc_recalc := false;
     sc_createdAt := js_param pr_now; sc_removed := false |}.

(** Ten unknown products: the circuit breaker throws. *)
Definition sl_bad : list (ScheduleItem F64) :=
  (λ k, ap_item (ean_text (2000 + Z.of_nat k)) precoVenda 100 None) <$> seq 0 10.

Definition sl_db (rows : list (string * ScheduleRow F64)) : PricingDb F64 :=
  Build_Db ∅ [] (Build_PricingData ap_catalog ∅ [] (list_to_map rows)).

(** A good one-shot, a recurring one and one that trips the breaker. *)
Definition sl_three : PricingDb F64 :=
  sl_db [("sa", sl_row (js_param pr_now) ap_items None); ("sb", sl_row (js_param pr_now + 1000) ap_items (Some "0 * * * *"));
         ("sc", sl_row (js_param pr_now + 2000) sl_bad None)].

Lemma sl_three_whole : map_Forall (λ _, whole_ms) (schedules sl_three).
Proof.
  intros id r Hr _. unfold schedules, sl_three, sl_db in Hr. cbn [db_data pd_schedules] in Hr.
  apply elem_of_list_to_map_2 in Hr. rewrite !elem_of_cons, elem_of_nil in Hr.
  destruct Hr as [Hr|[Hr|[Hr|[]]]]; apply (f_equal snd) in Hr; cbn [snd] in Hr; subst r; reflexivity.
Qed.

Lemma schedule_tick_ends_witness :
  due_count sl_now sl_three = 3%nat
  ∧ ∃ db', fireForTenant two_decimals nth_uuid sl_next sl_le 4 (λ _, sl_tick) "acme" sl_three = Some (Ok (), db')
      ∧ ∀ id r, schedules db' !! id = Some r → ¬ due_at sl_now r.
Proof.
  assert (due_count sl_now sl_three = 3%nat) as Hc by (vm_compute; reflexivity). split; [exact Hc|].
  destruct (schedule_tick_ends two_decimals nth_uuid sl_next sl_le sl_now sl_now (λ _, sl_tick) "acme" sl_three)
    as (res & db' & E & Hs).
  - intros k. split; intros d; reflexivity.
  - intros k. cbn [tk_now sl_tick]. lia.
  - intros c k n Hn. injection Hn as <-. vm_compute. reflexivity.
  - exact sl_three_whole.
  - rewrite Hc in E. destruct Hs as [-> Hs]; [intros k; repeat split|]. exists db'. split; [exact E|exact Hs].
Defined.

Definition sl_fraction : PricingDb F64 := sl_db [("sa", sl_row (js_param pr_now + 123) sl_bad None)].

Lemma schedule_fraction_never_parked_witness :
  fireForTenant two_decimals nth_uuid sl_next sl_le 1000 (λ _, sl_tick) "acme" sl_fraction = None.
Proof.
  refine (schedule_fraction_never_parked two_decimals nth_uuid sl_next sl_le sl_tick "acme" sl_fraction
    (to_due "sa" (sl_row (js_param pr_now + 123) sl_bad None)) (sl_row (js_param pr_now + 123) sl_bad None)
    (EUnprocessable "Lote abortado") eq_refl eq_refl eq_refl _ _ _ eq_refl _ 1000%nat).
  - vm_compute. reflexivity.
  - vm_compute. reflexivity.
  - vm_compute. discriminate.
  - vm_compute. reflexivity.
Defined.

Definition sl_replay : PricingDb F64 :=
  Build_Db ∅ [] (Build_PricingData ap_catalog
    {["run1" := new_run (schedule_key "sa" pr_now) None 2 pr_now]} []
    {["sa" := sl_row (js_param pr_now) ap_items None]}).

Lemma schedule_occurrence_once_witness :
  ∃ db', fire_claimed two_decimals nth_uuid sl_next sl_le sl_tick "acme"
           (to_due "sa" (sl_row (js_param pr_now) ap_items None)) sl_replay = Ok ((), db')
    ∧ applyRuns db' = applyRuns sl_replay ∧ db_outbox db' = [].
Proof.
  destruct (fire_claimed two_decimals nth_uuid sl_next sl_le sl_tick "acme"
    (to_due "sa" (sl_row (js_param pr_now) ap_items None)) sl_replay) as [[[] db']|x] eqn:E;
    [|exfalso; vm_compute in E; discriminate E].
  exists db'. split; [reflexivity|].
  destruct (schedule_occurrence_once two_decimals nth_uuid sl_next sl_le sl_tick "acme" sl_replay
    (to_due "sa" (sl_row (js_param pr_now) ap_items None)) "run1"
    (new_run (schedule_key "sa" pr_now) None 2 pr_now) () db') as ((Hr & _ & Ho) & _ & _).
  - vm_compute. reflexivity.
  - reflexivity.
  - discriminate.
  - exact E.
  - split; [exact Hr|]. rewrite Ho. reflexivity.
Defined.
