(* ===== verification/Erp.v ===== *)
(** Transactions with an external effect.

    The apply worker and the price endpoints write to the ERP (A7Pharma)
    over HTTP inside a database transaction.  [ErpM A] is a computation over
    an environment [Env]: the database as the open transaction sees it, the
    writes the ERP has executed, and two oracles.  [e_fates] decides each
    HTTP call: done, refused, or executed with the answer lost (timeout).
    [e_sql] decides which SQL statements fail on the server; after a failed
    statement PostgreSQL refuses every further statement of the transaction
    ([e_aborted]).  An exception keeps the environment: whether the database
    part commits is decided by whoever opened the transaction, the writes to
    the ERP stay.

    [A7PharmaApiClient] ([integration/a7-pharma-api.client.ts]) and
    [IntegrationConnectionService.getApiCredentials] are modelled here. *)

From Stdlib Require Import Ascii String.
From S2P Require Import Prelude JsText JsNumber JsDate Enums Messages World Outbox Classification SuggestionEngine PricingDb.
Open Scope string_scope.
Open Scope list_scope.
Open Scope Z_scope.

(** A write the ERP executed. *)
Inductive ErpWrite (N : Type) :=
| ChangePrice (baseUrl : string) (idEmbalagem precoVendaNovo : N) (idUnidadeNegocioPreco : option Z)
| WriteOffer (baseUrl : string) (idCadernoOferta : Z) (idEmbalagem : N) (precoOferta : option N).
Arguments ChangePrice {N}.
Arguments WriteOffer {N}.

Inductive ErpFate := ErpDone | ErpRefused | ErpLost.

Record Env (N : Type) := {
  e_db : PricingDb N;
  e_erp : list (ErpWrite N);
  e_fates : list ErpFate;
  e_sql : list bool;
  e_aborted : bool;
}.
Arguments Build_Env {N}.
Arguments e_db {N}. Arguments e_erp {N}. Arguments e_fates {N}. Arguments e_sql {N}.
Arguments e_aborted {N}.

Section Erp.
Context {N : Type}.

Definition ErpM (A : Type) : Type := Env N → Res A * Env N.

#[export] Instance ErpM_ret : MRet ErpM := λ A a e, (Ok a, e).
#[export] Instance ErpM_bind : MBind ErpM := λ A B f m e,
  match m e with (Ok a, e') => f a e' | (Throw x, e') => (Throw x, e') end.

Definition ethrow {A} (x : Exn) : ErpM A := λ e, (Throw x, e).

(** [try { m } catch (err) { h(err) }] *)
Definition etry {A} (m : ErpM A) (h : Exn → ErpM A) : ErpM A := λ e,
  match m e with (Throw x, e') => h x e' | r => r end.

Definition elift {A} (r : Res A) : ErpM A := λ e, (r, e).

Definition tx_aborted : Exn :=
  EError "current transaction is aborted, commands ignored until end of transaction block".

(** One SQL statement. *)
Definition sql_stmt {A} (f : Tx N A) : ErpM A := λ e,
  if e_aborted e then (Throw tx_aborted, e)
  else match e_sql e with
  | true :: rest =>
      (Throw (EError "deadlock detected"), Build_Env (e_db e) (e_erp e) (e_fates e) rest true)
  | l =>
      match f (e_db e) with
      | Ok (a, db') => (Ok a, Build_Env db' (e_erp e) (e_fates e) (tail l) false)
      | Throw x => (Throw x, Build_Env (e_db e) (e_erp e) (e_fates e) (tail l) true)
      end
  end.

Definition sql_query {A} (f : PricingDb N → A) : ErpM A := sql_stmt (λ db, Ok (f db, db)).
Definition sql_update (f : PricingDb N → PricingDb N) : ErpM unit := sql_stmt (λ db, Ok ((), f db)).

(** [axios.post]: a write is executed, refused, or executed with a timeout. *)
Definition erp_post (w : ErpWrite N) : ErpM unit := λ e,
  match e_fates e with
  | ErpRefused :: rest =>
      (Throw (EError "Request failed"), Build_Env (e_db e) (e_erp e) rest (e_sql e) (e_aborted e))
  | ErpLost :: rest =>
      (Throw (EError "timeout of 30000ms exceeded"),
       Build_Env (e_db e) (e_erp e ++ [w]) rest (e_sql e) (e_aborted e))
  | l => (Ok (), Build_Env (e_db e) (e_erp e ++ [w]) (tail l) (e_sql e) (e_aborted e))
  end.

(** ** [A7PharmaApiClient] *)

Record Credentials := { c_baseUrl : string; c_apiKey : string }.

(** One item per call is all the code ever sends. *)
Definition changePrices (creds : Credentials) (idEmbalagem precoVendaNovo : N)
    (idUnidadeNegocioPreco : option Z) : ErpM unit :=
  erp_post (ChangePrice (c_baseUrl creds) idEmbalagem precoVendaNovo idUnidadeNegocioPreco).

Definition a7_upsertOffer (creds : Credentials) (idCadernoOferta : Z) (idEmbalagem : N)
    (precoOferta : option N) : ErpM unit :=
  erp_post (WriteOffer (c_baseUrl creds) idCadernoOferta idEmbalagem precoOferta).

(** ** [getApiCredentials] *)

(** [CryptoService.decrypt]; it reads on its own connection. *)
Variable decrypt : string → Res string.

Definition credentials_of (c : Catalog N) (slug : string) : Res (option Credentials) :=
  match ct_tenants c !! slug with
  | None => Ok None
  | Some t =>
      match ct_connections c !! t with
      | None => Ok None
      | Some row =>
          match truthy (cn_apiBaseUrl row), truthy (cn_apiKeyEncrypted row) with
          | Some url, Some key => k ← decrypt key; Ok (Some {| c_baseUrl := url; c_apiKey := k |})
          | _, _ => Ok None
          end
      end
  end.

Definition getApiCredentials (slug : string) : ErpM (option Credentials) := λ e,
  (credentials_of (catalog (e_db e)) slug, e).

End Erp.
Arguments ErpM : clear implicits.

(** ** Reasoning *)

Section ErpLemmas.
Context {N : Type}.
Implicit Types (e : Env N).

Lemma ebind_eq {A B} (m : ErpM N A) (f : A → ErpM N B) e :
  (m ≫= f) e = match m e with (Ok a, e') => f a e' | (Throw x, e') => (Throw x, e') end.
Proof. done. Qed.

(** No statement fails. *)
Definition healthy e : Prop := e_aborted e = false ∧ Forall (λ b, b = false) (e_sql e).

Lemma sql_stmt_healthy {A} (f : Tx N A) e a db' :
  healthy e → f (e_db e) = Ok (a, db') →
  ∃ l, sql_stmt f e = (Ok a, Build_Env db' (e_erp e) (e_fates e) l false) ∧ Forall (λ b, b = false) l.
Proof.
  intros [Ha Hs] Hf. unfold sql_stmt. rewrite Ha. destruct (e_sql e) as [|[] l]; inversion Hs; try done.
  - rewrite Hf. exists []. by split.
  - rewrite Hf. exists l. by split.
Qed.

(** A statement, whatever its fate. *)
Lemma sql_stmt_cases {A} (f : Tx N A) e r e' :
  sql_stmt f e = (r, e') →
  e_erp e' = e_erp e ∧ e_fates e' = e_fates e ∧
  match r with
  | Ok a => e_aborted e = false ∧ e_aborted e' = false ∧ f (e_db e) = Ok (a, e_db e')
  | Throw _ => e_db e' = e_db e ∧ e_aborted e' = true
  end.
Proof.
  unfold sql_stmt. destruct (e_aborted e) eqn:Ha; [by intros [= <- <-]|].
  destruct (e_sql e) as [|[] l]; [|by intros [= <- <-]|];
    destruct (f (e_db e)) as [[a db']|x] eqn:Hf; intros [= <- <-]; done.
Qed.

(** A post appends its write when it succeeds, and maybe when it fails. *)
Lemma erp_post_cases (w : ErpWrite N) e r e' :
  erp_post w e = (r, e') →
  e_db e' = e_db e ∧ e_sql e' = e_sql e ∧ e_aborted e' = e_aborted e ∧
  match r with
  | Ok _ => e_erp e' = e_erp e ++ [w]
  | Throw x => (e_erp e' = e_erp e ∨ e_erp e' = e_erp e ++ [w]) ∧ ∃ m, x = EError m
  end.
Proof.
  unfold erp_post. destruct (e_fates e) as [|[] l]; intros [= <- <-]; split_and!; eauto; split; eauto.
Qed.

(** ** Frames

    [reads m]: neither the database nor the ERP changes.  [safe m]: no
    statement of [m] fails by itself.  [db_only m]: nothing is written to
    the ERP. *)

Definition reads {A} (m : ErpM N A) : Prop :=
  ∀ e r e', m e = (r, e') → e_db e' = e_db e ∧ e_erp e' = e_erp e.
Definition safe {A} (m : ErpM N A) : Prop := ∀ e, healthy e → healthy (m e).2.
Definition db_only {A} (m : ErpM N A) : Prop := ∀ e r e', m e = (r, e') → e_erp e' = e_erp e.

Lemma reads_ret {A} (a : A) : reads (mret a).
Proof. by intros e r e' [= <- <-]. Qed.
Lemma reads_throw {A} x : reads (ethrow x : ErpM N A).
Proof. by intros e r e' [= <- <-]. Qed.
Lemma reads_bind {A B} (m : ErpM N A) (f : A → ErpM N B) :
  reads m → (∀ a, reads (f a)) → reads (m ≫= f).
Proof.
  intros Hm Hf e r e'. rewrite ebind_eq. destruct (m e) as [[a|x] e1] eqn:E.
  - intros Hr. destruct (Hm _ _ _ E) as [H1 H2], (Hf _ _ _ _ Hr) as [H3 H4]. split; congruence.
  - intros [= <- <-]. by apply (Hm _ _ _ E).
Qed.
Lemma reads_stmt {A} (f : Tx N A) :
  (∀ db a db', f db = Ok (a, db') → db' = db) → reads (sql_stmt f).
Proof.
  intros Hf e r e' Hs. apply sql_stmt_cases in Hs as (He & _ & Hr). split; [|done].
  destruct r; [destruct Hr as (_ & _ & Hr); by apply Hf in Hr|by destruct Hr].
Qed.
Lemma reads_query {A} (f : PricingDb N → A) : reads (sql_query f).
Proof. apply reads_stmt. by intros ? ? ? [= <- <-]. Qed.
Lemma reads_credentials decrypt slug : reads (getApiCredentials decrypt slug).
Proof. by intros e r e' [= <- <-]. Qed.

Lemma healthy_db e db erp fates :
  healthy e → healthy (Build_Env db erp fates (e_sql e) (e_aborted e)).
Proof. done. Qed.

Lemma safe_ret {A} (a : A) : safe (mret a).
Proof. by intros e. Qed.
Lemma safe_throw {A} x : safe (ethrow x : ErpM N A).
Proof. by intros e. Qed.
Lemma safe_bind {A B} (m : ErpM N A) (f : A → ErpM N B) :
  safe m → (∀ a, safe (f a)) → safe (m ≫= f).
Proof.
  intros Hm Hf e He. rewrite ebind_eq. specialize (Hm e He).
  destruct (m e) as [[a|x] e1]; [by apply Hf|done].
Qed.
Lemma safe_try {A} (m : ErpM N A) (h : Exn → ErpM N A) :
  safe m → (∀ x, safe (h x)) → safe (etry m h).
Proof.
  intros Hm Hf e He. unfold etry. specialize (Hm e He).
  destruct (m e) as [[a|x] e1]; [done|by apply Hf].
Qed.
Lemma safe_stmt {A} (f : Tx N A) : (∀ db, isOk (f db) = true) → safe (sql_stmt f).
Proof.
  intros Hf e He. destruct (f (e_db e)) as [[a db']|x] eqn:E.
  - destruct (sql_stmt_healthy f e a db' He E) as (l & -> & Hl). by split.
  - specialize (Hf (e_db e)). by rewrite E in Hf.
Qed.
Lemma safe_query {A} (f : PricingDb N → A) : safe (sql_query f).
Proof. by apply safe_stmt. Qed.
Lemma safe_update f : safe (sql_update f).
Proof. by apply safe_stmt. Qed.
Lemma safe_post (w : ErpWrite N) : safe (erp_post w).
Proof. intros e He. unfold erp_post. by destruct (e_fates e) as [|[] l]. Qed.
Lemma safe_credentials decrypt slug : safe (getApiCredentials decrypt slug).
Proof. by intros e. Qed.

(** The server's own errors are plain errors. *)
Lemma sql_stmt_throw {A} (f : Tx N A) e x e' :
  sql_stmt f e = (Throw x, e') → (∃ m, x = EError m) ∨ f (e_db e) = Throw x.
Proof.
  unfold sql_stmt. destruct (e_aborted e); [intros [= <- <-]; left; by eexists|].
  destruct (e_sql e) as [|[] l]; [|intros [= <- <-]; left; by eexists|];
    destruct (f (e_db e)) as [[]|]; intros [= <- <-]; by right.
Qed.

Lemma update_throw f e x e' : sql_update f e = (Throw x, e') → ∃ m, x = EError m.
Proof. by intros [?|?]%sql_stmt_throw. Qed.

Lemma update_Ok f e r e' :
  sql_update f e = (Ok r, e') → e_db e' = f (e_db e) ∧ e_erp e' = e_erp e.
Proof.
  intros Hs. apply sql_stmt_cases in Hs as (He & _ & _ & _ & Hr). by injection Hr.
Qed.

(** A statement or computation that threw left the database alone. *)
Lemma update_cases f e r e' :
  sql_update f e = (r, e') →
  e_erp e' = e_erp e ∧
  match r with
  | Ok _ => e_db e' = f (e_db e)
  | Throw x => e_db e' = e_db e ∧ e_aborted e' = true ∧ ∃ m, x = EError m
  end.
Proof.
  intros Hs. pose proof Hs as Hc. apply sql_stmt_cases in Hs as (He & _ & Hr). split; [done|].
  destruct r; [destruct Hr as (_ & _ & Hr); by injection Hr|].
  destruct Hr. split_and!; [done|done|]. by apply update_throw in Hc.
Qed.

Lemma query_cases {A} (f : PricingDb N → A) e r e' :
  sql_query f e = (r, e') →
  e_db e' = e_db e ∧ e_erp e' = e_erp e ∧ match r with Ok a => a = f (e_db e) | Throw _ => True end.
Proof.
  intros Hs. destruct (reads_query f _ _ _ Hs) as [Hd He]. split_and!; [done|done|].
  apply sql_stmt_cases in Hs as (_ & _ & Hr). destruct r; [|done].
  destruct Hr as (_ & _ & Hr). by injection Hr.
Qed.

End ErpLemmas.

Create HintDb erp.
#[export] Hint Resolve reads_ret reads_throw reads_bind reads_query reads_credentials
  safe_ret safe_throw safe_bind safe_try safe_query safe_update safe_post safe_credentials : erp.

(** Run the first computation of a bind in hypothesis [H]. *)
Ltac erp_bind H a e1 E :=
  rewrite ebind_eq in H;
  match type of H with
  | context [match ?m ?e with _ => _ end] => destruct (m e) as [[a|] e1] eqn:E
  end.
