(* ===== verification/CatalogMutation.v ===== *)
(** Price and offer write-back ([tenant-api/catalog/
    catalog-mutation.service.ts]): field edits of a product, the sell price
    and the offer pushed to the ERP and mirrored locally.

    [String(x)] into a numeric column is the parameter [to_numeric], the
    unrounded decimal of [$2::numeric] is [exact_numeric]; a value the column
    cannot hold is a failing statement of the [e_sql] oracle.
    [collate_le] is the collation of [ORDER BY name]. *)

From Stdlib Require Import Ascii String.
From S2P Require Import Prelude JsText JsNumber JsDate Enums Messages World Outbox Classification SuggestionEngine PricingDb SuggestionRules Suggestions PricingApply Erp.
Open Scope string_scope.
Open Scope list_scope.
Open Scope Z_scope.

(** [UpdateProductDto]: [None] is an absent field, [Some None] a JSON null. *)
Record UpdateProductDto (N : Type) := {
  up_name : option (option string);
  up_active : option (option bool);
  up_monitored : option (option bool);
  up_supplier : option (option string);
  up_cost : option (option N);
  up_averageUnitCost : option (option N);
  up_unitSalePrice : option (option N);
  up_classificationId : option (option string);
}.
Arguments Build_UpdateProductDto {N}.
Arguments up_name {N}. Arguments up_active {N}. Arguments up_monitored {N}. Arguments up_supplier {N}.
Arguments up_cost {N}. Arguments up_averageUnitCost {N}. Arguments up_unitSalePrice {N}.
Arguments up_classificationId {N}.

Record UpsertOfferDto (N : Type) := {
  uo_targetPrice : N;
  uo_cadernoId : Z;
  uo_description : option string;
  uo_storeId : option string;
}.
Arguments Build_UpsertOfferDto {N}.
Arguments uo_targetPrice {N}. Arguments uo_cadernoId {N}. Arguments uo_description {N}.
Arguments uo_storeId {N}.

Record PriceResult (N : Type) := { pr_price : N; pr_storeId : option string }.
Arguments Build_PriceResult {N}.
Arguments pr_price {N}. Arguments pr_storeId {N}.

Record OfferResult (N : Type) := {
  or_targetPrice : N; or_cadernoId : Z; or_storeId : option string; or_affectedStores : option (list string);
}.
Arguments Build_OfferResult {N}.
Arguments or_targetPrice {N}. Arguments or_cadernoId {N}. Arguments or_storeId {N}.
Arguments or_affectedStores {N}.

Section CatalogSetters.
Context {N : Type}.

Definition set_products (m : gmap Z ProductRow) (c : Catalog N) : Catalog N :=
  Build_Catalog (ct_tenants c) m (ct_productItems c) (ct_offerBook c) (ct_shared c)
    (ct_stores c) (ct_origins c) (ct_defaultCaderno c) (ct_roundingRanges c) (ct_roundingRules c)
    (ct_classifications c) (ct_rules c) (ct_clusters c) (ct_members c) (ct_campaigns c) (ct_connections c).
Definition set_productItems (m : gmap (string * string) ItemRow) (c : Catalog N) : Catalog N :=
  Build_Catalog (ct_tenants c) (ct_products c) m (ct_offerBook c) (ct_shared c)
    (ct_stores c) (ct_origins c) (ct_defaultCaderno c) (ct_roundingRanges c) (ct_roundingRules c)
    (ct_classifications c) (ct_rules c) (ct_clusters c) (ct_members c) (ct_campaigns c) (ct_connections c).
Definition set_offerBook (m : gmap Z OfferBookRow) (c : Catalog N) : Catalog N :=
  Build_Catalog (ct_tenants c) (ct_products c) (ct_productItems c) m (ct_shared c)
    (ct_stores c) (ct_origins c) (ct_defaultCaderno c) (ct_roundingRanges c) (ct_roundingRules c)
    (ct_classifications c) (ct_rules c) (ct_clusters c) (ct_members c) (ct_campaigns c) (ct_connections c).

Definition with_catalog (f : Catalog N → Catalog N) (db : PricingDb N) : PricingDb N :=
  set_catalog (f (catalog db)) db.

End CatalogSetters.

Section CatalogMutation.
Context {N : Type} `{JsNum N}.
Variable decrypt : string → Res string.
Variable to_numeric : nat → N → Numeric.
Variable exact_numeric : N → Numeric.
Variable collate_le : string → string → bool.

(* ------------------------------------------------------------------ *)
(** * Rows                                                              *)
(* ------------------------------------------------------------------ *)

Definition with_price (price : option Numeric) (p : ProductRow) : ProductRow :=
  {| p_id := p_id p; p_name := p_name p; p_supplier := p_supplier p; p_status := p_status p;
     p_active := p_active p; p_deleted := p_deleted p; p_price := price; p_cost := p_cost p;
     p_classificationId := p_classificationId p; p_monitored := p_monitored p;
     p_externalId := p_externalId p; p_averageUnitCost := p_averageUnitCost p;
     p_unitSalePrice := p_unitSalePrice p; p_margin := p_margin p |}.

Definition with_item_price (price : option Numeric) (i : ItemRow) : ItemRow :=
  {| pi_price := price; pi_cost := pi_cost i; pi_price_offer := pi_price_offer i;
     pi_offer_external_id := pi_offer_external_id i; pi_offer_description := pi_offer_description i |}.

Definition with_item_offer (offer : option Numeric) (i : ItemRow) : ItemRow :=
  {| pi_price := pi_price i; pi_cost := pi_cost i; pi_price_offer := offer;
     pi_offer_external_id := pi_offer_external_id i; pi_offer_description := pi_offer_description i |}.

Definition empty_item : ItemRow :=
  {| pi_price := None; pi_cost := None; pi_price_offer := None; pi_offer_external_id := None;
     pi_offer_description := None |}.

(** [repo.findOne({ where: { ean } })]: live rows only. *)
Definition find_product (ean : string) : ErpM N (option (Z * ProductRow)) :=
  sql_stmt (λ db, z ← ean_cast ean;
    Ok (match ct_products (catalog db) !! z with
        | Some p => if p_deleted p then None else Some (z, p)
        | None => None end, db)).

Definition resolve_tenant (slug : string) : ErpM N string :=
  t ← sql_query (λ db, ct_tenants (catalog db) !! slug);
  match t with
  | Some id => mret id
  | None => ethrow (ENotFound ("tenant " +:+ slug +:+ " not found"))
  end.

(** [findOne({ where: { id, tenantId } })] *)
Definition find_store (id tenantId : string) : ErpM N (option StoreRow) :=
  sql_query (λ db, match ct_stores (catalog db) !! id with
                   | Some st => if String.eqb (ts_tenant_id st) tenantId && negb (ts_deleted st)
                                then Some st else None
                   | None => None end).

(** The store a write is scoped to. *)
Definition active_store (slug id : string) : ErpM N StoreRow :=
  tenantId ← resolve_tenant slug;
  st ← find_store id tenantId;
  match st with
  | None => ethrow (ENotFound ("store " +:+ id +:+ " not found"))
  | Some st => if ts_active st then mret st
               else ethrow (EConflict ("store " +:+ id +:+ " is inactive"))
  end.

Definition credentials (slug : string) : ErpM N Credentials :=
  creds ← getApiCredentials decrypt slug;
  match creds with
  | Some c => mret c
  | None => ethrow (EConflict "A7Pharma API not configured for this tenant")
  end.

Definition pushToErp (op : ErpM N unit) : ErpM N unit :=
  etry op (λ _, ethrow (EError "ERP write failed")).

(** [repo.update({ ean }, ...)]: also a soft-deleted row; the rows affected. *)
Definition update_product (ean : string) (f : ProductRow → ProductRow) : ErpM N Z :=
  sql_stmt (λ db, z ← ean_cast ean;
    match ct_products (catalog db) !! z with
    | Some p => Ok (1, with_catalog (λ c, set_products (<[z := f p]> (ct_products c)) c) db)
    | None => Ok (0, db)
    end).

(* ------------------------------------------------------------------ *)
(** * Operations                                                        *)
(* ------------------------------------------------------------------ *)

Definition patch_null {A} (field : option (option A)) (old : option A) : option A := default old field.

Definition patch_numeric (scale : nat) (field : option (option N)) (old : option Numeric) : option Numeric :=
  match field with Some v => to_numeric scale <$> v | None => old end.

(** A null in a NOT NULL column and an unknown classification are rejected
    by the database. *)
Definition patch_not_null (column : string) (field : option (option bool)) (old : bool) : Res bool :=
  match field with
  | Some None => Throw (EError ("null value in column " +:+ column))
  | Some (Some b) => Ok b
  | None => Ok old
  end.

Definition patch_classification (c : Catalog N) (field : option (option string)) (old : option string) :
    Res (option string) :=
  match field with
  | Some (Some id) =>
      if bool_decide (id ∈ ((λ e, cr_id (ce_row e)) <$> ct_classifications c)) then Ok (Some id)
      else Throw (EError "violates foreign key constraint")
  | Some None => Ok None
  | None => Ok old
  end.

Definition patch_product (dto : UpdateProductDto N) (c : Catalog N) (p : ProductRow) : Res ProductRow :=
  active ← patch_not_null "active" (up_active dto) (p_active p);
  monitored ← patch_not_null "monitored" (up_monitored dto) (p_monitored p);
  classification ← patch_classification c (up_classificationId dto) (p_classificationId p);
  Ok {| p_id := p_id p; p_name := patch_null (up_name dto) (p_name p);
        p_supplier := patch_null (up_supplier dto) (p_supplier p); p_status := p_status p;
        p_active := active; p_deleted := p_deleted p; p_price := p_price p;
        p_cost := patch_numeric 4 (up_cost dto) (p_cost p);
        p_classificationId := classification; p_monitored := monitored; p_externalId := p_externalId p;
        p_averageUnitCost := patch_numeric 4 (up_averageUnitCost dto) (p_averageUnitCost p);
        p_unitSalePrice := patch_numeric 2 (up_unitSalePrice dto) (p_unitSalePrice p);
        p_margin := p_margin p |}.

Definition patch_empty (dto : UpdateProductDto N) : bool :=
  match dto with
  | Build_UpdateProductDto None None None None None None None None => true
  | _ => false
  end.

Definition updateProduct (ean : string) (dto : UpdateProductDto N) : ErpM N (string * Z) :=
  if patch_empty dto then ethrow (EBadRequest "no editable fields provided")
  else
    affected ← sql_stmt (λ db, z ← ean_cast ean;
      match ct_products (catalog db) !! z with
      | Some p => p' ← patch_product dto (catalog db) p;
                  Ok (1, with_catalog (λ c, set_products (<[z := p']> (ct_products c)) c) db)
      | None => Ok (0, db)
      end);
    if affected =? 0 then ethrow (ENotFound ("product " +:+ ean +:+ " not found"))
    else mret (ean, affected).

Definition softDelete (ean : string) : ErpM N (string * bool) :=
  affected ← update_product ean (λ p,
    {| p_id := p_id p; p_name := p_name p; p_supplier := p_supplier p; p_status := p_status p;
       p_active := false; p_deleted := p_deleted p; p_price := p_price p; p_cost := p_cost p;
       p_classificationId := p_classificationId p; p_monitored := p_monitored p;
       p_externalId := p_externalId p; p_averageUnitCost := p_averageUnitCost p;
       p_unitSalePrice := p_unitSalePrice p; p_margin := p_margin p |});
  if affected =? 0 then ethrow (ENotFound ("product " +:+ ean +:+ " not found")) else mret (ean, true).

(** [upsert({ productId, storeId, price }, ['productId', 'storeId'])] *)
Definition upsert_item_price (productId storeId : string) (price : Numeric) : ErpM N unit :=
  sql_update (with_catalog (λ c,
    set_productItems
      (<[(productId, storeId) := with_item_price (Some price)
           (default empty_item (ct_productItems c !! (productId, storeId)))]> (ct_productItems c)) c)).

Definition updatePrice (slug ean : string) (newPrice : N) (storeId : option string) : ErpM N (PriceResult N) :=
  product ← find_product ean;
  match product with
  | None => ethrow (ENotFound ("product " +:+ ean +:+ " not found"))
  | Some (z, p) =>
      if p_monitored p then ethrow (EConflict "product is monitored; price is locked")
      else match truthy (p_externalId p) with
      | None => ethrow (EConflict "product has no ERP external_id")
      | Some ext =>
          store ← match truthy storeId with
                  | Some s => st ← active_store slug s; mret (Some (s, st))
                  | None => mret None
                  end;
          creds ← credentials slug;
          pushToErp (changePrices creds (js_Number ext) newPrice (ts_external_id ∘ snd <$> store));;
          match store with
          | Some (s, _) => upsert_item_price (p_id p) s (to_numeric 2 newPrice)
          | None => _ ← update_product ean (with_price (Some (to_numeric 2 newPrice))); mret ()
          end;;
          mret {| pr_price := newPrice; pr_storeId := storeId |}
      end
  end.

(** The store rows of a product: store, caderno and name, by name. *)
Definition store_cadernos (z : Z) (tenantId : string) (c : Catalog N) : list (string * option Z * string) :=
  js_sort (λ a b : string * option Z * string, collate_le a.2 b.2)
    (match ct_products c !! z with
     | None => []
     | Some p => omap (λ '((pid, sid), i),
         st ← ct_stores c !! sid;
         if String.eqb pid (p_id p) && String.eqb (ts_tenant_id st) tenantId && ts_active st && negb (ts_deleted st)
         then Some (sid, pi_offer_external_id i, ts_name st) else None) (map_to_list (ct_productItems c))
     end).

(** The caderno a store-scoped offer goes to, and the stores it covers. *)
Definition resolve_caderno (slug ean storeId : string) : ErpM N (Z * list string) :=
  tenantId ← resolve_tenant slug;
  st ← find_store storeId tenantId;
  match st with
  | None => ethrow (ENotFound ("store " +:+ storeId +:+ " not found"))
  | Some st =>
      if negb (ts_active st) then ethrow (EConflict ("store " +:+ storeId +:+ " is inactive"))
      else
        rows ← sql_stmt (λ db, z ← ean_cast ean; Ok (store_cadernos z tenantId (catalog db), db));
        cadernoId ← match '(_, r) ← list_find (λ r : string * option Z * string, r.1.1 = storeId) rows; r.1.2 with
                    | Some k => mret k
                    | None =>
                        def ← sql_query (λ db, mjoin (ct_defaultCaderno (catalog db) !! tenantId));
                        match def with
                        | Some k => mret k
                        | None => ethrow (EConflict ("store " +:+ storeId +:+ " has no offer caderno for product "
                                    +:+ ean +:+ " and no default caderno configured"))
                        end
                    end;
        mret (cadernoId, (λ r : string * option Z * string, r.2) <$> filter (λ r, r.1.2 = Some cadernoId) rows)
  end.

(** [CASE WHEN target <= COALESCE(pi.price, p.price) THEN target ELSE NULL] *)
Definition mirrored_offer (target : N) (p : ProductRow) (i : ItemRow) : option Numeric :=
  match COALESCE (pi_price i) (p_price p) with
  | Some shelf => if numeric_le (exact_numeric target) shelf then Some (to_numeric 2 target) else None
  | None => None
  end.

(** The product items whose winning caderno is [caderno], set to [f]. *)
Definition mirror_items (z caderno : Z) (f : ProductRow → ItemRow → option Numeric) (c : Catalog N) : Catalog N :=
  match ct_products c !! z with
  | None => c
  | Some p =>
      set_productItems (map_imap (λ k i,
        Some (if String.eqb k.1 (p_id p) && bool_decide (pi_offer_external_id i = Some caderno)
              then with_item_offer (f p i) i else i)) (ct_productItems c)) c
  end.

Definition upsert_offer_row (z : Z) (target : Numeric) (caderno : Z) (description : option string)
    (c : Catalog N) : Catalog N :=
  let old := ct_offerBook c !! z in
  set_offerBook (<[z := {| of_description := match description with
                                              | Some d => Some d | None => old ≫= of_description end;
                           of_target_price := Some target; of_external_id := Some caderno |}]> (ct_offerBook c)) c.

Definition upsertOffer (slug ean : string) (dto : UpsertOfferDto N) (storeScoped : bool) : ErpM N (OfferResult N) :=
  product ← find_product ean;
  match product with
  | None => ethrow (ENotFound ("product " +:+ ean +:+ " not found"))
  | Some (z, p) =>
      match truthy (p_externalId p) with
      | None => ethrow (EConflict "product has no ERP external_id")
      | Some ext =>
          '(cadernoId, scoped, affected) ←
            match truthy (uo_storeId dto) with
            | Some s => '(k, names) ← resolve_caderno slug ean s; mret (k, true, Some names)
            | None => mret (uo_cadernoId dto, storeScoped, None)
            end;
          creds ← credentials slug;
          pushToErp (a7_upsertOffer creds cadernoId (js_Number ext) (Some (uo_targetPrice dto)));;
          (if scoped : bool then mret ()
           else sql_update (with_catalog
                  (upsert_offer_row z (to_numeric 2 (uo_targetPrice dto)) cadernoId (uo_description dto))));;
          sql_update (with_catalog (mirror_items z cadernoId (mirrored_offer (uo_targetPrice dto))));;
          mret {| or_targetPrice := uo_targetPrice dto; or_cadernoId := cadernoId;
                  or_storeId := truthy (uo_storeId dto); or_affectedStores := affected |}
      end
  end.

Definition removeOffer (slug ean : string) : ErpM N (string * bool) :=
  offer ← sql_stmt (λ db, z ← ean_cast ean; Ok ((z,.) <$> ct_offerBook (catalog db) !! z, db));
  match offer with
  | None => ethrow (ENotFound ("offer for " +:+ ean +:+ " not found"))
  | Some (z, o) =>
      product ← find_product ean;
      match '(_, p) ← product; truthy (p_externalId p) with
      | None => ethrow (EConflict "product has no ERP external_id")
      | Some ext =>
          match of_external_id o with
          | None => ethrow (EConflict "offer has no caderno id")
          | Some k =>
              creds ← credentials slug;
              pushToErp (a7_upsertOffer creds k (js_Number ext) None);;
              sql_update (with_catalog (λ c, set_offerBook (delete z (ct_offerBook c)) c));;
              sql_update (with_catalog (mirror_items z k (λ _ _, None)));;
              mret (ean, true)
          end
      end
  end.

End CatalogMutation.
