(* ===== verification/ApplyPrice.v ===== *)
(** The price step of the pipeline ([pipeline/steps/apply-price.step.ts]) and
    the bodies of its dispatcher and batch consumer
    ([consumers/apply-price.{dispatch,batch}.consumer.ts]).

    The step calls [CatalogMutationService] through the class [PriceWriter];
    [PriceWriterLaws] is what it relies on: a call leaves the runs and the
    items alone, writes to the ERP at most once, exactly once when it
    returns, and not at all when it reports a conflict or a missing row.
    [catalog_writer] is the implementation of [CatalogMutation].

    [num_text] is the text of a number in a template literal; [now] is
    [now()], the time the transaction started. *)

From Stdlib Require Import Ascii String.
From S2P Require Import Prelude JsText JsNumber JsDate Enums Messages World Outbox Classification SuggestionEngine PricingDb SuggestionRules Suggestions PricingApply Erp CatalogMutation.
Open Scope string_scope.
Open Scope list_scope.
Open Scope Z_scope.

(* ------------------------------------------------------------------ *)
(** * The interface to the catalogue                                    *)
(* ------------------------------------------------------------------ *)

Class PriceWriter (N : Type) := {
  pw_updatePrice : string → string → N → option string → ErpM N (PriceResult N);
  pw_upsertOffer : string → string → UpsertOfferDto N → bool → ErpM N (OfferResult N);
}.

(** The two errors the step takes for permanent. *)
Definition permanent (x : Exn) : bool :=
  match x with EConflict _ | ENotFound _ => true | _ => false end.

(** What a call that pushes a write matching [W] may do; [ok] is what its
    result says. *)
Definition push_outcome {N A} (W : ErpWrite N → Prop) (ok : A → Prop) (e : Env N) (r : Res A) (e' : Env N) : Prop :=
  (∃ c, e_db e' = set_catalog c (e_db e)) ∧
  ∃ ws, e_erp e' = e_erp e ++ ws ∧
  match r with
  | Ok a => (∃ w, ws = [w] ∧ W w) ∧ ok a
  | Throw x => (ws = [] ∨ ∃ w, ws = [w] ∧ W w) ∧ (permanent x = true → ws = [])
  end.

Definition is_price_write {N} (price : N) (w : ErpWrite N) : Prop :=
  ∃ url emb store, w = ChangePrice url emb price store.
Definition is_offer_write {N} (caderno : Z) (price : N) (w : ErpWrite N) : Prop :=
  ∃ url emb, w = WriteOffer url caderno emb (Some price).

Class PriceWriterLaws (N : Type) `{PriceWriter N} := {
  pw_updatePrice_outcome slug ean price store e r e' :
    pw_updatePrice slug ean price store e = (r, e') →
    push_outcome (is_price_write price) (λ pr, pr_price pr = price) e r e';
  pw_upsertOffer_outcome slug ean dto scoped e r e' :
    uo_storeId dto = None → pw_upsertOffer slug ean dto scoped e = (r, e') →
    push_outcome (is_offer_write (uo_cadernoId dto) (uo_targetPrice dto))
      (λ o, or_targetPrice o = uo_targetPrice dto ∧ or_cadernoId o = uo_cadernoId dto) e r e';
  pw_updatePrice_healthy slug ean price store e z :
    ean_cast ean = Ok z → healthy e → healthy (pw_updatePrice slug ean price store e).2;
  pw_upsertOffer_healthy slug ean dto scoped e z :
    ean_cast ean = Ok z → uo_storeId dto = None → healthy e →
    healthy (pw_upsertOffer slug ean dto scoped e).2;
}.

(* ------------------------------------------------------------------ *)
(** * The step                                                          *)
(* ------------------------------------------------------------------ *)

Section ApplyPrice.
Context {N : Type} `{JsNum N} `{PriceWriter N}.
Variable num_text : N → string.
Variable collate_le : string → string → bool.

Definition pending_of (runId : string) (seq : Z) (i : ApplyItem) : bool :=
  bool_decide (ai_applyRunId i = runId ∧ ai_batchSeq i = Some seq ∧ ai_status i = item_pending).

Definition campaign_active (now : Z) (c : CampaignRow) : bool :=
  cp_active c
  && match cp_startDate c with None => true | Some t => t <=? now end
  && match cp_expirationDate c with None => true | Some t => now <? t end.

Definition caderno_in_campaign (now : Z) (c : Catalog N) (k : Z) : bool :=
  match ct_campaigns c !! k with Some cp => campaign_active now cp | None => false end.

Definition activeCampaignEans (now : Z) (eans : list string) : ErpM N (gset string) :=
  match eans with
  | [] => mret ∅
  | _ => sql_stmt (λ db,
      zs ← ean_casts eans;
      Ok (list_to_set (omap (λ z, ob ← ct_offerBook (catalog db) !! z; k ← of_external_id ob;
            if caderno_in_campaign now (catalog db) k then Some (ean_text z) else None) zs), db))
  end.

Definition store_key (ean store : string) : string := ean +:+ "|" +:+ store.

(** The winning caderno per [ean|storeId]; an absent key is a store without
    a row. *)
Definition storeCadernos (storeItems : list (string * string)) : ErpM N (gmap string (option Z)) :=
  match storeItems with
  | [] => mret ∅
  | _ => sql_stmt (λ db,
      zs ← ean_casts (js_uniq storeItems.*1);
      Ok (list_to_map (
        z ← zs; s ← js_uniq storeItems.*2;
        option_list (p ← ct_products (catalog db) !! z;
                     pi ← ct_productItems (catalog db) !! (p_id p, s);
                     Some (store_key (ean_text z) s, pi_offer_external_id pi))), db))
  end.

Definition activeCampaignCadernos (now : Z) (cadernos : list Z) : ErpM N (gset Z) :=
  match cadernos with
  | [] => mret ∅
  | _ => sql_query (λ db,
      list_to_set (filter (λ k, caderno_in_campaign now (catalog db) k = true) cadernos))
  end.

Definition emCampanha (item : ApplyItem) (inCampaign : gset string)
    (storeCadernos : gmap string (option Z)) (campaignCadernos : gset Z) : bool :=
  match truthy (ai_storeId item) with
  | None => bool_decide (ai_ean item ∈ inCampaign)
  | Some s =>
      match storeCadernos !! store_key (ai_ean item) s with
      | None => bool_decide (ai_ean item ∈ inCampaign)
      | Some None => false
      | Some (Some k) => bool_decide (k ∈ campaignCadernos)
      end
  end.

Definition item_marked (now : Z) (status : ApplyItemStatus) (reason erpResult : option string) (i : ApplyItem) : ApplyItem :=
  let i' := with_item_status status reason erpResult i in
  {| ai_id := ai_id i'; ai_applyRunId := ai_applyRunId i'; ai_batchSeq := ai_batchSeq i';
     ai_ean := ai_ean i'; ai_target := ai_target i'; ai_storeId := ai_storeId i'; ai_price := ai_price i';
     ai_cadernoId := ai_cadernoId i'; ai_priceOldSell := ai_priceOldSell i';
     ai_priceOldOffer := ai_priceOldOffer i'; ai_ruleId := ai_ruleId i'; ai_basis := ai_basis i';
     ai_costAtApply := ai_costAtApply i'; ai_status := ai_status i'; ai_reason := ai_reason i';
     ai_erpResult := ai_erpResult i';
     ai_appliedAt := if bool_decide (status = item_applied) then Some now else ai_appliedAt i |}.

Definition mark (now : Z) (id : string) (status : ApplyItemStatus) (reason erpResult : option string) : ErpM N unit :=
  sql_update (λ db, set_applyItems
    ((λ i, if String.eqb (ai_id i) id then item_marked now status reason erpResult i else i) <$> applyItems db) db).

(** The stores of the tenant whose winning caderno for the product is the
    one written. *)
Definition stores_in_caderno (slug : string) (z : Z) (caderno : option Z) (c : Catalog N) : list string :=
  js_sort collate_le
    (match ct_products c !! z, caderno, ct_tenants c !! slug with
     | Some p, Some k, Some t => omap (λ '((pid, sid), i),
         st ← ct_stores c !! sid;
         if String.eqb pid (p_id p) && bool_decide (pi_offer_external_id i = Some k) && String.eqb (ts_tenant_id st) t
         then Some (ts_name st) else None) (map_to_list (ct_productItems c))
     | _, _, _ => []
     end).

Definition storesInCaderno (slug ean : string) (caderno : option Z) : ErpM N (list string) :=
  sql_stmt (λ db, z ← ean_cast ean; Ok (stores_in_caderno slug z caderno (catalog db), db)).

(** [Number(item.cadernoId)]: the number of [null] is 0. *)
Definition item_dto (item : ApplyItem) : UpsertOfferDto N :=
  {| uo_targetPrice := dec_of (ai_price item); uo_cadernoId := default 0 (ai_cadernoId item);
     uo_description := None; uo_storeId := None |}.

Definition affected_text (affected : list string) : string :=
  default "?" (truthy (Some (str_join "," affected))).

Definition applyOne (slug : string) (item : ApplyItem) : ErpM N string :=
  match ai_target item with
  | precoVenda =>
      r ← pw_updatePrice slug (ai_ean item) (dec_of (ai_price item)) (ai_storeId item);
      mret (match truthy (ai_storeId item) with
            | Some s => "precoVenda=" +:+ num_text (pr_price r) +:+ "@loja=" +:+ s
            | None => "precoVenda=" +:+ num_text (pr_price r)
            end)
  | precoOferta =>
      affected ← match truthy (ai_storeId item) with
                 | Some _ => l ← storesInCaderno slug (ai_ean item) (ai_cadernoId item); mret (Some l)
                 | None => mret None
                 end;
      r ← pw_upsertOffer slug (ai_ean item) (item_dto item) (bool_decide (is_Some (ai_storeId item)));
      mret (let base := "precoOferta=" +:+ num_text (or_targetPrice r) +:+ "@caderno=" +:+ pretty (or_cadernoId r) in
            match affected with
            | Some l => base +:+ ";lojas=" +:+ affected_text l
            | None => base
            end)
  end.

(** The first reason whose key word the message contains. *)
Definition mapPermanent (err : Exn) : option (ApplyItemStatus * string) :=
  if negb (permanent err) then None
  else
    let msg := str_lower (exn_message err) in
    Some (if str_includes "monitored" msg then (item_skipped, "monitored")
          else if str_includes "inactive" msg then (item_skipped, "loja_inativa")
          else if str_includes "external_id" msg then (item_skipped, "sem_external_id")
          else if str_includes "not configured" msg then (item_failed, "a7_nao_configurado")
          else match err with
               | ENotFound _ => (item_failed, "nao_encontrado")
               | _ => (item_failed, "erp_conflito")
               end).

(** What [run] loads before its loop. *)
Record StepCtx := {
  sx_inCampaign : gset string;
  sx_storeCadernos : gmap string (option Z);
  sx_campaignCadernos : gset Z;
}.

Definition is_venda (i : ApplyItem) : bool := bool_decide (ai_target i = precoVenda).

Definition load_items (runId : string) (seq : Z) : ErpM N (list ApplyItem) :=
  sql_query (λ db, filter (λ i, pending_of runId seq i = true) (applyItems db)).

Definition load_ctx (now : Z) (items : list ApplyItem) : ErpM N StepCtx :=
  let venda := filter (λ i, is_venda i = true) items in
  inCampaign ← activeCampaignEans now (ai_ean <$> venda);
  cadernos ← storeCadernos (omap (λ i, s ← ai_storeId i; Some (ai_ean i, s)) venda);
  campaigns ← activeCampaignCadernos now (js_uniq (omap id (map_to_list cadernos).*2));
  mret {| sx_inCampaign := inCampaign; sx_storeCadernos := cadernos; sx_campaignCadernos := campaigns |}.

(** The sell price of a product on promotion is left alone. *)
Definition in_campaign (ctx : StepCtx) (item : ApplyItem) : bool :=
  is_venda item && emCampanha item (sx_inCampaign ctx) (sx_storeCadernos ctx) (sx_campaignCadernos ctx).

Definition Counts : Type := Z * Z * Z.
Definition count (st : ApplyItemStatus) (c : Counts) : Counts :=
  match st with
  | item_applied => (c.1.1 + 1, c.1.2, c.2)
  | item_skipped => (c.1.1, c.1.2 + 1, c.2)
  | _ => (c.1.1, c.1.2, c.2 + 1)
  end.

(** One round of the loop; the status the item got. *)
Definition process_item (now : Z) (slug : string) (ctx : StepCtx) (item : ApplyItem) : ErpM N ApplyItemStatus :=
  if in_campaign ctx item then
    mark now (ai_id item) item_skipped (Some "em_campanha") None;; mret item_skipped
  else
    etry (erpResult ← applyOne slug item;
          mark now (ai_id item) item_applied None (Some erpResult);; mret item_applied)
         (λ err, let '(status, reason) := default (item_failed, "erro_transitorio") (mapPermanent err) in
                 mark now (ai_id item) status (Some reason) None;; mret status).

Fixpoint process_items (now : Z) (slug : string) (ctx : StepCtx) (items : list ApplyItem) (c : Counts) : ErpM N Counts :=
  match items with
  | [] => mret c
  | item :: rest => st ← process_item now slug ctx item; process_items now slug ctx rest (count st c)
  end.

Definition add_counts (c : Counts) (r : ApplyRun) : ApplyRun :=
  with_status run_running
    (with_counts (ar_applied r + c.1.1) (ar_skipped r + c.1.2) (ar_failed r + c.2) r).

Definition step_run (now : Z) (slug runId : string) (seq : Z) : ErpM N unit :=
  items ← load_items runId seq;
  ctx ← load_ctx now items;
  c ← process_items now slug ctx items (0, 0, 0);
  sql_update (λ db, set_applyRuns (alter (add_counts c) runId (applyRuns db)) db).

(* ------------------------------------------------------------------ *)
(** * The consumers                                                     *)
(* ------------------------------------------------------------------ *)

Definition BATCH_SIZE : nat := 50.

Definition with_batchSeq (seq : Z) (i : ApplyItem) : ApplyItem :=
  {| ai_id := ai_id i; ai_applyRunId := ai_applyRunId i; ai_batchSeq := Some seq; ai_ean := ai_ean i;
     ai_target := ai_target i; ai_storeId := ai_storeId i; ai_price := ai_price i;
     ai_cadernoId := ai_cadernoId i; ai_priceOldSell := ai_priceOldSell i;
     ai_priceOldOffer := ai_priceOldOffer i; ai_ruleId := ai_ruleId i; ai_basis := ai_basis i;
     ai_costAtApply := ai_costAtApply i; ai_status := ai_status i; ai_reason := ai_reason i;
     ai_erpResult := ai_erpResult i; ai_appliedAt := ai_appliedAt i |}.

Definition on_run (id : string) (f : ApplyRun → ApplyRun) : ErpM N unit :=
  sql_update (λ db, set_applyRuns (alter f id (applyRuns db)) db).

(** [SELECT id ... ORDER BY id]: uuids compare like their text. *)
Definition dispatch_ids (runId : string) (db : PricingDb N) : list string :=
  js_sort (λ a b, negb (str_ltb b a)) (ai_id <$> filter (λ i, ai_applyRunId i = runId) (applyItems db)).

Fixpoint assign_batches (now : Z) (slug runId : string) (chunks : list (Z * list string)) : ErpM N (list Message) :=
  match chunks with
  | [] => mret []
  | (seq, ids) :: rest =>
      sql_update (λ db, set_applyItems
        ((λ i, if decide (ai_id i ∈ ids) then with_batchSeq seq i else i) <$> applyItems db) db);;
      ms ← assign_batches now slug runId rest;
      mret (newPipelineMessage now runId slug (step_str APPLY_PRICE) (Some (batchStep APPLY_PRICE)) PEmpty (Some seq) None :: ms)
  end.

Definition dispatch_handle (decrypt : string → Res string) (now : Z) (slug runId : string) : ErpM N (list Message) :=
  items ← sql_query (dispatch_ids runId);
  match items with
  | [] => on_run runId (with_status run_done);; mret []
  | _ =>
      creds ← getApiCredentials decrypt slug;
      match creds with
      | None =>
          sql_update (λ db, set_applyItems
            ((λ i, if decide (ai_applyRunId i = runId ∧ ai_status i = item_pending)
                   then with_item_status item_failed (Some "a7_nao_configurado") (ai_erpResult i) i else i)
               <$> applyItems db) db);;
          on_run runId (λ r, with_status run_done (with_counts (ar_applied r) (ar_skipped r) (ar_total r) r));;
          mret []
      | Some _ =>
          on_run runId (with_status run_running);;
          assign_batches now slug runId (number_from 1 (slices BATCH_SIZE items))
      end
  end.

Definition batch_handle (now : Z) (slug runId : string) (seq : Z) : ErpM N unit := step_run now slug runId seq.

(** [successors] of the last batch closes the run. *)
Definition batch_successors (runId : string) : ErpM N (list Message) :=
  on_run runId (with_status run_done);; mret [].

End ApplyPrice.

(** The implementation the application injects. *)
Definition catalog_writer {N} `{JsNum N} (decrypt : string → Res string) (to_numeric : nat → N → Numeric)
    (exact_numeric : N → Numeric) (collate_le : string → string → bool) : PriceWriter N :=
  {| pw_updatePrice := updatePrice decrypt to_numeric;
     pw_upsertOffer := upsertOffer decrypt to_numeric exact_numeric collate_le |}.
