(* ===== verification/Promotion.v ===== *)
(** What the promotion check of the price step means
    ([activeCampaignEans], [storeCadernos], [activeCampaignCadernos],
    [emCampanha]): the three batched queries and the in-memory test agree
    with a direct look at the product's caderno. *)

From Stdlib Require Import Ascii String.
From S2P Require Import Prelude JsText JsNumber JsDate Enums Messages World Outbox Classification SuggestionEngine PricingDb SuggestionRules Suggestions PricingApply PricingApplyLaws PricingFlow Erp CatalogMutation ApplyPrice.
Open Scope string_scope.
Open Scope list_scope.
Open Scope Z_scope.

(* ------------------------------------------------------------------ *)
(** * Promotions                                                        *)
(* ------------------------------------------------------------------ *)

Section Promotion.
Context {N : Type} `{JsNum N}.
Implicit Types (e : Env N) (i : ApplyItem) (c : Catalog N).

(** The EANs of items are the text of the product's key, as [revalidate]
    leaves them. *)
Definition canonical i : Prop := ∃ z, ai_ean i = ean_text z ∧ ean_cast (ai_ean i) = Ok z.

(** Is the price of the product the result of a running campaign?  For an
    item of a store with a row of the product, the campaign of that store's
    caderno; otherwise the campaign of the network's best offer. *)
Definition network_promotion (now : Z) c (z : Z) : bool :=
  match ob ← ct_offerBook c !! z; of_external_id ob with
  | Some k => caderno_in_campaign now c k
  | None => false
  end.

Definition store_row c (z : Z) (s : string) : option ItemRow :=
  p ← ct_products c !! z; ct_productItems c !! (p_id p, s).

Definition on_promotion (now : Z) c (z : Z) (store : option string) : bool :=
  match s ← truthy store; store_row c z s with
  | None => network_promotion now c z
  | Some row => match pi_offer_external_id row with Some k => caderno_in_campaign now c k | None => false end
  end.

Lemma ean_casts_inv l zs z : ean_casts l = Ok zs → z ∈ zs → ∃ x, x ∈ l ∧ ean_cast x = Ok z.
Proof.
  revert zs. induction l as [|x l IH]; intros zs Hl; cbn in Hl; [injection Hl as <-; by intros ?%elem_of_nil|].
  apply Res_bind_Ok in Hl as (z0 & Hz & Hl). apply Res_bind_Ok in Hl as (zs' & Hzs & [= <-]).
  intros [->|Hin]%elem_of_cons; [exists x; split; [left|done]|].
  destruct (IH _ Hzs Hin) as (y & ? & ?). exists y. split; [by right|done].
Qed.

Lemma ean_cast_digits s z : ean_cast s = Ok z → str_forall is_digit s = true.
Proof.
  unfold ean_cast, matches_digits. destruct (_ && _) eqn:E; [|done]. intros _. by bool_prop.
Qed.

Lemma store_key_inj a b s s' :
  str_forall is_digit a = true → str_forall is_digit b = true →
  store_key a s = store_key b s' → a = b ∧ s = s'.
Proof.
  unfold store_key. revert b. induction a as [|x a IH]; intros [|y b] Ha Hb He; cbn in *; simplify_eq; try done.
  - apply andb_true_iff in Ha as [Ha1 Ha]. apply andb_true_iff in Hb as [Hb1 Hb].
    destruct (IH b Ha Hb) as [-> ->]; done.
Qed.

(** The keys the queries cast are those of the items. *)
Lemma canonical_casts (eans : list string) zs z :
  (∀ x, x ∈ eans → ∃ z, x = ean_text z ∧ ean_cast x = Ok z) →
  ean_casts eans = Ok zs → z ∈ zs → ean_text z ∈ eans ∧ ean_cast (ean_text z) = Ok z.
Proof.
  intros Hc Hz Hin. destruct (ean_casts_inv _ _ _ Hz Hin) as (x & Hx & Hxz).
  destruct (Hc x Hx) as (z' & -> & Hz'). rewrite Hxz in Hz'. injection Hz' as <-. done.
Qed.

Lemma activeCampaignEans_Ok now eans e cs e' z :
  activeCampaignEans now eans e = (Ok cs, e') →
  (∀ x, x ∈ eans → ∃ z, x = ean_text z ∧ ean_cast x = Ok z) → ean_text z ∈ eans →
  bool_decide (ean_text z ∈ cs) = network_promotion now (catalog (e_db e)) z.
Proof.
  unfold activeCampaignEans. intros Hr Hc Hin. destruct eans as [|x0 eans0] eqn:He; [by apply elem_of_nil in Hin|].
  rewrite <- He in *. clear He. apply sql_stmt_cases in Hr as (_ & _ & _ & _ & Hr). cbn in Hr.
  destruct (ean_casts eans) as [zs|] eqn:Hzs; [|done]. cbn in Hr. injection Hr as <- _.
  assert (ean_text z ∈ list_to_set (C := gset string) (omap (λ z, ob ← ct_offerBook (catalog (e_db e)) !! z;
      k ← of_external_id ob; if caderno_in_campaign now (catalog (e_db e)) k then Some (ean_text z) else None) zs)
    ↔ network_promotion now (catalog (e_db e)) z = true) as Hiff.
  { rewrite elem_of_list_to_set, list_elem_of_omap. unfold network_promotion. split.
    - intros (z0 & _ & Hz0). destruct (ct_offerBook _ !! z0) as [ob|] eqn:Hob; [|done]. cbn in Hz0.
      destruct (of_external_id ob) as [k|] eqn:Hk; [|done]. cbn in Hz0.
      destruct (caderno_in_campaign _ _ k) eqn:Hca; [|done]. injection Hz0 as Hz0%(inj pretty). subst z0.
      rewrite Hob. cbn. by rewrite Hk.
    - intros Hp. exists z. split.
      + destruct (Hc _ Hin) as (z' & Hz'%(inj pretty) & Hcast). subst z'.
        destruct (ean_casts_elem _ _ _ Hzs Hin) as (z2 & Hz2 & ?). rewrite Hcast in Hz2. by injection Hz2 as <-.
      + destruct (ct_offerBook _ !! z) as [ob|]; [|done]. cbn in *.
        destruct (of_external_id ob) as [k|]; [|done]. cbn. by rewrite Hp. }
  destruct (network_promotion _ _ _); [apply bool_decide_eq_true|apply bool_decide_eq_false]; naive_solver.
Qed.

Lemma storeCadernos_Ok pairs e (m : gmap string (option Z)) e' z s :
  storeCadernos pairs e = (Ok m, e') →
  (∀ x, x ∈ pairs.*1 → ∃ z, x = ean_text z ∧ ean_cast x = Ok z) → (ean_text z, s) ∈ pairs →
  m !! store_key (ean_text z) s = pi_offer_external_id <$> store_row (catalog (e_db e)) z s.
Proof.
  unfold storeCadernos. intros Hr Hc Hin. destruct pairs as [|x0 pairs0] eqn:He; [by apply elem_of_nil in Hin|].
  rewrite <- He in *. clear He. apply sql_stmt_cases in Hr as (_ & _ & _ & _ & Hr). cbn in Hr.
  destruct (ean_casts _) as [zs|] eqn:Hzs; [|done]. cbn in Hr. injection Hr as <- _.
  set (l := zs ≫= _).
  assert (∀ x, x ∈ js_uniq pairs.*1 → ∃ z, x = ean_text z ∧ ean_cast x = Ok z) as Hc'.
  { intros x Hx. apply Hc. by apply (proj1 (js_uniq_elem _ _)) in Hx. }
  assert (ean_text z ∈ pairs.*1) as Hin1 by (apply list_elem_of_fmap; by exists (ean_text z, s)).
  assert (ean_cast (ean_text z) = Ok z) as Hcast by (destruct (Hc _ Hin1) as (? & Hx%(inj pretty) & ?); by subst).
  assert (∀ v, (store_key (ean_text z) s, v) ∈ l ↔
    Some v = pi_offer_external_id <$> store_row (catalog (e_db e)) z s) as Hl.
  { intros v. unfold l. rewrite list_elem_of_bind. unfold store_row. split.
    - intros (z0 & (s0 & Hv & Hs0)%list_elem_of_bind & Hz0).
      destruct (canonical_casts _ _ _ Hc' Hzs Hz0) as [_ Hcast0].
      destruct (ct_products _ !! z0) as [p|] eqn:Hp; [|by apply elem_of_nil in Hv]. cbn in Hv.
      destruct (ct_productItems _ !! (p_id p, s0)) as [row|] eqn:Hrow; [|by apply elem_of_nil in Hv]. cbn in Hv.
      apply list_elem_of_singleton in Hv. injection Hv as Hk ->.
      apply store_key_inj in Hk as [Hk%(inj pretty) ->]; [|by eapply ean_cast_digits..]. subst z0.
      rewrite Hp. cbn. by rewrite Hrow.
    - intros Hv. destruct (ct_products _ !! z) as [p|] eqn:Hp; [|done]. cbn in Hv.
      destruct (ct_productItems _ !! (p_id p, s)) as [row|] eqn:Hrow; [|done]. cbn in Hv. injection Hv as ->.
      exists z. split.
      + apply list_elem_of_bind. exists s. rewrite Hp. cbn. rewrite Hrow. split; [by left|].
        apply js_uniq_elem, list_elem_of_fmap. by exists (ean_text z, s).
      + destruct (ean_casts_elem _ _ (ean_text z) Hzs) as (z2 & Hz2 & ?); [by apply js_uniq_elem|].
        rewrite Hcast in Hz2. by injection Hz2 as <-. }
  destruct (store_row _ z s) as [row|] eqn:Hrow; cbn.
  - apply elem_of_list_to_map_1'; [|by apply Hl]. intros v Hv. apply Hl in Hv. by injection Hv.
  - apply not_elem_of_list_to_map_1. intros ([k v] & Hk & Hv)%list_elem_of_fmap. cbn in Hk. subst k.
    by apply Hl in Hv.
Qed.

Lemma activeCampaignCadernos_Ok now ks e (cs : gset Z) e' k :
  activeCampaignCadernos now ks e = (Ok cs, e') → k ∈ ks →
  bool_decide (k ∈ cs) = caderno_in_campaign now (catalog (e_db e)) k.
Proof.
  unfold activeCampaignCadernos. intros Hr Hin. destruct ks as [|k0 ks0] eqn:He; [by apply elem_of_nil in Hin|].
  rewrite <- He in *. clear He. apply query_cases in Hr as (_ & _ & ->).
  destruct (caderno_in_campaign _ _ k) eqn:Hca; [apply bool_decide_eq_true|apply bool_decide_eq_false];
    rewrite elem_of_list_to_set, list_elem_of_filter; naive_solver congruence.
Qed.

Lemma reads_activeCampaignEans now eans : reads (N := N) (activeCampaignEans now eans).
Proof.
  unfold activeCampaignEans. case_match; [eauto with erp|]. apply reads_stmt. intros db a db'.
  destruct (ean_casts _); cbn; congruence.
Qed.
Lemma reads_storeCadernos pairs : reads (N := N) (storeCadernos pairs).
Proof.
  unfold storeCadernos. case_match; [eauto with erp|]. apply reads_stmt. intros db a db'.
  destruct (ean_casts _); cbn; congruence.
Qed.
Lemma reads_activeCampaignCadernos now ks : reads (N := N) (activeCampaignCadernos now ks).
Proof. unfold activeCampaignCadernos. case_match; eauto with erp. Qed.

Lemma reads_load_ctx now items : reads (N := N) (load_ctx now items).
Proof.
  apply reads_bind; [apply reads_activeCampaignEans|]. intros cs.
  apply reads_bind; [apply reads_storeCadernos|]. intros m.
  apply reads_bind; [apply reads_activeCampaignCadernos|]. eauto with erp.
Qed.

(** The check of the loop is the promotion of the item's product. *)
Lemma load_ctx_promotion now items e ctx e' i z :
  load_ctx now items e = (Ok ctx, e') → Forall canonical items → i ∈ items → is_venda i = true →
  ai_ean i = ean_text z → in_campaign ctx i = on_promotion now (catalog (e_db e)) z (ai_storeId i).
Proof.
  unfold load_ctx. intros Hr Hc Hi Hv Hz.
  set (venda := filter _ items) in Hr.
  assert (i ∈ venda) as Hiv by by apply list_elem_of_filter.
  assert (∀ j, j ∈ venda → canonical j) as Hcv.
  { intros j Hj. apply list_elem_of_filter in Hj as [_ Hj]. rewrite Forall_forall in Hc. auto. }
  erp_bind Hr cs e1 E1; [|done]. destruct (reads_activeCampaignEans _ _ _ _ _ E1) as [Hd1 _].
  erp_bind Hr m e2 E2; [|done]. destruct (reads_storeCadernos _ _ _ _ E2) as [Hd2 _].
  erp_bind Hr ks e3 E3; [|done]. injection Hr as <- _.
  apply (activeCampaignEans_Ok _ _ _ _ _ z) in E1.
  2:{ intros x (j & -> & Hj)%list_elem_of_fmap. by apply Hcv. }
  2:{ rewrite <- Hz. by apply list_elem_of_fmap_2. }
  unfold in_campaign, emCampanha, on_promotion. rewrite Hv. cbn [andb sx_inCampaign sx_storeCadernos sx_campaignCadernos].
  destruct (truthy (ai_storeId i)) as [s|] eqn:Hs; cbn; [|by rewrite Hz].
  assert (ai_storeId i = Some s) as Hst by (destruct (ai_storeId i) as [[]|]; by simplify_eq/=).
  apply (storeCadernos_Ok _ _ _ _ z s) in E2.
  2:{ intros x ([x' s'] & -> & Hj)%list_elem_of_fmap. apply list_elem_of_omap in Hj as (j & Hj & Hjs).
      destruct (ai_storeId j); [|done]. injection Hjs as <- <-. by apply Hcv. }
  2:{ apply list_elem_of_omap. exists i. by rewrite Hst, <- Hz. }
  rewrite Hd1 in E2. rewrite Hz, E2. destruct (store_row _ z s) as [row|]; cbn; [|done].
  destruct (pi_offer_external_id row) as [k|] eqn:Hk; [|done].
  rewrite (activeCampaignCadernos_Ok _ _ _ _ _ k E3), Hd2, Hd1; [done|].
  apply js_uniq_elem, list_elem_of_omap. exists (Some k). split; [|done].
  apply list_elem_of_fmap. eexists (_, _). split; [done|]. apply elem_of_map_to_list. exact E2.
Qed.

End Promotion.
