(* ===== verification/CatalogLaws.v ===== *)
(** What the catalogue's write-back guarantees: a price or offer call that
    returns has written to the ERP exactly once and mirrored exactly that
    locally; a call that throws has mirrored nothing, and a conflict or a
    missing row means that the ERP was not written. *)

From Stdlib Require Import Ascii String.
From S2P Require Import Prelude JsText JsNumber JsDate Enums Messages World Outbox Classification SuggestionEngine PricingDb SuggestionRules Suggestions PricingApply PricingApplyLaws Erp CatalogMutation ApplyPrice.
Open Scope string_scope.
Open Scope list_scope.
Open Scope Z_scope.

Section CatalogLaws.
Context {N : Type} `{JsNum N}.
Variable decrypt : string → Res string.
Variable to_numeric : nat → N → Numeric.
Variable exact_numeric : N → Numeric.
Variable collate_le : string → string → bool.
Implicit Types (e : Env N).

Abbreviation do_price := (updatePrice decrypt to_numeric).
Abbreviation do_offer := (upsertOffer decrypt to_numeric exact_numeric collate_le).
Abbreviation do_remove := (removeOffer decrypt).

(* ------------------------------------------------------------------ *)
(** * The reading part                                                  *)
(* ------------------------------------------------------------------ *)

Lemma reads_find_product ean : reads (find_product (N := N) ean).
Proof. apply reads_stmt. intros db a db'. simpl. destruct (ean_cast ean); simpl; congruence. Qed.

Lemma reads_resolve_tenant slug : reads (resolve_tenant (N := N) slug).
Proof. apply reads_bind; [eauto with erp|]. intros [t|]; eauto with erp. Qed.

Lemma reads_find_store s t : reads (find_store (N := N) s t).
Proof. apply reads_query. Qed.

Lemma reads_active_store slug s : reads (active_store (N := N) slug s).
Proof.
  apply reads_bind; [apply reads_resolve_tenant|]. intros t.
  apply reads_bind; [apply reads_find_store|]. intros [st|]; [|eauto with erp].
  case_match; eauto with erp.
Qed.

Lemma reads_cred slug : reads (credentials (N := N) decrypt slug).
Proof. apply reads_bind; [eauto with erp|]. intros []; eauto with erp. Qed.

Lemma reads_resolve_caderno slug ean s : reads (resolve_caderno (N := N) collate_le slug ean s).
Proof.
  apply reads_bind; [apply reads_resolve_tenant|]. intros t.
  apply reads_bind; [apply reads_find_store|]. intros [st|]; [|eauto with erp].
  case_match; [eauto with erp|]. apply reads_bind.
  { apply reads_stmt. intros db a db'. simpl. destruct (ean_cast ean); simpl; congruence. }
  intros rows. apply reads_bind; [|eauto with erp].
  case_match; [eauto with erp|]. apply reads_bind; [eauto with erp|]. intros []; eauto with erp.
Qed.

Lemma find_product_Ok ean e z p e' :
  find_product ean e = (Ok (Some (z, p)), e') →
  ean_cast ean = Ok z ∧ ct_products (catalog (e_db e)) !! z = Some p ∧ p_deleted p = false.
Proof.
  intros Hs. apply sql_stmt_cases in Hs as (_ & _ & _ & _ & Hr). cbn in Hr.
  destruct (ean_cast ean) as [z0|]; [|done]. cbn in Hr. injection Hr as Hr.
  destruct (ct_products (catalog (e_db e)) !! z0) as [p0|] eqn:Hp; [|done].
  destruct (p_deleted p0) eqn:Hd; [done|]. by injection Hr as -> ->.
Qed.

(** A live store of the tenant. *)
Definition tenant_store (c : Catalog N) (slug s : string) (st : StoreRow) : Prop :=
  ∃ t, ct_tenants c !! slug = Some t ∧ ct_stores c !! s = Some st ∧ ts_tenant_id st = t
    ∧ ts_deleted st = false ∧ ts_active st = true.

Lemma active_store_Ok slug s e st e' :
  active_store slug s e = (Ok st, e') → tenant_store (catalog (e_db e)) slug s st.
Proof.
  unfold active_store, resolve_tenant, find_store. intros Hr. erp_bind Hr t e1 E1; [|done].
  erp_bind E1 t0 e0 E0; [|done]. apply query_cases in E0 as (Hd0 & _ & ->).
  destruct (ct_tenants _ !! slug) as [t0|] eqn:Ht; [|done]. injection E1 as <- <-.
  erp_bind Hr o e2 E2; [|done]. apply query_cases in E2 as (_ & _ & ->). rewrite Hd0 in Hr.
  destruct (ct_stores _ !! s) as [row|] eqn:Hst; [|done].
  destruct (String.eqb_spec (ts_tenant_id row) t0) as [Heq|]; [|done].
  destruct (ts_deleted row) eqn:Hdel; [done|]. simpl in Hr.
  destruct (ts_active row) eqn:Hact; [|done]. injection Hr as <- <-. by exists t0.
Qed.

(** The credentials are those of the tenant's connection. *)
Definition api_of (c : Catalog N) (slug url : string) : Prop :=
  ∃ t row, ct_tenants c !! slug = Some t ∧ ct_connections c !! t = Some row
    ∧ truthy (cn_apiBaseUrl row) = Some url ∧ is_Some (truthy (cn_apiKeyEncrypted row)).

Lemma credentials_Ok slug e c e' :
  credentials decrypt slug e = (Ok c, e') → api_of (catalog (e_db e)) slug (c_baseUrl c).
Proof.
  unfold credentials, getApiCredentials, credentials_of. rewrite ebind_eq.
  destruct (ct_tenants _ !! slug) as [t|] eqn:Ht; [|done].
  destruct (ct_connections _ !! t) as [row|] eqn:Hrow; [|done].
  destruct (truthy (cn_apiBaseUrl row)) as [url|] eqn:Hu; [|done].
  destruct (truthy (cn_apiKeyEncrypted row)) as [key|] eqn:Hk; [|done].
  destruct (decrypt key) as [k|]; [|done]. intros [= <- <-]. by exists t, row.
Qed.

(** [pushToErp] of one write. *)
Lemma push_cases (w : ErpWrite N) e r e' :
  pushToErp (erp_post w) e = (r, e') →
  e_db e' = e_db e ∧
  match r with
  | Ok _ => e_erp e' = e_erp e ++ [w]
  | Throw x => (e_erp e' = e_erp e ∨ e_erp e' = e_erp e ++ [w]) ∧ x = EError "ERP write failed"
  end.
Proof.
  unfold pushToErp, etry. destruct (erp_post w e) as [[u|x] e1] eqn:E;
    apply erp_post_cases in E as (Hd & _ & _ & Hw); intros [= <- <-]; [done|]. split; [done|]. tauto.
Qed.

(* ------------------------------------------------------------------ *)
(** * Prices                                                            *)
(* ------------------------------------------------------------------ *)

(** Nothing of the call can commit. *)
Definition rolled_back e e' : Prop :=
  e_db e' = e_db e ∨ (e_aborted e' = true ∧ ∃ f, e_db e' = with_catalog f (e_db e)).

(** What a thrown error leaves behind: nothing that can commit, and the ERP
    untouched unless the push itself or a statement after it failed. *)
Definition thrown (w : ErpWrite N → Prop) e (x : Exn) e' : Prop :=
  rolled_back e e' ∧
  (e_erp e' = e_erp e ∨ (∃ u, e_erp e' = e_erp e ++ [u] ∧ w u) ∧ ∃ m, x = EError m).

Lemma thrown_reads w e x e' : e_db e' = e_db e ∧ e_erp e' = e_erp e → thrown w e x e'.
Proof. intros [? ?]. split; by left. Qed.

Lemma thrown_from w e0 e x e' :
  e_db e = e_db e0 ∧ e_erp e = e_erp e0 → thrown w e x e' → thrown w e0 x e'.
Proof. unfold thrown, rolled_back. intros [<- <-]. done. Qed.

(** A write to the ERP followed by its local mirror. *)
Lemma push_then_mirror {A} (w : ErpWrite N) (mirror : ErpM N unit) (f : PricingDb N → PricingDb N) (a : A) e r e' :
  (∀ e1 r e2, e_db e1 = e_db e → mirror e1 = (r, e2) → e_erp e2 = e_erp e1 ∧
     match r with Ok _ => e_db e2 = f (e_db e1) | Throw x => rolled_back e1 e2 ∧ ∃ m, x = EError m end) →
  (pushToErp (erp_post w) ≫= λ _, mirror ≫= λ _, mret a) e = (r, e') →
  match r with
  | Ok b => b = a ∧ e_erp e' = e_erp e ++ [w] ∧ e_db e' = f (e_db e)
  | Throw x => thrown (eq w) e x e'
  end.
Proof.
  intros Hm Hr. erp_bind Hr u e1 E1; apply push_cases in E1 as [Hd1 Hw1].
  - erp_bind Hr v e2 E2; apply (Hm _ _ _ Hd1) in E2 as [He2 Hd2].
    + injection Hr as <- <-. by rewrite He2, Hd2, Hd1.
    + injection Hr as <- <-. destruct Hd2 as [Hd2 Hx]. unfold thrown, rolled_back in *. rewrite Hd1 in Hd2.
      split; [done|]. right. split; [exists w; by rewrite He2|done].
  - injection Hr as <- <-. destruct Hw1 as [[Hw|Hw] ->]; (split; [by left|]); [by left|].
    right. split; [by exists w|by eexists].
Qed.

Definition price_mirror (z : Z) (p : ProductRow) (price : N) (store : option string) (c : Catalog N) : Catalog N :=
  match store with
  | Some s => set_productItems (<[(p_id p, s) := with_item_price (Some (to_numeric 2 price))
                  (default empty_item (ct_productItems c !! (p_id p, s)))]> (ct_productItems c)) c
  | None => set_products (<[z := with_price (Some (to_numeric 2 price)) p]> (ct_products c)) c
  end.

Lemma update_product_cases ean f e r e' z p :
  ean_cast ean = Ok z → ct_products (catalog (e_db e)) !! z = Some p →
  update_product (N := N) ean f e = (r, e') →
  e_erp e' = e_erp e ∧
  match r with
  | Ok _ => e_db e' = with_catalog (λ c, set_products (<[z := f p]> (ct_products c)) c) (e_db e)
  | Throw x => rolled_back e e' ∧ ∃ m, x = EError m
  end.
Proof.
  intros Hz Hp Hs. pose proof Hs as Hc. apply sql_stmt_cases in Hc as (He & _ & Hc). split; [done|].
  rewrite Hz in Hc. cbn in Hc. rewrite Hp in Hc. destruct r as [a|x].
  - destruct Hc as (_ & _ & Hc). by injection Hc.
  - split; [left; by destruct Hc|]. apply sql_stmt_throw in Hs as [?|Hs]; [done|].
    rewrite Hz in Hs. cbn in Hs. by rewrite Hp in Hs.
Qed.

Lemma price_mirror_cases (store : option (string * StoreRow)) ean price z p e r e' :
  ean_cast ean = Ok z → ct_products (catalog (e_db e)) !! z = Some p →
  match store with
  | Some (s, _) => upsert_item_price (p_id p) s (to_numeric 2 price)
  | None => _ ← update_product ean (with_price (Some (to_numeric 2 price))); mret ()
  end e = (r, e') →
  e_erp e' = e_erp e ∧
  match r with
  | Ok _ => e_db e' = with_catalog (price_mirror z p price (fst <$> store)) (e_db e)
  | Throw x => rolled_back e e' ∧ ∃ m, x = EError m
  end.
Proof.
  intros Hz Hp. destruct store as [[s st]|]; simpl; intros Hs.
  - apply update_cases in Hs as [He Hd]. split; [done|].
    destruct r; [done|]. destruct Hd as (? & _ & ?). split; [by left|done].
  - erp_bind Hs n e1 E; apply (update_product_cases _ _ _ _ _ z p Hz Hp) in E as [He Hd];
      by injection Hs as <- <-.
Qed.

(** The price a call writes: to the ERP for the product's package, and for
    the store when there is one, and to the mirror of exactly that row. *)
Record price_written (slug ean : string) (price : N) (store : option string) e e' : Prop := {
  pw_exists : ∃ z p ext url st,
    ean_cast ean = Ok z ∧ ct_products (catalog (e_db e)) !! z = Some p
    ∧ p_deleted p = false ∧ p_monitored p = false ∧ truthy (p_externalId p) = Some ext
    ∧ api_of (catalog (e_db e)) slug url
    ∧ match truthy store, st with
      | None, None => True
      | Some s, Some row => tenant_store (catalog (e_db e)) slug s row
      | _, _ => False
      end
    ∧ e_erp e' = e_erp e ++ [ChangePrice url (js_Number ext) price (ts_external_id <$> st)]
    ∧ e_db e' = with_catalog (price_mirror z p price (truthy store)) (e_db e);
}.

Lemma updatePrice_cases slug ean price store e r e' :
  do_price slug ean price store e = (r, e') →
  match r with
  | Ok pr => pr = {| pr_price := price; pr_storeId := store |} ∧ price_written slug ean price store e e'
  | Throw x => thrown (is_price_write price) e x e'
  end.
Proof.
  unfold updatePrice. intros Hr.
  erp_bind Hr o e1 E1; pose proof (reads_find_product _ _ _ _ E1) as Hf1;
    [|injection Hr as <- <-; by apply thrown_reads].
  destruct o as [[z p]|]; [|injection Hr as <- <-; by apply thrown_reads].
  apply find_product_Ok in E1 as (Hz & Hp & Hdel).
  destruct (p_monitored p) eqn:Hmon; [injection Hr as <- <-; by apply thrown_reads|].
  destruct (truthy (p_externalId p)) as [ext|] eqn:Hext; [|injection Hr as <- <-; by apply thrown_reads].
  erp_bind Hr so e2 E2.
  2:{ injection Hr as <- <-. apply thrown_reads. destruct (truthy store); [|done].
      erp_bind E2 st e3 E3; [done|]. injection E2 as <- <-.
      destruct (reads_active_store _ _ _ _ _ E3), Hf1. split; congruence. }
  assert (e_db e2 = e_db e ∧ e_erp e2 = e_erp e ∧ (fst <$> so) = truthy store ∧
    match truthy store, so with
      | None, None => True
      | Some s, Some (_, row) => tenant_store (catalog (e_db e)) slug s row
      | _, _ => False end) as (Hd2 & He2 & Hso & Hst).
  { destruct Hf1 as [Hd1 He1]. destruct (truthy store); [|by injection E2 as <- <-].
    erp_bind E2 st e3 E3; [|done]. destruct (reads_active_store _ _ _ _ _ E3) as [Hd3 He3].
    injection E2 as <- <-. apply active_store_Ok in E3. rewrite Hd1 in E3.
    split_and!; [congruence|congruence|done|done]. }
  erp_bind Hr creds e3 E3; pose proof (reads_cred _ _ _ _ E3) as [Hd3 He3];
    [|injection Hr as <- <-; apply thrown_reads; split; congruence].
  apply credentials_Ok in E3. rewrite Hd2 in E3.
  apply (push_then_mirror _ _ (with_catalog (price_mirror z p price (truthy store)))) in Hr.
  - destruct r as [pr|x].
    + destruct Hr as (-> & He' & Hd'). split; [done|]. constructor.
      exists z, p, ext, (c_baseUrl creds), (snd <$> so). split_and!; try done.
      * by destruct (truthy store), so as [[]|].
      * rewrite He', He3, He2. by destruct so as [[]|].
      * congruence.
    + apply (thrown_from _ _ e3); [split; congruence|]. destruct Hr as [Hd' Hw]. split; [done|].
      destruct Hw as [?|[(u & Hu & <-) ?]]; [by left|]. right. split; [|done]. eexists; split; [done|].
      by repeat eexists.
  - intros e4 r4 e5 Hd4 H4. rewrite <- Hso. eapply price_mirror_cases; [done| |exact H4].
    by rewrite Hd4, Hd3, Hd2.
Qed.

(* ------------------------------------------------------------------ *)
(** * Offers                                                            *)
(* ------------------------------------------------------------------ *)

(** The active stores of tenant [t] whose winning caderno is [k]. *)
Definition serves (c : Catalog N) (z : Z) (t s : string) (k : option Z) (name : string) : Prop :=
  ∃ p i row, ct_products c !! z = Some p ∧ ct_productItems c !! (p_id p, s) = Some i
    ∧ pi_offer_external_id i = k ∧ ct_stores c !! s = Some row ∧ ts_tenant_id row = t
    ∧ ts_active row = true ∧ ts_deleted row = false ∧ ts_name row = name.

Lemma store_cadernos_elem c z t s k name :
  (s, k, name) ∈ store_cadernos (N := N) collate_le z t c ↔ serves c z t s k name.
Proof.
  unfold store_cadernos, serves. rewrite js_sort_perm.
  destruct (ct_products c !! z) as [p|]; [|split; [by intros ?%elem_of_nil|naive_solver]].
  rewrite list_elem_of_omap. split.
  - intros ([[pid sid] i] & Hin & Hr). apply elem_of_map_to_list in Hin.
    destruct (ct_stores c !! sid) as [row|] eqn:Hrow; [|done]. cbn in Hr. case_match; [|done]. bool_prop.
    repeat match goal with H : String.eqb _ _ = true |- _ => apply String.eqb_eq in H end. subst.
    injection Hr as <- <- <-. by exists p, i, row.
  - intros (p' & i & row & [= <-] & Hi & <- & Hrow & <- & Ha & Hd & <-).
    exists (p_id p, s, i). split; [by apply elem_of_map_to_list|]. rewrite Hrow. cbn.
    by rewrite !String.eqb_refl, Ha, Hd.
Qed.

Lemma serves_fun c z t s k k' n n' : serves c z t s k n → serves c z t s k' n' → k = k'.
Proof. intros (p & i & row & ? & ? & ? & _) (p' & i' & row' & ? & ? & ? & _). congruence. Qed.

(** The caderno of a store's offers for a product. *)
Definition focused_caderno (c : Catalog N) (z : Z) (t s : string) : option Z :=
  match p ← ct_products c !! z; i ← ct_productItems c !! (p_id p, s); pi_offer_external_id i with
  | Some k => Some k
  | None => mjoin (ct_defaultCaderno c !! t)
  end.

Lemma focused_row c z slug s st t :
  tenant_store c slug s st → ct_tenants c !! slug = Some t →
  ('(_, r) ← list_find (λ r : string * option Z * string, r.1.1 = s) (store_cadernos collate_le z t c); r.1.2)
  = (p ← ct_products c !! z; i ← ct_productItems c !! (p_id p, s); pi_offer_external_id i).
Proof.
  intros (t' & Ht' & Hst & Hten & Hdel & Hact) Ht. simplify_eq.
  destruct (list_find _ _) as [[j [[s' k] n]]|] eqn:Hf.
  - apply list_find_Some in Hf as (Hj & Hs & _). simpl in Hs. subst s'. simpl.
    apply list_elem_of_lookup_2, store_cadernos_elem in Hj as (p & i & row & Hp & Hi & <- & _).
    rewrite Hp. simpl. by rewrite Hi.
  - apply list_find_None in Hf. simpl. destruct (ct_products c !! z) as [p|] eqn:Hp; [|done]. simpl.
    destruct (ct_productItems c !! (p_id p, s)) as [i|] eqn:Hi; [|done]. exfalso.
    assert ((s, pi_offer_external_id i, ts_name st) ∈ store_cadernos collate_le z (ts_tenant_id st) c) as Hin.
    { apply store_cadernos_elem. by exists p, i, st. }
    rewrite Forall_forall in Hf. by apply Hf in Hin.
Qed.

Record caderno_resolved (slug ean s : string) (c : Catalog N) (k : Z) (names : list string) : Prop := {
  cad_resolved : ∃ t z row, ct_tenants c !! slug = Some t ∧ ean_cast ean = Ok z
    ∧ tenant_store c slug s row ∧ focused_caderno c z t s = Some k
    ∧ ∀ n, n ∈ names ↔ ∃ s', serves c z t s' (Some k) n;
}.

Lemma resolve_caderno_Ok slug ean s e k names e' :
  resolve_caderno collate_le slug ean s e = (Ok (k, names), e') →
  caderno_resolved slug ean s (catalog (e_db e)) k names.
Proof.
  unfold resolve_caderno, resolve_tenant, find_store. intros Hr.
  erp_bind Hr t e1 E1; [|done]. erp_bind E1 t0 e0 E0; [|done]. apply query_cases in E0 as (Hd0 & _ & ->).
  destruct (ct_tenants _ !! slug) as [t0|] eqn:Ht; [|done]. injection E1 as <- <-.
  erp_bind Hr o e2 E2; [|done]. apply query_cases in E2 as (Hd2 & _ & ->). rewrite Hd0 in Hr, Hd2.
  destruct (ct_stores _ !! s) as [row|] eqn:Hst; [|done].
  destruct (String.eqb_spec (ts_tenant_id row) t0) as [Heq|]; [|done].
  destruct (ts_deleted row) eqn:Hdel; [done|]. simpl in Hr.
  destruct (ts_active row) eqn:Hact; [|done]. simpl in Hr.
  assert (tenant_store (catalog (e_db e)) slug s row) as Hts by by exists t0.
  erp_bind Hr rows e3 E3; [|done]. apply sql_stmt_cases in E3 as (_ & _ & _ & _ & E3). cbn in E3.
  destruct (ean_cast ean) as [z|] eqn:Hz; [|done]. cbn in E3. injection E3 as <- Hd3. rewrite Hd2 in Hr, Hd3.
  rewrite (focused_row _ z slug s row t0) in Hr by done.
  erp_bind Hr k0 e4 E4; [|done]. injection Hr as -> <- <-.
  assert (focused_caderno (catalog (e_db e)) z t0 s = Some k) as Hk.
  { unfold focused_caderno. case_match; [by injection E4 as <- <-|].
    erp_bind E4 d e5 E5; [|done]. apply query_cases in E5 as (_ & _ & ->). rewrite <- Hd3 in E4.
    destruct (mjoin _); [by injection E4 as <- <-|done]. }
  constructor. exists t0, z, row. split_and!; try done. intros n. rewrite list_elem_of_fmap. split.
  - intros ([[s' k'] n'] & -> & Hin). apply list_elem_of_filter in Hin as [Hk' Hin]. simpl in *. subst.
    exists s'. by apply store_cadernos_elem in Hin.
  - intros (s' & Hs'). exists (s', Some k, n). split; [done|]. apply list_elem_of_filter.
    split; [done|]. by apply store_cadernos_elem.
Qed.

(** The mirror of an offer: the network's row unless the write is scoped to
    a store, and every store row the caderno wins. *)
Definition offer_mirror (z k : Z) (dto : UpsertOfferDto N) (scoped : bool) (c : Catalog N) : Catalog N :=
  mirror_items z k (mirrored_offer to_numeric exact_numeric (uo_targetPrice dto))
    (if scoped then c else upsert_offer_row z (to_numeric 2 (uo_targetPrice dto)) k (uo_description dto) c).

Lemma with_catalog_twice (f g : Catalog N → Catalog N) (db : PricingDb N) :
  with_catalog g (with_catalog f db) = with_catalog (λ c, g (f c)) db.
Proof. done. Qed.

(** Two statements of the same mirror. *)
Lemma two_updates (f g : Catalog N → Catalog N) (first : bool) e r e' :
  ((if first then sql_update (with_catalog f) else mret ()) ≫= λ _, sql_update (with_catalog g)) e = (r, e') →
  e_erp e' = e_erp e ∧
  match r with
  | Ok _ => e_db e' = with_catalog (λ c, g (if first then f c else c)) (e_db e)
  | Throw x => rolled_back e e' ∧ ∃ m, x = EError m
  end.
Proof.
  intros Hr. destruct first.
  - erp_bind Hr u e1 E1; apply update_cases in E1 as [He1 Hd1].
    + apply update_cases in Hr as [He' Hr]. split; [congruence|]. destruct r.
      * by rewrite Hr, Hd1.
      * destruct Hr as (Hd' & Ha & Hx). split; [|done]. right. split; [done|]. exists f. congruence.
    + injection Hr as <- <-. split; [done|]. destruct Hd1 as (? & _ & ?). split; [by left|done].
  - apply update_cases in Hr as [He' Hr]. split; [done|]. destruct r; [done|].
    destruct Hr as (? & _ & ?). split; [by left|done].
Qed.

Record offer_written (slug ean : string) (dto : UpsertOfferDto N) (storeScoped : bool) (k : Z)
    (names : option (list string)) e e' : Prop := {
  ow_exists : ∃ z p ext url scoped,
    ean_cast ean = Ok z ∧ ct_products (catalog (e_db e)) !! z = Some p
    ∧ p_deleted p = false ∧ truthy (p_externalId p) = Some ext ∧ api_of (catalog (e_db e)) slug url
    ∧ match truthy (uo_storeId dto), names with
      | None, None => k = uo_cadernoId dto ∧ scoped = storeScoped
      | Some s, Some l => caderno_resolved slug ean s (catalog (e_db e)) k l ∧ scoped = true
      | _, _ => False
      end
    ∧ e_erp e' = e_erp e ++ [WriteOffer url k (js_Number ext) (Some (uo_targetPrice dto))]
    ∧ e_db e' = with_catalog (offer_mirror z k dto scoped) (e_db e);
}.

Definition is_offer (price : N) (w : ErpWrite N) : Prop := ∃ k, is_offer_write k price w.

(** The caderno a call decides on, before anything is written. *)
Lemma decide_caderno slug ean (dto : UpsertOfferDto N) scoped0 e r e' :
  match truthy (uo_storeId dto) with
  | Some s => '(k, names) ← resolve_caderno collate_le slug ean s; mret (k, true, Some names)
  | None => mret (uo_cadernoId dto, scoped0, None)
  end e = (r, e') →
  (e_db e' = e_db e ∧ e_erp e' = e_erp e) ∧
  match r with
  | Throw _ => is_Some (truthy (uo_storeId dto))
  | Ok (k, scoped, names) => match truthy (uo_storeId dto), names with
      | None, None => k = uo_cadernoId dto ∧ scoped = scoped0
      | Some s, Some l => caderno_resolved slug ean s (catalog (e_db e)) k l ∧ scoped = true
      | _, _ => False
      end
  end.
Proof.
  destruct (truthy (uo_storeId dto)) as [s|]; [|by intros [= <- <-]]. intros Hr.
  rewrite ebind_eq in Hr.
  destruct (resolve_caderno _ _ _ _ _) as [[[k l]|x] e1] eqn:E; injection Hr as <- <-;
    (split; [by apply reads_resolve_caderno in E|]); [|done].
  by apply resolve_caderno_Ok in E.
Qed.

Lemma upsertOffer_cases slug ean dto scoped0 e r e' :
  do_offer slug ean dto scoped0 e = (r, e') →
  match r with
  | Ok o => ∃ k names, o = {| or_targetPrice := uo_targetPrice dto; or_cadernoId := k;
              or_storeId := truthy (uo_storeId dto); or_affectedStores := names |}
            ∧ offer_written slug ean dto scoped0 k names e e'
  | Throw x => thrown (λ w, is_offer (uo_targetPrice dto) w
                 ∧ (truthy (uo_storeId dto) = None → is_offer_write (uo_cadernoId dto) (uo_targetPrice dto) w)) e x e'
  end.
Proof.
  unfold upsertOffer. intros Hr.
  erp_bind Hr o e1 E1; pose proof (reads_find_product _ _ _ _ E1) as [Hd1 He1];
    [|injection Hr as <- <-; by apply thrown_reads].
  destruct o as [[z p]|]; [|injection Hr as <- <-; by apply thrown_reads].
  apply find_product_Ok in E1 as (Hz & Hp & Hdel).
  destruct (truthy (p_externalId p)) as [ext|] eqn:Hext; [|injection Hr as <- <-; by apply thrown_reads].
  erp_bind Hr kn e2 E2; apply decide_caderno in E2 as [[Hd2 He2] Hk];
    [|injection Hr as <- <-; apply thrown_reads; split; congruence].
  destruct kn as [[k scoped] names].
  rewrite Hd1 in Hk.
  erp_bind Hr creds e3 E3; pose proof (reads_cred _ _ _ _ E3) as [Hd3 He3];
    [|injection Hr as <- <-; apply thrown_reads; split; congruence].
  apply credentials_Ok in E3. rewrite Hd2, Hd1 in E3.
  assert ((pushToErp (a7_upsertOffer creds k (js_Number ext) (Some (uo_targetPrice dto))) ≫= λ _,
    ((if negb scoped then sql_update (with_catalog (upsert_offer_row z (to_numeric 2 (uo_targetPrice dto)) k (uo_description dto)))
      else mret ()) ≫= λ _, sql_update (with_catalog (mirror_items z k (mirrored_offer to_numeric exact_numeric (uo_targetPrice dto)))))
    ≫= λ _, mret {| or_targetPrice := uo_targetPrice dto; or_cadernoId := k;
              or_storeId := truthy (uo_storeId dto); or_affectedStores := names |}) e3 = (r, e')) as Hr'.
  { rewrite <- Hr. rewrite !ebind_eq. destruct (pushToErp _ _) as [[]]; [|done]. rewrite !ebind_eq.
    destruct scoped; cbn; [done|]. by destruct (sql_update _ _) as [[]]. }
  clear Hr. eapply push_then_mirror in Hr'.
  2:{ intros e4 r4 e5 _ H4. exact (two_updates _ _ _ _ _ _ H4). }
  destruct r as [o|x].
  - destruct Hr' as (-> & He' & Hd'). exists k, names. split; [done|]. constructor.
    exists z, p, ext, (c_baseUrl creds), scoped. split_and!; try done.
    + rewrite He'. congruence.
    + rewrite Hd', Hd3, Hd2, Hd1. unfold offer_mirror. by destruct scoped.
  - apply (thrown_from _ _ e3); [split; congruence|]. destruct Hr' as [Hd' Hw]. split; [done|].
    destruct Hw as [?|[(u & Hu & <-) ?]]; [by left|]. right. split; [|done]. eexists; split; [done|].
    split; [by repeat eexists|]. intros Hs. rewrite Hs in Hk. destruct names; [done|].
    destruct Hk as [-> _]. by repeat eexists.
Qed.

End CatalogLaws.
