(* ===== verification/CatalogContract.v ===== *)
(** The contract of the price and offer write-back in terms of what other
    components read: the prices of [Suggestions.eff_price] and the offers of
    the product rows after a call, and [PriceWriterLaws] for
    [catalog_writer]. *)

From Stdlib Require Import Ascii String.
From S2P Require Import Prelude JsText JsNumber JsDate Enums Messages World Outbox Classification SuggestionEngine PricingDb SuggestionRules Suggestions PricingApply PricingApplyLaws PricingRuns Erp CatalogMutation ApplyPrice CatalogLaws.
Open Scope string_scope.
Open Scope list_scope.
Open Scope Z_scope.

Section Contract.
Context {N : Type} `{JsNum N}.
Variable decrypt : string → Res string.
Variable to_numeric : nat → N → Numeric.
Variable exact_numeric : N → Numeric.
Variable collate_le : string → string → bool.
Implicit Types (e : Env N).

Abbreviation do_price := (updatePrice decrypt to_numeric).
Abbreviation do_offer := (upsertOffer decrypt to_numeric exact_numeric collate_le).
Abbreviation products e := (ct_products (catalog (e_db e))).
Abbreviation items e := (ct_productItems (catalog (e_db e))).
Abbreviation book e := (ct_offerBook (catalog (e_db e))).

(* ------------------------------------------------------------------ *)
(** * The interface                                                     *)
(* ------------------------------------------------------------------ *)

Lemma thrown_outcome {A} (w W : ErpWrite N → Prop) (ok : A → Prop) e x e' :
  (∀ u, w u → W u) → thrown w e x e' → push_outcome W ok e (Throw x) e'.
Proof.
  intros Hw [Hd He]. split.
  - destruct Hd as [->|(_ & f & ->)]; [|by eexists]. exists (catalog (e_db e)). by destruct (e_db e) as [? ? []].
  - destruct He as [->|((u & -> & Hu) & m & ->)].
    + exists []. rewrite app_nil_r. split; [done|]. split; [by left|done].
    + exists [u]. split; [done|]. split; [right; exists u; auto|done].
Qed.

Lemma safe_find_product ean z : ean_cast ean = Ok z → safe (find_product (N := N) ean).
Proof. intros Hz. apply safe_stmt. intros db. simpl. by rewrite Hz. Qed.

Lemma safe_active_store slug s : safe (active_store (N := N) slug s).
Proof.
  apply safe_bind.
  { apply safe_bind; [eauto with erp|]. intros []; eauto with erp. }
  intros t. apply safe_bind; [apply safe_query|]. intros [st|]; [|eauto with erp]. case_match; eauto with erp.
Qed.

Lemma safe_cred slug : safe (credentials (N := N) decrypt slug).
Proof. apply safe_bind; [eauto with erp|]. intros []; eauto with erp. Qed.

Lemma safe_push (w : ErpWrite N) : safe (pushToErp (erp_post w)).
Proof. apply safe_try; eauto with erp. Qed.

Lemma safe_update_product ean f z : ean_cast ean = Ok z → safe (update_product (N := N) ean f).
Proof. intros Hz. apply safe_stmt. intros db. simpl. rewrite Hz. simpl. by case_match. Qed.

Lemma safe_updatePrice slug ean price store z : ean_cast ean = Ok z → safe (do_price slug ean price store).
Proof.
  intros Hz. apply safe_bind; [by eapply safe_find_product|]. intros [[z' p]|]; [|eauto with erp].
  case_match; [eauto with erp|]. case_match; [|eauto with erp].
  apply safe_bind.
  { case_match; [|eauto with erp]. apply safe_bind; [apply safe_active_store|eauto with erp]. }
  intros so. apply safe_bind; [apply safe_cred|]. intros creds. apply safe_bind; [apply safe_push|]. intros _.
  apply safe_bind; [|eauto with erp]. destruct so as [[]|]; [apply safe_update|].
  apply safe_bind; [by eapply safe_update_product|eauto with erp].
Qed.

Lemma safe_upsertOffer slug ean dto scoped z :
  ean_cast ean = Ok z → uo_storeId dto = None → safe (do_offer slug ean dto scoped).
Proof.
  intros Hz Hs. apply safe_bind; [by eapply safe_find_product|]. intros [[z' p]|]; [|eauto with erp].
  case_match; [|eauto with erp]. rewrite Hs. apply safe_bind; [apply safe_ret|]. intros [[k sc] names].
  apply safe_bind; [apply safe_cred|]. intros creds. apply safe_bind; [apply safe_push|]. intros _.
  apply safe_bind; [destruct sc; eauto with erp|]. intros _. apply safe_bind; eauto with erp.
Qed.

(** The catalogue keeps what the step of the pipeline relies on. *)
#[export] Instance catalog_writer_laws :
  @PriceWriterLaws N (catalog_writer decrypt to_numeric exact_numeric collate_le).
Proof.
  constructor.
  - intros slug ean price store e r e' Hr. apply updatePrice_cases in Hr. destruct r as [pr|x].
    + destruct Hr as (-> & [(z & p & ext & url & st & _ & _ & _ & _ & _ & _ & _ & He & Hd)]).
      split; [by eexists|]. eexists; split; [exact He|]. split; [|done]. by repeat eexists.
    + eapply thrown_outcome; [|exact Hr]. auto.
  - intros slug ean dto scoped e r e' Hs Hr. apply upsertOffer_cases in Hr. rewrite Hs in Hr. destruct r as [o|x].
    + destruct Hr as (k & names & -> & [(z & p & ext & url & sc & _ & _ & _ & _ & _ & Hk & He & Hd)]).
      rewrite Hs in Hk. destruct names; [done|]. destruct Hk as [-> _].
      split; [by eexists|]. eexists; split; [exact He|]. split; [|done]. by repeat eexists.
    + eapply thrown_outcome; [|exact Hr]. intros u [_ Hu]. by apply Hu.
  - intros slug ean price store e z Hz He. by eapply safe_updatePrice.
  - intros slug ean dto scoped e z Hz Hs He. by eapply safe_upsertOffer.
Qed.

(* ------------------------------------------------------------------ *)
(** * What the readers see                                              *)
(* ------------------------------------------------------------------ *)

Lemma catalog_with_catalog f (db : PricingDb N) : catalog (with_catalog f db) = f (catalog db).
Proof. done. Qed.

Lemma mirror_items_products z k f (c : Catalog N) : ct_products (mirror_items z k f c) = ct_products c.
Proof. unfold mirror_items. by case_match. Qed.

Lemma mirror_items_book z k f (c : Catalog N) : ct_offerBook (mirror_items z k f c) = ct_offerBook c.
Proof. unfold mirror_items. by case_match. Qed.

Lemma mirror_items_lookup z k f (c : Catalog N) key p :
  ct_products c !! z = Some p →
  ct_productItems (mirror_items z k f c) !! key
  = (λ i, if String.eqb key.1 (p_id p) && bool_decide (pi_offer_external_id i = Some k)
          then with_item_offer (f p i) i else i) <$> ct_productItems c !! key.
Proof.
  intros Hp. unfold mirror_items. rewrite Hp. cbn. rewrite map_lookup_imap.
  by destruct (ct_productItems c !! key).
Qed.

(** A price call that returns has written to the ERP once, the price it
    was given, for a live, unmonitored product of the ERP and for the
    store's own unit when a store is named; afterwards the price a reader
    sees for that product and store is the one written (rounded to the
    column), and every other product and every other store's row is as
    before.  A call that throws leaves nothing that can commit, has written
    at most that one price, and has not touched the ERP when the error is a
    conflict or a missing row. *)
Theorem price_write_back slug ean price store e r e' :
  do_price slug ean price store e = (r, e') →
  match r with
  | Ok pr =>
      pr = {| pr_price := price; pr_storeId := store |}
      ∧ price_written to_numeric slug ean price store e e'
      ∧ (∀ z p', ean_cast ean = Ok z → products e' !! z = Some p' →
           match truthy store with
           | Some s => eff_price (items e' !! (p_id p', s)) p' = Some (to_numeric 2 price)
           | None => p_price p' = Some (to_numeric 2 price)
           end)
      ∧ (∀ z, ean_cast ean ≠ Ok z → products e' !! z = products e !! z)
      ∧ (∀ key, truthy store ≠ Some key.2 → items e' !! key = items e !! key)
  | Throw x =>
      rolled_back e e'
      ∧ (e_erp e' = e_erp e ∨ ∃ w, is_price_write price w ∧ e_erp e' = e_erp e ++ [w])
      ∧ (permanent x = true → e_erp e' = e_erp e)
  end.
Proof.
  intros Hr. apply updatePrice_cases in Hr. destruct r as [pr|x].
  - destruct Hr as (-> & Hw). split; [done|]. split; [done|].
    destruct Hw as [(z & p & ext & url & st & Hz & Hp & _ & _ & _ & _ & _ & _ & Hd)]. rewrite Hd.
    rewrite catalog_with_catalog. unfold price_mirror.
    destruct (truthy store) as [s|]; cbn [set_products set_productItems ct_products ct_productItems]; split_and!.
    + intros z0 p' Hz0 Hp'. assert (p' = p) as -> by congruence. by rewrite lookup_insert_eq.
    + done.
    + intros [k1 k2] Hne. cbn in Hne. rewrite lookup_insert_ne; [done|]. congruence.
    + intros z0 p' Hz0 Hp'. rewrite Hz in Hz0. injection Hz0 as <-.
      rewrite lookup_insert_eq in Hp'. by injection Hp' as <-.
    + intros z0 Hne. rewrite lookup_insert_ne; [done|]. congruence.
    + done.
  - destruct Hr as [Hd Hw]. split; [done|]. destruct Hw as [->|((u & -> & Hu) & m & ->)].
    + split; [by left|done].
    + split; [right; by exists u|done].
Qed.

(** [C17] An offer call that returns has written the offer to the ERP once,
    into the caderno of the named store when there is one; afterwards every
    store row that caderno wins carries the offer, but only where it does
    not exceed the store's shelf price, rows of other cadernos and products
    are as before, and the network's offer row changes only when the call is
    not scoped to a store, keeping its description when none is sent. *)
Theorem offer_write_back slug ean dto scoped0 e o e' :
  do_offer slug ean dto scoped0 e = (Ok o, e') →
  ∃ k names z p url ext,
    o = {| or_targetPrice := uo_targetPrice dto; or_cadernoId := k;
           or_storeId := truthy (uo_storeId dto); or_affectedStores := names |}
    ∧ ean_cast ean = Ok z ∧ products e !! z = Some p ∧ truthy (p_externalId p) = Some ext
    ∧ e_erp e' = e_erp e ++ [WriteOffer url k (js_Number ext) (Some (uo_targetPrice dto))]
    ∧ match truthy (uo_storeId dto), names with
      | Some s, Some l => caderno_resolved slug ean s (catalog (e_db e)) k l
      | None, None => k = uo_cadernoId dto
      | _, _ => False
      end
    ∧ products e' = products e
    ∧ (∀ key i, items e !! key = Some i → key.1 = p_id p → pi_offer_external_id i = Some k →
         ∃ i', items e' !! key = Some i' ∧ pi_price i' = pi_price i ∧
           ∀ t, pi_price_offer i' = Some t ↔
             t = to_numeric 2 (uo_targetPrice dto) ∧ ∃ shelf, eff_price (Some i) p = Some shelf
               ∧ numeric_le (exact_numeric (uo_targetPrice dto)) shelf = true)
    ∧ (∀ key, (key.1 ≠ p_id p ∨ ∀ i, items e !! key = Some i → pi_offer_external_id i ≠ Some k) →
         items e' !! key = items e !! key)
    ∧ (∀ z', z' ≠ z → book e' !! z' = book e !! z')
    ∧ book e' !! z =
        (if match truthy (uo_storeId dto) with Some _ => true | None => scoped0 end then book e !! z
         else Some {| of_description := COALESCE (uo_description dto) (book e !! z ≫= of_description);
                      of_target_price := Some (to_numeric 2 (uo_targetPrice dto)); of_external_id := Some k |}).
Proof.
  intros Hr. apply upsertOffer_cases in Hr as (k & names & -> & [Hw]).
  destruct Hw as (z & p & ext & url & scoped & Hz & Hp & _ & Hext & _ & Hk & He & Hd).
  exists k, names, z, p, url, ext. rewrite Hd, catalog_with_catalog. unfold offer_mirror.
  set (c := if scoped then catalog (e_db e) else _).
  assert (ct_products c = products e ∧ ct_productItems c = items e) as [Hcp Hci] by by destruct scoped.
  assert (ct_products c !! z = Some p) as Hpc by by rewrite Hcp.
  rewrite mirror_items_products, mirror_items_book, Hcp. split_and!; try done.
  - destruct (truthy (uo_storeId dto)), names; naive_solver.
  - intros key i Hi Hk1 Hk2. rewrite (mirror_items_lookup _ _ _ _ _ p), Hci, Hi by done. cbn.
    rewrite Hk1, String.eqb_refl, bool_decide_true by done. eexists; split; [done|]. split; [done|]. cbn.
    unfold mirrored_offer, eff_price. cbn. intros t. destruct (COALESCE (pi_price i) (p_price p)) as [shelf|].
    + destruct (numeric_le _ shelf) eqn:Hle; naive_solver congruence.
    + naive_solver.
  - intros key Hne. rewrite (mirror_items_lookup _ _ _ _ _ p), Hci by done.
    destruct (items e !! key) as [i|] eqn:Hi; [|done]. cbn. f_equal. destruct (_ && _) eqn:Hb; [|done].
    apply andb_true_iff in Hb as [Hb1%String.eqb_eq Hb2%bool_decide_eq_true]. naive_solver.
  - intros z' Hne. unfold c. destruct scoped; [done|]. cbn. by rewrite lookup_insert_ne.
  - assert (match truthy (uo_storeId dto) with Some _ => true | None => scoped0 end = scoped) as ->
      by (destruct (truthy (uo_storeId dto)), names; naive_solver).
    unfold c. destruct scoped; [done|]. cbn. rewrite lookup_insert_eq. do 2 f_equal.
    by destruct (uo_description dto).
Qed.

End Contract.

Definition cc_env : Env F64 :=
  Build_Env (Build_Db ∅ [] (Build_PricingData ap_catalog ∅ [] ∅)) [] [] [] false.
Definition cc_le (a b : string) : bool := negb (str_ltb b a).

Definition cc_price : Res (PriceResult F64) * Env F64 :=
  Eval vm_compute in updatePrice Ok two_decimals "acme" "1001" (n_dec 1990 2) (Some "s1") cc_env.

Lemma price_write_back_witness :
  updatePrice Ok two_decimals "acme" "1001" (n_dec 1990 2 : F64) (Some "s1") cc_env = cc_price
  ∧ isOk cc_price.1 = true
  ∧ ct_productItems (catalog (e_db cc_price.2)) !! ("p2", "s1") = ct_productItems (catalog (e_db cc_env)) !! ("p2", "s1").
Proof.
  assert (updatePrice Ok two_decimals "acme" "1001" (n_dec 1990 2 : F64) (Some "s1") cc_env = cc_price) as E
    by (vm_compute; reflexivity).
  split; [exact E|]. split; [reflexivity|].
  destruct (price_write_back Ok two_decimals "acme" "1001" (n_dec 1990 2) (Some "s1") cc_env
    cc_price.1 cc_price.2) as (_ & _ & _ & _ & _); [exact E|]. vm_compute. reflexivity.
Defined.

Definition cc_dto : UpsertOfferDto F64 :=
  {| uo_targetPrice := n_dec 1550 2; uo_cadernoId := 3; uo_description := None; uo_storeId := Some "s1" |}.
Definition cc_offer : OfferResult F64 * Env F64 :=
  Eval vm_compute in
    match upsertOffer Ok two_decimals (two_decimals 2) cc_le "acme" "1001" cc_dto false cc_env with
    | (Ok o, e') => (o, e')
    | (Throw _, e') => ({| or_targetPrice := n_int 0; or_cadernoId := 0; or_storeId := None; or_affectedStores := None |}, e')
    end.

Lemma offer_write_back_witness :
  upsertOffer Ok two_decimals (two_decimals 2) cc_le "acme" "1001" cc_dto false cc_env = (Ok cc_offer.1, cc_offer.2)
  ∧ or_cadernoId cc_offer.1 = 9 ∧ or_affectedStores cc_offer.1 = Some ["Centro"]
  ∧ ct_products (catalog (e_db cc_offer.2)) = ct_products (catalog (e_db cc_env)).
Proof.
  assert (upsertOffer Ok two_decimals (two_decimals 2) cc_le "acme" "1001" cc_dto false cc_env
    = (Ok cc_offer.1, cc_offer.2)) as E by (vm_compute; reflexivity).
  split; [exact E|]. split; [reflexivity|]. split; [reflexivity|].
  destruct (offer_write_back _ _ _ _ _ _ _ _ _ _ _ E) as (k & names & z & p & url & ext & _ & _ & _ & _ & _ & _ & Hp & _).
  exact Hp.
Defined.
