(* ===== verification/ApplyPriceLaws.v ===== *)
(** The price step is money-safe as far as it can be: a run that returns has
    settled every pending item of its batch, written to the ERP at most once
    per item and exactly once per item it reports as applied, and counted
    exactly that; it returns whatever the ERP does, as long as the database
    does not fail; a redelivery after the commit writes nothing. *)

From Stdlib Require Import Ascii String.
From S2P Require Import Prelude JsText JsNumber JsDate Enums Messages World Outbox Classification SuggestionEngine PricingDb SuggestionRules Suggestions PricingApply PricingApplyLaws PricingRuns Erp CatalogMutation ApplyPrice Promotion.
Open Scope string_scope.
Open Scope list_scope.
Open Scope Z_scope.

Lemma NoDup_fmap_filter {A B} (f : A → B) (P : A → Prop) `{∀ x, Decision (P x)} (l : list A) :
  NoDup (f <$> l) → NoDup (f <$> filter P l).
Proof.
  induction l as [|x l IH]; [done|]. rewrite fmap_cons, NoDup_cons. intros [Hx Hl].
  rewrite filter_cons. case_decide; [|auto]. rewrite fmap_cons, NoDup_cons. split; [|auto].
  intros (y & Heq & [_ Hy]%list_elem_of_filter)%list_elem_of_fmap. apply Hx. rewrite Heq.
  by apply list_elem_of_fmap_2.
Qed.

Lemma Forall2_impl_elem {A B} (P Q : A → B → Prop) l k :
  Forall2 P l k → (∀ x y, x ∈ l → P x y → Q x y) → Forall2 Q l k.
Proof.
  induction 1 as [|x y l k HP HF IH]; intros Hi; constructor.
  - apply Hi; [left|done].
  - apply IH. intros x' y' Hx. apply Hi. by right.
Qed.

Section StepLaws.
Context {N : Type} `{JsNum N} `{PL : PriceWriterLaws N}.
Variable num_text : N → string.
Variable collate_le : string → string → bool.
Implicit Types (e : Env N) (i : ApplyItem) (c : Counts).

Abbreviation do_run := (step_run num_text collate_le).
Abbreviation do_item := (process_item num_text collate_le).
Abbreviation do_items := (process_items num_text collate_le).

(* ------------------------------------------------------------------ *)
(** * Outcomes                                                          *)
(* ------------------------------------------------------------------ *)

(** The write an item stands for. *)
Definition item_write (i : ApplyItem) : ErpWrite N → Prop :=
  match ai_target i with
  | precoVenda => is_price_write (dec_of (ai_price i))
  | precoOferta => is_offer_write (default 0 (ai_cadernoId i)) (dec_of (ai_price i))
  end.

(** What the step decided for an item, and the writes it made for it. *)
Record Outcome := {
  oc_status : ApplyItemStatus; oc_reason : option string; oc_result : option string; oc_writes : list (ErpWrite N);
}.

Definition settles (i : ApplyItem) (o : Outcome) : Prop :=
  match oc_status o with
  | item_pending => False
  | item_applied => ∃ w, oc_writes o = [w] ∧ item_write i w
  | item_skipped => oc_writes o = []
  | item_failed => oc_writes o = []
      ∨ oc_reason o = Some "erro_transitorio" ∧ ∃ w, oc_writes o = [w] ∧ item_write i w
  end.

(** The row of a settled item. *)
Definition settled (now : Z) (o : Outcome) (i : ApplyItem) : ApplyItem :=
  item_marked now (oc_status o) (oc_reason o) (oc_result o) i.

Definition settle_one (now : Z) (id : string) (o : Outcome) (items : list ApplyItem) : list ApplyItem :=
  (λ j, if String.eqb (ai_id j) id then settled now o j else j) <$> items.

(** Only the catalogue and the items changed. *)
Definition same_but (e e' : Env N) (f : list ApplyItem → list ApplyItem) : Prop :=
  ∃ cat, e_db e' = set_applyItems (f (applyItems (e_db e))) (set_catalog cat (e_db e)).

Lemma applyItems_set_catalog cat (db : PricingDb N) : applyItems (set_catalog cat db) = applyItems db.
Proof. done. Qed.

Lemma mark_Ok now id st reason res e u e' :
  mark now id st reason res e = (Ok u, e') →
  e_erp e' = e_erp e
  ∧ e_db e' = set_applyItems ((λ i, if String.eqb (ai_id i) id then item_marked now st reason res i else i)
                <$> applyItems (e_db e)) (e_db e).
Proof. intros Hm. apply update_Ok in Hm as [-> ->]. done. Qed.

Lemma reads_storesInCaderno slug ean k : reads (storesInCaderno (N := N) collate_le slug ean k).
Proof. apply reads_stmt. intros db a db'. simpl. destruct (ean_cast ean); simpl; congruence. Qed.

Lemma outcome_weaken {A B} (W W' : ErpWrite N → Prop) (ok : A → Prop) (ok' : B → Prop) e r r' e' :
  (∀ w, W w → W' w) →
  match r, r' with Ok a, Ok b => ok a → ok' b | Throw x, Throw y => x = y | _, _ => False end →
  push_outcome W ok e r e' → push_outcome W' ok' e r' e'.
Proof.
  intros HW Hr [Hd (ws & He & Hc)]. split; [done|]. exists ws. split; [done|]. destruct r, r'; try done.
  - destruct Hc as [(w & -> & ?) ?]. split; [exists w; auto|auto].
  - subst. destruct Hc as [[->|(w & -> & ?)] Hp]; (split; [|done]); [by left|right; exists w; auto].
Qed.

Lemma outcome_from {A} (W : ErpWrite N → Prop) (ok : A → Prop) e0 e r e' :
  e_db e = e_db e0 ∧ e_erp e = e_erp e0 → push_outcome W ok e r e' → push_outcome W ok e0 r e'.
Proof. unfold push_outcome. by intros [-> ->]. Qed.

Lemma outcome_none {A} (W : ErpWrite N → Prop) (ok : A → Prop) e x :
  push_outcome W ok e (Throw x) e.
Proof.
  split; [exists (catalog (e_db e)); by destruct (e_db e) as [? ? []]|]. exists []. rewrite app_nil_r.
  split; [done|]. split; [by left|done].
Qed.

Lemma applyOne_outcome slug i e r e' :
  applyOne num_text collate_le slug i e = (r, e') → push_outcome (item_write i) (λ _, True) e r e'.
Proof.
  unfold applyOne, item_write. destruct (ai_target i); intros Hr.
  - rewrite ebind_eq in Hr. destruct (pw_updatePrice _ _ _ _ _) as [[a|x] e1] eqn:E;
      apply pw_updatePrice_outcome in E; injection Hr as <- <-; (eapply outcome_weaken; [| |exact E]; done).
  - erp_bind Hr aff e1 E1.
    2:{ injection Hr as <- <-. destruct (truthy (ai_storeId i)); [|done].
        erp_bind E1 l e2 E2; [done|]. injection E1 as -> ->.
        eapply outcome_from; [|apply outcome_none]. destruct (reads_storesInCaderno _ _ _ _ _ _ E2). done. }
    assert (e_db e1 = e_db e ∧ e_erp e1 = e_erp e) as Hf.
    { destruct (truthy (ai_storeId i)); [|by injection E1 as <- <-].
      erp_bind E1 l e2 E2; [|done]. injection E1 as <- <-. by apply reads_storesInCaderno in E2. }
    rewrite ebind_eq in Hr. destruct (pw_upsertOffer _ _ _ _ _) as [[a|x] e2] eqn:E;
      apply pw_upsertOffer_outcome in E; try done; injection Hr as <- <-;
      (eapply outcome_from; [exact Hf|eapply outcome_weaken; [| |exact E]; done]).
Qed.

Lemma mapPermanent_settles err st reason :
  mapPermanent err = Some (st, reason) → permanent err = true ∧ (st = item_skipped ∨ st = item_failed).
Proof.
  unfold mapPermanent. destruct (permanent err); [|done]. simpl. intros Hm. split; [done|].
  repeat case_match; injection Hm as <- <-; auto.
Qed.

(** One round: the item is settled, its writes are appended, and nothing else
    is touched. *)
Lemma process_item_Ok now slug ctx i e st e' :
  do_item now slug ctx i e = (Ok st, e') →
  ∃ o, oc_status o = st ∧ settles i o ∧ e_erp e' = e_erp e ++ oc_writes o
    ∧ same_but e e' (settle_one now (ai_id i) o)
    ∧ (in_campaign ctx i = true → st = item_skipped ∧ oc_writes o = []).
Proof.
  unfold process_item. destruct (in_campaign ctx i).
  - intros Hr. erp_bind Hr u e1 E1; [|done]. injection Hr as <- <-. apply mark_Ok in E1 as [He Hd].
    exists {| oc_status := item_skipped; oc_reason := Some "em_campanha"; oc_result := None; oc_writes := [] |}.
    cbn. rewrite app_nil_r. split_and!; try done. exists (catalog (e_db e)). rewrite Hd.
    by destruct (e_db e) as [? ? []].
  - intros Hr. unfold etry in Hr. rewrite ebind_eq in Hr.
    destruct (applyOne _ _ _ _ _) as [[res|x] e1] eqn:E1; apply applyOne_outcome in E1 as [(cat & Hc) (ws & He1 & Hw)].
    + destruct Hw as [(w & -> & Hw) _]. rewrite ebind_eq in Hr.
      destruct (mark _ _ item_applied _ _ _) as [[u|x] e2] eqn:E2.
      * injection Hr as <- <-. apply mark_Ok in E2 as [He2 Hd2].
        exists {| oc_status := item_applied; oc_reason := None; oc_result := Some res; oc_writes := [w] |}.
        cbn. split_and!; try done; [by exists w|congruence|]. exists cat. by rewrite Hd2, Hc.
      * exfalso. apply sql_stmt_cases in E2 as (_ & _ & _ & Hab).
        cbn beta in Hr. destruct (default _ _) as [st' reason]. rewrite ebind_eq in Hr. unfold mark, sql_update, sql_stmt in Hr.
        by rewrite Hab in Hr.
    + destruct Hw as [Hw Hp]. destruct (mapPermanent x) as [[st' reason]|] eqn:Hmp; cbn beta iota delta [default from_option id] in Hr.
      * apply mapPermanent_settles in Hmp as [Hperm Hst]. rewrite (Hp Hperm) in He1.
        erp_bind Hr u e2 E2; [|done]. injection Hr as <- <-. apply mark_Ok in E2 as [He2 Hd2].
        exists {| oc_status := st'; oc_reason := Some reason; oc_result := None; oc_writes := [] |}.
        cbn. split_and!; try done; [|congruence|exists cat; by rewrite Hd2, Hc].
        unfold settles. cbn. destruct Hst as [-> | ->]; auto.
      * erp_bind Hr u e2 E2; [|done]. injection Hr as <- <-. apply mark_Ok in E2 as [He2 Hd2].
        exists {| oc_status := item_failed; oc_reason := Some "erro_transitorio"; oc_result := None; oc_writes := ws |}.
        cbn. split_and!; try done; [|congruence|exists cat; by rewrite Hd2, Hc].
        unfold settles. cbn. destruct Hw as [->|Hw]; auto.
Qed.

(* ------------------------------------------------------------------ *)
(** * The loop                                                          *)
(* ------------------------------------------------------------------ *)

Definition tally (outs : list Outcome) (c : Counts) : Counts := foldl (λ c o, count (oc_status o) c) c outs.

Definition settle_list (now : Z) (l : list (string * Outcome)) (items : list ApplyItem) : list ApplyItem :=
  foldl (λ items '(id, o), settle_one now id o items) items l.

Lemma same_but_trans e1 e2 e3 f g : same_but e1 e2 f → same_but e2 e3 g → same_but e1 e3 (λ l, g (f l)).
Proof. intros (c1 & H1) (c2 & H2). exists c2. by rewrite H2, H1. Qed.

Lemma process_items_Ok now slug ctx items c e c' e' :
  do_items now slug ctx items c e = (Ok c', e') →
  ∃ outs, Forall2 settles items outs ∧ c' = tally outs c
    ∧ e_erp e' = e_erp e ++ concat (oc_writes <$> outs)
    ∧ same_but e e' (settle_list now (zip (ai_id <$> items) outs))
    ∧ Forall2 (λ i o, in_campaign ctx i = true → oc_status o = item_skipped ∧ oc_writes o = []) items outs.
Proof.
  revert c e. induction items as [|i items IH]; intros c e; simpl.
  - intros [= <- <-]. exists []. cbn. rewrite app_nil_r. split_and!; try done.
    exists (catalog (e_db e)). by destruct (e_db e) as [? ? []].
  - intros Hr. erp_bind Hr st e1 E1; [|done].
    apply process_item_Ok in E1 as (o & <- & Hs & He1 & Hd1 & Hc1).
    apply IH in Hr as (outs & Hss & -> & He' & Hd' & Hcs).
    exists (o :: outs). cbn. split_and!; try done.
    + by constructor.
    + by rewrite He', He1, <- app_assoc.
    + exact (same_but_trans _ _ _ _ _ Hd1 Hd').
    + by constructor.
Qed.

(** With distinct ids the loop's updates are one pass over the table. *)
Definition settle_by (now : Z) (l : list (string * Outcome)) (j : ApplyItem) : ApplyItem :=
  match js_map_get (ai_id j) l with Some o => settled now o j | None => j end.

Lemma settle_list_pass now l items :
  NoDup l.*1 → settle_list now l items = settle_by now l <$> items.
Proof.
  revert items. induction l as [|[id o] l IH]; intros items Hnd; cbn.
  - symmetry. induction items as [|j items IHi]; [done|]. rewrite fmap_cons, IHi. done.
  - apply NoDup_cons in Hnd as [Hni Hnd]. fold (settle_list now l (settle_one now id o items)).
    rewrite IH by done. unfold settle_one. rewrite <- list_fmap_compose. apply list_fmap_ext.
    intros k j _. unfold settle_by, compose. cbn. destruct (String.eqb_spec (ai_id j) id) as [Heq|Hne].
    + cbn. rewrite Heq, decide_True by done. destruct (js_map_get _ _) as [o'|] eqn:Hg; [|done].
      destruct Hni. apply js_map_get_elem in Hg. apply list_elem_of_fmap. by exists (id, o').
    + by rewrite decide_False.
Qed.

Lemma settles_not_pending i o : settles i o → oc_status o ≠ item_pending.
Proof. unfold settles. by destruct (oc_status o). Qed.

Lemma js_map_get_zip {V} (k : string) (ks : list string) (vs : list V) :
  length ks = length vs → k ∈ ks → is_Some (js_map_get k (zip ks vs)).
Proof.
  revert vs. induction ks as [|k' ks IH]; intros [|v vs] Hl; try done; cbn; [by intros ?%elem_of_nil|].
  intros [->|Hin]%elem_of_cons; [by rewrite decide_True|]. case_decide; [done|]. auto.
Qed.

Lemma js_map_get_zip_Forall2 {V} (P : ApplyItem → V → Prop) k l vs v :
  Forall2 P l vs → js_map_get k (zip (ai_id <$> l) vs) = Some v → ∃ i, i ∈ l ∧ ai_id i = k ∧ P i v.
Proof.
  induction 1 as [|i v0 l vs HP HF IH]; cbn; [done|]. case_decide.
  - intros [= ->]. exists i. by split; [left|].
  - intros (j & ? & ? & ?)%IH. exists j. by split; [right|].
Qed.

(** After the pass no item of the batch is pending. *)
Lemma settled_none_pending now runId seq items outs :
  let batch := filter (λ i, pending_of runId seq i = true) items in
  Forall2 settles batch outs →
  filter (λ i, pending_of runId seq i = true) (settle_by now (zip (ai_id <$> batch) outs) <$> items) = [].
Proof.
  intros batch HF. destruct (filter _ (_ <$> items)) as [|j l] eqn:Hf; [done|exfalso].
  assert (j ∈ filter (λ i, pending_of runId seq i = true) (settle_by now (zip (ai_id <$> batch) outs) <$> items))
    as [Hp (j0 & -> & Hj0)%list_elem_of_fmap]%list_elem_of_filter by (rewrite Hf; left).
  unfold settle_by in Hp. destruct (js_map_get _ _) as [o|] eqn:Hg.
  - apply (js_map_get_zip_Forall2 _ _ _ _ _ HF) in Hg as (i & _ & _ & Hs).
    apply settles_not_pending in Hs. apply bool_decide_eq_true in Hp as (_ & _ & Hst). by cbn in Hst.
  - destruct (js_map_get_zip (ai_id j0) (ai_id <$> batch) outs) as [o Ho]; [| |congruence].
    + rewrite length_fmap. by eapply Forall2_length.
    + apply list_elem_of_fmap. exists j0. split; [done|]. by apply list_elem_of_filter.
Qed.

(* ------------------------------------------------------------------ *)
(** * The step                                                          *)
(* ------------------------------------------------------------------ *)

Definition batch_of (runId : string) (seq : Z) (db : PricingDb N) : list ApplyItem :=
  filter (λ i, pending_of runId seq i = true) (applyItems db).

(** What a returning run did. *)
Record step_done (now : Z) (runId : string) (seq : Z) e e' (outs : list Outcome) : Prop := {
  sd_settles : Forall2 settles (batch_of runId seq (e_db e)) outs;
  sd_erp : e_erp e' = e_erp e ++ concat (oc_writes <$> outs);
  sd_items : applyItems (e_db e') =
    settle_by now (zip (ai_id <$> batch_of runId seq (e_db e)) outs) <$> applyItems (e_db e);
  sd_runs : applyRuns (e_db e') = alter (add_counts (tally outs (0, 0, 0))) runId (applyRuns (e_db e));
  sd_outbox : db_outbox (e_db e') = db_outbox (e_db e);
  sd_promotions : Forall canonical (batch_of runId seq (e_db e)) →
    Forall2 (λ i o, ∀ z, is_venda i = true → ai_ean i = ean_text z →
      on_promotion now (catalog (e_db e)) z (ai_storeId i) = true →
      oc_status o = item_skipped ∧ oc_writes o = []) (batch_of runId seq (e_db e)) outs;
}.

Lemma step_run_Ok now slug runId seq e u e' :
  do_run now slug runId seq e = (Ok u, e') → NoDup (ai_id <$> applyItems (e_db e)) →
  ∃ outs, step_done now runId seq e e' outs.
Proof.
  unfold step_run. intros Hr Hnd.
  erp_bind Hr items e1 E1; [|done]. apply query_cases in E1 as (Hd1 & He1 & Hitems).
  fold (batch_of runId seq (e_db e)) in Hitems. subst items.
  erp_bind Hr ctx e2 E2; [|done]. pose proof (reads_load_ctx _ _ _ _ _ E2) as [Hd2 He2].
  erp_bind Hr c e3 E3; [|done]. apply process_items_Ok in E3 as (outs & Hs & -> & He3 & (cat & Hd3) & Hcs).
  apply update_Ok in Hr as [Hd' He']. exists outs. rewrite Hd2, Hd1 in Hd3.
  constructor.
  - done.
  - congruence.
  - rewrite Hd', Hd3. unfold set_applyRuns at 1. cbn [applyItems set_data db_data pd_items].
    change (applyItems (set_applyItems ?f _)) with f. rewrite <- settle_list_pass; [done|].
    rewrite fst_zip by (rewrite length_fmap; apply Forall2_length in Hs; lia).
    by apply NoDup_fmap_filter.
  - by rewrite Hd', Hd3.
  - by rewrite Hd', Hd3.
  - intros Hcan. eapply Forall2_impl_elem; [exact Hcs|]. cbn. intros i o Hi Ho z Hv Hz Hp. apply Ho.
    rewrite (load_ctx_promotion _ _ _ _ _ _ z E2) by done. by rewrite Hd1.
Qed.

(* ------------------------------------------------------------------ *)
(** * The step returns                                                  *)
(* ------------------------------------------------------------------ *)

Definition returns {A} (m : ErpM N A) : Prop := ∀ e, healthy e → ∃ a e', m e = (Ok a, e') ∧ healthy e'.

Lemma returns_ret {A} (a : A) : returns (mret a).
Proof. intros e He. by exists a, e. Qed.
Lemma returns_bind {A B} (m : ErpM N A) (f : A → ErpM N B) : returns m → (∀ a, returns (f a)) → returns (m ≫= f).
Proof.
  intros Hm Hf e He. destruct (Hm e He) as (a & e1 & E & He1). destruct (Hf a e1 He1) as (b & e2 & E2 & He2).
  exists b, e2. by rewrite ebind_eq, E.
Qed.
Lemma returns_stmt {A} (f : Tx N A) : (∀ db, isOk (f db) = true) → returns (sql_stmt f).
Proof.
  intros Hf e He. specialize (Hf (e_db e)). destruct (f (e_db e)) as [[a db']|] eqn:E; [|done].
  destruct (sql_stmt_healthy f e a db' He E) as (l & E' & Hl). eexists _, _. by split.
Qed.
Lemma returns_query {A} (f : PricingDb N → A) : returns (sql_query f).
Proof. by apply returns_stmt. Qed.
Lemma returns_update f : returns (sql_update f).
Proof. by apply returns_stmt. Qed.

Lemma safe_applyOne slug i : canonical i → safe (applyOne num_text collate_le slug i).
Proof.
  intros (z & _ & Hz). unfold applyOne. destruct (ai_target i).
  - apply safe_bind; [|eauto with erp]. intros e He. by eapply pw_updatePrice_healthy.
  - apply safe_bind.
    { case_match; [|eauto with erp]. apply safe_bind; [|eauto with erp]. apply safe_stmt. intros db. by rewrite Hz. }
    intros aff. apply safe_bind; [|eauto with erp]. intros e He. by eapply pw_upsertOffer_healthy.
Qed.

Lemma returns_mark now id st reason res : returns (mark now id st reason res).
Proof. apply returns_update. Qed.

Lemma returns_process_item now slug ctx i : canonical i → returns (do_item now slug ctx i).
Proof.
  intros Hc. unfold process_item. destruct (in_campaign ctx i).
  { apply returns_bind; [apply returns_mark|intros; apply returns_ret]. }
  intros e He. unfold etry. rewrite ebind_eq. pose proof (safe_applyOne slug i Hc e He) as Hs.
  destruct (applyOne _ _ _ _ _) as [[res|x] e1]; cbn in Hs.
  - destruct (returns_bind (mark now (ai_id i) item_applied None (Some res)) (λ _, mret item_applied)
      (returns_mark _ _ _ _ _) (λ _, returns_ret _) e1 Hs) as (a & e2 & -> & He2). by exists a, e2.
  - destruct (default _ _) as [st reason].
    exact (returns_bind _ (λ _, mret st) (returns_mark _ _ _ _ _) (λ _, returns_ret _) e1 Hs).
Qed.

Lemma returns_process_items now slug ctx items c : Forall canonical items → returns (do_items now slug ctx items c).
Proof.
  intros Hc. revert c. induction Hc as [|i items Hi Hc IH]; intros c; [apply returns_ret|].
  apply returns_bind; [by apply returns_process_item|]. intros st. apply IH.
Qed.

Lemma ean_casts_isOk l : (∀ x, x ∈ l → ∃ z, ean_cast x = Ok z) → isOk (ean_casts l) = true.
Proof.
  induction l as [|x l IH]; [done|]. intros Hx. destruct (Hx x) as [z Hz]; [left|].
  change (isOk (z ← ean_cast x; zs ← ean_casts l; Ok (z :: zs)) = true). rewrite Hz. simpl.
  assert (isOk (ean_casts l) = true) as Hl by (apply IH; intros y Hy; apply Hx; by right).
  by destruct (ean_casts l).
Qed.

Lemma returns_casts {A} (l : list string) (g : PricingDb N → list Z → A) :
  (∀ x, x ∈ l → ∃ z, ean_cast x = Ok z) →
  returns (sql_stmt (λ db, zs ← ean_casts l; Ok (g db zs, db))).
Proof.
  intros Hl. apply returns_stmt. intros db. apply ean_casts_isOk in Hl. by destruct (ean_casts l).
Qed.

Lemma returns_load_ctx now items : Forall canonical items → returns (load_ctx now items).
Proof.
  rewrite Forall_forall. intros Hc.
  assert (∀ j, j ∈ filter (λ i, is_venda i = true) items → ∃ z, ean_cast (ai_ean j) = Ok z) as Hv.
  { intros j [_ Hj]%list_elem_of_filter. destruct (Hc j Hj) as (z & _ & ?). by exists z. }
  apply returns_bind.
  { unfold activeCampaignEans. destruct (ai_ean <$> _) as [|x l] eqn:He; [apply returns_ret|].
    apply returns_casts. rewrite <- He. intros y (j & -> & Hj)%list_elem_of_fmap. auto. }
  intros cs. apply returns_bind.
  { unfold storeCadernos. destruct (omap _ _) as [|p l] eqn:He; [apply returns_ret|].
    apply returns_casts. rewrite <- He. intros x Hx. apply (proj1 (js_uniq_elem _ _)) in Hx.
    apply list_elem_of_fmap in Hx as (q & -> & Hq). apply list_elem_of_omap in Hq as (j & Hj & Hjs).
    destruct (ai_storeId j); [|done]. injection Hjs as <-. by apply Hv. }
  intros m. apply returns_bind; [|intros; apply returns_ret].
  unfold activeCampaignCadernos. case_match; [apply returns_ret|apply returns_query].
Qed.

Lemma step_run_returns now slug runId seq e :
  healthy e → Forall canonical (batch_of runId seq (e_db e)) →
  ∃ e', do_run now slug runId seq e = (Ok (), e') ∧ healthy e'.
Proof.
  intros He Hc. unfold step_run. rewrite ebind_eq.
  destruct (returns_query (λ db, batch_of runId seq db) e He) as (items & e1 & E1 & He1).
  unfold load_items. unfold batch_of in E1. rewrite E1.
  apply query_cases in E1 as (_ & _ & ->). fold (batch_of runId seq (e_db e)).
  destruct (returns_bind _ (λ ctx, c ← do_items now slug ctx (batch_of runId seq (e_db e)) (0, 0, 0);
    sql_update (λ db, set_applyRuns (alter (add_counts c) runId (applyRuns db)) db))
    (returns_load_ctx now _ Hc)) with e1 as ([] & e' & E & He'); [|done|by exists e'].
  intros ctx. apply returns_bind; [by apply returns_process_items|]. intros c. apply returns_update.
Qed.

End StepLaws.
