(* ===== verification/MoneySafety.v ===== *)
(** The guarantees of the bulk price application towards the ERP: the
    dispatcher plans every item exactly once and replays to the same plan, a
    returning step settles its batch with at most one ERP write per item, it
    returns unless the database fails, a redelivery after the commit writes
    nothing, and the step is one of the workers of [PricingRuns.evolves].
    [apply_step_pushes_twice] exhibits what the step's comment excludes: a
    statement failing between the push and the item's mark rolls the batch
    back, and the redelivery writes the same price again.  The last part
    shows that the counters of a run tell its items over its whole [life]:
    requests, approvals, rejections, rollbacks, sweeps, the dispatcher and
    the price steps, in any order of committed transactions. *)

From Stdlib Require Import Ascii String.
From S2P Require Import Prelude JsText JsNumber JsDate Enums Messages World Outbox Classification SuggestionEngine PricingDb SuggestionRules Suggestions PricingApply PricingApplyLaws PricingRuns Erp CatalogMutation ApplyPrice Promotion CatalogLaws CatalogContract ApplyPriceLaws.
Open Scope string_scope.
Open Scope list_scope.
Open Scope Z_scope.

Section Claims.
Context {N : Type} `{JsNum N} `{PL : PriceWriterLaws N}.
Variable num_text : N → string.
Variable collate_le : string → string → bool.
Implicit Types (e : Env N) (i : ApplyItem).

Abbreviation do_run := (step_run num_text collate_le).

Lemma count_sum st (c : Counts) :
  st ≠ item_pending → (count st c).1.1 + (count st c).1.2 + (count st c).2 = c.1.1 + c.1.2 + c.2 + 1.
Proof. destruct st; cbn; lia. Qed.

Lemma tally_sum items (outs : list (Outcome (N := N))) c :
  Forall2 settles items outs →
  (tally outs c).1.1 + (tally outs c).1.2 + (tally outs c).2 = c.1.1 + c.1.2 + c.2 + Z.of_nat (length items).
Proof.
  intros HF. revert c. induction HF as [|i o items outs Hs HF IH]; intros c; cbn [tally foldl length]; [lia|].
  fold (tally outs (count (oc_status o) c)). rewrite IH, count_sum by by eapply settles_not_pending. lia.
Qed.

Lemma settles_writes i (o : Outcome (N := N)) : settles i o → (length (oc_writes o) ≤ 1)%nat.
Proof.
  unfold settles. destruct (oc_status o); [done|intros (w & -> & _)|intros ->|intros [->|(_ & w & -> & _)]]; cbn; lia.
Qed.

Lemma writes_bound items (outs : list (Outcome (N := N))) :
  Forall2 settles items outs → (length (concat (oc_writes <$> outs)) ≤ length items)%nat.
Proof.
  induction 1 as [|i o items outs Hs HF IH]; cbn; [lia|]. rewrite length_app.
  apply settles_writes in Hs. lia.
Qed.


(** Whatever the ERP answers (success, refusal, lost answers, in any
    order), the step returns as long as no SQL statement fails by itself. *)
Theorem apply_step_returns now slug runId seq e :
  healthy e → Forall canonical (batch_of runId seq (e_db e)) →
  ∃ e', do_run now slug runId seq e = (Ok (), e') ∧ healthy e'.
Proof. apply step_run_returns. Qed.

(** Once a step has committed, running it again for the same batch (a
    redelivered message) writes nothing to the ERP and leaves the items and
    the counters as they are. *)
Theorem apply_step_redelivery now slug runId seq e u e' now2 e2 u2 e3 :
  do_run now slug runId seq e = (Ok u, e') →
  NoDup (ai_id <$> applyItems (e_db e)) →
  e_db e2 = e_db e' → do_run now2 slug runId seq e2 = (Ok u2, e3) →
  e_erp e3 = e_erp e2 ∧ applyItems (e_db e3) = applyItems (e_db e2)
  ∧ applyRuns (e_db e3) = alter (with_status run_running) runId (applyRuns (e_db e2)).
Proof.
  intros Hr Hnd Hdb Hr2. destruct (step_run_Ok _ _ _ _ _ _ _ _ _ Hr Hnd) as (outs & [Hs _ Hi _ _ _]).
  pose proof (settled_none_pending now runId seq (applyItems (e_db e)) outs Hs) as Hnone.
  fold (batch_of runId seq (e_db e)) in Hnone. rewrite <- Hi in Hnone.
  destruct (step_run_Ok _ _ _ _ _ _ _ _ _ Hr2) as (outs2 & [Hs2 He2 Hi2 Hr2' _ _]).
  { rewrite Hdb, Hi, <- list_fmap_compose.
    erewrite list_fmap_ext; [exact Hnd|]. intros k j _. cbn. unfold settle_by. by destruct (js_map_get _ _). }
  rewrite Hdb in Hs2. unfold batch_of at 1 in Hs2. rewrite Hnone in Hs2. inversion Hs2; subst outs2.
  rewrite He2, Hi2, Hr2'. cbn. rewrite app_nil_r. split; [done|]. split.
  - rewrite zip_with_nil_r. rewrite <- (list_fmap_id (applyItems (e_db e2))) at 2. by apply list_fmap_ext.
  - apply map_eq. intros k. destruct (decide (k = runId)) as [->|Hne]; [|by rewrite !lookup_alter_ne].
    rewrite !lookup_alter_eq. destruct (applyRuns (e_db e2) !! runId) as [r|]; [|done]. cbn. f_equal.
    unfold add_counts, with_counts. cbn. rewrite !Z.add_0_r. by destruct r.
Qed.

Lemma settle_frame now l items (P : ApplyItem → bool) :
  (∀ i o, P (settled (N := N) now o i) = P i) →
  length (filter (λ i, P i = true) (settle_by (N := N) now l <$> items)) = length (filter (λ i, P i = true) items).
Proof.
  intros HP. induction items as [|i items IH]; [done|]. rewrite fmap_cons, !filter_cons.
  assert (P (settle_by now l i) = P i) as -> by (unfold settle_by; destruct (js_map_get _ _); [apply HP|done]).
  case_decide; cbn; by rewrite IH.
Qed.

(** The step is a worker in the life of the runs: committing it keeps
    keys, totals, approvals, the number of items and the staged dispatches
    of every run. *)
Lemma apply_step_is_worker (to_numeric : nat → N → Numeric) (item_uuid : nat → string) now slug runId seq db0 e u e' :
  evolves to_numeric item_uuid db0 (e_db e) →
  do_run now slug runId seq e = (Ok u, e') →
  NoDup (ai_id <$> applyItems (e_db e)) →
  evolves to_numeric item_uuid db0 (e_db e').
Proof.
  intros Hev Hr Hnd. destruct (step_run_Ok _ _ _ _ _ _ _ _ _ Hr Hnd) as (outs & [_ _ Hi Hruns Hout _]).
  eapply ev_worker; [exact Hev|]. split_and!.
  - rewrite Hruns. apply map_eq. intros k. rewrite !lookup_fmap.
    destruct (decide (k = runId)) as [->|Hne]; [|by rewrite lookup_alter_ne].
    rewrite lookup_alter_eq. by destruct (applyRuns (e_db e) !! runId).
  - intros id. unfold items_of. rewrite Hi.
    pose proof (settle_frame now (zip (ai_id <$> batch_of runId seq (e_db e)) outs) (applyItems (e_db e))
      (λ i, bool_decide (ai_applyRunId i = id))) as Hf.
    rewrite (list_filter_iff _ (λ i, bool_decide (ai_applyRunId i = id) = true)), Hf; [|done|].
    + f_equal. apply list_filter_iff. intros i. by rewrite bool_decide_eq_true.
    + intros i. by rewrite bool_decide_eq_true.
  - intros id. unfold dispatches. by rewrite Hout.
Qed.

End Claims.
(* ------------------------------------------------------------------ *)
(** * The dispatcher                                                    *)
(* ------------------------------------------------------------------ *)

Section Dispatch.
Context {N : Type} `{JsNum N}.
Implicit Types (e : Env N) (i : ApplyItem).

(** The numbering of [assign_batches] on one item. *)
Definition assigned (chunks : list (Z * list string)) i : ApplyItem :=
  foldl (λ i '(seq, ids), if decide (ai_id i ∈ ids) then with_batchSeq seq i else i) i chunks.

Definition batch_message now slug runId (seq : Z) : Message :=
  newPipelineMessage now runId slug (step_str APPLY_PRICE) (Some (batchStep APPLY_PRICE)) PEmpty (Some seq) None.

Lemma assign_batches_Ok now slug runId chunks e ms e' :
  assign_batches now slug runId chunks e = (Ok ms, e') →
  ms = batch_message now slug runId <$> chunks.*1
  ∧ e_erp e' = e_erp e ∧ e_db e' = set_applyItems (assigned chunks <$> applyItems (e_db e)) (e_db e).
Proof.
  revert e ms. induction chunks as [|[seq ids] chunks IH]; intros e ms; cbn [assign_batches].
  - intros [= <- <-]. split_and!; [done|done|].
    assert (assigned [] <$> applyItems (e_db e) = applyItems (e_db e)) as ->; [|by destruct (e_db e) as [? ? []]].
    induction (applyItems (e_db e)) as [|i l IH]; [done|]. rewrite fmap_cons, IH. done.
  - intros Hr. erp_bind Hr u e1 E1; [|done]. apply update_Ok in E1 as [Hd1 He1].
    erp_bind Hr ms' e2 E2; [|done]. injection Hr as <- <-. apply IH in E2 as (-> & He2 & Hd2).
    split; [done|]. split; [congruence|]. rewrite Hd2, Hd1.
    change (applyItems (set_applyItems ?l _)) with l. rewrite <- list_fmap_compose. done.
Qed.

Lemma assigned_other chunks i :
  (∀ c, c ∈ chunks → ai_id i ∉ c.2) → assigned chunks i = i.
Proof.
  induction chunks as [|[seq ids] chunks IH]; [done|]. intros Hc. cbn [assigned foldl].
  rewrite decide_False by (apply (Hc (seq, ids)); left). apply IH. intros c Hin. apply Hc. by right.
Qed.

Lemma assigned_in chunks i seq ids :
  NoDup (concat chunks.*2) → (seq, ids) ∈ chunks → ai_id i ∈ ids → assigned chunks i = with_batchSeq seq i.
Proof.
  revert i. induction chunks as [|[s0 ids0] chunks IH]; intros i Hnd; [by intros ?%elem_of_nil|].
  cbn in Hnd. apply NoDup_app in Hnd as (_ & Hdis & Hnd). cbn [assigned foldl].
  assert (∀ c s, c ∈ chunks → s ∈ c.2 → s ∈ concat chunks.*2) as Hcat.
  { intros c s Hc Hs. apply list_elem_of_In, in_concat. exists c.2. split; apply list_elem_of_In; [|done].
    by apply list_elem_of_fmap_2. }
  intros [[= -> ->]|Hin]%elem_of_cons Hid.
  - rewrite decide_True by done. fold (assigned chunks (with_batchSeq s0 i)). apply assigned_other.
    intros c Hc Hs. exact (Hdis _ Hid (Hcat c _ Hc Hs)).
  - rewrite decide_False; [by apply IH|]. intros Hid0. exact (Hdis _ Hid0 (Hcat (seq, ids) _ Hin Hid)).
Qed.

Lemma number_from_lookup {A} n (l : list A) k x :
  l !! k = Some x → number_from n l !! k = Some (n + Z.of_nat k, x).
Proof. intros Hl. unfold number_from. rewrite list_lookup_imap, Hl. done. Qed.

Lemma slices_lookup_elem {A} k (l : list A) x : (0 < k)%nat → x ∈ l → ∃ m s, slices k l !! m = Some s ∧ x ∈ s.
Proof.
  intros Hk Hx. apply (slices_elem k l x Hk) in Hx as (s & Hs & Hx).
  apply list_elem_of_lookup in Hs as [m Hm]. by exists m, s.
Qed.

Lemma number_from_fsts {A} (l : list A) :
  (number_from 1 l).*1 = (λ k, 1 + Z.of_nat k) <$> seq 0 (length l).
Proof.
  apply list_eq. intros k. rewrite !list_lookup_fmap. destruct (l !! k) as [x|] eqn:Hk.
  - rewrite (number_from_lookup _ _ _ _ Hk), lookup_seq_lt; [done|]. by eapply lookup_lt_Some.
  - unfold number_from. rewrite list_lookup_imap, Hk. apply lookup_ge_None in Hk.
    by rewrite lookup_seq_ge.
Qed.

Lemma assigned_keeps {B} (f : ApplyItem → B) (Hf : ∀ seq i, f (with_batchSeq seq i) = f i) chunks i :
  f (assigned chunks i) = f i.
Proof.
  revert i. induction chunks as [|[seq ids] chunks IH]; intros i; [done|]. cbn [assigned foldl].
  fold (assigned chunks (if decide (ai_id i ∈ ids) then with_batchSeq seq i else i)). rewrite IH.
  by case_decide.
Qed.
Lemma assigned_id chunks i : ai_id (assigned chunks i) = ai_id i.
Proof. by apply assigned_keeps. Qed.
Lemma assigned_run chunks i : ai_applyRunId (assigned chunks i) = ai_applyRunId i.
Proof. by apply assigned_keeps. Qed.
Lemma assigned_status chunks i : ai_status (assigned chunks i) = ai_status i.
Proof. by apply assigned_keeps. Qed.

Lemma assigned_run_ids runId chunks (items : list ApplyItem) :
  ai_id <$> filter (λ i, ai_applyRunId i = runId) (assigned chunks <$> items)
  = ai_id <$> filter (λ i, ai_applyRunId i = runId) items.
Proof.
  induction items as [|i l IH]; [done|]. rewrite fmap_cons, !filter_cons, assigned_run.
  case_decide; [|done]. by rewrite !fmap_cons, assigned_id, IH.
Qed.

Lemma dispatch_ids_elem runId (db : PricingDb N) :
  NoDup (ai_id <$> applyItems db) →
  ∀ i, i ∈ applyItems db → ai_applyRunId i = runId ↔ ai_id i ∈ dispatch_ids runId db.
Proof.
  intros Hnd i Hi. unfold dispatch_ids. rewrite js_sort_perm, list_elem_of_fmap. split.
  - intros Hr. exists i. split; [done|]. by apply list_elem_of_filter.
  - intros (j & Hid & [Hr Hj]%list_elem_of_filter).
    apply list_elem_of_lookup in Hi as [n Hn]. apply list_elem_of_lookup in Hj as [m Hm].
    assert (n = m) as ->; [|congruence].
    eapply NoDup_lookup; [exact Hnd| |]; rewrite list_lookup_fmap; [by rewrite Hn|by rewrite Hm, Hid].
Qed.

Definition plan_of (runId : string) (db : PricingDb N) : list (list string) :=
  slices BATCH_SIZE (dispatch_ids runId db).

(** A dispatcher that finds items and credentials plans every item of
    the run in exactly one batch of at most 50, announces exactly the planned
    batches, touches no other item, no status and not the ERP.  The plan is
    a function of the item ids of the run alone, so a replay after some
    batches ran (which changes statuses, not ids) assigns every item the
    number it had and announces the same batches. *)
Theorem apply_dispatch_plans_all decrypt now slug runId e ms e' :
  dispatch_handle decrypt now slug runId e = (Ok ms, e') →
  NoDup (ai_id <$> applyItems (e_db e)) → ms ≠ [] →
  e_erp e' = e_erp e
  ∧ ms = (λ k, batch_message now slug runId (1 + Z.of_nat k)) <$> seq 0 (length (plan_of runId (e_db e)))
  ∧ (∀ i, i ∈ applyItems (e_db e) → ai_applyRunId i = runId →
       ∃ m s, plan_of runId (e_db e) !! m = Some s ∧ ai_id i ∈ s ∧ (length s ≤ 50)%nat
         ∧ with_batchSeq (1 + Z.of_nat m) i ∈ applyItems (e_db e'))
  ∧ (∀ k i, applyItems (e_db e) !! k = Some i →
       ∃ i', applyItems (e_db e') !! k = Some i' ∧ ai_status i' = ai_status i
         ∧ (ai_applyRunId i ≠ runId → i' = i))
  ∧ plan_of runId (e_db e') = plan_of runId (e_db e).
Proof.
  unfold dispatch_handle. intros Hr Hnd Hne.
  erp_bind Hr ids e1 E1; [|done]. apply query_cases in E1 as (Hd1 & He1 & ->).
  destruct (dispatch_ids runId (e_db e)) as [|id0 l0] eqn:Hids.
  { erp_bind Hr u e2 E2; [|done]. by injection Hr as <- <-. }
  rewrite <- Hids in Hr.
  erp_bind Hr creds e2 E2; [|done]. pose proof (reads_credentials _ _ _ _ _ E2) as [Hd2 He2].
  destruct creds as [creds|].
  2:{ erp_bind Hr u e3 E3; [|done]. erp_bind Hr v e4 E4; [|done]. by injection Hr as <- <-. }
  erp_bind Hr u e3 E3; [|done]. apply update_Ok in E3 as [Hd3 He3].
  apply assign_batches_Ok in Hr as (-> & He' & Hd').
  fold (plan_of runId (e_db e)) in *. set (plan := plan_of runId (e_db e)) in *.
  assert (applyItems (e_db e3) = applyItems (e_db e)) as Hit by (rewrite Hd3, Hd2, Hd1; done).
  assert (applyItems (e_db e') = assigned (number_from 1 plan) <$> applyItems (e_db e)) as Hi'
    by (rewrite Hd', Hit; done).
  assert (concat (number_from 1 plan).*2 = dispatch_ids runId (e_db e)) as Hcat.
  { rewrite number_from_snd. unfold plan, plan_of. apply slices_concat. unfold BATCH_SIZE. lia. }
  pose proof (dispatch_ids_elem runId _ Hnd) as Hmem.
  assert (NoDup (concat (number_from 1 plan).*2)) as Hndp.
  { rewrite Hcat. unfold dispatch_ids. rewrite js_sort_perm. by apply NoDup_fmap_filter. }
  split_and!.
  - congruence.
  - rewrite number_from_fsts, <- list_fmap_compose. done.
  - intros i Hi Hrun. apply (Hmem i Hi) in Hrun as Hin.
    destruct (slices_lookup_elem BATCH_SIZE _ _ ltac:(unfold BATCH_SIZE; lia) Hin) as (m & s & Hm & Hs).
    exists m, s. split; [exact Hm|]. split; [done|]. split.
    + pose proof (slices_bound BATCH_SIZE (dispatch_ids runId (e_db e)) ltac:(unfold BATCH_SIZE; lia)) as Hb.
      rewrite Forall_forall in Hb. apply list_elem_of_lookup_2, Hb in Hm. unfold BATCH_SIZE in Hm. lia.
    + rewrite Hi'. apply list_elem_of_fmap. exists i. split; [|done]. symmetry. eapply assigned_in; [done| |exact Hs].
      apply (list_elem_of_lookup_2 _ m). by apply number_from_lookup.
  - intros k i Hk. exists (assigned (number_from 1 plan) i). rewrite Hi', list_lookup_fmap, Hk. split; [done|].
    split; [by rewrite assigned_status|]. intros Hrun. apply assigned_other. intros c Hc Hin. apply Hrun.
    apply (Hmem i); [by eapply list_elem_of_lookup_2|]. rewrite <- Hcat. apply list_elem_of_In, in_concat.
    exists c.2. split; apply list_elem_of_In; [by apply list_elem_of_fmap_2|done].
  - unfold plan, plan_of. f_equal. unfold dispatch_ids. rewrite Hi'. f_equal.
    apply assigned_run_ids.
Qed.

End Dispatch.

(* ------------------------------------------------------------------ *)
(** * Concrete runs                                                     *)
(* ------------------------------------------------------------------ *)

Definition ms_writer : PriceWriter F64 :=
  catalog_writer Ok two_decimals (two_decimals 2) (λ a b, negb (str_ltb b a)).
Definition ms_laws : @PriceWriterLaws F64 ms_writer := catalog_writer_laws _ _ _ _.

Definition ms_num (x : F64) : string :=
  match n_hundredths x with Some (_, z) => pretty z | None => "?" end.

Definition ms_item (id ean : string) (t : SuggestionTarget) (cents : Z) (store : option string) (k : option Z) :
    ApplyItem :=
  {| ai_id := id; ai_applyRunId := "run1"; ai_batchSeq := Some 1; ai_ean := ean; ai_target := t;
     ai_storeId := store; ai_price := Num cents 2; ai_cadernoId := k; ai_priceOldSell := None;
     ai_priceOldOffer := None; ai_ruleId := None; ai_basis := None; ai_costAtApply := None;
     ai_status := item_pending; ai_reason := None; ai_erpResult := None; ai_appliedAt := None |}.

Definition ms_run : ApplyRun := new_run "k1" None 4 pr_now.
Definition ms_db (items : list ApplyItem) : PricingDb F64 :=
  Build_Db ∅ [] (Build_PricingData ap_catalog {["run1" := ms_run]} items ∅).
Definition ms_env (items : list ApplyItem) (fates : list ErpFate) (sql : list bool) : Env F64 :=
  Build_Env (ms_db items) [] fates sql false.

(** A shelf price, an offer, a price the ERP refuses and an unknown product. *)
Definition ms_items : list ApplyItem :=
  [ms_item "a" "1001" precoVenda 1900 None None; ms_item "b" "1001" precoOferta 1500 (Some "s1") (Some 9);
   ms_item "c" "1002" precoVenda 1400 None None; ms_item "d" "1003" precoVenda 1400 None None].

Definition ms_step (e : Env F64) : Res unit * Env F64 :=
  @step_run F64 _ ms_writer ms_num (λ a b, negb (str_ltb b a)) pr_now "acme" "run1" 1 e.

Definition ms_start : Env F64 := ms_env ms_items [ErpDone; ErpLost; ErpRefused] [].
Definition ms_end : Env F64 := Eval vm_compute in (ms_step ms_start).2.

Lemma ms_step_eq : ms_step ms_start = (Ok (), ms_end).
Proof. vm_compute. reflexivity. Qed.

Lemma ms_ids : NoDup (ai_id <$> applyItems (e_db ms_start)).
Proof. apply (bool_decide_unpack _). vm_compute. exact I. Qed.

Lemma ms_canonical : Forall canonical (batch_of "run1" 1 (e_db ms_start)).
Proof. repeat constructor; eexists; (split; [|vm_compute; reflexivity]); vm_compute; reflexivity. Qed.


Lemma apply_step_returns_witness : ∃ e', ms_step ms_start = (Ok (), e') ∧ healthy e'.
Proof. refine (apply_step_returns (PL := ms_laws) _ _ _ _ _ _ _ _ ms_canonical). by split. Defined.

Lemma apply_step_redelivery_witness :
  ∃ e3, ms_step ms_end = (Ok (), e3) ∧ e_erp e3 = e_erp ms_end ∧ applyItems (e_db e3) = applyItems (e_db ms_end).
Proof.
  destruct (ms_step ms_end) as [[[]|x] e3] eqn:E; [|exfalso; vm_compute in E; discriminate E].
  exists e3. split; [reflexivity|].
  destruct (apply_step_redelivery (PL := ms_laws) _ _ _ _ _ _ _ _ _ pr_now ms_end () e3 ms_step_eq ms_ids eq_refl E) as (? & ? & _).
  by split.
Defined.

Definition ms_dispatch : Res (list Message) * Env F64 := dispatch_handle Ok pr_now "acme" "run1" ms_start.
Definition ms_dispatched : Env F64 := Eval vm_compute in ms_dispatch.2.
Definition ms_plan : list Message :=
  Eval vm_compute in match ms_dispatch.1 with Ok ms => ms | Throw _ => [] end.

Lemma ms_dispatch_eq : ms_dispatch = (Ok ms_plan, ms_dispatched).
Proof. vm_compute. reflexivity. Qed.

Lemma apply_dispatch_plans_all_witness :
  ms_dispatch = (Ok ms_plan, ms_dispatched) ∧ length ms_plan = 1%nat
    ∧ plan_of "run1" (e_db ms_dispatched) = [["a"; "b"; "c"; "d"]].
Proof.
  split; [exact ms_dispatch_eq|]. split; [reflexivity|].
  destruct (apply_dispatch_plans_all _ _ _ _ _ _ _ ms_dispatch_eq ms_ids) as (_ & _ & _ & _ & ->); [discriminate|].
  vm_compute. reflexivity.
Defined.

(** The comment of the step says that no error of an item is rethrown,
    so that no item is pushed twice.  A SQL statement that fails after the
    push (here the mark of the item) does make the step throw: PostgreSQL
    refuses the [catch] branch's own statement.  The batch rolls back, the
    item stays pending, and the redelivery pushes the same price again. *)
Theorem apply_step_pushes_twice :
  ∃ (e e1 e2 : Env F64) x w,
    ms_step e = (Throw x, e1) ∧ e_erp e = [] ∧ e_erp e1 = [w]
    ∧ ms_step (Build_Env (e_db e) (e_erp e1) [] [] false) = (Ok (), e2)
    ∧ e_erp e2 = [w; w]
    ∧ length (batch_of "run1" 1 (e_db e)) = 1%nat ∧ batch_of "run1" 1 (e_db e2) = [].
Proof.
  set (e := ms_env [ms_item "a" "1001" precoVenda 1900 None None] [] [false; false; false; false; true]).
  eexists e, _, _, _, _. split; [vm_compute; reflexivity|]. split; [reflexivity|]. split; [vm_compute; reflexivity|].
  split; [vm_compute; reflexivity|]. split_and!; vm_compute; reflexivity.
Qed.

(* ------------------------------------------------------------------ *)
(** * The counters over the life of a run                               *)
(* ------------------------------------------------------------------ *)

Section Accounts.
Context {N : Type} `{JsNum N} `{PL : PriceWriterLaws N}.
Variable num_text : N → string.
Variable collate_le : string → string → bool.
Variable to_numeric : nat → N → Numeric.
(** [gen_random_uuid()] of the rows of [pricing_apply_item] *)
Variable item_uuid : nat → string.
Variable decrypt : string → Res string.
Implicit Types (db : PricingDb N) (e : Env N) (i : ApplyItem) (r : ApplyRun).

Abbreviation evolves := (evolves to_numeric item_uuid).
Abbreviation do_apply := (apply to_numeric item_uuid).
Abbreviation do_rollback := (rollback to_numeric item_uuid).

(* ------------------------------------------------------------------ *)
(** * Histories                                                         *)
(* ------------------------------------------------------------------ *)

(** No item of the run was pushed or skipped yet. *)
Definition untouched (runId : string) db : Prop :=
  ∀ i, i ∈ applyItems db → ai_applyRunId i = runId → ai_status i = item_pending ∨ ai_status i = item_failed.

(** [life db db']: committed transactions lead from [db] to [db'].  The
    dispatcher and the steps of a run are deliveries that its staged message
    leads to; the dispatcher that finds no credentials runs before the
    steps do. *)
Inductive life : PricingDb N → PricingDb N → Prop :=
| life_refl db : life db db
| life_apply db0 db mw id now slug by_ key items ap res db' :
    life db0 db → life db (mw db) →
    do_apply mw id now slug by_ key items ap db = Ok (res, db') → life db0 db'
| life_rollback db0 db mw id now slug by_ run res db' :
    life db0 db → life db (mw db) →
    do_rollback mw id now slug by_ run db = Ok (res, db') → life db0 db'
| life_approve db0 db now slug id res db' :
    life db0 db → approve now slug id db = Ok (res, db') → life db0 db'
| life_reject db0 db id res db' :
    life db0 db → reject id db = Ok (res, db') → life db0 db'
| life_sweep db0 db now ttl res db' :
    life db0 db → sweepTenant now ttl db = Ok (res, db') → life db0 db'
| life_dispatch db0 e now slug runId ms e' :
    life db0 (e_db e) → (0 < dispatches runId (e_db e))%nat → ms ≠ [] ∨ untouched runId (e_db e) →
    dispatch_handle decrypt now slug runId e = (Ok ms, e') → life db0 (e_db e')
| life_step db0 e now slug runId seq u e' :
    life db0 (e_db e) → (0 < dispatches runId (e_db e))%nat →
    step_run num_text collate_le now slug runId seq e = (Ok u, e') → life db0 (e_db e')
| life_close db0 e runId ms e' :
    life db0 (e_db e) → batch_successors runId e = (Ok ms, e') → life db0 (e_db e')
| life_other db0 db db' :
    life db0 db → applyRuns db' = applyRuns db → applyItems db' = applyItems db →
    (∀ id, dispatches id db' = dispatches id db) → life db0 db'.

(* ------------------------------------------------------------------ *)
(** * Counting items                                                    *)
(* ------------------------------------------------------------------ *)

Definition counted (id : string) (st : ApplyItemStatus) (items : list ApplyItem) : nat :=
  length (filter (λ i, ai_applyRunId i = id ∧ ai_status i = st) items).
Definition in_status (id : string) (st : ApplyItemStatus) db : Z := Z.of_nat (counted id st (applyItems db)).

Lemma counted_cons id st i items :
  counted id st (i :: items) = ((if decide (ai_applyRunId i = id ∧ ai_status i = st) then 1 else 0) + counted id st items)%nat.
Proof. unfold counted. rewrite filter_cons. by case_decide. Qed.

Lemma counted_app id st l1 l2 : counted id st (l1 ++ l2) = (counted id st l1 + counted id st l2)%nat.
Proof. unfold counted. by rewrite filter_app, length_app. Qed.

Lemma counted_total id items : length (filter (λ i, ai_applyRunId i = id) items) =
  (counted id item_pending items + counted id item_applied items + counted id item_skipped items + counted id item_failed items)%nat.
Proof.
  induction items as [|i items IH]; [done|]. rewrite filter_cons, !counted_cons.
  destruct (decide (ai_applyRunId i = id)) as [Hi|Hi]; cbn [length]; rewrite IH.
  - destruct (ai_status i) eqn:Hs; repeat case_decide; naive_solver lia.
  - repeat case_decide; naive_solver lia.
Qed.

(** A change that leaves the items of the run in their state. *)
Lemma counted_keep id st (f : ApplyItem → ApplyItem) items :
  (∀ i, ai_applyRunId (f i) = ai_applyRunId i) → (∀ i, i ∈ items → ai_applyRunId i = id → ai_status (f i) = ai_status i) →
  counted id st (f <$> items) = counted id st items.
Proof.
  intros Hr. induction items as [|i items IH]; [done|]. intros Hs. rewrite fmap_cons, !counted_cons, Hr, IH by (intros; apply Hs; [by right|done]).
  f_equal. specialize (Hs i ltac:(left)). repeat case_decide; naive_solver.
Qed.

(** A change that moves every item of the run to one state. *)
Lemma counted_all id st to (f : ApplyItem → ApplyItem) items :
  (∀ i, ai_applyRunId (f i) = ai_applyRunId i) → (∀ i, i ∈ items → ai_applyRunId i = id → ai_status (f i) = to) →
  counted id st (f <$> items) = if decide (st = to) then length (filter (λ i, ai_applyRunId i = id) items) else 0%nat.
Proof.
  intros Hr. induction items as [|i items IH]; [by case_decide|]. intros Hs.
  rewrite fmap_cons, counted_cons, filter_cons, Hr, IH by (intros; apply Hs; [by right|done]).
  specialize (Hs i ltac:(left)). repeat case_decide; cbn; naive_solver.
Qed.

Lemma counted_none id st items : (∀ i, i ∈ items → ai_applyRunId i = id → ai_status i ≠ st) → counted id st items = 0%nat.
Proof.
  induction items as [|i items IH]; [done|]. intros Hi. rewrite counted_cons, IH by (intros; apply Hi; [by right|done]).
  rewrite decide_False; [done|]. intros [Hr Hs]. by apply (Hi i ltac:(left)).
Qed.

(** What the outcomes of a batch add to the items in a state. *)
Lemma counted_settled now runId seq id st items (outs : list (Outcome (N := N))) :
  st ≠ item_pending → NoDup (ai_id <$> items) →
  let batch := filter (λ i, pending_of runId seq i = true) items in
  Forall2 settles batch outs →
  counted id st (settle_by now (zip (ai_id <$> batch) outs) <$> items)
  = (counted id st items + if decide (id = runId) then length (filter (λ o, oc_status o = st) outs) else 0)%nat.
Proof.
  intros Hst. revert outs. induction items as [|i items IH]; intros outs; cbn zeta.
  { intros _ HF. inversion HF. by case_decide. }
  rewrite fmap_cons. intros [Hni Hnd]%NoDup_cons. rewrite filter_cons. destruct (decide (pending_of runId seq i = true)) as [Hp|Hp].
  - intros HF. inversion HF as [|? o ? outs' Hs HF' E1 E2]; subst. specialize (IH outs' Hnd HF'). cbn zeta in IH.
    change (zip (ai_id <$> i :: ?b) (o :: outs')) with ((ai_id i, o) :: zip (ai_id <$> b) outs'). set (l := zip _ outs') in *. rewrite fmap_cons, !counted_cons.
    assert (settle_by now ((ai_id i, o) :: l) <$> items = settle_by now l <$> items) as ->.
    { apply list_fmap_ext. intros k j Hj. unfold settle_by. cbn. rewrite decide_False; [done|]. intros E.
      destruct Hni. rewrite <- E. apply list_elem_of_fmap_2. by eapply list_elem_of_lookup_2. }
    assert (settle_by now ((ai_id i, o) :: l) i = settled now o i) as -> by (unfold settle_by; cbn; by rewrite decide_True).
    rewrite IH. cbn [ai_applyRunId ai_status settled item_marked with_item_status].
    apply bool_decide_eq_true in Hp as (Hrun & _ & Hpend). rewrite Hpend, Hrun, filter_cons.
    repeat case_decide; cbn [length]; naive_solver lia.
  - intros HF. specialize (IH outs Hnd HF). cbn zeta in IH. set (l := zip _ outs) in *. rewrite fmap_cons, !counted_cons, IH.
    assert (settle_by now l i = i) as ->; [|lia]. unfold settle_by. destruct (js_map_get _ l) as [o|] eqn:Hg; [|done].
    destruct Hni. apply (js_map_get_zip_Forall2 _ _ _ _ _ HF) in Hg as (j & [_ Hj]%list_elem_of_filter & <- & _).
    by apply list_elem_of_fmap_2.
Qed.

Definition outcomes_in (st : ApplyItemStatus) (outs : list (Outcome (N := N))) : Z := Z.of_nat (length (filter (λ o, oc_status o = st) outs)).

Lemma triple_eq (x y : Z * Z * Z) : x.1.1 = y.1.1 → x.1.2 = y.1.2 → x.2 = y.2 → x = y.
Proof. destruct x as [[] ?], y as [[] ?]. cbn. by intros -> -> ->. Qed.

Lemma tally_outcomes batch (outs : list (Outcome (N := N))) c : Forall2 settles batch outs →
  tally outs c = (c.1.1 + outcomes_in item_applied outs, c.1.2 + outcomes_in item_skipped outs, c.2 + outcomes_in item_failed outs).
Proof.
  intros HF. revert c. unfold outcomes_in. induction HF as [|i o batch outs Hs _ IH]; intros [[a s] f]; [unfold tally; apply triple_eq; cbn; lia|].
  cbn [tally foldl]. fold (tally outs (count (oc_status o) (a, s, f))). rewrite IH, !filter_cons. apply settles_not_pending in Hs.
  destruct (oc_status o); try done; apply triple_eq; cbn; repeat case_decide; try done; cbn [length]; lia.
Qed.

(* ------------------------------------------------------------------ *)
(** * What the transactions do to counters and items                    *)
(* ------------------------------------------------------------------ *)

Definition counters r : Z * Z * Z := (ar_applied r, ar_skipped r, ar_failed r).

(** The rows a request adds. *)
Lemma insertItems_rows runId (accepted : list (AcceptedItem N)) db :
  ∃ rows, insertItems to_numeric item_uuid runId accepted db = Ok ((), set_applyItems (applyItems db ++ rows) db)
    ∧ Forall (λ i, ai_applyRunId i = runId ∧ ai_status i = item_pending) rows
    ∧ ai_id <$> rows = item_uuid <$> seq (length (applyItems db)) (length rows).
Proof.
  unfold insertItems, tx_modify.
  assert (∀ (chunks : list (list (AcceptedItem N))) d, ∃ rows,
    foldl (λ db chunk, set_applyItems (applyItems db
      ++ imap (λ k a, item_row to_numeric runId (item_uuid (length (applyItems db) + k)) a) chunk) db) d chunks
      = set_applyItems (applyItems d ++ rows) d
    ∧ Forall (λ i, ai_applyRunId i = runId ∧ ai_status i = item_pending) rows
    ∧ ai_id <$> rows = item_uuid <$> seq (length (applyItems d)) (length rows)) as Hf.
  { induction chunks as [|c cs IH]; intros d.
    - exists []. rewrite app_nil_r. split_and!; [by destruct d as [? ? []]|constructor|done].
    - cbn [foldl]. set (new := imap _ c). set (d' := set_applyItems _ d). destruct (IH d') as (rows & -> & HF & Hid).
      exists (new ++ rows). split_and!.
      + unfold d', set_applyItems, applyItems. cbn. by rewrite app_assoc.
      + apply Forall_app. split; [|done]. apply Forall_lookup. intros k x. unfold new. rewrite list_lookup_imap. by intros (a & _ & ->)%fmap_Some.
      + rewrite fmap_app, Hid, length_app, seq_app, fmap_app. f_equal.
        * unfold new. rewrite length_imap, fmap_imap. apply list_eq. intros k. rewrite list_lookup_imap, list_lookup_fmap.
          destruct (c !! k) eqn:Hk; [|by apply lookup_ge_None in Hk; rewrite lookup_seq_ge].
          apply lookup_lt_Some in Hk. by rewrite lookup_seq_lt.
        * change (applyItems d') with (applyItems d ++ new). by rewrite length_app. }
  destruct (Hf (slices INSERT_CHUNK accepted) db) as (rows & -> & HF & Hid). by exists rows.
Qed.

(** A request changes nothing, or adds a run with its items. *)
Lemma apply_adds mw id now slug by_ key items ap db res db' :
  do_apply mw id now slug by_ key items ap db = Ok (res, db') →
  db' = db ∨ db' = mw db ∨
  ∃ run rows, applyRuns (mw db) !! id = None ∧ applyRuns db' = <[id := run]> (applyRuns (mw db)) ∧ counters run = (0, 0, 0)
    ∧ applyItems db' = applyItems (mw db) ++ rows
    ∧ Forall (λ i, ai_applyRunId i = id ∧ ai_status i = item_pending) rows
    ∧ ai_id <$> rows = item_uuid <$> seq (length (applyItems (mw db))) (length rows).
Proof.
  unfold apply. intros (e & d & Hf & Hr)%tx_bind_Ok. rewrite findByIdempotencyKey_eq in Hf. injection Hf as <- <-.
  destruct (live_run_of_key key (applyRuns db)) as [[i r]|]; simpl in Hr; [injection Hr as <- <-; by left|right].
  apply tx_bind_Ok in Hr as (d & d1 & [= <- <-] & Hr).
  apply tx_bind_Ok in Hr as ([acc rej] & d1 & [_ ->]%tx_lift_Ok & Hr). destruct (wouldTripBreaker _ _); [done|].
  apply tx_bind_Ok in Hr as (u & d1 & [= <- <-] & Hr).
  apply tx_bind_Ok in Hr as (b & d1 & Hi & Hr). apply insert_apply_run_Ok in Hi.
  destruct b; simpl in Hr; destruct Hi as [_ Hi].
  2:{ left. subst d1. rewrite findByIdempotencyKey_eq in Hr. by injection Hr as <- <-. }
  right. destruct Hi as [Hfresh ->]. apply tx_bind_Ok in Hr as (u2 & d1 & Hins & Hr).
  set (run0 := new_run _ _ _ _) in *. set (d0 := set_applyRuns _ (mw db)) in *.
  destruct (insertItems_rows id acc d0) as (rows & Hins' & HF & Hid). rewrite Hins' in Hins. injection Hins as <- <-.
  assert (∃ f, applyRuns db' = alter f id (<[id := run0]> (applyRuns (mw db))) ∧ counters (f run0) = (0, 0, 0)
    ∧ applyItems db' = applyItems (mw db) ++ rows) as (f & Hruns & Hc & Hit).
  { destruct acc as [|a acc]; [|destruct ap]; apply tx_bind_Ok in Hr as (u2 & d1 & [= <- <-] & [= <- <-]).
    - by exists (with_status run_done).
    - by exists (with_approval (Some approval_pending)).
    - exists (λ r, r). split_and!; [|done..]. by rewrite alter_id. }
  exists (f run0), rows. rewrite Hruns, alter_insert_eq. by split_and!.
Qed.

(** What the dispatcher commits: it leaves the states of the items and the
    counters, or, without credentials, fails what is pending. *)
Lemma dispatch_cases now slug runId e ms e' : dispatch_handle decrypt now slug runId e = (Ok ms, e') →
  ∃ f g, applyItems (e_db e') = f <$> applyItems (e_db e) ∧ applyRuns (e_db e') = alter g runId (applyRuns (e_db e))
    ∧ db_outbox (e_db e') = db_outbox (e_db e)
    ∧ (∀ i, ai_applyRunId (f i) = ai_applyRunId i ∧ ai_id (f i) = ai_id i) ∧ (∀ r, run_core (g r) = run_core r)
    ∧ ((∀ i, ai_status (f i) = ai_status i) ∧ (∀ r, counters (g r) = counters r)
       ∨ ms = [] ∧ (∀ r, counters (g r) = (ar_applied r, ar_skipped r, ar_total r))
         ∧ ∀ i, ai_status (f i) = if decide (ai_applyRunId i = runId ∧ ai_status i = item_pending) then item_failed else ai_status i).
Proof.
  unfold dispatch_handle. intros Hr. erp_bind Hr ids e1 E1; [|done]. apply query_cases in E1 as (Hd1 & _ & ->).
  destruct (dispatch_ids runId (e_db e)) as [|id0 l0].
  { erp_bind Hr u e2 E2; [|done]. injection Hr as <- <-. apply update_Ok in E2 as [Hd2 _]. rewrite Hd2, Hd1.
    exists (λ i, i), (with_status run_done). rewrite list_fmap_id. split_and!; try done. by left. }
  erp_bind Hr creds e2 E2; [|done]. pose proof (reads_credentials _ _ _ _ _ E2) as [Hd2 _]. destruct creds as [creds|].
  - erp_bind Hr u e3 E3; [|done]. apply update_Ok in E3 as [Hd3 _]. apply assign_batches_Ok in Hr as (-> & _ & Hd').
    rewrite Hd', Hd3, Hd2, Hd1. eexists (assigned _), (with_status run_running). split_and!; try done.
    + intros i. by rewrite assigned_run, assigned_id.
    + left. split; [|done]. intros i. apply assigned_status.
  - erp_bind Hr u e3 E3; [|done]. apply update_Ok in E3 as [Hd3 _]. erp_bind Hr v e4 E4; [|done]. apply update_Ok in E4 as [Hd4 _].
    injection Hr as <- <-. rewrite Hd4, Hd3, Hd2, Hd1. eexists _, _. split_and!; [reflexivity|reflexivity|done|..].
    + intros i. cbn. by destruct (decide _).
    + done.
    + right. split_and!; try done. intros i. cbn. by case_decide.
Qed.

Lemma items_of_map id db db' (f : ApplyItem → ApplyItem) :
  applyItems db' = f <$> applyItems db → (∀ i, ai_applyRunId (f i) = ai_applyRunId i) →
  length (items_of id db') = length (items_of id db).
Proof.
  intros E Hf. unfold items_of. rewrite E. clear E. induction (applyItems db) as [|i l IH]; [done|]. rewrite fmap_cons, !filter_cons, Hf.
  case_decide; cbn; by rewrite IH.
Qed.

Lemma run_frame db db' id (f : ApplyItem → ApplyItem) g :
  applyItems db' = f <$> applyItems db → (∀ i, ai_applyRunId (f i) = ai_applyRunId i) →
  applyRuns db' = alter g id (applyRuns db) → (∀ r, run_core (g r) = run_core r) →
  db_outbox db' = db_outbox db → worker_frame db db'.
Proof.
  intros Hi Hf Hr Hg Ho. split_and!.
  - rewrite Hr. apply map_eq. intros k. rewrite !lookup_fmap. destruct (decide (k = id)) as [->|Hne]; [|by rewrite lookup_alter_ne].
    rewrite lookup_alter_eq. destruct (applyRuns db !! id) as [r|]; [|done]. cbn. by rewrite Hg.
  - intros id'. by eapply items_of_map.
  - intros id'. unfold dispatches. by rewrite Ho.
Qed.

(* ------------------------------------------------------------------ *)
(** * The invariant                                                     *)
(* ------------------------------------------------------------------ *)

Definition tallied db id : Z * Z * Z := (in_status id item_applied db, in_status id item_skipped db, in_status id item_failed db).

Record accounts db : Prop := {
  ac_runs : runs_inv db;
  ac_ids : ai_id <$> applyItems db = item_uuid <$> seq 0 (length (applyItems db));
  ac_counts : ∀ id r, applyRuns db !! id = Some r → counters r = tallied db id;
  ac_waiting : ∀ id r i, applyRuns db !! id = Some r → ar_approvalStatus r = Some approval_pending →
    i ∈ applyItems db → ai_applyRunId i = id → ai_status i = item_pending;
}.

Lemma no_runs_accounts db : no_runs db → accounts db.
Proof.
  intros Hn. pose proof Hn as (Hr & Hi & _). split; [by apply no_runs_inv|by rewrite Hi|..].
  - intros id r. by rewrite Hr, lookup_empty.
  - intros id r i. by rewrite Hr, lookup_empty.
Qed.

(** Runs and items are as they were, counters and states included. *)
Lemma accounts_same db db' : runs_inv db' → accounts db → applyItems db' = applyItems db →
  (∀ id r', applyRuns db' !! id = Some r' → ∃ r, applyRuns db !! id = Some r ∧ counters r' = counters r ∧
     (ar_approvalStatus r' = Some approval_pending → ar_approvalStatus r = Some approval_pending)) → accounts db'.
Proof.
  intros Hinv [_ Hids Hc Hw] Hi Hb. split; [done|by rewrite Hi|..].
  - intros id r' (r & Hr & -> & _)%Hb. rewrite (Hc _ _ Hr). unfold tallied, in_status. by rewrite Hi.
  - intros id r' i (r & Hr & _ & Hp)%Hb Hp'. rewrite Hi. by apply (Hw id r i Hr), Hp.
Qed.

Lemma ids_map db db' (f : ApplyItem → ApplyItem) : accounts db → applyItems db' = f <$> applyItems db → (∀ i, ai_id (f i) = ai_id i) →
  ai_id <$> applyItems db' = item_uuid <$> seq 0 (length (applyItems db')).
Proof.
  intros Ha E Hf. rewrite E, length_fmap, <- (ac_ids _ Ha), <- list_fmap_compose. apply list_fmap_ext. intros k i _. apply Hf.
Qed.

(** One run and its items change. *)
Lemma accounts_run db db' id (f : ApplyItem → ApplyItem) g :
  runs_inv db' → accounts db → applyItems db' = f <$> applyItems db → (∀ i, ai_applyRunId (f i) = ai_applyRunId i ∧ ai_id (f i) = ai_id i) →
  applyRuns db' = alter g id (applyRuns db) → (∀ i, i ∈ applyItems db → ai_applyRunId i ≠ id → ai_status (f i) = ai_status i) →
  (∀ r, applyRuns db !! id = Some r → counters (g r) = tallied db' id ∧ ar_approvalStatus (g r) ≠ Some approval_pending) → accounts db'.
Proof.
  intros Hinv Ha Hi Hf Hr Hother Hid. split; [done|eapply ids_map; [done..|]; intros i; apply Hf|..].
  - intros id' r'. rewrite Hr. intros [(-> & r & Hr' & ->)|(Hne & Hr')]%lookup_alter_Some; [by apply Hid|].
    rewrite (ac_counts _ Ha _ _ Hr'). unfold tallied, in_status. rewrite Hi.
    rewrite !(counted_keep id' _ f); [done|..]; (intros i; intros; (apply Hf || (apply Hother; congruence))).
  - intros id' r' i. rewrite Hr. intros [(-> & r & Hr' & ->)|(Hne & Hr')]%lookup_alter_Some Hp; [by destruct (Hid _ Hr')|].
    rewrite Hi. intros (j & -> & Hj)%list_elem_of_fmap. rewrite (proj1 (Hf j)). intros Hjr. rewrite Hother by (done || congruence).
    by apply (ac_waiting _ Ha id' r' j).
Qed.

Lemma accounts_apply mw id now slug by_ key items ap db res db' :
  do_apply mw id now slug by_ key items ap db = Ok (res, db') → runs_inv db' → accounts db → accounts (mw db) → accounts db'.
Proof.
  intros [->|[->|(run & rows & Hfresh & Hruns & Hc & Hi & HF & Hid)]]%apply_adds Hinv Ha Hm; [done..|].
  assert (∀ id' st, counted id' st (applyItems db') = (counted id' st (applyItems (mw db)) +
    if decide (id' = id ∧ st = item_pending) then length rows else 0)%nat) as Hcount.
  { intros id' st. rewrite Hi, counted_app. f_equal. clear - HF. induction HF as [|i rows [Hr Hs] _ IH]; [by case_decide|].
    rewrite counted_cons, IH, Hr, Hs. repeat case_decide; cbn; naive_solver. }
  destruct (ri_none _ (ac_runs _ Hm) id Hfresh) as [_ Hnone].
  split; [done|..].
  - rewrite Hi, fmap_app, length_app, seq_app, fmap_app, Hid, (ac_ids _ Hm). done.
  - intros id' r'. rewrite Hruns. unfold tallied, in_status. rewrite !Hcount. intros [(<- & <-)|(Hne & Hr')]%lookup_insert_Some.
    + rewrite Hc. assert (∀ st, counted id st (applyItems (mw db)) = 0%nat) as Hz.
      { intros st. pose proof (counted_total id (applyItems (mw db))) as Ht. unfold items_of in Hnone. rewrite Hnone in Ht.
        destruct st; cbn in Ht; lia. }
      rewrite !Hz. by rewrite !decide_False by naive_solver.
    + rewrite (ac_counts _ Hm _ _ Hr'). rewrite !decide_False by naive_solver. by rewrite !Nat.add_0_r.
  - intros id' r' i. rewrite Hruns, Hi. intros [(<- & <-)|(Hne & Hr')]%lookup_insert_Some Hp [Hin|Hin]%elem_of_app Hrun.
    + exfalso. assert (i ∈ items_of id (mw db)) as Hx by (by apply list_elem_of_filter). rewrite Hnone in Hx. by apply elem_of_nil in Hx.
    + rewrite Forall_forall in HF. by apply HF.
    + by apply (ac_waiting _ Hm id' r' i).
    + rewrite Forall_forall in HF. by apply HF.
Qed.

Lemma accounts_reject id db res db' : reject id db = Ok (res, db') → runs_inv db' → accounts db → accounts db'.
Proof.
  intros (r & Hr & Hp & ->)%reject_cases Hinv Ha.
  assert (∀ i, ai_applyRunId (rejected_item id i) = ai_applyRunId i ∧ ai_id (rejected_item id i) = ai_id i) as Hf
    by (intros i; unfold rejected_item; by case_decide).
  eapply (accounts_run db _ id (rejected_item id) rejected_run); try done.
  - intros i _ Hne. unfold rejected_item. by rewrite decide_False by naive_solver.
  - intros r' Hr'. assert (r' = r) as -> by congruence. split; [|done].
    pose proof (ac_counts _ Ha _ _ Hr) as Hc. destruct (ri_run _ (ac_runs _ Ha) _ _ Hr) as [_ Ht].
    assert (∀ i, i ∈ applyItems db → ai_applyRunId i = id → ai_status i = item_pending) as Hall by (intros i; by apply (ac_waiting _ Ha id r i)).
    assert (∀ st, counted id st (rejected_item id <$> applyItems db) =
      if decide (st = item_failed) then length (items_of id db) else 0%nat) as Hcount.
    { intros st. apply (counted_all id st item_failed); [intros i; apply Hf|]. intros i Hi Hrun. unfold rejected_item. by rewrite decide_True by auto. }
    assert (∀ st, st ≠ item_pending → counted id st (applyItems db) = 0%nat) as Hnone.
    { intros st Hst. apply counted_none. intros i Hi Hrun. by rewrite (Hall i Hi Hrun). }
    injection Hc as Happ Hskip _. unfold tallied, in_status. cbn [applyItems set_applyItems set_data db_data pd_items]. rewrite !Hcount.
    apply triple_eq; cbn -[items_of]; [rewrite Happ, decide_False|rewrite Hskip, decide_False|by rewrite decide_True, Ht]; try done; unfold in_status; by rewrite Hnone.
Qed.

Lemma dispatched_not_waiting db id r : runs_inv db → (0 < dispatches id db)%nat → applyRuns db !! id = Some r →
  ar_approvalStatus r ≠ Some approval_pending.
Proof. intros Hi Hd Hr Hp. destruct (ri_run _ Hi _ _ Hr) as [E _]. rewrite Hp in E. cbn in E. lia. Qed.

Lemma accounts_dispatch now slug runId e ms e' : accounts (e_db e) → runs_inv (e_db e') → (0 < dispatches runId (e_db e))%nat →
  ms ≠ [] ∨ untouched runId (e_db e) → dispatch_handle decrypt now slug runId e = (Ok ms, e') → accounts (e_db e').
Proof.
  intros Ha Hinv Hd Hok (f & g & Hi & Hr & _ & Hf & Hg & Hcase)%dispatch_cases.
  eapply (accounts_run (e_db e) _ runId f g); try done.
  - intros i _ Hne. destruct Hcase as [[Hs _]|(_ & _ & Hs)]; rewrite Hs; [done|]. by rewrite decide_False by naive_solver.
  - intros r Hr0. assert (ar_approvalStatus (g r) = ar_approvalStatus r) as -> by (specialize (Hg r); by injection Hg).
    split; [|by eapply dispatched_not_waiting; [apply Ha|..]]. unfold tallied, in_status. rewrite Hi.
    destruct Hcase as [[Hs Hc]|(-> & Hc & Hs)]; rewrite Hc.
    + rewrite !(counted_keep runId _ f) by (intros; (apply Hf || apply Hs)). by rewrite (ac_counts _ Ha _ _ Hr0).
    + destruct Hok as [?|Hun]; [done|]. destruct (ri_run _ (ac_runs _ Ha) _ _ Hr0) as [_ Ht]. pose proof (ac_counts _ Ha _ _ Hr0) as Hc0.
      assert (∀ st, counted runId st (f <$> applyItems (e_db e)) = if decide (st = item_failed) then length (items_of runId (e_db e)) else 0%nat) as Hcount.
      { intros st. apply (counted_all runId st item_failed); [intros i; apply Hf|]. intros i Hin Hrun. rewrite Hs.
        destruct (Hun i Hin Hrun) as [E|E]; rewrite E; case_decide; naive_solver. }
      assert (∀ st, st = item_applied ∨ st = item_skipped → counted runId st (applyItems (e_db e)) = 0%nat) as Hnone.
      { intros st Hst. apply counted_none. intros i Hin Hrun. destruct (Hun i Hin Hrun) as [E'|E'], Hst; congruence. }
      injection Hc0 as Happ Hskip _. rewrite !Hcount. apply triple_eq; cbn -[items_of]; [rewrite Happ, decide_False|rewrite Hskip, decide_False|by rewrite decide_True, Ht]; try done; unfold in_status; by rewrite Hnone by auto.
Qed.

Lemma accounts_step now slug runId seq e u e' : accounts (e_db e) → runs_inv (e_db e') → (0 < dispatches runId (e_db e))%nat →
  NoDup (ai_id <$> applyItems (e_db e)) → step_run num_text collate_le now slug runId seq e = (Ok u, e') → accounts (e_db e').
Proof.
  intros Ha Hinv Hd Hnd Hr. destruct (step_run_Ok _ _ _ _ _ _ _ _ _ Hr Hnd) as (outs & [Hs _ Hi Hruns _ _]).
  set (batch := batch_of runId seq (e_db e)) in *. set (l := zip (ai_id <$> batch) outs) in *.
  assert (∀ i, ai_applyRunId (settle_by now l i) = ai_applyRunId i ∧ ai_id (settle_by now l i) = ai_id i) as Hf
    by (intros i; unfold settle_by; by destruct (js_map_get _ _)).
  eapply (accounts_run (e_db e) _ runId (settle_by now l) _ Hinv Ha Hi Hf Hruns).
  - intros i Hin Hne. unfold settle_by. destruct (js_map_get _ l) as [o|] eqn:Hg; [|done]. exfalso.
    apply (js_map_get_zip_Forall2 _ _ _ _ _ Hs) in Hg as (j & [Hp Hj]%list_elem_of_filter & Hid & _).
    apply bool_decide_eq_true in Hp as (Hrun & _). apply Hne. assert (i = j) as ->; [|done].
    apply list_elem_of_lookup in Hin as [n Hn]. apply list_elem_of_lookup in Hj as [m Hm].
    assert (n = m) as ->; [|congruence]. eapply NoDup_lookup; [exact Hnd|by rewrite list_lookup_fmap, Hn|by rewrite list_lookup_fmap, Hm; cbn; rewrite Hid].
  - intros r Hr0. split; [|exact (dispatched_not_waiting _ _ r (ac_runs _ Ha) Hd Hr0)]. unfold tallied, in_status. rewrite Hi.
    pose proof (counted_settled now runId seq runId) as Hc. cbv zeta in Hc. unfold l, batch, batch_of.
    rewrite !Hc by done. rewrite !decide_True by done. rewrite (tally_outcomes _ _ _ Hs). injection (ac_counts _ Ha _ _ Hr0) as E1 E2 E3.
    unfold counters, add_counts, with_counts. cbn. rewrite E1, E2, E3. unfold in_status, outcomes_in. apply triple_eq; cbn; lia.
Qed.

Context `{!Inj (=) (=) item_uuid}.

Lemma accounts_NoDup db : accounts db → NoDup (ai_id <$> applyItems db).
Proof. intros Ha. rewrite (ac_ids _ Ha). apply NoDup_fmap_2; [done|apply NoDup_seq]. Qed.

Lemma life_inv db0 db : life db0 db → accounts db0 → evolves db0 db ∧ accounts db.
Proof.
  assert (∀ db0 db db', (accounts db0 → evolves db0 db ∧ accounts db) → accounts db0 →
    (accounts db → evolves db0 db → evolves db0 db') → (accounts db → runs_inv db' → accounts db') → evolves db0 db' ∧ accounts db') as Hstep.
  { intros d0 d d' IH Hn He Ha. destruct (IH Hn) as [E A]. pose proof (He A E) as E'. split; [done|]. apply Ha; [done|]. eapply evolves_inv; [done|apply Hn]. }
  induction 1 as [ |? db mw ? ? ? ? ? ? ? ? ? _ IH _ IHm Ha|? db mw ? ? ? ? ? ? ? _ IH _ IHm Hr|
    ? ? ? ? ? ? ? _ IH Ha|? ? ? ? ? _ IH Hr|? ? ? ? ? ? _ IH Hs|? e ? ? runId ? ? _ IH Hd Hok Hr|? e ? ? runId ? ? ? _ IH Hd Hr|
    ? e runId ? ? _ IH Hr|? ? ? _ IH Hruns Hi Hd]; intros Hn; [by split; [constructor|]|eapply Hstep; [exact IH|exact Hn|intros A E|intros A Hinv]..].
  - eapply ev_apply; [exact E|apply IHm, A|exact Ha].
  - eapply accounts_apply; [exact Ha|done|done|apply IHm, A].
  - eapply ev_rollback; [exact E|apply IHm, A|exact Hr].
  - apply rollback_cases in Hr as (items & Ha). eapply accounts_apply; [exact Ha|done|done|apply IHm, A].
  - by eapply ev_approve.
  - apply approve_cases in Ha as (r & Hr & _ & ->). eapply accounts_same; [done|exact A|done|]. intros id' r'. cbn.
    intros [(-> & r0 & Hr0 & ->)|(_ & Hr')]%lookup_alter_Some; eexists; (split; [done|]); by split.
  - by eapply ev_reject.
  - by eapply accounts_reject.
  - by eapply ev_sweep.
  - injection Hs as _ <-. eapply accounts_same; [done|exact A|done|]. intros id' r'. cbn. rewrite lookup_fmap.
    intros (r & Hr & ->)%fmap_Some. exists r. split; [done|]. by case_match.
  - pose proof Hr as (f & g & Hi & Hruns & Ho & Hf & Hg & _)%dispatch_cases. eapply ev_worker; [exact E|]. eapply run_frame; try done. intros i. apply Hf.
  - by eapply accounts_dispatch.
  - eapply apply_step_is_worker; [exact E|exact Hr|by apply accounts_NoDup].
  - eapply accounts_step; try done. by apply accounts_NoDup.
  - unfold batch_successors in Hr. erp_bind Hr u e2 E2; [|done]. injection Hr as <- <-. apply update_Ok in E2 as [Hd2 _].
    eapply ev_worker; [exact E|]. rewrite Hd2. eapply (run_frame _ _ runId (λ i, i) (with_status run_done)); try done. by rewrite list_fmap_id.
  - unfold batch_successors in Hr. erp_bind Hr u e2 E2; [|done]. injection Hr as <- <-. apply update_Ok in E2 as [Hd2 _].
    rewrite Hd2 in *. eapply accounts_same; [done|exact A|done|]. intros id' r'. cbn.
    intros [(-> & r0 & Hr0 & ->)|(_ & Hr')]%lookup_alter_Some; eexists; (split; [done|]); by split.
  - eapply ev_worker; [exact E|]. split_and!; [by rewrite Hruns|intros id; unfold items_of; by rewrite Hi|done].
  - eapply accounts_same; [done|exact A|done|]. intros id' r'. rewrite Hruns. intros Hr'. by exists r'.
Qed.

(** [C16] The counters of a run tell its items.  Over every history of
    requests (also racing), approvals, rejections, rollbacks, sweeps,
    deliveries of the dispatcher and of price steps (repeated, for any batch,
    whatever the ERP answers) and other transactions, every run counts as
    applied, skipped and failed exactly its items in that state, so with its
    pending items they make up its total; a run waiting for approval has only
    pending items; and the histories are among those [runs_dispatched_once]
    speaks of.  Item ids are distinct, and the dispatcher that finds no
    credentials precedes the steps. *)
Theorem run_counters_match_items db0 db : no_runs db0 → life db0 db →
  evolves db0 db ∧
  ∀ id r, applyRuns db !! id = Some r →
    ar_applied r = in_status id item_applied db ∧ ar_skipped r = in_status id item_skipped db ∧ ar_failed r = in_status id item_failed db
    ∧ in_status id item_pending db + ar_applied r + ar_skipped r + ar_failed r = ar_total r
    ∧ (ar_approvalStatus r = Some approval_pending → in_status id item_pending db = ar_total r).
Proof.
  intros Hn Hl. destruct (life_inv _ _ Hl (no_runs_accounts _ Hn)) as [He Ha]. split; [done|]. intros id r Hr.
  destruct (ri_run _ (ac_runs _ Ha) _ _ Hr) as [_ Ht]. unfold items_of in Ht. rewrite counted_total in Ht.
  injection (ac_counts _ Ha _ _ Hr) as E1 E2 E3. unfold in_status in *. split_and!; [done..|lia|]. intros Hp.
  assert (∀ st, st ≠ item_pending → counted id st (applyItems db) = 0%nat) as Hnone.
  { intros st Hst. apply counted_none. intros i Hi Hrun. by rewrite (ac_waiting _ Ha id r i Hr Hp Hi Hrun). }
  rewrite (Hnone item_applied), (Hnone item_skipped), (Hnone item_failed) in Ht by done. lia.
Qed.

End Accounts.

(* ------------------------------------------------------------------ *)
(** * A run                                                             *)
(* ------------------------------------------------------------------ *)

(** The approved run of two items: dispatched, and its batch run by an ERP
    that takes the shelf price and refuses the offer. *)
Definition pa_env (db : PricingDb F64) (fates : list ErpFate) : Env F64 := Build_Env db [] fates [] false.
Definition pa_dispatched : PricingDb F64 := Eval vm_compute in e_db (dispatch_handle Ok pr_now "acme" "run1" (pa_env pr_db2 [])).2.
Definition pa_stepped : PricingDb F64 := Eval vm_compute in e_db (ms_step (pa_env pa_dispatched [ErpDone; ErpRefused])).2.

#[local] Instance nth_uuid_inj : Inj (=) (=) nth_uuid.
Proof. intros n m Hnm. unfold nth_uuid in Hnm. by simplify_eq. Qed.

Abbreviation pa_life := (life ms_num (λ a b, negb (str_ltb b a)) two_decimals nth_uuid Ok (H0 := ms_writer)).

Lemma pa_history : pa_life pr_db0 pa_stepped.
Proof.
  assert (pa_life pr_db0 pr_db2) as H2.
  { apply (life_approve _ _ _ _ _ _ pr_db1 pr_now "acme" "run1" ("run1", true)); [|vm_compute; reflexivity].
    destruct pr_step1 as (rej & E). unfold pr_apply in E. eapply (life_apply _ _ _ _ _ _ _ (λ d, d)); [apply life_refl|apply life_refl|exact E]. }
  assert (pa_life pr_db0 pa_dispatched) as H3.
  { destruct (dispatch_handle Ok pr_now "acme" "run1" (pa_env pr_db2 [])) as [[ms|e] e'] eqn:E; [|vm_compute in E; discriminate E].
    assert (e_db e' = pa_dispatched) as <-. { transitivity (e_db ((Ok ms, e').2)); [done|]. rewrite <- E. vm_compute. reflexivity. }
    eapply (life_dispatch _ _ _ _ _ _ (pa_env pr_db2 [])); [exact H2| | |exact E].
    - apply Nat.ltb_lt. vm_compute. reflexivity.
    - left. intros ->. vm_compute in E. discriminate E. }
  destruct (ms_step (pa_env pa_dispatched [ErpDone; ErpRefused])) as [[[]|e] e'] eqn:E; [|vm_compute in E; discriminate E].
  assert (e_db e' = pa_stepped) as <-. { transitivity (e_db ((Ok (), e').2)); [done|]. rewrite <- E. vm_compute. reflexivity. }
  eapply (life_step _ _ _ _ _ _ (pa_env pa_dispatched [ErpDone; ErpRefused])); [exact H3| |exact E].
  apply Nat.ltb_lt. vm_compute. reflexivity.
Qed.

Lemma run_counters_match_items_witness : ∃ r, applyRuns pa_stepped !! "run1" = Some r
  ∧ (ar_applied r, ar_skipped r, ar_failed r, ar_total r) = (1, 0, 1, 2)
  ∧ in_status "run1" item_applied pa_stepped = 1 ∧ in_status "run1" item_pending pa_stepped = 0.
Proof.
  destruct (run_counters_match_items (PL := ms_laws) _ _ _ _ _ _ _ pr_fresh pa_history) as [_ Hr].
  destruct (applyRuns pa_stepped !! "run1") as [r|] eqn:E; [|vm_compute in E; discriminate E]. exists r. split; [done|].
  destruct (Hr "run1" r E) as (Ha & _ & _ & Ht & _). vm_compute in E. injection E as <-. cbn in *. split; [done|]. split; [by rewrite <- Ha|lia].
Defined.

(** A dispatcher delivered again after a batch ran, when the credentials of
    the ERP were removed meanwhile, sets [failed] to the total of the run,
    over items that were applied. *)
Lemma late_dispatch_overcounts : ∃ ms e' r,
  dispatch_handle Ok pr_now "acme" "run1"
    (pa_env (set_catalog (Build_Catalog ∅ ∅ ∅ ∅ ∅ ∅ ∅ ∅ [] [] [] [] ∅ [] ∅ ∅) pa_stepped) []) = (Ok ms, e')
  ∧ applyRuns (e_db e') !! "run1" = Some r
  ∧ (ar_applied r, ar_skipped r, ar_failed r, ar_total r) = (1, 0, 2, 2).
Proof. eexists _, _, _. split; [vm_compute; reflexivity|]. split; vm_compute; reflexivity. Qed.
