(* ===== verification/OfferRules.v ===== *)
(** The offer book rules engine ([tenant-api/offer-book-rules/
    offer-book-rules.service.ts], [dto/preview-offer-book-rules.dto.ts]):
    validation of a rule set, choice of the rule and of the price lock of a
    product, and the price computed for it.  Generic in the JavaScript
    numbers [N]; database access is in [OfferBook].

    An optional number of a request is [option (option N)]: absent, [null],
    or given; [@IsOptional] lets [null] through.  [null] behaves like an
    absent value for [classifications] and [active], which are plain
    options. *)

From Stdlib Require Import Ascii String.
From S2P Require Import Prelude JsText JsNumber Classification SuggestionEngine.
Open Scope string_scope.
Open Scope list_scope.

Inductive CalculationBaseType := COMPETITIVE_PRICE | SALE_PRICE | OFFER_PRICE.
Inductive PriceBaseSource :=
  OWN_PRICE | S_DROGAL | S_DROGASIL | S_PAGUE_MENOS | S_IKESAKI | S_MICHELASSI.
Inductive PricingActionType := DISCOUNT | INCREASE.

#[export] Instance CalculationBaseType_eq_dec : EqDecision CalculationBaseType.
Proof. solve_decision. Defined.
#[export] Instance PriceBaseSource_eq_dec : EqDecision PriceBaseSource.
Proof. solve_decision. Defined.
#[export] Instance PricingActionType_eq_dec : EqDecision PricingActionType.
Proof. solve_decision. Defined.

Definition source_str (s : PriceBaseSource) : string :=
  match s with
  | OWN_PRICE => "OWN_PRICE" | S_DROGAL => "DROGAL" | S_DROGASIL => "DROGASIL"
  | S_PAGUE_MENOS => "PAGUE_MENOS" | S_IKESAKI => "IKESAKI" | S_MICHELASSI => "MICHELASSI"
  end.

(* ------------------------------------------------------------------ *)
(** * Data                                                              *)
(* ------------------------------------------------------------------ *)

Record CreatePricingRuleDto (N : Type) := {
  rd_classifications : option (list string);
  rd_priceRangeMin : option (option N);
  rd_priceRangeMax : option (option N);
  rd_marginRangeMin : option (option N);
  rd_marginRangeMax : option (option N);
  rd_actionType : PricingActionType;
  rd_percentageValue : N;
  rd_active : option bool;
}.
Arguments Build_CreatePricingRuleDto {N}.
Arguments rd_classifications {N}. Arguments rd_priceRangeMin {N}. Arguments rd_priceRangeMax {N}.
Arguments rd_marginRangeMin {N}. Arguments rd_marginRangeMax {N}. Arguments rd_actionType {N}.
Arguments rd_percentageValue {N}. Arguments rd_active {N}.

Record CreatePriceLockDto (N : Type) := {
  ld_classifications : option (list string);
  ld_minMargin : N;
  ld_active : option bool;
}.
Arguments Build_CreatePriceLockDto {N}.
Arguments ld_classifications {N}. Arguments ld_minMargin {N}. Arguments ld_active {N}.

(** [competitorPrices] by the name of the source. *)
Record PreviewProductInput (N : Type) := {
  pp_ean : string;
  pp_name : string;
  pp_externalId : option string;
  pp_classificationId : option string;
  pp_classificationPath : string;
  pp_salePrice : N;
  pp_cost : N;
  pp_margin : N;
  pp_offerPrice : option N;
  pp_competitorPrices : gmap string N;
}.
Arguments Build_PreviewProductInput {N}.
Arguments pp_ean {N}. Arguments pp_name {N}. Arguments pp_externalId {N}.
Arguments pp_classificationId {N}. Arguments pp_classificationPath {N}. Arguments pp_salePrice {N}.
Arguments pp_cost {N}. Arguments pp_margin {N}. Arguments pp_offerPrice {N}.
Arguments pp_competitorPrices {N}.

Record DecimalBucket (N : Type) := { db_from : N; db_to : N; db_roundTo : N }.
Arguments Build_DecimalBucket {N}.
Arguments db_from {N}. Arguments db_to {N}. Arguments db_roundTo {N}.

Record PriceRoundingRuleInput (N : Type) := {
  rr_priceMin : N; rr_priceMax : N; rr_decimals : list (DecimalBucket N);
}.
Arguments Build_PriceRoundingRuleInput {N}.
Arguments rr_priceMin {N}. Arguments rr_priceMax {N}. Arguments rr_decimals {N}.

Record CalculationParams (N : Type) := {
  ca_calculationBaseType : CalculationBaseType;
  ca_priceBaseSources : option (list PriceBaseSource);
  ca_pricingRules : list (CreatePricingRuleDto N);
  ca_priceLocks : list (CreatePriceLockDto N);
  ca_priceRoundingRules : list (PriceRoundingRuleInput N);
  ca_classificationIndex : ClassificationIndex;
}.
Arguments Build_CalculationParams {N}.
Arguments ca_calculationBaseType {N}. Arguments ca_priceBaseSources {N}. Arguments ca_pricingRules {N}.
Arguments ca_priceLocks {N}. Arguments ca_priceRoundingRules {N}. Arguments ca_classificationIndex {N}.

Record PreviewProductResult (N : Type) := {
  pv_ean : string;
  pv_name : string;
  pv_externalId : option string;
  pv_classification : string;
  pv_baseSalePrice : N;
  pv_baseOfferPrice : N;
  pv_currentPrice : N;
  pv_currentMargin : N;
  pv_cost : N;
  pv_actionType : option PricingActionType;
  pv_percentageValue : N;
  pv_appliedPercentageValue : N;
  pv_finalPrice : N;
  pv_newMargin : N;
  pv_priceLockApplied : bool;
  pv_discountSkipped : bool;
  pv_skippedNoCompetitorPrice : bool;
  pv_skippedPriceExceedsLimit : bool;
  pv_priceRoundingApplied : bool;
}.
Arguments Build_PreviewProductResult {N}.
Arguments pv_ean {N}. Arguments pv_name {N}. Arguments pv_externalId {N}. Arguments pv_classification {N}.
Arguments pv_baseSalePrice {N}. Arguments pv_baseOfferPrice {N}. Arguments pv_currentPrice {N}.
Arguments pv_currentMargin {N}. Arguments pv_cost {N}. Arguments pv_actionType {N}.
Arguments pv_percentageValue {N}. Arguments pv_appliedPercentageValue {N}. Arguments pv_finalPrice {N}.
Arguments pv_newMargin {N}. Arguments pv_priceLockApplied {N}. Arguments pv_discountSkipped {N}.
Arguments pv_skippedNoCompetitorPrice {N}. Arguments pv_skippedPriceExceedsLimit {N}.
Arguments pv_priceRoundingApplied {N}.

(* ------------------------------------------------------------------ *)
(** * Classification paths                                              *)
(* ------------------------------------------------------------------ *)

(** [s.split(' > ')] *)
Fixpoint split_path (s : string) : list string :=
  match s with
  | EmptyString => [""]
  | String " " (String ">" (String " " rest)) => "" :: split_path rest
  | String c rest =>
      match split_path rest with
      | w :: ws => String c w :: ws
      | [] => [String c ""]
      end
  end.

Definition normalizeClassification (classification : string) : string :=
  match split_path classification with
  | a :: b :: _ :: _ => a +:+ " > " +:+ b
  | _ => classification
  end.

Definition normalizeClassificationIds (classifications : option (list string)) : option (list string) :=
  match classifications with
  | None | Some [] => None
  | Some l => Some (js_uniq l)
  end.

Section OfferRules.
Context {N : Type} `{JsNum N}.
Implicit Types (product : PreviewProductInput N) (rule : CreatePricingRuleDto N) (lock : CreatePriceLockDto N)
  (params : CalculationParams N) (index : ClassificationIndex).

Definition normalizePricingRule rule : CreatePricingRuleDto N :=
  Build_CreatePricingRuleDto (normalizeClassificationIds (rd_classifications rule))
    (rd_priceRangeMin rule) (rd_priceRangeMax rule) (rd_marginRangeMin rule) (rd_marginRangeMax rule)
    (rd_actionType rule) (rd_percentageValue rule) (rd_active rule).
Definition normalizePricingRules (pricingRules : list (CreatePricingRuleDto N)) := normalizePricingRule <$> pricingRules.

Definition normalizePriceLock lock : CreatePriceLockDto N :=
  Build_CreatePriceLockDto (normalizeClassificationIds (ld_classifications lock)) (ld_minMargin lock) (ld_active lock).
Definition normalizePriceLocks (priceLocks : list (CreatePriceLockDto N)) := normalizePriceLock <$> priceLocks.

(* ------------------------------------------------------------------ *)
(** * Validation                                                        *)
(* ------------------------------------------------------------------ *)

Open Scope js_scope.

(** [active !== false] *)
Definition is_active (active : option bool) : bool := negb (bool_decide (active = Some false)).

(** [!classifications?.length] *)
Definition no_ids (classifications : option (list string)) : bool :=
  match classifications with None | Some [] => true | Some _ => false end.

Definition classificationsOverlap (a b : option (list string)) index : bool :=
  if no_ids a || no_ids b then true
  else existsb (λ x, existsb (idsOverlap index x) (default [] b)) (default [] a).

(** [x ?? dflt] *)
Definition nullish (dflt : N) (x : option (option N)) : N := default dflt (mjoin x).

Definition rangesOverlap (minA maxA minB maxB : option (option N)) : bool :=
  (nullish (n_inf true) minA <=? nullish (n_inf false) maxB)
  && (nullish (n_inf true) minB <=? nullish (n_inf false) maxA).

(** [x !== undefined || y !== undefined] *)
Definition has_range (x y : option (option N)) : bool :=
  match x, y with None, None => false | _, _ => true end.
Definition hasPriceRange rule : bool := has_range (rd_priceRangeMin rule) (rd_priceRangeMax rule).
Definition hasMarginRange rule : bool := has_range (rd_marginRangeMin rule) (rd_marginRangeMax rule).

Definition rulesOverlap (ruleA ruleB : CreatePricingRuleDto N) index : bool :=
  if negb (classificationsOverlap (rd_classifications ruleA) (rd_classifications ruleB) index) then false
  else
    let aPrice := hasPriceRange ruleA in let aMargin := hasMarginRange ruleA in
    let bPrice := hasPriceRange ruleB in let bMargin := hasMarginRange ruleB in
    if negb aPrice && negb aMargin then true
    else if negb bPrice && negb bMargin then true
    else
      let when (b : bool) (x : option (option N)) := if b then x else None in
      let priceRangesOverlap := (aPrice || bPrice) &&
        rangesOverlap (when aPrice (rd_priceRangeMin ruleA)) (when aPrice (rd_priceRangeMax ruleA))
                      (when bPrice (rd_priceRangeMin ruleB)) (when bPrice (rd_priceRangeMax ruleB)) in
      let marginRangesOverlap := (aMargin || bMargin) &&
        rangesOverlap (when aMargin (rd_marginRangeMin ruleA)) (when aMargin (rd_marginRangeMax ruleA))
                      (when bMargin (rd_marginRangeMin ruleB)) (when bMargin (rd_marginRangeMax ruleB)) in
      let aBoth := aPrice && aMargin in let bBoth := bPrice && bMargin in
      if aBoth && bBoth then priceRangesOverlap && marginRangesOverlap
      else if aBoth && (bPrice && negb bMargin) then priceRangesOverlap
      else if aBoth && (bMargin && negb bPrice) then marginRangesOverlap
      else if bBoth && (aPrice && negb aMargin) then priceRangesOverlap
      else if bBoth && (aMargin && negb aPrice) then marginRangesOverlap
      else
        let aOnlyPrice := aPrice && negb aMargin in let aOnlyMargin := negb aPrice && aMargin in
        let bOnlyPrice := bPrice && negb bMargin in let bOnlyMargin := negb bPrice && bMargin in
        if aOnlyPrice && bOnlyPrice then priceRangesOverlap
        else if aOnlyMargin && bOnlyMargin then marginRangesOverlap
        else (aOnlyPrice && bOnlyMargin) || (aOnlyMargin && bOnlyPrice).

(** The first pair [i < j], 1-based, in the order of the two loops. *)
Fixpoint first_pair {A} (overlap : A → A → bool) (i : Z) (l : list A) : option (Z * Z) :=
  match l with
  | [] => None
  | x :: rest =>
      match head (filter (λ p, overlap x p.2 = true) (number_from (i + 1) rest)) with
      | Some (j, _) => Some (i, j)
      | None => first_pair overlap (i + 1) rest
      end
  end.

Definition active_rules (rules : list (CreatePricingRuleDto N)) : list (CreatePricingRuleDto N) :=
  filter (λ r, is_active (rd_active r) = true) rules.
Definition active_locks (locks : list (CreatePriceLockDto N)) : list (CreatePriceLockDto N) :=
  filter (λ l, is_active (ld_active l) = true) locks.

Definition validateNonOverlappingPricingRules (pricingRules : list (CreatePricingRuleDto N)) index : Res unit :=
  match first_pair (λ a b, rulesOverlap a b index) 1 (active_rules pricingRules) with
  | Some (i, j) => Throw (EBadRequest ("Pricing rules overlap: Rule " +:+ pretty i +:+ " and Rule "
      +:+ pretty j +:+ " can target the same products. Ensure classifications and price/margin ranges do not overlap."))
  | None => Ok ()
  end.

Definition dquote : ascii := ascii_of_nat 34.

Definition validateNonOverlappingPriceLocks (priceLocks : list (CreatePriceLockDto N)) index : Res unit :=
  let activeLocks := active_locks priceLocks in
  if existsb (λ l, no_ids (ld_classifications l)) activeLocks && Nat.ltb 1 (length activeLocks)
  then Throw (EBadRequest ("Price lock targeting all classifications cannot coexist with other price locks. "
         +:+ "Remove the " +:+ String dquote "all classifications" +:+ String dquote " lock or remove all other locks."))
  else
    match first_pair (λ a b, classificationsOverlap (ld_classifications a) (ld_classifications b) index) 1 activeLocks with
    | Some (i, j) => Throw (EBadRequest ("Price locks overlap: Lock " +:+ pretty i +:+ " and Lock "
        +:+ pretty j +:+ " target overlapping classifications. Ensure each classification is only targeted by one price lock."))
    | None => Ok ()
    end.

Definition assertKnownClassificationIds (ids : list string) index : Res unit :=
  match filter (λ i, depthById index !! i = None) (js_uniq ids) with
  | [] => Ok ()
  | unknown => Throw (EBadRequest ("Unknown classification id(s): " +:+ str_join ", " unknown))
  end.

(* ------------------------------------------------------------------ *)
(** * The rule, the lock and the base price of a product                *)
(* ------------------------------------------------------------------ *)

(** In a comparison [null] is 0. *)
Definition to_number (x : option N) : N := default (#0) x.

Definition rangeMatches (value : N) (min max : option (option N)) : bool :=
  match min with Some m => negb (value <? to_number m) | None => true end
  && match max with Some m => negb (to_number m <? value) | None => true end.

Definition classificationMatches (productClassificationId : option string)
    (classifications : option (list string)) index : bool :=
  if no_ids classifications then true
  else match truthy productClassificationId with
       | None => false
       | Some _ => existsb (isUnder index productClassificationId) (default [] classifications)
       end.

Definition rule_matches product (currentPrice : N) index rule : bool :=
  let priceRangeMatches := rangeMatches currentPrice (rd_priceRangeMin rule) (rd_priceRangeMax rule) in
  let marginRangeMatches := rangeMatches (pp_margin product) (rd_marginRangeMin rule) (rd_marginRangeMax rule) in
  if negb (is_active (rd_active rule)) then false
  else if negb (classificationMatches (pp_classificationId product) (rd_classifications rule) index) then false
  else if hasPriceRange rule && hasMarginRange rule then priceRangeMatches && marginRangeMatches
  else if hasPriceRange rule then priceRangeMatches
  else if hasMarginRange rule then marginRangeMatches
  else true.

Definition findMatchingPricingRule product (pricingRules : list (CreatePricingRuleDto N))
    (currentPrice : N) index : option (CreatePricingRuleDto N) :=
  head (filter (λ r, rule_matches product currentPrice index r = true) pricingRules).

Definition lock_matches product index lock : bool :=
  is_active (ld_active lock)
  && classificationMatches (pp_classificationId product) (ld_classifications lock) index.

Definition findMatchingPriceLock product (priceLocks : list (CreatePriceLockDto N)) index :
    option (CreatePriceLockDto N) :=
  head (filter (λ l, lock_matches product index l = true) priceLocks).

Definition source_price product (source : PriceBaseSource) : option N :=
  let price := match source with
               | OWN_PRICE => Some (default (pp_salePrice product) (pp_offerPrice product))
               | _ => pp_competitorPrices product !! source_str source
               end in
  p ← price; if #0 <? p then Some p else None.

(** [Math.min] of numbers that are not [NaN]. *)
Definition math_min (p : N) (prices : list N) : N := foldl (λ m x, if x <? m then x else m) p prices.

Definition getLowestPriceFromSources product (priceBaseSources : option (list PriceBaseSource)) : option N :=
  match omap (source_price product) (default [] priceBaseSources) with
  | [] => None
  | p :: prices => Some (math_min p prices)
  end.

Definition getCalculationBasePrice product (calculationBaseType : CalculationBaseType)
    (priceBaseSources : option (list PriceBaseSource)) : option N :=
  match calculationBaseType with
  | SALE_PRICE => Some (pp_salePrice product)
  | OFFER_PRICE => Some (default (pp_salePrice product) (pp_offerPrice product))
  | COMPETITIVE_PRICE => getLowestPriceFromSources product priceBaseSources
  end.

(* ------------------------------------------------------------------ *)
(** * The price                                                         *)
(* ------------------------------------------------------------------ *)

(** [((price - cost) / price) * 100] *)
Definition margin_of (price cost : N) : N := (price - cost) / price * #100.

(** [cost > 0 && price > 0 ? margin : 0] *)
Definition guarded_margin (price cost : N) : N :=
  if (#0 <? cost) && (#0 <? price) then margin_of price cost else #0.

(** [offerPrice || salePrice] *)
Definition truthy_offer product : N :=
  match pp_offerPrice product with
  | Some o => if o =? #0 then pp_salePrice product else o
  | None => pp_salePrice product
  end.

Definition current_margin product : N :=
  let basePrice := truthy_offer product in
  if #0 <? basePrice then margin_of basePrice (pp_cost product) else #0.

Definition base_offer product : N := default (pp_salePrice product) (pp_offerPrice product).

Definition price_after_rule (matchingRule : option (CreatePricingRuleDto N)) (currentPrice : N) : N :=
  match matchingRule with
  | None => currentPrice
  | Some r =>
      match rd_actionType r with
      | DISCOUNT => currentPrice * (#1 - rd_percentageValue r / #100)
      | INCREASE => currentPrice * (#1 + rd_percentageValue r / #100)
      end
  end.

Definition lock_floor (matchingPriceLock : option (CreatePriceLockDto N)) (cost : N) : option N :=
  l ← matchingPriceLock;
  if (ld_minMargin l <? #100) && (#0 <? cost) then Some (cost / (#1 - ld_minMargin l / #100)) else None.

Definition effectivePercentage (actionType : option PricingActionType) (finalPrice baseOfferPrice : N) : N :=
  if bool_decide (actionType = Some DISCOUNT)
  then (baseOfferPrice - finalPrice) / baseOfferPrice * #100
  else (finalPrice - baseOfferPrice) / baseOfferPrice * #100.

Definition offer_rounding (price : N) (rules : list (PriceRoundingRuleInput N)) (minPrice : option N) : option N :=
  matchingRule ← head (filter (λ r, (rr_priceMin r <=? price) && (price <=? rr_priceMax r) = true) rules);
  let integerPart := n_floor price in
  let decimalPart := round2 (price - integerPart) in
  bucket ← head (filter (λ d, (db_from d <=? decimalPart) && (decimalPart <=? db_to d) = true)
                   (rr_decimals matchingRule));
  let roundedPrice :=
    match minPrice with
    | Some m => if integerPart + db_roundTo bucket <? m then integerPart + #1 + db_roundTo bucket
                else integerPart + db_roundTo bucket
    | None => integerPart + db_roundTo bucket
    end in
  if roundedPrice =? round2 price then None else Some (round2 roundedPrice).

(** What a skipped product reports: the price stays. *)
Definition skipped_no_competitor product : PreviewProductResult N :=
  let base := pp_salePrice product in
  let margin := round2 (guarded_margin base (pp_cost product)) in
  {| pv_ean := pp_ean product; pv_name := pp_name product; pv_externalId := pp_externalId product;
     pv_classification := normalizeClassification (pp_classificationPath product);
     pv_baseSalePrice := base; pv_baseOfferPrice := base_offer product; pv_currentPrice := base;
     pv_currentMargin := margin; pv_cost := pp_cost product; pv_actionType := None;
     pv_percentageValue := #0; pv_appliedPercentageValue := #0; pv_finalPrice := base;
     pv_newMargin := margin; pv_priceLockApplied := false; pv_discountSkipped := false;
     pv_skippedNoCompetitorPrice := true; pv_skippedPriceExceedsLimit := false;
     pv_priceRoundingApplied := false |}.

Definition skipped_exceeds_limit product (currentPrice : N) (matchingRule : option (CreatePricingRuleDto N)) :
    PreviewProductResult N :=
  {| pv_ean := pp_ean product; pv_name := pp_name product; pv_externalId := pp_externalId product;
     pv_classification := normalizeClassification (pp_classificationPath product);
     pv_baseSalePrice := pp_salePrice product; pv_baseOfferPrice := base_offer product;
     pv_currentPrice := currentPrice; pv_currentMargin := round2 (current_margin product);
     pv_cost := pp_cost product; pv_actionType := rd_actionType <$> matchingRule;
     pv_percentageValue := default (#0) (rd_percentageValue <$> matchingRule);
     pv_appliedPercentageValue := #0; pv_finalPrice := currentPrice;
     pv_newMargin := round2 (current_margin product); pv_priceLockApplied := false;
     pv_discountSkipped := false; pv_skippedNoCompetitorPrice := false;
     pv_skippedPriceExceedsLimit := true; pv_priceRoundingApplied := false |}.

(** The lock bumps the price when the current or the new margin is below
    its minimum. *)
Definition lock_bumps (matchingPriceLock : option (CreatePriceLockDto N)) (lockFloor : option N)
    (currentMargin newMargin : N) : bool :=
  match lockFloor, matchingPriceLock with
  | Some _, Some l => (currentMargin <? ld_minMargin l) || (newMargin <? ld_minMargin l)
  | _, _ => false
  end.

Definition calculateProductPreview params product : PreviewProductResult N :=
  match getCalculationBasePrice product (ca_calculationBaseType params) (ca_priceBaseSources params) with
  | None => skipped_no_competitor product
  | Some currentPrice =>
      let index := ca_classificationIndex params in
      let cost := pp_cost product in
      let matchingRule := findMatchingPricingRule product (ca_pricingRules params) currentPrice index in
      let matchingPriceLock := findMatchingPriceLock product (ca_priceLocks params) index in
      let priceAfterRule := price_after_rule matchingRule currentPrice in
      if (pp_salePrice product <? priceAfterRule) && (#0 <? pp_salePrice product)
      then skipped_exceeds_limit product currentPrice matchingRule
      else
        let currentMargin := current_margin product in
        let newMargin := guarded_margin priceAfterRule cost in
        let actionType := rd_actionType <$> matchingRule in
        let percentageValue := default (#0) (rd_percentageValue <$> matchingRule) in
        let lockFloor := lock_floor matchingPriceLock cost in
        let priceLockApplied := lock_bumps matchingPriceLock lockFloor currentMargin newMargin in
        let finalPrice := if priceLockApplied then default priceAfterRule lockFloor else priceAfterRule in
        let newMargin := if priceLockApplied then default newMargin (ld_minMargin <$> matchingPriceLock)
                         else newMargin in
        let applied := if priceLockApplied && negb (finalPrice =? priceAfterRule) && (#0 <? base_offer product)
                       then effectivePercentage actionType finalPrice (base_offer product)
                       else percentageValue in
        let rounding := offer_rounding finalPrice (ca_priceRoundingRules params) lockFloor in
        let finalPrice := default finalPrice rounding in
        let newMargin := match rounding with Some p => guarded_margin p cost | None => newMargin end in
        let applied := match rounding with
                       | Some p => if priceLockApplied && (#0 <? base_offer product)
                                   then effectivePercentage actionType p (base_offer product) else applied
                       | None => applied
                       end in
        {| pv_ean := pp_ean product; pv_name := pp_name product; pv_externalId := pp_externalId product;
           pv_classification := normalizeClassification (pp_classificationPath product);
           pv_baseSalePrice := pp_salePrice product; pv_baseOfferPrice := base_offer product;
           pv_currentPrice := currentPrice; pv_currentMargin := round2 currentMargin; pv_cost := cost;
           pv_actionType := actionType; pv_percentageValue := percentageValue;
           pv_appliedPercentageValue := round2 applied; pv_finalPrice := round2 finalPrice;
           pv_newMargin := round2 newMargin; pv_priceLockApplied := priceLockApplied;
           pv_discountSkipped := false; pv_skippedNoCompetitorPrice := false;
           pv_skippedPriceExceedsLimit := false;
           pv_priceRoundingApplied := bool_decide (is_Some rounding) |}
  end.

Definition calculatePreviews (products : list (PreviewProductInput N)) params : list (PreviewProductResult N) :=
  calculateProductPreview params <$> products.

(** [shouldPush] of the execution service: not skipped, and a price that
    differs from the current one. *)
Definition shouldPush (r : PreviewProductResult N) : bool :=
  negb (pv_skippedNoCompetitorPrice r) && negb (pv_skippedPriceExceedsLimit r)
  && negb (pv_finalPrice r =? pv_currentPrice r).

End OfferRules.
