(* ===== verification/OfferRulesLaws.v ===== *)
(** The offer book rules engine: a rule set that passes validation is
    unambiguous, the price lock bounds the price from below and the sale
    price from above, and where those bounds stop. *)

From Stdlib Require Import Ascii String QArith Qround Qabs Lqa.
From S2P Require Import Prelude JsText JsNumber Classification SuggestionEngine EngineLaws OfferRules.
Open Scope string_scope.
Open Scope list_scope.

(* ------------------------------------------------------------------ *)
(** * Validated rule sets                                               *)
(* ------------------------------------------------------------------ *)

Section Validated.
Context {N : Type} `{JsNumLaws N}.
Implicit Types (product : PreviewProductInput N) (rule : CreatePricingRuleDto N) (lock : CreatePriceLockDto N).
Open Scope js_scope.

(** A bound that is given is a number (JSON has no [NaN]). *)
Definition bound_num (x : option (option N)) : Prop := ∀ m, x = Some (Some m) → is_num m.
Definition rule_num rule : Prop :=
  bound_num (rd_priceRangeMin rule) ∧ bound_num (rd_priceRangeMax rule) ∧
  bound_num (rd_marginRangeMin rule) ∧ bound_num (rd_marginRangeMax rule).

Lemma rangeMatches_bounds v lo hi :
  is_num v → bound_num lo → bound_num hi → rangeMatches v lo hi = true →
  (nullish (n_inf true) lo <=? v) = true ∧ (v <=? nullish (n_inf false) hi) = true.
Proof.
  intros Hv Hlo Hhi [H1 H2]%andb_true_iff. unfold nullish. split.
  - destruct lo as [[m|]|]; simpl; [|by apply ninf_le..].
    apply n_not_lt; [done|by apply Hlo|by apply negb_true_iff].
  - destruct hi as [[m|]|]; simpl; [|by apply le_inf..].
    apply n_not_lt; [by apply Hhi|done|by apply negb_true_iff].
Qed.

Lemma rangeMatches_overlap v lo hi lo' hi' :
  is_num v → bound_num lo → bound_num hi → bound_num lo' → bound_num hi' →
  rangeMatches v lo hi = true → rangeMatches v lo' hi' = true →
  rangesOverlap lo hi lo' hi' = true.
Proof.
  intros Hv ???? [H1 H2]%rangeMatches_bounds [H3 H4]%rangeMatches_bounds; try done.
  unfold rangesOverlap. apply andb_true_iff. split; by apply n_le_trans with v.
Qed.

(** A range that is not set matches everything, so the four cases of the
    code come down to one. *)
Lemma rule_matches_iff product p index rule :
  rule_matches product p index rule = true ↔
  is_active (rd_active rule) = true ∧
  classificationMatches (pp_classificationId product) (rd_classifications rule) index = true ∧
  rangeMatches p (rd_priceRangeMin rule) (rd_priceRangeMax rule) = true ∧
  rangeMatches (pp_margin product) (rd_marginRangeMin rule) (rd_marginRangeMax rule) = true.
Proof.
  unfold rule_matches, hasPriceRange, hasMarginRange, has_range.
  assert (∀ v, rangeMatches v None None = true) as Hall by done.
  destruct (is_active _), (classificationMatches _ _ _); simpl; [|split; [done|intros (?&?&?); done]..].
  destruct (rd_priceRangeMin rule), (rd_priceRangeMax rule), (rd_marginRangeMin rule),
    (rd_marginRangeMax rule); cbn [andb orb]; rewrite ?Hall, ?andb_true_iff; tauto.
Qed.

Context (rows : list ClassificationRow) (index : ClassificationIndex).
Hypothesis Hindex : buildClassificationIndex rows = Ok index.

Lemma classificationMatches_overlap node a b :
  classificationMatches node a index = true → classificationMatches node b index = true →
  classificationsOverlap a b index = true.
Proof.
  unfold classificationMatches, classificationsOverlap.
  destruct (no_ids a), (no_ids b); simpl; try done. destruct (truthy node) as [n|]; [|done].
  rewrite !existsb_exists. intros (x & Hx & Hux) (y & Hy & Huy). exists x. split; [done|].
  apply existsb_exists. exists y. split; [done|]. by eapply common_node_overlap.
Qed.

Lemma matching_rules_overlap product p a b :
  is_num p → is_num (pp_margin product) → rule_num a → rule_num b →
  rule_matches product p index a = true → rule_matches product p index b = true →
  rulesOverlap a b index = true.
Proof.
  intros Hp Hm (Ha1 & Ha2 & Ha3 & Ha4) (Hb1 & Hb2 & Hb3 & Hb4)
    (_ & Hca & Hpa & Hma)%rule_matches_iff (_ & Hcb & Hpb & Hmb)%rule_matches_iff.
  pose proof (rangeMatches_overlap _ _ _ _ _ Hp Ha1 Ha2 Hb1 Hb2 Hpa Hpb) as Hop.
  pose proof (rangeMatches_overlap _ _ _ _ _ Hm Ha3 Ha4 Hb3 Hb4 Hma Hmb) as Hom.
  assert (∀ lo hi : option (option N), (if has_range lo hi then lo else None) = lo
            ∧ (if has_range lo hi then hi else None) = hi) as Hr by (intros [] []; done).
  unfold rulesOverlap. rewrite (classificationMatches_overlap _ _ _ Hca Hcb). simpl.
  unfold hasPriceRange, hasMarginRange.
  rewrite !(proj1 (Hr _ _)), !(proj2 (Hr _ _)), Hop, Hom.
  by destruct (has_range _ _), (has_range _ _), (has_range _ _), (has_range _ _).
Qed.

(** The two loops of the validation leave no overlapping pair. *)
Lemma first_pair_filter {A} (overlap : A → A → bool) (P : A → bool) i (l : list A) :
  first_pair overlap i l = None →
  (∀ x y, x ∈ l → y ∈ l → P x = true → P y = true → overlap x y = true) →
  (length (filter (λ x, P x = true) l) ≤ 1)%nat.
Proof.
  revert i. induction l as [|x l IH]; intros i; [simpl; lia|]. cbn [first_pair].
  destruct (head _) as [[]|] eqn:Hh; [done|]. intros Hf Hov.
  rewrite filter_cons. destruct (decide (P x = true)) as [Px|_].
  2: { apply (IH _ Hf). intros y z Hy Hz. apply Hov; by right. }
  assert (filter (λ y, P y = true) l = []) as ->; [|simpl; lia].
  destruct (filter _ l) as [|y ys] eqn:Hy; [done|].
  assert (y ∈ filter (λ y, P y = true) l) as [Py Hin]%list_elem_of_filter by (rewrite Hy; left).
  assert (overlap x y = true) as Hxy by (apply Hov; [left|by right|done|done]).
  rewrite <- (number_from_snd (i + 1) l) in Hin. apply list_elem_of_fmap in Hin as ([j y'] & -> & Hin).
  assert ((j, y') ∈ filter (λ p : Z * A, overlap x p.2 = true) (number_from (i + 1) l)) as Hin'
    by by apply list_elem_of_filter.
  destruct (filter _ (number_from _ _)); [by apply elem_of_nil in Hin'|done].
Qed.

Lemma at_most_one_head {A} (P : A → Prop) `{∀ x, Decision (P x)} (l l' : list A) :
  (length (filter P l) ≤ 1)%nat → l' ≡ₚ l → head (filter P l') = head (filter P l).
Proof.
  intros Hl Hp. assert (filter P l' ≡ₚ filter P l) as Hf by (by rewrite Hp).
  destruct (filter P l) as [|x [|y ys]]; simpl in *; [| |lia].
  - by apply Permutation_nil_r in Hf as ->.
  - by apply Permutation_singleton_r in Hf as ->.
Qed.

Lemma filter_weaken {A} (P Q : A → bool) (l : list A) :
  (∀ x, P x = true → Q x = true) →
  filter (λ x, P x = true) (filter (λ x, Q x = true) l) = filter (λ x, P x = true) l.
Proof.
  intros HPQ. rewrite list_filter_filter. apply list_filter_iff. naive_solver.
Qed.

Lemma validated_one_rule product p rules :
  validateNonOverlappingPricingRules rules index = Ok () → Forall rule_num rules →
  is_num p → is_num (pp_margin product) →
  (length (filter (λ r, rule_matches product p index r = true) rules) ≤ 1)%nat.
Proof.
  intros Hv Hn Hp Hm. rewrite Forall_forall in Hn.
  unfold validateNonOverlappingPricingRules in Hv.
  destruct (first_pair _ _ _) as [[]|] eqn:Hf; [done|].
  rewrite <- (filter_weaken (rule_matches product p index) (λ r, is_active (rd_active r))).
  2: { by intros x (? & _)%rule_matches_iff. }
  apply (first_pair_filter _ _ _ _ Hf).
  intros x y [_ Hx]%list_elem_of_filter [_ Hy]%list_elem_of_filter. apply matching_rules_overlap; auto.
Qed.

Lemma validated_one_lock product locks :
  validateNonOverlappingPriceLocks locks index = Ok () →
  (length (filter (λ l, lock_matches product index l = true) locks) ≤ 1)%nat.
Proof.
  unfold validateNonOverlappingPriceLocks. destruct (_ && _); [done|].
  destruct (first_pair _ _ _) as [[]|] eqn:Hf; [done|]. intros _.
  rewrite <- (filter_weaken (lock_matches product index) (λ l, is_active (ld_active l))).
  2: { by intros x [? _]%andb_true_iff. }
  apply (first_pair_filter _ _ _ _ Hf).
  intros x y _ _ [_ Hx]%andb_true_iff [_ Hy]%andb_true_iff. by eapply classificationMatches_overlap.
Qed.

End Validated.

(** [C23] A rule set that passes validation is unambiguous: against an index
    built from the classification rows, whatever product is priced, at most
    one pricing rule and at most one price lock match it, so the engine's
    first match does not depend on the order in which the rules and locks
    are stored or loaded. *)
Theorem validated_sets_unambiguous {N} `{JsNumLaws N} (rows : list ClassificationRow) index
    (rules : list (CreatePricingRuleDto N)) locks (product : PreviewProductInput N) (p : N) :
  buildClassificationIndex rows = Ok index →
  validateNonOverlappingPricingRules rules index = Ok () →
  validateNonOverlappingPriceLocks locks index = Ok () →
  Forall rule_num rules → is_num p → is_num (pp_margin product) →
  (length (filter (λ r, rule_matches product p index r = true) rules) ≤ 1)%nat ∧
  (length (filter (λ l, lock_matches product index l = true) locks) ≤ 1)%nat ∧
  (∀ rules', rules' ≡ₚ rules →
     findMatchingPricingRule product rules' p index = findMatchingPricingRule product rules p index) ∧
  (∀ locks', locks' ≡ₚ locks →
     findMatchingPriceLock product locks' index = findMatchingPriceLock product locks index).
Proof.
  intros Hi Hr Hl Hn Hp Hm.
  pose proof (validated_one_rule rows index Hi product p rules Hr Hn Hp Hm) as H1.
  pose proof (validated_one_lock rows index Hi product locks Hl) as H2.
  split_and!; [done|done|..]; intros; by apply at_most_one_head.
Qed.

(* ------------------------------------------------------------------ *)
(** * The price, in exact arithmetic                                    *)
(* ------------------------------------------------------------------ *)

Section ExactOffer.
Implicit Types (product : PreviewProductInput XQ) (params : CalculationParams XQ).
Open Scope Q_scope.

Lemma q100_idem q : q100 (q100 q) == q100 q.
Proof.
  unfold q100 at 1 3. set (k := Qfloor (q * 100 + (1 # 2))).
  assert (Qfloor (q100 q * 100 + (1 # 2)) = k) as ->; [|done].
  rewrite <- (Qround_int k). apply Qfloor_comp. unfold q100. fold k. field.
Qed.

(** The values the DTOs and the database admit: finite numbers, rounding
    buckets that do not go down, a minimum margin in [0, 99.99]. *)
Record finite_offer product params : Prop := {
  fo_sale : n_finite (pp_salePrice product) = true;
  fo_cost : n_finite (pp_cost product) = true;
  fo_offer : ∀ o, pp_offerPrice product = Some o → n_finite o = true;
  fo_competitors : map_Forall (λ _ p, n_finite p = true) (pp_competitorPrices product);
  fo_rules : Forall (λ r, n_finite (rd_percentageValue r) = true) (ca_pricingRules params);
  fo_locks : Forall (λ l, ∃ m, ld_minMargin l = XFin m ∧ 0 <= m < 100) (ca_priceLocks params);
  fo_rounding : Forall (λ r, Forall (λ d, ∃ q, db_roundTo d = XFin q ∧ 0 <= q) (rr_decimals r))
                  (ca_priceRoundingRules params);
}.

Lemma head_filter_elem {A} (P : A → Prop) `{∀ x, Decision (P x)} (l : list A) x :
  head (filter P l) = Some x → x ∈ l.
Proof.
  intros [r Hr]%head_Some. assert (x ∈ x :: r) as Hx by left. rewrite <- Hr in Hx.
  by apply list_elem_of_filter in Hx as [_ ?].
Qed.

Lemma source_price_finite product params s p :
  finite_offer product params → source_price product s = Some p → n_finite p = true.
Proof.
  intros Hf. unfold source_price. intros (q & Hq & Hp)%bind_Some.
  destruct (n_lt _ q); simplify_eq. destruct s; try by apply (fo_competitors _ _ Hf _ _ Hq).
  injection Hq as <-. destruct (pp_offerPrice product) eqn:Ho; [by apply (fo_offer _ _ Hf)|by apply (fo_sale _ _ Hf)].
Qed.

Lemma math_min_elem {N} `{JsNum N} (p : N) l : math_min p l ∈ p :: l.
Proof.
  unfold math_min. revert p. induction l as [|x l IH]; intros p; simpl; [left|].
  destruct (x <? p)%js; [specialize (IH x)|specialize (IH p)]; rewrite elem_of_cons in IH;
    rewrite !elem_of_cons; naive_solver.
Qed.

Lemma base_price_finite product params p :
  finite_offer product params →
  getCalculationBasePrice product (ca_calculationBaseType params) (ca_priceBaseSources params) = Some p →
  n_finite p = true.
Proof.
  intros Hf. unfold getCalculationBasePrice. destruct (ca_calculationBaseType params).
  - unfold getLowestPriceFromSources. destruct (omap _ _) as [|x l] eqn:Ho; [done|]. intros [= <-].
    pose proof (math_min_elem x l) as Hin. rewrite <- Ho in Hin.
    apply list_elem_of_omap in Hin as (s & _ & Hs). by eapply source_price_finite.
  - intros [= <-]. by apply (fo_sale _ _ Hf).
  - intros [= <-]. destruct (pp_offerPrice product) eqn:Ho; [by apply (fo_offer _ _ Hf)|by apply (fo_sale _ _ Hf)].
Qed.

Lemma price_after_rule_finite product params p (cur : Q) :
  finite_offer product params →
  let r := findMatchingPricingRule product (ca_pricingRules params) p (ca_classificationIndex params) in
  ∃ t, price_after_rule r (XFin cur) = XFin t.
Proof.
  intros Hf r. unfold price_after_rule. destruct r as [x|] eqn:Hr; [|by eexists].
  assert (x ∈ ca_pricingRules params) as Hin by (by eapply head_filter_elem).
  pose proof (fo_rules _ _ Hf) as Hp. rewrite Forall_forall in Hp.
  destruct (finite_XFin _ (Hp _ Hin)) as [v ->]. destruct (rd_actionType x); by eexists.
Qed.

Lemma q100_ub q : q100 q <= q + (1 # 200).
Proof.
  unfold q100. pose proof (Qround_half (q * 100)) as [H1 H2].
  apply Qle_shift_div_r; [reflexivity|]. lra.
Qed.

(** The endings of a rounding table lie within one real. *)
Definition endings_within_one (rules : list (PriceRoundingRuleInput XQ)) : Prop :=
  Forall (λ r : PriceRoundingRuleInput XQ, Forall (λ d, ∀ q, db_roundTo d = XFin q → q <= 1) (rr_decimals r)) rules.

(** Rounding never goes below the floor the price has reached, and moves it
    by little. *)
Lemma offer_rounding_fin rules (t : Q) (floor : option XQ) p :
  Forall (λ r : PriceRoundingRuleInput XQ,
    Forall (λ d, ∃ q, db_roundTo d = XFin q ∧ 0 <= q) (rr_decimals r)) rules →
  (∀ x, floor = Some x → ∃ f, x = XFin f) → offer_rounding (XFin t) rules floor = Some p →
  ∃ q, p = XFin (q100 q) ∧ (∀ f, floor = Some (XFin f) → f <= t → f <= q) ∧ (endings_within_one rules → t - 1 <= q <= t + 2).
Proof.
  intros Hok Hfl. unfold offer_rounding. intros (r & Hr & Hb)%bind_Some.
  apply bind_Some in Hb as (d & Hd & Hb).
  assert (∃ q, db_roundTo d = XFin q ∧ 0 <= q) as (q & Hq & Hq0).
  { rewrite Forall_forall in Hok. specialize (Hok _ (head_filter_elem _ _ _ Hr)).
    rewrite Forall_forall in Hok. by apply Hok, (head_filter_elem _ _ _ Hd). }
  rewrite Hq in Hb. change (n_floor (XFin t)) with (XFin (inject_Z (Qfloor t))) in Hb.
  set (I := Qfloor t) in *.
  change (n_add (XFin (inject_Z I)) (XFin q)) with (XFin (inject_Z I + q)) in Hb.
  change (n_add (n_add (XFin (inject_Z I)) (#1)%js) (XFin q)) with (XFin (inject_Z I + 1 + q)) in Hb.
  pose proof (Qlt_floor t) as HI. fold I in HI. rewrite inject_Z_plus in HI.
  change (inject_Z 1) with 1 in HI. pose proof (Qfloor_le t) as HI'. fold I in HI'.
  assert (endings_within_one rules → q <= 1) as Hq1.
  { intros He. unfold endings_within_one in He. rewrite Forall_forall in He. specialize (He _ (head_filter_elem _ _ _ Hr)).
    rewrite Forall_forall in He. by apply (He _ (head_filter_elem _ _ _ Hd)). }
  destruct floor as [x|]; [destruct (Hfl x eq_refl) as [f ->]; destruct (n_lt _ _) eqn:Hlt|];
    (destruct (n_eq _ _); [done|]); rewrite round2_fin in Hb; injection Hb as <-; eexists; (split; [done|]);
    (split; [intros f' Hf' Hft; simplify_eq|intros He%Hq1; lra]).
  - lra.
  - by apply xq_lt_false in Hlt.
Qed.

Lemma lock_floor_fin l (m c : Q) :
  ld_minMargin l = XFin m → 0 <= m < 100 → 0 < c →
  lock_floor (Some l) (XFin c) = Some (XFin (c / (1 - m / 100))).
Proof.
  intros Hm Hm0 Hc. unfold lock_floor. cbn [mbind option_bind]. rewrite Hm.
  assert (n_lt (XFin m) (#100)%js = true) as -> by (apply xq_lt; change (m < 100); lra).
  assert (n_lt (#0)%js (XFin c) = true) as -> by (apply xq_lt; change (0 < c); lra).
  cbn [andb]. simpl. destruct (Qeq_bool _ 0) eqn:E; [|done].
  apply Qeq_bool_iff in E. exfalso. change (/ (100 # Z.to_pos (10 ^ Z.of_nat 0))) with (1 # 100) in E.
  unfold Qdiv in E. change (/ (100 # 1)) with (1 # 100) in E. lra.
Qed.

(** Not bumped, a positive price has the minimum margin already. *)
Lemma unbumped_floor (t c m : Q) :
  0 < t → 0 < c → m < 100 →
  n_lt (guarded_margin (XFin t) (XFin c)) (XFin m) = false → c / (1 - m / 100) <= t.
Proof.
  intros Ht Hc Hm. unfold guarded_margin.
  assert (n_lt (#0)%js (XFin c) = true) as -> by (apply xq_lt; change (0 < c); lra).
  assert (n_lt (#0)%js (XFin t) = true) as -> by (apply xq_lt; change (0 < t); lra).
  simpl. unfold margin_of. simpl. destruct (Qeq_bool t 0) eqn:E.
  { apply Qeq_bool_iff in E. lra. }
  intros H%xq_lt_false. destruct (Qlt_le_dec t (c / (1 - m / 100))) as [Hl|]; [|done]. exfalso.
  apply (Qlt_not_le _ _ Hl). apply Qle_shift_div_r; [unfold Qdiv; change (/ 100) with (1 # 100); lra|].
  change (m <= (t + - c) / t * 100) in H.
  assert (m * t <= (t + - c) / t * 100 * t) as H2 by (by apply Qmult_le_r).
  assert ((t + - c) / t * 100 * t == (t - c) * 100) as E2 by (field; lra).
  rewrite E2 in H2. unfold Qdiv. change (/ 100) with (1 # 100). lra.
Qed.

(** What the lock makes of the price after the rule. *)
Lemma locked_price product params (t c : Q) :
  finite_offer product params →
  let lock := findMatchingPriceLock product (ca_priceLocks params) (ca_classificationIndex params) in
  let floor := lock_floor lock (XFin c) in
  let applied := lock_bumps lock floor (current_margin product) (guarded_margin (XFin t) (XFin c)) in
  (∀ l m, lock = Some l → ld_minMargin l = XFin m → 0 < c → floor = Some (XFin (c / (1 - m / 100)))) ∧
  (∀ x, floor = Some x → ∃ f, x = XFin f) ∧
  ∃ t', (if applied then default (XFin t) floor else XFin t) = XFin t' ∧ (applied = false → t' = t) ∧ (applied = true → floor = Some (XFin t')) ∧
    (∀ f, floor = Some (XFin f) → 0 < t → f <= t').
Proof.
  intros Hf. cbv zeta. set (lock := findMatchingPriceLock _ _ _).
  assert (∀ l, lock = Some l → ∃ m, ld_minMargin l = XFin m ∧ 0 <= m < 100) as Hl.
  { intros l Hl. pose proof (fo_locks _ _ Hf) as H. rewrite Forall_forall in H. apply H.
    by eapply head_filter_elem. }
  destruct (lock_floor lock (XFin c)) as [x|] eqn:Efl.
  - destruct lock as [l|]; [|done]. destruct (Hl l eq_refl) as (m & Hm & Hm0).
    assert (0 < c) as Hc0.
    { destruct (Qlt_le_dec 0 c) as [|Hc]; [done|]. exfalso. unfold lock_floor in Efl. cbn [mbind option_bind] in Efl.
      assert (n_lt (#0)%js (XFin c) = false) as E by (apply xq_lt_false; change (c <= 0); lra).
      by rewrite E, andb_false_r in Efl. }
    rewrite (lock_floor_fin l m c Hm Hm0 Hc0) in Efl. injection Efl as <-.
    split_and!.
    + intros l' m' [= <-] Hm' _. rewrite Hm in Hm'. by injection Hm' as <-.
    + intros x [= <-]. by eexists.
    + unfold lock_bumps. destruct (_ || _) eqn:Hb; simpl.
      * eexists. split_and!; [done|done|done|]. intros f [= <-] _. lra.
      * exists t. split_and!; [done|done|done|]. intros f [= <-] Ht.
        apply orb_false_iff in Hb as [_ Hb]. rewrite Hm in Hb.
        apply unbumped_floor; [done|done|by destruct Hm0|exact Hb].
  - split_and!; [|done|].
    + intros l m El Hm Hc. destruct (Hl l El) as (m' & Hm' & Hm0). rewrite El in Efl.
      by rewrite (lock_floor_fin l m' c Hm' Hm0 Hc) in Efl.
    + exists t. by destruct lock.
Qed.

(** The price before the final rounding to cents: the lock, then the
    rounding table. *)
Lemma final_offer product params (t c : Q) :
  finite_offer product params →
  let lock := findMatchingPriceLock product (ca_priceLocks params) (ca_classificationIndex params) in
  let applied := lock_bumps lock (lock_floor lock (XFin c)) (current_margin product) (guarded_margin (XFin t) (XFin c)) in
  let final := if applied then default (XFin t) (lock_floor lock (XFin c)) else XFin t in
  let rounding := offer_rounding final (ca_priceRoundingRules params) (lock_floor lock (XFin c)) in
  ∃ p, round2 (default final rounding) = XFin p ∧
    (∀ l m, lock = Some l → ld_minMargin l = XFin m → 0 < c → 0 < t → c / (1 - m / 100) - (1 # 200) <= p) ∧
    (∀ s, applied = false → bool_decide (is_Some rounding) = false → t <= s → p <= q100 s) ∧
    ∃ u, (applied = false → u = t) ∧ (applied = true → lock_floor lock (XFin c) = Some (XFin u)) ∧
      (bool_decide (is_Some rounding) = false → u - (1 # 200) <= p <= u + (1 # 200)) ∧
      (endings_within_one (ca_priceRoundingRules params) → u - 1 - (1 # 200) <= p <= u + 2 + (1 # 200)).
Proof.
  intros Hf. destruct (locked_price product params t c Hf) as (Hfloor & Hfin & t' & Ht' & Happ & Happ' & Hlow).
  cbv zeta in *. rewrite Ht'. destruct (offer_rounding _ _ _) as [x|] eqn:Hr; simpl.
  - destruct (offer_rounding_fin _ _ _ _ (fo_rounding _ _ Hf) Hfin Hr) as (q & -> & Hq & Hnear).
    exists (q100 (q100 q)). split; [apply round2_fin|]. pose proof (q100_lb q). pose proof (q100_ub q). pose proof (q100_idem q) as Hid.
    split_and!; [|done|].
    + intros l m Hl Hm Hc Ht. specialize (Hfloor l m Hl Hm Hc). pose proof (Hq _ Hfloor (Hlow _ Hfloor Ht)). lra.
    + exists t'. split_and!; [done..|intros He%Hnear; rewrite Hid; lra].
  - exists (q100 t'). pose proof (q100_lb t'). pose proof (q100_ub t'). split_and!; [apply round2_fin| | |].
    + intros l m Hl Hm Hc Ht. pose proof (Hlow _ (Hfloor l m Hl Hm Hc) Ht). lra.
    + intros s Ha _ Hs. rewrite (Happ Ha). by apply q100_mono.
    + exists t'. split_and!; [done|done|lra|intros _; lra].
Qed.

End ExactOffer.

(** [C24] Price bounds, in exact arithmetic.  Let a product not be skipped,
    [t] be its price after the rule, and [u] what the lock makes of it: [t],
    or the floor of the lock when the lock applies.  If [t] and the cost are
    positive the final price is never more than half a cent below the floor,
    [cost / (1 - minMargin/100)], whatever rule, rounding table and base
    price apply.  Where neither the lock nor the rounding applied it is not
    above the sale price to the cent.  It is [u] to the cent where no
    rounding applied, and a table whose endings lie between 0 and 1 moves it
    by at most 1 down and 2 up, to the cent. *)
Theorem offer_price_bounds (product : PreviewProductInput XQ) (params : CalculationParams XQ) :
  finite_offer product params →
  pv_skippedNoCompetitorPrice (calculateProductPreview params product) = false →
  pv_skippedPriceExceedsLimit (calculateProductPreview params product) = false →
  ∃ cur t p c,
    getCalculationBasePrice product (ca_calculationBaseType params) (ca_priceBaseSources params) = Some (XFin cur) ∧
    price_after_rule (findMatchingPricingRule product (ca_pricingRules params) (XFin cur)
      (ca_classificationIndex params)) (XFin cur) = XFin t ∧
    pp_cost product = XFin c ∧ pv_finalPrice (calculateProductPreview params product) = XFin p ∧
    (∀ l m, findMatchingPriceLock product (ca_priceLocks params) (ca_classificationIndex params) = Some l →
       ld_minMargin l = XFin m → 0 < c → 0 < t → c / (1 - m / 100) - (1 # 200) <= p)%Q ∧
    (∀ s, pp_salePrice product = XFin s → 0 < s →
       pv_priceLockApplied (calculateProductPreview params product) = false →
       pv_priceRoundingApplied (calculateProductPreview params product) = false → p <= q100 s)%Q ∧
    ∃ u, (pv_priceLockApplied (calculateProductPreview params product) = false → u = t) ∧
      (pv_priceLockApplied (calculateProductPreview params product) = true →
       lock_floor (findMatchingPriceLock product (ca_priceLocks params) (ca_classificationIndex params)) (pp_cost product) = Some (XFin u)) ∧
      (pv_priceRoundingApplied (calculateProductPreview params product) = false → u - (1 # 200) <= p <= u + (1 # 200))%Q ∧
      (endings_within_one (ca_priceRoundingRules params) → u - 1 - (1 # 200) <= p <= u + 2 + (1 # 200))%Q.
Proof.
  intros Hf. destruct (finite_XFin _ (fo_cost _ _ Hf)) as [c Hc].
  unfold calculateProductPreview.
  destruct (getCalculationBasePrice _ _ _) as [cur'|] eqn:Hb; [|done].
  destruct (finite_XFin _ (base_price_finite _ _ _ Hf Hb)) as [cur ->].
  destruct (price_after_rule_finite product params (XFin cur) cur Hf) as [t Ht]. cbv zeta in Ht. rewrite Ht.
  destruct (n_lt (pp_salePrice product) (XFin t) && _) eqn:Hlim; [done|]. intros _ _.
  rewrite Hc.
  destruct (final_offer product params t c Hf) as (p & Hp & Hlow & Hhigh & Hnear). cbv zeta in Hp.
  exists cur, t, p, c. cbn [pv_finalPrice pv_priceLockApplied pv_priceRoundingApplied].
  split_and!; [done|done|done|exact Hp|exact Hlow| |exact Hnear].
  intros s Hs Hs0 Hlock Hround. apply (Hhigh s Hlock Hround). clear -Hlim Hs Hs0. rewrite Hs in Hlim.
  apply andb_false_iff in Hlim as [Hlim|Hlim]; [by apply xq_lt_false|].
  exfalso. apply xq_lt_false in Hlim. change (s <= 0)%Q in Hlim. lra.
Qed.

(* ------------------------------------------------------------------ *)
(** * Concrete products                                                 *)
(* ------------------------------------------------------------------ *)

Section OfferFixtures.
Context {N : Type} `{JsNum N}.

Definition of_product (sale cost : N) (offer : option N) (cls : option string) : PreviewProductInput N :=
  {| pp_ean := "7891"; pp_name := "DIPIRONA"; pp_externalId := Some "77"; pp_classificationId := cls;
     pp_classificationPath := "MEDICAMENTOS > GENERICOS > DOR"; pp_salePrice := sale; pp_cost := cost;
     pp_margin := n_int 50; pp_offerPrice := offer; pp_competitorPrices := ∅ |}.

Definition of_rule (cls : option (list string)) (lo hi : option (option N)) (act : PricingActionType) (pct : N) :
    CreatePricingRuleDto N :=
  Build_CreatePricingRuleDto cls lo hi None None act pct None.

Definition of_index : ClassificationIndex :=
  {| depthById := ∅; isUnder := is_under sample_rows;
     idsOverlap := λ a b, if decide (a = b) then true
                          else is_under sample_rows (Some a) b || is_under sample_rows (Some b) a;
     expandSubtree := expand sample_rows |}.

Definition of_params (rules : list (CreatePricingRuleDto N)) (locks : list (CreatePriceLockDto N))
    (rounding : list (PriceRoundingRuleInput N)) : CalculationParams N :=
  Build_CalculationParams SALE_PRICE None rules locks rounding of_index.

(** Up to 0.49 becomes 0.90. *)
Definition of_rounding : list (PriceRoundingRuleInput N) :=
  [Build_PriceRoundingRuleInput (n_int 0) (n_int 100) [Build_DecimalBucket (n_int 0) (n_dec 49 2) (n_dec 90 2)]].

End OfferFixtures.

(** Where the bounds stop, on binary64.  A 100 % discount passes the
    validation together with a price lock of 0 % minimum margin, and prices
    the product at 0, below its cost: the margin of a price of 0 counts as
    0, which is not below the minimum, so the lock does not bump it, and the
    price is pushed.  And a product priced at its sale price of 10.00 with a
    rounding table is offered, and pushed, at 10.90, above the sale price. *)
Theorem offer_price_escapes :
  (let product := of_product (n_int 10) (n_int 5) None None : PreviewProductInput F64 in
   let rules := [of_rule None None None DISCOUNT (n_int 100)] in
   let locks := [Build_CreatePriceLockDto None (n_int 0) None] in
   let r := calculateProductPreview (of_params rules locks []) product in
   validateNonOverlappingPricingRules rules of_index = Ok () ∧
   validateNonOverlappingPriceLocks locks of_index = Ok () ∧
   findMatchingPriceLock product locks of_index = head locks ∧
   pv_finalPrice r = n_int 0 ∧ pv_priceLockApplied r = false ∧ shouldPush r = true) ∧
  (let product := of_product (n_int 10) (n_int 5) None None : PreviewProductInput F64 in
   let r := calculateProductPreview (of_params [] [] of_rounding) product in
   pv_finalPrice r = n_dec 109 1 ∧ pv_skippedPriceExceedsLimit r = false ∧ shouldPush r = true ∧
   n_lt (pp_salePrice product) (pv_finalPrice r) = true).
Proof. vm_compute. repeat split. Qed.

Definition wit_rules : list (CreatePricingRuleDto F64) :=
  [of_rule (Some ["gen"]) (Some (Some (n_int 0))) (Some (Some (n_int 20))) DISCOUNT (n_int 10);
   of_rule (Some ["med"]) (Some (Some (n_int 21))) (Some None) INCREASE (n_int 5)].
Definition wit_offer_product : PreviewProductInput F64 := of_product (n_int 10) (n_int 5) None (Some "dor").

Lemma validated_sets_unambiguous_witness :
  ∃ idx, buildClassificationIndex sample_rows = Ok idx ∧
  validateNonOverlappingPricingRules wit_rules idx = Ok () ∧
  (length (filter (λ r, rule_matches wit_offer_product (n_int 10) idx r = true) wit_rules) ≤ 1)%nat ∧
  findMatchingPricingRule wit_offer_product (reverse wit_rules) (n_int 10) idx = head wit_rules.
Proof.
  destruct (buildClassificationIndex sample_rows) as [idx|e] eqn:Hb; [|by vm_compute in Hb].
  exists idx. pose proof Hb as Hb'. unfold buildClassificationIndex in Hb'.
  apply Res_bind_Ok in Hb' as (m & _ & Hidx). injection Hidx as Hidx.
  assert (validateNonOverlappingPricingRules wit_rules idx = Ok ()) as Hv by (rewrite <- Hidx; vm_compute; reflexivity).
  destruct (validated_sets_unambiguous sample_rows idx wit_rules [] wit_offer_product (n_int 10) Hb Hv)
    as (H1 & _ & Hperm & _).
  - rewrite <- Hidx. vm_compute. reflexivity.
  - repeat constructor; unfold bound_num; simpl; intros ? [= <-]; vm_compute; reflexivity.
  - vm_compute. reflexivity.
  - vm_compute. reflexivity.
  - split_and!; [done|done|exact H1|].
    rewrite (Hperm (reverse wit_rules)); [|apply reverse_Permutation].
    rewrite <- Hidx. vm_compute. reflexivity.
Defined.

(** A lock of 50 % on a product bought at 5 and sold at 10: a discount of
    10 % is taken back to the floor of 10. *)
Definition wit_exact_product : PreviewProductInput XQ := of_product (n_int 10) (n_int 5) None (Some "dor").
Definition wit_exact_params : CalculationParams XQ :=
  of_params [of_rule None None None DISCOUNT (n_int 10)]
    [Build_CreatePriceLockDto (Some ["med"]) (n_int 50) None] of_rounding.

Lemma wit_exact_finite : finite_offer wit_exact_product wit_exact_params.
Proof.
  split; try reflexivity.
  - done.
  - apply map_Forall_empty.
  - repeat constructor.
  - repeat constructor. exists 50%Q. split; [reflexivity|lra].
  - repeat constructor. exists (90 # 100)%Q. split; [reflexivity|]. lra.
Qed.

Lemma offer_price_bounds_witness :
  ∃ p, pv_finalPrice (calculateProductPreview wit_exact_params wit_exact_product) = XFin p ∧
    (10 - (1 # 200) <= p)%Q.
Proof.
  destruct (offer_price_bounds wit_exact_product wit_exact_params wit_exact_finite)
    as (cur & t & p & c & Hb & Ht & Hc & Hp & Hlow & _ & _); [vm_compute; reflexivity|vm_compute; reflexivity|].
  exists p. split; [exact Hp|].
  destruct (findMatchingPriceLock wit_exact_product (ca_priceLocks wit_exact_params)
              (ca_classificationIndex wit_exact_params)) as [l|] eqn:Hl; [|by vm_compute in Hl].
  assert (ld_minMargin l = XFin 50) as Hm by (vm_compute in Hl; injection Hl as <-; reflexivity).
  assert (c = 5 # 1)%Q as -> by (vm_compute in Hc; by injection Hc).
  assert (0 < t)%Q as Ht0.
  { injection Hb as Hcur. rewrite <- Hcur in Ht. vm_compute in Ht. injection Ht as <-. reflexivity. }
  specialize (Hlow l 50%Q eq_refl Hm eq_refl Ht0).
  assert (5 / (1 - 50 / 100) == 10)%Q as E by reflexivity. rewrite E in Hlow. exact Hlow.
Defined.
