(* ===== verification/OfferBook.v ===== *)
(** Offer book rules over the database ([tenant-api/offer-book-rules/
    offer-book-rules.service.ts]): the rule tables, the products a rule
    targets, preview, creation, reading and removal of rules, and
    [computeForRule].  A method is a function [OTx A] of the database of its
    transaction.  [to_numeric s x] is the value a numeric column of scale
    [s] stores for the number [x]; [collate_le] is the collation of
    [ORDER BY name].  Child rows ([pricingRules], [priceLocks], [products])
    are in the row of their rule: they are written and removed with it. *)

From Stdlib Require Import Ascii String.
From S2P Require Import Prelude JsText JsNumber JsDate Enums Messages World Outbox Classification SuggestionEngine PricingDb SuggestionRules Suggestions OfferRules.
Open Scope string_scope.
Open Scope list_scope.
Open Scope Z_scope.

(* ------------------------------------------------------------------ *)
(** * Tables                                                            *)
(* ------------------------------------------------------------------ *)

Inductive OfferBookRuleStatus := OB_IDLE | OB_RUNNING | OB_SUCCEEDED | OB_PARTIALLY_SUCCEEDED | OB_ERRORED.
#[export] Instance OfferBookRuleStatus_eq_dec : EqDecision OfferBookRuleStatus.
Proof. solve_decision. Defined.

Record OfferBookPricingRuleRow := {
  bp_classifications : option (list string);
  bp_priceRangeMin : option Numeric;
  bp_priceRangeMax : option Numeric;
  bp_marginRangeMin : option Numeric;
  bp_marginRangeMax : option Numeric;
  bp_actionType : PricingActionType;
  bp_percentageValue : Numeric;
  bp_active : bool;
}.

Record OfferBookPriceLockRow := {
  bl_classifications : option (list string);
  bl_minMargin : Numeric;
  bl_active : bool;
}.

(** [offer_book_rule], by [id]; times in milliseconds. *)
Record OfferBookRuleRow := {
  br_offerBookInfoId : Z;
  br_calculationBaseType : CalculationBaseType;
  br_priceBaseSources : option (list PriceBaseSource);
  br_classifications : option (list string);
  br_scheduleEnabled : bool;
  br_scheduledDays : option (list Z);
  br_applyPriceRounding : bool;
  br_status : OfferBookRuleStatus;
  br_activeExecutionReportId : option string;
  br_createdAt : Z;
  br_updatedAt : Z;
  br_deleted : bool;
  br_products : list Z;
  br_pricingRules : list OfferBookPricingRuleRow;
  br_priceLocks : list OfferBookPriceLockRow;
}.

Inductive ExecutionType := EX_MANUAL | EX_SCHEDULED.
Inductive ExecutionOutcome := EO_SUCCESS | EO_FAILURE | EO_NO_CHANGES.
Inductive ItemApplyStatus := IS_pending | IS_erp_applied | IS_applied | IS_failed | IS_skipped.
#[export] Instance ExecutionType_eq_dec : EqDecision ExecutionType.
Proof. solve_decision. Defined.
#[export] Instance ExecutionOutcome_eq_dec : EqDecision ExecutionOutcome.
Proof. solve_decision. Defined.
#[export] Instance ItemApplyStatus_eq_dec : EqDecision ItemApplyStatus.
Proof. solve_decision. Defined.

(** [offer_book_rule_execution_report], by [id]. *)
Record ReportRow := {
  rp_ruleId : string;
  rp_offerBookInfoId : Z;
  rp_executedAt : Z;
  rp_executionType : ExecutionType;
  rp_calculationBaseType : CalculationBaseType;
  rp_totalProducts : Z;
  rp_productsUpdated : Z;
  rp_productsSkipped : Z;
  rp_outcome : option ExecutionOutcome;
  rp_errorMessage : option string;
}.

(** [offer_book_rule_execution_report_item]. *)
Record ReportItemRow := {
  it_id : string;
  it_reportId : string;
  it_ean : Z;
  it_externalId : option string;
  it_name : string;
  it_classification : string;
  it_baseSalePrice : Numeric;
  it_currentPrice : Numeric;
  it_currentMargin : Numeric;
  it_cost : Numeric;
  it_actionType : option PricingActionType;
  it_percentageValue : Numeric;
  it_appliedPercentageValue : Numeric;
  it_finalPrice : Numeric;
  it_newMargin : Numeric;
  it_flags : bool * bool * bool * bool * bool;
  it_wasUpdated : bool;
  it_applyStatus : ItemApplyStatus;
  it_applyError : option string;
}.

Record OfferData (N : Type) := {
  od_catalog : Catalog N;
  od_rules : gmap string OfferBookRuleRow;
  od_reports : gmap string ReportRow;
  od_items : list ReportItemRow;
}.
Arguments Build_OfferData {N}.
Arguments od_catalog {N}. Arguments od_rules {N}. Arguments od_reports {N}. Arguments od_items {N}.

Abbreviation OfferDb N := (Db (OfferData N)).

Section OfferTransactions.
Context {N : Type}.

Definition OTx (A : Type) : Type := OfferDb N → Res (A * OfferDb N).
#[export] Instance OTx_ret : MRet OTx := λ A a db, Ok (a, db).
#[export] Instance OTx_bind : MBind OTx := λ A B f m db,
  match m db with Ok (a, db') => f a db' | Throw e => Throw e end.

Definition o_throw {A} (e : Exn) : OTx A := λ _, Throw e.
Definition o_get : OTx (OfferDb N) := λ db, Ok (db, db).
Definition o_lift {A} (r : Res A) : OTx A := λ db,
  match r with Ok a => Ok (a, db) | Throw e => Throw e end.
Definition o_modify (f : OfferDb N → OfferDb N) : OTx unit := λ db, Ok ((), f db).

Definition o_catalog (db : OfferDb N) : Catalog N := od_catalog (db_data db).
Definition bookRules (db : OfferDb N) : gmap string OfferBookRuleRow := od_rules (db_data db).
Definition reports (db : OfferDb N) : gmap string ReportRow := od_reports (db_data db).
Definition reportItems (db : OfferDb N) : list ReportItemRow := od_items (db_data db).

Definition set_offer_data (d : OfferData N) (db : OfferDb N) : OfferDb N := Build_Db (db_runs db) (db_outbox db) d.
Definition set_o_catalog (c : Catalog N) (db : OfferDb N) : OfferDb N :=
  set_offer_data (Build_OfferData c (bookRules db) (reports db) (reportItems db)) db.
Definition set_bookRules (m : gmap string OfferBookRuleRow) (db : OfferDb N) : OfferDb N :=
  set_offer_data (Build_OfferData (o_catalog db) m (reports db) (reportItems db)) db.
Definition set_reports (m : gmap string ReportRow) (db : OfferDb N) : OfferDb N :=
  set_offer_data (Build_OfferData (o_catalog db) (bookRules db) m (reportItems db)) db.
Definition set_reportItems (l : list ReportItemRow) (db : OfferDb N) : OfferDb N :=
  set_offer_data (Build_OfferData (o_catalog db) (bookRules db) (reports db) l) db.

End OfferTransactions.
Arguments OTx : clear implicits.

(* ------------------------------------------------------------------ *)
(** * Requests                                                          *)
(* ------------------------------------------------------------------ *)

(** The body of [/preview] and of the creation of a rule share their
    targets, rules and locks. *)
Record OfferTarget (N : Type) := {
  tg_calculationBaseType : CalculationBaseType;
  tg_priceBaseSources : option (list PriceBaseSource);
  tg_eans : option (list string);
  tg_classifications : option (list string);
  tg_pricingRules : list (CreatePricingRuleDto N);
  tg_priceLocks : list (CreatePriceLockDto N);
  tg_applyPriceRounding : option bool;
}.
Arguments Build_OfferTarget {N}.
Arguments tg_calculationBaseType {N}. Arguments tg_priceBaseSources {N}. Arguments tg_eans {N}.
Arguments tg_classifications {N}. Arguments tg_pricingRules {N}. Arguments tg_priceLocks {N}.
Arguments tg_applyPriceRounding {N}.

Record PreviewOfferBookRulesDto (N : Type) := {
  pd_target : OfferTarget N;
  pd_page : option Z;
  pd_pageSize : option Z;
}.
Arguments Build_PreviewOfferBookRulesDto {N}.
Arguments pd_target {N}. Arguments pd_page {N}. Arguments pd_pageSize {N}.

Record CreateOfferBookRuleDto (N : Type) := {
  cd_offerBookInfoId : Z;
  cd_target : OfferTarget N;
  cd_scheduleEnabled : option bool;
  cd_scheduledDays : option (list Z);
}.
Arguments Build_CreateOfferBookRuleDto {N}.
Arguments cd_offerBookInfoId {N}. Arguments cd_target {N}. Arguments cd_scheduleEnabled {N}.
Arguments cd_scheduledDays {N}.

Record PaginatedPreviewResult (N : Type) := {
  pg_rows : list (PreviewProductResult N);
  pg_total : Z;
  pg_page : Z;
  pg_pageSize : Z;
  pg_totalPages : Z;
}.
Arguments Build_PaginatedPreviewResult {N}.
Arguments pg_rows {N}. Arguments pg_total {N}. Arguments pg_page {N}. Arguments pg_pageSize {N}.
Arguments pg_totalPages {N}.

Definition MAX_PAGE_SIZE : Z := 1000.

(** A cast of digits to bigint. *)
Definition bigint_cast (s : string) : Res Z :=
  if str_forall is_digit s && negb (String.eqb s "") && (digits_val s <=? 9223372036854775807)
  then Ok (digits_val s) else Throw (EError "value out of range for type bigint").

Fixpoint bigint_casts (l : list string) : Res (list Z) :=
  match l with
  | [] => Ok []
  | s :: l' => z ← bigint_cast s; zs ← bigint_casts l'; Ok (z :: zs)
  end.

Definition ceil_div (a b : Z) : Z := - (- a / b).

Section OfferBook.
Context {N : Type} `{JsNum N}.
Variable to_numeric : nat → N → Numeric.
Variable collate_le : string → string → bool.

(* ------------------------------------------------------------------ *)
(** * The products a rule targets                                       *)
(* ------------------------------------------------------------------ *)

Definition live_classifications (c : Catalog N) : list ClassificationRow :=
  ce_row <$> filter (λ e, ce_deleted e = false) (ct_classifications c).

Definition loadClassificationIndex (c : Catalog N) : Res ClassificationIndex :=
  buildClassificationIndex (live_classifications c).

(** [CLS_CTE]: the path from a root; a node under a deleted one has none. *)
Fixpoint cls_path (fuel : nat) (rows : list ClassificationRow) (id : string) : option string :=
  r ← byId rows !! id;
  match cr_parentId r with
  | None => Some (cr_name r)
  | Some p => match fuel with
              | O => None
              | S f => up ← cls_path f rows p; Some (up +:+ " > " +:+ cr_name r)
              end
  end.

(** The WHERE clauses: the live products of the EANs, of the subtrees. *)
Definition is_live (p : ProductRow) : bool := p_active p && negb (p_deleted p).
Definition in_eans (zs : list Z) (zp : Z * ProductRow) : bool := is_live zp.2 && bool_decide (zp.1 ∈ zs).
Definition in_classifications (subtree : list string) (zp : Z * ProductRow) : bool :=
  is_live zp.2 && match p_classificationId zp.2 with
                  | Some k => bool_decide (k ∈ subtree) | None => false end.

Definition target_where (eans classifications : option (list string)) (index : ClassificationIndex) :
    Res (Z * ProductRow → bool) :=
  match eans with
  | Some ((_ :: _) as l) => zs ← bigint_casts l; Ok (in_eans zs)
  | _ =>
      match classifications with
      | None => Throw (EError "undefined is not iterable (cannot read property Symbol(Symbol.iterator))")
      | Some roots => Ok (in_classifications (expandSubtree index roots))
      end
  end.

(** [ORDER BY p.name ASC, p.ean ASC]: NULL names last. *)
Definition name_ean_le (a b : Z * ProductRow) : bool :=
  match p_name a.2, p_name b.2 with
  | Some x, Some y => if collate_le x y && collate_le y x then a.1 <=? b.1 else collate_le x y
  | Some _, None => true
  | None, Some _ => false
  | None, None => a.1 <=? b.1
  end.

Definition target_products (c : Catalog N) (sel : Z * ProductRow → bool) : list (Z * ProductRow) :=
  js_sort name_ean_le (filter (λ zp, sel zp = true) (map_to_list (ct_products c))).

Definition offer_num (x : option Numeric) : N := default (n_int 0) (num_of x).

Definition toPreviewProduct (c : Catalog N) (zp : Z * ProductRow) : PreviewProductInput N :=
  let '(z, p) := zp in
  let live := live_classifications c in
  {| pp_ean := ean_text z; pp_name := default "" (p_name p); pp_externalId := p_externalId p;
     pp_classificationId := p_classificationId p;
     pp_classificationPath := default "" (k ← p_classificationId p; cls_path (length live) live k);
     pp_salePrice := offer_num (p_price p); pp_cost := offer_num (p_cost p); pp_margin := offer_num (p_margin p);
     pp_offerPrice := (ob ← ct_offerBook c !! z; x ← of_target_price ob; Some (offer_num (Some x)));
     pp_competitorPrices := ∅ |}.

Definition fetchProducts (c : Catalog N) (eans classifications : option (list string)) (index : ClassificationIndex)
    (page pageSize : Z) : Res (Z * list (PreviewProductInput N)) :=
  sel ← target_where eans classifications index;
  let rows := target_products c sel in
  Ok (Z.of_nat (length rows), toPreviewProduct c <$> js_slice ((page - 1) * pageSize) pageSize rows).

(** [byEan.get(product.ean) ?? {}]: the live prices of the origins. *)
Definition competitor_prices (c : Catalog N) (origins : list PriceBaseSource) (z : Z) : gmap string N :=
  list_to_map (omap (λ s,
    row ← ct_shared c !! (z, source_str s);
    price ← sh_price row;
    if sh_deleted row then None else Some (source_str s, dec_of price)) origins).

Definition with_market_prices (prices : gmap string N) (product : PreviewProductInput N) : PreviewProductInput N :=
  {| pp_ean := pp_ean product; pp_name := pp_name product; pp_externalId := pp_externalId product;
     pp_classificationId := pp_classificationId product; pp_classificationPath := pp_classificationPath product;
     pp_salePrice := pp_salePrice product; pp_cost := pp_cost product; pp_margin := pp_margin product;
     pp_offerPrice := pp_offerPrice product; pp_competitorPrices := prices |}.

Definition attachCompetitorPrices (c : Catalog N) (priceBaseSources : list PriceBaseSource)
    (products : list (PreviewProductInput N)) : list (PreviewProductInput N) :=
  match filter (λ s, s ≠ OWN_PRICE) priceBaseSources with
  | [] => products
  | origins => (λ p, with_market_prices (competitor_prices c origins (digits_val (pp_ean p))) p) <$> products
  end.

Definition rounding_input (r : PriceRoundingRange N) : PriceRoundingRuleInput N :=
  Build_PriceRoundingRuleInput (price_min r) (price_max r)
    (map (λ d, Build_DecimalBucket (decimal_min d) (decimal_max d) (round_to d)) (pr_rules r)).

Definition fetchRoundingRules (c : Catalog N) (slug : string) : Res (list (PriceRoundingRuleInput N)) :=
  ranges ← rounding_list c slug; Ok (map rounding_input ranges).

(** Competitor prices, rounding rules and calculation, as both callers do. *)
Definition price_products (c : Catalog N) (slug : string) (index : ClassificationIndex) (t : OfferTarget N)
    (products : list (PreviewProductInput N)) : Res (list (PreviewProductResult N)) :=
  let products := if decide (tg_calculationBaseType t = COMPETITIVE_PRICE)
                  then attachCompetitorPrices c (default [] (tg_priceBaseSources t)) products else products in
  priceRoundingRules ← (if default false (tg_applyPriceRounding t) then fetchRoundingRules c slug else Ok []);
  Ok (calculatePreviews products
        {| ca_calculationBaseType := tg_calculationBaseType t; ca_priceBaseSources := tg_priceBaseSources t;
           ca_pricingRules := tg_pricingRules t; ca_priceLocks := tg_priceLocks t;
           ca_priceRoundingRules := priceRoundingRules; ca_classificationIndex := index |}).

(* ------------------------------------------------------------------ *)
(** * Guards shared by preview and creation                             *)
(* ------------------------------------------------------------------ *)

Definition assertTarget (t : OfferTarget N) : Res unit :=
  if Bool.eqb (negb (no_ids (tg_eans t))) (negb (no_ids (tg_classifications t)))
  then Throw (EBadRequest "Send either a list of eans or a list of classifications, but not both")
  else if bool_decide (tg_calculationBaseType t = COMPETITIVE_PRICE)
          && match tg_priceBaseSources t with None | Some [] => true | _ => false end
  then Throw (EBadRequest "priceBaseSources must contain at least one source when calculationBaseType is COMPETITIVE_PRICE")
  else Ok ().

(** The target with its rules and locks normalized, once they are known to
    be valid.  [ids] are the target's own classification ids. *)
Definition normalizedTarget (t : OfferTarget N) (ids : option (list string)) (index : ClassificationIndex) :
    Res (OfferTarget N) :=
  let pricingRules := normalizePricingRules (tg_pricingRules t) in
  let priceLocks := normalizePriceLocks (tg_priceLocks t) in
  assertKnownClassificationIds
    (default [] ids ++ (pricingRules ≫= λ r, default [] (rd_classifications r))
     ++ (priceLocks ≫= λ l, default [] (ld_classifications l))) index;;
  validateNonOverlappingPricingRules pricingRules index;;
  validateNonOverlappingPriceLocks priceLocks index;;
  Ok {| tg_calculationBaseType := tg_calculationBaseType t; tg_priceBaseSources := tg_priceBaseSources t;
        tg_eans := tg_eans t; tg_classifications := tg_classifications t; tg_pricingRules := pricingRules;
        tg_priceLocks := priceLocks; tg_applyPriceRounding := tg_applyPriceRounding t |}.

Definition previewOffers (c : Catalog N) (slug : string) (dto : PreviewOfferBookRulesDto N) :
    Res (PaginatedPreviewResult N) :=
  assertTarget (pd_target dto);;
  let page := default 1 (pd_page dto) in
  let pageSize := Z.min (default MAX_PAGE_SIZE (pd_pageSize dto)) MAX_PAGE_SIZE in
  index ← loadClassificationIndex c;
  t ← normalizedTarget (pd_target dto) (tg_classifications (pd_target dto)) index;
  '(total, products) ← fetchProducts c (tg_eans t) (tg_classifications t) index page pageSize;
  if total =? 0 then Ok (Build_PaginatedPreviewResult [] 0 page pageSize 0)
  else
    rows ← price_products c slug index t products;
    Ok (Build_PaginatedPreviewResult rows total page pageSize (ceil_div total pageSize)).

(* ------------------------------------------------------------------ *)
(** * Creation                                                          *)
(* ------------------------------------------------------------------ *)

(** [x ?? null] into a numeric column of scale 2. *)
Definition column2 (x : option (option N)) : option Numeric := to_numeric 2 <$> mjoin x.

Definition save_pricing_rule (r : CreatePricingRuleDto N) : OfferBookPricingRuleRow :=
  {| bp_classifications := rd_classifications r; bp_priceRangeMin := column2 (rd_priceRangeMin r);
     bp_priceRangeMax := column2 (rd_priceRangeMax r); bp_marginRangeMin := column2 (rd_marginRangeMin r);
     bp_marginRangeMax := column2 (rd_marginRangeMax r); bp_actionType := rd_actionType r;
     bp_percentageValue := to_numeric 2 (rd_percentageValue r); bp_active := default true (rd_active r) |}.

Definition save_price_lock (l : CreatePriceLockDto N) : OfferBookPriceLockRow :=
  {| bl_classifications := ld_classifications l; bl_minMargin := to_numeric 2 (ld_minMargin l);
     bl_active := default true (ld_active l) |}.

Definition new_bookRule (now : Z) (dto : CreateOfferBookRuleDto N) (t : OfferTarget N) (products : list Z) :
    OfferBookRuleRow :=
  {| br_offerBookInfoId := cd_offerBookInfoId dto; br_calculationBaseType := tg_calculationBaseType t;
     br_priceBaseSources := tg_priceBaseSources t;
     br_classifications := normalizeClassificationIds (tg_classifications t);
     br_scheduleEnabled := default false (cd_scheduleEnabled dto);
     br_scheduledDays := if default false (cd_scheduleEnabled dto) then cd_scheduledDays dto else None;
     br_applyPriceRounding := default false (tg_applyPriceRounding t); br_status := OB_IDLE;
     br_activeExecutionReportId := None; br_createdAt := now; br_updatedAt := now; br_deleted := false;
     br_products := products; br_pricingRules := save_pricing_rule <$> tg_pricingRules t;
     br_priceLocks := save_price_lock <$> tg_priceLocks t |}.

(** The caderno of a rule is unique, soft-deleted rules included. *)
Definition info_taken (infoId : Z) (rules : gmap string OfferBookRuleRow) : bool :=
  existsb (λ '(_, r), br_offerBookInfoId r =? infoId) (map_to_list rules).
Definition live_info_taken (infoId : Z) (rules : gmap string OfferBookRuleRow) : bool :=
  existsb (λ '(_, r), (br_offerBookInfoId r =? infoId) && negb (br_deleted r)) (map_to_list rules).

Definition already_exists (infoId : Z) : Exn :=
  EConflict ("Já existe regra para o caderno de ofertas " +:+ pretty infoId).

(** [meanwhile] is what other transactions commit between the check for an
    existing rule and the INSERT; [id] the new row's. *)
Definition create_bookRule (meanwhile : OfferDb N → OfferDb N) (id : string) (now : Z)
    (dto : CreateOfferBookRuleDto N) : OTx N string :=
  let t := cd_target dto in
  let infoId := cd_offerBookInfoId dto in
  o_lift (assertTarget t);;
  (if default false (cd_scheduleEnabled dto)
      && match cd_scheduledDays dto with None | Some [] => true | _ => false end
   then o_throw (EBadRequest "scheduledDays must be provided when scheduleEnabled is true") else mret ());;
  db ← o_get;
  (match ct_campaigns (o_catalog db) !! infoId with
   | Some cp => if cp_active cp && negb (cp_deleted cp) then mret ()
                else o_throw (ENotFound ("Caderno de ofertas " +:+ pretty infoId +:+ " não encontrado ou inativo"))
   | None => o_throw (ENotFound ("Caderno de ofertas " +:+ pretty infoId +:+ " não encontrado ou inativo"))
   end);;
  (if live_info_taken infoId (bookRules db) then o_throw (already_exists infoId) else mret ());;
  index ← o_lift (loadClassificationIndex (o_catalog db));
  t ← o_lift (normalizedTarget t (normalizeClassificationIds (tg_classifications t)) index);
  o_modify meanwhile;;
  db ← o_get;
  (if info_taken infoId (bookRules db) then o_throw (already_exists infoId) else mret ());;
  eans ← o_lift (bigint_casts (js_uniq (default [] (tg_eans t))));
  (if bool_decide (NoDup eans) then mret ()
   else o_throw (EError "duplicate key value violates unique constraint"));;
  o_modify (λ db, set_bookRules (<[id := new_bookRule now dto t eans]> (bookRules db)) db);;
  mret id.

(* ------------------------------------------------------------------ *)
(** * Reading and removal                                               *)
(* ------------------------------------------------------------------ *)

Record OfferBookRuleListItem := {
  li_id : string;
  li_offerBookInfoId : Z;
  li_cadernoName : option string;
  li_calculationBaseType : CalculationBaseType;
  li_scheduleEnabled : bool;
  li_status : OfferBookRuleStatus;
  li_productsCount : Z;
  li_createdAt : Z;
}.

Definition toListItem (c : Catalog N) (ir : string * OfferBookRuleRow) : OfferBookRuleListItem :=
  let '(id, r) := ir in
  {| li_id := id; li_offerBookInfoId := br_offerBookInfoId r;
     li_cadernoName := cp_name <$> ct_campaigns c !! br_offerBookInfoId r;
     li_calculationBaseType := br_calculationBaseType r; li_scheduleEnabled := br_scheduleEnabled r;
     li_status := br_status r; li_productsCount := Z.of_nat (length (br_products r));
     li_createdAt := br_createdAt r |}.

Definition list_bookRules (db : OfferDb N) (page pageSize : Z) : list OfferBookRuleListItem * Z * Z * Z * Z :=
  let size := Z.min (Z.max pageSize 1) 200 in
  let live := filter (λ '(_, r), br_deleted r = false) (map_to_list (bookRules db)) in
  let sorted := js_sort (λ a b : string * OfferBookRuleRow, br_createdAt b.2 <=? br_createdAt a.2) live in
  let total := Z.of_nat (length live) in
  (toListItem (o_catalog db) <$> js_slice ((Z.max page 1 - 1) * size) size sorted,
   total, Z.max page 1, size, ceil_div total size).

(** The rules and locks of a stored rule, as numbers. *)
Definition numOrUndef (v : option Numeric) : option (option N) :=
  match v with None => None | Some x => Some (Some (dec_of x)) end.

Definition load_pricing_rule (r : OfferBookPricingRuleRow) : CreatePricingRuleDto N :=
  Build_CreatePricingRuleDto (bp_classifications r) (numOrUndef (bp_priceRangeMin r))
    (numOrUndef (bp_priceRangeMax r)) (numOrUndef (bp_marginRangeMin r)) (numOrUndef (bp_marginRangeMax r))
    (bp_actionType r) (dec_of (bp_percentageValue r)) (Some (bp_active r)).

Definition load_price_lock (l : OfferBookPriceLockRow) : CreatePriceLockDto N :=
  Build_CreatePriceLockDto (bl_classifications l) (dec_of (bl_minMargin l)) (Some (bl_active l)).

Record OfferBookRuleDetail := {
  dt_item : OfferBookRuleListItem;
  dt_priceBaseSources : option (list PriceBaseSource);
  dt_classifications : option (list string);
  dt_scheduledDays : option (list Z);
  dt_applyPriceRounding : bool;
  dt_eans : list string;
  dt_pricingRules : list (CreatePricingRuleDto N);
  dt_priceLocks : list (CreatePriceLockDto N);
}.

(** [.sort()] of strings: code unit order. *)
Definition toDetail (c : Catalog N) (id : string) (r : OfferBookRuleRow) : OfferBookRuleDetail :=
  {| dt_item := toListItem c (id, r); dt_priceBaseSources := br_priceBaseSources r;
     dt_classifications := br_classifications r; dt_scheduledDays := br_scheduledDays r;
     dt_applyPriceRounding := br_applyPriceRounding r;
     dt_eans := js_sort (λ a b, negb (str_ltb b a)) (ean_text <$> br_products r);
     dt_pricingRules := load_pricing_rule <$> br_pricingRules r;
     dt_priceLocks := load_price_lock <$> br_priceLocks r |}.

Definition rule_not_found (id : string) : Exn := ENotFound ("Regra " +:+ id +:+ " não encontrada").

Definition getOne (id : string) : OTx N OfferBookRuleDetail :=
  db ← o_get;
  match bookRules db !! id with
  | Some r => if br_deleted r then o_throw (rule_not_found id)
              else mret (toDetail (o_catalog db) id r)
  | None => o_throw (rule_not_found id)
  end.

(** The DELETE cascades to the reports and their items. *)
Definition delete_bookRule (id : string) (db : OfferDb N) : OfferDb N :=
  let gone := (λ ir : string * ReportRow, ir.1) <$>
                filter (λ '(_, rp), rp_ruleId rp = id) (map_to_list (reports db)) in
  set_reportItems (filter (λ i, it_reportId i ∉ gone) (reportItems db))
    (set_reports (filter (λ '(_, rp), rp_ruleId rp ≠ id) (reports db))
       (set_bookRules (delete id (bookRules db)) db)).

Definition remove_bookRule (id : string) : OTx N string :=
  db ← o_get;
  match bookRules db !! id with
  | Some r => if decide (br_status r = OB_RUNNING) then
                if br_deleted r then o_throw (rule_not_found id)
                else o_throw (EConflict ("Regra " +:+ id +:+ " está em execução"))
              else o_modify (delete_bookRule id);; mret id
  | None => o_throw (rule_not_found id)
  end.

(* ------------------------------------------------------------------ *)
(** * The calculation of a stored rule                                  *)
(* ------------------------------------------------------------------ *)

(** The [for (let page = 1; ; page++)] loop. *)
Fixpoint fetch_pages (fuel : nat) (c : Catalog N) (eans classifications : option (list string))
    (index : ClassificationIndex) (page : Z) (products : list (PreviewProductInput N)) :
    Res (list (PreviewProductInput N)) :=
  match fuel with
  | O => Throw (EError "out of fuel")
  | S f =>
      '(total, batch) ← fetchProducts c eans classifications index page MAX_PAGE_SIZE;
      let products := products ++ batch in
      if (total <=? Z.of_nat (length products)) || Nat.eqb (length batch) 0 then Ok products
      else fetch_pages f c eans classifications index (page + 1) products
  end.

(** The target of a stored rule; [products] and [classifications] count
    when they are not empty. *)
Definition target_of_rule (rule : OfferBookRuleRow) : OfferTarget N :=
  {| tg_calculationBaseType := br_calculationBaseType rule; tg_priceBaseSources := br_priceBaseSources rule;
     tg_eans := match br_products rule with [] => None | l => Some (ean_text <$> l) end;
     tg_classifications := match br_classifications rule with Some ((_ :: _) as l) => Some l | _ => None end;
     tg_pricingRules := normalizePricingRules (load_pricing_rule <$> br_pricingRules rule);
     tg_priceLocks := normalizePriceLocks (load_price_lock <$> br_priceLocks rule);
     tg_applyPriceRounding := Some (br_applyPriceRounding rule) |}.

Definition computeForRule (c : Catalog N) (slug : string) (rule : OfferBookRuleRow) :
    Res (list (PreviewProductResult N)) :=
  index ← loadClassificationIndex c;
  let t := target_of_rule rule in
  products ← fetch_pages (S (size (ct_products c))) c (tg_eans t) (tg_classifications t) index 1 [];
  match products with
  | [] => Ok []
  | _ => price_products c slug index t products
  end.

End OfferBook.
