(* ===== verification/OfferBookLaws.v ===== *)
(** Offer book rules over the database: the page loop of the execution
    fetches every product, and the preview of a rule is what its execution
    computes, page by page, as long as no bound is a JSON [null]. *)

From Stdlib Require Import Ascii String.
From S2P Require Import Prelude JsText JsNumber JsDate Enums Messages World Outbox Classification SuggestionEngine PricingDb SuggestionRules Suggestions OfferRules OfferRulesLaws OfferBook.
Open Scope string_scope.
Open Scope list_scope.
Open Scope Z_scope.

(* ------------------------------------------------------------------ *)
(** * Texts of bigints                                                  *)
(* ------------------------------------------------------------------ *)

Lemma pretty_go_digits x s : str_forall is_digit s = true → str_forall is_digit (pretty_N_go x s) = true.
Proof.
  revert s. induction (N.lt_wf_0 x) as [x _ IH]. intros s Hs. destruct (decide (0 < x)%N) as [Hx|Hx].
  - rewrite pretty_N_go_step by done. apply IH; [by apply N.div_lt|].
    simpl. rewrite Hs. destruct (pretty_N_char_digit (x `mod` 10)) as [-> _]; [apply N.mod_lt; lia|done].
  - assert (x = 0%N) as -> by lia. by rewrite pretty_N_go_0.
Qed.

Lemma pretty_digits z : 0 <= z → str_forall is_digit (pretty z) = true ∧ pretty z ≠ "".
Proof.
  intros Hz. destruct z as [|p|p]; [done| |lia].
  assert (pretty (Z.pos p) = pretty_N_go (N.pos p) "") as -> by done. split; [by apply pretty_go_digits|].
  rewrite pretty_N_go_step by lia. intros E.
  assert (∀ x s, s ≠ "" → pretty_N_go x s ≠ "") as Haux.
  { intros x. induction (N.lt_wf_0 x) as [x _ IH]. intros s Hs. destruct (decide (0 < x)%N) as [Hx|Hx].
    - rewrite pretty_N_go_step by done. by apply IH; [apply N.div_lt|].
    - assert (x = 0%N) as -> by lia. by rewrite pretty_N_go_0. }
  by apply Haux in E.
Qed.

Definition bigint_ok (z : Z) : Prop := 0 <= z <= 9223372036854775807.

Lemma bigint_cast_text z : bigint_ok z → bigint_cast (ean_text z) = Ok z.
Proof.
  intros [H0 H1]. unfold bigint_cast, ean_text. destruct (pretty_digits z H0) as [-> Hne].
  rewrite digits_val_pretty by done. apply String.eqb_neq in Hne. rewrite Hne.
  by apply Z.leb_le in H1 as ->.
Qed.

Lemma cast_digit_nonneg c : is_digit c = true → 0 <= digit_val c.
Proof. destruct c as [[] [] [] [] [] [] [] []]; vm_compute; done. Qed.

Lemma take_digits_nonneg a n s : 0 <= a → 0 <= (take_digits a n s).1.1.
Proof.
  revert a n. induction s as [|c s IH]; intros a n Ha; simpl; [done|].
  destruct (is_digit c) eqn:Hc; [|done]. apply IH. pose proof (cast_digit_nonneg c Hc). lia.
Qed.

Lemma bigint_cast_ok s z : bigint_cast s = Ok z → z = digits_val s ∧ bigint_ok z.
Proof.
  unfold bigint_cast. destruct (_ && _) eqn:E; [|done]. intros [= <-]. split; [done|].
  apply andb_true_iff in E as [_ ?%Z.leb_le]. split; [|done].
  apply (take_digits_nonneg 0 0 s). lia.
Qed.

Lemma bigint_casts_elem l zs : bigint_casts l = Ok zs →
  Forall bigint_ok zs ∧ (∀ z, z ∈ zs ↔ ∃ s, s ∈ l ∧ bigint_cast s = Ok z) ∧ (l = [] ↔ zs = []).
Proof.
  revert zs. induction l as [|s l IH]; simpl; intros zs.
  { intros [= <-]. split_and!; [constructor| |done]. intros z. split; [by intros ?%elem_of_nil|].
    by intros (? & ?%elem_of_nil & _). }
  intros (z & Hz & Hzs)%Res_bind_Ok. apply Res_bind_Ok in Hzs as (zs' & Hzs' & [= <-]).
  destruct (IH _ Hzs') as (Hok & Hel & _). split_and!; [constructor; [by apply bigint_cast_ok in Hz as [_ ?]|done]| |done].
  intros y. rewrite elem_of_cons, Hel. setoid_rewrite elem_of_cons. split.
  - intros [->|(s' & ? & ?)]; eauto.
  - intros (s' & [->|?] & Hy); [left; congruence|]. right. eauto.
Qed.

Lemma bigint_casts_texts zs : Forall bigint_ok zs → bigint_casts (ean_text <$> zs) = Ok zs.
Proof.
  induction 1 as [|z zs Hz _ IH]; [done|]. cbn [fmap list_fmap bigint_casts].
  rewrite (bigint_cast_text z Hz). cbn [mbind Res_bind]. by rewrite IH.
Qed.

Lemma bigint_casts_each l zs s : bigint_casts l = Ok zs → s ∈ l → isOk (bigint_cast s) = true.
Proof.
  revert zs. induction l as [|x l IH]; intros zs; [by intros _ ?%elem_of_nil|].
  cbn [bigint_casts]. intros (z & Hz & Hzs)%Res_bind_Ok [->|Hs]%elem_of_cons; [by rewrite Hz|].
  apply Res_bind_Ok in Hzs as (zs' & Hzs' & _). by eapply IH.
Qed.

Lemma bigint_casts_forall l : (∀ s, s ∈ l → isOk (bigint_cast s) = true) → isOk (bigint_casts l) = true.
Proof.
  induction l as [|s l IH]; [done|]. intros H. simpl. specialize (IH ltac:(intros ? ?; apply H; by right)).
  pose proof (H s ltac:(left)) as Hs. destruct (bigint_cast s); [|done]. simpl. by destruct (bigint_casts l).
Qed.

(** Casting the distinct texts gives the same numbers as casting all. *)
Lemma bigint_casts_uniq l zs : bigint_casts (js_uniq l) = Ok zs →
  ∃ zs', bigint_casts l = Ok zs' ∧ ∀ z, z ∈ zs' ↔ z ∈ zs.
Proof.
  intros Hzs. destruct (bigint_casts_elem _ _ Hzs) as (_ & Hel & _).
  destruct (bigint_casts l) as [zs'|e] eqn:E.
  - exists zs'. split; [done|]. intros z. destruct (bigint_casts_elem _ _ E) as (_ & Hel' & _).
    rewrite Hel, Hel'. by setoid_rewrite js_uniq_elem.
  - exfalso. assert (isOk (bigint_casts l) = true) as H by
      (apply bigint_casts_forall; intros s Hs%js_uniq_elem; by eapply bigint_casts_each).
    by rewrite E in H.
Qed.

Section OfferBookLaws.
Context {N : Type} `{JsNum N}.
Variable to_numeric : nat → N → Numeric.
Variable collate_le : string → string → bool.
Implicit Types (c : Catalog N) (index : ClassificationIndex).

(* ------------------------------------------------------------------ *)
(** * The page loop                                                     *)
(* ------------------------------------------------------------------ *)

Lemma js_slice_fmap {A B} (f : A → B) start n (l : list A) : f <$> js_slice start n l = js_slice start n (f <$> l).
Proof. unfold js_slice. by rewrite fmap_take, fmap_drop. Qed.

Lemma take_js_slice {A} (l : list A) (k : nat) (n : Z) :
  0 <= n → take k l ++ js_slice (Z.of_nat k) n l = take (k + Z.to_nat n) l.
Proof. intros. unfold js_slice. by rewrite Nat2Z.id, take_take_drop. Qed.

Lemma target_products_size c sel : (length (target_products collate_le c sel) ≤ size (ct_products c))%nat.
Proof.
  unfold target_products. rewrite js_sort_perm. etrans; [apply length_filter|]. by rewrite length_map_to_list.
Qed.

Lemma fetch_pages_from c eans cls index sel fuel page acc :
  target_where eans cls index = Ok sel → 1 <= page →
  let rows := target_products collate_le c sel in
  let k := Z.to_nat ((page - 1) * MAX_PAGE_SIZE) in
  acc = (toPreviewProduct c <$> take k rows) → (length rows - k < fuel)%nat →
  fetch_pages collate_le fuel c eans cls index page acc = Ok (toPreviewProduct c <$> rows).
Proof.
  intros Hw. revert page acc. induction fuel as [|f IH]; intros page acc Hp rows k Hacc Hf; [lia|].
  cbn [fetch_pages]. unfold fetchProducts. rewrite Hw. cbn [mbind Res_bind]. fold rows.
  set (batch := toPreviewProduct c <$> js_slice _ _ rows).
  assert (Z.of_nat k = (page - 1) * MAX_PAGE_SIZE) as Hk by (unfold k, MAX_PAGE_SIZE; lia).
  assert (acc ++ batch = (toPreviewProduct c <$> take (k + 1000) rows)) as Happ.
  { unfold batch. rewrite Hacc, <- fmap_app, <- Hk.
    rewrite (take_js_slice rows k MAX_PAGE_SIZE) by done. done. }
  assert (length (acc ++ batch) = Nat.min (k + 1000) (length rows)) as Hlen
    by (rewrite Happ, length_fmap, length_take; done).
  destruct (_ || _) eqn:Hend.
  - rewrite Happ. f_equal. f_equal. apply take_ge.
    apply orb_true_iff in Hend as [Hend%Z.leb_le|Hend%Nat.eqb_eq]; [lia|].
    rewrite length_app, Hend in Hlen. rewrite Hacc, length_fmap, length_take in Hlen. lia.
  - apply orb_false_iff in Hend as [Hend%Z.leb_gt _].
    assert (Z.to_nat ((page + 1 - 1) * MAX_PAGE_SIZE) = (k + 1000)%nat) as Hk'
      by (unfold MAX_PAGE_SIZE in *; lia).
    apply IH; [lia|by rewrite Happ, Hk'|]. rewrite Hk'. fold rows. rewrite Hlen in Hend. lia.
Qed.

(** The loop ends, with every product of the target. *)
Lemma fetch_pages_all c eans cls index sel :
  target_where eans cls index = Ok sel →
  fetch_pages collate_le (S (size (ct_products c))) c eans cls index 1 []
  = Ok (toPreviewProduct c <$> target_products collate_le c sel).
Proof.
  intros Hw. apply (fetch_pages_from _ _ _ _ _ _ _ _ Hw); [lia|by rewrite take_0|].
  pose proof (target_products_size c sel). lia.
Qed.

(* ------------------------------------------------------------------ *)
(** * Pricing is done product by product                                *)
(* ------------------------------------------------------------------ *)

Definition price_params (rounding : list (PriceRoundingRuleInput N)) index (t : OfferTarget N) : CalculationParams N :=
  {| ca_calculationBaseType := tg_calculationBaseType t; ca_priceBaseSources := tg_priceBaseSources t;
     ca_pricingRules := tg_pricingRules t; ca_priceLocks := tg_priceLocks t;
     ca_priceRoundingRules := rounding; ca_classificationIndex := index |}.

Definition with_market c (t : OfferTarget N) (p : PreviewProductInput N) : PreviewProductInput N :=
  if decide (tg_calculationBaseType t = COMPETITIVE_PRICE) then
    match filter (λ s, s ≠ OWN_PRICE) (default [] (tg_priceBaseSources t)) with
    | [] => p
    | origins => with_market_prices (competitor_prices c origins (digits_val (pp_ean p))) p
    end
  else p.

Definition target_rounding c slug (t : OfferTarget N) : Res (list (PriceRoundingRuleInput N)) :=
  if default false (tg_applyPriceRounding t) then fetchRoundingRules c slug else Ok [].

Lemma price_products_each c slug index t products :
  price_products c slug index t products
  = rounding ← target_rounding c slug t;
    Ok ((λ p, calculateProductPreview (price_params rounding index t) (with_market c t p)) <$> products).
Proof.
  unfold price_products, target_rounding. destruct (default false _);
    [destruct (fetchRoundingRules c slug) as [rr|]; [|done]|]; cbn [mbind Res_bind]; f_equal;
    unfold calculatePreviews, with_market, attachCompetitorPrices;
    (destruct (decide _); [|done]); destruct (filter _ _); [done| |done|]; by rewrite <- list_fmap_compose.
Qed.

(* ------------------------------------------------------------------ *)
(** * What the calculation looks at                                     *)
(* ------------------------------------------------------------------ *)

(** Rules and locks with [active] made explicit, as the table has it. *)
Definition explicit_rule (r : CreatePricingRuleDto N) : CreatePricingRuleDto N :=
  Build_CreatePricingRuleDto (rd_classifications r) (rd_priceRangeMin r) (rd_priceRangeMax r)
    (rd_marginRangeMin r) (rd_marginRangeMax r) (rd_actionType r) (rd_percentageValue r)
    (Some (default true (rd_active r))).
Definition explicit_lock (l : CreatePriceLockDto N) : CreatePriceLockDto N :=
  Build_CreatePriceLockDto (ld_classifications l) (ld_minMargin l) (Some (default true (ld_active l))).

Lemma is_active_explicit o : is_active (Some (default true o)) = is_active o.
Proof. by destruct o as [[]|]. Qed.

Lemma head_filter_fmap {A} (f : A → A) (P : A → bool) (l : list A) :
  (∀ x, P (f x) = P x) →
  head (filter (λ x, P x = true) (f <$> l)) = f <$> head (filter (λ x, P x = true) l).
Proof.
  intros Hf. induction l as [|x l IH]; [done|]. rewrite fmap_cons, !filter_cons, Hf.
  destruct (decide (P x = true)); [done|apply IH].
Qed.

Lemma explicit_calculation (params params' : CalculationParams N) product :
  ca_calculationBaseType params' = ca_calculationBaseType params →
  ca_priceBaseSources params' = ca_priceBaseSources params →
  ca_pricingRules params' = (explicit_rule <$> ca_pricingRules params) →
  ca_priceLocks params' = (explicit_lock <$> ca_priceLocks params) →
  ca_priceRoundingRules params' = ca_priceRoundingRules params →
  ca_classificationIndex params' = ca_classificationIndex params →
  calculateProductPreview params' product = calculateProductPreview params product.
Proof.
  intros E1 E2 E3 E4 E5 E6. unfold calculateProductPreview. rewrite E1, E2, E3, E4, E5, E6.
  destruct (getCalculationBasePrice _ _ _) as [cur|]; [|done].
  unfold findMatchingPricingRule, findMatchingPriceLock.
  rewrite (head_filter_fmap explicit_rule (rule_matches product cur (ca_classificationIndex params))).
  2: { intros r. unfold rule_matches. simpl. by rewrite is_active_explicit. }
  rewrite (head_filter_fmap explicit_lock (lock_matches product (ca_classificationIndex params))).
  2: { intros r. unfold lock_matches. simpl. by rewrite is_active_explicit. }
  destruct (head (filter _ (ca_pricingRules params))) as [r|], (head (filter _ (ca_priceLocks params))) as [l|]; reflexivity.
Qed.

(* ------------------------------------------------------------------ *)
(** * What a stored rule keeps                                          *)
(* ------------------------------------------------------------------ *)

(** A number the numeric column keeps: two decimals. *)
Definition plain_num (x : N) : Prop := dec_of (to_numeric 2 x) = x.
(** A bound that is absent or given, not [null]. *)
Definition plain_bound (b : option (option N)) : Prop :=
  b = None ∨ ∃ x, b = Some (Some x) ∧ plain_num x.
Record plain_rule (r : CreatePricingRuleDto N) : Prop := {
  pl_priceMin : plain_bound (rd_priceRangeMin r);
  pl_priceMax : plain_bound (rd_priceRangeMax r);
  pl_marginMin : plain_bound (rd_marginRangeMin r);
  pl_marginMax : plain_bound (rd_marginRangeMax r);
  pl_percentage : plain_num (rd_percentageValue r);
}.
Definition plain_lock (l : CreatePriceLockDto N) : Prop := plain_num (ld_minMargin l).

Lemma load_column2 b : plain_bound b → numOrUndef (column2 to_numeric b) = b.
Proof. intros [->|(x & -> & Hx)]; [done|]. unfold column2, plain_num in *. simpl. by rewrite Hx. Qed.

Lemma load_save_rule r : plain_rule r → load_pricing_rule (save_pricing_rule to_numeric r) = explicit_rule r.
Proof.
  intros [H1 H2 H3 H4 H5]. unfold load_pricing_rule, save_pricing_rule, explicit_rule. simpl.
  by rewrite !load_column2, H5.
Qed.

Lemma load_save_lock l : plain_lock l → load_price_lock (save_price_lock to_numeric l) = explicit_lock l.
Proof. unfold plain_lock, plain_num, load_price_lock, save_price_lock. simpl. by intros ->. Qed.

Lemma load_saved_rules rules : Forall plain_rule rules →
  load_pricing_rule <$> (save_pricing_rule to_numeric <$> normalizePricingRules rules)
  = explicit_rule <$> normalizePricingRules rules.
Proof.
  unfold normalizePricingRules. induction 1 as [|r rules [] _ IH]; [done|]. rewrite !fmap_cons.
  f_equal; [|exact IH]. by apply (load_save_rule (normalizePricingRule r)).
Qed.

Lemma load_saved_locks locks : Forall plain_lock locks →
  load_price_lock <$> (save_price_lock to_numeric <$> normalizePriceLocks locks)
  = explicit_lock <$> normalizePriceLocks locks.
Proof.
  unfold normalizePriceLocks. induction 1 as [|l locks Hl _ IH]; [done|]. rewrite !fmap_cons.
  f_equal; [|exact IH]. by apply (load_save_lock (normalizePriceLock l)).
Qed.

Lemma normalize_ids_idem o : normalizeClassificationIds (normalizeClassificationIds o) = normalizeClassificationIds o.
Proof.
  destruct o as [[|x l]|]; [done| |done]. cbn [normalizeClassificationIds].
  pose proof (js_uniq_NoDup (x :: l)) as Hnd. pose proof (js_uniq_elem (x :: l) x) as Hel.
  destruct (js_uniq (x :: l)) as [|y ys] eqn:E.
  { exfalso. assert (x ∈ ([] : list string)) as ?%elem_of_nil by (apply Hel; left). done. }
  by rewrite js_uniq_id.
Qed.

Lemma normalized_rules_reload rules :
  Forall plain_rule rules →
  normalizePricingRules (load_pricing_rule <$> (save_pricing_rule to_numeric <$> normalizePricingRules rules))
  = explicit_rule <$> normalizePricingRules rules.
Proof.
  unfold normalizePricingRules. induction 1 as [|r rules [] _ IH]; [done|]. rewrite !fmap_cons.
  f_equal; [|exact IH]. rewrite load_save_rule by done.
  unfold normalizePricingRule, explicit_rule. simpl. by rewrite normalize_ids_idem.
Qed.

Lemma normalized_locks_reload locks :
  Forall plain_lock locks →
  normalizePriceLocks (load_price_lock <$> (save_price_lock to_numeric <$> normalizePriceLocks locks))
  = explicit_lock <$> normalizePriceLocks locks.
Proof.
  unfold normalizePriceLocks. induction 1 as [|l locks Hl _ IH]; [done|]. rewrite !fmap_cons.
  f_equal; [|exact IH]. rewrite load_save_lock by done.
  unfold normalizePriceLock, explicit_lock. simpl. by rewrite normalize_ids_idem.
Qed.

Lemma assertKnown_iff ids index :
  assertKnownClassificationIds ids index = Ok () ↔ ∀ i, i ∈ ids → depthById index !! i ≠ None.
Proof.
  unfold assertKnownClassificationIds. destruct (filter _ _) as [|x l] eqn:E.
  - split; [|done]. intros _ i Hi Hd. assert (i ∈ ([] : list string)) as ?%elem_of_nil; [|done].
    rewrite <- E. apply list_elem_of_filter. split; [done|]. by apply js_uniq_elem.
  - split; [done|]. intros Hk. exfalso. assert (x ∈ x :: l) as Hx by left. rewrite <- E in Hx.
    apply list_elem_of_filter in Hx as [Hd Hx]. exact (Hk x (proj1 (js_uniq_elem _ _) Hx) Hd).
Qed.

(** What validation returns, and that the order and repetition of the
    target's ids do not matter to it. *)
Lemma normalizedTarget_Ok t ids index t' :
  normalizedTarget t ids index = Ok t' →
  t' = {| tg_calculationBaseType := tg_calculationBaseType t; tg_priceBaseSources := tg_priceBaseSources t;
          tg_eans := tg_eans t; tg_classifications := tg_classifications t;
          tg_pricingRules := normalizePricingRules (tg_pricingRules t);
          tg_priceLocks := normalizePriceLocks (tg_priceLocks t);
          tg_applyPriceRounding := tg_applyPriceRounding t |} ∧
  validateNonOverlappingPricingRules (tg_pricingRules t') index = Ok () ∧
  validateNonOverlappingPriceLocks (tg_priceLocks t') index = Ok () ∧
  ∀ ids', (∀ i, i ∈ default [] ids' ↔ i ∈ default [] ids) → normalizedTarget t ids' index = Ok t'.
Proof.
  unfold normalizedTarget. intros ([] & H1 & Ht)%Res_bind_Ok.
  apply Res_bind_Ok in Ht as ([] & H2 & Ht). apply Res_bind_Ok in Ht as ([] & H3 & [= <-]).
  split_and!; [done|done|done|]. intros ids' Hids.
  assert (assertKnownClassificationIds
    (default [] ids' ++ (normalizePricingRules (tg_pricingRules t) ≫= λ r, default [] (rd_classifications r))
     ++ (normalizePriceLocks (tg_priceLocks t) ≫= λ l, default [] (ld_classifications l))) index = Ok ()) as ->.
  { apply assertKnown_iff. rewrite assertKnown_iff in H1. intros i Hi. apply H1. rewrite elem_of_app in *. by rewrite Hids in Hi. }
  cbn [mbind Res_bind]. by rewrite H2, H3.
Qed.

(* ------------------------------------------------------------------ *)
(** * Creation                                                          *)
(* ------------------------------------------------------------------ *)

Lemma obind_Ok {A B} (m : OTx N A) (f : A → OTx N B) db b db' :
  (m ≫= f) db = Ok (b, db') → ∃ a db1, m db = Ok (a, db1) ∧ f a db1 = Ok (b, db').
Proof. unfold mbind, OTx_bind. destruct (m db) as [[a db1]|e]; [eauto|done]. Qed.

Lemma o_lift_Ok {A} (r : Res A) (db : OfferDb N) a db' : o_lift r db = Ok (a, db') → r = Ok a ∧ db' = db.
Proof. unfold o_lift. destruct r; [by intros [= -> ->]|done]. Qed.

Record created (meanwhile : OfferDb N → OfferDb N) (id : string) (now : Z) (dto : CreateOfferBookRuleDto N)
    (db db' : OfferDb N) (index : ClassificationIndex) (t : OfferTarget N) (eans : list Z) : Prop := {
  cr_target : assertTarget (cd_target dto) = Ok ();
  cr_index : loadClassificationIndex (o_catalog db) = Ok index;
  cr_valid : normalizedTarget (cd_target dto) (normalizeClassificationIds (tg_classifications (cd_target dto))) index = Ok t;
  cr_eans : bigint_casts (js_uniq (default [] (tg_eans t))) = Ok eans;
  cr_free : info_taken (cd_offerBookInfoId dto) (bookRules (meanwhile db)) = false;
  cr_db : db' = set_bookRules (<[id := new_bookRule to_numeric now dto t eans]> (bookRules (meanwhile db))) (meanwhile db);
}.

Lemma create_inv meanwhile id now dto db id' db' :
  create_bookRule to_numeric meanwhile id now dto db = Ok (id', db') →
  id' = id ∧ ∃ index t eans, created meanwhile id now dto db db' index t eans.
Proof.
  unfold create_bookRule. intros Hc.
  apply obind_Ok in Hc as ([] & d0 & [Ht ->]%o_lift_Ok & Hc).
  apply obind_Ok in Hc as ([] & d1 & H1 & Hc).
  assert (d1 = db) as -> by (destruct (_ && _) in H1; [done|by injection H1]). clear H1.
  apply obind_Ok in Hc as (? & ? & [= <- <-] & Hc).
  apply obind_Ok in Hc as ([] & d2 & H2 & Hc).
  assert (d2 = db) as -> by (destruct (_ !! _) as [cp|] in H2; [destruct (_ && _) in H2|]; try done; by injection H2).
  clear H2. apply obind_Ok in Hc as ([] & d3 & H3 & Hc).
  assert (d3 = db) as -> by (destruct (live_info_taken _ _) in H3; [done|by injection H3]). clear H3.
  apply obind_Ok in Hc as (index & ? & [Hi ->]%o_lift_Ok & Hc).
  apply obind_Ok in Hc as (t & ? & [Hv ->]%o_lift_Ok & Hc).
  apply obind_Ok in Hc as ([] & d4 & [= <-] & Hc).
  apply obind_Ok in Hc as (? & ? & [= <- <-] & Hc).
  apply obind_Ok in Hc as ([] & d5 & H5 & Hc).
  destruct (info_taken _ _) eqn:Hfree in H5; [done|]. injection H5 as <-.
  apply obind_Ok in Hc as (eans & ? & [He ->]%o_lift_Ok & Hc).
  apply obind_Ok in Hc as ([] & d6 & H6 & Hc).
  assert (d6 = meanwhile db) as -> by (destruct (bool_decide _) in H6; [by injection H6|done]). clear H6.
  apply obind_Ok in Hc as ([] & d7 & [= <-] & Hc). injection Hc as <- <-.
  split; [done|]. exists index, t, eans. by split.
Qed.

Lemma target_where_eans l cls index : l ≠ [] →
  target_where (Some l) cls index =
  zs ← bigint_casts l; Ok (in_eans zs).
Proof. by destruct l. Qed.

(** The stored target selects the products the request selected. *)
Lemma created_selection meanwhile id now dto db db' index t eans :
  created meanwhile id now dto db db' index t eans →
  let t' := target_of_rule (new_bookRule to_numeric now dto t eans) in
  ∃ sel sel', target_where (tg_eans t) (tg_classifications t) index = Ok sel ∧
    target_where (tg_eans t') (tg_classifications t') index = Ok sel' ∧ ∀ zp, sel zp = sel' zp.
Proof.
  intros [Ht Hi Hv He _ _] t'. apply normalizedTarget_Ok in Hv as (Et & _).
  assert (tg_eans t = tg_eans (cd_target dto) ∧ tg_classifications t = tg_classifications (cd_target dto)) as [E1 E2]
    by (by rewrite Et).
  unfold assertTarget in Ht. rewrite <- E1, <- E2 in Ht.
  destruct (tg_eans t) as [[|e es]|] eqn:Hes; cbn [no_ids negb] in Ht.
  2: { set (l := e :: es) in *. change (default [] (Some l)) with l in He.
    destruct (bigint_casts_elem _ _ He) as (Hok & _ & Hnil).
    destruct (bigint_casts_uniq _ _ He) as (zs & Hzs & Hel).
    assert (tg_eans t' = Some (ean_text <$> eans)) as ->.
    { unfold t', target_of_rule, new_bookRule. simpl. destruct eans; [|done]. exfalso.
      assert (e ∈ js_uniq l) as Hin by (apply js_uniq_elem; left). rewrite (proj2 Hnil eq_refl) in Hin.
      by apply elem_of_nil in Hin. }
    destruct eans as [|z eans']; [exfalso|].
    { assert (e ∈ js_uniq l) as Hin by (apply js_uniq_elem; left). rewrite (proj2 Hnil eq_refl) in Hin.
      by apply elem_of_nil in Hin. }
    rewrite (target_where_eans l), (target_where_eans (ean_text <$> z :: eans')) by done.
    rewrite (bigint_casts_texts (z :: eans') Hok), Hzs. cbn [mbind Res_bind].
    eexists _, _. split_and!; [done|done|]. intros [x p]. unfold in_eans. f_equal. apply bool_decide_ext, Hel. }
  all: cbn in He; injection He as <-.
  all: destruct (tg_classifications t) as [[|k ks]|] eqn:Hk; cbn [no_ids negb Bool.eqb] in Ht; try done.
  all: unfold t', target_of_rule, new_bookRule; cbn [br_products br_classifications tg_eans tg_classifications].
  all: rewrite Hk; cbn [normalizeClassificationIds].
  all: pose proof (js_uniq_elem (k :: ks)) as Hel;
    destruct (js_uniq (k :: ks)) as [|u us] eqn:Hu;
    [exfalso; assert (k ∈ ([] : list string)) as ?%elem_of_nil by (apply Hel; left); done|].
  all: eexists _, _; split_and!; [done|done|]; intros [x p]; unfold in_classifications; f_equal; simpl;
    destruct (p_classificationId p) as [q|]; [|done]; apply bool_decide_ext;
    unfold loadClassificationIndex in Hi; pose proof (build_index_spec _ _ Hi) as [_ _ Hx];
    rewrite !Hx; by setoid_rewrite Hel.
Qed.

Lemma target_products_ext c sel sel' :
  (∀ zp, sel zp = sel' zp) → target_products collate_le c sel = target_products collate_le c sel'.
Proof. intros Hs. unfold target_products. f_equal. apply list_filter_iff. intros zp. by rewrite Hs. Qed.

(** The prices of a stored target are those of the request. *)
Lemma created_prices meanwhile id now dto db db' index t eans c slug products :
  created meanwhile id now dto db db' index t eans →
  Forall plain_rule (tg_pricingRules (cd_target dto)) → Forall plain_lock (tg_priceLocks (cd_target dto)) →
  price_products c slug index (target_of_rule (new_bookRule to_numeric now dto t eans)) products
  = price_products c slug index t products.
Proof.
  intros [_ _ Hv _ _ _] Hr Hl. apply normalizedTarget_Ok in Hv as (Et & _).
  set (t' := target_of_rule _). rewrite !price_products_each.
  assert (target_rounding c slug t' = target_rounding c slug t) as -> by done.
  destruct (target_rounding c slug t) as [rounding|e]; [|done]. cbn [mbind Res_bind]. f_equal.
  apply list_fmap_ext. intros _ p _.
  assert (with_market c t' p = with_market c t p) as -> by done.
  apply explicit_calculation; try done.
  - unfold t', target_of_rule, new_bookRule. cbn [br_pricingRules tg_pricingRules ca_pricingRules price_params].
    rewrite Et. by apply normalized_rules_reload.
  - unfold t', target_of_rule, new_bookRule. cbn [br_priceLocks tg_priceLocks ca_priceLocks price_params].
    rewrite Et. by apply normalized_locks_reload.
Qed.

Lemma js_slice_nil {A} start n : js_slice start n ([] : list A) = [].
Proof. unfold js_slice. by rewrite drop_nil, take_nil. Qed.

Lemma price_products_slice c slug index t start n products rows :
  price_products c slug index t products = Ok rows →
  price_products c slug index t (js_slice start n products) = Ok (js_slice start n rows).
Proof.
  rewrite !price_products_each. destruct (target_rounding c slug t) as [rounding|]; [|done].
  cbn [mbind Res_bind]. intros [= <-]. by rewrite js_slice_fmap.
Qed.

Lemma price_products_length c slug index t products rows :
  price_products c slug index t products = Ok rows → length rows = length products.
Proof.
  rewrite price_products_each. destruct (target_rounding c slug t) as [rounding|]; [|done].
  cbn [mbind Res_bind]. intros [= <-]. by rewrite length_fmap.
Qed.

Lemma preview_ean (product : PreviewProductInput N) params : pv_ean (calculateProductPreview params product) = pp_ean product.
Proof.
  unfold calculateProductPreview. destruct (getCalculationBasePrice _ _ _); [|reflexivity]. cbv zeta.
  match goal with |- context [if ?b then skipped_exceeds_limit _ _ _ else _] => destruct b end; reflexivity.
Qed.

(** What the execution computes: every product the request selects, priced,
    or the failure to read the rounding table. *)
Lemma created_rows meanwhile id now dto db db' index t eans slug sel :
  created meanwhile id now dto db db' index t eans →
  target_where (tg_eans (cd_target dto)) (tg_classifications (cd_target dto)) index = Ok sel →
  match computeForRule collate_le (o_catalog db) slug (new_bookRule to_numeric now dto t eans) with
  | Ok rows => pv_ean <$> rows = (λ zp, ean_text zp.1) <$> target_products collate_le (o_catalog db) sel
  | Throw e => tg_applyPriceRounding (cd_target dto) = Some true ∧ fetchRoundingRules (o_catalog db) slug = Throw e
  end.
Proof.
  intros Hc Hsel0. destruct (created_selection _ _ _ _ _ _ _ _ _ Hc) as (sel1 & sel' & Hs & Hs' & Hext). cbv zeta in Hs'.
  pose proof Hc as [_ Hi Hv _ _ _]. apply normalizedTarget_Ok in Hv as (Et & _).
  assert (sel1 = sel) as -> by (rewrite Et in Hs; cbn in Hs; congruence).
  unfold computeForRule. rewrite Hi. cbn [mbind Res_bind]. rewrite (fetch_pages_all _ _ _ _ _ Hs'). cbn [mbind Res_bind].
  rewrite <- (target_products_ext _ _ _ Hext). set (rs := target_products collate_le (o_catalog db) sel).
  destruct (toPreviewProduct (o_catalog db) <$> rs) as [|x xs] eqn:Hx; [by apply fmap_nil_inv in Hx; rewrite Hx|]. rewrite <- Hx.
  rewrite price_products_each. destruct (target_rounding _ _ _) as [rounding|e] eqn:Hr; cbn [mbind Res_bind].
  - rewrite <- !list_fmap_compose. apply list_fmap_ext. intros _ zp _. unfold compose. rewrite preview_ean. unfold with_market.
    destruct zp as [z p]. by repeat case_match.
  - unfold target_rounding, target_of_rule, new_bookRule in Hr. cbn in Hr. rewrite Et in Hr. cbn in Hr.
    destruct (tg_applyPriceRounding (cd_target dto)) as [[]|]; done.
Qed.

Lemma created_preview meanwhile id now dto db db' index t eans slug page size rows :
  created meanwhile id now dto db db' index t eans →
  Forall plain_rule (tg_pricingRules (cd_target dto)) → Forall plain_lock (tg_priceLocks (cd_target dto)) →
  computeForRule collate_le (o_catalog db) slug (new_bookRule to_numeric now dto t eans) = Ok rows →
  let p := default 1 page in let n := Z.min (default MAX_PAGE_SIZE size) MAX_PAGE_SIZE in
  previewOffers collate_le (o_catalog db) slug (Build_PreviewOfferBookRulesDto (cd_target dto) page size)
  = Ok (Build_PaginatedPreviewResult (js_slice ((p - 1) * n) n rows) (Z.of_nat (length rows)) p n
          (ceil_div (Z.of_nat (length rows)) n)).
Proof.
  intros Hc Hr Hl Hrows p n.
  destruct (created_selection _ _ _ _ _ _ _ _ _ Hc) as (sel & sel' & Hs & Hs' & Hsel). cbv zeta in Hs'.
  pose proof Hc as [Ht Hi Hv _ _ _].
  assert (normalizedTarget (cd_target dto) (tg_classifications (cd_target dto)) index = Ok t) as Hv'.
  { apply normalizedTarget_Ok in Hv as (_ & _ & _ & Hany). apply Hany. intros i.
    destruct (tg_classifications (cd_target dto)) as [[|k ks]|]; [done| |done].
    cbn [normalizeClassificationIds default from_option]. symmetry. apply (js_uniq_elem (k :: ks)). }
  unfold computeForRule in Hrows. rewrite Hi in Hrows. cbn [mbind Res_bind] in Hrows.
  rewrite (fetch_pages_all _ _ _ _ _ Hs') in Hrows. cbn [mbind Res_bind] in Hrows.
  rewrite <- (target_products_ext _ _ _ Hsel) in Hrows.
  unfold previewOffers. cbn [pd_target pd_page pd_pageSize]. rewrite Ht. cbn [mbind Res_bind].
  rewrite Hi. cbn [mbind Res_bind]. rewrite Hv'. cbn [mbind Res_bind].
  unfold fetchProducts. rewrite Hs. cbn [mbind Res_bind]. rewrite js_slice_fmap. fold p n.
  set (rs := target_products collate_le (o_catalog db) sel) in *.
  destruct (toPreviewProduct (o_catalog db) <$> rs) as [|x xs] eqn:Hx.
  - injection Hrows as <-. apply fmap_nil_inv in Hx. rewrite Hx, !js_slice_nil.
    cbn [length]. change (Z.of_nat 0) with 0. change (0 =? 0) with true. cbv iota.
    unfold ceil_div. change (- 0) with 0. by rewrite Zdiv_0_l.
  - rewrite <- Hx in *. rewrite (created_prices _ _ _ _ _ _ _ _ _ _ _ _ Hc Hr Hl) in Hrows.
    pose proof (price_products_length _ _ _ _ _ _ Hrows) as Hlen. rewrite length_fmap in Hlen.
    assert ((Z.of_nat (length rs) =? 0) = false) as ->.
    { apply Z.eqb_neq. rewrite <- (length_fmap (toPreviewProduct (o_catalog db))), Hx. simpl. lia. }
    rewrite (price_products_slice _ _ _ _ _ _ _ _ Hrows). cbn [mbind Res_bind]. by rewrite Hlen.
Qed.

End OfferBookLaws.

(** [C25] The preview of a rule is its execution, page by page.  Take a rule
    created from a request whose numbers have the two decimals of their
    columns and whose bounds are given or absent.  On the same catalogue its
    execution, which fetches its products in as many rounds as needed,
    computes one row for every product the request selects, in order, and
    fails only when the rounding table it applies cannot be read; and every
    page of the preview of that request is the corresponding slice of those
    rows, with their number as the total. *)
Theorem preview_pages_the_execution {N} `{JsNum N} (to_numeric : nat → N → Numeric) collate_le
    meanwhile id now dto (db db' : OfferDb N) :
  create_bookRule to_numeric meanwhile id now dto db = Ok (id, db') →
  Forall (plain_rule to_numeric) (tg_pricingRules (cd_target dto)) →
  Forall (plain_lock to_numeric) (tg_priceLocks (cd_target dto)) →
  ∃ rule index sel, bookRules db' !! id = Some rule ∧ loadClassificationIndex (o_catalog db) = Ok index ∧
    target_where (tg_eans (cd_target dto)) (tg_classifications (cd_target dto)) index = Ok sel ∧
    ∀ slug, match computeForRule collate_le (o_catalog db) slug rule with
      | Throw e => tg_applyPriceRounding (cd_target dto) = Some true ∧ fetchRoundingRules (o_catalog db) slug = Throw e
      | Ok rows =>
          pv_ean <$> rows = (λ zp, ean_text zp.1) <$> target_products collate_le (o_catalog db) sel ∧
          ∀ page size, let p := default 1 page in let n := Z.min (default MAX_PAGE_SIZE size) MAX_PAGE_SIZE in
            previewOffers collate_le (o_catalog db) slug (Build_PreviewOfferBookRulesDto (cd_target dto) page size)
            = Ok (Build_PaginatedPreviewResult (js_slice ((p - 1) * n) n rows) (Z.of_nat (length rows)) p n
                    (ceil_div (Z.of_nat (length rows)) n))
      end.
Proof.
  intros Hc Hr Hl. destruct (create_inv _ _ _ _ _ _ _ _ Hc) as (_ & index & t & eans & Hcr).
  destruct (created_selection _ _ _ _ _ _ _ _ _ _ Hcr) as (sel & _ & Hs & _).
  assert (target_where (tg_eans (cd_target dto)) (tg_classifications (cd_target dto)) index = Ok sel) as Hsel.
  { pose proof Hcr as [_ _ Hv _ _ _]. apply normalizedTarget_Ok in Hv as (Et & _). by rewrite Et in Hs. }
  exists (new_bookRule to_numeric now dto t eans), index, sel. split_and!.
  - rewrite (cr_db _ _ _ _ _ _ _ _ _ _ Hcr). apply lookup_insert_eq.
  - apply Hcr.
  - exact Hsel.
  - intros slug. pose proof (created_rows _ collate_le _ _ _ _ _ _ _ _ _ slug sel Hcr Hsel) as Hrows.
    destruct (computeForRule _ _ _ _) as [rows|e] eqn:E; [|exact Hrows]. split; [exact Hrows|].
    intros page size. by eapply created_preview.
Qed.

(** A text that is the text of its number. *)
Definition canonical_ean (s : string) : Prop := ean_text (digits_val s) = s.

Lemma casts_canonical l zs : bigint_casts l = Ok zs → Forall canonical_ean l → ean_text <$> zs = l.
Proof.
  revert zs. induction l as [|s l IH]; intros zs; cbn [bigint_casts]; [by intros [= <-]|].
  intros (z & Hz & Hzs)%Res_bind_Ok [Hs Hl]%Forall_cons. apply Res_bind_Ok in Hzs as (zs' & Hzs' & [= <-]).
  apply bigint_cast_ok in Hz as [-> _]. rewrite fmap_cons, (IH _ Hzs' Hl). by rewrite Hs.
Qed.

(** A rule that was created reads back as it was sent: its base, its
    sources, its schedule, its classifications without repetitions, its EANs
    without repetitions and in order, its rules and locks with the same
    bounds, percentages and margins and with their default [active] made
    explicit; it is idle, and reading changes nothing.  Numbers must have
    the two decimals of their columns, and EANs no leading zeros. *)
Theorem offer_rule_reads_back {N} `{JsNum N} (to_numeric : nat → N → Numeric)
    meanwhile id now dto (db db' : OfferDb N) :
  create_bookRule to_numeric meanwhile id now dto db = Ok (id, db') →
  Forall (plain_rule to_numeric) (tg_pricingRules (cd_target dto)) →
  Forall (plain_lock to_numeric) (tg_priceLocks (cd_target dto)) →
  Forall canonical_ean (default [] (tg_eans (cd_target dto))) →
  ∃ detail, getOne id db' = Ok (detail, db') ∧
    let t := cd_target dto in
    li_id (dt_item detail) = id ∧ li_offerBookInfoId (dt_item detail) = cd_offerBookInfoId dto ∧
    li_status (dt_item detail) = OB_IDLE ∧ li_calculationBaseType (dt_item detail) = tg_calculationBaseType t ∧
    li_productsCount (dt_item detail) = Z.of_nat (length (dt_eans detail)) ∧
    dt_priceBaseSources detail = tg_priceBaseSources t ∧
    dt_classifications detail = normalizeClassificationIds (tg_classifications t) ∧
    dt_scheduledDays detail = (if default false (cd_scheduleEnabled dto) then cd_scheduledDays dto else None) ∧
    dt_applyPriceRounding detail = default false (tg_applyPriceRounding t) ∧
    dt_eans detail = js_sort (λ a b, negb (str_ltb b a)) (js_uniq (default [] (tg_eans t))) ∧
    dt_pricingRules detail = explicit_rule <$> normalizePricingRules (tg_pricingRules t) ∧
    dt_priceLocks detail = explicit_lock <$> normalizePriceLocks (tg_priceLocks t).
Proof.
  intros Hc Hr Hl He. destruct (create_inv _ _ _ _ _ _ _ _ Hc) as (_ & index & t & eans & [_ _ Hv Hcast _ Hdb]).
  apply normalizedTarget_Ok in Hv as (-> & _). cbn [tg_eans] in Hcast.
  set (row := new_bookRule _ _ _ _ _) in Hdb.
  assert (bookRules db' !! id = Some row) as Hrow by (rewrite Hdb; apply lookup_insert_eq).
  assert (ean_text <$> eans = js_uniq (default [] (tg_eans (cd_target dto)))) as Heans.
  { apply casts_canonical; [done|]. apply Forall_forall. intros s Hs.
    rewrite Forall_forall in He. exact (He s (proj1 (js_uniq_elem _ _) Hs)). }
  exists (toDetail (o_catalog db') id row). split.
  { unfold getOne, o_get, mbind, OTx_bind. cbv beta iota. by rewrite Hrow. }
  cbv zeta. unfold toDetail, row, new_bookRule, toListItem. simpl. rewrite Heans.
  split_and!; try done.
  - by rewrite <- Heans, js_sort_perm, length_fmap.
  - by apply load_saved_rules.
  - by apply load_saved_locks.
Qed.

(* ------------------------------------------------------------------ *)
(** * A small tenant                                                    *)
(* ------------------------------------------------------------------ *)

Section OfferBookFixtures.
Context {N : Type} `{JsNum N}.

Definition ob_row (id name : string) (cls : option string) (price cost : Z) : ProductRow :=
  {| p_id := id; p_name := Some name; p_supplier := None; p_status := None; p_active := true;
     p_deleted := false; p_price := Some (Num price 2); p_cost := Some (Num cost 4);
     p_classificationId := cls; p_monitored := false; p_externalId := Some "77";
     p_averageUnitCost := None; p_unitSalePrice := None; p_margin := Some (Num 5000 2) |}.

Definition ob_catalog : Catalog N :=
  Build_Catalog (<["t" := "T"]> ∅)
    (<[789 := ob_row "p1" "DIPIRONA" (Some "dor") 1000 50000]> (<[790 := ob_row "p2" "AAS" (Some "gen") 2500 50000]> ∅))
    ∅ ∅ ∅ ∅ ∅ ∅ [] [] ((λ r, {| ce_row := r; ce_deleted := false |}) <$> sample_rows) [] ∅ []
    (<[5 := {| cp_name := "Caderno"; cp_active := true; cp_startDate := None; cp_expirationDate := None;
               cp_deleted := false |}]> ∅)
    (<["T" := {| cn_apiBaseUrl := Some "https://erp"; cn_apiKeyEncrypted := Some "key" |}]> ∅).
Definition ob_db : OfferDb N := Build_Db ∅ [] (Build_OfferData ob_catalog ∅ ∅ []).

(** A 10 % discount between 5 and [hi] on the products under [med]. *)
Definition ob_target (hi : option (option N)) : OfferTarget N :=
  {| tg_calculationBaseType := SALE_PRICE; tg_priceBaseSources := None; tg_eans := None;
     tg_classifications := Some ["med"];
     tg_pricingRules := [of_rule None (Some (Some (n_int 5))) hi DISCOUNT (n_int 10)]; tg_priceLocks := [];
     tg_applyPriceRounding := None |}.
Definition ob_dto (hi : option (option N)) : CreateOfferBookRuleDto N :=
  {| cd_offerBookInfoId := 5; cd_target := ob_target hi; cd_scheduleEnabled := None; cd_scheduledDays := None |}.
Definition ob_numeric (s : nat) (x : N) : Numeric :=
  match n_hundredths x with Some (neg, z) => Num (if neg then - z else z) 2 | None => Num 0 2 end.
Definition ob_created (hi : option (option N)) : Res (string * OfferDb N) :=
  create_bookRule ob_numeric id "r1" 0 (ob_dto hi) ob_db.
Definition str_le (a b : string) : bool := negb (str_ltb b a).

Definition final_prices (r : Res (list (PreviewProductResult N))) : option (list N) :=
  match r with Ok rows => Some (pv_finalPrice <$> rows) | Throw _ => None end.
Definition preview_prices (hi : option (option N)) : option (list N) :=
  match previewOffers str_le ob_catalog "t" (Build_PreviewOfferBookRulesDto (ob_target hi) None None) with
  | Ok r => Some (pv_finalPrice <$> pg_rows r) | Throw _ => None
  end.
Definition execution_prices (hi : option (option N)) : option (list N) :=
  match ob_created hi with
  | Ok (id, db) => r ← bookRules db !! id; final_prices (computeForRule str_le ob_catalog "t" r)
  | Throw _ => None
  end.

End OfferBookFixtures.

(** Bounds apart by less than a cent pass the validation and are stored as
    the same number: the stored set overlaps. *)
Lemma stored_bounds_overlap :
  let rules : list (CreatePricingRuleDto F64) :=
    [of_rule None None (Some (Some (n_dec 9996 3))) DISCOUNT (n_int 10);
     of_rule None (Some (Some (n_dec 9999 3))) None DISCOUNT (n_int 20)] in
  validateNonOverlappingPricingRules rules of_index = Ok () ∧
  validateNonOverlappingPricingRules ((λ r, load_pricing_rule (save_pricing_rule ob_numeric r)) <$> rules) of_index ≠ Ok ().
Proof. vm_compute. by split. Qed.

(** A bound sent as [null] splits preview and execution: the engine's
    overlap check and the stored rule read [null] as no bound, the matching
    of the preview compares with 0.  For a 10 % discount from 5.00 up with
    [priceRangeMax: null] the preview leaves 25.00 and 10.00 as they are,
    and the execution of the rule created from the same request offers
    22.50 and 9.00; with the bound absent both say 22.50 and 9.00. *)
Theorem null_bound_splits_preview :
  preview_prices (Some None) = Some [n_int 25; n_int 10 : F64] ∧
  execution_prices (Some None) = Some [n_dec 225 1; n_int 9 : F64] ∧
  preview_prices None = Some [n_dec 225 1; n_int 9 : F64] ∧
  execution_prices None = Some [n_dec 225 1; n_int 9 : F64].
Proof. vm_compute. repeat split. Qed.

Definition wit_execution : nat :=
  match ob_created (N := F64) None with
  | Ok (_, db) => match bookRules db !! "r1" with
                  | Some r => match computeForRule str_le (ob_catalog : Catalog F64) "t" r with
                              | Ok rows => length rows | Throw _ => 0%nat end
                  | None => 0%nat end
  | Throw _ => 0%nat
  end.
Lemma wit_execution_length : wit_execution = 2%nat.
Proof. vm_compute. reflexivity. Qed.

Lemma preview_pages_the_execution_witness :
  ∃ db' : OfferDb F64, ob_created None = Ok ("r1", db') ∧ ∃ rule, bookRules db' !! "r1" = Some rule ∧
  ∃ rows, computeForRule str_le (ob_catalog : Catalog F64) "t" rule = Ok rows ∧
    previewOffers str_le ob_catalog "t" (Build_PreviewOfferBookRulesDto (ob_target None) (Some 2) (Some 1))
    = Ok (Build_PaginatedPreviewResult (js_slice 1 1 rows) 2 2 1 2).
Proof.
  destruct (ob_created (N := F64) None) as [[id db']|e] eqn:Hc; [|by vm_compute in Hc].
  assert (id = "r1") as -> by (apply create_inv in Hc as [? _]; done).
  exists db'. split; [done|].
  destruct (preview_pages_the_execution ob_numeric str_le _ _ _ _ _ _ Hc) as (rule & index & sel & Hrule & _ & _ & Hp).
  - constructor; [|constructor]. split; [|left; reflexivity..|].
    + right. exists (n_int 5). split; [reflexivity|]. vm_compute. reflexivity.
    + vm_compute. reflexivity.
  - constructor.
  - exists rule. split; [done|].
    pose proof wit_execution_length as Hlen. unfold wit_execution in Hlen. rewrite Hc, Hrule in Hlen.
    destruct (computeForRule str_le ob_catalog "t" rule) as [rows|e] eqn:Hr; [|done].
    exists rows. split; [done|]. specialize (Hp "t"). change (o_catalog (ob_db (N := F64))) with (ob_catalog : Catalog F64) in Hp. rewrite Hr in Hp. destruct Hp as [_ Hp]. specialize (Hp (Some 2) (Some 1)). cbv zeta in Hp.
    rewrite Hlen in Hp. exact Hp.
Defined.

Lemma offer_rule_reads_back_witness :
  ∃ (db' : OfferDb F64) detail, ob_created None = Ok ("r1", db') ∧ getOne "r1" db' = Ok (detail, db') ∧
    dt_classifications detail = Some ["med"] ∧ length (dt_pricingRules detail) = 1%nat.
Proof.
  destruct (ob_created (N := F64) None) as [[id db']|e] eqn:Hc; [|by vm_compute in Hc].
  assert (id = "r1") as -> by (apply create_inv in Hc as [? _]; done).
  destruct (offer_rule_reads_back ob_numeric _ _ _ _ _ _ Hc) as (detail & Hget & _ & _ & _ & _ & _ & _ & Hcls & _ & _ & _ & Hrules & _).
  - constructor; [|constructor]. split; [|left; reflexivity..|].
    + right. exists (n_int 5). split; [reflexivity|]. vm_compute. reflexivity.
    + vm_compute. reflexivity.
  - constructor.
  - constructor.
  - exists db', detail. split; [done|]. split; [exact Hget|]. split; [exact Hcls|]. rewrite Hrules. reflexivity.
Defined.
