(* ===== verification/OfferExecution.v ===== *)
(** Execution of an offer book rule: the request that freezes the prices in
    a report ([tenant-api/offer-book-rules/
    offer-book-rules-execution.service.ts]) and the worker that pushes them
    to the ERP ([pipeline/steps/execute-offer-book-rule.step.ts]).

    The worker holds an advisory lock per report for as long as it runs
    ([locked] says whether it got it) and works in short transactions.  Its
    environment [StepEnv] has the database, the writes the ERP executed, and
    two oracles: [s_fates] decides each HTTP call, [s_events] each short
    transaction: what the catalogue and the clock have become when it
    starts, and whether it commits, rolls back, or commits with the answer
    lost.  Rules, reports and items change in the worker only.  Times are in
    milliseconds. *)

From Stdlib Require Import Ascii String.
From S2P Require Import Prelude JsText JsNumber JsDate Enums Messages World Outbox Classification SuggestionEngine PricingDb SuggestionRules Suggestions PricingApply Erp CatalogMutation OfferRules OfferBook.
Open Scope string_scope.
Open Scope list_scope.
Open Scope Z_scope.

Definition EXECUTE_LOCK_MINUTES : Z := 30.
Definition ITEM_INSERT_CHUNK : nat := 500.
(** Items per POST to the ERP. *)
Definition A7_CHUNK : nat := 80.

Definition with_execution (st : OfferBookRuleStatus) (report : option string) (now : Z) (r : OfferBookRuleRow) :
    OfferBookRuleRow :=
  {| br_offerBookInfoId := br_offerBookInfoId r; br_calculationBaseType := br_calculationBaseType r;
     br_priceBaseSources := br_priceBaseSources r; br_classifications := br_classifications r;
     br_scheduleEnabled := br_scheduleEnabled r; br_scheduledDays := br_scheduledDays r;
     br_applyPriceRounding := br_applyPriceRounding r; br_status := st; br_activeExecutionReportId := report;
     br_createdAt := br_createdAt r; br_updatedAt := now; br_deleted := br_deleted r;
     br_products := br_products r; br_pricingRules := br_pricingRules r; br_priceLocks := br_priceLocks r |}.

Definition touch_rule (now : Z) (r : OfferBookRuleRow) : OfferBookRuleRow :=
  with_execution (br_status r) (br_activeExecutionReportId r) now r.

(** [rule.products = await ...find(...)], the rows found with the lock held. *)
Definition reload_products (claim r : OfferBookRuleRow) : OfferBookRuleRow :=
  {| br_offerBookInfoId := br_offerBookInfoId r; br_calculationBaseType := br_calculationBaseType r;
     br_priceBaseSources := br_priceBaseSources r; br_classifications := br_classifications r;
     br_scheduleEnabled := br_scheduleEnabled r; br_scheduledDays := br_scheduledDays r;
     br_applyPriceRounding := br_applyPriceRounding r; br_status := br_status r;
     br_activeExecutionReportId := br_activeExecutionReportId r;
     br_createdAt := br_createdAt r; br_updatedAt := br_updatedAt r; br_deleted := br_deleted r;
     br_products := br_products claim; br_pricingRules := br_pricingRules r; br_priceLocks := br_priceLocks r |}.

(** Active, begun and not expired at [now]. *)
Definition campaign_in_force (now : Z) (c : CampaignRow) : bool :=
  cp_active c && negb (cp_deleted c)
  && match cp_startDate c with None => true | Some t => t <=? now end
  && match cp_expirationDate c with None => true | Some t => now <=? t end.

Section OfferExecution.
Context {N : Type} `{JsNum N}.
Variable to_numeric : nat → N → Numeric.
Variable exact_numeric : N → Numeric.
Variable collate_le : string → string → bool.
Variable decrypt : string → Res string.
(** The id of the [i]-th item of a report. *)
Variable item_uuid : string → nat → string.

Definition caderno_in_force (now : Z) (infoId : Z) (c : Catalog N) : bool :=
  match ct_campaigns c !! infoId with Some cp => campaign_in_force now cp | None => false end.

(* ------------------------------------------------------------------ *)
(** * The request                                                       *)
(* ------------------------------------------------------------------ *)

Definition toItem (reportId : string) (i : nat) (r : PreviewProductResult N) (st : ItemApplyStatus) : ReportItemRow :=
  {| it_id := item_uuid reportId i; it_reportId := reportId; it_ean := digits_val (pv_ean r);
     it_externalId := pv_externalId r; it_name := pv_name r; it_classification := pv_classification r;
     it_baseSalePrice := to_numeric 2 (pv_baseSalePrice r); it_currentPrice := to_numeric 2 (pv_currentPrice r);
     it_currentMargin := to_numeric 2 (pv_currentMargin r); it_cost := to_numeric 4 (pv_cost r);
     it_actionType := pv_actionType r; it_percentageValue := to_numeric 2 (pv_percentageValue r);
     it_appliedPercentageValue := to_numeric 2 (pv_appliedPercentageValue r);
     it_finalPrice := to_numeric 2 (pv_finalPrice r); it_newMargin := to_numeric 2 (pv_newMargin r);
     it_flags := (pv_priceLockApplied r, pv_discountSkipped r, pv_skippedNoCompetitorPrice r,
                  pv_skippedPriceExceedsLimit r, pv_priceRoundingApplied r);
     it_wasUpdated := false; it_applyStatus := st; it_applyError := None |}.

(** [toUpdate] as pending items, then the others as skipped ones. *)
Definition report_items (reportId : string) (results : list (PreviewProductResult N)) : list ReportItemRow :=
  imap (λ i '(r, st), toItem reportId i r st)
    (((λ r, (r, IS_pending)) <$> filter (λ r, shouldPush r = true) results)
     ++ ((λ r, (r, IS_skipped)) <$> filter (λ r, shouldPush r = false) results)).

Definition enqueueExecution (now : Z) (slug reportId : string) : OTx N unit :=
  o_modify (stage now reportId slug
    [newPipelineMessage now reportId slug (step_str EXECUTE_OFFER_BOOK_RULE) None PEmpty None (Some true)]).

Definition update_bookRule (id : string) (f : OfferBookRuleRow → OfferBookRuleRow) : OTx N unit :=
  o_modify (λ db, set_bookRules (alter f id (bookRules db)) db).

Definition insert_items (items : list ReportItemRow) : OTx N unit :=
  o_modify (λ db, foldl (λ db chunk, set_reportItems (reportItems db ++ chunk) db) db (slices ITEM_INSERT_CHUNK items)).

Definition running_conflict (ruleId : string) : Exn := EConflict ("Regra " +:+ ruleId +:+ " já está em execução").

Definition rule_claimable (now : Z) (r : OfferBookRuleRow) : bool :=
  negb (bool_decide (br_status r = OB_RUNNING)) || (br_updatedAt r <? now - EXECUTE_LOCK_MINUTES * 60000).

Definition new_report (now : Z) (ruleId : string) (rule : OfferBookRuleRow) (executionType : ExecutionType)
    (results : list (PreviewProductResult N)) : ReportRow :=
  {| rp_ruleId := ruleId; rp_offerBookInfoId := br_offerBookInfoId rule; rp_executedAt := now;
     rp_executionType := executionType; rp_calculationBaseType := br_calculationBaseType rule;
     rp_totalProducts := Z.of_nat (length results); rp_productsUpdated := 0;
     rp_productsSkipped := Z.of_nat (length (filter (λ r, shouldPush r = false) results));
     rp_outcome := None; rp_errorMessage := None |}.

(** Re-enqueue the frozen report of a stale execution. *)
Definition resume (now : Z) (slug ruleId : string) (locked : string → bool) (previous : option string) : OTx N string :=
  match truthy previous with
  | None => o_throw (EConflict ("Regra " +:+ ruleId +:+ " possui uma execução inconsistente"))
  | Some reportId =>
      if locked reportId then
        update_bookRule ruleId (touch_rule now);;
        enqueueExecution now slug reportId;;
        mret reportId
      else o_throw (running_conflict ruleId)
  end.

(** A new execution: campaign, claim, calculation, report, items, message. *)
Definition launch (now : Z) (slug ruleId reportId : string) (executionType : ExecutionType) (rule : OfferBookRuleRow) :
    OTx N string :=
  db ← o_get;
  (if caderno_in_force now (br_offerBookInfoId rule) (o_catalog db) then mret ()
   else o_throw (EConflict ("Caderno de ofertas " +:+ pretty (br_offerBookInfoId rule) +:+ " não está ativo e vigente")));;
  update_bookRule ruleId (with_execution OB_RUNNING (Some reportId) now);;
  results ← o_lift (computeForRule collate_le (o_catalog db) slug rule);
  o_modify (λ db, set_reports (<[reportId := new_report now ruleId rule executionType results]> (reports db)) db);;
  insert_items (report_items reportId results);;
  enqueueExecution now slug reportId;;
  mret reportId.

(** [meanwhile] is what other transactions commit between reading the rule
    and locking its row. *)
Definition execute (meanwhile : OfferDb N → OfferDb N) (locked : string → bool) (now : Z) (slug ruleId reportId : string)
    (executionType : ExecutionType) : OTx N string :=
  db ← o_get;
  match bookRules db !! ruleId with
  | None => o_throw (rule_not_found ruleId)
  | Some rule =>
      if br_deleted rule then o_throw (rule_not_found ruleId)
      else
        o_modify meanwhile;;
        db ← o_get;
        match bookRules db !! ruleId with
        | None => o_throw (rule_not_found ruleId)
        | Some claim =>
            if br_deleted claim then o_throw (rule_not_found ruleId)
            else if negb (rule_claimable now claim) then o_throw (running_conflict ruleId)
            else if decide (br_status claim = OB_RUNNING)
            then resume now slug ruleId locked (br_activeExecutionReportId claim)
            else launch now slug ruleId reportId executionType (reload_products claim rule)
        end
  end.

(* ------------------------------------------------------------------ *)
(** * The environment of the worker                                     *)
(* ------------------------------------------------------------------ *)

(** A POST the ERP executed; [op_ids] are the items it was built from. *)
Record OfferPost := {
  op_baseUrl : string;
  op_cadernoId : Z;
  op_items : list (N * N);
  op_ids : list string;
}.

Inductive TxFate := TxCommit | TxAbort | TxLost.
Record TxEvent := { ev_fate : TxFate; ev_now : Z; ev_catalog : Catalog N → Catalog N }.

Record StepEnv := {
  s_db : OfferDb N;
  s_posts : list OfferPost;
  s_fates : list ErpFate;
  s_events : list TxEvent;
  s_now : Z;
}.

Definition StepM (A : Type) : Type := StepEnv → Res A * StepEnv.
#[export] Instance StepM_ret : MRet StepM := λ A a e, (Ok a, e).
#[export] Instance StepM_bind : MBind StepM := λ A B f m e,
  match m e with (Ok a, e') => f a e' | (Throw x, e') => (Throw x, e') end.
Definition s_throw {A} (x : Exn) : StepM A := λ e, (Throw x, e).

(** What happens between two transactions. *)
Definition next_event (e : StepEnv) : TxFate * StepEnv :=
  match s_events e with
  | [] => (TxCommit, e)
  | ev :: rest =>
      (ev_fate ev, Build_StepEnv (set_o_catalog (ev_catalog ev (o_catalog (s_db e))) (s_db e))
                     (s_posts e) (s_fates e) rest (ev_now ev))
  end.

(** [this.tx.runWithTenant(schemaName, fn)] *)
Definition short_tx {A} (fn : Z → OTx N A) : StepM A := λ e0,
  let '(fate, e) := next_event e0 in
  match fn (s_now e) (s_db e), fate with
  | Throw x, _ => (Throw x, e)
  | Ok _, TxAbort => (Throw (EError "Connection terminated unexpectedly"), e)
  | Ok (_, db), TxLost =>
      (Throw (EError "Connection terminated unexpectedly"), Build_StepEnv db (s_posts e) (s_fates e) (s_events e) (s_now e))
  | Ok (a, db), TxCommit => (Ok a, Build_StepEnv db (s_posts e) (s_fates e) (s_events e) (s_now e))
  end.

Definition offer_post (p : OfferPost) : StepM unit := λ e,
  match s_fates e with
  | ErpRefused :: rest =>
      (Throw (EError "Request failed"), Build_StepEnv (s_db e) (s_posts e) rest (s_events e) (s_now e))
  | ErpLost :: rest =>
      (Throw (EError "timeout of 30000ms exceeded"),
       Build_StepEnv (s_db e) (s_posts e ++ [p]) rest (s_events e) (s_now e))
  | l => (Ok (), Build_StepEnv (s_db e) (s_posts e ++ [p]) (tail l) (s_events e) (s_now e))
  end.

Definition step_credentials (slug : string) : StepM (option Credentials) := λ e,
  (credentials_of decrypt (o_catalog (s_db e)) slug, e).

(* ------------------------------------------------------------------ *)
(** * The transactions of the worker                                    *)
(* ------------------------------------------------------------------ *)

Definition owns (reportId : string) (rule : OfferBookRuleRow) : bool :=
  bool_decide (br_status rule = OB_RUNNING ∧ br_activeExecutionReportId rule = Some reportId).

(** [findOne] of the report, and the rule that it owns. *)
Definition findOwnedReport (reportId : string) : OTx N (option ReportRow) :=
  db ← o_get;
  mret (report ← reports db !! reportId;
        rule ← bookRules db !! rp_ruleId report;
        if owns reportId rule && negb (br_deleted rule) then Some report else None).

Definition touchOwner (now : Z) (reportId : string) (report : ReportRow) : OTx N bool :=
  db ← o_get;
  match bookRules db !! rp_ruleId report with
  | Some rule => if owns reportId rule then update_bookRule (rp_ruleId report) (touch_rule now);; mret true
                 else mret false
  | None => mret false
  end.

Definition of_status (reportId : string) (st : ItemApplyStatus) (i : ReportItemRow) : bool :=
  bool_decide (it_reportId i = reportId ∧ it_applyStatus i = st).

Definition items_of (reportId : string) (st : ItemApplyStatus) (db : OfferDb N) : list ReportItemRow :=
  filter (λ i, of_status reportId st i = true) (reportItems db).

(** [ORDER BY i.ean LIMIT 80] *)
Definition itemsByStatus (reportId : string) (st : ItemApplyStatus) : OTx N (list ReportItemRow) :=
  db ← o_get;
  mret (take A7_CHUNK (js_sort (λ a b, it_ean a <=? it_ean b) (items_of reportId st db))).

Definition pendingIds (reportId : string) : OTx N (list string) :=
  db ← o_get; mret (it_id <$> items_of reportId IS_pending db).

Definition item_with (st : ItemApplyStatus) (error : option string) (i : ReportItemRow) : ReportItemRow :=
  {| it_id := it_id i; it_reportId := it_reportId i; it_ean := it_ean i; it_externalId := it_externalId i;
     it_name := it_name i; it_classification := it_classification i; it_baseSalePrice := it_baseSalePrice i;
     it_currentPrice := it_currentPrice i; it_currentMargin := it_currentMargin i; it_cost := it_cost i;
     it_actionType := it_actionType i; it_percentageValue := it_percentageValue i;
     it_appliedPercentageValue := it_appliedPercentageValue i; it_finalPrice := it_finalPrice i;
     it_newMargin := it_newMargin i; it_flags := it_flags i;
     it_wasUpdated := bool_decide (st = IS_erp_applied ∨ st = IS_applied);
     it_applyStatus := st; it_applyError := error |}.

Definition markMany (ids : list string) (st : ItemApplyStatus) (error : option string) : OTx N unit :=
  o_modify (λ db, set_reportItems
    ((λ i, if decide (it_id i ∈ ids) then item_with st error i else i) <$> reportItems db) db).

Definition count_status (reportId : string) (st : ItemApplyStatus) (db : OfferDb N) : Z :=
  Z.of_nat (length (items_of reportId st db)).

Definition outcome_of (applied failed : Z) : ExecutionOutcome :=
  if 0 <? failed then EO_FAILURE else if 0 <? applied then EO_SUCCESS else EO_NO_CHANGES.
Definition rule_status_of (applied failed : Z) : OfferBookRuleStatus :=
  if failed =? 0 then OB_SUCCEEDED else if 0 <? applied then OB_PARTIALLY_SUCCEEDED else OB_ERRORED.

Definition report_closed (total applied skipped failed : Z) (r : ReportRow) : ReportRow :=
  {| rp_ruleId := rp_ruleId r; rp_offerBookInfoId := rp_offerBookInfoId r; rp_executedAt := rp_executedAt r;
     rp_executionType := rp_executionType r; rp_calculationBaseType := rp_calculationBaseType r;
     rp_totalProducts := total; rp_productsUpdated := applied; rp_productsSkipped := skipped;
     rp_outcome := Some (outcome_of applied failed);
     rp_errorMessage := if 0 <? failed then Some (pretty failed +:+ " produto(s) falharam no envio ao ERP") else None |}.

Definition finalizeOwned (now : Z) (reportId : string) (report : ReportRow) : OTx N unit :=
  db ← o_get;
  let applied := count_status reportId IS_applied db in
  let erpApplied := count_status reportId IS_erp_applied db in
  let failed := count_status reportId IS_failed db in
  let pending := count_status reportId IS_pending db in
  let skipped := count_status reportId IS_skipped db in
  let total := Z.of_nat (length (filter (λ i, it_reportId i = reportId) (reportItems db))) in
  if (0 <? pending) || (0 <? erpApplied)
  then o_throw (EError ("report " +:+ reportId +:+ " ainda tem " +:+ pretty pending +:+ " pending e "
                        +:+ pretty erpApplied +:+ " erp_applied"))
  else
    o_modify (λ db, set_reports (alter (report_closed total applied skipped failed) reportId (reports db)) db);;
    match bookRules db !! rp_ruleId report with
    | Some rule =>
        if owns reportId rule
        then update_bookRule (rp_ruleId report) (with_execution (rule_status_of applied failed) None now)
        else o_throw (EError ("report " +:+ reportId +:+ " perdeu ownership ao finalizar"))
    | None => o_throw (EError ("report " +:+ reportId +:+ " perdeu ownership ao finalizar"))
    end.

(** The local mirror of pushed prices: the global [offer_book], and the
    items of the stores whose winning caderno is the one written. *)
Definition mirror_offer (caderno : Z) (price : N) (old : option OfferBookRow) : OfferBookRow :=
  {| of_description := old ≫= of_description; of_target_price := Some (to_numeric 2 price);
     of_external_id := Some caderno |}.

Definition price_of (i : ReportItemRow) : N := dec_of (it_finalPrice i).

Definition mirror_one (caderno : Z) (c : Catalog N) (i : ReportItemRow) : Catalog N :=
  mirror_items (it_ean i) caderno (mirrored_offer to_numeric exact_numeric (price_of i))
    (set_offerBook (<[it_ean i := mirror_offer caderno (price_of i) (ct_offerBook c !! it_ean i)]> (ct_offerBook c)) c).

Definition mirror (pushed : list ReportItemRow) (cadernoId : Z) : OTx N unit :=
  o_modify (λ db, set_o_catalog (foldl (mirror_one cadernoId) (o_catalog db) pushed) db).

(* ------------------------------------------------------------------ *)
(** * The worker                                                        *)
(* ------------------------------------------------------------------ *)

(** [if (!(await touchOwner(...))) return no; fn] in one transaction. *)
Definition owned_tx {A} (reportId : string) (report : ReportRow) (no : A) (fn : Z → OTx N A) : StepM A :=
  short_tx (λ now, owned ← touchOwner now reportId report;
                   if (owned : bool) then fn now else mret no).

Definition mark_owned (reportId : string) (report : ReportRow) (ids : list string) (st : ItemApplyStatus)
    (error : option string) : StepM bool :=
  owned_tx reportId report false (λ _, markMany ids st error;; mret true).

Definition mirrorErpAppliedChunk (reportId : string) (report : ReportRow) (items : list ReportItemRow) : StepM unit :=
  owned_tx reportId report false
    (λ _, mirror items (rp_offerBookInfoId report);; markMany (it_id <$> items) IS_applied None;; mret true);;
  mret ().

Definition chunk_of (reportId : string) (report : ReportRow) (st : ItemApplyStatus) : StepM (option (list ReportItemRow)) :=
  owned_tx reportId report None (λ _, l ← itemsByStatus reportId st; mret (Some l)).

Definition out_of_fuel : Exn := EError "out of fuel".

Fixpoint finishErpApplied (fuel : nat) (reportId : string) (report : ReportRow) : StepM bool :=
  match fuel with
  | O => s_throw out_of_fuel
  | S f =>
      chunk ← chunk_of reportId report IS_erp_applied;
      match chunk with
      | None => mret false
      | Some [] => mret true
      | Some items => mirrorErpAppliedChunk reportId report items;; finishErpApplied f reportId report
      end
  end.

Definition fail_pending (now : Z) (reportId : string) (report : ReportRow) (error : string) : OTx N unit :=
  ids ← pendingIds reportId;
  markMany ids IS_failed (Some error);;
  finalizeOwned now reportId report.

Definition ensureCampaignAllowsPending (reportId : string) (report : ReportRow) : StepM bool :=
  owned_tx reportId report false (λ now,
    db ← o_get;
    if caderno_in_force now (rp_offerBookInfoId report) (o_catalog db) then mret true
    else fail_pending now reportId report "campanha_nao_vigente";; mret false).

(** [!item.externalId] *)
Definition has_external (i : ReportItemRow) : bool := bool_decide (is_Some (truthy (it_externalId i))).

(** [Number(item.externalId)], [Number(item.finalPrice)] *)
Definition post_of (creds : Credentials) (report : ReportRow) (items : list ReportItemRow) : OfferPost :=
  {| op_baseUrl := c_baseUrl creds; op_cadernoId := rp_offerBookInfoId report;
     op_items := (λ i, (js_Number (default "" (it_externalId i)), price_of i)) <$> items;
     op_ids := it_id <$> items |}.

(** The outcome of one round: go on, stop without error, or leave the loop. *)
Inductive Round := Continue | Return | Break.

Definition push_chunk (creds : Credentials) (reportId : string) (report : ReportRow) (pushable : list ReportItemRow) :
    StepM Round := λ e,
  match offer_post (post_of creds report pushable) e with
  | (Throw _, e') =>
      (owned ← mark_owned reportId report (it_id <$> pushable) IS_failed (Some "erro_transitorio");
       mret (if (owned : bool) then Continue else Return)) e'
  | (Ok _, e') =>
      (checkpointed ← mark_owned reportId report (it_id <$> pushable) IS_erp_applied None;
       if (checkpointed : bool) then mirrorErpAppliedChunk reportId report pushable;; mret Continue else mret Return) e'
  end.

(** The items without an ERP id are failed first. *)
Definition fail_missing (reportId : string) (report : ReportRow) (missing : list ReportItemRow) : StepM bool :=
  match missing with
  | [] => mret true
  | _ => mark_owned reportId report (it_id <$> missing) IS_failed (Some "sem_external_id")
  end.

Definition push_round (creds : Credentials) (reportId : string) (report : ReportRow) : StepM Round :=
  allowed ← ensureCampaignAllowsPending reportId report;
  if negb allowed then mret Return
  else
    chunk ← chunk_of reportId report IS_pending;
    match chunk with
    | None => mret Return
    | Some [] => mret Break
    | Some chunk =>
        let missing := filter (λ i, has_external i = false) chunk in
        owned ← fail_missing reportId report missing;
        if negb owned then mret Return
        else match filter (λ i, has_external i = true) chunk with
             | [] => mret Continue
             | pushable => push_chunk creds reportId report pushable
             end
    end.

(** [for (;;)]; [true] when the loop was left by [break]. *)
Fixpoint push_loop (fuel : nat) (creds : Credentials) (reportId : string) (report : ReportRow) : StepM bool :=
  match fuel with
  | O => s_throw out_of_fuel
  | S f =>
      r ← push_round creds reportId report;
      match r with
      | Continue => push_loop f creds reportId report
      | Return => mret false
      | Break => mret true
      end
  end.

Definition fuel_of (reportId : string) (e : StepEnv) : nat :=
  S (length (filter (λ i, it_reportId i = reportId) (reportItems (s_db e)))).

Definition run_owned (fuel : nat) (tenantSlug reportId : string) (report : ReportRow) : StepM unit :=
  finished ← finishErpApplied fuel reportId report;
  if negb finished then mret ()
  else
    allowed ← ensureCampaignAllowsPending reportId report;
    if negb allowed then mret ()
    else
      creds ← step_credentials tenantSlug;
      match creds with
      | None => owned_tx reportId report () (λ now, fail_pending now reportId report "a7_nao_configurado")
      | Some creds =>
          left_loop ← push_loop fuel creds reportId report;
          if negb left_loop then mret ()
          else owned_tx reportId report () (λ now, finalizeOwned now reportId report)
      end.

Definition step_execute (locked : bool) (tenantSlug reportId : string) : StepM unit := λ e,
  if negb locked
  then (Throw (EDuplicateDelivery ("report " +:+ reportId +:+ " já possui um worker ativo")), e)
  else (report ← short_tx (λ _, findOwnedReport reportId);
        match report with
        | None => mret ()
        | Some report => run_owned (fuel_of reportId e) tenantSlug reportId report
        end) e.

End OfferExecution.
