(* ===== verification/OfferExecutionLaws.v ===== *)
(** The worker of an offer book rule: what it pushes, that it closes the
    report, and what a delivery leaves for the next one. *)

From Stdlib Require Import Ascii String.
From S2P Require Import Prelude JsText JsNumber JsDate Enums Messages World Outbox Classification SuggestionEngine PricingDb SuggestionRules Suggestions PricingApply Erp CatalogMutation OfferRules OfferRulesLaws OfferBook OfferBookLaws OfferExecution.
Open Scope string_scope.
Open Scope list_scope.
Open Scope Z_scope.

(* ------------------------------------------------------------------ *)
(** * Items and their statuses                                          *)
(* ------------------------------------------------------------------ *)

(** [pending < failed] and [pending < erp_applied < applied]. *)
Definition status_lt (a b : ItemApplyStatus) : bool :=
  match a, b with
  | IS_pending, (IS_failed | IS_erp_applied | IS_applied) => true
  | IS_erp_applied, IS_applied => true
  | _, _ => false
  end.

Lemma status_lt_trans a b c : status_lt a b = true → status_lt b c = true → status_lt a c = true.
Proof. by destruct a, b, c. Qed.

Lemma status_lt_not_pending a b : status_lt a b = true → b ≠ IS_pending.
Proof. by destruct a, b. Qed.

(** An item of the report moves up; everything else of it stays. *)
Definition item_step (rid : string) (i i' : ReportItemRow) : Prop :=
  i' = i ∨ it_reportId i = rid ∧ ∃ st err, i' = item_with st err i ∧ status_lt (it_applyStatus i) st = true.

Lemma item_step_trans rid i j k : item_step rid i j → item_step rid j k → item_step rid i k.
Proof.
  intros [->|(Hi & st & err & -> & Hlt)]; [done|]. intros [->|(Hj & st' & err' & -> & Hlt')].
  - right. split; [done|]. by exists st, err.
  - right. split; [done|]. exists st', err'. split; [done|]. by eapply status_lt_trans.
Qed.

Lemma item_step_keys rid i i' : item_step rid i i' → it_id i' = it_id i ∧ it_reportId i' = it_reportId i.
Proof. by intros [->|(_ & st & err & -> & _)]. Qed.

(** A pending item has not been touched. *)
Lemma item_step_pending rid i i' : item_step rid i i' → it_applyStatus i' = IS_pending → i' = i.
Proof. intros [->|(_ & st & err & -> & Hlt)]; [done|]. simpl. intros ->. by apply status_lt_not_pending in Hlt. Qed.

Definition items_step (rid : string) : list ReportItemRow → list ReportItemRow → Prop := Forall2 (item_step rid).

Lemma items_step_refl rid l : items_step rid l l.
Proof. apply Forall_Forall2_diag, Forall_true. by left. Qed.

Lemma items_step_trans rid l l' l'' : items_step rid l l' → items_step rid l' l'' → items_step rid l l''.
Proof.
  intros Hl. revert l''. induction Hl as [|x y l l' Hxy _ IH]; intros l'' Hl'; inversion Hl'; subst; [done|].
  constructor; [by eapply item_step_trans|by apply IH].
Qed.

Lemma items_step_ids rid l l' : items_step rid l l' → it_id <$> l' = it_id <$> l.
Proof. induction 1 as [|x y l l' Hxy _ IH]; [done|]. rewrite !fmap_cons, IH. by destruct (item_step_keys _ _ _ Hxy) as [-> _]. Qed.

(** The ids of the pending items of a report. *)
Definition pend (rid : string) (l : list ReportItemRow) : list string :=
  it_id <$> filter (λ i, of_status rid IS_pending i = true) l.

Lemma of_status_true rid st i : of_status rid st i = true ↔ it_reportId i = rid ∧ it_applyStatus i = st.
Proof. apply bool_decide_eq_true. Qed.

Lemma pend_elem rid l x : x ∈ pend rid l ↔ ∃ i, i ∈ l ∧ it_id i = x ∧ of_status rid IS_pending i = true.
Proof. unfold pend. rewrite list_elem_of_fmap. setoid_rewrite list_elem_of_filter. naive_solver. Qed.

Lemma items_step_elem rid l l' i' : items_step rid l l' → i' ∈ l' → ∃ i, i ∈ l ∧ item_step rid i i'.
Proof.
  intros Hl Hi. apply list_elem_of_lookup in Hi as [k Hk].
  destruct (Forall2_lookup_r _ _ _ _ _ Hl Hk) as (i & Hi & Hs). exists i. split; [|done].
  by eapply list_elem_of_lookup_2.
Qed.

Lemma pend_step rid l l' x : items_step rid l l' → x ∈ pend rid l' → x ∈ pend rid l.
Proof.
  intros Hl (i' & Hi' & <- & Hp)%pend_elem.
  destruct (items_step_elem _ _ _ _ Hl Hi') as (i & Hi & Hs). pose proof Hp as [_ Hst]%of_status_true.
  apply (item_step_pending _ _ _ Hs) in Hst as ->. apply pend_elem. eauto.
Qed.

(** ** Marking *)

Definition marked (ids : list string) (st : ItemApplyStatus) (err : option string) (l : list ReportItemRow) :
    list ReportItemRow :=
  (λ i, if decide (it_id i ∈ ids) then item_with st err i else i) <$> l.

Lemma marked_step rid ids st err l :
  (∀ i, i ∈ l → it_id i ∈ ids → it_reportId i = rid ∧ status_lt (it_applyStatus i) st = true) →
  items_step rid l (marked ids st err l).
Proof.
  intros Hl. unfold marked, items_step. apply Forall2_fmap_r, Forall_Forall2_diag, Forall_forall.
  intros i Hi. unfold compose. case_decide as Hd; [|by left]. right. destruct (Hl i Hi Hd). split; [done|]. by exists st, err.
Qed.

Lemma marked_pend rid ids st err l x :
  st ≠ IS_pending → x ∈ pend rid (marked ids st err l) → (x ∉ ids) ∧ x ∈ pend rid l.
Proof.
  intros Hst (i' & Hi' & <- & Hp)%pend_elem. unfold marked in Hi'.
  apply list_elem_of_fmap in Hi' as (i & -> & Hi). apply of_status_true in Hp as [Hr Hp].
  case_decide as Hd; [by simpl in Hp|]. split; [done|]. apply pend_elem. exists i.
  split_and!; [done|done|]. by apply of_status_true.
Qed.

(** With distinct ids, the items an id list was taken from are the marked ones. *)
Lemma chunk_ids (rid : string) (st st' : ItemApplyStatus) (l sub : list ReportItemRow) :
  NoDup (it_id <$> l) → (∀ i, i ∈ sub → i ∈ l ∧ of_status rid st i = true) → status_lt st st' = true →
  ∀ i, i ∈ l → it_id i ∈ it_id <$> sub → it_reportId i = rid ∧ status_lt (it_applyStatus i) st' = true.
Proof.
  intros Hnd Hsub Hlt i Hi (j & Hij & Hj)%list_elem_of_fmap. destruct (Hsub j Hj) as [Hjl Hst].
  assert (i = j) as ->.
  { apply list_elem_of_lookup in Hi as [a Ha]. apply list_elem_of_lookup in Hjl as [b Hb].
    assert (a = b) as ->; [|by simplify_eq].
    eapply (NoDup_lookup _ _ _ (it_id i) Hnd); rewrite list_lookup_fmap; [by rewrite Ha|]. rewrite Hb. simpl. by f_equal. }
  apply of_status_true in Hst as [Hr ->]. done.
Qed.

(* ------------------------------------------------------------------ *)
(** * Short transactions                                                *)
(* ------------------------------------------------------------------ *)

Section Worker.
Context {N : Type} `{JsNum N}.
Variable to_numeric : nat → N → Numeric.
Variable exact_numeric : N → Numeric.
Variable decrypt : string → Res string.
Variable rid : string.
Variable report : ReportRow.

Local Abbreviation items e := (reportItems (s_db e)).

(** The rule still carries this report's lease. *)
Definition owned (db : OfferDb N) : Prop :=
  ∃ rule, bookRules db !! rp_ruleId report = Some rule ∧ owns rid rule = true.

(** No transaction of the worker fails. *)
Definition steady (e : StepEnv (N := N)) : Prop := Forall (λ ev, ev_fate ev = TxCommit) (s_events e).

Record same_report (db db' : OfferDb N) : Prop := {
  sr_items : reportItems db' = reportItems db;
  sr_reports : reports db' = reports db;
  sr_owned : owned db → owned db';
}.

Lemma same_report_refl db : same_report db db.
Proof. by split. Qed.

Lemma touchOwner_owned now db :
  owned db → ∃ db1, touchOwner now rid report db = Ok (true, db1) ∧ same_report db db1.
Proof.
  intros (rule & Hr & Ho). unfold touchOwner, o_get, mbind, OTx_bind. cbv beta iota. rewrite Hr, Ho.
  eexists. split; [reflexivity|]. split; try done. intros _. exists (touch_rule now rule).
  split; [|by unfold owns, touch_rule in *].
  change (alter (touch_rule now) (rp_ruleId report) (bookRules db) !! rp_ruleId report = Some (touch_rule now rule)).
  by rewrite lookup_alter_eq, Hr.
Qed.

Lemma next_event_spec e :
  let '(fate, e1) := next_event e in
  same_report (s_db e) (s_db e1) ∧ s_posts e1 = s_posts e ∧ s_fates e1 = s_fates e ∧
  (steady e → fate = TxCommit ∧ steady e1).
Proof.
  unfold next_event, steady. destruct (s_events e) as [|ev rest] eqn:E; [by split_and!; try split; rewrite ?E|].
  split_and!; [by split|done|done|]. intros Hs. by inversion Hs.
Qed.

(** One transaction of the owner. *)
Lemma owned_tx_cases {A} (no : A) (fn : Z → OTx N A) e r e' :
  owned (s_db e) → owned_tx rid report no fn e = (r, e') →
  s_posts e' = s_posts e ∧ s_fates e' = s_fates e ∧ (steady e → steady e') ∧
  ∃ now db1, same_report (s_db e) db1 ∧
    match fn now db1 with
    | Throw x => r = Throw x ∧ same_report (s_db e) (s_db e')
    | Ok (a, db2) =>
        r = Ok a ∧ s_db e' = db2 ∨
        ¬ steady e ∧ (∃ x, r = Throw x) ∧ (s_db e' = db2 ∨ same_report (s_db e) (s_db e'))
    end.
Proof.
  intros Ho. unfold owned_tx, short_tx.
  pose proof (next_event_spec e) as Hn. destruct (next_event e) as [fate e1].
  destruct Hn as (Hs & Hp & Hf & Hst).
  destruct (touchOwner_owned (s_now e1) (s_db e1)) as (db1 & Ht & Hs1); [by apply Hs|].
  assert (same_report (s_db e) db1) as Hs01.
  { destruct Hs as [h1 h2 h3], Hs1 as [h4 h5 h6]. split; [congruence|congruence|auto]. }
  unfold mbind at 1, OTx_bind. rewrite Ht. cbv beta iota.
  destruct (fn (s_now e1) db1) as [[a db2]|x] eqn:Hfn.
  - destruct fate; intros [= <- <-]; cbn [s_posts s_fates s_db];
      (split_and!; [done|done|intros Hx; exact (proj2 (Hst Hx))|]; exists (s_now e1), db1; split; [done|]; rewrite Hfn).
    + by left.
    + right. split_and!; [by intros [? _]%Hst|by eexists|by right].
    + right. split_and!; [by intros [? _]%Hst|by eexists|by left].
  - intros Heq. assert (r = Throw x ∧ e' = e1) as [-> ->] by (destruct fate; by simplify_eq).
    split_and!; [done|done|intros Hx; exact (proj2 (Hst Hx))|]. exists (s_now e1), db1. split; [done|]. by rewrite Hfn.
Qed.

(** ** The transactions one by one *)

Implicit Types (e : StepEnv (N := N)).

(** The oracles and the ERP are where they were, up to the events used. *)
Record tame e e' : Prop := {
  tm_posts : s_posts e' = s_posts e;
  tm_fates : s_fates e' = s_fates e;
  tm_steady : steady e → steady e';
}.

Lemma tame_trans e e1 e2 : tame e e1 → tame e1 e2 → tame e e2.
Proof. intros [p1 f1 s1] [p2 f2 s2]. split; [congruence|congruence|auto]. Qed.

Definition chunk (st : ItemApplyStatus) (l : list ReportItemRow) : list ReportItemRow :=
  take A7_CHUNK (js_sort (λ a b, it_ean a <=? it_ean b) (filter (λ i, of_status rid st i = true) l)).

Lemma chunk_elem st l i : i ∈ chunk st l → i ∈ l ∧ of_status rid st i = true.
Proof.
  intros Hi. apply elem_of_take in Hi as (k & Hk & _). apply list_elem_of_lookup_2 in Hk.
  rewrite js_sort_perm in Hk. by apply list_elem_of_filter in Hk as [? ?].
Qed.

Lemma chunk_nil st l : chunk st l = [] → filter (λ i, of_status rid st i = true) l = [].
Proof.
  unfold chunk. destruct (filter _ l) as [|x xs]; [done|]. intros Hc.
  assert (js_sort (λ a b, it_ean a <=? it_ean b) (x :: xs) ≡ₚ x :: xs) as Hp by apply js_sort_perm.
  destruct (js_sort _ (x :: xs)); [by apply Permutation_nil_l in Hp|done].
Qed.

Lemma chunk_of_cases st e r e' :
  owned (s_db e) → chunk_of rid report st e = (r, e') →
  tame e e' ∧ same_report (s_db e) (s_db e') ∧
  (r = Ok (Some (chunk st (items e))) ∨ ¬ steady e ∧ ∃ x, r = Throw x).
Proof.
  intros Ho Hc. unfold chunk_of in Hc.
  destruct (owned_tx_cases _ _ _ _ _ Ho Hc) as (Hp & Hf & Hst & now & db1 & Hs & Hr).
  unfold itemsByStatus, o_get, mbind, OTx_bind, mret, OTx_ret in Hr. cbv beta iota in Hr.
  unfold items_of in Hr. rewrite (sr_items _ _ Hs) in Hr. fold (chunk st (items e)) in Hr.
  split; [by split|]. destruct Hr as [[-> Hdb]|(Hns & [x ->] & [Hdb|Hs'])].
  - rewrite Hdb. by eauto.
  - rewrite Hdb. by eauto.
  - by eauto.
Qed.

Lemma markMany_eq ids st err (db : OfferDb N) :
  markMany ids st err db = Ok ((), set_reportItems (marked ids st err (reportItems db)) db).
Proof. done. Qed.

Lemma set_items_keep l (db : OfferDb N) :
  owned db → owned (set_reportItems l db) ∧ reports (set_reportItems l db) = reports db ∧ reportItems (set_reportItems l db) = l.
Proof. intros Ho. split; [|done]. exact Ho. Qed.

(** What a transaction that marks items leaves. *)
Definition marks e e' (ids : list string) (st : ItemApplyStatus) (err : option string) : Prop :=
  owned (s_db e') ∧ reports (s_db e') = reports (s_db e) ∧ items e' = marked ids st err (items e).
Definition keeps e e' : Prop :=
  owned (s_db e') ∧ reports (s_db e') = reports (s_db e) ∧ items e' = items e.

Lemma same_keeps e e' : owned (s_db e) → same_report (s_db e) (s_db e') → keeps e e'.
Proof. intros Ho [h1 h2 h3]. by split_and!; auto. Qed.

Lemma mark_owned_cases ids st err e r e' :
  owned (s_db e) → mark_owned rid report ids st err e = (r, e') →
  tame e e' ∧ (r = Ok true ∧ marks e e' ids st err ∨
               ¬ steady e ∧ (∃ x, r = Throw x) ∧ (marks e e' ids st err ∨ keeps e e')).
Proof.
  intros Ho Hc. unfold mark_owned in Hc.
  destruct (owned_tx_cases _ _ _ _ _ Ho Hc) as (Hp & Hf & Hst & now & db1 & Hs & Hr).
  unfold mbind, OTx_bind in Hr. rewrite markMany_eq in Hr. cbv beta iota in Hr.
  split; [by split|]. destruct Hs as [h1 h2 h3].
  assert (∀ db2, Ok (true, set_reportItems (marked ids st err (reportItems db1)) db1) = Ok (true, db2) →
    s_db e' = db2 → marks e e' ids st err) as Hm.
  { intros db2 [= <-] Hdb. unfold marks. rewrite Hdb.
    destruct (set_items_keep (marked ids st err (reportItems db1)) db1 (h3 Ho)) as (? & -> & ->).
    by rewrite h1, h2. }
  unfold mret, OTx_ret in Hr. destruct Hr as [[-> Hdb]|(Hns & [x ->] & [Hdb|Hs'])].
  - left. split; [done|]. by eapply Hm.
  - right. split_and!; [done|by eexists|left]. by eapply Hm.
  - right. split_and!; [done|by eexists|right]. by apply same_keeps.
Qed.

Lemma mirror_tables l k (db : OfferDb N) :
  ∃ db', mirror to_numeric exact_numeric l k db = Ok ((), db') ∧ same_report db db'.
Proof. eexists. split; [done|]. by split. Qed.

Lemma mirror_chunk_cases l e r e' :
  owned (s_db e) → mirrorErpAppliedChunk to_numeric exact_numeric rid report l e = (r, e') →
  tame e e' ∧ (r = Ok () ∧ marks e e' (it_id <$> l) IS_applied None ∨
               ¬ steady e ∧ (∃ x, r = Throw x) ∧ (marks e e' (it_id <$> l) IS_applied None ∨ keeps e e')).
Proof.
  intros Ho Hc. unfold mirrorErpAppliedChunk, mbind at 1, StepM_bind in Hc.
  destruct (owned_tx _ _ _ _ e) as [r1 e1] eqn:Htx.
  destruct (owned_tx_cases _ _ _ _ _ Ho Htx) as (Hp & Hf & Hst & now & db1 & Hs & Hr).
  destruct (mirror_tables l (rp_offerBookInfoId report) db1) as (db2 & Hmir & Hs2).
  unfold mbind, OTx_bind in Hr. rewrite Hmir, markMany_eq in Hr. unfold mret, OTx_ret in Hr. cbv beta iota in Hr.
  destruct Hs as [h1 h2 h3], Hs2 as [g1 g2 g3].
  assert (s_db e1 = set_reportItems (marked (it_id <$> l) IS_applied None (reportItems db2)) db2 →
          marks e e1 (it_id <$> l) IS_applied None) as Hm.
  { intros Hdb. unfold marks. rewrite Hdb.
    destruct (set_items_keep (marked (it_id <$> l) IS_applied None (reportItems db2)) db2 (g3 (h3 Ho))) as (? & -> & ->).
    by rewrite g1, g2, h1, h2. }
  unfold mret, StepM_ret in Hc.
  assert (e1 = e') as -> by (destruct r1; by simplify_eq/=). split; [by split|].
  destruct Hr as [[-> Hdb]|(Hns & [x ->] & [Hdb|Hs'])]; simplify_eq/=.
  - left. split; [done|]. by apply Hm.
  - right. split_and!; [done|by eexists|left]. by apply Hm.
  - right. split_and!; [done|by eexists|right]. by apply same_keeps.
Qed.

(** ** Closing the report *)

Definition count_of (st : ItemApplyStatus) (l : list ReportItemRow) : Z :=
  Z.of_nat (length (filter (λ i, of_status rid st i = true) l)).
Definition none_of (st : ItemApplyStatus) (l : list ReportItemRow) : Prop :=
  filter (λ i, of_status rid st i = true) l = [].

Lemma none_iff st l : none_of st l ↔ ∀ i, i ∈ l → of_status rid st i = true → False.
Proof.
  unfold none_of. split.
  - intros Hn i Hi Hs. assert (i ∈ filter (λ i, of_status rid st i = true) l) as Hin by by apply list_elem_of_filter.
    rewrite Hn in Hin. by apply elem_of_nil in Hin.
  - intros Hn. destruct (filter _ l) as [|x xs] eqn:E; [done|]. exfalso.
    assert (x ∈ filter (λ i, of_status rid st i = true) l) as [? ?]%list_elem_of_filter by (rewrite E; left).
    by eapply Hn.
Qed.

(** Report and rule say what the items say, and no item is left open. *)
Record closed (db : OfferDb N) : Prop := {
  cl_pending : none_of IS_pending (reportItems db);
  cl_erp : none_of IS_erp_applied (reportItems db);
  cl_report : ∃ rp, reports db !! rid = Some rp ∧
    rp_totalProducts rp = Z.of_nat (length (filter (λ i, it_reportId i = rid) (reportItems db))) ∧
    rp_productsUpdated rp = count_of IS_applied (reportItems db) ∧
    rp_productsSkipped rp = count_of IS_skipped (reportItems db) ∧
    rp_outcome rp = Some (outcome_of (count_of IS_applied (reportItems db)) (count_of IS_failed (reportItems db)));
  cl_rule : ∃ rule, bookRules db !! rp_ruleId report = Some rule ∧
    br_status rule = rule_status_of (count_of IS_applied (reportItems db)) (count_of IS_failed (reportItems db)) ∧
    br_activeExecutionReportId rule = None;
}.

Lemma finalize_closes now (db : OfferDb N) :
  owned db → is_Some (reports db !! rid) →
  none_of IS_pending (reportItems db) → none_of IS_erp_applied (reportItems db) →
  ∃ db', finalizeOwned now rid report db = Ok ((), db') ∧ closed db' ∧ reportItems db' = reportItems db.
Proof.
  intros (rule & Hr & Ho) [rp Hrp] Hp He. unfold finalizeOwned, o_get, mbind, OTx_bind. cbv beta iota.
  assert (count_status rid IS_pending db = 0) as -> by (unfold count_status, items_of; by rewrite Hp).
  assert (count_status rid IS_erp_applied db = 0) as -> by (unfold count_status, items_of; by rewrite He).
  change ((0 <? 0) || (0 <? 0)) with false. cbv iota. unfold o_modify. cbv beta iota. rewrite Hr, Ho.
  eexists. split; [reflexivity|]. split; [|done]. split; [exact Hp|exact He| |].
  - set (f := report_closed _ _ _ _). exists (f rp). split; [|done].
    change (alter f rid (reports db) !! rid = Some (f rp)). by rewrite lookup_alter_eq, Hrp.
  - set (f := with_execution _ None now). exists (f rule). split; [|done].
    change (alter f (rp_ruleId report) (bookRules db) !! rp_ruleId report = Some (f rule)).
    by rewrite lookup_alter_eq, Hr.
Qed.

(** Marking what is pending leaves nothing pending. *)
Lemma marked_none_pending err l : none_of IS_pending (marked (pend rid l) IS_failed err l).
Proof.
  apply none_iff. intros i' Hi' Hp.
  assert (it_id i' ∈ pend rid (marked (pend rid l) IS_failed err l)) as Hin by (apply pend_elem; eauto).
  by apply marked_pend in Hin as [].
Qed.

Lemma marked_none_erp ids err l : none_of IS_erp_applied l → none_of IS_erp_applied (marked ids IS_failed err l).
Proof.
  rewrite !none_iff. intros Hn i' Hi' Hp.
  unfold marked in Hi'. apply list_elem_of_fmap in Hi' as (i & -> & Hi).
  apply of_status_true in Hp as [Hr Hp]. case_decide; [by simpl in Hp|].
  apply (Hn i Hi). by apply of_status_true.
Qed.

Lemma fail_pending_closes now error (db : OfferDb N) :
  owned db → is_Some (reports db !! rid) → none_of IS_erp_applied (reportItems db) →
  ∃ db', fail_pending now rid report error db = Ok ((), db') ∧ closed db' ∧
    reportItems db' = marked (pend rid (reportItems db)) IS_failed (Some error) (reportItems db).
Proof.
  intros Ho Hrp He. unfold fail_pending, pendingIds, o_get, mbind, OTx_bind, mret, OTx_ret. cbv beta iota.
  rewrite markMany_eq. fold (pend rid (reportItems db)). unfold items_of. fold (pend rid (reportItems db)).
  set (l' := marked _ _ _ _). destruct (set_items_keep l' db Ho) as (Ho' & Hrep & Hit).
  destruct (finalize_closes now (set_reportItems l' db)) as (db' & Hf & Hc & Hi).
  - done.
  - by rewrite Hrep.
  - rewrite Hit. apply marked_none_pending.
  - rewrite Hit. by apply marked_none_erp.
  - exists db'. split_and!; [exact Hf|done|by rewrite Hi, Hit].
Qed.

(** The worker's well-formedness: the lease, the report row, distinct ids. *)
Record working e : Prop := {
  wk_owned : owned (s_db e);
  wk_report : is_Some (reports (s_db e) !! rid);
  wk_nodup : NoDup (it_id <$> items e);
}.

Lemma working_keeps e e' : working e → keeps e e' → working e'.
Proof. intros [? ? ?] (Ho & Hr & Hi). split; [done|by rewrite Hr|by rewrite Hi]. Qed.

Lemma marked_ids ids st err l : it_id <$> marked ids st err l = it_id <$> l.
Proof.
  unfold marked. rewrite <- list_fmap_compose. apply list_fmap_ext. intros _ i _. unfold compose.
  by case_decide.
Qed.

Lemma working_marks e e' ids st err : working e → marks e e' ids st err → working e'.
Proof. intros [? ? ?] (Ho & Hr & Hi). split; [done|by rewrite Hr|by rewrite Hi, marked_ids]. Qed.

(** A transaction that fails the pending items and closes the report. *)
Definition fails_pending e e' (error : string) : Prop :=
  items e' = marked (pend rid (items e)) IS_failed (Some error) (items e) ∧ closed (s_db e').

Lemma ensure_cases e r e' :
  working e → none_of IS_erp_applied (items e) →
  ensureCampaignAllowsPending rid report e = (r, e') →
  tame e e' ∧ (r = Ok true ∧ keeps e e' ∨ r = Ok false ∧ fails_pending e e' "campanha_nao_vigente" ∨
               ¬ steady e ∧ (∃ x, r = Throw x) ∧ (keeps e e' ∨ fails_pending e e' "campanha_nao_vigente")).
Proof.
  intros [Ho Hrp Hnd] He Hc. unfold ensureCampaignAllowsPending in Hc.
  destruct (owned_tx_cases _ _ _ _ _ Ho Hc) as (Hp & Hf & Hst & now & db1 & Hs & Hr).
  split; [by split|]. pose proof Hs as [h1 h2 h3].
  unfold o_get, mbind, OTx_bind, mret, OTx_ret in Hr. cbv beta iota in Hr.
  destruct (caderno_in_force now (rp_offerBookInfoId report) (o_catalog db1)).
  - assert (s_db e' = db1 → keeps e e') as Hk by (intros Hdb; unfold keeps; rewrite Hdb; by split_and!; auto).
    destruct Hr as [[-> Hdb]|(Hns & [x ->] & [Hdb|Hs'])]; [left|right; right..].
    + by split; auto.
    + split_and!; [done|by eexists|left; by apply Hk].
    + split_and!; [done|by eexists|left; by apply same_keeps].
  - destruct (fail_pending_closes now "campanha_nao_vigente" db1) as (db2 & Hfp & Hcl & Hit);
      [by apply h3|by rewrite h2|by rewrite h1|].
    rewrite Hfp in Hr. rewrite h1 in Hit.
    assert (s_db e' = db2 → fails_pending e e' "campanha_nao_vigente") as Hk
      by (intros Hdb; unfold fails_pending; rewrite Hdb; by split).
    destruct Hr as [[-> Hdb]|(Hns & [x ->] & [Hdb|Hs'])]; right; [left|right..].
    + by split; auto.
    + split_and!; [done|by eexists|right; by apply Hk].
    + split_and!; [done|by eexists|left; by apply same_keeps].
Qed.

(* ------------------------------------------------------------------ *)
(** * What a computation pushes                                         *)
(* ------------------------------------------------------------------ *)

Definition posted (ps : list (OfferPost (N := N))) : list string := ps ≫= op_ids.

(** A post carries the frozen destination and price of pending items. *)
Definition post_of_items (l : list ReportItemRow) (p : OfferPost (N := N)) : Prop :=
  ∃ sub, (∀ i, i ∈ sub → i ∈ l ∧ of_status rid IS_pending i = true ∧ has_external i = true) ∧
    (length sub ≤ A7_CHUNK)%nat ∧ op_cadernoId p = rp_offerBookInfoId report ∧
    op_ids p = (it_id <$> sub) ∧
    op_items p = ((λ i, (js_Number (default "" (it_externalId i)), price_of i)) <$> sub).

(** From [e] to [e'], ending without error if [ok]: the posts, each of
    pending items, no item twice; and an item that was posted is no longer
    pending, unless the computation raised right after its post. *)
Definition pushes e (ok : bool) e' : Prop :=
  ∃ ps, s_posts e' = s_posts e ++ ps ∧ items_step rid (items e) (items e') ∧
    NoDup (posted ps) ∧ (∀ x, x ∈ posted ps → x ∈ pend rid (items e)) ∧
    Forall (post_of_items (items e)) ps ∧
    (∀ x, x ∈ posted ps → x ∈ pend rid (items e') → ok = false ∧ ∃ p, last ps = Some p ∧ x ∈ op_ids p).

Lemma pushes_none e ok e' : s_posts e' = s_posts e → items_step rid (items e) (items e') → pushes e ok e'.
Proof.
  intros Hp Hs. exists []. split_and!; [by rewrite app_nil_r|done|apply NoDup_nil_2| |constructor|];
    by intros x ?%elem_of_nil.
Qed.

Lemma post_of_items_step l l' p : items_step rid l l' → post_of_items l' p → post_of_items l p.
Proof.
  intros Hl (sub & Hsub & Hrest). exists sub. split; [|done]. intros i Hi.
  destruct (Hsub i Hi) as (Hil & Hp & Hx). split; [|done].
  destruct (items_step_elem _ _ _ _ Hl Hil) as (j & Hj & Hs). pose proof Hp as [_ Hst]%of_status_true.
  by rewrite (item_step_pending _ _ _ Hs Hst).
Qed.

Lemma pushes_trans e e1 ok e2 : pushes e true e1 → pushes e1 ok e2 → pushes e ok e2.
Proof.
  intros (ps & Hp & Hs & Hnd & Hin & Hok & Hlast) (ps' & Hp' & Hs' & Hnd' & Hin' & Hok' & Hlast').
  assert (∀ x, x ∈ posted (ps ++ ps') ↔ x ∈ posted ps ∨ x ∈ posted ps') as Happ
    by (intros x; unfold posted; by rewrite bind_app, elem_of_app).
  assert (∀ x, x ∈ posted ps → x ∈ pend rid (items e1) → False) as Hgone
    by (intros x Hx Hp1; by destruct (Hlast x Hx Hp1)).
  exists (ps ++ ps'). split_and!.
  - by rewrite Hp', Hp, app_assoc.
  - by eapply items_step_trans.
  - unfold posted. rewrite bind_app. apply NoDup_app. split_and!; [done| |done].
    intros x Hx Hx'. by eapply Hgone, Hin'.
  - intros x [?|Hx]%Happ; [by apply Hin|]. eapply pend_step; [exact Hs|by apply Hin'].
  - apply Forall_app. split; [done|]. eapply Forall_impl; [exact Hok'|]. intros p. by apply post_of_items_step.
  - intros x [Hx|Hx]%Happ Hx2.
    + exfalso. apply (Hgone x Hx). by eapply pend_step.
    + destruct (Hlast' x Hx Hx2) as (? & p & Hl & ?). split; [done|]. exists p. split; [|done].
      by rewrite last_app, Hl.
Qed.

Lemma keeps_step e e' : keeps e e' → items_step rid (items e) (items e').
Proof. intros (_ & _ & ->). apply items_step_refl. Qed.

Lemma marks_step e e' sub st st' err :
  NoDup (it_id <$> items e) → (∀ i, i ∈ sub → i ∈ items e ∧ of_status rid st i = true) →
  status_lt st st' = true → marks e e' (it_id <$> sub) st' err → items_step rid (items e) (items e').
Proof.
  intros Hnd Hsub Hlt (_ & _ & ->). apply marked_step. by eapply chunk_ids.
Qed.

(** The pending ones are items like any other. *)
Lemma pend_chunk l i : it_id i ∈ pend rid l → NoDup (it_id <$> l) → i ∈ l →
  it_reportId i = rid ∧ status_lt (it_applyStatus i) IS_failed = true.
Proof.
  intros Hp Hnd Hi.
  apply (chunk_ids rid IS_pending IS_failed l (filter (λ i, of_status rid IS_pending i = true) l)); try done.
  by intros j [? ?]%list_elem_of_filter.
Qed.

Lemma fails_step e e' error :
  NoDup (it_id <$> items e) → fails_pending e e' error → items_step rid (items e) (items e').
Proof. intros Hnd [-> _]. apply marked_step. intros i Hi Hp. by eapply pend_chunk. Qed.

(** Marking a non-empty chunk of [st] leaves fewer items of it. *)
Lemma filter_marked (l : list ReportItemRow) ids st st' err :
  st' ≠ st →
  filter (λ i, of_status rid st i = true) (marked ids st' err l)
  = filter (λ i, it_id i ∉ ids) (filter (λ i, of_status rid st i = true) l).
Proof.
  intros Hne. induction l as [|x l IH]; [done|]. unfold marked. rewrite fmap_cons. fold (marked ids st' err l).
  rewrite !filter_cons. destruct (decide (it_id x ∈ ids)) as [Hd|Hd].
  - rewrite (decide_False (P := of_status rid st (item_with st' err x) = true)).
    2: { rewrite of_status_true. simpl. naive_solver. }
    destruct (decide (of_status rid st x = true)); [|done].
    rewrite filter_cons, decide_False by naive_solver. done.
  - destruct (decide (of_status rid st x = true)); [|done].
    rewrite filter_cons, decide_True by done. by rewrite IH.
Qed.

Lemma filter_mark_lt (l : list ReportItemRow) ids st st' err i :
  i ∈ l → it_id i ∈ ids → of_status rid st i = true → st' ≠ st →
  (length (filter (λ i, of_status rid st i = true) (marked ids st' err l))
   < length (filter (λ i, of_status rid st i = true) l))%nat.
Proof.
  intros Hi Hid Hst Hne. rewrite filter_marked by done.
  apply (length_filter_lt _ _ i); [by apply list_elem_of_filter|naive_solver].
Qed.

Definition size_of (st : ItemApplyStatus) e : nat :=
  length (filter (λ i, of_status rid st i = true) (items e)).

(** ** Finishing what the ERP has accepted *)

Lemma finish_cases fuel e r e' :
  working e → (size_of IS_erp_applied e < fuel)%nat →
  finishErpApplied to_numeric exact_numeric fuel rid report e = (r, e') →
  (steady e → steady e') ∧ pushes e (isOk r) e' ∧ s_posts e' = s_posts e ∧
  (r = Ok true ∧ working e' ∧ none_of IS_erp_applied (items e') ∨ ¬ steady e ∧ ∃ x, r = Throw x).
Proof.
  revert e r e'. induction fuel as [|f IH]; intros e r e' Hw Hf; [lia|]. cbn [finishErpApplied].
  unfold mbind at 1, StepM_bind. destruct (chunk_of rid report IS_erp_applied e) as [r1 e1] eqn:Hc.
  destruct (chunk_of_cases _ _ _ _ (wk_owned _ Hw) Hc) as ([tp tf ts] & Hsame & Hr).
  pose proof (same_keeps _ _ (wk_owned _ Hw) Hsame) as Hk. pose proof (working_keeps _ _ Hw Hk) as Hw1.
  assert (items e1 = items e) as Hi1 by apply Hk.
  destruct Hr as [->|[Hns [x ->]]].
  2: { intros [= <- <-]. split_and!; [done|apply pushes_none; [done|by apply keeps_step]|done|right; split; [done|by eexists]]. }
  destruct (chunk IS_erp_applied (items e)) as [|i l] eqn:Hch.
  { intros [= <- <-]. split_and!; [done|apply pushes_none; [done|by apply keeps_step]|done|].
    left. split_and!; [done|done|]. rewrite Hi1. by apply chunk_nil. }
  assert (∀ j, j ∈ i :: l → j ∈ items e ∧ of_status rid IS_erp_applied j = true) as Hsub
    by (intros j; rewrite <- Hch; apply chunk_elem).
  unfold mbind, StepM_bind. destruct (mirrorErpAppliedChunk _ _ _ _ _ e1) as [r2 e2] eqn:Hm.
  destruct (mirror_chunk_cases _ _ _ _ (wk_owned _ Hw1) Hm) as ([tp2 tf2 ts2] & Hr2).
  assert (∀ e2, marks e1 e2 (it_id <$> i :: l) IS_applied None → items_step rid (items e) (items e2)) as Hms.
  { intros e2' Hmk. rewrite <- Hi1. apply (marks_step _ _ (i :: l) IS_erp_applied IS_applied None); try done.
    - by rewrite Hi1; apply (wk_nodup _ Hw).
    - by rewrite Hi1. }
  destruct Hr2 as [[-> Hmk]|(Hns & [x ->] & Hmk)].
  - intros Hf'. pose proof (working_marks _ _ _ _ _ Hw1 Hmk) as Hw2.
    assert (size_of IS_erp_applied e2 < f)%nat as Hsz.
    { enough (size_of IS_erp_applied e2 < size_of IS_erp_applied e)%nat by lia.
      unfold size_of. destruct Hmk as (_ & _ & ->). rewrite Hi1.
      destruct (Hsub i ltac:(left)) as [Hi Hst].
      apply (filter_mark_lt _ _ _ _ _ i); [done| |done|done]. rewrite fmap_cons. left. }
    destruct (IH _ _ _ Hw2 Hsz Hf') as (Hst & Hpu & Hps & Hr).
    split_and!; [by auto| |by rewrite Hps, tp2, tp|].
    + eapply pushes_trans; [apply pushes_none; [|by apply Hms]|exact Hpu]. by rewrite tp2, tp.
    + destruct Hr as [?|[Hns ?]]; [by left|right]. split; [by auto|done].
  - intros [= <- <-]. split_and!; [by auto| |by rewrite tp2, tp|right; split; [by auto|by eexists]].
    apply pushes_none; [by rewrite tp2, tp|].
    destruct Hmk as [Hmk|Hmk]; [by apply Hms|]. rewrite <- Hi1. by apply keeps_step.
Qed.

(** ** Pushing a chunk *)

Lemma filter_mark_le (l : list ReportItemRow) ids st st' err :
  st' ≠ st →
  (length (filter (λ i, of_status rid st i = true) (marked ids st' err l))
   ≤ length (filter (λ i, of_status rid st i = true) l))%nat.
Proof. intros Hne. rewrite filter_marked by done. apply length_filter. Qed.

Lemma mirrored_none_erp ids l :
  none_of IS_erp_applied l →
  none_of IS_erp_applied (marked ids IS_applied None (marked ids IS_erp_applied None l)).
Proof.
  rewrite !none_iff. intros Hn i' Hi' Hp. unfold marked in Hi'.
  apply list_elem_of_fmap in Hi' as (j & -> & Hj). apply list_elem_of_fmap in Hj as (i & -> & Hi).
  destruct (decide (it_id i ∈ ids)) as [Hd|Hd]; simpl in Hp.
  - rewrite decide_True in Hp by done. by apply of_status_true in Hp as [_ Hp].
  - rewrite decide_False in Hp by done. by apply (Hn i).
Qed.

Lemma pushes_post e e2 ok ps (p : OfferPost) :
  (ps = [] ∨ ps = [p]) → s_posts e2 = s_posts e ++ ps → items_step rid (items e) (items e2) →
  post_of_items (items e) p → NoDup (op_ids p) →
  (ok = false ∨ ∀ x, x ∈ op_ids p → x ∈ pend rid (items e2) → False) → pushes e ok e2.
Proof.
  intros Hps Hp Hs Hpost Hnd Hgone. exists ps.
  assert (∀ x, x ∈ posted ps → x ∈ op_ids p) as Hin.
  { intros x. destruct Hps as [->| ->]; [by intros ?%elem_of_nil|]. unfold posted. cbn. by rewrite app_nil_r. }
  split_and!; [done|done|..].
  - destruct Hps as [->| ->]; [apply NoDup_nil_2|]. unfold posted. cbn. by rewrite app_nil_r.
  - intros x Hx%Hin. destruct Hpost as (sub & Hsub & _ & _ & Hids & _). rewrite Hids in Hx.
    apply list_elem_of_fmap in Hx as (i & -> & Hi). destruct (Hsub i Hi) as (? & ? & _). apply pend_elem. eauto.
  - destruct Hps as [->| ->]; by repeat constructor.
  - intros x Hx Hpend. pose proof (Hin x Hx) as Hx'. destruct Hgone as [->|Hg]; [|by destruct (Hg x Hx' Hpend)].
    split; [done|]. destruct Hps as [->| ->]; [by apply elem_of_nil in Hx|]. by exists p.
Qed.

Lemma offer_post_cases (p : OfferPost) e r e' :
  offer_post p e = (r, e') →
  s_db e' = s_db e ∧ (steady e → steady e') ∧ ∃ ps, (ps = [] ∨ ps = [p]) ∧ s_posts e' = s_posts e ++ ps.
Proof.
  unfold offer_post. destruct (s_fates e) as [|[] l]; intros [= <- <-]; (split_and!; [done|done|]);
    [by exists [p]; auto|by exists [p]; auto|exists []; rewrite app_nil_r; by auto|by exists [p]; auto].
Qed.

Record pushable_items e (l : list ReportItemRow) : Prop := {
  pi_sub : ∀ i, i ∈ l → i ∈ items e ∧ of_status rid IS_pending i = true ∧ has_external i = true;
  pi_size : (length l ≤ A7_CHUNK)%nat;
  pi_nodup : NoDup (it_id <$> l);
  pi_some : l ≠ [];
}.

(** What a round that goes on has achieved. *)
Definition progress e e' : Prop :=
  working e' ∧ none_of IS_erp_applied (items e') ∧ (size_of IS_pending e' < size_of IS_pending e)%nat.

Lemma push_chunk_cases creds l e r e' :
  working e → none_of IS_erp_applied (items e) → pushable_items e l →
  push_chunk to_numeric exact_numeric creds rid report l e = (r, e') →
  (steady e → steady e') ∧ pushes e (isOk r) e' ∧
  (r = Ok Continue ∧ progress e e' ∨ ¬ steady e ∧ ∃ x, r = Throw x).
Proof.
  intros Hw He [Hsub Hsz Hnd Hne]. unfold push_chunk.
  destruct (offer_post _ e) as [rp e1] eqn:Hpost. set (p := post_of creds report l) in *.
  destruct (offer_post_cases _ _ _ _ Hpost) as (Hdb1 & Hst1 & ps & Hps & Hposts).
  assert (post_of_items (items e) p) as Hpi by (by exists l).
  assert (working e1) as Hw1 by (destruct Hw; split; by rewrite Hdb1).
  assert (∃ i, i ∈ l) as [i0 Hi0] by (destruct l as [|i l']; [done|exists i; left]).
  assert (it_id i0 ∈ it_id <$> l) as Hid0 by (apply list_elem_of_fmap; eauto).
  assert (∀ e2 st err, marks e1 e2 (it_id <$> l) st err → status_lt IS_pending st = true →
     working e2 ∧ items_step rid (items e) (items e2) ∧ (size_of IS_pending e2 < size_of IS_pending e)%nat
     ∧ (∀ x, x ∈ op_ids p → x ∈ pend rid (items e2) → False)
     ∧ items e2 = marked (it_id <$> l) st err (items e)) as Hmark.
  { intros e2 st err Hm Hlt. pose proof Hm as (_ & _ & Hit). rewrite Hdb1 in Hit.
    pose proof (status_lt_not_pending _ _ Hlt). destruct (Hsub i0 Hi0) as (? & ? & _).
    split_and!; [by eapply working_marks| | | |done].
    - rewrite <- Hdb1. apply (marks_step _ _ l IS_pending st err); [by apply (wk_nodup _ Hw1)| |done|done].
      intros i Hi. rewrite Hdb1. by destruct (Hsub i Hi) as (? & ? & _).
    - unfold size_of. rewrite Hit. by apply (filter_mark_lt _ _ _ _ _ i0).
    - intros x Hx Hp. rewrite Hit in Hp. by apply marked_pend in Hp as [? _]. }
  assert (items_step rid (items e) (items e1)) as Hs1 by (rewrite Hdb1; apply items_step_refl).
  assert (∀ st err rm e2, mark_owned rid report (it_id <$> l) st err e1 = (rm, e2) → status_lt IS_pending st = true →
    (steady e → steady e2) ∧ s_posts e2 = s_posts e ++ ps ∧
    (rm = Ok true ∧ marks e1 e2 (it_id <$> l) st err ∨ ¬ steady e ∧ (∃ x, rm = Throw x) ∧ pushes e false e2)) as Hmo.
  { intros st err rm e2 Hm Hlt. destruct (mark_owned_cases _ _ _ _ _ _ (wk_owned _ Hw1) Hm) as ([tp tf ts] & Hr).
    split_and!; [by auto|by rewrite tp|]. destruct Hr as [?|(Hns & Hx & Hmk)]; [by left|right].
    split_and!; [by auto|done|]. apply (pushes_post _ _ _ ps p); try done; [by rewrite tp| |by left].
    destruct Hmk as [Hmk|Hmk]; [by destruct (Hmark _ _ _ Hmk Hlt) as (_ & ? & _)|].
    eapply items_step_trans; [exact Hs1|by apply keeps_step]. }
  destruct rp as [[]|x].
  - (* the ERP accepted: checkpoint, then mirror *)
    unfold mbind at 1, StepM_bind. destruct (mark_owned _ _ _ _ _ e1) as [rm e2] eqn:Hm.
    destruct (Hmo _ _ _ _ Hm eq_refl) as (Hst2 & Hp2 & Hr). destruct Hr as [[-> Hmk]|(Hns & [x ->] & Hpu)].
    2: { intros [= <- <-]. split_and!; [done|done|right; split; [done|by eexists]]. }
    destruct (Hmark _ _ _ Hmk eq_refl) as (Hw2 & Hstep2 & Hlt2 & Hgone2 & Hit2).
    unfold mbind, StepM_bind. destruct (mirrorErpAppliedChunk _ _ _ _ _ e2) as [rr e3] eqn:Hmir.
    destruct (mirror_chunk_cases _ _ _ _ (wk_owned _ Hw2) Hmir) as ([tp tf ts] & Hr).
    assert (pushes e true e2) as Hpu2 by (apply (pushes_post _ _ _ ps p); try done; by right).
    assert (∀ e3, marks e2 e3 (it_id <$> l) IS_applied None → items_step rid (items e2) (items e3)) as Hstep3.
    { intros e3' (_ & _ & ->). apply marked_step. intros i Hi Hid. rewrite Hit2 in Hi. unfold marked in Hi.
      apply list_elem_of_fmap in Hi as (j & -> & Hj).
      assert (it_id j ∈ it_id <$> l) as Hjd by (by case_decide). rewrite decide_True by done.
      split; [|done]. simpl. by destruct (chunk_ids rid IS_pending IS_failed (items e) l (wk_nodup _ Hw)
        ltac:(intros k Hk; by destruct (Hsub k Hk) as (? & ? & _)) eq_refl j Hj Hjd). }
    destruct Hr as [[-> Hmk3]|(Hns & [x ->] & Hmk3)]; intros [= <- <-].
    + split_and!; [by auto| |left; split; [done|]].
      * eapply pushes_trans; [exact Hpu2|]. by apply pushes_none, Hstep3.
      * pose proof Hmk3 as (_ & _ & Hit3). split_and!; [by eapply working_marks| |].
        -- rewrite Hit3, Hit2. by apply mirrored_none_erp.
        -- eapply Nat.le_lt_trans; [|exact Hlt2]. unfold size_of. rewrite Hit3. by apply filter_mark_le.
    + split_and!; [by auto| |right; split; [by auto|by eexists]].
      eapply pushes_trans; [exact Hpu2|]. apply pushes_none; [done|].
      destruct Hmk3 as [?|?]; [by apply Hstep3|by apply keeps_step].
  - (* the POST failed: the items are failed *)
    unfold mbind, StepM_bind. destruct (mark_owned _ _ _ _ _ e1) as [rm e2] eqn:Hm.
    destruct (Hmo _ _ _ _ Hm eq_refl) as (Hst2 & Hp2 & Hr). destruct Hr as [[-> Hmk]|(Hns & [x' ->] & Hpu)].
    2: { intros [= <- <-]. split_and!; [done|done|right; split; [done|by eexists]]. }
    destruct (Hmark _ _ _ Hmk eq_refl) as (Hw2 & Hstep2 & Hlt2 & Hgone2 & Hit2).
    intros [= <- <-]. split_and!; [done| |left; split; [done|]].
    + apply (pushes_post _ _ _ ps p); try done. by right.
    + split_and!; [done| |done]. rewrite Hit2. by apply marked_none_erp.
Qed.

(** ** A round, the loop, the delivery *)

Lemma chunk_nodup st l : NoDup (it_id <$> l) → NoDup (it_id <$> chunk st l).
Proof.
  intros Hnd. unfold chunk. eapply sublist_NoDup; [|apply fmap_sublist, sublist_take].
  rewrite js_sort_perm. eapply sublist_NoDup; [exact Hnd|]. apply fmap_sublist, sublist_filter.
Qed.

Lemma chunk_size st l : (length (chunk st l) ≤ A7_CHUNK)%nat.
Proof. unfold chunk. rewrite length_take. lia. Qed.

Lemma fail_missing_cases missing e r e' :
  working e → none_of IS_erp_applied (items e) →
  (∀ i, i ∈ missing → i ∈ items e ∧ of_status rid IS_pending i = true) →
  fail_missing rid report missing e = (r, e') →
  (steady e → steady e') ∧ pushes e (isOk r) e' ∧
  (r = Ok true ∧ working e' ∧ none_of IS_erp_applied (items e') ∧ items e' = marked (it_id <$> missing) IS_failed (Some "sem_external_id") (items e)
   ∨ ¬ steady e ∧ ∃ x, r = Throw x).
Proof.
  intros Hw He Hsub. unfold fail_missing. destruct missing as [|m ms] eqn:Em.
  { intros [= <- <-]. split_and!; [done|apply pushes_none; [done|apply items_step_refl]|left].
    split_and!; [done|done|done|]. symmetry. unfold marked. rewrite <- list_fmap_id. apply list_fmap_ext. done. }
  rewrite <- Em in *. intros Hm.
  destruct (mark_owned_cases _ _ _ _ _ _ (wk_owned _ Hw) Hm) as ([tp tf ts] & Hr).
  assert (∀ e2, marks e e2 (it_id <$> missing) IS_failed (Some "sem_external_id") → items_step rid (items e) (items e2)) as Hs
    by (intros e2 Hmk; by apply (marks_step _ _ missing IS_pending IS_failed (Some "sem_external_id") (wk_nodup _ Hw))).
  split; [done|]. destruct Hr as [[-> Hmk]|(Hns & [x ->] & Hmk)].
  - split; [apply pushes_none; [done|by apply Hs]|left]. pose proof Hmk as (_ & _ & Hit).
    split_and!; [done|by eapply working_marks| |done]. rewrite Hit. by apply marked_none_erp.
  - split; [apply pushes_none; [done|]|right; split; [done|by eexists]].
    destruct Hmk as [?|?]; [by apply Hs|by apply keeps_step].
Qed.

Definition stops e (r : Res Round) e' : Prop :=
  r = Ok Return ∧ closed (s_db e') ∨
  r = Ok Break ∧ working e' ∧ none_of IS_erp_applied (items e') ∧ none_of IS_pending (items e').

(** The part of a round after its chunk has been read. *)
Lemma chunk_round_cases creds e r e' :
  working e → none_of IS_erp_applied (items e) → chunk IS_pending (items e) ≠ [] →
  (let l := chunk IS_pending (items e) in
   owned ← fail_missing rid report (filter (λ i, has_external i = false) l);
   if negb (owned : bool) then mret Return
   else match filter (λ i, has_external i = true) l with
        | [] => mret Continue
        | pushable => push_chunk to_numeric exact_numeric creds rid report pushable
        end) e = (r, e') →
  (steady e → steady e') ∧ pushes e (isOk r) e' ∧
  (r = Ok Continue ∧ progress e e' ∨ ¬ steady e ∧ ∃ x, r = Throw x).
Proof.
  intros Hw He Hne. cbv zeta. set (l := chunk IS_pending (items e)) in *.
  assert (∀ i, i ∈ l → i ∈ items e ∧ of_status rid IS_pending i = true) as Hsub by (intros i; apply chunk_elem).
  set (missing := filter (λ i, has_external i = false) l).
  unfold mbind, StepM_bind. destruct (fail_missing rid report missing e) as [rm e1] eqn:Hm.
  destruct (fail_missing_cases missing _ _ _ Hw He ltac:(intros i [_ ?]%list_elem_of_filter; auto) Hm)
    as (Hst & Hpu & [(-> & Hw1 & He1 & Hit)|(Hns & [x ->])]).
  2: { intros [= <- <-]. split_and!; [done|done|right; split; [done|by eexists]]. }
  cbn [negb]. destruct (filter (λ i, has_external i = true) l) as [|p ps] eqn:Hp.
  - intros [= <- <-]. split_and!; [done|done|left; split; [done|]]. split_and!; [done|done|].
    destruct l as [|i l'] eqn:El; [done|]. destruct (Hsub i ltac:(left)) as [Hi Hpend].
    assert (i ∈ missing) as Him.
    { unfold missing. apply list_elem_of_filter. split; [|left]. destruct (has_external i) eqn:Hx; [|done].
      assert (i ∈ filter (λ i, has_external i = true) (i :: l')) as Hin by (apply list_elem_of_filter; split; [done|left]).
      rewrite Hp in Hin. by apply elem_of_nil in Hin. }
    unfold size_of. rewrite Hit. apply (filter_mark_lt _ _ _ _ _ i); [done| |done|done].
    apply list_elem_of_fmap. eauto.
  - rewrite <- Hp. intros Hpush.
    assert (pushable_items e1 (filter (λ i, has_external i = true) l)) as Hpi.
    { split.
      - intros i [Hx Hi]%list_elem_of_filter. destruct (Hsub i Hi) as [Hie Hpend]. split_and!; [|done|done].
        rewrite Hit. unfold marked. apply list_elem_of_fmap. exists i. split; [|done].
        rewrite decide_False; [done|]. intros (j & Hij & [Hjx Hj]%list_elem_of_filter)%list_elem_of_fmap.
        assert (i = j) as <-; [|congruence].
        apply list_elem_of_lookup in Hi as [a Ha]. apply list_elem_of_lookup in Hj as [b Hb].
        assert (a = b) as ->; [|by simplify_eq].
        eapply (NoDup_lookup _ _ _ (it_id i) (chunk_nodup IS_pending _ (wk_nodup _ Hw))); rewrite list_lookup_fmap;
          fold l; [by rewrite Ha|]. rewrite Hb. simpl. by f_equal.
      - etrans; [apply length_filter|apply chunk_size].
      - eapply sublist_NoDup; [apply (chunk_nodup IS_pending _ (wk_nodup _ Hw))|]. apply fmap_sublist, sublist_filter.
      - by rewrite Hp. }
    destruct (push_chunk_cases _ _ _ _ _ Hw1 He1 Hpi Hpush) as (Hst2 & Hpu2 & Hr).
    split_and!; [by auto|by eapply pushes_trans|]. destruct Hr as [(-> & Hw2 & He2 & Hlt)|[Hns ?]]; [left|right; by auto].
    split; [done|]. split_and!; [done|done|]. eapply Nat.lt_le_trans; [exact Hlt|]. unfold size_of. rewrite Hit.
    by apply filter_mark_le.
Qed.

Lemma push_round_cases creds e r e' :
  working e → none_of IS_erp_applied (items e) →
  push_round to_numeric exact_numeric creds rid report e = (r, e') →
  (steady e → steady e') ∧ pushes e (isOk r) e' ∧
  (r = Ok Continue ∧ progress e e' ∨ stops e r e' ∨ ¬ steady e ∧ ∃ x, r = Throw x).
Proof.
  intros Hw He. unfold push_round. unfold mbind at 1, StepM_bind.
  destruct (ensureCampaignAllowsPending rid report e) as [r1 e1] eqn:H1.
  destruct (ensure_cases _ _ _ Hw He H1) as ([tp tf ts] & [[-> Hk]|[(-> & Hfp)|(Hns & [x ->] & Hk)]]).
  - cbn [negb]. unfold mbind at 1, StepM_bind. destruct (chunk_of rid report IS_pending e1) as [r2 e2] eqn:H2.
    pose proof (working_keeps _ _ Hw Hk) as Hw1. assert (items e1 = items e) as Hi1 by apply Hk.
    destruct (chunk_of_cases _ _ _ _ (wk_owned _ Hw1) H2) as ([tp2 tf2 ts2] & Hsame & Hr).
    pose proof (same_keeps _ _ (wk_owned _ Hw1) Hsame) as Hk2. pose proof (working_keeps _ _ Hw1 Hk2) as Hw2.
    assert (items e2 = items e) as Hi2 by (by rewrite <- Hi1; apply Hk2).
    assert (∀ ok, pushes e ok e2) as Hpu
      by (intros; apply pushes_none; [by rewrite tp2, tp|rewrite Hi2; apply items_step_refl]).
    destruct Hr as [->|[Hns [x ->]]].
    2: { intros [= <- <-]. split_and!; [by auto|done|right; right; split; [by auto|by eexists]]. }
    destruct (chunk IS_pending (items e1)) as [|i l] eqn:Hch.
    { intros [= <- <-]. split_and!; [by auto|done|right; left; right]. rewrite Hi2.
      split_and!; [done|done|done|]. rewrite Hi1 in Hch. by apply chunk_nil. }
    assert (chunk IS_pending (items e2) = i :: l) as Hch2 by (by rewrite Hi2, <- Hi1).
    intros Hrun. destruct (chunk_round_cases creds e2 r e') as (Hst & Hpu2 & Hr);
      [done|by rewrite Hi2|by rewrite Hch2|rewrite Hch2; exact Hrun|].
    split_and!; [by auto|by eapply pushes_trans|]. destruct Hr as [(-> & Hpr)|[Hns ?]]; [left|right; right; split; [by auto|done]].
    split; [done|]. destruct Hpr as (? & ? & Hlt). split_and!; [done|done|]. unfold size_of in *. by rewrite <- Hi2.
  - intros [= <- <-]. split_and!; [done| |right; left; left; split; [done|apply Hfp]].
    apply pushes_none; [done|]. by eapply fails_step; [apply (wk_nodup _ Hw)|].
  - intros [= <- <-]. split_and!; [done| |right; right; split; [done|by eexists]].
    apply pushes_none; [done|]. destruct Hk as [?|?]; [by apply keeps_step|].
    by eapply fails_step; [apply (wk_nodup _ Hw)|].
Qed.

Lemma push_loop_cases fuel creds e r e' :
  working e → none_of IS_erp_applied (items e) → (size_of IS_pending e < fuel)%nat →
  push_loop to_numeric exact_numeric fuel creds rid report e = (r, e') →
  (steady e → steady e') ∧ pushes e (isOk r) e' ∧
  (r = Ok true ∧ working e' ∧ none_of IS_erp_applied (items e') ∧ none_of IS_pending (items e') ∨
   r = Ok false ∧ closed (s_db e') ∨ ¬ steady e ∧ ∃ x, r = Throw x).
Proof.
  revert e r e'. induction fuel as [|f IH]; intros e r e' Hw He Hf; [lia|]. cbn [push_loop].
  unfold mbind, StepM_bind. destruct (push_round _ _ _ _ _ e) as [r1 e1] eqn:Hr1.
  destruct (push_round_cases _ _ _ _ Hw He Hr1) as (Hst & Hpu & [(-> & Hw1 & He1 & Hlt)|[Hstop|[Hns [x ->]]]]).
  - intros Hl. destruct (IH _ _ _ Hw1 He1 ltac:(lia) Hl) as (Hst2 & Hpu2 & Hr).
    split_and!; [by auto|by eapply pushes_trans|].
    destruct Hr as [?|[?|[Hns ?]]]; [by left|by right; left|right; right; split; [by auto|done]].
  - destruct Hstop as [[-> Hc]|(-> & Hw1 & He1 & Hp1)]; intros [= <- <-]; (split_and!; [done|done|]).
    + right. by left.
    + by left.
  - intros [= <- <-]. split_and!; [done|done|right; right; split; [done|by eexists]].
Qed.

Lemma items_step_size l l' : items_step rid l l' →
  (length (filter (λ i, of_status rid IS_pending i = true) l')
   ≤ length (filter (λ i, of_status rid IS_pending i = true) l))%nat.
Proof.
  induction 1 as [|i i' l l' Hs _ IH]; [done|]. rewrite !filter_cons.
  destruct (decide (of_status rid IS_pending i' = true)) as [Hp|].
  - pose proof Hp as [_ Hst]%of_status_true. rewrite (item_step_pending _ _ _ Hs Hst) in Hp.
    rewrite decide_True by done. simpl. lia.
  - case_decide; simpl; lia.
Qed.

Lemma size_report st e : (size_of st e ≤ length (filter (λ i, it_reportId i = rid) (items e)))%nat.
Proof.
  unfold size_of. induction (items e) as [|i l IH]; [done|]. rewrite !filter_cons.
  destruct (decide (of_status rid st i = true)) as [[Hr _]%of_status_true|].
  - rewrite decide_True by done. simpl. lia.
  - case_decide; simpl; lia.
Qed.

(** A transaction at the end of the delivery, of which [Hfn] says what it
    does when it commits. *)
Lemma closing_tx (fn : Z → OTx N unit) e r e' :
  working e →
  (∀ now db1, same_report (s_db e) db1 → ∃ db2, fn now db1 = Ok ((), db2) ∧ closed db2 ∧
     items_step rid (items e) (reportItems db2)) →
  owned_tx rid report () fn e = (r, e') →
  (steady e → steady e') ∧ pushes e (isOk r) e' ∧
  (r = Ok () ∧ closed (s_db e') ∨ ¬ steady e ∧ ∃ x, r = Throw x).
Proof.
  intros Hw Hfn Htx. destruct (owned_tx_cases _ _ _ _ _ (wk_owned _ Hw) Htx) as (Hp & Hf & Hst & now & db1 & Hs & Hr).
  destruct (Hfn now db1 Hs) as (db2 & Hfn2 & Hcl & Hstep). rewrite Hfn2 in Hr. split; [done|].
  destruct Hr as [[-> Hdb]|(Hns & [x ->] & Hdb)].
  - split; [apply pushes_none; [done|by rewrite Hdb]|left]. by rewrite Hdb.
  - split; [apply pushes_none; [done|]|right; split; [done|by eexists]].
    destruct Hdb as [->|Hs']; [done|]. rewrite (sr_items _ _ Hs'). apply items_step_refl.
Qed.

Lemma same_working e db1 : working e → same_report (s_db e) db1 →
  owned db1 ∧ is_Some (reports db1 !! rid) ∧ reportItems db1 = items e.
Proof. intros [Ho Hr _] [h1 h2 h3]. split_and!; [by apply h3|by rewrite h2|done]. Qed.

Lemma fail_pending_tx error e r e' :
  working e → none_of IS_erp_applied (items e) →
  owned_tx rid report () (λ now, fail_pending now rid report error) e = (r, e') →
  (steady e → steady e') ∧ pushes e (isOk r) e' ∧
  (r = Ok () ∧ closed (s_db e') ∨ ¬ steady e ∧ ∃ x, r = Throw x).
Proof.
  intros Hw He. apply closing_tx; [done|]. intros now db1 Hs.
  destruct (same_working _ _ Hw Hs) as (Ho & Hr & Hi).
  destruct (fail_pending_closes now error db1) as (db2 & Hf & Hc & Hit); [done|done|by rewrite Hi|].
  exists db2. split_and!; [done|done|]. rewrite Hit, Hi. apply marked_step.
  intros i Hin Hp. by eapply pend_chunk; [|apply (wk_nodup _ Hw)|].
Qed.

Lemma finalize_tx e r e' :
  working e → none_of IS_erp_applied (items e) → none_of IS_pending (items e) →
  owned_tx rid report () (λ now, finalizeOwned now rid report) e = (r, e') →
  (steady e → steady e') ∧ pushes e (isOk r) e' ∧
  (r = Ok () ∧ closed (s_db e') ∨ ¬ steady e ∧ ∃ x, r = Throw x).
Proof.
  intros Hw He Hp. apply closing_tx; [done|]. intros now db1 Hs.
  destruct (same_working _ _ Hw Hs) as (Ho & Hr & Hi).
  destruct (finalize_closes now db1) as (db2 & Hf & Hc & Hit); [done|done|by rewrite Hi|by rewrite Hi|].
  exists db2. split_and!; [done|done|]. rewrite Hit, Hi. apply items_step_refl.
Qed.

(** Credentials are read, or cannot be decrypted. *)
Definition decrypts : Prop := ∀ key, isOk (decrypt key) = true.

Lemma credentials_total c slug : decrypts → isOk (credentials_of (N := N) decrypt c slug) = true.
Proof.
  intros Hd. unfold credentials_of. destruct (_ !! slug) as [t|]; [|done]. destruct (_ !! t) as [row|]; [|done].
  destruct (truthy (cn_apiBaseUrl row)), (truthy (cn_apiKeyEncrypted row)) as [k|]; try done.
  specialize (Hd k). by destruct (decrypt k).
Qed.

Lemma run_owned_cases fuel slug e r e' :
  working e → (length (filter (λ i, it_reportId i = rid) (items e)) < fuel)%nat →
  run_owned to_numeric exact_numeric decrypt fuel slug rid report e = (r, e') →
  pushes e (isOk r) e' ∧
  (r = Ok () ∧ closed (s_db e') ∨ (¬ steady e ∨ ¬ decrypts) ∧ ∃ x, r = Throw x).
Proof.
  intros Hw Hf. unfold run_owned, mbind at 1, StepM_bind.
  destruct (finishErpApplied _ _ _ _ _ e) as [r1 e1] eqn:H1.
  pose proof (size_report IS_erp_applied e) as Hsz.
  destruct (finish_cases fuel _ _ _ Hw ltac:(lia) H1) as (Hst1 & Hpu1 & _ & [(-> & Hw1 & He1)|[Hns [x ->]]]).
  2: { intros [= <- <-]. split; [done|right]. split; [by left|by eexists]. }
  cbn [negb]. unfold mbind at 1, StepM_bind. destruct (ensureCampaignAllowsPending rid report e1) as [r2 e2] eqn:H2.
  destruct (ensure_cases _ _ _ Hw1 He1 H2) as ([tp tf ts] & Hr2).
  assert (∀ ok, items_step rid (items e1) (items e2) → pushes e ok e2) as Hpu2
    by (intros ok Hs; eapply pushes_trans; [exact Hpu1|by apply pushes_none]).
  destruct Hr2 as [[-> Hk]|[(-> & Hfp)|(Hns & [x ->] & Hk)]].
  2: { intros [= <- <-]. split; [apply Hpu2; by eapply fails_step; [apply (wk_nodup _ Hw1)|]|left; by destruct Hfp]. }
  2: { intros [= <- <-]. split; [apply Hpu2|right; split; [left; by auto|by eexists]].
       destruct Hk as [?|?]; [by apply keeps_step|by eapply fails_step; [apply (wk_nodup _ Hw1)|]]. }
  cbn [negb]. pose proof (working_keeps _ _ Hw1 Hk) as Hw2. assert (items e2 = items e1) as Hi2 by apply Hk.
  assert (none_of IS_erp_applied (items e2)) as He2 by (by rewrite Hi2).
  specialize (Hpu2 true (keeps_step _ _ Hk)).
  unfold mbind at 1, StepM_bind, step_credentials. destruct (credentials_of _ _ _) as [[creds|]|x] eqn:Hcr.
  - destruct Hpu1 as (ps1 & _ & Hstep1 & _). pose proof (items_step_size _ _ Hstep1) as Hsz1.
    pose proof (size_report IS_pending e) as Hsz2. unfold mbind, StepM_bind.
    destruct (push_loop _ _ _ _ _ _ e2) as [r3 e3] eqn:H3.
    destruct (push_loop_cases fuel creds e2 _ _ Hw2 He2 ltac:(unfold size_of in *; rewrite Hi2; lia) H3)
      as (Hst3 & Hpu3 & Hr3).
    pose proof (pushes_trans _ _ _ _ Hpu2 Hpu3) as Hpu.
    destruct Hr3 as [(-> & Hw3 & He3 & Hp3)|[(-> & Hc)|[Hns [x ->]]]]; cbn [negb].
    + intros Hfin. destruct (finalize_tx _ _ _ Hw3 He3 Hp3 Hfin) as (_ & Hpu4 & Hr).
      split; [by eapply pushes_trans|]. destruct Hr as [?|[Hns ?]]; [by left|right; split; [left; tauto|done]].
    + intros [= <- <-]. split; [done|by left].
    + intros [= <- <-]. split; [done|right; split; [left; tauto|by eexists]].
  - intros Hfin. destruct (fail_pending_tx _ _ _ _ Hw2 He2 Hfin) as (_ & Hpu4 & Hr).
    split; [by eapply pushes_trans|]. destruct Hr as [?|[Hns ?]]; [by left|right; split; [left; tauto|done]].
  - intros [= <- <-]. split; [|right; split; [right|by eexists]].
    + eapply pushes_trans; [exact Hpu2|]. apply pushes_none; [done|apply items_step_refl].
    + intros Hd. apply (credentials_total (o_catalog (s_db e2)) slug) in Hd. by rewrite Hcr in Hd.
Qed.

End Worker.

(* ------------------------------------------------------------------ *)
(** * Deliveries                                                        *)
(* ------------------------------------------------------------------ *)

Section Deliveries.
Context {N : Type} `{JsNum N}.
Variable to_numeric : nat → N → Numeric.
Variable exact_numeric : N → Numeric.
Variable decrypt : string → Res string.
Variable slug rid : string.
Implicit Types (e : StepEnv (N := N)).

Local Abbreviation items e := (reportItems (s_db e)).

(** The rule of the report is live and carries its lease. *)
Definition running (report : ReportRow) (db : OfferDb N) : Prop :=
  ∃ rule, bookRules db !! rp_ruleId report = Some rule ∧ owns rid rule = true ∧ br_deleted rule = false.

(** The transaction that looks the report up. *)
Lemma find_cases e r e' :
  short_tx (λ _, findOwnedReport rid) e = (r, e') →
  s_posts e' = s_posts e ∧ (steady e → steady e') ∧
  bookRules (s_db e') = bookRules (s_db e) ∧ reports (s_db e') = reports (s_db e) ∧ items e' = items e ∧
  (¬ steady e ∧ (∃ x, r = Throw x) ∨
   (∃ report, r = Ok (Some report) ∧ reports (s_db e) !! rid = Some report ∧ running report (s_db e)) ∨
   r = Ok None ∧ ∀ report, reports (s_db e) !! rid = Some report → ¬ running report (s_db e)).
Proof.
  unfold short_tx, next_event, steady. intros Htx.
  set (o := report ← reports (s_db e) !! rid; rule ← bookRules (s_db e) !! rp_ruleId report;
            if owns rid rule && negb (br_deleted rule) then Some report else None).
  assert (match o with
          | Some report => reports (s_db e) !! rid = Some report ∧ running report (s_db e)
          | None => ∀ report, reports (s_db e) !! rid = Some report → ¬ running report (s_db e) end) as Ho.
  { unfold o. destruct (reports (s_db e) !! rid) as [report|]; [|done]. cbn [mbind option_bind].
    destruct (bookRules (s_db e) !! rp_ruleId report) as [rule|] eqn:Hrule; cbn [mbind option_bind].
    - destruct (owns rid rule && negb (br_deleted rule)) eqn:Hc.
      + apply andb_true_iff in Hc as [? ?%negb_true_iff]. split; [done|]. by exists rule.
      + intros ? [= <-] (rule' & Hrule' & Hown & Hdel). rewrite Hrule in Hrule'. injection Hrule' as <-.
        by rewrite Hown, Hdel in Hc.
    - intros ? [= <-] (rule' & Hrule' & _). by rewrite Hrule in Hrule'. }
  destruct (s_events e) as [|ev rest] eqn:Hev.
  - change (findOwnedReport rid (s_db e)) with (Ok (o, s_db e)) in Htx. injection Htx as <- <-.
    cbn [s_db s_posts s_events]. rewrite Hev. split_and!; try done.
    destruct o as [report|]; right; [left|by right]. exists report. by destruct Ho.
  - cbn [s_db s_now] in Htx. change (findOwnedReport rid (set_o_catalog (ev_catalog ev (o_catalog (s_db e))) (s_db e)))
      with (Ok (o, set_o_catalog (ev_catalog ev (o_catalog (s_db e))) (s_db e))) in Htx.
    assert (bookRules (s_db e') = bookRules (s_db e) ∧ reports (s_db e') = reports (s_db e) ∧ items e' = items e
            ∧ s_posts e' = s_posts e ∧ s_events e' = rest) as (-> & -> & -> & -> & ->)
      by (destruct (ev_fate ev); by injection Htx as <- <-).
    split_and!; [done|by inversion 1|done|done|done|].
    destruct (ev_fate ev) eqn:Hfate; injection Htx as <- _.
    + destruct o as [report|]; right; [left|by right]. exists report. by destruct Ho.
    + left. split; [|by eexists]. inversion 1 as [|? ? Hf]. congruence.
    + left. split; [|by eexists]. inversion 1 as [|? ? Hf]. congruence.
Qed.

Lemma step_execute_cases report locked e r e' :
  NoDup (it_id <$> items e) → reports (s_db e) !! rid = Some report →
  step_execute to_numeric exact_numeric decrypt locked slug rid e = (r, e') →
  pushes rid report e (negb locked || isOk r) e' ∧ (locked = false → e' = e) ∧
  (locked = true → running report (s_db e) →
     r = Ok () ∧ closed rid report (s_db e') ∨ (¬ steady e ∨ ¬ decrypts decrypt) ∧ ∃ x, r = Throw x).
Proof.
  intros Hnd Hrep. unfold step_execute. destruct locked; cbn [negb orb].
  2: { intros [= <- <-]. split_and!; [|done|done]. by apply pushes_none, items_step_refl. }
  unfold mbind, StepM_bind. destruct (short_tx _ e) as [r1 e1] eqn:H1.
  destruct (find_cases _ _ _ H1) as (Hp & Hst & Hrules & Hreps & Hit & Hr1).
  assert (∀ ok, pushes rid report e ok e1) as Hpu by (intros; apply pushes_none; [done|rewrite Hit; apply items_step_refl]).
  destruct Hr1 as [[Hns [x ->]]|[(report' & -> & Hrep' & Hrun)|[-> Hno]]].
  - intros [= <- <-]. split_and!; [done|done|]. intros _ _. right. split; [by left|by eexists].
  - rewrite Hrep in Hrep'. injection Hrep' as <-. intros Hro.
    destruct Hrun as (rule & Hrule & Hown & Hdel).
    assert (working rid report e1) as Hw.
    { split; [exists rule; by rewrite Hrules|by rewrite Hreps, Hrep|by rewrite Hit]. }
    assert (length (filter (λ i, it_reportId i = rid) (items e1)) < fuel_of rid e)%nat as Hfuel
      by (rewrite Hit; unfold fuel_of; lia).
    destruct (run_owned_cases _ _ _ _ _ _ _ _ _ _ Hw Hfuel Hro) as (Hpu1 & Hr).
    split_and!; [by eapply pushes_trans; [apply Hpu|]|done|]. intros _ _.
    destruct Hr as [?|[[Hns|Hd] ?]]; [by left|right..]; (split; [|done]); [left; tauto|by right].
  - intros [= <- <-]. split_and!; [done|done|]. intros _ Hrun. by destruct (Hno report Hrep).
Qed.

(** ** Many deliveries *)

(** One delivery of the message: whether the lock was free, and the oracles
    of its time. *)
Record Delivery := { dl_locked : bool; dl_fates : list ErpFate; dl_events : list (TxEvent (N := N)); dl_now : Z }.

Definition deliver (d : Delivery) e : Res unit * StepEnv (N := N) :=
  step_execute to_numeric exact_numeric decrypt (dl_locked d) slug rid
    (Build_StepEnv (s_db e) (s_posts e) (dl_fates d) (dl_events d) (dl_now d)).

(** The deliveries in turn, with the number of those that raised after they
    had the lock. *)
Fixpoint deliveries (ds : list Delivery) e : nat * StepEnv (N := N) :=
  match ds with
  | [] => (0%nat, e)
  | d :: rest =>
      let '(r, e1) := deliver d e in
      let '(n, e2) := deliveries rest e1 in
      (if dl_locked d && negb (isOk r) then S n else n, e2)
  end.

Definition occurrences (x : string) (l : list string) : nat := length (filter (λ y, y = x) l).

Lemma occurrences_app x l l' : occurrences x (l ++ l') = (occurrences x l + occurrences x l')%nat.
Proof. unfold occurrences. by rewrite filter_app, length_app. Qed.

Lemma occurrences_NoDup x l : NoDup l → (occurrences x l ≤ 1)%nat.
Proof.
  unfold occurrences. induction 1 as [|y l Hy _ IH]; [simpl; lia|]. rewrite filter_cons.
  case_decide as Hd; [|done]. subst y. assert (filter (λ y, y = x) l = []) as ->; [|simpl; lia].
  destruct (filter _ l) as [|z zs] eqn:E; [done|]. exfalso.
  assert (z ∈ filter (λ y, y = x) l) as [-> ?]%list_elem_of_filter by (rewrite E; left). done.
Qed.

Lemma occurrences_in x l : (0 < occurrences x l)%nat → x ∈ l.
Proof.
  unfold occurrences. destruct (filter _ l) as [|z zs] eqn:E; [simpl; lia|]. intros _.
  assert (z ∈ filter (λ y, y = x) l) as [-> ?]%list_elem_of_filter by (rewrite E; left). done.
Qed.

(** A post of at most a chunk of pending items with the ERP ids and the
    prices their report was frozen with. *)
Definition frozen_post (l : list ReportItemRow) (p : OfferPost (N := N)) : Prop :=
  ∃ sub, (∀ i, i ∈ sub → i ∈ l ∧ of_status rid IS_pending i = true ∧ has_external i = true) ∧
    (length sub ≤ A7_CHUNK)%nat ∧ op_ids p = (it_id <$> sub) ∧
    op_items p = ((λ i, (js_Number (default "" (it_externalId i)), price_of i)) <$> sub).

Lemma frozen_post_step l l' p : items_step rid l l' → frozen_post l' p → frozen_post l p.
Proof.
  intros Hl (sub & Hsub & Hrest). exists sub. split; [|done]. intros i Hi.
  destruct (Hsub i Hi) as (Hil & Hp & Hx). split; [|done].
  destruct (items_step_elem _ _ _ _ Hl Hil) as (j & Hj & Hs). pose proof Hp as [_ Hst]%of_status_true.
  by rewrite (item_step_pending _ _ _ Hs Hst).
Qed.

Lemma deliver_pushes d e r e' :
  NoDup (it_id <$> items e) → deliver d e = (r, e') →
  ∃ report, pushes rid report e (negb (dl_locked d) || isOk r) e'.
Proof.
  intros Hnd Hd. unfold deliver in Hd. set (e0 := Build_StepEnv _ _ _ _ _) in Hd.
  enough (∃ report, pushes rid report e0 (negb (dl_locked d) || isOk r) e') as [report Hp] by (by exists report).
  destruct (reports (s_db e) !! rid) as [report|] eqn:Hrep.
  - exists report. by destruct (step_execute_cases report _ e0 _ _ Hnd Hrep Hd) as (? & _).
  - exists (Build_ReportRow "" 0 0 EX_MANUAL SALE_PRICE 0 0 0 None None). unfold step_execute in Hd.
    destruct (dl_locked d); cbn [negb orb] in *.
    2: { injection Hd as <- <-. apply pushes_none; [done|apply items_step_refl]. }
    unfold mbind, StepM_bind in Hd. destruct (short_tx _ e0) as [r1 e1] eqn:H1.
    destruct (find_cases _ _ _ H1) as (Hpo & _ & _ & _ & Hit & [(_ & [x ->])|[(report & _ & Hr & _)|[-> _]]]).
    + injection Hd as <- <-. apply pushes_none; [done|rewrite Hit; apply items_step_refl].
    + change (reports (s_db e) !! rid = Some report) in Hr. congruence.
    + injection Hd as <- <-. apply pushes_none; [done|rewrite Hit; apply items_step_refl].
Qed.

Definition may_post (x : string) e : nat := if decide (x ∈ pend rid (items e)) then 1 else 0.

(** Over any number of deliveries, with any faults: at most one post of an
    item, plus one for each delivery that raised. *)
Lemma deliveries_push ds e n e' :
  NoDup (it_id <$> items e) → deliveries ds e = (n, e') →
  ∃ ps, s_posts e' = s_posts e ++ ps ∧ items_step rid (items e) (items e') ∧
    (∀ x, x ∈ posted ps → x ∈ pend rid (items e)) ∧ Forall (frozen_post (items e)) ps ∧
    ∀ x, (occurrences x (posted ps) ≤ may_post x e + n)%nat.
Proof.
  revert e n e'. induction ds as [|d ds IH]; intros e n e' Hnd; cbn [deliveries].
  { intros [= <- <-]. exists []. split_and!; [by rewrite app_nil_r|apply items_step_refl|by intros x ?%elem_of_nil|done|].
    intros x. unfold occurrences. simpl. lia. }
  destruct (deliver d e) as [r e1] eqn:Hd. destruct (deliveries ds e1) as [m e2] eqn:Hds. intros [= <- <-].
  destruct (deliver_pushes _ _ _ _ Hnd Hd) as (report & ps & Hp & Hs & Hndp & Hin & Hok & Hlast).
  assert (NoDup (it_id <$> items e1)) as Hnd1 by (by rewrite (items_step_ids _ _ _ Hs)).
  destruct (IH _ _ _ Hnd1 Hds) as (ps' & Hp' & Hs' & Hin' & Hok' & Hocc).
  exists (ps ++ ps'). unfold posted in *. split_and!.
  - by rewrite Hp', Hp, app_assoc.
  - by eapply items_step_trans.
  - intros x. rewrite bind_app, elem_of_app. intros [?|Hx]; [by apply Hin|]. by eapply pend_step, Hin'.
  - apply Forall_app. split.
    + eapply Forall_impl; [exact Hok|]. intros p (sub & ? & ? & _ & ? & ?). by exists sub.
    + eapply Forall_impl; [exact Hok'|]. intros p. by apply frozen_post_step.
  - intros x. rewrite bind_app, occurrences_app. specialize (Hocc x). unfold may_post in *.
    pose proof (occurrences_NoDup x _ Hndp) as H1.
    destruct (decide (0 < occurrences x (ps ≫= op_ids))%nat) as [Hpos%occurrences_in|].
    + rewrite (decide_True (P := x ∈ pend rid (items e))) by by apply Hin.
      destruct (decide (x ∈ pend rid (items e1))) as [Hx1|]; [|destruct (_ && _); lia].
      destruct (Hlast x Hpos Hx1) as [Hraise _]. rewrite orb_false_iff, negb_false_iff in Hraise.
      destruct Hraise as [-> ->]. cbn [andb negb]. lia.
    + destruct (decide (x ∈ pend rid (items e1))) as [Hx1|]; [|destruct (_ && _); lia].
      rewrite (decide_True (P := x ∈ pend rid (items e))) by by eapply pend_step.
      destruct (_ && _); lia.
Qed.

End Deliveries.

(** [C21] Prices are pushed once.  Whatever the faults (HTTP calls refused or
    timed out, transactions rolled back or committed with the answer lost,
    campaigns and catalogue changing in between, duplicate deliveries
    refused by the lock), over any sequence of deliveries of a report's
    message every POST is built from at most 80 items that were pending when
    the report was frozen, with the ERP ids and prices frozen in them; an
    item appears in at most one POST more than the number of deliveries that
    raised; and the items only move up from pending, in place. *)
Theorem offer_pushed_once {N} `{JsNum N} (to_numeric : nat → N → Numeric) exact_numeric decrypt slug rid
    (ds : list (Delivery (N := N))) (e e' : StepEnv) raised :
  NoDup (it_id <$> reportItems (s_db e)) →
  deliveries to_numeric exact_numeric decrypt slug rid ds e = (raised, e') →
  ∃ ps, s_posts e' = s_posts e ++ ps ∧
    Forall (frozen_post rid (reportItems (s_db e))) ps ∧
    (∀ x, (occurrences x (posted ps) ≤ 1 + raised)%nat) ∧
    (∀ x, x ∉ pend rid (reportItems (s_db e)) → occurrences x (posted ps) = 0%nat) ∧
    items_step rid (reportItems (s_db e)) (reportItems (s_db e')).
Proof.
  intros Hnd Hd.
  destruct (deliveries_push to_numeric exact_numeric decrypt slug rid ds e raised e' Hnd Hd)
    as (ps & Hp & Hs & Hin & Hf & Hocc).
  exists ps. split_and!; [done|done| | |done].
  - intros x. specialize (Hocc x). unfold may_post in Hocc. case_decide; lia.
  - intros x Hx. destruct (decide (0 < occurrences x (posted ps))%nat) as [Hpos%occurrences_in|]; [|lia].
    by destruct (Hx (Hin x Hpos)).
Qed.

(** A delivery that has the lock and whose rule is running ends, and
    when it ends without error the report is closed: no item is pending or
    accepted by the ERP without its mirror, what the ERP had accepted before
    is applied, the report counts its items and the rule has the status
    these counts say and no lease.  It ends without error when no
    transaction fails and the API key decrypts, whatever the ERP answers and
    whatever becomes of the campaign. *)
Theorem offer_delivery_closes {N} `{JsNum N} (to_numeric : nat → N → Numeric) exact_numeric decrypt slug rid
    report (e e' : StepEnv (N := N)) r :
  NoDup (it_id <$> reportItems (s_db e)) → reports (s_db e) !! rid = Some report →
  running rid report (s_db e) →
  step_execute to_numeric exact_numeric decrypt true slug rid e = (r, e') →
  (r = Ok () → closed rid report (s_db e') ∧
     ∀ k i, reportItems (s_db e) !! k = Some i → of_status rid IS_erp_applied i = true →
       ∃ err, reportItems (s_db e') !! k = Some (item_with IS_applied err i)) ∧
  (steady e → decrypts decrypt → r = Ok ()).
Proof.
  intros Hnd Hrep Hrun Hstep.
  destruct (step_execute_cases to_numeric exact_numeric decrypt slug rid report true e r e' Hnd Hrep Hstep)
    as ((ps & _ & Hs & _) & _ & Hr).
  specialize (Hr eq_refl Hrun). split.
  - intros ->. destruct Hr as [[_ Hc]|(_ & x & Hx)]; [|done]. split; [done|]. intros k i Hk Hi.
    destruct (Forall2_lookup_l _ _ _ _ _ Hs Hk) as (i' & Hk' & Hst).
    pose proof (proj1 (none_iff rid IS_erp_applied _) (cl_erp _ _ _ Hc) i' (list_elem_of_lookup_2 _ _ _ Hk')) as Hno.
    destruct Hst as [->|(Hri & st & err & -> & Hlt)]; [by destruct (Hno Hi)|].
    apply of_status_true in Hi as [_ Hi]. rewrite Hi in Hlt. destruct st; try done. by exists err.
  - intros Hst Hd. destruct Hr as [[? _]|([?|?] & _)]; done.
Qed.
