(* ===== verification/OfferFlow.v ===== *)
(** An offer rule from its creation to the end of an execution: what the
    request that starts one commits, the invariant of the rule store, and
    the request and its worker put together. *)

From Stdlib Require Import Ascii String.
From S2P Require Import Prelude JsText JsNumber JsDate Enums Messages World Outbox Classification SuggestionEngine PricingDb SuggestionRules Suggestions PricingApply Erp CatalogMutation OfferRules OfferRulesLaws OfferBook OfferBookLaws OfferExecution OfferExecutionLaws.
Open Scope string_scope.
Open Scope list_scope.
Open Scope Z_scope.

Lemma filter_all {A} (P : A → Prop) `{∀ x, Decision (P x)} (l : list A) : (∀ x, x ∈ l → P x) → filter P l = l.
Proof.
  induction l as [|x l IH]; intros Hl; [done|]. rewrite filter_cons_True by (apply Hl; left).
  f_equal. apply IH. intros y Hy. apply Hl. by right.
Qed.

Lemma filter_none {A} (P : A → Prop) `{∀ x, Decision (P x)} (l : list A) : (∀ x, x ∈ l → ¬ P x) → filter P l = [].
Proof.
  induction l as [|x l IH]; intros Hl; [done|]. rewrite filter_cons_False by (apply Hl; left).
  apply IH. intros y Hy. apply Hl. by right.
Qed.

Section OfferFlow.
Context {N : Type} `{JsNum N}.
Variable to_numeric : nat → N → Numeric.
Variable exact_numeric : N → Numeric.
Variable collate_le : string → string → bool.
Variable decrypt : string → Res string.
Variable item_uuid : string → nat → string.
Implicit Types (db : OfferDb N).

(* ------------------------------------------------------------------ *)
(** * The request                                                       *)
(* ------------------------------------------------------------------ *)

Definition execution_message (now : Z) (slug reportId : string) : Message :=
  newPipelineMessage now reportId slug (step_str EXECUTE_OFFER_BOOK_RULE) None PEmpty None (Some true).

Lemma insert_chunks (l : list (list ReportItemRow)) db :
  foldl (λ db c, set_reportItems (reportItems db ++ c) db) db l = set_reportItems (reportItems db ++ concat l) db.
Proof.
  revert db. induction l as [|c l IH]; intros db.
  - destruct db as [runs outbox []]. unfold set_reportItems, set_offer_data, o_catalog, bookRules, reports, reportItems.
    simpl. by rewrite app_nil_r.
  - cbn [foldl concat]. rewrite IH.
    change (set_reportItems ((reportItems db ++ c) ++ concat l) db = set_reportItems (reportItems db ++ c ++ concat l) db).
    by rewrite <- app_assoc.
Qed.

Lemma insert_items_eq items db :
  insert_items items db = Ok ((), set_reportItems (reportItems db ++ items) db).
Proof.
  unfold insert_items, o_modify. do 2 f_equal. rewrite insert_chunks.
  by rewrite slices_concat by (unfold ITEM_INSERT_CHUNK; lia).
Qed.

(** The database after a launch. *)
Definition launched (now : Z) (slug ruleId reportId : string) (ty : ExecutionType) (rule : OfferBookRuleRow)
    (results : list (PreviewProductResult N)) db : OfferDb N :=
  stage now reportId slug [execution_message now slug reportId]
    (set_offer_data (Build_OfferData (o_catalog db)
       (alter (with_execution OB_RUNNING (Some reportId) now) ruleId (bookRules db))
       (<[reportId := new_report now ruleId rule ty results]> (reports db))
       (reportItems db ++ report_items to_numeric item_uuid reportId results)) db).

Lemma launch_inv now slug ruleId reportId ty rule db rep db' :
  launch to_numeric collate_le item_uuid now slug ruleId reportId ty rule db = Ok (rep, db') →
  rep = reportId ∧ caderno_in_force now (br_offerBookInfoId rule) (o_catalog db) = true ∧
  ∃ results, computeForRule collate_le (o_catalog db) slug rule = Ok results ∧
    db' = launched now slug ruleId reportId ty rule results db.
Proof.
  unfold launch. intros Hl. apply obind_Ok in Hl as (? & ? & [= <- <-] & Hl).
  apply obind_Ok in Hl as ([] & d1 & H1 & Hl).
  destruct (caderno_in_force _ _ _) eqn:Hcad in H1; [|done]. injection H1 as <-.
  apply obind_Ok in Hl as ([] & d2 & [= <-] & Hl).
  apply obind_Ok in Hl as (results & d3 & [Hres ->]%o_lift_Ok & Hl).
  apply obind_Ok in Hl as ([] & d4 & [= <-] & Hl).
  apply obind_Ok in Hl as ([] & d5 & Hins & Hl). rewrite insert_items_eq in Hins. injection Hins as <-.
  apply obind_Ok in Hl as ([] & d6 & [= <-] & Hl). injection Hl as <- <-.
  split_and!; [done|done|]. exists results. by split.
Qed.

(** The database after the resumption of a stale execution. *)
Definition resumed (now : Z) (slug ruleId rep : string) db : OfferDb N :=
  stage now rep slug [execution_message now slug rep]
    (set_bookRules (alter (touch_rule now) ruleId (bookRules db)) db).

Lemma resume_inv now slug ruleId locked previous db rep db' :
  resume now slug ruleId locked previous db = Ok (rep, db') →
  previous = Some rep ∧ locked rep = true ∧ db' = resumed now slug ruleId rep db.
Proof.
  unfold resume. intros Hr. destruct (truthy previous) as [p|] eqn:Hp; [|done].
  apply truthy_Some in Hp as [-> _]. destruct (locked p) eqn:Hlk; [|done].
  apply obind_Ok in Hr as ([] & d1 & [= <-] & Hr). apply obind_Ok in Hr as ([] & d2 & [= <-] & Hr).
  injection Hr as <- <-. done.
Qed.

(** What a successful request has done to the database it locked. *)
Inductive requested (locked : string → bool) (now : Z) (slug ruleId reportId : string) (ty : ExecutionType)
    (rule claim : OfferBookRuleRow) db : string → OfferDb N → Prop :=
| req_resumed rep :
    br_status claim = OB_RUNNING → br_updatedAt claim < now - EXECUTE_LOCK_MINUTES * 60000 →
    br_activeExecutionReportId claim = Some rep → locked rep = true →
    requested locked now slug ruleId reportId ty rule claim db rep (resumed now slug ruleId rep db)
| req_launched results :
    br_status claim ≠ OB_RUNNING → caderno_in_force now (br_offerBookInfoId rule) (o_catalog db) = true →
    computeForRule collate_le (o_catalog db) slug rule = Ok results →
    requested locked now slug ruleId reportId ty rule claim db reportId
      (launched now slug ruleId reportId ty rule results db).

Lemma execute_inv meanwhile locked now slug ruleId reportId ty db rep db' :
  execute to_numeric collate_le item_uuid meanwhile locked now slug ruleId reportId ty db = Ok (rep, db') →
  ∃ rule claim, bookRules db !! ruleId = Some rule ∧ br_deleted rule = false ∧
    bookRules (meanwhile db) !! ruleId = Some claim ∧ br_deleted claim = false ∧
    requested locked now slug ruleId reportId ty (reload_products claim rule) claim (meanwhile db) rep db'.
Proof.
  unfold execute. intros Hx. apply obind_Ok in Hx as (? & ? & [= <- <-] & Hx).
  destruct (bookRules db !! ruleId) as [rule|] eqn:Hrule; [|done].
  destruct (br_deleted rule) eqn:Hdel; [done|].
  apply obind_Ok in Hx as ([] & d1 & [= <-] & Hx). apply obind_Ok in Hx as (? & ? & [= <- <-] & Hx).
  destruct (bookRules (meanwhile db) !! ruleId) as [claim|] eqn:Hclaim; [|done].
  destruct (br_deleted claim) eqn:Hdel'; [done|].
  destruct (negb (rule_claimable now claim)) eqn:Hcl; [done|]. apply negb_false_iff in Hcl.
  exists rule, claim. split_and!; [done..|].
  destruct (decide (br_status claim = OB_RUNNING)) as [Hst|Hst].
  - apply resume_inv in Hx as (Hact & Hlk & ->). apply req_resumed; try done.
    unfold rule_claimable in Hcl. rewrite bool_decide_true in Hcl by done. by apply Z.ltb_lt.
  - apply launch_inv in Hx as (-> & Hcad & results & Hres & ->). by apply req_launched.
Qed.

(** A running rule that was touched less than half an hour ago is refused. *)
Lemma execute_running_conflict locked now slug ruleId reportId ty db claim :
  bookRules db !! ruleId = Some claim → br_deleted claim = false → br_status claim = OB_RUNNING →
  now - EXECUTE_LOCK_MINUTES * 60000 <= br_updatedAt claim →
  execute to_numeric collate_le item_uuid id locked now slug ruleId reportId ty db = Throw (running_conflict ruleId).
Proof.
  intros Hc Hd Hs Hf. unfold execute, o_get, o_modify, mbind, OTx_bind. cbv beta iota.
  rewrite Hc, Hd. unfold id. rewrite Hc, Hd. unfold rule_claimable. rewrite bool_decide_true by done.
  assert ((br_updatedAt claim <? now - EXECUTE_LOCK_MINUTES * 60000) = false) as -> by by apply Z.ltb_ge.
  done.
Qed.

(* ------------------------------------------------------------------ *)
(** * The invariant of the rule store                                   *)
(* ------------------------------------------------------------------ *)

(** One rule per caderno; a rule runs exactly when it has a lease, on an
    open report of its own; reports and items have their parents; item ids
    are distinct. *)
Record store_ok db : Prop := {
  so_info : ∀ id1 id2 r1 r2, bookRules db !! id1 = Some r1 → bookRules db !! id2 = Some r2 →
    br_offerBookInfoId r1 = br_offerBookInfoId r2 → id1 = id2;
  so_running : ∀ id r, bookRules db !! id = Some r →
    (br_status r = OB_RUNNING ↔ is_Some (br_activeExecutionReportId r));
  so_active : ∀ id r rep, bookRules db !! id = Some r → br_activeExecutionReportId r = Some rep →
    rep ≠ "" ∧ ∃ rp, reports db !! rep = Some rp ∧ rp_ruleId rp = id ∧ rp_outcome rp = None;
  so_reports : ∀ rep rp, reports db !! rep = Some rp → is_Some (bookRules db !! rp_ruleId rp);
  so_items : ∀ i, i ∈ reportItems db → is_Some (reports db !! it_reportId i);
  so_ids : NoDup (it_id <$> reportItems db);
}.

(** The ids a launch uses are new. *)
Record fresh_report (reportId : string) db : Prop := {
  fr_named : reportId ≠ "";
  fr_report : reports db !! reportId = None;
  fr_items : ∀ i, item_uuid reportId i ∉ it_id <$> reportItems db;
  fr_inj : Inj (=) (=) (item_uuid reportId);
}.

Lemma store_ok_catalog c db : store_ok db → store_ok (set_o_catalog c db).
Proof. by intros []. Qed.

(** Changing what a rule looks like, not its caderno or its lease. *)
Lemma store_ok_rule id (f : OfferBookRuleRow → OfferBookRuleRow) db :
  (∀ r, br_offerBookInfoId (f r) = br_offerBookInfoId r ∧ br_status (f r) = br_status r ∧
        br_activeExecutionReportId (f r) = br_activeExecutionReportId r) →
  store_ok db → store_ok (set_bookRules (alter f id (bookRules db)) db).
Proof.
  intros Hf [h1 h2 h3 h4 h5 h6].
  assert (∀ k r, alter f id (bookRules db) !! k = Some r →
    ∃ r0, bookRules db !! k = Some r0 ∧ br_offerBookInfoId r = br_offerBookInfoId r0 ∧ br_status r = br_status r0 ∧
      br_activeExecutionReportId r = br_activeExecutionReportId r0) as Hk.
  { intros k r. destruct (decide (k = id)) as [->|Hne].
    - rewrite lookup_alter_eq. destruct (bookRules db !! id) as [r0|]; [|done]. intros [= <-].
      exists r0. split; [done|]. apply Hf.
    - rewrite lookup_alter_ne by done. eauto. }
  split; simpl.
  - intros i j r1 r2 (? & ? & -> & _)%Hk (? & ? & -> & _)%Hk. eauto.
  - intros k r (r0 & Hr & _ & -> & ->)%Hk. eauto.
  - intros k r rep (r0 & Hr & _ & _ & ->)%Hk. eauto.
  - intros rep rp Hrp. change (is_Some (alter f id (bookRules db) !! rp_ruleId rp)).
    rewrite lookup_alter_is_Some. eauto.
  - done.
  - done.
Qed.

Lemma store_ok_marked ids st err db :
  store_ok db → store_ok (set_reportItems (marked ids st err (reportItems db)) db).
Proof.
  intros [h1 h2 h3 h4 h5 h6]. split; try done; simpl.
  - change (∀ i, i ∈ marked ids st err (reportItems db) → is_Some (reports db !! it_reportId i)).
    intros i (j & -> & Hj)%list_elem_of_fmap. case_decide; by apply (h5 j).
  - change (NoDup (it_id <$> marked ids st err (reportItems db))). by rewrite marked_ids.
Qed.

(** Giving a lease back with the closing of its report. *)
Lemma store_ok_closed now rid ruleId rule (g : ReportRow → ReportRow) st db :
  bookRules db !! ruleId = Some rule → owns rid rule = true →
  (∀ rp, rp_ruleId (g rp) = rp_ruleId rp) → st ≠ OB_RUNNING →
  store_ok db →
  store_ok (set_bookRules (alter (with_execution st None now) ruleId (bookRules db))
              (set_reports (alter g rid (reports db)) db)).
Proof.
  intros Hrule Hown Hg Hst [h1 h2 h3 h4 h5 h6]. apply bool_decide_eq_true in Hown as [Hs Ha].
  set (f := with_execution st None now).
  assert (∀ k r, alter f ruleId (bookRules db) !! k = Some r →
    ∃ r0, bookRules db !! k = Some r0 ∧ br_offerBookInfoId r = br_offerBookInfoId r0 ∧
      (k ≠ ruleId ∧ r = r0 ∨ k = ruleId ∧ r = f r0)) as Hk.
  { intros k r. destruct (decide (k = ruleId)) as [->|Hne].
    - rewrite lookup_alter_eq, Hrule. intros [= <-]. exists rule. auto.
    - rewrite lookup_alter_ne by done. intros Hr. exists r. auto. }
  assert (∀ k, is_Some (alter g rid (reports db) !! k) ↔ is_Some (reports db !! k)) as Hrep
    by (intros; apply lookup_alter_is_Some).
  split; simpl.
  - intros i j r1 r2 (? & ? & -> & _)%Hk (? & ? & -> & _)%Hk. eauto.
  - intros k r (r0 & Hr & _ & [[_ ->]|[-> ->]])%Hk; [eauto|]. simpl. split; [by intros ?|by intros [? ?]].
  - intros k r rep (r0 & Hr & _ & [[Hne ->]|[-> ->]])%Hk; [|done]. intros Hact.
    destruct (h3 _ _ _ Hr Hact) as (Hnz & rp & Hrp & Hid & Ho). split; [done|]. exists rp.
    split; [|done]. change (alter g rid (reports db) !! rep = Some rp).
    rewrite lookup_alter_ne; [done|]. intros <-. destruct (h3 _ _ _ Hrule Ha) as (_ & rp' & Hrp' & Hid' & _).
    simplify_eq.
  - intros rep rp Hrp. change (alter g rid (reports db) !! rep = Some rp) in Hrp.
    change (is_Some (alter f ruleId (bookRules db) !! rp_ruleId rp)). rewrite lookup_alter_is_Some.
    destruct (decide (rep = rid)) as [->|Hne].
    + rewrite lookup_alter_eq in Hrp. destruct (reports db !! rid) as [rp0|] eqn:E; [|done].
      injection Hrp as <-. rewrite Hg. eauto.
    + rewrite lookup_alter_ne in Hrp by done. eauto.
  - intros i Hi. apply Hrep. eauto.
  - done.
Qed.

Lemma info_taken_false k (rules : gmap string OfferBookRuleRow) :
  info_taken k rules = false → ∀ id r, rules !! id = Some r → br_offerBookInfoId r ≠ k.
Proof.
  unfold info_taken. intros Hf id r Hr Hk. apply not_true_iff_false in Hf. destruct Hf.
  apply existsb_exists. exists (id, r). split; [|by apply Z.eqb_eq].
  by apply list_elem_of_In, elem_of_map_to_list.
Qed.

Lemma store_ok_create meanwhile id now dto db id' db' :
  store_ok (meanwhile db) → bookRules (meanwhile db) !! id = None →
  create_bookRule to_numeric meanwhile id now dto db = Ok (id', db') → store_ok db'.
Proof.
  intros [h1 h2 h3 h4 h5 h6] Hnew (_ & index & t & eans & Hcr)%create_inv. rewrite (cr_db _ _ _ _ _ _ _ _ _ _ Hcr).
  pose proof (info_taken_false _ _ (cr_free _ _ _ _ _ _ _ _ _ _ Hcr)) as Hfree.
  set (new := new_bookRule to_numeric now dto t eans). set (d := meanwhile db) in *.
  assert (∀ k r, <[id := new]> (bookRules d) !! k = Some r → k = id ∧ r = new ∨ k ≠ id ∧ bookRules d !! k = Some r) as Hk.
  { intros k r [[-> ->]|[? ?]]%lookup_insert_Some; auto. }
  split.
  - intros i j r1 r2 [[-> ->]|[Hi Hr1]]%Hk [[-> ->]|[Hj Hr2]]%Hk Hinfo; [done| | |by eauto].
    + by destruct (Hfree _ _ Hr2).
    + by destruct (Hfree _ _ Hr1).
  - intros k r [[-> ->]|[Hi Hr]]%Hk; [|by eauto]. simpl. split; [by intros ?|by intros [? ?]].
  - intros k r rep [[-> ->]|[Hi Hr]]%Hk; [done|]. by eauto.
  - intros rep rp Hrp. change (is_Some (<[id := new]> (bookRules d) !! rp_ruleId rp)).
    rewrite lookup_insert_is_Some'. right. by eapply h4.
  - exact h5.
  - exact h6.
Qed.

Lemma remove_inv id db id' db' : remove_bookRule id db = Ok (id', db') →
  db' = delete_bookRule id db ∧ ∃ r, bookRules db !! id = Some r ∧ br_status r ≠ OB_RUNNING.
Proof.
  unfold remove_bookRule. intros Hr. apply obind_Ok in Hr as (? & ? & [= <- <-] & Hr).
  destruct (bookRules db !! id) as [r|]; [|done]. destruct (decide _) as [?|Hst]; [by destruct (br_deleted r)|].
  apply obind_Ok in Hr as ([] & d1 & [= <-] & Hr). injection Hr as <- <-. eauto.
Qed.

Lemma store_ok_delete id db : store_ok db → store_ok (delete_bookRule id db).
Proof.
  intros [h1 h2 h3 h4 h5 h6].
  set (gone := (λ ir : string * ReportRow, ir.1) <$> filter (λ '(_, rp), rp_ruleId rp = id) (map_to_list (reports db))).
  set (kept := filter (λ '(_, rp), rp_ruleId rp ≠ id) (reports db)).
  assert (∀ k r, bookRules (delete_bookRule id db) !! k = Some r → k ≠ id ∧ bookRules db !! k = Some r) as Hk
    by (intros k r; change (bookRules (delete_bookRule id db)) with (delete id (bookRules db));
        intros [? ?]%lookup_delete_Some; auto).
  split.
  - intros i j r1 r2 [_ ?]%Hk [_ ?]%Hk. eauto.
  - intros k r [_ ?]%Hk. eauto.
  - intros k r rep [Hne Hr]%Hk Ha. destruct (h3 _ _ _ Hr Ha) as (Hz & rp & Hrp & Hid & Ho).
    split; [done|]. exists rp. split; [|done]. change (kept !! rep = Some rp).
    apply map_lookup_filter_Some. by rewrite Hid.
  - intros rep rp Hrp. change (kept !! rep = Some rp) in Hrp.
    apply map_lookup_filter_Some in Hrp as [Hrp Hne].
    change (is_Some (delete id (bookRules db) !! rp_ruleId rp)). rewrite lookup_delete_ne by done. by eapply h4.
  - change (∀ i, i ∈ filter (λ i, it_reportId i ∉ gone) (reportItems db) → is_Some (kept !! it_reportId i)).
    intros i [Hg Hi]%list_elem_of_filter. destruct (h5 i Hi) as [rp Hrp]. exists rp.
    apply map_lookup_filter_Some. split; [done|]. intros Hid. destruct Hg.
    apply list_elem_of_fmap. exists (it_reportId i, rp). split; [done|]. apply list_elem_of_filter.
    split; [done|]. by apply elem_of_map_to_list.
  - change (NoDup (it_id <$> filter (λ i, it_reportId i ∉ gone) (reportItems db))).
    eapply sublist_NoDup; [exact h6|]. apply fmap_sublist, sublist_filter.
Qed.

Lemma report_items_elem rid (results : list (PreviewProductResult N)) i :
  i ∈ report_items to_numeric item_uuid rid results →
  it_reportId i = rid ∧ ∃ k, it_id i = item_uuid rid k.
Proof.
  unfold report_items. intros Hi. apply list_elem_of_lookup in Hi as [k Hk].
  rewrite list_lookup_imap in Hk. destruct (_ !! k) as [[r st]|]; [|done]. injection Hk as <-. eauto.
Qed.

Lemma report_items_ids rid (results : list (PreviewProductResult N)) :
  Inj (=) (=) (item_uuid rid) → NoDup (it_id <$> report_items to_numeric item_uuid rid results).
Proof.
  intros Hinj. unfold report_items. set (l := _ ++ _). apply NoDup_alt. intros i j x.
  rewrite !list_lookup_fmap, !list_lookup_imap.
  destruct (l !! i) as [[? ?]|], (l !! j) as [[? ?]|]; try done. simpl. intros [= <-] [= E]. by apply Hinj.
Qed.

Lemma store_ok_launched now slug ruleId reportId ty rule results claim db :
  store_ok db → fresh_report reportId db → bookRules db !! ruleId = Some claim → br_status claim ≠ OB_RUNNING →
  store_ok (launched now slug ruleId reportId ty rule results db).
Proof.
  intros [h1 h2 h3 h4 h5 h6] [Hz Hnew Hids Hinj] Hclaim Hst. set (f := with_execution OB_RUNNING (Some reportId) now).
  set (new := new_report now ruleId rule ty results). set (items := report_items to_numeric item_uuid reportId results).
  set (db' := launched _ _ _ _ _ _ _ _).
  assert (∀ k r, bookRules db' !! k = Some r →
    ∃ r0, bookRules db !! k = Some r0 ∧ br_offerBookInfoId r = br_offerBookInfoId r0 ∧
      (k ≠ ruleId ∧ r = r0 ∨ k = ruleId ∧ r = f r0)) as Hk.
  { intros k r. change (bookRules db') with (alter f ruleId (bookRules db)). destruct (decide (k = ruleId)) as [->|Hne].
    - rewrite lookup_alter_eq, Hclaim. intros [= <-]. exists claim. auto.
    - rewrite lookup_alter_ne by done. intros Hr. exists r. auto. }
  assert (∀ rep, is_Some (reports db !! rep) → is_Some (<[reportId := new]> (reports db) !! rep)) as Hrep
    by (intros; rewrite lookup_insert_is_Some'; by right).
  split.
  - intros i j r1 r2 (? & ? & -> & _)%Hk (? & ? & -> & _)%Hk. eauto.
  - intros k r (r0 & Hr & _ & [[_ ->]|[-> ->]])%Hk; [eauto|]. simpl. split; [by eexists|done].
  - intros k r rep (r0 & Hr & _ & [[Hne ->]|[-> ->]])%Hk.
    + intros Ha. destruct (h3 _ _ _ Hr Ha) as (? & rp & Hrp & ? & ?). split; [done|]. exists rp.
      split; [|done]. change (<[reportId := new]> (reports db) !! rep = Some rp).
      rewrite lookup_insert_ne; [done|]. intros <-. congruence.
    + intros [= <-]. split; [done|]. exists new. split; [|done].
      change (<[reportId := new]> (reports db) !! reportId = Some new). by rewrite lookup_insert_eq.
  - intros rep rp Hrp. change (<[reportId := new]> (reports db) !! rep = Some rp) in Hrp.
    change (is_Some (alter f ruleId (bookRules db) !! rp_ruleId rp)). rewrite lookup_alter_is_Some.
    apply lookup_insert_Some in Hrp as [[_ <-]|[_ Hrp]]; [by eexists|]. by eapply h4.
  - change (∀ i, i ∈ reportItems db ++ items → is_Some (<[reportId := new]> (reports db) !! it_reportId i)).
    intros i [Hi|Hi]%elem_of_app; [by apply Hrep, h5|]. apply report_items_elem in Hi as [-> _].
    rewrite lookup_insert_eq. by eexists.
  - change (NoDup (it_id <$> (reportItems db ++ items))). rewrite fmap_app. apply NoDup_app. split_and!; [done| |].
    + intros x Hx (i & -> & [_ [k Hki]]%report_items_elem)%list_elem_of_fmap. apply (Hids k). by rewrite <- Hki.
    + by apply report_items_ids.
Qed.

Lemma store_ok_execute meanwhile locked now slug ruleId reportId ty db rep db' :
  store_ok (meanwhile db) → fresh_report reportId (meanwhile db) →
  execute to_numeric collate_le item_uuid meanwhile locked now slug ruleId reportId ty db = Ok (rep, db') →
  store_ok db'.
Proof.
  intros Hok Hfr (rule & claim & _ & _ & Hc & _ & Hreq)%execute_inv. destruct Hreq as [rep Hst Hold Ha Hl|results Hst _ _].
  - destruct (store_ok_rule ruleId (touch_rule now) (meanwhile db)) as [h1 h2 h3 h4 h5 h6]; [by intros []|done|].
    by split.
  - by eapply store_ok_launched.
Qed.

(* ------------------------------------------------------------------ *)
(** * The worker keeps an invariant its transactions keep               *)
(* ------------------------------------------------------------------ *)

Definition m_keeps (I : OfferDb N → Prop) {A} (m : StepM A) : Prop := ∀ e r e', I (s_db e) → m e = (r, e') → I (s_db e').

Lemma short_tx_keeps (I : OfferDb N → Prop) {A} (fn : Z → OTx N A) :
  (∀ c db, I db → I (set_o_catalog c db)) →
  (∀ now db a db', I db → fn now db = Ok (a, db') → I db') → m_keeps I (short_tx fn).
Proof.
  intros Hcat Hfn e r e' Hi. unfold short_tx, next_event. destruct (s_events e) as [|ev rest].
  - destruct (fn _ _) as [[a db]|x] eqn:E; intros [= _ <-]; [|done]. by eapply Hfn.
  - set (e1 := Build_StepEnv _ _ _ _ _). assert (I (s_db e1)) as H1 by by apply Hcat.
    destruct (fn _ _) as [[a db]|x] eqn:E; [|intros [= _ <-]; done].
    destruct (ev_fate ev); intros [= _ <-]; try done; by eapply Hfn.
Qed.

Section Keeps.
Variable rid : string.
Variable report : ReportRow.
Variable I : OfferDb N → Prop.

(** What the transactions of the worker do while it owns the rule. *)
Record worker_invariant : Prop := {
  wi_catalog : ∀ c db, I db → I (set_o_catalog c db);
  wi_touch : ∀ now db, owned rid report db → I db →
    I (set_bookRules (alter (touch_rule now) (rp_ruleId report) (bookRules db)) db);
  wi_mark : ∀ ids st err db, owned rid report db → I db →
    I (set_reportItems (marked ids st err (reportItems db)) db);
  wi_close : ∀ now db db', owned rid report db → I db →
    finalizeOwned now rid report db = Ok ((), db') → I db';
}.
Hypothesis HI : worker_invariant.

(** A transaction body, run by the owner. *)
Definition tx_keeps {A} (fn : Z → OTx N A) : Prop :=
  ∀ now db a db', owned rid report db → I db → fn now db = Ok (a, db') → I db'.

Lemma m_keeps_ret {A} (a : A) : m_keeps I (mret a).
Proof. intros e r e' Hi [= _ <-]. done. Qed.

Lemma m_keeps_throw {A} x : m_keeps I (s_throw (A := A) x).
Proof. intros e r e' Hi [= _ <-]. done. Qed.

Lemma m_keeps_bind {A B} (m : StepM A) (f : A → StepM B) : m_keeps I m → (∀ a, m_keeps I (f a)) → m_keeps I (m ≫= f).
Proof.
  intros Hm Hf e r e' Hi. unfold mbind, StepM_bind. destruct (m e) as [[a|x] e1] eqn:E.
  - intros He. eapply Hf; [|exact He]. by eapply Hm.
  - intros [= _ <-]. by eapply Hm.
Qed.

Lemma m_keeps_if {A} (b : bool) (m1 m2 : StepM A) : m_keeps I m1 → m_keeps I m2 → m_keeps I (if b then m1 else m2).
Proof. by destruct b. Qed.

Lemma touch_cases now db b db1 : touchOwner now rid report db = Ok (b, db1) →
  db1 = db ∧ b = false ∨
  owned rid report db ∧ b = true ∧ db1 = set_bookRules (alter (touch_rule now) (rp_ruleId report) (bookRules db)) db.
Proof.
  unfold touchOwner, o_get, mbind, OTx_bind. cbv beta iota.
  destruct (bookRules db !! rp_ruleId report) as [rule|] eqn:Hr; [|intros [= <- <-]; auto].
  destruct (owns rid rule) eqn:Ho; [|intros [= <- <-]; auto]. intros [= <- <-]. right.
  split_and!; [by exists rule|done|done].
Qed.

Lemma owned_tx_keeps {A} (no : A) (fn : Z → OTx N A) : tx_keeps fn → m_keeps I (owned_tx rid report no fn).
Proof.
  intros Hfn. apply short_tx_keeps; [apply (wi_catalog HI)|]. intros now db a db' Hi Hx.
  apply obind_Ok in Hx as (b & db1 & Ht & Hx).
  apply touch_cases in Ht as [[-> ->]|(Ho & -> & Hdb1)]; [by injection Hx as _ <-|].
  eapply Hfn; [| |exact Hx].
  - destruct (touchOwner_owned rid report now db Ho) as (db2 & Ht2 & Hs). apply touch_cases in Ht2 as [[_ ?]|(_ & _ & E)]; [done|].
    rewrite Hdb1, <- E. by apply (sr_owned _ _ _ _ Hs).
  - rewrite Hdb1. by apply (wi_touch HI).
Qed.

Lemma mark_keeps ids st err : tx_keeps (λ _, markMany ids st err;; mret true).
Proof. intros now db a db' Ho Hi [= _ <-]. exact (wi_mark HI ids st err db Ho Hi). Qed.

Lemma mark_owned_keeps ids st err : m_keeps I (mark_owned rid report ids st err).
Proof. apply owned_tx_keeps, mark_keeps. Qed.

Lemma mirror_chunk_keeps l : m_keeps I (mirrorErpAppliedChunk to_numeric exact_numeric rid report l).
Proof.
  apply m_keeps_bind; [|intros; apply m_keeps_ret]. apply owned_tx_keeps. intros now db a db' Ho Hi.
  unfold mbind, OTx_bind, mirror, o_modify. set (c := foldl _ _ _). intros Hx.
  exact (mark_keeps _ _ _ now (set_o_catalog c db) a db' Ho (wi_catalog HI c db Hi) Hx).
Qed.

Lemma chunk_of_keeps st : m_keeps I (chunk_of rid report st).
Proof. apply owned_tx_keeps. by intros now db a db' _ Hi [= _ <-]. Qed.

Lemma finish_keeps fuel : m_keeps I (finishErpApplied to_numeric exact_numeric fuel rid report).
Proof.
  induction fuel as [|f IH]; cbn [finishErpApplied]; [apply m_keeps_throw|].
  apply m_keeps_bind; [apply chunk_of_keeps|]. intros [[|i l]|]; [apply m_keeps_ret| |apply m_keeps_ret].
  apply m_keeps_bind; [apply mirror_chunk_keeps|done].
Qed.

Lemma fail_pending_keeps error : tx_keeps (λ now, fail_pending now rid report error).
Proof.
  intros now db a db' Ho Hi Hx. unfold fail_pending in Hx.
  apply obind_Ok in Hx as (ids & ? & [= <- <-] & Hx). apply obind_Ok in Hx as ([] & ? & [= <-] & Hx).
  destruct a. refine (wi_close HI now _ _ _ _ Hx); [exact Ho|]. by apply (wi_mark HI).
Qed.

Lemma ensure_keeps : m_keeps I (ensureCampaignAllowsPending rid report).
Proof.
  apply owned_tx_keeps. intros now db a db' Ho Hi Hx. apply obind_Ok in Hx as (? & ? & [= <- <-] & Hx).
  destruct (caderno_in_force _ _ _); [by injection Hx as _ <-|].
  apply obind_Ok in Hx as ([] & db1 & Hf & Hx). injection Hx as _ <-. by eapply fail_pending_keeps.
Qed.

Lemma push_chunk_keeps creds l : m_keeps I (push_chunk to_numeric exact_numeric creds rid report l).
Proof.
  intros e r e' Hi. unfold push_chunk. destruct (offer_post _ e) as [rp e1] eqn:Hp.
  assert (I (s_db e1)) as H1 by (apply offer_post_cases in Hp as (-> & _); done).
  destruct rp as [[]|x]; apply m_keeps_bind; try done; try apply mark_owned_keeps;
    intros []; try apply m_keeps_ret. apply m_keeps_bind; [apply mirror_chunk_keeps|intros; apply m_keeps_ret].
Qed.

Lemma push_round_keeps creds : m_keeps I (push_round to_numeric exact_numeric creds rid report).
Proof.
  apply m_keeps_bind; [apply ensure_keeps|]. intros []; [|apply m_keeps_ret]. cbn [negb].
  apply m_keeps_bind; [apply chunk_of_keeps|]. intros [[|i l]|]; [apply m_keeps_ret| |apply m_keeps_ret].
  apply m_keeps_bind.
  - destruct (filter _ _); [apply m_keeps_ret|apply mark_owned_keeps].
  - intros []; [|apply m_keeps_ret]. cbn [negb]. destruct (filter _ _); [apply m_keeps_ret|apply push_chunk_keeps].
Qed.

Lemma push_loop_keeps fuel creds : m_keeps I (push_loop to_numeric exact_numeric fuel creds rid report).
Proof.
  induction fuel as [|f IH]; cbn [push_loop]; [apply m_keeps_throw|].
  apply m_keeps_bind; [apply push_round_keeps|]. intros []; [done|apply m_keeps_ret..].
Qed.

Lemma run_owned_keeps fuel slug : m_keeps I (run_owned to_numeric exact_numeric decrypt fuel slug rid report).
Proof.
  apply m_keeps_bind; [apply finish_keeps|]. intros []; [|apply m_keeps_ret]. cbn [negb].
  apply m_keeps_bind; [apply ensure_keeps|]. intros []; [|apply m_keeps_ret]. cbn [negb].
  apply m_keeps_bind; [by intros e r e' Hi [= _ <-]|]. intros [creds|]; [|apply owned_tx_keeps, fail_pending_keeps].
  apply m_keeps_bind; [apply push_loop_keeps|]. intros []; [|apply m_keeps_ret]. cbn [negb].
  apply owned_tx_keeps. intros now db [] db' Ho Hi Hx. by eapply (wi_close HI).
Qed.

End Keeps.

Lemma step_execute_keeps (I : OfferDb N → Prop) locked slug rid e r e' :
  (∀ c db, I db → I (set_o_catalog c db)) →
  (∀ report, reports (s_db e) !! rid = Some report → worker_invariant rid report I) →
  I (s_db e) → step_execute to_numeric exact_numeric decrypt locked slug rid e = (r, e') → I (s_db e').
Proof.
  intros Hcat HI Hi. unfold step_execute. destruct locked; cbn [negb]; [|intros [= _ <-]; done].
  unfold mbind, StepM_bind. destruct (short_tx _ e) as [r1 e1] eqn:H1.
  assert (I (s_db e1)) as Hi1.
  { refine (short_tx_keeps I _ Hcat _ _ _ _ Hi H1). intros now db a db' Hd [= _ <-]. done. }
  destruct (find_cases _ _ _ _ H1) as (_ & _ & _ & _ & _ & [(_ & x & ->)|[(report & -> & Hrep & _)|[-> _]]]).
  - intros [= _ <-]. done.
  - intros Hx. by eapply run_owned_keeps; [apply HI|apply Hi1|].
  - intros [= _ <-]. done.
Qed.

(** ** The store invariant, and "running or closed" *)

Lemma finalize_inv now rid report db db' :
  finalizeOwned now rid report db = Ok ((), db') →
  owned rid report db ∧ none_of rid IS_pending (reportItems db) ∧ none_of rid IS_erp_applied (reportItems db) ∧
  ∃ g st rule, bookRules db !! rp_ruleId report = Some rule ∧ owns rid rule = true ∧
    (∀ rp, rp_ruleId (g rp) = rp_ruleId rp) ∧ st ≠ OB_RUNNING ∧
    db' = set_bookRules (alter (with_execution st None now) (rp_ruleId report) (bookRules db))
            (set_reports (alter g rid (reports db)) db).
Proof.
  unfold finalizeOwned, o_get, mbind, OTx_bind. cbv beta iota.
  destruct (_ || _) eqn:Hopen; [done|]. apply orb_false_iff in Hopen as [Hp%Z.ltb_ge He%Z.ltb_ge].
  unfold o_modify. cbv beta iota. destruct (bookRules db !! rp_ruleId report) as [rule|] eqn:Hr; [|done].
  destruct (owns rid rule) eqn:Ho; [|done]. intros [= <-]. unfold count_status, items_of in Hp, He.
  split_and!; [by exists rule|apply nil_length_inv; lia|apply nil_length_inv; lia|].
  eexists _, _, rule. split_and!; [done|done| | |reflexivity]; [done|].
  unfold rule_status_of. by repeat case_match.
Qed.

Lemma owned_report rid report db : store_ok db → owned rid report db → is_Some (reports db !! rid).
Proof.
  intros Hok (rule & Hr & [_ Ha]%bool_decide_eq_true). destruct (so_active _ Hok _ _ _ Hr Ha) as (_ & rp & ? & _). eauto.
Qed.

Lemma store_ok_worker rid report : worker_invariant rid report store_ok.
Proof.
  split.
  - apply store_ok_catalog.
  - intros now db _. by apply store_ok_rule.
  - intros ids st err db _. apply store_ok_marked.
  - intros now db db' _ Hok (_ & _ & _ & g & st & rule & Hr & Ho & Hg & Hst & ->)%finalize_inv.
    by eapply store_ok_closed.
Qed.

(** The store is sound, and the report is under way or closed. *)
Definition served (rid : string) (report : ReportRow) db : Prop :=
  store_ok db ∧ (∃ rp, reports db !! rid = Some rp ∧ rp_ruleId rp = rp_ruleId report) ∧
  (running rid report db ∨ closed rid report db).

Lemma served_owned rid report db : served rid report db → owned rid report db → running rid report db.
Proof.
  intros (_ & _ & [?|[_ _ _ (rule & Hr & _ & Hn)]]) (rule' & Hr' & [_ Ha]%bool_decide_eq_true); [done|]. congruence.
Qed.

Lemma closed_catalog rid report c db : closed rid report db → closed rid report (set_o_catalog c db).
Proof. by intros []. Qed.

Lemma served_worker rid report : worker_invariant rid report (served rid report).
Proof.
  split.
  - intros c db (Hok & Hrp & Hr). split_and!; [by apply store_ok_catalog|done|].
    destruct Hr; [by left|right]. by apply closed_catalog.
  - intros now db Ho Hs. pose proof (served_owned _ _ _ Hs Ho) as (rule & Hr & Hown & Hdel).
    split_and!; [by apply (wi_touch _ _ _ (store_ok_worker rid report)), Hs|apply Hs|]. left. exists (touch_rule now rule).
    split; [|done].
    change (alter (touch_rule now) (rp_ruleId report) (bookRules db) !! rp_ruleId report = Some (touch_rule now rule)).
    by rewrite lookup_alter_eq, Hr.
  - intros ids st err db Ho Hs. pose proof (served_owned _ _ _ Hs Ho) as Hrun.
    split_and!; [by apply store_ok_marked, Hs|apply Hs|by left].
  - intros now db db' Ho (Hok & (rp & Hrp & Hid) & Hs) Hf.
    pose proof (finalize_inv _ _ _ _ _ Hf) as (_ & Hp & He & g & st & _ & _ & _ & Hg & _ & Hdb').
    split_and!; [by eapply (wi_close _ _ _ (store_ok_worker rid report))| |right].
    + exists (g rp). rewrite Hg. split; [|done]. rewrite Hdb'.
      change (alter g rid (reports db) !! rid = Some (g rp)). by rewrite lookup_alter_eq, Hrp.
    + destruct (finalize_closes rid report now db Ho (owned_report _ _ _ Hok Ho) Hp He) as (db2 & Hf2 & Hc & _).
      congruence.
Qed.

Lemma worker_same_rule rid report report' I :
  rp_ruleId report' = rp_ruleId report → worker_invariant rid report I → worker_invariant rid report' I.
Proof. intros E [h1 h2 h3 h4]. split; unfold owned, finalizeOwned in *; rewrite ?E; done. Qed.

Lemma deliver_served slug rid report d e r e' :
  served rid report (s_db e) → deliver to_numeric exact_numeric decrypt slug rid d e = (r, e') →
  served rid report (s_db e').
Proof.
  intros Hs Hd. eapply (step_execute_keeps (served rid report)); [..|exact Hd]; [apply (served_worker rid report)| |exact Hs].
  intros report' Hrep. apply (worker_same_rule rid report); [|apply served_worker].
  destruct Hs as (_ & (rp & Hrp & Hid) & _). change (reports (s_db e) !! rid = Some report') in Hrep. congruence.
Qed.

Lemma deliveries_served slug rid report ds e n e' :
  served rid report (s_db e) → deliveries to_numeric exact_numeric decrypt slug rid ds e = (n, e') →
  served rid report (s_db e').
Proof.
  revert e n e'. induction ds as [|d ds IH]; intros e n e' Hs; cbn [deliveries]; [by intros [= _ <-]|].
  destruct (deliver _ _ _ _ _ d e) as [r e1] eqn:Hd. destruct (deliveries _ _ _ _ _ ds e1) as [m e2] eqn:Hds.
  intros [= _ <-]. eapply IH; [|exact Hds]. by eapply deliver_served.
Qed.

(** A delivery that has the lock and no fault leaves the report closed. *)
Lemma served_closes slug rid report e r e' :
  served rid report (s_db e) → steady e → decrypts decrypt →
  step_execute to_numeric exact_numeric decrypt true slug rid e = (r, e') →
  r = Ok () ∧ closed rid report (s_db e').
Proof.
  intros (Hok & (rp & Hrp & Hid) & Hs) Hst Hd Hx.
  assert (∀ db, running rid rp db ↔ running rid report db) as Hrun by (intros db; unfold running; by rewrite Hid).
  assert (∀ db, closed rid rp db → closed rid report db) as Hclo
    by (intros db []; split; [done|done|done|by rewrite <- Hid]).
  destruct (step_execute_cases _ _ _ _ _ _ _ _ _ _ (so_ids _ Hok) Hrp Hx) as (_ & _ & Hr).
  destruct Hs as [Hrunning|Hclosed].
  - destruct (Hr eq_refl (proj2 (Hrun _) Hrunning)) as [[-> Hc]|([?|?] & _)]; [|done|done]. auto.
  - assert (¬ running rid rp (s_db e)) as Hnot.
    { intros (rule & Hr1 & [_ Ha]%bool_decide_eq_true & _). destruct Hclosed as [_ _ _ (rule' & Hr2 & _ & Hn)].
      rewrite Hid in Hr1. congruence. }
    clear Hr. unfold step_execute in Hx. cbn [negb] in Hx. unfold mbind, StepM_bind in Hx.
    destruct (short_tx _ e) as [r1 e1] eqn:H1.
    destruct (find_cases _ _ _ _ H1) as (_ & _ & Hrules & Hreps & Hit & [(? & _)|[(rp' & _ & Hrp' & Hrun')|[-> _]]]); [done| |].
    + rewrite Hrp in Hrp'. by injection Hrp' as <-.
    + injection Hx as <- <-. split; [done|]. destruct Hclosed as [h1 h2 h3 h4].
      split; rewrite ?Hrules, ?Hreps, ?Hit; done.
Qed.

(** A request starts, or restarts, the service of its report. *)
Lemma execute_served meanwhile locked now slug ruleId reportId ty db rep db' :
  store_ok (meanwhile db) → fresh_report reportId (meanwhile db) →
  execute to_numeric collate_le item_uuid meanwhile locked now slug ruleId reportId ty db = Ok (rep, db') →
  ∃ report, reports db' !! rep = Some report ∧ rp_ruleId report = ruleId ∧ rp_outcome report = None ∧
    running rep report db' ∧ served rep report db'.
Proof.
  intros Hok Hfr Hx. pose proof (store_ok_execute _ _ _ _ _ _ _ _ _ _ Hok Hfr Hx) as Hok'.
  destruct (execute_inv _ _ _ _ _ _ _ _ _ _ Hx) as (rule & claim & _ & _ & Hc & Hdel & Hreq).
  assert (∃ rule', bookRules db' !! ruleId = Some rule' ∧ owns rep rule' = true ∧ br_deleted rule' = false)
    as (rule' & Hr' & Hown & Hdel').
  { destruct Hreq as [rep Hst _ Ha _|results Hst _ _].
    - exists (touch_rule now claim). split_and!; [|by apply bool_decide_eq_true|done].
      change (alter (touch_rule now) ruleId (bookRules (meanwhile db)) !! ruleId = Some (touch_rule now claim)).
      by rewrite lookup_alter_eq, Hc.
    - exists (with_execution OB_RUNNING (Some reportId) now claim). split_and!; [|by apply bool_decide_eq_true|done].
      change (alter (with_execution OB_RUNNING (Some reportId) now) ruleId (bookRules (meanwhile db)) !! ruleId
              = Some (with_execution OB_RUNNING (Some reportId) now claim)).
      by rewrite lookup_alter_eq, Hc. }
  pose proof Hown as [_ Ha]%bool_decide_eq_true.
  destruct (so_active _ Hok' _ _ _ Hr' Ha) as (_ & report & Hrep & Hid & Ho).
  assert (running rep report db') as Hrun by (exists rule'; by rewrite Hid).
  exists report. split_and!; [done..|]. split_and!; [done|by eexists|by left].
Qed.

(** ** What a launch freezes *)

(** An item of a report, and a calculated price, as a line of the report. *)
Definition item_line (i : ReportItemRow) : Z * option string * Numeric * ItemApplyStatus :=
  (it_ean i, it_externalId i, it_finalPrice i, it_applyStatus i).
Definition result_line (r : PreviewProductResult N) : Z * option string * Numeric * ItemApplyStatus :=
  (digits_val (pv_ean r), pv_externalId r, to_numeric 2 (pv_finalPrice r), if shouldPush r then IS_pending else IS_skipped).

Lemma item_lines_imap rid (f : nat → nat) (l : list (PreviewProductResult N * ItemApplyStatus)) :
  item_line <$> imap (λ i '(r, st), toItem to_numeric item_uuid rid (f i) r st) l
  = (λ '(r, st), (digits_val (pv_ean r), pv_externalId r, to_numeric 2 (pv_finalPrice r), st)) <$> l.
Proof.
  revert f. induction l as [|[r st] l IH]; intros f; [done|].
  rewrite imap_cons, !fmap_cons. f_equal. exact (IH (f ∘ S)).
Qed.

Lemma report_lines rid (results : list (PreviewProductResult N)) :
  item_line <$> report_items to_numeric item_uuid rid results ≡ₚ result_line <$> results.
Proof.
  unfold report_items. rewrite (item_lines_imap rid (λ i, i)), fmap_app, <- !list_fmap_compose.
  assert (∀ b st, (if b : bool then IS_pending else IS_skipped) = st →
    (λ '(r, st), (digits_val (pv_ean r), pv_externalId r, to_numeric 2 (pv_finalPrice r), st)) ∘ (λ r, (r, st))
      <$> filter (λ r, shouldPush r = b) results = result_line <$> filter (λ r, shouldPush r = b) results) as Hline.
  { intros b st <-. apply list_fmap_ext. intros k r Hk%list_elem_of_lookup_2.
    apply list_elem_of_filter in Hk as [Hs _]. unfold result_line, compose. by rewrite Hs. }
  rewrite (Hline true IS_pending), (Hline false IS_skipped), <- fmap_app by done. apply fmap_Permutation. clear Hline.
  induction results as [|r l IH]; [done|].
  rewrite !filter_cons. destruct (shouldPush r); simpl; [by rewrite IH|]. by rewrite <- Permutation_middle, IH.
Qed.

Lemma launched_items now slug ruleId reportId ty rule results db :
  store_ok db → fresh_report reportId db →
  filter (λ i, it_reportId i = reportId) (reportItems (launched now slug ruleId reportId ty rule results db))
  = report_items to_numeric item_uuid reportId results.
Proof.
  intros Hok Hfr. set (new := report_items _ _ _ _).
  change (filter (λ i, it_reportId i = reportId) (reportItems db ++ new) = new). rewrite filter_app.
  rewrite filter_none, filter_all; [done| |].
  - by intros i [? _]%report_items_elem.
  - intros i [rp Hrp]%(so_items _ Hok) Hi. by rewrite Hi, (fr_report _ _ Hfr) in Hrp.
Qed.

(** A stale execution is resumed when its lock is free. *)
Lemma stale_resumes meanwhile locked now slug ruleId reportId ty db rule claim rep :
  store_ok (meanwhile db) → bookRules db !! ruleId = Some rule → br_deleted rule = false →
  bookRules (meanwhile db) !! ruleId = Some claim → br_deleted claim = false →
  br_activeExecutionReportId claim = Some rep → locked rep = true →
  br_updatedAt claim < now - EXECUTE_LOCK_MINUTES * 60000 →
  execute to_numeric collate_le item_uuid meanwhile locked now slug ruleId reportId ty db
  = Ok (rep, resumed now slug ruleId rep (meanwhile db)).
Proof.
  intros Hok Hr Hd Hc Hd' Ha Hl Hold.
  assert (br_status claim = OB_RUNNING) as Hst by (apply (so_running _ Hok _ _ Hc); eauto).
  destruct (so_active _ Hok _ _ _ Hc Ha) as [Hz _].
  unfold execute, o_get, o_modify, mbind, OTx_bind. cbv beta iota.
  rewrite Hr, Hd. cbv beta iota. rewrite Hc, Hd'. unfold rule_claimable. rewrite bool_decide_true by done.
  apply Z.ltb_lt in Hold. rewrite Hold. cbn [negb orb]. rewrite decide_True by done.
  unfold resume. rewrite Ha. assert (truthy (Some rep) = Some rep) as -> by (by destruct rep). by rewrite Hl.
Qed.

(** ** Runs of the module *)

(** The requests and deliveries of a tenant, one after the other; between
    the two reads of a creation or an execution others may run. *)
Inductive offer_run : OfferDb N → OfferDb N → Prop :=
| or_refl db : offer_run db db
| or_catalog db0 db c : offer_run db0 db → offer_run db0 (set_o_catalog c db)
| or_create db0 db meanwhile id now dto id' db' :
    offer_run db0 db → offer_run db (meanwhile db) → bookRules (meanwhile db) !! id = None →
    create_bookRule to_numeric meanwhile id now dto db = Ok (id', db') → offer_run db0 db'
| or_remove db0 db id id' db' :
    offer_run db0 db → remove_bookRule id db = Ok (id', db') → offer_run db0 db'
| or_execute db0 db meanwhile locked now slug ruleId reportId ty rep db' :
    offer_run db0 db → offer_run db (meanwhile db) → fresh_report reportId (meanwhile db) →
    execute to_numeric collate_le item_uuid meanwhile locked now slug ruleId reportId ty db = Ok (rep, db') →
    offer_run db0 db'
| or_deliver db0 e locked slug rid r e' :
    offer_run db0 (s_db e) →
    step_execute to_numeric exact_numeric decrypt locked slug rid e = (r, e') → offer_run db0 (s_db e').

Lemma store_ok_empty c : store_ok (Build_Db ∅ [] (Build_OfferData c ∅ ∅ [])).
Proof.
  set (db := Build_Db _ _ _).
  assert (∀ id, bookRules db !! id = None) as Hr by (intros; apply lookup_empty).
  assert (∀ id, reports db !! id = None) as Hp by (intros; apply lookup_empty).
  split.
  - intros ? ? ? ? Hx. by rewrite Hr in Hx.
  - intros ? ? Hx. by rewrite Hr in Hx.
  - intros ? ? ? Hx. by rewrite Hr in Hx.
  - intros ? ? Hx. by rewrite Hp in Hx.
  - by intros i ?%elem_of_nil.
  - constructor.
Qed.

Lemma store_ok_run db0 db : offer_run db0 db → store_ok db0 → store_ok db.
Proof.
  induction 1 as [|db0 db c _ IH|db0 db mw id now dto id' db' _ IH _ IHm Hnew Hc|db0 db id id' db' _ IH Hr|
                  db0 db mw lk now slug ruleId reportId ty rep db' _ IH _ IHm Hfr Hx|db0 e lk slug rid r e' _ IH Hs];
    intros H0; specialize (IH H0) || idtac.
  - done.
  - by apply store_ok_catalog.
  - by eapply store_ok_create; [apply IHm, IH| |].
  - apply remove_inv in Hr as [-> _]. by apply store_ok_delete.
  - by eapply store_ok_execute; [apply IHm, IH| |].
  - eapply (step_execute_keeps store_ok); [apply store_ok_catalog| |exact IH|exact Hs].
    intros report _. apply store_ok_worker.
Qed.

End OfferFlow.

(** [C19] The rule store is sound in every run: from an empty one, whatever
    rules are created, removed and executed and whatever their deliveries
    meet (faults and crashes included), there is at most one rule per
    caderno, a rule is RUNNING exactly when it has a lease, which names an
    open report of its own, every report has its rule and every item its
    report, item ids are distinct; and a rule that is RUNNING is not
    removed. *)
Theorem offer_store_invariant {N} `{JsNum N} (to_numeric : nat → N → Numeric) exact_numeric collate_le decrypt item_uuid
    c (db : OfferDb N) :
  offer_run to_numeric exact_numeric collate_le decrypt item_uuid (Build_Db ∅ [] (Build_OfferData c ∅ ∅ [])) db →
  store_ok db ∧
  ∀ id r, bookRules db !! id = Some r → br_status r = OB_RUNNING → isOk (remove_bookRule id db) = false.
Proof.
  intros Hrun. split.
  - eapply store_ok_run; [exact Hrun|apply store_ok_empty].
  - intros id r Hr Hst. destruct (remove_bookRule id db) as [[id' db']|] eqn:E; [|done].
    apply remove_inv in E as (_ & r' & Hr' & Hne). congruence.
Qed.

(** [C22] What an accepted request commits.  The rule is RUNNING with the
    returned report as its lease, the report is open, one message for its
    worker is staged, and no other request for the rule is accepted within
    the half hour.  Either it resumed the report of a stale execution,
    leaving all reports and items as they were, or the report is new and its
    items are the products of the rule, one each, with the prices computed
    for them: pending the ones to push, skipped the others.  And a stale
    execution whose lock is free is always resumed. *)
Theorem offer_execute_request {N} `{JsNum N} (to_numeric : nat → N → Numeric) collate_le item_uuid
    meanwhile locked now slug ruleId reportId ty (db : OfferDb N) :
  store_ok (meanwhile db) → fresh_report item_uuid reportId (meanwhile db) →
  (∀ rep db', execute to_numeric collate_le item_uuid meanwhile locked now slug ruleId reportId ty db = Ok (rep, db') →
     (∃ report, reports db' !! rep = Some report ∧ rp_ruleId report = ruleId ∧ rp_outcome report = None ∧
        running rep report db') ∧
     db_outbox db' = stage_rows now rep slug [execution_message now slug rep] (db_outbox (meanwhile db)) ∧
     (∀ locked' now' reportId' ty', now' <= now + EXECUTE_LOCK_MINUTES * 60000 →
        execute to_numeric collate_le item_uuid id locked' now' slug ruleId reportId' ty' db'
        = Throw (running_conflict ruleId)) ∧
     (reports db' = reports (meanwhile db) ∧ reportItems db' = reportItems (meanwhile db) ∨
      rep = reportId ∧ ∃ rule claim results, bookRules db !! ruleId = Some rule ∧
        bookRules (meanwhile db) !! ruleId = Some claim ∧
        computeForRule collate_le (o_catalog (meanwhile db)) slug (reload_products claim rule) = Ok results ∧
        item_line <$> filter (λ i, it_reportId i = rep) (reportItems db') ≡ₚ result_line to_numeric <$> results)) ∧
  (∀ rule claim rep, bookRules db !! ruleId = Some rule → br_deleted rule = false →
     bookRules (meanwhile db) !! ruleId = Some claim → br_deleted claim = false →
     br_activeExecutionReportId claim = Some rep → locked rep = true →
     br_updatedAt claim < now - EXECUTE_LOCK_MINUTES * 60000 →
     ∃ db', execute to_numeric collate_le item_uuid meanwhile locked now slug ruleId reportId ty db = Ok (rep, db')).
Proof.
  intros Hok Hfr. split.
  2: { intros. eexists. by eapply stale_resumes. }
  intros rep db' Hx.
  destruct (execute_served _ _ _ _ _ _ _ _ _ _ _ _ _ Hok Hfr Hx) as (report & Hrep & Hid & Ho & Hrun & _).
  destruct (execute_inv _ _ _ _ _ _ _ _ _ _ _ _ _ Hx) as (rule & claim & Hrule & _ & Hc & _ & Hreq).
  assert (∃ r, bookRules db' !! ruleId = Some r ∧ br_updatedAt r = now) as (r & Hr & Hnow).
  { destruct Hreq as [rep Hst _ Ha _|results Hst _ _].
    - exists (touch_rule now claim). split; [|done].
      change (alter (touch_rule now) ruleId (bookRules (meanwhile db)) !! ruleId = Some (touch_rule now claim)).
      by rewrite lookup_alter_eq, Hc.
    - exists (with_execution OB_RUNNING (Some reportId) now claim). split; [|done].
      change (alter (with_execution OB_RUNNING (Some reportId) now) ruleId (bookRules (meanwhile db)) !! ruleId
              = Some (with_execution OB_RUNNING (Some reportId) now claim)).
      by rewrite lookup_alter_eq, Hc. }
  split_and!.
  - by exists report.
  - by destruct Hreq.
  - intros locked' now' reportId' ty' Hle. destruct Hrun as (r' & Hr' & [Hst _]%bool_decide_eq_true & Hdel).
    rewrite Hid in Hr'. assert (r' = r) as -> by congruence.
    apply (execute_running_conflict _ _ _ _ _ _ _ _ _ _ r); try done. lia.
  - destruct Hreq as [rep|results _ _ Hres]; [by left|right]. split; [done|]. exists rule, claim, results.
    split_and!; [done|done|done|]. rewrite launched_items by done. apply report_lines.
Qed.

(** [C20] Every accepted execution completes.  After a request was accepted
    and however many deliveries of its message have failed, were refused by
    the lock or stopped half way, one delivery that has the lock and whose
    transactions commit ends without error, whatever the ERP answers and the
    campaign has become: the report has its outcome, none of its items is
    left pending or accepted without mirror, and its rule is no longer
    RUNNING, so that it can be executed, changed or removed again. *)
Theorem offer_execution_completes {N} `{JsNum N} (to_numeric : nat → N → Numeric) exact_numeric collate_le decrypt
    item_uuid meanwhile locked now slug ruleId reportId ty (db : OfferDb N) rep db' ds e n e1 e2 r e3 :
  store_ok (meanwhile db) → fresh_report item_uuid reportId (meanwhile db) → decrypts decrypt →
  execute to_numeric collate_le item_uuid meanwhile locked now slug ruleId reportId ty db = Ok (rep, db') →
  s_db e = db' → deliveries to_numeric exact_numeric decrypt slug rep ds e = (n, e1) →
  s_db e2 = s_db e1 → steady e2 → step_execute to_numeric exact_numeric decrypt true slug rep e2 = (r, e3) →
  r = Ok () ∧ store_ok (s_db e3) ∧
  (∃ report, reports (s_db e3) !! rep = Some report ∧ rp_ruleId report = ruleId ∧ is_Some (rp_outcome report)) ∧
  (∃ rule, bookRules (s_db e3) !! ruleId = Some rule ∧ br_status rule ≠ OB_RUNNING ∧
     br_activeExecutionReportId rule = None) ∧
  ∀ i, i ∈ reportItems (s_db e3) → it_reportId i = rep →
    it_applyStatus i ≠ IS_pending ∧ it_applyStatus i ≠ IS_erp_applied.
Proof.
  intros Hok Hfr Hd Hx He Hds He2 Hst Hstep.
  destruct (execute_served _ _ _ _ _ _ _ _ _ _ _ _ _ Hok Hfr Hx) as (report & _ & Hid & _ & _ & Hs).
  rewrite <- He in Hs. pose proof (deliveries_served _ _ _ _ _ _ _ _ _ _ Hs Hds) as Hs1. rewrite <- He2 in Hs1.
  destruct (served_closes _ _ _ _ _ _ _ _ _ Hs1 Hst Hd Hstep) as [-> Hc].
  assert (served rep report (s_db e3)) as (Hok3 & (rp & Hrp & Hrpid) & _).
  { apply (deliver_served to_numeric exact_numeric decrypt slug rep report
             {| dl_locked := true; dl_fates := s_fates e2; dl_events := s_events e2; dl_now := s_now e2 |} e2 (Ok ())); [done|].
    unfold deliver. simpl. by destruct e2. }
  destruct Hc as [Hp Herp (rp' & Hrp' & _ & _ & _ & Hout) (rule & Hrule & Hstatus & Hlease)].
  split_and!; [done|done| | |].
  - exists rp. rewrite Hrp in Hrp'. injection Hrp' as <-. rewrite Hrpid, Hid, Hout. by eauto.
  - exists rule. rewrite <- Hid. split_and!; [done| |done]. rewrite Hstatus. unfold rule_status_of. by repeat case_match.
  - intros i Hi Hri. rewrite none_iff in Hp, Herp.
    split; intros Hsi; [apply (Hp i Hi)|apply (Herp i Hi)]; by apply of_status_true.
Qed.

(* ------------------------------------------------------------------ *)
(** * The small tenant, executed                                        *)
(* ------------------------------------------------------------------ *)

Definition of_uuid (rid : string) (i : nat) : string := rid +:+ pretty i.

Lemma of_uuid_inj rid : Inj (=) (=) (of_uuid rid).
Proof. intros i j E. unfold of_uuid in E. apply (inj (String.app rid)) in E. by apply (inj pretty) in E. Qed.

Section FlowFixtures.
Context {N : Type} `{JsNum N}.

Definition flow_execute (db : OfferDb N) : Res (string * OfferDb N) :=
  execute ob_numeric str_le of_uuid id (λ _, true) 1000 "t" "r1" "rep1" EX_MANUAL db.
Definition flow_created : OfferDb N := match ob_created None with Ok (_, db) => db | Throw _ => ob_db end.
Definition flow_db : OfferDb N := match flow_execute flow_created with Ok (_, db) => db | Throw _ => ob_db end.
Definition flow_env (fates : list ErpFate) (events : list TxEvent) : StepEnv (N := N) := Build_StepEnv flow_db [] fates events 2000.
Definition plain_key (k : string) : Res string := Ok k.
Definition flow_delivery (fates : list ErpFate) (events : list TxEvent) : Delivery (N := N) :=
  {| dl_locked := true; dl_fates := fates; dl_events := events; dl_now := 3000 |}.
(** The answer of the checkpoint transaction is lost. *)
Definition flow_faults : list (TxEvent (N := N)) :=
  (λ fate, {| ev_fate := fate; ev_now := 2000; ev_catalog := id |})
    <$> [TxCommit; TxCommit; TxCommit; TxCommit; TxCommit; TxAbort].

End FlowFixtures.

(** Both products of the rule are pushed in one POST. *)
Example flow_pushes :
  let e := (deliveries ob_numeric (ob_numeric 2) plain_key "t" "rep1" [flow_delivery [ErpDone] []]
              (flow_env [] [] : StepEnv (N := F64))).2 in
  posted (s_posts e) = ["rep11"; "rep10"] ∧ op_items <$> s_posts e = [[(n_int 77, n_int 9); (n_int 77, n_dec 225 1 : F64)]] ∧
  it_applyStatus <$> reportItems (s_db e) = [IS_applied; IS_applied].
Proof. vm_compute. split_and!; reflexivity. Qed.

(** A checkpoint that is rolled back makes the next delivery push again. *)
Definition flow_retry : list (Delivery (N := F64)) := [flow_delivery [ErpDone] flow_faults; flow_delivery [ErpDone] []].

Example flow_pushes_again :
  let '(raised, e) := deliveries ob_numeric (ob_numeric 2) plain_key "t" "rep1" flow_retry (flow_env [] []) in
  raised = 1%nat ∧ occurrences "rep10" (posted (s_posts e)) = 2%nat.
Proof. vm_compute. split; reflexivity. Qed.

Lemma flow_ids : NoDup (it_id <$> reportItems (flow_db (N := F64))).
Proof. apply (bool_decide_unpack _). vm_compute. exact Logic.I. Qed.

Lemma offer_pushed_once_witness :
  ∃ e' ps, (deliveries ob_numeric (ob_numeric 2) plain_key "t" "rep1" flow_retry (flow_env [] [])) = (1%nat, e') ∧
    s_posts e' = ps ∧ (occurrences "rep10" (posted ps) ≤ 2)%nat.
Proof.
  destruct (deliveries ob_numeric (ob_numeric 2) plain_key "t" "rep1" flow_retry (flow_env [] [])) as [raised e'] eqn:Hd.
  assert (raised = 1%nat) as ->.
  { change raised with (raised, e').1. rewrite <- Hd. vm_compute. reflexivity. }
  destruct (offer_pushed_once ob_numeric (ob_numeric 2) plain_key "t" "rep1" flow_retry (flow_env [] []) e' 1 flow_ids Hd)
    as (ps & Hp & _ & Hocc & _).
  exists e', ps. split_and!; [reflexivity|exact Hp|exact (Hocc "rep10")].
Defined.

Lemma flow_create_eq : ob_created (N := F64) None = Ok ("r1", flow_created).
Proof.
  unfold flow_created. destruct (ob_created None) as [[k db]|x] eqn:E; [|by vm_compute in E].
  by apply create_inv in E as [-> _].
Qed.

Lemma flow_execute_eq : flow_execute (N := F64) flow_created = Ok ("rep1", flow_db).
Proof.
  unfold flow_db. destruct (flow_execute flow_created) as [[rep db]|x] eqn:E.
  - assert (match flow_execute (N := F64) flow_created with Ok (k, _) => k | Throw _ => "" end = "rep1") as Hk
      by (vm_compute; reflexivity).
    by rewrite E in Hk; rewrite Hk.
  - assert (isOk (flow_execute (N := F64) flow_created) = true) as Hk by (vm_compute; reflexivity).
    by rewrite E in Hk.
Qed.

Lemma flow_created_run : offer_run (N := F64) ob_numeric (ob_numeric 2) str_le plain_key of_uuid ob_db flow_created.
Proof.
  eapply (or_create ob_numeric (ob_numeric 2) str_le plain_key of_uuid ob_db ob_db id "r1" 0 (ob_dto None) "r1");
    [apply or_refl|apply or_refl|apply lookup_empty|exact flow_create_eq].
Qed.

Lemma flow_created_ok : store_ok (flow_created (N := F64)).
Proof. eapply store_ok_run; [exact flow_created_run|]. apply (store_ok_empty (N := F64)). Qed.

Lemma flow_created_reports : reports (flow_created (N := F64)) = ∅ ∧ reportItems (flow_created (N := F64)) = [].
Proof.
  destruct (create_inv _ _ _ _ _ _ _ _ flow_create_eq) as (_ & index & t & eans & Hcr).
  rewrite (cr_db _ _ _ _ _ _ _ _ _ _ Hcr). done.
Qed.

Lemma flow_fresh : fresh_report of_uuid "rep1" (flow_created (N := F64)).
Proof.
  destruct flow_created_reports as [Hr Hi].
  split; [done|by rewrite Hr|by rewrite Hi; intros i ?%elem_of_nil|apply of_uuid_inj].
Qed.

(** The run creates the rule, executes it and fails its first delivery. *)
Lemma offer_store_invariant_witness : ∃ db : OfferDb F64,
  offer_run ob_numeric (ob_numeric 2) str_le plain_key of_uuid ob_db db ∧ store_ok db ∧
  isOk (remove_bookRule "r1" db) = false.
Proof.
  exists flow_db.
  assert (offer_run ob_numeric (ob_numeric 2) str_le plain_key of_uuid ob_db (flow_db (N := F64))) as Hrun.
  { eapply (or_execute ob_numeric (ob_numeric 2) str_le plain_key of_uuid ob_db flow_created id (λ _, true) 1000 "t" "r1" "rep1" EX_MANUAL);
      [exact flow_created_run|apply or_refl|exact flow_fresh|exact flow_execute_eq]. }
  destruct (offer_store_invariant ob_numeric (ob_numeric 2) str_le plain_key of_uuid ob_catalog flow_db Hrun) as [Hok Hrm].
  split_and!; [exact Hrun|exact Hok|].
  assert (br_status <$> (bookRules (flow_db (N := F64)) !! "r1") = Some OB_RUNNING) as Hs by (vm_compute; reflexivity).
  destruct (bookRules (flow_db (N := F64)) !! "r1") as [r|] eqn:Hr.
  - apply (Hrm "r1" r Hr). by injection Hs.
  - done.
Defined.

Lemma offer_execute_request_witness :
  ∃ report, reports (flow_db (N := F64)) !! "rep1" = Some report ∧ rp_outcome report = None ∧
    execute ob_numeric str_le of_uuid id (λ _, true) 2000 "t" "r1" "rep2" EX_SCHEDULED (flow_db (N := F64))
    = Throw (running_conflict "r1").
Proof.
  destruct (offer_execute_request ob_numeric str_le of_uuid id (λ _, true) 1000 "t" "r1" "rep1" EX_MANUAL
              flow_created flow_created_ok flow_fresh) as [Hreq _].
  destruct (Hreq "rep1" flow_db flow_execute_eq) as ((report & Hrep & _ & Ho & _) & _ & Hagain & _).
  exists report. split_and!; [exact Hrep|exact Ho|]. apply Hagain. unfold EXECUTE_LOCK_MINUTES. lia.
Defined.

Lemma flow_env_db fates events : s_db (flow_env fates events : StepEnv (N := F64)) = flow_db.
Proof. reflexivity. Qed.

Lemma offer_execution_completes_witness :
  ∃ e3 : StepEnv (N := F64), store_ok (s_db e3) ∧
    ∃ rule, bookRules (s_db e3) !! "r1" = Some rule ∧ br_activeExecutionReportId rule = None.
Proof.
  destruct (deliveries ob_numeric (ob_numeric 2) plain_key "t" "rep1" flow_retry (flow_env [] [])) as [n e1] eqn:Hds.
  set (e2 := Build_StepEnv (s_db e1) (s_posts e1) [ErpRefused] [] 9000).
  destruct (step_execute ob_numeric (ob_numeric 2) plain_key true "t" "rep1" e2) as [r e3] eqn:Hstep.
  assert (steady e2) as Hst by constructor.
  assert (s_db e2 = s_db e1) as He2 by reflexivity.
  assert (decrypts plain_key) as Hd by (intros k; reflexivity).
  clearbody e2.
  pose proof (offer_execution_completes (N := F64) ob_numeric (ob_numeric 2) str_le plain_key of_uuid id (λ _, true)
    1000 "t" "r1" "rep1" EX_MANUAL flow_created "rep1" flow_db flow_retry (flow_env [] []) n e1 e2 r e3
    flow_created_ok flow_fresh Hd flow_execute_eq (flow_env_db [] []) Hds He2 Hst Hstep) as (_ & Hok & _ & Hrule & _).
  destruct Hrule as (rule & Hrule & _ & Hlease). exists e3. split; [exact Hok|]. exists rule. exact (conj Hrule Hlease).
Defined.

Lemma offer_delivery_closes_witness :
  ∃ report (e' : StepEnv (N := F64)), closed "rep1" report (s_db e').
Proof.
  destruct (offer_execute_request ob_numeric str_le of_uuid id (λ _, true) 1000 "t" "r1" "rep1" EX_MANUAL
              flow_created flow_created_ok flow_fresh) as [Hreq _].
  destruct (Hreq "rep1" flow_db flow_execute_eq) as ((report & Hrep & _ & _ & Hrun) & _).
  pose proof flow_ids as Hids. rewrite <- (flow_env_db [ErpDone] []) in Hrep, Hrun, Hids.
  assert (steady (flow_env (N := F64) [ErpDone] [])) as Hst by constructor.
  assert (decrypts plain_key) as Hd by (intros k; reflexivity).
  set (e := flow_env (N := F64) [ErpDone] []) in *. clearbody e.
  destruct (step_execute ob_numeric (ob_numeric 2) plain_key true "t" "rep1" e) as [r e'] eqn:Hs.
  destruct (offer_delivery_closes ob_numeric (ob_numeric 2) plain_key "t" "rep1" report e e' r Hids Hrep Hrun Hs)
    as [Hclosed Hok].
  exists report, e'. exact (proj1 (Hclosed (Hok Hst Hd))).
Defined.
