(* ===== verification/OfferReports.v ===== *)
(** Reading the execution reports of offer rules ([listByRule], [listAll] and
    [getReport] of [tenant-api/offer-book-rules/
    offer-book-rules-execution.service.ts]) and what they say of an
    execution.

    Reports are never soft-deleted, so [deleted_at IS NULL] holds of all
    rows.  The time zone is the pair [local_day] (the civil day of an
    instant) and [at_local] (the instant a civil day begins);
    [parse_timestamptz] reads the text of a date with a time; [ilike] is
    PostgreSQL's. *)

From Stdlib Require Import Ascii String.
From S2P Require Import Prelude JsText JsNumber JsDate Enums Messages World Outbox Classification SuggestionEngine PricingDb SuggestionRules Suggestions PricingApply Erp CatalogMutation OfferRules OfferRulesLaws OfferBook OfferBookLaws OfferExecution OfferExecutionLaws OfferFlow.
Open Scope string_scope.
Open Scope list_scope.
Open Scope Z_scope.

(* ------------------------------------------------------------------ *)
(** * Queries and answers                                               *)
(* ------------------------------------------------------------------ *)

Record PaginationQueryDto := { qp_page : option Z; qp_perPage : option Z }.

Record ReportItemsQueryDto := { qi_page : Z; qi_perPage : Z; qi_name : option string }.

Record ListReportsQueryDto := {
  ql_paging : PaginationQueryDto;
  ql_ruleId : option string;
  ql_offerBookInfoId : option Z;
  ql_executionType : option ExecutionType;
  ql_outcome : option ExecutionOutcome;
  ql_startDate : option string;
  ql_endDate : option string;
}.

Record ExecutionReportHeader := {
  eh_id : string;
  eh_ruleId : string;
  eh_offerBookInfoId : Z;
  eh_executedAt : string;
  eh_executionType : ExecutionType;
  eh_calculationBaseType : CalculationBaseType;
  eh_totalProducts : Z;
  eh_productsUpdated : Z;
  eh_productsSkipped : Z;
  eh_outcome : option ExecutionOutcome;
  eh_errorMessage : option string;
}.

Record PaginatedReports := {
  pr_rows : list ExecutionReportHeader;
  pr_total : Z;
  pr_page : Z;
  pr_pageSize : Z;
  pr_totalPages : Z;
}.

Definition toHeader (ir : string * ReportRow) : ExecutionReportHeader :=
  let '(id, r) := ir in
  {| eh_id := id; eh_ruleId := rp_ruleId r; eh_offerBookInfoId := rp_offerBookInfoId r;
     eh_executedAt := toISOString (rp_executedAt r); eh_executionType := rp_executionType r;
     eh_calculationBaseType := rp_calculationBaseType r; eh_totalProducts := rp_totalProducts r;
     eh_productsUpdated := rp_productsUpdated r; eh_productsSkipped := rp_productsSkipped r;
     eh_outcome := rp_outcome r; eh_errorMessage := rp_errorMessage r |}.

(** [/^\d{4}-\d{2}-\d{2}$/] *)
Definition isDateOnly (s : string) : bool :=
  Nat.eqb (String.length s) 10
  && str_forall is_digit (String.substring 0 4 s) && String.eqb (String.substring 4 1 s) "-"
  && str_forall is_digit (String.substring 5 2 s) && String.eqb (String.substring 7 1 s) "-"
  && str_forall is_digit (String.substring 8 2 s).

(** [CAST(text AS date)] of such a text, as a day number. *)
Definition date_cast (s : string) : Res Z :=
  let y := digits_val (String.substring 0 4 s) in
  let m := digits_val (String.substring 5 2 s) in
  let d := digits_val (String.substring 8 2 s) in
  let day := doe_of_civil y m d - 719468 in
  if (0 <? y) && bool_decide (civil_from_days day = (y, m, d)) then Ok day
  else Throw (EError "date/time field value out of range").

Section OfferReports.
Context {N : Type} `{JsNum N}.
Variable local_day : Z → Z.
Variable at_local : Z → Z.
Variable parse_timestamptz : string → Res Z.
Variable ilike : string → string → bool.
Implicit Types (db : OfferDb N).

(* ------------------------------------------------------------------ *)
(** * Lists of reports                                                  *)
(* ------------------------------------------------------------------ *)

(** [refine] is the added WHERE clause. *)
Definition pagedReports db (query : PaginationQueryDto) (refine : string * ReportRow → bool) : PaginatedReports :=
  let page := default 1 (qp_page query) in
  let pageSize := Z.min (default 20 (qp_perPage query)) 100 in
  let rows := js_sort (λ a b : string * ReportRow, rp_executedAt b.2 <=? rp_executedAt a.2)
                (filter (λ ir, refine ir = true) (map_to_list (reports db))) in
  let total := Z.of_nat (length rows) in
  {| pr_rows := toHeader <$> js_slice ((page - 1) * pageSize) pageSize rows; pr_total := total; pr_page := page;
     pr_pageSize := pageSize; pr_totalPages := ceil_div total pageSize |}.

Definition listByRule db (ruleId : string) (query : PaginationQueryDto) : PaginatedReports :=
  pagedReports db query (λ ir, String.eqb (rp_ruleId ir.2) ruleId).

(** The bound of a date, and whether [executed_at] is within it. *)
Definition from_start (startDate : string) : Res (Z → bool) :=
  if isDateOnly startDate then day ← date_cast startDate; Ok (λ t, at_local day <=? t)
  else start ← parse_timestamptz startDate; Ok (λ t, start <=? t).

Definition until_end (endDate : string) : Res (Z → bool) :=
  if isDateOnly endDate then day ← date_cast endDate; Ok (λ t, t <? at_local (day + 1))
  else stop ← parse_timestamptz endDate; Ok (λ t, t <=? stop).

(** [if (x) qb.andWhere(...)]: no clause when the text is absent or empty. *)
Definition date_clause (f : string → Res (Z → bool)) (x : option string) : Res (Z → bool) :=
  match truthy x with None => Ok (λ _, true) | Some s => f s end.

Definition optional {A} (f : A → bool) (x : option A) : bool := match x with None => true | Some a => f a end.

Definition listAll db (query : ListReportsQueryDto) : Res PaginatedReports :=
  from ← date_clause from_start (ql_startDate query);
  upto ← date_clause until_end (ql_endDate query);
  Ok (pagedReports db (ql_paging query) (λ ir,
    optional (String.eqb (rp_ruleId ir.2)) (truthy (ql_ruleId query))
    && optional (Z.eqb (rp_offerBookInfoId ir.2)) (ql_offerBookInfoId query)
    && optional (λ t, bool_decide (rp_executionType ir.2 = t)) (ql_executionType query)
    && optional (λ o, bool_decide (rp_outcome ir.2 = Some o)) (ql_outcome query)
    && from (rp_executedAt ir.2) && upto (rp_executedAt ir.2))).

(* ------------------------------------------------------------------ *)
(** * One report                                                        *)
(* ------------------------------------------------------------------ *)

Record ExecutionReportItem := {
  ei_ean : string;
  ei_name : string;
  ei_classification : string;
  ei_baseSalePrice : N;
  ei_currentPrice : N;
  ei_currentMargin : N;
  ei_cost : N;
  ei_actionType : option PricingActionType;
  ei_percentageValue : N;
  ei_appliedPercentageValue : N;
  ei_finalPrice : N;
  ei_newMargin : N;
  ei_flags : bool * bool * bool * bool * bool;
  ei_wasUpdated : bool;
  ei_applyStatus : ItemApplyStatus;
  ei_applyError : option string;
}.

Record ExecutionReportDetail := {
  ed_report : ExecutionReportHeader;
  ed_items : list ExecutionReportItem;
  ed_totalItems : Z;
  ed_page : Z;
  ed_pageSize : Z;
  ed_totalPages : Z;
}.

Definition toItemApi (i : ReportItemRow) : ExecutionReportItem :=
  {| ei_ean := ean_text (it_ean i); ei_name := it_name i; ei_classification := it_classification i;
     ei_baseSalePrice := dec_of (it_baseSalePrice i); ei_currentPrice := dec_of (it_currentPrice i);
     ei_currentMargin := dec_of (it_currentMargin i); ei_cost := dec_of (it_cost i); ei_actionType := it_actionType i;
     ei_percentageValue := dec_of (it_percentageValue i);
     ei_appliedPercentageValue := dec_of (it_appliedPercentageValue i); ei_finalPrice := dec_of (it_finalPrice i);
     ei_newMargin := dec_of (it_newMargin i); ei_flags := it_flags i; ei_wasUpdated := it_wasUpdated i;
     ei_applyStatus := it_applyStatus i; ei_applyError := it_applyError i |}.

(** The items the query selects, in the order of their EANs. *)
Definition report_rows db (reportId : string) (name : option string) : list ReportItemRow :=
  js_sort (λ a b, it_ean a <=? it_ean b)
    (filter (λ i, String.eqb (it_reportId i) reportId
                  && optional (λ n, ilike (it_name i) ("%" +:+ n +:+ "%")) (truthy name) = true) (reportItems db)).

Definition getReport db (reportId : string) (query : ReportItemsQueryDto) : Res ExecutionReportDetail :=
  match reports db !! reportId with
  | None => Throw (ENotFound ("Relatório " +:+ reportId +:+ " não encontrado"))
  | Some report =>
      let rows := report_rows db reportId (qi_name query) in
      let totalItems := Z.of_nat (length rows) in
      Ok {| ed_report := toHeader (reportId, report);
            ed_items := toItemApi <$> js_slice ((qi_page query - 1) * qi_perPage query) (qi_perPage query) rows;
            ed_totalItems := totalItems; ed_page := qi_page query; ed_pageSize := qi_perPage query;
            ed_totalPages := ceil_div totalItems (qi_perPage query) |}
  end.

End OfferReports.

(* ------------------------------------------------------------------ *)
(** * Laws                                                              *)
(* ------------------------------------------------------------------ *)

(** The pages of a listing, one after the other. *)
Lemma slices_of_pages {A} (l : list A) (size : Z) (n : nat) :
  0 < size → concat ((λ k, js_slice (Z.of_nat k * size) size l) <$> seq 0 n) = take (n * Z.to_nat size) l.
Proof.
  intros Hs. induction n as [|n IH]; [done|].
  rewrite seq_S, fmap_app, concat_app, IH. cbn [fmap list_fmap concat]. rewrite app_nil_r.
  unfold js_slice. replace (Z.to_nat (Z.of_nat (0 + n) * size)) with (n * Z.to_nat size)%nat by nia.
  replace (S n * Z.to_nat size)%nat with (n * Z.to_nat size + Z.to_nat size)%nat by lia.
  by rewrite take_take_drop.
Qed.

Lemma ceil_div_covers (n size : Z) : 0 < size → 0 <= n → n <= ceil_div n size * size.
Proof. intros Hs Hn. unfold ceil_div. pose proof (Z.mul_div_le (- n) size Hs). lia. Qed.

Lemma pages_all {A} (l : list A) (size : Z) :
  0 < size →
  concat ((λ k, js_slice (Z.of_nat k * size) size l) <$> seq 0 (Z.to_nat (ceil_div (Z.of_nat (length l)) size))) = l.
Proof.
  intros Hs. rewrite slices_of_pages by done. apply take_ge.
  pose proof (ceil_div_covers (Z.of_nat (length l)) size Hs ltac:(lia)). nia.
Qed.

Definition api_count {N} (st : ItemApplyStatus) (l : list (ExecutionReportItem (N := N))) : Z :=
  Z.of_nat (length (filter (λ i, ei_applyStatus i = st) l)).

(** What the detail shows of a status is what the table has of it. *)
Lemma api_count_of {N} `{JsNum N} rid st (rows l : list ReportItemRow) :
  rows ≡ₚ filter (λ i, it_reportId i = rid) l →
  api_count st (toItemApi (N := N) <$> rows) = count_of rid st l.
Proof.
  intros Hp. unfold api_count, count_of. f_equal.
  transitivity (length (filter (λ i, it_applyStatus i = st) rows)).
  - clear Hp. induction rows as [|i rows IH]; [done|]. rewrite fmap_cons, !filter_cons. cbn [toItemApi ei_applyStatus].
    destruct (decide (it_applyStatus i = st)); simpl; by rewrite IH.
  - rewrite Hp, list_filter_filter. f_equal. apply list_filter_iff. intros i. rewrite of_status_true. tauto.
Qed.

Lemma status_partition {N} (l : list (ExecutionReportItem (N := N))) :
  Z.of_nat (length l) = api_count IS_pending l + api_count IS_erp_applied l + api_count IS_applied l
                        + api_count IS_failed l + api_count IS_skipped l.
Proof.
  unfold api_count. induction l as [|i l IH]; [done|]. rewrite !filter_cons.
  destruct (ei_applyStatus i); repeat case_decide; simplify_eq; cbn [length]; lia.
Qed.

Section ReportLaws.
Context {N : Type} `{JsNum N}.
Variable local_day : Z → Z.
Variable at_local : Z → Z.
Variable parse_timestamptz : string → Res Z.
Variable ilike : string → string → bool.
Implicit Types (db : OfferDb N).

(** A civil day begins at one instant and ends where the next one begins. *)
Definition zone_laws : Prop := ∀ d t, at_local d <= t ↔ d <= local_day t.

Lemma pagedReports_ext db paging f g : (∀ ir, f ir = g ir) → pagedReports db paging f = pagedReports db paging g.
Proof.
  intros Hfg. unfold pagedReports. set (l := map_to_list (reports db)).
  assert (filter (λ ir, f ir = true) l = filter (λ ir, g ir = true) l) as -> by (apply list_filter_iff; intros; by rewrite Hfg).
  done.
Qed.

(** Both bounds on one date select the reports of that civil day. *)
Lemma listAll_one_day db paging s d :
  zone_laws → isDateOnly s = true → date_cast s = Ok d →
  listAll at_local parse_timestamptz db
    {| ql_paging := paging; ql_ruleId := None; ql_offerBookInfoId := None; ql_executionType := None; ql_outcome := None;
       ql_startDate := Some s; ql_endDate := Some s |}
  = Ok (pagedReports db paging (λ ir, bool_decide (local_day (rp_executedAt ir.2) = d))).
Proof.
  intros Hz Hs Hd. unfold listAll. cbn [ql_startDate ql_endDate].
  assert (truthy (Some s) = Some s) as Ht by (by destruct s).
  unfold date_clause, from_start, until_end. rewrite Ht, Hs, Hd. cbn [mbind Res_bind]. f_equal.
  apply pagedReports_ext. intros [id r]. cbn [optional snd ql_ruleId ql_offerBookInfoId ql_executionType ql_outcome truthy].
  rewrite !andb_true_l. set (t := rp_executedAt r). pose proof (Hz d t). pose proof (Hz (d + 1) t).
  case_bool_decide; [apply andb_true_iff|apply andb_false_iff]; rewrite ?Z.leb_le, ?Z.ltb_lt, ?Z.leb_gt, ?Z.ltb_ge; lia.
Qed.

(** ** The items of a report *)

Lemma report_rows_all db rid : report_rows ilike db rid None ≡ₚ filter (λ i, it_reportId i = rid) (reportItems db).
Proof.
  unfold report_rows. rewrite js_sort_perm.
  assert (filter (λ i, String.eqb (it_reportId i) rid && optional (λ n, ilike (it_name i) ("%" +:+ n +:+ "%")) (truthy None) = true)
            (reportItems db) = filter (λ i, it_reportId i = rid) (reportItems db)) as ->; [|done].
  apply list_filter_iff. intros i. cbn [truthy optional]. by rewrite andb_true_r, String.eqb_eq.
Qed.

End ReportLaws.

(** The reading of a report accounts for its execution.  Once it is
    closed, all pages of its detail have the same header and the same total;
    put together they are the items of the report, each once, in the order
    of their EANs; the header counts as updated exactly the items shown as
    applied and as skipped exactly those shown as skipped, all others are
    shown as failed, and the outcome is FAILURE exactly when there are any,
    NO_CHANGES exactly when all were skipped. *)
Theorem offer_report_accounts {N} `{JsNum N} ilike rid report (db : OfferDb N) perPage :
  closed rid report db → 0 < perPage →
  ∃ header items, items ≡ₚ toItemApi <$> filter (λ i, it_reportId i = rid) (reportItems db) ∧
    let total := Z.of_nat (length items) in
    let pages := ceil_div total perPage in
    (∀ k, (k < Z.to_nat pages)%nat → ∃ page,
       getReport ilike db rid {| qi_page := Z.of_nat k + 1; qi_perPage := perPage; qi_name := None |}
       = Ok {| ed_report := header; ed_items := page; ed_totalItems := total; ed_page := Z.of_nat k + 1;
               ed_pageSize := perPage; ed_totalPages := pages |}
       ∧ page = js_slice (Z.of_nat k * perPage) perPage items) ∧
    concat ((λ k, js_slice (Z.of_nat k * perPage) perPage items) <$> seq 0 (Z.to_nat pages)) = items ∧
    eh_totalProducts header = total ∧
    eh_productsUpdated header = api_count IS_applied items ∧
    eh_productsSkipped header = api_count IS_skipped items ∧
    total = eh_productsUpdated header + eh_productsSkipped header + api_count IS_failed items ∧
    (eh_outcome header = Some EO_FAILURE ↔ 0 < api_count IS_failed items) ∧
    (eh_outcome header = Some EO_NO_CHANGES ↔ eh_productsSkipped header = total).
Proof.
  intros [Hpend Herp (rp & Hrp & Htot & Hupd & Hskip & Hout) _] Hpp.
  set (rows := report_rows ilike db rid None). pose proof (report_rows_all ilike db rid) as Hperm. fold rows in Hperm.
  exists (toHeader (rid, rp)), (toItemApi <$> rows).
  assert (∀ st, api_count st (toItemApi (N := N) <$> rows) = count_of rid st (reportItems db)) as Hcount
    by (intros st; exact (api_count_of rid st rows (reportItems db) Hperm)).
  assert (count_of rid IS_pending (reportItems db) = 0) as Hp0 by (unfold count_of; by rewrite Hpend).
  assert (count_of rid IS_erp_applied (reportItems db) = 0) as He0 by (unfold count_of; by rewrite Herp).
  pose proof (status_partition (toItemApi (N := N) <$> rows)) as Hpart. rewrite !Hcount in Hpart.
  assert (0 <= count_of rid IS_failed (reportItems db) ∧ 0 <= count_of rid IS_applied (reportItems db)) as [Hf0 Ha0]
    by (unfold count_of; lia).
  assert (outcome_of (count_of rid IS_applied (reportItems db)) (count_of rid IS_failed (reportItems db)) = EO_FAILURE
          ↔ 0 < count_of rid IS_failed (reportItems db)) as Hfail
    by (unfold outcome_of; repeat case_match; split; intros; try done; lia).
  assert (outcome_of (count_of rid IS_applied (reportItems db)) (count_of rid IS_failed (reportItems db)) = EO_NO_CHANGES
          ↔ count_of rid IS_failed (reportItems db) = 0 ∧ count_of rid IS_applied (reportItems db) = 0) as Hnone
    by (unfold outcome_of; repeat case_match; split; intros; try done; lia).
  split; [by rewrite Hperm|]. cbv zeta. rewrite !Hcount, length_fmap in *. cbn [toHeader eh_totalProducts eh_productsUpdated eh_productsSkipped eh_outcome].
  rewrite Htot, Hupd, Hskip, Hout, <- Hperm. split_and!; try lia.
  - intros k _. unfold getReport. rewrite Hrp. cbn [qi_page qi_perPage qi_name]. fold rows. eexists. split; [|done].
    assert ((Z.of_nat k + 1 - 1) * perPage = Z.of_nat k * perPage) as -> by lia. unfold toHeader. by rewrite js_slice_fmap, Htot, Hupd, Hskip, Hout.
  - rewrite <- (length_fmap (toItemApi (N := N)) rows). by apply pages_all.
  - rewrite <- Hfail. split; [by intros [= ?]|by intros ->].
  - transitivity (count_of rid IS_failed (reportItems db) = 0 ∧ count_of rid IS_applied (reportItems db) = 0); [|lia].
    rewrite <- Hnone. split; [by intros [= ?]|by intros ->].
Qed.

(** A report of the small tenant, closed by a clean delivery. *)
Lemma offer_report_accounts_witness :
  ∃ (e : StepEnv (N := F64)) header, closed "rep1" header (s_db e) ∧
  ∃ items, items ≡ₚ toItemApi (N := F64) <$> filter (λ i, it_reportId i = "rep1") (reportItems (s_db e)) ∧
    concat ((λ k, js_slice (Z.of_nat k * 1) 1 items) <$> seq 0 (Z.to_nat (ceil_div (Z.of_nat (length items)) 1))) = items.
Proof.
  destruct offer_delivery_closes_witness as (report & e & Hc).
  destruct (offer_report_accounts (λ _ _, true) "rep1" report (s_db e) 1 Hc eq_refl)
    as (header & items & Hperm & _ & Hpages & _).
  exists e, report. split; [exact Hc|]. exists items. split; [exact Hperm|exact Hpages].
Defined.

(** Three hours behind Greenwich all year round. *)
Definition brt_day (t : Z) : Z := (t - 10800000) / ms_per_day.
Definition brt_begin (d : Z) : Z := d * ms_per_day + 10800000.

Example brt_zone : zone_laws brt_day brt_begin.
Proof. intros d t. unfold brt_day, brt_begin, ms_per_day. Z.to_euclidean_division_equations. lia. Qed.

Example dates_read : isDateOnly "2024-02-29" = true ∧ date_cast "2024-02-29" = Ok 19782 ∧
  isOk (date_cast "2023-02-29") = false ∧ isDateOnly "2024-02-29T10:00" = false.
Proof. vm_compute. split_and!; reflexivity. Qed.
