(* ===== verification/OfferSchedule.v ===== *)
(** The hourly cron that executes the scheduled offer rules
    ([tenant-api/offer-book-rules/offer-book-rule-schedule.cron.ts]), and
    that it executes a rule at most once a day.

    [local_day] and [local_hour] are the civil day (counted from 1970-01-01,
    a Thursday) and the hour of an instant in America/Sao_Paulo.  Each rule
    is executed in a transaction of its own; a [RuleTx] says when it begins,
    what others commit before and inside it, and whether it commits. *)

From Stdlib Require Import Ascii String.
From S2P Require Import Prelude JsText JsNumber JsDate Enums Messages World Outbox Classification SuggestionEngine PricingDb SuggestionRules Suggestions PricingApply PricingSchedule Erp CatalogMutation OfferRules OfferRulesLaws OfferBook OfferBookLaws OfferExecution OfferExecutionLaws OfferFlow OfferReports.
Open Scope string_scope.
Open Scope list_scope.
Open Scope Z_scope.

(** Local business hours. *)
Definition WINDOW_START_HOUR : Z := 7.
Definition WINDOW_END_HOUR : Z := 21.

(** [extract(dow ...)]: 0 is Sunday. *)
Definition day_of_week (day : Z) : Z := (day + 4) mod 7.

Section OfferSchedule.
Context {N : Type} `{JsNum N}.
Variable to_numeric : nat → N → Numeric.
Variable collate_le : string → string → bool.
Variable item_uuid : string → nat → string.
Variable local_day local_hour : Z → Z.
Implicit Types (db : OfferDb N).

Definition withinWindow (now : Z) : bool :=
  (WINDOW_START_HOUR <=? local_hour now) && (local_hour now <=? WINDOW_END_HOUR).

(** A SCHEDULED report of the rule on a civil day. *)
Definition scheduled_report (ruleId : string) (day : Z) (r : ReportRow) : bool :=
  String.eqb (rp_ruleId r) ruleId && bool_decide (rp_executionType r = EX_SCHEDULED)
  && (local_day (rp_executedAt r) =? day).

Definition executed_on (db : OfferDb N) (ruleId : string) (day : Z) : bool :=
  existsb (λ ir : string * ReportRow, scheduled_report ruleId day ir.2) (map_to_list (reports db)).

Definition rule_due (now : Z) db (ir : string * OfferBookRuleRow) : bool :=
  negb (br_deleted ir.2) && br_scheduleEnabled ir.2 && negb (bool_decide (br_status ir.2 = OB_RUNNING))
  && match br_scheduledDays ir.2 with
     | Some days => bool_decide (day_of_week (local_day now) ∈ days)
     | None => false
     end
  && negb (executed_on db ir.1 (local_day now)).

(** [ORDER BY r.created_at] *)
Definition dueRuleIds (now : Z) db : list string :=
  (λ ir : string * OfferBookRuleRow, ir.1) <$>
    js_sort (λ a b : string * OfferBookRuleRow, br_createdAt a.2 <=? br_createdAt b.2)
      (filter (λ ir, rule_due now db ir = true) (map_to_list (bookRules db))).

Record RuleTx := {
  rt_before : OfferDb N → OfferDb N;
  rt_meanwhile : OfferDb N → OfferDb N;
  rt_locked : string → bool;
  rt_now : Z;
  rt_reportId : string;
  rt_commits : bool;
}.

(** One rule; an error is logged and skipped. *)
Definition fire_rule (slug : string) (tx : RuleTx) (ruleId : string) db : OfferDb N :=
  let db := rt_before tx db in
  match execute to_numeric collate_le item_uuid (rt_meanwhile tx) (rt_locked tx) (rt_now tx) slug ruleId
          (rt_reportId tx) EX_SCHEDULED db with
  | Ok (_, db') => if rt_commits tx then db' else rt_meanwhile tx db
  | Throw _ => rt_meanwhile tx db
  end.

Fixpoint fire_rules (slug : string) (txs : nat → RuleTx) (ids : list string) db : OfferDb N :=
  match ids with
  | [] => db
  | id :: rest => fire_rules slug (λ k, txs (S k)) rest (fire_rule slug (txs 0%nat) id db)
  end.

Definition offer_fireForTenant (now : Z) (slug : string) (txs : nat → RuleTx) db : OfferDb N :=
  fire_rules slug txs (dueRuleIds now db) db.

Definition offer_fires_for (t : CronTenant) : bool :=
  negb (String.eqb (cn_slug t) "system") && existsb (String.eqb "offer-book-rules") (cn_modules t).

(** The tenants in turn; one that fails (it has no schema) is skipped. *)
Fixpoint offer_fire_tenants (now : Z) (txs : string → nat → RuleTx) (tenants : list CronTenant)
    (dbs : gmap string (OfferDb N)) : gmap string (OfferDb N) :=
  match tenants with
  | [] => dbs
  | t :: rest =>
      offer_fire_tenants now txs rest
        (if offer_fires_for t then alter (offer_fireForTenant now (cn_slug t) (txs (cn_slug t))) (cn_schema t) dbs else dbs)
  end.

Definition offer_fire (workerMode : bool) (now : Z) (txs : string → nat → RuleTx) (tenants : list CronTenant)
    (dbs : gmap string (OfferDb N)) : gmap string (OfferDb N) :=
  if workerMode || negb (withinWindow now) then dbs else offer_fire_tenants now txs tenants dbs.

(* ------------------------------------------------------------------ *)
(** * Laws                                                              *)
(* ------------------------------------------------------------------ *)

(** The SCHEDULED reports of a database, with their rule and time. *)
Definition slot_of db (k : string) (ruleId : string) (t : Z) : Prop :=
  ∃ r, reports db !! k = Some r ∧ rp_executionType r = EX_SCHEDULED ∧ rp_ruleId r = ruleId ∧ rp_executedAt r = t.

Definition once_a_day db : Prop := ∀ k1 k2 id t1 t2,
  slot_of db k1 id t1 → slot_of db k2 id t2 → local_day t1 = local_day t2 → k1 = k2.
Definition past (now : Z) db : Prop := ∀ k id t, slot_of db k id t → t <= now.

(** Others may close, remove or add reports, but not SCHEDULED ones. *)
Definition quiet (f : OfferDb N → OfferDb N) : Prop := ∀ db k id t, slot_of (f db) k id t → slot_of db k id t.
Definition quiet_tx (tx : RuleTx) : Prop := quiet (rt_before tx) ∧ quiet (rt_meanwhile tx).

Lemma executed_on_iff db id d : executed_on db id d = true ↔ ∃ k t, slot_of db k id t ∧ local_day t = d.
Proof.
  unfold executed_on, slot_of, scheduled_report. rewrite existsb_exists. split.
  - intros ([k r] & Hin & Hr). apply list_elem_of_In, elem_of_map_to_list in Hin. cbn [snd] in Hr.
    apply andb_true_iff in Hr as [[Hid%String.eqb_eq Hty%bool_decide_eq_true]%andb_true_iff Hd%Z.eqb_eq].
    exists k, (rp_executedAt r). split; [|done]. by exists r.
  - intros (k & t & (r & Hr & Hty & Hid & <-) & Hd). exists (k, r). split.
    + by apply list_elem_of_In, elem_of_map_to_list.
    + cbn [snd]. rewrite Hid, String.eqb_refl, (bool_decide_true _ Hty). by apply Z.eqb_eq in Hd as ->.
Qed.

Lemma dueRuleIds_elem now db id :
  id ∈ dueRuleIds now db ↔ ∃ r, bookRules db !! id = Some r ∧ rule_due now db (id, r) = true.
Proof.
  unfold dueRuleIds. rewrite list_elem_of_fmap. split.
  - intros ([k r] & -> & Hin). rewrite js_sort_perm in Hin. apply list_elem_of_filter in Hin as [Hd Hin].
    exists r. split; [|done]. by apply elem_of_map_to_list.
  - intros (r & Hr & Hd). exists (id, r). split; [done|]. rewrite js_sort_perm. apply list_elem_of_filter.
    split; [done|]. by apply elem_of_map_to_list.
Qed.

Lemma dueRuleIds_NoDup now db : NoDup (dueRuleIds now db).
Proof.
  unfold dueRuleIds. rewrite js_sort_perm. eapply sublist_NoDup; [apply (NoDup_fst_map_to_list (bookRules db))|].
  apply fmap_sublist, sublist_filter.
Qed.

Lemma due_not_executed now db id : id ∈ dueRuleIds now db → executed_on db id (local_day now) = false.
Proof.
  intros (r & _ & Hd)%dueRuleIds_elem. unfold rule_due in Hd.
  apply andb_true_iff in Hd as [_ Hd]. by apply negb_true_iff in Hd.
Qed.

(** A transaction adds at most the report of its own rule. *)
Lemma fire_rule_slots slug tx id db k id' t :
  quiet_tx tx → slot_of (fire_rule slug tx id db) k id' t →
  slot_of db k id' t ∨ id' = id ∧ k = rt_reportId tx ∧ t = rt_now tx.
Proof.
  intros [Hb Hm]. unfold fire_rule. set (d := rt_before tx db).
  assert (∀ k id' t, slot_of (rt_meanwhile tx d) k id' t → slot_of db k id' t) as Hq by (intros; by apply Hb, Hm).
  destruct (execute _ _ _ _ _ _ _ _ _ _ d) as [[rep db']|x] eqn:Hx; [|intros; left; by apply Hq].
  destruct (rt_commits tx); [|intros; left; by apply Hq].
  destruct (execute_inv _ _ _ _ _ _ _ _ _ _ _ _ _ Hx) as (rule & claim & _ & _ & _ & _ & Hreq).
  destruct Hreq as [rep _ _ _ _|results _ _ _].
  - intros Hs. left. by apply Hq.
  - intros (r & Hr & Hty & Hid & Ht). change (<[rt_reportId tx := new_report (rt_now tx) id (reload_products claim rule) EX_SCHEDULED results]>
      (reports (rt_meanwhile tx d)) !! k = Some r) in Hr.
    apply lookup_insert_Some in Hr as [[<- <-]|[_ Hr]]; [by right|left]. apply Hq. by exists r.
Qed.

(** Nobody else writes. *)
Definition idle_tx (tx : RuleTx) : Prop := (∀ db, rt_before tx db = db) ∧ ∀ db, rt_meanwhile tx db = db.

(** It touches no other rule, and no report of another rule. *)
Lemma fire_rule_other slug tx id id' db :
  idle_tx tx → id' ≠ id → bookRules (fire_rule slug tx id db) !! id' = bookRules db !! id'.
Proof.
  intros [Hb Hm] Hne. unfold fire_rule. rewrite Hb.
  destruct (execute _ _ _ _ _ _ _ _ _ _ db) as [[rep db']|x] eqn:Hx; [|by rewrite Hm].
  destruct (rt_commits tx); [|by rewrite Hm].
  destruct (execute_inv _ _ _ _ _ _ _ _ _ _ _ _ _ Hx) as (rule & claim & _ & _ & _ & _ & Hreq).
  rewrite Hm in Hreq. destruct Hreq as [rep _ _ _ _|results _ _ _].
  - change (alter (touch_rule (rt_now tx)) id (bookRules db) !! id' = bookRules db !! id'). by rewrite lookup_alter_ne.
  - change (alter (with_execution OB_RUNNING (Some (rt_reportId tx)) (rt_now tx)) id (bookRules db) !! id' = bookRules db !! id').
    by rewrite lookup_alter_ne.
Qed.

Lemma fire_rules_other slug txs ids id' db :
  (∀ i, idle_tx (txs i)) → id' ∉ ids → bookRules (fire_rules slug txs ids db) !! id' = bookRules db !! id'.
Proof.
  revert txs db. induction ids as [|id ids IH]; intros txs db Hi Hni; [done|].
  apply not_elem_of_cons in Hni as [Hne Hni]. cbn [fire_rules]. rewrite IH by auto. by apply fire_rule_other.
Qed.

(** An execution that is committed by the cron is on record for its day. *)
Lemma fire_rule_recorded slug tx id db db' :
  rt_commits tx = true → reports (rt_meanwhile tx (rt_before tx db)) !! rt_reportId tx = None →
  store_ok (rt_meanwhile tx (rt_before tx db)) →
  execute to_numeric collate_le item_uuid (rt_meanwhile tx) (rt_locked tx) (rt_now tx) slug id (rt_reportId tx)
    EX_SCHEDULED (rt_before tx db) = Ok (rt_reportId tx, db') →
  executed_on (fire_rule slug tx id db) id (local_day (rt_now tx)) = true.
Proof.
  intros Hcom Hnew Hok Hx. unfold fire_rule. rewrite Hx, Hcom.
  destruct (execute_inv _ _ _ _ _ _ _ _ _ _ _ _ _ Hx) as (rule & claim & _ & _ & Hc & _ & Hreq).
  apply executed_on_iff. exists (rt_reportId tx), (rt_now tx). split; [|done].
  inversion Hreq as [rep _ _ Ha _ Erep|results _ _ _ Edb]; subst.
  - exfalso. destruct (so_active _ Hok _ _ _ Hc Ha) as (_ & rp & Hrp & _). congruence.
  - eexists. split; [apply lookup_insert_eq|done].
Qed.

(** No SCHEDULED report of the rule is, or will be, of a day from [now] on. *)
Definition clear_from (now : Z) db (id : string) : Prop :=
  ∀ k t t', slot_of db k id t → now <= t' → local_day t ≠ local_day t'.

Lemma fire_rules_once slug now txs ids db :
  (∀ i, quiet_tx (txs i)) → (∀ i, now <= rt_now (txs i)) → NoDup ids → once_a_day db →
  (∀ id, id ∈ ids → clear_from now db id) → once_a_day (fire_rules slug txs ids db).
Proof.
  revert txs db. induction ids as [|id ids IH]; intros txs db Hq Ht Hnd Honce Hclear; [done|].
  apply NoDup_cons in Hnd as [Hni Hnd]. cbn [fire_rules]. apply IH; [by auto|by auto|done| |].
  - intros k1 k2 id' t1 t2 H1 H2 Hd.
    destruct (fire_rule_slots _ _ _ _ _ _ _ (Hq 0%nat) H1) as [H1'|(-> & -> & ->)],
      (fire_rule_slots _ _ _ _ _ _ _ (Hq 0%nat) H2) as [H2'|(? & ? & ?)]; simplify_eq.
    + by eapply Honce.
    + exfalso. eapply (Hclear id ltac:(left)); [exact H1'|apply (Ht 0%nat)|done].
    + exfalso. eapply (Hclear id ltac:(left)); [exact H2'|apply (Ht 0%nat)|done].
    + done.
  - intros id' Hin k t t' Hs Hle.
    destruct (fire_rule_slots _ _ _ _ _ _ _ (Hq 0%nat) Hs) as [Hs'|(-> & _)]; [|done].
    eapply Hclear; [by right|exact Hs'|done].
Qed.

Lemma fire_rules_past slug txs ids db now :
  (∀ i, quiet_tx (txs i)) → (∀ i, rt_now (txs i) <= now) → past now db → past now (fire_rules slug txs ids db).
Proof.
  revert txs db. induction ids as [|id ids IH]; intros txs db Hq Ht Hp; [done|]. cbn [fire_rules].
  apply IH; [by auto|by auto|]. intros k id' t Hs.
  destruct (fire_rule_slots _ _ _ _ _ _ _ (Hq 0%nat) Hs) as [?|(_ & _ & ->)]; [by eapply Hp|apply Ht].
Qed.

(** The civil day does not go back. *)
Hypothesis day_mono : ∀ t t', t <= t' → local_day t <= local_day t'.

Lemma due_clear now db id : past now db → id ∈ dueRuleIds now db → clear_from now db id.
Proof.
  intros Hp Hdue%due_not_executed k t t' Hs Hle Heq.
  pose proof (day_mono _ _ (Hp _ _ _ Hs)). pose proof (day_mono _ _ Hle).
  assert (executed_on db id (local_day now) = true) as Hex; [|congruence].
  apply executed_on_iff. exists k, t. split; [done|lia].
Qed.

(** One hour of the cron: its time, its transactions, and what others have
    committed since the last one. *)
Record OfferTick := { ot_now : Z; ot_txs : nat → RuleTx; ot_between : OfferDb N → OfferDb N }.

Fixpoint run_ticks (slug : string) (ticks : list OfferTick) db : OfferDb N :=
  match ticks with
  | [] => db
  | t :: rest => run_ticks slug rest (offer_fireForTenant (ot_now t) slug (ot_txs t) (ot_between t db))
  end.

(** The ticks do not overlap, from [now] on. *)
Fixpoint in_turn (now : Z) (ticks : list OfferTick) : Prop :=
  match ticks with
  | [] => True
  | t :: rest => now <= ot_now t ∧ (∀ i, ot_now t <= rt_now (ot_txs t i)) ∧
                 ∃ now', ot_now t <= now' ∧ (∀ i, rt_now (ot_txs t i) <= now') ∧ in_turn now' rest
  end.

Definition quiet_tick (t : OfferTick) : Prop := quiet (ot_between t) ∧ ∀ i, quiet_tx (ot_txs t i).

Lemma past_later now now' db : now <= now' → past now db → past now' db.
Proof. intros Hle Hp k id t Hs. specialize (Hp _ _ _ Hs). lia. Qed.

Lemma run_ticks_once slug ticks now db :
  once_a_day db → past now db → Forall quiet_tick ticks → in_turn now ticks → once_a_day (run_ticks slug ticks db).
Proof.
  revert now db. induction ticks as [|t ticks IH]; intros now db Honce Hp Hq Hin; [done|]. cbn [run_ticks].
  apply Forall_cons in Hq as [[Hb Hq] Hqs]. destruct Hin as (Hle & Hfrom & now' & Hle' & Hto & Hin).
  set (d := ot_between t db).
  assert (once_a_day d) as Hod by (intros k1 k2 id t1 t2 H1%Hb H2%Hb; by eapply Honce).
  assert (past (ot_now t) d) as Hpd by (intros ? ? ? Hs; apply Hb in Hs; specialize (Hp _ _ _ Hs); lia).
  unfold offer_fireForTenant. apply (IH now'); [| |done|done].
  - apply (fire_rules_once slug (ot_now t)); [done|done|apply dueRuleIds_NoDup|done|].
    intros id Hid. by apply due_clear.
  - apply fire_rules_past; [done|done|]. by eapply past_later.
Qed.

(** What is due depends on the day alone: a rule that was skipped is tried
    again at every tick of the day. *)
Lemma due_same_day now now' db : local_day now = local_day now' → dueRuleIds now db = dueRuleIds now' db.
Proof. intros Hd. unfold dueRuleIds, rule_due. by rewrite Hd. Qed.

End OfferSchedule.

(** The cron executes a rule at most once a day.  Over any number of
    hourly ticks that do not overlap, while nobody else creates SCHEDULED
    reports (requests by hand, workers, removals and further changes go on
    between and inside its transactions), no rule has two SCHEDULED reports
    on one civil day, whatever executions fail, are rolled back or are
    refused; a tick executes the rules that are due and leaves all others as
    they are; an execution it commits is on record for its day. *)
Theorem offer_schedule_once_a_day {N} `{JsNum N} (to_numeric : nat → N → Numeric) collate_le item_uuid local_day slug
    ticks now (db : OfferDb N) :
  (∀ t t', t <= t' → local_day t <= local_day t') → once_a_day local_day db → past now db →
  Forall quiet_tick ticks → in_turn now ticks →
  once_a_day local_day (run_ticks to_numeric collate_le item_uuid local_day slug ticks db) ∧
  (∀ now txs d id, (∀ i, idle_tx (txs i)) → id ∉ dueRuleIds local_day now d →
     bookRules (offer_fireForTenant to_numeric collate_le item_uuid local_day now slug txs d) !! id = bookRules d !! id) ∧
  (∀ tx id d d', rt_commits tx = true → store_ok (rt_meanwhile tx (rt_before tx d)) →
     reports (rt_meanwhile tx (rt_before tx d)) !! rt_reportId tx = None →
     execute to_numeric collate_le item_uuid (rt_meanwhile tx) (rt_locked tx) (rt_now tx) slug id (rt_reportId tx)
       EX_SCHEDULED (rt_before tx d) = Ok (rt_reportId tx, d') →
     ∀ now', local_day now' = local_day (rt_now tx) →
       id ∉ dueRuleIds local_day now' (fire_rule to_numeric collate_le item_uuid slug tx id d)).
Proof.
  intros Hmono Honce Hpast Hq Hin. split_and!.
  - by eapply run_ticks_once.
  - intros now0 txs d id Hidle Hni. by apply fire_rules_other.
  - intros tx id d d' Hcom Hok Hnew Hx now' Hday Hdue%due_not_executed.
    rewrite Hday in Hdue. by erewrite fire_rule_recorded in Hdue.
Qed.

(* ------------------------------------------------------------------ *)
(** * The small tenant, on schedule                                     *)
(* ------------------------------------------------------------------ *)

Section ScheduleFixtures.
Context {N : Type} `{JsNum N}.

Definition daily_dto : CreateOfferBookRuleDto N :=
  {| cd_offerBookInfoId := 5; cd_target := ob_target None; cd_scheduleEnabled := Some true;
     cd_scheduledDays := Some [0; 1; 2; 3; 4; 5; 6] |}.
Definition daily_db : OfferDb N :=
  match create_bookRule ob_numeric id "r1" 0 daily_dto ob_db with Ok (_, db) => db | Throw _ => ob_db end.

Definition plain_tx (before : OfferDb N → OfferDb N) (now : Z) (reportId : string) : RuleTx (N := N) :=
  {| rt_before := before; rt_meanwhile := id; rt_locked := λ _, true; rt_now := now; rt_reportId := reportId;
     rt_commits := true |}.

(** The worker runs the execution [reportId] to its end. *)
Definition worked (reportId : string) (now : Z) (db : OfferDb N) : OfferDb N :=
  s_db (step_execute ob_numeric (ob_numeric 2) plain_key true "t" reportId (Build_StepEnv db [] [] [] now)).2.

Definition daily_fire (now : Z) (tx : RuleTx) (db : OfferDb N) : OfferDb N :=
  offer_fireForTenant ob_numeric str_le of_uuid brt_day now "t" (λ _, tx) db.
Definition scheduled_count (db : OfferDb N) (day : Z) : nat :=
  length (filter (λ ir : string * ReportRow, scheduled_report brt_day "r1" day ir.2 = true) (map_to_list (reports db))).

(** 10:00 in São Paulo on 1970-01-02. *)
Definition ten : Z := ms_per_day + 13 * 3600000.

(** Two ticks an hour apart; the worker closes the execution in between. *)
Definition daily_ticks : list (OfferTick (N := N)) :=
  [{| ot_now := ten; ot_txs := λ _, plain_tx id ten "rep1"; ot_between := id |};
   {| ot_now := ten + 3600000; ot_txs := λ _, plain_tx id (ten + 3600000) "rep2"; ot_between := id |}].

End ScheduleFixtures.

(** One tick executes the rule, the next one of the day does not. *)
Example daily_once :
  let db1 := worked "rep1" (ten + 1) (daily_fire ten (plain_tx id ten "rep1") (daily_db (N := F64))) in
  let db2 := daily_fire (ten + 3600000) (plain_tx id (ten + 3600000) "rep2") db1 in
  dueRuleIds brt_day ten (daily_db (N := F64)) = ["r1"] ∧ scheduled_count db1 1 = 1%nat ∧
  dueRuleIds brt_day (ten + 3600000) db1 = [] ∧ scheduled_count db2 1 = 1%nat ∧
  dueRuleIds brt_day (ten + ms_per_day) db2 = ["r1"].
Proof. vm_compute. split_and!; reflexivity. Qed.

(** Two replicas that read the due rules at the same time execute the rule
    twice on one day when the first execution has been closed before the
    second begins: [execute] does not look for the report of the day again. *)
Lemma offer_schedule_twice :
  let other (db : OfferDb F64) := worked "rep1" (ten + 1) (daily_fire ten (plain_tx id ten "rep1") db) in
  scheduled_count (daily_fire ten (plain_tx other (ten + 2) "rep2") (daily_db (N := F64))) 1 = 2%nat.
Proof. vm_compute. reflexivity. Qed.

Lemma daily_no_reports : reports (daily_db (N := F64)) = ∅.
Proof.
  unfold daily_db. destruct (create_bookRule _ _ _ _ _ _) as [[k db]|x] eqn:E; [|done].
  destruct (create_inv _ _ _ _ _ _ _ _ E) as (_ & index & t & eans & Hcr). by rewrite (cr_db _ _ _ _ _ _ _ _ _ _ Hcr).
Qed.

Lemma plain_idle now rep : idle_tx (plain_tx (N := F64) id now rep).
Proof. by split. Qed.

Lemma offer_schedule_once_a_day_witness :
  once_a_day brt_day (run_ticks ob_numeric str_le of_uuid brt_day "t" daily_ticks (daily_db (N := F64))).
Proof.
  assert (∀ k id t, slot_of (daily_db (N := F64)) k id t → False) as Hnone
    by (intros k i t (r & Hr & _); by rewrite daily_no_reports in Hr).
  refine (proj1 (offer_schedule_once_a_day ob_numeric str_le of_uuid brt_day "t" daily_ticks 0 daily_db _ _ _ _ _)).
  - intros t t' Hle. unfold brt_day. apply Z.div_le_mono; [done|lia].
  - intros k1 k2 i t1 t2 H1. by destruct (Hnone _ _ _ H1).
  - intros k i t H1. by destruct (Hnone _ _ _ H1).
  - repeat constructor; by intros ? ? ? ?.
  - cbn [in_turn daily_ticks ot_now ot_txs plain_tx rt_now].
    split; [by vm_compute|split; [intros _; lia|]]. exists ten. split; [lia|split; [intros _; lia|]].
    split; [lia|split; [intros _; lia|]]. exists (ten + 3600000). split; [lia|split; [intros _; lia|exact Logic.I]].
Defined.
