(* ===== verification/TenantCatalog.v ===== *)
(** The catalogue tables that the synchronisation steps write, and the
    repositories over them ([database/repositories/tenant/],
    [database/repositories/shared-catalog/]).

    [Sy A] is a computation inside a tenant transaction: it returns a result
    or an exception together with the tables at that point; [rollback_tx] is
    the transaction around it.  A column's [numeric(p, s)] rounds to its
    scale ([to_numeric], the cast of [String(x)]) and refuses what does not
    fit its precision.  Where a value travels as the text [String(x)] of a
    number, the model carries the number.

    [product] and [shared_catalog.product] are those of [PricingDb]; the
    columns that only the synchronisation writes are in [ProductExtra] and
    [ScrapedRow], under the same keys. *)

From Stdlib Require Import Ascii String.
From S2P Require Import Prelude JsText JsNumber Enums Messages World Classification SuggestionEngine PricingDb SuggestionRules Suggestions PricingApply Erp CatalogMutation.
Open Scope string_scope.
Open Scope list_scope.
Open Scope Z_scope.

(* ------------------------------------------------------------------ *)
(** * Tables                                                            *)
(* ------------------------------------------------------------------ *)

Record ProductDeal (N : Type) := {
  deal_totalPrice : N;
  deal_discount : N;
  deal_itemCadernoOfertaId : option Z;
}.
Arguments Build_ProductDeal {N}.
Arguments deal_totalPrice {N}. Arguments deal_discount {N}. Arguments deal_itemCadernoOfertaId {N}.

(** More columns of [product], by [ean]; [px_receiptDate] is a day. *)
Record ProductExtra (N : Type) := {
  px_receiptDate : option Z;
  px_deals : option (gmap string (ProductDeal N));
  px_averageVariation : option Numeric;
}.
Arguments Build_ProductExtra {N}.
Arguments px_receiptDate {N}. Arguments px_deals {N}. Arguments px_averageVariation {N}.

(** [shared_catalog.base_product], by [ean] ([BaseProductEntity]). *)
Record BaseProductRow := {
  bs_description : option string;
  bs_activeIngredient : option string;
  bs_generic : bool;
  bs_weight : option Numeric;
  bs_height : option Numeric;
  bs_length : option Numeric;
  bs_width : option Numeric;
}.

(** More columns of [shared_catalog.product], by [(ean, origin)]. *)
Record ScrapedRow := {
  sr_found : bool;
  sr_name : option string;
  sr_supplier : option string;
  sr_brand : option string;
  sr_sku : option string;
  sr_weight : option Numeric;
  sr_height : option Numeric;
  sr_length : option Numeric;
  sr_width : option Numeric;
}.

(** [core.status_settings]: rows in the order of [created_at]. *)
Record SettingsRow (N : Type) := { ss_tenant_id : string; ss_settings : gmap string (JsVal N) }.
Arguments Build_SettingsRow {N}.
Arguments ss_tenant_id {N}. Arguments ss_settings {N}.

Record SyncDb (N : Type) := {
  sy_catalog : Catalog N;
  sy_extra : gmap Z (ProductExtra N);
  sy_stock : gmap (Z * Z) Z;
  sy_base : gmap Z BaseProductRow;
  sy_scraped : gmap (Z * string) ScrapedRow;
  sy_settings : list (SettingsRow N);
}.
Arguments Build_SyncDb {N}.
Arguments sy_catalog {N}. Arguments sy_extra {N}. Arguments sy_stock {N}. Arguments sy_base {N}.
Arguments sy_scraped {N}. Arguments sy_settings {N}.

(* ------------------------------------------------------------------ *)
(** * Transactions                                                      *)
(* ------------------------------------------------------------------ *)

Section SyncM.
Context {N : Type}.

Definition Sy (A : Type) : Type := SyncDb N → Res A * SyncDb N.

#[export] Instance Sy_ret : MRet Sy := λ A a s, (Ok a, s).
#[export] Instance Sy_bind : MBind Sy := λ A B f m s,
  match m s with (Ok a, s') => f a s' | (Throw e, s') => (Throw e, s') end.

Definition sy_get : Sy (SyncDb N) := λ s, (Ok s, s).
Definition sy_lift {A} (r : Res A) : Sy A := λ s, (r, s).
Definition sy_modify (f : SyncDb N → SyncDb N) : Sy unit := λ s, (Ok (), f s).

Fixpoint sy_each {A} (f : A → Sy unit) (l : list A) : Sy unit :=
  match l with [] => mret () | x :: l' => f x;; sy_each f l' end.

Definition with_sy_catalog (f : Catalog N → Catalog N) (s : SyncDb N) : SyncDb N :=
  Build_SyncDb (f (sy_catalog s)) (sy_extra s) (sy_stock s) (sy_base s) (sy_scraped s) (sy_settings s).
Definition with_sy_extra (f : gmap Z (ProductExtra N) → gmap Z (ProductExtra N)) (s : SyncDb N) : SyncDb N :=
  Build_SyncDb (sy_catalog s) (f (sy_extra s)) (sy_stock s) (sy_base s) (sy_scraped s) (sy_settings s).
Definition with_sy_stock (f : gmap (Z * Z) Z → gmap (Z * Z) Z) (s : SyncDb N) : SyncDb N :=
  Build_SyncDb (sy_catalog s) (sy_extra s) (f (sy_stock s)) (sy_base s) (sy_scraped s) (sy_settings s).
Definition with_sy_base (f : gmap Z BaseProductRow → gmap Z BaseProductRow) (s : SyncDb N) : SyncDb N :=
  Build_SyncDb (sy_catalog s) (sy_extra s) (sy_stock s) (f (sy_base s)) (sy_scraped s) (sy_settings s).
Definition with_sy_scraped (f : gmap (Z * string) ScrapedRow → gmap (Z * string) ScrapedRow) (s : SyncDb N) : SyncDb N :=
  Build_SyncDb (sy_catalog s) (sy_extra s) (sy_stock s) (sy_base s) (f (sy_scraped s)) (sy_settings s).
Definition with_sy_settings (f : list (SettingsRow N) → list (SettingsRow N)) (s : SyncDb N) : SyncDb N :=
  Build_SyncDb (sy_catalog s) (sy_extra s) (sy_stock s) (sy_base s) (sy_scraped s) (f (sy_settings s)).

(** An exception rolls everything back. *)
Definition rollback_tx {A} (m : Sy A) : Sy A := λ s,
  match m s with (Ok a, s') => (Ok a, s') | (Throw e, _) => (Throw e, s) end.

Definition set_shared (m : gmap (Z * string) SharedProductRow) (c : Catalog N) : Catalog N :=
  Build_Catalog (ct_tenants c) (ct_products c) (ct_productItems c) (ct_offerBook c) m
    (ct_stores c) (ct_origins c) (ct_defaultCaderno c) (ct_roundingRanges c) (ct_roundingRules c)
    (ct_classifications c) (ct_rules c) (ct_clusters c) (ct_members c) (ct_campaigns c) (ct_connections c).
Definition set_stores (m : gmap string StoreRow) (c : Catalog N) : Catalog N :=
  Build_Catalog (ct_tenants c) (ct_products c) (ct_productItems c) (ct_offerBook c) (ct_shared c)
    m (ct_origins c) (ct_defaultCaderno c) (ct_roundingRanges c) (ct_roundingRules c)
    (ct_classifications c) (ct_rules c) (ct_clusters c) (ct_members c) (ct_campaigns c) (ct_connections c).
Definition set_classifications (l : list ClassificationEntity) (c : Catalog N) : Catalog N :=
  Build_Catalog (ct_tenants c) (ct_products c) (ct_productItems c) (ct_offerBook c) (ct_shared c)
    (ct_stores c) (ct_origins c) (ct_defaultCaderno c) (ct_roundingRanges c) (ct_roundingRules c)
    l (ct_rules c) (ct_clusters c) (ct_members c) (ct_campaigns c) (ct_connections c).
Definition set_campaigns (m : gmap Z CampaignRow) (c : Catalog N) : Catalog N :=
  Build_Catalog (ct_tenants c) (ct_products c) (ct_productItems c) (ct_offerBook c) (ct_shared c)
    (ct_stores c) (ct_origins c) (ct_defaultCaderno c) (ct_roundingRanges c) (ct_roundingRules c)
    (ct_classifications c) (ct_rules c) (ct_clusters c) (ct_members c) m (ct_connections c).

Definition with_products (f : gmap Z ProductRow → gmap Z ProductRow) : SyncDb N → SyncDb N :=
  with_sy_catalog (λ c, set_products (f (ct_products c)) c).

End SyncM.
Arguments Sy : clear implicits.

(** [dedupeByEan]: the last input of a key wins; sorted by the key, so that
    concurrent batches lock rows in one order. *)
Definition dedupeByEan {A} (key : A → string) (inputs : list A) : list A :=
  snd <$> js_sort (λ a b, negb (str_ltb b.1 a.1)) (js_map_of ((λ i, (key i, i)) <$> inputs)).

(** A value fits [numeric(prec, scale)] when its magnitude is below
    [10 ^ (prec - scale)]. *)
Definition fits (prec scale : nat) (n : Numeric) : bool :=
  Z.abs (nm_unscaled n) * 10 ^ Z.of_nat scale <? 10 ^ Z.of_nat prec * 10 ^ Z.of_nat (nm_scale n).

Definition numeric_overflow : Exn := EError "numeric field overflow".

Section Repositories.
Context {N : Type} `{JsNum N}.
Variable to_numeric : nat → N → Numeric.
(** [uuid_generate_v4()] *)
Variable uuid : gset string → string.

Definition numeric_col (prec scale : nat) (x : option N) : Res (option Numeric) :=
  match x with
  | None => Ok None
  | Some x => let n := to_numeric scale x in if fits prec scale n then Ok (Some n) else Throw numeric_overflow
  end.

(* ------------------------------------------------------------------ *)
(** * product.repository.ts                                             *)
(* ------------------------------------------------------------------ *)

Record ProductUpsertInput := {
  pu_ean : string;
  pu_externalId : option string;
  pu_name : option string;
  pu_active : option bool;
  pu_price : option N;
  pu_cost : option N;
  pu_averageUnitCost : option N;
  pu_unitSalePrice : option N;
  pu_supplier : option string;
  pu_receiptDate : option Z;
  pu_monitored : option bool;
  pu_classificationId : option string;
  pu_deals : option (gmap string (ProductDeal N));
}.

Definition with_externalId (x : option string) (p : ProductRow) : ProductRow :=
  {| p_id := p_id p; p_name := p_name p; p_supplier := p_supplier p; p_status := p_status p;
     p_active := p_active p; p_deleted := p_deleted p; p_price := p_price p; p_cost := p_cost p;
     p_classificationId := p_classificationId p; p_monitored := p_monitored p;
     p_externalId := x; p_averageUnitCost := p_averageUnitCost p;
     p_unitSalePrice := p_unitSalePrice p; p_margin := p_margin p |}.

(** [UPDATE product SET external_id = NULL WHERE external_id IN (...) AND
    ean NOT IN (...)] *)
Definition release_row (ids : list string) (eans : list Z) (z : Z) (p : ProductRow) : ProductRow :=
  match p_externalId p with
  | Some x => if bool_decide (x ∈ ids) && negb (bool_decide (z ∈ eans)) then with_externalId None p else p
  | None => p
  end.

Definition releaseConflictingExternalIds (chunk : list ProductUpsertInput) : Sy N unit :=
  match filter (λ c, is_Some (pu_externalId c)) chunk with
  | [] => mret ()
  | withExternal =>
      eans ← sy_lift (ean_casts (pu_ean <$> withExternal));
      sy_modify (with_products (map_imap (λ z p, Some (release_row (omap pu_externalId withExternal) eans z p))))
  end.

(** Another row holds this external id: [UQ_PRODUCT_EXTERNAL_ID]. *)
Definition external_taken (products : gmap Z ProductRow) (z : Z) (x : option string) : bool :=
  match x with
  | None => false
  | Some x => existsb (λ zp, negb (zp.1 =? z) && bool_decide (p_externalId zp.2 = Some x)) (map_to_list products)
  end.

Definition unique_violation : Exn :=
  EError "duplicate key value violates unique constraint UQ_PRODUCT_EXTERNAL_ID".

Definition product_ids (products : gmap Z ProductRow) : gset string :=
  list_to_set ((λ zp, p_id zp.2) <$> map_to_list products).

(** The row of an input: the sync's columns over the row there was. *)
Definition upserted (id : string) (old : option ProductRow) (i : ProductUpsertInput)
    (price cost avgCost unitPrice : option Numeric) : ProductRow :=
  {| p_id := id; p_name := pu_name i; p_supplier := pu_supplier i;
     p_status := old ≫= p_status;
     p_active := default true (pu_active i);
     p_deleted := match old with Some p => p_deleted p | None => false end;
     p_price := price; p_cost := cost; p_classificationId := pu_classificationId i;
     p_monitored := default false (pu_monitored i); p_externalId := pu_externalId i;
     p_averageUnitCost := avgCost; p_unitSalePrice := unitPrice; p_margin := old ≫= p_margin |}.

(** One row of [INSERT ... ON CONFLICT (ean) DO UPDATE]. *)
Definition upsert_product (i : ProductUpsertInput) : Sy N unit :=
  s ← sy_get;
  let products := ct_products (sy_catalog s) in
  z ← sy_lift (ean_cast (pu_ean i));
  price ← sy_lift (numeric_col 12 2 (pu_price i));
  cost ← sy_lift (numeric_col 12 4 (pu_cost i));
  avgCost ← sy_lift (numeric_col 12 4 (pu_averageUnitCost i));
  unitPrice ← sy_lift (numeric_col 12 2 (pu_unitSalePrice i));
  if external_taken products z (pu_externalId i) then sy_lift (Throw unique_violation)
  else
    let id := match products !! z with Some p => p_id p | None => uuid (product_ids products) end in
    let row := upserted id (products !! z) i price cost avgCost unitPrice in
    let extra := {| px_receiptDate := pu_receiptDate i; px_deals := pu_deals i;
                    px_averageVariation := sy_extra s !! z ≫= px_averageVariation |} in
    sy_modify (λ s, with_sy_extra (<[z := extra]>) (with_products (<[z := row]>) s)).

Definition upsertManyByEan (inputs : list ProductUpsertInput) : Sy N unit :=
  match inputs with
  | [] => mret ()
  | _ =>
      let deduped := dedupeByEan pu_ean inputs in
      releaseConflictingExternalIds deduped;;
      sy_each upsert_product deduped
  end.

(** [findAllEans], [findEansMissingColumn] *)
Definition eans_where (P : ProductRow → bool) (s : SyncDb N) : list string :=
  ean_text <$> js_sort Z.leb (omap (λ zp : Z * ProductRow, if P zp.2 && negb (p_deleted zp.2) then Some zp.1 else None)
                                (map_to_list (ct_products (sy_catalog s)))).
Definition findAllEans : SyncDb N → list string := eans_where (λ _, true).

Record MetricsUpdate := { mu_ean : string; mu_margin : option N; mu_averageVariation : option N; mu_status : option string }.

Definition with_metrics (margin : option Numeric) (status : option string) (p : ProductRow) : ProductRow :=
  {| p_id := p_id p; p_name := p_name p; p_supplier := p_supplier p; p_status := status;
     p_active := p_active p; p_deleted := p_deleted p; p_price := p_price p; p_cost := p_cost p;
     p_classificationId := p_classificationId p; p_monitored := p_monitored p;
     p_externalId := p_externalId p; p_averageUnitCost := p_averageUnitCost p;
     p_unitSalePrice := p_unitSalePrice p; p_margin := margin |}.

Definition with_variation (v : option Numeric) (x : ProductExtra N) : ProductExtra N :=
  Build_ProductExtra (px_receiptDate x) (px_deals x) v.
Definition empty_extra : ProductExtra N := Build_ProductExtra None None None.

(** A row of the [UPDATE ... FROM (VALUES ...)]: both metrics are
    [numeric(8,4)]; an EAN without product updates nothing. *)
Definition update_metrics (u : MetricsUpdate) : Sy N unit :=
  s ← sy_get;
  z ← sy_lift (ean_cast (mu_ean u));
  match ct_products (sy_catalog s) !! z with
  | None => mret ()
  | Some p =>
      margin ← sy_lift (numeric_col 8 4 (mu_margin u));
      variation ← sy_lift (numeric_col 8 4 (mu_averageVariation u));
      sy_modify (λ s, with_sy_extra (partial_alter (λ x, Some (with_variation variation (default empty_extra x))) z)
                        (with_products (<[z := with_metrics margin (mu_status u) p]>) s))
  end.

Definition updateMetricsBatch (rows : list MetricsUpdate) : Sy N unit := sy_each update_metrics rows.

Inductive TextColumn := col_supplier | col_name.
Definition column (c : TextColumn) (p : ProductRow) : option string :=
  match c with col_supplier => p_supplier p | col_name => p_name p end.
Definition with_column (c : TextColumn) (v : option string) (p : ProductRow) : ProductRow :=
  {| p_id := p_id p;
     p_name := match c with col_name => v | _ => p_name p end;
     p_supplier := match c with col_supplier => v | _ => p_supplier p end;
     p_status := p_status p;
     p_active := p_active p; p_deleted := p_deleted p; p_price := p_price p; p_cost := p_cost p;
     p_classificationId := p_classificationId p; p_monitored := p_monitored p;
     p_externalId := p_externalId p; p_averageUnitCost := p_averageUnitCost p;
     p_unitSalePrice := p_unitSalePrice p; p_margin := p_margin p |}.

(** [SET column = u.value ... WHERE p.ean = u.ean AND p.column IS NULL] *)
Definition updateColumnByEan (c : TextColumn) (rows : list (string * option string)) : Sy N unit :=
  sy_each (λ r : string * option string,
    z ← sy_lift (ean_cast r.1);
    sy_modify (with_products (alter (λ p, match column c p with
                                         | None => with_column c r.2 p | Some _ => p end) z))) rows.

Definition findEansMissingColumn (c : TextColumn) : SyncDb N → list string :=
  eans_where (λ p, bool_decide (column c p = None)).

(* ------------------------------------------------------------------ *)
(** * offer-book, product-item, product-stock, offer-campaign           *)
(* ------------------------------------------------------------------ *)

Record OfferBookUpsertInput := {
  ou_ean : string; ou_description : option string; ou_targetPrice : option N; ou_externalId : option Z;
}.

Definition upsert_offer_book (i : OfferBookUpsertInput) : Sy N unit :=
  z ← sy_lift (ean_cast (ou_ean i));
  target ← sy_lift (numeric_col 12 2 (ou_targetPrice i));
  sy_modify (with_sy_catalog (λ c, set_offerBook (<[z := {| of_description := ou_description i;
    of_target_price := target; of_external_id := ou_externalId i |}]> (ct_offerBook c)) c)).

Definition upsertOfferBooks (inputs : list OfferBookUpsertInput) : Sy N unit :=
  sy_each upsert_offer_book (dedupeByEan ou_ean inputs).

Record ProductItemUpsertInput := {
  iu_productId : string; iu_storeId : string; iu_price : option N; iu_priceOffer : option N;
  iu_cost : option N; iu_offerExternalId : option Z; iu_offerDescription : option string;
}.

Definition upsert_item (i : ProductItemUpsertInput) : Sy N unit :=
  price ← sy_lift (numeric_col 12 2 (iu_price i));
  offer ← sy_lift (numeric_col 12 2 (iu_priceOffer i));
  cost ← sy_lift (numeric_col 12 4 (iu_cost i));
  sy_modify (with_sy_catalog (λ c, set_productItems (<[(iu_productId i, iu_storeId i) :=
    {| pi_price := price; pi_cost := cost; pi_price_offer := offer;
       pi_offer_external_id := iu_offerExternalId i; pi_offer_description := iu_offerDescription i |}]>
    (ct_productItems c)) c)).

Definition upsertItems (inputs : list ProductItemUpsertInput) : Sy N unit := sy_each upsert_item inputs.

Record ProductStockUpsertInput := { su_ean : string; su_storeExternalId : Z; su_quantity : Z }.

Definition INT_MAX : Z := 2147483647.

Definition upsert_stock (i : ProductStockUpsertInput) : Sy N unit :=
  z ← sy_lift (ean_cast (su_ean i));
  if INT_MAX <? su_quantity i then sy_lift (Throw (EError "value out of range for type integer"))
  else sy_modify (with_sy_stock (<[(z, su_storeExternalId i) := su_quantity i]>)).

(** [dedupe] keeps the position of the first and the value of the last. *)
Definition upsertStock (inputs : list ProductStockUpsertInput) : Sy N unit :=
  sy_each upsert_stock (snd <$> js_map_of ((λ i, ((su_ean i, su_storeExternalId i), i)) <$> inputs)).

Definition deleteByEans (eans : list string) : Sy N unit :=
  zs ← sy_lift (ean_casts eans);
  sy_modify (with_sy_stock (filter (λ kv, kv.1.1 ∉ zs))).

Record CampaignUpsertInput := {
  cu_externalId : Z; cu_name : string; cu_active : bool; cu_startDate : option Z; cu_expirationDate : option Z;
}.

Definition upsert_campaign (i : CampaignUpsertInput) : Sy N unit :=
  sy_modify (with_sy_catalog (λ c, set_campaigns (<[cu_externalId i :=
    {| cp_name := cu_name i; cp_active := cu_active i; cp_startDate := cu_startDate i;
       cp_expirationDate := cu_expirationDate i;
       cp_deleted := match ct_campaigns c !! cu_externalId i with Some r => cp_deleted r | None => false end |}]>
    (ct_campaigns c)) c)).

Definition upsertManyByExternalId (inputs : list CampaignUpsertInput) : Sy N unit := sy_each upsert_campaign inputs.

(* ------------------------------------------------------------------ *)
(** * base-product.repository.ts                                        *)
(* ------------------------------------------------------------------ *)

Record BaseProductUpsertInput := { bu_ean : string; bu_description : option string; bu_generic : bool }.

(** [INSERT ... ON CONFLICT DO NOTHING] *)
Definition insert_base (i : BaseProductUpsertInput) : Sy N unit :=
  z ← sy_lift (ean_cast (bu_ean i));
  sy_modify (with_sy_base (partial_alter (λ old, match old with
    | Some r => Some r
    | None => Some {| bs_description := bu_description i; bs_activeIngredient := None; bs_generic := bu_generic i;
                      bs_weight := None; bs_height := None; bs_length := None; bs_width := None |}
    end) z)).

Definition insertNewByEan (inputs : list BaseProductUpsertInput) : Sy N unit :=
  sy_each insert_base (dedupeByEan bu_ean inputs).

Record Measures := { me_weight : option Numeric; me_height : option Numeric; me_length : option Numeric; me_width : option Numeric }.

Definition with_measures (m : Measures) (r : BaseProductRow) : BaseProductRow :=
  {| bs_description := bs_description r; bs_activeIngredient := bs_activeIngredient r; bs_generic := bs_generic r;
     bs_weight := me_weight m; bs_height := me_height m; bs_length := me_length m; bs_width := me_width m |}.

Definition updateWeights (rows : list (string * option Numeric)) : Sy N unit :=
  sy_each (λ r : string * option Numeric,
    z ← sy_lift (ean_cast r.1);
    sy_modify (with_sy_base (alter (λ b, match bs_weight b with
      | None => with_measures (Build_Measures r.2 (bs_height b) (bs_length b) (bs_width b)) b
      | Some _ => b end) z))) rows.

(** The WHERE clause only skips rows on which every COALESCE is the old value. *)
Definition updateMeasures (rows : list (string * Measures)) : Sy N unit :=
  sy_each (λ r : string * Measures,
    z ← sy_lift (ean_cast r.1);
    sy_modify (with_sy_base (alter (λ b,
      if bool_decide (bs_height b = None) || bool_decide (bs_length b = None)
         || bool_decide (bs_width b = None) || bool_decide (bs_weight b = None)
      then with_measures (Build_Measures (COALESCE (bs_weight b) (me_weight r.2)) (COALESCE (bs_height b) (me_height r.2))
                            (COALESCE (bs_length b) (me_length r.2)) (COALESCE (bs_width b) (me_width r.2))) b
      else b) z))) rows.

(** [findEansMissingPredicate]: in the tenant's live catalogue. *)
Definition findEansMissingPredicate (P : BaseProductRow → bool) (s : SyncDb N) : list string :=
  ean_text <$> js_sort Z.leb (omap (λ zb : Z * BaseProductRow,
    match ct_products (sy_catalog s) !! zb.1 with
    | Some p => if P zb.2 && negb (p_deleted p) then Some zb.1 else None
    | None => None
    end) (map_to_list (sy_base s))).
Definition findEansMissingWeight : SyncDb N → list string :=
  findEansMissingPredicate (λ b, bool_decide (bs_weight b = None)).
Definition findEansMissingMeasures : SyncDb N → list string :=
  findEansMissingPredicate (λ b, bool_decide (bs_height b = None) && bool_decide (bs_length b = None)
                                 && bool_decide (bs_width b = None)).

(* ------------------------------------------------------------------ *)
(** * shared-catalog product.repository.ts                              *)
(* ------------------------------------------------------------------ *)

(** [ScrapedProduct]; of [metadata], the two fields that are read. *)
Record ScrapedProduct := {
  sp_ean : string; sp_origin : CompetitorOrigin; sp_found : bool; sp_name : option string;
  sp_price : option N; sp_supplier : option string; sp_brand : option string; sp_sku : option string;
  sp_weight : option N; sp_height : option N; sp_length : option N; sp_width : option N;
  sp_isPbm : bool; sp_van : option string; sp_error : option string;
}.

Definition upsert_scrape (p : ScrapedProduct) : Sy N unit :=
  z ← sy_lift (ean_cast (sp_ean p));
  price ← sy_lift (numeric_col 12 2 (sp_price p));
  weight ← sy_lift (numeric_col 10 3 (sp_weight p));
  height ← sy_lift (numeric_col 10 4 (sp_height p));
  length ← sy_lift (numeric_col 10 4 (sp_length p));
  width ← sy_lift (numeric_col 10 4 (sp_width p));
  let key := (z, origin_str (sp_origin p)) in
  sy_modify (λ s, with_sy_scraped (<[key := {| sr_found := sp_found p; sr_name := sp_name p;
      sr_supplier := sp_supplier p; sr_brand := sp_brand p; sr_sku := sp_sku p; sr_weight := weight;
      sr_height := height; sr_length := length; sr_width := width |}]>)
    (with_sy_catalog (λ c, set_shared (<[key := {| sh_price := price; sh_isPbm := sp_isPbm p;
      sh_van := sp_van p; sh_deleted := false |}]> (ct_shared c)) c) s)).

(** [scrapes.filter((s) => !s.error)] *)
Definition persistable (scrapes : list ScrapedProduct) : list ScrapedProduct :=
  filter (λ p, truthy (sp_error p) = None) scrapes.

(** One [INSERT ... ON CONFLICT DO UPDATE], which refuses to write a row
    twice. *)
Definition upsertScrapes (scrapes : list ScrapedProduct) : Sy N unit :=
  zs ← sy_lift (ean_casts (sp_ean <$> persistable scrapes));
  if bool_decide (NoDup (zip zs (origin_str ∘ sp_origin <$> persistable scrapes))) then sy_each upsert_scrape (persistable scrapes)
  else sy_lift (Throw (EError "ON CONFLICT DO UPDATE command cannot affect row a second time")).

(** [recheck] is the outcome of [random() >= 0.1] for a row. *)
Definition findNotFoundEans (recheck : Z → bool) (origin : CompetitorOrigin) (eans : list string) (s : SyncDb N) :
    Res (list string) :=
  zs ← ean_casts eans;
  Ok (ean_text <$> filter (λ z, match sy_scraped s !! (z, origin_str origin) with
                                | Some r => negb (sr_found r) && recheck z
                                | None => false end = true) (js_uniq zs)).

End Repositories.
