(* ===== verification/ErpReplica.v ===== *)
(** The ERP's replica (A7Pharma) as the synchronisation reads it:
    [integration/entities/a7pharma/], [integration/repositories/a7pharma/].

    Tables are lists of rows; a bigint is [Z], a numeric its exact decimal
    ([NumericColumn] parses it with [parseFloat]: [dec_of]).  Arithmetic of
    the queries is PostgreSQL's: products and sums of decimals are exact, and
    so is the division by 100 of a [numeric(15,4)]. *)

From Stdlib Require Import Ascii String.
From S2P Require Import Prelude JsText JsNumber Enums Messages World Classification SuggestionEngine PricingDb Chunker.
Open Scope string_scope.
Open Scope list_scope.
Open Scope Z_scope.

(* ------------------------------------------------------------------ *)
(** * Tables                                                            *)
(* ------------------------------------------------------------------ *)

Record Embalagem := {
  eb_id : Z;
  eb_produtoid : Z;
  eb_apresentacao : option string;
  eb_codigobarras : option string;
  eb_quantidadeporembalagem : Z;
  eb_precoreferencial : Numeric;
  eb_precovenda : Numeric;
  eb_gruporemarcacaoid : option Z;
  eb_descricao : string;
}.

(** [produto]; [pd_fabricante] is the [pessoa.nome] of its manufacturer. *)
Record Produto := { pd_status : string; pd_tipopreco : string; pd_fabricanteid : Z; pd_fabricante : option string }.

Record Estoque := { es_embalagemid : Z; es_unidadenegocioid : Z; es_estoque : Numeric }.

Record Classificacao := { cl_principal : bool; cl_caminho : string }.

Record CustoProduto := {
  cu_produtoid : Z; cu_unidadenegocioid : Z; cu_custo : Numeric; cu_customedio : Numeric; cu_itemnotafiscalid : option Z;
}.

Record CadernoOferta := {
  co_id : Z;
  co_nome : string;
  co_status : string;
  co_crmapenasgrupoconsumidor : bool;
  co_validoapenascupomdesconto : bool;
  co_validoapenasprevencido : bool;
  co_formapagamentoaceita : string;
  (** [diasemanasegunda] to [diasemanadomingo] *)
  co_diasemana : list bool;
  co_datahorainicial : option Z;
  co_datahorafinal : option Z;
}.

Record ItemCadernoOferta := {
  ic_id : Z;
  ic_embalagemid : option Z;
  ic_cadernoofertaid : Z;
  ic_tipooferta : string;
  ic_precooferta : option Numeric;
  ic_descontooferta : option Numeric;
  ic_tipoitem : string;
  ic_gruporemarcacaoid : option Z;
  ic_fabricanteid : option Z;
  ic_classificacaoid : option Z;
  ic_markup : option Numeric;
  ic_descontoporqtdtipo : string;
  ic_comboofertaid : option Z;
}.

Record ItemQuantidade := {
  iq_id : Z;
  iq_itemcadernoofertaid : Z;
  iq_quantidade : Z;
  iq_desconto : option Numeric;
  iq_preco : option Numeric;
  iq_precototal : option Numeric;
  iq_markup : option Numeric;
  iq_descontototal : option Numeric;
}.

Record PrecoUnidade := {
  pn_embalagemid : Z; pn_unidadenegocioid : Z; pn_precovenda : Numeric; pn_precoreferencial : option Numeric;
}.

Record UnidadeNegocio := {
  un_id : Z; un_status : string; un_nome : option string; un_nomefantasia : option string;
  un_razaosocial : option string; un_cnpj : option string;
}.

Record A7 := {
  a7_embalagem : list Embalagem;
  a7_produto : gmap Z Produto;
  a7_estoque : list Estoque;
  a7_classificacao : gmap Z Classificacao;
  a7_classificacaoproduto : list (Z * Z);
  a7_custoproduto : list CustoProduto;
  a7_cadernooferta : list CadernoOferta;
  a7_itemcadernooferta : list ItemCadernoOferta;
  a7_quantidade : list ItemQuantidade;
  (** [unidadenegocioparticipantecadernooferta]: [(caderno, unidade)] *)
  a7_participante : list (Z * Z);
  a7_precounidade : list PrecoUnidade;
  (** [itemrecebimentofisico] with the time of its [recebimentofisico] *)
  a7_recebimento : list (Z * Z);
  a7_unidadenegocio : list UnidadeNegocio;
}.

(* ------------------------------------------------------------------ *)
(** * Decimals                                                          *)
(* ------------------------------------------------------------------ *)

Definition nm_one : Numeric := Num 1 0.
Definition nm_mul (a b : Numeric) : Numeric := Num (nm_unscaled a * nm_unscaled b) (nm_scale a + nm_scale b).
Definition nm_add (a b : Numeric) : Numeric :=
  Num (nm_unscaled a * 10 ^ Z.of_nat (nm_scale b) + nm_unscaled b * 10 ^ Z.of_nat (nm_scale a)) (nm_scale a + nm_scale b).
Definition nm_sub (a b : Numeric) : Numeric := nm_add a (Num (- nm_unscaled b) (nm_scale b)).
(** [COALESCE(x / 100, 0)] *)
Definition nm_pct (x : option Numeric) : Numeric :=
  match x with Some x => Num (nm_unscaled x) (nm_scale x + 2) | None => Num 0 0 end.

(* ------------------------------------------------------------------ *)
(** * embalagem.repository.ts, estoque, unidade-negocio                 *)
(* ------------------------------------------------------------------ *)

Section A7Repositories.
Variable a7 : A7.
Variable now : Z.

(** [validQuery] *)
Definition validQuery (e : Embalagem) : bool :=
  match eb_codigobarras e with
  | None | Some "" => false
  | Some _ => eb_quantidadeporembalagem e =? 1
  end.

Definition by_id (l : list Embalagem) : list Embalagem := js_sort (λ a b, eb_id a <=? eb_id b) l.

Definition valid_embalagens : list Embalagem := by_id (filter (λ e, validQuery e = true) (a7_embalagem a7)).

Definition barcode_row (e : Embalagem) : EmbalagemRow := Build_EmbalagemRow (eb_id e) (eb_codigobarras e).

Definition findAllValidWithBarcode : list EmbalagemRow := barcode_row <$> valid_embalagens.

Definition findByIdsWithRelations (ids : list Z) : list Embalagem :=
  filter (λ e, eb_id e ∈ ids) valid_embalagens.

Definition findProdutoIdsByIds (ids : list Z) : list (Z * Z) :=
  (λ e, (eb_id e, eb_produtoid e)) <$> filter (λ e, eb_id e ∈ ids) (a7_embalagem a7).

(** Rows with [estoque > 0]. *)
Definition estoqueByEmbalagemIds (ids : list Z) : list Estoque :=
  filter (λ r, es_embalagemid r ∈ ids ∧ 0 < nm_unscaled (es_estoque r)) (a7_estoque a7).

(** [status = 'A' AND cnpj IS NOT NULL ORDER BY id] *)
Definition findAllActive : list UnidadeNegocio :=
  js_sort (λ a b, un_id a <=? un_id b)
    (filter (λ u, un_status u = "A" ∧ is_Some (un_cnpj u)) (a7_unidadenegocio a7)).

Definition findAllCadernos : list CadernoOferta := js_sort (λ a b, co_id a <=? co_id b) (a7_cadernooferta a7).

(* ------------------------------------------------------------------ *)
(** * custo-produto, classificacao-produto, recebimento, preco          *)
(* ------------------------------------------------------------------ *)

(** [MAX(itemnotafiscalid)] of the produto; NULLs are ignored. *)
Definition max_nota (produtoid : Z) : option Z :=
  foldr (λ c m, match cu_itemnotafiscalid c, m with
                | Some x, Some y => Some (Z.max x y) | Some x, None => Some x | None, m => m end)
    None (filter (λ c, cu_produtoid c = produtoid) (a7_custoproduto a7)).

Definition findLatestByProdutoIds (ids : list Z) : list CustoProduto :=
  filter (λ c, cu_produtoid c ∈ ids ∧ is_Some (cu_itemnotafiscalid c)
               ∧ cu_itemnotafiscalid c = max_nota (cu_produtoid c)) (a7_custoproduto a7).

Definition custoByProdutoIdsAndUnidade (ids : list Z) (unidade : Z) : list CustoProduto :=
  filter (λ c, cu_produtoid c ∈ ids ∧ cu_unidadenegocioid c = unidade) (a7_custoproduto a7).

(** [(produtoid, caminho)] of the principal classifications. *)
Definition findPrincipalClassificationByProdutoIds (ids : list Z) : list (Z * string) :=
  omap (λ '(p, k), if decide (p ∈ ids) then
      match a7_classificacao a7 !! k with
      | Some c => if cl_principal c then Some (p, cl_caminho c) else None
      | None => None
      end else None) (a7_classificacaoproduto a7).

(** [MAX(datahora) GROUP BY embalagemid] *)
Definition findLatestReceiptDate (ids : list Z) : list (Z * Z) :=
  omap (λ e, match filter (λ r : Z * Z, r.1 = e) (a7_recebimento a7) with
             | [] => None
             | r :: rs => Some (e, foldr Z.max r.2 rs.*2)
             end) (js_uniq ids).

Definition precoByEmbalagemIdsAndUnidade (ids : list Z) (unidade : Z) : list PrecoUnidade :=
  filter (λ p, pn_embalagemid p ∈ ids ∧ pn_unidadenegocioid p = unidade) (a7_precounidade a7).

(* ------------------------------------------------------------------ *)
(** * item-caderno-oferta.repository.ts                                 *)
(* ------------------------------------------------------------------ *)

(** The "truly active" filters both queries share. *)
Definition caderno_active (co : CadernoOferta) : bool :=
  String.eqb (co_status co) "A" && negb (co_crmapenasgrupoconsumidor co) && negb (co_validoapenascupomdesconto co)
  && negb (co_validoapenasprevencido co) && String.eqb (co_formapagamentoaceita co) "A"
  && forallb negb (co_diasemana co)
  && match co_datahorafinal co with Some t => now <=? t | None => true end.

Definition caderno_of (i : ItemCadernoOferta) : option CadernoOferta :=
  head (filter (λ co, co_id co = ic_cadernoofertaid i) (a7_cadernooferta a7)).

Definition embalagem_of (id : Z) : option Embalagem := head (filter (λ e, eb_id e = id) (a7_embalagem a7)).

Definition positive (x : option Numeric) : bool := match x with Some n => 0 <? nm_unscaled n | None => false end.

Definition quantidades_of (itemid : Z) : list ItemQuantidade :=
  filter (λ q, iq_itemcadernoofertaid q = itemid) (a7_quantidade a7).

Definition effective_price (i : ItemCadernoOferta) (e : Embalagem) : option Numeric :=
  match ic_precooferta i, ic_descontooferta i with
  | Some p, _ => Some p
  | None, Some d => Some (nm_mul (eb_precovenda e) (nm_sub nm_one (nm_pct (Some d))))
  | None, None => None
  end.

(** NULLS LAST. *)
Definition price_nulls_last (a b : option Numeric) : bool :=
  match a, b with
  | Some x, Some y => numeric_le x y
  | Some _, None => true
  | None, Some _ => false
  | None, None => true
  end.

(** An item of the first query, with its caderno and effective price. *)
Record BestOffer := { bo_item : ItemCadernoOferta; bo_caderno : CadernoOferta; bo_effective : option Numeric }.

Definition best_offer_rows (id : Z) : list BestOffer :=
  omap (λ i,
    if bool_decide (ic_embalagemid i = Some id) && bool_decide (ic_comboofertaid i = None)
       && (positive (ic_precooferta i) || positive (ic_descontooferta i) || negb (bool_decide (quantidades_of (ic_id i) = [])))
    then co ← caderno_of i; e ← embalagem_of id;
         if caderno_active co then Some (Build_BestOffer i co (effective_price i e)) else None
    else None) (a7_itemcadernooferta a7).

(** [DISTINCT ON (embalagemid)]: the cheapest offer; among equal prices the
    order of the table. *)
Definition findBestOffersWithDeals (ids : list Z) : list (Z * BestOffer) :=
  omap (λ id, o ← head (js_sort (λ a b, price_nulls_last (bo_effective a) (bo_effective b)) (best_offer_rows id));
              Some (id, o)) (js_uniq ids).

(** Quantity tiers of the active cadernos, with the embalagem of the item. *)
Definition quantidadesByEmbalagemIds (ids : list Z) : list (Z * ItemQuantidade) :=
  omap (λ q,
    i ← head (filter (λ i, ic_id i = iq_itemcadernoofertaid q) (a7_itemcadernooferta a7));
    co ← caderno_of i;
    e ← ic_embalagemid i;
    if bool_decide (e ∈ ids) && caderno_active co then Some (e, q) else None) (a7_quantidade a7).

(** ** findStoreOffers *)

Record StoreOffer := {
  so_embalagemid : Z;
  so_unidadenegocioid : Z;
  so_tipoitem : string;
  so_itemid : Z;
  so_cadernoofertaid : Z;
  so_cadernoNome : string;
  so_precoCadastro : Numeric;
  so_precoFinalOferta : option Numeric;
}.

(** [ativos]: also started. *)
Definition ativo (co : CadernoOferta) : bool :=
  caderno_active co && match co_datahorainicial co with Some t => t <=? now | None => true end.

(** [itens]: the four ways an item reaches an embalagem. *)
Definition item_reaches (i : ItemCadernoOferta) (e : Embalagem) : bool :=
  if String.eqb (ic_tipoitem i) "A" then bool_decide (ic_embalagemid i = Some (eb_id e))
  else if String.eqb (ic_tipoitem i) "B" then
    match eb_gruporemarcacaoid e with Some g => bool_decide (ic_gruporemarcacaoid i = Some g) | None => false end
  else if String.eqb (ic_tipoitem i) "C" then
    match a7_produto a7 !! eb_produtoid e with
    | Some p => bool_decide (ic_fabricanteid i = Some (pd_fabricanteid p)) | None => false end
  else if String.eqb (ic_tipoitem i) "D" then
    match ic_classificacaoid i with Some k => bool_decide ((eb_produtoid e, k) ∈ a7_classificacaoproduto a7) | None => false end
  else false.

(** A caderno without participants covers every store. *)
Definition covers (co : CadernoOferta) (unidade : Z) : bool :=
  let ps := filter (λ p : Z * Z, p.1 = co_id co) (a7_participante a7) in
  match ps with [] => true | _ => bool_decide (unidade ∈ ps.*2) end.

Definition preco_unidade (embalagemid unidade : Z) : option PrecoUnidade :=
  head (filter (λ p, pn_embalagemid p = embalagemid ∧ pn_unidadenegocioid p = unidade) (a7_precounidade a7)).

(** [preco_cadastro]: the shelf price of the store. *)
Definition preco_cadastro (e : Embalagem) (unidade : Z) : Numeric :=
  match preco_unidade (eb_id e) unidade with Some p => pn_precovenda p | None => eb_precovenda e end.
Definition preco_referencial (e : Embalagem) (unidade : Z) : Numeric :=
  default (eb_precoreferencial e) (preco_unidade (eb_id e) unidade ≫= pn_precoreferencial).

Definition custo_unidade (produtoid unidade : Z) : option CustoProduto :=
  head (filter (λ c, cu_produtoid c = produtoid ∧ cu_unidadenegocioid c = unidade) (a7_custoproduto a7)).

Definition plus_markup (base : option Numeric) (markup : option Numeric) : option Numeric :=
  b ← base; Some (nm_mul b (nm_add nm_one (nm_pct markup))).
Definition minus_discount (base : Numeric) (desconto : option Numeric) : Numeric :=
  nm_mul base (nm_sub nm_one (nm_pct desconto)).

(** [q1]: the tier of quantity 1 with the highest id. *)
Definition tier_one (itemid : Z) : option ItemQuantidade :=
  head (js_sort (λ a b, iq_id b <=? iq_id a) (filter (λ q, iq_quantidade q = 1) (quantidades_of itemid))).

Definition preco_calc (i : ItemCadernoOferta) (e : Embalagem) (unidade : Z) : option Numeric :=
  let cadastro := preco_cadastro e unidade in
  let referencial := preco_referencial e unidade in
  let custo := cu_custo <$> custo_unidade (eb_produtoid e) unidade in
  let medio := cu_customedio <$> custo_unidade (eb_produtoid e) unidade in
  let q1 := tier_one (ic_id i) in
  let tipo := ic_tipooferta i in
  let por := ic_descontoporqtdtipo i in
  if String.eqb tipo "P" then ic_precooferta i
  else if String.eqb tipo "D" then Some (minus_discount cadastro (ic_descontooferta i))
  else if String.eqb tipo "L" then Some cadastro
  else if String.eqb tipo "R" then plus_markup (Some referencial) (ic_markup i)
  else if String.eqb tipo "C" then plus_markup custo (ic_markup i)
  else if String.eqb tipo "E" then plus_markup medio (ic_markup i)
  else if String.eqb tipo "Q" then
    if String.eqb por "A" then Some (minus_discount cadastro (q1 ≫= iq_desconto))
    else if String.eqb por "B" then q1 ≫= iq_preco
    else if String.eqb por "C" then q1 ≫= iq_precototal
    else if String.eqb por "D" then plus_markup custo (q1 ≫= iq_markup)
    else if String.eqb por "E" then plus_markup medio (q1 ≫= iq_markup)
    else if String.eqb por "F" then plus_markup (Some referencial) (q1 ≫= iq_markup)
    else None
  else None.

(** [precificado]: a price that is not positive is no price. *)
Definition precificado (x : option Numeric) : option Numeric :=
  match x with Some n => if 0 <? nm_unscaled n then Some n else None | None => None end.

Definition store_offer_candidates (e : Embalagem) (unidade : Z) : list StoreOffer :=
  omap (λ i,
    co ← caderno_of i;
    if ativo co && item_reaches i e && covers co unidade && bool_decide (ic_comboofertaid i = None)
    then Some {| so_embalagemid := eb_id e; so_unidadenegocioid := unidade; so_tipoitem := ic_tipoitem i;
                 so_itemid := ic_id i; so_cadernoofertaid := co_id co; so_cadernoNome := co_nome co;
                 so_precoCadastro := preco_cadastro e unidade;
                 so_precoFinalOferta := precificado (preco_calc i e unidade) |}
    else None) (a7_itemcadernooferta a7).

(** [LEAST(COALESCE(preco_final_oferta, preco_cadastro), preco_cadastro)] *)
Definition sell_price (o : StoreOffer) : Numeric :=
  let p := default (so_precoCadastro o) (so_precoFinalOferta o) in
  if numeric_le p (so_precoCadastro o) then p else so_precoCadastro o.

(** The ORDER BY of the window. *)
Definition rank_le (a b : StoreOffer) : bool :=
  if str_ltb (so_tipoitem a) (so_tipoitem b) then true
  else if str_ltb (so_tipoitem b) (so_tipoitem a) then false
  else if negb (numeric_le (sell_price b) (sell_price a)) then true
  else if negb (numeric_le (sell_price a) (sell_price b)) then false
  else if so_cadernoofertaid a <? so_cadernoofertaid b then true
  else if so_cadernoofertaid b <? so_cadernoofertaid a then false
  else so_itemid a <=? so_itemid b.

(** [rn = 1] *)
Definition store_winner (e : Embalagem) (unidade : Z) : option StoreOffer :=
  head (js_sort rank_le (store_offer_candidates e unidade)).

Definition findStoreOffers (embalagemIds unidadeIds : list Z) : list StoreOffer :=
  e ← filter (λ e, eb_id e ∈ embalagemIds) (a7_embalagem a7);
  omap (store_winner e) (js_uniq unidadeIds).

End A7Repositories.
