(* ===== verification/SyncSteps.v ===== *)
(** The bodies of the synchronisation steps ([pipeline/steps/]): what a
    batch reads from the ERP's replica and writes to the catalogue, the
    metrics step and the enrichment of products with scraped properties. *)

From Stdlib Require Import Ascii String.
From S2P Require Import Prelude JsText JsNumber Enums Messages World Classification SuggestionEngine PricingDb SuggestionRules Suggestions PricingApply Erp CatalogMutation Chunker TenantCatalog ErpReplica.
Open Scope string_scope.
Open Scope list_scope.
Open Scope Z_scope.

(* ------------------------------------------------------------------ *)
(** * Classification paths of the ERP                                   *)
(* ------------------------------------------------------------------ *)

Definition to_upper (c : ascii) : ascii :=
  if is_lower c then ascii_of_N (N_of_ascii c - 32) else c.
Definition str_upper : string → string := str_map to_upper.

(** [s.replace(/^PRINCIPAL\s*>\s*/i, '')] *)
Definition strip_principal (s : string) : string :=
  if String.eqb (str_upper (str_take 9 s)) "PRINCIPAL" then
    match str_ltrim (String.substring 9 (String.length s - 9) s) with
    | String ">" rest => str_ltrim rest
    | _ => s
    end
  else s.

(** The base letter of a Latin-1 letter [U+00C0 .. U+00FF], by the second
    byte of its UTF-8 encoding (the first is 0xC3). *)
Definition latin1_base (n : N) : option ascii :=
  (if (128 <=? n) && (n <=? 133) then Some "A"%char
   else if n =? 135 then Some "C"%char
   else if (136 <=? n) && (n <=? 139) then Some "E"%char
   else if (140 <=? n) && (n <=? 143) then Some "I"%char
   else if n =? 145 then Some "N"%char
   else if (146 <=? n) && (n <=? 150) then Some "O"%char
   else if (153 <=? n) && (n <=? 156) then Some "U"%char
   else if n =? 157 then Some "Y"%char
   else if (160 <=? n) && (n <=? 165) then Some "a"%char
   else if n =? 167 then Some "c"%char
   else if (168 <=? n) && (n <=? 171) then Some "e"%char
   else if (172 <=? n) && (n <=? 175) then Some "i"%char
   else if n =? 177 then Some "n"%char
   else if (178 <=? n) && (n <=? 182) then Some "o"%char
   else if (185 <=? n) && (n <=? 188) then Some "u"%char
   else if (n =? 189) || (n =? 191) then Some "y"%char
   else None)%N.

(** [normalize('NFD').replace(/\p{M}/gu, '')] on Latin-1 letters and on the
    combining marks [U+0300 .. U+036F]; other characters are kept. *)
Fixpoint strip_marks (s : string) : string :=
  match s with
  | String a s' =>
      match s' with
      | String b rest =>
          if (N_of_ascii a =? 195)%N then
            match latin1_base (N_of_ascii b) with
            | Some c => String c (strip_marks rest)
            | None => String a (String b (strip_marks rest))
            end
          else if ((N_of_ascii a =? 204) || ((N_of_ascii a =? 205) && (N_of_ascii b <=? 175)))%N
          then strip_marks rest
          else String a (strip_marks s')
      | EmptyString => s
      end
  | EmptyString => s
  end.

(** [normalizeClassificationKey] *)
Definition normalizeClassificationKey (classification : string) : string :=
  str_upper (str_filter (λ c, negb (is_space c)) (strip_marks classification)).

Definition isGenericClassification (classification : option string) : bool :=
  match truthy classification with
  | None => false
  | Some c => String.prefix (normalizeClassificationKey "GENERICO") (normalizeClassificationKey c)
  end.

Section SyncSteps.
Context {N : Type} `{JsNum N}.
Variable to_numeric : nat → N → Numeric.
Variable uuid : gset string → string.
(** the day of an instant, as a [date] column takes it *)
Variable to_day : Z → Z.

(** [toNumericString]: the number whose text is written. *)
Definition toNumericString (value : option N) : option N :=
  match value with Some x => if n_finite x then Some x else None | None => None end.

(* ------------------------------------------------------------------ *)
(** * classification.repository.ts                                      *)
(* ------------------------------------------------------------------ *)

(** [SELECT id ... WHERE name = $1 AND parent_id (=|IS) $2 AND deleted_at IS
    NULL]; the unique indexes leave one row. *)
Definition find_class (rows : list ClassificationEntity) (name : string) (parentId : option string) : option string :=
  cr_id ∘ ce_row <$> head (filter (λ e, cr_name (ce_row e) = name ∧ cr_parentId (ce_row e) = parentId
                                        ∧ ce_deleted e = false) rows).

Definition class_ids (rows : list ClassificationEntity) : list string := (cr_id ∘ ce_row) <$> rows.

(** [INSERT ... ON CONFLICT DO NOTHING] *)
Definition insert_class (name : string) (parentId : option string) (rows : list ClassificationEntity) :
    list ClassificationEntity :=
  match find_class rows name parentId with
  | Some _ => rows
  | None => rows ++ [{| ce_row := {| cr_id := uuid (list_to_set (class_ids rows)); cr_name := name;
                                     cr_parentId := parentId |}; ce_deleted := false |}]
  end.

(** What other transactions commit before each insert. *)
Variable others : list ClassificationEntity → list ClassificationEntity.

(** State of [upsertPaths]: the table and [idCache]. *)
Definition ClassState : Type := list ClassificationEntity * list (string * string).

Definition cacheKey (parentId : option string) (name : string) : string :=
  default "null" parentId +:+ "|" +:+ name.

Definition resolve (name : string) (parentId : option string) (st : ClassState) : Res (string * ClassState) :=
  let key := cacheKey parentId name in
  match truthy (js_map_get key st.2) with
  | Some id => Ok (id, st)
  | None =>
      let rows := insert_class name parentId (others st.1) in
      match find_class rows name parentId with
      | Some id => Ok (id, (rows, js_map_set key id st.2))
      | None => Throw (EError "Cannot read properties of undefined (reading 'id')")
      end
  end.

(** The loop over the segments: the id of the leaf. *)
Fixpoint resolve_segments (parts : list string) (parentId leafId : option string) (st : ClassState) :
    Res (option string * ClassState) :=
  match parts with
  | [] => Ok (leafId, st)
  | segment :: rest =>
      '(id, st) ← resolve segment parentId st;
      resolve_segments rest (Some id) (Some id) st
  end.

(** [raw.split('>').map(trim).filter(nonempty)] *)
Definition path_segments (raw : string) : list string :=
  filter (λ s, s ≠ "") (str_trim <$> str_split ">" raw).

Fixpoint resolve_paths (paths : list (string * list string)) (out : list (string * string)) (st : ClassState) :
    Res (list (string * string) * ClassState) :=
  match paths with
  | [] => Ok (out, st)
  | (path, parts) :: rest =>
      '(leaf, st) ← resolve_segments parts None None st;
      resolve_paths rest (match truthy leaf with Some id => js_map_set path id out | None => out end) st
  end.

Definition segmentsByPath (paths : list string) : list (string * list string) :=
  js_map_of (omap (λ raw, match path_segments raw with [] => None | parts => Some (raw, parts) end) paths).

Definition upsertPaths (paths : list string) (rows : list ClassificationEntity) :
    Res (list (string * string) * list ClassificationEntity) :=
  '(out, st) ← resolve_paths (segmentsByPath paths) [] (rows, []);
  Ok (out, st.1).

Definition sy_upsertPaths (paths : list string) : Sy N (list (string * string)) :=
  s ← sy_get;
  '(out, rows) ← sy_lift (upsertPaths paths (ct_classifications (sy_catalog s)));
  sy_modify (with_sy_catalog (set_classifications rows));;
  mret out.

(* ------------------------------------------------------------------ *)
(** * sync-base-product.step.ts                                         *)
(* ------------------------------------------------------------------ *)

(** Indexes keyed by [String(id)]: later rows win. *)
Definition index_by {A} (l : list (Z * A)) : gmap Z A := foldl (λ m '(k, v), <[k := v]> m) ∅ l.

(** [buildClassificationPathMap] *)
Definition classificationPathMap (rows : list (Z * string)) : gmap Z string :=
  index_by (omap (λ '(p, caminho), if String.eqb caminho "" then None else Some (p, strip_principal caminho)) rows).

(** [indexCostByProdutoId]: [custo] is never NULL. *)
Definition costByProdutoId (costs : list CustoProduto) : gmap Z N :=
  index_by ((λ c, (cu_produtoid c, dec_of (cu_custo c))) <$> costs).

Definition indexOfferByEmbalagemId (offers : list (Z * BestOffer)) : gmap Z BestOffer := index_by offers.

Definition receiptDateByEmbalagemId (rows : list (Z * Z)) : gmap Z Z := index_by rows.

Definition groupQuantities (rows : list (Z * ItemQuantidade)) (embalagemId : Z) : list ItemQuantidade :=
  omap (λ '(e, q), if decide (e = embalagemId) then Some q else None) rows.

Definition buildDeals (quantidades : list ItemQuantidade) : option (gmap string (ProductDeal N)) :=
  match quantidades with
  | [] => None
  | _ => Some (foldl (λ m q, <[pretty (iq_quantidade q) :=
           {| deal_totalPrice := match iq_precototal q with Some x => dec_of x | None => n_int 0 end;
              deal_discount := match iq_descontototal q with Some x => dec_of x | None => n_int 0 end;
              deal_itemCadernoOfertaId := Some (iq_itemcadernoofertaid q) |}]> m) ∅ quantidades)
  end.

(** What the step reads for the embalagens of a batch. *)
Record SyncReads := {
  rd_paths : gmap Z string;
  rd_costs : gmap Z N;
  rd_offers : gmap Z BestOffer;
  rd_quantities : list (Z * ItemQuantidade);
  rd_receipts : gmap Z Z;
}.

Definition sync_reads (a7 : A7) (now : Z) (embalagens : list Embalagem) : SyncReads :=
  let produtoIds := js_uniq (eb_produtoid <$> embalagens) in
  let observedIds := eb_id <$> embalagens in
  {| rd_paths := classificationPathMap (findPrincipalClassificationByProdutoIds a7 produtoIds);
     rd_costs := costByProdutoId (findLatestByProdutoIds a7 produtoIds);
     rd_offers := indexOfferByEmbalagemId (findBestOffersWithDeals a7 now observedIds);
     rd_quantities := quantidadesByEmbalagemIds a7 now observedIds;
     rd_receipts := receiptDateByEmbalagemId (findLatestReceiptDate a7 observedIds) |}.

(** A product seed: the input without its classification, and the path. *)
Definition product_seed (a7 : A7) (r : SyncReads) (record : Embalagem) (ean : string) :
    ProductUpsertInput (N := N) * option string :=
  let produto := a7_produto a7 !! eb_produtoid record in
  ({| pu_ean := ean;
      pu_externalId := Some (pretty (eb_id record));
      pu_name := match truthy (Some (eb_descricao record)) with
                 | Some d => Some d | None => truthy (eb_apresentacao record) end;
      pu_active := Some (match produto with Some p => String.eqb (pd_status p) "A" | None => false end);
      pu_price := toNumericString (Some (dec_of (eb_precovenda record)));
      pu_cost := toNumericString (rd_costs r !! eb_produtoid record);
      pu_averageUnitCost := toNumericString (Some (dec_of (eb_precoreferencial record)));
      pu_unitSalePrice := toNumericString (Some (dec_of (eb_precovenda record)));
      pu_supplier := produto ≫= pd_fabricante;
      pu_receiptDate := to_day <$> rd_receipts r !! eb_id record;
      pu_monitored := Some (match produto with Some p => String.eqb (pd_tipopreco p) "M" | None => false end);
      pu_classificationId := None;
      pu_deals := buildDeals (groupQuantities (rd_quantities r) (eb_id record)) |},
   rd_paths r !! eb_produtoid record).

Definition base_input (r : SyncReads) (record : Embalagem) (ean : string) : BaseProductUpsertInput :=
  {| bu_ean := ean; bu_description := eb_apresentacao record;
     bu_generic := isGenericClassification (rd_paths r !! eb_produtoid record) |}.

Definition offer_input (r : SyncReads) (record : Embalagem) (ean : string) : option (OfferBookUpsertInput (N := N)) :=
  o ← rd_offers r !! eb_id record;
  let target := match bo_effective o with Some x => Some x | None => ic_precooferta (bo_item o) end in
  Some {| ou_ean := ean; ou_description := Some (co_nome (bo_caderno o));
          ou_targetPrice := toNumericString (dec_of <$> target);
          ou_externalId := Some (co_id (bo_caderno o)) |}.

(** Embalagens with an EAN; the others are skipped. *)
Definition with_ean (embalagens : list Embalagem) : list (Embalagem * string) :=
  omap (λ e, ean ← parseEan (eb_codigobarras e); Some (e, ean)) embalagens.

Definition with_classification (idByPath : list (string * string))
    (seed : ProductUpsertInput (N := N) * option string) : ProductUpsertInput (N := N) :=
  let '(i, path) := seed in
  {| pu_ean := pu_ean i; pu_externalId := pu_externalId i; pu_name := pu_name i; pu_active := pu_active i;
     pu_price := pu_price i; pu_cost := pu_cost i; pu_averageUnitCost := pu_averageUnitCost i;
     pu_unitSalePrice := pu_unitSalePrice i; pu_supplier := pu_supplier i; pu_receiptDate := pu_receiptDate i;
     pu_monitored := pu_monitored i;
     pu_classificationId := p ← truthy path; js_map_get p idByPath;
     pu_deals := pu_deals i |}.

(** [Object.values(...)] of integer keys: ascending. *)
Definition path_values (paths : gmap Z string) : list string :=
  snd <$> js_sort (λ a b, a.1 <=? b.1) (map_to_list paths).

(** [BaseProductProjector.project]: a transaction of its own. *)
Definition project (inputs : list BaseProductUpsertInput) : Sy N unit :=
  match inputs with [] => mret () | _ => rollback_tx (insertNewByEan inputs) end.

Definition syncBaseProduct (a7 : option A7) (now : Z) (embalagemIds : list Z) : Sy N (Z * Z) :=
  match a7 with
  | None => mret (0, Z.of_nat (length embalagemIds))
  | Some a7 =>
      let embalagens := findByIdsWithRelations a7 embalagemIds in
      match embalagens with
      | [] => mret (0, 0)
      | _ =>
          let r := sync_reads a7 now embalagens in
          idByPath ← sy_upsertPaths (js_uniq (path_values (rd_paths r)));
          let rows := with_ean embalagens in
          let seeds := (λ '(e, ean), product_seed a7 r e ean) <$> rows in
          project ((λ '(e, ean), base_input r e ean) <$> rows);;
          upsertManyByEan to_numeric uuid (with_classification idByPath <$> seeds);;
          upsertOfferBooks to_numeric (omap (λ '(e, ean), offer_input r e ean) rows);;
          mret (Z.of_nat (length rows), Z.of_nat (length embalagens - length rows))
      end
  end.

(** The tenant transaction of a batch of this step.  The projector is the
    only writer of [base_product] here, and what it wrote stays. *)
Definition product_batch {A} (m : Sy N A) : Sy N A := λ s,
  match m s with
  | (Ok a, s') => (Ok a, s')
  | (Throw e, s') => (Throw e, with_sy_base (λ _, sy_base s') s)
  end.

(* ------------------------------------------------------------------ *)
(** * sync-base-product-stock.step.ts                                   *)
(* ------------------------------------------------------------------ *)

(** [eanByEmbalagemId] *)
Definition eanByEmbalagemId (embalagens : list Embalagem) : list (Z * string) :=
  js_map_of ((λ x, (eb_id x.1, x.2)) <$> with_ean embalagens).

(** [Math.floor(Number(row.estoque) || 0)]: the decimal is exact. *)
Definition floor_qty (x : Numeric) : Z := nm_unscaled x / 10 ^ Z.of_nat (nm_scale x).

(** The loop that sums by [(ean, store)]. *)
Definition sum_step (eanOf : list (Z * string)) (acc : list ((string * Z) * Z)) (row : Estoque) :
    list ((string * Z) * Z) :=
  match js_map_get (es_embalagemid row) eanOf with
  | None => acc
  | Some ean =>
      let key := (ean, es_unidadenegocioid row) in
      let qty := floor_qty (es_estoque row) in
      if qty <=? 0 then acc
      else js_map_set key (default 0 (js_map_get key acc) + qty) acc
  end.
Definition sumByPair (eanOf : list (Z * string)) (estoques : list Estoque) : list ((string * Z) * Z) :=
  foldl (sum_step eanOf) [] estoques.

Definition syncBaseProductStock (a7 : option A7) (embalagemIds : list Z) : Sy N (Z * Z) :=
  match a7 with
  | None => mret (0, Z.of_nat (length embalagemIds))
  | Some a7 =>
      let embalagens := findByIdsWithRelations a7 embalagemIds in
      let skipped := Z.of_nat (length embalagens - length (with_ean embalagens)) in
      let eanOf := eanByEmbalagemId embalagens in
      match eanOf with
      | [] => mret (0, skipped)
      | _ =>
          let estoques := estoqueByEmbalagemIds a7 eanOf.*1 in
          let inputs := (λ '((ean, sub), q), Build_ProductStockUpsertInput ean sub q) <$> sumByPair eanOf estoques in
          deleteByEans eanOf.*2;;
          upsertStock inputs;;
          mret (Z.of_nat (length inputs), skipped)
      end
  end.

(* ------------------------------------------------------------------ *)
(** * sync-product-items.step.ts                                        *)
(* ------------------------------------------------------------------ *)

(** An active store of the message: [core.tenant_store.id], [external_id]. *)
Record StoreTarget := { st_id : string; st_externalId : Z }.

(** Live products of the slice with an ERP id: [(id, Number(externalId))]. *)
Definition item_products (s : SyncDb N) (productIds : list string) : list (string * Z) :=
  omap (λ zp : Z * ProductRow, let p := zp.2 in
    if bool_decide (p_id p ∈ productIds) && negb (p_deleted p)
    then x ← p_externalId p; Some (p_id p, digits_val x) else None)
    (map_to_list (ct_products (sy_catalog s))).

Definition item_input (produtoIdByEmbalagem : gmap Z Z) (priceByEmbalagem : gmap Z N) (costByProduto : gmap Z N)
    (offerOf : Z → option StoreOffer) (store : StoreTarget) (p : string * Z) : ProductItemUpsertInput (N := N) :=
  let embalagemId := p.2 in
  let offer := offerOf embalagemId in
  let undercuts := o ← offer; f ← so_precoFinalOferta o;
                   if n_le (dec_of f : N) (dec_of (so_precoCadastro o)) then Some (dec_of f : N) else None in
  {| iu_productId := p.1; iu_storeId := st_id store;
     iu_price := toNumericString (priceByEmbalagem !! embalagemId);
     iu_priceOffer := toNumericString undercuts;
     iu_cost := toNumericString (k ← produtoIdByEmbalagem !! embalagemId; costByProduto !! k);
     iu_offerExternalId := so_cadernoofertaid <$> offer;
     iu_offerDescription := so_cadernoNome <$> offer |}.

Definition store_inputs (a7 : A7) (now : Z) (products : list (string * Z)) (stores : list StoreTarget)
    (store : StoreTarget) : list (ProductItemUpsertInput (N := N)) :=
  let embalagemIds := products.*2 in
  let produtoOf := index_by (findProdutoIdsByIds a7 embalagemIds) in
  let produtoIds := js_uniq (map_to_list produtoOf).*2 in
  let unidade := st_externalId store in
  let prices := index_by ((λ r, (pn_embalagemid r, dec_of (pn_precovenda r))) <$>
                  precoByEmbalagemIdsAndUnidade a7 embalagemIds unidade) in
  let costs := index_by ((λ r, (cu_produtoid r, dec_of (cu_custo r))) <$>
                 custoByProdutoIdsAndUnidade a7 produtoIds unidade) in
  let offers := findStoreOffers a7 now embalagemIds (st_externalId <$> stores) in
  let offerOf emb := last (filter (λ o, so_unidadenegocioid o = unidade ∧ so_embalagemid o = emb) offers) in
  item_input produtoOf prices costs offerOf store <$> products.

Definition syncProductItems (a7 : option A7) (now : Z) (productIds : list string) (stores : list StoreTarget) : Sy N Z :=
  match a7, productIds, stores with
  | None, _, _ | _, [], _ | _, _, [] => mret 0
  | Some a7, _, _ =>
      s ← sy_get;
      match item_products s productIds with
      | [] => mret 0
      | products =>
          sy_each (λ store, upsertItems to_numeric (store_inputs a7 now products stores store)) stores;;
          mret (Z.of_nat (length products * length stores))
      end
  end.

(* ------------------------------------------------------------------ *)
(** * sync-stores.step.ts, sync-offer-books-info.step.ts                *)
(* ------------------------------------------------------------------ *)

(** [digitsOnly] *)
Definition digitsOnly (cnpj : option string) : option string :=
  match truthy cnpj with
  | None => None
  | Some c => truthy (Some (str_filter is_digit c))
  end.

Definition store_name (u : UnidadeNegocio) (cnpj : string) : string :=
  default (default (default cnpj (truthy (un_nome u))) (truthy (un_razaosocial u))) (truthy (un_nomefantasia u)).

(** The row of [(tenant_id, external_id)], by its unique index. *)
Definition find_store_row (stores : gmap string StoreRow) (tenantId : string) (externalId : Z) : option (string * StoreRow) :=
  head (filter (λ x : string * StoreRow, ts_tenant_id x.2 = tenantId ∧ ts_external_id x.2 = externalId) (map_to_list stores)).

(** Another row of the tenant, removed ones included, has this CNPJ:
    [UQ_TENANT_STORE_CNPJ]. *)
Definition cnpj_taken (stores : gmap string StoreRow) (tenantId : string) (id : option string) (cnpj : string) : bool :=
  existsb (λ x : string * StoreRow, negb (bool_decide (Some x.1 = id)) && String.eqb (ts_tenant_id x.2) tenantId
                                    && bool_decide (ts_cnpj x.2 = Some cnpj)) (map_to_list stores).

Definition cnpj_violation : Exn := EError "duplicate key value violates unique constraint UQ_TENANT_STORE_CNPJ".

(** [INSERT ... (active = false) ON CONFLICT DO UPDATE SET name, cnpj] *)
Definition upsert_store (tenantId : string) (externalId : Z) (name cnpj : string) (stores : gmap string StoreRow) :
    Res (gmap string StoreRow) :=
  let found := find_store_row stores tenantId externalId in
  if cnpj_taken stores tenantId (fst <$> found) cnpj then Throw cnpj_violation
  else match found with
  | Some (id, r) => Ok (<[id := {| ts_tenant_id := ts_tenant_id r; ts_external_id := ts_external_id r; ts_name := name;
                                   ts_cnpj := Some cnpj; ts_active := ts_active r; ts_deleted := ts_deleted r |}]> stores)
  | None => Ok (<[uuid (dom stores) := {| ts_tenant_id := tenantId; ts_external_id := externalId; ts_name := name;
                                          ts_cnpj := Some cnpj; ts_active := false; ts_deleted := false |}]> stores)
  end.

(** An active unit of the ERP that has a CNPJ: [(id, name, cnpj)]. *)
Definition store_values (units : list UnidadeNegocio) : list (Z * string * string) :=
  omap (λ u, cnpj ← digitsOnly (un_cnpj u); Some (un_id u, store_name u cnpj, cnpj)) units.

Definition syncStores (a7 : option A7) (slug : string) : Sy N (Z * Z) :=
  match a7 with
  | None => mret (0, 0)
  | Some a7 =>
      s ← sy_get;
      tenantId ← sy_lift (resolveTenantId (sy_catalog s) slug);
      let units := findAllActive a7 in
      let kept := store_values units in
      sy_each (λ v : Z * string * string,
        s ← sy_get;
        stores ← sy_lift (upsert_store tenantId v.1.1 v.1.2 v.2 (ct_stores (sy_catalog s)));
        sy_modify (with_sy_catalog (set_stores stores))) kept;;
      mret (Z.of_nat (length kept), Z.of_nat (length units - length kept))
  end.

Definition campaign_input (c : CadernoOferta) : CampaignUpsertInput :=
  {| cu_externalId := co_id c; cu_name := co_nome c; cu_active := String.eqb (co_status c) "A";
     cu_startDate := co_datahorainicial c; cu_expirationDate := co_datahorafinal c |}.

Definition syncOfferBooksInfo (a7 : option A7) : Sy N unit :=
  match a7 with
  | None => mret ()
  | Some a7 => upsertManyByExternalId (campaign_input <$> findAllCadernos a7)
  end.

End SyncSteps.
