(* ===== verification/MetricsSteps.v ===== *)
(** Metrics and enrichment: the status settings of a tenant
    ([tenant-api/config/settings.service.ts]), the margin, variation and
    status of a product ([pipeline/steps/calc-base-product-metrics.step.ts]),
    properties taken over from competitors
    ([update-base-product-properties.step.ts]) and the import of scraped
    products ([import-competitor-products.step.ts]; the scrapers are an
    argument, the images are not modelled). *)

From Stdlib Require Import Ascii String.
From S2P Require Import Prelude JsText JsNumber Enums Messages World Classification SuggestionEngine PricingDb SuggestionRules Suggestions PricingApply Erp CatalogMutation TenantCatalog.
Open Scope string_scope.
Open Scope list_scope.
Open Scope Z_scope.

Section Settings.
Context {N : Type} `{JsNum N}.

(** [status_settings.settings]: a JSON object. *)
Abbreviation Bag := (gmap string (JsVal N)).

Definition DEFAULT_CADERNO_KEY : string := "defaultCadernoId".

Definition DEFAULTS : Bag := list_to_map
  [("suspectBelow", VNum (n_int (-15))); ("attentionBelow", VNum (n_int 0));
   ("attentionAbove", VNum (n_int 20)); ("suspectAbove", VNum (n_int 50))].

Definition threshold_keys : list string := ["suspectBelow"; "attentionBelow"; "attentionAbove"; "suspectAbove"].

(** [findOne({ where: { tenantId } })]: the oldest row. *)
Definition settings_row (rows : list (SettingsRow N)) (tenantId : string) : option (SettingsRow N) :=
  head (filter (λ r, ss_tenant_id r = tenantId) rows).

Definition settings_of (rows : list (SettingsRow N)) (tenantId : string) : Bag :=
  match settings_row rows tenantId with Some r => ss_settings r | None => ∅ end.

(** [repo.save(row)] or [repo.save(repo.create(...))]. *)
Fixpoint save_settings (tenantId : string) (bag : Bag) (rows : list (SettingsRow N)) : list (SettingsRow N) :=
  match rows with
  | [] => [Build_SettingsRow tenantId bag]
  | r :: rows' => if decide (ss_tenant_id r = tenantId) then Build_SettingsRow tenantId bag :: rows'
                  else r :: save_settings tenantId bag rows'
  end.

(** [{ ...a, ...b }] *)
Definition spread (a b : Bag) : Bag := b ∪ a.

Definition tenant_of (slug : string) : Sy N string :=
  s ← sy_get; sy_lift (resolveTenantId (sy_catalog s) slug).

Definition getVariationStatus (slug : string) : Sy N Bag :=
  tenantId ← tenant_of slug;
  s ← sy_get;
  mret (spread DEFAULTS (delete DEFAULT_CADERNO_KEY (settings_of (sy_settings s) tenantId))).

(** [for (const key of Object.keys(merged)) if (patch[key] !== undefined)] *)
Definition patched (merged patch : Bag) : Bag :=
  map_imap (λ key old, Some (default old (patch !! key))) merged.

Definition updateVariationStatus (slug : string) (patch : Bag) : Sy N Bag :=
  tenantId ← tenant_of slug;
  s ← sy_get;
  let merged := patched (spread DEFAULTS (settings_of (sy_settings s) tenantId)) patch in
  sy_modify (with_sy_settings (save_settings tenantId merged));;
  mret merged.

(** [typeof raw === 'number' ? raw : null] *)
Definition caderno_value (raw : option (JsVal N)) : option N :=
  match raw with Some (VNum n) => Some n | _ => None end.

Definition getOfferDefaults (slug : string) : Sy N (option N) :=
  tenantId ← tenant_of slug;
  s ← sy_get;
  mret (caderno_value (settings_of (sy_settings s) tenantId !! DEFAULT_CADERNO_KEY)).

Definition updateOfferDefaults (slug : string) (defaultCadernoId : option N) : Sy N (option N) :=
  tenantId ← tenant_of slug;
  s ← sy_get;
  let value := match defaultCadernoId with Some n => VNum n | None => VNull end in
  sy_modify (with_sy_settings (save_settings tenantId
    (<[DEFAULT_CADERNO_KEY := value]> (settings_of (sy_settings s) tenantId))));;
  mret defaultCadernoId.

(* ------------------------------------------------------------------ *)
(** * calc-base-product-metrics.step.ts                                 *)
(* ------------------------------------------------------------------ *)

Record StatusThresholds := { suspectBelow : N; attentionBelow : N; attentionAbove : N; suspectAbove : N }.

(** [s.key ?? dflt], as a number. *)
Definition threshold (bag : Bag) (key : string) (dflt : N) : N :=
  match bag !! key with
  | Some (VNum n) => n
  | Some (VStr t) => js_Number t
  | Some VNull | None => dflt
  end.

Definition loadThresholds (rows : list (SettingsRow N)) (tenantId : string) : StatusThresholds :=
  let s := settings_of rows tenantId in
  {| suspectBelow := threshold s "suspectBelow" (n_int (-15));
     attentionBelow := threshold s "attentionBelow" (n_int 0);
     attentionAbove := threshold s "attentionAbove" (n_int 20);
     suspectAbove := threshold s "suspectAbove" (n_int 50) |}.

Record MetricRow := {
  mr_ean : Z;
  mr_cost : option Numeric;
  mr_price : option Numeric;
  mr_drogal_price : option Numeric;
  mr_drogasil_price : option Numeric;
  mr_target_price : option Numeric;
}.

Open Scope js_scope.

Definition statusForVariation (averageVariation : option N) (t : StatusThresholds) : option string :=
  match averageVariation with
  | None => None
  | Some v =>
      if suspectAbove t <? v then Some "SUSPEITA"
      else if attentionAbove t <=? v then Some "ATENÇÃO"
      else if attentionBelow t <=? v then Some "OK"
      else if suspectBelow t <=? v then Some "ATENÇÃO"
      else Some "SUSPEITA"
  end.

(** [Number(x) || 0] *)
Definition num_or_0 (x : option Numeric) : N := default (#0) (num_of x).

(** [priceForOffer || priceForSell] *)
Definition basePrice (r : MetricRow) : N :=
  let offer := num_or_0 (mr_target_price r) in
  if offer =? #0 then num_or_0 (mr_price r) else offer.

Definition metrics_margin (r : MetricRow) : option N :=
  let base := basePrice r in
  if #0 <? base then Some ((base - num_or_0 (mr_cost r)) / base * #100) else None.

Definition avgCompetitor (r : MetricRow) : N :=
  let drogal := num_or_0 (mr_drogal_price r) in
  let drogasil := num_or_0 (mr_drogasil_price r) in
  let counts (price : N) : Z := if #0 <? price then 1%Z else 0%Z in
  let validCount := (counts drogal + counts drogasil)%Z in
  if (0 <? validCount)%Z then (drogal + drogasil) / #validCount else #0.

Definition averageVariation (r : MetricRow) : option N :=
  let avg := avgCompetitor r in
  if #0 <? avg then Some ((basePrice r - avg) / avg * #100) else None.

Definition computeMetrics (t : StatusThresholds) (r : MetricRow) : MetricsUpdate (N := N) :=
  {| mu_ean := ean_text (mr_ean r); mu_margin := metrics_margin r; mu_averageVariation := averageVariation r;
     mu_status := statusForVariation (averageVariation r) t |}.

Definition metric_row (s : SyncDb N) (z : Z) : option MetricRow :=
  p ← ct_products (sy_catalog s) !! z;
  Some {| mr_ean := z; mr_cost := p_cost p; mr_price := p_price p;
          mr_drogal_price := ct_shared (sy_catalog s) !! (z, "DROGAL") ≫= sh_price;
          mr_drogasil_price := ct_shared (sy_catalog s) !! (z, "DROGASIL") ≫= sh_price;
          mr_target_price := ct_offerBook (sy_catalog s) !! z ≫= of_target_price |}.

Variable to_numeric : nat → N → Numeric.

Definition calcBaseProductMetrics (tenantId : string) (eans : list string) : Sy N unit :=
  match eans with
  | [] => mret ()
  | _ =>
      s ← sy_get;
      let thresholds := loadThresholds (sy_settings s) tenantId in
      zs ← sy_lift (ean_casts eans);
      updateMetricsBatch to_numeric (computeMetrics thresholds <$> omap (metric_row s) (js_uniq zs))
  end.

(* ------------------------------------------------------------------ *)
(** * update-base-product-properties.step.ts                            *)
(* ------------------------------------------------------------------ *)

Record OriginPair := { op_drogasil : option ScrapedRow; op_drogal : option ScrapedRow }.

(** [findPropertiesByEans]: live rows of the two origins. *)
Definition live_scrape (s : SyncDb N) (z : Z) (origin : string) : option ScrapedRow :=
  match ct_shared (sy_catalog s) !! (z, origin) with
  | Some r => if sh_deleted r then None else sy_scraped s !! (z, origin)
  | None => None
  end.

(** [groupByEan] *)
Definition origin_pair (s : SyncDb N) (z : Z) : option (Z * OriginPair) :=
  match live_scrape s z "DROGASIL", live_scrape s z "DROGAL" with
  | None, None => None
  | a, b => Some (z, {| op_drogasil := a; op_drogal := b |})
  end.

(** [a ?? b] *)
Definition orElse {A} (a b : option A) : option A := match a with Some _ => a | None => b end.

Definition pickSupplier (p : OriginPair) : option string :=
  orElse (op_drogasil p ≫= sr_supplier) (orElse (op_drogal p ≫= sr_supplier)
    (orElse (op_drogasil p ≫= sr_brand) (op_drogal p ≫= sr_brand))).
Definition pickName (p : OriginPair) : option string :=
  orElse (op_drogasil p ≫= sr_name) (op_drogal p ≫= sr_name).
Definition pickWeight (p : OriginPair) : option Numeric :=
  orElse (op_drogasil p ≫= sr_weight) (op_drogal p ≫= sr_weight).

Definition hasAnyMeasure (r : ScrapedRow) : bool :=
  bool_decide (is_Some (sr_height r)) || bool_decide (is_Some (sr_length r)) || bool_decide (is_Some (sr_width r)).

Definition pickMeasureSource (p : OriginPair) : option ScrapedRow :=
  let measured (o : option ScrapedRow) := match o with Some r => if hasAnyMeasure r then Some r else None | None => None end in
  orElse (measured (op_drogasil p)) (measured (op_drogal p)).

Definition measures_of (r : ScrapedRow) : Measures :=
  Build_Measures (sr_weight r) (sr_height r) (sr_length r) (sr_width r).

Definition runSimpleColumn (c : TextColumn) (pick : OriginPair → option string) (pairs : list (Z * OriginPair)) : Sy N unit :=
  updateColumnByEan c (omap (λ '(z, p), v ← truthy (pick p); Some (ean_text z, Some v)) pairs).

Definition updateBaseProductProperties (pass : PropertiesPass) (eans : list string) : Sy N unit :=
  match eans with
  | [] => mret ()
  | _ =>
      s ← sy_get;
      zs ← sy_lift (ean_casts eans);
      let pairs := omap (origin_pair s) (js_uniq zs) in
      match pass with
      | PassSupplier => runSimpleColumn col_supplier pickSupplier pairs
      | PassName => runSimpleColumn col_name pickName pairs
      | PassWeight => updateWeights (omap (λ '(z, p), w ← pickWeight p; Some (ean_text z, Some w)) pairs)
      | PassMeasures => updateMeasures (omap (λ '(z, p), r ← pickMeasureSource p; Some (ean_text z, measures_of r)) pairs)
      end
  end.

(* ------------------------------------------------------------------ *)
(** * import-competitor-products.step.ts                                *)
(* ------------------------------------------------------------------ *)

(** [scrapeProducts] is the scraper registered for the origin. *)
Definition importCompetitorProducts (recheck : Z → bool)
    (scrapeProducts : CompetitorOrigin → list string → list (ScrapedProduct (N := N)))
    (origin : CompetitorOrigin) (eans : list string) : Sy N unit :=
  match eans with
  | [] => mret ()
  | _ =>
      s ← sy_get;
      notFound ← sy_lift (findNotFoundEans recheck origin eans s);
      match filter (λ e, e ∉ notFound) eans with
      | [] => mret ()
      | toScrape => upsertScrapes to_numeric (scrapeProducts origin toScrape)
      end
  end.

End Settings.
