(* ===== verification/StockLaws.v ===== *)
(** Stock synchronisation.  A batch replaces the stock of its EANs by the sum
    of the ERP's rows; because the chunker keeps the embalagens of one EAN in
    one batch, any sequence of deliveries (repeats included) that covers the
    batches leaves the ERP's stock. *)

From Stdlib Require Import Ascii String.
From S2P Require Import Prelude JsText JsNumber Enums Messages World Classification SuggestionEngine PricingDb SuggestionRules Suggestions PricingApply Erp CatalogMutation Chunker TenantCatalog ErpReplica SyncSteps.
Open Scope string_scope.
Open Scope list_scope.
Open Scope Z_scope.

(* ------------------------------------------------------------------ *)
(** * EANs and their bigint                                             *)
(* ------------------------------------------------------------------ *)

Lemma take_digits_acc s a n : str_forall is_digit s = true →
  (take_digits a n s).1.1 = a * 10 ^ Z.of_nat (String.length s) + digits_val s.
Proof.
  unfold digits_val. revert a n. induction s as [|c s IH]; intros a n; [simpl; lia|].
  cbn [str_forall take_digits String.length]. intros [Hc Hs]%andb_true_iff. rewrite Hc.
  rewrite (IH _ (n + 1)), (IH (0 * 10 + digit_val c) (0 + 1)) by done.
  rewrite Nat2Z.inj_succ, Z.pow_succ_r by lia. lia.
Qed.

Lemma digits_val_cons c s : str_forall is_digit (String c s) = true →
  digits_val (String c s) = digit_val c * 10 ^ Z.of_nat (String.length s) + digits_val s.
Proof.
  cbn [str_forall]. intros [Hc Hs]%andb_true_iff. unfold digits_val at 1. cbn [take_digits]. rewrite Hc.
  rewrite take_digits_acc by done. f_equal.
Qed.

Lemma digit_val_inj : ∀ c d, is_digit c = true → is_digit d = true → digit_val c = digit_val d → c = d.
Proof.
  intros c d Hc Hd. unfold digit_val. intros E.
  rewrite <- (ascii_N_embedding c), <- (ascii_N_embedding d). f_equal. lia.
Qed.

Lemma digit_val_bound c : is_digit c = true → 0 <= digit_val c <= 9.
Proof.
  unfold is_digit, in_range, digit_val. intros [H1%N.leb_le H2%N.leb_le]%andb_true_iff.
  change (N_of_ascii "0") with 48%N in H1. change (N_of_ascii "9") with 57%N in H2. lia.
Qed.

Lemma digits_val_bound s : str_forall is_digit s = true → 0 <= digits_val s < 10 ^ Z.of_nat (String.length s).
Proof.
  induction s as [|c s IH]; [done|]. intros H. rewrite digits_val_cons by done.
  cbn [str_forall] in H. apply andb_true_iff in H as [Hc Hs]. specialize (IH Hs).
  pose proof (digit_val_bound c Hc). cbn [String.length]. rewrite Nat2Z.inj_succ, Z.pow_succ_r by lia. nia.
Qed.

Lemma digits_val_inj s t : str_forall is_digit s = true → str_forall is_digit t = true →
  String.length s = String.length t → digits_val s = digits_val t → s = t.
Proof.
  revert t. induction s as [|c s IH]; intros [|d t] Hs Ht Hl E; try done. simpl in Hl. injection Hl as Hl.
  rewrite !digits_val_cons in E by done. cbn [str_forall] in Hs, Ht.
  apply andb_true_iff in Hs as [Hc Hs]. apply andb_true_iff in Ht as [Hd Ht].
  pose proof (digits_val_bound _ Hs). pose proof (digits_val_bound _ Ht). rewrite Hl in *.
  set (k := 10 ^ Z.of_nat (String.length t)) in *.
  assert (digit_val c = digit_val d) as Ed by nia.
  f_equal; [by apply digit_val_inj|]. apply IH; [done..|]. nia.
Qed.

Lemma canonical_lower e : canonical_ean e = true →
  10 ^ (Z.of_nat (String.length e) - 1) <= digits_val e < 10 ^ Z.of_nat (String.length e).
Proof.
  destruct e as [|c e]; [done|]. intros [Hd Hz%negb_true_iff%Ascii.eqb_neq]%andb_true_iff.
  pose proof (digits_val_bound _ Hd) as [_ Hb]. split; [|done]. rewrite digits_val_cons by done.
  cbn [str_forall] in Hd. apply andb_true_iff in Hd as [Hc Hs]. pose proof (digits_val_bound _ Hs).
  pose proof (digit_val_bound c Hc).
  assert (digit_val c ≠ 0) by (intros E; apply Hz; by apply digit_val_inj).
  cbn [String.length]. replace (Z.of_nat (S (String.length e)) - 1) with (Z.of_nat (String.length e)) by lia. nia.
Qed.

Lemma canonical_inj e e' : canonical_ean e = true → canonical_ean e' = true →
  digits_val e = digits_val e' → e = e'.
Proof.
  intros He He' E. pose proof (canonical_lower _ He) as [H1 H2]. pose proof (canonical_lower _ He') as [H3 H4].
  assert (∀ x, canonical_ean x = true → str_forall is_digit x = true ∧ (0 < String.length x)%nat) as Hc.
  { intros [|c x]; [done|]. intros [? _]%andb_true_iff. simpl. split; [done|lia]. }
  destruct (Hc _ He) as [Hd Hl], (Hc _ He') as [Hd' Hl'].
  apply digits_val_inj; [done..| |done]. rewrite E in *.
  destruct (Nat.lt_trichotomy (String.length e) (String.length e')) as [Hlt|[?|Hlt]]; [|done|]; exfalso.
  - assert (10 ^ Z.of_nat (String.length e) <= 10 ^ (Z.of_nat (String.length e') - 1)) by (apply Z.pow_le_mono_r; lia). lia.
  - assert (10 ^ Z.of_nat (String.length e') <= 10 ^ (Z.of_nat (String.length e) - 1)) by (apply Z.pow_le_mono_r; lia). lia.
Qed.

Lemma parsed_cast s e : parseEan s = Some e → ean_cast e = Ok (digits_val e).
Proof.
  intros Hp. destruct (parseEan_canonical s e Hp) as (Hc & Hl & _). unfold ean_cast, matches_digits.
  destruct e as [|c e]; [done|]. apply andb_true_iff in Hc as [Hd _]. rewrite Hd.
  rewrite bool_decide_true; [done|]. cbn [String.length] in *. lia.
Qed.

Lemma casts_parsed (eans : list string) : Forall (λ e, ∃ s, parseEan s = Some e) eans →
  ean_casts eans = Ok (digits_val <$> eans).
Proof.
  induction 1 as [|e eans [s He] _ IH]; [done|]. unfold ean_casts in *. cbn [foldr fmap list_fmap].
  rewrite (parsed_cast _ _ He). cbn. by rewrite IH.
Qed.

(* ------------------------------------------------------------------ *)
(** * The sums of a batch                                               *)
(* ------------------------------------------------------------------ *)

(** What a row adds to the pair [(ean, store)]. *)
Definition contribution (eanOf : Z → option string) (key : string * Z) (row : Estoque) : Z :=
  match eanOf (es_embalagemid row) with
  | Some ean => if decide ((ean, es_unidadenegocioid row) = key) then Z.max 0 (floor_qty (es_estoque row)) else 0
  | None => 0
  end.
Definition pair_total (eanOf : Z → option string) (key : string * Z) (rows : list Estoque) : Z :=
  foldr (λ r n, contribution eanOf key r + n) 0 rows.

Lemma contribution_nonneg eanOf key row : 0 <= contribution eanOf key row.
Proof. unfold contribution. repeat case_match; lia. Qed.

Lemma pair_total_nonneg eanOf key rows : 0 <= pair_total eanOf key rows.
Proof. induction rows as [|r rows IH]; simpl; [lia|]. pose proof (contribution_nonneg eanOf key r). lia. Qed.

Lemma pair_total_ext f g key rows :
  (∀ r, r ∈ rows → contribution f key r = contribution g key r) → pair_total f key rows = pair_total g key rows.
Proof.
  induction rows as [|r rows IH]; [done|]. intros Hr. simpl. rewrite Hr by left.
  f_equal. apply IH. intros; apply Hr; by right.
Qed.

(** Leaving out rows that contribute nothing. *)
Lemma pair_total_filter (P : Estoque → Prop) `{∀ r, Decision (P r)} f key rows :
  (∀ r, r ∈ rows → ¬ P r → contribution f key r = 0) → pair_total f key (filter P rows) = pair_total f key rows.
Proof.
  induction rows as [|r rows IH]; [done|]. intros Hr. rewrite filter_cons. specialize (IH ltac:(intros; apply Hr; [by right|done])).
  case_decide; simpl; rewrite IH; [done|]. rewrite (Hr r); [lia|left|done].
Qed.

Definition lookup_of (eanOf : list (Z * string)) (id : Z) : option string := js_map_get id eanOf.

Definition sums_ok (acc : list ((string * Z) * Z)) : Prop := Forall (λ kv, 0 < kv.2) acc ∧ NoDup acc.*1.

Lemma set_positive {K} `{EqDecision K} (k : K) (v : Z) m :
  0 < v → Forall (λ kv : K * Z, 0 < kv.2) m → Forall (λ kv, 0 < kv.2) (js_map_set k v m).
Proof.
  intros Hv. induction 1 as [|[k' v'] m Hk Hm IH]; simpl; [by repeat constructor|].
  case_decide; by constructor.
Qed.

Lemma sum_step_spec eanOf r acc key : sums_ok acc →
  sums_ok (sum_step eanOf acc r)
  ∧ default 0 (js_map_get key (sum_step eanOf acc r))
    = default 0 (js_map_get key acc) + contribution (lookup_of eanOf) key r.
Proof.
  intros [Hpos Hnd]. unfold sum_step, contribution, lookup_of.
  destruct (js_map_get (es_embalagemid r) eanOf) as [ean|]; [|split; [done|lia]].
  set (qty := floor_qty (es_estoque r)). destruct (Z.leb_spec qty 0) as [Hq|Hq].
  { split; [done|]. case_decide; lia. }
  set (k := (ean, es_unidadenegocioid r)).
  assert (0 <= default 0 (js_map_get k acc)) as H0.
  { destruct (js_map_get k acc) as [v|] eqn:E; simpl; [|lia]. apply js_map_get_elem in E.
    rewrite Forall_forall in Hpos. specialize (Hpos _ E). simpl in Hpos. lia. }
  split; [split; [apply set_positive; [lia|done]|by apply js_map_set_NoDup]|].
  rewrite js_map_get_set. destruct (decide (key = k)) as [->|Hne].
  - rewrite decide_True by done. simpl. lia.
  - rewrite decide_False by congruence. lia.
Qed.

Lemma sum_fold eanOf rows acc key : sums_ok acc →
  sums_ok (foldl (sum_step eanOf) acc rows)
  ∧ default 0 (js_map_get key (foldl (sum_step eanOf) acc rows))
    = default 0 (js_map_get key acc) + pair_total (lookup_of eanOf) key rows.
Proof.
  revert acc. induction rows as [|r rows IH]; intros acc Hok; cbn [foldl pair_total foldr]; [split; [done|lia]|].
  destruct (sum_step_spec eanOf r acc key Hok) as [Hok' E].
  destruct (IH _ Hok') as [? E']. split; [done|]. unfold pair_total in E'. rewrite E', E. lia.
Qed.

(** The sums of [sumByPair]: positive totals, and nothing else. *)
Lemma sumByPair_spec eanOf rows key :
  NoDup (sumByPair eanOf rows).*1 ∧
  js_map_get key (sumByPair eanOf rows)
  = let t := pair_total (lookup_of eanOf) key rows in if 0 <? t then Some t else None.
Proof.
  destruct (sum_fold eanOf rows [] key) as [[Hp Hnd] E]; [split; [constructor|apply NoDup_nil_2]|].
  fold (sumByPair eanOf rows) in *. split; [done|]. simpl in E. rewrite Z.add_0_l in E.
  destruct (js_map_get key (sumByPair eanOf rows)) as [v|] eqn:G; simpl in E; cbn zeta; rewrite <- E.
  - apply js_map_get_elem in G. rewrite Forall_forall in Hp. apply Hp in G. cbn [snd] in G.
    by apply Z.ltb_lt in G as ->.
  - done.
Qed.

Lemma js_map_of_id {K V} `{EqDecision K} (l : list (K * V)) : NoDup l.*1 → js_map_of l = l.
Proof.
  induction l as [|[k v] l IH] using rev_ind; [done|]. rewrite fmap_app, js_map_of_snoc.
  intros (Hnd & Hni & _)%NoDup_app. rewrite IH by done. assert (k ∉ l.*1) as Hk by (intros Hin; apply (Hni k Hin); left).
  clear -Hk. induction l as [|[k' v'] l IH]; simpl; [done|].
  rewrite decide_False by (intros ->; apply Hk; left). f_equal. apply IH. intros Hin. apply Hk. by right.
Qed.

(* ------------------------------------------------------------------ *)
(** * The writes of a batch                                             *)
(* ------------------------------------------------------------------ *)

Section Writes.
Context {N : Type} `{JsNum N}.
Implicit Types (s : SyncDb N).

Definition parsed (e : string) : Prop := ∃ code, parseEan code = Some e.

Lemma parsed_canonical e : parsed e → canonical_ean e = true.
Proof. intros [code Hs]. by destruct (parseEan_canonical code e Hs) as (? & _). Qed.

Definition stock_input (kq : (string * Z) * Z) : ProductStockUpsertInput :=
  Build_ProductStockUpsertInput kq.1.1 kq.1.2 kq.2.

Definition put_stock (m : gmap (Z * Z) Z) (kq : (string * Z) * Z) : gmap (Z * Z) Z :=
  <[(digits_val kq.1.1, kq.1.2) := kq.2]> m.

Lemma with_stock_id s : with_sy_stock (λ m, m) s = s.
Proof. by destruct s. Qed.

Lemma each_upsert_stock inputs s :
  Forall (λ kq, parsed kq.1.1 ∧ kq.2 <= INT_MAX) inputs →
  sy_each upsert_stock (stock_input <$> inputs) s = (Ok (), with_sy_stock (λ m, foldl put_stock m inputs) s).
Proof.
  intros Hf. revert s. induction Hf as [|[[e st] q] inputs [[t He] Hq] _ IH]; intros s; [by destruct s|].
  cbn [fmap list_fmap sy_each]. unfold mbind, Sy_bind. unfold upsert_stock at 1, sy_lift.
  cbn [stock_input su_ean su_quantity su_storeExternalId fst snd] in *. rewrite (parsed_cast _ _ He).
  unfold mbind, Sy_bind. apply Z.ltb_ge in Hq as ->. unfold sy_modify. rewrite IH. by destruct s.
Qed.

Lemma put_stock_lookup inputs m e st : NoDup inputs.*1 →
  Forall (λ kq, parsed kq.1.1) inputs → parsed e →
  foldl put_stock m inputs !! (digits_val e, st)
  = match js_map_get (e, st) inputs with Some q => Some q | None => m !! (digits_val e, st) end.
Proof.
  intros Hnd Hp He. revert m. induction inputs as [|[[e' st'] q] inputs IH]; intros m; [done|].
  apply Forall_cons in Hp as [He' Hp]. apply NoDup_cons in Hnd as [Hni Hnd].
  cbn [foldl js_map_get]. rewrite IH by done. destruct (decide ((e, st) = (e', st'))) as [E|Hne].
  - injection E as -> ->. destruct (js_map_get (e', st') inputs) as [v|] eqn:G.
    + destruct Hni. apply js_map_get_elem in G. apply list_elem_of_fmap. by exists ((e', st'), v).
    + unfold put_stock. simpl. by rewrite lookup_insert_eq.
  - destruct (js_map_get (e, st) inputs); [done|]. unfold put_stock. simpl. rewrite lookup_insert_ne; [done|].
    intros E. apply Hne. injection E as E ->. f_equal. symmetry.
    apply canonical_inj; [by apply parsed_canonical..|done].
Qed.

Lemma put_stock_other inputs m z st : z ∉ digits_val <$> inputs.*1.*1 →
  foldl put_stock m inputs !! (z, st) = m !! (z, st).
Proof.
  revert m. induction inputs as [|[[e' st'] q] inputs IH]; intros m; [done|]. cbn [fmap list_fmap foldl fst].
  intros [Hne Hni]%not_elem_of_cons. rewrite IH by done. unfold put_stock. simpl.
  rewrite lookup_insert_ne; [done|]. intros [= E _]. congruence.
Qed.

Lemma deleteByEans_ok (eans : list string) s : Forall parsed eans →
  deleteByEans eans s = (Ok (), with_sy_stock (filter (λ kv, kv.1.1 ∉ digits_val <$> eans)) s).
Proof. intros Hp. unfold deleteByEans, mbind, Sy_bind, sy_lift. by rewrite casts_parsed. Qed.

(** Replacing the stock of some EANs by sums over those EANs. *)
Lemma replace_stock eans inputs s :
  Forall parsed eans → NoDup inputs.*1 →
  Forall (λ kq, kq.1.1 ∈ eans ∧ kq.2 <= INT_MAX) inputs →
  let s' := with_sy_stock (λ m, foldl put_stock (filter (λ kv, kv.1.1 ∉ digits_val <$> eans) m) inputs) s in
  (deleteByEans eans;; upsertStock (stock_input <$> inputs)) s = (Ok (), s')
  ∧ (∀ e st, e ∈ eans → sy_stock s' !! (digits_val e, st) = js_map_get (e, st) inputs)
  ∧ (∀ z st, z ∉ digits_val <$> eans → sy_stock s' !! (z, st) = sy_stock s !! (z, st)).
Proof.
  intros Hp Hnd Hin s'. rewrite Forall_forall in Hp.
  assert (Forall (λ kq, parsed kq.1.1) inputs) as Hpi by (eapply Forall_impl; [exact Hin|]; intros ? [? _]; auto).
  split_and!.
  - unfold mbind, Sy_bind. rewrite deleteByEans_ok by (by apply Forall_forall). unfold upsertStock.
    assert (js_map_of ((λ i, ((su_ean i, su_storeExternalId i), i)) <$> (stock_input <$> inputs))
            = (λ i, ((su_ean i, su_storeExternalId i), i)) <$> (stock_input <$> inputs)) as ->.
    { apply js_map_of_id. rewrite <- !list_fmap_compose.
      rewrite (list_fmap_ext _ fst inputs); [done|]. intros _ [[? ?] ?] _. done. }
    rewrite <- (list_fmap_compose _ snd).
    rewrite (list_fmap_ext (snd ∘ (λ i, (su_ean i, su_storeExternalId i, i))) id (stock_input <$> inputs)) by done.
    rewrite list_fmap_id. rewrite each_upsert_stock; [by destruct s|].
    eapply Forall_impl; [exact Hin|]. intros ? [? ?]. auto.
  - intros e st He. subst s'. cbn [sy_stock with_sy_stock]. rewrite put_stock_lookup by auto.
    destruct (js_map_get _ _); [done|]. apply map_lookup_filter_None. right. intros q _ Hn. apply Hn. simpl.
    by apply list_elem_of_fmap_2.
  - intros z st Hz. subst s'. cbn [sy_stock with_sy_stock]. rewrite put_stock_other.
    + destruct (sy_stock s !! (z, st)) as [q|] eqn:G; [apply map_lookup_filter_Some|apply map_lookup_filter_None]; auto.
    + intros Hz'. apply Hz. apply list_elem_of_fmap in Hz' as (e & -> & He).
      apply list_elem_of_fmap in He as ([e' st'] & -> & He). apply list_elem_of_fmap in He as (kq & E & He).
      rewrite Forall_forall in Hin. destruct (Hin _ He) as [Hi _]. rewrite <- E in Hi. by apply list_elem_of_fmap_2.
Qed.

End Writes.

(* ------------------------------------------------------------------ *)
(** * A batch of the chunker                                            *)
(* ------------------------------------------------------------------ *)

Section Batch.
Context {N : Type} `{JsNum N}.
Variable a7 : A7.
Variable batchSize : nat.
Implicit Types (s : SyncDb N).

(** The EAN of an embalagem of the ERP, and the EANs it has. *)
Definition erp_ean (id : Z) : option string :=
  e ← head (filter (λ e, eb_id e = id) (valid_embalagens a7)); parseEan (eb_codigobarras e).
Definition erp_eans : list string := omap (λ e, parseEan (eb_codigobarras e)) (valid_embalagens a7).

(** The ERP's stock of an EAN in a store: the whole units of its rows. *)
Definition erp_stock (e : string) (store : Z) : Z := pair_total erp_ean (e, store) (a7_estoque a7).

Definition quantity_of (t : Z) : option Z := if 0 <? t then Some t else None.

Hypothesis unique_ids : NoDup (eb_id <$> a7_embalagem a7).
Hypothesis positive_size : (0 < batchSize)%nat.
Hypothesis int_stock : ∀ e store, erp_stock e store <= INT_MAX.

Lemma valid_unique : NoDup (eb_id <$> valid_embalagens a7).
Proof.
  unfold valid_embalagens, by_id. rewrite js_sort_perm. clear int_stock positive_size.
  induction (a7_embalagem a7) as [|e l IH]; [done|]. apply NoDup_cons in unique_ids as [Hni Hnd].
  rewrite filter_cons. case_decide; [|auto]. cbn [fmap list_fmap]. apply NoDup_cons. split; [|auto].
  intros (x & Hx & Hin)%list_elem_of_fmap. apply list_elem_of_filter in Hin as [_ Hin].
  apply Hni. rewrite Hx. by apply list_elem_of_fmap_2.
Qed.

Lemma erp_ean_of e : e ∈ valid_embalagens a7 → erp_ean (eb_id e) = parseEan (eb_codigobarras e).
Proof.
  intros Hin. pose proof valid_unique as Hnd. unfold erp_ean. clear -Hin Hnd.
  induction (valid_embalagens a7) as [|x l IH]; [by apply elem_of_nil in Hin|].
  apply NoDup_cons in Hnd as [Hni Hnd]. rewrite filter_cons.
  apply elem_of_cons in Hin as [<-|Hin]; [by rewrite decide_True|].
  rewrite decide_False; [auto|]. intros E. apply Hni. rewrite E. by apply list_elem_of_fmap_2.
Qed.

Lemma erp_ean_Some id ean : erp_ean id = Some ean →
  ∃ e, e ∈ valid_embalagens a7 ∧ eb_id e = id ∧ parseEan (eb_codigobarras e) = Some ean.
Proof.
  unfold erp_ean. intros (e & Hh & Hp)%bind_Some. exists e.
  destruct (filter _ _) as [|x l] eqn:Hf; [done|]. injection Hh as ->.
  assert (e ∈ filter (λ e, eb_id e = id) (valid_embalagens a7)) as [? ?]%list_elem_of_filter by (rewrite Hf; left).
  done.
Qed.

Abbreviation rows := (findAllValidWithBarcode a7).
Abbreviation batches := (chunkEmbalagensByEan rows batchSize).

Lemma row_of e : e ∈ valid_embalagens a7 → barcode_row e ∈ rows.
Proof. intros. by apply list_elem_of_fmap_2. Qed.

(** The EANs of a batch. *)
Definition slice_map (slice : list Z) : list (Z * string) := eanByEmbalagemId (findByIdsWithRelations a7 slice).
Definition slice_eans (slice : list Z) : list string := (slice_map slice).*2.

Lemma with_ean_elem l e ean : (e, ean) ∈ with_ean l ↔ e ∈ l ∧ parseEan (eb_codigobarras e) = Some ean.
Proof.
  unfold with_ean. rewrite list_elem_of_omap. split.
  - intros (x & Hx & (y & Hy & [= <- <-])%bind_Some). done.
  - intros [Hin Hp]. exists e. split; [done|]. by rewrite Hp.
Qed.

Lemma batch_map_elem slice id e :
  js_map_get id (slice_map slice) = Some e ↔ id ∈ slice ∧ erp_ean id = Some e.
Proof.
  unfold slice_map, eanByEmbalagemId, findByIdsWithRelations.
  set (l := (λ x : Embalagem * string, (eb_id x.1, x.2)) <$> with_ean _).
  assert (∀ i x, (i, x) ∈ l ↔ i ∈ slice ∧ erp_ean i = Some x) as Hl.
  { intros i x. subst l. rewrite list_elem_of_fmap. split.
    - intros ([b y] & [= -> ->] & [[Hs Hb]%list_elem_of_filter Hp]%with_ean_elem). by rewrite erp_ean_of.
    - intros [Hs (b & Hb & <- & Hp)%erp_ean_Some]. exists (b, x). split; [done|].
      apply with_ean_elem. split; [|done]. by apply list_elem_of_filter. }
  rewrite <- Hl. split.
  - intros. by apply js_map_of_elem, js_map_get_elem.
  - intros Hin. rewrite js_map_of_last. destruct (last _) as [[i y]|] eqn:E.
    + apply last_Some_elem_of in E. apply list_elem_of_filter in E as [Ei Ey]. simpl in Ei. subst i.
      apply Hl in Ey as [_ Ey]. apply Hl in Hin as [_ Hin]. simpl. congruence.
    + apply last_None in E. assert ((id, e) ∈ filter (λ x, x.1 = id) l) as Habs by (by apply list_elem_of_filter).
      rewrite E in Habs. by apply elem_of_nil in Habs.
Qed.

Lemma slice_eans_elem slice e : e ∈ slice_eans slice ↔ ∃ id, id ∈ slice ∧ erp_ean id = Some e.
Proof.
  setoid_rewrite <- batch_map_elem. unfold slice_eans. rewrite list_elem_of_fmap. split.
  - intros ([id x] & -> & Hin). exists id. apply js_map_get_NoDup; [apply js_map_of_NoDup|done].
  - intros (id & Hg%js_map_get_elem). by exists (id, e).
Qed.

(** The chunker's promise: with one embalagem of an EAN come all of them. *)
Lemma batch_closed slice id e : slice ∈ batches → e ∈ slice_eans slice → erp_ean id = Some e → id ∈ slice.
Proof.
  intros Hs (id' & Hin' & He')%slice_eans_elem He.
  destruct (chunk_slice_spec _ _ _ positive_size Hs) as (_ & eans & _ & _ & Hel & Hall).
  assert (e ∈ eans) as Hee.
  { apply Hel in Hin' as (r & e' & Hr & Hid & Hp & Hin). apply list_elem_of_fmap in Hr as (b & -> & Hb).
    cbn [barcode_row em_id em_codigobarras] in *. pose proof (erp_ean_of _ Hb) as E.
    rewrite Hid, He', Hp in E. by injection E as ->. }
  apply erp_ean_Some in He as (b & Hb & <- & Hp). by apply (Hall (barcode_row b) e); [apply row_of| |].
Qed.

Lemma batch_lookup slice id e : slice ∈ batches →
  js_map_get id (slice_map slice) = Some e ↔ erp_ean id = Some e ∧ e ∈ slice_eans slice.
Proof.
  intros Hs. rewrite batch_map_elem. split.
  - intros [? ?]. split; [done|]. apply slice_eans_elem. by exists id.
  - intros [He Hin]. split; [|done]. by eapply batch_closed.
Qed.

Lemma slice_eans_parsed slice : Forall parsed (slice_eans slice).
Proof.
  apply Forall_forall. intros e (id & _ & (b & _ & _ & Hp)%erp_ean_Some)%slice_eans_elem. by eexists.
Qed.

Lemma slice_map_some slice : slice ∈ batches → slice_map slice ≠ [].
Proof.
  intros Hs E. destruct (chunk_slice_spec _ _ _ positive_size Hs) as (Hne & eans & _ & _ & Hel & _).
  destruct slice as [|id slice]; [done|]. destruct (proj1 (Hel id) ltac:(left)) as (r & e & Hr & Hid & Hp & _).
  apply list_elem_of_fmap in Hr as (b & -> & Hb). simpl in Hid, Hp. subst id.
  assert (js_map_get (eb_id b) (slice_map (eb_id b :: slice)) = Some e) as Hg.
  { apply batch_map_elem. split; [left|]. by rewrite erp_ean_of. }
  by rewrite E in Hg.
Qed.

Lemma floor_qty_nonpos x : nm_unscaled x <= 0 → Z.max 0 (floor_qty x) = 0.
Proof.
  intros Hx. unfold floor_qty. apply Z.max_l.
  assert (0 < 10 ^ Z.of_nat (nm_scale x)) by (apply Z.pow_pos_nonneg; lia).
  apply Z.div_le_upper_bound; [done|]. lia.
Qed.

(** Within a batch the sums are those of the whole ERP. *)
Lemma batch_total slice e store : slice ∈ batches → e ∈ slice_eans slice →
  pair_total (lookup_of (slice_map slice)) (e, store) (estoqueByEmbalagemIds a7 (slice_map slice).*1)
  = erp_stock e store.
Proof.
  intros Hs He. unfold estoqueByEmbalagemIds. rewrite pair_total_filter.
  - apply pair_total_ext. intros r _. unfold contribution, lookup_of.
    destruct (js_map_get (es_embalagemid r) (slice_map slice)) as [x|] eqn:G.
    + apply batch_lookup in G as [G _]; [|done]. by rewrite G.
    + destruct (erp_ean (es_embalagemid r)) as [x|] eqn:G'; [|done].
      rewrite decide_False; [done|]. intros [= -> _].
      assert (js_map_get (es_embalagemid r) (slice_map slice) = Some e) as G2 by (by apply batch_lookup). congruence.
  - intros r _ Hnot. unfold contribution, lookup_of.
    destruct (js_map_get (es_embalagemid r) (slice_map slice)) as [x|] eqn:G; [|done].
    case_decide; [|done]. apply floor_qty_nonpos. apply Z.nlt_ge. intros Hpos. apply Hnot. split; [|done].
    apply js_map_get_elem in G. apply list_elem_of_fmap. by exists (es_embalagemid r, x).
Qed.

Lemma match_nonempty {A B} (l : list A) (a b : B) : l ≠ [] → match l with [] => a | _ => b end = b.
Proof. by destruct l. Qed.

Lemma js_map_get_fmap_inputs (l : list ((string * Z) * Z)) :
  (λ '(ean, sub, q), Build_ProductStockUpsertInput ean sub q) <$> l = stock_input <$> l.
Proof. apply list_fmap_ext. by intros _ [[? ?] ?] _. Qed.

(** One batch: its EANs get the ERP's stock, nothing else changes. *)
Lemma stock_batch slice s : slice ∈ batches →
  ∃ r f, rollback_tx (syncBaseProductStock (Some a7) slice) s = (Ok r, with_sy_stock f s)
    ∧ (∀ e store, e ∈ slice_eans slice → f (sy_stock s) !! (digits_val e, store) = quantity_of (erp_stock e store))
    ∧ (∀ z store, z ∉ digits_val <$> slice_eans slice → f (sy_stock s) !! (z, store) = sy_stock s !! (z, store)).
Proof.
  intros Hs. set (m := slice_map slice). set (ests := estoqueByEmbalagemIds a7 m.*1).
  assert (∀ e store, e ∈ slice_eans slice → pair_total (lookup_of m) (e, store) ests = erp_stock e store) as Htot
    by (intros; by apply batch_total).
  assert (∀ e store, e ∈ slice_eans slice →
            js_map_get (e, store) (sumByPair m ests) = quantity_of (erp_stock e store)) as Hget.
  { intros e store He. destruct (sumByPair_spec m ests (e, store)) as [_ ->]. cbn zeta.
    by rewrite Htot. }
  assert (Forall (λ kq, kq.1.1 ∈ slice_eans slice ∧ kq.2 <= INT_MAX) (sumByPair m ests)) as Hin.
  { apply Forall_forall. intros [[e st] q] Hq. cbn [fst snd].
    destruct (sumByPair_spec m ests (e, st)) as [Hnd Hg]. rewrite (js_map_get_NoDup _ q) in Hg by done.
    cbn zeta in Hg. case_match eqn:Hpos; [|done]. injection Hg as Hg. apply Z.ltb_lt in Hpos.
    assert (e ∈ slice_eans slice) as He.
    { destruct (decide (e ∈ slice_eans slice)) as [|Hni]; [done|]. exfalso.
      assert (pair_total (lookup_of m) (e, st) ests = 0) as E0; [|lia]. clear -Hni.
      induction ests as [|r l IH]; [done|]. simpl. rewrite IH. unfold contribution, lookup_of.
      destruct (js_map_get (es_embalagemid r) m) as [x|] eqn:G; [|done]. rewrite decide_False; [done|].
      intros [= -> _]. apply Hni. apply js_map_get_elem in G. apply list_elem_of_fmap. by eexists (_, _). }
    split; [done|]. rewrite Hg, Htot by done. apply int_stock. }
  destruct (replace_stock (slice_eans slice) (sumByPair m ests) s (slice_eans_parsed slice)
              (proj1 (sumByPair_spec m ests ("", 0))) Hin) as (Hrun & Hset & Hkeep).
  eexists _, _. split_and!.
  - unfold rollback_tx, syncBaseProductStock. fold (slice_map slice). fold m. fold ests.
    rewrite (match_nonempty m) by (by apply slice_map_some).
    rewrite js_map_get_fmap_inputs. revert Hrun. unfold mbind, Sy_bind.
    change (slice_eans slice) with m.*2.
    destruct (deleteByEans m.*2 s) as [[[]|] s1]; [|done]. intros Hrun. rewrite Hrun. reflexivity.
  - intros e store He. rewrite <- Hget by done. by apply Hset.
  - intros z store Hz. by apply Hkeep.
Qed.

(** The batches delivered one after the other. *)
Fixpoint deliver_stock (deliveries : list (list Z)) s : list (Res (Z * Z)) * SyncDb N :=
  match deliveries with
  | [] => ([], s)
  | d :: ds => let '(r, s1) := rollback_tx (syncBaseProductStock (Some a7) d) s in
               let '(rs, s2) := deliver_stock ds s1 in (r :: rs, s2)
  end.

Lemma deliveries_stock ds s : Forall (λ d, d ∈ batches) ds →
  ∃ f, (deliver_stock ds s).2 = with_sy_stock f s ∧ Forall (λ r, isOk r = true) (deliver_stock ds s).1
  ∧ ∀ z store, f (sy_stock s) !! (z, store) = sy_stock s !! (z, store) ∧ z ∉ digits_val <$> (ds ≫= slice_eans)
               ∨ ∃ e, e ∈ ds ≫= slice_eans ∧ z = digits_val e
                   ∧ f (sy_stock s) !! (z, store) = quantity_of (erp_stock e store).
Proof.
  intros Hds. revert s. induction Hds as [|d ds Hd _ IH]; intros s.
  { exists id. split; [by destruct s|]. split; [constructor|]. intros. left. split; [done|]. by intros ?%elem_of_nil. }
  cbn [deliver_stock]. destruct (stock_batch d s Hd) as (r & f & -> & Hset & Hkeep).
  destruct (IH (with_sy_stock f s)) as (g & E & Hok & Hg). destruct (deliver_stock ds (with_sy_stock f s)) as [rs s2].
  cbn [fst snd] in *. exists (g ∘ f). split; [by rewrite E; destruct s|]. split; [by constructor|].
  intros z store. rewrite bind_cons, fmap_app, not_elem_of_app. setoid_rewrite elem_of_app.
  destruct (Hg z store) as [[E' Hz]|(e & He & Hz & E')]; cbn [sy_stock with_sy_stock] in E'; [|by eauto 6].
  simpl. rewrite E'. destruct (decide (z ∈ digits_val <$> slice_eans d)) as [Hin|Hni]; [|left; by rewrite Hkeep].
  right. apply list_elem_of_fmap in Hin as (e & -> & He). exists e. eauto.
Qed.

Lemma covered e : e ∈ erp_eans → ∃ slice, slice ∈ batches ∧ e ∈ slice_eans slice.
Proof.
  unfold erp_eans. intros (b & Hb & Hp)%list_elem_of_omap.
  assert (eb_id b ∈ concat batches) as Hin.
  { rewrite (chunk_concat rows batchSize positive_size). apply list_elem_of_omap. exists (barcode_row b).
    split; [by apply row_of|]. simpl. by rewrite Hp. }
  apply list_elem_of_In, in_concat in Hin as (slice & Hs%list_elem_of_In & Hi%list_elem_of_In).
  exists slice. split; [done|]. apply slice_eans_elem. exists (eb_id b). split; [done|]. by rewrite erp_ean_of.
Qed.

Lemma slice_eans_erp slice e : e ∈ slice_eans slice → e ∈ erp_eans.
Proof.
  intros (id & _ & (b & Hb & _ & Hp)%erp_ean_Some)%slice_eans_elem. apply list_elem_of_omap. by exists b.
Qed.

End Batch.

(** [C27] Stock synchronisation converges.  Cut the ERP's embalagens into
    batches by EAN and deliver the batches to the step in any order, each at
    least once and any number of times: every delivery succeeds, the stock of
    every EAN of the ERP is, in every store, the sum of its whole units
    (absent when there are none), the stock of other EANs and every other
    table are unchanged. *)
Theorem stock_sync_converges {N} `{JsNum N} (a7 : A7) batchSize deliveries (s : SyncDb N) :
  NoDup (eb_id <$> a7_embalagem a7) → (0 < batchSize)%nat →
  (∀ e store, erp_stock a7 e store <= INT_MAX) →
  let batches := chunkEmbalagensByEan (findAllValidWithBarcode a7) batchSize in
  (∀ d, d ∈ deliveries ↔ d ∈ batches) →
  let out := deliver_stock a7 deliveries s in
  Forall (λ r, isOk r = true) out.1
  ∧ (∀ e store, e ∈ erp_eans a7 → sy_stock out.2 !! (digits_val e, store) = quantity_of (erp_stock a7 e store))
  ∧ (∀ z store, z ∉ digits_val <$> erp_eans a7 → sy_stock out.2 !! (z, store) = sy_stock s !! (z, store))
  ∧ ∃ f, out.2 = with_sy_stock f s.
Proof.
  intros Hids Hb Hint batches Hds. cbn zeta.
  assert (Forall (λ d, d ∈ batches) deliveries) as Hall by (apply Forall_forall; intros; by apply Hds).
  destruct (deliveries_stock a7 batchSize Hids Hb Hint deliveries s Hall) as (f & -> & Hok & Hf).
  split; [done|]. cbn [sy_stock with_sy_stock]. split; [|split; [|by exists f]].
  - intros e store He. destruct (covered a7 batchSize Hids Hb e He) as (slice & Hs & Hin).
    assert (e ∈ deliveries ≫= slice_eans a7) as Hin' by (apply list_elem_of_bind; exists slice; split; [done|by apply Hds]).
    destruct (Hf (digits_val e) store) as [[_ Hni]|(e' & He' & Hv & ->)].
    + destruct Hni. by apply list_elem_of_fmap_2.
    + assert (e = e') as ->; [|done]. apply list_elem_of_bind in He' as (sl & He' & _).
      apply canonical_inj; [..|done]; eapply parsed_canonical, Forall_forall;
        [apply (slice_eans_parsed a7 Hids slice)|done|apply (slice_eans_parsed a7 Hids sl)|done].
  - intros z store Hz. destruct (Hf z store) as [[-> _]|(e & He & -> & _)]; [done|].
    destruct Hz. apply list_elem_of_fmap_2. apply list_elem_of_bind in He as (sl & He & _).
    by apply (slice_eans_erp a7 Hids sl).
Qed.

Definition total_units (rows : list Estoque) : Z := foldr (λ r n, Z.max 0 (floor_qty (es_estoque r)) + n) 0 rows.

Lemma pair_total_le f key rows : pair_total f key rows <= total_units rows.
Proof.
  induction rows as [|r rows IH]; simpl; [lia|].
  assert (contribution f key r <= Z.max 0 (floor_qty (es_estoque r))); [|lia].
  unfold contribution. repeat case_match; lia.
Qed.

(** Two embalagens of one EAN (the barcode with and without leading zero),
    one of another. *)
Definition wit_embalagem (id : Z) (code : string) : Embalagem :=
  {| eb_id := id; eb_produtoid := id; eb_apresentacao := None; eb_codigobarras := Some code;
     eb_quantidadeporembalagem := 1; eb_precoreferencial := Num 100 2; eb_precovenda := Num 1000 2;
     eb_gruporemarcacaoid := None; eb_descricao := "p" |}.
Definition wit_a7 : A7 :=
  {| a7_embalagem := [wit_embalagem 1 "789"; wit_embalagem 2 "790"; wit_embalagem 3 "0789"];
     a7_produto := ∅;
     a7_estoque := [Build_Estoque 1 4 (Num 25000 4); Build_Estoque 3 4 (Num 30000 4); Build_Estoque 2 4 (Num 5000 4)];
     a7_classificacao := ∅; a7_classificacaoproduto := []; a7_custoproduto := []; a7_cadernooferta := [];
     a7_itemcadernooferta := []; a7_quantidade := []; a7_participante := []; a7_precounidade := [];
     a7_recebimento := []; a7_unidadenegocio := [] |}.

Definition empty_catalog {N} : Catalog N := Build_Catalog ∅ ∅ ∅ ∅ ∅ ∅ ∅ ∅ [] [] [] [] ∅ [] ∅ ∅.
Definition stale_stock : SyncDb F64 :=
  Build_SyncDb empty_catalog ∅ {[ (790, 4) := 9; (5, 4) := 1 ]} ∅ ∅ [].

Lemma stock_sync_converges_witness :
  let s' := (deliver_stock wit_a7 [[2]; [1; 3]; [2]] stale_stock).2 in
  erp_stock wit_a7 "789" 4 = 5 ∧ sy_stock s' !! (789, 4) = Some 5
  ∧ sy_stock s' !! (790, 4) = None ∧ sy_stock s' !! (5, 4) = Some 1.
Proof.
  destruct (stock_sync_converges wit_a7 1 [[2]; [1; 3]; [2]] stale_stock) as (_ & Hset & Hkeep & _).
  - refine (proj1 (bool_decide_eq_true _) _). vm_compute. reflexivity.
  - lia.
  - intros e store. etrans; [apply pair_total_le|]. vm_compute. discriminate.
  - intros d. assert (chunkEmbalagensByEan (findAllValidWithBarcode wit_a7) 1 = [[1; 3]; [2]]) as -> by reflexivity.
    rewrite !elem_of_cons. tauto.
  - cbn zeta. split; [reflexivity|]. split; [|split].
    + apply (Hset "789" 4). refine (proj1 (bool_decide_eq_true _) _). vm_compute. reflexivity.
    + apply (Hset "790" 4). refine (proj1 (bool_decide_eq_true _) _). vm_compute. reflexivity.
    + apply (Hkeep 5 4). refine (proj1 (bool_decide_eq_false _) _). vm_compute. reflexivity.
Defined.
