(* ===== verification/ClassificationSync.v ===== *)
(** Classification paths written by the synchronisation
    ([classification.repository.ts: upsertPaths]).  Whatever other batches
    insert in between, the table stays a forest with one live node per name
    and parent, and each path gets the id of a leaf that reads back as the
    path; so the pricing services can always build their index. *)

From Stdlib Require Import Ascii String.
From S2P Require Import Prelude JsText JsNumber Enums Messages World Classification SuggestionEngine PricingDb SuggestionRules Suggestions PricingApply Erp CatalogMutation Chunker OfferRules OfferBook TenantCatalog ErpReplica SyncSteps.
Open Scope string_scope.
Open Scope list_scope.
Open Scope Z_scope.

Implicit Types (rows ext : list ClassificationEntity) (e : ClassificationEntity).

Abbreviation ent_id e := (cr_id (ce_row e)).
Abbreviation ent_parent e := (cr_parentId (ce_row e)).

(* ------------------------------------------------------------------ *)
(** * The table                                                         *)
(* ------------------------------------------------------------------ *)

(** An id as [uuid_generate_v4()] writes it. *)
Definition id_ok (id : string) : Prop :=
  id ≠ "" ∧ id ≠ "null" ∧ str_forall (λ c, negb (Ascii.eqb c "|")) id = true.

(** A strictly increasing measure along the parent links. *)
Definition ranked rows : Prop :=
  ∃ rank : string → nat, ∀ e p, e ∈ rows → ent_parent e = Some p → (rank p < rank (ent_id e))%nat.

Record class_ok rows : Prop := {
  co_ids : NoDup (class_ids rows);
  co_id_ok : Forall (λ e, id_ok (ent_id e)) rows;
  (** the foreign key [fk_classification_parent] *)
  co_fk : Forall (λ e, ∀ p, ent_parent e = Some p → p ∈ class_ids rows) rows;
  (** [UQ_CLASSIFICATION_ROOT_NAME], [UQ_CLASSIFICATION_CHILD_NAME] *)
  co_unique : NoDup ((λ e, (cr_name (ce_row e), ent_parent e)) <$> filter (λ e, ce_deleted e = false) rows);
  co_ranked : ranked rows;
}.

Lemma find_class_elem rows name parent id :
  find_class rows name parent = Some id →
  ∃ e, e ∈ rows ∧ ent_id e = id ∧ cr_name (ce_row e) = name ∧ ent_parent e = parent ∧ ce_deleted e = false.
Proof.
  unfold find_class. destruct (filter _ rows) as [|e l] eqn:Hf; [done|]. intros [= <-].
  assert (e ∈ filter (λ e, cr_name (ce_row e) = name ∧ ent_parent e = parent ∧ ce_deleted e = false) rows)
    as [(? & ? & ?) ?]%list_elem_of_filter by (rewrite Hf; left).
  by exists e.
Qed.

Lemma find_class_app rows ext name parent id :
  find_class rows name parent = Some id → find_class (rows ++ ext) name parent = Some id.
Proof. unfold find_class. rewrite filter_app. by destruct (filter _ rows). Qed.

Lemma find_class_None rows name parent e :
  find_class rows name parent = None → e ∈ rows → ce_deleted e = false →
  (cr_name (ce_row e), ent_parent e) ≠ (name, parent).
Proof.
  unfold find_class. destruct (filter _ rows) as [|x l] eqn:Hf; [|done]. intros _ Hin Hd [= Hn Hp].
  assert (e ∈ filter (λ e, cr_name (ce_row e) = name ∧ ent_parent e = parent ∧ ce_deleted e = false) rows) as Habs
    by (by apply list_elem_of_filter).
  rewrite Hf in Habs. by apply elem_of_nil in Habs.
Qed.

Lemma class_ids_elem rows e : e ∈ rows → ent_id e ∈ class_ids rows.
Proof. intros. by apply (list_elem_of_fmap_2 (cr_id ∘ ce_row)). Qed.

Section Insert.
Variable uuid : gset string → string.
Hypothesis uuid_fresh : ∀ X, uuid X ∉ X.
Hypothesis uuid_ok : ∀ X, id_ok (uuid X).

(** Inserting below an existing node keeps the table well formed. *)
Lemma insert_class_ok name parent rows :
  class_ok rows → (∀ p, parent = Some p → p ∈ class_ids rows) → class_ok (insert_class uuid name parent rows).
Proof.
  intros Hc Hp. unfold insert_class.
  destruct (find_class rows name parent) as [?|] eqn:Hf; [done|].
  destruct Hc as [Hids Hok Hfk Huq [rank Hr]].
  set (new := uuid _). assert (new ∉ class_ids rows) as Hnew.
  { pose proof (uuid_fresh (list_to_set (class_ids rows))) as Hfr. by rewrite elem_of_list_to_set in Hfr. }
  assert (∀ X, class_ids (rows ++ [X]) = class_ids rows ++ [ent_id X]) as Happ by (intros; unfold class_ids; by rewrite fmap_app).
  split.
  - rewrite Happ. apply NoDup_app. split_and!; [done| |apply NoDup_singleton].
    by intros x Hx ->%list_elem_of_singleton.
  - apply Forall_app. split; [done|]. repeat constructor; apply uuid_ok.
  - rewrite Happ. apply Forall_app. split.
    + eapply Forall_impl; [exact Hfk|]. intros e He p Hep. apply elem_of_app. left. by apply He.
    + repeat constructor. intros p Hep. apply elem_of_app. left. by apply Hp.
  - rewrite filter_app, fmap_app. apply NoDup_app. split_and!; [done| |].
    + intros [n q] (e & E & [Hd He]%list_elem_of_filter)%list_elem_of_fmap. rewrite filter_cons_True by done.
      simpl. intros Hq%list_elem_of_singleton. apply (find_class_None _ _ _ _ Hf He Hd). congruence.
    + rewrite filter_cons_True by done. apply NoDup_singleton.
  - exists (λ x, if decide (x = new) then S (match parent with Some p => rank p | None => 0%nat end) else rank x).
    intros e p [He|He]%elem_of_app Hep.
    + rewrite Forall_forall in Hfk. pose proof (Hfk _ He _ Hep). pose proof (class_ids_elem _ _ He).
      rewrite !decide_False by congruence. by apply Hr.
    + apply list_elem_of_singleton in He as ->. simpl in Hep |- *. subst parent.
      rewrite (decide_False (P := p = new)); [rewrite decide_True by done; lia|].
      intros ->. apply Hnew. by apply Hp.
Qed.

Lemma insert_class_find name parent rows : is_Some (find_class (insert_class uuid name parent rows) name parent).
Proof.
  unfold insert_class. destruct (find_class rows name parent) as [id|] eqn:Hf; [by rewrite Hf|].
  unfold find_class in *. rewrite filter_app. destruct (filter _ rows); [|done].
  simpl. rewrite filter_cons_True by done. eauto.
Qed.

Lemma insert_class_extends name parent rows : ∃ ext, insert_class uuid name parent rows = rows ++ ext.
Proof. unfold insert_class. destruct (find_class _ _ _); [exists []; by rewrite app_nil_r|by eexists]. Qed.

End Insert.

(* ------------------------------------------------------------------ *)
(** * The id cache                                                      *)
(* ------------------------------------------------------------------ *)

Lemma split_at_bar (a b x y : string) :
  str_forall (λ c, negb (Ascii.eqb c "|")) a = true → str_forall (λ c, negb (Ascii.eqb c "|")) b = true →
  a +:+ "|" +:+ x = b +:+ "|" +:+ y → a = b ∧ x = y.
Proof.
  revert b. induction a as [|c a IH]; intros [|d b]; cbn [str_forall]; intros Ha Hb E; simpl in E.
  - by injection E.
  - apply andb_true_iff in Hb as [Hd _]. injection E as <- _. done.
  - apply andb_true_iff in Ha as [Hc _]. injection E as -> _. done.
  - apply andb_true_iff in Ha as [_ Ha]. apply andb_true_iff in Hb as [_ Hb].
    injection E as -> E. destruct (IH b Ha Hb E) as [-> ->]. done.
Qed.

Definition parent_ok (parent : option string) : Prop := ∀ p, parent = Some p → id_ok p.

Lemma cacheKey_inj p q name name' : parent_ok p → parent_ok q →
  cacheKey p name = cacheKey q name' → p = q ∧ name = name'.
Proof.
  intros Hp Hq E. unfold cacheKey in E.
  assert (∀ r, parent_ok r → str_forall (λ c, negb (Ascii.eqb c "|")) (default "null" r) = true) as Hf.
  { intros [r|] Hr; [by destruct (Hr r eq_refl) as (_ & _ & ?)|done]. }
  destruct (split_at_bar _ _ _ _ (Hf p Hp) (Hf q Hq) E) as [E' ->]. split; [|done].
  destruct p as [p|], q as [q|]; simpl in E'; [by subst|..|done]; subst.
  - by destruct (Hp "null" eq_refl) as (_ & ? & _).
  - by destruct (Hq "null" eq_refl) as (_ & ? & _).
Qed.

Definition cache_ok (st : ClassState) : Prop :=
  ∀ p name id, parent_ok p → js_map_get (cacheKey p name) st.2 = Some id → find_class st.1 name p = Some id.

Definition state_ok (st : ClassState) : Prop := class_ok st.1 ∧ cache_ok st.

Lemma known_parent_ok rows parent : class_ok rows → (∀ p, parent = Some p → p ∈ class_ids rows) → parent_ok parent.
Proof.
  intros Hc Hp p Ep. apply Hp in Ep. apply list_elem_of_fmap in Ep as (e & -> & He).
  pose proof (co_id_ok _ Hc) as Hok. rewrite Forall_forall in Hok. by apply Hok.
Qed.

(** The path from a root to a live node, as the names on it. *)
Inductive class_path rows : string → list string → Prop :=
| path_root e : e ∈ rows → ce_deleted e = false → ent_parent e = None →
    class_path rows (ent_id e) [cr_name (ce_row e)]
| path_child e p names : e ∈ rows → ce_deleted e = false → ent_parent e = Some p → class_path rows p names →
    class_path rows (ent_id e) (names ++ [cr_name (ce_row e)]).

Lemma class_path_app rows ext id names : class_path rows id names → class_path (rows ++ ext) id names.
Proof.
  induction 1; [apply path_root|eapply path_child]; try done; apply elem_of_app; by left.
Qed.

(** The node above, [None] above a root. *)
Definition path_to rows (id : option string) (names : list string) : Prop :=
  match id with None => names = [] | Some id => class_path rows id names end.

Lemma find_extends rows parent names name id :
  path_to rows parent names → find_class rows name parent = Some id → class_path rows id (names ++ [name]).
Proof.
  intros Hp (e & He & <- & <- & Hpar & Hd)%find_class_elem. destruct parent as [p|]; simpl in Hp.
  - by eapply path_child.
  - subst. by apply path_root.
Qed.

Lemma class_path_id rows id names : class_path rows id names → id ∈ class_ids rows.
Proof. by destruct 1; apply class_ids_elem. Qed.

Section Resolve.
Variable uuid : gset string → string.
Hypothesis uuid_fresh : ∀ X, uuid X ∉ X.
Hypothesis uuid_ok : ∀ X, id_ok (uuid X).
(** Concurrent batches only add nodes, and keep the table well formed. *)
Variable others : list ClassificationEntity → list ClassificationEntity.
Hypothesis others_ok : ∀ rows, class_ok rows → class_ok (others rows) ∧ ∃ ext, others rows = rows ++ ext.

Lemma resolve_ok name parent names st : state_ok st → path_to st.1 parent names →
  ∃ id st', resolve uuid others name parent st = Ok (id, st') ∧ state_ok st' ∧ id ≠ ""
    ∧ (∃ ext, st'.1 = st.1 ++ ext) ∧ class_path st'.1 id (names ++ [name]).
Proof.
  intros [Hc Hcache] Hp.
  assert (∀ p, parent = Some p → p ∈ class_ids st.1) as Hpar by (intros p ->; by eapply class_path_id).
  pose proof (known_parent_ok _ _ Hc Hpar) as Hpok.
  assert (∀ rows id, class_ok rows → find_class rows name parent = Some id → id ≠ "") as Hne.
  { intros rows id Hr (e & He & <- & _)%find_class_elem. pose proof (co_id_ok _ Hr) as Hi.
    rewrite Forall_forall in Hi. by destruct (Hi _ He). }
  unfold resolve. destruct (js_map_get (cacheKey parent name) st.2) as [id|] eqn:Hg.
  - pose proof (Hcache _ _ _ Hpok Hg) as Hf. pose proof (Hne _ _ Hc Hf).
    assert (truthy (Some id) = Some id) as -> by (destruct id; [done|reflexivity]).
    exists id, st. split_and!; [done|split; [done|done]|done|exists []; by rewrite app_nil_r|by eapply find_extends].
  - cbn [truthy]. destruct (others_ok _ Hc) as [Hco [ext Hext]].
    set (rows := insert_class uuid name parent (others st.1)).
    assert (class_ok rows) as Hrows.
    { apply insert_class_ok; [done..|]. intros p Ep. rewrite Hext. unfold class_ids. rewrite fmap_app.
      apply elem_of_app. left. by apply Hpar. }
    assert (∃ ext', rows = st.1 ++ ext') as [ext' Hext'].
    { destruct (insert_class_extends uuid name parent (others st.1)) as [ext2 Hx].
      exists (ext ++ ext2). subst rows. by rewrite Hx, Hext, app_assoc. }
    destruct (insert_class_find uuid name parent (others st.1)) as [id Hf]. fold rows in Hf. rewrite Hf.
    exists id, (rows, js_map_set (cacheKey parent name) id st.2). split_and!; [done| |by eapply Hne|by exists ext'|].
    + split; [done|]. intros p n i Hpo. cbn [fst snd]. rewrite js_map_get_set. case_decide as E.
      * apply cacheKey_inj in E as [-> ->]; [by intros [= ->]|done..].
      * intros Hi. rewrite Hext'. by apply find_class_app, Hcache.
    + eapply find_extends; [|done]. cbn [fst]. rewrite Hext'. destruct parent; [by apply class_path_app|done].
Qed.

Lemma resolve_segments_ok parts parent names leaf st : state_ok st → path_to st.1 parent names →
  (parts = [] → leaf = parent) →
  ∃ leaf' st', resolve_segments uuid others parts parent leaf st = Ok (leaf', st') ∧ state_ok st'
    ∧ (∃ ext, st'.1 = st.1 ++ ext) ∧ path_to st'.1 leaf' (names ++ parts)
    ∧ (parts ≠ [] → ∃ id, leaf' = Some id ∧ id ≠ "").
Proof.
  revert parent names leaf st. induction parts as [|part parts IH]; intros parent names leaf st Hst Hp Hleaf.
  { exists leaf, st. rewrite Hleaf by done. split_and!; [done|done|exists []; by rewrite app_nil_r|by rewrite app_nil_r|done]. }
  cbn [resolve_segments]. destruct (resolve_ok part parent names st Hst Hp) as (id & st1 & -> & Hst1 & Hid & [ext1 E1] & Hpath).
  cbn [mbind Res_bind]. destruct (IH (Some id) (names ++ [part]) (Some id) st1 Hst1 Hpath (λ _, eq_refl))
    as (leaf' & st' & Hr & Hst' & [ext E] & Hpath' & Hl).
  exists leaf', st'. split_and!; [done|done| |by rewrite <- app_assoc in Hpath'|].
  - exists (ext1 ++ ext). by rewrite E, E1, app_assoc.
  - intros _. destruct parts as [|part' parts]; [|by apply Hl]. cbn in Hr. injection Hr as <- <-. by exists id.
Qed.

Lemma resolve_paths_ok paths out st : state_ok st → Forall (λ p, p.2 ≠ []) paths → NoDup paths.*1 →
  (∀ path id, js_map_get path out = Some id → path ∉ paths.*1) →
  ∃ out' st', resolve_paths uuid others paths out st = Ok (out', st') ∧ state_ok st'
    ∧ (∃ ext, st'.1 = st.1 ++ ext)
    ∧ (∀ path parts, (path, parts) ∈ paths → ∃ id, js_map_get path out' = Some id ∧ class_path st'.1 id parts)
    ∧ (∀ path, path ∉ paths.*1 → js_map_get path out' = js_map_get path out).
Proof.
  revert out st. induction paths as [|[path parts] paths IH]; intros out st Hst Hne Hnd Hout.
  { exists out, st. split_and!; [done|done|exists []; by rewrite app_nil_r|by intros ? ? ?%elem_of_nil|done]. }
  apply Forall_cons in Hne as [Hne Hnes]. apply NoDup_cons in Hnd as [Hni Hnd]. cbn [resolve_paths].
  destruct (resolve_segments_ok parts None [] None st Hst eq_refl (λ _, eq_refl))
    as (leaf & st1 & -> & Hst1 & [ext1 E1] & Hpath & Hleaf).
  destruct (Hleaf Hne) as (id & -> & Hid). cbn [mbind Res_bind].
  assert (truthy (Some id) = Some id) as -> by (destruct id; [done|reflexivity]).
  destruct (IH (js_map_set path id out) st1 Hst1 Hnes Hnd) as (out' & st' & -> & Hst' & [ext E] & Hget & Hkeep).
  { intros path' id'. rewrite js_map_get_set. case_decide as E; [by intros _; subst|].
    intros Hg Hin. apply (Hout _ _ Hg). by right. }
  exists out', st'. split_and!; [done|done|exists (ext1 ++ ext); by rewrite E, E1, app_assoc| |].
  - intros path' parts' [[= -> ->]|Hin]%elem_of_cons; [|by apply Hget].
    exists id. rewrite Hkeep by done. rewrite js_map_get_set, decide_True by done. split; [done|].
    rewrite E. by apply class_path_app.
  - intros path' [Hne' Hni']%not_elem_of_cons. rewrite Hkeep by done. rewrite js_map_get_set. by rewrite decide_False.
Qed.

End Resolve.

(* ------------------------------------------------------------------ *)
(** * The index and the paths the readers see                           *)
(* ------------------------------------------------------------------ *)

Definition live_rows rows : list ClassificationRow := ce_row <$> filter (λ e, ce_deleted e = false) rows.

Lemma live_ids_NoDup rows : NoDup (class_ids rows) → NoDup (cr_id <$> live_rows rows).
Proof.
  unfold live_rows, class_ids. induction rows as [|e rows IH]; [done|]. rewrite fmap_cons. intros [Hni Hnd]%NoDup_cons.
  rewrite filter_cons. case_decide; [|auto]. rewrite !fmap_cons. apply NoDup_cons. split; [|auto].
  rewrite <- list_fmap_compose. intros (x & Hx & [_ Hin]%list_elem_of_filter)%list_elem_of_fmap.
  apply Hni. simpl in *. rewrite Hx. by apply (list_elem_of_fmap_2 (cr_id ∘ ce_row)).
Qed.

Lemma byId_live rows e : class_ok rows → e ∈ rows → ce_deleted e = false →
  byId (live_rows rows) !! ent_id e = Some (ce_row e).
Proof.
  intros Hc He Hd. pose proof (live_ids_NoDup _ (co_ids _ Hc)) as Hnd.
  assert (ce_row e ∈ live_rows rows) as Hin by (apply list_elem_of_fmap_2; by apply list_elem_of_filter).
  assert (is_Some (byId (live_rows rows) !! ent_id e)) as [r Hr] by (apply byId_dom; by apply list_elem_of_fmap_2).
  rewrite Hr. f_equal. apply byId_elem in Hr as [Hr Hid]. clear -Hnd Hin Hr Hid.
  induction (live_rows rows) as [|x l IH]; [by apply elem_of_nil in Hr|].
  rewrite fmap_cons in Hnd. apply NoDup_cons in Hnd as [Hni Hnd].
  apply elem_of_cons in Hr as [->|Hr], Hin as [Hin|Hin]; [done|..|auto]; exfalso; apply Hni.
  - rewrite Hid. by apply list_elem_of_fmap_2.
  - rewrite <- Hin, <- Hid. by apply list_elem_of_fmap_2.
Qed.

(** A ranked table has no cycle of parents. *)
Lemma ranked_acyclic rows : ranked rows → acyclic (live_rows rows).
Proof.
  intros [rank Hr] id. remember (rank id) as n eqn:En. revert id En.
  induction n as [n IH] using (well_founded_induction lt_wf). intros id ->. constructor. intros p Hp.
  unfold parent, parentOf in Hp. apply bind_Some in Hp as (r & Hb & [Hp _]%truthy_Some).
  apply byId_elem in Hb as [Hb <-]. apply list_elem_of_fmap in Hb as (e & -> & [_ He]%list_elem_of_filter).
  eapply IH; [|done]. by apply Hr.
Qed.

(** The nodes of a path are distinct, so there are no more than rows. *)
Lemma class_path_length rows id names : class_ok rows → class_path rows id names →
  (length names ≤ length (live_rows rows))%nat.
Proof.
  intros Hc Hp. destruct (co_ranked _ Hc) as [rank Hr].
  assert (∃ ids, length ids = length names ∧ NoDup ids
            ∧ Forall (λ x, x ∈ cr_id <$> live_rows rows ∧ (rank x ≤ rank id)%nat) ids) as (ids & <- & Hnd & Hids).
  { assert (∀ e, e ∈ rows → ce_deleted e = false → ent_id e ∈ cr_id <$> live_rows rows) as Hl.
    { intros e He Hd. apply list_elem_of_fmap_2, list_elem_of_fmap_2. by apply list_elem_of_filter. }
    induction Hp as [e He Hd _|e p names He Hd Hep Hp (ids & Hlen & Hnd & Hids)].
    - exists [ent_id e]. split_and!; [done|apply NoDup_singleton|]. repeat constructor. by apply Hl.
    - pose proof (Hr _ _ He Hep) as Hlt. exists (ent_id e :: ids). split_and!.
      + rewrite length_app. simpl. lia.
      + apply NoDup_cons. split; [|done]. intros Hin. rewrite Forall_forall in Hids.
        destruct (Hids _ Hin) as [_ ?]. lia.
      + constructor; [split; [by apply Hl|lia]|]. eapply Forall_impl; [exact Hids|]. intros x [? ?]. split; [done|lia]. }
  rewrite <- (length_fmap cr_id (live_rows rows)). apply submseteq_length, NoDup_submseteq; [done|].
  intros x Hx. rewrite Forall_forall in Hids. by apply Hids.
Qed.

Lemma join_snoc sep names name : names ≠ [] → str_join sep (names ++ [name]) = str_join sep names +:+ sep +:+ name.
Proof.
  induction names as [|x names IH]; [done|]. intros _. destruct names as [|y names]; [done|].
  change ((x :: y :: names) ++ [name]) with (x :: (y :: names) ++ [name]).
  assert (∀ l, l ≠ [] → str_join sep (x :: l) = x +:+ sep +:+ str_join sep l) as Hj by (by intros [|]).
  rewrite !Hj by (try done; by destruct names). rewrite IH by done. by rewrite !str_app_assoc.
Qed.

Lemma class_path_nonempty rows id names : class_path rows id names → names ≠ [].
Proof. destruct 1 as [|? ? names]; [done|]. by destruct names. Qed.

(** The reading CTE prints the path. *)
Lemma cls_path_prints rows id names fuel : class_ok rows → class_path rows id names →
  (length names ≤ S fuel)%nat → cls_path fuel (live_rows rows) id = Some (str_join " > " names).
Proof.
  intros Hc Hp. revert fuel. induction Hp as [e He Hd Hep|e p names He Hd Hep Hp IH]; intros fuel Hl.
  - destruct fuel; cbn [cls_path]; rewrite byId_live by done; simpl; by rewrite Hep.
  - rewrite length_app in Hl. simpl in Hl. pose proof (class_path_nonempty _ _ _ Hp) as Hne.
    destruct fuel as [|fuel]; [destruct names; [done|simpl in Hl; lia]|].
    cbn [cls_path]. rewrite byId_live by done. cbn [mbind option_bind]. rewrite Hep, IH by lia.
    cbn [mbind option_bind]. by rewrite join_snoc.
Qed.

(** A node has one path, and a path one node. *)
Lemma class_path_fun rows id names names' : class_ok rows →
  class_path rows id names → class_path rows id names' → names = names'.
Proof.
  intros Hc Hp. revert names'. assert (∀ e e', e ∈ rows → e' ∈ rows → ent_id e = ent_id e' → e = e') as Hinj.
  { pose proof (co_ids _ Hc) as Hnd. clear -Hnd. induction rows as [|x rows IH]; [by intros ? ? ?%elem_of_nil|].
    unfold class_ids in Hnd. rewrite fmap_cons in Hnd. apply NoDup_cons in Hnd as [Hni Hnd].
    intros e e' [->|He]%elem_of_cons [->|He']%elem_of_cons E; [done|..|by apply IH]; exfalso; apply Hni.
    - simpl. rewrite E. by apply (list_elem_of_fmap_2 (cr_id ∘ ce_row)).
    - simpl. rewrite <- E. by apply (list_elem_of_fmap_2 (cr_id ∘ ce_row)). }
  induction Hp as [e He Hd Hep|e p names He Hd Hep Hp IH]; intros names' Hp'; inversion Hp' as [e' He' ? Hep' E|e' p' n' He' ? Hep' ? E];
    pose proof (Hinj _ _ He' He E); subst; try congruence.
  assert (p' = p) as -> by congruence. f_equal. by apply IH.
Qed.

Lemma class_path_inj rows id id' names : class_ok rows →
  class_path rows id names → class_path rows id' names → id = id'.
Proof.
  intros Hc Hp. revert id'. assert (∀ e e', e ∈ rows → e' ∈ rows → ce_deleted e = false → ce_deleted e' = false →
    cr_name (ce_row e) = cr_name (ce_row e') → ent_parent e = ent_parent e' → ent_id e = ent_id e') as Hinj.
  { pose proof (co_unique _ Hc) as Hnd. clear -Hnd. induction rows as [|x rows IH]; [by intros ? ? ?%elem_of_nil|].
    rewrite filter_cons in Hnd. case_decide as Hdx.
    - rewrite fmap_cons in Hnd. apply NoDup_cons in Hnd as [Hni Hnd].
      intros e e' [->|He]%elem_of_cons [->|He']%elem_of_cons Hd Hd' En Ep; [done|..|by apply IH]; exfalso; apply Hni.
      + rewrite En, Ep. apply list_elem_of_fmap. exists e'. split; [done|]. by apply list_elem_of_filter.
      + rewrite <- En, <- Ep. apply list_elem_of_fmap. exists e. split; [done|]. by apply list_elem_of_filter.
    - intros e e' [->|He]%elem_of_cons [->|He']%elem_of_cons Hd Hd'; try done. by apply IH. }
  induction Hp as [e He Hd Hep|e p names He Hd Hep Hp IH]; intros id' Hp'; inversion Hp' as [e' He' Hd' Hep' E En|e' p' n' He' Hd' Hep' Hp2 E En]; subst.
  - apply Hinj; try done; congruence.
  - pose proof (class_path_nonempty _ _ _ Hp2). destruct n' as [|? [|]]; done.
  - pose proof (class_path_nonempty _ _ _ Hp). destruct names as [|? [|]]; done.
  - apply app_inj_tail in En as [-> En]. apply IH in Hp2 as ->. apply Hinj; [done..|congruence].
Qed.

Lemma segmentsByPath_spec paths :
  NoDup (segmentsByPath paths).*1 ∧ Forall (λ p, p.2 ≠ []) (segmentsByPath paths)
  ∧ ∀ path, path ∈ paths → path_segments path ≠ [] → (path, path_segments path) ∈ segmentsByPath paths.
Proof.
  unfold segmentsByPath. set (l := omap _ paths).
  assert (∀ path parts, (path, parts) ∈ l ↔ path ∈ paths ∧ parts = path_segments path ∧ parts ≠ []) as Hl.
  { intros path parts. subst l. rewrite list_elem_of_omap. split.
    - intros (x & Hx & E). destruct (path_segments x) eqn:Hs; [done|]. injection E as <- <-. by rewrite Hs.
    - intros (Hx & -> & Hne). exists path. split; [done|]. by destruct (path_segments path). }
  split_and!; [apply js_map_of_NoDup| |].
  - apply Forall_forall. intros [path parts] Hin%js_map_of_elem. by apply Hl in Hin as (_ & _ & ?).
  - intros path Hin Hne. assert (path ∈ (js_map_of l).*1) as Hk.
    { apply js_map_of_keys, list_elem_of_fmap. exists (path, path_segments path). split; [done|]. by apply Hl. }
    apply list_elem_of_fmap in Hk as ([p parts] & -> & Hk). pose proof Hk as Hk2.
    apply js_map_of_elem, Hl in Hk2 as (_ & -> & _). done.
Qed.

(** [C28] Classification paths.  On a well-formed table, and whatever well-formed
    nodes concurrent batches insert before each statement, [upsertPaths]
    returns: the table is still well formed (unique ids, live nodes unique by
    name and parent, no dangling parent) and only extended, its live rows
    have no cycle, so the index of the pricing services is built; every
    path with a segment gets the id of a node that the readers print back as
    the path's segments joined by " > "; and two paths get the same id
    exactly when they have the same segments. *)
Theorem upsert_paths_builds_tree uuid others paths rows :
  (∀ X, uuid X ∉ X) → (∀ X, id_ok (uuid X)) →
  (∀ rows, class_ok rows → class_ok (others rows) ∧ ∃ ext, others rows = rows ++ ext) →
  class_ok rows →
  ∃ out rows', upsertPaths uuid others paths rows = Ok (out, rows')
    ∧ class_ok rows' ∧ (∃ ext, rows' = rows ++ ext)
    ∧ isOk (buildClassificationIndex (live_rows rows')) = true
    ∧ (∀ path, path ∈ paths → path_segments path ≠ [] → ∃ leaf, js_map_get path out = Some leaf
         ∧ cls_path (length (live_rows rows')) (live_rows rows') leaf = Some (str_join " > " (path_segments path)))
    ∧ (∀ path path', path ∈ paths → path' ∈ paths → path_segments path ≠ [] → path_segments path' ≠ [] →
         js_map_get path out = js_map_get path' out ↔ path_segments path = path_segments path').
Proof.
  intros Hfr Hid Hoth Hc. destruct (segmentsByPath_spec paths) as (Hnd & Hne & Hseg).
  destruct (resolve_paths_ok uuid Hfr Hid others Hoth (segmentsByPath paths) [] (rows, []))
    as (out & st & Hr & [Hc' _] & Hext & Hget & _); [|done..|].
  { split; [done|]. by intros p n i. }
  exists out, st.1. unfold upsertPaths. rewrite Hr. split_and!; [done|done|done| | |].
  - apply build_index_ok, ranked_acyclic, co_ranked, Hc'.
  - intros path Hin Hp. destruct (Hget _ _ (Hseg _ Hin Hp)) as (id & Hg & Hpath). exists id. split; [done|].
    apply cls_path_prints; [done..|]. pose proof (class_path_length _ _ _ Hc' Hpath). lia.
  - intros path path' Hin Hin' Hp Hp'. destruct (Hget _ _ (Hseg _ Hin Hp)) as (id & -> & Hpath).
    destruct (Hget _ _ (Hseg _ Hin' Hp')) as (id' & -> & Hpath'). split.
    + intros [= ->]. by eapply class_path_fun.
    + intros E. rewrite E in Hpath. f_equal. by eapply class_path_inj.
Qed.

Lemma class_ok_nil : class_ok [].
Proof.
  split; [apply NoDup_nil_2|constructor|constructor|apply NoDup_nil_2|].
  exists (λ _, 0%nat). by intros e p ?%elem_of_nil.
Qed.

(** An id generator: one letter more than the longest id in use. *)
Fixpoint letters (n : nat) : string := match n with O => "" | S n => String "u" (letters n) end.
Definition longest (l : list string) : nat := foldr (λ s n, Nat.max (String.length s) n) O l.
Definition wit_uuid (X : gset string) : string := letters (S (longest (elements X))).

Lemma wit_uuid_fresh X : wit_uuid X ∉ X.
Proof.
  assert (∀ n, String.length (letters n) = n) as Hlen by (intros n; induction n; simpl; congruence).
  assert (∀ x l, x ∈ l → (String.length x ≤ longest l)%nat) as Hmax.
  { intros x l. induction l as [|y l IH]; [by intros ?%elem_of_nil|]. simpl. intros [->|Hx]%elem_of_cons; [lia|].
    specialize (IH Hx). lia. }
  intros Hin%elem_of_elements%Hmax. unfold wit_uuid in Hin. rewrite Hlen in Hin. lia.
Qed.

Lemma wit_uuid_ok X : id_ok (wit_uuid X).
Proof.
  unfold id_ok, wit_uuid. split_and!; [done|done|]. generalize (S (longest (elements X))) as n.
  intros n. by induction n.
Qed.

(** While a batch resolves two paths, another inserts their root. *)
Definition wit_others : list ClassificationEntity → list ClassificationEntity :=
  insert_class wit_uuid "MEDICAMENTOS" None.
Definition wit_paths : list string := ["MEDICAMENTOS > DOR"; "MEDICAMENTOS>DOR "; " > "; "PERFUMARIA"].

Lemma upsert_paths_builds_tree_witness :
  ∃ out rows', upsertPaths wit_uuid wit_others wit_paths [] = Ok (out, rows')
    ∧ length rows' = 3%nat ∧ js_map_get "MEDICAMENTOS > DOR" out = js_map_get "MEDICAMENTOS>DOR " out
    ∧ ∃ leaf, js_map_get "MEDICAMENTOS>DOR " out = Some leaf
        ∧ cls_path 3 (live_rows rows') leaf = Some "MEDICAMENTOS > DOR".
Proof.
  destruct (upsert_paths_builds_tree wit_uuid wit_others wit_paths []) as (out & rows' & Hr & _ & _ & _ & Hpath & Heq).
  - apply wit_uuid_fresh.
  - apply wit_uuid_ok.
  - intros rows Hc. split; [apply insert_class_ok; [apply wit_uuid_fresh|apply wit_uuid_ok|done|done]|].
    apply insert_class_extends.
  - apply class_ok_nil.
  - exists out, rows'. split; [done|].
    assert (rows' = match upsertPaths wit_uuid wit_others wit_paths [] with Ok (_, r) => r | Throw _ => [] end) as Erows
      by (by rewrite Hr).
    assert (length rows' = 3%nat) as Hlen by (rewrite Erows; vm_compute; reflexivity).
    assert (length (live_rows rows') = 3%nat) as Hlive by (rewrite Erows; vm_compute; reflexivity).
    split; [done|]. split.
    + apply Heq; [left|right; left|done..].
    + rewrite Hlive in Hpath. apply (Hpath "MEDICAMENTOS>DOR "); [right; left|done].
Defined.
