(* ===== verification/ProductSync.v ===== *)
(** Product synchronisation ([product.repository.ts: upsertManyByEan]):
    external ids stay unique, a batch that does not move an id between two
    of its own EANs succeeds and writes every product; a batch that does can
    trip [UQ_PRODUCT_EXTERNAL_ID]. *)

From Stdlib Require Import Ascii String.
From S2P Require Import Prelude JsText JsNumber Enums Messages World Classification SuggestionEngine PricingDb SuggestionRules Suggestions PricingApply PricingRuns Erp CatalogMutation Chunker TenantCatalog ErpReplica SyncSteps StockLaws ClassificationSync.
Open Scope string_scope.
Open Scope list_scope.
Open Scope Z_scope.

Section ProductSync.
Context {N : Type} `{JsNum N}.
Variable to_numeric : nat → N → Numeric.
Variable uuid : gset string → string.
Implicit Types (s : SyncDb N) (i : ProductUpsertInput (N := N)) (ps : gmap Z ProductRow).

Abbreviation products_of s := (ct_products (sy_catalog s)).
Abbreviation ean_z i := (digits_val (pu_ean i)).

(** [UQ_PRODUCT_EXTERNAL_ID] *)
Definition ext_unique ps : Prop :=
  ∀ z z' p p' x, ps !! z = Some p → ps !! z' = Some p' →
    p_externalId p = Some x → p_externalId p' = Some x → z = z'.

(** The decimals of an input fit their columns. *)
Definition fits_opt (prec scale : nat) (x : option N) : bool :=
  match x with Some x => fits prec scale (to_numeric scale x) | None => true end.
Definition input_fits i : bool :=
  fits_opt 12 2 (pu_price i) && fits_opt 12 4 (pu_cost i) && fits_opt 12 4 (pu_averageUnitCost i)
  && fits_opt 12 2 (pu_unitSalePrice i).

Lemma numeric_col_fits prec scale x : fits_opt prec scale x = true →
  numeric_col to_numeric prec scale x = Ok (to_numeric scale <$> x).
Proof. destruct x as [x|]; simpl; [by intros ->|done]. Qed.

(** The row the batch writes for an input. *)
Definition written_row (id : string) (old : option ProductRow) i : ProductRow :=
  upserted id old i (to_numeric 2 <$> pu_price i) (to_numeric 4 <$> pu_cost i)
    (to_numeric 4 <$> pu_averageUnitCost i) (to_numeric 2 <$> pu_unitSalePrice i).

Lemma external_taken_spec ps z x :
  external_taken ps z (Some x) = true ↔ ∃ z' p, ps !! z' = Some p ∧ z' ≠ z ∧ p_externalId p = Some x.
Proof.
  unfold external_taken. rewrite existsb_exists. split.
  - intros ([z' p] & Hin%list_elem_of_In%elem_of_map_to_list & Hc). apply andb_true_iff in Hc as [Hz Hx].
    apply negb_true_iff, Z.eqb_neq in Hz. apply bool_decide_eq_true in Hx. by exists z', p.
  - intros (z' & p & Hp & Hz & Hx). exists (z', p). split; [by apply list_elem_of_In, elem_of_map_to_list|].
    apply andb_true_iff. split; [by apply negb_true_iff, Z.eqb_neq|by apply bool_decide_eq_true].
Qed.

(** One row of the statement. *)
Lemma upsert_product_step i s : parsed (pu_ean i) → input_fits i = true →
  upsert_product to_numeric uuid i s =
  if external_taken (products_of s) (ean_z i) (pu_externalId i) then (Throw unique_violation, s)
  else
    let old := products_of s !! ean_z i in
    let id := match old with Some p => p_id p | None => uuid (product_ids (products_of s)) end in
    (Ok (), with_sy_extra (<[ean_z i := Build_ProductExtra (pu_receiptDate i) (pu_deals i)
                               (sy_extra s !! ean_z i ≫= px_averageVariation)]>)
              (with_products (<[ean_z i := written_row id old i]>) s)).
Proof.
  intros [code He] Hf. unfold input_fits in Hf. bool_prop.
  unfold upsert_product, mbind, Sy_bind, sy_get, sy_lift. rewrite (parsed_cast _ _ He).
  rewrite !numeric_col_fits by done. by destruct (external_taken _ _ _).
Qed.

(** Nobody but its own product holds an id that is still to be written. *)
Definition no_holder ps (todo : list (ProductUpsertInput (N := N))) : Prop :=
  ∀ i x z p, i ∈ todo → pu_externalId i = Some x → ps !! z = Some p → p_externalId p = Some x → z = ean_z i.

Record batch_ok (l : list (ProductUpsertInput (N := N))) : Prop := {
  bo_parsed : Forall (λ i, parsed (pu_ean i)) l;
  bo_fits : Forall (λ i, input_fits i = true) l;
  bo_eans : NoDup (pu_ean <$> l);
  bo_ext : ∀ i j x, i ∈ l → j ∈ l → pu_externalId i = Some x → pu_externalId j = Some x → i = j;
}.

Lemma batch_ok_cons i l : batch_ok (i :: l) → batch_ok l ∧ parsed (pu_ean i) ∧ input_fits i = true
  ∧ (∀ j, j ∈ l → ean_z j ≠ ean_z i) ∧ (∀ j x, j ∈ l → pu_externalId j = Some x → pu_externalId i ≠ Some x).
Proof.
  intros [Hp Hf He Hx]. apply Forall_cons in Hp as [Hpi Hp]. apply Forall_cons in Hf as [Hfi Hf].
  rewrite fmap_cons in He. apply NoDup_cons in He as [Hni He].
  assert (∀ j, j ∈ l → pu_ean j ≠ pu_ean i) as Hne.
  { intros j Hj E. apply Hni. rewrite <- E. by apply list_elem_of_fmap_2. }
  split_and!; [split; [done..|]|done|done| |].
  - intros j k x Hj Hk. apply Hx; by right.
  - intros j Hj E. apply (Hne j Hj). rewrite Forall_forall in Hp.
    apply canonical_inj; [apply parsed_canonical; auto..|done].
  - intros j x Hj Hxj Hxi. apply (Hne j Hj). f_equal. by apply (Hx j i x); [right|left| |].
Qed.

Lemma each_upsert_ok l s : batch_ok l → ext_unique (products_of s) → no_holder (products_of s) l →
  ∃ s', sy_each (upsert_product to_numeric uuid) l s = (Ok (), s')
    ∧ ext_unique (products_of s')
    ∧ (∀ i, i ∈ l → ∃ id, products_of s' !! ean_z i = Some (written_row id (products_of s !! ean_z i) i)
                         ∧ ∀ p, products_of s !! ean_z i = Some p → id = p_id p)
    ∧ (∀ z, z ∉ (λ i, ean_z i) <$> l → products_of s' !! z = products_of s !! z).
Proof.
  revert s. induction l as [|i l IH]; intros s Hb Huq Hh.
  { exists s. split_and!; [done|done|by intros ? ?%elem_of_nil|done]. }
  apply batch_ok_cons in Hb as (Hb & Hp & Hf & Hz & Hx). cbn [sy_each]. unfold mbind, Sy_bind.
  rewrite upsert_product_step by done.
  assert (external_taken (products_of s) (ean_z i) (pu_externalId i) = false) as ->.
  { destruct (pu_externalId i) as [x|] eqn:Ei; [|done]. apply not_true_iff_false.
    intros (z' & p & Hl & Hne & Hxp)%external_taken_spec. apply Hne. by apply (Hh i x z' p); [left|..]. }
  cbn zeta. set (id := match products_of s !! ean_z i with Some p => p_id p | None => _ end).
  set (s1 := with_sy_extra _ _).
  assert (products_of s1 = <[ean_z i := written_row id (products_of s !! ean_z i) i]> (products_of s)) as Es1 by done.
  destruct (IH s1 Hb) as (s' & Hr & Huq' & Hset & Hkeep).
  - rewrite Es1. intros z z' p p' x [[<- <-]|[Hne Hl]]%lookup_insert_Some [[<- <-]|[Hne' Hl']]%lookup_insert_Some Hpx Hpx';
      [done|..|by eapply Huq]; simpl in Hpx, Hpx'.
    + symmetry. by apply (Hh i x z' p'); [left|..].
    + by apply (Hh i x z p); [left|..].
  - intros j x z p Hj Hjx. rewrite Es1. intros [[<- <-]|[Hne Hl]]%lookup_insert_Some Hpx.
    + simpl in Hpx. by destruct (Hx j x Hj Hjx).
    + by apply (Hh j x z p); [right|..].
  - exists s'. split_and!; [done|done| |].
    + intros j [->|Hj]%elem_of_cons.
      * exists id. rewrite Hkeep, Es1, lookup_insert_eq.
        -- split; [done|]. intros p Ep. unfold id. by rewrite Ep.
        -- intros (j & E & Hj)%list_elem_of_fmap. by apply (Hz j).
      * destruct (Hset j Hj) as (id' & Hl & Hid). rewrite Es1, lookup_insert_ne in Hl, Hid by (intros E; by apply (Hz j)).
        by exists id'.
    + intros z. cbn [fmap list_fmap]. intros [Hne Hni]%not_elem_of_cons. rewrite Hkeep by done.
      by rewrite Es1, lookup_insert_ne.
Qed.

(* ------------------------------------------------------------------ *)
(** * The batch                                                         *)
(* ------------------------------------------------------------------ *)

Lemma dedupe_elem {A} (key : A → string) (l : list A) x : x ∈ dedupeByEan key l → x ∈ l.
Proof.
  unfold dedupeByEan. rewrite js_sort_perm. intros ([k y] & -> & Hin)%list_elem_of_fmap.
  apply js_map_of_elem in Hin. by apply list_elem_of_fmap in Hin as (z & [= -> ->] & Hz).
Qed.

Lemma dedupe_NoDup {A} (key : A → string) (l : list A) : NoDup (key <$> dedupeByEan key l).
Proof.
  unfold dedupeByEan. rewrite js_sort_perm. rewrite <- list_fmap_compose.
  rewrite (list_fmap_ext (key ∘ snd) fst); [apply js_map_of_NoDup|].
  intros n [k y] Hl%list_elem_of_lookup_2. apply js_map_of_elem in Hl.
  by apply list_elem_of_fmap in Hl as (z & [= -> ->] & Hz).
Qed.

Lemma dedupe_covers {A} (key : A → string) (l : list A) x : x ∈ l → key x ∈ key <$> dedupeByEan key l.
Proof.
  intros Hx. unfold dedupeByEan. rewrite js_sort_perm.
  assert (key x ∈ (js_map_of ((λ y, (key y, y)) <$> l)).*1) as ([k y] & Hk & Hin)%list_elem_of_fmap.
  { apply js_map_of_keys. apply list_elem_of_fmap. exists (key x, x). split; [done|].
    by apply (list_elem_of_fmap_2 (λ y, (key y, y)) l x). }
  apply list_elem_of_fmap. exists y. simpl in Hk. split.
  - apply js_map_of_elem in Hin. apply list_elem_of_fmap in Hin as (z & [= E1 E2] & _). congruence.
  - apply list_elem_of_fmap. by exists (k, y).
Qed.

(** The ids a batch takes and the EANs that take one. *)
Definition taken_ids (l : list (ProductUpsertInput (N := N))) : list string := omap pu_externalId l.
Definition taking_eans (l : list (ProductUpsertInput (N := N))) : list Z :=
  (λ i, ean_z i) <$> filter (λ i, is_Some (pu_externalId i)) l.

Lemma omap_filter_some (l : list (ProductUpsertInput (N := N))) :
  omap pu_externalId (filter (λ i, is_Some (pu_externalId i)) l) = taken_ids l.
Proof.
  unfold taken_ids. induction l as [|i l IH]; [done|]. rewrite filter_cons. cbn [omap list_omap].
  destruct (pu_externalId i) eqn:E; [rewrite decide_True by eauto|rewrite decide_False by (intros [? ?]; done)]; [|done].
  cbn [omap list_omap]. rewrite E. by f_equal.
Qed.

Lemma release_spec l s : Forall (λ i, parsed (pu_ean i)) l →
  releaseConflictingExternalIds l s
  = (Ok (), with_products (map_imap (λ z p, Some (release_row (taken_ids l) (taking_eans l) z p))) s).
Proof.
  intros Hp. unfold releaseConflictingExternalIds. unfold taking_eans. rewrite <- omap_filter_some.
  assert (Forall (λ e, parsed e) (pu_ean <$> filter (λ c, is_Some (pu_externalId c)) l)) as Hc.
  { apply Forall_forall. intros e (i & -> & [_ Hi]%list_elem_of_filter)%list_elem_of_fmap.
    rewrite Forall_forall in Hp. by apply Hp. }
  destruct (filter _ l) as [|i l'] eqn:E.
  - destruct s as [c x st b sc se]. cbv [mret Sy_ret with_products with_sy_catalog]. cbn. f_equal. f_equal.
    destruct c as [ct ps]. unfold set_products. cbn. f_equal. apply map_eq. intros z. rewrite map_lookup_imap.
    destruct (ps !! z) as [p|]; simpl; [|done]. unfold release_row. case_match; [|done].
    rewrite bool_decide_false; [done|by intros ?%elem_of_nil].
  - cbv zeta. unfold mbind, Sy_bind, sy_lift. rewrite casts_parsed by done.
    unfold sy_modify. by rewrite <- list_fmap_compose.
Qed.

(** No id moves between two EANs of the batch. *)
Definition no_move ps (l : list (ProductUpsertInput (N := N))) : Prop :=
  ∀ i j x p, i ∈ l → j ∈ l → pu_externalId i = Some x → is_Some (pu_externalId j) →
    ps !! ean_z j = Some p → p_externalId p = Some x → i = j.

Lemma upserted_release id z ids eans old i a b c d :
  upserted id (release_row ids eans z <$> old) i a b c d = upserted id old i a b c d.
Proof. destruct old as [p|]; [|done]. simpl. unfold release_row. by repeat case_match. Qed.

(** [C26] Unless an id moves between two EANs of the batch, the batch succeeds:
    ids stay unique, every input is written over the row its EAN had (the id
    of an existing row is kept), and of the other rows only those lose
    something that hold an id the batch takes: that id. *)
Theorem upsert_products_ok inputs s :
  let l := dedupeByEan pu_ean inputs in
  batch_ok l → ext_unique (products_of s) → no_move (products_of s) l →
  ∃ s', upsertManyByEan to_numeric uuid inputs s = (Ok (), s')
    ∧ ext_unique (products_of s')
    ∧ (∀ i, i ∈ l → ∃ id, products_of s' !! ean_z i = Some (written_row id (products_of s !! ean_z i) i)
                         ∧ ∀ p, products_of s !! ean_z i = Some p → id = p_id p)
    ∧ (∀ z, z ∉ (λ i, ean_z i) <$> l →
        products_of s' !! z = release_row (taken_ids l) (taking_eans l) z <$> products_of s !! z).
Proof.
  intros l Hb Huq Hmove. destruct inputs as [|i0 inputs].
  { exists s. split_and!; [done|done|by intros ? ?%elem_of_nil|]. intros z _.
    destruct (products_of s !! z) as [p|]; [|done]. simpl. unfold release_row. case_match; [|done].
    rewrite bool_decide_false; [done|by intros ?%elem_of_nil]. }
  unfold upsertManyByEan. fold l. cbv zeta. unfold mbind, Sy_bind at 1.
  rewrite release_spec by apply Hb. cbv beta iota.
  set (s1 := with_products _ s).
  assert (∀ z, products_of s1 !! z = release_row (taken_ids l) (taking_eans l) z <$> products_of s !! z) as E1.
  { intros z. unfold s1. cbn. rewrite map_lookup_imap. by destruct (products_of s !! z). }
  assert (∀ z p x, products_of s1 !! z = Some p → p_externalId p = Some x →
    ∃ q, products_of s !! z = Some q ∧ p_externalId q = Some x ∧ (x ∈ taken_ids l → z ∈ taking_eans l)) as Hrel.
  { intros z p x. rewrite E1. intros (q & Hq & Hl)%fmap_Some Hx. exists q. subst p.
    unfold release_row in Hx. destruct (p_externalId q) as [y|] eqn:Ey; [|congruence].
    destruct (bool_decide (y ∈ _)) eqn:Ed; simpl in Hx.
    - destruct (bool_decide (z ∈ _)) eqn:Ez; simpl in Hx; [|done]. apply bool_decide_eq_true in Ez.
      rewrite Ey in Hx. split_and!; [done|congruence|done].
    - apply bool_decide_eq_false in Ed. rewrite Ey in Hx. injection Hx as <-. done. }
  destruct (each_upsert_ok l s1 Hb) as (s' & Hr & Huq' & Hset & Hkeep).
  - intros z z' p p' x Hp Hp' Hx Hx'. destruct (Hrel _ _ _ Hp Hx) as (q & Hq & Hqx & _).
    destruct (Hrel _ _ _ Hp' Hx') as (q' & Hq' & Hqx' & _). by eapply Huq.
  - intros i x z p Hi Hix Hz Hpx. destruct (Hrel _ _ _ Hz Hpx) as (q & Hq & Hqx & Hin).
    specialize (Hin ltac:(apply list_elem_of_omap; by exists i)).
    apply list_elem_of_fmap in Hin as (j & -> & [Hjs Hj]%list_elem_of_filter).
    by rewrite (Hmove i j x q).
  - exists s'. split_and!; [done|done| |intros z Hz; by rewrite Hkeep, E1].
    intros i Hi. destruct (Hset i Hi) as (id & Hl & Hid). exists id. rewrite Hl, E1. split.
    + unfold written_row. by rewrite upserted_release.
    + intros p Hp. rewrite E1, Hp in Hid. rewrite (Hid _ eq_refl). unfold release_row. by repeat case_match.
Qed.

(** ... and a batch whose first EAN takes an id that another of its EANs
    holds and replaces fails, and is rolled back. *)
Lemma upsert_move_trips inputs i j rest x p s :
  dedupeByEan pu_ean inputs = i :: rest → j ∈ rest →
  Forall (λ i, parsed (pu_ean i)) (i :: rest) → input_fits i = true →
  pu_externalId i = Some x → is_Some (pu_externalId j) → ean_z j ≠ ean_z i →
  products_of s !! ean_z j = Some p → p_externalId p = Some x →
  rollback_tx (upsertManyByEan to_numeric uuid inputs) s = (Throw unique_violation, s).
Proof.
  intros Hl Hj Hp Hf Hix Hjs Hne Hlook Hpx.
  assert (ean_z j ∈ taking_eans (i :: rest)) as Hin.
  { apply list_elem_of_fmap. exists j. split; [done|]. apply list_elem_of_filter. split; [done|by right]. }
  unfold rollback_tx. destruct inputs as [|i0 inputs]; [done|].
  unfold upsertManyByEan. cbv zeta. rewrite Hl. unfold mbind, Sy_bind at 1. rewrite release_spec by done.
  cbn [sy_each]. unfold mbind at 1, Sy_bind at 1. apply Forall_cons in Hp as [Hpi _].
  rewrite upsert_product_step by done. rewrite Hix.
  rewrite (proj2 (external_taken_spec _ _ _)); [done|]. exists (ean_z j), p. split_and!; [|done..]. cbn.
  rewrite map_lookup_imap, Hlook. simpl. f_equal. unfold release_row. rewrite Hpx.
  rewrite (bool_decide_true (ean_z j ∈ _)) by done. by rewrite andb_false_r.
Qed.

End ProductSync.

(** The catalogue holds 789 (id 1) and 790 (id 2); the ERP now prints id 2
    on a new barcode. *)
Definition ps_input (ean id : string) (cents : Z) : ProductUpsertInput (N := F64) :=
  {| pu_ean := ean; pu_externalId := Some id; pu_name := Some "p"; pu_active := Some true;
     pu_price := Some (f64_dec cents 2); pu_cost := None; pu_averageUnitCost := None; pu_unitSalePrice := None;
     pu_supplier := None; pu_receiptDate := None; pu_monitored := None; pu_classificationId := None; pu_deals := None |}.
Definition ps_row (id ext : string) : ProductRow :=
  upserted id None (ps_input "" ext 0) None None None None.
Definition ps_db : SyncDb F64 :=
  with_products (λ _, {[ 789 := ps_row "a" "1"; 790 := ps_row "b" "2" ]}) stale_stock.
Definition ps_batch : list (ProductUpsertInput (N := F64)) := [ps_input "791" "2" 1050; ps_input "789" "1" 990].

Lemma upsert_products_ok_witness :
  ∃ s', upsertManyByEan two_decimals wit_uuid ps_batch ps_db = (Ok (), s')
    ∧ (p_externalId <$> ct_products (sy_catalog s') !! 790) = Some None
    ∧ (p_price <$> ct_products (sy_catalog s') !! 789) = Some (Some (Num 990 2)).
Proof.
  assert (∀ e, canonical_ean e = true → bool_decide (parseEan (Some e) = Some e) = true → parsed e) as Hpar.
  { intros e _ He%bool_decide_eq_true. by exists (Some e). }
  destruct (upsert_products_ok two_decimals wit_uuid ps_batch ps_db) as (s' & Hr & _ & Hset & Hkeep).
  - assert (dedupeByEan pu_ean ps_batch = [ps_input "789" "1" 990; ps_input "791" "2" 1050]) as -> by (vm_compute; reflexivity).
    split.
    + repeat constructor; apply Hpar; vm_compute; reflexivity.
    + repeat constructor; vm_compute; reflexivity.
    + refine (proj1 (bool_decide_eq_true _) _). vm_compute. reflexivity.
    + intros i j x Hi Hj. rewrite !elem_of_cons, elem_of_nil in Hi, Hj.
      destruct Hi as [->|[->|[]]], Hj as [->|[->|[]]]; simpl; congruence.
  - intros z z' p p' x. cbn. intros H1 H2.
    apply lookup_insert_Some in H1 as [[<- <-]|[Hn [<- <-]%lookup_singleton_Some]];
      apply lookup_insert_Some in H2 as [[<- <-]|[Hn' [<- <-]%lookup_singleton_Some]]; simpl; congruence.
  - assert (dedupeByEan pu_ean ps_batch = [ps_input "789" "1" 990; ps_input "791" "2" 1050]) as -> by (vm_compute; reflexivity).
    intros i j x p Hi Hj. rewrite !elem_of_cons, elem_of_nil in Hi, Hj.
    destruct Hi as [->|[->|[]]], Hj as [->|[->|[]]]; simpl; [congruence| | |congruence].
    + intros _ _ Hl. vm_compute in Hl. discriminate.
    + intros [= <-] _ Hl. vm_compute in Hl. injection Hl as <-. discriminate.
  - exists s'. split; [done|]. split.
    + rewrite Hkeep.
      * vm_compute. reflexivity.
      * refine (proj1 (bool_decide_eq_false _) _). vm_compute. reflexivity.
    + destruct (Hset (ps_input "789" "1" 990)) as (id & Hl & _).
      * apply list_elem_of_In. vm_compute. tauto.
      * change (digits_val _) with 789 in Hl. rewrite Hl. vm_compute. reflexivity.
Defined.
