(* ===== verification/StoreOffers.v ===== *)
(** The offer a store sells by ([item-caderno-oferta.repository.ts:
    findStoreOffers]): one winner per store and embalagem, the first in the
    order of the ERP's own resolution, whatever the order of the rows. *)

From Stdlib Require Import Ascii String.
From S2P Require Import Prelude JsText JsNumber Enums Messages World Classification SuggestionEngine PricingDb CatalogMutation TenantCatalog ErpReplica.
Open Scope string_scope.
Open Scope list_scope.
Open Scope Z_scope.

(* ------------------------------------------------------------------ *)
(** * Decimals in order                                                 *)
(* ------------------------------------------------------------------ *)

Lemma pow10_pos (n : nat) : 0 < 10 ^ Z.of_nat n.
Proof. apply Z.pow_pos_nonneg; lia. Qed.

Lemma numeric_le_refl a : numeric_le a a = true.
Proof. unfold numeric_le. lia. Qed.

Lemma numeric_le_total a b : numeric_le a b = false → numeric_le b a = true.
Proof. unfold numeric_le. lia. Qed.

Lemma numeric_le_trans a b c : numeric_le a b = true → numeric_le b c = true → numeric_le a c = true.
Proof.
  unfold numeric_le. rewrite !Z.leb_le. pose proof (pow10_pos (nm_scale a)). pose proof (pow10_pos (nm_scale b)).
  pose proof (pow10_pos (nm_scale c)). intros. nia.
Qed.

(** Strictly below, and the same amount. *)
Definition numeric_lt (a b : Numeric) : Prop := numeric_le b a = false.
Definition numeric_eq (a b : Numeric) : Prop := numeric_le a b = true ∧ numeric_le b a = true.

#[export] Instance numeric_eq_equiv : Equivalence numeric_eq.
Proof.
  split.
  - intros a. split; apply numeric_le_refl.
  - intros a b [? ?]. by split.
  - intros a b c [? ?] [? ?]. split; by eapply numeric_le_trans.
Qed.

#[export] Instance numeric_le_proper : Proper (numeric_eq ==> numeric_eq ==> eq) numeric_le.
Proof.
  intros a a' [Ha Ha'] b b' [Hb Hb']. apply eq_true_iff_eq. split; intros E.
  - eapply numeric_le_trans; [exact Ha'|]. by eapply numeric_le_trans.
  - eapply numeric_le_trans; [exact Ha|]. by eapply numeric_le_trans.
Qed.

Lemma numeric_trichotomy a b : numeric_lt a b ∨ numeric_eq a b ∨ numeric_lt b a.
Proof. unfold numeric_lt, numeric_eq. destruct (numeric_le a b), (numeric_le b a) eqn:E; auto. Qed.

Lemma numeric_lt_trans a b c : numeric_lt a b → numeric_lt b c → numeric_lt a c.
Proof.
  unfold numeric_lt. intros Hab Hbc. destruct (numeric_le c a) eqn:E; [|done].
  by rewrite (numeric_le_trans _ _ _ E (numeric_le_total _ _ Hab)) in Hbc.
Qed.

Lemma numeric_lt_irrefl a : ¬ numeric_lt a a.
Proof. unfold numeric_lt. by rewrite numeric_le_refl. Qed.

#[export] Instance numeric_lt_proper : Proper (numeric_eq ==> numeric_eq ==> iff) numeric_lt.
Proof. intros a a' Ha b b' Hb. unfold numeric_lt. by rewrite Ha, Hb. Qed.

(* ------------------------------------------------------------------ *)
(** * The order of the window                                           *)
(* ------------------------------------------------------------------ *)

(** The ERP's resolution: the most specific kind of item, the lowest sell
    price, the lowest caderno id, the lowest item id. *)
Definition outranks (a b : StoreOffer) : Prop :=
  str_ltb (so_tipoitem a) (so_tipoitem b) = true
  ∨ so_tipoitem a = so_tipoitem b ∧
    (numeric_lt (sell_price a) (sell_price b)
     ∨ numeric_eq (sell_price a) (sell_price b) ∧
       (so_cadernoofertaid a < so_cadernoofertaid b
        ∨ so_cadernoofertaid a = so_cadernoofertaid b ∧ so_itemid a < so_itemid b)).

Definition ties (a b : StoreOffer) : Prop :=
  so_tipoitem a = so_tipoitem b ∧ numeric_eq (sell_price a) (sell_price b)
  ∧ so_cadernoofertaid a = so_cadernoofertaid b ∧ so_itemid a = so_itemid b.

Lemma rank_le_iff a b : rank_le a b = true ↔ outranks a b ∨ ties a b.
Proof.
  unfold rank_le, outranks, ties. destruct (str_ltb (so_tipoitem a) _) eqn:E1; [tauto|].
  destruct (str_ltb (so_tipoitem b) _) eqn:E2.
  { split; [done|]. intros [[?|[E _]]|[E _]]; [done|rewrite E, str_ltb_irrefl in E2; done..]. }
  pose proof (str_ltb_total _ _ E1 E2) as ET. unfold numeric_lt, numeric_eq.
  destruct (numeric_le (sell_price b) (sell_price a)) eqn:E3; cbn [negb]; [|tauto].
  destruct (numeric_le (sell_price a) (sell_price b)) eqn:E4; cbn [negb].
  - destruct (Z.ltb_spec (so_cadernoofertaid a) (so_cadernoofertaid b)); [tauto|].
    destruct (Z.ltb_spec (so_cadernoofertaid b) (so_cadernoofertaid a)); [split; [done|lia]|].
    rewrite Z.leb_le. split; [intros|lia].
    destruct (decide (so_itemid a = so_itemid b)); [right; split_and!; auto; lia|].
    left. right. split; [done|]. right. split; [done|]. right. lia.
  - split; [done|]. naive_solver.
Qed.

Lemma outranks_trans a b c : outranks a b → outranks b c → outranks a c.
Proof.
  unfold outranks. intros [Hab|[Eab Hab]] [Hbc|[Ebc Hbc]].
  - left. by eapply str_ltb_trans.
  - left. by rewrite <- Ebc.
  - left. by rewrite Eab.
  - right. split; [congruence|]. destruct Hab as [Hab|[Nab Hab]], Hbc as [Hbc|[Nbc Hbc]].
    + left. by eapply numeric_lt_trans.
    + left. by rewrite <- Nbc.
    + left. by rewrite Nab.
    + right. split; [by rewrite Nab|]. lia.
Qed.

Lemma outranks_ties a b c : ties a b → outranks b c → outranks a c.
Proof. unfold outranks, ties. intros (E & -> & -> & ->). by rewrite E. Qed.
Lemma ties_outranks a b c : outranks a b → ties b c → outranks a c.
Proof. unfold outranks, ties. intros Ho (E & <- & <- & <-). by rewrite <- E. Qed.
Lemma ties_trans a b c : ties a b → ties b c → ties a c.
Proof.
  unfold ties. intros (E1 & N1 & C1 & I1) (E2 & N2 & C2 & I2). split_and!; [congruence| |congruence..].
  by rewrite N1.
Qed.
Lemma outranks_irrefl a : ¬ outranks a a.
Proof.
  unfold outranks. rewrite str_ltb_irrefl. intros [?|[_ [H|[_ H]]]]; [done|by apply numeric_lt_irrefl in H|lia].
Qed.

Lemma rank_le_trans a b c : rank_le a b = true → rank_le b c = true → rank_le a c = true.
Proof.
  rewrite !rank_le_iff. intros [?|?] [?|?];
    eauto using outranks_trans, outranks_ties, ties_outranks, ties_trans.
Qed.

Lemma rank_le_total a b : rank_le a b = false → rank_le b a = true.
Proof.
  intros Hab. apply rank_le_iff. assert (¬ (outranks a b ∨ ties a b)) as Hn by (rewrite <- rank_le_iff; congruence).
  unfold outranks, ties in *. destruct (str_ltb (so_tipoitem b) (so_tipoitem a)) eqn:E1; [by left; left|].
  destruct (str_ltb (so_tipoitem a) (so_tipoitem b)) eqn:E2; [tauto|].
  pose proof (str_ltb_total _ _ E2 E1) as ET.
  destruct (numeric_trichotomy (sell_price a) (sell_price b)) as [?|[Ne|?]]; [tauto| |].
  - left. right. split; [done|]. right. split; [by symmetry|].
    destruct (Z.lt_trichotomy (so_cadernoofertaid a) (so_cadernoofertaid b)) as [?|[Ec|?]]; [tauto| |by left].
    destruct (Z.lt_trichotomy (so_itemid a) (so_itemid b)) as [?|[Ei|?]]; [tauto|tauto|by right].
  - left. right. auto.
Qed.

(* ------------------------------------------------------------------ *)
(** * The winner                                                        *)
(* ------------------------------------------------------------------ *)

(** The same replica with the offer items in another order. *)
Definition with_items (items : list ItemCadernoOferta) (a7 : A7) : A7 :=
  {| a7_embalagem := a7_embalagem a7; a7_produto := a7_produto a7; a7_estoque := a7_estoque a7;
     a7_classificacao := a7_classificacao a7; a7_classificacaoproduto := a7_classificacaoproduto a7;
     a7_custoproduto := a7_custoproduto a7; a7_cadernooferta := a7_cadernooferta a7; a7_itemcadernooferta := items;
     a7_quantidade := a7_quantidade a7; a7_participante := a7_participante a7; a7_precounidade := a7_precounidade a7;
     a7_recebimento := a7_recebimento a7; a7_unidadenegocio := a7_unidadenegocio a7 |}.

Lemma sorted_head l w : head (js_sort rank_le l) = Some w → w ∈ l ∧ ∀ o, o ∈ l → rank_le w o = true.
Proof.
  intros Hw. pose proof (js_sort_sorted rank_le l rank_le_trans rank_le_total) as Hs.
  pose proof (js_sort_perm rank_le l) as Hp. destruct (js_sort rank_le l) as [|x l'] eqn:E; [done|]. injection Hw as ->.
  split; [rewrite <- Hp; left|]. intros o. rewrite <- Hp. apply StronglySorted_inv in Hs as [_ Hs].
  intros [->|Ho]%elem_of_cons; [apply rank_le_iff; right; unfold ties; split_and!; try done; by reflexivity|].
  rewrite Forall_forall in Hs. by apply Hs.
Qed.

Section Winner.
Variable a7 : A7.
Variable now : Z.

Lemma candidates_perm items e unidade : items ≡ₚ a7_itemcadernooferta a7 →
  store_offer_candidates (with_items items a7) now e unidade ≡ₚ store_offer_candidates a7 now e unidade.
Proof. intros Hp. unfold store_offer_candidates. cbn [a7_itemcadernooferta with_items]. by rewrite Hp. Qed.

Lemma candidate_item e unidade o : o ∈ store_offer_candidates a7 now e unidade →
  ∃ i co, i ∈ a7_itemcadernooferta a7 ∧ ic_id i = so_itemid o ∧ caderno_of a7 i = Some co ∧ ativo now co = true
    ∧ item_reaches a7 i e = true ∧ covers a7 co unidade = true ∧ ic_comboofertaid i = None
    ∧ o = {| so_embalagemid := eb_id e; so_unidadenegocioid := unidade; so_tipoitem := ic_tipoitem i;
             so_itemid := ic_id i; so_cadernoofertaid := co_id co; so_cadernoNome := co_nome co;
             so_precoCadastro := preco_cadastro a7 e unidade;
             so_precoFinalOferta := precificado (preco_calc a7 i e unidade) |}.
Proof.
  unfold store_offer_candidates. intros (i & Hi & (co & Hc & Ho)%bind_Some)%list_elem_of_omap.
  destruct (_ && _) eqn:Eb; [|done]. injection Ho as <-. bool_prop. by exists i, co.
Qed.

Hypothesis item_ids : NoDup (ic_id <$> a7_itemcadernooferta a7).

Lemma candidate_unique e unidade o o' :
  o ∈ store_offer_candidates a7 now e unidade → o' ∈ store_offer_candidates a7 now e unidade →
  so_itemid o = so_itemid o' → o = o'.
Proof.
  intros (i & co & Hi & Hid & Hc & _ & _ & _ & _ & ->)%candidate_item
         (i' & co' & Hi' & Hid' & Hc' & _ & _ & _ & _ & ->)%candidate_item E. cbn [so_itemid] in E.
  assert (i = i') as <-; [|congruence].
  apply list_elem_of_lookup in Hi as [n Hn]. apply list_elem_of_lookup in Hi' as [n' Hn'].
  assert (n = n') as <-; [|congruence]. apply (NoDup_lookup _ _ _ (ic_id i) item_ids).
  - by rewrite list_lookup_fmap, Hn.
  - rewrite list_lookup_fmap, Hn'. simpl. by f_equal.
Qed.

Lemma sell_price_bounded o : numeric_le (sell_price o) (so_precoCadastro o) = true.
Proof. unfold sell_price. case_match; [done|apply numeric_le_refl]. Qed.

End Winner.

(** For a store and an embalagem there is a winner exactly when an active
    item reaches them; it outranks every other candidate, its sell price is
    at most the store's shelf price, an offer price it shows is positive, and
    the order of the offer items plays no part. *)
Theorem store_winner_best a7 now e unidade items :
  NoDup (ic_id <$> a7_itemcadernooferta a7) → items ≡ₚ a7_itemcadernooferta a7 →
  store_winner (with_items items a7) now e unidade = store_winner a7 now e unidade
  ∧ match store_winner a7 now e unidade with
    | None => store_offer_candidates a7 now e unidade = []
    | Some w => w ∈ store_offer_candidates a7 now e unidade
        ∧ (∀ o, o ∈ store_offer_candidates a7 now e unidade → o = w ∨ outranks w o)
        ∧ numeric_le (sell_price w) (so_precoCadastro w) = true
        ∧ (∀ f, so_precoFinalOferta w = Some f → 0 < nm_unscaled f)
    end.
Proof.
  intros Hids Hp. set (cs := store_offer_candidates a7 now e unidade).
  assert (∀ w o, w ∈ cs → o ∈ cs → rank_le w o = true → o = w ∨ outranks w o) as Hbest.
  { intros w o Hw Ho [?|(_ & _ & _ & E)]%rank_le_iff; [by right|left]. by eapply candidate_unique. }
  split.
  - unfold store_winner. pose proof (candidates_perm a7 now items e unidade Hp) as Hc. fold cs in Hc |- *.
    destruct (head (js_sort rank_le (store_offer_candidates (with_items items a7) now e unidade))) as [w'|] eqn:E',
      (head (js_sort rank_le cs)) as [w|] eqn:E.
    + apply sorted_head in E' as [Hw' Hall']. apply sorted_head in E as [Hw Hall]. rewrite Hc in Hw'.
      destruct (Hbest w w' Hw Hw' (Hall _ Hw')) as [->|Ho]; [done|].
      destruct (Hbest w' w Hw' Hw) as [->|Ho']; [apply Hall'; by rewrite Hc|done|].
      exfalso. eapply outranks_irrefl, outranks_trans; eauto.
    + exfalso. apply sorted_head in E' as [Hw' _]. rewrite Hc in Hw'. apply head_None in E.
      rewrite <- (js_sort_perm rank_le), E in Hw'. by apply elem_of_nil in Hw'.
    + exfalso. apply sorted_head in E as [Hw _]. rewrite <- Hc in Hw. apply head_None in E'.
      rewrite <- (js_sort_perm rank_le), E' in Hw. by apply elem_of_nil in Hw.
    + done.
  - destruct (store_winner a7 now e unidade) as [w|] eqn:E; unfold store_winner in E; fold cs in E.
    + apply sorted_head in E as [Hw Hall]. split_and!; [done|auto|apply sell_price_bounded|].
      intros f Hf. destruct (candidate_item _ _ _ _ _ Hw) as (i & co & _ & _ & _ & _ & _ & _ & _ & ->).
      cbn [so_precoFinalOferta] in Hf. unfold precificado in Hf. repeat case_match; simplify_eq. by apply Z.ltb_lt.
    + apply head_None in E. apply Permutation_nil. by rewrite <- E, js_sort_perm.
Qed.

(** A chain-wide discount on the embalagem against a cheaper fixed price on
    its manufacturer: the kind of item decides before the price. *)
Definition wo_caderno (id : Z) (nome : string) : CadernoOferta :=
  {| co_id := id; co_nome := nome; co_status := "A"; co_crmapenasgrupoconsumidor := false;
     co_validoapenascupomdesconto := false; co_validoapenasprevencido := false; co_formapagamentoaceita := "A";
     co_diasemana := repeat false 7; co_datahorainicial := None; co_datahorafinal := None |}.
Definition wo_item (id caderno : Z) (tipoitem tipooferta : string) (preco desconto : option Numeric) : ItemCadernoOferta :=
  {| ic_id := id; ic_embalagemid := Some 1; ic_cadernoofertaid := caderno; ic_tipooferta := tipooferta;
     ic_precooferta := preco; ic_descontooferta := desconto; ic_tipoitem := tipoitem; ic_gruporemarcacaoid := None;
     ic_fabricanteid := Some 5; ic_classificacaoid := None; ic_markup := None; ic_descontoporqtdtipo := "";
     ic_comboofertaid := None |}.
Definition wo_embalagem : Embalagem :=
  {| eb_id := 1; eb_produtoid := 1; eb_apresentacao := None; eb_codigobarras := Some "789";
     eb_quantidadeporembalagem := 1; eb_precoreferencial := Num 100 2; eb_precovenda := Num 1000 2;
     eb_gruporemarcacaoid := None; eb_descricao := "p" |}.
Definition wo_items : list ItemCadernoOferta :=
  [wo_item 12 7 "A" "D" None (Some (Num 10 0)); wo_item 11 8 "C" "P" (Some (Num 500 2)) None;
   wo_item 10 7 "A" "P" (Some (Num 0 2)) None].
Definition wo_a7 : A7 :=
  {| a7_embalagem := [wo_embalagem];
     a7_produto := {[ 1 := Build_Produto "A" "M" 5 None ]}; a7_estoque := []; a7_classificacao := ∅;
     a7_classificacaoproduto := []; a7_custoproduto := []; a7_cadernooferta := [wo_caderno 7 "rede"; wo_caderno 8 "lab"];
     a7_itemcadernooferta := wo_items; a7_quantidade := []; a7_participante := [(8, 4)]; a7_precounidade := [];
     a7_recebimento := []; a7_unidadenegocio := [] |}.

Lemma store_winner_best_witness :
  store_winner (with_items (reverse wo_items) wo_a7) 0 wo_embalagem 4 = store_winner wo_a7 0 wo_embalagem 4
  ∧ (so_itemid <$> store_winner wo_a7 0 wo_embalagem 4) = Some 12
  ∧ length (store_offer_candidates wo_a7 0 wo_embalagem 4) = 3%nat
  ∧ length (store_offer_candidates wo_a7 0 wo_embalagem 9) = 2%nat.
Proof.
  destruct (store_winner_best wo_a7 0 wo_embalagem 4 (reverse wo_items)) as [E _].
  - refine (proj1 (bool_decide_eq_true _) _). vm_compute. reflexivity.
  - apply reverse_Permutation.
  - split; [exact E|]. split; [|split]; vm_compute; reflexivity.
Defined.
