(* ===== verification/MetricsLaws.v ===== *)
(** Metrics and settings: a metrics batch writes every row or none
    ([calc-base-product-metrics.step.ts]); thresholds and the default
    caderno share one JSON bag without disturbing each other, and the
    thresholds the API shows are the ones the step uses
    ([settings.service.ts]). *)

From Stdlib Require Import Ascii String.
From S2P Require Import Prelude JsText JsNumber Enums Messages World Classification SuggestionEngine PricingDb SuggestionRules Suggestions PricingApply PricingRuns Erp CatalogMutation Chunker TenantCatalog ErpReplica SyncSteps StockLaws ClassificationSync ProductSync MetricsSteps.
Open Scope string_scope.
Open Scope list_scope.
Open Scope Z_scope.

Section Metrics.
Context {N : Type} `{JsNum N}.
Variable to_numeric : nat → N → Numeric.
Implicit Types (s : SyncDb N) (r : MetricRow).

Abbreviation products_of s := (ct_products (sy_catalog s)).

(** Both metrics fit [numeric(8,4)]. *)
Definition metrics_fit r : bool :=
  fits_opt to_numeric 8 4 (metrics_margin (N := N) r) && fits_opt to_numeric 8 4 (averageVariation (N := N) r).

Definition fits_here s (z : Z) : bool :=
  match metric_row s z with Some r => metrics_fit r | None => true end.

(** What a batch leaves of a product. *)
Definition measured (t : StatusThresholds (N := N)) r (p : ProductRow) : ProductRow :=
  with_metrics (to_numeric 4 <$> metrics_margin r) (statusForVariation (averageVariation r) t) p.
Definition varied r (x : option (ProductExtra N)) : ProductExtra N :=
  with_variation (to_numeric 4 <$> averageVariation r) (default empty_extra x).

Lemma metric_row_product s z r : metric_row s z = Some r → ∃ p, products_of s !! z = Some p ∧ mr_ean r = z.
Proof. unfold metric_row. intros (p & Hp & [= <-])%bind_Some. by exists p. Qed.

Lemma update_metrics_step t s z r p :
  ean_cast (ean_text z) = Ok z → mr_ean r = z → products_of s !! z = Some p →
  update_metrics to_numeric (computeMetrics t r) s =
  if metrics_fit r then
    (Ok (), with_sy_extra (partial_alter (λ x, Some (varied r x)) z)
              (with_products (<[z := measured t r p]>) s))
  else (Throw numeric_overflow, s).
Proof.
  intros Hz Hr Hp. unfold update_metrics, computeMetrics, metrics_fit, mbind, Sy_bind, sy_get, sy_lift.
  cbn [mu_ean mu_margin mu_averageVariation mu_status]. rewrite Hr, Hz, Hp.
  unfold numeric_col, fits_opt, measured, varied.
  destruct (metrics_margin r) as [m|] eqn:Em, (averageVariation r) as [v|] eqn:Ev; cbn zeta;
    try destruct (fits 8 4 (to_numeric 4 m)) eqn:F1; try destruct (fits 8 4 (to_numeric 4 v)) eqn:F2; try done.
Qed.

Lemma each_metrics t s0 zs s : Forall (λ z, ean_cast (ean_text z) = Ok z) zs → NoDup zs →
  (∀ z, z ∈ zs → products_of s !! z = products_of s0 !! z) →
  let run := updateMetricsBatch to_numeric (computeMetrics t <$> omap (metric_row s0) zs) s in
  if forallb (fits_here s0) zs then
    ∃ s', run = (Ok (), s')
      ∧ (∀ z r p, z ∈ zs → metric_row s0 z = Some r → products_of s0 !! z = Some p →
          products_of s' !! z = Some (measured t r p) ∧ sy_extra s' !! z = Some (varied r (sy_extra s !! z)))
      ∧ (∀ z, z ∉ zs ∨ products_of s0 !! z = None →
          products_of s' !! z = products_of s !! z ∧ sy_extra s' !! z = sy_extra s !! z)
  else run.1 = Throw numeric_overflow.
Proof.
  revert s. induction zs as [|z zs IH]; intros s Hc Hnd Hsame; cbn zeta.
  { exists s. split_and!; [done|by intros ??? ?%elem_of_nil|done]. }
  apply Forall_cons in Hc as [Hz Hc]. apply NoDup_cons in Hnd as [Hni Hnd].
  cbn [forallb omap list_omap]. unfold fits_here at 1.
  destruct (metric_row s0 z) as [r|] eqn:Er; cycle 1.
  { assert (products_of s0 !! z = None) as Hnone.
    { unfold metric_row in Er. by destruct (products_of s0 !! z). }
    specialize (IH s Hc Hnd ltac:(intros; apply Hsame; by right)). cbn zeta in IH. simpl.
    destruct (forallb _ zs); [|done]. destruct IH as (s' & Hr & Hset & Hkeep). exists s'. split_and!; [done| |].
    - intros z' r' p' [->|Hin]%elem_of_cons Hr'; [congruence|by apply Hset].
    - intros z' [Hn|Hn]; apply Hkeep; [left|by right]. by apply not_elem_of_cons in Hn as [_ Hn]. }
  destruct (metric_row_product _ _ _ Er) as (p & Hp & Hrz).
  cbn [fmap list_fmap]. unfold updateMetricsBatch in *. cbn [sy_each]. unfold mbind, Sy_bind.
  assert (products_of s !! z = Some p) as Hps by (rewrite Hsame; [done|left]).
  rewrite (update_metrics_step t s z r p) by done. destruct (metrics_fit r); [|done].
  set (s1 := with_sy_extra _ _).
  assert (∀ z', z' ≠ z → products_of s1 !! z' = products_of s !! z' ∧ sy_extra s1 !! z' = sy_extra s !! z') as Hother.
  { intros z' Hne. cbn. by rewrite lookup_insert_ne, lookup_partial_alter_ne by done. }
  specialize (IH s1 Hc Hnd). cbn zeta in IH. rewrite andb_true_l.
  assert (∀ z', z' ∈ zs → z' ≠ z) as Hne by (intros z' Hin ->; done).
  assert (∀ z', z' ∈ zs → products_of s1 !! z' = products_of s0 !! z') as Hsame1.
  { intros z' Hin. rewrite (proj1 (Hother z' (Hne _ Hin))). apply Hsame. by right. }
  specialize (IH Hsame1).
  destruct (forallb _ zs); [|done]. destruct IH as (s' & Hr & Hset & Hkeep). exists s'. split_and!; [done| |].
  - intros z' r' p' [->|Hin]%elem_of_cons Hr' Hp'.
    + destruct (Hkeep z ltac:(by left)) as [-> ->]. cbn. rewrite lookup_insert_eq, lookup_partial_alter_eq. naive_solver.
    + destruct (Hset z' r' p' Hin Hr' Hp') as [-> ->]. by rewrite (proj2 (Hother z' (Hne _ Hin))).
  - intros z' Hz'. destruct (decide (z' = z)) as [->|Hd].
    + destruct Hz' as [Hn|Hn]; [destruct Hn; left|congruence].
    + rewrite <- (proj1 (Hother z' Hd)), <- (proj2 (Hother z' Hd)). apply Hkeep.
      destruct Hz' as [Hn|Hn]; [left|by right]. by apply not_elem_of_cons in Hn as [_ Hn].
Qed.
Lemma ean_casts_texts zs : Forall (λ z, ean_cast (ean_text z) = Ok z) zs → ean_casts (ean_text <$> zs) = Ok zs.
Proof.
  induction 1 as [|z zs Hz _ IH]; [done|]. unfold ean_casts in *. cbn [foldr fmap list_fmap]. rewrite Hz. cbn. by rewrite IH.
Qed.

Lemma fits_here_uniq s zs : forallb (fits_here s) (js_uniq zs) = forallb (fits_here s) zs.
Proof.
  apply eq_true_iff_eq. rewrite !forallb_forall. split; intros Hf z Hz; apply Hf;
    rewrite <- list_elem_of_In in *; by apply js_uniq_elem.
Qed.

(** [C32] A batch of metrics is all or nothing: when the margin and the variation
    of every product of the batch fit their columns, each product gets its
    own and its status; when one of them does not, the batch fails and no
    product of it is written. *)
Theorem metrics_all_or_nothing tenantId zs s :
  Forall (λ z, ean_cast (ean_text z) = Ok z) zs →
  let t := loadThresholds (sy_settings s) tenantId in
  let out := rollback_tx (calcBaseProductMetrics to_numeric tenantId (ean_text <$> zs)) s in
  if forallb (fits_here s) zs then
    ∃ s', out = (Ok (), s')
      ∧ (∀ z r p, z ∈ zs → metric_row s z = Some r → products_of s !! z = Some p →
          products_of s' !! z = Some (measured t r p) ∧ sy_extra s' !! z = Some (varied r (sy_extra s !! z)))
      ∧ (∀ z, z ∉ zs ∨ products_of s !! z = None →
          products_of s' !! z = products_of s !! z ∧ sy_extra s' !! z = sy_extra s !! z)
  else out = (Throw numeric_overflow, s).
Proof.
  intros Hc t out. destruct zs as [|z0 zs0].
  { exists s. split_and!; [done|by intros ??? ?%elem_of_nil|done]. }
  set (zs := z0 :: zs0) in *.
  assert (out = match updateMetricsBatch to_numeric (computeMetrics t <$> omap (metric_row s) (js_uniq zs)) s with
                | (Ok a, s') => (Ok a, s') | (Throw e, _) => (Throw e, s) end) as ->.
  { unfold out, rollback_tx, calcBaseProductMetrics. change (ean_text <$> zs) with (ean_text z0 :: (ean_text <$> zs0)).
    cbv iota. change (ean_text z0 :: (ean_text <$> zs0)) with (ean_text <$> zs).
    unfold mbind, Sy_bind, sy_get, sy_lift. by rewrite ean_casts_texts. }
  pose proof (each_metrics t s (js_uniq zs) s) as Hm. cbn zeta in Hm. rewrite fits_here_uniq in Hm.
  assert (Forall (λ z, ean_cast (ean_text z) = Ok z) (js_uniq zs)) as Hu.
  { apply Forall_forall. intros z Hz. rewrite Forall_forall in Hc. apply Hc. by apply (proj1 (js_uniq_elem _ _)). }
  specialize (Hm Hu (js_uniq_NoDup _) ltac:(done)). destruct (forallb _ zs).
  - destruct Hm as (s' & -> & Hset & Hkeep). exists s'. split_and!; [done| |].
    + intros z r p Hz. apply Hset. by apply js_uniq_elem.
    + intros z Hz. apply Hkeep. by rewrite js_uniq_elem.
  - destruct (updateMetricsBatch _ _ _) as [res s']. simpl in Hm. by rewrite Hm.
Qed.

End Metrics.

(** A product bought at 6.00 and priced at 0.05 has a margin of -11900%, which
    [numeric(8,4)] does not hold: its batch fails, on every retry, and the
    product beside it keeps its old metrics. *)
Definition mt_row (price cost : Z) : ProductRow :=
  upserted "a" None (ps_input "" "1" 0) (Some (Num price 2)) (Some (Num cost 4)) None None.
Definition mt_db (price : Z) : SyncDb F64 :=
  with_products (λ _, {[ 789 := mt_row 1000 50000; 790 := mt_row price 60000 ]}) stale_stock.

Lemma metrics_all_or_nothing_witness :
  rollback_tx (calcBaseProductMetrics two_decimals "t" ["789"; "790"]) (mt_db 5) = (Throw numeric_overflow, mt_db 5)
  ∧ ∃ s', rollback_tx (calcBaseProductMetrics two_decimals "t" ["789"; "790"]) (mt_db 1500) = (Ok (), s')
      ∧ (p_margin <$> ct_products (sy_catalog s') !! 789) = Some (Some (Num 5000 2))
      ∧ (p_margin <$> ct_products (sy_catalog s') !! 790) = Some (Some (Num 6000 2)).
Proof.
  assert (Forall (λ z, ean_cast (ean_text z) = Ok z) [789; 790]) as Hz by (repeat constructor; vm_compute; reflexivity).
  split.
  - pose proof (metrics_all_or_nothing two_decimals "t" [789; 790] (mt_db 5) Hz) as Hm. cbn zeta in Hm.
    assert (forallb (fits_here two_decimals (mt_db 5)) [789; 790] = false) as Hf by (vm_compute; reflexivity).
    rewrite Hf in Hm. exact Hm.
  - pose proof (metrics_all_or_nothing two_decimals "t" [789; 790] (mt_db 1500) Hz) as Hm. cbn zeta in Hm.
    assert (forallb (fits_here two_decimals (mt_db 1500)) [789; 790] = true) as Hf by (vm_compute; reflexivity).
    rewrite Hf in Hm. destruct Hm as (s' & Hr & Hset & _). exists s'. split; [exact Hr|]. split.
    + destruct (Hset 789 _ _ ltac:(left) eq_refl eq_refl) as [-> _]. vm_compute. reflexivity.
    + destruct (Hset 790 _ _ ltac:(right; left) eq_refl eq_refl) as [-> _]. vm_compute. reflexivity.
Defined.

(* ------------------------------------------------------------------ *)
(** * Settings                                                          *)
(* ------------------------------------------------------------------ *)

Section SettingsLaws.
Context {N : Type} `{JsNum N}.
Implicit Types (s : SyncDb N) (bag patch : gmap string (JsVal N)).

Abbreviation bag_of s t := (settings_of (sy_settings s) t).

Lemma settings_of_saved tenantId bag (rows : list (SettingsRow N)) t :
  settings_of (save_settings tenantId bag rows) t = if decide (t = tenantId) then bag else settings_of rows t.
Proof.
  unfold settings_of, settings_row. induction rows as [|r rows IH]; cbn [save_settings].
  - rewrite (filter_cons _ (Build_SettingsRow tenantId bag)). cbn [ss_tenant_id].
    repeat case_decide; try done; congruence.
  - destruct (decide (ss_tenant_id r = tenantId)) as [E|E].
    + rewrite !filter_cons. cbn [ss_tenant_id]. repeat case_decide; try done; congruence.
    + rewrite !filter_cons. repeat case_decide; try done; congruence.
Qed.

(** The value a key of the bag has for the tenant: its own, or the default. *)
Definition shown bag (key : string) : option (JsVal N) :=
  match bag !! key with Some v => Some v | None => DEFAULTS !! key end.

Lemma spread_lookup bag key : spread DEFAULTS bag !! key = shown bag key.
Proof.
  unfold spread, shown. destruct (bag !! key) as [v|] eqn:E.
  - by apply lookup_union_Some_l.
  - by apply lookup_union_r.
Qed.

Lemma patched_lookup bag patch key :
  patched (spread DEFAULTS bag) patch !! key
  = match shown bag key with Some old => Some (default old (patch !! key)) | None => None end.
Proof. unfold patched. rewrite map_lookup_imap, spread_lookup. by destruct (shown bag key). Qed.

Lemma default_key_not_threshold : DEFAULTS (N := N) !! DEFAULT_CADERNO_KEY = None.
Proof. done. Qed.

(** The thresholds of the step, by key. *)
Definition step_threshold (t : StatusThresholds (N := N)) (key : string) : option N :=
  if String.eqb key "suspectBelow" then Some (suspectBelow t)
  else if String.eqb key "attentionBelow" then Some (attentionBelow t)
  else if String.eqb key "attentionAbove" then Some (attentionAbove t)
  else if String.eqb key "suspectAbove" then Some (suspectAbove t) else None.

Lemma step_threshold_shown (rows : list (SettingsRow N)) t key n : key ∈ threshold_keys →
  shown (settings_of rows t) key = Some (VNum n) → step_threshold (loadThresholds rows t) key = Some n.
Proof.
  intros Hk. unfold shown, threshold_keys in *. rewrite !elem_of_cons, elem_of_nil in Hk.
  destruct Hk as [->|[->|[->|[->|[]]]]]; unfold step_threshold, loadThresholds, threshold; simpl;
    (destruct (settings_of rows t !! _) as [v|]; [intros [= ->]; done|intros E; injection E as <-; done]).
Qed.

(** Updating the thresholds and reading them back gives the patch over what
    was shown before, over the defaults; those are the thresholds the metrics
    step uses; the default caderno and the other tenants are untouched, and
    changing the default caderno does not change the thresholds. *)
Theorem settings_roundtrip slug tenantId patch s :
  resolveTenantId (sy_catalog s) slug = Ok tenantId →
  patch !! DEFAULT_CADERNO_KEY = None →
  ∃ merged s', updateVariationStatus slug patch s = (Ok merged, s')
    ∧ getVariationStatus slug s' = (Ok (delete DEFAULT_CADERNO_KEY merged), s')
    ∧ (∀ key, key ∈ threshold_keys →
        delete DEFAULT_CADERNO_KEY merged !! key
        = match patch !! key with Some v => Some v | None => shown (bag_of s tenantId) key end)
    ∧ (∀ key n, key ∈ threshold_keys → delete DEFAULT_CADERNO_KEY merged !! key = Some (VNum n) →
        step_threshold (loadThresholds (sy_settings s') tenantId) key = Some n)
    ∧ (getOfferDefaults slug s').1 = (getOfferDefaults slug s).1
    ∧ (∀ t, t ≠ tenantId → bag_of s' t = bag_of s t)
    ∧ ∀ caderno, ∃ s2, updateOfferDefaults slug caderno s' = (Ok caderno, s2)
        ∧ (getOfferDefaults slug s2).1 = Ok caderno
        ∧ (getVariationStatus slug s2).1 = (getVariationStatus slug s').1
        ∧ loadThresholds (sy_settings s2) tenantId = loadThresholds (sy_settings s') tenantId.
Proof.
  intros Ht Hp. set (merged := patched (spread DEFAULTS (bag_of s tenantId)) patch).
  set (s' := with_sy_settings (save_settings tenantId merged) s).
  assert (bag_of s' tenantId = merged) as Hb by (cbn; by rewrite settings_of_saved, decide_True).
  assert (∀ key, key ∈ threshold_keys → key ≠ DEFAULT_CADERNO_KEY) as Hne by (intros key Hk ->; by set_solver).
  assert (∀ key, merged !! key = match shown (bag_of s tenantId) key with
            | Some old => Some (default old (patch !! key)) | None => None end) as Hm by apply patched_lookup.
  assert (getVariationStatus slug s' = (Ok (delete DEFAULT_CADERNO_KEY merged), s')) as Hget.
  { unfold getVariationStatus, tenant_of, mbind, Sy_bind, sy_get, sy_lift. cbn [sy_catalog s' with_sy_settings].
    rewrite Ht, Hb. unfold mret, Sy_ret. do 2 f_equal. apply map_eq. intros key. rewrite spread_lookup. unfold shown.
    destruct (decide (key = DEFAULT_CADERNO_KEY)) as [->|Hk]; [by rewrite !lookup_delete_eq|].
    rewrite !lookup_delete_ne by done. rewrite Hm. unfold shown.
    by destruct (bag_of s tenantId !! key), (DEFAULTS !! key). }
  exists merged, s'. split_and!.
  - unfold updateVariationStatus, tenant_of, mbind, Sy_bind, sy_get, sy_lift. by rewrite Ht.
  - done.
  - intros key Hk. rewrite lookup_delete_ne by (apply not_eq_sym; auto). rewrite Hm.
    assert (is_Some (shown (bag_of s tenantId) key)) as [v ->]; [|by destruct (patch !! key)].
    unfold shown. destruct (bag_of s tenantId !! key); [done|]. unfold threshold_keys in Hk.
    rewrite !elem_of_cons, elem_of_nil in Hk. destruct Hk as [->|[->|[->|[->|[]]]]]; by eexists.
  - intros key n Hk. rewrite lookup_delete_ne by (apply not_eq_sym; auto). intros Hn.
    apply step_threshold_shown; [done|]. change (sy_settings s') with (sy_settings s'). unfold shown. by rewrite Hb, Hn.
  - unfold getOfferDefaults, tenant_of, mbind, Sy_bind, sy_get, sy_lift. cbn [sy_catalog s' with_sy_settings].
    rewrite Ht, Hb, Hm. cbn [mret Sy_ret fst]. unfold shown. rewrite Hp, default_key_not_threshold.
    by destruct (bag_of s tenantId !! DEFAULT_CADERNO_KEY).
  - intros t Hne'. cbn. by rewrite settings_of_saved, decide_False.
  - intros caderno. set (value := match caderno with Some n => VNum n | None => VNull end).
    exists (with_sy_settings (save_settings tenantId (<[DEFAULT_CADERNO_KEY := value]> merged)) s').
    assert (∀ l, settings_of (save_settings tenantId (<[DEFAULT_CADERNO_KEY := value]> merged) l) tenantId
                 = <[DEFAULT_CADERNO_KEY := value]> merged) as Hb2 by (intros l; by rewrite settings_of_saved, decide_True).
    split_and!.
    + unfold updateOfferDefaults, tenant_of, mbind, Sy_bind, sy_get, sy_lift. cbn [sy_catalog s' with_sy_settings].
      rewrite Ht. by rewrite Hb.
    + unfold getOfferDefaults, tenant_of, mbind, Sy_bind, sy_get, sy_lift. cbn [sy_catalog sy_settings s' with_sy_settings].
      rewrite Ht, Hb2, lookup_insert_eq. by destruct caderno.
    + rewrite Hget. unfold getVariationStatus, tenant_of, mbind, Sy_bind, sy_get, sy_lift.
      cbn [sy_catalog sy_settings s' with_sy_settings]. rewrite Ht, Hb2, delete_insert_eq.
      cbn [mret Sy_ret fst]. f_equal. apply map_eq. intros key. rewrite spread_lookup. unfold shown.
      destruct (decide (key = DEFAULT_CADERNO_KEY)) as [->|Hk]; [by rewrite !lookup_delete_eq|].
      rewrite !lookup_delete_ne by done. rewrite Hm. unfold shown.
      by destruct (bag_of s tenantId !! key), (DEFAULTS !! key).
    + unfold loadThresholds. cbn [sy_settings with_sy_settings]. rewrite Hb2. fold s'. 
      change (settings_of (sy_settings s') tenantId) with (bag_of s' tenantId). rewrite Hb.
      unfold threshold. by rewrite !lookup_insert_ne by done.
Qed.

End SettingsLaws.

(** The tenant raises one threshold; its default caderno is 7. *)
Definition st_db : SyncDb F64 :=
  Build_SyncDb (Build_Catalog {[ "acme" := "t" ]} ∅ ∅ ∅ ∅ ∅ ∅ ∅ [] [] [] [] ∅ [] ∅ ∅) ∅ ∅ ∅ ∅
    [Build_SettingsRow "other" ∅; Build_SettingsRow "t" {[ DEFAULT_CADERNO_KEY := VNum (f64_of_Z 7) ]}].

Lemma settings_roundtrip_witness :
  ∃ merged s', updateVariationStatus "acme" {[ "attentionAbove" := VNum (f64_of_Z 30) ]} st_db = (Ok merged, s')
    ∧ attentionAbove (loadThresholds (sy_settings s') "t") = f64_of_Z 30
    ∧ suspectAbove (loadThresholds (sy_settings s') "t") = n_int 50
    ∧ (getOfferDefaults "acme" s').1 = Ok (Some (f64_of_Z 7)).
Proof.
  destruct (settings_roundtrip "acme" "t" {[ "attentionAbove" := VNum (f64_of_Z 30) ]} st_db)
    as (merged & s' & Hu & _ & Hm & Hl & Hc & _); [reflexivity|reflexivity|].
  exists merged, s'. split; [exact Hu|].
  assert ("attentionAbove" ∈ threshold_keys) as K1 by (apply list_elem_of_In; vm_compute; tauto).
  assert ("suspectAbove" ∈ threshold_keys) as K2 by (apply list_elem_of_In; vm_compute; tauto).
  assert (∀ v, ({[ "attentionAbove" := v ]} : gmap string (JsVal F64)) !! "attentionAbove" = Some v) as L1 by done.
  assert (∀ v, ({[ "attentionAbove" := v ]} : gmap string (JsVal F64)) !! "suspectAbove" = None) as L2 by done.
  split; [|split].
  - specialize (Hl "attentionAbove" (f64_of_Z 30) K1). rewrite (Hm _ K1), L1 in Hl.
    specialize (Hl eq_refl). revert Hl. unfold step_threshold. cbn [String.eqb Ascii.eqb Bool.eqb]. congruence.
  - specialize (Hl "suspectAbove" (n_int 50) K2). rewrite (Hm _ K2), L2 in Hl.
    specialize (Hl eq_refl). revert Hl. unfold step_threshold. cbn [String.eqb Ascii.eqb Bool.eqb]. congruence.
  - rewrite Hc. vm_compute. reflexivity.
Defined.
