(* ===== verification/PricingConfig.v ===== *)
(** The configuration of prices: rounding ranges
    ([tenant-api/config/price-rounding.service.ts]), product clusters
    ([tenant-api/pricing/clusters.service.ts]), the category picker
    ([tenant-api/config/classifications.service.ts]) and the competitor
    origins ([tenant-api/pricing/competitor-origins.service.ts]).
    The reads the pricing services use are in [PricingDb]. *)

From Stdlib Require Import Ascii String.
From S2P Require Import Prelude JsText JsNumber JsDate Enums Messages World Outbox Classification SuggestionEngine PricingDb SuggestionRules.
Open Scope string_scope.
Open Scope list_scope.
Open Scope Z_scope.

Section PricingConfig.
Context {N : Type} `{JsNum N}.
(** The cast of a number to a [numeric] column; the text of a number in a
    template literal; [uuid_generate_v4()]; the collation of the database. *)
Variable to_numeric : nat → N → Numeric.
Variable num_text : N → string.
Variable uuid : gset string → string.
Variable collate_le : string → string → bool.

Definition cfg_rounding (ranges : list RoundingRangeRow) (rules : list RoundingRuleRow) (c : Catalog N) : Catalog N :=
  Build_Catalog (ct_tenants c) (ct_products c) (ct_productItems c) (ct_offerBook c) (ct_shared c)
    (ct_stores c) (ct_origins c) (ct_defaultCaderno c) ranges rules
    (ct_classifications c) (ct_rules c) (ct_clusters c) (ct_members c) (ct_campaigns c) (ct_connections c).
Definition cfg_clusters (clusters : gmap string ClusterRow) (members : list (string * string)) (c : Catalog N) : Catalog N :=
  Build_Catalog (ct_tenants c) (ct_products c) (ct_productItems c) (ct_offerBook c) (ct_shared c)
    (ct_stores c) (ct_origins c) (ct_defaultCaderno c) (ct_roundingRanges c) (ct_roundingRules c)
    (ct_classifications c) (ct_rules c) clusters members (ct_campaigns c) (ct_connections c).

Definition tx_catalog (f : Catalog N → Catalog N) : Tx N unit :=
  tx_modify (λ db, set_catalog (f (catalog db)) db).
Definition tx_tenant (slug : string) : Tx N string :=
  db ← tx_get; tx_lift (resolveTenantId (catalog db) slug).

(* ------------------------------------------------------------------ *)
(** * price-rounding.service.ts                                         *)
(* ------------------------------------------------------------------ *)

(** [RangeRow] *)
Record RangeApi := { ra_id : string; ra_priceMin : N; ra_priceMax : N; ra_rules : list (PriceRoundingRule N) }.

(** The DTOs after the ValidationPipe; [rules] of an update may be null,
    which is not undefined. *)
Record CreatePriceRoundingRangeDto := {
  cr_priceMin : N; cr_priceMax : N; cr_rules : option (list (PriceRoundingRule N));
}.
Record UpdatePriceRoundingRangeDto := {
  up_priceMin : option N; up_priceMax : option N; up_rules : option (option (list (PriceRoundingRule N)));
}.

(** [a.decimalMin - b.decimalMin] *)
Definition sortRules : list (PriceRoundingRule N) → list (PriceRoundingRule N) :=
  js_sort (λ a b, n_le (decimal_min a) (decimal_min b)).

(** [rulesFor], for one range. *)
Definition rulesFor (c : Catalog N) (rangeId : string) : list (PriceRoundingRule N) :=
  (λ d, Build_PriceRoundingRule (dec_of (rl_decimal_min d)) (dec_of (rl_decimal_max d)) (dec_of (rl_round_to d)))
    <$> js_sort (λ a b, numeric_le (rl_decimal_min a) (rl_decimal_min b))
          (filter (λ r, rl_range_id r = rangeId) (ct_roundingRules c)).

Definition range_api (c : Catalog N) (r : RoundingRangeRow) : RangeApi :=
  {| ra_id := rg_id r; ra_priceMin := dec_of (rg_price_min r); ra_priceMax := dec_of (rg_price_max r);
     ra_rules := rulesFor c (rg_id r) |}.

Definition list_ranges (slug : string) : Tx N (list RangeApi) :=
  tenantId ← tx_tenant slug;
  db ← tx_get;
  mret (range_api (catalog db) <$>
    js_sort (λ a b, numeric_le (rg_price_min a) (rg_price_min b))
      (filter (λ r, rg_tenant_id r = tenantId) (ct_roundingRanges (catalog db)))).

Definition fetchRange (tenantId id : string) : Tx N RangeApi :=
  db ← tx_get;
  match head (filter (λ r, rg_tenant_id r = tenantId ∧ rg_id r = id) (ct_roundingRanges (catalog db))) with
  | Some r => mret (range_api (catalog db) r)
  | None => tx_throw (ENotFound ("range " +:+ id +:+ " not found"))
  end.

Definition get_range (slug id : string) : Tx N RangeApi :=
  tenantId ← tx_tenant slug; fetchRange tenantId id.

Definition assertBand (priceMin priceMax : N) : Tx N unit :=
  if n_lt priceMax priceMin
  then tx_throw (EBadRequest ("priceMin (" +:+ num_text priceMin +:+ ") must be <= priceMax ("
                              +:+ num_text priceMax +:+ ")"))
  else mret ().

Fixpoint assertRules (rules : list (PriceRoundingRule N)) : Tx N unit :=
  match rules with
  | [] => mret ()
  | r :: rest =>
      if n_lt (decimal_max r) (decimal_min r)
      then tx_throw (EBadRequest ("decimalMin (" +:+ num_text (decimal_min r) +:+ ") must be <= decimalMax ("
                                  +:+ num_text (decimal_max r) +:+ ")"))
      else assertRules rest
  end.

Definition rule_row (rangeId : string) (r : PriceRoundingRule N) : RoundingRuleRow :=
  {| rl_range_id := rangeId; rl_decimal_min := to_numeric 2 (decimal_min r);
     rl_decimal_max := to_numeric 2 (decimal_max r); rl_round_to := to_numeric 2 (round_to r) |}.

Definition insertRules (rangeId : string) (rules : list (PriceRoundingRule N)) : Tx N unit :=
  tx_catalog (λ c, cfg_rounding (ct_roundingRanges c) (ct_roundingRules c ++ (rule_row rangeId <$> rules)) c).

Definition range_ids (c : Catalog N) : gset string := list_to_set (rg_id <$> ct_roundingRanges c).

Definition create_range (slug : string) (dto : CreatePriceRoundingRangeDto) : Tx N RangeApi :=
  tenantId ← tx_tenant slug;
  assertBand (cr_priceMin dto) (cr_priceMax dto);;
  let rules := default [] (cr_rules dto) in
  assertRules rules;;
  db ← tx_get;
  let id := uuid (range_ids (catalog db)) in
  let row := {| rg_id := id; rg_tenant_id := tenantId; rg_price_min := to_numeric 2 (cr_priceMin dto);
                rg_price_max := to_numeric 2 (cr_priceMax dto) |} in
  tx_catalog (λ c, cfg_rounding (ct_roundingRanges c ++ [row]) (ct_roundingRules c) c);;
  insertRules id rules;;
  mret {| ra_id := id; ra_priceMin := cr_priceMin dto; ra_priceMax := cr_priceMax dto; ra_rules := sortRules rules |}.

Definition with_band (priceMin priceMax : N) (r : RoundingRangeRow) : RoundingRangeRow :=
  {| rg_id := rg_id r; rg_tenant_id := rg_tenant_id r; rg_price_min := to_numeric 2 priceMin;
     rg_price_max := to_numeric 2 priceMax |}.

Definition update_range (slug id : string) (dto : UpdatePriceRoundingRangeDto) : Tx N RangeApi :=
  tenantId ← tx_tenant slug;
  current ← fetchRange tenantId id;
  let priceMin := default (ra_priceMin current) (up_priceMin dto) in
  let priceMax := default (ra_priceMax current) (up_priceMax dto) in
  assertBand priceMin priceMax;;
  match up_rules dto with
  | Some (Some rules) => assertRules rules
  | Some None => tx_throw (EError "rules is not iterable")
  | None => mret ()
  end;;
  tx_catalog (λ c, cfg_rounding ((λ r, if decide (rg_id r = id) then with_band priceMin priceMax r else r)
                                   <$> ct_roundingRanges c) (ct_roundingRules c) c);;
  match mjoin (up_rules dto) with
  | Some rules =>
      tx_catalog (λ c, cfg_rounding (ct_roundingRanges c)
                         (filter (λ r, rl_range_id r ≠ id) (ct_roundingRules c)) c);;
      insertRules id rules;;
      mret {| ra_id := id; ra_priceMin := priceMin; ra_priceMax := priceMax; ra_rules := sortRules rules |}
  | None => mret {| ra_id := id; ra_priceMin := priceMin; ra_priceMax := priceMax; ra_rules := ra_rules current |}
  end.

(** The foreign key of the rules is [ON DELETE CASCADE]. *)
Definition remove_range (slug id : string) : Tx N (string * bool) :=
  get_range slug id;;
  tx_catalog (λ c, cfg_rounding (filter (λ r, rg_id r ≠ id) (ct_roundingRanges c))
                     (filter (λ r, rl_range_id r ≠ id) (ct_roundingRules c)) c);;
  mret (id, true).

(* ------------------------------------------------------------------ *)
(** * clusters.service.ts                                               *)
(* ------------------------------------------------------------------ *)

Record ClusterApi := {
  ka_id : string; ka_name : string; ka_memberCount : Z; ka_createdAt : string; ka_updatedAt : string;
}.

(** [UpsertClusterDto]: [eans] may be absent or null. *)
Record UpsertClusterDto := { dc_name : string; dc_eans : option (option (list string)) }.

Definition MAX_MEMBERS : nat := 5000.

(** [SELECT ... GROUP BY c.id ORDER BY c.updated_at DESC] *)
Definition list_clusters (c : Catalog N) : list ClusterApi :=
  (λ kr : string * ClusterRow,
     {| ka_id := kr.1; ka_name := cl_name kr.2;
        ka_memberCount := Z.of_nat (length (filter (λ m : string * string, m.1 = kr.1) (ct_members c)));
        ka_createdAt := toISOString (cl_createdAt kr.2); ka_updatedAt := toISOString (cl_updatedAt kr.2) |})
  <$> js_sort (λ a b, cl_updatedAt b.2 <=? cl_updatedAt a.2)
        (filter (λ kr : string * ClusterRow, cl_deleted kr.2 = false) (map_to_list (ct_clusters c))).

Definition members_of (c : Catalog N) (id : string) : list string :=
  js_sort collate_le (snd <$> filter (λ m : string * string, m.1 = id) (ct_members c)).

Definition cluster_not_found {A} (id : string) : Tx N A := tx_throw (ENotFound ("cluster " +:+ id +:+ " not found")).

Definition get_cluster (id : string) : Tx N (ClusterApi * list string) :=
  db ← tx_get;
  match head (filter (λ k, ka_id k = id) (list_clusters (catalog db))) with
  | Some k => mret (k, members_of (catalog db) id)
  | None => cluster_not_found id
  end.

(** [EAN_RE = /^\d{6,14}$/] *)
Definition normalizeEans (raw : option (list string)) : Tx N (list string) :=
  let eans := filter (λ e, matches_digits 6 14 e = true) (js_uniq (str_trim <$> default [] raw)) in
  if Nat.ltb MAX_MEMBERS (length eans)
  then tx_throw (EBadRequest "Máximo de 5000 EANs por cluster.")
  else mret eans.

Definition replaceMembers (clusterId : string) (eans : list string) : Tx N unit :=
  tx_catalog (λ c, cfg_clusters (ct_clusters c)
                     (filter (λ m : string * string, m.1 ≠ clusterId) (ct_members c) ++ (pair clusterId <$> eans)) c).

(** [now] is the time of the transaction. *)
Definition create_cluster (now : Z) (dto : UpsertClusterDto) : Tx N (ClusterApi * list string) :=
  eans ← normalizeEans (mjoin (dc_eans dto));
  db ← tx_get;
  let id := uuid (dom (ct_clusters (catalog db))) in
  let row := {| cl_name := str_trim (dc_name dto); cl_createdAt := now; cl_updatedAt := now; cl_deleted := false |} in
  tx_catalog (λ c, cfg_clusters (<[id := row]> (ct_clusters c)) (ct_members c) c);;
  match eans with [] => mret () | _ => replaceMembers id eans end;;
  get_cluster id.

Definition live_cluster (c : Catalog N) (id : string) : option ClusterRow :=
  r ← ct_clusters c !! id; if cl_deleted r then None else Some r.

(** [save] writes nothing when the name is the stored one. *)
Definition renamed (now : Z) (name : string) (r : ClusterRow) : ClusterRow :=
  if String.eqb (cl_name r) name then r
  else {| cl_name := name; cl_createdAt := cl_createdAt r; cl_updatedAt := now; cl_deleted := cl_deleted r |}.

Definition update_cluster (now : Z) (id : string) (dto : UpsertClusterDto) : Tx N (ClusterApi * list string) :=
  db ← tx_get;
  match live_cluster (catalog db) id with
  | None => cluster_not_found id
  | Some r =>
      tx_catalog (λ c, cfg_clusters (<[id := renamed now (str_trim (dc_name dto)) r]> (ct_clusters c)) (ct_members c) c);;
      match dc_eans dto with
      | Some raw => eans ← normalizeEans raw; replaceMembers id eans
      | None => mret ()
      end;;
      get_cluster id
  end.

(** Live rules that target or exclude the cluster. *)
Definition used_by (c : Catalog N) (id : string) : list string :=
  ru_name <$> filter (λ r, ru_deleted r = false ∧ (ru_clusterId r = Some id ∨ id ∈ ru_excludeClusterIds r)) (ct_rules c).

Definition remove_cluster (now : Z) (id : string) : Tx N (string * string) :=
  db ← tx_get;
  match live_cluster (catalog db) id with
  | None => cluster_not_found id
  | Some r =>
      match used_by (catalog db) id with
      | [] =>
          let gone := {| cl_name := cl_name r; cl_createdAt := cl_createdAt r; cl_updatedAt := now; cl_deleted := true |} in
          tx_catalog (λ c, cfg_clusters (<[id := gone]> (ct_clusters c)) (ct_members c) c);;
          mret (id, cl_name r)
      | names =>
          tx_throw (EConflict ("Cluster em uso pela(s) regra(s): " +:+ str_join ", " (js_uniq names)
                               +:+ ". Remova a regra antes."))
      end
  end.

(* ------------------------------------------------------------------ *)
(** * classifications.service.ts                                        *)
(* ------------------------------------------------------------------ *)

Definition MAX_TREE_DEPTH : nat := 3.

(** [ClassificationNode]; the column [visible] is copied along and left out. *)
Inductive ClassificationNode := Node (row : ClassificationRow) (children : list ClassificationNode).
Definition node_row (n : ClassificationNode) : ClassificationRow := let 'Node r _ := n in r.
Definition node_children (n : ClassificationNode) : list ClassificationNode := let 'Node _ l := n in l.

(** Live rows, by name. *)
Definition list_classifications (c : Catalog N) : list ClassificationRow :=
  js_sort (λ a b, collate_le (cr_name a) (cr_name b))
    (ce_row <$> filter (λ e, ce_deleted e = false) (ct_classifications c)).

(** [byParent.get(key) ?? []] *)
Definition byParent (rows : list ClassificationRow) (parentId : option string) : list ClassificationRow :=
  filter (λ r, cr_parentId r = parentId) rows.

(** [attach(row, depth)], with [MAX_TREE_DEPTH - depth] levels below. *)
Fixpoint attach (rows : list ClassificationRow) (below : nat) (row : ClassificationRow) : ClassificationNode :=
  Node row (match below with
            | O => []
            | S below => attach rows below <$> byParent rows (Some (cr_id row))
            end).

Definition grouped (c : Catalog N) : list ClassificationNode :=
  let rows := list_classifications c in attach rows (MAX_TREE_DEPTH - 1) <$> byParent rows None.

(* ------------------------------------------------------------------ *)
(** * competitor-origins.service.ts                                     *)
(* ------------------------------------------------------------------ *)

(** [label] is a constant of the registry and left out. *)
Record CompetitorOriginConfig := { cc_origin : string; cc_priority : Z; cc_enabled : bool }.

Definition list_origins (slug : string) : Tx N (list CompetitorOriginConfig) :=
  tenantId ← tx_tenant slug;
  db ← tx_get;
  mret ((λ x : string * bool * Z, {| cc_origin := x.1.1; cc_priority := x.2; cc_enabled := x.1.2 |})
          <$> origin_configs (catalog db) tenantId).

End PricingConfig.
