(* ===== verification/PricingConfigLaws.v ===== *)
(** The configuration of prices: what the CRUD of clusters and rounding
    ranges keeps, and that the category picker shows exactly the categories
    within three levels of a root ([PricingConfig]). *)

From Stdlib Require Import Ascii String.
From S2P Require Import Prelude JsText JsNumber JsDate Enums Messages World Outbox Classification SuggestionEngine PricingDb SuggestionRules PricingApply PricingRuns Erp CatalogMutation Chunker TenantCatalog ErpReplica SyncSteps StockLaws ClassificationSync PricingConfig.
Open Scope string_scope.
Open Scope list_scope.
Open Scope Z_scope.

(** Splits the hypothesis that a transaction returned into its statements. *)
Ltac tx_inv H :=
  repeat first
    [ rewrite tx_bind_Ok in H; let Hm := fresh "Hm" in destruct H as (?a & ?db & Hm & H); tx_inv Hm
    | apply tx_lift_Ok in H as [H ->]
    | progress injection H as <- <-
    | progress (injection H as <-) ].

(* ------------------------------------------------------------------ *)
(** * The category picker                                               *)
(* ------------------------------------------------------------------ *)

(** The paths from the top of a forest to each of its nodes. *)
Fixpoint node_paths (n : ClassificationNode) : list (list ClassificationRow) :=
  match n with
  | Node r children =>
      [r] :: (cons r <$> (fix go (l : list ClassificationNode) :=
                            match l with [] => [] | c :: l' => node_paths c ++ go l' end) children)
  end.
Definition tree_paths (forest : list ClassificationNode) : list (list ClassificationRow) := forest ≫= node_paths.

Lemma node_paths_unfold r children : node_paths (Node r children) = [r] :: (cons r <$> tree_paths children).
Proof. reflexivity. Qed.

(** A chain of categories, each the parent of the next. *)
Fixpoint chain (rows : list ClassificationRow) (parentId : option string) (path : list ClassificationRow) : Prop :=
  match path with
  | [] => True
  | r :: rest => r ∈ rows ∧ cr_parentId r = parentId ∧ chain rows (Some (cr_id r)) rest
  end.

Lemma attach_paths rows below r path :
  path ∈ node_paths (attach rows below r)
  ↔ ∃ rest, path = r :: rest ∧ (length rest ≤ below)%nat ∧ chain rows (Some (cr_id r)) rest.
Proof.
  revert r path. induction below as [|below IH]; intros r path; cbn [attach]; rewrite node_paths_unfold, elem_of_cons.
  - cbn. split; [intros [->|?%elem_of_nil]; [by exists []|done]|].
    intros ([|? ?] & -> & Hl & _); [by left|simpl in Hl; lia].
  - rewrite list_elem_of_fmap. setoid_rewrite list_elem_of_bind. split.
    + intros [->|(p & -> & n & Hp & Hn)]; [exists []; simpl; split_and!; [done|lia|done]|].
      apply list_elem_of_fmap in Hn as (c & -> & [Hpar Hc]%list_elem_of_filter).
      apply IH in Hp as (rest & -> & Hl & Hch). exists (c :: rest). simpl. split_and!; [done|lia|done..].
    + intros ([|c rest] & -> & Hl & Hch); [by left|right]. destruct Hch as (Hc & Hpar & Hch). simpl in Hl.
      exists (c :: rest). split; [done|]. exists (attach rows below c). split.
      * apply IH. exists rest. split_and!; [done|lia|done].
      * apply list_elem_of_fmap. exists c. split; [done|]. by apply list_elem_of_filter.
Qed.

(** The picker shows a category under a chain of parents exactly when the
    chain is one of live categories, starts at a root and has at most three
    levels: a category below a removed one, deeper, or on a cycle of parents
    is not shown, and cyclic parents do not make it loop. *)
Theorem grouped_shows_three_levels {N} (collate_le : string → string → bool) (c : Catalog N) path :
  path ∈ tree_paths (grouped collate_le c)
  ↔ (1 ≤ length path ≤ 3)%nat
    ∧ chain (ce_row <$> filter (λ e, ce_deleted e = false) (ct_classifications c)) None path.
Proof.
  set (live := ce_row <$> _). unfold grouped. set (rows := list_classifications collate_le c).
  assert (∀ r, r ∈ rows ↔ r ∈ live) as Hrows.
  { intros r. unfold rows, list_classifications. by rewrite js_sort_perm. }
  assert (∀ p l, chain rows p l ↔ chain live p l) as Hchain.
  { intros p l. revert p. induction l as [|r l IH]; intros p; [done|]. simpl. by rewrite Hrows, IH. }
  unfold tree_paths. rewrite list_elem_of_bind. split.
  - intros (n & Hp & (r & -> & [Hpar Hr]%list_elem_of_filter)%list_elem_of_fmap).
    apply attach_paths in Hp as (rest & -> & Hl & Hch). unfold MAX_TREE_DEPTH in Hl. simpl in *.
    split; [lia|]. rewrite <- Hrows, <- Hchain. done.
  - destruct path as [|r rest]; [simpl; lia|]. cbn [chain]. rewrite <- Hrows, <- Hchain.
    intros [Hl (Hr & Hpar & Hch)]. exists (attach rows (MAX_TREE_DEPTH - 1) r). split.
    + apply attach_paths. exists rest. unfold MAX_TREE_DEPTH. simpl in *. split_and!; [done|lia|done].
    + apply list_elem_of_fmap. exists r. split; [done|]. by apply list_elem_of_filter.
Qed.

(* ------------------------------------------------------------------ *)
(** * Clusters                                                          *)
(* ------------------------------------------------------------------ *)

(** Who sees a member: rules that are active and live. *)
Lemma membership_elem {N} `{JsNum N} (c : Catalog N) id ean :
  id ∈ default [] (loadActiveClusterMembership c !! ean) ↔ id ∈ referenced_clusters c ∧ (id, ean) ∈ ct_members c.
Proof.
  unfold loadActiveClusterMembership. induction (ct_members c) as [|[k e] l IH] using rev_ind.
  { split; [by intros ?%elem_of_nil|by intros [_ ?%elem_of_nil]]. }
  rewrite foldl_app, elem_of_app, list_elem_of_singleton. cbn [foldl]. case_decide as Hk.
  - destruct (decide (ean = e)) as [->|Hne].
    + rewrite lookup_insert_eq. simpl. rewrite elem_of_app, list_elem_of_singleton, IH. naive_solver.
    + rewrite lookup_insert_ne, IH by done. naive_solver.
  - rewrite IH. naive_solver.
Qed.

Lemma referenced_used {N} (c : Catalog N) id : id ∈ referenced_clusters c → used_by c id ≠ [].
Proof.
  unfold referenced_clusters, used_by. rewrite list_elem_of_bind. intros (r & Hid & [[_ Hd] Hr]%list_elem_of_filter) E.
  apply fmap_nil_inv in E. assert (r ∈ filter (λ r, ru_deleted r = false ∧ (ru_clusterId r = Some id ∨ id ∈ ru_excludeClusterIds r)) (ct_rules c)) as Habs.
  { apply list_elem_of_filter. split; [|done]. split; [done|]. apply elem_of_app in Hid as [Hid|?]; [left|by right].
    destruct (ru_clusterId r); simpl in Hid; [apply list_elem_of_singleton in Hid; by subst|by apply elem_of_nil in Hid]. }
  rewrite E in Habs. by apply elem_of_nil in Habs.
Qed.

Section Clusters.
Context {N : Type} `{JsNum N}.
Variable uuid : gset string → string.
Variable collate_le : string → string → bool.
Hypothesis uuid_fresh : ∀ X, uuid X ∉ X.
Implicit Types (c : Catalog N) (db : PricingDb N).

(** The members of a cluster, in the order of the table. *)
Definition eans_in c (id : string) : list string := snd <$> filter (λ m : string * string, m.1 = id) (ct_members c).

(** Members are valid EANs of existing clusters, each once, at most 5000. *)
Record clusters_ok c : Prop := {
  ko_exist : ∀ k e, (k, e) ∈ ct_members c → is_Some (ct_clusters c !! k);
  ko_eans : ∀ k e, (k, e) ∈ ct_members c → matches_digits 6 14 e = true;
  ko_nodup : NoDup (ct_members c);
  ko_max : ∀ k, (length (eans_in c k) ≤ MAX_MEMBERS)%nat;
}.

(** What a cluster is to the other services: its row and its members. *)
Definition same_cluster c c' (id : string) : Prop :=
  ct_clusters c' !! id = ct_clusters c !! id ∧ eans_in c' id = eans_in c id.

(** Nothing but the clusters named changes. *)
Definition only_cluster c c' (id : string) : Prop :=
  (∀ k, k ≠ id → same_cluster c c' k) ∧ c' = cfg_clusters (ct_clusters c') (ct_members c') c.

Lemma normalizeEans_Ok raw db db' eans : normalizeEans raw db = Ok (eans, db') →
  db' = db ∧ eans = filter (λ e, matches_digits 6 14 e = true) (js_uniq (str_trim <$> default [] raw))
  ∧ NoDup eans ∧ (length eans ≤ MAX_MEMBERS)%nat.
Proof.
  unfold normalizeEans. destruct (Nat.ltb_spec MAX_MEMBERS (length (filter (λ e, matches_digits 6 14 e = true)
    (js_uniq (str_trim <$> default [] raw))))) as [?|Hl]; [done|]. intros [= <- <-]. split_and!; [done|done| |done].
  apply NoDup_filter, js_uniq_NoDup.
Qed.

Lemma eans_in_elem c k e : e ∈ eans_in c k ↔ (k, e) ∈ ct_members c.
Proof.
  unfold eans_in. rewrite list_elem_of_fmap. split.
  - intros ([k' e'] & -> & [E Hin]%list_elem_of_filter). simpl in *. by subst.
  - intros Hin. exists (k, e). split; [done|]. by apply list_elem_of_filter.
Qed.

Lemma filter_pairs (id k : string) (eans : list string) :
  snd <$> filter (λ m : string * string, m.1 = k) (pair id <$> eans) = if decide (k = id) then eans else [].
Proof.
  induction eans as [|e eans IH]; [by case_decide|]. cbn [fmap list_fmap]. rewrite filter_cons. cbn [fst].
  destruct (decide (k = id)) as [->|Hne]; [rewrite decide_True by done|rewrite decide_False by congruence]; [|done].
  cbn [fmap list_fmap]. by f_equal.
Qed.

(** The membership [replaceMembers] leaves. *)
Lemma eans_in_replaced id k (eans : list string) (members : list (string * string)) :
  snd <$> filter (λ m : string * string, m.1 = k) (filter (λ m : string * string, m.1 ≠ id) members ++ (pair id <$> eans))
  = if decide (k = id) then eans else snd <$> filter (λ m : string * string, m.1 = k) members.
Proof.
  rewrite filter_app, fmap_app, filter_pairs. destruct (decide (k = id)) as [->|Hne].
  - induction members as [|m l IH]; [done|]. rewrite filter_cons. case_decide; [|done].
    rewrite filter_cons. by rewrite decide_False.
  - rewrite app_nil_r, list_filter_filter_l; [done|]. by intros x -> .
Qed.

Definition normal (raw : option (list string)) : list string :=
  filter (λ e, matches_digits 6 14 e = true) (js_uniq (str_trim <$> default [] raw)).

Lemma clusters_ok_replaced c cs id eans :
  clusters_ok c → (∀ k, is_Some (ct_clusters c !! k) → is_Some (cs !! k)) → is_Some (cs !! id) →
  NoDup eans → Forall (λ e, matches_digits 6 14 e = true) eans → (length eans ≤ MAX_MEMBERS)%nat →
  clusters_ok (cfg_clusters cs (filter (λ m : string * string, m.1 ≠ id) (ct_members c) ++ (pair id <$> eans)) c).
Proof.
  intros [He Hd Hnd Hm] Hcs Hid Hn Hf Hl. rewrite Forall_forall in Hf.
  split; cbn [ct_members ct_clusters cfg_clusters].
  - intros k e [[_ Hin]%list_elem_of_filter|(x & [= -> ->] & _)%list_elem_of_fmap]%elem_of_app; [|done].
    by eapply Hcs, He.
  - intros k e [[_ Hin]%list_elem_of_filter|(x & [= -> ->] & Hx)%list_elem_of_fmap]%elem_of_app; [by eapply Hd|auto].
  - apply NoDup_app. split_and!; [by apply NoDup_filter| |].
    + intros m [Hne _]%list_elem_of_filter (x & -> & _)%list_elem_of_fmap. done.
    + apply NoDup_fmap_2; [|done]. by intros ?? [= ->].
  - intros k. unfold eans_in. cbn [ct_members cfg_clusters]. rewrite eans_in_replaced. case_decide; [done|apply Hm].
Qed.

Lemma clusters_ok_rows c cs : clusters_ok c → (∀ k, is_Some (ct_clusters c !! k) → is_Some (cs !! k)) →
  clusters_ok (cfg_clusters cs (ct_members c) c).
Proof. intros [He Hd Hnd Hm] Hcs. split; cbn; eauto. Qed.

(** What [get] shows of a live cluster. *)
Definition cluster_api c (id : string) (r : ClusterRow) : ClusterApi :=
  {| ka_id := id; ka_name := cl_name r; ka_memberCount := Z.of_nat (length (eans_in c id));
     ka_createdAt := toISOString (cl_createdAt r); ka_updatedAt := toISOString (cl_updatedAt r) |}.

Lemma get_cluster_live id r db : live_cluster (catalog db) id = Some r →
  get_cluster collate_le id db = Ok ((cluster_api (catalog db) id r, members_of collate_le (catalog db) id), db).
Proof.
  intros Hlive. unfold live_cluster in Hlive. apply bind_Some in Hlive as (r0 & Hr & Hlive).
  destruct (cl_deleted r0) eqn:Hdel; [done|]. injection Hlive as ->.
  unfold get_cluster, mbind, Tx_bind, tx_get.
  set (l := filter (λ k, ka_id k = id) (list_clusters (catalog db))).
  assert (∀ k, k ∈ l ↔ k = cluster_api (catalog db) id r) as Hl.
  { intros k. unfold l, list_clusters. rewrite list_elem_of_filter, list_elem_of_fmap. setoid_rewrite js_sort_perm. split.
    - intros (E & [k' r'] & -> & [_ Hin%elem_of_map_to_list]%list_elem_of_filter). simpl in *. subst.
      assert (r' = r) as -> by congruence. unfold cluster_api, eans_in. by rewrite length_fmap.
    - intros ->. split; [done|]. exists (id, r). split; [unfold cluster_api, eans_in; by rewrite length_fmap|].
      apply list_elem_of_filter. split; [done|]. by apply elem_of_map_to_list. }
  destruct (head l) as [k|] eqn:E.
  - assert (k = cluster_api (catalog db) id r) as -> by (apply Hl; destruct l as [|x l']; [done|]; injection E as ->; left).
    done.
  - apply head_None in E. exfalso. assert (cluster_api (catalog db) id r ∈ l) as Habs by (by apply Hl).
    rewrite E in Habs. by apply elem_of_nil in Habs.
Qed.

(** What saving a cluster achieves. *)
Record saved c c' (id name : string) (eans : list string) (k : ClusterApi * list string) : Prop := {
  sv_ok : clusters_ok c';
  sv_only : only_cluster c c' id;
  sv_live : ∃ r, live_cluster c' id = Some r ∧ cl_name r = name;
  sv_members : eans_in c' id = eans;
  sv_answer : ka_id k.1 = id ∧ ka_name k.1 = name ∧ ka_memberCount k.1 = Z.of_nat (length eans) ∧ k.2 ≡ₚ eans;
}.

Lemma saved_row c db' id r members eans :
  catalog db' = cfg_clusters (<[id := r]> (ct_clusters c)) members c →
  cl_deleted r = false → clusters_ok (catalog db') →
  (∀ k, snd <$> filter (λ m : string * string, m.1 = k) members = if decide (k = id) then eans else eans_in c k) →
  ∃ k, get_cluster collate_le id db' = Ok (k, db') ∧ saved c (catalog db') id (cl_name r) eans k.
Proof.
  intros Ec Hdel Hok Hm. set (c' := catalog db') in *.
  assert (live_cluster c' id = Some r) as Hlive.
  { unfold live_cluster. rewrite Ec. cbn. rewrite lookup_insert_eq. simpl. by rewrite Hdel. }
  assert (eans_in c' id = eans) as Hin.
  { unfold eans_in. rewrite Ec. cbn [ct_members cfg_clusters]. by rewrite Hm, decide_True. }
  exists (cluster_api c' id r, members_of collate_le c' id). split; [by apply get_cluster_live|]. split.
  - done.
  - split; [|by rewrite Ec]. intros k Hk. split; rewrite Ec; cbn; [by apply lookup_insert_ne|].
    unfold eans_in. cbn [ct_members cfg_clusters]. by rewrite Hm, decide_False.
  - by exists r.
  - done.
  - cbn. rewrite Hin. split_and!; [done..|]. unfold members_of. rewrite js_sort_perm. by rewrite <- Hin.
Qed.

Lemma normalizeEans_eq raw db :
  normalizeEans raw db = if Nat.ltb MAX_MEMBERS (length (normal raw))
                         then Throw (EBadRequest "Máximo de 5000 EANs por cluster.") else Ok (normal raw, db).
Proof. unfold normalizeEans. fold (normal raw). by destruct (Nat.ltb _ _). Qed.

Lemma normal_ok raw : NoDup (normal raw) ∧ Forall (λ e, matches_digits 6 14 e = true) (normal raw).
Proof.
  split; [apply NoDup_filter, js_uniq_NoDup|]. apply Forall_forall. by intros e [? _]%list_elem_of_filter.
Qed.

Lemma create_cluster_spec now dto db : clusters_ok (catalog db) →
  let eans := normal (mjoin (dc_eans dto)) in
  if Nat.ltb MAX_MEMBERS (length eans)
  then create_cluster uuid collate_le now dto db = Throw (EBadRequest "Máximo de 5000 EANs por cluster.")
  else ∃ id k db', create_cluster uuid collate_le now dto db = Ok (k, db') ∧ ct_clusters (catalog db) !! id = None
         ∧ saved (catalog db) (catalog db') id (str_trim (dc_name dto)) eans k.
Proof.
  intros Hok eans. unfold create_cluster, mbind, Tx_bind. rewrite normalizeEans_eq. fold eans.
  destruct (Nat.ltb_spec MAX_MEMBERS (length eans)) as [_|Hmax]; [done|]. unfold tx_get.
  set (id := uuid _). set (row := Build_ClusterRow _ now now false).
  assert (ct_clusters (catalog db) !! id = None) as Hnew by (apply not_elem_of_dom; apply uuid_fresh).
  assert (eans_in (catalog db) id = []) as Hnone.
  { destruct (eans_in (catalog db) id) as [|e l] eqn:E; [done|].
    assert (e ∈ eans_in (catalog db) id) as Hin by (rewrite E; left). apply eans_in_elem in Hin.
    apply (ko_exist _ Hok) in Hin as [? ?]. congruence. }
  assert (∀ k, is_Some (ct_clusters (catalog db) !! k) → is_Some (<[id := row]> (ct_clusters (catalog db)) !! k)) as Hsome.
  { intros k. rewrite lookup_insert_is_Some'. tauto. }
  destruct (normal_ok (mjoin (dc_eans dto))) as [Hn Hf]. exists id.
  destruct eans as [|e l] eqn:Ee.
  - set (db' := set_catalog (cfg_clusters (<[id := row]> (ct_clusters (catalog db))) (ct_members (catalog db)) (catalog db)) db).
    destruct (saved_row (catalog db) db' id row (ct_members (catalog db)) []) as (k & Hk & Hs); [done|done| | |].
    + by apply clusters_ok_rows.
    + intros k. case_decide as E; [by rewrite E|done].
    + by exists k, db'.
  - rewrite <- Ee in *.
    set (members := filter (λ m : string * string, m.1 ≠ id) (ct_members (catalog db)) ++ (pair id <$> eans)).
    set (db' := set_catalog (cfg_clusters (<[id := row]> (ct_clusters (catalog db))) members (catalog db)) db).
    destruct (saved_row (catalog db) db' id row members eans) as (k & Hk & Hs); [done|done| | |].
    + apply clusters_ok_replaced; try done. rewrite lookup_insert_eq. by eexists.
    + intros k. unfold members. by rewrite eans_in_replaced.
    + by exists k, db'.
Qed.

Lemma renamed_spec now name r : cl_deleted (renamed now name r) = cl_deleted r ∧ cl_name (renamed now name r) = name.
Proof. unfold renamed. destruct (String.eqb_spec (cl_name r) name); [by subst|done]. Qed.

(** The membership an update writes: none given keeps the old one. *)
Definition new_members c (id : string) (given : option (option (list string))) : list string :=
  match given with Some raw => normal raw | None => eans_in c id end.

Lemma update_cluster_spec now id dto db : clusters_ok (catalog db) →
  let eans := new_members (catalog db) id (dc_eans dto) in
  match live_cluster (catalog db) id with
  | None => update_cluster collate_le now id dto db = Throw (ENotFound ("cluster " +:+ id +:+ " not found"))
  | Some _ =>
      if Nat.ltb MAX_MEMBERS (length eans)
      then update_cluster collate_le now id dto db = Throw (EBadRequest "Máximo de 5000 EANs por cluster.")
      else ∃ k db', update_cluster collate_le now id dto db = Ok (k, db')
             ∧ saved (catalog db) (catalog db') id (str_trim (dc_name dto)) eans k
  end.
Proof.
  intros Hok eans. unfold update_cluster, mbind, Tx_bind, tx_get.
  destruct (live_cluster (catalog db) id) as [r|] eqn:Hlive; [|done].
  apply bind_Some in Hlive as (r0 & Hr & Hlive). destruct (cl_deleted r0) eqn:Hdel; [done|]. injection Hlive as ->.
  set (row := renamed now (str_trim (dc_name dto)) r).
  destruct (renamed_spec now (str_trim (dc_name dto)) r) as [Hrd Hrn]. fold row in Hrd, Hrn.
  assert (∀ k, is_Some (ct_clusters (catalog db) !! k) → is_Some (<[id := row]> (ct_clusters (catalog db)) !! k)) as Hsome.
  { intros k. rewrite lookup_insert_is_Some'. tauto. }
  unfold tx_catalog, tx_modify. cbv beta iota. unfold new_members in eans. destruct (dc_eans dto) as [raw|].
  - rewrite normalizeEans_eq. fold eans. destruct (Nat.ltb_spec MAX_MEMBERS (length eans)) as [_|Hmax]; [done|].
    set (members := filter (λ m : string * string, m.1 ≠ id) (ct_members (catalog db)) ++ (pair id <$> eans)).
    set (db' := set_catalog (cfg_clusters (<[id := row]> (ct_clusters (catalog db))) members (catalog db)) db).
    destruct (normal_ok raw) as [Hn Hf].
    destruct (saved_row (catalog db) db' id row members eans) as (k & Hk & Hs); [done|congruence| | |].
    + apply clusters_ok_replaced; try done. rewrite lookup_insert_eq. by eexists.
    + intros k. unfold members. by rewrite eans_in_replaced.
    + rewrite Hrn in Hs. by exists k, db'.
  - destruct (Nat.ltb_spec MAX_MEMBERS (length eans)) as [Hmax|_].
    { pose proof (ko_max _ Hok id). unfold eans in Hmax. lia. }
    set (db' := set_catalog (cfg_clusters (<[id := row]> (ct_clusters (catalog db))) (ct_members (catalog db)) (catalog db)) db).
    destruct (saved_row (catalog db) db' id row (ct_members (catalog db)) eans) as (k & Hk & Hs); [done|congruence| | |].
    + by apply clusters_ok_rows.
    + intros k. case_decide as E; [by rewrite E|done].
    + rewrite Hrn in Hs. by exists k, db'.
Qed.

Lemma remove_cluster_spec now id db : clusters_ok (catalog db) →
  match live_cluster (catalog db) id, used_by (catalog db) id with
  | None, _ => remove_cluster now id db = Throw (ENotFound ("cluster " +:+ id +:+ " not found"))
  | Some r, [] => ∃ db', remove_cluster now id db = Ok ((id, cl_name r), db')
      ∧ clusters_ok (catalog db') ∧ only_cluster (catalog db) (catalog db') id
      ∧ live_cluster (catalog db') id = None
      ∧ ∀ ean, id ∉ default [] (loadActiveClusterMembership (catalog db') !! ean)
  | Some _, names => remove_cluster now id db
      = Throw (EConflict ("Cluster em uso pela(s) regra(s): " +:+ str_join ", " (js_uniq names)
                          +:+ ". Remova a regra antes."))
  end.
Proof.
  intros Hok. unfold remove_cluster, mbind, Tx_bind, tx_get.
  destruct (live_cluster (catalog db) id) as [r|] eqn:Hlive; [|done].
  destruct (used_by (catalog db) id) as [|n names] eqn:Hu; [|done].
  set (gone := Build_ClusterRow _ _ now true). unfold tx_catalog, tx_modify. cbv beta iota.
  eexists. split; [reflexivity|].
  set (c' := cfg_clusters (<[id := gone]> (ct_clusters (catalog db))) (ct_members (catalog db)) (catalog db)).
  change (catalog (set_catalog c' db)) with c'. split_and!.
  - apply clusters_ok_rows; [done|]. intros k. rewrite lookup_insert_is_Some'. tauto.
  - split; [|done]. intros k Hk. split; [|done]. by apply lookup_insert_ne.
  - unfold live_cluster. cbn. by rewrite lookup_insert_eq.
  - intros ean [Href _]%membership_elem. by apply (referenced_used c' id).
Qed.

End Clusters.

(** Clusters.  Saving one writes exactly its name and its valid, distinct
    EANs (at most 5000; an update without EANs keeps the members), answers
    what it stored and touches no other cluster; removing one succeeds
    exactly when no live rule targets or excludes it, and then no price
    suggestion counts its members; the other requests fail and, being
    transactions, change nothing. *)
Theorem clusters_crud {N} `{JsNum N} (uuid : gset string → string) (collate_le : string → string → bool)
    now (db : PricingDb N) :
  (∀ X, uuid X ∉ X) → clusters_ok (catalog db) →
  (∀ dto, let eans := normal (mjoin (dc_eans dto)) in
    if Nat.ltb MAX_MEMBERS (length eans)
    then create_cluster uuid collate_le now dto db = Throw (EBadRequest "Máximo de 5000 EANs por cluster.")
    else ∃ id k db', create_cluster uuid collate_le now dto db = Ok (k, db') ∧ ct_clusters (catalog db) !! id = None
           ∧ saved (catalog db) (catalog db') id (str_trim (dc_name dto)) eans k)
  ∧ (∀ id dto, let eans := new_members (catalog db) id (dc_eans dto) in
    match live_cluster (catalog db) id with
    | None => update_cluster collate_le now id dto db = Throw (ENotFound ("cluster " +:+ id +:+ " not found"))
    | Some _ =>
        if Nat.ltb MAX_MEMBERS (length eans)
        then update_cluster collate_le now id dto db = Throw (EBadRequest "Máximo de 5000 EANs por cluster.")
        else ∃ k db', update_cluster collate_le now id dto db = Ok (k, db')
               ∧ saved (catalog db) (catalog db') id (str_trim (dc_name dto)) eans k
    end)
  ∧ (∀ id, match live_cluster (catalog db) id, used_by (catalog db) id with
    | None, _ => remove_cluster now id db = Throw (ENotFound ("cluster " +:+ id +:+ " not found"))
    | Some r, [] => ∃ db', remove_cluster now id db = Ok ((id, cl_name r), db')
        ∧ clusters_ok (catalog db') ∧ only_cluster (catalog db) (catalog db') id
        ∧ live_cluster (catalog db') id = None
        ∧ ∀ ean, id ∉ default [] (loadActiveClusterMembership (catalog db') !! ean)
    | Some _, names => remove_cluster now id db
        = Throw (EConflict ("Cluster em uso pela(s) regra(s): " +:+ str_join ", " (js_uniq names)
                            +:+ ". Remova a regra antes."))
    end).
Proof.
  intros Hu Hok. split_and!.
  - intros dto. by apply create_cluster_spec.
  - intros id dto. by apply update_cluster_spec.
  - intros id. by apply remove_cluster_spec.
Qed.

(** The check of [assertClusterFk] is that of the foreign key: a removed
    (soft-deleted) cluster passes it, and the members of a rule created on
    one are priced. *)
Lemma removed_cluster_accepted {N} `{JsNum N} slug rid now dto v id row (db : PricingDb N) :
  ct_clusters (catalog db) !! id = Some row → cl_deleted row = true →
  validate dto = Ok v → v_clusterId v = Some id → v_storeIds v = [] → v_active v = true →
  ∃ r db', create_rule slug rid now dto db = Ok (r, db') ∧ live_cluster (catalog db') id = None
    ∧ ∀ ean, (id, ean) ∈ ct_members (catalog db) → id ∈ default [] (loadActiveClusterMembership (catalog db') !! ean).
Proof.
  intros Hrow Hdel Hv Hc Hs Ha.
  assert (assertClusterFk (N := N) (Some id) db = Ok ((), db)) as Hfk.
  { unfold assertClusterFk, mbind, Tx_bind, tx_get. case_decide as Hd; [done|]. destruct Hd. by eexists. }
  unfold create_rule. unfold mbind at 1, Tx_bind at 1. rewrite Hv. cbn [tx_lift]. rewrite Hs, Hc.
  unfold mbind at 1, Tx_bind at 1. cbn [assertStores mret Tx_ret]. unfold mbind at 1, Tx_bind at 1. rewrite Hfk.
  unfold mbind, Tx_bind, tx_get, tx_set_rules, tx_modify. cbv beta iota.
  set (new := row_of_values rid now now false v). set (db' := set_catalog _ db).
  assert (ct_rules (catalog db') = ct_rules (catalog db) ++ [new]) as Hrules by done.
  assert (toApi (catalog db') new ∈ list_rules (catalog db')) as Hnew.
  { apply list_rules_elem. exists new. rewrite Hrules, elem_of_app, list_elem_of_singleton. auto. }
  destruct (list_find (λ r, r_id r = rid) (list_rules (catalog db'))) as [[k r]|] eqn:Hf.
  - exists r, db'. split; [|split].
    + unfold get_rule, mbind, Tx_bind, tx_get. by rewrite Hf.
    + unfold live_cluster. change (ct_clusters (catalog db')) with (ct_clusters (catalog db)). rewrite Hrow. simpl.
      by rewrite Hdel.
    + intros ean Hin. apply membership_elem. split; [|done]. unfold referenced_clusters. apply list_elem_of_bind.
      exists new. split; [apply elem_of_app; left; cbn; rewrite Hc; left|].
      apply list_elem_of_filter. split; [by cbn|]. rewrite Hrules, elem_of_app, list_elem_of_singleton. by right.
  - exfalso. apply list_find_None in Hf. rewrite Forall_forall in Hf. by apply (Hf _ Hnew).
Qed.

(** A product's EAN is the text of a bigint; a member EAN that is not the
    text of its own number (a leading zero) belongs to no product. *)
Lemma padded_member_unmatched e z : 0 <= z → ean_text (digits_val e) ≠ e → ean_text z ≠ e.
Proof. intros Hz Hne <-. apply Hne. unfold ean_text. by rewrite digits_val_pretty. Qed.

Definition kw_db : PricingDb F64 := Build_Db ∅ [] (Build_PricingData empty_catalog ∅ [] ∅).
Definition kw_le (a b : string) : bool := negb (str_ltb b a).
(** A pasted list: spaces, a repeat, a GTIN-14 with its leading zero, text. *)
Definition kw_dto : UpsertClusterDto :=
  {| dc_name := " Dor "; dc_eans := Some (Some ["7891001"; " 7891001 "; "07891234567895"; "abc"]) |}.

Lemma clusters_crud_witness :
  ∃ id k db', create_cluster wit_uuid kw_le 0 kw_dto kw_db = Ok (k, db')
    ∧ ka_name k.1 = "Dor" ∧ ka_memberCount k.1 = 2
    ∧ eans_in (catalog db') id = ["7891001"; "07891234567895"]
    ∧ ∀ z, 0 <= z → ean_text z ≠ "07891234567895".
Proof.
  destruct (clusters_crud wit_uuid kw_le 0 kw_db) as (Hc & _).
  - apply wit_uuid_fresh.
  - split; cbn; [by intros ?? ?%elem_of_nil|by intros ?? ?%elem_of_nil|apply NoDup_nil_2|intros k; unfold MAX_MEMBERS; lia].
  - specialize (Hc kw_dto). cbv zeta in Hc.
    assert (normal (mjoin (dc_eans kw_dto)) = ["7891001"; "07891234567895"]) as En by (vm_compute; reflexivity).
    rewrite En in Hc. destruct Hc as (id & k & db' & Hr & _ & [_ _ _ Hm (_ & Hn & Hk & _)]).
    exists id, k, db'. split; [exact Hr|]. split; [rewrite Hn; vm_compute; reflexivity|].
    split; [rewrite Hk; reflexivity|]. split; [exact Hm|].
    intros z Hz. apply padded_member_unmatched; [exact Hz|]. vm_compute. discriminate.
Defined.
