(* ===== verification/Programs.v ===== *)
(** Requests as programs over calls to the outside (SQL statements, a clock,
    a password hash): [Program E R] makes calls of the family [E] and ends
    with a result or an exception.  A component gives the calls their
    meaning, alone or interleaved with others. *)

From S2P Require Import Prelude.

Inductive Program (E : Type → Type) (R : Type) : Type :=
| Ret (r : Res R)
| Vis {A : Type} (s : E A) (k : A → Program E R).
Arguments Ret {E R} r.
Arguments Vis {E R A} s k.

Section Programs.
Context {E : Type → Type}.

Fixpoint prog_bind {R S} (p : Program E R) (f : R → Program E S) : Program E S :=
  match p with
  | Ret (Ok r) => f r
  | Ret (Throw e) => Ret (Throw e)
  | Vis s k => Vis s (λ a, prog_bind (k a) f)
  end.
#[export] Instance Program_ret : MRet (Program E) := λ R r, Ret (Ok r).
#[export] Instance Program_bind : MBind (Program E) := λ R S f p, prog_bind p f.

Definition stmt {A} (s : E A) : Program E A := Vis s (λ a, Ret (Ok a)).
Definition p_throw {A} (e : Exn) : Program E A := Ret (Throw e).

(** A [catch] around a program. *)
Fixpoint on_result {R} (f : Res R → Res R) (p : Program E R) : Program E R :=
  match p with Ret r => Ret (f r) | Vis s k => Vis s (λ a, on_result f (k a)) end.

(** [try p finally { c }]; an exception of [c] replaces the result. *)
Fixpoint p_finally {R} (p : Program E R) (c : Program E unit) : Program E R :=
  match p with
  | Ret r => prog_bind c (λ _, Ret r)
  | Vis s k => Vis s (λ a, p_finally (k a) c)
  end.

(** [try p catch (e) { h(e) }] *)
Fixpoint p_catch {R} (p : Program E R) (h : Exn → Program E R) : Program E R :=
  match p with
  | Ret (Throw e) => h e
  | Ret r => Ret r
  | Vis s k => Vis s (λ a, p_catch (k a) h)
  end.
End Programs.
