(* ===== verification/Stores.v ===== *)
(** Stores and store clusters of a tenant ([tenant-api/stores/
    stores.service.ts], the store limit of [admin/controllers/
    tenants.controller.ts]), as programs over SQL statements: a program runs
    alone ([solo]) or among others under READ COMMITTED with row locks
    ([step]). *)

From Stdlib Require Import Ascii String.
From S2P Require Import Prelude JsText JsDate Programs.
Open Scope string_scope.
Open Scope list_scope.
Open Scope Z_scope.

(* ------------------------------------------------------------------ *)
(** * The tables                                                        *)
(* ------------------------------------------------------------------ *)

(** [core.tenant_store] *)
Record TenantStore := {
  st_tenantId : string; st_externalId : Z; st_name : string; st_cnpj : option string;
  st_active : bool; st_clusterId : option string; st_deleted : bool;
}.

(** [core.store_cluster]; times in ms. *)
Record StoreCluster := {
  sl_tenantId : string; sl_name : string; sl_createdAt : Z; sl_updatedAt : Z; sl_deleted : bool;
}.

(** [core.tenant] ([slug] to [id], [id] to [store_limit]) and the rows of
    [product_item], by [(product, store)]. *)
Record StoresDb := {
  sd_slugs : gmap string string;
  sd_limits : gmap string (option Z);
  sd_stores : gmap string TenantStore;
  sd_clusters : gmap string StoreCluster;
  sd_items : gset (string * string);
}.

Definition set_stores (f : gmap string TenantStore → gmap string TenantStore) (d : StoresDb) : StoresDb :=
  Build_StoresDb (sd_slugs d) (sd_limits d) (f (sd_stores d)) (sd_clusters d) (sd_items d).
Definition set_store_clusters (f : gmap string StoreCluster → gmap string StoreCluster) (d : StoresDb) : StoresDb :=
  Build_StoresDb (sd_slugs d) (sd_limits d) (sd_stores d) (f (sd_clusters d)) (sd_items d).
Definition set_limits (f : gmap string (option Z) → gmap string (option Z)) (d : StoresDb) : StoresDb :=
  Build_StoresDb (sd_slugs d) (f (sd_limits d)) (sd_stores d) (sd_clusters d) (sd_items d).
Definition set_items (f : gset (string * string) → gset (string * string)) (d : StoresDb) : StoresDb :=
  Build_StoresDb (sd_slugs d) (sd_limits d) (sd_stores d) (sd_clusters d) (f (sd_items d)).

(** [tenant_id = $1 AND deleted_at IS NULL] *)
Definition live_store (tenantId : string) (s : TenantStore) : bool :=
  String.eqb (st_tenantId s) tenantId && negb (st_deleted s).
Definition find_live (d : StoresDb) (tenantId id : string) : option TenantStore :=
  s ← sd_stores d !! id; if live_store tenantId s then Some s else None.
Definition counts_active (tenantId : string) (s : TenantStore) : bool := live_store tenantId s && st_active s.
(** Active stores of a tenant, by id. *)
Definition active_ids (d : StoresDb) (tenantId : string) : gset string :=
  dom (filter (λ x : string * TenantStore, counts_active tenantId x.2 = true) (sd_stores d)).

(* ------------------------------------------------------------------ *)
(** * Statements                                                        *)
(* ------------------------------------------------------------------ *)

(** The row of the quota check. *)
Record QuotaRow := { qr_wasActive : bool; qr_limit : option Z; qr_active : Z }.

(** The columns an UPDATE of a store sets. *)
Record StorePatch := { sp_active : option bool; sp_clusterId : option (option string) }.

Definition patched_store (p : StorePatch) (s : TenantStore) : TenantStore :=
  {| st_tenantId := st_tenantId s; st_externalId := st_externalId s; st_name := st_name s; st_cnpj := st_cnpj s;
     st_active := default (st_active s) (sp_active p); st_clusterId := default (st_clusterId s) (sp_clusterId p);
     st_deleted := st_deleted s |}.

(** [Select] is a plain SELECT; the others are named after what they write
    or lock. *)
Inductive Stmt : Type → Type :=
| Select {A} (f : StoresDb → A) : Stmt A
| LockTenant (tenantId : string) : Stmt unit
| SelectQuota (tenantId id : string) : Stmt (option QuotaRow)
| UpdateStoreRow (tenantId id : string) (p : StorePatch) : Stmt (option bool)
| DeleteItems (id : string) : Stmt unit
| UpdateLimit (tenantId : string) (limit : option Z) : Stmt unit
| InsertCluster (id : string) (c : StoreCluster) : Stmt unit
| RenameClusterRow (tenantId id name : string) (now : Z) : Stmt bool
| DeleteClusterRow (tenantId id : string) (now : Z) : Stmt (option string)
| DetachStores (tenantId clusterId : string) : Stmt unit.

Definition live_cluster_row (d : StoresDb) (tenantId id : string) : option StoreCluster :=
  c ← sd_clusters d !! id; if String.eqb (sl_tenantId c) tenantId && negb (sl_deleted c) then Some c else None.

(** What a statement returns.  Under READ COMMITTED its snapshot [sn] is
    taken when it starts; the row it waits for is read again, in [cur], once
    the lock is granted; the other tables of the statement stay those of the
    snapshot. *)
Definition answer {A} (s : Stmt A) (sn cur : StoresDb) : A :=
  match s in Stmt A return A with
  | Select f => f sn
  | LockTenant _ => ()
  | SelectQuota tenantId id =>
      match find_live sn tenantId id, find_live cur tenantId id, sd_limits sn !! tenantId with
      | Some _, Some st, Some limit =>
          Some {| qr_wasActive := st_active st; qr_limit := limit;
                  qr_active := Z.of_nat (size (active_ids sn tenantId ∖ {[ id ]})) |}
      | _, _, _ => None
      end
  | UpdateStoreRow tenantId id _ =>
      match find_live sn tenantId id, find_live cur tenantId id with
      | Some prev, Some _ => Some (st_active prev)
      | _, _ => None
      end
  | DeleteItems _ => ()
  | UpdateLimit _ _ => ()
  | InsertCluster _ _ => ()
  | RenameClusterRow tenantId id _ _ => bool_decide (is_Some (live_cluster_row cur tenantId id))
  | DeleteClusterRow tenantId id _ => sl_name <$> live_cluster_row cur tenantId id
  | DetachStores _ _ => ()
  end.

Definition with_cluster_name (name : string) (now : Z) (c : StoreCluster) : StoreCluster :=
  Build_StoreCluster (sl_tenantId c) name (sl_createdAt c) now (sl_deleted c).
Definition deleted_cluster (now : Z) (c : StoreCluster) : StoreCluster :=
  Build_StoreCluster (sl_tenantId c) (sl_name c) (sl_createdAt c) now true.
Definition detach : StorePatch := {| sp_active := None; sp_clusterId := Some None |}.

(** Stores of the tenant in the cluster, removed ones included. *)
Definition members_in (d : StoresDb) (tenantId clusterId : string) : gset string :=
  dom (filter (λ x : string * TenantStore, st_tenantId x.2 = tenantId ∧ st_clusterId x.2 = Some clusterId) (sd_stores d)).

(** What a statement writes. *)
Definition effect {A} (s : Stmt A) (sn cur : StoresDb) : StoresDb → StoresDb :=
  match s with
  | Select _ | LockTenant _ | SelectQuota _ _ => id
  | UpdateStoreRow tenantId id p =>
      match find_live sn tenantId id, find_live cur tenantId id with
      | Some _, Some _ => set_stores (alter (patched_store p) id)
      | _, _ => λ d, d
      end
  | DeleteItems id =>
      let seen := filter (λ k : string * string, k.2 = id) (sd_items sn) in set_items (λ items, items ∖ seen)
  | UpdateLimit tenantId limit => set_limits (alter (λ _, limit) tenantId)
  | InsertCluster id c => set_store_clusters <[id := c]>
  | RenameClusterRow tenantId id name now =>
      match live_cluster_row cur tenantId id with
      | Some _ => set_store_clusters (alter (with_cluster_name name now) id) | None => λ d, d end
  | DeleteClusterRow tenantId id now =>
      match live_cluster_row cur tenantId id with
      | Some _ => set_store_clusters (alter (deleted_cluster now) id) | None => λ d, d end
  | DetachStores tenantId clusterId =>
      let rows := members_in sn tenantId clusterId ∩ members_in cur tenantId clusterId in
      set_stores (λ m, map_imap (λ id s, Some (if decide (id ∈ rows) then patched_store detach s else s)) m)
  end.

(** The rows a statement locks until the end of its transaction. *)
Inductive Lockable := TenantRow (id : string) | StoreRowOf (id : string) | ClusterRowOf (id : string).
#[export] Instance Lockable_eq_dec : EqDecision Lockable.
Proof. solve_decision. Defined.
#[export] Instance Lockable_countable : Countable Lockable.
Proof.
  refine (inj_countable' (λ l, match l with TenantRow x => (0%nat, x) | StoreRowOf x => (1%nat, x)
                                           | ClusterRowOf x => (2%nat, x) end)
            (λ p, match p with (0%nat, x) => TenantRow x | (1%nat, x) => StoreRowOf x | (_, x) => ClusterRowOf x end) _).
  by intros [].
Defined.

Definition row_locks {A} (s : Stmt A) (sn : StoresDb) : gset Lockable :=
  match s with
  | Select _ | DeleteItems _ => ∅
  | LockTenant tenantId | UpdateLimit tenantId _ => {[ TenantRow tenantId ]}
  | SelectQuota _ id | UpdateStoreRow _ id _ => {[ StoreRowOf id ]}
  | InsertCluster id _ | RenameClusterRow _ id _ _ | DeleteClusterRow _ id _ => {[ ClusterRowOf id ]}
  | DetachStores tenantId clusterId => set_map StoreRowOf (members_in sn tenantId clusterId)
  end.

(* ------------------------------------------------------------------ *)
(** * Programs                                                          *)
(* ------------------------------------------------------------------ *)

Abbreviation Prog := (Program Stmt).

(** Alone in the database, in one transaction. *)
Fixpoint solo {R} (p : Prog R) (d : StoresDb) : Res R * StoresDb :=
  match p with
  | Ret r => (r, d)
  | Vis s k => solo (k (answer s d d)) (effect s d d d)
  end.
Definition run_alone {R} (p : Prog R) (d : StoresDb) : Res R * StoresDb :=
  match solo p d with (Ok r, d') => (Ok r, d') | (Throw e, _) => (Throw e, d) end.

(* ------------------------------------------------------------------ *)
(** * stores.service.ts                                                 *)
(* ------------------------------------------------------------------ *)

Record StoreApi := {
  sa_id : string; sa_externalId : string; sa_name : string; sa_cnpj : option string; sa_active : bool;
  sa_clusterId : option string; sa_clusterName : option string;
}.
Record StoreQuotaApi := { qa_limit : option Z; qa_active : Z }.
Record StoreClusterApi := {
  ca_id : string; ca_name : string; ca_storeCount : Z; ca_createdAt : string; ca_updatedAt : string;
}.

(** [UpdateStoreDto]: [clusterId] may be absent or null. *)
Record UpdateStoreDto := { du_active : option bool; du_clusterId : option (option string) }.

Section Service.
(** The collation of the database. *)
Variable collate_le : string → string → bool.

Definition resolveTenant (slug : string) : Prog string :=
  row ← stmt (Select (λ d, sd_slugs d !! slug));
  match row with
  | Some id => mret id
  | None => p_throw (ENotFound ("tenant " +:+ slug +:+ " not found"))
  end.

(** [mapStore] after the [LEFT JOIN core.store_cluster]. *)
Definition mapStore (d : StoresDb) (x : string * TenantStore) : StoreApi :=
  {| sa_id := x.1; sa_externalId := pretty (st_externalId x.2); sa_name := st_name x.2; sa_cnpj := st_cnpj x.2;
     sa_active := st_active x.2; sa_clusterId := st_clusterId x.2;
     sa_clusterName := k ← st_clusterId x.2; c ← sd_clusters d !! k; if sl_deleted c then None else Some (sl_name c) |}.

Definition store_list (tenantId : string) (d : StoresDb) : list StoreApi :=
  mapStore d <$> js_sort (λ a b, collate_le (st_name a.2) (st_name b.2))
                   (filter (λ x : string * TenantStore, live_store tenantId x.2 = true) (map_to_list (sd_stores d))).

Definition listStores (slug : string) : Prog (list StoreApi) :=
  tenantId ← resolveTenant slug;
  stmt (Select (store_list tenantId)).

Definition assertCluster (tenantId clusterId : string) : Prog unit :=
  found ← stmt (Select (λ d, live_cluster_row d tenantId clusterId));
  match found with
  | Some _ => mret ()
  | None => p_throw (ENotFound ("cluster " +:+ clusterId +:+ " not found"))
  end.

Definition store_not_found (id : string) : Exn := ENotFound ("store " +:+ id +:+ " not found").

(** The lock of the tenant's row, and in a statement of its own the quota
    check with the lock of the store's row. *)
Definition checkQuota (tenantId id : string) : Prog unit :=
  stmt (LockTenant tenantId);;
  row ← stmt (SelectQuota tenantId id);
  match row with
  | None => p_throw (store_not_found id)
  | Some q =>
      match qr_limit q with
      | Some limit =>
          if negb (qr_wasActive q) && (limit <=? qr_active q)
          then p_throw (EConflict ("store limit reached (" +:+ pretty limit +:+ " active stores allowed)"))
          else mret ()
      | None => mret ()
      end
  end.

Definition activates (dto : UpdateStoreDto) : bool := bool_decide (du_active dto = Some true).

Definition applyUpdate (slug id : string) (dto : UpdateStoreDto) : Prog (option StoreApi) :=
  if bool_decide (du_active dto = None) && bool_decide (du_clusterId dto = None)
  then p_throw (EBadRequest "no fields to update")
  else
    tenantId ← resolveTenant slug;
    match mjoin (du_clusterId dto) with Some k => assertCluster tenantId k | None => mret () end;;
    (if activates dto then checkQuota tenantId id else mret ());;
    updated ← stmt (UpdateStoreRow tenantId id
                      {| sp_active := du_active dto; sp_clusterId := du_clusterId dto |});
    match updated with
    | None => p_throw (store_not_found id)
    | Some wasActive =>
        (if activates dto && negb wasActive then stmt (DeleteItems id) else mret ());;
        stores ← listStores slug;
        mret (head (filter (λ s, sa_id s = id) stores))
    end.

(** [err.code === PG_LOCK_NOT_AVAILABLE] *)
Definition lock_not_available : Exn := EError "canceling statement due to lock timeout".
Definition catch_lock {R} (r : Res R) : Res R :=
  match r with
  | Throw e => if decide (e = lock_not_available)
               then Throw (EUnavailable "another store change is in progress; retry") else Throw e
  | Ok a => Ok a
  end.
Definition updateStore (slug id : string) (dto : UpdateStoreDto) : Prog (option StoreApi) :=
  on_result catch_lock (applyUpdate slug id dto).

Definition getQuota (slug : string) : Prog StoreQuotaApi :=
  tenantId ← resolveTenant slug;
  stmt (Select (λ d, {| qa_limit := default None (sd_limits d !! tenantId);
                        qa_active := Z.of_nat (size (active_ids d tenantId)) |})).

Definition mapCluster (d : StoresDb) (x : string * StoreCluster) : StoreClusterApi :=
  {| ca_id := x.1; ca_name := sl_name x.2;
     ca_storeCount := Z.of_nat (size (filter (λ s : string * TenantStore,
                        st_clusterId s.2 = Some x.1 ∧ st_deleted s.2 = false) (sd_stores d)));
     ca_createdAt := toISOString (sl_createdAt x.2); ca_updatedAt := toISOString (sl_updatedAt x.2) |}.

Definition cluster_list (tenantId : string) (d : StoresDb) : list StoreClusterApi :=
  mapCluster d <$> js_sort (λ a b, collate_le (sl_name a.2) (sl_name b.2))
    (filter (λ x : string * StoreCluster, String.eqb (sl_tenantId x.2) tenantId && negb (sl_deleted x.2) = true)
       (map_to_list (sd_clusters d))).

Definition listClusters (slug : string) : Prog (list StoreClusterApi) :=
  tenantId ← resolveTenant slug;
  stmt (Select (cluster_list tenantId)).

Definition find_cluster (slug id : string) : Prog (option StoreClusterApi) :=
  l ← listClusters slug; mret (head (filter (λ c, ca_id c = id) l)).

(** [id] and [now] are what PostgreSQL assigns. *)
Definition createCluster (slug id name : string) (now : Z) : Prog (option StoreClusterApi) :=
  tenantId ← resolveTenant slug;
  stmt (InsertCluster id (Build_StoreCluster tenantId (str_trim name) now now false));;
  find_cluster slug id.

Definition no_cluster {A} (id : string) : Prog A := p_throw (ENotFound ("cluster " +:+ id +:+ " not found")).

Definition renameCluster (slug id name : string) (now : Z) : Prog (option StoreClusterApi) :=
  tenantId ← resolveTenant slug;
  renamed ← stmt (RenameClusterRow tenantId id (str_trim name) now);
  if (renamed : bool) then find_cluster slug id else no_cluster id.

Definition deleteCluster (slug id : string) (now : Z) : Prog (string * string) :=
  tenantId ← resolveTenant slug;
  deleted ← stmt (DeleteClusterRow tenantId id now);
  match deleted with
  | None => no_cluster id
  | Some name => stmt (DetachStores tenantId id);; mret (id, name)
  end.

(** [TenantsController.updateStoreLimit] *)
Definition updateStoreLimit (slug : string) (limit : option Z) : Prog unit :=
  row ← stmt (Select (λ d, sd_slugs d !! slug));
  match row with
  | None => p_throw (ENotFound ("Tenant " +:+ slug +:+ " not found"))
  | Some id => stmt (UpdateLimit id limit)
  end.

(* ------------------------------------------------------------------ *)
(** * Concurrent transactions                                           *)
(* ------------------------------------------------------------------ *)

(** An open transaction: what is left of its program, the snapshot of the
    statement it is executing, its uncommitted writes and its row locks. *)
Record Txn := {
  tx_prog : Prog unit;
  tx_snap : option StoresDb;
  tx_writes : StoresDb → StoresDb;
  tx_locks : gset Lockable;
}.

Record Global := { g_db : StoresDb; g_txns : gmap nat Txn }.

Definition begin_txn (p : Prog unit) : Txn := Build_Txn p None id ∅.

(** The committed rows and its own writes. *)
Definition view (db : StoresDb) (t : Txn) : StoresDb := tx_writes t db.

Definition start_stmt (db : StoresDb) (t : Txn) : option Txn :=
  match tx_prog t, tx_snap t with
  | Vis _ _, None => Some (Build_Txn (tx_prog t) (Some (view db t)) (tx_writes t) (tx_locks t))
  | _, _ => None
  end.

(** The statement completes once nobody else holds the rows it locks. *)
Definition finish_stmt (held : gset Lockable) (db : StoresDb) (t : Txn) : option Txn :=
  match tx_snap t with
  | None => None
  | Some sn =>
      match tx_prog t with
      | Ret _ => None
      | Vis s k =>
          if decide (row_locks s sn ## held)
          then Some (Build_Txn (k (answer s sn (view db t))) None
                       (λ d, effect s sn (view db t) (tx_writes t d)) (tx_locks t ∪ row_locks s sn))
          else None
      end
  end.

(** Row locks of some transactions. *)
Definition locks_of (txns : gmap nat Txn) : gset Lockable :=
  union_list (map (λ x : nat * Txn, tx_locks x.2) (map_to_list txns)).

(** One row of [sync-stores] ([INSERT ... ON CONFLICT DO UPDATE SET name,
    cnpj]): a new row is inactive, an old one keeps [active]. *)
Definition synced_store (tenantId : string) (externalId : Z) (name cnpj : string) (old : option TenantStore) : TenantStore :=
  match old with
  | Some s => {| st_tenantId := st_tenantId s; st_externalId := st_externalId s; st_name := name;
                 st_cnpj := Some cnpj; st_active := st_active s; st_clusterId := st_clusterId s;
                 st_deleted := st_deleted s |}
  | None => {| st_tenantId := tenantId; st_externalId := externalId; st_name := name; st_cnpj := Some cnpj;
               st_active := false; st_clusterId := None; st_deleted := false |}
  end.

Definition put_txn (i : nat) (t : Txn) (g : Global) : Global := Build_Global (g_db g) (<[i := t]> (g_txns g)).

Definition sync_row (id tenantId : string) (externalId : Z) (name cnpj : string) (g : Global) : Global :=
  Build_Global (set_stores (λ m, <[id := synced_store tenantId externalId name cnpj (m !! id)]> m) (g_db g)) (g_txns g).

(** Any handler starts a transaction at any time; a transaction may be
    rolled back at any time (error, lock timeout, deadlock, lost client). *)
Inductive step (handler : Prog unit → Prop) (g : Global) : Global → Prop :=
| step_begin i p : g_txns g !! i = None → handler p → step handler g (put_txn i (begin_txn p) g)
| step_start i t t' : g_txns g !! i = Some t → start_stmt (g_db g) t = Some t' → step handler g (put_txn i t' g)
| step_finish i t t' : g_txns g !! i = Some t → finish_stmt (locks_of (delete i (g_txns g))) (g_db g) t = Some t' →
    step handler g (put_txn i t' g)
| step_commit i t u : g_txns g !! i = Some t → tx_prog t = Ret (Ok u) →
    step handler g (Build_Global (tx_writes t (g_db g)) (delete i (g_txns g)))
| step_rollback i : step handler g (Build_Global (g_db g) (delete i (g_txns g)))
| step_sync id tenantId externalId name cnpj : StoreRowOf id ∉ locks_of (g_txns g) →
    step handler g (sync_row id tenantId externalId name cnpj g).

(** A request of the service or of the administration, its answer left
    out. *)
Definition discard {R} (p : Prog R) : Prog unit := p ≫= (λ _, mret ()).

Inductive StoreRequest : Prog unit → Prop :=
| req_list slug : StoreRequest (discard (listStores slug))
| req_update slug id dto : StoreRequest (discard (updateStore slug id dto))
| req_quota slug : StoreRequest (discard (getQuota slug))
| req_clusters slug : StoreRequest (discard (listClusters slug))
| req_create slug id name now : StoreRequest (discard (createCluster slug id name now))
| req_rename slug id name now : StoreRequest (discard (renameCluster slug id name now))
| req_delete slug id now : StoreRequest (discard (deleteCluster slug id now))
| req_limit slug limit : StoreRequest (updateStoreLimit slug limit).

Definition store_step : Global → Global → Prop := step StoreRequest.
Definition opened (d : StoresDb) : Global := Build_Global d ∅.

End Service.
