(* ===== verification/StoresLaws.v ===== *)
(** What the store service guarantees when its requests run together, under
    READ COMMITTED: the quota of active stores is never exceeded by an
    activation, an activated store has no frozen rows.  The proofs are
    rely-guarantee: [wp] runs a program while others change the database
    between and during its statements as [rely] allows. *)

From Stdlib Require Import Ascii String.
From stdpp Require Import relations.
From S2P Require Import Prelude JsText JsDate Programs Stores.
Open Scope string_scope.
Open Scope list_scope.
Open Scope Z_scope.

(* ------------------------------------------------------------------ *)
(** * Interference                                                      *)
(* ------------------------------------------------------------------ *)

(** What the others may do to the committed rows while a transaction holds
    the locks [L]. *)
Record rely (L : gset Lockable) (a b : StoresDb) : Prop := {
  rely_items : sd_items b ⊆ sd_items a;
  rely_tenant T : TenantRow T ∈ L → active_ids b T ⊆ active_ids a T ∧ sd_limits b !! T = sd_limits a !! T;
  rely_store id : StoreRowOf id ∈ L → sd_stores b !! id = sd_stores a !! id;
}.

(** A store inactive in [a] and active in [b] has no [product_item]. *)
Definition activations_clear (a b : StoresDb) : Prop :=
  ∀ id s s', sd_stores a !! id = Some s → st_active s = false →
             sd_stores b !! id = Some s' → st_active s' = true → ∀ p, (p, id) ∉ sd_items b.

Definition within_quota (a b : StoresDb) : Prop :=
  ∀ T limit, sd_limits b !! T = Some (Some limit) →
    active_ids b T ⊆ active_ids a T ∨ Z.of_nat (size (active_ids b T)) ≤ limit.

(** What a transaction that holds [L] may do to the committed rows. *)
Record guarantee (L : gset Lockable) (a b : StoresDb) : Prop := {
  guarantee_rely L' : L' ## L → rely L' a b;
  guarantee_quota : within_quota a b;
  guarantee_clear : activations_clear a b;
}.

#[export] Instance rely_preorder L : PreOrder (rely L).
Proof.
  split.
  - intros a; split; auto.
  - intros a b c [] []; split; [set_solver| |].
    + intros T HT. destruct (rely_tenant0 T HT) as [? ->%symmetry], (rely_tenant1 T HT). split; [set_solver|congruence].
    + intros i Hi. rewrite rely_store1, rely_store0; auto.
Qed.

(* ------------------------------------------------------------------ *)
(** * Weakest preconditions                                             *)
(* ------------------------------------------------------------------ *)

Definition Post (R : Type) : Type := Res R → (StoresDb → StoresDb) → gset Lockable → StoresDb → Prop.

(** From a committed database [db], with the uncommitted writes [W] and the
    locks [L], any execution of [p] among the others ends in [Q]. *)
Fixpoint wp {R} (p : Prog R) (Q : Post R) (W : StoresDb → StoresDb) (L : gset Lockable) (db : StoresDb) : Prop :=
  match p with
  | Ret r => ∀ db', rely L db db' → Q r W L db'
  | Vis s k => ∀ sn cur, rely L db sn → rely L sn cur →
      wp (k (answer s (W sn) (W cur))) Q (λ d, effect s (W sn) (W cur) (W d)) (L ∪ row_locks s (W sn)) cur
  end.

Lemma wp_rely {R} (p : Prog R) Q W L a b : rely L a b → wp p Q W L a → wp p Q W L b.
Proof. destruct p as [r|A s k]; cbn; intros H Hp; intros; apply Hp; auto; by etrans. Qed.

Lemma wp_prog_mono {R} (p : Prog R) (Q Q' : Post R) :
  (∀ r W L db, Q r W L db → Q' r W L db) → ∀ W L db, wp p Q W L db → wp p Q' W L db.
Proof. intros HQ. induction p as [r|A s k IH]; cbn; intros W L db H; [auto|]. intros; apply IH; auto. Qed.

Lemma wp_prog_bind {R S} (p : Prog R) (f : R → Prog S) (Q : Post S) W L db :
  wp p (λ r W L db, match r with Ok a => wp (f a) Q W L db | Throw e => Q (Throw e) W L db end) W L db →
  wp (p ≫= f) Q W L db.
Proof.
  unfold mbind, Program_bind. revert W L db. induction p as [[a|e]|A s k IH]; cbn; intros W L db H.
  - exact (H db (reflexivity _)).
  - exact H.
  - intros; apply IH; auto.
Qed.

Lemma wp_on_result {R} f (p : Prog R) (Q : Post R) : ∀ W L db,
  wp p (λ r, Q (f r)) W L db → wp (on_result f p) Q W L db.
Proof. induction p as [r|A s k IH]; cbn; intros W L db H; auto. Qed.

Lemma wp_prog_ret {R} (a : R) (Q : Post R) W L db : (∀ db', rely L db db' → Q (Ok a) W L db') → wp (mret a) Q W L db.
Proof. auto. Qed.

Lemma wp_stmt {A} (s : Stmt A) (Q : Post A) W L db :
  (∀ sn cur db', rely L db sn → rely L sn cur → rely (L ∪ row_locks s (W sn)) cur db' →
     Q (Ok (answer s (W sn) (W cur))) (λ d, effect s (W sn) (W cur) (W d)) (L ∪ row_locks s (W sn)) db') →
  wp (stmt s) Q W L db.
Proof. cbn. auto. Qed.

(** A program that only reads keeps its writes and its locks. *)
Fixpoint reads {R} (p : Prog R) : Prop :=
  match p with
  | Ret _ => True
  | Vis s k => match s in Stmt A return (A → Prog R) → Prop with
               | Select f => λ k, ∀ a, reads (k a) | _ => λ _, False end k
  end.
Lemma wp_reads {R} (p : Prog R) (Q : Post R) : reads p →
  ∀ W L db, (∀ r db', rely L db db' → Q r W L db') → wp p Q W L db.
Proof.
  induction p as [r|A s k IH]; cbn; [by auto|]. intros Hp W L db HQ.
  destruct s; cbn in *; try done. intros sn cur H1 H2. rewrite (right_id_L ∅ (∪)).
  apply IH; [apply Hp|]. intros r db' H. apply HQ. by do 2 (etrans; [eassumption|]).
Qed.

(* ------------------------------------------------------------------ *)
(** * Soundness                                                         *)
(* ------------------------------------------------------------------ *)

Definition fin : Post unit := λ r W L db, match r with Ok _ => guarantee L db (W db) | Throw _ => True end.

Definition txn_ok (db : StoresDb) (t : Txn) : Prop :=
  match tx_snap t with
  | None => wp (tx_prog t) fin (tx_writes t) (tx_locks t) db
  | Some sn =>
      match tx_prog t with
      | Ret _ => False
      | Vis s k => ∀ cur, rely (tx_locks t) db cur →
          wp (k (answer s sn (tx_writes t cur))) fin (λ d, effect s sn (tx_writes t cur) (tx_writes t d))
            (tx_locks t ∪ row_locks s sn) cur
      end
  end.

Lemma txn_ok_rely t a b : rely (tx_locks t) a b → txn_ok a t → txn_ok b t.
Proof.
  unfold txn_ok. intros H. destruct (tx_snap t); [|by apply wp_rely].
  destruct (tx_prog t); [done|]. intros Ht cur Hc. apply Ht. by etrans.
Qed.

Record good (g : Global) : Prop := {
  good_txn i t : g_txns g !! i = Some t → txn_ok (g_db g) t;
  good_locks i j t u : g_txns g !! i = Some t → g_txns g !! j = Some u → i ≠ j → tx_locks t ## tx_locks u;
}.

Lemma elem_of_locks_of l (m : gmap nat Txn) : l ∈ locks_of m ↔ ∃ i t, m !! i = Some t ∧ l ∈ tx_locks t.
Proof.
  unfold locks_of. rewrite elem_of_union_list. split.
  - intros (X & ((i, t) & -> & Hi)%list_elem_of_fmap & Hl). apply elem_of_map_to_list in Hi. eauto.
  - intros (i & t & Hi & Hl). exists (tx_locks t). split; [|done].
    apply list_elem_of_fmap. exists (i, t). by rewrite elem_of_map_to_list.
Qed.

(** One transaction replaced, the committed rows unchanged. *)
Lemma good_put i t g : good g → txn_ok (g_db g) t →
  (∀ j u, g_txns g !! j = Some u → i ≠ j → tx_locks t ## tx_locks u) → good (put_txn i t g).
Proof.
  intros [Ht Hl] Hok Hd. split; cbn.
  - intros j u. rewrite lookup_insert_Some. intros [[-> ->]|[_ Hu]]; eauto.
  - intros j k u v. rewrite !lookup_insert_Some. intros [[-> ->]|[? Hu]] [[-> ->]|[? Hv]] ?; try done; eauto.
    symmetry. eauto.
Qed.

Lemma good_db db g : good g → (∀ i t, g_txns g !! i = Some t → rely (tx_locks t) (g_db g) db) →
  good (Build_Global db (g_txns g)).
Proof. intros [Ht Hl] H. split; cbn; [|done]. intros i t Hi. eapply txn_ok_rely; eauto. Qed.

Lemma good_delete i g : good g → good (Build_Global (g_db g) (delete i (g_txns g))).
Proof.
  intros [Ht Hl]. split; cbn.
  - intros j t [_ Hj]%lookup_delete_Some. eauto.
  - intros j k t u [_ Hj]%lookup_delete_Some [_ Hk]%lookup_delete_Some. eauto.
Qed.

Lemma elem_of_active_ids d T i :
  i ∈ active_ids d T ↔ ∃ s, sd_stores d !! i = Some s ∧ counts_active T s = true.
Proof. unfold active_ids. rewrite elem_of_dom. unfold is_Some. by setoid_rewrite map_lookup_filter_Some. Qed.

(** Activity and tenant of every row kept: the same stores count. *)
Lemma active_ids_same a b T :
  (∀ i, (∃ s, sd_stores a !! i = Some s ∧ counts_active T s = true) ↔
        (∃ s, sd_stores b !! i = Some s ∧ counts_active T s = true)) → active_ids b T = active_ids a T.
Proof. intros H. apply set_eq. intros i. by rewrite !elem_of_active_ids, H. Qed.

Lemma sync_active_ids g id tenantId externalId name cnpj T :
  active_ids (g_db (sync_row id tenantId externalId name cnpj g)) T = active_ids (g_db g) T.
Proof.
  apply active_ids_same. intros i. cbn. destruct (decide (id = i)) as [->|]; [|by rewrite lookup_insert_ne].
  rewrite lookup_insert_eq. destruct (sd_stores (g_db g) !! i) as [s|]; cbn.
  - split; intros (x & [= <-] & Hx); (eexists; split; [reflexivity|]; exact Hx).
  - split; [by intros (? & ? & _)|]. intros (x & [= <-] & Hx). exfalso. revert Hx.
    unfold counts_active. cbn. by rewrite andb_false_r.
Qed.

Lemma sync_rely L g id tenantId externalId name cnpj : StoreRowOf id ∉ L →
  rely L (g_db g) (g_db (sync_row id tenantId externalId name cnpj g)).
Proof.
  intros HL. split; [done| |].
  - intros T _. by rewrite sync_active_ids.
  - intros i Hi. cbn. apply lookup_insert_ne. congruence.
Qed.

Section Soundness.
Variable handler : Prog unit → Prop.
Hypothesis handler_wp : ∀ p db, handler p → wp p fin id ∅ db.

Lemma good_step g g' : good g → step handler g g' → good g'.
Proof.
  intros Hg Hs. pose proof Hg as [Ht Hl]. destruct Hs as [i p Hi Hp|i t t' Hi Hst|i t t' Hi Hf|i t u Hi Hp|i|].
  - apply good_put; [done|by apply handler_wp|]. cbn. set_solver.
  - unfold start_stmt in Hst. destruct (tx_prog t) as [|A s k] eqn:Hp, (tx_snap t) eqn:Hsn; simplify_eq.
    apply good_put; [done| |cbn; eauto]. specialize (Ht i t Hi). unfold txn_ok in *. rewrite Hsn, Hp in Ht.
    cbn in *. intros cur Hc. unfold view. apply Ht; [reflexivity|done].
  - unfold finish_stmt in Hf. destruct (tx_snap t) as [sn|] eqn:Hsn; [|done].
    destruct (tx_prog t) as [|A s k] eqn:Hp; [done|]. destruct (decide _) as [Hfree|]; [|done]. injection Hf as <-.
    apply good_put; [done| |].
    + specialize (Ht i t Hi). unfold txn_ok in *. rewrite Hsn, Hp in Ht. cbn. by apply Ht.
    + intros j u Hj Hij. cbn. apply disjoint_union_l. split; [eauto|]. intros l H1 H2. apply (Hfree l H1).
      apply elem_of_locks_of. exists j, u. by rewrite lookup_delete_ne.
  - pose proof (Ht i t Hi) as Hok. unfold txn_ok in Hok. rewrite Hp in Hok. destruct (tx_snap t); [done|].
    destruct (Hok (g_db g) (reflexivity _)) as [Hr _ _].
    refine (good_db (tx_writes t (g_db g)) (Build_Global (g_db g) (delete i (g_txns g))) (good_delete i g Hg) _).
    cbn. intros j v [Hj Hv]%lookup_delete_Some. apply Hr. eauto.
  - by apply good_delete.
  - refine (good_db _ g Hg _). intros i t Hi. apply sync_rely. intros Hin. apply H. apply elem_of_locks_of. eauto.
Qed.

Lemma good_reachable g g' : good g → rtc (step handler) g g' → good g'.
Proof. intros Hg Hr. induction Hr; eauto using good_step. Qed.

Lemma good_opened d : good (opened d).
Proof. split; cbn; intros *; by rewrite lookup_empty. Qed.

(** A step of a reachable state keeps the quotas and the activations
    clear. *)
Lemma step_keeps g g' : good g → step handler g g' → within_quota (g_db g) (g_db g') ∧ activations_clear (g_db g) (g_db g').
Proof.
  assert (Hid : ∀ d, within_quota d d ∧ activations_clear d d).
  { intros d. split; [intros T l _; by left|]. intros i s s' H1 H2 H3 H4. congruence. }
  intros Hg Hs. pose proof Hg as [Ht Hl]. destruct Hs as [| | |i t u Hi Hp| |]; try apply Hid.
  - pose proof (Ht i t Hi) as Hok. unfold txn_ok in Hok. rewrite Hp in Hok. destruct (tx_snap t); [done|].
    destruct (Hok (g_db g) (reflexivity _)) as [_ Hq Hc]. done.
  - split; [intros T l _; left; by rewrite sync_active_ids|].
    intros i s s' H1 H2 H3 H4. revert H3. cbn. destruct (decide (id = i)) as [->|]; [|rewrite lookup_insert_ne by done; congruence].
    rewrite lookup_insert_eq, H1. intros [= <-]. cbn in H4. congruence.
Qed.
End Soundness.

(* ------------------------------------------------------------------ *)
(** * What the statements may write                                     *)
(* ------------------------------------------------------------------ *)

(** Only locked rows differ. *)
Record touches (L : gset Lockable) (a b : StoresDb) : Prop := {
  touches_items : sd_items b ⊆ sd_items a;
  touches_limits T : TenantRow T ∉ L → sd_limits b !! T = sd_limits a !! T;
  touches_stores i : StoreRowOf i ∉ L → sd_stores b !! i = sd_stores a !! i;
}.

(** The row was there and counted the same. *)
Definition counted (a : StoresDb) (i : string) (s' : TenantStore) : Prop :=
  ∃ s, sd_stores a !! i = Some s ∧ st_active s = st_active s' ∧ st_tenantId s = st_tenantId s' ∧ st_deleted s = st_deleted s'.

Definition no_activation (a b : StoresDb) : Prop :=
  ∀ i s', sd_stores b !! i = Some s' → st_active s' = true → counted a i s'.

Lemma counted_active a b T i s' : sd_stores b !! i = Some s' → counts_active T s' = true → counted a i s' → i ∈ active_ids a T.
Proof.
  intros Hb Hc (s & Hs & Ha & Ht & Hd). apply elem_of_active_ids. exists s. split; [done|].
  revert Hc. unfold counts_active, live_store. by rewrite Ha, Ht, Hd.
Qed.

Lemma counts_active_active T s : counts_active T s = true → st_active s = true.
Proof. unfold counts_active. by intros [_ ?]%andb_true_iff. Qed.

Lemma no_activation_subset a b T : no_activation a b → active_ids b T ⊆ active_ids a T.
Proof.
  intros H i (s' & Hs & Hc)%elem_of_active_ids. eapply counted_active; eauto using counts_active_active.
Qed.

Lemma touches_rely L L' a b : touches L a b → (∀ T, TenantRow T ∉ L → active_ids b T ⊆ active_ids a T) → L' ## L → rely L' a b.
Proof.
  intros [Hi Hl Hs] Ha Hd. split; [done| |]; intros x Hx.
  - assert (TenantRow x ∉ L) by set_solver. auto.
  - apply Hs. set_solver.
Qed.

Lemma guarantee_quiet L a b : touches L a b → no_activation a b → guarantee L a b.
Proof.
  intros Ht Hn. split.
  - intros L' HL. eapply touches_rely; eauto using no_activation_subset.
  - intros T l _. left. by apply no_activation_subset.
  - intros i s s' H1 H2 H3 H4. destruct (Hn i s' H3 H4) as (x & Hx & Hax & _). congruence.
Qed.

Lemma find_live_Some d T id st : find_live d T id = Some st ↔ sd_stores d !! id = Some st ∧ st_tenantId st = T ∧ st_deleted st = false.
Proof.
  unfold find_live. destruct (sd_stores d !! id) as [s|]; cbn; [|naive_solver].
  destruct (live_store T s) eqn:Hl; unfold live_store in Hl.
  - apply andb_true_iff in Hl as [H1 H2]. apply String.eqb_eq in H1. apply negb_true_iff in H2. naive_solver.
  - apply andb_false_iff in Hl as [H|H]; [apply String.eqb_neq in H|apply negb_false_iff in H]; naive_solver congruence.
Qed.

(** Under the tenant's and the store's locks, the store may become active. *)
Definition quota_free (T id : string) (db : StoresDb) : Prop :=
  ∃ st, find_live db T id = Some st ∧
    (st_active st = true ∨
     ∀ l, sd_limits db !! T = Some (Some l) → Z.of_nat (size (active_ids db T ∖ {[ id ]})) < l).

Lemma quota_free_rely L T id a b : TenantRow T ∈ L → StoreRowOf id ∈ L → rely L a b → quota_free T id a → quota_free T id b.
Proof.
  intros HT Hid [_ Ht Hs] (st & Hst & Hq). destruct (Ht T HT) as [Ha Hl]. exists st. split.
  - unfold find_live. by rewrite Hs.
  - destruct Hq as [?|Hq]; [by left|right]. rewrite Hl. intros l H. apply Hq in H.
    assert (size (active_ids b T ∖ {[ id ]}) ≤ size (active_ids a T ∖ {[ id ]}))%nat by (apply subseteq_size; set_solver). lia.
Qed.

(** The committed rows of a store patched, its rows removed. *)
Definition patched_db (id : string) (p : StorePatch) (d : StoresDb) : StoresDb := set_stores (alter (patched_store p) id) d.

Lemma patched_store_lookup id p d i s' : sd_stores (patched_db id p d) !! i = Some s' →
  ∃ s, sd_stores d !! i = Some s ∧ s' = (if decide (i = id) then patched_store p s else s).
Proof.
  cbn. intros [(-> & s & Hs & ->)|[Hne Hs]]%lookup_alter_Some; exists s || exists s'.
  - by rewrite decide_True.
  - by rewrite decide_False by congruence.
Qed.

Lemma patched_touches L id p d d' : StoreRowOf id ∈ L → sd_limits d' = sd_limits d → sd_items d' ⊆ sd_items d →
  sd_stores d' = sd_stores (patched_db id p d) → touches L d d'.
Proof.
  intros Hid Hl Hi Hs. split; [done|by rewrite Hl|]. intros i H. rewrite Hs. cbn. apply lookup_alter_ne. congruence.
Qed.

Lemma patched_no_activation id p d d' : sp_active p ≠ Some true → sd_stores d' = sd_stores (patched_db id p d) → no_activation d d'.
Proof.
  intros Hp Hs i s' H Ha. rewrite Hs in H. apply patched_store_lookup in H as (s & Hd & ->). exists s. split; [done|].
  destruct (decide (i = id)) as [->|]; [|done]. cbn in *. destruct (sp_active p) as [[]|]; cbn in *; try done.
Qed.

Lemma patched_active_ids id p d d' T st T' : find_live d T id = Some st → sd_stores d' = sd_stores (patched_db id p d) →
  active_ids d' T' ⊆ active_ids d T' ∪ (if decide (T' = T) then {[ id ]} else ∅).
Proof.
  intros (Hst & HT & _)%find_live_Some Hs i (s' & Hl & Hc)%elem_of_active_ids. rewrite Hs in Hl.
  apply patched_store_lookup in Hl as (s & Hd & ->). rewrite elem_of_union. destruct (decide (i = id)) as [->|].
  - right. assert (s = st) as -> by congruence. revert Hc. unfold counts_active, live_store. cbn.
    intros [[HT'%String.eqb_eq _]%andb_true_iff _]%andb_true_iff. rewrite decide_True by congruence. set_solver.
  - left. apply elem_of_active_ids. eauto.
Qed.

Lemma guarantee_activation L T id p d d' st :
  TenantRow T ∈ L → StoreRowOf id ∈ L → find_live d T id = Some st → quota_free T id d →
  sd_stores d' = sd_stores (patched_db id p d) → sd_limits d' = sd_limits d → sd_items d' ⊆ sd_items d →
  (st_active st = false → ∀ x, (x, id) ∉ sd_items d') → guarantee L d d'.
Proof.
  intros HT Hid Hst (st' & Hst' & Hq) Hs Hl Hi Hclear. simplify_eq.
  pose proof (patched_touches L id p d d' Hid Hl Hi Hs) as Ht.
  pose proof (λ T', patched_active_ids id p d d' T st T' Hst Hs) as Hact.
  destruct (st_active st) eqn:Ha.
  - apply guarantee_quiet; [done|]. intros i s' H Has. rewrite Hs in H. apply patched_store_lookup in H as (s & Hd & ->).
    exists s. split; [done|]. destruct (decide (i = id)) as [->|]; [|done]. apply find_live_Some in Hst as (? & _). simplify_eq.
    by rewrite Has.
  - destruct Hq as [?|Hq]; [done|]. split.
    + intros L' HL. eapply touches_rely; eauto. intros T' HT'. specialize (Hact T').
      rewrite decide_False in Hact by congruence. set_solver.
    + intros T' l Hlim. specialize (Hact T'). rewrite Hl in Hlim. destruct (decide (T' = T)) as [->|]; [right|left; set_solver].
      specialize (Hq l Hlim). assert (size (active_ids d' T) ≤ size (active_ids d T ∖ {[ id ]} ∪ {[ id ]}))%nat.
      { apply subseteq_size. intros i Hin%Hact. destruct (decide (i = id)); set_solver. }
      rewrite size_union, size_singleton in H by set_solver. lia.
    + intros i s s' H1 H2 H3 H4 x. rewrite Hs in H3. apply patched_store_lookup in H3 as (s0 & Hd & ->). simplify_eq.
      destruct (decide (i = id)) as [->|]; [by apply Hclear|congruence].
Qed.

(* ------------------------------------------------------------------ *)
(** * The requests                                                      *)
(* ------------------------------------------------------------------ *)

Section Requests.
Variable collate_le : string → string → bool.

Lemma reads_resolveTenant slug : reads (resolveTenant slug).
Proof. cbn. by intros []. Qed.

Lemma reads_listStores slug : reads (listStores collate_le slug).
Proof. cbn. by intros []. Qed.

Lemma reads_find_cluster slug id : reads (find_cluster collate_le slug id).
Proof. cbn. by intros []. Qed.

(** The programs of the service start with the lookup of the tenant. *)
Lemma wp_resolveTenant {R} slug (f : string → Prog R) (Q : Post R) W L db :
  (∀ T db', rely L db db' → wp (f T) Q W L db') → (∀ e db', Q (Throw e) W L db') →
  wp (resolveTenant slug ≫= f) Q W L db.
Proof. intros Hf He. apply wp_prog_bind, wp_reads; [apply reads_resolveTenant|]. intros [T|e] db' H; auto. Qed.

(** What a refused request leaves is rolled back. *)
Definition ends {R} (Q : (StoresDb → StoresDb) → gset Lockable → StoresDb → Prop) : Post R :=
  λ r W L db, match r with Ok _ => Q W L db | Throw _ => True end.
Definition guaranteed : (StoresDb → StoresDb) → gset Lockable → StoresDb → Prop := λ W L db, guarantee L db (W db).

Lemma wp_discard {R} (p : Prog R) db : wp p (ends guaranteed) id ∅ db → wp (discard p) fin id ∅ db.
Proof.
  intros H. apply wp_prog_bind. revert H. generalize (id : StoresDb → StoresDb), (∅ : gset Lockable), db.
  induction p as [[a|e]|A s k IH]; cbn; intros W L d H; intros; [|done|by apply IH, H].
  apply H. by etrans.
Qed.

Lemma guarantee_refl L d : guarantee L d d.
Proof. apply guarantee_quiet; [by split|]. intros i s Hs _. by exists s. Qed.

Lemma reads_guaranteed {R} (p : Prog R) L db : reads p → wp p (ends guaranteed) id L db.
Proof. intros Hp. apply wp_reads; [done|]. intros [a|e] db' _; [apply guarantee_refl|done]. Qed.

Lemma checkQuota_wp T id (Q : Post unit) db :
  (∀ db', quota_free T id db' → Q (Ok ()) Datatypes.id (∅ ∪ {[ TenantRow T ]} ∪ {[ StoreRowOf id ]}) db') →
  (∀ e W L db', Q (Throw e) W L db') → wp (checkQuota T id) Q Datatypes.id ∅ db.
Proof.
  intros HQ HT. apply wp_prog_bind, wp_stmt. intros s0 c0 d0 _ _ _. cbn [row_locks]. apply wp_prog_bind, wp_stmt.
  intros sn cur db' Hsn Hcur Hdb. cbn in *. unfold Datatypes.id in *. cbn in *.
  destruct (find_live sn T id) as [pre|]; [|intros ? _; apply HT].
  destruct (find_live cur T id) as [st|] eqn:Hl; [|intros ? _; apply HT].
  destruct (rely_tenant _ _ _ Hcur T) as [Ha Hlim]; [set_solver|].
  destruct (sd_limits sn !! T) as [lim|] eqn:Hs; [|intros ? _; apply HT]. cbn.
  set (n := Z.of_nat (size (active_ids sn T ∖ {[ id ]}))).
  assert (Hok : (∀ l, lim = Some l → st_active st = true ∨ n < l) → ∀ d', rely (∅ ∪ {[ TenantRow T ]} ∪ {[ StoreRowOf id ]}) db' d' → quota_free T id d').
  { intros Hn d' Hd. eapply (quota_free_rely _ T id cur); [| |by etrans|]; [set_solver..|].
    exists st. split; [done|]. destruct (st_active st) eqn:Hst; [by left|right]. rewrite Hlim. intros l [= ->].
    destruct (Hn l eq_refl) as [|Hlt]; [done|].
    assert (size (active_ids cur T ∖ {[ id ]}) ≤ size (active_ids sn T ∖ {[ id ]}))%nat by (apply subseteq_size; set_solver). lia. }
  destruct lim as [l|]; cbn; [|intros d' Hd; apply HQ, Hok; done].
  destruct (negb (st_active st) && (l <=? n)) eqn:Hc; cbn; [by intros; apply HT|].
  intros d' Hd. apply HQ, Hok; [|done]. intros ? [= <-].
  apply andb_false_iff in Hc as [Hc%negb_false_iff|Hc%Z.leb_gt]; auto.
Qed.

Lemma sets_of_dto (dto : UpdateStoreDto) : activates dto = true ↔ du_active dto = Some true.
Proof. unfold activates. by rewrite bool_decide_eq_true. Qed.

Lemma find_live_rely L T id a b : StoreRowOf id ∈ L → rely L a b → find_live b T id = find_live a T id.
Proof. intros Hid [_ _ Hs]. unfold find_live. by rewrite Hs. Qed.

Section Update.
Variables (T id : string) (dto : UpdateStoreDto).
Let p : StorePatch := {| sp_active := du_active dto; sp_clusterId := du_clusterId dto |}.

(** The store's row patched, whether its rows were removed or not. *)
Lemma patched_guarantee L d d' st :
  StoreRowOf id ∈ L → find_live d T id = Some st →
  (activates dto = true → TenantRow T ∈ L ∧ quota_free T id d) →
  sd_stores d' = sd_stores (patched_db id p d) → sd_limits d' = sd_limits d → sd_items d' ⊆ sd_items d →
  (activates dto = true → st_active st = false → ∀ x, (x, id) ∉ sd_items d') → guarantee L d d'.
Proof.
  intros Hid Hst Hact Hs Hl Hi Hc. destruct (activates dto) eqn:Ha.
  - destruct (Hact eq_refl). eapply guarantee_activation; eauto.
  - apply guarantee_quiet; [by eapply patched_touches|]. apply (patched_no_activation id p); [|done].
    cbn. rewrite <-sets_of_dto. congruence.
Qed.

(** The update and what follows it, with the store free to become active if
    the update activates it. *)
Lemma update_wp {R} (rest : Prog R) L db : reads rest →
  (activates dto = true → TenantRow T ∈ L ∧ StoreRowOf id ∈ L ∧ quota_free T id db) →
  wp (updated ← stmt (UpdateStoreRow T id p);
      match updated with
      | None => p_throw (store_not_found id)
      | Some wasActive => (if activates dto && negb wasActive then stmt (DeleteItems id) else mret ());; rest
      end) (ends guaranteed) Datatypes.id L db.
Proof.
  intros Hrest Hact. apply wp_prog_bind, wp_stmt. intros sn cur db' Hsn Hcur Hdb. cbn in *. unfold Datatypes.id in *. cbn in *.
  destruct (find_live sn T id) as [pre|] eqn:Hpre; [|done].
  destruct (find_live cur T id) as [st|] eqn:Hst; [|done].
  set (L' := L ∪ {[ StoreRowOf id ]}) in *. assert (Hid : StoreRowOf id ∈ L') by set_solver.
  assert (Hnow : ∀ d, rely L' cur d → find_live d T id = Some st ∧ (activates dto = true → TenantRow T ∈ L' ∧ quota_free T id d)).
  { intros d Hd. split; [by rewrite (find_live_rely L' _ _ cur)|]. intros Ha. destruct (Hact Ha) as (HT & Hin & Hq).
    split; [set_solver|]. eapply (quota_free_rely L'); [set_solver..|exact Hd|].
    eapply (quota_free_rely L); [done..|etrans; [exact Hsn|exact Hcur]|exact Hq]. }
  apply wp_prog_bind. destruct (activates dto && negb (st_active pre)) eqn:Hd.
  - apply wp_stmt. intros s1 c1 d1 H1 H2 H3. cbn. rewrite (right_id_L ∅ (∪)) in *. apply wp_reads; [done|].
    intros [a|e] d H4; [|done]. destruct (Hnow d) as [Hl Hq]; [by do 4 (etrans; [eassumption|])|].
    unfold ends, guaranteed. eapply patched_guarantee; try done.
    + cbn. set_solver.
    + intros _ _ x. cbn. rewrite elem_of_difference, elem_of_filter. cbn. intros [Hin Hout]. apply Hout. split; [done|].
      assert (rely L' s1 d) as [Hi _ _]; [by do 2 (etrans; [eassumption|])|]. by apply Hi.
  - apply wp_prog_ret. intros d1 H1. apply wp_reads; [done|]. intros [a|e] d H2; [|done].
    destruct (Hnow d) as [Hl Hq]; [by do 2 (etrans; [eassumption|])|].
    unfold ends, guaranteed. eapply patched_guarantee; try done.
    intros Ha Hf. rewrite Ha in Hd. cbn in Hd. apply negb_false_iff in Hd.
    destruct (Hact Ha) as (_ & Hin & _). rewrite (find_live_rely L _ _ sn) in Hst by done. congruence.
Qed.
End Update.

Lemma updateStore_wp slug id dto db : wp (updateStore collate_le slug id dto) (ends guaranteed) Datatypes.id ∅ db.
Proof.
  apply wp_on_result. apply (wp_prog_mono _ (ends guaranteed)); [intros [] ????; cbn; repeat case_decide; done|].
  unfold applyUpdate. destruct (_ && _); [done|]. apply wp_resolveTenant; [|done]. intros T d0 _.
  apply wp_prog_bind, wp_reads; [destruct (mjoin _); [|done]; cbn; by intros []|]. intros [[]|e] d1 _; [|done].
  apply wp_prog_bind. assert (activates dto = true ∨ activates dto = false) as [Ha|Ha] by (destruct (activates dto); auto); rewrite Ha at 1.
  - apply checkQuota_wp; [|done]. intros d2 Hq. apply update_wp; [cbn; by intros []|]. intros _. split; [set_solver|]. split; [set_solver|done].
  - apply wp_prog_ret. intros d2 _. apply update_wp; [cbn; by intros []|]. congruence.
Qed.

Lemma clusters_guarantee f L d : guarantee L d (set_store_clusters f d).
Proof. apply guarantee_quiet; [by split|]. intros i s Hs _. by exists s. Qed.

Lemma createCluster_wp slug id name now db : wp (createCluster collate_le slug id name now) (ends guaranteed) Datatypes.id ∅ db.
Proof.
  apply wp_resolveTenant; [|done]. intros T d0 _. apply wp_prog_bind, wp_stmt. intros sn cur d1 _ _ _. cbn [effect row_locks].
  apply wp_reads; [apply reads_find_cluster|]. intros [a|e] d2 _; [apply clusters_guarantee|done].
Qed.

Lemma rename_effect_guarantee T id name now sn cur L d :
  guarantee L d (effect (RenameClusterRow T id name now) sn cur d).
Proof. cbn. destruct (live_cluster_row cur T id); [apply clusters_guarantee|apply guarantee_refl]. Qed.

Lemma renameCluster_wp slug id name now db : wp (renameCluster collate_le slug id name now) (ends guaranteed) Datatypes.id ∅ db.
Proof.
  apply wp_resolveTenant; [|done]. intros T d0 _. apply wp_prog_bind, wp_stmt. intros sn cur d1 _ _ _.
  destruct (answer _ _ _); [|done]. apply wp_reads; [apply reads_find_cluster|].
  intros [a|e] d2 _; [apply rename_effect_guarantee|done].
Qed.

Definition detached_rows (rows : gset string) (m : gmap string TenantStore) : gmap string TenantStore :=
  map_imap (λ id s, Some (if decide (id ∈ rows) then patched_store detach s else s)) m.

Lemma detached_lookup rows m i : detached_rows rows m !! i = (λ s, if decide (i ∈ rows) then patched_store detach s else s) <$> m !! i.
Proof. unfold detached_rows. rewrite map_lookup_imap. by destruct (m !! i). Qed.

Lemma detach_guarantee (rows : gset string) f L d : (∀ i, i ∈ rows → StoreRowOf i ∈ L) →
  guarantee L d (set_stores (detached_rows rows) (set_store_clusters f d)).
Proof.
  intros HL. apply guarantee_quiet.
  - split; [done..|]. intros i Hi. cbn. rewrite detached_lookup. destruct (sd_stores d !! i); cbn; [|done].
    rewrite decide_False by auto. done.
  - intros i s' Hs Ha. cbn in Hs. rewrite detached_lookup in Hs. apply fmap_Some in Hs as (s & Hs & ->). exists s.
    split; [done|]. by destruct (decide (i ∈ rows)).
Qed.

Lemma deleteCluster_wp slug id now db : wp (deleteCluster slug id now) (ends guaranteed) Datatypes.id ∅ db.
Proof.
  apply wp_resolveTenant; [|done]. intros T d0 _. apply wp_prog_bind, wp_stmt. intros sn cur d1 _ _ _. cbn [answer effect row_locks].
  destruct (live_cluster_row _ T id) as [c|]; cbn [fmap option_fmap option_map]; [|done].
  apply wp_prog_bind, wp_stmt. intros s1 c1 d2 _ _ _. apply wp_prog_ret. intros d3 _. cbn.
  apply (detach_guarantee (members_in _ T id ∩ members_in _ T id) (alter (deleted_cluster now) id)). set_solver.
Qed.

Lemma updateStoreLimit_wp slug limit db : wp (updateStoreLimit slug limit) fin Datatypes.id ∅ db.
Proof.
  apply wp_prog_bind, wp_reads; [done|]. intros [row|e] d0 _; [|done]. destruct row as [T|]; [|done].
  apply wp_stmt. intros sn cur d1 _ _ _. cbn. apply guarantee_quiet.
  - split; [done| |done]. intros T' HT'. cbn. apply lookup_alter_ne. set_solver.
  - intros i s Hs _. by exists s.
Qed.

Lemma requests_wp p db : StoreRequest collate_le p → wp p fin Datatypes.id ∅ db.
Proof.
  intros [slug|slug id dto|slug|slug|slug id name now|slug id name now|slug id now|slug limit]; try apply wp_discard.
  - apply reads_guaranteed, reads_listStores.
  - apply updateStore_wp.
  - apply reads_guaranteed. cbn. by intros [].
  - apply reads_guaranteed. cbn. by intros [].
  - apply createCluster_wp.
  - apply renameCluster_wp.
  - apply deleteCluster_wp.
  - apply updateStoreLimit_wp.
Qed.
End Requests.

(* ------------------------------------------------------------------ *)
(** * Schedules                                                         *)
(* ------------------------------------------------------------------ *)

Inductive Act :=
| ABegin (i : nat) (p : Prog unit)
| AStart (i : nat)
| AFinish (i : nat)
| ACommit (i : nat)
| ARollback (i : nat)
| ASync (id tenantId : string) (externalId : Z) (name cnpj : string).

Definition run_act (g : Global) (a : Act) : option Global :=
  match a with
  | ABegin i p => match g_txns g !! i with None => Some (put_txn i (begin_txn p) g) | Some _ => None end
  | AStart i => t ← g_txns g !! i; t' ← start_stmt (g_db g) t; Some (put_txn i t' g)
  | AFinish i => t ← g_txns g !! i; t' ← finish_stmt (locks_of (delete i (g_txns g))) (g_db g) t; Some (put_txn i t' g)
  | ACommit i => t ← g_txns g !! i;
      match tx_prog t with
      | Ret (Ok _) => Some (Build_Global (tx_writes t (g_db g)) (delete i (g_txns g))) | _ => None end
  | ARollback i => Some (Build_Global (g_db g) (delete i (g_txns g)))
  | ASync id T e name cnpj =>
      if decide (StoreRowOf id ∈ locks_of (g_txns g)) then None else Some (sync_row id T e name cnpj g)
  end.

Fixpoint run_acts (l : list Act) (g : Global) : option Global :=
  match l with [] => Some g | a :: l => g' ← run_act g a; run_acts l g' end.

Definition begins (handler : Prog unit → Prop) (a : Act) : Prop := match a with ABegin _ p => handler p | _ => True end.

Lemma run_act_step handler g a g' : begins handler a → run_act g a = Some g' → step handler g g'.
Proof.
  destruct a as [i p|i|i|i|i|]; cbn; intros Ha H.
  - destruct (g_txns g !! i) eqn:Hi; simplify_eq. by constructor.
  - repeat (apply bind_Some in H as (? & ? & H)). simplify_eq. econstructor; eauto.
  - repeat (apply bind_Some in H as (? & ? & H)). simplify_eq. eapply step_finish; eauto.
  - apply bind_Some in H as (t & Ht & H). destruct (tx_prog t) as [[u|]|] eqn:Hp; simplify_eq. econstructor; eauto.
  - simplify_eq. constructor.
  - destruct (decide _); simplify_eq. by constructor.
Qed.

Lemma run_acts_steps handler l g g' : Forall (begins handler) l → run_acts l g = Some g' → rtc (step handler) g g'.
Proof.
  intros Hl. revert g. induction Hl as [|a l Ha Hl IH]; cbn; intros g H; simplify_eq; [reflexivity|].
  apply bind_Some in H as (g1 & H1 & H). eapply rtc_l; eauto using run_act_step.
Qed.

(* ------------------------------------------------------------------ *)
(** * A schedule of two activations                                     *)
(* ------------------------------------------------------------------ *)

(** Two inactive stores under a limit of one, a cluster, a frozen row. *)
Definition shop (n : Z) : TenantStore :=
  Build_TenantStore "t" n "shop" None false None false.
Definition demo_db : StoresDb :=
  {| sd_slugs := {[ "acme" := "t" ]}; sd_limits := {[ "t" := Some 1 ]};
     sd_stores := {[ "a" := shop 1; "b" := shop 2 ]};
     sd_clusters := {[ "c" := Build_StoreCluster "t" "north" 0 0 false ]};
     sd_items := {[ ("p", "a") ]} |}.

Definition demo_le (a b : string) : bool := true.
Definition activate_req (id : string) : Prog unit :=
  discard (updateStore demo_le "acme" id {| du_active := Some true; du_clusterId := None |}).
Definition run_stmt (i : nat) : list Act := [AStart i; AFinish i].
Fixpoint times (n : nat) (l : list Act) : list Act := match n with O => [] | S n => l ++ times n l end.

(** Both resolve their tenant; the second waits for the lock of the first. *)
Definition two_activations : list Act :=
  [ABegin 0 (activate_req "a"); ABegin 1 (activate_req "b")] ++ run_stmt 0 ++ run_stmt 1 ++ run_stmt 0 ++
  [AStart 1%nat] ++ times 5 (run_stmt 0).

Definition demo_state (l : list Act) : Global := default (opened demo_db) (run_acts l (opened demo_db)).
Definition runs (l : list Act) : bool := match run_acts l (opened demo_db) with Some _ => true | None => false end.

Lemma demo_reached l : Forall (begins (StoreRequest demo_le)) l → runs l = true →
  rtc (store_step demo_le) (opened demo_db) (demo_state l).
Proof.
  intros Hl Hr. apply (run_acts_steps _ l); [done|]. unfold demo_state, runs in *. by destruct (run_acts l (opened demo_db)).
Qed.

Lemma run_acts_snoc l a g : run_acts (l ++ [a]) g = (g' ← run_acts l g; run_act g' a).
Proof.
  revert g. induction l as [|b l IH]; intros g; cbn; [by destruct (run_act g a)|].
  destruct (run_act g b); cbn; auto.
Qed.

Lemma demo_step l a : begins (StoreRequest demo_le) a → runs (l ++ [a]) = true →
  store_step demo_le (demo_state l) (demo_state (l ++ [a])).
Proof.
  intros Ha. unfold runs, demo_state. rewrite run_acts_snoc. destruct (run_acts l (opened demo_db)) as [g|]; cbn; [|done].
  destruct (run_act g a) eqn:H; cbn; [|done]. intros _. by eapply run_act_step.
Qed.

Lemma two_activations_begin : Forall (begins (StoreRequest demo_le)) two_activations.
Proof. repeat constructor; apply req_update. Qed.

(* ------------------------------------------------------------------ *)
(** * The quota and the frozen rows                                     *)
(* ------------------------------------------------------------------ *)

Lemma store_good collate_le d g : rtc (store_step collate_le) (opened d) g → good g.
Proof. apply good_reachable; [apply requests_wp|apply good_opened]. Qed.

(** [C9] However the store requests, the changes of the limit and the rows of
    the store synchronisation interleave (READ COMMITTED, row locks,
    rollbacks anywhere), a step that adds an active store to a tenant leaves
    it with at most as many active stores as its limit. *)
Theorem quota_never_exceeded collate_le d g g' T limit :
  rtc (store_step collate_le) (opened d) g → store_step collate_le g g' →
  sd_limits (g_db g') !! T = Some (Some limit) →
  active_ids (g_db g') T ⊆ active_ids (g_db g) T ∨ Z.of_nat (size (active_ids (g_db g') T)) ≤ limit.
Proof.
  intros Hr%store_good Hs. by apply (step_keeps (StoreRequest collate_le)).
Qed.

Lemma quota_never_exceeded_witness :
  let g := demo_state two_activations in let g' := demo_state (two_activations ++ [ACommit 0%nat]) in
  active_ids (g_db g) "t" = ∅ ∧ active_ids (g_db g') "t" = {[ "a" ]} ∧
  (active_ids (g_db g') "t" ⊆ active_ids (g_db g) "t" ∨ Z.of_nat (size (active_ids (g_db g') "t")) ≤ 1).
Proof.
  split; [vm_compute; reflexivity|]. split; [vm_compute; reflexivity|].
  apply (quota_never_exceeded demo_le demo_db).
  - apply demo_reached; [apply two_activations_begin|vm_compute; reflexivity].
  - apply demo_step; [exact I|vm_compute; reflexivity].
  - vm_compute. reflexivity.
Defined.

(** Over the same interleavings, a step after which a store that was
    inactive is active leaves no row of [product_item] of that store: no
    price frozen while it was inactive comes back. *)
Theorem activation_clears_items collate_le d g g' id s s' :
  rtc (store_step collate_le) (opened d) g → store_step collate_le g g' →
  sd_stores (g_db g) !! id = Some s → st_active s = false →
  sd_stores (g_db g') !! id = Some s' → st_active s' = true → ∀ product, (product, id) ∉ sd_items (g_db g').
Proof.
  intros Hr%store_good Hst. by apply (step_keeps (StoreRequest collate_le)).
Qed.


Lemma activation_clears_items_witness :
  let g := demo_state two_activations in let g' := demo_state (two_activations ++ [ACommit 0%nat]) in
  ("p", "a") ∈ sd_items (g_db g) ∧ ∀ product, (product, "a") ∉ sd_items (g_db g').
Proof.
  split; [refine (bool_decide_eq_true_1 _ _); vm_compute; reflexivity|].
  apply (activation_clears_items demo_le demo_db (demo_state two_activations) _ "a" (shop 1)
           {| st_tenantId := "t"; st_externalId := 1; st_name := "shop"; st_cnpj := None; st_active := true;
              st_clusterId := None; st_deleted := false |}).
  - apply demo_reached; [apply two_activations_begin|vm_compute; reflexivity].
  - apply demo_step; [exact I|vm_compute; reflexivity].
  - vm_compute. reflexivity.
  - reflexivity.
  - vm_compute. reflexivity.
  - reflexivity.
Defined.

(** The second request waits for the first; then it counts and is refused. *)
Lemma second_activation_refused :
  let g := demo_state (two_activations ++ [ACommit 0%nat; AFinish 1%nat] ++ run_stmt 1) in
  (λ t, match tx_prog t with Ret r => Some r | _ => None end) <$> g_txns g !! 1%nat =
  Some (Some (Throw (EConflict "store limit reached (1 active stores allowed)"))).
Proof. vm_compute. reflexivity. Qed.

(** Before the first commits, the second cannot go on. *)
Lemma second_activation_waits : runs (two_activations ++ [AFinish 1%nat]) = false.
Proof. vm_compute. reflexivity. Qed.

(* ------------------------------------------------------------------ *)
(** * A deleted cluster                                                 *)
(* ------------------------------------------------------------------ *)

Definition join_req : Prog unit :=
  discard (updateStore demo_le "acme" "a" {| du_active := None; du_clusterId := Some (Some "c") |}).
Definition delete_req : Prog unit := discard (deleteCluster "acme" "c" 1).

(** The store is put in the cluster after the cluster was found live and
    before the deletion could detach it. *)
Definition cluster_race : list Act :=
  [ABegin 0 join_req; ABegin 1 delete_req] ++ times 2 (run_stmt 0) ++ times 3 (run_stmt 1) ++ [ACommit 1%nat] ++
  times 3 (run_stmt 0) ++ [ACommit 0%nat].

(** [cluster_id is cleared so they don't dangle] does not hold of requests
    that run together. *)
Lemma store_in_deleted_cluster : ∃ g s c,
  rtc (store_step demo_le) (opened demo_db) g ∧ sd_stores (g_db g) !! "a" = Some s ∧ st_deleted s = false ∧
  st_clusterId s = Some "c" ∧ sd_clusters (g_db g) !! "c" = Some c ∧ sl_deleted c = true.
Proof.
  exists (demo_state cluster_race), (patched_store {| sp_active := None; sp_clusterId := Some (Some "c") |} (shop 1)),
    (deleted_cluster 1 (Build_StoreCluster "t" "north" 0 0 false)).
  split.
  { apply demo_reached; [|vm_compute; reflexivity]. repeat constructor; first [apply req_update | apply req_delete]. }
  repeat split; vm_compute; reflexivity.
Qed.

(* ------------------------------------------------------------------ *)
(** * The update of a store, alone                                      *)
(* ------------------------------------------------------------------ *)

Lemma head_filter_unique {A} (P : A → Prop) `{∀ x, Decision (P x)} (l : list A) x :
  x ∈ l → P x → (∀ y, y ∈ l → P y → y = x) → head (filter P l) = Some x.
Proof.
  intros Hx HP Hu. assert (x ∈ filter P l) as Hf by by apply list_elem_of_filter.
  destruct (filter P l) as [|y k] eqn:Hk; [by apply not_elem_of_nil in Hf|]. cbn. f_equal.
  assert (y ∈ filter P l) as [Hy1 Hy2]%list_elem_of_filter by (rewrite Hk; left). auto.
Qed.

Lemma listed_store collate_le T d id st : find_live d T id = Some st →
  head (filter (λ s, sa_id s = id) (store_list collate_le T d)) = Some (mapStore d (id, st)).
Proof.
  intros Hst. pose proof (proj1 (find_live_Some d T id st) Hst) as (Hs & HT & Hd).
  assert (Hin : ∀ x, x ∈ store_list collate_le T d ↔ ∃ i s, x = mapStore d (i, s) ∧ sd_stores d !! i = Some s ∧ live_store T s = true).
  { intros x. unfold store_list. rewrite list_elem_of_fmap. split.
    - intros ((i & s) & -> & Hx). rewrite js_sort_perm, list_elem_of_filter, elem_of_map_to_list in Hx. naive_solver.
    - intros (i & s & -> & Hi & Hl). exists (i, s). split; [done|]. by rewrite js_sort_perm, list_elem_of_filter, elem_of_map_to_list. }
  apply head_filter_unique; [apply Hin|done|].
  - exists id, st. split; [done|]. split; [done|]. unfold live_store. by rewrite HT, Hd, String.eqb_refl.
  - intros y (i & s & -> & Hi & _)%Hin. cbn. intros ->. congruence.
Qed.

(** The tenant already has as many active stores as it may. *)
Definition quota_full (d : StoresDb) (T : string) : option Z :=
  match sd_limits d !! T with
  | Some (Some limit) => if limit <=? Z.of_nat (size (active_ids d T)) then Some limit else None
  | _ => None
  end.

Definition cleared (id : string) (d : StoresDb) : StoresDb := set_items (λ items, items ∖ filter (λ k, k.2 = id) items) d.

Definition missing_cluster (d : StoresDb) (T : string) (dto : UpdateStoreDto) : option string :=
  k ← mjoin (du_clusterId dto); match live_cluster_row d T k with Some _ => None | None => Some k end.

Lemma inactive_not_counted d T id st : find_live d T id = Some st → st_active st = false → active_ids d T ∖ {[ id ]} = active_ids d T.
Proof.
  intros (Hs & _)%find_live_Some Ha. apply set_eq. intros i. rewrite elem_of_difference, elem_of_singleton.
  split; [by intros []|]. intros Hi. split; [done|]. intros ->. apply elem_of_active_ids in Hi as (s & ? & Hc).
  apply counts_active_active in Hc. congruence.
Qed.

(** What [applyUpdate] does after the tenant and the cluster are known. *)
Definition apply_row (T id : string) (dto : UpdateStoreDto) (st : TenantStore) (d : StoresDb) : StoresDb :=
  let d' := patched_db id {| sp_active := du_active dto; sp_clusterId := du_clusterId dto |} d in
  if activates dto && negb (st_active st) then cleared id d' else d'.

Definition refused_for_quota (d : StoresDb) (T : string) (dto : UpdateStoreDto) (st : TenantStore) : option Z :=
  if activates dto && negb (st_active st) then quota_full d T else None.

Lemma solo_bind {R S} (p : Prog R) (f : R → Prog S) d :
  solo (p ≫= f) d = match solo p d with (Ok a, d') => solo (f a) d' | (Throw e, d') => (Throw e, d') end.
Proof. unfold mbind, Program_bind. revert d. induction p as [[a|e]|A s k IH]; cbn; intros d; auto. Qed.

Lemma solo_on_result {R} f (p : Prog R) d : solo (on_result f p) d = (f (solo p d).1, (solo p d).2).
Proof. revert d. induction p as [r|A s k IH]; cbn; intros d; auto. Qed.

Lemma solo_resolveTenant slug d : solo (resolveTenant slug) d =
  (match sd_slugs d !! slug with Some T => Ok T | None => Throw (ENotFound ("tenant " +:+ slug +:+ " not found")) end, d).
Proof. cbn. by destruct (sd_slugs d !! slug). Qed.

Lemma solo_cluster T dto d : solo (match mjoin (du_clusterId dto) with Some k => assertCluster T k | None => mret () end) d =
  (match missing_cluster d T dto with Some k => Throw (ENotFound ("cluster " +:+ k +:+ " not found")) | None => Ok () end, d).
Proof. unfold missing_cluster. destruct (mjoin (du_clusterId dto)) as [k|]; cbn; [|done]. by destruct (live_cluster_row d T k). Qed.

Lemma solo_checkQuota T id dto d : is_Some (sd_limits d !! T) →
  solo (if activates dto then checkQuota T id else mret ()) d =
  (match find_live d T id with
   | None => if activates dto then Throw (store_not_found id) else Ok ()
   | Some st => match refused_for_quota d T dto st with
                | Some limit => Throw (EConflict ("store limit reached (" +:+ pretty limit +:+ " active stores allowed)"))
                | None => Ok () end
   end, d).
Proof.
  intros [lim Hlim]. unfold refused_for_quota. destruct (activates dto); [|by destruct (find_live d T id)].
  cbn. destruct (find_live d T id) as [st|] eqn:Hst; [|done]. rewrite Hlim. cbn. unfold quota_full. rewrite Hlim.
  destruct lim as [l|], (st_active st) eqn:Ha; cbn; try done.
  rewrite (inactive_not_counted d T id st) by done. by destruct (l <=? _).
Qed.

Lemma solo_update T id p d : solo (stmt (UpdateStoreRow T id p)) d =
  (Ok (st_active <$> find_live d T id), match find_live d T id with Some _ => patched_db id p d | None => d end).
Proof. cbn. by destruct (find_live d T id). Qed.

Lemma solo_delete id (b : bool) d : solo (if b then stmt (DeleteItems id) else mret ()) d = (Ok (), if b then cleared id d else d).
Proof. by destruct b. Qed.

Lemma solo_listStores collate_le slug d T : sd_slugs d !! slug = Some T → solo (listStores collate_le slug) d = (Ok (store_list collate_le T d), d).
Proof. intros H. cbn. by rewrite H. Qed.

Lemma find_live_apply_row T id dto st d : find_live d T id = Some st →
  find_live (apply_row T id dto st d) T id = Some (patched_store {| sp_active := du_active dto; sp_clusterId := du_clusterId dto |} st).
Proof.
  intros (Hs & HT & Hd)%find_live_Some. apply find_live_Some. split; [|done].
  unfold apply_row. destruct (_ && _); cbn; by rewrite lookup_alter_eq, Hs.
Qed.

(** What [applyUpdate] answers and leaves. *)
Definition update_outcome slug id dto d : Res (option StoreApi) * StoresDb :=
  if bool_decide (du_active dto = None) && bool_decide (du_clusterId dto = None)
  then (Throw (EBadRequest "no fields to update"), d)
  else match sd_slugs d !! slug with
       | None => (Throw (ENotFound ("tenant " +:+ slug +:+ " not found")), d)
       | Some T =>
           match missing_cluster d T dto, find_live d T id with
           | Some k, _ => (Throw (ENotFound ("cluster " +:+ k +:+ " not found")), d)
           | None, None => (Throw (store_not_found id), d)
           | None, Some st =>
               match refused_for_quota d T dto st with
               | Some limit => (Throw (EConflict ("store limit reached (" +:+ pretty limit +:+ " active stores allowed)")), d)
               | None =>
                   let d' := apply_row T id dto st d in
                   (Ok (Some (mapStore d' (id, patched_store {| sp_active := du_active dto; sp_clusterId := du_clusterId dto |} st))), d')
               end
           end
       end.

Lemma solo_applyUpdate collate_le slug id dto d :
  (∀ T, sd_slugs d !! slug = Some T → is_Some (sd_limits d !! T)) →
  solo (applyUpdate collate_le slug id dto) d = update_outcome slug id dto d.
Proof.
  intros Hlim. unfold applyUpdate, update_outcome. destruct (_ && _); [done|].
  rewrite solo_bind, solo_resolveTenant. destruct (sd_slugs d !! slug) as [T|] eqn:HT; [|done].
  rewrite solo_bind, solo_cluster. destruct (missing_cluster d T dto); [done|].
  rewrite solo_bind, solo_checkQuota by auto. destruct (find_live d T id) as [st|] eqn:Hst.
  - destruct (refused_for_quota d T dto st); [done|].
    rewrite solo_bind, solo_update, Hst. cbn [fmap option_fmap option_map].
    rewrite solo_bind, solo_delete. fold (apply_row T id dto st d).
    rewrite solo_bind, (solo_listStores _ _ _ T); [|unfold apply_row; by destruct (_ && _)].
    cbn. by rewrite (listed_store _ _ _ _ _ (find_live_apply_row T id dto st d Hst)).
  - destruct (activates dto); [done|]. by rewrite solo_bind, solo_update, Hst.
Qed.

Lemma update_outcome_throw slug id dto d e d' : update_outcome slug id dto d = (Throw e, d') → d' = d ∧ e ≠ lock_not_available.
Proof.
  unfold update_outcome. cbv zeta. intros H. repeat (case_match; [|]); simplify_eq; done.
Qed.

(** The update of a store, alone in the database, on every branch: no
    field, unknown tenant, unknown cluster, unknown store, quota reached by
    an activation; otherwise only that row changes, an activation removes
    its rows of [product_item], and the answer is the store as listed. *)
Theorem update_store_branches collate_le slug id dto d :
  (∀ T, sd_slugs d !! slug = Some T → is_Some (sd_limits d !! T)) →
  run_alone (updateStore collate_le slug id dto) d = update_outcome slug id dto d.
Proof.
  intros Hlim. unfold run_alone, updateStore. rewrite solo_on_result, solo_applyUpdate by done.
  destruct (update_outcome slug id dto d) as [[r|e] d'] eqn:H; cbn; [done|].
  apply update_outcome_throw in H as [-> He]. by rewrite decide_False.
Qed.

Lemma update_store_branches_witness :
  run_alone (updateStore demo_le "acme" "a" {| du_active := Some true; du_clusterId := None |}) demo_db =
  update_outcome "acme" "a" {| du_active := Some true; du_clusterId := None |} demo_db ∧
  (∃ d', (update_outcome "acme" "a" {| du_active := Some true; du_clusterId := None |} demo_db).2 = d' ∧ sd_items d' = ∅).
Proof.
  split.
  - apply update_store_branches. intros T. vm_compute. intros [= <-]. eexists. reflexivity.
  - eexists. split; [reflexivity|]. vm_compute. reflexivity.
Defined.
