(* ===== verification/CatalogReads.v ===== *)
(** The catalogue listings of a tenant ([tenant-api/catalog/
    catalog.service.ts], [common/multi-sort.ts], [common/
    competitor-origin-sql.ts]): grids, stock, active ingredients with their
    decision, CSV.

    PostgreSQL's [ILIKE], collation, date input and numeric division are
    arguments, and so is the order in which it returns rows with equal sort
    keys ([pg_order]), which may differ from one query to the next. *)

From Stdlib Require Import Ascii String.
From S2P Require Import Prelude JsText JsNumber JsDate Enums Messages World Classification SuggestionEngine PricingDb SuggestionRules Suggestions PricingApply Erp CatalogMutation TenantCatalog.
Open Scope string_scope.
Open Scope list_scope.
Open Scope Z_scope.

(* ------------------------------------------------------------------ *)
(** * multi-sort.ts                                                     *)
(* ------------------------------------------------------------------ *)

Inductive SortDirection := ASC | DESC.

(** One query parameter, repeated or not; a single text is a list of one. *)
Definition parseSortList (value : option (list string)) : option (list string) :=
  match value with
  | None => None
  | Some arr =>
      match filter (λ s, s ≠ "") (str_trim <$> (arr ≫= str_split ",")) with
      | [] => None
      | list => Some list
      end
  end.

Definition str_upper : string → string :=
  str_map (λ c, if is_lower c then ascii_of_N (N_of_ascii c - 32) else c).
Definition parseSortDirectionList (value : option (list string)) : option (list string) :=
  match parseSortList value with Some l => Some (map str_upper l) | None => None end.

Definition direction_of (s : option string) : SortDirection :=
  if bool_decide (s = Some "DESC") then DESC else ASC.

Definition buildMultiSortClause {C} (sortBy sortDirection : option (list string)) (columnMap : string → option C)
    (fallback : list (C * SortDirection)) : list (C * SortDirection) :=
  match sortBy with
  | None | Some [] => fallback
  | Some l =>
      let parts := omap (λ x : Z * string,
                     column ← columnMap x.2;
                     Some (column, direction_of (default [] sortDirection !! Z.to_nat x.1))) (number_from 0 l) in
      match parts with [] => fallback | _ => parts end
  end.

(* ------------------------------------------------------------------ *)
(** * SQL values                                                        *)
(* ------------------------------------------------------------------ *)

Inductive SqlVal := VNum (n : Numeric) | VText (s : string) | VInt (z : Z).

Definition num_cmp (a b : Numeric) : comparison :=
  Z.compare (nm_unscaled a * 10 ^ Z.of_nat (nm_scale b)) (nm_unscaled b * 10 ^ Z.of_nat (nm_scale a)).

(** The text of a numeric. *)
Definition numeric_text (n : Numeric) : string :=
  let m := Z.abs (nm_unscaled n) in let k := 10 ^ Z.of_nat (nm_scale n) in
  (if nm_unscaled n <? 0 then "-" else "") +:+ pretty (m / k) +:+
  match nm_scale n with O => "" | s => "." +:+ dec_pad s (m mod k) end.

Definition rescale (k : nat) (n : Numeric) : Z := nm_unscaled n * 10 ^ (Z.of_nat k - Z.of_nat (nm_scale n)).
Definition numeric_sub (a b : Numeric) : Numeric :=
  let k := Nat.max (nm_scale a) (nm_scale b) in Num (rescale k a - rescale k b) k.
Definition numeric_mul (a b : Numeric) : Numeric :=
  Num (nm_unscaled a * nm_unscaled b) (nm_scale a + nm_scale b).
(** [ROUND(x, s)]: half away from zero. *)
Definition numeric_round (s : nat) (n : Numeric) : Numeric :=
  if (nm_scale n <=? s)%nat then Num (rescale s n) s
  else let d := 10 ^ (Z.of_nat (nm_scale n) - Z.of_nat s) in
       Num (Z.sgn (nm_unscaled n) * ((2 * Z.abs (nm_unscaled n) + d) / (2 * d))) s.

(** [NULLIF(x, 0)] *)
Definition nullif_zero (x : option Numeric) : option Numeric :=
  n ← x; if nm_unscaled n =? 0 then None else Some n.

(* ------------------------------------------------------------------ *)
(** * Requests and answers                                              *)
(* ------------------------------------------------------------------ *)

Record ListProductsQuery (N : Type) := {
  lq_page : option Z; lq_perPage : option Z;
  lq_name : option string; lq_supplier : option string; lq_classification : option string;
  lq_status : option string; lq_eans : option string; lq_caderno : option string;
  lq_monitored : option string; lq_active : option string;
  lq_receiptFrom : option string; lq_receiptTo : option string;
  lq_activeIngredient : option string;
  lq_sortBy : option (list string); lq_sortDirection : option (list string);
  lq_store : option string; lq_tolerance : option N; lq_decision : option string;
}.
Arguments Build_ListProductsQuery {N}.
Arguments lq_page {N}. Arguments lq_perPage {N}. Arguments lq_name {N}. Arguments lq_supplier {N}.
Arguments lq_classification {N}. Arguments lq_status {N}. Arguments lq_eans {N}. Arguments lq_caderno {N}.
Arguments lq_monitored {N}. Arguments lq_active {N}. Arguments lq_receiptFrom {N}. Arguments lq_receiptTo {N}.
Arguments lq_activeIngredient {N}. Arguments lq_sortBy {N}. Arguments lq_sortDirection {N}.
Arguments lq_store {N}. Arguments lq_tolerance {N}. Arguments lq_decision {N}.

Record Paginated (T : Type) := { pg_rows : list T; pg_count : Z; pg_page : Z; pg_perPage : Z }.
Arguments Build_Paginated {T}.
Arguments pg_rows {T}. Arguments pg_count {T}. Arguments pg_page {T}. Arguments pg_perPage {T}.

Definition DEFAULT_PER_PAGE : Z := 50.
Definition MAX_PER_PAGE : Z := 200.

Definition paginate {N} (q : ListProductsQuery N) : Z * Z * Z :=
  let page := default 1 (lq_page q) in
  let perPage := Z.min (default DEFAULT_PER_PAGE (lq_perPage q)) MAX_PER_PAGE in
  (page, perPage, (page - 1) * perPage).

Definition csv (v : option string) : list string :=
  match truthy v with
  | Some s => filter (λ x, x ≠ "") (str_trim <$> str_split "," s)
  | None => []
  end.

Record StockMetrics := { sm_total : Z; sm_ownWithStock : Z }.
Record StoreOption := { so_storeId : option string; so_storeExternalId : string; so_label : string; so_active : option bool }.

Inductive GroupDecision := subir | abaixar | decision_ok | mix | sem_estoque.
#[export] Instance GroupDecision_eq_dec : EqDecision GroupDecision.
Proof. solve_decision. Defined.
Definition DECISIONS : list GroupDecision := [subir; abaixar; decision_ok; mix; sem_estoque].
Definition decision_str (d : GroupDecision) : string :=
  match d with subir => "subir" | abaixar => "abaixar" | decision_ok => "ok" | mix => "mix" | sem_estoque => "sem-estoque" end.

Record DecisionInput (N : Type) := {
  di_combate : option (N * option N); di_lowestCost : option N; di_competitorPrice : option N; di_tolerance : N;
}.
Arguments Build_DecisionInput {N}.
Arguments di_combate {N}. Arguments di_lowestCost {N}. Arguments di_competitorPrice {N}. Arguments di_tolerance {N}.

Record MappedCompetitor (N : Type) := {
  mc_origin : string; mc_price : option N; mc_observation : option string; mc_isPbm : bool; mc_van : option string;
}.
Arguments Build_MappedCompetitor {N}.
Arguments mc_origin {N}. Arguments mc_price {N}. Arguments mc_observation {N}. Arguments mc_isPbm {N}. Arguments mc_van {N}.

(** A row of the ingredient query. *)
Record VariantRow (N : Type) := {
  vr_ai : string; vr_ean : Z; vr_name : option string;
  vr_price : option Numeric; vr_cost : option Numeric; vr_margin : option Numeric; vr_stockInStore : Z;
  vr_competitorOrigin : option string; vr_competitorPrice : option Numeric; vr_priceOffer : option Numeric;
  vr_competitors : list (MappedCompetitor N);
}.
Arguments Build_VariantRow {N}.
Arguments vr_ai {N}. Arguments vr_ean {N}. Arguments vr_name {N}. Arguments vr_price {N}. Arguments vr_cost {N}.
Arguments vr_margin {N}. Arguments vr_stockInStore {N}. Arguments vr_competitorOrigin {N}.
Arguments vr_competitorPrice {N}. Arguments vr_priceOffer {N}. Arguments vr_competitors {N}.

Record Variant (N : Type) := {
  va_ean : string; va_name : option string; va_price : option N; va_cost : option N; va_margin : option N;
  va_priceOffer : option N; va_stockInStore : Z; va_isCombate : bool; va_competitors : list (MappedCompetitor N);
}.
Arguments Build_Variant {N}.
Arguments va_ean {N}. Arguments va_name {N}. Arguments va_price {N}. Arguments va_cost {N}. Arguments va_margin {N}.
Arguments va_priceOffer {N}. Arguments va_stockInStore {N}. Arguments va_isCombate {N}. Arguments va_competitors {N}.

Record IngredientGroup (N : Type) := {
  ig_activeIngredient : string;
  ig_decision : GroupDecision;
  ig_targetPrice : option N;
  ig_priceOffer : option N;
  ig_combate : option (string * option string * option N * option N);
  ig_lowestCost : option (string * option N);
  ig_competitorCombate : option (string * N);
  ig_variants : list (Variant N);
}.
Arguments Build_IngredientGroup {N}.
Arguments ig_activeIngredient {N}. Arguments ig_decision {N}. Arguments ig_targetPrice {N}. Arguments ig_priceOffer {N}.
Arguments ig_combate {N}. Arguments ig_lowestCost {N}. Arguments ig_competitorCombate {N}. Arguments ig_variants {N}.

(* ------------------------------------------------------------------ *)
(** * deriveDecision, buildGroup                                        *)
(* ------------------------------------------------------------------ *)

Section Decisions.
Context {N : Type} `{JsNum N}.
Open Scope js_scope.

Definition deriveDecision (i : DecisionInput N) : GroupDecision :=
  match di_combate i with
  | None => sem_estoque
  | Some (price, cost) =>
      if match di_lowestCost i, cost with Some lc, Some c => lc <? c | _, _ => false end then mix
      else match di_competitorPrice i with
           | None => decision_ok
           | Some cp =>
               let tol := di_tolerance i / n_int 100 in
               if price <? cp * (n_int 1 - tol) then subir
               else if cp * (n_int 1 + tol) <? price then abaixar
               else decision_ok
           end
  end.

(** Accumulators of the loop over the variants. *)
Definition num_or_inf (v : option Numeric) : N := default (n_inf false) (num_of v).

Definition next_combate (combate : option (VariantRow N)) (v : VariantRow N) : option (VariantRow N) :=
  match num_of (vr_price v) with
  | Some price =>
      if (n_int 0 <? price) && (0 <? vr_stockInStore v)%Z then
        match combate with
        | None => Some v
        | Some b => if price <? num_or_inf (vr_price b) then Some v else combate
        end
      else combate
  | None => combate
  end.

Definition next_lowest (lowest : option (VariantRow N)) (v : VariantRow N) : option (VariantRow N) :=
  match num_of (vr_cost v) with
  | Some cost =>
      match lowest with
      | None => Some v
      | Some b => if cost <? num_or_inf (vr_cost b) then Some v else lowest
      end
  | None => lowest
  end.

Definition next_competitor (competitor : option (string * N)) (v : VariantRow N) : option (string * N) :=
  match num_of (vr_competitorPrice v), truthy (vr_competitorOrigin v) with
  | Some cp, Some origin =>
      if n_int 0 <? cp then
        match competitor with
        | None => Some (origin, cp)
        | Some (_, b) => if cp <? b then Some (origin, cp) else competitor
        end
      else competitor
  | _, _ => competitor
  end.

(** [Math.min(...l)] *)
Definition math_min_of (l : list N) : option N :=
  match l with [] => None | x :: l => Some (foldl (λ m y, if y <? m then y else m) x l) end.

Definition positive_num (v : option N) : option N := n ← v; if n_int 0 <? n then Some n else None.

Definition buildGroup (ai : string) (vs : list (VariantRow N)) (tolerance : N) : IngredientGroup N :=
  let combate := foldl next_combate None vs in
  let lowestCost := foldl next_lowest None vs in
  let competitor := foldl next_competitor None vs in
  {| ig_activeIngredient := ai;
     ig_decision := deriveDecision
       {| di_combate := b ← combate; price ← num_of (vr_price b); Some (price, num_of (vr_cost b));
          di_lowestCost := b ← lowestCost; num_of (vr_cost b);
          di_competitorPrice := snd <$> competitor;
          di_tolerance := tolerance |};
     ig_targetPrice := math_min_of (omap (λ v, positive_num (num_of (vr_price v))) vs);
     ig_priceOffer := b ← combate; positive_num (num_of (vr_priceOffer b));
     ig_combate := (λ b, (ean_text (vr_ean b), vr_name b, num_of (vr_price b), num_of (vr_cost b))) <$> combate;
     ig_lowestCost := (λ b, (ean_text (vr_ean b), num_of (vr_cost b))) <$> lowestCost;
     ig_competitorCombate := competitor;
     ig_variants := (λ v,
       {| va_ean := ean_text (vr_ean v); va_name := vr_name v; va_price := num_of (vr_price v);
          va_cost := num_of (vr_cost v); va_margin := num_of (vr_margin v); va_priceOffer := num_of (vr_priceOffer v);
          va_stockInStore := vr_stockInStore v;
          va_isCombate := bool_decide (vr_ean <$> combate = Some (vr_ean v));
          va_competitors := vr_competitors v |}) <$> vs |}.

(** The [Map] of the rows by ingredient. *)
Definition byIng (rows : list (VariantRow N)) : list (string * list (VariantRow N)) :=
  foldl (λ m r, js_map_set (vr_ai r) (default [] (js_map_get (vr_ai r) m) ++ [r]) m) [] rows.

Definition groups_of (rows : list (VariantRow N)) (tolerance : N) : list (IngredientGroup N) :=
  (λ g, buildGroup g.1 g.2 tolerance) <$> byIng rows.
End Decisions.

(* ------------------------------------------------------------------ *)
(** * The queries                                                       *)
(* ------------------------------------------------------------------ *)

(** The catalogue and [metadata->>'observation'] of
    [shared_catalog.product]. *)
Record CatalogView (N : Type) := { cw_sync : SyncDb N; cw_observation : gmap (Z * string) string }.
Arguments Build_CatalogView {N}.
Arguments cw_sync {N}. Arguments cw_observation {N}.

(** Rows of the grids. *)
Record GridRow (N : Type) := {
  gr_ean : string; gr_name : option string; gr_supplier : option string; gr_classification : option string;
  gr_book : option string; gr_cadernoId : option Z; gr_cost : option Numeric; gr_price : option Numeric;
  gr_priceOffer : option Numeric; gr_margin : option Numeric; gr_averageVariation : option Numeric;
  gr_status : option string; gr_active : bool; gr_monitored : bool; gr_receiptDate : option Z; gr_generic : bool;
  gr_deals : option (gmap string (ProductDeal N)); gr_competitors : list (MappedCompetitor N);
}.
Arguments Build_GridRow {N}.
Arguments gr_ean {N}. Arguments gr_name {N}. Arguments gr_supplier {N}. Arguments gr_classification {N}.
Arguments gr_book {N}. Arguments gr_cadernoId {N}. Arguments gr_cost {N}. Arguments gr_price {N}.
Arguments gr_priceOffer {N}. Arguments gr_margin {N}. Arguments gr_averageVariation {N}. Arguments gr_status {N}.
Arguments gr_active {N}. Arguments gr_monitored {N}. Arguments gr_receiptDate {N}. Arguments gr_generic {N}.
Arguments gr_deals {N}. Arguments gr_competitors {N}.

Record StockRow := {
  sw_ean : string; sw_name : option string; sw_classification : option string; sw_ownStock : Z;
  sw_ownByStore : option (list (Z * Z)); sw_stockStatus : string;
}.

Inductive Cell (N : Type) := CNull | CText (s : string) | CNumber (n : N).
Arguments CNull {N}. Arguments CText {N} s. Arguments CNumber {N} n.

(** A row of [FROM product p]: EAN and product; the joins are lookups by
    unique keys. *)
Definition Prod : Type := Z * ProductRow.

Section Reads.
Context {N : Type} `{JsNum N}.
Variable ilike : string → string → bool.
Variable collate_le : string → string → bool.
Variable date_cast : string → Res Z.
Variable pg_div : Numeric → Numeric → Numeric.
(** The order of the rows under [ORDER BY ... LIMIT limit OFFSET offset]. *)
Variable pg_order : (Prod → Prod → bool) → Z → Z → list Prod → list Prod.
Variable num_text : N → string.
Variable now : Z.
Variable d : CatalogView N.

Definition cat : Catalog N := sy_catalog (cw_sync d).
Definition extra (p : Prod) : ProductExtra N := default empty_extra (sy_extra (cw_sync d) !! p.1).

Definition book_of (p : Prod) : option OfferBookRow := ct_offerBook cat !! p.1.
Definition item_of (store : option string) (p : Prod) : option ItemRow := store_item cat store p.2.

Definition campaign_current (k : Z) : bool :=
  match ct_campaigns cat !! k with
  | Some toc => cp_active toc && (match cp_startDate toc with Some t => t <=? now | None => true end)
                && (match cp_expirationDate toc with Some t => now <? t | None => true end)
  | None => false
  end.

(** [PRICE_OFFER_EXPR] *)
Definition PRICE_OFFER_EXPR (p : Prod) : option Numeric :=
  ob ← book_of p;
  target ← of_target_price ob;
  if nm_unscaled target <=? 0 then None
  else match of_external_id ob with
       | None => Some target
       | Some k => if campaign_current k then Some target else None
       end.

Definition EFF_PRICE (store : option string) (p : Prod) : option Numeric := eff_price (item_of store p) p.2.
Definition EFF_COST (store : option string) (p : Prod) : option Numeric := eff_cost (item_of store p) p.2.
Definition EFF_BASE (store : option string) (p : Prod) : option Numeric :=
  COALESCE (nullif_zero (book_of p ≫= of_target_price)) (EFF_PRICE store p).
Definition EFF_MARGIN (store : option string) (p : Prod) : option Numeric :=
  base ← EFF_BASE store p;
  if 0 <? nm_unscaled base
  then Some (numeric_round 4 (numeric_mul (pg_div (numeric_sub base (default (Num 0 0) (EFF_COST store p))) base) (Num 100 0)))
  else None.
Definition EFF_PRICE_OFFER (store : option string) (p : Prod) : option Numeric :=
  match item_of store p with
  | None => PRICE_OFFER_EXPR p
  | Some pi => offer ← pi_price_offer pi; if 0 <? nm_unscaled offer then Some offer else None
  end.
Definition EFF_BOOK (store : option string) (p : Prod) : option string := eff_book (item_of store p) (book_of p).
Definition cadernoIdExpr (store : option string) (p : Prod) : option Z :=
  match store with
  | Some _ => item_of store p ≫= pi_offer_external_id
  | None => book_of p ≫= of_external_id
  end.
Definition class_name (p : Prod) : option string := classification_name cat (p_classificationId p.2).

Abbreviation Column := (Prod → option SqlVal).

(** [SORTABLE]; [None] of a key that is not in the map. *)
Definition SORTABLE (key : string) : option Column :=
  match key with
  | "ean" => Some (λ p, Some (VInt p.1))
  | "name" => Some (λ p, VText <$> p_name p.2)
  | "supplier" => Some (λ p, VText <$> p_supplier p.2)
  | "classification" => Some (λ p, VText <$> class_name p)
  | "book" => Some (λ p, VText <$> (book_of p ≫= of_description))
  | "cost" => Some (λ p, VNum <$> p_cost p.2)
  | "price" => Some (λ p, VNum <$> p_price p.2)
  | "margin" => Some (λ p, VNum <$> p_margin p.2)
  | "averageVariation" => Some (λ p, VNum <$> px_averageVariation (extra p))
  | "status" => Some (λ p, VText <$> p_status p.2)
  | "priceOffer" => Some (λ p, VNum <$> PRICE_OFFER_EXPR p)
  | "receiptDate" => Some (λ p, VInt <$> px_receiptDate (extra p))
  | _ => None
  end.

Definition SORTABLE_EFFECTIVE (store : option string) (key : string) : option Column :=
  match key with
  | "cost" => Some (λ p, VNum <$> EFF_COST store p)
  | "price" => Some (λ p, VNum <$> EFF_PRICE store p)
  | "margin" => Some (λ p, VNum <$> EFF_MARGIN store p)
  | "priceOffer" => Some (λ p, VNum <$> EFF_PRICE_OFFER store p)
  | "book" => Some (λ p, VText <$> EFF_BOOK store p)
  | _ => SORTABLE key
  end.

Definition SORTABLE_STOCK (key : string) : option Column :=
  match key with "book" | "priceOffer" => None | _ => SORTABLE key end.

Definition by_ean : list (Column * SortDirection) := [(λ p, Some (VInt p.1), ASC)].

(** Comparison of two values of a column. *)
Definition val_cmp (a b : SqlVal) : comparison :=
  match a, b with
  | VNum x, VNum y => num_cmp x y
  | VInt x, VInt y => Z.compare x y
  | VText x, VText y => match collate_le x y, collate_le y x with
                        | true, true => Eq | true, false => Lt | false, _ => Gt end
  | _, _ => Eq
  end.

(** Nulls are the largest values. *)
Definition null_cmp (a b : option SqlVal) : comparison :=
  match a, b with
  | Some x, Some y => val_cmp x y
  | None, None => Eq
  | Some _, None => Lt
  | None, Some _ => Gt
  end.

Fixpoint order_cmp (order : list (Column * SortDirection)) (a b : Prod) : comparison :=
  match order with
  | [] => Eq
  | (c, dir) :: order =>
      match (match dir with ASC => null_cmp (c a) (c b) | DESC => null_cmp (c b) (c a) end) with
      | Eq => order_cmp order a b
      | o => o
      end
  end.
Definition order_le (order : list (Column * SortDirection)) (a b : Prod) : bool :=
  match order_cmp order a b with Gt => false | _ => true end.

Definition orderBy (q : ListProductsQuery N) (map : string → option Column) : list (Column * SortDirection) :=
  buildMultiSortClause (lq_sortBy q) (lq_sortDirection q) map by_ean.

(* ------------------------------------------------------------------ *)
(** ** Filters                                                          *)
(* ------------------------------------------------------------------ *)

(** [column ILIKE '%text%'] when the text is given. *)
Definition contains (column text : option string) : bool :=
  match truthy text with
  | Some n => match column with Some t => ilike t ("%" +:+ n +:+ "%") | None => false end
  | None => true
  end.

Definition flag (value : option string) (b : bool) : bool :=
  if bool_decide (value = Some "true") then b
  else if bool_decide (value = Some "false") then negb b else true.

(** The clauses of [buildFilters], with the casts of their parameters. *)
Record Filters := {
  fi_eans : list Z; fi_cadernos : list Z; fi_from : option Z; fi_to : option Z;
}.

Definition opt_cast {A} (f : string → Res A) (v : option string) : Res (option A) :=
  match truthy v with Some s => a ← f s; Ok (Some a) | None => Ok None end.

Definition filter_params (q : ListProductsQuery N) : Res Filters :=
  eans ← ean_casts (csv (lq_eans q));
  from ← opt_cast date_cast (lq_receiptFrom q);
  upto ← opt_cast date_cast (lq_receiptTo q);
  cadernos ← ean_casts (csv (lq_caderno q));
  Ok {| fi_eans := eans; fi_cadernos := cadernos; fi_from := from; fi_to := upto |}.

Definition day_ok (test : Z → bool) (day : option Z) : bool :=
  match day with Some x => test x | None => false end.

Definition matches (q : ListProductsQuery N) (f : Filters) (store : option string) (p : Prod) : bool :=
  match fi_eans f with [] => true | l => bool_decide (p.1 ∈ l) end
  && contains (p_name p.2) (lq_name q)
  && contains (p_supplier p.2) (lq_supplier q)
  && contains (class_name p) (lq_classification q)
  && match csv (lq_status q) with [] => true | l => match p_status p.2 with Some s => bool_decide (s ∈ l) | None => false end end
  && flag (lq_monitored q) (p_monitored p.2)
  && flag (lq_active q) (p_active p.2)
  && match fi_from f with Some x => day_ok (λ r, x <=? r) (px_receiptDate (extra p)) | None => true end
  && match fi_to f with Some x => day_ok (λ r, r <=? x) (px_receiptDate (extra p)) | None => true end
  && match fi_cadernos f with
     | [] => true
     | l => match cadernoIdExpr store p with Some k => bool_decide (k ∈ l) | None => false end
     end.

Definition selected (q : ListProductsQuery N) (f : Filters) (store : option string) : list Prod :=
  filter (λ p, matches q f store p = true) (map_to_list (ct_products cat)).

(** One page of rows. *)
Definition page_rows (order : list (Column * SortDirection)) (limit offset : Z) (rows : list Prod) : list Prod :=
  take (Z.to_nat limit) (drop (Z.to_nat offset) (pg_order (order_le order) limit offset rows)).

(** [CatalogService.storeUuid] *)
Definition reads_storeUuid (slug : string) (store : option string) : Res (option string) :=
  match truthy store with
  | None => Ok None
  | Some s =>
      if negb (matches_digits 1 18 s) then Throw (EBadRequest "store must be a numeric store id")
      else
        tenantId ← resolveTenantId cat slug;
        Ok (fst <$> head (filter (λ '(_, st), String.eqb (ts_tenant_id st) tenantId && (ts_external_id st =? digits_val s)
                                    && ts_active st && negb (ts_deleted st) = true)
                            (map_to_list (ct_stores cat))))
  end.

Definition requireStore (q : ListProductsQuery N) : Res string :=
  match truthy (lq_store q) with
  | Some s => if matches_digits 1 18 s then Ok s else Throw (EBadRequest "store is required (numeric store id)")
  | None => Throw (EBadRequest "store is required (numeric store id)")
  end.

(* ------------------------------------------------------------------ *)
(** ** Competitors                                                      *)
(* ------------------------------------------------------------------ *)

Definition isKnownOrigin (origin : string) : bool := bool_decide (origin ∈ origin_str <$> all_origins).
Definition safeOrigins (origins : list string) : list string := filter (λ o, isKnownOrigin o = true) origins.

(** Which columns an endpoint maps. *)
Record CompetitorFields := { cf_observation : bool; cf_isPbm : bool; cf_van : bool }.

(** The [LEFT JOIN] of an origin and [mapCompetitorsFromRow]; a field that is
    not asked for is absent. *)
Definition mapCompetitor (fields : CompetitorFields) (p : Prod) (origin : string) : MappedCompetitor N :=
  let r := shared_of cat p.1 origin in
  {| mc_origin := origin; mc_price := num_of (r ≫= sh_price);
     mc_observation := if cf_observation fields then r ≫= (λ _, cw_observation d !! (p.1, origin)) else None;
     mc_isPbm := if cf_isPbm fields then match r with Some r => sh_isPbm r | None => false end else false;
     mc_van := if cf_van fields then r ≫= sh_van else None |}.
Definition mapCompetitors (fields : CompetitorFields) (origins : list string) (p : Prod) : list (MappedCompetitor N) :=
  mapCompetitor fields p <$> safeOrigins origins.

Definition grid_row (store : option string) (competitors : Prod → list (MappedCompetitor N)) (p : Prod) : GridRow N :=
  {| gr_ean := ean_text p.1; gr_name := p_name p.2; gr_supplier := p_supplier p.2; gr_classification := class_name p;
     gr_book := EFF_BOOK store p; gr_cadernoId := cadernoIdExpr store p; gr_cost := EFF_COST store p;
     gr_price := EFF_PRICE store p; gr_priceOffer := EFF_PRICE_OFFER store p; gr_margin := EFF_MARGIN store p;
     gr_averageVariation := px_averageVariation (extra p); gr_status := p_status p.2; gr_active := p_active p.2;
     gr_monitored := p_monitored p.2; gr_receiptDate := px_receiptDate (extra p);
     gr_generic := match sy_base (cw_sync d) !! p.1 with Some b => bs_generic b | None => false end;
     gr_deals := px_deals (extra p); gr_competitors := competitors p |}.

(** What [list], [crossed] and [strategicPrice] share. *)
Definition grid (q : ListProductsQuery N) (store : option string) (keep : Prod → bool)
    (competitors : Prod → list (MappedCompetitor N)) : Res (Paginated (GridRow N)) :=
  let '(page, perPage, offset) := paginate q in
  f ← filter_params q;
  let rows := filter (λ p, keep p = true) (selected q f store) in
  Ok {| pg_rows := grid_row store competitors <$> page_rows (orderBy q (SORTABLE_EFFECTIVE store)) perPage offset rows;
        pg_count := Z.of_nat (length rows); pg_page := page; pg_perPage := perPage |}.

(** [CatalogService.list] *)
Definition list_products (slug : string) (q : ListProductsQuery N) : Res (Paginated (GridRow N)) :=
  store ← reads_storeUuid slug (lq_store q);
  grid q store (λ _, true) (λ _, []).

Definition crossed (slug : string) (q : ListProductsQuery N) : Res (Paginated (GridRow N) * list string) :=
  origins ← enabledOrigins cat slug;
  store ← reads_storeUuid slug (lq_store q);
  page ← grid q store (λ _, true) (mapCompetitors {| cf_observation := true; cf_isPbm := true; cf_van := true |} origins);
  Ok (page, origins).

(** A competitor deal on an enabled origin, or a deal of the tenant. *)
Definition strategic (origins : list string) (p : Prod) : bool :=
  existsb (λ o, bool_decide (is_Some (shared_of cat p.1 o ≫= (λ _, cw_observation d !! (p.1, o))))) (safeOrigins origins)
  || match px_deals (extra p) with Some m => negb (bool_decide (m = ∅)) | None => false end.

Definition strategicPrice (slug : string) (q : ListProductsQuery N) : Res (Paginated (GridRow N)) :=
  origins ← enabledOrigins cat slug;
  store ← reads_storeUuid slug (lq_store q);
  grid q store (strategic origins) (mapCompetitors {| cf_observation := true; cf_isPbm := false; cf_van := false |} origins).

(* ------------------------------------------------------------------ *)
(** ** Active ingredients                                               *)
(* ------------------------------------------------------------------ *)

Definition ingredient (p : Prod) : option string := sy_base (cw_sync d) !! p.1 ≫= bs_activeIngredient.

Definition activeIngredients : list string :=
  js_sort collate_le (js_uniq (omap ingredient (map_to_list (ct_products cat)))).

(** [cc]: the cheapest competitor of the EAN, whatever its origin. *)
Definition cheapest_competitor (ean : Z) : option (string * Numeric) :=
  head (js_sort (λ a b, match num_cmp a.2 b.2 with Gt => false | _ => true end)
    (omap (λ x : Z * string * SharedProductRow,
       if bool_decide (x.1.1 = ean) && negb (sh_deleted x.2)
       then price ← sh_price x.2; if 0 <? nm_unscaled price then Some (x.1.2, price) else None
       else None) (map_to_list (ct_shared cat)))).

Definition variant_row (origins : list string) (storeExternalId : Z) (store : option string) (x : string * Prod) : VariantRow N :=
  let p := x.2 in let cc := cheapest_competitor p.1 in
  {| vr_ai := x.1; vr_ean := p.1; vr_name := p_name p.2; vr_price := EFF_PRICE store p; vr_cost := EFF_COST store p;
     vr_margin := EFF_MARGIN store p; vr_stockInStore := default 0 (sy_stock (cw_sync d) !! (p.1, storeExternalId));
     vr_competitorOrigin := fst <$> cc; vr_competitorPrice := snd <$> cc; vr_priceOffer := EFF_PRICE_OFFER store p;
     vr_competitors := mapCompetitors {| cf_observation := false; cf_isPbm := false; cf_van := false |} origins p |}.

(** [ORDER BY bp.active_ingredient, p.ean] *)
Definition by_ingredient (a b : string * Prod) : bool :=
  match collate_le a.1 b.1, collate_le b.1 a.1 with
  | true, false => true | false, _ => false | true, true => a.2.1 <=? b.2.1 end.

Definition ingredient_rows (q : ListProductsQuery N) : list (string * Prod) :=
  js_sort by_ingredient
    (omap (λ p, ai ← ingredient p; if contains (Some ai) (lq_activeIngredient q) then Some (ai, p) else None)
       (map_to_list (ct_products cat))).

Definition loadIngredientGroups (slug : string) (q : ListProductsQuery N) : Res (list (IngredientGroup N)) :=
  origins ← enabledOrigins cat slug;
  store ← requireStore q;
  storeUuid ← reads_storeUuid slug (Some store);
  Ok (groups_of (variant_row origins (digits_val store) storeUuid <$> ingredient_rows q)
        (default (n_int 0) (lq_tolerance q))).

Definition activeIngredientsCrossed (slug : string) (q : ListProductsQuery N) : Res (Paginated (IngredientGroup N)) :=
  let '(page, perPage, offset) := paginate q in
  groups ← loadIngredientGroups slug q;
  let filtered := match truthy (lq_decision q) with
                  | Some x => filter (λ g, decision_str (ig_decision g) = x) groups
                  | None => groups end in
  Ok {| pg_rows := js_slice offset perPage filtered; pg_count := Z.of_nat (length filtered);
        pg_page := page; pg_perPage := perPage |}.

Definition count_of (x : GroupDecision) (groups : list (IngredientGroup N)) : Z :=
  Z.of_nat (length (filter (λ g, ig_decision g = x) groups)).

(** The tally by decision, and the total. *)
Definition decisionCounts (slug : string) (q : ListProductsQuery N) : Res (list (GroupDecision * Z) * Z) :=
  groups ← loadIngredientGroups slug q;
  Ok ((λ x, (x, count_of x groups)) <$> DECISIONS, Z.of_nat (length groups)).

(* ------------------------------------------------------------------ *)
(** ** Stock                                                            *)
(* ------------------------------------------------------------------ *)

Definition stores (slug : string) : Res (list StoreOption) :=
  tenantId ← resolveTenantId cat slug;
  let ids := js_uniq (snd <$> (map_to_list (sy_stock (cw_sync d))).*1) in
  let joined (e : Z) : list StoreOption :=
    match filter (λ x : string * StoreRow, ts_external_id x.2 = e ∧ ts_tenant_id x.2 = tenantId ∧ ts_deleted x.2 = false)
            (map_to_list (ct_stores cat)) with
    | [] => [{| so_storeId := None; so_storeExternalId := pretty e; so_label := pretty e; so_active := None |}]
    | l => (λ x, {| so_storeId := Some x.1; so_storeExternalId := pretty e; so_label := ts_name x.2;
                    so_active := Some (ts_active x.2) |}) <$> l
    end in
  Ok (js_sort (λ a b, match collate_le (so_label a) (so_label b), collate_le (so_label b) (so_label a) with
                      | true, false => true | false, _ => false
                      | true, true => collate_le (so_storeExternalId a) (so_storeExternalId b) end) (ids ≫= joined)).

(** [SUM(quantity)::int] and [jsonb_object_agg] over the stock of an EAN. *)
Definition stock_of (ean : Z) : list (Z * Z) :=
  omap (λ x : Z * Z * Z, if bool_decide (x.1.1 = ean) then Some (x.1.2, x.2) else None) (map_to_list (sy_stock (cw_sync d))).
Definition own_total (p : Prod) : Res Z :=
  let total := foldr Z.add 0 (stock_of p.1).*2 in
  if (- INT_MAX - 1 <=? total) && (total <=? INT_MAX) then Ok total else Throw (EError "integer out of range").

Fixpoint totals (rows : list Prod) : Res (list Z) :=
  match rows with [] => Ok [] | p :: rows => t ← own_total p; ts ← totals rows; Ok (t :: ts) end.

Definition stock_row (p : Prod) : StockRow :=
  let own := match own_total p with Ok t => t | Throw _ => 0 end in
  {| sw_ean := ean_text p.1; sw_name := p_name p.2; sw_classification := class_name p; sw_ownStock := own;
     sw_ownByStore := match stock_of p.1 with [] => None | l => Some l end;
     sw_stockStatus := if 0 <? own then "OK" else "OUT_OF_STOCK" |}.

Definition stock (q : ListProductsQuery N) : Res (Paginated StockRow) :=
  let '(page, perPage, offset) := paginate q in
  f ← filter_params q;
  let rows := selected q f None in
  _ ← totals rows;
  Ok {| pg_rows := stock_row <$> page_rows (orderBy q SORTABLE_STOCK) perPage offset rows;
        pg_count := Z.of_nat (length rows); pg_page := page; pg_perPage := perPage |}.

Definition stockMetrics (q : ListProductsQuery N) : Res StockMetrics :=
  f ← filter_params q;
  ts ← totals (selected q f None);
  Ok {| sm_total := Z.of_nat (length ts); sm_ownWithStock := Z.of_nat (length (filter (λ t, 0 < t) ts)) |}.

(* ------------------------------------------------------------------ *)
(** ** CSV                                                              *)
(* ------------------------------------------------------------------ *)

Definition LF : ascii := ascii_of_nat 10.
Definition QUOTE : ascii := ascii_of_nat 34.

(** [s.replace(/q/g, qq)] for the quote q. *)
Fixpoint double_quotes (s : string) : string :=
  match s with
  | EmptyString => EmptyString
  | String c s => if Ascii.eqb c QUOTE then String c (String c (double_quotes s)) else String c (double_quotes s)
  end.

(** A comma, a quote or a line feed. *)
Definition csv_special (c : ascii) : bool := Ascii.eqb c QUOTE || Ascii.eqb c "," || Ascii.eqb c LF.

Definition cell_text (c : Cell N) : string :=
  match c with CNull => "" | CText s => s | CNumber n => num_text n end.
Definition esc (c : Cell N) : string :=
  let s := cell_text c in
  if str_forall (λ c, negb (csv_special c)) s then s
  else String QUOTE (double_quotes s +:+ String QUOTE "").

Definition text_cell (s : option string) : Cell N := match s with Some s => CText s | None => CNull end.
Definition number_cell (n : option N) : Cell N := match n with Some n => CNumber n | None => CNull end.

Definition csv_cols (origins : list string) : list string :=
  ["ean"; "name"; "supplier"; "classification"; "cost"; "price"; "margin"; "status"] ++ (str_lower <$> safeOrigins origins).

Definition csv_cells (origins : list string) (store : option string) (p : Prod) : list (Cell N) :=
  [CText (ean_text p.1); text_cell (p_name p.2); text_cell (p_supplier p.2); text_cell (class_name p);
   text_cell (numeric_text <$> EFF_COST store p); text_cell (numeric_text <$> EFF_PRICE store p);
   text_cell (numeric_text <$> EFF_MARGIN store p); text_cell (p_status p.2)] ++
  ((λ c, number_cell (mc_price c)) <$> mapCompetitors {| cf_observation := false; cf_isPbm := false; cf_van := false |} origins p).

Definition csv_text (header : list string) (rows : list (list (Cell N))) : string :=
  str_join (String LF "") (str_join "," header :: ((λ r, str_join "," (esc <$> r)) <$> rows)).

Definition exportCsv (slug : string) (q : ListProductsQuery N) : Res string :=
  origins ← enabledOrigins cat slug;
  store ← reads_storeUuid slug (lq_store q);
  f ← filter_params q;
  let rows := take (Z.to_nat 50000) (js_sort (λ a b : Prod, a.1 <=? b.1) (selected q f store)) in
  Ok (csv_text (csv_cols origins) (csv_cells origins store <$> rows)).

End Reads.
