(* ===== verification/CatalogReadsLaws.v ===== *)
(** Laws of the catalogue listings: the CSV reads back, the decision of an
    ingredient is that of its cheapest stocked variant, the tally agrees
    with the listings, the pages of an order without ties tile the catalogue
    and those of an order with ties need not. *)

From Stdlib Require Import Ascii String.
From S2P Require Import Prelude JsText JsNumber JsDate Enums Messages World Classification SuggestionEngine PricingDb SuggestionRules Suggestions PricingApply Erp CatalogMutation TenantCatalog CatalogReads.
Open Scope string_scope.
Open Scope list_scope.
Open Scope Z_scope.

(* ------------------------------------------------------------------ *)
(** * CSV                                                               *)
(* ------------------------------------------------------------------ *)

(** A reader of CSV: comma, line feed, quoted cells with doubled quotes. *)
Inductive CsvState := Plain | Quoted | Closing.

Definition snoc (s : string) (c : ascii) : string := s +:+ String c "".

Fixpoint csv_read (st : CsvState) (cell : string) (row : list string) (s : string) : list (list string) :=
  match s with
  | EmptyString => [row ++ [cell]]
  | String c s =>
      match st with
      | Quoted => if Ascii.eqb c QUOTE then csv_read Closing cell row s else csv_read Quoted (snoc cell c) row s
      | _ =>
          if Ascii.eqb c "," then csv_read Plain "" (row ++ [cell]) s
          else if Ascii.eqb c LF then (row ++ [cell]) :: csv_read Plain "" [] s
          else if Ascii.eqb c QUOTE then
            match st with
            | Closing => csv_read Quoted (snoc cell c) row s
            | _ => csv_read Quoted cell row s
            end
          else csv_read Plain (snoc cell c) row s
      end
  end.
Definition csv_parse (s : string) : list (list string) := csv_read Plain "" [] s.

Lemma snoc_app s c t : snoc s c +:+ t = s +:+ String c t.
Proof. unfold snoc. by rewrite <-str_app_assoc. Qed.

Lemma read_plain s cell row rest : str_forall (λ c, negb (csv_special c)) s = true →
  csv_read Plain cell row (s +:+ rest) = csv_read Plain (cell +:+ s) row rest.
Proof.
  revert cell. induction s as [|c s IH]; cbn -[csv_special Ascii.eqb QUOTE LF]; intros cell; [by rewrite str_app_nil_r|].
  intros [Hc%negb_true_iff Hs]%andb_true_iff. unfold csv_special in Hc.
  apply orb_false_iff in Hc as [[H1 H2]%orb_false_iff H3]. rewrite str_app_cons. cbn -[Ascii.eqb QUOTE LF]. rewrite H2, H3, H1, IH by done. by rewrite snoc_app.
Qed.

Lemma read_quoted s cell row rest :
  csv_read Quoted cell row (double_quotes s +:+ String QUOTE rest) = csv_read Closing (cell +:+ s) row rest.
Proof.
  revert cell. induction s as [|c s IH]; intros cell; cbn -[QUOTE LF Ascii.eqb];
    [change ("" +:+ String QUOTE rest) with (String QUOTE rest); cbn -[QUOTE LF Ascii.eqb]; by rewrite Ascii.eqb_refl, str_app_nil_r|].
  destruct (Ascii.eqb c QUOTE) eqn:Hc; rewrite !str_app_cons; cbn -[QUOTE LF Ascii.eqb].
  - apply Ascii.eqb_eq in Hc as ->. rewrite !Ascii.eqb_refl.
    change (Ascii.eqb QUOTE ",") with false. change (Ascii.eqb QUOTE LF) with false. cbn -[QUOTE LF Ascii.eqb].
    by rewrite IH, snoc_app.
  - by rewrite Hc, IH, snoc_app.
Qed.

(** After a cell, a separator ends it whatever the state. *)
Definition ends_cell (t : string) : Prop :=
  match t with EmptyString => True | String c _ => c = "," % char ∨ c = LF end.

Lemma read_closing cell row rest : ends_cell rest → csv_read Closing cell row rest = csv_read Plain cell row rest.
Proof. destruct rest as [|c rest]; [done|]. by intros [->| ->]. Qed.

Lemma read_esc {N} (num_text : N → string) c row rest : ends_cell rest →
  csv_read Plain "" row (esc num_text c +:+ rest) = csv_read Plain (cell_text num_text c) row rest.
Proof.
  intros He. unfold esc. destruct (str_forall _ _) eqn:H; [by rewrite read_plain|].
  rewrite str_app_cons. cbn -[QUOTE LF Ascii.eqb]. rewrite Ascii.eqb_refl.
  change (Ascii.eqb QUOTE ",") with false. change (Ascii.eqb QUOTE LF) with false. cbn -[QUOTE LF Ascii.eqb].
  rewrite <-str_app_assoc, str_app_cons. by rewrite read_quoted, read_closing.
Qed.

Section Csv.
Context {N : Type} `{JsNum N}.
Variable num_text : N → string.

Definition line (cells : list (Cell N)) : string := str_join "," (esc num_text <$> cells).
Definition texts (cells : list (Cell N)) : list string := cell_text num_text <$> cells.
Definition lines_of (rows : list (list (Cell N))) : list string := line <$> rows.
Definition texts_of (rows : list (list (Cell N))) : list (list string) := texts <$> rows.

Lemma read_line (cells : list (Cell N)) row rest : cells ≠ [] → (∀ c t, rest = String c t → c = LF) →
  csv_read Plain "" row (line cells +:+ rest) =
  match rest with
  | EmptyString => [row ++ texts cells]
  | String _ t => (row ++ texts cells) :: csv_read Plain "" [] t
  end.
Proof.
  intros Hne Hr. revert row. induction cells as [|c [|c' cells] IH]; intros row; [done| |].
  - unfold line. cbn. rewrite read_esc by (destruct rest; cbn; eauto).
    destruct rest as [|x t]; [done|]. rewrite (Hr x t eq_refl). cbn. by rewrite app_nil_r || done.
  - change (line (c :: c' :: cells)) with (esc num_text c +:+ ("," +:+ line (c' :: cells))).
    rewrite <-!str_app_assoc. change ("," +:+ (line (c' :: cells) +:+ rest)) with (String "," (line (c' :: cells) +:+ rest)).
    rewrite read_esc by (cbn; auto). cbn -[line]. rewrite IH by done.
    destruct rest; cbn; by rewrite <-app_assoc.
Qed.

Lemma read_lines (rows : list (list (Cell N))) : rows ≠ [] → Forall (λ r, r ≠ []) rows →
  csv_parse (str_join (String LF "") (lines_of rows)) = texts_of rows.
Proof.
  unfold csv_parse. intros Hne Hf. induction Hf as [|r [|r' rows] Hr Hf IH]; [done| |].
  - cbn. rewrite <-(str_app_nil_r (line r)). by rewrite read_line.
  - change (str_join (String LF "") (lines_of (r :: r' :: rows))) with
      (line r +:+ (String LF (str_join (String LF "") (lines_of (r' :: rows))))).
    rewrite read_line; [|done|by intros ? ? [= <- _]]. cbn -[line str_join lines_of]. f_equal. by apply IH.
Qed.

Lemma csv_text_read header (rows : list (list (Cell N))) :
  header ≠ [] → Forall (λ s, str_forall (λ c, negb (csv_special c)) s = true) header → Forall (λ r, r ≠ []) rows →
  csv_parse (csv_text num_text header rows) = header :: texts_of rows.
Proof.
  intros Hne Hh Hr. set (h := CText <$> header : list (Cell N)).
  assert (str_join "," header = line h) as Hl.
  { unfold line. f_equal. clear Hne. subst h. induction Hh as [|s l Hs Hl IH]; [done|]. cbn. f_equal; [|done].
    unfold esc. cbn. by rewrite Hs. }
  unfold csv_text. rewrite Hl. change (line h :: ((λ r, str_join "," (esc num_text <$> r)) <$> rows)) with (lines_of (h :: rows)).
  rewrite read_lines; [|done|].
  - cbn. f_equal. unfold texts, h. rewrite <-list_fmap_compose. by apply list_fmap_id.
  - constructor; [|done]. by destruct header.
Qed.
End Csv.

(** Column names hold no separator. *)
Lemma csv_cols_plain origins : Forall (λ s, str_forall (λ c, negb (csv_special c)) s = true) (csv_cols origins).
Proof.
  unfold csv_cols. apply Forall_app. split; [repeat constructor|]. apply Forall_fmap, Forall_forall.
  intros o [Ho _]%list_elem_of_filter. apply bool_decide_eq_true_1 in Ho. apply list_elem_of_fmap in Ho as (x & -> & _).
  by destruct x.
Qed.

(** [C31] The CSV of the catalogue reads back, cell for cell, as its header
    and the rows of the filtered products in the order of their EANs, at
    most 50000: no name, separator, quote or line break breaks the table. *)
Theorem export_reads_back {N} `{JsNum N} ilike date_cast pg_div num_text (d : CatalogView N) slug q text :
  exportCsv ilike date_cast pg_div num_text d slug q = Ok text →
  ∃ origins store f,
    enabledOrigins (cat d) slug = Ok origins ∧ reads_storeUuid d slug (lq_store q) = Ok store ∧
    filter_params date_cast q = Ok f ∧
    csv_parse text = csv_cols origins ::
      texts_of num_text (csv_cells pg_div d origins store <$>
        take (Z.to_nat 50000) (js_sort (λ a b : Prod, a.1 <=? b.1) (selected ilike d q f store))) ∧
    Forall (λ row, length row = length (csv_cols origins)) (csv_parse text).
Proof.
  intros He. unfold exportCsv in He.
  apply Res_bind_Ok in He as (origins & Ho & He). apply Res_bind_Ok in He as (store & Hs & He).
  apply Res_bind_Ok in He as (f & Hf & He). injection He as <-. exists origins, store, f.
  set (rows := take _ _). split_and!; try done.
  all: rewrite csv_text_read; [|done|apply csv_cols_plain|by apply Forall_fmap, Forall_forall].
  - done.
  - constructor; [done|]. unfold texts_of. apply Forall_fmap, Forall_fmap, Forall_forall. intros p _. cbn.
    unfold mapCompetitors. by rewrite !length_fmap.
Qed.

(* ------------------------------------------------------------------ *)
(** * Decisions                                                         *)
(* ------------------------------------------------------------------ *)

Section ArgMin.
Context {N : Type} `{JsNumLaws N} {A : Type}.
Variable key : A → option N.
Open Scope js_scope.

(** The loops of [buildGroup]: keep the first element with the least key. *)
Definition min_step (best : option A) (v : A) : option A :=
  match key v with
  | None => best
  | Some k => match best with
              | None => Some v
              | Some b => if k <? default (n_inf false) (key b) then Some v else best
              end
  end.

(** Nothing has a key, or [b] has the least. *)
Definition is_min (l : list A) (best : option A) : Prop :=
  match best with
  | None => ∀ v, v ∈ l → key v = None
  | Some b => b ∈ l ∧ ∃ k, key b = Some k ∧ ∀ v k', v ∈ l → key v = Some k' → (k' <? k) = false
  end.

Lemma min_step_is_min l best v : is_min l best → is_min (l ++ [v]) (min_step best v).
Proof.
  unfold min_step. intros Hb. destruct (key v) as [k|] eqn:Hk.
  - destruct best as [b|]; cbn in *.
    + destruct Hb as (Hin & kb & Hkb & Hmin). rewrite Hkb. cbn. destruct (k <? kb) eqn:Hlt; cbn.
      * split; [set_solver|]. exists k. split; [done|]. intros w k' [Hw| ->%list_elem_of_singleton]%elem_of_app Hk'.
        -- destruct (k' <? k) eqn:Hlt'; [|done]. by rewrite <-(Hmin w k' Hw Hk'), (n_lt_trans k' k kb).
        -- simplify_eq. apply n_lt_irrefl.
      * split; [set_solver|]. exists kb. split; [done|]. intros w k' [Hw| ->%list_elem_of_singleton]%elem_of_app Hk'; [eauto|].
        by simplify_eq.
    + split; [set_solver|]. exists k. split; [done|]. intros w k' [Hw| ->%list_elem_of_singleton]%elem_of_app Hk'.
      * rewrite Hb in Hk' by done. done.
      * simplify_eq. apply n_lt_irrefl.
  - destruct best as [b|]; cbn in *.
    + destruct Hb as (Hin & kb & Hkb & Hmin). split; [set_solver|]. exists kb. split; [done|].
      intros w k' [Hw| ->%list_elem_of_singleton]%elem_of_app Hk'; [eauto|congruence].
    + intros w [Hw| ->%list_elem_of_singleton]%elem_of_app; auto.
Qed.

Lemma foldl_min l : is_min l (foldl min_step None l).
Proof.
  induction l as [|v l IH] using rev_ind; [by intros v ?%not_elem_of_nil|]. rewrite foldl_snoc. by apply min_step_is_min.
Qed.

(** A step that agrees with [min_step] on elements that have a key. *)
Lemma foldl_as_min (step : option A → A → option A) l :
  (∀ best v, (∀ b, best = Some b → is_Some (key b)) → step best v = min_step best v) →
  foldl step None l = foldl min_step None l.
Proof.
  intros Hs. induction l as [|v l IH] using rev_ind; [done|]. rewrite !foldl_snoc, IH. apply Hs. intros b Hb.
  pose proof (foldl_min l) as Hm. rewrite Hb in Hm. destruct Hm as (_ & k & Hk & _). eauto.
Qed.
End ArgMin.

Lemma num_of_num {N} `{JsNumLaws N} x n : num_of x = Some n → is_num n.
Proof.
  unfold num_of. destruct x as [x|]; [|done]. destruct (n_finite _) eqn:Hf; [|done]. intros [= <-]. by apply finite_num.
Qed.

Section Groups.
Context {N : Type} `{JsNumLaws N}.
Open Scope js_scope.

(** The price of a variant that is in stock. *)
Definition fighting_price (v : VariantRow N) : option N :=
  price ← num_of (vr_price v); if (n_int 0 <? price) && (0 <? vr_stockInStore v)%Z then Some price else None.
Definition variant_cost (v : VariantRow N) : option N := num_of (vr_cost v).
Definition competitor_offer (v : VariantRow N) : option (string * N) :=
  cp ← num_of (vr_competitorPrice v); origin ← truthy (vr_competitorOrigin v);
  if n_int 0 <? cp then Some (origin, cp) else None.

Lemma fighting_price_Some v k : fighting_price v = Some k →
  num_of (vr_price v) = Some k ∧ (n_int 0 <? k) = true ∧ (0 < vr_stockInStore v)%Z.
Proof.
  unfold fighting_price. intros (p & Hp & Hk)%bind_Some. destruct (_ && _) eqn:Hc; [|done]. simplify_eq.
  apply andb_true_iff in Hc as [? ?%Z.ltb_lt]. done.
Qed.

Lemma combate_min vs : is_min fighting_price vs (foldl next_combate None vs).
Proof.
  rewrite (foldl_as_min fighting_price).
  - apply foldl_min.
  - intros best v Hb. unfold next_combate, min_step, fighting_price at 1. destruct (num_of (vr_price v)) as [p|]; cbn; [|done].
    destruct (_ && _); [|done]. destruct best as [b|]; [|done]. destruct (Hb b eq_refl) as [k Hk]. rewrite Hk.
    apply fighting_price_Some in Hk as (Hk & _). unfold num_or_inf. by rewrite Hk.
Qed.

Lemma lowest_min vs : is_min variant_cost vs (foldl next_lowest None vs).
Proof.
  rewrite (foldl_as_min variant_cost); [apply foldl_min|done].
Qed.

Lemma foldl_competitor vs :
  foldl next_competitor None vs = foldl (min_step (λ x : string * N, Some x.2)) None (omap competitor_offer vs).
Proof.
  generalize (None : option (string * N)). induction vs as [|v vs IH]; intros best; [done|]. cbn [foldl].
  rewrite IH. unfold next_competitor, competitor_offer. cbn. destruct (num_of (vr_competitorPrice v)) as [cp|]; cbn; [|done].
  destruct (truthy (vr_competitorOrigin v)) as [o|]; cbn; [|done]. destruct (n_int 0 <? cp); cbn; [|done].
  f_equal. unfold min_step. destruct best as [[o' b]|]; done.
Qed.

Lemma competitor_min vs : is_min (λ x : string * N, Some x.2) (omap competitor_offer vs) (foldl next_competitor None vs).
Proof.
  rewrite foldl_competitor. apply foldl_min.
Qed.

(** Some variant costs less than [b]. *)
Definition cheaper_variant (vs : list (VariantRow N)) (b : VariantRow N) : Prop :=
  ∃ v k c, v ∈ vs ∧ variant_cost v = Some k ∧ variant_cost b = Some c ∧ (k <? c) = true.

Definition costs_more (lowest cost : option N) : bool :=
  match lowest, cost with Some lc, Some c => lc <? c | _, _ => false end.

Lemma lowest_cheaper vs b :
  costs_more (l ← foldl next_lowest None vs; variant_cost l) (variant_cost b) = true ↔ cheaper_variant vs b.
Proof.
  unfold costs_more. pose proof (lowest_min vs) as Hm. destruct (foldl next_lowest None vs) as [l|]; cbn in *.
  - destruct Hm as (Hl & lc & Hlc & Hmin). rewrite Hlc. destruct (variant_cost b) as [c|] eqn:Hb.
    + split; [intros Hlt; exists l, lc, c; auto|]. intros (v & k & c' & Hv & Hk & ? & Hlt). simplify_eq.
      pose proof (num_of_num _ _ Hlc). pose proof (num_of_num _ _ Hk).
      eapply n_le_lt_trans; [|exact Hlt]. apply n_not_lt; [done..|]. by eapply Hmin.
    + split; [done|]. intros (v & k & c & _ & _ & ? & _). congruence.
  - split; [done|]. intros (v & k & c & Hv & Hk & _). rewrite Hm in Hk by done. done.
Qed.

Lemma decision_stocked p c lc cp tolerance :
  let x := deriveDecision {| di_combate := Some (p, c); di_lowestCost := lc; di_competitorPrice := cp; di_tolerance := tolerance |} in
  let tol := tolerance / n_int 100 in
  x ≠ sem_estoque ∧ (x = mix ↔ costs_more lc c = true) ∧
  (x = subir ↔ costs_more lc c ≠ true ∧ ∃ k, cp = Some k ∧ (p <? k * (n_int 1 - tol)) = true) ∧
  (x = abaixar ↔ costs_more lc c ≠ true ∧ ∃ k, cp = Some k ∧ (p <? k * (n_int 1 - tol)) = false ∧ (k * (n_int 1 + tol) <? p) = true).
Proof.
  unfold deriveDecision. cbn. fold (costs_more lc c). destruct (costs_more lc c), cp as [k|];
    [naive_solver..| |naive_solver].
  destruct (p <? k * _) eqn:H1; [naive_solver congruence|]. destruct (k * _ <? p) eqn:H2; naive_solver congruence.
Qed.

Lemma math_min_least l t : math_min_of l = Some t → t ∈ l ∧ ∀ x, x ∈ l → (x <? t) = false.
Proof.
  destruct l as [|x l]; [done|]. cbn. intros [= <-]. induction l as [|y l IH] using rev_ind.
  - split; [left|]. intros z ->%list_elem_of_singleton. apply n_lt_irrefl.
  - rewrite foldl_snoc. destruct IH as [Hin Hmin]. set (m := foldl _ x l) in *.
    destruct (y <? m) eqn:Hlt; (split; [set_solver|]); intros z Hz;
      rewrite app_comm_cons, elem_of_app, list_elem_of_singleton in Hz; destruct Hz as [Hz| ->].
    + destruct (z <? y) eqn:Hzy; [|done]. by rewrite <-(Hmin z Hz), (n_lt_trans z y m).
    + apply n_lt_irrefl.
    + auto.
    + done.
Qed.
End Groups.

(** [C29] The decision of an ingredient in a store: no stock exactly when no
    variant with a positive price is in stock; otherwise the variant that
    fights is a cheapest one in stock, and the decision is to fix the mix
    exactly when another variant costs less, else to raise, lower or keep
    according to the cheapest competitor and the tolerance.  The target
    price is the least positive price. *)
Theorem ingredient_decision {N} `{JsNumLaws N} ai (vs : list (VariantRow N)) tolerance :
  let g := buildGroup ai vs tolerance in
  let tol := n_div tolerance (n_int 100) in
  (ig_decision g = sem_estoque ↔ ∀ v, v ∈ vs → fighting_price v = None) ∧
  (ig_decision g ≠ sem_estoque →
     ∃ b p, b ∈ vs ∧ fighting_price b = Some p ∧
       ig_combate g = Some (ean_text (vr_ean b), vr_name b, Some p, variant_cost b) ∧
       (∀ v k, v ∈ vs → fighting_price v = Some k → n_lt k p = false) ∧
       (ig_decision g = mix ↔ cheaper_variant vs b) ∧
       (ig_decision g = subir ↔ ¬ cheaper_variant vs b ∧ ∃ cp, snd <$> ig_competitorCombate g = Some cp ∧
          n_lt p (n_mul cp (n_sub (n_int 1) tol)) = true) ∧
       (ig_decision g = abaixar ↔ ¬ cheaper_variant vs b ∧ ∃ cp, snd <$> ig_competitorCombate g = Some cp ∧
          n_lt p (n_mul cp (n_sub (n_int 1) tol)) = false ∧ n_lt (n_mul cp (n_add (n_int 1) tol)) p = true)) ∧
  is_min (λ x : string * N, Some x.2) (omap competitor_offer vs) (ig_competitorCombate g) ∧
  (∀ t, ig_targetPrice g = Some t → ∀ v p, v ∈ vs → num_of (vr_price v) = Some p → n_lt (n_int 0) p = true → n_lt p t = false).
Proof.
  cbn zeta. pose proof (combate_min vs) as Hc. pose proof (competitor_min vs) as Hk.
  split; [|split; [|split; [exact Hk|]]].
  - unfold buildGroup. cbn. destruct (foldl next_combate None vs) as [b|]; cbn in *; [|done].
    destruct Hc as (Hb & p & Hp & _). pose proof (fighting_price_Some _ _ Hp) as (Hn & _). rewrite Hn. cbn.
    split; [by intros ?%decision_stocked|]. intros Hall. rewrite Hall in Hp by done. done.
  - unfold buildGroup. cbn. destruct (foldl next_combate None vs) as [b|] eqn:Hfold; [|done]. intros _. cbn.
    destruct Hc as (Hb & p & Hp & Hmin). pose proof (fighting_price_Some _ _ Hp) as (Hn & _). exists b, p. rewrite Hn. cbn.
    rewrite <-lowest_cheaper. split_and!; try done; apply decision_stocked.
  - intros t Ht v p Hv Hp Hpos. apply math_min_least in Ht as [_ Hmin]. apply Hmin.
    apply list_elem_of_omap. exists v. split; [done|]. rewrite Hp. cbn. by rewrite Hpos.
Qed.

(* ------------------------------------------------------------------ *)
(** * Groups and tallies                                                *)
(* ------------------------------------------------------------------ *)

(** Pages of [n] rows, from the first to the [k]-th. *)
Definition pages {A} (n : Z) (k : nat) (l : list A) : list A :=
  concat ((λ i, js_slice (Z.of_nat i * n) n l) <$> seq 0 k).

Lemma page_list_take {A} (n : Z) k (l : list A) : 0 ≤ n → pages n k l = take (k * Z.to_nat n) l.
Proof.
  intros Hn. unfold pages. induction k as [|k IH]; [done|].
  rewrite seq_S, fmap_app, concat_app, IH. cbn. rewrite app_nil_r. unfold js_slice.
  replace (Z.to_nat (Z.of_nat k * n)) with (k * Z.to_nat n)%nat by nia. rewrite take_take_drop. f_equal. lia.
Qed.

Lemma page_list_all {A} (n : Z) k (l : list A) : 0 ≤ n → (length l ≤ k * Z.to_nat n)%nat → pages n k l = l.
Proof. intros Hn Hk. rewrite page_list_take by done. by apply take_ge. Qed.

Section Grouping.
Context {N : Type} `{JsNum N}.
Implicit Types (m : list (string * list (VariantRow N))) (r : VariantRow N).

Lemma map_push_concat m r k :
  concat (js_map_set k (default [] (js_map_get k m) ++ [r]) m).*2 ≡ₚ concat m.*2 ++ [r].
Proof.
  induction m as [|[k' v] m IH]; cbn; [done|]. destruct (decide (k = k')) as [->|]; cbn.
  - rewrite <-!app_assoc. by apply Permutation_app_head, Permutation_app_comm.
  - rewrite IH. by rewrite app_assoc.
Qed.

Lemma map_push_own m r : Forall (λ g, g.2 ≠ [] ∧ Forall (λ v, vr_ai v = g.1) g.2) m →
  Forall (λ g, g.2 ≠ [] ∧ Forall (λ v, vr_ai v = g.1) g.2) (js_map_set (vr_ai r) (default [] (js_map_get (vr_ai r) m) ++ [r]) m).
Proof.
  induction 1 as [|[k v] m [Hne Hv] Hm IH]; cbn.
  - repeat constructor. cbn. done.
  - destruct (decide (vr_ai r = k)) as [<-|]; cbn; constructor; try done. cbn. split; [by destruct v|].
    by apply Forall_app_2, Forall_singleton.
Qed.

(** One group per ingredient, with all its rows and no other. *)
Lemma byIng_partition (rows : list (VariantRow N)) :
  NoDup (byIng rows).*1 ∧ concat (byIng rows).*2 ≡ₚ rows ∧
  Forall (λ g, g.2 ≠ [] ∧ Forall (λ v, vr_ai v = g.1) g.2) (byIng rows).
Proof.
  unfold byIng. induction rows as [|r rows (IH1 & IH2 & IH3)] using rev_ind; [repeat constructor|].
  rewrite foldl_snoc. split_and!; [by apply js_map_set_NoDup| |by apply map_push_own].
  by rewrite map_push_concat, IH2.
Qed.

Lemma groups_share_rows rows tolerance :
  (groups_of rows tolerance ≫= λ g, (λ v, (ig_activeIngredient g, va_ean v)) <$> ig_variants g)
    ≡ₚ (λ r, (vr_ai r, ean_text (vr_ean r))) <$> rows.
Proof.
  destruct (byIng_partition rows) as (_ & Hp & Hf). unfold groups_of.
  etrans; [|apply fmap_Permutation, Hp]. clear Hp.
  induction Hf as [|[ai vs] gs [_ Hv] Hf IH]; [done|]. cbn. rewrite fmap_app. apply Permutation_app; [|exact IH].
  rewrite <-list_fmap_compose. cbn in *. apply Permutation_refl', list_fmap_ext. intros i v Hi. cbn. f_equal.
  symmetry. by apply (Forall_lookup_1 _ _ i v Hv).
Qed.

(** Every group is one of the five decisions. *)
Lemma decisions_sum (groups : list (IngredientGroup N)) :
  foldr Z.add 0 ((λ x, count_of x groups) <$> DECISIONS) = Z.of_nat (length groups).
Proof.
  unfold DECISIONS. cbn. unfold count_of. induction groups as [|g groups IH]; [done|].
  rewrite !filter_cons. destruct (ig_decision g); repeat (case_decide; [|]); try done; cbn [length] in *; lia.
Qed.
End Grouping.

Definition with_page {N} (q : ListProductsQuery N) (page perPage : Z) (decision : option string) : ListProductsQuery N :=
  {| lq_page := Some page; lq_perPage := Some perPage; lq_name := lq_name q; lq_supplier := lq_supplier q;
     lq_classification := lq_classification q; lq_status := lq_status q; lq_eans := lq_eans q; lq_caderno := lq_caderno q;
     lq_monitored := lq_monitored q; lq_active := lq_active q; lq_receiptFrom := lq_receiptFrom q; lq_receiptTo := lq_receiptTo q;
     lq_activeIngredient := lq_activeIngredient q; lq_sortBy := lq_sortBy q; lq_sortDirection := lq_sortDirection q;
     lq_store := lq_store q; lq_tolerance := lq_tolerance q; lq_decision := decision |}.

Section Tally.
Context {N : Type} `{JsNum N}.
Variables (ilike collate_le : string → string → bool) (pg_div : Numeric → Numeric → Numeric) (now : Z) (d : CatalogView N).
Abbreviation do_load := (loadIngredientGroups ilike collate_le pg_div now d).
Abbreviation do_crossed := (activeIngredientsCrossed ilike collate_le pg_div now d).

Definition of_decision (x : GroupDecision) (groups : list (IngredientGroup N)) : list (IngredientGroup N) :=
  filter (λ g, ig_decision g = x) groups.

Lemma decision_str_inj x y : decision_str x = decision_str y → x = y.
Proof. destruct x, y; cbn; congruence. Qed.

Lemma crossed_page slug q groups x page perPage : do_load slug q = Ok groups → 1 ≤ perPage ≤ MAX_PER_PAGE →
  do_crossed slug (with_page q page perPage (Some (decision_str x))) =
  Ok (Build_Paginated (js_slice ((page - 1) * perPage) perPage (of_decision x groups)) (count_of x groups) page perPage).
Proof.
  intros Hl Hp. unfold activeIngredientsCrossed, paginate.
  change (loadIngredientGroups ilike collate_le pg_div now d slug (with_page q page perPage (Some (decision_str x)))) with (do_load slug q).
  assert (truthy (lq_decision (with_page q page perPage (Some (decision_str x)))) = Some (decision_str x)) as -> by by destruct x.
  rewrite Hl. cbn [mbind Res_bind with_page lq_page lq_perPage default]. unfold MAX_PER_PAGE in Hp |- *. cbn.
  rewrite Z.min_l by lia. unfold count_of, of_decision.
  assert (∀ l : list (IngredientGroup N),
    filter (λ g, decision_str (ig_decision g) = decision_str x) l = filter (λ g, ig_decision g = x) l) as ->; [|done].
  intros l. apply list_filter_iff. intros g. split; [apply decision_str_inj|congruence].
Qed.
End Tally.

(** The tally of the decisions: the counts add up to the number of
    groups; the count of a decision is the count of its listing, whose pages
    give each of its groups once; and the groups share the rows of the
    ingredient query out, one group per ingredient. *)
Theorem decision_tally {N} `{JsNum N} ilike collate_le pg_div now (d : CatalogView N) slug q groups :
  loadIngredientGroups ilike collate_le pg_div now d slug q = Ok groups →
  (∃ counts, decisionCounts ilike collate_le pg_div now d slug q = Ok (counts, Z.of_nat (length groups)) ∧
     foldr Z.add 0 counts.*2 = Z.of_nat (length groups) ∧ counts.*1 = DECISIONS ∧
     ∀ x n perPage, (x, n) ∈ counts → 1 ≤ perPage ≤ MAX_PER_PAGE →
       (∀ page, (λ r, pg_count r) <$> (match activeIngredientsCrossed ilike collate_le pg_div now d slug (with_page q page perPage (Some (decision_str x)))
                         with Ok r => Some r | Throw _ => None end) = Some n) ∧
       ∀ k, n ≤ Z.of_nat k * perPage →
         concat ((λ i, match activeIngredientsCrossed ilike collate_le pg_div now d slug (with_page q (Z.of_nat i + 1) perPage (Some (decision_str x)))
                         with Ok r => pg_rows r | Throw _ => [] end) <$> seq 0 k) = of_decision x groups) ∧
  NoDup (ig_activeIngredient <$> groups) ∧
  (groups ≫= λ g, (λ v, (ig_activeIngredient g, va_ean v)) <$> ig_variants g)
    ≡ₚ (λ x : string * Prod, (x.1, ean_text x.2.1)) <$> ingredient_rows ilike collate_le d q.
Proof.
  intros Hl. split; [|split].
  - exists ((λ x, (x, count_of x groups)) <$> DECISIONS). split_and!.
    + unfold decisionCounts. by rewrite Hl.
    + rewrite <-decisions_sum, <-list_fmap_compose. done.
    + done.
    + intros x n perPage Hx Hp. apply list_elem_of_fmap in Hx as (? & [= -> ->] & _). split.
      * intros page. by rewrite (crossed_page _ _ _ _ _ _ _ groups).
      * intros k Hk. rewrite <-(page_list_all perPage k (of_decision x0 groups)).
        -- unfold pages. f_equal. apply list_fmap_ext. intros _ i _. rewrite (crossed_page _ _ _ _ _ _ _ groups) by done.
           cbn. do 2 f_equal. lia.
        -- lia.
        -- unfold count_of in Hk. fold (of_decision x0 groups) in Hk. nia.
  - unfold loadIngredientGroups in Hl.
    apply Res_bind_Ok in Hl as (origins & _ & Hl). apply Res_bind_Ok in Hl as (st & _ & Hl). apply Res_bind_Ok in Hl as (u & _ & Hl).
    injection Hl as <-. unfold groups_of. rewrite <-list_fmap_compose.
    by destruct (byIng_partition (variant_row pg_div now d origins (digits_val st) u <$> ingredient_rows ilike collate_le d q)) as (Hn & _).
  - unfold loadIngredientGroups in Hl.
    apply Res_bind_Ok in Hl as (origins & _ & Hl). apply Res_bind_Ok in Hl as (st & _ & Hl). apply Res_bind_Ok in Hl as (u & _ & Hl).
    injection Hl as <-. rewrite groups_share_rows, <-list_fmap_compose. done.
Qed.

(* ------------------------------------------------------------------ *)
(** * Pages of the grids                                                *)
(* ------------------------------------------------------------------ *)

Lemma StronglySorted_unique_on {A} (le : A → A → bool) (l k : list A) :
  (∀ a b, a ∈ l → b ∈ l → le a b = true → le b a = true → a = b) → l ≡ₚ k →
  StronglySorted (λ a b, le a b = true) l → StronglySorted (λ a b, le a b = true) k → l = k.
Proof.
  intros Ha Hp Hl. revert k Ha Hp. induction Hl as [|x l Hl IH Hx]; intros k Ha Hp Hk.
  - by apply Permutation_nil_l in Hp.
  - destruct Hk as [|y k Hk Hy]; [by apply Permutation_nil_r in Hp|]. assert (x = y) as <-.
    { assert (x ∈ y :: k) as [->|Hxk]%elem_of_cons by (rewrite <-Hp; left); [done|].
      assert (y ∈ x :: l) as [->|Hyl]%elem_of_cons by (rewrite Hp; left); [done|].
      rewrite Forall_forall in Hx, Hy. apply Ha; [left|by right|by apply Hx|by apply Hy]. }
    f_equal. apply IH; [|by apply Permutation_cons_inv in Hp|done]. intros a b ??. apply Ha; by right.
Qed.

Section Order.
Context {N : Type} `{JsNum N}.
Variable collate_le : string → string → bool.
Hypothesis collate_total : ∀ x y, collate_le x y = false → collate_le y x = true.
Abbreviation Column := (Prod → option SqlVal).
Implicit Types (order : list (Column * SortDirection)).

Lemma num_cmp_flip a b : num_cmp b a = CompOpp (num_cmp a b).
Proof. unfold num_cmp. by rewrite <-Z.compare_antisym. Qed.

Lemma val_cmp_flip a b : val_cmp collate_le b a = CompOpp (val_cmp collate_le a b).
Proof.
  destruct a as [x|x|x], b as [y|y|y]; cbn; try done.
  - apply num_cmp_flip.
  - destruct (collate_le x y) eqn:H1, (collate_le y x) eqn:H2; try done. apply collate_total in H1. congruence.
  - apply Z.compare_antisym.
Qed.

Lemma null_cmp_flip a b : null_cmp collate_le b a = CompOpp (null_cmp collate_le a b).
Proof. destruct a, b; try done. apply val_cmp_flip. Qed.

Lemma order_cmp_flip order a b : order_cmp collate_le order b a = CompOpp (order_cmp collate_le order a b).
Proof.
  induction order as [|[c dir] order IH]; [done|]. cbn.
  destruct dir; rewrite (null_cmp_flip (c _) (c _)); destruct (null_cmp collate_le _ _); done.
Qed.

Definition ean_column : Column := λ p, Some (VInt p.1).

Lemma order_tie_same_ean order dir a b : (ean_column, dir) ∈ order → order_cmp collate_le order a b = Eq → a.1 = b.1.
Proof.
  induction order as [|[c dr] order IH]; [by intros ?%not_elem_of_nil|].
  intros [[= <- <-]|Hin]%elem_of_cons; cbn.
  - unfold ean_column. cbn. destruct dir; [destruct (a.1 ?= b.1) eqn:E|destruct (b.1 ?= a.1) eqn:E]; try done;
      intros _; apply Z.compare_eq in E; congruence.
  - destruct (match dr with ASC => _ | DESC => _ end); try done. by apply IH.
Qed.

Lemma order_le_both order a b : order_le collate_le order a b = true → order_le collate_le order b a = true →
  order_cmp collate_le order a b = Eq.
Proof. unfold order_le. rewrite (order_cmp_flip order a b). by destruct (order_cmp collate_le order a b). Qed.

(** The EAN is among the keys of the request, or there is no key. *)
Definition sorted_by_ean (q : ListProductsQuery N) : Prop :=
  lq_sortBy q = None ∨ ∃ l, lq_sortBy q = Some l ∧ "ean" ∈ l.

Lemma orderBy_ean q (columns : string → option Column) : columns "ean" = Some ean_column → sorted_by_ean q →
  ∃ dir, (ean_column, dir) ∈ orderBy q columns.
Proof.
  intros Hc. unfold orderBy, buildMultiSortClause. intros [->|(l & -> & Hl)]; [exists ASC; left|].
  rewrite <-(number_from_snd 0 l) in Hl. apply list_elem_of_fmap in Hl as ((i & k) & Hk & Hin). cbn in Hk. subst k.
  destruct l as [|s l]; [by apply not_elem_of_nil in Hin|].
  set (parts := omap _ _).
  assert (Hp : (ean_column, direction_of (default [] (lq_sortDirection q) !! Z.to_nat i)) ∈ parts).
  { apply list_elem_of_omap. exists (i, "ean"). split; [done|]. cbn. by rewrite Hc. }
  destruct parts as [|x parts]; [by apply not_elem_of_nil in Hp|]. eauto.
Qed.
End Order.

Section Tiling.
Context {N : Type} `{JsNum N}.
Variables (ilike collate_le : string → string → bool) (date_cast : string → Res Z) (pg_div : Numeric → Numeric → Numeric).
Variable pg_order : (Prod → Prod → bool) → Z → Z → list Prod → list Prod.
Variables (now : Z) (d : CatalogView N).
Hypothesis collate_total : ∀ x y, collate_le x y = false → collate_le y x = true.

(** PostgreSQL returns the rows, sorted by the keys, for any page. *)
Definition sorts (le : Prod → Prod → bool) : Prop :=
  ∀ limit offset rows, pg_order le limit offset rows ≡ₚ rows ∧ StronglySorted (λ a b, le a b = true) (pg_order le limit offset rows).

Lemma selected_unique q f store a b :
  a ∈ selected ilike d q f store → b ∈ selected ilike d q f store → a.1 = b.1 → a = b.
Proof.
  unfold selected. rewrite !list_elem_of_filter. destruct a as [i p], b as [j r]. rewrite !elem_of_map_to_list. cbn.
  intros [_ Ha] [_ Hb] ->. congruence.
Qed.

(** Without ties every page is cut from the same list. *)
Lemma one_order q f store keep order dir : sorts (order_le collate_le order) → (ean_column, dir) ∈ order →
  let rows := filter (λ p, keep p = true) (selected ilike d q f store) in
  ∃ sorted, sorted ≡ₚ rows ∧ StronglySorted (λ a b, order_le collate_le order a b = true) sorted ∧
    ∀ limit offset, pg_order (order_le collate_le order) limit offset rows = sorted.
Proof.
  intros Hs He rows. destruct (Hs 0 0 rows) as [Hp Hsort]. eexists. split_and!; [exact Hp|exact Hsort|].
  intros limit offset. destruct (Hs limit offset rows) as [Hp' Hsort'].
  apply (StronglySorted_unique_on (order_le collate_le order)); [|by rewrite Hp, Hp'|done..].
  intros a b Ha Hb Hab Hba. rewrite Hp' in Ha, Hb. apply list_elem_of_filter in Ha as [_ Ha], Hb as [_ Hb].
  eapply selected_unique; [done..|]. eapply order_tie_same_ean; [done|]. by apply order_le_both.
Qed.

Lemma grid_page q f store keep competitors page perPage : filter_params date_cast q = Ok f → 1 ≤ perPage ≤ MAX_PER_PAGE →
  grid ilike collate_le date_cast pg_div pg_order now d (with_page q page perPage None) store keep competitors =
  let rows := filter (λ p, keep p = true) (selected ilike d q f store) in
  Ok (Build_Paginated (grid_row pg_div now d store competitors <$>
        page_rows collate_le pg_order (orderBy q (SORTABLE_EFFECTIVE pg_div now d store)) perPage ((page - 1) * perPage) rows)
        (Z.of_nat (length rows)) page perPage).
Proof.
  intros Hf Hp. unfold grid, paginate. change (filter_params date_cast (with_page q page perPage None)) with (filter_params date_cast q).
  rewrite Hf. cbn [mbind Res_bind with_page lq_page lq_perPage default]. unfold MAX_PER_PAGE in *. cbn. by rewrite Z.min_l by lia.
Qed.
End Tiling.

Lemma filter_true {A} (l : list A) : filter (λ _ : A, true = true) l = l.
Proof. induction l as [|x l IH]; [done|]. rewrite filter_cons_True by done. by rewrite IH. Qed.

Lemma NoDup_fst_filter {A B} (P : A * B → Prop) `{∀ x, Decision (P x)} (l : list (A * B)) : NoDup l.*1 → NoDup (filter P l).*1.
Proof.
  induction l as [|x l IH]; [done|]. rewrite fmap_cons. intros [Hx Hl]%NoDup_cons. rewrite filter_cons. case_decide; [|auto].
  cbn. apply NoDup_cons. split; [|auto]. intros (y & Hy & [_ Hin]%list_elem_of_filter)%list_elem_of_fmap.
  apply Hx. rewrite Hy. apply list_elem_of_fmap. eauto.
Qed.

Lemma concat_fmap_comm {A B C} (f : B → C) (g : A → list B) (l : list A) :
  concat ((λ i, f <$> g i) <$> l) = f <$> concat (g <$> l).
Proof. induction l as [|x l IH]; [done|]. cbn. by rewrite fmap_app, <-IH. Qed.

(** [C30] The pages of a listing sorted by the EAN, alone or among other
    keys: the page count is the same on every page, and the pages together
    give every product that passes the filters exactly once, in one order,
    however PostgreSQL breaks ties. *)
Theorem list_pages_tile {N} `{JsNum N} ilike collate_le date_cast pg_div pg_order now (d : CatalogView N) slug q store f perPage :
  (∀ x y, collate_le x y = false → collate_le y x = true) →
  reads_storeUuid d slug (lq_store q) = Ok store → filter_params date_cast q = Ok f →
  sorts pg_order (order_le collate_le (orderBy q (SORTABLE_EFFECTIVE pg_div now d store))) →
  sorted_by_ean q → 1 ≤ perPage ≤ MAX_PER_PAGE →
  let page i := list_products ilike collate_le date_cast pg_div pg_order now d slug (with_page q i perPage None) in
  let rows := selected ilike d q f store in
  ∃ sorted, sorted ≡ₚ rows ∧ NoDup sorted.*1 ∧
    StronglySorted (λ a b, order_le collate_le (orderBy q (SORTABLE_EFFECTIVE pg_div now d store)) a b = true) sorted ∧
    (∀ i, pg_count <$> (match page i with Ok r => Some r | Throw _ => None end) = Some (Z.of_nat (length rows))) ∧
    ∀ k, Z.of_nat (length rows) ≤ Z.of_nat k * perPage →
      concat ((λ i, match page (Z.of_nat i + 1) with Ok r => pg_rows r | Throw _ => [] end) <$> seq 0 k) =
      grid_row pg_div now d store (λ _, []) <$> sorted.
Proof.
  intros Ht Hs Hf Hsorts He Hp page rows.
  destruct (orderBy_ean q (SORTABLE_EFFECTIVE pg_div now d store) eq_refl He) as [dir Hdir].
  destruct (one_order ilike collate_le pg_order d Ht q f store (λ _, true) _ dir Hsorts Hdir) as (sorted & Hperm & Hsort & Hone).
  assert (Hrows : filter (λ _ : Prod, true = true) rows = rows) by apply filter_true.
  fold rows in Hperm, Hone. rewrite Hrows in Hperm, Hone.
  assert (Hpage : ∀ i, page i = Ok (Build_Paginated (grid_row pg_div now d store (λ _, []) <$> js_slice ((i - 1) * perPage) perPage sorted)
                                     (Z.of_nat (length rows)) i perPage)).
  { intros i. unfold page, list_products. cbn [with_page lq_store]. rewrite Hs. cbn [mbind Res_bind].
    rewrite (grid_page _ _ _ _ _ _ _ _ f) by done. cbn. fold rows. rewrite Hrows. unfold page_rows. by rewrite Hone. }
  exists sorted. split_and!; try done.
  - rewrite Hperm. unfold rows, selected. apply NoDup_fst_filter, NoDup_fst_map_to_list.
  - intros i. by rewrite Hpage.
  - intros k Hk. rewrite <-(page_list_all perPage k sorted); [|lia|rewrite (Permutation_length Hperm); nia].
    unfold pages. rewrite <-concat_fmap_comm. f_equal. apply list_fmap_ext. intros _ i _. rewrite Hpage. cbn.
    do 2 f_equal. lia.
Qed.

(* ------------------------------------------------------------------ *)
(** * A small catalogue                                                 *)
(* ------------------------------------------------------------------ *)

Definition demo_product (id : string) (name : string) (price cost : Z) : ProductRow :=
  {| p_id := id; p_name := Some name; p_supplier := None; p_status := Some "OK"; p_active := true; p_deleted := false;
     p_price := Some (Num price 2); p_cost := Some (Num cost 2); p_classificationId := None; p_monitored := false;
     p_externalId := None; p_averageUnitCost := None; p_unitSalePrice := None; p_margin := None |}.
Definition demo_base : BaseProductRow := Build_BaseProductRow None (Some "dipirona") true None None None None.

Definition demo_view : CatalogView F64 :=
  {| cw_sync := Build_SyncDb
       (Build_Catalog {[ "acme" := "t" ]}
          {[ 1 := demo_product "p1" ("Dipirona, " +:+ String QUOTE ("500" +:+ String QUOTE "")) 900 400;
             2 := demo_product "p2" "Dipirona" 1000 300 ]} ∅ ∅
          {[ (1, "DROGAL") := Build_SharedProductRow (Some (Num 800 2)) false None false ]}
          {[ "s" := Build_StoreRow "t" 7 "Loja" None true false ]} ∅ ∅ [] [] [] [] ∅ [] ∅ ∅)
       ∅ {[ (1, 7) := 3; (2, 7) := 0 ]} {[ 1 := demo_base; 2 := demo_base ]} ∅ [];
     cw_observation := ∅ |}.

Definition demo_query : ListProductsQuery F64 :=
  {| lq_page := None; lq_perPage := None; lq_name := None; lq_supplier := None; lq_classification := None; lq_status := None;
     lq_eans := None; lq_caderno := None; lq_monitored := None; lq_active := None; lq_receiptFrom := None;
     lq_receiptTo := None; lq_activeIngredient := None; lq_sortBy := None; lq_sortDirection := None;
     lq_store := Some "7"; lq_tolerance := None; lq_decision := None |}.

Definition any_ilike (a b : string) : bool := true.
Definition one_collation (a b : string) : bool := true.
Definition no_date (s : string) : Res Z := Throw (EError "invalid input syntax for type date").
Definition demo_div (a b : Numeric) : Numeric :=
  Num (nm_unscaled a * 10 ^ 20 * 10 ^ Z.of_nat (nm_scale b) / (nm_unscaled b * 10 ^ Z.of_nat (nm_scale a))) 20.
Definition demo_text (n : F64) : string := match f64_hundredths n with Some (_, h) => numeric_text (Num h 2) | None => "NaN" end.

(** The rows with equal keys in the order of the table, or in the opposite
    order on the later pages. *)
Definition fickle (le : Prod → Prod → bool) (limit offset : Z) (rows : list Prod) : list Prod :=
  js_sort le (if offset =? 0 then rows else reverse rows).

Lemma fickle_sorts (le : Prod → Prod → bool) :
  (∀ a b c, le a b = true → le b c = true → le a c = true) → (∀ a b, le a b = false → le b a = true) → sorts fickle le.
Proof.
  intros Htr Htot limit offset rows. unfold fickle. split; [|by apply js_sort_sorted].
  rewrite js_sort_perm. destruct (offset =? 0); [done|]. apply reverse_Permutation.
Qed.

Lemma by_ean_le a b : order_le one_collation by_ean a b = (a.1 <=? b.1).
Proof. unfold order_le, by_ean, Z.leb. cbn. by destruct (a.1 ?= b.1). Qed.

Lemma fickle_sorts_by_ean : sorts fickle (order_le one_collation by_ean).
Proof.
  apply fickle_sorts.
  - intros a b c. rewrite !by_ean_le, !Z.leb_le. lia.
  - intros a b. rewrite !by_ean_le, Z.leb_gt, Z.leb_le. lia.
Qed.

Definition demo_list (q : ListProductsQuery F64) (page : Z) : list string :=
  match list_products any_ilike one_collation no_date demo_div fickle 0 demo_view "acme" (with_page q page 1 None) with
  | Ok r => gr_ean <$> pg_rows r | Throw _ => []
  end.

Lemma list_pages_tile_witness : ∃ sorted : list Prod,
  sorted.*1 = [1; 2] ∧
  concat ((λ i, match list_products any_ilike one_collation no_date demo_div fickle 0 demo_view "acme"
                        (with_page demo_query (Z.of_nat i + 1) 1 None) with Ok r => pg_rows r | Throw _ => [] end) <$> seq 0 2) =
  grid_row demo_div 0 demo_view (Some "s") (λ _, []) <$> sorted.
Proof.
  destruct (list_pages_tile any_ilike one_collation no_date demo_div fickle 0 demo_view "acme" demo_query (Some "s")
              (Build_Filters [] [] None None) 1) as (sorted & Hp & Hn & Hs & _ & Hk).
  - done.
  - vm_compute. reflexivity.
  - reflexivity.
  - exact fickle_sorts_by_ean.
  - left. reflexivity.
  - done.
  - exists sorted. split; [|apply (Hk 2%nat); vm_compute; discriminate].
    assert (Hl : sorted.*1 ≡ₚ [1; 2]) by (rewrite Hp; vm_compute; apply Permutation_refl || apply Permutation_swap).
    apply (StronglySorted_unique_on (λ a b, a <=? b)); [intros a b _ _; rewrite !Z.leb_le; lia|done| |].
    + clear Hl Hp Hn Hk. induction Hs as [|x l Hl IH Hx]; constructor; [done|].
      apply Forall_fmap. eapply Forall_impl; [exact Hx|]. intros y. cbn. by rewrite by_ean_le.
    + by repeat constructor.
Defined.

(** With ties: sorted by the status, the first product is on both pages and
    the second on none. *)
Definition by_status : ListProductsQuery F64 :=
  {| lq_page := None; lq_perPage := None; lq_name := None; lq_supplier := None; lq_classification := None; lq_status := None;
     lq_eans := None; lq_caderno := None; lq_monitored := None; lq_active := None; lq_receiptFrom := None;
     lq_receiptTo := None; lq_activeIngredient := None; lq_sortBy := Some ["status"]; lq_sortDirection := None;
     lq_store := None; lq_tolerance := None; lq_decision := None |}.

Lemma ties_lose_a_product :
  sorts fickle (order_le one_collation (orderBy by_status (SORTABLE_EFFECTIVE demo_div 0 demo_view None))) ∧
  (selected any_ilike demo_view by_status (Build_Filters [] [] None None) None).*1 ≡ₚ [1; 2] ∧
  demo_list by_status 1 = demo_list by_status 2 ∧ length (demo_list by_status 1) = 1%nat.
Proof.
  split; [|split; [vm_compute; apply Permutation_refl || apply Permutation_swap|split; vm_compute; reflexivity]].
  apply fickle_sorts; intros a b; unfold order_le; cbn; destruct (p_status a.2), (p_status b.2); cbn; try done;
    intros c; destruct (p_status c.2); done.
Qed.

(** The decision may rest on a competitor the tenant has not enabled, which
    no row shows. *)
Definition demo_groups : list (IngredientGroup F64) :=
  match loadIngredientGroups any_ilike one_collation demo_div 0 demo_view "acme" demo_query with Ok g => g | Throw _ => [] end.

Lemma disabled_competitor_decides :
  enabledOrigins (cat demo_view) "acme" = Ok [] ∧
  map (λ g : IngredientGroup F64, fst <$> ig_competitorCombate g) demo_groups = [Some "DROGAL"] ∧
  concat (map (λ g : IngredientGroup F64, concat (map va_competitors (ig_variants g))) demo_groups) = [].
Proof. split; [|split]; vm_compute; reflexivity. Qed.

Lemma export_reads_back_witness : ∃ text,
  exportCsv any_ilike no_date demo_div demo_text demo_view "acme" demo_query = Ok text ∧
  Forall (λ row, length row = 8%nat) (csv_parse text).
Proof.
  destruct (exportCsv any_ilike no_date demo_div demo_text demo_view "acme" demo_query) as [text|e] eqn:He.
  - exists text. split; [done|].
    destruct (export_reads_back any_ilike no_date demo_div demo_text demo_view "acme" demo_query text He)
      as (origins & store & f & Ho & _ & _ & _ & Hl).
    vm_compute in Ho. injection Ho as <-. exact Hl.
  - exfalso. vm_compute in He. discriminate.
Defined.

Definition demo_variants : list (VariantRow F64) :=
  variant_row demo_div 0 demo_view [] 7 (Some "s") <$> ingredient_rows any_ilike one_collation demo_view demo_query.

Lemma ingredient_decision_witness :
  let g := buildGroup "dipirona" demo_variants (n_int 0) in
  ig_decision g = mix ∧ ∃ b, b ∈ demo_variants ∧ vr_ean b = 1 ∧ cheaper_variant demo_variants b.
Proof.
  destruct (ingredient_decision "dipirona" demo_variants (n_int 0)) as (_ & Hd & _).
  assert (Hm : ig_decision (buildGroup "dipirona" demo_variants (n_int 0)) = mix) by (vm_compute; reflexivity).
  split; [exact Hm|].
  destruct Hd as (b & p & Hb & _ & Hc & _ & Hmix & _); [rewrite Hm; discriminate|].
  exists b. split; [done|]. split; [|by apply Hmix].
  assert (He : (λ x, x.1.1.1) <$> ig_combate (buildGroup "dipirona" demo_variants (n_int 0)) = Some "1") by (vm_compute; reflexivity).
  rewrite Hc in He. cbn in He. injection He as He. unfold ean_text in He. by apply (inj pretty _ 1).
Defined.

Lemma decision_tally_witness :
  loadIngredientGroups any_ilike one_collation demo_div 0 demo_view "acme" demo_query = Ok demo_groups ∧
  (demo_groups ≫= λ g, (λ v, (ig_activeIngredient g, va_ean v)) <$> ig_variants g)
    ≡ₚ (λ x : string * Prod, (x.1, ean_text x.2.1)) <$> ingredient_rows any_ilike one_collation demo_view demo_query.
Proof.
  assert (He : loadIngredientGroups any_ilike one_collation demo_div 0 demo_view "acme" demo_query = Ok demo_groups)
    by (vm_compute; reflexivity).
  split; [exact He|]. apply (decision_tally any_ilike one_collation demo_div 0 demo_view "acme" demo_query demo_groups He).
Defined.

(* ------------------------------------------------------------------ *)
(** * The same projection as the suggestions                            *)
(* ------------------------------------------------------------------ *)

(** What a store's row shows in the grid is what the suggestion service
    prices with, an offer of the store that is not positive apart. *)
Lemma projection_agrees {N} `{JsNum N} pg_div now (d : CatalogView N) origins store competitors (p : Prod) :
  let g := grid_row pg_div now d store competitors p in
  let r := response_product (cat d) origins store p.1 p.2 in
  rp_ean r = gr_ean g ∧ rp_cost r = num_of (gr_cost g) ∧ rp_priceForSell r = num_of (gr_price g) ∧ rp_book r = gr_book g ∧
  ∀ pi, item_of d store p = Some pi → (∀ x, pi_price_offer pi = Some x → 0 < nm_unscaled x) →
    rp_priceForOffer r = num_of (gr_priceOffer g).
Proof.
  split_and!; try done. intros pi Hpi Hpos. cbn. unfold EFF_PRICE_OFFER. rewrite Hpi.
  unfold item_of in Hpi. rewrite Hpi. cbn. destruct (pi_price_offer pi) as [x|]; cbn; [|done].
  by rewrite (proj2 (Z.ltb_lt _ _) (Hpos x eq_refl)).
Qed.

(** An empty position is dropped, so the directions move up. *)
Lemma directions_move_up :
  parseSortDirectionList (Some [",desc"]) = Some ["DESC"] ∧
  buildMultiSortClause (parseSortList (Some ["name,price"])) (parseSortDirectionList (Some [",desc"])) Some [] =
    [("name", DESC); ("price", ASC)].
Proof. split; reflexivity. Qed.
