(* ===== verification/Auth.v ===== *)
(** Sessions ([auth/auth.service.ts], its entities and DTOs): login, rotation
    of refresh tokens, logout, as programs over repository calls, each a
    statement of its own, and any number of requests interleaved.

    The password hash (argon2), SHA-256 and the signature of access tokens
    are arguments; time is the clock of the requests in milliseconds. *)

From Stdlib Require Import Ascii String.
From S2P Require Import Prelude JsText Enums Programs.
Open Scope string_scope.
Open Scope list_scope.
Open Scope Z_scope.

Inductive UserRole := ADMIN | OPERATOR | VIEWER.

Definition ACCESS_TOKEN_TTL_SECONDS : Z := 60 * 60.
Definition REFRESH_TOKEN_TTL_SECONDS : Z := 60 * 60 * 24 * 14.
Definition GRACE_MS : Z := 60000.
Definition DUMMY_PASSWORD_HASH : string :=
  "$argon2id$v=19$m=65536,t=3,p=4$emFoifpTW+pPSKKpEXxWqw$10xBZf7w3NUYgtqkBmo5CSolTR6qeXOlygCVzYUe8EU".

(** [core.user], by [id]. *)
Record UserEntity := {
  ue_tenantId : string; ue_email : string; ue_passwordHash : string; ue_role : UserRole; ue_status : string; ue_deleted : bool;
}.
(** [core.tenant], by [slug]. *)
Record AuthTenant := { at_status : TenantStatus; at_deleted : bool }.
(** [core.refresh_token], by [token_hash]. *)
Record RefreshTokenEntity := { rt_userId : string; rt_expiresAt : Z; rt_revokedAt : option Z }.

Record AuthDb := {
  au_users : gmap string UserEntity; au_tenants : gmap string AuthTenant; au_tokens : gmap string RefreshTokenEntity;
}.

Record LoginDto := { lo_email : string; lo_password : string; lo_tenantSlug : string }.
Record LoginResponseDto := { lr_accessToken : string; lr_refreshToken : string; lr_expiresIn : Z }.
Record JwtPayload := { jw_sub : string; jw_tenantId : string; jw_role : UserRole }.

(** What the service calls; [SaveToken] answers whether the unique index of
    the hashes took the row. *)
Inductive ACall : Type → Type :=
| FindTenant (slug : string) : ACall (option AuthTenant)
| FindUser (tenantId email : string) : ACall (option (string * UserEntity))
| FindUserById (id : string) : ACall (option UserEntity)
| FindToken (hash : string) : ACall (option RefreshTokenEntity)
| RotateToken (hash : string) (revokedAt : Z) : ACall unit
| RevokeUser (userId : string) (revokedAt : Z) : ACall unit
| SaveToken (hash : string) (row : RefreshTokenEntity) : ACall bool
| VerifyPassword (hash plain : string) : ACall bool
| Now : ACall Z
| RandomToken : ACall string.

Abbreviation AuthProg := (Program ACall).

Section AuthService.
Variable sha256 : string → string.
(** [jwt.sign] of a payload that expires after so many seconds. *)
Variable jwt_sign : JwtPayload → Z → string.

Definition hashToken (plain : string) : string := sha256 plain.
Definition invalid_credentials : Exn := EUnauthorized "Invalid credentials".
Definition invalid_refresh : Exn := EUnauthorized "Invalid refresh token".

(** The driver's error, a 500 for the client. *)
Definition duplicate_token : Exn := EError "duplicate key value violates unique constraint UQ_REFRESH_TOKEN_HASH".

Definition issueTokens (userId tenantId : string) (role : UserRole) : AuthProg LoginResponseDto :=
  let accessToken := jwt_sign {| jw_sub := userId; jw_tenantId := tenantId; jw_role := role |} ACCESS_TOKEN_TTL_SECONDS in
  refreshToken ← stmt RandomToken;
  now ← stmt Now;
  saved ← stmt (SaveToken (hashToken refreshToken)
          {| rt_userId := userId; rt_expiresAt := now + REFRESH_TOKEN_TTL_SECONDS * 1000; rt_revokedAt := None |});
  if negb saved then p_throw duplicate_token else
  mret {| lr_accessToken := accessToken; lr_refreshToken := refreshToken; lr_expiresIn := ACCESS_TOKEN_TTL_SECONDS |}.

(** [revoked_at = now - GRACE_MS] on the tokens not yet revoked. *)
Definition revokeAllForUser (userId : string) : AuthProg unit :=
  now ← stmt Now;
  stmt (RevokeUser userId (now - GRACE_MS)).

Definition usable_tenant (t : option AuthTenant) : bool :=
  match t with Some t => negb (bool_decide (at_status t = TENANT_SUSPENDED)) | None => false end.

Definition login (dto : LoginDto) : AuthProg LoginResponseDto :=
  tenant ← stmt (FindTenant (lo_tenantSlug dto));
  user ← stmt (FindUser (lo_tenantSlug dto) (lo_email dto));
  match user with
  | Some (id, u) =>
      if usable_tenant tenant && String.eqb (ue_status u) "active" then
        ok ← stmt (VerifyPassword (ue_passwordHash u) (lo_password dto));
        if (ok : bool) then issueTokens id (ue_tenantId u) (ue_role u) else p_throw invalid_credentials
      else stmt (VerifyPassword DUMMY_PASSWORD_HASH (lo_password dto));; p_throw invalid_credentials
  | None => stmt (VerifyPassword DUMMY_PASSWORD_HASH (lo_password dto));; p_throw invalid_credentials
  end.

(** [row.revokedAt && Date.now() - row.revokedAt >= GRACE_MS]; the clock is
    read when the token is revoked. *)
Definition late_reuse (row : RefreshTokenEntity) : AuthProg bool :=
  match rt_revokedAt row with
  | Some r => now ← stmt Now; mret (GRACE_MS <=? now - r)
  | None => mret false
  end.

Definition refresh (refreshToken : string) : AuthProg LoginResponseDto :=
  let hash := hashToken refreshToken in
  found ← stmt (FindToken hash);
  match found with
  | None => p_throw invalid_refresh
  | Some row =>
      late ← late_reuse row;
      if (late : bool) then revokeAllForUser (rt_userId row);; p_throw invalid_refresh
      else
        now ← stmt Now;
        if rt_expiresAt row <? now then p_throw invalid_refresh
        else
          user ← stmt (FindUserById (rt_userId row));
          match user with
          | Some u =>
              if String.eqb (ue_status u) "active" then
                tenant ← stmt (FindTenant (ue_tenantId u));
                if usable_tenant tenant then
                  match rt_revokedAt row with
                  | None => now ← stmt Now; stmt (RotateToken hash now)
                  | Some _ => mret ()
                  end;;
                  issueTokens (rt_userId row) (ue_tenantId u) (ue_role u)
                else p_throw invalid_refresh
              else p_throw invalid_refresh
          | None => p_throw invalid_refresh
          end
  end.

Definition logout (userId : string) : AuthProg unit := revokeAllForUser userId.

(* ------------------------------------------------------------------ *)
(** * Meaning of the calls                                              *)
(* ------------------------------------------------------------------ *)

(** [argon2.verify], [false] when it throws. *)
Variable verify : string → string → bool.

(** [citext] equality. *)
Definition same_email (a b : string) : bool := String.eqb (str_lower a) (str_lower b).

(** The answer of a call to the database [d] at the time [clock]; [fresh] is
    the text a random token would be. *)
Definition answer_of {A} (c : ACall A) (d : AuthDb) (clock : Z) (fresh : string) : A :=
  match c in ACall A return A with
  | FindTenant slug => t ← au_tenants d !! slug; if at_deleted t then None else Some t
  | FindUser tenantId email =>
      head (filter (λ x : string * UserEntity, ue_tenantId x.2 = tenantId ∧ same_email (ue_email x.2) email = true
                                               ∧ ue_deleted x.2 = false) (map_to_list (au_users d)))
  | FindUserById id => u ← au_users d !! id; if ue_deleted u then None else Some u
  | FindToken hash => au_tokens d !! hash
  | VerifyPassword hash plain => verify hash plain
  | Now => clock
  | RotateToken _ _ | RevokeUser _ _ => tt
  | SaveToken hash _ => match au_tokens d !! hash with None => true | Some _ => false end
  | RandomToken => fresh
  end.

Definition revoke (at_ : Z) (row : RefreshTokenEntity) : RefreshTokenEntity :=
  {| rt_userId := rt_userId row; rt_expiresAt := rt_expiresAt row;
     rt_revokedAt := match rt_revokedAt row with Some r => Some r | None => Some at_ end |}.

Definition with_tokens (f : gmap string RefreshTokenEntity → gmap string RefreshTokenEntity) (d : AuthDb) : AuthDb :=
  Build_AuthDb (au_users d) (au_tenants d) (f (au_tokens d)).

(** What a call writes: [UPDATE ... WHERE revoked_at IS NULL], [INSERT]. *)
Definition writes {A} (c : ACall A) : AuthDb → AuthDb :=
  match c with
  | RotateToken hash at_ => with_tokens (alter (revoke at_) hash)
  | RevokeUser userId at_ => with_tokens (fmap (λ row, if String.eqb (rt_userId row) userId then revoke at_ row else row))
  | SaveToken hash row => with_tokens (λ m, match m !! hash with None => <[hash := row]> m | Some _ => m end)
  | _ => λ d, d
  end.

(* ------------------------------------------------------------------ *)
(** * Interleavings                                                     *)
(* ------------------------------------------------------------------ *)

(** What a request answers with. *)
Inductive AuthReply := Tokens (r : LoginResponseDto) | Done.

Inductive AuthRequest := Login (dto : LoginDto) | Refresh (refreshToken : string) | Logout (userId : string).

Definition handle (r : AuthRequest) : AuthProg AuthReply :=
  match r with
  | Login dto => t ← login dto; mret (Tokens t)
  | Refresh refreshToken => t ← refresh refreshToken; mret (Tokens t)
  | Logout userId => logout userId;; mret Done
  end.

(** The requests begun, by number, each with what is left of it. *)
Record AuthState := { as_db : AuthDb; as_clock : Z; as_requests : gmap nat (AuthProg AuthReply) }.

Inductive auth_step (g : AuthState) : AuthState → Prop :=
| step_begin i r : as_requests g !! i = None →
    auth_step g (Build_AuthState (as_db g) (as_clock g) (<[i := handle r]> (as_requests g)))
| step_call i A (c : ACall A) k fresh : as_requests g !! i = Some (Vis c k) →
    auth_step g (Build_AuthState (writes c (as_db g)) (as_clock g)
                   (<[i := k (answer_of c (as_db g) (as_clock g) fresh)]> (as_requests g)))
| step_time t : as_clock g ≤ t → auth_step g (Build_AuthState (as_db g) t (as_requests g))
(** Administration of users and tenants. *)
| step_admin users tenants :
    auth_step g (Build_AuthState (Build_AuthDb users tenants (au_tokens (as_db g))) (as_clock g) (as_requests g)).

(** The next [n] calls of a request, nothing happening in between. *)
Fixpoint run_calls {R} (n : nat) (clock : Z) (fresh : string) (p : AuthProg R) (d : AuthDb) : AuthProg R * AuthDb :=
  match n, p with
  | S n, Vis c k => run_calls n clock fresh (k (answer_of c d clock fresh)) (writes c d)
  | _, _ => (p, d)
  end.

End AuthService.
