(* ===== verification/AuthLaws.v ===== *)
(** Sessions under interleaving: what a login or a rotation must have seen
    before it issues tokens, what a revocation guarantees, and where the
    grace window of rotation undoes a logout.  The proofs run a request
    while others write as [later] allows. *)

From Stdlib Require Import Ascii String.
From stdpp Require Import relations.
From S2P Require Import Prelude JsText Enums Programs Auth.
Open Scope string_scope.
Open Scope list_scope.
Open Scope Z_scope.

(* ------------------------------------------------------------------ *)
(** * The tokens over time                                              *)
(* ------------------------------------------------------------------ *)

Definition row_later (a b : RefreshTokenEntity) : Prop :=
  rt_userId b = rt_userId a ∧ rt_expiresAt b = rt_expiresAt a ∧ (is_Some (rt_revokedAt a) → rt_revokedAt b = rt_revokedAt a).

#[export] Instance row_later_preorder : PreOrder row_later.
Proof.
  split; [by intros a|]. intros a b c (? & ? & H1) (? & ? & H2). split; [congruence|]. split; [congruence|].
  intros Hr. rewrite H2; [by apply H1|]. by rewrite H1.
Qed.

(** The same rows, perhaps revoked, and new ones. *)
Definition later (a b : AuthDb) : Prop :=
  ∀ h row, au_tokens a !! h = Some row → ∃ row', au_tokens b !! h = Some row' ∧ row_later row row'.

Lemma same_later a b h row : au_tokens b = au_tokens a → au_tokens a !! h = Some row →
  ∃ row', au_tokens b !! h = Some row' ∧ row_later row row'.
Proof. intros -> H. by exists row. Qed.

#[export] Instance later_preorder : PreOrder later.
Proof.
  split; [intros a h row H; by apply (same_later a a)|]. intros a b c H1 H2 h row H.
  destruct (H1 _ _ H) as (x & Hx & ?), (H2 _ _ Hx) as (y & Hy & ?). exists y. split; [done|by etrans].
Qed.

Lemma revoke_later t row : row_later row (revoke t row).
Proof. split; [done|]. split; [done|]. cbn. by intros [r ->]. Qed.

Lemma later_fmap a b f : (∀ row, row_later row (f row)) → au_tokens b = f <$> au_tokens a → later a b.
Proof. intros Hf E h row H. rewrite E, lookup_fmap, H. cbn. eauto. Qed.

Lemma writes_later {A} (c : ACall A) d : later d (writes c d).
Proof.
  destruct c; try reflexivity.
  - intros h row H. cbn. destruct (decide (hash = h)) as [->|n].
    + rewrite lookup_alter_eq, H. cbn. eauto using revoke_later.
    + rewrite lookup_alter_ne by done. by exists row.
  - eapply later_fmap; [|done]. intros row. cbn. case_match; [apply revoke_later|reflexivity].
  - intros h row' H. cbn. destruct (au_tokens d !! hash) eqn:E; [by exists row'|].
    rewrite lookup_insert_ne by congruence. by exists row'.
Qed.

(** No token is revoked at a time to come. *)
Definition tokens_dated (d : AuthDb) (t : Z) : Prop :=
  ∀ h row r, au_tokens d !! h = Some row → rt_revokedAt row = Some r → r ≤ t.

(** What a call may write at [t]. *)
Definition dated {A} (c : ACall A) (t : Z) : Prop :=
  match c with
  | RotateToken _ r | RevokeUser _ r => r ≤ t
  | SaveToken _ row => rt_revokedAt row = None
  | _ => True
  end.

Lemma writes_dated {A} (c : ACall A) d t : dated c t → tokens_dated d t → tokens_dated (writes c d) t.
Proof.
  intros Hc Hd h row r. destruct c; cbn in *; try by apply Hd.
  - destruct (decide (hash = h)) as [->|n]; [|rewrite lookup_alter_ne by done; by apply Hd].
    rewrite lookup_alter_eq. destruct (au_tokens d !! h) as [x|] eqn:E; cbn; intros; simplify_eq. cbn in *.
    case_match; simplify_eq; eauto.
  - rewrite lookup_fmap. destruct (au_tokens d !! h) as [x|] eqn:E; cbn; intros; simplify_eq.
    case_match; cbn in *; eauto. case_match; simplify_eq; eauto.
  - destruct (au_tokens d !! hash) eqn:E; [by apply Hd|]. destruct (decide (hash = h)) as [->|n].
    + rewrite lookup_insert_eq. intros. simplify_eq.
    + rewrite lookup_insert_ne by done. by apply Hd.
Qed.

Section AuthLaws.
Variable sha256 : string → string.
Variable jwt_sign : JwtPayload → Z → string.
Variable verify : string → string → bool.
#[local] Abbreviation auth_step := (auth_step sha256 jwt_sign verify).

(* ------------------------------------------------------------------ *)
(** * A request among the others                                        *)
(* ------------------------------------------------------------------ *)

Definition APost (R : Type) : Type := Res R → AuthDb → Z → Prop.

(** From [d] at [t], every execution of [p] among the others writes what is
    [dated] and ends in [Q]. *)
Fixpoint holds {R} (p : AuthProg R) (Q : APost R) (d : AuthDb) (t : Z) : Prop :=
  match p with
  | Ret r => ∀ d' t', later d d' → t ≤ t' → Q r d' t'
  | Vis c k => ∀ d' t', later d d' → t ≤ t' →
      dated c t' ∧ ∀ fresh, holds (k (answer_of verify c d' t' fresh)) Q (writes c d') t'
  end.

Lemma holds_later {R} (p : AuthProg R) Q d t d' t' : later d d' → t ≤ t' → holds p Q d t → holds p Q d' t'.
Proof. destruct p; cbn; intros H1 H2 H ?? H3 H4; (apply H; [by etrans|lia]). Qed.

Lemma holds_mono {R} (p : AuthProg R) (Q Q' : APost R) :
  (∀ r d t, Q r d t → Q' r d t) → ∀ d t, holds p Q d t → holds p Q' d t.
Proof.
  intros HQ. induction p as [r|A c k IH]; cbn; intros d t H ????; [eauto|].
  destruct (H d' t') as [Hd Hk]; auto.
Qed.

Lemma holds_bind {R S} (p : AuthProg R) (f : R → AuthProg S) Q d t :
  holds p (λ r d t, match r with Ok a => holds (f a) Q d t | Throw e => Q (Throw e) d t end) d t → holds (p ≫= f) Q d t.
Proof.
  unfold mbind, Program_bind. revert d t. induction p as [[a|e]|A c k IH]; cbn; intros d t H.
  - apply (H d t); [reflexivity|lia].
  - exact H.
  - intros ????. destruct (H d' t') as [Hd Hk]; auto.
Qed.

Lemma holds_ret {R} (a : R) (Q : APost R) d t : (∀ d' t', later d d' → t ≤ t' → Q (Ok a) d' t') → holds (mret a) Q d t.
Proof. auto. Qed.

Lemma holds_throw {R} e (Q : APost R) d t : (∀ d' t', later d d' → t ≤ t' → Q (Throw e) d' t') → holds (p_throw e) Q d t.
Proof. auto. Qed.

(** A call and what follows it. *)
Lemma holds_call {A R} (c : ACall A) (f : A → AuthProg R) Q d t :
  (∀ d' t', later d d' → t ≤ t' → dated c t' ∧ ∀ fresh, holds (f (answer_of verify c d' t' fresh)) Q (writes c d') t') →
  holds (stmt c ≫= f) Q d t.
Proof. auto. Qed.

(** A call that writes nothing, whatever it answers. *)
Definition read_only {A} (c : ACall A) : Prop :=
  match c with RotateToken _ _ | RevokeUser _ _ | SaveToken _ _ => False | _ => True end.
Lemma holds_read {A R} (c : ACall A) (f : A → AuthProg R) Q d t : read_only c →
  (∀ a d' t', later d d' → t ≤ t' → holds (f a) Q d' t') → holds (stmt c ≫= f) Q d t.
Proof. intros Hc H. apply holds_call. intros d' t' H1 H2. split; [by destruct c|]. intros fresh. destruct c; try done; by apply H. Qed.

Lemma holds_now {R} (f : Z → AuthProg R) Q d t :
  (∀ d' t', later d d' → t ≤ t' → holds (f t') Q d' t') → holds (stmt Now ≫= f) Q d t.
Proof. intros H. apply holds_call. intros d' t' H1 H2. split; [done|]. intros fresh. by apply H. Qed.

Definition request_holds (i : nat) (Q : APost AuthReply) (g : AuthState) : Prop :=
  ∃ p, as_requests g !! i = Some p ∧ holds p Q (as_db g) (as_clock g).

Lemma step_later g g' : auth_step g g' → later (as_db g) (as_db g') ∧ as_clock g ≤ as_clock g'.
Proof. intros []; cbn; split; try reflexivity; try lia; [apply writes_later|]. intros h row H. by exists row. Qed.

Lemma steps_later g g' : rtc auth_step g g' → later (as_db g) (as_db g') ∧ as_clock g ≤ as_clock g'.
Proof.
  induction 1 as [g|g1 g2 g3 H1 _ [IH1 IH2]]; [split; [reflexivity|lia]|].
  destruct (step_later _ _ H1). split; [by etrans|lia].
Qed.

Lemma request_holds_step i Q g g' : auth_step g g' → request_holds i Q g → request_holds i Q g'.
Proof.
  intros Hs (p & Hp & H). pose proof (step_later _ _ Hs) as [Hl Ht]. apply (holds_later _ _ _ _ _ _ Hl Ht) in H as H'.
  destruct Hs as [j r Hj|j A c k fresh Hj|s Hs|us ts]; unfold request_holds in *; cbn in *.
  - rewrite lookup_insert_ne by congruence. eauto.
  - destruct (decide (j = i)) as [->|n]; [|rewrite lookup_insert_ne by done; eauto].
    rewrite lookup_insert_eq. eexists; split; [done|]. rewrite Hj in Hp. simplify_eq.
    destruct (H (as_db g) (as_clock g)) as [_ Hk]; [reflexivity|lia|]. apply Hk.
  - eauto.
  - eauto.
Qed.

Lemma request_holds_answered i Q g g' r : rtc auth_step g g' → request_holds i Q g →
  as_requests g' !! i = Some (Ret r) → Q r (as_db g') (as_clock g').
Proof.
  intros Hs. induction Hs as [g|g1 g2 g3 H1 _ IH]; [|eauto using request_holds_step].
  intros (p & Hp & H) Hr. rewrite Hp in Hr. simplify_eq. apply H; [reflexivity|lia].
Qed.

(* ------------------------------------------------------------------ *)
(** * The programs                                                      *)
(* ------------------------------------------------------------------ *)

Definition ends {R} : APost R := λ _ _ _, True.

Lemma issueTokens_ends userId tenantId role d t : holds (issueTokens sha256 jwt_sign userId tenantId role) ends d t.
Proof.
  unfold issueTokens. apply holds_read; [done|]. intros a d1 t1 _ _. apply holds_now. intros d2 t2 _ _.
  apply holds_call. intros d3 t3 _ _. split; [done|]. intros fresh. by destruct (answer_of _ _ _ _ _).
Qed.

(** Every token of the user in [d] is revoked in [d']. *)
Definition all_revoked (userId : string) (d d' : AuthDb) : Prop :=
  ∀ h row, au_tokens d !! h = Some row → rt_userId row = userId →
    ∃ row', au_tokens d' !! h = Some row' ∧ is_Some (rt_revokedAt row').

Lemma all_revoked_later userId a b c : all_revoked userId a b → later b c → all_revoked userId a c.
Proof.
  intros H Hl h row Hh Hu. destruct (H h row Hh Hu) as (x & Hx & Hr), (Hl _ _ Hx) as (y & Hy & Hxy).
  exists y. split; [done|]. destruct Hxy as (_ & _ & E). by rewrite E.
Qed.

Lemma revokeAll_revokes userId d t : holds (revokeAllForUser userId) (λ r d' t', r = Ok tt ∧ all_revoked userId d d') d t.
Proof.
  unfold revokeAllForUser. apply holds_now. intros d1 t1 H1 Ht1. intros d2 t2 H2 Ht2. split; [unfold dated, GRACE_MS; lia|].
  intros fresh d3 t3 H3 Ht3. split; [done|]. apply (all_revoked_later _ _ (writes (RevokeUser userId (t1 - GRACE_MS)) d2)); [|done].
  intros h row Hh Hu. destruct (transitivity H1 H2 _ _ Hh) as (x & Hx & E & _).
  cbn. rewrite lookup_fmap, Hx. cbn. eexists. split; [done|].
  rewrite E, Hu, String.eqb_refl. cbn. by case_match.
Qed.

Lemma login_ends dto d t : holds (login sha256 jwt_sign dto) ends d t.
Proof.
  unfold login. apply holds_read; [done|]. intros tenant d1 t1 _ _. apply holds_read; [done|]. intros [[id u]|] d2 t2 _ _.
  - destruct (_ && _); apply holds_read; try done. intros [] d3 t3 _ _; [apply issueTokens_ends|done].
  - by apply holds_read.
Qed.

(** A token revoked for [GRACE_MS] when the refresh begins. *)
Lemma refresh_late token d t row r :
  au_tokens d !! hashToken sha256 token = Some row → rt_revokedAt row = Some r → r + GRACE_MS ≤ t →
  holds (refresh sha256 jwt_sign token) (λ res d' t', res = Throw invalid_refresh ∧ all_revoked (rt_userId row) d d') d t.
Proof.
  intros Hrow Hr Ht. unfold refresh. apply holds_call. intros d1 t1 H1 Ht1. split; [done|]. intros fresh.
  destruct (H1 _ _ Hrow) as (row1 & E1 & Eu & _ & Er). cbn. rewrite E1. unfold late_reuse. rewrite Er, Hr by eauto.
  apply holds_now. intros d2 t2 H2 Ht2. cbn. rewrite (proj2 (Z.leb_le _ _)) by lia. apply (holds_bind (revokeAllForUser _)).
  eapply holds_mono, revokeAll_revokes. intros r3 d3 t3 [-> H3]. rewrite Eu in H3. intros d4 t4 H4 _. split; [done|].
  intros h x Hx Hu. destruct (transitivity H1 H2 _ _ Hx) as (y & Hy & E & _).
  destruct (H3 h y Hy) as (z & Hz & Hz'); [congruence|]. destruct (H4 _ _ Hz) as (w & Hw & _ & _ & E').
  exists w. split; [done|]. by rewrite E'.
Qed.

Lemma refresh_ends token d t : holds (refresh sha256 jwt_sign token) ends d t.
Proof.
  unfold refresh. apply holds_read; [done|]. intros [row|] d1 t1 _ _; [|done]. apply holds_bind.
  apply (holds_mono _ ends); [|unfold late_reuse; destruct (rt_revokedAt row); [by apply holds_now|done]].
  intros [[]|e] d2 t2 _; [| |done].
  - apply (holds_bind (revokeAllForUser _)). eapply holds_mono, revokeAll_revokes. by intros ? ? ? [-> _].
  - apply holds_now. intros d3 t3 _ _. case_match; [done|]. apply holds_read; [done|]. intros [u|] d4 t4 _ _; [|done].
    case_match; [|done]. apply holds_read; [done|]. intros tenant d5 t5 _ _. case_match; [|done]. apply holds_bind.
    apply (holds_mono _ ends); [intros [[]|e] d6 t6 _; [apply issueTokens_ends|done]|].
    destruct (rt_revokedAt row); [done|]. apply holds_now. intros d6 t6 _ _ d7 t7 _ Ht. by split.
Qed.

Lemma handle_ends r d t : holds (handle sha256 jwt_sign r) ends d t.
Proof.
  destruct r; unfold handle.
  - apply (holds_bind (login _ _ _)). refine (holds_mono _ ends _ _ _ _ (login_ends _ _ _)). by intros [].
  - apply (holds_bind (refresh _ _ _)). refine (holds_mono _ ends _ _ _ _ (refresh_ends _ _ _)). by intros [].
  - apply (holds_bind (logout _)). eapply holds_mono, revokeAll_revokes. by intros [].
Qed.

(* ------------------------------------------------------------------ *)
(** * The system                                                        *)
(* ------------------------------------------------------------------ *)

Definition begin (i : nat) (r : AuthRequest) (g : AuthState) : AuthState :=
  Build_AuthState (as_db g) (as_clock g) (<[i := handle sha256 jwt_sign r]> (as_requests g)).

Definition opened (d : AuthDb) (t : Z) : AuthState := Build_AuthState d t ∅.

(** The tokens are dated, and so will be what the requests write. *)
Definition good (g : AuthState) : Prop :=
  tokens_dated (as_db g) (as_clock g) ∧ ∀ i, is_Some (as_requests g !! i) → request_holds i ends g.

Lemma tokens_dated_mono d t t' : t ≤ t' → tokens_dated d t → tokens_dated d t'.
Proof. intros Ht H h row r Hh Hr. specialize (H _ _ _ Hh Hr). lia. Qed.

Lemma auth_good_step g g' : auth_step g g' → good g → good g'.
Proof.
  intros Hs [Hd Hi]. assert (∀ i, is_Some (as_requests g !! i) → request_holds i ends g') as Hi'.
  { intros i H. eauto using request_holds_step. }
  destruct Hs as [j r Hj|j A c k fresh Hj|s Hs|us ts]; split; cbn in *; try done.
  - intros i H. destruct (decide (i = j)) as [->|n]; [|rewrite lookup_insert_ne in H by done; by apply Hi'].
    exists (handle sha256 jwt_sign r). cbn. rewrite lookup_insert_eq. split; [done|apply handle_ends].
  - destruct (Hi j) as (p & Hp & H); [eauto|]. rewrite Hj in Hp. simplify_eq.
    apply writes_dated; [|done]. apply (H (as_db g) (as_clock g)); [reflexivity|lia].
  - intros i H. apply Hi'. destruct (decide (i = j)) as [->|n]; [eauto|]. by rewrite lookup_insert_ne in H.
  - by apply (tokens_dated_mono _ (as_clock g)).
Qed.

Lemma auth_good_reachable d t g : tokens_dated d t → rtc auth_step (opened d t) g → good g.
Proof.
  intros Hd H. assert (good (opened d t)) as Hg.
  { split; [done|]. intros i Hi. cbn in Hi. rewrite lookup_empty in Hi. by destruct Hi. }
  revert Hg. induction H; eauto using auth_good_step.
Qed.

(** How a request begun in [g] ends, when [p] alone among the others does. *)
Lemma begun_answers i r Q g g' res : holds (handle sha256 jwt_sign r) Q (as_db g) (as_clock g) →
  rtc auth_step (begin i r g) g' → as_requests g' !! i = Some (Ret res) → Q res (as_db g') (as_clock g').
Proof.
  intros H Hs Hr. eapply request_holds_answered; [exact Hs| |exact Hr].
  exists (handle sha256 jwt_sign r). cbn. by rewrite lookup_insert_eq.
Qed.

(** The family is revoked when a token is used long after its revocation. *)
Lemma late_refresh_refused i token g g' row r res :
  au_tokens (as_db g) !! hashToken sha256 token = Some row → rt_revokedAt row = Some r → r + GRACE_MS ≤ as_clock g →
  rtc auth_step (begin i (Refresh token) g) g' → as_requests g' !! i = Some (Ret res) →
  res = Throw invalid_refresh ∧ all_revoked (rt_userId row) (as_db g) (as_db g').
Proof.
  intros Hrow Hr Ht. apply (begun_answers _ _ (λ res d' t', res = Throw invalid_refresh ∧ all_revoked (rt_userId row) (as_db g) d')).
  unfold handle. apply (holds_bind (refresh _ _ _)). eapply holds_mono, refresh_late; try done. intros [] ? ? [? ?]; by simplify_eq.
Qed.

(** A refresh with a token revoked [GRACE_MS] ago or more is refused,
    whatever the other requests do meanwhile, and when it is answered every
    token that the user had when it began is revoked. *)
Theorem revoked_token_dead i token g g' row r res :
  as_requests g !! i = None →
  au_tokens (as_db g) !! hashToken sha256 token = Some row → rt_revokedAt row = Some r → r + GRACE_MS ≤ as_clock g →
  rtc auth_step (begin i (Refresh token) g) g' → as_requests g' !! i = Some (Ret res) →
  res = Throw invalid_refresh ∧
  ∀ h old, au_tokens (as_db g) !! h = Some old → rt_userId old = rt_userId row →
    ∃ new, au_tokens (as_db g') !! h = Some new ∧ is_Some (rt_revokedAt new).
Proof. intros _. apply late_refresh_refused. Qed.

(** [C10] After a logout has been answered, and [GRACE_MS] later, no refresh with a
    token that the user had when the logout began is served: whatever ran
    between and beside, a rotation or a second logout included. *)
Theorem logout_ends_sessions d t0 g0 i userId g1 g2 j token row g3 res :
  tokens_dated d t0 → rtc auth_step (opened d t0) g0 → as_requests g0 !! i = None →
  au_tokens (as_db g0) !! hashToken sha256 token = Some row → rt_userId row = userId →
  rtc auth_step (begin i (Logout userId) g0) g1 → as_requests g1 !! i = Some (Ret (Ok Done)) →
  rtc auth_step g1 g2 → as_requests g2 !! j = None → as_clock g1 + GRACE_MS ≤ as_clock g2 →
  rtc auth_step (begin j (Refresh token) g2) g3 → as_requests g3 !! j = Some (Ret res) →
  res = Throw invalid_refresh.
Proof.
  intros Hd H0 Hi Hrow Hu H1 Hr1 H2 Hj Ht H3 Hr3.
  assert (good g1) as [Hd1 _].
  { apply (auth_good_reachable d t0); [done|]. etrans; [exact H0|]. eapply rtc_l; [|exact H1]. by constructor. }
  assert (all_revoked userId (as_db g0) (as_db g1)) as Hall.
  { apply (begun_answers i (Logout userId) (λ r d' t', all_revoked userId (as_db g0) d') g0 g1 (Ok Done)); try done.
    unfold handle. apply (holds_bind (logout _)). eapply holds_mono, revokeAll_revokes. intros ? d' t' [-> H].
    intros d2 t2 H4 _. by apply (all_revoked_later _ _ d'). }
  destruct (Hall _ _ Hrow Hu) as (x & Hx & [r Hr]).
  destruct (steps_later _ _ H2) as [Hl _]. destruct (Hl _ _ Hx) as (y & Hy & _ & _ & Ey). rewrite Hr in Ey.
  specialize (Hd1 _ _ _ Hx Hr).
  eapply (late_refresh_refused j token g2 g3 y r res); [exact Hy|by apply Ey|lia|done..].
Qed.

(** The request [i] makes its next [n] calls. *)
Definition run_request (n : nat) (fresh : string) (i : nat) (g : AuthState) : AuthState :=
  match as_requests g !! i with
  | Some p => let r := run_calls verify n (as_clock g) fresh p (as_db g) in
              Build_AuthState r.2 (as_clock g) (<[i := r.1]> (as_requests g))
  | None => g
  end.

Lemma run_request_steps n fresh i g : rtc auth_step g (run_request n fresh i g).
Proof.
  unfold run_request. destruct (as_requests g !! i) as [p|] eqn:E; [|done].
  revert p g E. induction n as [|n IH]; intros p [d t q] E; cbn in E.
  - cbn. by rewrite (insert_id q i p E).
  - destruct p as [r|A c k]; cbn; [by rewrite (insert_id q i _ E)|].
    eapply rtc_l; [apply (step_call _ _ _ (Build_AuthState d t q) i A c k fresh E)|].
    specialize (IH (k (answer_of verify c d t fresh)) (Build_AuthState (writes c d) t (<[i := k (answer_of verify c d t fresh)]> q))).
    cbn in IH. rewrite insert_insert_eq in IH. apply IH. by rewrite lookup_insert_eq.
Qed.

Lemma begin_step i r g : as_requests g !! i = None → auth_step g (begin i r g).
Proof. intros H. by constructor. Qed.

(* ------------------------------------------------------------------ *)
(** * What a request has seen                                           *)
(* ------------------------------------------------------------------ *)

(** A call and its answer. *)
Inductive AEvent := | Ev {A : Type} (c : ACall A) (a : A).

(** Every execution of [p] after [es], whatever its calls are answered. *)
Fixpoint all_runs {R} (p : AuthProg R) (Q : list AEvent → Res R → Prop) (es : list AEvent) : Prop :=
  match p with
  | Ret r => Q es r
  | Vis c k => ∀ a, all_runs (k a) Q (es ++ [Ev c a])
  end.

Definition is_verification (e : AEvent) : bool :=
  match e with Ev c _ => match c with VerifyPassword _ _ => true | _ => false end end.
Definition verifications (es : list AEvent) : nat := length (filter (λ e, is_verification e = true) es).

Definition is_insert (e : AEvent) : bool :=
  match e with Ev c a => match c in ACall A return A → bool with SaveToken _ _ => (λ a, a) | _ => λ _, false end a end.
(** No refresh token was stored. *)
Definition no_session (es : list AEvent) : Prop := Forall (λ e, is_insert e = false) es.

(** The answer's tokens: a signed payload that expires in an hour, a refresh
    token of which the hash alone is stored, for fourteen days. *)
Definition issued (es : list AEvent) (id : string) (u : UserEntity) (r : LoginResponseDto) : Prop :=
  lr_accessToken r = jwt_sign {| jw_sub := id; jw_tenantId := ue_tenantId u; jw_role := ue_role u |} 3600 ∧ lr_expiresIn r = 3600 ∧
  ∃ now, Ev Now now ∈ es ∧
    Ev (SaveToken (sha256 (lr_refreshToken r))
          {| rt_userId := id; rt_expiresAt := now + 1209600000; rt_revokedAt := None |}) true ∈ es.

Definition tenant_usable (es : list AEvent) (slug : string) : Prop :=
  ∃ t, Ev (FindTenant slug) (Some t) ∈ es ∧ at_status t ≠ TENANT_SUSPENDED.

Lemma usable_tenant_spec t : usable_tenant t = true ↔ ∃ x, t = Some x ∧ at_status x ≠ TENANT_SUSPENDED.
Proof.
  unfold usable_tenant. destruct t as [x|]; [|split; [done|by intros (? & ? & _)]].
  rewrite negb_true_iff, bool_decide_eq_false. split; [eauto|]. by intros (? & [= ->] & ?).
Qed.

Lemma all_runs_mono {R} (p : AuthProg R) (Q Q' : list AEvent → Res R → Prop) :
  (∀ es r, Q es r → Q' es r) → ∀ es, all_runs p Q es → all_runs p Q' es.
Proof. intros H. induction p as [r|A c k IH]; cbn; intros es Hp; auto. Qed.

Lemma issueTokens_runs id u es :
  all_runs (issueTokens sha256 jwt_sign id (ue_tenantId u) (ue_role u))
    (λ es' r, ∃ l, es' = es ++ l ∧ verifications l = 0%nat ∧
       match r with Ok r => issued es' id u r | Throw e => e = duplicate_token ∧ no_session l end) es.
Proof.
  cbn. intros token now []; cbn; rewrite <-!(assoc_L (++)); eexists; (split; [done|]); (split; [done|]).
  - split; [done|]. split; [done|]. exists now. rewrite !elem_of_app, !elem_of_cons. unfold hashToken. auto 8.
  - split; [done|]. repeat constructor.
Qed.

Lemma all_runs_call {A R} (c : ACall A) (f : A → AuthProg R) Q es :
  (∀ a, all_runs (f a) Q (es ++ [Ev c a])) → all_runs (stmt c ≫= f) Q es.
Proof. auto. Qed.

Definition login_evidence (dto : LoginDto) (es : list AEvent) (t : LoginResponseDto) : Prop :=
  ∃ id u, tenant_usable es (lo_tenantSlug dto) ∧ Ev (FindUser (lo_tenantSlug dto) (lo_email dto)) (Some (id, u)) ∈ es ∧
    ue_status u = "active" ∧ Ev (VerifyPassword (ue_passwordHash u) (lo_password dto)) true ∈ es ∧ issued es id u t.

Lemma login_runs dto :
  all_runs (login sha256 jwt_sign dto) (λ es r, verifications es = 1%nat ∧
    match r with Ok t => login_evidence dto es t
    | Throw e => no_session es ∧ (e = invalid_credentials ∨ e = duplicate_token) end) [].
Proof.
  unfold login. apply all_runs_call. intros tenant. apply all_runs_call. intros [[id u]|].
  - destruct (usable_tenant tenant && String.eqb (ue_status u) "active") eqn:E; apply all_runs_call.
    + apply andb_true_iff in E as [(x & -> & Hx)%usable_tenant_spec Hu%String.eqb_eq]. intros [].
      * eapply all_runs_mono, issueTokens_runs. intros es r (l & -> & Hv & H). split.
        { unfold verifications in *. rewrite filter_app, length_app, Hv. reflexivity. }
        destruct r as [t|e]; [|destruct H; split; [by repeat constructor|auto]].
        exists id, u. unfold tenant_usable. set_unfold. eauto 15.
      * split; [done|]. split; [by repeat constructor|auto].
    + intros a. split; [done|]. split; [by repeat constructor|auto].
  - apply all_runs_call. intros a. split; [done|]. split; [by repeat constructor|auto].
Qed.

Definition refresh_evidence (token : string) (es : list AEvent) (t : LoginResponseDto) : Prop :=
  ∃ row u, Ev (FindToken (sha256 token)) (Some row) ∈ es ∧
    (∃ now, Ev Now now ∈ es ∧ now ≤ rt_expiresAt row) ∧
    match rt_revokedAt row with
    | Some r => ∃ now, Ev Now now ∈ es ∧ now - r < 60000
    | None => ∃ now, Ev Now now ∈ es ∧ Ev (RotateToken (sha256 token) now) tt ∈ es
    end ∧
    Ev (FindUserById (rt_userId row)) (Some u) ∈ es ∧ ue_status u = "active" ∧ tenant_usable es (ue_tenantId u) ∧
    issued es (rt_userId row) u t.

#[local] Ltac refuse Hno := apply Hno; by repeat constructor.
(** The expiry, the user and the tenant, each passed. *)
#[local] Ltac user_and_tenant row Hno :=
  apply all_runs_call; intros now2; destruct (Z.ltb_spec (rt_expiresAt row) now2); [refuse Hno|];
  apply all_runs_call; intros [u|]; [|refuse Hno];
  destruct (String.eqb_spec (ue_status u) "active"); [|refuse Hno];
  apply all_runs_call; intros tenant; destruct (usable_tenant tenant) eqn:E; [|refuse Hno];
  apply usable_tenant_spec in E as (x & -> & Hx).
#[local] Ltac issue_evidence row u now Erv :=
  eapply all_runs_mono, (issueTokens_runs (rt_userId row)); intros es r (l & -> & Hv & Hl);
  destruct r as [t|e']; [|destruct Hl; split; [by repeat constructor|auto]];
  exists row, u; rewrite Erv; unfold tenant_usable, GRACE_MS, hashToken in *; set_unfold;
  (split; [auto 10|]); (split; [exists now; auto 10|]); (split; [eauto 15|]); eauto 20.

Lemma refresh_runs token :
  all_runs (refresh sha256 jwt_sign token) (λ es r,
    match r with Ok t => refresh_evidence token es t
    | Throw e => no_session es ∧ (e = invalid_refresh ∨ e = duplicate_token) end) [].
Proof.
  (* the refusals store nothing *)
  assert (∀ es, no_session es → no_session es ∧ (invalid_refresh = invalid_refresh ∨ invalid_refresh = duplicate_token)) as Hno by auto.
  unfold refresh. apply all_runs_call. intros [row|]; [|refuse Hno].
  unfold late_reuse. destruct (rt_revokedAt row) as [rv|] eqn:Erv.
  - intros now. cbn -[GRACE_MS]. destruct (Z.leb_spec GRACE_MS (now - rv)); [intros n []; refuse Hno|].
    user_and_tenant row Hno. issue_evidence row u now2 Erv.
  - user_and_tenant row Hno. intros now3 []. issue_evidence row u now2 Erv.
Qed.

(** Whatever its calls are answered: a login verifies exactly one password
    hash on every path, and issues tokens only for a tenant it saw and not
    suspended, an active user of it and its verified password; a refresh
    issues tokens only for a stored token not expired, unrevoked (then it
    rotates it) or revoked less than a minute ago, of an active user of a
    tenant not suspended.  A refusal stores no token and says one thing. *)
Theorem sessions_need_evidence :
  (∀ dto, all_runs (login sha256 jwt_sign dto) (λ es r, verifications es = 1%nat ∧
     match r with Ok t => login_evidence dto es t
     | Throw e => no_session es ∧ (e = invalid_credentials ∨ e = duplicate_token) end) []) ∧
  (∀ token, all_runs (refresh sha256 jwt_sign token) (λ es r,
     match r with Ok t => refresh_evidence token es t
     | Throw e => no_session es ∧ (e = invalid_refresh ∨ e = duplicate_token) end) []).
Proof. split; [apply login_runs|apply refresh_runs]. Qed.
End AuthLaws.

(* ------------------------------------------------------------------ *)
(** * Executions                                                        *)
(* ------------------------------------------------------------------ *)

(** One active user with one refresh token; the hash is the text itself. *)
Definition demo_hash (s : string) : string := s.
Definition demo_sign (p : JwtPayload) (ttl : Z) : string := jw_sub p.
Definition demo_verify (hash plain : string) : bool := String.eqb hash plain.
Definition demo_auth_db : AuthDb := {|
  au_users := {[ "u" := {| ue_tenantId := "acme"; ue_email := "a@acme"; ue_passwordHash := "pw"; ue_role := ADMIN;
                           ue_status := "active"; ue_deleted := false |} ]};
  au_tenants := {[ "acme" := {| at_status := TENANT_ACTIVE; at_deleted := false |} ]};
  au_tokens := {[ "t1" := {| rt_userId := "u"; rt_expiresAt := 1000000; rt_revokedAt := None |} ]};
|}.
#[local] Abbreviation d_step := (auth_step demo_hash demo_sign demo_verify).
#[local] Abbreviation d_begin := (begin demo_hash demo_sign).
#[local] Abbreviation d_run := (run_request demo_verify 20).
Definition at_time (t : Z) (g : AuthState) : AuthState := Build_AuthState (as_db g) t (as_requests g).

Lemma demo_serve fresh i r g : as_requests g !! i = None → rtc d_step g (d_run fresh i (d_begin i r g)).
Proof. intros H. eapply rtc_l; [by apply begin_step|apply run_request_steps]. Qed.

Lemma demo_wait t g g' : as_clock g ≤ t → rtc d_step (at_time t g) g' → rtc d_step g g'.
Proof. intros H. apply rtc_l. by constructor. Qed.

(** The token is rotated, the user logs out, and within the minute the
    rotated token opens a session that the logout does not know. *)
Definition rotated : AuthState := d_run "t2" 0 (d_begin 0 (Refresh "t1") (opened demo_auth_db 100000)).
Definition logged_out : AuthState := d_run "" 1 (d_begin 1 (Logout "u") (at_time 110000 rotated)).
Definition reopened : AuthState := d_run "t3" 2 (d_begin 2 (Refresh "t1") (at_time 120000 logged_out)).

Lemma logout_spares_rotated_token :
  rtc d_step (opened demo_auth_db 100000) reopened ∧ as_requests reopened !! 1%nat = Some (Ret (Ok Done)) ∧
  as_requests reopened !! 2%nat = Some (Ret (Ok (Tokens {| lr_accessToken := "u"; lr_refreshToken := "t3"; lr_expiresIn := 3600 |}))) ∧
  (rt_revokedAt <$> au_tokens (as_db reopened) !! "t3") = Some None.
Proof.
  split; [|by vm_compute]. etrans; [by apply (demo_serve "t2" 0 (Refresh "t1"))|].
  eapply (demo_wait 110000); [by vm_compute|]. etrans; [by apply (demo_serve "" 1 (Logout "u"))|].
  eapply (demo_wait 120000); [by vm_compute|]. by apply (demo_serve "t3" 2 (Refresh "t1")).
Qed.

(** A refresh that has read its token before the logout issues a pair after
    it. *)
Definition overtaken : AuthState :=
  d_run "t2" 0 (d_run "" 1 (d_begin 1 (Logout "u")
    (run_request demo_verify 1 "" 0 (d_begin 0 (Refresh "t1") (opened demo_auth_db 100000))))).

Lemma logout_misses_refresh_in_flight :
  rtc d_step (opened demo_auth_db 100000) overtaken ∧ as_requests overtaken !! 1%nat = Some (Ret (Ok Done)) ∧
  as_requests overtaken !! 0%nat = Some (Ret (Ok (Tokens {| lr_accessToken := "u"; lr_refreshToken := "t2"; lr_expiresIn := 3600 |}))) ∧
  (rt_revokedAt <$> au_tokens (as_db overtaken) !! "t2") = Some None.
Proof.
  split; [|by vm_compute]. eapply rtc_l; [by apply (begin_step _ _ _ 0 (Refresh "t1"))|].
  etrans; [apply (run_request_steps _ _ _ 1 "" 0)|]. etrans; [by apply (demo_serve "" 1 (Logout "u"))|].
  apply run_request_steps.
Qed.

(** After the minute the rotated token is refused, and its use revokes the
    pair that the rotation issued. *)
Definition reused : AuthState := d_run "" 2 (d_begin 2 (Refresh "t1") (at_time 160000 rotated)).

Lemma revoked_token_dead_witness :
  as_requests reused !! 2%nat = Some (Ret (Throw invalid_refresh)) ∧
  ∃ new, au_tokens (as_db reused) !! "t2" = Some new ∧ is_Some (rt_revokedAt new).
Proof.
  split; [by vm_compute|].
  eapply (revoked_token_dead demo_hash demo_sign demo_verify 2 "t1" (at_time 160000 rotated) reused
    {| rt_userId := "u"; rt_expiresAt := 1000000; rt_revokedAt := Some 100000 |} 100000 (Throw invalid_refresh));
    [by vm_compute..|apply run_request_steps|by vm_compute|by vm_compute|by vm_compute].
Defined.

Definition refused_late : AuthState := d_run "" 2 (d_begin 2 (Refresh "t2") (at_time 170000 logged_out)).
Lemma logout_ends_sessions_witness :
  as_requests refused_late !! 2%nat = Some (Ret (Throw invalid_refresh)) ∧
  (Throw invalid_refresh : Res AuthReply) = Throw invalid_refresh.
Proof.
  split; [by vm_compute|].
  apply (logout_ends_sessions demo_hash demo_sign demo_verify demo_auth_db 100000 (at_time 110000 rotated) 1 "u" logged_out
    (at_time 170000 logged_out) 2 "t2" {| rt_userId := "u"; rt_expiresAt := 1209700000; rt_revokedAt := None |} refused_late).
  - intros h row r. cbn. rewrite lookup_singleton_Some. intros [_ <-]. done.
  - etrans; [by apply (demo_serve "t2" 0 (Refresh "t1"))|]. by eapply (demo_wait 110000).
  - by vm_compute.
  - by vm_compute.
  - done.
  - apply run_request_steps.
  - by vm_compute.
  - by eapply (demo_wait 170000).
  - by vm_compute.
  - by vm_compute.
  - apply run_request_steps.
  - by vm_compute.
Defined.
