(* ===== verification/LegacyOfferRules.v ===== *)
(** The offer rules engine of the application that the current one replaces
    ([legacy-app/src/services/offer-book-rules.service.ts], its DTOs and
    [common/normalize-classification.helper.ts]) and the validation of its
    create and update use cases.  A product is classified by the text of a
    path, not by a node of a tree.

    The request types of rules and locks are those of [OfferRules], with
    classification paths for ids; [rangeMatches], [rangesOverlap],
    [effectivePercentage] and the loops over pairs are the same code. *)

From Stdlib Require Import Ascii String.
From S2P Require Import Prelude JsText JsNumber Classification SuggestionEngine OfferRules.
Open Scope string_scope.
Open Scope list_scope.

(* ------------------------------------------------------------------ *)
(** * Data                                                              *)
(* ------------------------------------------------------------------ *)

(** The columns of [base_product] the engine reads, and the name of its
    classification. *)
Record BaseProduct (N : Type) := {
  bp_ean : string;
  bp_name : option string;
  bp_externalId : option string;
  bp_price : option N;
  bp_cost : option N;
  bp_margin : option N;
  bp_classificationName : option string;
}.
Arguments Build_BaseProduct {N}.
Arguments bp_ean {N}. Arguments bp_name {N}. Arguments bp_externalId {N}. Arguments bp_price {N}.
Arguments bp_cost {N}. Arguments bp_margin {N}. Arguments bp_classificationName {N}.

(** [competitorPrices] by the name of the origin. *)
Record ProductWithPrices (N : Type) := {
  pw_baseProduct : BaseProduct N;
  pw_competitorPrices : gmap string N;
  pw_offerPrice : option N;
}.
Arguments Build_ProductWithPrices {N}.
Arguments pw_baseProduct {N}. Arguments pw_competitorPrices {N}. Arguments pw_offerPrice {N}.

Record DecimalRange (N : Type) := { dr_decimalRangeFrom : N; dr_decimalRangeTo : N; dr_roundTo : N }.
Arguments Build_DecimalRange {N}.
Arguments dr_decimalRangeFrom {N}. Arguments dr_decimalRangeTo {N}. Arguments dr_roundTo {N}.
Record LegacyRoundingRule (N : Type) := {
  lr_priceRangeMin : N; lr_priceRangeMax : N; lr_decimalRanges : list (DecimalRange N);
}.
Arguments Build_LegacyRoundingRule {N}.
Arguments lr_priceRangeMin {N}. Arguments lr_priceRangeMax {N}. Arguments lr_decimalRanges {N}.

Record LegacyParams (N : Type) := {
  lp_calculationBaseType : CalculationBaseType;
  lp_priceBaseSources : option (list PriceBaseSource);
  lp_pricingRules : list (CreatePricingRuleDto N);
  lp_priceLocks : list (CreatePriceLockDto N);
  lp_priceRoundingRules : list (LegacyRoundingRule N);
}.
Arguments Build_LegacyParams {N}.
Arguments lp_calculationBaseType {N}. Arguments lp_priceBaseSources {N}. Arguments lp_pricingRules {N}.
Arguments lp_priceLocks {N}. Arguments lp_priceRoundingRules {N}.

(** [PreviewProductResult]; a [percentageValue] of [None] is [undefined]. *)
Record LegacyPreview (N : Type) := {
  lv_ean : string;
  lv_name : string;
  lv_externalId : option string;
  lv_classification : string;
  lv_baseSalePrice : N;
  lv_baseOfferPrice : N;
  lv_currentPrice : N;
  lv_currentMargin : N;
  lv_cost : N;
  lv_actionType : option PricingActionType;
  lv_percentageValue : option N;
  lv_appliedPercentageValue : N;
  lv_finalPrice : N;
  lv_newMargin : N;
  lv_priceLockApplied : bool;
  lv_discountSkipped : bool;
  lv_skippedNoCompetitorPrice : bool;
  lv_skippedPriceExceedsLimit : bool;
  lv_priceRoundingApplied : bool;
}.
Arguments Build_LegacyPreview {N}.
Arguments lv_ean {N}. Arguments lv_name {N}. Arguments lv_externalId {N}. Arguments lv_classification {N}.
Arguments lv_baseSalePrice {N}. Arguments lv_baseOfferPrice {N}. Arguments lv_currentPrice {N}.
Arguments lv_currentMargin {N}. Arguments lv_cost {N}. Arguments lv_actionType {N}.
Arguments lv_percentageValue {N}. Arguments lv_appliedPercentageValue {N}. Arguments lv_finalPrice {N}.
Arguments lv_newMargin {N}. Arguments lv_priceLockApplied {N}. Arguments lv_discountSkipped {N}.
Arguments lv_skippedNoCompetitorPrice {N}. Arguments lv_skippedPriceExceedsLimit {N}.
Arguments lv_priceRoundingApplied {N}.

(* ------------------------------------------------------------------ *)
(** * Classification paths                                              *)
(* ------------------------------------------------------------------ *)

Definition legacy_normalizeClassification (classification : string) : string :=
  if String.eqb classification "" then classification
  else let parts := split_path classification in
       match parts with
       | a :: b :: _ :: _ => a +:+ " > " +:+ b
       | _ => classification
       end.

Definition normalizeClassifications (classifications : option (list string)) : option (list string) :=
  if no_ids classifications then None
  else Some (js_uniq (legacy_normalizeClassification <$> default [] classifications)).

(** [classification.startsWith(filter)] for one of the filters *)
Definition legacy_classificationMatches (classification : string) (classifications : option (list string)) : bool :=
  if no_ids classifications then true
  else existsb (λ classificationFilter, String.prefix classificationFilter classification) (default [] classifications).

Definition legacy_classificationsOverlap (classificationsA classificationsB : option (list string)) : bool :=
  if no_ids classificationsA then true
  else if no_ids classificationsB then true
  else existsb (λ classA, existsb (λ classB,
         String.prefix classB classA || String.prefix classA classB || String.eqb classA classB)
         (default [] classificationsB)) (default [] classificationsA).

Section LegacyOfferRules.
Context {N : Type} `{JsNum N}.
Implicit Types (product : BaseProduct N) (productData : ProductWithPrices N) (params : LegacyParams N)
  (ruleA ruleB : CreatePricingRuleDto N).
Open Scope js_scope.

Definition normalizePricingRulesClassifications (pricingRules : list (CreatePricingRuleDto N)) :=
  (λ rule, Build_CreatePricingRuleDto (normalizeClassifications (rd_classifications rule))
     (rd_priceRangeMin rule) (rd_priceRangeMax rule) (rd_marginRangeMin rule) (rd_marginRangeMax rule)
     (rd_actionType rule) (rd_percentageValue rule) (rd_active rule)) <$> pricingRules.

Definition normalizePriceLocksClassifications (priceLocks : list (CreatePriceLockDto N)) :=
  (λ lock, Build_CreatePriceLockDto (normalizeClassifications (ld_classifications lock))
     (ld_minMargin lock) (ld_active lock)) <$> priceLocks.

(* ------------------------------------------------------------------ *)
(** * Validation                                                        *)
(* ------------------------------------------------------------------ *)

Definition legacy_rulesOverlap ruleA ruleB : bool :=
  if negb (legacy_classificationsOverlap (rd_classifications ruleA) (rd_classifications ruleB)) then false
  else
    let ruleAHasPriceRange := hasPriceRange ruleA in let ruleAHasMarginRange := hasMarginRange ruleA in
    let ruleBHasPriceRange := hasPriceRange ruleB in let ruleBHasMarginRange := hasMarginRange ruleB in
    if negb ruleAHasPriceRange && negb ruleAHasMarginRange && negb ruleBHasPriceRange && negb ruleBHasMarginRange then true
    else if negb ruleAHasPriceRange && negb ruleAHasMarginRange then true
    else if negb ruleBHasPriceRange && negb ruleBHasMarginRange then true
    else
      let when (b : bool) (x : option (option N)) := if b then x else None in
      let priceRangesOverlap := (ruleAHasPriceRange || ruleBHasPriceRange) &&
        rangesOverlap (when ruleAHasPriceRange (rd_priceRangeMin ruleA)) (when ruleAHasPriceRange (rd_priceRangeMax ruleA))
                      (when ruleBHasPriceRange (rd_priceRangeMin ruleB)) (when ruleBHasPriceRange (rd_priceRangeMax ruleB)) in
      let marginRangesOverlap := (ruleAHasMarginRange || ruleBHasMarginRange) &&
        rangesOverlap (when ruleAHasMarginRange (rd_marginRangeMin ruleA)) (when ruleAHasMarginRange (rd_marginRangeMax ruleA))
                      (when ruleBHasMarginRange (rd_marginRangeMin ruleB)) (when ruleBHasMarginRange (rd_marginRangeMax ruleB)) in
      let ruleAHasBoth := ruleAHasPriceRange && ruleAHasMarginRange in
      let ruleBHasBoth := ruleBHasPriceRange && ruleBHasMarginRange in
      if ruleAHasBoth && ruleBHasBoth then priceRangesOverlap && marginRangesOverlap
      else if ruleAHasBoth && (ruleBHasPriceRange && negb ruleBHasMarginRange) then priceRangesOverlap
      else if ruleAHasBoth && (ruleBHasMarginRange && negb ruleBHasPriceRange) then marginRangesOverlap
      else if ruleBHasBoth && (ruleAHasPriceRange && negb ruleAHasMarginRange) then priceRangesOverlap
      else if ruleBHasBoth && (ruleAHasMarginRange && negb ruleAHasPriceRange) then marginRangesOverlap
      else
        let ruleAOnlyPrice := ruleAHasPriceRange && negb ruleAHasMarginRange in
        let ruleAOnlyMargin := negb ruleAHasPriceRange && ruleAHasMarginRange in
        let ruleBOnlyPrice := ruleBHasPriceRange && negb ruleBHasMarginRange in
        let ruleBOnlyMargin := negb ruleBHasPriceRange && ruleBHasMarginRange in
        if ruleAOnlyPrice && ruleBOnlyPrice then priceRangesOverlap
        else if ruleAOnlyMargin && ruleBOnlyMargin then marginRangesOverlap
        else (ruleAOnlyPrice && ruleBOnlyMargin) || (ruleAOnlyMargin && ruleBOnlyPrice).

(** The private copy of the create and of the update use case: ranges of
    prices OR of margins that overlap. *)
Definition saved_rulesOverlap ruleA ruleB : bool :=
  if negb (legacy_classificationsOverlap (rd_classifications ruleA) (rd_classifications ruleB)) then false
  else
    let ruleAHasPriceRange := hasPriceRange ruleA in let ruleAHasMarginRange := hasMarginRange ruleA in
    let ruleBHasPriceRange := hasPriceRange ruleB in let ruleBHasMarginRange := hasMarginRange ruleB in
    if negb ruleAHasPriceRange && negb ruleAHasMarginRange && negb ruleBHasPriceRange && negb ruleBHasMarginRange then true
    else if negb ruleAHasPriceRange && negb ruleAHasMarginRange then true
    else if negb ruleBHasPriceRange && negb ruleBHasMarginRange then true
    else
      let priceRangesOverlap := ruleAHasPriceRange && ruleBHasPriceRange &&
        rangesOverlap (rd_priceRangeMin ruleA) (rd_priceRangeMax ruleA) (rd_priceRangeMin ruleB) (rd_priceRangeMax ruleB) in
      let marginRangesOverlap := ruleAHasMarginRange && ruleBHasMarginRange &&
        rangesOverlap (rd_marginRangeMin ruleA) (rd_marginRangeMax ruleA) (rd_marginRangeMin ruleB) (rd_marginRangeMax ruleB) in
      let ruleAOnlyPrice := ruleAHasPriceRange && negb ruleAHasMarginRange in
      let ruleAOnlyMargin := negb ruleAHasPriceRange && ruleAHasMarginRange in
      let ruleBOnlyPrice := ruleBHasPriceRange && negb ruleBHasMarginRange in
      let ruleBOnlyMargin := negb ruleBHasPriceRange && ruleBHasMarginRange in
      if (ruleAOnlyPrice && ruleBOnlyMargin) || (ruleAOnlyMargin && ruleBOnlyPrice) then true
      else priceRangesOverlap || marginRangesOverlap.

(** The validation of a set, with the service's overlap or a use case's. *)
Definition validate_rules (overlap : CreatePricingRuleDto N → CreatePricingRuleDto N → bool)
    (pricingRules : list (CreatePricingRuleDto N)) : Res unit :=
  match first_pair overlap 1 (active_rules pricingRules) with
  | Some (i, j) => Throw (EBadRequest ("Pricing rules overlap: Rule " +:+ pretty i +:+ " and Rule "
      +:+ pretty j +:+ " can target the same products. Ensure classifications and price/margin ranges do not overlap."))
  | None => Ok ()
  end.
Definition legacy_validateRules := validate_rules legacy_rulesOverlap.
Definition saved_validateRules := validate_rules saved_rulesOverlap.

Definition legacy_validateLocks (priceLocks : list (CreatePriceLockDto N)) : Res unit :=
  let activeLocks := active_locks priceLocks in
  if Nat.eqb (length activeLocks) 0 then Ok ()
  else if Nat.ltb 0 (length (filter (λ lock, no_ids (ld_classifications lock) = true) activeLocks))
          && Nat.ltb 1 (length activeLocks)
  then Throw (EBadRequest ("Price lock targeting all classifications cannot coexist with other price locks. "
         +:+ "Remove the " +:+ String dquote "all classifications" +:+ String dquote " lock or remove all other locks."))
  else
    match first_pair (λ a b, legacy_classificationsOverlap (ld_classifications a) (ld_classifications b)) 1 activeLocks with
    | Some (i, j) => Throw (EBadRequest ("Price locks overlap: Lock " +:+ pretty i +:+ " and Lock "
        +:+ pretty j +:+ " target overlapping classifications. Ensure each classification is only targeted by one price lock."))
    | None => Ok ()
    end.

(* ------------------------------------------------------------------ *)
(** * The rule, the lock and the base price of a product                *)
(* ------------------------------------------------------------------ *)

Definition product_classification product : string :=
  legacy_normalizeClassification (default "" (bp_classificationName product)).

Definition legacy_rule_matches product (currentPrice : N) (rule : CreatePricingRuleDto N) : bool :=
  let margin := default (#0) (bp_margin product) in
  if negb (is_active (rd_active rule)) then false
  else if negb (legacy_classificationMatches (product_classification product) (rd_classifications rule)) then false
  else
    let priceRangeMatches := rangeMatches currentPrice (rd_priceRangeMin rule) (rd_priceRangeMax rule) in
    let marginRangeMatches := rangeMatches margin (rd_marginRangeMin rule) (rd_marginRangeMax rule) in
    if hasPriceRange rule && hasMarginRange rule then priceRangeMatches && marginRangeMatches
    else if hasPriceRange rule then priceRangeMatches
    else if hasMarginRange rule then marginRangeMatches
    else true.

Definition legacy_findMatchingPricingRule product (pricingRules : list (CreatePricingRuleDto N)) (currentPrice : N) :=
  head (filter (λ r, legacy_rule_matches product currentPrice r = true) pricingRules).

Definition legacy_lock_matches product (lock : CreatePriceLockDto N) : bool :=
  is_active (ld_active lock) && legacy_classificationMatches (product_classification product) (ld_classifications lock).

Definition legacy_findMatchingPriceLock product (priceLocks : list (CreatePriceLockDto N)) :=
  head (filter (λ l, legacy_lock_matches product l = true) priceLocks).

(** The price of a source, when it is set and positive. *)
Definition legacy_source_price productData (source : PriceBaseSource) : option N :=
  price ← match source with
          | OWN_PRICE => match pw_offerPrice productData with Some o => Some o | None => bp_price (pw_baseProduct productData) end
          | _ => pw_competitorPrices productData !! source_str source
          end;
  if #0 <? price then Some price else None.

Definition legacy_getLowestPrice productData (priceBaseSources : option (list PriceBaseSource)) : option N :=
  match omap (legacy_source_price productData) (default [] priceBaseSources) with
  | [] => None
  | p :: prices => Some (math_min p prices)
  end.

Definition legacy_basePrice productData (calculationBaseType : CalculationBaseType)
    (priceBaseSources : option (list PriceBaseSource)) : option N :=
  let price := default (#0) (bp_price (pw_baseProduct productData)) in
  match calculationBaseType with
  | SALE_PRICE => Some price
  | OFFER_PRICE => Some (default price (pw_offerPrice productData))
  | COMPETITIVE_PRICE => legacy_getLowestPrice productData priceBaseSources
  end.

(* ------------------------------------------------------------------ *)
(** * The price                                                         *)
(* ------------------------------------------------------------------ *)

Definition legacy_rounding (price : N) (priceRoundingRules : list (LegacyRoundingRule N)) : option N :=
  matchingRule ← head (filter (λ r, (lr_priceRangeMin r <=? price) && (price <=? lr_priceRangeMax r) = true) priceRoundingRules);
  let integerPart := n_floor price in
  let decimalPart := round2 (price - integerPart) in
  range ← head (filter (λ d, (dr_decimalRangeFrom d <=? decimalPart) && (decimalPart <=? dr_decimalRangeTo d) = true)
                  (lr_decimalRanges matchingRule));
  let roundedPrice := integerPart + dr_roundTo range in
  if roundedPrice =? round2 price then None else Some (round2 roundedPrice).

(** [offerPrice || baseProduct.price] *)
Definition legacy_truthy_offer productData : option N :=
  match pw_offerPrice productData with
  | Some o => if o =? #0 then bp_price (pw_baseProduct productData) else Some o
  | None => bp_price (pw_baseProduct productData)
  end.

Definition legacy_current_margin productData (cost : N) : N :=
  match legacy_truthy_offer productData with
  | Some basePrice => if #0 <? basePrice then margin_of basePrice cost else #0
  | None => #0
  end.

(** [cost > 0 ? margin : 0] *)
Definition legacy_margin (price cost : N) : N := if #0 <? cost then margin_of price cost else #0.

(** The price and the margin the lock imposes: only when the current or the
    new margin is below its minimum. *)
Definition legacy_locked (matchingPriceLock : option (CreatePriceLockDto N)) (currentMargin newMargin cost : N) : option (N * N) :=
  l ← matchingPriceLock;
  if (currentMargin <? ld_minMargin l) || (newMargin <? ld_minMargin l) then
    let minMarginDecimal := ld_minMargin l / #100 in
    if (minMarginDecimal <? #1) && (#0 <? cost) then Some (cost / (#1 - minMarginDecimal), ld_minMargin l) else None
  else None.

Definition legacy_preview params productData : LegacyPreview N :=
  let product := pw_baseProduct productData in
  let offerPrice := pw_offerPrice productData in
  let cost := default (#0) (bp_cost product) in
  let currentMargin := legacy_current_margin productData cost in
  let baseSalePrice := default (#0) (bp_price product) in
  let baseOfferPrice := default baseSalePrice offerPrice in
  let result currentPrice currentMargin actionType percentageValue applied finalPrice newMargin locked noCompetitor exceeds rounded :=
    {| lv_ean := bp_ean product; lv_name := default "" (bp_name product); lv_externalId := bp_externalId product;
       lv_classification := product_classification product; lv_baseSalePrice := baseSalePrice;
       lv_baseOfferPrice := baseOfferPrice; lv_currentPrice := currentPrice; lv_currentMargin := currentMargin;
       lv_cost := cost; lv_actionType := actionType; lv_percentageValue := percentageValue;
       lv_appliedPercentageValue := applied; lv_finalPrice := finalPrice; lv_newMargin := newMargin;
       lv_priceLockApplied := locked; lv_discountSkipped := false; lv_skippedNoCompetitorPrice := noCompetitor;
       lv_skippedPriceExceedsLimit := exceeds; lv_priceRoundingApplied := rounded |} in
  match legacy_basePrice productData (lp_calculationBaseType params) (lp_priceBaseSources params) with
  | None =>
      let margin := round2 (if (#0 <? cost) && (#0 <? baseSalePrice) then margin_of baseSalePrice cost else #0) in
      result baseSalePrice margin None (Some (#0)) (#0) baseSalePrice margin false true false false
  | Some currentPrice =>
      let matchingRule := legacy_findMatchingPricingRule product (lp_pricingRules params) currentPrice in
      let matchingPriceLock := legacy_findMatchingPriceLock product (lp_priceLocks params) in
      let actionType := rd_actionType <$> matchingRule in
      let priceAfterRule := price_after_rule matchingRule currentPrice in
      if (baseSalePrice <? priceAfterRule) && (#0 <? baseSalePrice)
      then result currentPrice (round2 currentMargin) actionType (rd_percentageValue <$> matchingRule) (#0) currentPrice
             (round2 currentMargin) false false true false
      else
        let percentageValue := default (#0) (rd_percentageValue <$> matchingRule) in
        let newMargin := legacy_margin priceAfterRule cost in
        let locked := legacy_locked matchingPriceLock currentMargin newMargin cost in
        let priceLockApplied := bool_decide (is_Some locked) in
        let finalPrice := default priceAfterRule (fst <$> locked) in
        let newMargin := default newMargin (snd <$> locked) in
        let applied := if priceLockApplied && negb (finalPrice =? priceAfterRule) && (#0 <? baseOfferPrice)
                       then effectivePercentage actionType finalPrice baseOfferPrice else percentageValue in
        let rounding := legacy_rounding finalPrice (lp_priceRoundingRules params) in
        let newMargin := match rounding with Some p => legacy_margin p cost | None => newMargin end in
        let applied := match rounding with
                       | Some p => if priceLockApplied && (#0 <? baseOfferPrice)
                                   then effectivePercentage actionType p baseOfferPrice else applied
                       | None => applied
                       end in
        result currentPrice (round2 currentMargin) actionType (Some percentageValue) (round2 applied)
          (round2 (default finalPrice rounding)) (round2 newMargin) priceLockApplied false false (bool_decide (is_Some rounding))
  end.

Definition calculateProductPreviews (productsWithPrices : list (ProductWithPrices N)) params : list (LegacyPreview N) :=
  legacy_preview params <$> productsWithPrices.

End LegacyOfferRules.
