(* ===== verification/LegacyOfferLaws.v ===== *)
(** The engine that the current one replaces: sets that its validations
    accept are unambiguous, and it computes what the current engine computes
    for the same catalogue, on conditions that say where the two part. *)

From Stdlib Require Import Ascii String.
From S2P Require Import Prelude JsText JsNumber Classification SuggestionEngine OfferRules OfferRulesLaws LegacyOfferRules.
Open Scope string_scope.
Open Scope list_scope.

(* ------------------------------------------------------------------ *)
(** * Validated sets                                                    *)
(* ------------------------------------------------------------------ *)

Lemma prefixes_comparable a b c : String.prefix a c = true → String.prefix b c = true →
  String.prefix a b || String.prefix b a = true.
Proof.
  revert b c. induction a as [|x a IH]; intros b c; [by destruct b|].
  destruct c as [|z c]; [done|]. cbn. destruct (ascii_dec x z) as [->|]; [|done].
  intros Ha. destruct b as [|y b]; [done|]. cbn. destruct (ascii_dec y z) as [->|]; [|done].
  intros Hb. destruct (ascii_dec z z); [|done]. by eapply IH.
Qed.

Lemma legacy_matches_overlap c a b :
  legacy_classificationMatches c a = true → legacy_classificationMatches c b = true →
  legacy_classificationsOverlap a b = true.
Proof.
  unfold legacy_classificationMatches, legacy_classificationsOverlap.
  destruct (no_ids a), (no_ids b); simpl; try done.
  rewrite !existsb_exists. intros (x & Hx & Hxc) (y & Hy & Hyc). exists x. split; [done|].
  apply existsb_exists. exists y. split; [done|].
  pose proof (prefixes_comparable _ _ _ Hxc Hyc) as [->| ->]%orb_true_iff; [by rewrite orb_true_r|done].
Qed.

Section LegacyValidated.
Context {N : Type} `{JsNumLaws N}.
Implicit Types (product : BaseProduct N) (rule : CreatePricingRuleDto N) (lock : CreatePriceLockDto N).
Open Scope js_scope.

Lemma legacy_rule_matches_iff product p rule :
  legacy_rule_matches product p rule = true ↔
  is_active (rd_active rule) = true ∧
  legacy_classificationMatches (product_classification product) (rd_classifications rule) = true ∧
  rangeMatches p (rd_priceRangeMin rule) (rd_priceRangeMax rule) = true ∧
  rangeMatches (default (#0) (bp_margin product)) (rd_marginRangeMin rule) (rd_marginRangeMax rule) = true.
Proof.
  unfold legacy_rule_matches, hasPriceRange, hasMarginRange, has_range.
  assert (∀ v, rangeMatches v None None = true) as Hall by done.
  destruct (is_active _), (legacy_classificationMatches _ _); simpl; [|split; [done|intros (?&?&?); done]..].
  destruct (rd_priceRangeMin rule), (rd_priceRangeMax rule), (rd_marginRangeMin rule),
    (rd_marginRangeMax rule); cbn [andb orb]; rewrite ?Hall, ?andb_true_iff; tauto.
Qed.

(** Both overlap tests, when the ranges of prices and of margins overlap. *)
Lemma overlapping_ranges a b :
  legacy_classificationsOverlap (rd_classifications a) (rd_classifications b) = true →
  rangesOverlap (rd_priceRangeMin a) (rd_priceRangeMax a) (rd_priceRangeMin b) (rd_priceRangeMax b) = true →
  rangesOverlap (rd_marginRangeMin a) (rd_marginRangeMax a) (rd_marginRangeMin b) (rd_marginRangeMax b) = true →
  legacy_rulesOverlap a b = true ∧ saved_rulesOverlap a b = true.
Proof.
  intros Hc Hop Hom.
  assert (∀ lo hi : option (option N), (if has_range lo hi then lo else None) = lo
            ∧ (if has_range lo hi then hi else None) = hi) as Hr by (intros [] []; done).
  unfold legacy_rulesOverlap, saved_rulesOverlap. rewrite Hc. simpl.
  unfold hasPriceRange, hasMarginRange. rewrite !(proj1 (Hr _ _)), !(proj2 (Hr _ _)), Hop, Hom.
  by destruct (has_range (rd_priceRangeMin a) _), (has_range (rd_marginRangeMin a) _),
    (has_range (rd_priceRangeMin b) _), (has_range (rd_marginRangeMin b) _).
Qed.

Lemma legacy_rules_overlap product p a b :
  is_num p → is_num (default (#0) (bp_margin product)) → rule_num a → rule_num b →
  legacy_rule_matches product p a = true → legacy_rule_matches product p b = true →
  legacy_rulesOverlap a b = true ∧ saved_rulesOverlap a b = true.
Proof.
  intros Hp Hm (Ha1 & Ha2 & Ha3 & Ha4) (Hb1 & Hb2 & Hb3 & Hb4)
    (_ & Hca & Hpa & Hma)%legacy_rule_matches_iff (_ & Hcb & Hpb & Hmb)%legacy_rule_matches_iff.
  apply overlapping_ranges; [by eapply legacy_matches_overlap|eapply rangeMatches_overlap; cycle 5; eassumption..].
Qed.

(** One rule matches, when the validation is by a test that two matching
    rules meet. *)
Lemma legacy_one_rule overlap product p rules :
  (∀ a b, a ∈ rules → b ∈ rules → legacy_rule_matches product p a = true → legacy_rule_matches product p b = true →
     overlap a b = true) →
  validate_rules overlap rules = Ok () →
  (length (filter (λ r, legacy_rule_matches product p r = true) rules) ≤ 1)%nat.
Proof.
  intros Ho. unfold validate_rules. destruct (first_pair _ _ _) as [[]|] eqn:Hf; [done|]. intros _.
  rewrite <- (filter_weaken (legacy_rule_matches product p) (λ r, is_active (rd_active r))).
  2: { by intros x (? & _)%legacy_rule_matches_iff. }
  apply (first_pair_filter _ _ _ _ Hf).
  intros x y [_ Hx]%list_elem_of_filter [_ Hy]%list_elem_of_filter. auto.
Qed.

Lemma legacy_one_lock product locks :
  legacy_validateLocks locks = Ok () →
  (length (filter (λ l, legacy_lock_matches product l = true) locks) ≤ 1)%nat.
Proof.
  unfold legacy_validateLocks. intros Hv.
  rewrite <- (filter_weaken (legacy_lock_matches product) (λ l, is_active (ld_active l))).
  2: { by intros x [? _]%andb_true_iff. }
  change (filter (λ l, is_active (ld_active l) = true) locks) with (active_locks locks).
  destruct (Nat.eqb_spec (length (active_locks locks)) 0) as [E|_].
  { apply nil_length_inv in E as ->. cbn. lia. }
  destruct (_ && _); [done|]. destruct (first_pair _ _ _) as [[]|] eqn:Hf; [done|].
  apply (first_pair_filter _ _ _ _ Hf). intros x y _ _ [_ Hx]%andb_true_iff [_ Hy]%andb_true_iff.
  by eapply legacy_matches_overlap.
Qed.

End LegacyValidated.

(** Overlapping for the service, overlapping for the use cases. *)
Lemma saved_stricter {N} `{JsNum N} (a b : CreatePricingRuleDto N) : legacy_rulesOverlap a b = true → saved_rulesOverlap a b = true.
Proof.
  assert (∀ lo hi : option (option N), (if has_range lo hi then lo else None) = lo
            ∧ (if has_range lo hi then hi else None) = hi) as Hr by (intros [] []; done).
  unfold legacy_rulesOverlap, saved_rulesOverlap. destruct (legacy_classificationsOverlap _ _); [|done]. simpl.
  unfold hasPriceRange, hasMarginRange. rewrite !(proj1 (Hr _ _)), !(proj2 (Hr _ _)).
  destruct (has_range (rd_priceRangeMin a) _), (has_range (rd_marginRangeMin a) _),
    (has_range (rd_priceRangeMin b) _), (has_range (rd_marginRangeMin b) _), (rangesOverlap (rd_priceRangeMin a) _ _ _); done.
Qed.

Lemma first_pair_weaken {A} (P Q : A → A → bool) (l : list A) : (∀ a b, P a b = true → Q a b = true) →
  ∀ i, first_pair Q i l = None → first_pair P i l = None.
Proof.
  intros HPQ. induction l as [|x l IH]; intros i; [done|]. cbn [first_pair].
  destruct (filter (λ p, Q x p.2 = true) _) as [|[j y] ys] eqn:Hq; [|done]. cbn.
  destruct (filter (λ p, P x p.2 = true) _) as [|[j y] ys] eqn:Hp; [apply IH|].
  assert ((j, y) ∈ filter (λ p : Z * A, P x p.2 = true) (number_from (i + 1) l)) as [Hxy Hin]%list_elem_of_filter
    by (rewrite Hp; left).
  assert ((j, y) ∈ filter (λ p : Z * A, Q x p.2 = true) (number_from (i + 1) l)) as Hq'
    by (apply list_elem_of_filter; auto).
  rewrite Hq in Hq'. by apply elem_of_nil in Hq'.
Qed.

(** Sets of the replaced application.  A set of rules that the service's
    validation (of a preview) or the stricter one of the create and update use cases
    accepts, and a set of locks that they accept, have at most one rule and
    at most one lock that match a product, so their order does not matter;
    and what the use cases accept, the service accepts. *)
Theorem legacy_sets_unambiguous {N} `{JsNumLaws N} (rules : list (CreatePricingRuleDto N)) locks (product : BaseProduct N) (p : N) :
  Forall rule_num rules → is_num p → is_num (default (n_int 0) (bp_margin product)) →
  (legacy_validateRules rules = Ok () ∨ saved_validateRules rules = Ok ()) → legacy_validateLocks locks = Ok () →
  (length (filter (λ r, legacy_rule_matches product p r = true) rules) ≤ 1)%nat ∧
  (length (filter (λ l, legacy_lock_matches product l = true) locks) ≤ 1)%nat ∧
  (∀ rules', rules' ≡ₚ rules →
     legacy_findMatchingPricingRule product rules' p = legacy_findMatchingPricingRule product rules p) ∧
  (∀ locks', locks' ≡ₚ locks →
     legacy_findMatchingPriceLock product locks' = legacy_findMatchingPriceLock product locks) ∧
  (saved_validateRules rules = Ok () → legacy_validateRules rules = Ok ()).
Proof.
  intros Hn Hp Hm Hr Hl. rewrite Forall_forall in Hn.
  assert (length (filter (λ r, legacy_rule_matches product p r = true) rules) ≤ 1)%nat as H1.
  { destruct Hr as [Hr|Hr]; revert Hr; apply legacy_one_rule; intros a b Ha Hb Hma Hmb;
      by apply (legacy_rules_overlap product p); auto. }
  pose proof (legacy_one_lock product locks Hl) as H2.
  split_and!; [done|done|intros; by apply at_most_one_head..|].
  unfold saved_validateRules, legacy_validateRules, validate_rules.
  destruct (first_pair saved_rulesOverlap _ _) as [[]|] eqn:Hf; [done|].
  by rewrite (first_pair_weaken legacy_rulesOverlap saved_rulesOverlap _ saved_stricter _ Hf).
Qed.

(* ------------------------------------------------------------------ *)
(** * The same prices                                                   *)
(* ------------------------------------------------------------------ *)

Lemma legacy_normalize_eq c : legacy_normalizeClassification c = normalizeClassification c.
Proof. unfold legacy_normalizeClassification. by destruct (String.eqb_spec c "") as [->|]. Qed.

Lemma head_filter_Forall2 {A B} (R : A → B → Prop) (P : A → Prop) (Q : B → Prop)
    `{∀ x, Decision (P x)} `{∀ y, Decision (Q y)} l l' :
  Forall2 R l l' → (∀ x y, R x y → P x ↔ Q y) → option_Forall2 R (head (filter P l)) (head (filter Q l')).
Proof.
  intros Hl HPQ. induction Hl as [|x y l l' Hxy _ IH]; [constructor|]. rewrite !filter_cons.
  destruct (decide (P x)), (decide (Q y)); try (by constructor); try done; exfalso; by apply HPQ in Hxy; tauto.
Qed.

Section SamePrices.
Context {N : Type} `{JsNumLaws N}.
Implicit Types (product : BaseProduct N) (pd : ProductWithPrices N) (params : LegacyParams N).
Open Scope js_scope.

(** A product of the catalogue as the current engine reads it, under the
    node that its classification became. *)
Definition migrate_product (classificationId : option string) pd : PreviewProductInput N :=
  let product := pw_baseProduct pd in
  {| pp_ean := bp_ean product; pp_name := default "" (bp_name product); pp_externalId := bp_externalId product;
     pp_classificationId := classificationId; pp_classificationPath := default "" (bp_classificationName product);
     pp_salePrice := default (#0) (bp_price product); pp_cost := default (#0) (bp_cost product);
     pp_margin := default (#0) (bp_margin product); pp_offerPrice := pw_offerPrice pd;
     pp_competitorPrices := pw_competitorPrices pd |}.

Definition migrate_rounding (r : LegacyRoundingRule N) : PriceRoundingRuleInput N :=
  Build_PriceRoundingRuleInput (lr_priceRangeMin r) (lr_priceRangeMax r)
    ((λ d, Build_DecimalBucket (dr_decimalRangeFrom d) (dr_decimalRangeTo d) (dr_roundTo d)) <$> lr_decimalRanges r).

(** A rule with nodes for paths: for this product they say the same. *)
Definition rule_migrated product cid index (r r' : CreatePricingRuleDto N) : Prop :=
  rd_priceRangeMin r' = rd_priceRangeMin r ∧ rd_priceRangeMax r' = rd_priceRangeMax r ∧
  rd_marginRangeMin r' = rd_marginRangeMin r ∧ rd_marginRangeMax r' = rd_marginRangeMax r ∧
  rd_actionType r' = rd_actionType r ∧ rd_percentageValue r' = rd_percentageValue r ∧ rd_active r' = rd_active r ∧
  classificationMatches cid (rd_classifications r') index
    = legacy_classificationMatches (product_classification product) (rd_classifications r).

Definition lock_migrated product cid index (l l' : CreatePriceLockDto N) : Prop :=
  ld_minMargin l' = ld_minMargin l ∧ ld_active l' = ld_active l ∧
  classificationMatches cid (ld_classifications l') index
    = legacy_classificationMatches (product_classification product) (ld_classifications l).

(** What the replaced engine answers, with [0] for an undefined percentage. *)
Definition as_preview (v : LegacyPreview N) : PreviewProductResult N :=
  {| pv_ean := lv_ean v; pv_name := lv_name v; pv_externalId := lv_externalId v; pv_classification := lv_classification v;
     pv_baseSalePrice := lv_baseSalePrice v; pv_baseOfferPrice := lv_baseOfferPrice v; pv_currentPrice := lv_currentPrice v;
     pv_currentMargin := lv_currentMargin v; pv_cost := lv_cost v; pv_actionType := lv_actionType v;
     pv_percentageValue := default (#0) (lv_percentageValue v); pv_appliedPercentageValue := lv_appliedPercentageValue v;
     pv_finalPrice := lv_finalPrice v; pv_newMargin := lv_newMargin v; pv_priceLockApplied := lv_priceLockApplied v;
     pv_discountSkipped := lv_discountSkipped v; pv_skippedNoCompetitorPrice := lv_skippedNoCompetitorPrice v;
     pv_skippedPriceExceedsLimit := lv_skippedPriceExceedsLimit v; pv_priceRoundingApplied := lv_priceRoundingApplied v |}.

(** The price before the rounding, from a base price. *)
Definition unrounded params pd (cur : N) : N :=
  let product := pw_baseProduct pd in
  let cost := default (#0) (bp_cost product) in
  let after := price_after_rule (legacy_findMatchingPricingRule product (lp_pricingRules params) cur) cur in
  default after (fst <$> legacy_locked (legacy_findMatchingPriceLock product (lp_priceLocks params))
                           (legacy_current_margin pd cost) (legacy_margin after cost) cost).

(** Where the engines agree: prices stay positive, no rounding bucket dips
    below the floor of the lock, and dividing a minimum margin by 100 does
    not round it up to 1. *)
Record within_reach params pd : Prop := {
  wr_margin l : l ∈ lp_priceLocks params → (ld_minMargin l / #100 <? #1) = (ld_minMargin l <? #100);
  wr_positive cur : legacy_basePrice pd (lp_calculationBaseType params) (lp_priceBaseSources params) = Some cur →
    (#0 <? price_after_rule (legacy_findMatchingPricingRule (pw_baseProduct pd) (lp_pricingRules params) cur) cur) = true;
  wr_rounded cur p : legacy_basePrice pd (lp_calculationBaseType params) (lp_priceBaseSources params) = Some cur →
    legacy_rounding (unrounded params pd cur) (lp_priceRoundingRules params) = Some p → (#0 <? p) = true;
  wr_floor cur floor r d : legacy_basePrice pd (lp_calculationBaseType params) (lp_priceBaseSources params) = Some cur →
    lock_floor (legacy_findMatchingPriceLock (pw_baseProduct pd) (lp_priceLocks params))
      (default (#0) (bp_cost (pw_baseProduct pd))) = Some floor →
    r ∈ lp_priceRoundingRules params → d ∈ lr_decimalRanges r →
    (n_floor (unrounded params pd cur) + dr_roundTo d <? floor) = false;
}.

Lemma migrated_base_price cid pd ty sources :
  getCalculationBasePrice (migrate_product cid pd) ty sources = legacy_basePrice pd ty sources.
Proof.
  destruct ty; try done. cbn. unfold getLowestPriceFromSources, legacy_getLowestPrice.
  assert (∀ s, source_price (migrate_product cid pd) s = legacy_source_price pd s) as E.
  { intros []; try done. unfold source_price, legacy_source_price. cbn.
    destruct (pw_offerPrice pd), (bp_price (pw_baseProduct pd)); cbn; try done. by rewrite n_lt_irrefl. }
  assert (omap (source_price (migrate_product cid pd)) (default [] sources)
          = omap (legacy_source_price pd) (default [] sources)) as ->; [|done].
  induction (default [] sources) as [|s l IH]; [done|]. cbn. by rewrite E, IH.
Qed.

Lemma migrated_margin cid pd :
  current_margin (migrate_product cid pd) = legacy_current_margin pd (default (#0) (bp_cost (pw_baseProduct pd))).
Proof.
  unfold current_margin, legacy_current_margin, truthy_offer, legacy_truthy_offer. cbn.
  destruct (pw_offerPrice pd) as [o|]; [destruct (o =? #0); [|done]|];
    destruct (bp_price (pw_baseProduct pd)); cbn; rewrite ?n_lt_irrefl; done.
Qed.

Lemma migrated_rule cid index pd rules rules' p :
  Forall2 (rule_migrated (pw_baseProduct pd) cid index) rules rules' →
  option_Forall2 (rule_migrated (pw_baseProduct pd) cid index)
    (legacy_findMatchingPricingRule (pw_baseProduct pd) rules p)
    (findMatchingPricingRule (migrate_product cid pd) rules' p index).
Proof.
  intros Hr. apply head_filter_Forall2; [done|]. intros r r' (H1 & H2 & H3 & H4 & _ & _ & H5 & H6).
  rewrite legacy_rule_matches_iff, rule_matches_iff. cbn. by rewrite H1, H2, H3, H4, H5, H6.
Qed.

Lemma migrated_lock cid index pd locks locks' :
  Forall2 (lock_migrated (pw_baseProduct pd) cid index) locks locks' →
  option_Forall2 (lock_migrated (pw_baseProduct pd) cid index)
    (legacy_findMatchingPriceLock (pw_baseProduct pd) locks)
    (findMatchingPriceLock (migrate_product cid pd) locks' index).
Proof.
  intros Hr. apply head_filter_Forall2; [done|]. intros l l' (_ & H1 & H2).
  unfold legacy_lock_matches, lock_matches. cbn. by rewrite H1, H2.
Qed.

Lemma migrated_rounding f rules floor :
  (∀ m r d, floor = Some m → r ∈ rules → d ∈ lr_decimalRanges r → (n_floor f + dr_roundTo d <? m) = false) →
  offer_rounding f (migrate_rounding <$> rules) floor = legacy_rounding f rules.
Proof.
  intros Hf. unfold offer_rounding, legacy_rounding.
  assert (option_Forall2 (λ r r', r ∈ rules ∧ r' = migrate_rounding r)
    (head (filter (λ r, (lr_priceRangeMin r <=? f) && (f <=? lr_priceRangeMax r) = true) rules))
    (head (filter (λ r, (rr_priceMin r <=? f) && (f <=? rr_priceMax r) = true) (migrate_rounding <$> rules)))) as Hr.
  { apply head_filter_Forall2; [|by intros r r' [_ ->]].
    apply Forall2_fmap_r, Forall_Forall2_diag, Forall_forall. auto. }
  destruct Hr as [r r' [Hr ->]|]; cbn [mbind option_bind]; cbv zeta; [|done].
  set (dec := round2 (f - n_floor f)).
  assert (option_Forall2 (λ d d', d ∈ lr_decimalRanges r ∧ d' = Build_DecimalBucket (dr_decimalRangeFrom d) (dr_decimalRangeTo d) (dr_roundTo d))
    (head (filter (λ d, (dr_decimalRangeFrom d <=? dec) && (dec <=? dr_decimalRangeTo d) = true) (lr_decimalRanges r)))
    (head (filter (λ d, (db_from d <=? dec) && (dec <=? db_to d) = true) (rr_decimals (migrate_rounding r))))) as Hd.
  { apply head_filter_Forall2; [|by intros d d' [_ ->]].
    apply Forall2_fmap_r, Forall_Forall2_diag, Forall_forall. auto. }
  destruct Hd as [d d' [Hd ->]|]; cbn [mbind option_bind db_roundTo]; [|done].
  destruct floor as [m|]; [|done]. by rewrite (Hf m r d).
Qed.

(** The lock: bumped alike, to the same floor. *)
Lemma migrated_bump (l l' : option (CreatePriceLockDto N)) (cm nm cost : N) :
  option_Forall2 (λ l l', ld_minMargin l' = ld_minMargin l ∧ (ld_minMargin l / #100 <? #1) = (ld_minMargin l <? #100)) l l' →
  lock_floor l' cost = lock_floor l cost ∧
  legacy_locked l cm nm cost
    = if lock_bumps l' (lock_floor l cost) cm nm
      then f ← lock_floor l cost; m ← (ld_minMargin <$> l'); Some (f, m) else None.
Proof.
  intros [a b [E Hm]|]; [|done]. unfold lock_floor, legacy_locked, lock_bumps. cbn. rewrite E, Hm.
  destruct (ld_minMargin a <? #100), (#0 <? cost); cbn; try done; by destruct (_ || _).
Qed.

(** What the matching rules have in common. *)
Lemma migrated_terms cid index pd rules rules' p :
  Forall2 (rule_migrated (pw_baseProduct pd) cid index) rules rules' →
  let r := legacy_findMatchingPricingRule (pw_baseProduct pd) rules p in
  let r' := findMatchingPricingRule (migrate_product cid pd) rules' p index in
  price_after_rule r' p = price_after_rule r p ∧ rd_actionType <$> r' = rd_actionType <$> r ∧
  rd_percentageValue <$> r' = rd_percentageValue <$> r.
Proof.
  intros Hr. cbv zeta. destruct (migrated_rule cid index pd rules rules' p Hr) as [r r' (_ & _ & _ & _ & H1 & H2 & _)|]; [|done].
  unfold price_after_rule. cbn. by rewrite H1, H2.
Qed.

Lemma migrated_minimum cid index pd locks locks' :
  Forall2 (lock_migrated (pw_baseProduct pd) cid index) locks locks' →
  (∀ l, l ∈ locks → (ld_minMargin l / #100 <? #1) = (ld_minMargin l <? #100)) →
  option_Forall2 (λ l l', ld_minMargin l' = ld_minMargin l ∧ (ld_minMargin l / #100 <? #1) = (ld_minMargin l <? #100))
    (legacy_findMatchingPriceLock (pw_baseProduct pd) locks)
    (findMatchingPriceLock (migrate_product cid pd) locks' index).
Proof.
  intros Hl Hm. pose proof (migrated_lock cid index pd locks locks' Hl) as Hf.
  destruct (legacy_findMatchingPriceLock _ _) as [l|] eqn:El; inversion Hf as [? l' (E & _)|]; subst; constructor.
  split; [done|]. apply Hm. by eapply head_filter_elem.
Qed.

Lemma guarded_positive p cost : (#0 <? p) = true → guarded_margin p cost = legacy_margin p cost.
Proof. intros Hp. unfold guarded_margin, legacy_margin. by rewrite Hp, andb_true_r. Qed.
End SamePrices.

(** [C39] The replaced engine and the current one.  For a product of the
    catalogue, rules and locks that select it alike by path and by node, and
    the same rounding table, both compute the same preview, field by field,
    on any numbers (binary64 included), where prices stay positive and no rounding dips below
    the floor of the lock. *)
Theorem legacy_engine_agrees {N} `{JsNumLaws N} cid index (pd : ProductWithPrices N) (params : LegacyParams N) rules' locks' :
  Forall2 (rule_migrated (pw_baseProduct pd) cid index) (lp_pricingRules params) rules' →
  Forall2 (lock_migrated (pw_baseProduct pd) cid index) (lp_priceLocks params) locks' →
  within_reach params pd →
  as_preview (legacy_preview params pd)
  = calculateProductPreview (Build_CalculationParams (lp_calculationBaseType params) (lp_priceBaseSources params) rules' locks'
      (migrate_rounding <$> lp_priceRoundingRules params) index) (migrate_product cid pd).
Proof.
  intros Hrules Hlocks [Hmargin Hpos Hround Hfloor].
  unfold legacy_preview, calculateProductPreview. cbn [ca_calculationBaseType ca_priceBaseSources].
  rewrite migrated_base_price. destruct (legacy_basePrice _ _ _) as [cur|] eqn:Hb.
  2: { unfold as_preview, skipped_no_competitor, product_classification, guarded_margin, base_offer. cbn.
       by rewrite legacy_normalize_eq. }
  specialize (Hpos cur eq_refl).
  cbn [ca_pricingRules ca_priceLocks ca_priceRoundingRules ca_classificationIndex].
  destruct (migrated_terms cid index pd _ _ cur Hrules) as (E1 & E2 & E3). rewrite E1, E2, E3.
  pose proof (migrated_minimum cid index pd _ _ Hlocks Hmargin) as Hl. rewrite migrated_margin.
  pose proof (λ p, Hround cur p eq_refl) as Hround'. pose proof (λ f r d, Hfloor cur f r d eq_refl) as Hfloor'.
  clear Hround Hfloor. unfold unrounded in *. change (pp_salePrice (migrate_product cid pd)) with (default (#0)%js (bp_price (pw_baseProduct pd))).
  change (pp_cost (migrate_product cid pd)) with (default (#0)%js (bp_cost (pw_baseProduct pd))).
  set (cost := default (#0)%js (bp_cost (pw_baseProduct pd))) in *.
  set (lock := legacy_findMatchingPriceLock _ _) in *. set (lock' := findMatchingPriceLock _ _ _) in *.
  set (after := price_after_rule _ _) in *. destruct (_ && _)%bool.
  { unfold as_preview, skipped_exceeds_limit, product_classification, base_offer. rewrite E2, E3, migrated_margin. cbn.
    by rewrite legacy_normalize_eq. }
  rewrite (guarded_positive after cost Hpos).
  destruct (migrated_bump lock lock' (legacy_current_margin pd cost) (legacy_margin after cost) cost Hl) as [Hfl Hlk].
  rewrite Hfl. rewrite Hlk in *.
  destruct (lock_bumps lock' _ _ _) eqn:Hbump.
  - unfold lock_bumps in Hbump. destruct (lock_floor lock cost) as [f|] eqn:Ef; [|done]. destruct lock' as [l'|]; [|done].
    cbn -[offer_rounding legacy_rounding] in *.
    rewrite (migrated_rounding f _ (Some f)) by (intros m r d [= <-]; by apply Hfloor').
    destruct (legacy_rounding f _) as [p|]; unfold as_preview, product_classification, base_offer; cbn;
      rewrite ?(guarded_positive p cost (Hround' p eq_refl)), legacy_normalize_eq; done.
  - cbn -[offer_rounding legacy_rounding lock_floor] in *.
    rewrite (migrated_rounding after _ (lock_floor lock cost)) by (intros m r d Hm; by apply Hfloor').
    destruct (legacy_rounding after _) as [p|]; unfold as_preview, product_classification, base_offer; cbn;
      rewrite ?(guarded_positive p cost (Hround' p eq_refl)), legacy_normalize_eq; done.
Qed.

(* ------------------------------------------------------------------ *)
(** * Concrete products                                                 *)
(* ------------------------------------------------------------------ *)

Definition lg_product {N} `{JsNum N} (sale cost : N) (cls : string) : ProductWithPrices N :=
  {| pw_baseProduct := {| bp_ean := "7891"; bp_name := Some "DIPIRONA"; bp_externalId := Some "77"; bp_price := Some sale;
                          bp_cost := Some cost; bp_margin := Some (n_int 50); bp_classificationName := Some cls |};
     pw_competitorPrices := ∅; pw_offerPrice := None |}.

Definition lg_rule (cls : option (list string)) (prices margins : option (F64 * F64)) (pct : F64) : CreatePricingRuleDto F64 :=
  let lo := fmap (λ r : F64 * F64, Some r.1) in let hi := fmap (λ r : F64 * F64, Some r.2) in
  Build_CreatePricingRuleDto cls (lo prices) (hi prices) (lo margins) (hi margins) DISCOUNT pct None.

Definition lg_params (rules : list (CreatePricingRuleDto F64)) (minMargin : F64) (rounding : list (LegacyRoundingRule F64)) :=
  Build_LegacyParams SALE_PRICE None rules [Build_CreatePriceLockDto None minMargin None] rounding.

Definition lg_path : string := "MEDICAMENTOS > GENERICOS > DOR".
Definition lg_rounding : list (LegacyRoundingRule F64) :=
  [Build_LegacyRoundingRule (n_int 0) (n_int 100) [Build_DecimalRange (n_int 0) (n_dec 99 2) (n_dec 90 2)]].

(** A filter also takes the siblings whose name goes on from its own. *)
Lemma sibling_matches :
  legacy_classificationMatches "MEDICAMENTOS > GENERICOS ESPECIAIS" (Some ["MEDICAMENTOS > GENERICOS"]) = true.
Proof. reflexivity. Qed.

(** Two rules that no product can match together, for their margins are
    apart: the preview takes the set, the create use case refuses it. *)
Lemma preview_accepts_more :
  let rules := [lg_rule None (Some (n_int 0, n_int 20)) (Some (n_int 0, n_int 10)) (n_int 5);
                lg_rule None (Some (n_int 10, n_int 30)) (Some (n_int 20, n_int 30)) (n_int 8)] in
  legacy_validateRules rules = Ok () ∧ saved_validateRules rules ≠ Ok ().
Proof. vm_compute. by split. Qed.

(** Where prices are not positive the engines part: with a lock of 0 % the
    replaced engine takes a 100 % discount back to the cost, the current one
    gives the product away.  And only the current one keeps the rounding at
    or above the floor of the lock. *)
Lemma engines_part :
  (let rules := [lg_rule None None None (n_int 100)] in
   lv_finalPrice (legacy_preview (lg_params rules (n_int 0) []) (lg_product (n_int 10) (n_int 5) lg_path)) = n_int 5 ∧
   pv_finalPrice (calculateProductPreview (of_params rules [Build_CreatePriceLockDto None (n_int 0) None] [])
                    (migrate_product None (lg_product (n_int 10) (n_int 5) lg_path))) = n_int 0) ∧
  (let pd := lg_product (n_int 20) (n_dec 596 2) lg_path in
   let rules := [lg_rule None None None (n_int 50)] in
   lv_finalPrice (legacy_preview (lg_params rules (n_int 50) lg_rounding) pd) = n_dec 119 1 ∧
   n_lt (n_dec 119 1 : F64) (n_dec 1192 2) = true ∧
   lv_priceLockApplied (legacy_preview (lg_params rules (n_int 50) lg_rounding) pd) = true ∧
   pv_finalPrice (calculateProductPreview (of_params rules [Build_CreatePriceLockDto None (n_int 50) None]
                    (migrate_rounding <$> lg_rounding)) (migrate_product None pd)) = n_dec 129 1).
Proof. vm_compute. by repeat split. Qed.

Definition lg_rules : list (CreatePricingRuleDto F64) :=
  [lg_rule (Some ["MEDICAMENTOS > GENERICOS"]) (Some (n_int 0, n_int 20)) None (n_int 10);
   lg_rule (Some ["PERFUMARIA"]) None None (n_int 5)].

Lemma legacy_sets_unambiguous_witness :
  let product := pw_baseProduct (lg_product (n_int 10) (n_int 5) lg_path) in
  saved_validateRules lg_rules = Ok () ∧
  legacy_findMatchingPricingRule product (reverse lg_rules) (n_int 10) = head lg_rules.
Proof.
  cbv zeta. assert (saved_validateRules lg_rules = Ok ()) as Hv by (vm_compute; reflexivity). split; [exact Hv|].
  destruct (legacy_sets_unambiguous lg_rules [] (pw_baseProduct (lg_product (n_int 10) (n_int 5) lg_path)) (n_int 10))
    as (_ & _ & Hperm & _).
  - repeat constructor; unfold bound_num; simpl; intros ? [= <-]; vm_compute; reflexivity.
  - vm_compute. reflexivity.
  - vm_compute. reflexivity.
  - by right.
  - vm_compute. reflexivity.
  - rewrite (Hperm (reverse lg_rules)); [|apply reverse_Permutation]. vm_compute. reflexivity.
Defined.

(** A discount of 10 % on 10.00, taken back to a floor of 50 %: 10.00, which
    the table rounds to 10.90. *)
Lemma legacy_engine_agrees_witness :
  let pd := lg_product (n_int 10) (n_int 5) lg_path in
  let params := lg_params lg_rules (n_int 50) lg_rounding in
  let now := calculateProductPreview (Build_CalculationParams SALE_PRICE None
               [lg_rule (Some ["gen"]) (Some (n_int 0, n_int 20)) None (n_int 10); lg_rule (Some ["other"]) None None (n_int 5)]
               [Build_CreatePriceLockDto None (n_int 50) None] (migrate_rounding <$> lg_rounding) of_index)
               (migrate_product (Some "dor") pd) in
  pv_finalPrice now = n_dec 109 1 ∧ as_preview (legacy_preview params pd) = now.
Proof.
  cbv zeta. split; [vm_compute; reflexivity|].
  apply (legacy_engine_agrees (Some "dor") of_index (lg_product (n_int 10) (n_int 5) lg_path) (lg_params lg_rules (n_int 50) lg_rounding)
    [lg_rule (Some ["gen"]) (Some (n_int 0, n_int 20)) None (n_int 10); lg_rule (Some ["other"]) None None (n_int 5)]
    [Build_CreatePriceLockDto None (n_int 50) None]).
  - repeat constructor.
  - repeat constructor.
  - split.
    + intros l Hl. apply list_elem_of_singleton in Hl as ->. vm_compute. reflexivity.
    + intros cur [= <-]. vm_compute. reflexivity.
    + intros cur p [= <-] Hp. vm_compute in Hp. injection Hp as <-. vm_compute. reflexivity.
    + intros cur floor r d [= <-] Hf Hr Hd. apply list_elem_of_singleton in Hr as ->.
      apply list_elem_of_singleton in Hd as ->. vm_compute in Hf. injection Hf as <-. vm_compute. reflexivity.
Defined.
