(* ===== verification/LegacyOfferBook.v ===== *)
(** The offer book rules of the application that the current one replaces:
    its store, the use cases that create, update and execute the rules
    ([legacy-app/src/use-cases/]) and the hourly cron
    ([cron/periodic-routines.cron.ts]).

    Nothing here is a transaction: a statement that fails ends the request
    and keeps what was written before.  [lw_fates] decides which statements
    fail, [api] what the ERP answers to a POST.  The sort of PostgreSQL, its
    [LIKE] and what a NUMERIC(10,2) column gives back are arguments. *)

From Stdlib Require Import Ascii String.
From S2P Require Import Prelude JsText JsNumber SuggestionEngine OfferRules LegacyOfferRules.
Open Scope string_scope.
Open Scope list_scope.
Open Scope Z_scope.

Inductive OfferBookRulesStatus := R_IDLE | R_RUNNING | R_SUCCEEDED | R_PARTIALLY_SUCCEEDED | R_ERRORED.
Inductive ExecutionOutcome := O_SUCCESS | O_FAILURE | O_NO_CHANGES.
Inductive ExecutionType := X_MANUAL | X_SCHEDULED.

#[export] Instance OfferBookRulesStatus_eq_dec : EqDecision OfferBookRulesStatus.
Proof. solve_decision. Defined.

(** A [simple-array] column: the values joined by commas. *)
Definition simple_array (l : list string) : string := str_join "," l.
Definition read_simple_array (s : string) : list string := if String.eqb s "" then [] else str_split "," s.

(* ------------------------------------------------------------------ *)
(** * The store                                                         *)
(* ------------------------------------------------------------------ *)

(** [offer_book_rules], by id; arrays as their columns have them. *)
Record LegacyRulesRow := {
  lb_offerBookInfoId : Z;
  lb_calculationBaseType : CalculationBaseType;
  lb_priceBaseSources : option (list PriceBaseSource);
  lb_groupedClassifications : option string;
  lb_scheduleEnabled : bool;
  lb_scheduledDays : option string;
  lb_lastScheduledExecution : option Z;
  lb_applyPriceRounding : bool;
  lb_status : OfferBookRulesStatus;
}.

(** [base_product] with its classification and the offers of its
    [offer_book] rows. *)
Record LegacyBaseRow (N : Type) := { lbp_product : BaseProduct N; lbp_active : bool; lbp_offers : list (option N) }.
Arguments Build_LegacyBaseRow {N}.
Arguments lbp_product {N}. Arguments lbp_active {N}. Arguments lbp_offers {N}.

Record LegacyReport := {
  lrp_offerBookRulesId : Z; lrp_offerBookInfoId : Z; lrp_executedAt : Z; lrp_executionType : ExecutionType;
  lrp_calculationBaseType : CalculationBaseType; lrp_totalProducts : Z; lrp_productsUpdated : Z; lrp_productsSkipped : Z;
  lrp_outcome : ExecutionOutcome; lrp_errorMessage : option string;
}.

Record LegacyReportItem (N : Type) := {
  li_executionReportId : Z; li_ean : string; li_name : string; li_classification : string; li_baseSalePrice : N;
  li_currentPrice : N; li_currentMargin : N; li_cost : N; li_actionType : option PricingActionType; li_percentageValue : option N;
  li_appliedPercentageValue : N; li_finalPrice : N; li_newMargin : N; li_priceLockApplied : bool; li_discountSkipped : bool;
  li_skippedNoCompetitorPrice : bool; li_skippedPriceExceedsLimit : bool; li_priceRoundingApplied : bool; li_wasUpdated : bool;
}.
Arguments Build_LegacyReportItem {N}.
Arguments li_executionReportId {N}. Arguments li_ean {N}. Arguments li_wasUpdated {N}. Arguments li_finalPrice {N}.

Record LDb (N : Type) := {
  ld_rules : gmap Z LegacyRulesRow;
  ld_products : gmap Z (list Z);  (* offer_book_rules_products, by rules id *)
  ld_pricingRules : gmap Z (list (CreatePricingRuleDto N));
  ld_priceLocks : gmap Z (list (CreatePriceLockDto N));
  ld_infos : gmap Z string;  (* offer_book_info: the external id *)
  ld_base : gmap Z (LegacyBaseRow N);
  ld_competitors : gmap (string * string) N;  (* product: price by EAN and origin *)
  ld_rounding : list (LegacyRoundingRule N);  (* the active rules, by priceRangeMin *)
  ld_reports : gmap Z LegacyReport;
  ld_items : list (LegacyReportItem N);
  ld_nextId : Z;
}.
Arguments Build_LDb {N}.
Arguments ld_rules {N}. Arguments ld_products {N}. Arguments ld_pricingRules {N}. Arguments ld_priceLocks {N}.
Arguments ld_infos {N}. Arguments ld_base {N}. Arguments ld_competitors {N}. Arguments ld_rounding {N}.
Arguments ld_reports {N}. Arguments ld_items {N}. Arguments ld_nextId {N}.

Record A7PharmaApiResponse := { ap_success : bool; ap_statusCode : option Z; ap_error : option string; ap_data : option string }.

Record LWorld (N : Type) := {
  lw_db : LDb N;
  lw_fates : list bool;  (* whether the next statements succeed *)
  lw_posts : list (string * list (option string * N));  (* what the ERP was sent *)
}.
Arguments Build_LWorld {N}.
Arguments lw_db {N}. Arguments lw_fates {N}. Arguments lw_posts {N}.

Definition LM (N A : Type) : Type := LWorld N → Res A * LWorld N.
#[export] Instance LM_ret {N} : MRet (LM N) := λ A a w, (Ok a, w).
#[export] Instance LM_bind {N} : MBind (LM N) := λ A B f m w,
  match m w with (Ok a, w) => f a w | (Throw e, w) => (Throw e, w) end.

Section Legacy.
Context {N : Type} `{JsNum N}.
Abbreviation L := (LM N).

Definition l_throw {A} (e : Exn) : L A := λ w, (Throw e, w).
(** [try m catch (e) { h(e) }] *)
Definition l_catch {A} (m : L A) (h : Exn → L A) : L A := λ w,
  match m w with (Throw e, w) => h e w | r => r end.

(** One statement. *)
Definition sql {A} (f : LDb N → Res A * LDb N) : L A := λ w,
  match lw_fates w with
  | false :: rest => (Throw (EError "statement failed"), Build_LWorld (lw_db w) rest (lw_posts w))
  | fates => let r := f (lw_db w) in (r.1, Build_LWorld r.2 (tail fates) (lw_posts w))
  end.
Definition query {A} (f : LDb N → A) : L A := sql (λ d, (Ok (f d), d)).
Definition write (f : LDb N → LDb N) : L unit := sql (λ d, (Ok tt, f d)).

Definition with_rules f (d : LDb N) : LDb N :=
  Build_LDb (f (ld_rules d)) (ld_products d) (ld_pricingRules d) (ld_priceLocks d) (ld_infos d) (ld_base d)
    (ld_competitors d) (ld_rounding d) (ld_reports d) (ld_items d) (ld_nextId d).
Definition with_lists (id : Z) (products : list Z → list Z) (rules : list (CreatePricingRuleDto N) → list (CreatePricingRuleDto N))
    (locks : list (CreatePriceLockDto N) → list (CreatePriceLockDto N)) (d : LDb N) : LDb N :=
  let set {A} (f : list A → list A) (m : gmap Z (list A)) := <[id := f (default [] (m !! id))]> m in
  Build_LDb (ld_rules d) (set products (ld_products d)) (set rules (ld_pricingRules d)) (set locks (ld_priceLocks d)) (ld_infos d)
    (ld_base d) (ld_competitors d) (ld_rounding d) (ld_reports d) (ld_items d) (ld_nextId d).
Definition with_reports (reports : gmap Z LegacyReport → gmap Z LegacyReport) items next (d : LDb N) : LDb N :=
  Build_LDb (ld_rules d) (ld_products d) (ld_pricingRules d) (ld_priceLocks d) (ld_infos d) (ld_base d)
    (ld_competitors d) (ld_rounding d) (reports (ld_reports d)) (items (ld_items d)) (next (ld_nextId d)).

Definition set_status (status : OfferBookRulesStatus) (r : LegacyRulesRow) : LegacyRulesRow :=
  Build_LegacyRulesRow (lb_offerBookInfoId r) (lb_calculationBaseType r) (lb_priceBaseSources r) (lb_groupedClassifications r)
    (lb_scheduleEnabled r) (lb_scheduledDays r) (lb_lastScheduledExecution r) (lb_applyPriceRounding r) status.
Definition updateStatus (id : Z) (status : OfferBookRulesStatus) : L unit := write (with_rules (alter (set_status status) id)).

(** Every RUNNING rule becomes ERRORED; answers how many. *)
Definition resetStuckRunningStatus : L Z :=
  sql (λ d, (Ok (Z.of_nat (size (filter (λ '(_, r), lb_status r = R_RUNNING) (ld_rules d)))),
             with_rules (fmap (λ r, if bool_decide (lb_status r = R_RUNNING) then set_status R_ERRORED r else r)) d)).

(** The row with its rules, its locks and the external id of its caderno. *)
Record LoadedRules := {
  lo_row : LegacyRulesRow; lo_pricingRules : list (CreatePricingRuleDto N); lo_priceLocks : list (CreatePriceLockDto N);
  lo_infoExternalId : option string;
}.
Definition load (d : LDb N) (id : Z) : option LoadedRules :=
  r ← ld_rules d !! id;
  Some {| lo_row := r; lo_pricingRules := default [] (ld_pricingRules d !! id); lo_priceLocks := default [] (ld_priceLocks d !! id);
          lo_infoExternalId := ld_infos d !! lb_offerBookInfoId r |}.
(** The count of products is a statement of its own. *)
Definition findById (id : Z) : L (option LoadedRules) :=
  rules ← query (λ d, load d id);
  match rules with
  | Some r => query (λ _, ());; mret (Some r)
  | None => mret None
  end.

(* ------------------------------------------------------------------ *)
(** * Products and prices                                               *)
(* ------------------------------------------------------------------ *)

(** [ORDER BY name] *)
Variable order_by_name : list (LegacyBaseRow N) → list (LegacyBaseRow N).
(** [name LIKE pattern] *)
Variable like : string → string → bool.

Definition base_rows (d : LDb N) : list (Z * LegacyBaseRow N) := map_to_list (ld_base d).

Definition findActiveByIds (ids : list Z) (d : LDb N) : list (LegacyBaseRow N) :=
  if bool_decide (ids = []) then []
  else order_by_name (snd <$> filter (λ x, x.1 ∈ ids ∧ lbp_active x.2 = true) (base_rows d)).

Definition findActiveByGroupedClassifications (groupedClassifications : list string) (d : LDb N) : list (LegacyBaseRow N) :=
  if bool_decide (groupedClassifications = []) then []
  else order_by_name (snd <$> filter (λ x, lbp_active x.2 = true ∧
         existsb (λ c, match bp_classificationName (lbp_product x.2) with Some n => like n (c +:+ "%") | None => false end)
           groupedClassifications = true) (base_rows d)).

(** The queries of a loop over slices, concatenated. *)
Fixpoint batched {A B} (batches : list (list A)) (q : list A → LDb N → list B) : L (list B) :=
  match batches with
  | [] => mret []
  | b :: rest => rows ← query (q b); more ← batched rest q; mret (rows ++ more)
  end.

Definition findActiveBaseProductsByIdsBatched (ids : list Z) : L (list (LegacyBaseRow N)) :=
  batched (slices 1000 ids) findActiveByIds.

(** Positive prices of the origins, by EAN. *)
Definition getPricesByEansAndOrigins (eans : list string) (origins : list string) (d : LDb N) : list (string * gmap string N) :=
  if bool_decide (eans = []) || bool_decide (origins = []) then []
  else (λ ean, (ean, list_to_map (omap (λ o, p ← ld_competitors d !! (ean, o); if n_lt (n_int 0) p then Some (o, p) else None)
                                   (js_uniq origins)))) <$> js_uniq eans.

Definition origins_of (priceBaseSources : list PriceBaseSource) : list string :=
  source_str <$> filter (λ s, s ≠ OWN_PRICE) priceBaseSources.

Definition getProductsWithPrices (baseProducts : list (LegacyBaseRow N)) (calculationBaseType : CalculationBaseType)
    (priceBaseSources : option (list PriceBaseSource)) : L (list (ProductWithPrices N)) :=
  let eans := bp_ean ∘ lbp_product <$> baseProducts in
  let origins := origins_of (default [] priceBaseSources) in
  pricesByOrigin ←
    (if bool_decide (calculationBaseType = COMPETITIVE_PRICE) && negb (bool_decide (origins = []))
     then batched (slices 1000 eans) (λ batch, getPricesByEansAndOrigins batch origins)
     else mret []);
  let byEan : gmap string (gmap string N) := list_to_map (reverse pricesByOrigin) in
  mret ((λ bp, Build_ProductWithPrices (lbp_product bp) (default ∅ (byEan !! bp_ean (lbp_product bp)))
                 (mjoin (head (lbp_offers bp)))) <$> baseProducts).

(* ------------------------------------------------------------------ *)
(** * Reports                                                           *)
(* ------------------------------------------------------------------ *)

Definition legacy_shouldPush (p : LegacyPreview N) : bool :=
  negb (lv_skippedNoCompetitorPrice p) && negb (lv_skippedPriceExceedsLimit p)
  && negb (n_eq (lv_finalPrice p) (lv_currentPrice p)).

Definition report_item (reportId : Z) (p : LegacyPreview N) : LegacyReportItem N :=
  {| li_executionReportId := reportId; li_ean := lv_ean p; li_name := lv_name p; li_classification := lv_classification p;
     li_baseSalePrice := lv_baseSalePrice p; li_currentPrice := lv_currentPrice p; li_currentMargin := lv_currentMargin p;
     li_cost := lv_cost p; li_actionType := lv_actionType p; li_percentageValue := lv_percentageValue p;
     li_appliedPercentageValue := lv_appliedPercentageValue p; li_finalPrice := lv_finalPrice p; li_newMargin := lv_newMargin p;
     li_priceLockApplied := lv_priceLockApplied p; li_discountSkipped := lv_discountSkipped p;
     li_skippedNoCompetitorPrice := lv_skippedNoCompetitorPrice p; li_skippedPriceExceedsLimit := lv_skippedPriceExceedsLimit p;
     li_priceRoundingApplied := lv_priceRoundingApplied p; li_wasUpdated := legacy_shouldPush p |}.

Definition buildReportItems (reportId : Z) (products : list (LegacyPreview N)) : list (LegacyReportItem N) :=
  report_item reportId <$> products.

Fixpoint insert_batches (batches : list (list (LegacyReportItem N))) : L unit :=
  match batches with
  | [] => mret ()
  | b :: rest => write (with_reports id (λ items, items ++ b) id);; insert_batches rest
  end.
Definition appendItems (items : list (LegacyReportItem N)) : L unit := insert_batches (slices 200 items).

Definition createReportHeader (report : LegacyReport) : L Z :=
  sql (λ d, (Ok (ld_nextId d), with_reports <[ld_nextId d := report]> id Z.succ d)).

Definition set_header (total updated skipped : Z) (outcome : ExecutionOutcome) (error : option string) (r : LegacyReport) : LegacyReport :=
  Build_LegacyReport (lrp_offerBookRulesId r) (lrp_offerBookInfoId r) (lrp_executedAt r) (lrp_executionType r)
    (lrp_calculationBaseType r) total updated skipped outcome error.
Definition updateHeader (id : Z) (total updated skipped : Z) (outcome : ExecutionOutcome) (error : option string) : L unit :=
  write (with_reports (alter (set_header total updated skipped outcome error) id) (λ x, x) (λ x, x)).

(* ------------------------------------------------------------------ *)
(** * The push                                                          *)
(* ------------------------------------------------------------------ *)

(** What the ERP answers to the [n]th POST; [createOrUpdateOffers] turns
    every error into an answer. *)
Variable api : nat → A7PharmaApiResponse.

Definition createOrUpdateOffers (idCadernoOferta : string) (items : list (option string * N)) : L A7PharmaApiResponse := λ w,
  (Ok (api (length (lw_posts w))), Build_LWorld (lw_db w) (lw_fates w) (lw_posts w ++ [(idCadernoOferta, items)])).

Definition nonempty (s : option string) : list string := match s with None | Some "" => [] | Some s => [s] end.

Definition buildChunkErrorMessage (chunkNumber totalChunks : Z) (result : A7PharmaApiResponse) : string :=
  str_join " | "
    (["Chunk " +:+ pretty chunkNumber +:+ "/" +:+ pretty totalChunks +:+ " failed"]
     ++ match ap_statusCode result with None | Some 0 => [] | Some code => ["HTTP " +:+ pretty code] end
     ++ nonempty (ap_error result)
     ++ (append "API response: " <$> nonempty (ap_data result))).

Definition offer_items (products : list (LegacyPreview N)) : list (option string * N) :=
  (λ p, (lv_externalId p, lv_finalPrice p)) <$> products.

(** The loop over the chunks: the number that succeeded and the messages of
    the others.  A report that cannot be saved is logged. *)
Fixpoint push_chunks (idCadernoOferta : string) (reportId total : Z) (chunks : list (Z * list (LegacyPreview N))) : L (Z * list string) :=
  match chunks with
  | [] => mret (0, [])
  | (i, chunk) :: rest =>
      result ← createOrUpdateOffers idCadernoOferta (offer_items chunk);
      (if ap_success result then l_catch (appendItems (buildReportItems reportId chunk)) (λ _, mret ()) else mret ());;
      r ← push_chunks idCadernoOferta reportId total rest;
      mret (if ap_success result then (r.1 + 1, r.2) else (r.1, buildChunkErrorMessage i total result :: r.2))
  end.

Record BatchResult := { br_totalBatches : Z; br_successfulBatches : Z; br_failedBatches : Z; br_errors : list string }.

Definition updateOfferBookPrices (idCadernoOferta : string) (reportId : Z) (products : list (LegacyPreview N)) : L BatchResult :=
  let chunks := slices 80 products in
  let total := Z.of_nat (length chunks) in
  r ← push_chunks idCadernoOferta reportId total (number_from 1 chunks);
  mret {| br_totalBatches := total; br_successfulBatches := r.1; br_failedBatches := total - r.1; br_errors := r.2 |}.

(* ------------------------------------------------------------------ *)
(** * Execution                                                         *)
(* ------------------------------------------------------------------ *)

Record ExecuteResult := {
  ex_offerBookRulesId : Z; ex_offerBookInfoId : Z; ex_totalProducts : Z; ex_productsUpdated : Z; ex_productsSkipped : Z;
  ex_executedAt : Z; ex_executionReportId : Z;
}.

(** The outcome, the status and the message of a push. *)
Definition settle (r : BatchResult) : ExecutionOutcome * OfferBookRulesStatus * option string :=
  if br_failedBatches r =? 0 then (O_SUCCESS, R_SUCCEEDED, None)
  else if br_successfulBatches r =? 0 then (O_FAILURE, R_ERRORED, Some (str_join "; " (br_errors r)))
  else (O_FAILURE, R_PARTIALLY_SUCCEEDED,
        Some ("Partial failure (" +:+ pretty (br_failedBatches r) +:+ "/" +:+ pretty (br_totalBatches r) +:+ " batches failed): "
              +:+ str_join "; " (br_errors r))).

(** The rules and locks as a calculation takes them: [?? undefined]. *)
Definition bound_of (x : option (option N)) : option (option N) := Some <$> mjoin x.
Definition loaded_rule (r : CreatePricingRuleDto N) : CreatePricingRuleDto N :=
  Build_CreatePricingRuleDto (rd_classifications r) (bound_of (rd_priceRangeMin r)) (bound_of (rd_priceRangeMax r))
    (bound_of (rd_marginRangeMin r)) (bound_of (rd_marginRangeMax r)) (rd_actionType r) (rd_percentageValue r) (rd_active r).

Definition saved_params (rules : LoadedRules) (rounding : list (LegacyRoundingRule N)) : LegacyParams N :=
  Build_LegacyParams (lb_calculationBaseType (lo_row rules)) (lb_priceBaseSources (lo_row rules))
    (normalizePricingRulesClassifications (loaded_rule <$> lo_pricingRules rules))
    (normalizePriceLocksClassifications (lo_priceLocks rules)) rounding.

(** The prices, the report, the push. *)
Definition run_rules (now id : Z) (ty : ExecutionType) (rules : LoadedRules) (baseProducts : list (LegacyBaseRow N)) : L (option ExecuteResult) :=
  let row := lo_row rules in
  productsWithPrices ← getProductsWithPrices baseProducts (lb_calculationBaseType row) (lb_priceBaseSources row);
  priceRoundingRules ← (if lb_applyPriceRounding row then query ld_rounding else mret []);
  let calculatedProducts := calculateProductPreviews productsWithPrices (saved_params rules priceRoundingRules) in
  let productsToUpdate := filter (λ p, legacy_shouldPush p = true) calculatedProducts in
  let productsSkipped := filter (λ p, legacy_shouldPush p = false) calculatedProducts in
  let total := Z.of_nat (length calculatedProducts) in
  let updated := Z.of_nat (length productsToUpdate) in
  let skipped := Z.of_nat (length productsSkipped) in
  report ← createReportHeader (Build_LegacyReport id (lb_offerBookInfoId row) now ty (lb_calculationBaseType row)
             total updated skipped O_SUCCESS None);
  appendItems (buildReportItems report productsSkipped);;
  '(outcome, finalStatus, errorMessage) ←
    (if bool_decide (productsToUpdate = []) then mret (O_NO_CHANGES, R_SUCCEEDED, None)
     else match lo_infoExternalId rules with
          | None => l_throw (EError "Cannot read properties of null (reading 'externalId')")
          | Some externalId => r ← updateOfferBookPrices externalId report productsToUpdate; mret (settle r)
          end);
  updateHeader report total updated skipped outcome errorMessage;;
  updateStatus id finalStatus;;
  mret (Some (Build_ExecuteResult id (lb_offerBookInfoId row) total updated skipped now report)).

Definition execute_body (now id : Z) (ty : ExecutionType) : L (option ExecuteResult) :=
  found ← findById id;
  match found with
  | None => updateStatus id R_IDLE;; l_throw (ENotFound ("Offer book rules with ID " +:+ pretty id +:+ " not found"))
  | Some rules =>
      let run baseProducts :=
        if bool_decide (baseProducts = []) then updateStatus id R_SUCCEEDED;; mret None
        else run_rules now id ty rules baseProducts in
      match read_simple_array <$> lb_groupedClassifications (lo_row rules) with
      | Some (c :: cs) => baseProducts ← query (findActiveByGroupedClassifications (c :: cs)); run baseProducts
      | _ =>
          productIds ← query (λ d, default [] (ld_products d !! id));
          if bool_decide (productIds = []) then
            let info := lb_offerBookInfoId (lo_row rules) in
            report ← createReportHeader (Build_LegacyReport id info now ty (lb_calculationBaseType (lo_row rules)) 0 0 0 O_SUCCESS None);
            updateHeader report 0 0 0 O_NO_CHANGES None;;
            updateStatus id R_SUCCEEDED;;
            mret (Some (Build_ExecuteResult id info 0 0 0 now report))
          else baseProducts ← findActiveBaseProductsByIdsBatched productIds; run baseProducts
      end
  end.

Definition legacy_execute (now id : Z) (ty : ExecutionType) : L (option ExecuteResult) :=
  updateStatus id R_RUNNING;;
  l_catch (execute_body now id ty) (λ e, updateStatus id R_ERRORED;; l_throw e).

(** Answers [Execution started]; the execution is an event. *)
Definition startExecution (id : Z) : L unit :=
  found ← findById id;
  match found with
  | None => l_throw (ENotFound ("Offer book rules with ID " +:+ pretty id +:+ " not found"))
  | Some rules =>
      if bool_decide (lb_status (lo_row rules) = R_RUNNING)
      then l_throw (EBadRequest ("Offer book rules " +:+ pretty id +:+ " is already being executed"))
      else mret ()
  end.

Definition handleExecuteEvent (now id : Z) : L unit :=
  l_catch (legacy_execute now id X_MANUAL;; mret ()) (λ _, updateStatus id R_ERRORED).

End Legacy.

(* ------------------------------------------------------------------ *)
(** * Creating and updating rules                                       *)
(* ------------------------------------------------------------------ *)

Record CreateOfferBookRulesBodyDto (N : Type) := {
  co_offerBookInfoId : Z; co_calculationBaseType : CalculationBaseType; co_priceBaseSources : option (list PriceBaseSource);
  co_productIds : option (list Z); co_classifications : option (list string);
  co_pricingRules : list (CreatePricingRuleDto N); co_priceLocks : list (CreatePriceLockDto N);
  co_scheduleEnabled : option bool; co_scheduledDays : option (list Z); co_applyPriceRounding : option bool;
}.
Arguments Build_CreateOfferBookRulesBodyDto {N}.
Arguments co_offerBookInfoId {N}. Arguments co_calculationBaseType {N}. Arguments co_priceBaseSources {N}.
Arguments co_productIds {N}. Arguments co_classifications {N}. Arguments co_pricingRules {N}. Arguments co_priceLocks {N}.
Arguments co_scheduleEnabled {N}. Arguments co_scheduledDays {N}. Arguments co_applyPriceRounding {N}.

(** An absent field is [None]; a field sent as [null] is not modelled. *)
Record UpdateOfferBookRulesBodyDto (N : Type) := {
  uo_calculationBaseType : option CalculationBaseType; uo_priceBaseSources : option (list PriceBaseSource);
  uo_productIds : option (list Z); uo_classifications : option (list string);
  uo_pricingRules : option (list (CreatePricingRuleDto N)); uo_priceLocks : option (list (CreatePriceLockDto N));
  uo_scheduleEnabled : option bool; uo_scheduledDays : option (list Z); uo_applyPriceRounding : option bool;
}.
Arguments Build_UpdateOfferBookRulesBodyDto {N}.
Arguments uo_calculationBaseType {N}. Arguments uo_priceBaseSources {N}. Arguments uo_productIds {N}.
Arguments uo_classifications {N}. Arguments uo_pricingRules {N}. Arguments uo_priceLocks {N}.
Arguments uo_scheduleEnabled {N}. Arguments uo_scheduledDays {N}. Arguments uo_applyPriceRounding {N}.

Section LegacyCrud.
Context {N : Type} `{JsNum N}.
(** A NUMERIC(10,2) column: what it gives back, [None] when it overflows. *)
Variable numeric2 : N → option N.
Abbreviation L := (LM N).

Definition bad_request {A} (message : string) : L A := l_throw (EBadRequest message).
Definition checked (r : Res unit) : L unit := match r with Ok _ => mret () | Throw e => l_throw e end.
(** [!x?.length] *)
Definition absent {A} (x : option (list A)) : bool := match x with None | Some [] => true | _ => false end.

Definition days_array (days : list Z) : string := simple_array (pretty <$> days).

(** The rows a save stores; [None] when a value does not fit. *)
Definition stored_bound (x : option (option N)) : option (option (option N)) :=
  match mjoin x with None => Some (Some None) | Some v => (λ y, Some (Some y)) <$> numeric2 v end.
Definition stored_rule (r : CreatePricingRuleDto N) : option (CreatePricingRuleDto N) :=
  a ← stored_bound (rd_priceRangeMin r); b ← stored_bound (rd_priceRangeMax r);
  c ← stored_bound (rd_marginRangeMin r); d ← stored_bound (rd_marginRangeMax r);
  p ← numeric2 (rd_percentageValue r);
  Some (Build_CreatePricingRuleDto (rd_classifications r) a b c d (rd_actionType r) p (Some (default true (rd_active r)))).
Definition stored_lock (l : CreatePriceLockDto N) : option (CreatePriceLockDto N) :=
  m ← numeric2 (ld_minMargin l);
  Some (Build_CreatePriceLockDto (ld_classifications l) m (Some (default true (ld_active l)))).

Definition save_failed : Exn := EError "QueryFailedError".

(** The products of a set: each a row of its own, of a base product. *)
Definition products_fit (ids : list Z) (d : LDb N) : bool :=
  bool_decide (NoDup ids) && forallb (λ i, bool_decide (is_Some (ld_base d !! i))) ids.

(** [save] of a new set, a transaction; also in batches, from 500 products on. *)
Definition save_new (row : LegacyRulesRow) (products : list Z) (rules : list (CreatePricingRuleDto N))
    (locks : list (CreatePriceLockDto N)) : L Z :=
  sql (λ d,
    let id := ld_nextId d in
    match mapM stored_rule rules, mapM stored_lock locks with
    | Some rules, Some locks =>
        if products_fit products d && bool_decide (is_Some (ld_infos d !! lb_offerBookInfoId row))
           && forallb (λ x, negb (lb_offerBookInfoId x.2 =? lb_offerBookInfoId row)) (map_to_list (ld_rules d))
        then (Ok id, with_reports (λ x, x) (λ x, x) Z.succ
                       (with_lists id (λ _, products) (λ _, rules) (λ _, locks) (with_rules <[id := row]> d)))
        else (Throw save_failed, d)
    | _, _ => (Throw save_failed, d)
    end).

Definition legacy_create (dto : CreateOfferBookRulesBodyDto N) : L Z :=
  if (absent (co_productIds dto) && absent (co_classifications dto))
     || (negb (absent (co_classifications dto)) && negb (absent (co_productIds dto)))
  then bad_request "You must send either a list of productIds or a list of Classifications, but not both"
  else if bool_decide (co_calculationBaseType dto = COMPETITIVE_PRICE) && absent (co_priceBaseSources dto)
  then bad_request "priceBaseSources must contain at least one source when calculationBaseType is COMPETITIVE_PRICE"
  else
    let normalizedPricingRules := normalizePricingRulesClassifications (co_pricingRules dto) in
    let normalizedPriceLocks := normalizePriceLocksClassifications (co_priceLocks dto) in
    checked (saved_validateRules normalizedPricingRules);;
    checked (legacy_validateLocks normalizedPriceLocks);;
    offerBookInfo ← query (λ d, ld_infos d !! co_offerBookInfoId dto);
    match offerBookInfo with
    | None => l_throw (ENotFound ("OfferBookInfo with id " +:+ pretty (co_offerBookInfoId dto) +:+ " not found"))
    | Some _ =>
        existingRules ← query (λ d, filter (λ x, lb_offerBookInfoId x.2 = co_offerBookInfoId dto) (map_to_list (ld_rules d)));
        match existingRules with
        | _ :: _ => query (λ _, ());;
            l_throw (EConflict ("OfferBookRules already exist for OfferBookInfo with id " +:+ pretty (co_offerBookInfoId dto)))
        | [] =>
            if bool_decide (co_scheduleEnabled dto = Some true) && absent (co_scheduledDays dto)
            then bad_request "scheduledDays must be provided when scheduleEnabled is true"
            else
              let enabled := bool_decide (co_scheduleEnabled dto = Some true) in
              let row := {| lb_offerBookInfoId := co_offerBookInfoId dto; lb_calculationBaseType := co_calculationBaseType dto;
                            lb_priceBaseSources := co_priceBaseSources dto;
                            lb_groupedClassifications := if absent (co_productIds dto) then simple_array <$> co_classifications dto else None;
                            lb_scheduleEnabled := enabled;
                            lb_scheduledDays := if enabled then days_array <$> co_scheduledDays dto else None;
                            lb_lastScheduledExecution := None; lb_applyPriceRounding := default false (co_applyPriceRounding dto);
                            lb_status := R_IDLE |} in
              save_new row (default [] (co_productIds dto)) normalizedPricingRules normalizedPriceLocks
        end
    end.

(** The schedule an update leaves: whether it is enabled and its days. *)
Definition updated_schedule (dto : UpdateOfferBookRulesBodyDto N) (r : LegacyRulesRow) : option (bool * option string) :=
  let sent := (λ days, if bool_decide (days = []) then None else Some (days_array days)) <$> uo_scheduledDays dto in
  match uo_scheduleEnabled dto with
  | Some true =>
      if absent (uo_scheduledDays dto) && absent (read_simple_array <$> lb_scheduledDays r) then None
      else Some (true, default (lb_scheduledDays r) sent)
  | Some false => Some (false, None)
  | None => Some (lb_scheduleEnabled r, default (lb_scheduledDays r) sent)
  end.

(** [save] of the loaded set: its row, the products, and the rules and locks
    that were replaced. *)
Definition save_updated (id : Z) (row : LegacyRulesRow) (products : list Z) (rules : option (list (CreatePricingRuleDto N)))
    (locks : option (list (CreatePriceLockDto N))) : L unit :=
  sql (λ d,
    match mapM stored_rule (default [] rules), mapM stored_lock (default [] locks) with
    | Some rs, Some ls =>
        if products_fit products d
        then (Ok tt, with_lists id (λ _, products) (λ old, if rules is Some _ then rs else old) (λ old, if locks is Some _ then ls else old)
                       (with_rules <[id := row]> d))
        else (Throw save_failed, d)
    | _, _ => (Throw save_failed, d)
    end).

Definition legacy_update (id : Z) (dto : UpdateOfferBookRulesBodyDto N) : L unit :=
  found ← findById id;
  match found with
  | None => l_throw (ENotFound ("OfferBookRules with id " +:+ pretty id +:+ " not found"))
  | Some existingRules =>
      let r := lo_row existingRules in
      let calculationBaseType := default (lb_calculationBaseType r) (uo_calculationBaseType dto) in
      let priceBaseSources := match uo_priceBaseSources dto with Some s => Some s | None => lb_priceBaseSources r end in
      if (absent (uo_productIds dto) && absent (uo_classifications dto))
         || (negb (absent (uo_classifications dto)) && negb (absent (uo_productIds dto)))
      then bad_request "You must send either a list of productIds or a list of Classifications, but not both"
      else if bool_decide (calculationBaseType = COMPETITIVE_PRICE) && absent priceBaseSources
      then bad_request "priceBaseSources must contain at least one source when calculationBaseType is COMPETITIVE_PRICE"
      else
        match updated_schedule dto r with
        | None => bad_request "scheduledDays must be provided when scheduleEnabled is true"
        | Some (enabled, days) =>
            write (with_lists id (λ _, []) (λ x, x) (λ x, x));;  (* deleteProductsByRulesId *)
            match uo_pricingRules dto with
            | Some rules => checked (saved_validateRules (normalizePricingRulesClassifications rules));;
                            write (with_lists id (λ x, x) (λ _, []) (λ x, x))
            | None => mret ()
            end;;
            match uo_priceLocks dto with
            | Some locks => checked (legacy_validateLocks (normalizePriceLocksClassifications locks));;
                            write (with_lists id (λ x, x) (λ x, x) (λ _, []))
            | None => mret ()
            end;;
            let row := {| lb_offerBookInfoId := lb_offerBookInfoId r; lb_calculationBaseType := calculationBaseType;
                          lb_priceBaseSources := priceBaseSources;
                          lb_groupedClassifications := if absent (uo_productIds dto) then simple_array <$> uo_classifications dto else None;
                          lb_scheduleEnabled := enabled; lb_scheduledDays := days;
                          lb_lastScheduledExecution := lb_lastScheduledExecution r;
                          lb_applyPriceRounding := default (lb_applyPriceRounding r) (uo_applyPriceRounding dto);
                          lb_status := lb_status r |} in
            save_updated id row (default [] (uo_productIds dto)) (normalizePricingRulesClassifications <$> uo_pricingRules dto)
              (normalizePriceLocksClassifications <$> uo_priceLocks dto)
        end
  end.

(* ------------------------------------------------------------------ *)
(** * The hourly cron                                                   *)
(* ------------------------------------------------------------------ *)

Variable order_by_name : list (LegacyBaseRow N) → list (LegacyBaseRow N).
Variable like : string → string → bool.
Variable api : nat → A7PharmaApiResponse.
(** The local weekday of a time and the local midnight before it. *)
Variable weekday : Z → Z.
Variable midnight : Z → Z.

(** [scheduledDays LIKE '%d%'] *)
Definition findScheduledForDay (day : Z) (d : LDb N) : list (Z * LegacyRulesRow) :=
  filter (λ x, lb_scheduleEnabled x.2 = true ∧
               match lb_scheduledDays x.2 with
               | Some s => bool_decide (is_Some (String.index 0 (pretty day) s)) | None => false end = true)
    (map_to_list (ld_rules d)).

Definition legacy_due (now : Z) (r : LegacyRulesRow) : bool :=
  negb (bool_decide (lb_status r = R_RUNNING))
  && match lb_lastScheduledExecution r with None => true | Some t => t <? midnight now end.

Definition set_last (t : Z) (r : LegacyRulesRow) : LegacyRulesRow :=
  Build_LegacyRulesRow (lb_offerBookInfoId r) (lb_calculationBaseType r) (lb_priceBaseSources r) (lb_groupedClassifications r)
    (lb_scheduleEnabled r) (lb_scheduledDays r) (Some t) (lb_applyPriceRounding r) (lb_status r).

(** One rule: [save] writes the row as it was loaded. *)
Definition execute_scheduled (now : Z) (rule : Z * LegacyRulesRow) : L unit :=
  l_catch
    (result ← legacy_execute order_by_name like api now rule.1 X_SCHEDULED;
     match result with
     | Some _ => write (with_rules <[rule.1 := set_last now rule.2]>)
     | None => mret ()
     end)
    (λ _, mret ()).

Fixpoint execute_each (now : Z) (rules : list (Z * LegacyRulesRow)) : L unit :=
  match rules with [] => mret () | r :: rest => execute_scheduled now r;; execute_each now rest end.

Definition executeScheduledOfferBookRules (now : Z) : L unit :=
  l_catch
    (scheduledRules ← query (findScheduledForDay (weekday now));
     (if bool_decide (scheduledRules = []) then mret () else query (λ _, ()));;
     execute_each now (filter (λ x, legacy_due now x.2 = true) scheduledRules))
    (λ _, mret ()).

End LegacyCrud.
