(* ===== verification/LegacyOfferBookLaws.v ===== *)
(** The executions of the replaced application: what is pushed, reported and
    left, whatever the ERP answers and whichever statements fail; and where
    its updates, its cron and its columns lose something. *)

From Stdlib Require Import Ascii String.
From S2P Require Import Prelude JsText JsNumber SuggestionEngine OfferRules OfferRulesLaws LegacyOfferRules LegacyOfferLaws LegacyOfferBook.
Open Scope string_scope.
Open Scope list_scope.
Open Scope Z_scope.

Section Execution.
Context {N : Type} `{JsNum N}.
Variable order_by_name : list (LegacyBaseRow N) → list (LegacyBaseRow N).
Variable like : string → string → bool.
Variable api : nat → A7PharmaApiResponse.
Abbreviation L := (LM N).
Implicit Types (w : LWorld N) (d : LDb N).

(* ------------------------------------------------------------------ *)
(** * What an execution computes                                        *)
(* ------------------------------------------------------------------ *)

(** The products of a set: by classification, or listed. *)
Definition set_products (id : Z) (rules : LoadedRules (N := N)) d : list (LegacyBaseRow N) :=
  match read_simple_array <$> lb_groupedClassifications (lo_row rules) with
  | Some (c :: cs) => findActiveByGroupedClassifications order_by_name like (c :: cs) d
  | _ => concat ((λ b, findActiveByIds order_by_name b d) <$> slices 1000 (default [] (ld_products d !! id)))
  end.

Definition price_with (baseProducts : list (LegacyBaseRow N)) (prices : list (string * gmap string N)) : list (ProductWithPrices N) :=
  let byEan : gmap string (gmap string N) := list_to_map (reverse prices) in
  (λ bp, Build_ProductWithPrices (lbp_product bp) (default ∅ (byEan !! bp_ean (lbp_product bp))) (mjoin (head (lbp_offers bp))))
    <$> baseProducts.
Definition set_prices (rules : LoadedRules (N := N)) (baseProducts : list (LegacyBaseRow N)) d : list (ProductWithPrices N) :=
  let ty := lb_calculationBaseType (lo_row rules) in
  let origins := origins_of (default [] (lb_priceBaseSources (lo_row rules))) in
  price_with baseProducts (if bool_decide (ty = COMPETITIVE_PRICE) && negb (bool_decide (origins = []))
    then concat ((λ b, getPricesByEansAndOrigins b origins d) <$> slices 1000 (bp_ean ∘ lbp_product <$> baseProducts)) else []).

(** The previews of a set. *)
Definition calculated (id : Z) (rules : LoadedRules (N := N)) d : list (LegacyPreview N) :=
  calculateProductPreviews (set_prices rules (set_products id rules d) d)
    (saved_params rules (if lb_applyPriceRounding (lo_row rules) then ld_rounding d else [])).
Definition to_push (id : Z) (rules : LoadedRules (N := N)) d := filter (λ p, legacy_shouldPush p = true) (calculated id rules d).
Definition to_skip (id : Z) (rules : LoadedRules (N := N)) d := filter (λ p, legacy_shouldPush p = false) (calculated id rules d).

(** The POSTs of a caderno: at most 80 products each. *)
Definition posts_of (caderno : string) (products : list (LegacyPreview N)) : list (string * list (option string * N)) :=
  (λ chunk, (caderno, offer_items chunk)) <$> slices 80 products.

(* ------------------------------------------------------------------ *)
(** * Pushes under any faults                                           *)
(* ------------------------------------------------------------------ *)

(** A request sends nothing and leaves the tables of products, prices and
    rules alone. *)
Definition same_catalogue d d' : Prop :=
  ld_base d' = ld_base d ∧ ld_competitors d' = ld_competitors d ∧ ld_rounding d' = ld_rounding d ∧ ld_infos d' = ld_infos d ∧
  ld_products d' = ld_products d ∧ ld_pricingRules d' = ld_pricingRules d ∧ ld_priceLocks d' = ld_priceLocks d.
Definition silent {A} (m : L A) : Prop := ∀ w, lw_posts (m w).2 = lw_posts w ∧ same_catalogue (lw_db w) (lw_db (m w).2).

Lemma same_catalogue_trans a b c : same_catalogue a b → same_catalogue b c → same_catalogue a c.
Proof. unfold same_catalogue. intuition congruence. Qed.

Lemma silent_ret {A} (a : A) : silent (mret a).
Proof. by intros w. Qed.
Lemma silent_throw {A} e : silent (l_throw (A := A) e).
Proof. by intros w. Qed.
Lemma silent_bind {A B} (m : L A) (f : A → L B) : silent m → (∀ a, silent (f a)) → silent (m ≫= f).
Proof.
  intros Hm Hf w. unfold mbind, LM_bind. destruct (Hm w) as [E1 H1]. destruct (m w) as [[a|e] w1]; cbn in *; [|done].
  destruct (Hf a w1) as [E2 H2]. split; [congruence|by eapply same_catalogue_trans].
Qed.
Lemma silent_catch {A} (m : L A) (h : Exn → L A) : silent m → (∀ e, silent (h e)) → silent (l_catch m h).
Proof.
  intros Hm Hh w. unfold l_catch. destruct (Hm w) as [E1 H1]. destruct (m w) as [[a|e] w1]; cbn in *; [done|].
  destruct (Hh e w1) as [E2 H2]. split; [congruence|by eapply same_catalogue_trans].
Qed.
Lemma silent_sql {A} (f : LDb N → Res A * LDb N) : (∀ d, same_catalogue d (f d).2) → silent (sql f).
Proof. intros Hf w. unfold sql. destruct (lw_fates w) as [|[] fates]; cbn; (split; [done|]); done || apply Hf. Qed.
Lemma silent_write f : (∀ d, same_catalogue d (f d)) → silent (write f).
Proof. intros Hf. by apply silent_sql. Qed.
Lemma silent_query {A} (f : LDb N → A) : silent (query f).
Proof. by apply silent_sql. Qed.
Lemma silent_status id st : silent (updateStatus (N := N) id st).
Proof. by apply silent_write. Qed.
Lemma silent_append items : silent (appendItems items).
Proof.
  unfold appendItems. induction (slices 200 items) as [|b l IH]; cbn; [apply silent_ret|].
  apply silent_bind; [by apply silent_write|by intros _].
Qed.

(** A query answers from the tables as they are, or the statement fails. *)
Lemma query_answers {A} (f : LDb N → A) w :
  (query f w).1 = Ok (f (lw_db w)) ∨ (query f w).1 = Throw (EError "statement failed").
Proof. unfold query, sql. destruct (lw_fates w) as [|[] fates]; cbn; auto. Qed.

Definition reads {A} (m : L A) (f : LDb N → A) : Prop := ∀ w,
  lw_posts (m w).2 = lw_posts w ∧ same_catalogue (lw_db w) (lw_db (m w).2) ∧ ∀ a, (m w).1 = Ok a → a = f (lw_db w).

Lemma query_reads {A} (f : LDb N → A) : reads (query f) f.
Proof.
  intros w. destruct (silent_query f w) as [E1 E2]. split; [done|]. split; [done|].
  intros a. by destruct (query_answers f w) as [->| ->]; intros [= <-].
Qed.
Lemma ret_reads {A} (a : A) : reads (mret a) (λ _, a).
Proof. intros w. split; [done|]. split; [done|]. by intros b [= <-]. Qed.

Lemma bind_reads {A B} (m : L A) f (k : A → L B) g : reads m f → (∀ a, reads (k a) (g a)) →
  (∀ a d d', same_catalogue d d' → g a d' = g a d) → reads (m ≫= k) (λ d, g (f d) d).
Proof.
  intros Hm Hk Hg w. unfold mbind, LM_bind. destruct (Hm w) as (E1 & H1 & Ha). destruct (m w) as [[a|e] w1]; cbn in *; [|done].
  destruct (Hk a w1) as (E2 & H2 & Hb). split; [congruence|]. split; [by eapply same_catalogue_trans|].
  intros b Hb'. rewrite (Hb b Hb'), (Hg a _ _ H1). by rewrite (Ha a eq_refl).
Qed.

Lemma batched_reads {A B} (batches : list (list A)) (q : list A → LDb N → list B) :
  (∀ b d d', same_catalogue d d' → q b d' = q b d) → reads (batched batches q) (λ d, concat ((λ b, q b d) <$> batches)).
Proof.
  intros Hq. induction batches as [|b l IH]; cbn; [apply ret_reads|].
  apply (bind_reads _ (q b) _ (λ rows d, rows ++ concat ((λ b, q b d) <$> l))).
  - apply query_reads.
  - intros rows. apply (bind_reads _ _ _ (λ more _, rows ++ more)); [apply IH|intros more; apply ret_reads|done].
  - intros rows d d' Hd. f_equal. f_equal. apply list_fmap_ext. intros i x _. by apply Hq.
Qed.

Lemma prices_read (rules : LoadedRules (N := N)) baseProducts :
  reads (getProductsWithPrices baseProducts (lb_calculationBaseType (lo_row rules)) (lb_priceBaseSources (lo_row rules)))
    (set_prices rules baseProducts).
Proof.
  unfold getProductsWithPrices, set_prices. destruct (_ && _); cbn zeta.
  - apply (bind_reads _ (λ d, concat ((λ b, getPricesByEansAndOrigins b (origins_of (default [] (lb_priceBaseSources (lo_row rules)))) d)
             <$> slices 1000 (bp_ean ∘ lbp_product <$> baseProducts))) _ (λ prices _, price_with baseProducts prices)).
    + apply batched_reads. intros b d d' (_ & E & _). unfold getPricesByEansAndOrigins. by rewrite E.
    + intros prices. apply ret_reads.
    + done.
  - apply (bind_reads _ (λ _, []) _ (λ prices _, price_with baseProducts prices)); [apply ret_reads| |done]. intros prices. apply ret_reads.
Qed.

Lemma bind_run {A B} (m : L A) (f : A → L B) w a w' : m w = (Ok a, w') → (m ≫= f) w = f a w'.
Proof. intros E. unfold mbind, LM_bind. by rewrite E. Qed.

Lemma push_chunks_posts ext report total chunks w :
  is_Some (match (push_chunks api ext report total chunks w).1 with Ok a => Some a | Throw _ => None end) ∧
  lw_posts (push_chunks api ext report total chunks w).2 = lw_posts w ++ ((λ c, (ext, offer_items c.2)) <$> chunks).
Proof.
  revert w. induction chunks as [|[i c] l IH]; intros w; [cbn; rewrite app_nil_r; by eauto|].
  cbn [push_chunks]. set (result := api (length (lw_posts w))).
  set (w1 := Build_LWorld (lw_db w) (lw_fates w) (lw_posts w ++ [(ext, offer_items c)])).
  rewrite (bind_run _ _ w result w1) by done. set (save := if ap_success result then _ else _).
  assert (∃ w2, save w1 = (Ok tt, w2) ∧ lw_posts w2 = lw_posts w1) as (w2 & E & Hp).
  { unfold save. destruct (ap_success result); [|by eexists]. unfold l_catch.
    destruct (silent_append (buildReportItems report c) w1) as [Hp _].
    destruct (appendItems _ w1) as [[[]|e] w2]; by eexists. }
  rewrite (bind_run _ _ w1 tt w2) by done. destruct (IH w2) as [[a Ha] IH'].
  destruct (push_chunks api ext report total l w2) as [[r|e] w3] eqn:E3; [|done].
  rewrite (bind_run _ _ w2 r w3) by done. cbn in IH'. split; [by eexists|].
  cbn [mret LM_ret snd]. rewrite IH', Hp. unfold w1. cbn [lw_posts]. by rewrite fmap_cons, <- app_assoc.
Qed.

Lemma number_from_fmap_snd {A B} (f : A → B) n (l : list A) : (λ c, f c.2) <$> number_from n l = f <$> l.
Proof.
  rewrite <- (number_from_snd n l) at 2. rewrite <- list_fmap_compose. done.
Qed.

(** What a request sends from a catalogue [d]. *)
Definition sends d (P : list (string * list (option string * N)) → Prop) {A} (m : L A) : Prop :=
  ∀ w, same_catalogue d (lw_db w) → ∃ l, lw_posts (m w).2 = lw_posts w ++ l ∧ P l.

Lemma silent_sends d P {A} (m : L A) : P [] → silent m → sends d P m.
Proof. intros HP Hm w _. exists []. rewrite app_nil_r. split; [apply Hm|done]. Qed.

Lemma silent_then d (P : _ → Prop) {A B} (m : L A) (k : A → L B) : P [] → silent m → (∀ a, sends d P (k a)) → sends d P (m ≫= k).
Proof.
  intros HP Hm Hk w Hw. unfold mbind, LM_bind. destruct (Hm w) as [E1 H1].
  destruct (m w) as [[a|e] w1]; cbn in *; [|exists []; by rewrite app_nil_r].
  destruct (Hk a w1) as (l & E & Hl); [by eapply same_catalogue_trans|]. exists l. by rewrite E, E1.
Qed.

Lemma reads_then d (P : _ → Prop) {A B} (m : L A) f (k : A → L B) : P [] → reads m f → (∀ d', same_catalogue d d' → f d' = f d) →
  sends d P (k (f d)) → sends d P (m ≫= k).
Proof.
  intros HP Hm Hf Hk w Hw. unfold mbind, LM_bind. destruct (Hm w) as (E1 & H1 & Ha).
  destruct (m w) as [[a|e] w1]; cbn in *; [|exists []; by rewrite app_nil_r].
  rewrite (Ha a eq_refl), (Hf _ Hw). destruct (Hk w1) as (l & E & Hl); [by eapply same_catalogue_trans|]. exists l. by rewrite E, E1.
Qed.

Lemma catch_sends d P {A} (m : L A) h : sends d P m → (∀ e, silent (h e)) → sends d P (l_catch m h).
Proof.
  intros Hm Hh w Hw. unfold l_catch. destruct (Hm w Hw) as (l & E & Hl). destruct (m w) as [[a|e] w1]; cbn in *; [eauto|].
  exists l. destruct (Hh e w1) as [E2 _]. by rewrite E2.
Qed.

(** All the products of a set, or nothing. *)
Definition all_or_none (rules : LoadedRules (N := N)) (products : list (LegacyPreview N)) (l : list (string * list (option string * N))) : Prop :=
  l = [] ∨ ∃ ext, lo_infoExternalId rules = Some ext ∧ l = posts_of ext products.

Lemma update_sends d ext report products (k : BatchResult → L (option ExecuteResult)) rules :
  lo_infoExternalId rules = Some ext → (∀ r, silent (k r)) →
  sends d (all_or_none rules products) (updateOfferBookPrices api ext report products ≫= k).
Proof.
  intros He Hk w _. unfold updateOfferBookPrices.
  destruct (push_chunks_posts ext report (Z.of_nat (length (slices 80 products))) (number_from 1 (slices 80 products)) w) as [[a Ha] Hp].
  unfold mbind, LM_bind in *. destruct (push_chunks _ _ _ _ _ w) as [[r|e] w1]; [|done]. cbn in *.
  match goal with |- context [k ?r w1] => destruct (Hk r w1) as [E _] end. eexists. split; [rewrite E; exact Hp|].
  right. exists ext. split; [done|]. unfold posts_of.
  apply (number_from_fmap_snd (λ chunk, (ext, offer_items chunk))).
Qed.

Lemma run_rules_sends now id ty (rules : LoadedRules (N := N)) baseProducts d :
  sends d (all_or_none rules (filter (λ p, legacy_shouldPush p = true)
             (calculateProductPreviews (set_prices rules baseProducts d)
                (saved_params rules (if lb_applyPriceRounding (lo_row rules) then ld_rounding d else [])))))
    (run_rules api now id ty rules baseProducts).
Proof.
  unfold run_rules. apply (reads_then _ _ _ (set_prices rules baseProducts)); [by left|apply prices_read| |].
  { intros d' (_ & E & _). unfold set_prices, getPricesByEansAndOrigins. by rewrite E. }
  apply (reads_then _ _ _ (λ d, if lb_applyPriceRounding (lo_row rules) then ld_rounding d else [])); [by left| | |].
  { destruct (lb_applyPriceRounding (lo_row rules)); [apply query_reads|apply ret_reads]. }
  { intros d' (_ & _ & E & _). by rewrite E. }
  set (all := calculateProductPreviews _ _). cbn zeta.
  apply silent_then; [by left|by apply silent_sql|]. intros report.
  apply silent_then; [by left|apply silent_append|]. intros _.
  match goal with |- sends _ _ (_ ≫= ?k) => set (fin := k) end.
  assert (∀ o, silent (fin o)) as Hend.
  { intros [[o st] msg]. apply silent_bind; [by apply silent_write|intros _].
    apply silent_bind; [apply silent_status|intros _; apply silent_ret]. }
  case_bool_decide; [apply silent_sends; [by left|apply silent_bind; [apply silent_ret|exact Hend]]|].
  destruct (lo_infoExternalId rules) as [ext|] eqn:He; [|apply silent_sends; [by left|apply silent_bind; [apply silent_throw|exact Hend]]].
  intros w Hw.
  destruct (update_sends d ext report (filter (λ p, legacy_shouldPush p = true) all) (λ r, mret (settle r) ≫= fin) rules He
    (λ r, silent_bind _ _ (silent_ret _) Hend) w Hw) as (l & E & Hl).
  exists l. split; [|exact Hl]. rewrite <- E. unfold mbind, LM_bind. by destruct (updateOfferBookPrices _ _ _ _ w) as [[r|e] w1].
Qed.

Lemma findById_answers id w x : (findById (N := N) id w).1 = Ok x → x = load (lw_db w) id.
Proof.
  unfold findById, mbind, LM_bind. pose proof (query_answers (λ d, load d id) w) as [E|E];
    destruct (query _ w) as [r w1]; cbn in E; subst r; [|done].
  destruct (load (lw_db w) id) as [rules|]; [|by intros [= <-]].
  destruct (query _ w1) as [[[]|e] w2]; cbn; by intros [= <-].
Qed.

Lemma silent_findById id : silent (findById (N := N) id).
Proof.
  apply silent_bind; [apply silent_query|]. intros [rules|]; [|apply silent_ret].
  apply silent_bind; [apply silent_query|intros _; apply silent_ret].
Qed.

(** The execution of a loaded set. *)
Lemma loaded_sends now id ty (rules : LoadedRules (N := N)) d :
  let run baseProducts := if bool_decide (baseProducts = []) then updateStatus id R_SUCCEEDED;; mret None
                          else run_rules api now id ty rules baseProducts in
  sends d (all_or_none rules (to_push id rules d)) (run (set_products id rules d)).
Proof.
  cbv beta zeta. case_bool_decide.
  - apply silent_sends; [by left|]. apply silent_bind; [apply silent_status|intros _; apply silent_ret].
  - apply run_rules_sends.
Qed.

Lemma execute_body_sends now id ty d w : same_catalogue d (lw_db w) →
  ∃ l, lw_posts (execute_body order_by_name like api now id ty w).2 = lw_posts w ++ l ∧
    (l = [] ∨ ∃ rules, load (lw_db w) id = Some rules ∧ all_or_none rules (to_push id rules d) l).
Proof.
  intros Hw. unfold execute_body. pose proof (findById_answers id w) as Ha. destruct (silent_findById id w) as [E1 H1].
  unfold mbind at 1, LM_bind at 1. destruct (findById id w) as [[found|e] w1]; cbn in *; [|exists []; rewrite app_nil_r; auto].
  specialize (Ha _ eq_refl). subst found. destruct (load (lw_db w) id) as [rules|].
  2: { exists []. rewrite app_nil_r. split; [|by left]. rewrite <- E1.
       by apply (silent_bind _ _ (silent_status id R_IDLE) (λ _, silent_throw _)). }
  assert (same_catalogue d (lw_db w1)) as Hw1 by (by eapply same_catalogue_trans).
  rewrite <- E1. match goal with |- context [lw_posts (snd (?m w1))] => assert (sends d (all_or_none rules (to_push id rules d)) m) as Hm end.
  { assert (∀ products, set_products id rules d = products →
      sends d (all_or_none rules (to_push id rules d))
        (if bool_decide (products = []) then updateStatus id R_SUCCEEDED;; mret None else run_rules api now id ty rules products)) as Hrun.
    { intros products <-. apply loaded_sends. }
    unfold set_products in Hrun. destruct (read_simple_array <$> _) as [[|c cs]|].
    2: { apply (reads_then _ _ _ (findActiveByGroupedClassifications order_by_name like (c :: cs))); [by left|apply query_reads| |by apply Hrun].
         intros d' (E & _). unfold findActiveByGroupedClassifications, base_rows. by rewrite E. }
    all: apply (reads_then _ _ _ (λ d, default [] (ld_products d !! id))); [by left|apply query_reads| |].
    all: try (intros d' (_ & _ & _ & _ & E & _); by rewrite E).
    all: case_bool_decide as Hids.
    all: try (apply silent_sends; [by left|]; apply silent_bind; [by apply silent_sql|intros report];
      apply silent_bind; [by apply silent_write|intros _]; apply silent_bind; [apply silent_status|intros _; apply silent_ret]).
    all: apply (reads_then _ _ _ (λ d', concat ((λ b, findActiveByIds order_by_name b d') <$> slices 1000 (default [] (ld_products d !! id)))));
      [by left| | |by apply Hrun].
    all: try (apply batched_reads; intros b d1 d2 (E & _); unfold findActiveByIds, base_rows; by rewrite E).
    all: intros d' (E & _); unfold findActiveByIds, base_rows; by rewrite E. }
  destruct (Hm w1 Hw1) as (l & E & Hl). exists l. split; [exact E|eauto].
Qed.

(** The set as an execution loads it, its row by now RUNNING. *)
Definition loaded d id (row : LegacyRulesRow) : LoadedRules (N := N) :=
  {| lo_row := row; lo_pricingRules := default [] (ld_pricingRules d !! id); lo_priceLocks := default [] (ld_priceLocks d !! id);
     lo_infoExternalId := ld_infos d !! lb_offerBookInfoId row |}.

Lemma posts_of_items ext products :
  concat (snd <$> posts_of ext products) = offer_items products ∧
  Forall (λ p : string * list (option string * N), p.1 = ext ∧ (0 < length p.2 ≤ 80)%nat) (posts_of ext products).
Proof.
  unfold posts_of, offer_items. split.
  - rewrite <- list_fmap_compose. rewrite <- (slices_concat 80 products) at 2 by lia.
    induction (slices 80 products) as [|c l IH]; [done|]. cbn. by rewrite IH, fmap_app.
  - apply Forall_fmap. eapply Forall_impl; [apply (slices_bound 80); lia|]. intros c Hc. cbn. rewrite length_fmap. done.
Qed.

(** [C40] One execution of a set, whatever the ERP answers and whichever
    statements fail: it sends the ERP nothing, or every product of the set
    whose price changes exactly once, at the price that the engine computes
    for it from the store as it was, in POSTs of at most 80 to the caderno
    of the set. *)
Theorem legacy_pushed_once now id ty w :
  ∃ l, lw_posts (legacy_execute order_by_name like api now id ty w).2 = lw_posts w ++ l ∧
    (l = [] ∨ ∃ row ext, ld_rules (lw_db w) !! id = Some row ∧ ld_infos (lw_db w) !! lb_offerBookInfoId row = Some ext ∧
       concat (snd <$> l) = offer_items (to_push id (loaded (lw_db w) id row) (lw_db w)) ∧
       Forall (λ p : string * list (option string * N), p.1 = ext ∧ (0 < length p.2 ≤ 80)%nat) l).
Proof.
  unfold legacy_execute. unfold mbind at 1, LM_bind at 1. unfold updateStatus at 1, write at 1, sql at 1.
  assert (∀ w1 row', same_catalogue (lw_db w) (lw_db w1) → lw_posts w1 = lw_posts w →
    ld_rules (lw_db w1) = alter (set_status R_RUNNING) id (ld_rules (lw_db w)) →
    load (lw_db w1) id = Some row' → ∃ row, ld_rules (lw_db w) !! id = Some row ∧
      lo_infoExternalId row' = ld_infos (lw_db w) !! lb_offerBookInfoId row ∧
      to_push id row' (lw_db w) = to_push id (loaded (lw_db w) id row) (lw_db w)) as Hload.
  { intros w1 row' (_ & _ & _ & Ei & _ & Er & El) _ E H1. unfold load in H1. rewrite E, lookup_alter_eq, Ei, Er, El in H1.
    destruct (ld_rules (lw_db w) !! id) as [row|]; [|done]. cbn in H1. injection H1 as <-. by exists row. }
  assert (∀ w1, same_catalogue (lw_db w) (lw_db w1) → lw_posts w1 = lw_posts w →
    ld_rules (lw_db w1) = alter (set_status R_RUNNING) id (ld_rules (lw_db w)) →
    ∃ l, lw_posts (l_catch (execute_body order_by_name like api now id ty)
                     (λ e, updateStatus id R_ERRORED;; l_throw e) w1).2 = lw_posts w ++ l ∧
      (l = [] ∨ ∃ rules, load (lw_db w1) id = Some rules ∧ all_or_none rules (to_push id rules (lw_db w)) l)) as Hrun.
  { intros w1 Hc Hp Hr. destruct (execute_body_sends now id ty (lw_db w) w1 Hc) as (l & E & Hl). exists l. split; [|exact Hl].
    rewrite <- Hp, <- E. unfold l_catch. destruct (execute_body _ _ _ _ _ _ w1) as [[a|e] w2]; [done|].
    by apply (silent_bind _ _ (silent_status id R_ERRORED) (λ _, silent_throw e)). }
  assert (∀ fates, let w1 := Build_LWorld (with_rules (alter (set_status R_RUNNING) id) (lw_db w)) fates (lw_posts w) in
    ∃ l, lw_posts (l_catch (execute_body order_by_name like api now id ty)
                     (λ e, updateStatus id R_ERRORED;; l_throw e) w1).2 = lw_posts w ++ l ∧
    (l = [] ∨ ∃ row ext, ld_rules (lw_db w) !! id = Some row ∧ ld_infos (lw_db w) !! lb_offerBookInfoId row = Some ext ∧
       concat (snd <$> l) = offer_items (to_push id (loaded (lw_db w) id row) (lw_db w)) ∧
       Forall (λ p : string * list (option string * N), p.1 = ext ∧ (0 < length p.2 ≤ 80)%nat) l)) as Hall.
  { intros fates w1. destruct (Hrun w1) as (l & E & [Hl|(rules & Hr & Hl)]); try done; [eauto|].
    exists l. split; [exact E|]. destruct Hl as [?|(ext & He & ->)]; [by left|right].
    destruct (Hload w1 rules) as (row & Hrow & Hi & Hpush); try done. exists row, ext. rewrite <- Hi.
    destruct (posts_of_items ext (to_push id rules (lw_db w))) as [Hc Hf]. rewrite Hc, <- Hpush. by split_and!. }
  destruct (lw_fates w) as [|[] fates]; cbn; [apply Hall|apply Hall|]. exists []. rewrite app_nil_r. auto.
Qed.

(* ------------------------------------------------------------------ *)
(** * Accounts, when no statement fails                                 *)
(* ------------------------------------------------------------------ *)

(** A world whose statements succeed. *)
Definition smooth d posts : LWorld N := Build_LWorld d [] posts.

(** The answers of the ERP to the chunks, from the POST number [start] on. *)
Fixpoint verdicts (start : nat) (chunks : list (list (LegacyPreview N))) : list (bool * list (LegacyPreview N)) :=
  match chunks with [] => [] | c :: rest => (ap_success (api start), c) :: verdicts (S start) rest end.
Definition accepted_chunks (v : list (bool * list (LegacyPreview N))) := filter (λ x, x.1 = true) v.
Definition accepted (v : list (bool * list (LegacyPreview N))) : list (LegacyPreview N) := concat (snd <$> accepted_chunks v).

(** What an execution that pushes makes of the answers. *)
Definition verdict_of (v : list (bool * list (LegacyPreview N))) : ExecutionOutcome * OfferBookRulesStatus :=
  if forallb fst v then (O_SUCCESS, R_SUCCEEDED)
  else if existsb fst v then (O_FAILURE, R_PARTIALLY_SUCCEEDED) else (O_FAILURE, R_ERRORED).

Definition with_items (items : list (LegacyReportItem N)) d : LDb N := with_reports (λ x, x) (λ old, old ++ items) (λ x, x) d.

Lemma with_items_nil d : with_items [] d = d.
Proof. destruct d. unfold with_items, with_reports. cbn. by rewrite app_nil_r. Qed.
Lemma with_items_app a b d : with_items b (with_items a d) = with_items (a ++ b) d.
Proof. unfold with_items, with_reports. cbn. by rewrite (assoc_L (++)). Qed.


Lemma write_smooth f d posts : write f (smooth d posts) = (Ok tt, smooth (f d) posts).
Proof. done. Qed.

Lemma batched_smooth {A B} (batches : list (list A)) (q : list A → LDb N → list B) d posts :
  batched batches q (smooth d posts) = (Ok (concat ((λ b, q b d) <$> batches)), smooth d posts).
Proof.
  induction batches as [|b l IH]; [done|]. cbn [batched]. rewrite (bind_run _ _ _ (q b d) (smooth d posts)) by done.
  by rewrite (bind_run _ _ _ _ _ IH).
Qed.

Lemma prices_smooth (rules : LoadedRules (N := N)) baseProducts d posts :
  getProductsWithPrices baseProducts (lb_calculationBaseType (lo_row rules)) (lb_priceBaseSources (lo_row rules)) (smooth d posts)
  = (Ok (set_prices rules baseProducts d), smooth d posts).
Proof.
  unfold getProductsWithPrices, set_prices. destruct (_ && _); cbn zeta; [|done].
  by rewrite (bind_run _ _ _ _ _ (batched_smooth _ _ _ _)).
Qed.

Lemma append_smooth items d posts : appendItems items (smooth d posts) = (Ok tt, smooth (with_items items d) posts).
Proof.
  unfold appendItems. rewrite <- (slices_concat 200 items) at 2 by lia. revert d.
  induction (slices 200 items) as [|b l IH]; intros d; cbn [insert_batches concat]; [by rewrite with_items_nil|].
  rewrite (bind_run _ _ _ tt (smooth (with_items b d) posts)) by done. by rewrite IH, with_items_app.
Qed.

Lemma report_items_app report a b : buildReportItems report (a ++ b) = buildReportItems (N := N) report a ++ buildReportItems report b.
Proof. apply fmap_app. Qed.

Lemma number_from_cons {A} n (x : A) l : number_from n (x :: l) = (n, x) :: number_from (n + 1) l.
Proof.
  unfold number_from. rewrite imap_cons. f_equal; [by rewrite Z.add_0_r|]. apply imap_ext. intros i y _. cbn. f_equal. lia.
Qed.

Lemma push_smooth ext report total n chunks d posts :
  ∃ errors, push_chunks api ext report total (number_from n chunks) (smooth d posts)
    = (Ok (Z.of_nat (length (accepted_chunks (verdicts (length posts) chunks))), errors),
       smooth (with_items (buildReportItems report (accepted (verdicts (length posts) chunks))) d)
         (posts ++ ((λ c, (ext, offer_items c)) <$> chunks))).
Proof.
  revert n d posts. induction chunks as [|c l IH]; intros n d posts.
  { exists []. cbn. by rewrite with_items_nil, app_nil_r. }
  rewrite number_from_cons. cbn [push_chunks verdicts]. set (posts1 := posts ++ [(ext, offer_items c)]).
  rewrite (bind_run _ _ _ (api (length posts)) (smooth d posts1)) by done.
  assert (length posts1 = S (length posts)) as Hlen by (unfold posts1; rewrite length_app; cbn; lia).
  assert (posts1 ++ ((λ c, (ext, offer_items c)) <$> l) = posts ++ ((λ c, (ext, offer_items c)) <$> c :: l)) as Hposts
    by (unfold posts1; by rewrite <- app_assoc).
  unfold accepted, accepted_chunks. rewrite !filter_cons. cbn [fst]. destruct (ap_success (api (length posts))).
  - rewrite (bind_run _ _ _ tt (smooth (with_items (buildReportItems report c) d) posts1)).
    2: { unfold l_catch. by rewrite append_smooth. }
    destruct (IH (n + 1) (with_items (buildReportItems report c) d) posts1) as [errors E]. rewrite (bind_run _ _ _ _ _ E), Hlen.
    exists errors. rewrite !decide_True by done. cbn. unfold smooth. rewrite with_items_app, <- report_items_app, Hposts.
    unfold mret, LM_ret. cbn. by rewrite Nat2Z.inj_succ.
  - rewrite (bind_run _ _ _ tt (smooth d posts1)) by done.
    destruct (IH (n + 1) d posts1) as [errors E]. rewrite (bind_run _ _ _ _ _ E), Hlen. eexists.
    rewrite !decide_False by done. cbn. by rewrite Hposts.
Qed.

Lemma settle_verdict start chunks errors :
  ∃ message, settle {| br_totalBatches := Z.of_nat (length chunks);
                       br_successfulBatches := Z.of_nat (length (accepted_chunks (verdicts start chunks)));
                       br_failedBatches := Z.of_nat (length chunks) - Z.of_nat (length (accepted_chunks (verdicts start chunks)));
                       br_errors := errors |} = (verdict_of (verdicts start chunks), message).
Proof.
  unfold settle, verdict_of. cbn [br_failedBatches br_successfulBatches br_totalBatches br_errors].
  set (v := verdicts start chunks).
  assert (length chunks = length v) as -> by (subst v; revert start; induction chunks; intros; cbn; auto).
  assert (forallb fst v = (Z.of_nat (length v) - Z.of_nat (length (accepted_chunks v)) =? 0)) as ->.
  { unfold accepted_chunks. induction v as [|[[] c] v IH]; [done| |]; rewrite filter_cons.
    - rewrite decide_True by done. cbn [forallb fst andb length]. rewrite IH. f_equal. lia.
    - rewrite decide_False by done. pose proof (length_filter (λ x : bool * list (LegacyPreview N), x.1 = true) v).
      cbn [forallb fst andb length]. symmetry. apply Z.eqb_neq. lia. }
  assert (existsb fst v = negb (Z.of_nat (length (accepted_chunks v)) =? 0)) as ->.
  { unfold accepted_chunks. induction v as [|[[] c] v IH]; [done| |]; rewrite filter_cons.
    - rewrite decide_True by done. cbn. done.
    - rewrite decide_False by done. cbn [existsb fst orb]. exact IH. }
  destruct (_ =? 0); [by eexists|]. destruct (_ =? 0); by eexists.
Qed.

(** The report of an execution. *)
Definition report_of now id ty (row : LegacyRulesRow) (total updated skipped : Z) outcome message : LegacyReport :=
  Build_LegacyReport id (lb_offerBookInfoId row) now ty (lb_calculationBaseType row) total updated skipped outcome message.

Lemma insert_alter {K A} `{Countable K} (f : A → A) (k : K) x (m : gmap K A) : alter f k (<[k := x]> m) = <[k := f x]> m.
Proof. apply map_eq. intros j. destruct (decide (j = k)) as [->|n]; [by rewrite lookup_alter_eq, !lookup_insert_eq|].
  by rewrite lookup_alter_ne, !lookup_insert_ne by done. Qed.

Lemma run_rules_smooth now id ty (rules : LoadedRules (N := N)) baseProducts d posts ext :
  lo_infoExternalId rules = Some ext →
  let all := calculateProductPreviews (set_prices rules baseProducts d)
               (saved_params rules (if lb_applyPriceRounding (lo_row rules) then ld_rounding d else [])) in
  let push := filter (λ p, legacy_shouldPush p = true) all in
  let skip := filter (λ p, legacy_shouldPush p = false) all in
  let v := verdicts (length posts) (slices 80 push) in
  let verdict := if bool_decide (push = []) then (O_NO_CHANGES, R_SUCCEEDED) else verdict_of v in
  let total := Z.of_nat (length all) in let updated := Z.of_nat (length push) in let skipped := Z.of_nat (length skip) in
  ∃ message, run_rules api now id ty rules baseProducts (smooth d posts)
    = (Ok (Some (Build_ExecuteResult id (lb_offerBookInfoId (lo_row rules)) total updated skipped now (ld_nextId d))),
       smooth (with_rules (alter (set_status verdict.2) id)
                 (with_reports <[ld_nextId d := report_of now id ty (lo_row rules) total updated skipped verdict.1 message]>
                    (λ old, old ++ buildReportItems (ld_nextId d) (skip ++ accepted v)) Z.succ d))
         (posts ++ posts_of ext push)).
Proof.
  intros Hext. cbv zeta. unfold run_rules. rewrite (bind_run _ _ _ _ _ (prices_smooth _ _ _ _)).
  set (rounding := if lb_applyPriceRounding (lo_row rules) then ld_rounding d else []).
  rewrite (bind_run _ _ _ rounding (smooth d posts)) by (unfold rounding; by destruct (lb_applyPriceRounding (lo_row rules))).
  set (all := calculateProductPreviews _ _). cbv zeta.
  set (push := filter (λ p, legacy_shouldPush p = true) all). set (skip := filter (λ p, legacy_shouldPush p = false) all).
  set (header := Build_LegacyReport _ _ _ _ _ _ _ _ _ _).
  set (d1 := with_reports <[ld_nextId d := header]> (λ x, x) Z.succ d).
  rewrite (bind_run _ _ _ (ld_nextId d) (smooth d1 posts)) by done.
  rewrite (bind_run _ _ _ _ _ (append_smooth _ d1 posts)).
  assert (∀ outcome status message v posts',
    (updateHeader (ld_nextId d) (Z.of_nat (length all)) (Z.of_nat (length push)) (Z.of_nat (length skip)) outcome message;;
     updateStatus id status;;
     mret (Some (Build_ExecuteResult id (lb_offerBookInfoId (lo_row rules)) (Z.of_nat (length all)) (Z.of_nat (length push))
       (Z.of_nat (length skip)) now (ld_nextId d))) : L (option ExecuteResult))
      (smooth (with_items (buildReportItems (ld_nextId d) (accepted v)) (with_items (buildReportItems (ld_nextId d) skip) d1)) posts')
    = (Ok (Some (Build_ExecuteResult id (lb_offerBookInfoId (lo_row rules)) (Z.of_nat (length all)) (Z.of_nat (length push))
         (Z.of_nat (length skip)) now (ld_nextId d))),
       smooth (with_rules (alter (set_status status) id)
                 (with_reports <[ld_nextId d := report_of now id ty (lo_row rules) (Z.of_nat (length all)) (Z.of_nat (length push))
                                    (Z.of_nat (length skip)) outcome message]>
                    (λ old, old ++ buildReportItems (ld_nextId d) (skip ++ accepted v)) Z.succ d)) posts')) as Hend.
  { intros outcome status message v posts'. rewrite with_items_app, <- report_items_app.
    unfold updateHeader, updateStatus. rewrite (bind_run _ _ _ _ _ (write_smooth _ _ _)).
    rewrite (bind_run _ _ _ _ _ (write_smooth _ _ _)). unfold mret, LM_ret. do 2 f_equal.
    unfold d1, with_items, with_reports, with_rules. cbn. by rewrite insert_alter. }
  destruct (bool_decide (push = [])) eqn:Hpush.
  - exists None. rewrite (bind_run _ _ _ (O_NO_CHANGES, R_SUCCEEDED, None) _) by done.
    apply bool_decide_eq_true in Hpush. specialize (Hend O_NO_CHANGES R_SUCCEEDED None [] posts).
    cbn [accepted accepted_chunks filter fmap list_fmap concat] in Hend. unfold buildReportItems at 1 in Hend. cbn [fmap list_fmap] in Hend.
    rewrite with_items_nil in Hend. rewrite Hpush in *. unfold posts_of. change (slices 80 []) with ([] : list (list (LegacyPreview N))). cbn [fmap list_fmap].
    etransitivity; [exact Hend|]. unfold accepted, accepted_chunks, posts_of. cbn. by rewrite !app_nil_r.
  - rewrite Hext. destruct (push_smooth ext (ld_nextId d) (Z.of_nat (length (slices 80 push))) 1 (slices 80 push)
      (with_items (buildReportItems (ld_nextId d) skip) d1) posts) as [errors Hloop].
    destruct (settle_verdict (length posts) (slices 80 push) errors) as [message Hsettle]. exists message.
    erewrite bind_run.
    2: { erewrite bind_run; [unfold mret, LM_ret; reflexivity|]. unfold updateOfferBookPrices. cbv zeta. rewrite (bind_run _ _ _ _ _ Hloop).
      cbn [fst snd]. unfold mret, LM_ret. reflexivity. }
    rewrite Hsettle. destruct (verdict_of _) as [outcome status]. cbv iota. apply Hend.
Qed.

Lemma execute_body_smooth now id ty d posts row :
  ld_rules d !! id = Some row → set_products id (loaded d id row) d ≠ [] →
  execute_body order_by_name like api now id ty (smooth d posts)
  = run_rules api now id ty (loaded d id row) (set_products id (loaded d id row) d) (smooth d posts).
Proof.
  intros Hrow Hne. unfold execute_body.
  rewrite (bind_run _ _ _ (Some (loaded d id row)) (smooth d posts)).
  2: { unfold findById. rewrite (bind_run _ _ _ (Some (loaded d id row)) (smooth d posts)); [done|].
       unfold query, sql, load. cbn. by rewrite Hrow. }
  revert Hne. unfold set_products. cbn [lo_row loaded]. destruct (read_simple_array <$> _) as [[|c cs]|]; cbv iota; intros Hne.
  2: { rewrite (bind_run _ _ _ (findActiveByGroupedClassifications order_by_name like (c :: cs) d) (smooth d posts)) by done.
       by rewrite bool_decide_false. }
  all: rewrite (bind_run _ _ _ (default [] (ld_products d !! id)) (smooth d posts)) by done.
  all: rewrite (bool_decide_false (default [] _ = [])) by (intros E; by rewrite E in Hne).
  all: unfold findActiveBaseProductsByIdsBatched; rewrite (bind_run _ _ _ _ _ (batched_smooth _ _ _ _)).
  all: by rewrite bool_decide_false.
Qed.

(** The outcome and the status of an execution that pushes [push], the
    number [start] being that of its first POST. *)
Definition verdict_on (start : nat) (push : list (LegacyPreview N)) : ExecutionOutcome * OfferBookRulesStatus :=
  if bool_decide (push = []) then (O_NO_CHANGES, R_SUCCEEDED) else verdict_of (verdicts start (slices 80 push)).

(** An execution of a set that has products, when no statement fails:
    it answers its counts, and leaves the store with one report more and the
    set settled.  The set ends SUCCEEDED when the ERP accepted every POST (or
    none was needed), PARTIALLY_SUCCEEDED when some were refused and ERRORED
    when all were; the items of the report are the products that were not
    pushed and those of the accepted POSTs; its count of updated products
    takes in the refused ones. *)
Theorem legacy_execution_accounts now id ty d posts row ext :
  ld_rules d !! id = Some row → ld_infos d !! lb_offerBookInfoId row = Some ext → set_products id (loaded d id row) d ≠ [] →
  let push := to_push id (loaded d id row) d in
  let skip := to_skip id (loaded d id row) d in
  let verdict := verdict_on (length posts) push in
  let total := Z.of_nat (length (calculated id (loaded d id row) d)) in
  let updated := Z.of_nat (length push) in
  let skipped := Z.of_nat (length skip) in
  ∃ message, legacy_execute order_by_name like api now id ty (smooth d posts)
    = (Ok (Some (Build_ExecuteResult id (lb_offerBookInfoId row) total updated skipped now (ld_nextId d))),
       smooth (with_rules (alter (set_status verdict.2) id)
                 (with_reports <[ld_nextId d := report_of now id ty row total updated skipped verdict.1 message]>
                    (λ old, old ++ buildReportItems (ld_nextId d) (skip ++ accepted (verdicts (length posts) (slices 80 push))))
                    Z.succ d))
         (posts ++ posts_of ext push)).
Proof.
  intros Hrow Hext Hne. cbv zeta. set (running := set_status R_RUNNING row). set (d1 := with_rules (alter (set_status R_RUNNING) id) d).
  assert (loaded d1 id running = loaded d id running) as Hl by done.
  destruct (run_rules_smooth now id ty (loaded d id running) (set_products id (loaded d id row) d) d1 posts ext Hext)
    as [message E]. exists message.
  unfold legacy_execute. rewrite (bind_run (updateStatus _ _) _ _ _ _ (write_smooth _ _ _)). fold d1.
  unfold l_catch. rewrite (execute_body_smooth now id ty d1 posts running), Hl by (first [exact Hne|unfold d1; cbn; by rewrite lookup_alter_eq, Hrow]).
  change (set_products id (loaded d id running) d1) with (set_products id (loaded d id row) d). rewrite E.
  unfold verdict_on. do 2 f_equal. unfold d1, with_reports, with_rules. cbn. by rewrite alter_alter_eq.
Qed.
End Execution.

(* ------------------------------------------------------------------ *)
(** * A concrete store                                                  *)
(* ------------------------------------------------------------------ *)

Definition lx_row (status : OfferBookRulesStatus) : LegacyRulesRow :=
  {| lb_offerBookInfoId := 3; lb_calculationBaseType := SALE_PRICE; lb_priceBaseSources := None;
     lb_groupedClassifications := Some (simple_array ["MEDICAMENTOS > GENERICOS"]);
     lb_scheduleEnabled := true; lb_scheduledDays := Some "1,2"; lb_lastScheduledExecution := None;
     lb_applyPriceRounding := false; lb_status := status |}.
Definition lx_db (status : OfferBookRulesStatus) : LDb F64 :=
  {| ld_rules := {[ 1 := lx_row status ]}; ld_products := {[ 1 := [10] ]}; ld_pricingRules := {[ 1 := lg_rules ]};
     ld_priceLocks := ∅; ld_infos := {[ 3 := "caderno" ]};
     ld_base := {[ 10 := Build_LegacyBaseRow (pw_baseProduct (lg_product (n_int 10) (n_int 5) lg_path)) true [] ]};
     ld_competitors := ∅; ld_rounding := []; ld_reports := ∅; ld_items := []; ld_nextId := 50 |}.
Definition lx_order (l : list (LegacyBaseRow F64)) := l.
(** Patterns end in a percent sign. *)
Definition lx_like (s pattern : string) : bool := String.prefix (str_take (String.length pattern - 1) pattern) s.
Definition lx_answer (success : bool) (n : nat) : A7PharmaApiResponse := Build_A7PharmaApiResponse success None None None.
Definition lx_numeric (x : F64) : option F64 := Some x.

Lemma legacy_execution_accounts_witness :
  let w := (legacy_execute lx_order lx_like (lx_answer false) 9 1 X_MANUAL (smooth (lx_db R_IDLE) [])).2 in
  lw_posts w = [("caderno", [(Some "77", n_int 9)])] ∧ (lb_status <$> ld_rules (lw_db w) !! 1) = Some R_ERRORED.
Proof.
  cbv zeta.
  destruct (legacy_execution_accounts lx_order lx_like (lx_answer false) 9 1 X_MANUAL (lx_db R_IDLE) [] (lx_row R_IDLE) "caderno")
    as [message E]; [reflexivity|reflexivity|vm_compute; discriminate|].
  rewrite E. split; vm_compute; reflexivity.
Defined.

(** The report of a push that the ERP refused counts its products as
    updated. *)
Lemma refused_counted_updated :
  let w := (legacy_execute lx_order lx_like (lx_answer false) 9 1 X_MANUAL (smooth (lx_db R_IDLE) [])).2 in
  (λ r, (lrp_productsUpdated r, lrp_outcome r)) <$> ld_reports (lw_db w) !! 50 = Some (1, O_FAILURE) ∧ ld_items (lw_db w) = [].
Proof. vm_compute. by split. Qed.

(** A scheduled run writes the row back as it was loaded: a set that was
    ERRORED stays so after an execution that succeeded. *)
Lemma cron_restores_old_status :
  let status (w : LWorld F64) := lb_status <$> ld_rules (lw_db w) !! 1 in
  let w := smooth (lx_db R_ERRORED) [] in
  status (legacy_execute lx_order lx_like (lx_answer true) 9 1 X_SCHEDULED w).2 = Some R_SUCCEEDED ∧
  status (executeScheduledOfferBookRules lx_order lx_like (lx_answer true) (λ _, 1) (λ _, 0) 9 w).2 = Some R_ERRORED.
Proof. vm_compute. by split. Qed.

(** An update whose rules overlap is answered 400, after the products of the
    set are deleted. *)
Lemma update_loses_products :
  let dto := {| uo_calculationBaseType := None; uo_priceBaseSources := None; uo_productIds := Some [10]; uo_classifications := None;
                uo_pricingRules := Some [lg_rule None None None (n_int 5); lg_rule None None None (n_int 8)];
                uo_priceLocks := None; uo_scheduleEnabled := None; uo_scheduledDays := None; uo_applyPriceRounding := None |} in
  let r := legacy_update lx_numeric 1 dto (smooth (lx_db R_IDLE) []) in
  (∃ message, r.1 = Throw (EBadRequest message)) ∧ ld_products (lw_db r.2) !! 1 = Some [].
Proof. vm_compute. split; [by eexists|done]. Qed.

(** The classifications of a set are stored joined by commas: one that has a
    comma comes back as two. *)
Lemma classification_with_comma : read_simple_array (simple_array ["VITAMINAS A, B > ADULTO"]) = ["VITAMINAS A"; " B > ADULTO"].
Proof. reflexivity. Qed.
