(* ===== verification/DeadLetters.v ===== *)
(** The dead-letter tools of the administrators ([admin/services/dlq.service.ts]):
    looking at the messages of a dead-letter queue and publishing them again,
    as programs over AMQP calls.  The broker keeps what is ready and what a
    channel has taken without acknowledging it; requests interleave by call,
    calls fail, channels break and messages arrive at any time. *)

From Stdlib Require Import Ascii String.
From S2P Require Import Prelude JsText Enums Messages Programs.
Open Scope string_scope.
Open Scope list_scope.
Open Scope Z_scope.

Definition MAX_MESSAGES : Z := 200.

(** The content of a message, as [JSON.parse] reads it; the values inside an
    object or an array as their text. *)
Inductive Content :=
| CObject (fields : gmap string string)
| CArray (values : list string)
| CScalar (text : string)  (* null, a boolean, a number *)
| CString (s : string)
| CRaw (raw : string).  (* not JSON *)
#[export] Instance Content_eq_dec : EqDecision Content.
Proof. solve_decision. Defined.

(** A message of the dead-letter queue of [dm_queue]. *)
Record DlqMsg := { dm_queue : string; dm_routingKey : string; dm_content : Content; dm_headers : gmap string string }.
#[export] Instance DlqMsg_eq_dec : EqDecision DlqMsg.
Proof. solve_decision. Defined.

(** [parseBody]: the value, or the text; a JSON string is a text too. *)
Inductive ParsedBody := PText (s : string) | PValue (fields : gmap string string).

(** What spreading the value into an object gives. *)
Definition parseBody (c : Content) : ParsedBody :=
  match c with
  | CObject fields => PValue fields
  | CArray values => PValue (list_to_map (imap (λ i v, (pretty (Z.of_nat i), v)) values))
  | CScalar _ => PValue ∅
  | CString s | CRaw s => PText s
  end.

(** [{ ...body, attempt: 1 }] *)
Definition replayedBody (fields : gmap string string) : gmap string string := <["attempt" := "1"]> fields.

Record DlqMessage := { dv_routingKey : string; dv_body : Content; dv_redelivered : bool; dv_headers : gmap string string }.

(** The calls on a channel; [GetMsg] answers [None] when it rejects,
    [Publish] whether it was confirmed. *)
Inductive DCall : Type → Type :=
| OpenChannel : DCall bool
| GetMsg (queue : string) : DCall (option (option (DlqMsg * bool)))
| NackUpTo : DCall unit  (* nack(last, allUpTo, requeue) *)
| NackOne (m : DlqMsg) : DCall unit
| AckOne (m : DlqMsg) : DCall unit
| Publish (routingKey : string) (body : gmap string string) : DCall bool
| CloseChannel : DCall unit.

Abbreviation DProg := (Program DCall).

Definition amqp_error : Exn := EError "channel error".

Definition createChannel : DProg unit := ok ← stmt OpenChannel; if (ok : bool) then mret () else p_throw amqp_error.

(** [channel.get(`${queue}.dlq`)] *)
Definition get_dlq (queue : string) : DProg (option (DlqMsg * bool)) :=
  r ← stmt (GetMsg queue);
  match r with Some m => mret m | None => p_throw amqp_error end.

Definition assertQueue (queue : string) : DProg unit :=
  if bool_decide (queue ∈ allStepQueueNames) then mret () else p_throw (ENotFound ("Unknown queue " +:+ queue)).

(** [while (msgs.length < cap)]: at most [n] more messages. *)
Fixpoint collect (queue : string) (n : nat) : DProg (list (DlqMsg * bool)) :=
  match n with
  | O => mret []
  | S n =>
      m ← get_dlq queue;
      match m with
      | None => mret []
      | Some m => rest ← collect queue n; mret (m :: rest)
      end
  end.

Definition dlq_view (m : DlqMsg * bool) : DlqMessage :=
  {| dv_routingKey := dm_routingKey m.1; dv_body := dm_content m.1; dv_redelivered := m.2; dv_headers := dm_headers m.1 |}.

Definition peek (queue : string) (limit : Z) : DProg (list DlqMessage) :=
  assertQueue queue;;
  createChannel;;
  p_finally
    (msgs ← collect queue (Z.to_nat (Z.min limit MAX_MESSAGES));
     (if bool_decide (msgs = []) then mret () else stmt NackUpTo);;
     mret (dlq_view <$> msgs))
    (stmt CloseChannel).

(** [for (let i = 0; i < cap; i++)]: at most [n] more messages. *)
Fixpoint replay_loop (queue : string) (n : nat) : DProg Z :=
  match n with
  | O => mret 0
  | S n =>
      m ← get_dlq queue;
      match m with
      | None => mret 0
      | Some (m, _) =>
          match parseBody (dm_content m) with
          | PText _ => stmt (NackOne m);; mret 0
          | PValue fields =>
              ok ← stmt (Publish (dm_routingKey m) (replayedBody fields));
              if (ok : bool) then stmt (AckOne m);; r ← replay_loop queue n; mret (r + 1)
              else p_throw amqp_error
          end
      end
  end.

Definition replay (queue : string) (max : Z) : DProg Z :=
  assertQueue queue;;
  createChannel;;
  p_finally (replay_loop queue (Z.to_nat (Z.min max MAX_MESSAGES))) (stmt CloseChannel).

(* ------------------------------------------------------------------ *)
(** * The broker                                                        *)
(* ------------------------------------------------------------------ *)

(** The messages of all dead-letter queues; [bk_unacked] by request, the
    flag of a message telling that it was delivered before. *)
Record Broker := {
  bk_ready : list (DlqMsg * bool);
  bk_unacked : list (nat * DlqMsg);
  bk_acked : list DlqMsg;
  bk_published : list (string * gmap string string);  (* to the step exchange *)
}.

(** The first ready message of a queue, and the others. *)
Fixpoint take_first (queue : string) (l : list (DlqMsg * bool)) : option ((DlqMsg * bool) * list (DlqMsg * bool)) :=
  match l with
  | [] => None
  | m :: rest =>
      if bool_decide (dm_queue m.1 = queue) then Some (m, rest)
      else '(x, rest) ← take_first queue rest; Some (x, m :: rest)
  end.

(** A requeued message goes back to the head, flagged as redelivered. *)
Definition requeue (ms : list DlqMsg) (ready : list (DlqMsg * bool)) : list (DlqMsg * bool) := ((., true) <$> ms) ++ ready.

(** The request [i] gives back what it has taken. *)
Definition release (i : nat) (b : Broker) : Broker :=
  {| bk_ready := requeue (snd <$> filter (λ x, x.1 = i) (bk_unacked b)) (bk_ready b);
     bk_unacked := filter (λ x, ¬ x.1 = i) (bk_unacked b); bk_acked := bk_acked b; bk_published := bk_published b |}.

Fixpoint drop_first {A} `{EqDecision A} (x : A) (l : list A) : option (list A) :=
  match l with
  | [] => None
  | y :: l => if decide (y = x) then Some l else cons y <$> drop_first x l
  end.

(** What a call does when it succeeds; an acknowledgement of a message the
    channel does not hold changes nothing. *)
Definition act (i : nat) {A} (c : DCall A) (b : Broker) : A * Broker :=
  match c in DCall A return A * Broker with
  | OpenChannel => (true, b)
  | GetMsg queue =>
      match take_first queue (bk_ready b) with
      | Some (m, rest) => (Some (Some m), Build_Broker rest (bk_unacked b ++ [(i, m.1)]) (bk_acked b) (bk_published b))
      | None => (Some None, b)
      end
  | NackUpTo | CloseChannel => ((), release i b)
  | NackOne m =>
      ((), match drop_first (i, m) (bk_unacked b) with
           | Some rest => Build_Broker (requeue [m] (bk_ready b)) rest (bk_acked b) (bk_published b)
           | None => b
           end)
  | AckOne m =>
      ((), match drop_first (i, m) (bk_unacked b) with
           | Some rest => Build_Broker (bk_ready b) rest (bk_acked b ++ [m]) (bk_published b)
           | None => b
           end)
  | Publish key body => (true, Build_Broker (bk_ready b) (bk_unacked b) (bk_acked b) (bk_published b ++ [(key, body)]))
  end.

(** A call by the request [i]: it succeeds, or rejects; a publication that
    rejects may have reached the broker. *)
Inductive dcall (i : nat) : ∀ {A}, DCall A → Broker → A → Broker → Prop :=
| call_ok A (c : DCall A) b : dcall i c b (act i c b).1 (act i c b).2
| open_rejects b : dcall i OpenChannel b false b
| get_rejects queue b : dcall i (GetMsg queue) b None b
| publish_rejects key body b : dcall i (Publish key body) b false b
| publish_unconfirmed key body b : dcall i (Publish key body) b false (act i (Publish key body) b).2.

Inductive DlqRequest := Peek (queue : string) (limit : Z) | Replay (queue : string) (max : Z).
Inductive DlqReply := Peeked (messages : list DlqMessage) | Replayed (replayed : Z).
Definition dlq_handle (r : DlqRequest) : DProg DlqReply :=
  match r with
  | Peek queue limit => ms ← peek queue limit; mret (Peeked ms)
  | Replay queue max => n ← replay queue max; mret (Replayed n)
  end.

(** The requests begun, by number, and the messages dead-lettered so far. *)
Record DlqState := { ds_broker : Broker; ds_requests : gmap nat (DProg DlqReply); ds_arrived : list DlqMsg }.

Inductive dlq_step (g : DlqState) : DlqState → Prop :=
| dlq_begin i r : ds_requests g !! i = None →
    dlq_step g (Build_DlqState (ds_broker g) (<[i := dlq_handle r]> (ds_requests g)) (ds_arrived g))
| dlq_call i A (c : DCall A) k a b : ds_requests g !! i = Some (Vis c k) → dcall i c (ds_broker g) a b →
    dlq_step g (Build_DlqState b (<[i := k a]> (ds_requests g)) (ds_arrived g))
(** The connection of a request breaks: it fails, and the broker takes back
    what it held. *)
| dlq_broken i : is_Some (ds_requests g !! i) →
    dlq_step g (Build_DlqState (release i (ds_broker g)) (<[i := p_throw amqp_error]> (ds_requests g)) (ds_arrived g))
| dlq_dead m : let b := ds_broker g in
    dlq_step g (Build_DlqState (Build_Broker (bk_ready b ++ [(m, false)]) (bk_unacked b) (bk_acked b) (bk_published b))
                  (ds_requests g) (m :: ds_arrived g)).

Definition dlq_empty : DlqState := Build_DlqState (Build_Broker [] [] [] []) ∅ [].

(** A request by itself, no call rejecting. *)
Fixpoint dlq_alone {R} (i : nat) (p : DProg R) (b : Broker) : Res R * Broker :=
  match p with
  | Ret r => (r, b)
  | Vis c k => let r := act i c b in dlq_alone i (k r.1) r.2
  end.
