(* ===== verification/DeadLettersLaws.v ===== *)
(** What the dead-letter tools guarantee: under any interleaving, with calls
    that fail and channels that break, no dead letter is lost, and one is
    taken away only after it was published again; and what a request does
    by itself. *)

From Stdlib Require Import Ascii String.
From stdpp Require Import relations.
From S2P Require Import Prelude JsText Enums Messages Programs DeadLetters.
Open Scope string_scope.
Open Scope list_scope.
Open Scope Z_scope.

(** The publication that replays a message, if it can be replayed. *)
Definition replay_of (m : DlqMsg) : option (string * gmap string string) :=
  match parseBody (dm_content m) with PValue fields => Some (dm_routingKey m, replayedBody fields) | PText _ => None end.

(* ------------------------------------------------------------------ *)
(** * Messages as a multiset                                            *)
(* ------------------------------------------------------------------ *)

Lemma take_first_perm q l m rest : take_first q l = Some (m, rest) → l ≡ₚ m :: rest.
Proof.
  revert m rest. induction l as [|x l IH]; intros m rest; cbn [take_first]; [done|].
  case_bool_decide; [by intros [= <- <-]|]. destruct (take_first q l) as [[y r]|] eqn:E; [|done].
  intros [= <- <-]. rewrite (IH _ _ eq_refl). apply Permutation_swap.
Qed.

Lemma drop_first_perm {A} `{EqDecision A} (x : A) l rest : drop_first x l = Some rest → l ≡ₚ x :: rest.
Proof.
  revert rest. induction l as [|y l IH]; intros rest; cbn [drop_first]; [done|].
  case_decide; [intros [= <-]; by subst|]. destruct (drop_first x l) as [r|] eqn:E; [|done].
  intros [= <-]. rewrite (IH _ eq_refl). apply Permutation_swap.
Qed.

(** Every message of the broker, wherever it is. *)
Definition all_messages (b : Broker) : list DlqMsg := (fst <$> bk_ready b) ++ (snd <$> bk_unacked b) ++ bk_acked b.

Lemma requeue_fst ms ready : fst <$> requeue ms ready = ms ++ (fst <$> ready).
Proof. unfold requeue. rewrite fmap_app, <- list_fmap_compose. f_equal. apply list_fmap_id. Qed.

Lemma release_messages i b : all_messages (release i b) ≡ₚ all_messages b.
Proof.
  unfold all_messages, release. cbn. rewrite requeue_fst. set (mine := filter _ _). set (others := filter _ _).
  assert (bk_unacked b ≡ₚ mine ++ others) as E by (symmetry; apply filter_app_complement). rewrite E, fmap_app. solve_Permutation.
Qed.

Lemma act_messages i {A} (c : DCall A) b : all_messages (act i c b).2 ≡ₚ all_messages b.
Proof.
  destruct c; cbn; try done; try apply release_messages.
  - destruct (take_first queue (bk_ready b)) as [[m rest]|] eqn:E; [|done]. unfold all_messages. cbn.
    rewrite (take_first_perm _ _ _ _ E), fmap_app. cbn. solve_Permutation.
  - destruct (drop_first (i, m) (bk_unacked b)) as [rest|] eqn:E; [|done]. unfold all_messages. cbn.
    rewrite (drop_first_perm _ _ _ E). cbn. solve_Permutation.
  - destruct (drop_first (i, m) (bk_unacked b)) as [rest|] eqn:E; [|done]. unfold all_messages. cbn.
    rewrite (drop_first_perm _ _ _ E). cbn. solve_Permutation.
Qed.

Lemma dcall_messages i {A} (c : DCall A) b a b' : dcall i c b a b' → all_messages b' ≡ₚ all_messages b.
Proof. intros []; try done. apply act_messages. Qed.

(* ------------------------------------------------------------------ *)
(** * Well-behaved requests                                             *)
(* ------------------------------------------------------------------ *)

(** What a request has seen confirmed, and whether its channel is closed
    since it last took a message. *)
Definition Seen : Type := list (string * gmap string string) * bool.

Definition after {A} (c : DCall A) : A → Seen → Seen :=
  match c in DCall A return A → Seen → Seen with
  | Publish key body => λ ok s, (if ok then (key, body) :: s.1 else s.1, s.2)
  | GetMsg _ => λ _ s, (s.1, false)
  | CloseChannel => λ _ s, (s.1, true)
  | _ => λ _ s, s
  end.

(** A request acknowledges what it has seen published, and closes its
    channel before it ends. *)
Definition may_call {A} (c : DCall A) (s : Seen) : Prop :=
  match c with AckOne m => ∃ p, replay_of m = Some p ∧ p ∈ s.1 | _ => True end.
Fixpoint proper {R} (p : DProg R) (s : Seen) : Prop :=
  match p with
  | Ret _ => s.2 = true
  | Vis c k => may_call c s ∧ ∀ a, proper (k a) (after c a s)
  end.

(** The same, whatever comes after. *)
Fixpoint leads {R} (p : DProg R) (Q : Res R → Seen → Prop) (s : Seen) : Prop :=
  match p with
  | Ret r => Q r s
  | Vis c k => may_call c s ∧ ∀ a, leads (k a) Q (after c a s)
  end.

Lemma leads_proper {R} (p : DProg R) s : leads p (λ _ s, s.2 = true) s → proper p s.
Proof. revert s. induction p as [|A c k IH]; cbn; naive_solver. Qed.

Lemma leads_mono {R} (p : DProg R) (Q Q' : Res R → Seen → Prop) s : (∀ r s, Q r s → Q' r s) → leads p Q s → leads p Q' s.
Proof. intros HQ. revert s. induction p as [|A c k IH]; cbn; naive_solver. Qed.

Lemma leads_bind {R S} (p : DProg R) (f : R → DProg S) Q s :
  leads p (λ r s, match r with Ok a => leads (f a) Q s | Throw e => Q (Throw e) s end) s → leads (p ≫= f) Q s.
Proof. unfold mbind, Program_bind. revert s. induction p as [[a|e]|A c k IH]; cbn; naive_solver. Qed.

Lemma leads_call {A R} (c : DCall A) (f : A → DProg R) Q s :
  may_call c s → (∀ a, leads (f a) Q (after c a s)) → leads (stmt c ≫= f) Q s.
Proof. done. Qed.

(** A request that ends by closing its channel. *)
Lemma leads_finally {R} (p : DProg R) s : leads p (λ _ _, True) s → leads (p_finally p (stmt CloseChannel)) (λ _ s, s.2 = true) s.
Proof. revert s. induction p as [r|A c k IH]; cbn; [|naive_solver]. intros s _. by split. Qed.

Definition any {R} : Res R → Seen → Prop := λ _ _, True.

Lemma get_dlq_leads q s : leads (get_dlq q) any s.
Proof. apply leads_call; [done|]. intros [m|]; done. Qed.

Lemma collect_leads q n s : leads (collect q n) any s.
Proof.
  revert s. induction n as [|n IH]; intros s; [done|]. cbn [collect]. apply leads_bind. eapply leads_mono, get_dlq_leads.
  intros [[m|]|e] s' _; try done. apply leads_bind. eapply leads_mono, IH. by intros [|].
Qed.

Lemma replay_loop_leads q n s : leads (replay_loop q n) any s.
Proof.
  revert s. induction n as [|n IH]; intros s; [done|]. cbn [replay_loop]. apply leads_bind. eapply leads_mono, get_dlq_leads.
  intros [[[m fl]|]|e] s' _; try done. destruct (parseBody (dm_content m)) as [t|fields] eqn:E; [by apply leads_call|].
  apply leads_call; [done|]. intros [|]; [|done]. apply leads_call.
  - cbn. exists (dm_routingKey m, replayedBody fields). unfold replay_of. rewrite E. split; [done|by left].
  - intros []. apply leads_bind. eapply leads_mono, IH. by intros [|].
Qed.

Lemma opened_leads {R} q (p : DProg R) : (∀ s, leads p any s) →
  leads (assertQueue q;; createChannel;; p_finally p (stmt CloseChannel)) (λ _ s, s.2 = true) ([], true).
Proof.
  intros Hp. apply leads_bind. unfold assertQueue. case_match; [|done]. apply (leads_bind createChannel). apply leads_call; [done|].
  intros [|]; [|done]. apply leads_finally, Hp.
Qed.

Lemma handle_proper r : proper (dlq_handle r) ([], true).
Proof.
  apply leads_proper. destruct r as [q limit|q max]; unfold dlq_handle.
  - apply (leads_bind (peek _ _)). eapply leads_mono, opened_leads; [by intros [|]|]. intros s. apply leads_bind.
    eapply leads_mono, collect_leads. intros [ms|e] s' _; [|done]. by case_bool_decide.
  - apply (leads_bind (replay _ _)). eapply leads_mono, opened_leads; [by intros [|]|]. intros s. apply replay_loop_leads.
Qed.

(* ------------------------------------------------------------------ *)
(** * The system                                                        *)
(* ------------------------------------------------------------------ *)

Definition acked_published (b : Broker) : Prop := Forall (λ m, ∃ p, replay_of m = Some p ∧ p ∈ bk_published b) (bk_acked b).
Definition holds_nothing (i : nat) (b : Broker) : Prop := Forall (λ x, x.1 ≠ i) (bk_unacked b).

(** What is left of a request is proper for what it has seen; with its
    channel closed it holds nothing. *)
Definition request_fine (g : DlqState) (i : nat) (p : DProg DlqReply) : Prop :=
  ∃ s, proper p s ∧ s.1 ⊆ bk_published (ds_broker g) ∧ (s.2 = true → holds_nothing i (ds_broker g)).

Definition dlq_invariant (g : DlqState) : Prop :=
  ds_arrived g ≡ₚ all_messages (ds_broker g) ∧ acked_published (ds_broker g) ∧
  (∀ i p, ds_requests g !! i = Some p → request_fine g i p) ∧
  Forall (λ x, is_Some (ds_requests g !! x.1)) (bk_unacked (ds_broker g)).

(** A call takes messages for its own request only, and publishes more. *)
Lemma drop_first_sub {A} `{EqDecision A} (x : A) l rest : drop_first x l = Some rest → ∀ y, y ∈ rest → y ∈ l.
Proof. intros E y Hy. rewrite (drop_first_perm _ _ _ E). by right. Qed.

Lemma release_unacked i b x : x ∈ bk_unacked (release i b) ↔ x.1 ≠ i ∧ x ∈ bk_unacked b.
Proof. unfold release. cbn [bk_unacked]. by rewrite list_elem_of_filter. Qed.

Lemma dcall_unacked i {A} (c : DCall A) b a b' x : dcall i c b a b' → x ∈ bk_unacked b' → x ∈ bk_unacked b ∨ x.1 = i.
Proof.
  intros [A1 c1 b1| | | |]; [|by left..]. destruct c1 as [|q| | | | |]; cbn; try by left.
  - destruct (take_first q (bk_ready b1)) as [[m rest]|]; cbn; [|by left].
    intros [?| ->%list_elem_of_singleton]%elem_of_app; [by left|by right].
  - intros [_ ?]%(release_unacked i b1 x). by left.
  - destruct (drop_first _ _) eqn:E; cbn; [|by left]. intros H. left. by eapply drop_first_sub.
  - destruct (drop_first _ _) eqn:E; cbn; [|by left]. intros H. left. by eapply drop_first_sub.
  - intros [_ ?]%(release_unacked i b1 x). by left.
Qed.

Lemma dcall_published i {A} (c : DCall A) b a b' : dcall i c b a b' → bk_published b ⊆ bk_published b'.
Proof.
  assert (∀ b key body, bk_published b ⊆ bk_published (act i (Publish key body) b).2) as Hpub.
  { intros b0 key body p Hp. cbn. apply elem_of_app. by left. }
  intros [A1 c1 b1| | | |]; try done; try apply Hpub. destruct c1; try apply Hpub; cbn; repeat case_match; done.
Qed.

Lemma release_holds_nothing i b : holds_nothing i (release i b).
Proof. apply Forall_forall. intros x Hx. by apply release_unacked in Hx as [? _]. Qed.

Lemma holds_nothing_sub i b b' : (∀ x, x ∈ bk_unacked b' → x ∈ bk_unacked b ∨ x.1 ≠ i) → holds_nothing i b → holds_nothing i b'.
Proof. unfold holds_nothing. rewrite !Forall_forall. intros H Hb x Hx. destruct (H x Hx); auto. Qed.

(** What the request that calls has seen after the call. *)
Lemma dcall_seen i {A} (c : DCall A) b a b' s : dcall i c b a b' → s.1 ⊆ bk_published b → (s.2 = true → holds_nothing i b) →
  (after c a s).1 ⊆ bk_published b' ∧ ((after c a s).2 = true → holds_nothing i b').
Proof.
  intros Hc Hs Hn. pose proof (transitivity Hs (dcall_published _ _ _ _ _ Hc)) as Hp.
  assert (∀ rest, (∀ x, x ∈ rest → x ∈ bk_unacked b) → s.2 = true → Forall (λ x, x.1 ≠ i) rest) as Hsub.
  { intros rest Hrest H. specialize (Hn H). unfold holds_nothing in Hn. rewrite Forall_forall in Hn. apply Forall_forall. auto. }
  destruct Hc as [A1 c1 b1|b1|q b1|key body b1|key body b1]; try (split; [exact Hp|first [exact Hn|by intros]]).
  destruct c1 as [|q| |m|m|key body|]; try (split; [exact Hp|first [exact Hn|by intros]]).
  - split; [exact Hp|]. intros _. apply release_holds_nothing.
  - split; [exact Hp|]. intros H. cbn. destruct (drop_first _ _) eqn:E; [|by apply Hn]. apply Hsub; [exact (drop_first_sub _ _ _ E)|done].
  - split; [exact Hp|]. intros H. cbn. destruct (drop_first _ _) eqn:E; [|by apply Hn]. apply Hsub; [exact (drop_first_sub _ _ _ E)|done].
  - split; [|exact Hn]. cbn. intros p [->|H]%elem_of_cons; apply elem_of_app; [right; by left|left; by apply Hs].
  - split; [exact Hp|]. intros _. apply release_holds_nothing.
Qed.

Lemma dcall_acked i {A} (c : DCall A) b a b' s : dcall i c b a b' → may_call c s → s.1 ⊆ bk_published b →
  acked_published b → acked_published b'.
Proof.
  intros Hc Hm Hs Hb. pose proof (dcall_published _ _ _ _ _ Hc) as Hp. unfold acked_published in *.
  assert (Forall (λ m, ∃ p, replay_of m = Some p ∧ p ∈ bk_published b') (bk_acked b)) as Hold.
  { eapply Forall_impl; [exact Hb|]. intros m (p & ? & ?). exists p. split; [done|by apply Hp]. }
  assert (bk_acked b' = bk_acked b ∨ ∃ m, bk_acked b' = bk_acked b ++ [m] ∧ ∃ p, replay_of m = Some p ∧ p ∈ s.1) as [->|(m & -> & p & Em & Hin)].
  { destruct Hc as [A1 c1 b1| | | |]; try by left. destruct c1; try (by left); cbn; repeat case_match; try (by left). right. eauto. }
  - exact Hold.
  - apply Forall_app. split; [exact Hold|]. apply Forall_singleton. exists p. split; [done|]. by apply Hp, Hs.
Qed.

Lemma dlq_step_invariant g g' : dlq_step g g' → dlq_invariant g → dlq_invariant g'.
Proof.
  intros Hs (Hall & Hack & Hreq & Hun). destruct Hs as [i r Hi|i A c k a b Hi Hc|i Hi|m b]; unfold dlq_invariant, request_fine in *; cbn in *.
  - split_and!; [done..| |].
    + intros j p Hj. destruct (decide (i = j)) as [->|n]; [|rewrite lookup_insert_ne in Hj by done; auto].
      rewrite lookup_insert_eq in Hj. injection Hj as <-. exists ([], true). split_and!; [apply handle_proper|apply list_subseteq_nil|].
      intros _. apply Forall_forall. intros x Hx <-. rewrite Forall_forall in Hun. destruct (Hun x Hx) as [q Hq]. by rewrite Hi in Hq.
    + eapply Forall_impl; [exact Hun|]. intros x Hx. by apply lookup_insert_is_Some'; right.
  - destruct (Hreq i _ Hi) as (s & [Hm Hk] & Hs & Hn). split_and!.
    + rewrite (dcall_messages _ _ _ _ _ Hc). exact Hall.
    + by eapply dcall_acked.
    + intros j p Hj. destruct (decide (i = j)) as [->|n].
      * rewrite lookup_insert_eq in Hj. injection Hj as <-. exists (after c a s). split; [apply Hk|]. by eapply dcall_seen.
      * rewrite lookup_insert_ne in Hj by done. destruct (Hreq j p Hj) as (s' & ? & ? & Hn'). exists s'. split_and!; [done| |].
        { etrans; [done|]. by eapply dcall_published. }
        intros Hcl. eapply holds_nothing_sub, Hn', Hcl. intros x Hx. destruct (dcall_unacked _ _ _ _ _ x Hc Hx); [by left|right; congruence].
    + apply Forall_forall. intros x Hx. apply lookup_insert_is_Some'. rewrite Forall_forall in Hun.
      destruct (dcall_unacked _ _ _ _ _ x Hc Hx); [right; auto|by left].
  - split_and!.
    + etrans; [exact Hall|]. symmetry. apply release_messages.
    + exact Hack.
    + intros j p Hj. destruct (decide (i = j)) as [->|n].
      * rewrite lookup_insert_eq in Hj. injection Hj as <-. exists ([], true). split_and!; [done|apply list_subseteq_nil|].
        intros _. apply release_holds_nothing.
      * rewrite lookup_insert_ne in Hj by done. destruct (Hreq j p Hj) as (s & ? & ? & Hn). exists s. split_and!; [done..|].
        intros Hcl. eapply holds_nothing_sub, Hn, Hcl. intros x [_ ?]%(release_unacked i (ds_broker g)). by left.
    + apply Forall_forall. intros x [_ Hx]%(release_unacked i (ds_broker g)). apply lookup_insert_is_Some'. right. rewrite Forall_forall in Hun. auto.
  - split_and!; [|done..]. unfold all_messages. cbn. rewrite fmap_app. cbn. rewrite Hall. unfold all_messages, b. solve_Permutation.
Qed.

Definition is_answered (g : DlqState) (i : nat) : Prop := ∃ r, ds_requests g !! i = Some (Ret r).

(** [C35] Over every interleaving of peeks and replays, with calls that
    reject, publications whose confirmation is lost, channels that break and
    messages that arrive: every dead letter is ready in its queue, held by a
    request that is not answered yet, or acknowledged, each exactly once; an
    acknowledged one was published again under its routing key, with the
    attempt reset. *)
Theorem dlq_loses_nothing g : rtc dlq_step dlq_empty g →
  ds_arrived g ≡ₚ (fst <$> bk_ready (ds_broker g)) ++ (snd <$> bk_unacked (ds_broker g)) ++ bk_acked (ds_broker g) ∧
  (∀ m, m ∈ bk_acked (ds_broker g) → ∃ p, replay_of m = Some p ∧ p ∈ bk_published (ds_broker g)) ∧
  (∀ i m, (i, m) ∈ bk_unacked (ds_broker g) → is_Some (ds_requests g !! i) ∧ ¬ is_answered g i).
Proof.
  intros Hg. assert (dlq_invariant g) as (Hall & Hack & Hreq & Hun).
  { assert (dlq_invariant dlq_empty) as H0. { split_and!; [done|apply Forall_nil_2| |apply Forall_nil_2]. intros i p Hp. change ((∅ : gmap nat (DProg DlqReply)) !! i = Some p) in Hp. by rewrite lookup_empty in Hp. }
    revert H0. induction Hg as [g|g1 g2 g3 Hs _ IH]; [done|]. intros H. apply IH. by eapply dlq_step_invariant. }
  split_and!; [exact Hall| |].
  - intros m Hm. unfold acked_published in Hack. rewrite Forall_forall in Hack. auto.
  - intros i m Hm. rewrite Forall_forall in Hun. split; [apply (Hun _ Hm)|]. intros [r Hr].
    destruct (Hreq _ _ Hr) as (s & Hp & _ & Hn). unfold holds_nothing in Hn. rewrite Forall_forall in Hn.
    by apply (Hn Hp (i, m)).
Qed.

(* ------------------------------------------------------------------ *)
(** * A request by itself                                               *)
(* ------------------------------------------------------------------ *)

(** The dead letters of a queue, with their flags. *)
Definition of_queue (q : string) (b : Broker) : list (DlqMsg * bool) := filter (λ x, dm_queue x.1 = q) (bk_ready b).

(** The messages before the first that is not a value. *)
Fixpoint replayable (ms : list DlqMsg) : list DlqMsg :=
  match ms with [] => [] | m :: rest => match replay_of m with Some _ => m :: replayable rest | None => [] end end.

Lemma dlq_alone_bind {R S} i (p : DProg R) (f : R → DProg S) b :
  dlq_alone i (p ≫= f) b = match dlq_alone i p b with (Ok a, b') => dlq_alone i (f a) b' | (Throw e, b') => (Throw e, b') end.
Proof. unfold mbind, Program_bind. revert b. induction p as [[a|e]|A c k IH]; intros b; cbn; [done..|]. apply IH. Qed.

Lemma dlq_alone_finally {R} i (p : DProg R) b :
  dlq_alone i (p_finally p (stmt CloseChannel)) b = ((dlq_alone i p b).1, release i (dlq_alone i p b).2).
Proof. revert b. induction p as [r|A c k IH]; intros b; [done|]. apply IH. Qed.

Lemma dlq_alone_opened {R} i q (p : DProg R) b : q ∈ allStepQueueNames →
  dlq_alone i (assertQueue q;; createChannel;; p_finally p (stmt CloseChannel)) b
  = ((dlq_alone i p b).1, release i (dlq_alone i p b).2).
Proof.
  intros Hq. rewrite (dlq_alone_bind i (assertQueue q)). unfold assertQueue. rewrite bool_decide_true by done. cbn. apply dlq_alone_finally.
Qed.

(** Taking a message, seen from the queues. *)
Lemma take_first_queue q l :
  match take_first q l with
  | Some (m, rest) => dm_queue m.1 = q ∧
      ∀ q', filter (λ x, dm_queue x.1 = q') l = if decide (q' = q) then m :: filter (λ x, dm_queue x.1 = q') rest
                                                else filter (λ x, dm_queue x.1 = q') rest
  | None => filter (λ x : DlqMsg * bool, dm_queue x.1 = q) l = []
  end.
Proof.
  induction l as [|x l IH]; [done|]. cbn [take_first]. case_bool_decide as Hx.
  - split; [done|]. intros q'. rewrite filter_cons, Hx. repeat case_decide; congruence.
  - destruct (take_first q l) as [[m rest]|]; cbn.
    + destruct IH as [Hm IH]. split; [done|]. intros q'. rewrite IH. destruct (decide (q' = q)), (decide (dm_queue x.1 = q')); try done; congruence.
    + rewrite decide_False by done. exact IH.
Qed.

Lemma holds_nothing_release i b : holds_nothing i b → release i b = b.
Proof.
  intros Hn. unfold release. destruct b as [rd un ak pb]. cbn in *.
  assert (filter (λ x, x.1 = i) un = [] ∧ filter (λ x, ¬ x.1 = i) un = un) as [-> ->]; [|done].
  unfold holds_nothing in Hn. cbn in Hn. induction Hn as [|x l Hx _ [IH1 IH2]]; [done|]. rewrite !filter_cons, IH1, IH2.
  by rewrite (decide_False (P := x.1 = i)), (decide_True (P := ¬ x.1 = i)).
Qed.

Lemma drop_first_last {A} `{EqDecision A} (x : A) l : x ∉ l → drop_first x (l ++ [x]) = Some l.
Proof.
  induction l as [|y l IH]; intros Hx; cbn; [by rewrite decide_True|]. apply not_elem_of_cons in Hx as [? ?].
  rewrite decide_False by congruence. by rewrite IH.
Qed.

Lemma holds_nothing_notin i m b : holds_nothing i b → (i, m) ∉ bk_unacked b.
Proof. unfold holds_nothing. rewrite Forall_forall. intros H Hin. by apply (H _ Hin). Qed.

Lemma get_alone i q b : holds_nothing i b →
  (of_queue q b = [] ∧ dlq_alone i (get_dlq q) b = (Ok None, b)) ∨
  ∃ m fl rest b', of_queue q b = (m, fl) :: rest ∧ dlq_alone i (get_dlq q) b = (Ok (Some (m, fl)), b') ∧
    bk_unacked b' = bk_unacked b ++ [(i, m)] ∧ bk_acked b' = bk_acked b ∧ bk_published b' = bk_published b ∧
    dm_queue m = q ∧ ∀ q', of_queue q' b' = if decide (q' = q) then rest else of_queue q' b.
Proof.
  intros Hn. pose proof (take_first_queue q (bk_ready b)) as H. unfold of_queue. cbn.
  destruct (take_first q (bk_ready b)) as [[[m fl] rest]|]; cbn; [right|by left].
  destruct H as [Hm H]. exists m, fl, (filter (λ x, dm_queue x.1 = q) rest), (Build_Broker rest (bk_unacked b ++ [(i, m)]) (bk_acked b) (bk_published b)).
  split_and!; try done.
  - by rewrite (H q), decide_True.
  - intros q'. cbn. rewrite (H q'). case_decide; by subst.
Qed.

(** A replay by itself, no call rejecting: it publishes the messages of the
    queue, oldest first, up to the limit or to the first whose content is
    text, takes exactly these away and answers how many; that text stays. *)
Lemma replay_loop_alone i q n b : holds_nothing i b →
  let ms := fst <$> of_queue q b in let sent := replayable (take n ms) in
  ∃ b', dlq_alone i (replay_loop q n) b = (Ok (Z.of_nat (length sent)), b') ∧ holds_nothing i b' ∧
    bk_published b' = bk_published b ++ omap replay_of sent ∧ bk_acked b' = bk_acked b ++ sent ∧
    ∀ q', fst <$> of_queue q' b' = if decide (q' = q) then drop (length sent) ms else fst <$> of_queue q' b.
Proof.
  cbv zeta. revert b. induction n as [|n IH]; intros b Hn; cbn [replay_loop].
  { exists b. rewrite take_0. cbn. rewrite !app_nil_r. split_and!; try done. intros q'. by case_decide; subst. }
  rewrite dlq_alone_bind. destruct (get_alone i q b Hn) as [[E ->]|(m & fl & rest & b1 & E & -> & Eu & Ea & Ep & Hm & Eq)].
  { exists b. rewrite E. cbn. rewrite !app_nil_r. split_and!; try done. intros q'. case_decide; [by subst; rewrite E|done]. }
  rewrite E. cbn [fmap list_fmap fst take replayable]. pose proof (drop_first_last (i, m) (bk_unacked b) (holds_nothing_notin i m b Hn)) as Hd.
  assert (replay_of m = match parseBody (dm_content m) with PValue fields => Some (dm_routingKey m, replayedBody fields) | PText _ => None end)
    as Er by done.
  destruct (parseBody (dm_content m)) as [t|fields] eqn:Hp; rewrite Er.
  - cbn. rewrite Eu, Hd. eexists. split; [done|]. cbn. rewrite !app_nil_r. split_and!; [exact Hn|done..|].
    intros q'. change (filter _ (bk_ready b1)) with (of_queue q' b1). rewrite (Eq q').
    destruct (decide (dm_queue m = q')), (decide (q' = q)); try done; congruence.
  - set (b2 := Build_Broker (bk_ready b1) (bk_unacked b) (bk_acked b ++ [m]) (bk_published b ++ [(dm_routingKey m, replayedBody fields)])).
    assert (dlq_alone i (stmt (Publish (dm_routingKey m) (replayedBody fields)) ≫= λ ok : bool,
              if ok then stmt (AckOne m);; r ← replay_loop q n; mret (r + 1) else p_throw amqp_error) b1
            = match dlq_alone i (replay_loop q n) b2 with (Ok r, b') => (Ok (r + 1), b') | (Throw e, b') => (Throw e, b') end) as ->.
    { cbn. rewrite Eu, Hd, Ea, Ep. fold b2. etrans; [apply (dlq_alone_bind i (replay_loop q n) (λ r, mret (r + 1)) b2)|]. by destruct (dlq_alone i (replay_loop q n) b2) as [[|] ?]. }
    assert (∀ q', of_queue q' b2 = if decide (q' = q) then rest else of_queue q' b) as Eq2 by exact Eq.
    destruct (IH b2 Hn) as (b' & -> & Hn' & Hpub & Hack & Hq). rewrite (Eq2 q), decide_True in * by done.
    exists b'. split_and!; [|exact Hn'| | |].
    + cbn. f_equal. f_equal. lia.
    + rewrite Hpub. cbn. rewrite Er. by rewrite <- app_assoc.
    + rewrite Hack. cbn. by rewrite <- app_assoc.
    + intros q'. rewrite (Hq q'). case_decide; [done|]. by rewrite (Eq2 q'), decide_False.
Qed.

(** A replay of a queue the program knows, by itself. *)
Theorem replay_alone i q max b : q ∈ allStepQueueNames → holds_nothing i b →
  let ms := fst <$> of_queue q b in let sent := replayable (take (Z.to_nat (Z.min max MAX_MESSAGES)) ms) in
  ∃ b', dlq_alone i (replay q max) b = (Ok (Z.of_nat (length sent)), b') ∧
    bk_published b' = bk_published b ++ omap replay_of sent ∧ bk_acked b' = bk_acked b ++ sent ∧
    ∀ q', fst <$> of_queue q' b' = if decide (q' = q) then drop (length sent) ms else fst <$> of_queue q' b.
Proof.
  intros Hq Hn. destruct (replay_loop_alone i q (Z.to_nat (Z.min max MAX_MESSAGES)) b Hn) as (b' & E & Hn' & H).
  exists b'. unfold replay. rewrite dlq_alone_opened, E by done. cbn. by rewrite holds_nothing_release.
Qed.

Lemma collect_alone i q n b :
  ∃ b', dlq_alone i (collect q n) b = (Ok (take n (of_queue q b)), b') ∧
    bk_published b' = bk_published b ∧ bk_acked b' = bk_acked b ∧
    bk_unacked b' = bk_unacked b ++ ((λ x, (i, x.1)) <$> take n (of_queue q b)) ∧
    Forall (λ x, dm_queue x.1 = q) (take n (of_queue q b)) ∧
    ∀ q', of_queue q' b' = if decide (q' = q) then drop n (of_queue q b) else of_queue q' b.
Proof.
  revert b. induction n as [|n IH]; intros b; cbn [collect].
  { exists b. rewrite take_0. cbn. rewrite app_nil_r. split_and!; try done. intros q'. by case_decide; subst. }
  rewrite dlq_alone_bind. pose proof (take_first_queue q (bk_ready b)) as H. fold (of_queue q b) in H. cbn.
  destruct (take_first q (bk_ready b)) as [[[m fl] rest]|]; cbn.
  2: { exists b. rewrite H. cbn. rewrite app_nil_r. split_and!; try done. intros q'. case_decide; [by subst; rewrite H|done]. }
  destruct H as [Hm H]. set (b1 := Build_Broker rest (bk_unacked b ++ [(i, m)]) (bk_acked b) (bk_published b)).
  assert (∀ q', of_queue q' b = if decide (q' = q) then (m, fl) :: of_queue q' b1 else of_queue q' b1) as Hb1 by exact H.
  destruct (IH b1) as (b' & E & Hp & Ha & Hu & Hf & Hq). exists b'.
  rewrite (Hb1 q), decide_True by done. cbn [take drop fmap list_fmap].
  split_and!; [|done|done| |by constructor|].
  - etrans; [apply (dlq_alone_bind i (collect q n) (λ rest, mret ((m, fl) :: rest)) b1)|]. by rewrite E.
  - rewrite Hu. cbn. by rewrite <- app_assoc.
  - intros q'. rewrite (Hq q'). case_decide; [done|]. by rewrite (Hb1 q'), decide_False.
Qed.

Lemma filter_holding (i : nat) (taken : list (DlqMsg * bool)) un : Forall (λ x, x.1 ≠ i) un →
  filter (λ x, x.1 = i) (un ++ ((λ x, (i, x.1)) <$> taken)) = (λ x, (i, x.1)) <$> taken.
Proof.
  intros Hn. rewrite filter_app. assert (filter (λ x : nat * DlqMsg, x.1 = i) un = []) as ->.
  { induction Hn as [|x l Hx _ IH]; [done|]. by rewrite filter_cons, decide_False. }
  cbn. induction taken as [|x l IH]; [done|]. cbn. rewrite decide_True by done. by f_equal.
Qed.

(** Giving back what was taken restores the queue, flags aside. *)
Lemma give_back i q n b b' : holds_nothing i b →
  bk_unacked b' = bk_unacked b ++ ((λ x, (i, x.1)) <$> take n (of_queue q b)) →
  Forall (λ x, dm_queue x.1 = q) (take n (of_queue q b)) →
  (∀ q', of_queue q' b' = if decide (q' = q) then drop n (of_queue q b) else of_queue q' b) →
  ∀ q', fst <$> of_queue q' (release i b') = fst <$> of_queue q' b.
Proof.
  intros Hn Hu Hf Hq q'. unfold release. rewrite Hu, filter_holding by done. rewrite <- list_fmap_compose. unfold of_queue at 1. cbn [bk_ready].
  unfold requeue. rewrite filter_app, fmap_app. change (filter _ (bk_ready b')) with (of_queue q' b'). rewrite (Hq q'). case_decide as Hqq.
  - subst q'. rewrite <- (take_drop n (of_queue q b)) at 3. rewrite fmap_app. f_equal.
    clear - Hf. induction Hf as [|x l Hx _ IH]; [done|]. cbn. rewrite decide_True by done. cbn. f_equal. exact IH.
  - assert (filter (λ x : DlqMsg * bool, dm_queue x.1 = q') ((., true) <$> (snd ∘ (λ x : DlqMsg * bool, (i, x.1)) <$> take n (of_queue q b))) = []) as ->; [|done].
    clear Hu Hq. induction Hf as [|x l Hx _ IH]; [done|]. cbn. rewrite decide_False by congruence. exact IH.
Qed.

(** A peek by itself, no call rejecting: it answers the oldest messages of
    the queue up to the limit and leaves every queue as it was, flags aside. *)
Theorem peek_alone i q limit b : q ∈ allStepQueueNames → holds_nothing i b →
  ∃ b', dlq_alone i (peek q limit) b = (Ok (dlq_view <$> take (Z.to_nat (Z.min limit MAX_MESSAGES)) (of_queue q b)), b') ∧
    bk_published b' = bk_published b ∧ bk_acked b' = bk_acked b ∧ ∀ q', fst <$> of_queue q' b' = fst <$> of_queue q' b.
Proof.
  intros Hq Hn. unfold peek. rewrite dlq_alone_opened by done. set (n := Z.to_nat _).
  destruct (collect_alone i q n b) as (b1 & E & Hp & Ha & Hu & Hf & Hb). pose proof (give_back i q n b b1 Hn Hu Hf Hb) as Hback.
  rewrite dlq_alone_bind, E. exists (release i b1). split; [|split_and!; [exact Hp|exact Ha|exact Hback]].
  case_bool_decide as Hempty; [done|]. change (((Ok (dlq_view <$> take n (of_queue q b)), release i (release i b1)) : Res (list DlqMessage) * Broker)
    = (Ok (dlq_view <$> take n (of_queue q b)), release i b1)).
  by rewrite (holds_nothing_release i (release i b1)) by apply release_holds_nothing.
Qed.

(* ------------------------------------------------------------------ *)
(** * Concrete histories                                                *)
(* ------------------------------------------------------------------ *)

(** A request that runs alone, no call rejecting, as steps. *)
Lemma alone_steps i p g : ds_requests g !! i = Some p →
  rtc dlq_step g (Build_DlqState (dlq_alone i p (ds_broker g)).2 (<[i := Ret (dlq_alone i p (ds_broker g)).1]> (ds_requests g)) (ds_arrived g)).
Proof.
  revert g. induction p as [r|A c k IH]; intros g Hi; cbn.
  - destruct g as [b rq ar]. cbn in *. by rewrite insert_id.
  - eapply rtc_l; [by apply (dlq_call g i A c k), call_ok|].
    etrans; [apply (IH (act i c (ds_broker g)).1)|]; cbn; [apply lookup_insert_eq|]. by rewrite insert_insert_eq.
Qed.

Definition dead_letter (content : Content) : DlqMsg := Build_DlqMsg "sync-stores" "acme.sync-stores" content ∅.

(** After the second message, a text, a replay stops. *)
Lemma dlq_loses_nothing_witness :
  let m1 := dead_letter (CObject {["attempt" := "4"; "step" := "sync"]}) in let m2 := dead_letter (CRaw "oops") in
  ∃ g, rtc dlq_step dlq_empty g ∧ bk_acked (ds_broker g) = [m1] ∧ bk_ready (ds_broker g) = [(m2, true)] ∧
    bk_published (ds_broker g) = [("acme.sync-stores", {["attempt" := "1"; "step" := "sync"]})] ∧
    (∃ p, replay_of m1 = Some p ∧ p ∈ bk_published (ds_broker g)).
Proof.
  cbv zeta. set (m1 := dead_letter (CObject _)). set (m2 := dead_letter (CRaw _)).
  set (g0 := Build_DlqState (Build_Broker [(m1, false); (m2, false)] [] [] []) {[0%nat := dlq_handle (Replay "sync-stores" 100)]} [m2; m1]).
  assert (rtc dlq_step dlq_empty g0) as H0.
  { eapply rtc_l; [apply (dlq_dead _ m1)|]. eapply rtc_l; [apply (dlq_dead _ m2)|]. eapply rtc_l; [by apply (dlq_begin _ 0%nat (Replay "sync-stores" 100))|].
    apply rtc_refl. }
  pose proof (transitivity H0 (alone_steps 0%nat _ g0 eq_refl)) as H1. eexists. split; [exact H1|].
  destruct (dlq_loses_nothing _ H1) as (_ & Hack & _).
  split; [vm_compute; reflexivity|]. split; [vm_compute; reflexivity|]. split; [vm_compute; reflexivity|].
  apply Hack. assert (m1 = m1) by done. refine (eq_rect_r (λ l, m1 ∈ l) _ (_ : _ = [m1])); [by left|vm_compute; reflexivity].
Defined.

(** A message whose content is [null] is replayed as another one. *)
Lemma null_replayed_as_object : replay_of (dead_letter (CScalar "null")) = Some ("acme.sync-stores", {["attempt" := "1"]}).
Proof. reflexivity. Qed.
