(* ===== verification/IntegrationHealth.v ===== *)
(** The connections to the ERPs ([integration/integration-connection.service.ts],
    its entity and DTO): configuring, disabling and testing them.  Requests
    interleave at their awaits; a ping is a process of its own whose promise
    a cache shares; the fleet check runs a pool of workers.

    The cipher of the credentials and the outcome of a connection are
    arguments, or choices of a step. *)

From Stdlib Require Import Ascii String.
From S2P Require Import Prelude Programs.
Open Scope string_scope.
Open Scope list_scope.
Open Scope Z_scope.

Definition PING_TTL_MS : Z := 10000.
Definition FLEET_PING_CONCURRENCY : nat := 8.

(* ------------------------------------------------------------------ *)
(** * mapWithLimit                                                      *)
(* ------------------------------------------------------------------ *)

(** A worker at the head of its loop, awaiting [fn(items[i])], or out of it;
    [P] is what it awaits. *)
Inductive Worker (P : Type) := Idle | Busy (i : nat) (p : P) | Stopped.
Arguments Idle {P}. Arguments Busy {P} i p. Arguments Stopped {P}.

Record Pool (P R : Type) := { po_next : nat; po_workers : list (Worker P); po_results : list (option R) }.
Arguments Build_Pool {P R}. Arguments po_next {P R}. Arguments po_workers {P R}. Arguments po_results {P R}.

Section Pool.
Context {P R : Type}.
(** The number of items. *)
Variable n : nat.

Definition pool_init (limit : nat) : Pool P R := Build_Pool 0 (replicate (limit `min` n) Idle) (replicate n None).

(** [while (next < items.length) { const i = next++; ... }] *)
Definition pool_take (w : nat) (p : P) (g : Pool P R) : option (Pool P R) :=
  match po_workers g !! w with
  | Some Idle => if (po_next g <? n)%nat
                 then Some (Build_Pool (S (po_next g)) (<[w := Busy (po_next g) p]> (po_workers g)) (po_results g)) else None
  | _ => None
  end.
Definition pool_stop (w : nat) (g : Pool P R) : option (Pool P R) :=
  match po_workers g !! w with
  | Some Idle => if (po_next g <? n)%nat then None
                 else Some (Build_Pool (po_next g) (<[w := Stopped]> (po_workers g)) (po_results g))
  | _ => None
  end.
(** [results[i] = await fn(items[i])] *)
Definition pool_done (w : nat) (r : R) (g : Pool P R) : option (Pool P R) :=
  match po_workers g !! w with
  | Some (Busy i _) => Some (Build_Pool (po_next g) (<[w := Idle]> (po_workers g)) (<[i := Some r]> (po_results g)))
  | _ => None
  end.

Definition pool_ended (g : Pool P R) : bool := forallb (λ w, match w with Stopped => true | _ => false end) (po_workers g).

(** [produces i r]: [fn] may answer [r] for the item [i]. *)
Inductive pool_step (produces : nat → R → Prop) (g : Pool P R) : Pool P R → Prop :=
| pool_takes w p g' : pool_take w p g = Some g' → pool_step produces g g'
| pool_stops w g' : pool_stop w g = Some g' → pool_step produces g g'
| pool_answers w i p r g' : po_workers g !! w = Some (Busy i p) → produces i r → pool_done w r g = Some g' → pool_step produces g g'.
End Pool.

(* ------------------------------------------------------------------ *)
(** * Rows                                                              *)
(* ------------------------------------------------------------------ *)

Inductive SslMode := SSL_disable | SSL_require | SSL_verify_full.
Inductive IntegrationStatus := I_active | I_disabled | I_error.
#[export] Instance IntegrationStatus_eq_dec : EqDecision IntegrationStatus.
Proof. solve_decision. Defined.

Record ConnectionConfig := {
  cc_origin : string; cc_name : string; cc_host : string; cc_port : Z; cc_database : string; cc_username : string;
  cc_passwordEncrypted : string; cc_sslMode : SslMode; cc_sslCaCert : option string; cc_readOnly : bool;
  cc_connectionOptions : string;
}.

(** [core.integration_database_connection], by id. *)
Record ConnectionRow := {
  cr_tenantId : string; cr_config : ConnectionConfig; cr_status : IntegrationStatus;
  cr_lastVerifiedAt : option Z; cr_lastError : option string;
  cr_apiBaseUrl : option string; cr_apiKeyEncrypted : option string;
}.

Record UpsertIntegrationDto := {
  ui_origin : string; ui_name : string; ui_host : string; ui_port : Z; ui_database : string; ui_username : string;
  ui_password : string; ui_sslMode : option SslMode; ui_sslCaCert : option string; ui_readOnly : option bool;
  ui_connectionOptions : option string; ui_apiBaseUrl : option string; ui_apiKey : option string;
}.

Inductive PingResult :=
| PingOk (lastVerifiedAt : Z)
| PingFailed (lastVerifiedAt : option Z) (error : string).

(* ------------------------------------------------------------------ *)
(** * Requests                                                          *)
(* ------------------------------------------------------------------ *)

(** [SaveRow] answers [None] when the unique index refuses the row;
    [StartPing] runs up to the first await of the ping and answers its
    number. *)
Inductive HCall : Type → Type :=
| FindTenantId (slug : string) : HCall (option string)
| FindRow (tenantId : string) : HCall (option (string * ConnectionRow))
| Encrypt (plain : string) : HCall string
| SaveRow (id : option string) (row : ConnectionRow) : HCall (option string)
| Invalidate (tenantId : string) : HCall unit
| EvictPing (id : string) : HCall unit
| StartPing (id : string) (row : ConnectionRow) (cached : bool) : HCall nat
| AwaitPing (ping : nat) : HCall PingResult.

Abbreviation HProg := (Program HCall).

Definition tenant_not_found (slug : string) : Exn := ENotFound ("Tenant " +:+ slug +:+ " not found").

Definition tenant_of (slug : string) : HProg string :=
  t ← stmt (FindTenantId slug);
  match t with Some t => mret t | None => p_throw (tenant_not_found slug) end.

Definition nonempty_key (apiKey : option string) : option string := match apiKey with Some "" => None | k => k end.

(** [apiKey ? encrypt(apiKey) : existing] *)
Definition api_key_of (dto : UpsertIntegrationDto) (existing : option ConnectionRow) : HProg (option string) :=
  match nonempty_key (ui_apiKey dto) with
  | Some k => c ← stmt (Encrypt k); mret (Some c)
  | None => mret (existing ≫= cr_apiKeyEncrypted)
  end.

Definition config_of (dto : UpsertIntegrationDto) (passwordEncrypted : string) : ConnectionConfig :=
  {| cc_origin := ui_origin dto; cc_name := ui_name dto; cc_host := ui_host dto; cc_port := ui_port dto;
     cc_database := ui_database dto; cc_username := ui_username dto; cc_passwordEncrypted := passwordEncrypted;
     cc_sslMode := default SSL_require (ui_sslMode dto); cc_sslCaCert := ui_sslCaCert dto;
     cc_readOnly := default true (ui_readOnly dto); cc_connectionOptions := default "{}" (ui_connectionOptions dto) |}.

Definition saved_id (r : option string) : HProg string :=
  match r with Some id => mret id | None => p_throw (EError "duplicate key value violates unique constraint UQ_INTEGRATION_DB_TENANT") end.

Definition upsert (tenantSlug : string) (dto : UpsertIntegrationDto) : HProg ConnectionRow :=
  tenant ← tenant_of tenantSlug;
  existing ← stmt (FindRow tenant);
  let old := snd <$> existing in
  password ← stmt (Encrypt (ui_password dto));
  apiKey ← api_key_of dto old;
  let row := {| cr_tenantId := tenant; cr_config := config_of dto password; cr_status := I_active;
                cr_lastVerifiedAt := old ≫= cr_lastVerifiedAt; cr_lastError := old ≫= cr_lastError;
                cr_apiBaseUrl := match ui_apiBaseUrl dto with Some u => Some u | None => old ≫= cr_apiBaseUrl end;
                cr_apiKeyEncrypted := apiKey |} in
  saved ← stmt (SaveRow (fst <$> existing) row);
  id ← saved_id saved;
  stmt (Invalidate tenant);;
  stmt (EvictPing id);;
  mret row.

Definition set_row_status (status : IntegrationStatus) (r : ConnectionRow) : ConnectionRow :=
  Build_ConnectionRow (cr_tenantId r) (cr_config r) status (cr_lastVerifiedAt r) (cr_lastError r) (cr_apiBaseUrl r) (cr_apiKeyEncrypted r).

Definition disable (tenantSlug : string) : HProg unit :=
  tenant ← tenant_of tenantSlug;
  found ← stmt (FindRow tenant);
  match found with
  | None => mret ()
  | Some (id, row) =>
      saved ← stmt (SaveRow (Some id) (set_row_status I_disabled row));
      saved_id saved;;
      stmt (Invalidate tenant);;
      stmt (EvictPing id)
  end.

Definition rowForSlug (tenantSlug : string) : HProg (string * ConnectionRow) :=
  tenant ← tenant_of tenantSlug;
  row ← stmt (FindRow tenant);
  match row with Some r => mret r | None => p_throw (ENotFound "No integration connection configured") end.

(** [{ ok: true }], or the error. *)
Definition test_error (r : PingResult) : option string := match r with PingOk _ => None | PingFailed _ e => Some e end.

Definition test (tenantSlug : string) : HProg (option string) :=
  '(id, row) ← rowForSlug tenantSlug;
  ping ← stmt (StartPing id row false);
  result ← stmt (AwaitPing ping);
  mret (test_error result).

Definition ping_ok (r : PingResult) : bool := match r with PingOk _ => true | _ => false end.
Definition ping_verified (r : PingResult) : option Z := match r with PingOk t => Some t | PingFailed t _ => t end.

Definition testForTenant (tenantSlug : string) : HProg (bool * option Z) :=
  '(id, row) ← rowForSlug tenantSlug;
  if negb (bool_decide (cr_status row = I_active)) then mret (false, cr_lastVerifiedAt row)
  else ping ← stmt (StartPing id row true);
       result ← stmt (AwaitPing ping);
       mret (ping_ok result, ping_verified result).

(* ------------------------------------------------------------------ *)
(** * Pings and the fleet check                                         *)
(* ------------------------------------------------------------------ *)

(** A ping: awaiting the ERP, awaiting the write of its outcome, settled. *)
Inductive PingState :=
| Connecting (id : string) (row : ConnectionRow)
| Persisting (id : string) (lastVerifiedAt : option Z) (lastError : option string) (result : PingResult)
| Settled (result : PingResult).

(** [connection error (CODE)]: the code of the driver, never its message. *)
Definition safeReason (code : option string) : string :=
  match code with Some c => "connection error (" +:+ c +:+ ")" | None => "connection error" end.

(** What the ERP, or the cipher, answers. *)
Inductive Outcome := Connected | Refused (message : string) (code : option string).

Definition ping_outcome (id : string) (row : ConnectionRow) (now : Z) (o : Outcome) : PingState :=
  match o with
  | Connected => Persisting id (Some now) None (PingOk now)
  | Refused message code => Persisting id (cr_lastVerifiedAt row) (Some (safeReason code)) (PingFailed (cr_lastVerifiedAt row) message)
  end.

Definition set_health (lastVerifiedAt : option Z) (lastError : option string) (r : ConnectionRow) : ConnectionRow :=
  Build_ConnectionRow (cr_tenantId r) (cr_config r) (cr_status r) lastVerifiedAt lastError (cr_apiBaseUrl r) (cr_apiKeyEncrypted r).

Record HealthEntry := {
  he_id : string; he_tenantSlug : string; he_origin : string; he_status : IntegrationStatus; he_ok : bool;
  he_lastVerifiedAt : option Z; he_error : option string;
}.

(** The active rows with the slug of their tenant. *)
Definition FleetRow : Type := string * ConnectionRow * string.
Definition health_entry (x : FleetRow) (r : PingResult) : HealthEntry :=
  {| he_id := x.1.1; he_tenantSlug := x.2; he_origin := cc_origin (cr_config x.1.2); he_status := cr_status x.1.2; he_ok := ping_ok r;
     he_lastVerifiedAt := ping_verified r; he_error := test_error r |}.

Record HealthReport := { hr_total : Z; hr_healthy : Z; hr_unhealthy : Z; hr_connections : list HealthEntry }.
Definition report_of_entries (connections : list HealthEntry) : HealthReport :=
  let healthy := Z.of_nat (length (filter (λ c, he_ok c = true) connections)) in
  let total := Z.of_nat (length connections) in
  {| hr_total := total; hr_healthy := healthy; hr_unhealthy := total - healthy; hr_connections := connections |}.

Inductive HRequest := Upsert (slug : string) (dto : UpsertIntegrationDto) | Disable (slug : string) | TestOne (slug : string)
  | TestForTenant (slug : string) | TestAll.
Inductive HReply := Upserted (row : ConnectionRow) | Disabled | Tested (error : option string)
  | TenantHealth (ok : bool) (lastVerifiedAt : option Z) | Fleet (r : HealthReport).

(** A request: a program, or the fleet check before and after its query. *)
Inductive HProc :=
| Running (p : HProg HReply)
| FleetQuery
| FleetPool (rows : list FleetRow) (pool : Pool nat HealthEntry).

Definition h_handle (r : HRequest) : HProc :=
  match r with
  | Upsert slug dto => Running (row ← upsert slug dto; mret (Upserted row))
  | Disable slug => Running (disable slug;; mret Disabled)
  | TestOne slug => Running (e ← test slug; mret (Tested e))
  | TestForTenant slug => Running ('(ok, t) ← testForTenant slug; mret (TenantHealth ok t))
  | TestAll => FleetQuery
  end.

(* ------------------------------------------------------------------ *)
(** * The service                                                       *)
(* ------------------------------------------------------------------ *)

(** What was cached and evicted, latest first. *)
Inductive CacheEvent := Started (id : string) (at_ : Z) | Evicted (id : string).

Record HState := {
  hs_tenants : gmap string string;  (* slug: id *)
  hs_rows : gmap string ConnectionRow;
  hs_cache : gmap string (nat * Z);  (* pingCache *)
  hs_clock : Z;
  hs_pings : gmap nat PingState;
  hs_requests : gmap nat HProc;
  hs_log : list CacheEvent;
}.

Definition slug_of (g : HState) (tenantId : string) : string :=
  default tenantId (fst <$> head (filter (λ x, x.2 = tenantId) (map_to_list (hs_tenants g)))).
Definition active_rows (g : HState) : list FleetRow :=
  (λ x, (x, slug_of g (cr_tenantId x.2))) <$> filter (λ x, cr_status x.2 = I_active) (map_to_list (hs_rows g)).

Definition with_rows f (g : HState) : HState :=
  Build_HState (hs_tenants g) (f (hs_rows g)) (hs_cache g) (hs_clock g) (hs_pings g) (hs_requests g) (hs_log g).
Definition with_cache f ev (g : HState) : HState :=
  Build_HState (hs_tenants g) (hs_rows g) (f (hs_cache g)) (hs_clock g) (hs_pings g) (hs_requests g) (ev ++ hs_log g).
Definition with_pings f (g : HState) : HState :=
  Build_HState (hs_tenants g) (hs_rows g) (hs_cache g) (hs_clock g) (f (hs_pings g)) (hs_requests g) (hs_log g).
Definition with_request i p (g : HState) : HState :=
  Build_HState (hs_tenants g) (hs_rows g) (hs_cache g) (hs_clock g) (hs_pings g) (<[i := p]> (hs_requests g)) (hs_log g).
Definition with_clock t (g : HState) : HState :=
  Build_HState (hs_tenants g) (hs_rows g) (hs_cache g) t (hs_pings g) (hs_requests g) (hs_log g).

(** [Date.now() - cached.at < PING_TTL_MS] *)
Definition cached_ping (id : string) (g : HState) : option nat :=
  '(ping, at_) ← hs_cache g !! id; if hs_clock g - at_ <? PING_TTL_MS then Some ping else None.

(** The ping of a row: the cached one, or a new one numbered [fresh]. *)
Definition start_ping (fresh : nat) (id : string) (row : ConnectionRow) (cached : bool) (g : HState) : nat * HState :=
  match (if cached then cached_ping id g else None) with
  | Some ping => (ping, g)
  | None =>
      let g := with_pings <[fresh := Connecting id row]> g in
      (fresh, if cached then with_cache <[id := (fresh, hs_clock g)]> [Started id (hs_clock g)] g else g)
  end.

(** A call of a request; [fresh] and [bytes] are the number of a new ping and
    the random choices. *)
Inductive h_call (g : HState) : ∀ {A}, HCall A → A → HState → Prop :=
| call_tenant slug : h_call g (FindTenantId slug) (hs_tenants g !! slug) g
| call_row tenantId id row : hs_rows g !! id = Some row → cr_tenantId row = tenantId → h_call g (FindRow tenantId) (Some (id, row)) g
| call_no_row tenantId : (∀ id row, hs_rows g !! id = Some row → cr_tenantId row ≠ tenantId) → h_call g (FindRow tenantId) None g
| call_encrypt plain bytes : h_call g (Encrypt plain) bytes g
| call_save id row : h_call g (SaveRow (Some id) row) (Some id) (with_rows <[id := row]> g)
| call_insert id row : hs_rows g !! id = None → (∀ id' row', hs_rows g !! id' = Some row' → cr_tenantId row' ≠ cr_tenantId row) →
    h_call g (SaveRow None row) (Some id) (with_rows <[id := row]> g)
| call_conflict row id' row' : hs_rows g !! id' = Some row' → cr_tenantId row' = cr_tenantId row → h_call g (SaveRow None row) None g
| call_invalidate tenantId : h_call g (Invalidate tenantId) () g
| call_evict id : h_call g (EvictPing id) () (with_cache (delete id) [Evicted id] g)
| call_start id row cached fresh : hs_pings g !! fresh = None →
    h_call g (StartPing id row cached) (start_ping fresh id row cached g).1 (start_ping fresh id row cached g).2
| call_await ping result : hs_pings g !! ping = Some (Settled result) → h_call g (AwaitPing ping) result g.

(** Calls of the database may fail. *)
Definition is_sql {A} (c : HCall A) : Prop :=
  match c with FindTenantId _ | FindRow _ | SaveRow _ _ => True | _ => False end.

Definition sql_error : Exn := EError "query failed".

(** One step, of requests that [allowed] admits. *)
Inductive h_step (allowed : HRequest → Prop) (g : HState) : HState → Prop :=
| h_begin i r : hs_requests g !! i = None → allowed r → h_step allowed g (with_request i (h_handle r) g)
| h_calls i A (c : HCall A) k a g' : hs_requests g !! i = Some (Running (Vis c k)) → h_call g c a g' →
    h_step allowed g (with_request i (Running (k a)) g')
| h_fails i A (c : HCall A) k : hs_requests g !! i = Some (Running (Vis c k)) → is_sql c →
    h_step allowed g (with_request i (Running (p_throw sql_error)) g)
| h_fleet_rows i : hs_requests g !! i = Some FleetQuery →
    h_step allowed g (with_request i (FleetPool (active_rows g) (pool_init (length (active_rows g)) FLEET_PING_CONCURRENCY)) g)
| h_fleet_fails i : hs_requests g !! i = Some FleetQuery → h_step allowed g (with_request i (Running (p_throw sql_error)) g)
| h_fleet_takes i rows pool w x fresh pool' : hs_requests g !! i = Some (FleetPool rows pool) → rows !! po_next pool = Some x →
    hs_pings g !! fresh = None →
    pool_take (length rows) w (start_ping fresh x.1.1 x.1.2 true g).1 pool = Some pool' →
    h_step allowed g (with_request i (FleetPool rows pool') (start_ping fresh x.1.1 x.1.2 true g).2)
| h_fleet_answers i rows pool w j x ping result pool' : hs_requests g !! i = Some (FleetPool rows pool) →
    po_workers pool !! w = Some (Busy j ping) → rows !! j = Some x → hs_pings g !! ping = Some (Settled result) →
    pool_done w (health_entry x result) pool = Some pool' → h_step allowed g (with_request i (FleetPool rows pool') g)
| h_fleet_stops i rows pool w pool' : hs_requests g !! i = Some (FleetPool rows pool) →
    pool_stop (length rows) w pool = Some pool' → h_step allowed g (with_request i (FleetPool rows pool') g)
| h_fleet_ends i rows pool entries : hs_requests g !! i = Some (FleetPool rows pool) → pool_ended pool = true →
    mapM id (po_results pool) = Some entries →
    h_step allowed g (with_request i (Running (mret (Fleet (report_of_entries entries)))) g)
| h_outcome ping id row o : hs_pings g !! ping = Some (Connecting id row) →
    h_step allowed g (with_pings <[ping := ping_outcome id row (hs_clock g) o]> g)
(** [persist]: the two columns, or nothing when the write fails. *)
| h_persist ping id t e result (ok : bool) : hs_pings g !! ping = Some (Persisting id t e result) →
    h_step allowed g (with_pings <[ping := Settled result]> (if ok then with_rows (alter (set_health t e) id) g else g))
| h_time t : hs_clock g ≤ t → h_step allowed g (with_clock t g).
