(* ===== verification/IntegrationHealthLaws.v ===== *)
(** What the health checks guarantee: the pool of the fleet check keeps its
    bound and its order, the checks write the two health columns and nothing
    else, the cache spaces the pings it starts; and where it serves the
    outcome of a configuration that was replaced. *)

From Stdlib Require Import Ascii String.
From stdpp Require Import relations.
From S2P Require Import Prelude Programs IntegrationHealth.
Open Scope string_scope.
Open Scope list_scope.
Open Scope Z_scope.

(* ------------------------------------------------------------------ *)
(** * The pool                                                          *)
(* ------------------------------------------------------------------ *)

Section Pool.
Context {P R : Type}.
Variable n limit : nat.
Implicit Types (g : Pool P R).

Definition busy_of (w : Worker P) : list nat := match w with Busy i _ => [i] | _ => [] end.
(** The items that [fn] is working on. *)
Definition in_flight g : list nat := po_workers g ≫= busy_of.

Lemma busy_length (l : list (Worker P)) : (length (l ≫= busy_of) ≤ length l)%nat.
Proof. induction l as [|[| |] l IH]; cbn; lia. Qed.

Lemma in_flight_insert (l : list (Worker P)) k old new : l !! k = Some old →
  busy_of old ++ (<[k := new]> l ≫= busy_of) ≡ₚ busy_of new ++ (l ≫= busy_of).
Proof.
  intros Hk. rewrite (insert_take_drop l k new) by (by eapply lookup_lt_Some).
  rewrite <- (take_drop_middle l k old Hk) at 3. rewrite !bind_app, !bind_cons. solve_Permutation.
Qed.

(** Items below [next] are in flight or answered; answers are at their place. *)
Definition pool_good (produces : nat → R → Prop) g : Prop :=
  length (po_workers g) = (limit `min` n)%nat ∧ length (po_results g) = n ∧ (po_next g ≤ n)%nat ∧ NoDup (in_flight g) ∧
  (∀ i, i ∈ in_flight g ↔ (i < po_next g)%nat ∧ po_results g !! i = Some None) ∧
  (∀ i, (po_next g ≤ i < n)%nat → po_results g !! i = Some None) ∧
  (∀ i r, po_results g !! i = Some (Some r) → produces i r) ∧
  (Stopped ∈ po_workers g → po_next g = n).

Lemma in_flight_replicate k : (replicate k (Idle : Worker P)) ≫= busy_of = [].
Proof. by induction k. Qed.

Lemma pool_init_good produces : pool_good produces (pool_init n limit : Pool P R).
Proof.
  unfold pool_good, pool_init, in_flight. cbn [po_workers po_results po_next]. rewrite in_flight_replicate, !length_replicate.
  split_and!; try done; [lia|constructor|..].
  - intros i. split; [by intros ?%elem_of_nil|lia].
  - intros i Hi. apply lookup_replicate. split; [done|lia].
  - by intros i r [E _]%lookup_replicate.
  - by intros [E _]%elem_of_replicate.
Qed.

Lemma stopped_insert (l : list (Worker P)) k w : Stopped ∈ <[k := w]> l → w = Stopped ∨ Stopped ∈ l.
Proof.
  intros (j & Hj)%list_elem_of_lookup. destruct (decide (k = j)) as [->|].
  - left. apply list_lookup_insert_Some in Hj as [(_ & ? & _)|(? & _)]; congruence.
  - right. rewrite list_lookup_insert_ne in Hj by done. by eapply list_elem_of_lookup_2.
Qed.

Lemma pool_step_good produces g g' : pool_step n produces g g' → pool_good produces g → pool_good produces g'.
Proof.
  intros Hs (Hw & Hr & Hn & Hnd & Hin & Hrest & Hprod & Hst).
  destruct Hs as [w p g' E|w g' E|w i p r g' Hb Hp E]; [unfold pool_take in E|unfold pool_stop in E|unfold pool_done in E; rewrite Hb in E].
  - destruct (po_workers g !! w) as [[| |]|] eqn:Ew; try done. destruct (Nat.ltb_spec (po_next g) n) as [Hlt|]; [|done].
    injection E as <-. pose proof (in_flight_insert _ w Idle (Busy (po_next g) p) Ew) as Hp. cbn in Hp.
    unfold pool_good, in_flight in *. cbn [po_workers po_results po_next] in *. rewrite length_insert. split_and!; try done; try lia.
    + rewrite Hp. constructor; [|done]. rewrite Hin. lia.
    + intros i. rewrite Hp, elem_of_cons, Hin. split; [intros [->|[? ?]]|intros [? ?]].
      * split; [lia|by apply Hrest; lia].
      * split; [lia|done].
      * destruct (decide (i = po_next g)); [by left|right; split; [lia|done]].
    + intros i ?. apply Hrest. lia.
    + intros [?|?]%stopped_insert; [done|]. specialize (Hst H). lia.
  - destruct (po_workers g !! w) as [[| |]|] eqn:Ew; try done. destruct (Nat.ltb_spec (po_next g) n) as [|Hge]; [done|].
    injection E as <-. pose proof (in_flight_insert _ w Idle Stopped Ew) as Hp. cbn in Hp.
    unfold pool_good, in_flight in *. cbn [po_workers po_results po_next] in *. rewrite length_insert. split_and!; try done; try lia.
    + by rewrite Hp.
    + intros i. by rewrite Hp.
  - injection E as <-. pose proof (in_flight_insert _ w (Busy i p) Idle Hb) as Hperm. cbn in Hperm.
    unfold pool_good, in_flight in *. cbn [po_workers po_results po_next] in *. rewrite !length_insert.
    rewrite <- Hperm in Hnd. apply NoDup_cons in Hnd as [Hni Hnd].
    assert ((i < po_next g)%nat ∧ po_results g !! i = Some None) as [Hi Hri].
    { apply Hin. rewrite <- Hperm. by left. }
    split_and!; try done.
    + intros j. destruct (decide (j = i)) as [->|Hj].
      * rewrite list_lookup_insert_eq by lia. split; [done|by intros [_ ?]].
      * rewrite list_lookup_insert_ne by done. rewrite <- Hin, <- Hperm, elem_of_cons. naive_solver.
    + intros j Hj. rewrite list_lookup_insert_ne by lia. by apply Hrest.
    + intros j r' Hj. apply list_lookup_insert_Some in Hj as [(-> & ? & _)|(_ & ?)]; [congruence|by apply Hprod].
    + intros [?|?]%stopped_insert; [done|auto].
Qed.

Lemma pool_reach produces g : rtc (pool_step n produces) (pool_init n limit) g → pool_good produces g.
Proof.
  intros Hg. assert (pool_good produces (pool_init n limit : Pool P R)) as H by apply pool_init_good. revert H.
  induction Hg as [g|g1 g2 g3 Hs _ IH]; [done|]. intros H. apply IH. by eapply pool_step_good.
Qed.

(** What is left to do, which every step lessens. *)
Definition pool_left g : nat :=
  3 * (n - po_next g) + sum_list ((λ w, match w with Idle => 1 | Busy _ _ => 2 | Stopped => 0 end%nat) <$> po_workers g).

Lemma sum_insert {A} (f : A → nat) (l : list A) k old new : l !! k = Some old →
  (sum_list (f <$> <[k := new]> l) + f old = sum_list (f <$> l) + f new)%nat.
Proof.
  revert k. induction l as [|x l IH]; intros [|k] Hk; cbn in *; [done..|injection Hk as ->; lia|]. rewrite <- !Nat.add_assoc. f_equal. exact (IH k Hk).
Qed.

Lemma pool_step_lessens produces g g' : (po_next g ≤ n)%nat → pool_step n produces g g' → (pool_left g' < pool_left g)%nat.
Proof.
  intros Hn Hs. unfold pool_left. destruct Hs as [w p g' E|w g' E|w i p r g' Hb Hp E];
    [unfold pool_take in E|unfold pool_stop in E|unfold pool_done in E; rewrite Hb in E].
  - destruct (po_workers g !! w) as [[| |]|] eqn:Ew; try done. destruct (Nat.ltb_spec (po_next g) n); [|done]. injection E as <-. cbn [po_next po_workers].
    pose proof (sum_insert (λ w : Worker P, match w with Idle => 1 | Busy _ _ => 2 | Stopped => 0 end%nat) _ w _ (Busy (po_next g) p) Ew) as Hsum.
    cbn beta iota in Hsum. lia.
  - destruct (po_workers g !! w) as [[| |]|] eqn:Ew; try done. destruct (Nat.ltb_spec (po_next g) n); [done|]. injection E as <-. cbn [po_next po_workers].
    pose proof (sum_insert (λ w : Worker P, match w with Idle => 1 | Busy _ _ => 2 | Stopped => 0 end%nat) _ w _ Stopped Ew) as Hsum.
    cbn beta iota in Hsum. lia.
  - injection E as <-. cbn [po_next po_workers].
    pose proof (sum_insert (λ w : Worker P, match w with Idle => 1 | Busy _ _ => 2 | Stopped => 0 end%nat) _ w _ Idle Hb) as Hsum.
    cbn beta iota in Hsum. lia.
Qed.

Lemma pool_ended_spec g : pool_ended g = true ↔ Forall (λ w, w = Stopped) (po_workers g).
Proof.
  unfold pool_ended. rewrite Forall_forall, forallb_forall. split; intros H w Hw.
  - specialize (H w ltac:(by apply list_elem_of_In)). by destruct w.
  - apply list_elem_of_In in Hw. by rewrite (H w Hw).
Qed.

Lemma pool_running g : pool_ended g = false → ∃ k w, po_workers g !! k = Some w ∧ w ≠ Stopped.
Proof.
  unfold pool_ended. induction (po_workers g) as [|w l IH]; cbn; [done|].
  destruct w; [by exists 0%nat; eexists|by exists 0%nat; eexists|]. intros (k & w & ? & ?)%IH. by exists (S k), w.
Qed.
End Pool.

(** [C36] [mapWithLimit], however the answers come: at most [limit] items are
    in flight, none of them twice; once all workers have ended, the results
    are the answers to the items in their order; until then some worker can
    go on, and the workers end after finitely many steps. *)
Theorem map_with_limit_ok {P R} (n limit : nat) (p : P) (produces : nat → R → Prop) (g : Pool P R) :
  (0 < limit)%nat → (∀ i, ∃ r, produces i r) → rtc (pool_step n produces) (pool_init n limit) g →
  (length (in_flight g) ≤ limit)%nat ∧ NoDup (in_flight g) ∧
  (pool_ended g = true → length (po_results g) = n ∧ ∀ i x, po_results g !! i = Some x → ∃ r, x = Some r ∧ produces i r) ∧
  (pool_ended g = false → ∃ g', pool_step n produces g g') ∧
  sn (pool_step n produces) g.
Proof.
  intros Hlimit Hex Hg. destruct (pool_reach n limit produces g Hg) as (Hw & Hr & Hn & Hnd & Hin & Hrest & Hprod & Hst).
  split_and!.
  - unfold in_flight. pose proof (busy_length (po_workers g)). lia.
  - exact Hnd.
  - intros Hend%pool_ended_spec. split; [done|]. intros i x Hi.
    assert (po_next g = n) as Hnext.
    { destruct (decide (n = 0%nat)) as [->|]; [lia|]. apply Hst. destruct (po_workers g) as [|w l]; [cbn in Hw; lia|].
      apply Forall_cons in Hend as [-> _]. by left. }
    destruct x as [r|]; [by eauto|]. exfalso. assert (i ∈ in_flight g) as Hfl.
    { apply Hin. split; [|done]. apply lookup_lt_Some in Hi. lia. }
    unfold in_flight in Hfl. apply list_elem_of_bind in Hfl as (w & Hw1 & Hw2). rewrite Forall_forall in Hend.
    rewrite (Hend w Hw2) in Hw1. by apply elem_of_nil in Hw1.
  - intros (k & w & Hk & Hns)%pool_running.
    destruct w as [|i q|]; [|destruct (Hex i) as [r Hri]|done].
    + destruct (Nat.ltb_spec (po_next g) n).
      * eexists. apply (pool_takes n produces g k p). unfold pool_take. rewrite Hk. by rewrite (proj2 (Nat.ltb_lt _ _)).
      * eexists. apply (pool_stops n produces g k). unfold pool_stop. rewrite Hk. by rewrite (proj2 (Nat.ltb_ge _ _)).
    + eexists. eapply (pool_answers n produces g k i q r); [done..|]. unfold pool_done. by rewrite Hk.
  - clear Hw Hr Hnd Hin Hrest Hprod Hst Hg. remember (pool_left n g) as m eqn:Hm. revert g Hn Hm.
    induction m as [m IH] using lt_wf_ind. intros g Hn ->. constructor. intros g' Hs.
    refine (IH _ (pool_step_lessens n produces g g' Hn Hs) g' _ eq_refl).
    destruct Hs as [w q g' E|w g' E|w i q r g' Hb Hp E]; [unfold pool_take in E|unfold pool_stop in E|unfold pool_done in E; rewrite Hb in E].
    + destruct (po_workers g !! w) as [[| |]|]; try done. destruct (Nat.ltb_spec (po_next g) n); [|done]. by injection E as <-.
    + destruct (po_workers g !! w) as [[| |]|]; try done. destruct (po_next g <? n)%nat; [done|]. by injection E as <-.
    + by injection E as <-.
Qed.

Lemma map_with_limit_ok_witness :
  let g := Build_Pool 2 [Stopped : Worker unit] [Some 0%nat; Some 1%nat] in
  rtc (pool_step 2 (λ i r, r = i)) (pool_init 2 1) g ∧ length (po_results g) = 2%nat.
Proof.
  cbv zeta. set (g := Build_Pool _ _ _). assert (rtc (pool_step 2 (λ i r : nat, r = i)) (pool_init 2 1) g) as H.
  { eapply rtc_l; [by apply (pool_takes _ _ _ 0%nat ())|]. eapply rtc_l; [by apply (pool_answers _ _ _ 0%nat 0%nat () 0%nat)|].
    eapply rtc_l; [by apply (pool_takes _ _ _ 0%nat ())|]. eapply rtc_l; [by apply (pool_answers _ _ _ 0%nat 1%nat () 1%nat)|].
    eapply rtc_l; [by apply (pool_stops _ _ _ 0%nat)|]. apply rtc_refl. }
  split; [exact H|].
  destruct (map_with_limit_ok 2 1 () (λ i r : nat, r = i) g ltac:(lia) ltac:(eauto) H) as (_ & _ & Hend & _). by apply Hend.
Defined.

(* ------------------------------------------------------------------ *)
(** * What the checks write                                             *)
(* ------------------------------------------------------------------ *)

Definition is_check (r : HRequest) : Prop := match r with Upsert _ _ | Disable _ => False | _ => True end.

(** A program that saves no row. *)
Fixpoint saves_nothing {R} (p : HProg R) : Prop :=
  match p with
  | Ret _ => True
  | Vis c k => match c with SaveRow _ _ => False | _ => True end ∧ ∀ a, saves_nothing (k a)
  end.

Lemma saves_nothing_bind {R S} (p : HProg R) (f : R → HProg S) : saves_nothing p → (∀ a, saves_nothing (f a)) → saves_nothing (p ≫= f).
Proof. unfold mbind, Program_bind. induction p as [[a|e]|A c k IH]; cbn; naive_solver. Qed.

Lemma rowForSlug_saves_nothing slug : saves_nothing (rowForSlug slug).
Proof.
  apply saves_nothing_bind.
  - split; [done|]. by intros [t|].
  - intros t. split; [done|]. by intros [row|].
Qed.

Lemma check_saves_nothing r : is_check r → match h_handle r with Running p => saves_nothing p | FleetQuery => True | FleetPool _ _ => False end.
Proof.
  destruct r as [slug dto|slug|slug|slug|]; try done; intros _; apply saves_nothing_bind.
  - apply saves_nothing_bind; [apply rowForSlug_saves_nothing|]. intros [id row]. split; [done|]. intros ping. by split.
  - done.
  - apply saves_nothing_bind; [apply rowForSlug_saves_nothing|]. intros [id row]. case_match; [done|]. split; [done|]. intros ping. by split.
  - by intros [ok t].
Qed.

(** A reason that tells the code of the driver at most. *)
Definition sanitized (e : option string) : Prop := e = None ∨ ∃ code, e = Some (safeReason code).

(** A row after checks: the same, but for its health. *)
Definition checked_row (r r' : ConnectionRow) : Prop := r' = r ∨ ∃ t e, r' = set_health t e r ∧ sanitized e.

Definition checks_good (rows0 : gmap string ConnectionRow) (g : HState) : Prop :=
  (∀ id, option_Forall2 checked_row (rows0 !! id) (hs_rows g !! id)) ∧
  (∀ ping id t e r, hs_pings g !! ping = Some (Persisting id t e r) → sanitized e) ∧
  (∀ i p, hs_requests g !! i = Some (Running p) → saves_nothing p).

Lemma set_health_twice t e t' e' r : set_health t e (set_health t' e' r) = set_health t e r.
Proof. done. Qed.

Lemma start_ping_state fresh id row cached g :
  let g' := (start_ping fresh id row cached g).2 in
  hs_rows g' = hs_rows g ∧ hs_requests g' = hs_requests g ∧ hs_clock g' = hs_clock g ∧
  (hs_pings g' = hs_pings g ∨ hs_pings g' = <[fresh := Connecting id row]> (hs_pings g)).
Proof. unfold start_ping. repeat case_match; cbn; auto. Qed.

Lemma checks_good_step rows0 g g' : h_step is_check g g' → checks_good rows0 g → checks_good rows0 g'.
Proof.
  intros Hs (Hrows & Hpings & Hreq).
  assert (∀ i p, (match p with Running q => saves_nothing q | _ => True end) →
    ∀ j q, <[i := p]> (hs_requests g) !! j = Some (Running q) → saves_nothing q) as Hput.
  { intros i p Hp j q. destruct (decide (i = j)) as [->|n]; [rewrite lookup_insert_eq; intros [= ->]; done|].
    rewrite lookup_insert_ne by done. apply Hreq. }
  assert (∀ fresh id row cached ping id' t e r, hs_pings (start_ping fresh id row cached g).2 !! ping = Some (Persisting id' t e r) → sanitized e) as Hstart.
  { intros fresh id row cached ping id' t e r. destruct (start_ping_state fresh id row cached g) as (_ & _ & _ & [->| ->]); [apply Hpings|].
    destruct (decide (fresh = ping)) as [->|n]; [by rewrite lookup_insert_eq|]. rewrite lookup_insert_ne by done. apply Hpings. }
  destruct Hs as [i r Hi Hr|i A c k a g' Hi Hc|i A c k Hi _|i Hi|i Hi|i rows pool w x fresh pool' Hi Hx Hf Ht|i rows pool w j x ping result pool' Hi Hw Hx Hp Hd
    |i rows pool w pool' Hi Hs|i rows pool entries Hi He Hm|ping id row o Hp|ping id t e result ok Hp|t Ht]; unfold checks_good in *; cbn in *.
  - split_and!; [done..|]. apply Hput. pose proof (check_saves_nothing r Hr). by destruct (h_handle r).
  - specialize (Hreq i _ Hi) as [Hsave Hk]. destruct Hc as [slug|tenantId id row Hrow Ht|tenantId Hno|plain bytes|id row|id row Hid Hnew|row id' row' Hid Ht|tenantId|id|id row cached fresh Hf|ping result Hp]; try done;
      cbn; try (split_and!; [done..|]; apply Hput, Hk).
    destruct (start_ping_state fresh id row cached g) as (-> & -> & _ & _). split_and!; [done|apply Hstart|]. apply Hput, Hk.
  - split_and!; [done..|]. by apply Hput.
  - split_and!; [done..|]. by apply Hput.
  - split_and!; [done..|]. by apply Hput.
  - destruct (start_ping_state fresh x.1.1 x.1.2 true g) as (-> & -> & _ & _). split_and!; [done|apply Hstart|]. by apply Hput.
  - split_and!; [done..|]. by apply Hput.
  - split_and!; [done..|]. by apply Hput.
  - split_and!; [done..|]. by apply Hput.
  - split_and!; [done| |done]. intros ping' id' t e r. destruct (decide (ping = ping')) as [->|n].
    + rewrite lookup_insert_eq. destruct o as [|message code]; cbn; intros [= <- <- <- <-]; [by left|right; by eexists].
    + rewrite lookup_insert_ne by done. apply Hpings.
  - split_and!.
    + intros id'. destruct ok; [cbn|apply Hrows]. destruct (decide (id = id')) as [<-|n]; [|rewrite lookup_alter_ne by done; apply Hrows].
      rewrite lookup_alter_eq. specialize (Hrows id). destruct (hs_rows g !! id) as [r|]; [|exact Hrows]. cbn. inversion Hrows as [r0 r1 Hr E1 E2|]; subst.
      constructor. right. exists t, e. split; [|by eapply Hpings]. destruct Hr as [->|(t' & e' & -> & _)]; done.
    + intros ping' id' t' e' r. destruct ok; cbn; (destruct (decide (ping = ping')) as [->|n]; [by rewrite lookup_insert_eq|]; rewrite lookup_insert_ne by done; apply Hpings).
    + destruct ok; exact Hreq.
  - done.
Qed.

Definition h_fresh (tenants : gmap string string) (rows : gmap string ConnectionRow) (clock : Z) : HState :=
  Build_HState tenants rows ∅ clock ∅ ∅ [].

(** What is under way saves no row: checks, whatever rows they read. *)
Definition only_checks (g : HState) : Prop :=
  (∀ ping id t e r, hs_pings g !! ping = Some (Persisting id t e r) → sanitized e) ∧
  (∀ i p, hs_requests g !! i = Some (Running p) → saves_nothing p).

(** From any moment on at which no upsert or disable is under way,
    whatever checks are, with rows that they read long before, and whatever
    checks begin, the ERPs answer and the writes do: the rows stay the same
    but for their two health columns.  No check brings back a configuration
    or a status that it read, and the reason that is kept tells the code of
    the driver at most. *)
Theorem checks_write_health_only g0 g : only_checks g0 → rtc (h_step is_check) g0 g →
  ∀ id, option_Forall2 checked_row (hs_rows g0 !! id) (hs_rows g !! id).
Proof.
  intros [Hp Hr] Hg. assert (checks_good (hs_rows g0) g0) as H.
  { split_and!; [|done..]. intros id. destruct (hs_rows g0 !! id); constructor. by left. }
  assert (checks_good (hs_rows g0) g) as (Hrows & _); [|exact Hrows]. revert H. generalize (hs_rows g0). clear Hp Hr. intros rows.
  induction Hg as [g|g1 g2 g3 Hs _ IH]; [done|]. intros H. apply IH. by eapply checks_good_step.
Qed.

(* ------------------------------------------------------------------ *)
(** * The cache                                                         *)
(* ------------------------------------------------------------------ *)

(** The pings of a connection that the cache started since it was last
    evicted, latest first. *)
Fixpoint starts_since (id : string) (log : list CacheEvent) : list Z :=
  match log with
  | [] => []
  | Started id' t :: rest => if String.eqb id' id then t :: starts_since id rest else starts_since id rest
  | Evicted id' :: rest => if String.eqb id' id then [] else starts_since id rest
  end.

(** Each at least the lifetime of an entry after the one before. *)
Fixpoint spaced (ts : list Z) : Prop :=
  match ts with t :: (t' :: _) as rest => t' + PING_TTL_MS ≤ t ∧ spaced rest | _ => True end.

Definition cache_good (g : HState) : Prop :=
  ∀ id, spaced (starts_since id (hs_log g)) ∧
    match hs_cache g !! id with Some (_, t) => head (starts_since id (hs_log g)) = Some t | None => starts_since id (hs_log g) = [] end.

Lemma spaced_cons t ts : spaced ts → (∀ t', head ts = Some t' → t' + PING_TTL_MS ≤ t) → spaced (t :: ts).
Proof. destruct ts as [|t' ts]; [done|]. intros Hs H. split; [by apply H|done]. Qed.

Lemma cache_good_start fresh id row cached g : cache_good g → cache_good (start_ping fresh id row cached g).2.
Proof.
  intros Hg. unfold start_ping. destruct cached; [|exact Hg]. destruct (cached_ping id g) as [ping|] eqn:E; [exact Hg|]. cbn.
  intros id'. specialize (Hg id') as [Hs Hc]. cbn. destruct (String.eqb_spec id id') as [<-|n].
  - rewrite lookup_insert_eq. cbn. split; [|done]. apply spaced_cons; [done|]. intros t Ht. unfold cached_ping in E.
    destruct (hs_cache g !! id) as [[ping t']|]; cbn in E; [|by rewrite Hc in Ht]. rewrite Hc in Ht. injection Ht as ->.
    destruct (Z.ltb_spec (hs_clock g - t) PING_TTL_MS); [done|]. lia.
  - by rewrite lookup_insert_ne.
Qed.

Lemma cache_good_same g g' : hs_cache g' = hs_cache g → hs_log g' = hs_log g → cache_good g → cache_good g'.
Proof. unfold cache_good. by intros -> ->. Qed.

Lemma cache_good_step allowed g g' : h_step allowed g g' → cache_good g → cache_good g'.
Proof.
  intros Hs Hg. destruct Hs as [|i A c k a g' Hi Hc|i A c k Hi ?|i Hi|i Hi|i rows pool w x fresh pool' Hi Hx Hf Ht| | | |ping id row o Hp|ping id t e result ok Hp|];
    try exact (cache_good_same _ _ eq_refl eq_refl Hg).
  - assert (cache_good g') as H; [|exact (cache_good_same _ _ eq_refl eq_refl H)].
    destruct Hc; try exact (cache_good_same _ _ eq_refl eq_refl Hg); [|by apply cache_good_start].
    intros id'. specialize (Hg id') as [Hs Hc]. cbn. destruct (String.eqb_spec id id') as [<-|n]; [by rewrite lookup_delete_eq|].
    by rewrite lookup_delete_ne.
  - pose proof (cache_good_start fresh x.1.1 x.1.2 true g Hg) as H. exact (cache_good_same _ _ eq_refl eq_refl H).
  - destruct ok; exact (cache_good_same _ _ eq_refl eq_refl Hg).
Qed.

(** However the requests interleave, the polled endpoints start at most one
    ping of a connection every ten seconds, unless it is configured or
    disabled in between. *)
Theorem polls_share_pings allowed tenants rows clock g : rtc (h_step allowed) (h_fresh tenants rows clock) g →
  ∀ id, spaced (starts_since id (hs_log g)).
Proof.
  intros Hg id. assert (cache_good g) as H; [|apply H]. assert (cache_good (h_fresh tenants rows clock)) as H0 by by intros id'.
  revert H0. induction Hg as [g|g1 g2 g3 Hs _ IH]; [done|]. intros H. apply IH. by eapply cache_good_step.
Qed.

(* ------------------------------------------------------------------ *)
(** * Concrete histories                                                *)
(* ------------------------------------------------------------------ *)

Definition hx_config (host : string) : ConnectionConfig :=
  Build_ConnectionConfig "a7pharma" "erp" host 5432 "erp" "farma" "cipher" SSL_require None true "{}".
Definition hx_row (host : string) (status : IntegrationStatus) : ConnectionRow :=
  Build_ConnectionRow "t1" (hx_config host) status None None None None.

(** A check that read the row before the integration was disabled ends after
    that, and the row stays disabled. *)
Lemma checks_write_health_only_witness :
  let g0 := Build_HState {["acme" := "t1"]} {["c1" := hx_row "new" I_disabled]} ∅ 7 {[0%nat := Connecting "c1" (hx_row "old" I_active)]} ∅ [] in
  ∃ g, rtc (h_step is_check) g0 g ∧ hs_rows g !! "c1" = Some (set_health (Some 7) None (hx_row "new" I_disabled)) ∧
    option_Forall2 checked_row (hs_rows g0 !! "c1") (hs_rows g !! "c1").
Proof.
  cbv zeta. set (g0 := Build_HState _ _ _ _ _ _ _).
  set (g1 := with_pings <[0%nat := ping_outcome "c1" (hx_row "old" I_active) 7 Connected]> g0).
  set (g2 := with_pings <[0%nat := Settled (PingOk 7)]> (with_rows (alter (set_health (Some 7) None) "c1") g1)).
  assert (rtc (h_step is_check) g0 g2) as H.
  { eapply rtc_l; [by apply (h_outcome _ g0 0%nat "c1" (hx_row "old" I_active) Connected)|].
    eapply rtc_l; [by apply (h_persist _ g1 0%nat "c1" (Some 7) None (PingOk 7) true)|]. apply rtc_refl. }
  exists g2. split; [exact H|]. split; [vm_compute; reflexivity|]. apply (checks_write_health_only g0 g2); [|exact H].
  split.
  - intros ping id t e r Hp. exfalso. change (({[0%nat := Connecting "c1" (hx_row "old" I_active)]} : gmap nat PingState) !! ping = Some (Persisting id t e r)) in Hp.
    by apply lookup_singleton_Some in Hp as [_ ?].
  - intros i p Hp. change ((∅ : gmap nat HProc) !! i = Some (Running p)) in Hp. by rewrite lookup_empty in Hp.
Defined.

(** A check that read the old row starts its ping after an upsert evicted
    the cache: the check of the tenant that begins once the upsert is
    answered is served the ping of the old configuration. *)
Lemma stale_ping_after_upsert :
  ∃ g k, rtc (h_step (λ _, True)) (h_fresh {["acme" := "t1"]} {["c1" := hx_row "old" I_active]} 0) g ∧
    (∃ row, hs_requests g !! 1%nat = Some (Running (mret (Upserted row))) ∧ hs_rows g !! "c1" = Some row ∧ cc_host (cr_config row) = "new") ∧
    hs_requests g !! 2%nat = Some (Running (Vis (AwaitPing 0) k)) ∧
    hs_pings g !! 0%nat = Some (Connecting "c1" (hx_row "old" I_active)).
Proof.
  pose (dto := Build_UpsertIntegrationDto "a7pharma" "erp" "new" 5432 "erp" "farma" "secret" None None None None None None). do 2 eexists. split.
  - eapply rtc_l; [by apply (h_begin _ _ 0%nat (TestForTenant "acme"))|].
    eapply rtc_l; [eapply (h_calls _ _ 0%nat); [reflexivity|apply call_tenant]|].
    eapply rtc_l; [eapply (h_calls _ _ 0%nat); [reflexivity|by apply (call_row _ _ "c1" (hx_row "old" I_active))]|].
    eapply rtc_l; [by apply (h_begin _ _ 1%nat (Upsert "acme" dto))|].
    eapply rtc_l; [eapply (h_calls _ _ 1%nat); [reflexivity|apply call_tenant]|].
    eapply rtc_l; [eapply (h_calls _ _ 1%nat); [reflexivity|by apply (call_row _ _ "c1" (hx_row "old" I_active))]|].
    eapply rtc_l; [eapply (h_calls _ _ 1%nat); [reflexivity|apply (call_encrypt _ _ "cipher2")]|].
    eapply rtc_l; [eapply (h_calls _ _ 1%nat); [reflexivity|apply call_save]|].
    eapply rtc_l; [eapply (h_calls _ _ 1%nat); [reflexivity|apply call_invalidate]|].
    eapply rtc_l; [eapply (h_calls _ _ 1%nat); [reflexivity|apply call_evict]|].
    eapply rtc_l; [eapply (h_calls _ _ 0%nat); [reflexivity|by apply (call_start _ _ _ _ 0%nat)]|].
    eapply rtc_l; [by apply (h_begin _ _ 2%nat (TestForTenant "acme"))|].
    eapply rtc_l; [eapply (h_calls _ _ 2%nat); [reflexivity|apply call_tenant]|].
    eapply rtc_l; [eapply (h_calls _ _ 2%nat); [reflexivity|eapply (call_row _ _ "c1"); reflexivity]|].
    eapply rtc_l; [eapply (h_calls _ _ 2%nat); [reflexivity|by apply (call_start _ _ _ _ 1%nat)]|]. apply rtc_refl.
  - split_and!; [eexists; split_and!; reflexivity|reflexivity|reflexivity].
Qed.
