(* ===== verification/Tenants.v ===== *)
(** The administration of tenants ([admin/services/tenant-onboarding.service.ts],
    [tenant-offboarding.service.ts], [competitor-origin-admin.service.ts],
    [admin/controllers/tenants.controller.ts], [tenant/tenant-schema.ts]):
    creating a tenant with its schema and its first user, changing and
    removing it, as programs over calls.  No request is a transaction; a call
    is rejected with or without having taken effect.

    The random password, its hash and the ids of the rows are choices of a
    step; the migrations of a schema are one call. *)

From Stdlib Require Import Ascii String.
From S2P Require Import Prelude JsText Enums Programs.
Open Scope string_scope.
Open Scope list_scope.
Open Scope Z_scope.

Inductive ModuleCode := CROSSED_PRODUCTS | ACTIVE_INGREDIENT_ANALYSIS | PRICING_RULES | OFFER_BOOK_RULES | STRATEGIC_PRICING.
Definition all_modules : list ModuleCode :=
  [CROSSED_PRODUCTS; ACTIVE_INGREDIENT_ANALYSIS; PRICING_RULES; OFFER_BOOK_RULES; STRATEGIC_PRICING].

(** A slug between quotes, as the messages have it. *)
Definition quoted (slug : string) : string := String "034" (slug +:+ String "034" "").

(** [slug.replace(/-/g, '_')] *)
Definition schemaNameFor (slug : string) : string :=
  if String.eqb slug "system" then "system" else "tenant_" +:+ str_replace_all "-" "_" slug.

Definition RESERVED_SLUGS : list string := ["admin"; "api"; "app"; "meta"; "shared"; "system"; "www"].

Definition slug_char (c : ascii) : bool := is_lower c || is_digit c || Ascii.eqb c "-".
(** [/^[a-z][a-z0-9-]{2,31}$/] *)
Definition SLUG_RE (slug : string) : bool :=
  match slug with
  | EmptyString => false
  | String c rest => is_lower c && (2 <=? String.length rest)%nat && (String.length rest <=? 31)%nat && str_forall slug_char rest
  end.

(* ------------------------------------------------------------------ *)
(** * Tables                                                            *)
(* ------------------------------------------------------------------ *)

(** [core.tenant], by id. *)
Record TenantRow := {
  tn_slug : string; tn_name : string; tn_schemaName : string; tn_status : TenantStatus; tn_modules : list ModuleCode;
  tn_storeLimit : option Z; tn_deleted : bool;
}.
Record TenantOrigin := { to_enabled : bool; to_priority : Z; to_config : string; to_deleted : bool }.
Record TenantUser := { tu_passwordHash : string; tu_role : string; tu_status : string }.

Record TenantsDb := {
  td_tenants : gmap string TenantRow;
  td_schemas : gmap string bool;  (* by name: whether it is migrated *)
  td_origins : gmap (string * string) TenantOrigin;  (* by tenant id and origin *)
  td_users : gmap (string * string) TenantUser;  (* by tenant slug and email *)
  td_ids : gmap string string;  (* every id ever drawn for a tenant: its slug *)
}.

Record CreateTenantDto := { cd_slug : string; cd_name : string; cd_adminEmail : string }.
Record OnboardingResult := { on_slug : string; on_schemaName : string; on_email : string; on_oneTimePassword : string }.
Record CompetitorOriginUpdate := { cu_origin : CompetitorOrigin; cu_enabled : bool; cu_priority : option Z; cu_config : option string }.

(* ------------------------------------------------------------------ *)
(** * Requests                                                          *)
(* ------------------------------------------------------------------ *)

(** A call that writes answers whether it was confirmed; a [None] for
    [FindTenant] or [InsertTenant] is its rejection. *)
Inductive TCall : Type → Type :=
| FindTenant (slug : string) : TCall (option (option (string * TenantRow)))
| InsertTenant (row : TenantRow) : TCall (option string)
| CreateSchema (name : string) : TCall bool
| MigrateTenant (slug : string) : TCall bool
| InsertOrigins (tenantId : string) (origins : list CompetitorOrigin) : TCall bool
| RandomPassword : TCall string
| HashPassword (plain : string) : TCall string
| InsertUser (slug email : string) (user : TenantUser) : TCall bool
| DropSchema (name : string) : TCall bool
| DeleteTenant (id : string) : TCall bool
| SaveTenant (id : string) (row : TenantRow) : TCall bool
| UpdateOrigins (tenantId : string) (updates : list CompetitorOriginUpdate) : TCall bool.

Abbreviation TProg := (Program TCall).

Definition query_failed : Exn := EError "query failed".
Definition confirmed (c : TCall bool) : TProg unit := ok ← stmt c; if (ok : bool) then mret () else p_throw query_failed.

Definition findOne (slug : string) : TProg (option (string * TenantRow)) :=
  r ← stmt (FindTenant slug); match r with Some t => mret t | None => p_throw query_failed end.

Definition new_tenant (dto : CreateTenantDto) : TenantRow :=
  {| tn_slug := cd_slug dto; tn_name := cd_name dto; tn_schemaName := schemaNameFor (cd_slug dto); tn_status := TENANT_ACTIVE;
     tn_modules := all_modules; tn_storeLimit := None; tn_deleted := false |}.

Definition runTenantMigration (slug : string) : TProg unit :=
  if SLUG_RE slug then confirmed (MigrateTenant slug)
  else p_throw (EError ("Invalid tenant slug for migration: " +:+ quoted slug)).

Definition admin_user (passwordHash : string) : TenantUser := {| tu_passwordHash := passwordHash; tu_role := "admin"; tu_status := "active" |}.

(** The part inside [try]. *)
Definition provision (dto : CreateTenantDto) (id : string) : TProg OnboardingResult :=
  let schemaName := schemaNameFor (cd_slug dto) in
  confirmed (CreateSchema schemaName);;
  runTenantMigration (cd_slug dto);;
  confirmed (InsertOrigins id all_origins);;
  oneTimePassword ← stmt RandomPassword;
  hash ← stmt (HashPassword oneTimePassword);
  confirmed (InsertUser (cd_slug dto) (cd_adminEmail dto) (admin_user hash));;
  mret {| on_slug := cd_slug dto; on_schemaName := schemaName; on_email := cd_adminEmail dto; on_oneTimePassword := oneTimePassword |}.

(** The cleanup, whose own failures are logged. *)
Definition undo {A} (dto : CreateTenantDto) (id : string) (err : Exn) : TProg A :=
  stmt (DropSchema (schemaNameFor (cd_slug dto)));;
  stmt (DeleteTenant id);;
  p_throw err.

Definition create_tenant (dto : CreateTenantDto) : TProg OnboardingResult :=
  if bool_decide (cd_slug dto ∈ RESERVED_SLUGS) then p_throw (EBadRequest ("slug " +:+ quoted (cd_slug dto) +:+ " is reserved"))
  else
    existing ← findOne (cd_slug dto);
    match existing with
    | Some _ => p_throw (EConflict ("Tenant " +:+ cd_slug dto +:+ " already exists"))
    | None =>
        tenant ← stmt (InsertTenant (new_tenant dto));
        match tenant with
        | Some id => p_catch (provision dto id) (undo dto id)
        | None => p_throw query_failed
        end
    end.

(** [TenantService.findBySlug] *)
Definition t_findBySlug (slug : string) : TProg (string * TenantRow) :=
  t ← findOne slug; match t with Some t => mret t | None => p_throw (ENotFound ("Tenant " +:+ slug +:+ " not found")) end.
Definition t_findActive (slug : string) : TProg (string * TenantRow) :=
  t ← t_findBySlug slug;
  if bool_decide (tn_status t.2 = TENANT_ACTIVE) then mret t else p_throw (ENotFound ("Tenant " +:+ slug +:+ " is not active")).

Definition set_tn (status : TenantStatus) (modules : list ModuleCode) (storeLimit : option Z) (deleted : bool) (t : TenantRow) : TenantRow :=
  Build_TenantRow (tn_slug t) (tn_name t) (tn_schemaName t) status modules storeLimit deleted.

Definition t_updateStatus (slug : string) (status : TenantStatus) : TProg unit :=
  '(id, t) ← t_findBySlug slug;
  confirmed (SaveTenant id (set_tn status (tn_modules t) (tn_storeLimit t) (tn_deleted t) t)).
Definition t_updateModules (slug : string) (modules : list ModuleCode) : TProg unit :=
  '(id, t) ← t_findBySlug slug;
  confirmed (SaveTenant id (set_tn (tn_status t) modules (tn_storeLimit t) (tn_deleted t) t)).
Definition t_updateStoreLimit (slug : string) (storeLimit : option Z) : TProg unit :=
  '(id, t) ← t_findBySlug slug;
  confirmed (SaveTenant id (set_tn (tn_status t) (tn_modules t) storeLimit (tn_deleted t) t)).
Definition t_softDelete (slug : string) : TProg unit :=
  found ← findOne slug;
  match found with
  | None => p_throw (ENotFound "Not Found")
  | Some (id, t) => confirmed (SaveTenant id (set_tn TENANT_SUSPENDED (tn_modules t) (tn_storeLimit t) true t))
  end.

Definition t_bulkUpdate (slug : string) (updates : list CompetitorOriginUpdate) : TProg unit :=
  t ← t_findActive slug; confirmed (UpdateOrigins t.1 updates).

(* ------------------------------------------------------------------ *)
(** * Meaning of the calls                                              *)
(* ------------------------------------------------------------------ *)

Definition with_tenants f (d : TenantsDb) : TenantsDb := Build_TenantsDb (f (td_tenants d)) (td_schemas d) (td_origins d) (td_users d) (td_ids d).
Definition with_schemas f (d : TenantsDb) : TenantsDb := Build_TenantsDb (td_tenants d) (f (td_schemas d)) (td_origins d) (td_users d) (td_ids d).
Definition with_origins f (d : TenantsDb) : TenantsDb := Build_TenantsDb (td_tenants d) (td_schemas d) (f (td_origins d)) (td_users d) (td_ids d).
Definition with_users f (d : TenantsDb) : TenantsDb := Build_TenantsDb (td_tenants d) (td_schemas d) (td_origins d) (f (td_users d)) (td_ids d).
Definition with_ids f (d : TenantsDb) : TenantsDb :=
  Build_TenantsDb (td_tenants d) (td_schemas d) (td_origins d) (td_users d) (f (td_ids d)).

(** The unique indexes on the slug and the schema name, which keep removed
    tenants too. *)
Definition clashes (id : string) (row : TenantRow) (x : string * TenantRow) : bool :=
  negb (String.eqb x.1 id) && (String.eqb (tn_slug x.2) (tn_slug row) || String.eqb (tn_schemaName x.2) (tn_schemaName row)).
Definition unique_row (id : string) (row : TenantRow) (d : TenantsDb) : bool :=
  forallb (λ x, negb (clashes id row x)) (map_to_list (td_tenants d)).

Definition new_origin : TenantOrigin := Build_TenantOrigin false 100 "{}" false.
(** [INSERT ... ON CONFLICT (tenant_id, origin) DO NOTHING] *)
Definition insert_origin (tenantId : string) (m : gmap (string * string) TenantOrigin) (o : CompetitorOrigin) :=
  match m !! (tenantId, origin_str o) with Some _ => m | None => <[(tenantId, origin_str o) := new_origin]> m end.

(** [UPDATE ... SET enabled, COALESCE(priority), COALESCE(config)] *)
Definition update_origin (u : CompetitorOriginUpdate) (r : TenantOrigin) : TenantOrigin :=
  if to_deleted r then r
  else Build_TenantOrigin (cu_enabled u) (default (to_priority r) (cu_priority u)) (default (to_config r) (cu_config u)) false.
Definition update_origins (tenantId : string) (updates : list CompetitorOriginUpdate) (m : gmap (string * string) TenantOrigin) :=
  foldl (λ m u, alter (update_origin u) (tenantId, origin_str (cu_origin u)) m) m updates.

(** What a call does when nothing goes wrong but what the tables refuse;
    [fresh] is the id, the password or the hash it chooses. *)
Definition t_act {A} (c : TCall A) (fresh : string) (d : TenantsDb) : A * TenantsDb :=
  match c in TCall A return A * TenantsDb with
  | FindTenant slug =>
      (Some (head (filter (λ x : string * TenantRow, tn_slug x.2 = slug ∧ tn_deleted x.2 = false) (map_to_list (td_tenants d)))), d)
  | InsertTenant row =>
      if unique_row fresh row d && bool_decide (td_ids d !! fresh = None)
      then (Some fresh, with_ids <[fresh := tn_slug row]> (with_tenants <[fresh := row]> d)) else (None, d)
  | CreateSchema name => (true, with_schemas (λ m, match m !! name with Some _ => m | None => <[name := false]> m end) d)
  | MigrateTenant slug =>
      match td_schemas d !! schemaNameFor slug with
      | Some _ => (true, with_schemas <[schemaNameFor slug := true]> d)
      | None => (false, d)
      end
  | InsertOrigins id origins =>
      match td_tenants d !! id with
      | Some _ => (true, with_origins (λ m, foldl (insert_origin id) m origins) d)
      | None => (false, d)
      end
  | RandomPassword | HashPassword _ => (fresh, d)
  | InsertUser slug email user =>
      match td_users d !! (slug, str_lower email) with
      | Some _ => (false, d)
      | None => (true, with_users <[(slug, str_lower email) := user]> d)
      end
  | DropSchema name => (true, with_schemas (delete name) d)
  | DeleteTenant id => (true, with_origins (filter (λ x, x.1.1 ≠ id)) (with_tenants (delete id) d))
  | SaveTenant id row =>
      if unique_row id row d then (true, with_tenants <[id := row]> d) else (false, d)
  | UpdateOrigins id updates => (true, with_origins (update_origins id updates) d)
  end.

(** The answer to a call that is rejected. *)
Definition rejection {A} (c : TCall A) : option A :=
  match c in TCall A return option A with
  | FindTenant _ => Some None | InsertTenant _ => Some None
  | RandomPassword | HashPassword _ => None
  | _ => Some false
  end.

Inductive TFate := T_ok | T_rejected | T_unconfirmed.

(** A call under a fate. *)
Definition t_call {A} (f : TFate) (c : TCall A) (fresh : string) (d : TenantsDb) : A * TenantsDb :=
  match f, rejection c with
  | T_rejected, Some a => (a, d)
  | T_unconfirmed, Some a => (a, (t_act c fresh d).2)
  | _, _ => t_act c fresh d
  end.

(** A request alone: the fates of its calls, [T_ok] after the last, and what
    they choose. *)
Fixpoint t_alone {R} (p : TProg R) (fates : list (TFate * string)) (d : TenantsDb) : Res R * TenantsDb :=
  match p with
  | Ret r => (r, d)
  | Vis c k =>
      let '(f, fresh) := default (T_ok, "") (head fates) in
      let r := t_call f c fresh d in t_alone (k r.1) (tail fates) r.2
  end.

(* ------------------------------------------------------------------ *)
(** * Interleavings                                                     *)
(* ------------------------------------------------------------------ *)

Inductive TRequest :=
| CreateTenant (dto : CreateTenantDto)
| UpdateStatus (slug : string) (status : TenantStatus)
| UpdateModules (slug : string) (modules : list ModuleCode)
| UpdateStoreLimit (slug : string) (storeLimit : option Z)
| SoftDelete (slug : string)
| BulkUpdate (slug : string) (updates : list CompetitorOriginUpdate).
Inductive TReply := Onboarded (r : OnboardingResult) | NoContent.

Definition t_handle (r : TRequest) : TProg TReply :=
  match r with
  | CreateTenant dto => r ← create_tenant dto; mret (Onboarded r)
  | UpdateStatus slug status => t_updateStatus slug status;; mret NoContent
  | UpdateModules slug modules => t_updateModules slug modules;; mret NoContent
  | UpdateStoreLimit slug limit => t_updateStoreLimit slug limit;; mret NoContent
  | SoftDelete slug => t_softDelete slug;; mret NoContent
  | BulkUpdate slug updates => t_bulkUpdate slug updates;; mret NoContent
  end.

Record TState := { ts_db : TenantsDb; ts_requests : gmap nat (TProg TReply) }.

(** The process may stop between two calls: its requests then never go on. *)
Inductive t_step (g : TState) : TState → Prop :=
| t_begin i r : ts_requests g !! i = None → t_step g (Build_TState (ts_db g) (<[i := t_handle r]> (ts_requests g)))
| t_calls i A (c : TCall A) k f fresh : ts_requests g !! i = Some (Vis c k) →
    t_step g (Build_TState (t_call f c fresh (ts_db g)).2 (<[i := k (t_call f c fresh (ts_db g)).1]> (ts_requests g))).
