(* ===== verification/TenantsLaws.v ===== *)
(** What the administration of tenants guarantees: a creation that fails
    once leaves nothing behind, but where the failure is not one; and over
    every interleaving a tenant that was created keeps its row, its migrated
    schema, its origins and its user, for no request touches another
    tenant's. *)

From Stdlib Require Import Ascii String.
From stdpp Require Import relations.
From S2P Require Import Prelude JsText Enums Programs Tenants.
Open Scope string_scope.
Open Scope list_scope.
Open Scope Z_scope.

(* ------------------------------------------------------------------ *)
(** * Schema names                                                      *)
(* ------------------------------------------------------------------ *)

Lemma slug_char_map_inj c1 c2 : slug_char c1 = true → slug_char c2 = true →
  (if Ascii.eqb c1 "-" then "_"%char else c1) = (if Ascii.eqb c2 "-" then "_"%char else c2) → c1 = c2.
Proof.
  destruct (Ascii.eqb_spec c1 "-") as [->|], (Ascii.eqb_spec c2 "-") as [->|]; try done; intros H1 H2 E; subst; by vm_compute in H1, H2.
Qed.

Lemma slug_chars slug : SLUG_RE slug = true → str_forall slug_char slug = true.
Proof.
  destruct slug as [|c rest]; [done|]. cbn. intros [[[Hc _]%andb_true_iff _]%andb_true_iff Hr]%andb_true_iff.
  rewrite Hr. unfold slug_char. by rewrite Hc.
Qed.

(** Tenants with different slugs have different schemas. *)
Lemma schemaNameFor_inj a b : SLUG_RE a = true → SLUG_RE b = true → schemaNameFor a = schemaNameFor b → a = b.
Proof.
  intros Ha%slug_chars Hb%slug_chars. unfold schemaNameFor.
  destruct (String.eqb_spec a "system") as [->|], (String.eqb_spec b "system") as [->|]; try done.
  intros E%str_app_inj_l. unfold str_replace_all in E. eapply str_map_inj in E; [exact E| |exact Ha|exact Hb].
  intros c1 c2. apply slug_char_map_inj.
Qed.

(* ------------------------------------------------------------------ *)
(** * One failure                                                       *)
(* ------------------------------------------------------------------ *)

(** What the eight calls of a creation choose. *)
Definition choices (id password hash : string) : list string := [""; id; ""; ""; ""; password; hash; ""].
Definition all_ok (cs : list string) : list (TFate * string) := (T_ok,.) <$> cs.
Definition fail_at (k : nat) (f : TFate) (cs : list string) : list (TFate * string) :=
  imap (λ j c, (if (j =? k)%nat then f else T_ok, c)) cs.

(** Nothing in the store is the tenant's yet. *)
Record vacant (dto : CreateTenantDto) (id : string) (d : TenantsDb) : Prop := {
  va_slug : SLUG_RE (cd_slug dto) = true;
  va_reserved : cd_slug dto ∉ RESERVED_SLUGS;
  va_tenant : ∀ i row, td_tenants d !! i = Some row → tn_slug row ≠ cd_slug dto ∧ tn_schemaName row ≠ schemaNameFor (cd_slug dto);
  va_id : td_tenants d !! id = None ∧ td_ids d !! id = None;
  va_schema : td_schemas d !! schemaNameFor (cd_slug dto) = None;
  va_origins : ∀ o, td_origins d !! (id, o) = None;
  va_user : td_users d !! (cd_slug dto, str_lower (cd_adminEmail dto)) = None;
}.

(** The store with the tenant. *)
Definition onboarded (dto : CreateTenantDto) (id hash : string) (d : TenantsDb) : TenantsDb :=
  {| td_tenants := <[id := new_tenant dto]> (td_tenants d);
     td_schemas := <[schemaNameFor (cd_slug dto) := true]> (td_schemas d);
     td_origins := foldl (insert_origin id) (td_origins d) all_origins;
     td_users := <[(cd_slug dto, str_lower (cd_adminEmail dto)) := admin_user hash]> (td_users d);
     td_ids := <[id := cd_slug dto]> (td_ids d) |}.

(** The same tables; an id that was drawn stays drawn. *)
Definition same_tables (d d' : TenantsDb) : Prop :=
  td_tenants d' = td_tenants d ∧ td_schemas d' = td_schemas d ∧ td_origins d' = td_origins d ∧ td_users d' = td_users d.

Lemma vacant_find dto id d : vacant dto id d →
  head (filter (λ x : string * TenantRow, tn_slug x.2 = cd_slug dto ∧ tn_deleted x.2 = false) (map_to_list (td_tenants d))) = None.
Proof.
  intros V. destruct (filter _ _) as [|[i row] l] eqn:E; [done|]. exfalso.
  assert ((i, row) ∈ (i, row) :: l) as Hin by by left. rewrite <- E in Hin.
  apply list_elem_of_filter in Hin as [[H _] Hin%elem_of_map_to_list]. by destruct (va_tenant _ _ _ V i row Hin).
Qed.

Lemma vacant_unique dto id d : vacant dto id d → unique_row id (new_tenant dto) d = true.
Proof.
  intros V. unfold unique_row. apply forallb_forall. intros [i row] Hin%list_elem_of_In%elem_of_map_to_list.
  destruct (va_tenant _ _ _ V i row Hin) as [H1 H2]. unfold clashes. cbn.
  rewrite (proj2 (String.eqb_neq _ _) H1), (proj2 (String.eqb_neq _ _) H2). by rewrite andb_false_r.
Qed.

Lemma insert_origins_others (id : string) (os : list CompetitorOrigin) m (key : string * string) : key.1 ≠ id → foldl (insert_origin id) m os !! key = m !! key.
Proof.
  intros Hk. revert m. induction os as [|o os IH]; intros m; [done|]. cbn. rewrite IH. unfold insert_origin.
  case_match; [done|]. apply lookup_insert_ne. intros <-. done.
Qed.

(** Removing the tenant removes the origins that were inserted. *)
Lemma origins_undone (id : string) (os : list CompetitorOrigin) (m : gmap (string * string) TenantOrigin) : (∀ o, m !! (id, o) = None) →
  filter (λ x, x.1.1 ≠ id) (foldl (insert_origin id) m os) = m.
Proof.
  intros Hm. apply map_eq. intros [i o]. destruct (decide (i = id)) as [->|n].
  - rewrite Hm. apply map_lookup_filter_None. right. intros x _ H. by apply H.
  - destruct (m !! (i, o)) as [x|] eqn:E.
    + apply map_lookup_filter_Some. split; [|done]. by rewrite insert_origins_others.
    + apply map_lookup_filter_None. left. by rewrite insert_origins_others.
Qed.

Lemma filter_origins_id (id : string) (m : gmap (string * string) TenantOrigin) : (∀ o, m !! (id, o) = None) → filter (λ x, x.1.1 ≠ id) m = m.
Proof. apply (origins_undone id []). Qed.

(** What the cleanup leaves. *)
Definition undone (dto : CreateTenantDto) (id : string) (d : TenantsDb) : TenantsDb :=
  with_origins (filter (λ x, x.1.1 ≠ id)) (with_tenants (delete id) (with_schemas (delete (schemaNameFor (cd_slug dto))) d)).

Lemma undo_alone {R} dto id err fates d : Forall (λ x, x.1 = T_ok) fates →
  t_alone (undo (A:=R) dto id err) fates d = (Throw err, undone dto id d).
Proof.
  intros H. destruct fates as [|[f1 x1] fates]; [done|]. apply Forall_cons in H as [E H]. cbn in E. subst f1.
  destruct fates as [|[f2 x2] fates]; [done|]. apply Forall_cons in H as [E _]. cbn in E. by subst f2.
Qed.

Lemma stmt_alone {A R} (c : TCall A) (k : A → TProg R) f x fs d :
  t_alone (a ← stmt c; k a) ((f, x) :: fs) d = t_alone (k (t_call f c x d).1) fs (t_call f c x d).2.
Proof. done. Qed.

Lemma catch_stmt_alone {A R} (c : TCall A) (k : A → TProg R) h f x fs d :
  t_alone (p_catch (a ← stmt c; k a) h) ((f, x) :: fs) d = t_alone (p_catch (k (t_call f c x d).1) h) fs (t_call f c x d).2.
Proof. done. Qed.

(** A step of the creation inside the [try]. *)
Lemma confirmed_alone {R} c (p : TProg R) h f x fs d :
  t_alone (p_catch (confirmed c;; p) h) ((f, x) :: fs) d =
  let r := t_call f c x d in if r.1 then t_alone (p_catch p h) fs r.2 else t_alone (h query_failed) fs r.2.
Proof. simpl. by destruct (t_call f c x d) as [[] d']. Qed.

(** The stages of a creation. *)
Definition st_row dto id d := with_ids <[id := cd_slug dto]> (with_tenants <[id := new_tenant dto]> d).
Definition st_schema dto id (b : bool) d := with_schemas <[schemaNameFor (cd_slug dto) := b]> (st_row dto id d).
Definition st_origins dto id d := with_origins (λ m, foldl (insert_origin id) m all_origins) (st_schema dto id true d).

Lemma st_row_undone dto id d : vacant dto id d → same_tables d (undone dto id (st_row dto id d)).
Proof.
  intros V. split_and!; try done.
  - apply delete_insert_id, V.
  - apply delete_id, V.
  - apply filter_origins_id, V.
Qed.
Lemma st_schema_undone dto id b d : vacant dto id d → same_tables d (undone dto id (st_schema dto id b d)).
Proof.
  intros V. split_and!; try done.
  - apply delete_insert_id, V.
  - apply delete_insert_id, V.
  - apply filter_origins_id, V.
Qed.
Lemma st_origins_undone dto id d : vacant dto id d → same_tables d (undone dto id (st_origins dto id d)).
Proof.
  intros V. split_and!; try done.
  - apply delete_insert_id, V.
  - apply delete_insert_id, V.
  - apply origins_undone, V.
Qed.

(** The calls of a creation, one after the other. *)
Section Calls.
Context (dto : CreateTenantDto) (id : string) (d : TenantsDb) (V : vacant dto id d).

Lemma call_find f x : (t_call f (FindTenant (cd_slug dto)) x d).2 = d ∧
  (t_call f (FindTenant (cd_slug dto)) x d).1 = match f with T_ok => Some None | _ => None end.
Proof. destruct f; (split; [done|]); cbn -[filter]; [|done|done]. by rewrite (vacant_find _ _ _ V). Qed.

Lemma act_insert : t_act (InsertTenant (new_tenant dto)) id d = (Some id, st_row dto id d).
Proof. cbn -[unique_row new_tenant]. rewrite (vacant_unique _ _ _ V), bool_decide_true; [done|apply V]. Qed.

Lemma act_schema x : t_act (CreateSchema (schemaNameFor (cd_slug dto))) x (st_row dto id d) = (true, st_schema dto id false d).
Proof. cbn -[schemaNameFor]. unfold with_schemas. cbn -[schemaNameFor]. rewrite (va_schema _ _ _ V). done. Qed.

Lemma act_migrate x : t_act (MigrateTenant (cd_slug dto)) x (st_schema dto id false d) = (true, st_schema dto id true d).
Proof.
  cbn -[schemaNameFor]. rewrite lookup_insert_eq. unfold st_schema, with_schemas. cbn -[schemaNameFor]. by rewrite insert_insert_eq.
Qed.

Lemma act_origins x : t_act (InsertOrigins id all_origins) x (st_schema dto id true d) = (true, st_origins dto id d).
Proof. cbn -[schemaNameFor new_tenant foldl all_origins]. by rewrite lookup_insert_eq. Qed.

Lemma act_user hash x :
  t_act (InsertUser (cd_slug dto) (cd_adminEmail dto) (admin_user hash)) x (st_origins dto id d) = (true, onboarded dto id hash d).
Proof. cbn -[schemaNameFor new_tenant foldl all_origins]. by rewrite (va_user _ _ _ V). Qed.
End Calls.


(** The answer of a call under its fate. *)
Ltac fated :=
  cbn zeta;
  lazymatch goal with
  | |- context [t_call T_ok ?c ?x ?d] => change (t_call T_ok c x d) with (t_act c x d)
  | |- context [t_call T_rejected (A:=bool) ?c ?x ?d] => change (t_call T_rejected c x d) with (false, d)
  | |- context [t_call T_unconfirmed (A:=bool) ?c ?x ?d] => change (t_call T_unconfirmed c x d) with (false, (t_act c x d).2)
  | |- context [t_call T_unconfirmed ?c ?x ?d] => change (t_call T_unconfirmed c x d) with (@None string, (t_act c x d).2)
  end.

Section Creation.
Context (dto : CreateTenantDto) (id password hash : string) (d : TenantsDb) (V : vacant dto id d).

Lemma create_reached (f0 f1 : TFate) fs :
  t_alone (create_tenant dto) ((f0, "") :: (f1, id) :: fs) d =
  match f0 with
  | T_ok =>
      match f1 with
      | T_ok => t_alone (p_catch (provision dto id) (undo dto id)) fs (st_row dto id d)
      | T_rejected => (Throw query_failed, d)
      | T_unconfirmed => (Throw query_failed, st_row dto id d)
      end
  | _ => (Throw query_failed, d)
  end.
Proof.
  unfold create_tenant. rewrite bool_decide_false by apply V.
  destruct f0; [|done|done].
  change (t_alone (existing ← findOne (cd_slug dto); _) ((T_ok, "") :: (f1, id) :: fs) d)
    with (t_alone
      (match (t_call T_ok (FindTenant (cd_slug dto)) "" d).1 with
       | Some (Some _) => p_throw (EConflict ("Tenant " +:+ cd_slug dto +:+ " already exists"))
       | Some None => tenant ← stmt (InsertTenant (new_tenant dto));
           match tenant with Some id => p_catch (provision dto id) (undo dto id) | None => p_throw query_failed end
       | None => p_throw query_failed end) ((f1, id) :: fs) d).
  rewrite (proj2 (call_find _ _ _ V T_ok "")), stmt_alone.
  destruct f1; [|done|]; fated; by rewrite (act_insert _ _ _ V).
Qed.

(** What comes after the schema. *)
Lemma provision_reached (f2 f3 f4 f7 : TFate) x2 x3 x4 x7 fs :
  t_alone (p_catch (provision dto id) (undo dto id)) ((f2, x2) :: (f3, x3) :: (f4, x4) :: (T_ok, password) :: (T_ok, hash) :: (f7, x7) :: fs) (st_row dto id d) =
  match f2, f3, f4, f7 with
  | T_ok, T_ok, T_ok, T_ok => (Ok (Build_OnboardingResult (cd_slug dto) (schemaNameFor (cd_slug dto)) (cd_adminEmail dto) password), onboarded dto id hash d)
  | T_ok, T_ok, T_ok, T_rejected => t_alone (undo dto id query_failed) fs (st_origins dto id d)
  | T_ok, T_ok, T_ok, T_unconfirmed => t_alone (undo dto id query_failed) fs (onboarded dto id hash d)
  | T_ok, T_ok, T_rejected, _ => t_alone (undo dto id query_failed) ((T_ok, password) :: (T_ok, hash) :: (f7, x7) :: fs) (st_schema dto id true d)
  | T_ok, T_ok, T_unconfirmed, _ => t_alone (undo dto id query_failed) ((T_ok, password) :: (T_ok, hash) :: (f7, x7) :: fs) (st_origins dto id d)
  | T_ok, T_rejected, _, _ => t_alone (undo dto id query_failed) ((f4, x4) :: (T_ok, password) :: (T_ok, hash) :: (f7, x7) :: fs) (st_schema dto id false d)
  | T_ok, T_unconfirmed, _, _ => t_alone (undo dto id query_failed) ((f4, x4) :: (T_ok, password) :: (T_ok, hash) :: (f7, x7) :: fs) (st_schema dto id true d)
  | T_rejected, _, _, _ => t_alone (undo dto id query_failed) ((f3, x3) :: (f4, x4) :: (T_ok, password) :: (T_ok, hash) :: (f7, x7) :: fs) (st_row dto id d)
  | T_unconfirmed, _, _, _ => t_alone (undo dto id query_failed) ((f3, x3) :: (f4, x4) :: (T_ok, password) :: (T_ok, hash) :: (f7, x7) :: fs) (st_schema dto id false d)
  end.
Proof.
  unfold provision. rewrite confirmed_alone.
  destruct f2; fated; rewrite ?(act_schema _ _ _ V); [|done|done]. cbn [fst snd].
  unfold runTenantMigration. rewrite (va_slug _ _ _ V), confirmed_alone.
  destruct f3; fated; rewrite ?act_migrate; [|done|done]. cbn [fst snd].
  rewrite confirmed_alone.
  destruct f4; fated; rewrite ?act_origins; [|done|done]. cbn [fst snd].
  rewrite 2!catch_stmt_alone. cbn [t_call rejection t_act fst snd].
  rewrite confirmed_alone. destruct f7; fated; by rewrite ?(act_user _ _ _ V).
Qed.
End Creation.

(** The store without what a failed creation drew is as vacant as before. *)
Lemma vacant_again dto id d d' : vacant dto id d → same_tables d d' → td_ids d' !! id = None → vacant dto id d'.
Proof. intros V (E1 & E2 & E3 & E4) Hid. split; rewrite ?E1, ?E2, ?E3, ?E4; try apply V; try done. split; [apply V|done]. Qed.

(** [C34] A tenant is created whole or not at all.  When every call succeeds
    the tenant has its row, a migrated schema, an origin of every kind,
    disabled, and its first user.  When one call is rejected, or takes effect
    without being confirmed, the request fails and the cleanup leaves the
    tables as they were, so that a retry finds the slug free; but for the two
    inserts whose confirmation is lost, of the tenant and of the user. *)
Theorem onboarding_all_or_nothing (dto : CreateTenantDto) (id password hash : string) (d : TenantsDb) : vacant dto id d →
  t_alone (create_tenant dto) (all_ok (choices id password hash)) d =
    (Ok (Build_OnboardingResult (cd_slug dto) (schemaNameFor (cd_slug dto)) (cd_adminEmail dto) password), onboarded dto id hash d) ∧
  (∀ k f, k ∈ [0; 1; 2; 3; 4; 7]%nat → f ≠ T_ok → f = T_rejected ∨ k ∉ [1; 7]%nat →
    ∃ d', t_alone (create_tenant dto) (fail_at k f (choices id password hash)) d = (Throw query_failed, d') ∧ same_tables d d' ∧
          ∀ id', vacant dto id' d → td_ids d' !! id' = None → vacant dto id' d').
Proof.
  intros V. split.
  { change (all_ok (choices id password hash)) with
      ((T_ok, "") :: (T_ok, id) :: (T_ok, "") :: (T_ok, "") :: (T_ok, "") :: (T_ok, password) :: (T_ok, hash) :: (T_ok, "") :: []).
    by rewrite (create_reached _ _ _ V), (provision_reached _ _ _ _ _ V). }
  intros k f Hk Hf Hor.
  assert (∃ d', t_alone (create_tenant dto) (fail_at k f (choices id password hash)) d = (Throw query_failed, d') ∧ same_tables d d')
    as (d' & E & Hs).
  2:{ exists d'. split_and!; [done..|]. intros id' V' Hid. by eapply vacant_again. }
  destruct f; [done| |];
    (repeat (apply elem_of_cons in Hk as [->|Hk]); [..|by apply elem_of_nil in Hk]);
    try (destruct Hor as [?|[]]; [done|by set_unfold; auto]);
    cbn [fail_at choices imap Nat.eqb compose];
    rewrite (create_reached _ _ _ V), ?(provision_reached _ _ _ _ _ V);
    try (by exists d);
    rewrite undo_alone by (repeat constructor); eexists; (split; [done|]);
    eauto using st_row_undone, st_schema_undone, st_origins_undone.
Qed.

Definition acme : CreateTenantDto := {| cd_slug := "acme-farma"; cd_name := "Acme"; cd_adminEmail := "Ana@acme.example" |}.
Definition no_tenants : TenantsDb := Build_TenantsDb ∅ ∅ ∅ ∅ ∅.

Lemma acme_vacant id : vacant acme id no_tenants.
Proof. split; try done. cbn. set_solver. Qed.

Lemma onboarding_all_or_nothing_witness :
  ∃ d', t_alone (create_tenant acme) (fail_at 3 T_unconfirmed (choices "t1" "secret" "#secret")) no_tenants = (Throw query_failed, d') ∧
        same_tables no_tenants d'.
Proof.
  destruct (proj2 (onboarding_all_or_nothing acme "t1" "secret" "#secret" no_tenants (acme_vacant "t1")) 3%nat T_unconfirmed)
    as (d' & E & Hs & _); [by right; right; right; left|done|right; intros H; vm_compute in H; inv H as [|? ? ? H']; inv H' as [|? ? ? H'']; inv H''|].
  by exists d'.
Defined.

(** The user whose insert took effect without being confirmed stays: the
    cleanup removes the schema and the tenant only, and every later creation
    of the same tenant fails on it. *)
Lemma unconfirmed_user_blocks :
  let d := (t_alone (create_tenant acme) (fail_at 7 T_unconfirmed (choices "t1" "secret" "#secret")) no_tenants).2 in
  td_users d !! ("acme-farma", "ana@acme.example") = Some (admin_user "#secret") ∧ td_tenants d = ∅ ∧
  (t_alone (create_tenant acme) (all_ok (choices "t2" "other" "#other")) d).1 = Throw query_failed.
Proof. split_and!; [vm_compute; reflexivity..]. Qed.

(** The tenant whose insert took effect without being confirmed stays too,
    active and without a schema: the insert is outside the [try], and a retry
    answers that the tenant exists. *)
Lemma unconfirmed_tenant_blocks :
  let d := (t_alone (create_tenant acme) (fail_at 1 T_unconfirmed (choices "t1" "secret" "#secret")) no_tenants).2 in
  (tn_status <$> td_tenants d !! "t1") = Some TENANT_ACTIVE ∧ td_schemas d = ∅ ∧
  (t_alone (create_tenant acme) (all_ok (choices "t2" "other" "#other")) d).1 = Throw (EConflict "Tenant acme-farma already exists").
Proof. split_and!; [vm_compute; reflexivity..]. Qed.

(* ------------------------------------------------------------------ *)
(** * Interleavings                                                     *)
(* ------------------------------------------------------------------ *)

(** What a request knows: the tenant it created and the parts of it that
    were confirmed, and the tenant it read last. *)
Record Facts := {
  f_own : option (string * TenantRow);
  f_migrated : bool;
  f_origins : bool;
  f_user : option (string * string * TenantUser);
  f_read : option (string * TenantRow);
}.
Definition no_facts : Facts := Build_Facts None false false None None.

Definition same_names (t t' : TenantRow) : Prop := tn_slug t' = tn_slug t ∧ tn_schemaName t' = tn_schemaName t.

Record holds (F : Facts) (d : TenantsDb) : Prop := {
  ho_own id row : f_own F = Some (id, row) → is_Some (td_ids d !! id) ∧ ∃ row', td_tenants d !! id = Some row' ∧ same_names row row';
  ho_migrated : f_migrated F = true → ∃ id row, f_own F = Some (id, row) ∧ td_schemas d !! tn_schemaName row = Some true;
  ho_origins : f_origins F = true → ∃ id row, f_own F = Some (id, row) ∧ ∀ o, o ∈ all_origins → is_Some (td_origins d !! (id, origin_str o));
  ho_user key user : f_user F = Some (key, user) → td_users d !! key = Some user;
  ho_read id t : f_read F = Some (id, t) → td_ids d !! id = Some (tn_slug t) ∧ tn_schemaName t = schemaNameFor (tn_slug t);
}.

(** What a request adds to its facts when a call answers. *)
Definition after {A} (F : Facts) (c : TCall A) : A → Facts :=
  match c in TCall A return A → Facts with
  | FindTenant _ => λ a, Build_Facts (f_own F) (f_migrated F) (f_origins F) (f_user F) (default None a)
  | InsertTenant row => λ a, match a with Some id => Build_Facts (Some (id, row)) false false (f_user F) (f_read F) | None => F end
  | MigrateTenant slug => λ a,
      if a && match f_own F with Some (_, row) => String.eqb (tn_schemaName row) (schemaNameFor slug) | None => false end
      then Build_Facts (f_own F) true (f_origins F) (f_user F) (f_read F) else F
  | InsertOrigins id os => λ a,
      if a && match f_own F with Some (id', _) => String.eqb id id' | None => false end && bool_decide (os = all_origins)
      then Build_Facts (f_own F) (f_migrated F) true (f_user F) (f_read F) else F
  | InsertUser slug email user => λ a,
      if a : bool then Build_Facts (f_own F) (f_migrated F) (f_origins F) (Some ((slug, str_lower email), user)) (f_read F) else F
  | DropSchema _ => λ _, Build_Facts (f_own F) false (f_origins F) (f_user F) (f_read F)
  | DeleteTenant _ => λ _, Build_Facts None false false (f_user F) (f_read F)
  | _ => λ _, F
  end.

(** What a request must know to make a call. *)
Definition may {A} (F : Facts) (c : TCall A) : Prop :=
  match c with
  | InsertTenant row => f_own F = None ∧ tn_schemaName row = schemaNameFor (tn_slug row)
  | DropSchema name => ∃ id row, f_own F = Some (id, row) ∧ name = tn_schemaName row
  | DeleteTenant id => ∃ row, f_own F = Some (id, row)
  | SaveTenant id row => ∃ t, f_read F = Some (id, t) ∧ same_names t row
  | _ => True
  end.

Definition answers (F : Facts) (r : Res TReply) : Prop :=
  match r with
  | Ok (Onboarded o) => ∃ id row hash,
      f_own F = Some (id, row) ∧ tn_slug row = on_slug o ∧ tn_schemaName row = on_schemaName o ∧ f_migrated F = true ∧ f_origins F = true ∧
      f_user F = Some ((on_slug o, str_lower (on_email o)), admin_user hash)
  | _ => True
  end.

Fixpoint follows (F : Facts) (p : TProg TReply) : Prop :=
  match p with
  | Ret r => answers F r
  | Vis c k => may F c ∧ ∀ a, follows (after F c a) (k a)
  end.

Lemma undo_follows dto id F : f_own F = Some (id, new_tenant dto) → ∀ e, follows F (r ← undo dto id e; mret (Onboarded r)).
Proof. intros E e. cbn. split; [by exists id, (new_tenant dto)|]. intros _. split; [by exists (new_tenant dto)|done]. Qed.

Lemma create_follows dto : follows no_facts (t_handle (CreateTenant dto)).
Proof.
  cbn [t_handle]. unfold create_tenant. destruct (bool_decide _); [done|].
  split; [done|]. intros [[t|]|]; [done| |done]. split; [done|]. intros [id|]; [|done].
  set (F := after _ _ _). assert (f_own F = Some (id, new_tenant dto)) as E by done. clearbody F.
  split; [done|]. intros []; [|by apply undo_follows].
  change (after F (CreateSchema (schemaNameFor (cd_slug dto))) true) with F.
  unfold runTenantMigration. destruct (SLUG_RE _); [|by apply (undo_follows dto id F E (EError _))].
  split; [done|]. intros []; [|by apply undo_follows].
  assert (f_migrated (after F (MigrateTenant (cd_slug dto)) true) = true) as E1.
  { unfold after. cbn [andb]. rewrite E. cbn [new_tenant tn_schemaName]. by rewrite String.eqb_refl. }
  assert (f_own (after F (MigrateTenant (cd_slug dto)) true) = Some (id, new_tenant dto)) as E0 by (unfold after; by case_match).
  clear E. set (F1 := after _ _ _) in *. clearbody F1.
  split; [done|]. intros []; [|by apply undo_follows].
  set (F2 := after _ _ _).
  assert (f_own F2 = Some (id, new_tenant dto)) as E2 by (unfold F2, after; by case_match).
  assert (f_migrated F2 = true) as E3 by (unfold F2, after; by case_match).
  assert (f_origins F2 = true) as E4.
  { unfold F2, after. cbn [andb]. by rewrite E0, String.eqb_refl, bool_decide_true. }
  clearbody F2. split; [done|]. intros password. split; [done|]. intros hash. split; [done|]. intros []; [|by apply undo_follows].
  exists id, (new_tenant dto), hash. done.
Qed.

Lemma requests_follow r : follows no_facts (t_handle r).
Proof.
  destruct r as [dto|slug st|slug ms|slug lim|slug|slug us]; [apply create_follows|..];
    (split; [done|]; intros [[[id t]|]|]; [|done..]).
  1-4: split; [by exists t|intros []; done].
  cbn. destruct (bool_decide _); [|done]. split; [done|]. intros []; done.
Qed.

(* ------------------------------------------------------------------ *)
(** ** The store                                                        *)
(* ------------------------------------------------------------------ *)

Record sound (d : TenantsDb) : Prop := {
  so_unique i j t u : td_tenants d !! i = Some t → td_tenants d !! j = Some u → i ≠ j →
    tn_slug t ≠ tn_slug u ∧ tn_schemaName t ≠ tn_schemaName u;
  so_ids i t : td_tenants d !! i = Some t → td_ids d !! i = Some (tn_slug t) ∧ tn_schemaName t = schemaNameFor (tn_slug t);
}.

Lemma unique_rows id row d i t : unique_row id row d = true → td_tenants d !! i = Some t → i ≠ id →
  tn_slug t ≠ tn_slug row ∧ tn_schemaName t ≠ tn_schemaName row.
Proof.
  unfold unique_row. rewrite forallb_forall. intros H Hi n.
  specialize (H (i, t) (proj1 (list_elem_of_In _ _) (proj2 (elem_of_map_to_list _ _ _) Hi))).
  unfold clashes in H. cbn in H. rewrite (proj2 (String.eqb_neq _ _) n) in H. cbn in H.
  apply negb_true_iff, orb_false_iff in H as [H1%String.eqb_neq H2%String.eqb_neq]. done.
Qed.

(** Writing a row that respects the indexes and the names of its id. *)
Lemma sound_insert id row d ids : sound d → unique_row id row d = true → tn_schemaName row = schemaNameFor (tn_slug row) →
  ids !! id = Some (tn_slug row) → (∀ i s, td_ids d !! i = Some s → ids !! i = Some s) →
  sound (Build_TenantsDb (<[id := row]> (td_tenants d)) (td_schemas d) (td_origins d) (td_users d) ids).
Proof.
  intros [Hu Hi] U N E Hids. split; cbn.
  - intros i j t u [[<- <-]|[n1 Ht]]%lookup_insert_Some [[<- <-]|[n2 Hu']]%lookup_insert_Some n; [done|..].
    + destruct (unique_rows _ _ _ _ _ U Hu' (not_eq_sym n2)). split; congruence.
    + by apply (unique_rows _ _ _ _ _ U Ht).
    + by eapply Hu.
  - intros i t [[<- <-]|[n1 Ht]]%lookup_insert_Some; [done|]. destruct (Hi _ _ Ht). auto.
Qed.

(** A call that is made with the facts it needs keeps the store sound. *)
Lemma act_sound {A} (c : TCall A) x d F : sound d → holds F d → may F c → sound (t_act c x d).2.
Proof.
  intros S H M. destruct c; cbn [t_act]; repeat case_match; try done; try (destruct S; by split).
  - apply andb_true_iff in H0 as [U Hx%bool_decide_eq_true_1]. destruct M as [_ M].
    apply (sound_insert x row d (<[x := tn_slug row]> (td_ids d))); [done..|apply lookup_insert_eq|].
    intros i s Hi. rewrite lookup_insert_ne; [done|]. congruence.
  - destruct S as [Hu Hi]. split; cbn.
    + intros i j t u [_ Ht]%lookup_delete_Some [_ Hj]%lookup_delete_Some. by eapply Hu.
    + intros i t [_ Ht]%lookup_delete_Some. by apply Hi.
  - destruct M as (t & Hr & M1 & M2). destruct (ho_read _ _ H _ _ Hr) as [E1 E2]. apply (sound_insert id row d (td_ids d)); [done..| | |done]; congruence.
Qed.

Lemma facts_mono F d d' : holds F d →
  (∀ id s, td_ids d !! id = Some s → td_ids d' !! id = Some s) →
  (∀ id row t, f_own F = Some (id, row) → td_tenants d !! id = Some t → ∃ t', td_tenants d' !! id = Some t' ∧ same_names t t') →
  (∀ id row, f_own F = Some (id, row) → f_migrated F = true →
     td_schemas d !! tn_schemaName row = Some true → td_schemas d' !! tn_schemaName row = Some true) →
  (∀ id row o, f_own F = Some (id, row) → is_Some (td_origins d !! (id, o)) → is_Some (td_origins d' !! (id, o))) →
  (∀ key u, td_users d !! key = Some u → td_users d' !! key = Some u) → holds F d'.
Proof.
  intros [H1 H2 H3 H4 H5] Hi Ht Hs Ho Hu. split.
  - intros id row E. destruct (H1 id row E) as ([s Es] & row' & Er & [N1 N2]). split; [eauto|].
    destruct (Ht id row row' E Er) as (t' & Et & [M1 M2]). exists t'. split; [done|]. split; congruence.
  - intros E. destruct (H2 E) as (id & row & ? & ?). eauto 6.
  - intros E. destruct (H3 E) as (id & row & ? & ?). exists id, row. eauto.
  - eauto.
  - intros id t E. destruct (H5 id t E). auto.
Qed.

Lemma insert_origin_keeps (id : string) (o : CompetitorOrigin) (m : gmap (string * string) TenantOrigin) key : is_Some (m !! key) → is_Some (insert_origin id m o !! key).
Proof. intros H. unfold insert_origin. case_match; [done|]. destruct (decide ((id, origin_str o) = key)) as [->|n]; [by rewrite lookup_insert_eq|by rewrite lookup_insert_ne]. Qed.
Lemma insert_origins_keep (id : string) (os : list CompetitorOrigin) (m : gmap (string * string) TenantOrigin) key : is_Some (m !! key) → is_Some (foldl (insert_origin id) m os !! key).
Proof. revert m. induction os as [|o os IH]; intros m H; [done|]. by apply IH, insert_origin_keeps. Qed.
Lemma insert_origins_all (id : string) (os : list CompetitorOrigin) (m : gmap (string * string) TenantOrigin) (o : CompetitorOrigin) : o ∈ os → is_Some (foldl (insert_origin id) m os !! (id, origin_str o)).
Proof.
  revert m. induction os as [|o' os IH]; intros m H; [by apply elem_of_nil in H|].
  apply elem_of_cons in H as [->|H]; [|by apply IH]. cbn. apply insert_origins_keep. unfold insert_origin.
  case_match; [by rewrite H|by rewrite lookup_insert_eq].
Qed.
Lemma update_origins_keep (id : string) (us : list CompetitorOriginUpdate) (m : gmap (string * string) TenantOrigin) key : is_Some (m !! key) → is_Some (update_origins id us m !! key).
Proof.
  unfold update_origins. revert m. induction us as [|u us IH]; intros m H; [done|]. apply IH. by rewrite lookup_alter_is_Some.
Qed.

(** A call made with the facts [F0] keeps the facts [F] of another owner, and
    of the same one but for what the cleanup removes. *)
Lemma act_keeps {A} (c : TCall A) x d F F0 : sound d → holds F d → holds F0 d → may F0 c →
  (∀ id row row0, f_own F = Some (id, row) → f_own F0 = Some (id, row0) →
     match c with DropSchema _ => f_migrated F = false | DeleteTenant _ => False | _ => True end) →
  holds F (t_act c x d).2.
Proof.
  intros S H H0 M C.
  assert (∀ id row t, f_own F = Some (id, row) → td_tenants d !! id = Some t → ∃ t', td_tenants d !! id = Some t' ∧ same_names t t') as Ht
    by (intros id row t _ E; by exists t).
  destruct c as [slug|row|name|slug|id os| |plain|slug email user|name|id|id row|id us]; cbn [t_act]; repeat case_match; try done;
    (apply (facts_mono F d); [done|..]; cbn; eauto 3).
  - intros id s E. rewrite lookup_insert_ne; [done|]. intros ->. apply andb_true_iff in H1 as [_ Hx%bool_decide_eq_true_1]. congruence.
  - intros id row0 t E Et. rewrite lookup_insert_ne; [by eauto|]. intros ->. apply andb_true_iff in H1 as [_ Hx%bool_decide_eq_true_1].
    destruct (ho_own _ _ H _ _ E) as [[s Es] _]. congruence.
  - intros id row E _ Es. case_match; [done|]. rewrite lookup_insert_ne; [done|congruence].
  - intros id row E _ Es. apply lookup_insert_Some. destruct (decide (schemaNameFor slug = tn_schemaName row)); auto.
  - intros. by apply insert_origins_keep.
  - intros key u E. rewrite lookup_insert_ne; [done|congruence].
  - intros id row E Em Es. destruct M as (id0 & row0 & E0 & ->). rewrite lookup_delete_ne; [done|]. intros Hn.
    destruct (decide (id = id0)) as [->|n]; [by rewrite (C _ _ _ E E0) in Em|].
    destruct (ho_own _ _ H _ _ E) as (_ & t & Et & _ & N1), (ho_own _ _ H0 _ _ E0) as (_ & t0 & Et0 & _ & N2).
    destruct (so_unique _ S _ _ _ _ Et Et0 n) as [_ []]. congruence.
  - intros id0 row t E Et. destruct M as (row0 & E0). rewrite lookup_delete_ne; [by eauto|]. intros ->. by apply (C _ _ _ E E0).
  - intros id0 row o E Ho. destruct M as (row0 & E0). destruct Ho as [v Ev]. exists v. apply map_lookup_filter_Some. split; [done|].
    cbn. intros ->. by apply (C _ _ _ E E0).
  - intros id0 row0 t E Et. destruct M as (t0 & Er & N1 & N2). destruct (decide (id0 = id)) as [->|n].
    + rewrite lookup_insert_eq. exists row. split; [done|]. destruct (ho_read _ _ H0 _ _ Er) as [E1 E2], (so_ids _ S _ _ Et) as [E3 E4].
      split; congruence.
    + rewrite lookup_insert_ne; [by eauto|done].
  - intros. by apply update_origins_keep.
Qed.

Lemma kept_holds {A} (c : TCall A) a d F : rejection c = Some a → holds F d → holds (after F c a) d.
Proof. intros R [H1 H2 H3 H4 H5]. destruct c; cbn in R; simplify_eq; try done; by split. Qed.

(** A call that is not answered leaves what was known before. *)
Lemma kept_act {A} (c : TCall A) a x d F : sound d → holds F d → may F c → rejection c = Some a → holds (after F c a) (t_act c x d).2.
Proof.
  intros S H M R. apply (act_keeps c x d _ F); [done|by apply kept_holds|done..|].
  intros id row row0. by destruct c; cbn in R; simplify_eq.
Qed.

Lemma act_after {A} (c : TCall A) x d F : sound d → holds F d → may F c → holds (after F c (t_act c x d).1) (t_act c x d).2.
Proof.
  intros S H M. destruct c as [slug|row|name|slug|id os| |plain|slug email user|name|id|id row|id us];
    try (by apply kept_act); try exact H.
  - cbn [t_act fst snd after]. destruct H as [H1 H2 H3 H4 H5]. split; try done. cbn -[filter]. intros id t E.
    destruct (filter _ _) as [|[i u] l] eqn:Ef; [done|]. cbn in E. injection E as -> ->.
    assert ((id, t) ∈ (id, t) :: l) as Hin by by left. rewrite <-Ef in Hin.
    apply list_elem_of_filter in Hin as [_ Hin%elem_of_map_to_list]. by apply S.
  - cbn [t_act]. case_match eqn:E; [|exact H]. apply andb_true_iff in E as [U Hx%bool_decide_eq_true_1].
    destruct M as [M0 M]. destruct H as [H1 H2 H3 H4 H5]. split; cbn.
    + intros id row' [= <- <-]. rewrite !lookup_insert_eq. split; [done|]. by exists row.
    + done.
    + done.
    + done.
    + intros id t Er. destruct (H5 id t Er) as [E1 E2]. split; [|done]. rewrite lookup_insert_ne; [done|congruence].
  - by apply (act_keeps _ x d F F).
  - pose proof (act_keeps (MigrateTenant slug) x d F F S H H M ltac:(done)) as H'. cbn [t_act] in *. case_match; [|exact H'].
    cbn [fst snd after andb] in *. destruct (f_own F) as [[id row]|] eqn:E; [|exact H']. destruct (String.eqb_spec (tn_schemaName row) (schemaNameFor slug)) as [e|n]; [|exact H'].
    destruct H' as [H1 H2 H3 H4 H5]. rewrite E in *. split; try done; cbn. intros _. exists id, row. by rewrite e, lookup_insert_eq.
  - pose proof (act_keeps (InsertOrigins id os) x d F F S H H M ltac:(done)) as H'. cbn [t_act] in *. case_match; [|exact H'].
    cbn [fst snd after andb] in *. destruct (f_own F) as [[id' row]|] eqn:E; [|exact H']. destruct (String.eqb_spec id id') as [<-|n]; [|exact H'].
    destruct (bool_decide_reflect (os = all_origins)) as [->|n]; [|exact H'].
    destruct H' as [H1 H2 H3 H4 H5]. rewrite E in *. split; try done; cbn. intros _. exists id, row. split; [done|]. intros o Ho. exact (insert_origins_all id all_origins (td_origins d) o Ho).
  - pose proof (act_keeps (InsertUser slug email user) x d F F S H H M ltac:(done)) as H'. cbn [t_act] in *. case_match; [exact H'|].
    cbn [fst snd after] in *. destruct H' as [H1 H2 H3 H4 H5]. split; try done; cbn. intros key u [= <- <-]. by rewrite lookup_insert_eq.
  - apply (act_keeps _ x d _ F); [done|exact (kept_holds (DropSchema name) false d F eq_refl H)|done|done|done].
  - apply (act_keeps _ x d _ F); [done|exact (kept_holds (DeleteTenant id) false d F eq_refl H)|done|done|]. by intros id' row row0.
  - by apply (act_keeps _ x d F F).
  - by apply (act_keeps _ x d F F).
Qed.

Lemma call_after {A} f (c : TCall A) x d F : sound d → holds F d → may F c → holds (after F c (t_call f c x d).1) (t_call f c x d).2.
Proof.
  intros S H M. unfold t_call. destruct f; [by apply act_after|..]; destruct (rejection c) eqn:R; try by apply act_after.
  - by apply kept_holds.
  - by apply kept_act.
Qed.

(* ------------------------------------------------------------------ *)
(** ** Every interleaving                                               *)
(* ------------------------------------------------------------------ *)

Definition apart (F G : Facts) : Prop := ∀ id row row', f_own F = Some (id, row) → f_own G ≠ Some (id, row').

Record tenants_inv (Fs : nat → Facts) (g : TState) : Prop := {
  ti_sound : sound (ts_db g);
  ti_holds i : holds (Fs i) (ts_db g);
  ti_apart i j : i ≠ j → apart (Fs i) (Fs j);
  ti_none i : ts_requests g !! i = None → Fs i = no_facts;
  ti_follows i p : ts_requests g !! i = Some p → follows (Fs i) p;
}.

(** The tenant a request owns after a call is the one it owned, or one whose
    id was never drawn. *)
Lemma own_after {A} f (c : TCall A) x d F id row :
  f_own (after F c (t_call f c x d).1) = Some (id, row) → f_own F = Some (id, row) ∨ td_ids d !! id = None.
Proof.
  destruct c as [slug|r|name|slug|k os| |plain|slug email user|name|k|k r|k us].
  2:{ destruct f; cbn -[unique_row]; [destruct (_ && _) eqn:E; cbn [fst f_own]; [|auto]|auto..].
      apply andb_true_iff in E as [_ E%bool_decide_eq_true_1]. intros [= <- <-]. auto. }
  all: destruct f; cbn -[filter unique_row]; repeat case_match; auto; try done.
Qed.

Lemma tenants_step Fs g g' : tenants_inv Fs g → t_step g g' → ∃ Fs', tenants_inv Fs' g'.
Proof.
  intros [S H Ha Hn Hf] St. destruct St as [i r Hi|i A c k f x Hi].
  - exists Fs. split; cbn; try done.
    + intros j [Hj _]%lookup_insert_None. by apply Hn.
    + intros j p [[<- <-]|[n Hj]]%lookup_insert_Some; [rewrite (Hn i Hi); apply requests_follow|by apply Hf].
  - destruct (Hf i _ Hi) as [M K]. exists (λ j, if decide (j = i) then after (Fs i) c (t_call f c x (ts_db g)).1 else Fs j).
    assert (∀ j, j ≠ i → apart (after (Fs i) c (t_call f c x (ts_db g)).1) (Fs j)) as Hap.
    { intros j n id row row' [E|E]%own_after Ej; [by eapply (Ha i j)|].
      destruct (ho_own _ _ (H j) _ _ Ej) as [[s Es] _]. congruence. }
    split; cbn.
    + unfold t_call. destruct f, (rejection c); try done; by apply act_sound with (Fs i).
    + intros j. destruct (decide (j = i)) as [->|n]; [by apply call_after|].
      unfold t_call. destruct f, (rejection c); try apply (H j);
        (apply (act_keeps c x (ts_db g) (Fs j) (Fs i)); [done|done|done|done|]; intros id row row0 E E0; exfalso; by eapply (Ha j i)).
    + intros j1 j2 n. repeat case_decide; subst; [done|by apply Hap| |by apply Ha].
      intros id row row' E1 E2. by eapply Hap.
    + intros j [Hj n]%lookup_insert_None. rewrite decide_False by done. by apply Hn.
    + intros j p [[<- <-]|[n Hj]]%lookup_insert_Some; [rewrite decide_True by done; apply K|]. rewrite decide_False by done. by apply Hf.
Qed.

Lemma tenants_start d : sound d → tenants_inv (λ _, no_facts) (Build_TState d ∅).
Proof. intros S. split; try done. Qed.

Lemma tenants_reach d g : sound d → rtc t_step (Build_TState d ∅) g → ∃ Fs, tenants_inv Fs g.
Proof.
  intros S R. assert (∃ Fs, tenants_inv Fs (Build_TState d ∅)) as I by (eexists; by apply tenants_start).
  induction R as [g|g1 g2 g3 St _ IH]; [done|]. destruct I as [Fs I]. apply IH. by eapply tenants_step.
Qed.

(** [C33] A tenant that was created stays.  Over every interleaving of
    requests, with calls rejected or unconfirmed and creations that never go
    on, when a creation has answered, then and ever after the tenant of that
    slug is one row, with that schema, which is migrated and no other
    tenant's; it has its origins, and its first user as it was created: no
    cleanup of another creation and no change of any tenant takes them. *)
Theorem onboarded_tenants_stay (d : TenantsDb) (g : TState) : sound d → rtc t_step (Build_TState d ∅) g →
  ∀ i o, ts_requests g !! i = Some (Ret (Ok (Onboarded o))) →
  ∃ id row hash, td_tenants (ts_db g) !! id = Some row ∧ tn_slug row = on_slug o ∧ tn_schemaName row = on_schemaName o ∧
    (∀ id' row', td_tenants (ts_db g) !! id' = Some row' → id' ≠ id → tn_slug row' ≠ on_slug o ∧ tn_schemaName row' ≠ on_schemaName o) ∧
    td_schemas (ts_db g) !! on_schemaName o = Some true ∧
    (∀ origin, origin ∈ all_origins → is_Some (td_origins (ts_db g) !! (id, origin_str origin))) ∧
    td_users (ts_db g) !! (on_slug o, str_lower (on_email o)) = Some (admin_user hash).
Proof.
  intros Sd R i o E. destruct (tenants_reach d g Sd R) as [Fs [S H _ _ Hf]].
  destruct (Hf i _ E) as (id & row & hash & E1 & E2 & E3 & E4 & E5 & E6).
  destruct (ho_own _ _ (H i) _ _ E1) as (_ & row' & Er & N1 & N2).
  destruct (ho_migrated _ _ (H i) E4) as (? & ? & Ea & Em), (ho_origins _ _ (H i) E5) as (? & ? & Eb & Eo). simplify_eq.
  exists id, row', hash. split_and!; [done|congruence|congruence| |congruence|done|].
  - intros id' t Et n. rewrite <-E2, <-E3, <-N1, <-N2. by apply (so_unique _ S id' id).
  - apply (ho_user _ _ (H i)). done.
Qed.

(** A request that runs alone, as steps. *)
Lemma tenant_alone_steps i p fates g : ts_requests g !! i = Some p →
  rtc t_step g (Build_TState (t_alone p fates (ts_db g)).2 (<[i := Ret (t_alone p fates (ts_db g)).1]> (ts_requests g))).
Proof.
  revert fates g. induction p as [r|A c k IH]; intros fates g Hi.
  - cbn. destruct g as [b rq]. cbn in *. by rewrite insert_id.
  - simpl. destruct (default (T_ok, "") (head fates)) as [f x]. eapply rtc_l; [by apply (t_calls g i A c k f x)|].
    etrans; [apply (IH (t_call f c x (ts_db g)).1 (tail fates)); apply lookup_insert_eq|]. cbn [ts_db ts_requests]. by rewrite insert_insert_eq.
Qed.

Lemma rtc_eq {A} (R : relation A) x y : x = y → rtc R x y.
Proof. by intros ->. Qed.

(** One creation, then one of another tenant that fails at its user. *)
Definition beta : CreateTenantDto := {| cd_slug := "beta"; cd_name := "Beta"; cd_adminEmail := "bia@beta.example" |}.
Definition acme_then_beta : TState :=
  let g1 := Build_TState (onboarded acme "t1" "#secret" no_tenants) {[0%nat := Ret (t_alone (t_handle (CreateTenant acme)) (all_ok (choices "t1" "secret" "#secret")) no_tenants).1]} in
  let r := t_alone (t_handle (CreateTenant beta)) (fail_at 7 T_rejected (choices "t2" "other" "#other")) (ts_db g1) in
  Build_TState r.2 (<[1%nat := Ret r.1]> (<[1%nat := t_handle (CreateTenant beta)]> (ts_requests g1))).

Lemma acme_then_beta_reached : rtc t_step (Build_TState no_tenants ∅) acme_then_beta.
Proof.
  eapply rtc_l; [by apply (t_begin _ 0%nat (CreateTenant acme))|].
  etrans; [apply (tenant_alone_steps 0%nat (t_handle (CreateTenant acme)) (all_ok (choices "t1" "secret" "#secret"))); apply lookup_insert_eq|].
  eapply rtc_l; [by apply (t_begin _ 1%nat (CreateTenant beta))|].
  etrans; [apply (tenant_alone_steps 1%nat (t_handle (CreateTenant beta)) (fail_at 7 T_rejected (choices "t2" "other" "#other"))); apply lookup_insert_eq|].
  apply rtc_eq. vm_compute. reflexivity.
Qed.

Lemma onboarded_tenants_stay_witness :
  sound no_tenants ∧ ∃ g o, rtc t_step (Build_TState no_tenants ∅) g ∧ ts_requests g !! 0%nat = Some (Ret (Ok (Onboarded o))) ∧
  (∃ id row, td_tenants (ts_db g) !! id = Some row ∧ tn_slug row = on_slug o) ∧ td_schemas (ts_db g) !! on_schemaName o = Some true.
Proof.
  assert (sound no_tenants) as S by (split; intros *; cbn; by rewrite lookup_empty).
  split; [exact S|].
  destruct (onboarded_tenants_stay no_tenants acme_then_beta S acme_then_beta_reached 0%nat
    (Build_OnboardingResult "acme-farma" "tenant_acme_farma" "Ana@acme.example" "secret") ltac:(vm_compute; reflexivity))
    as (id & row & hash & H1 & H2 & _ & _ & H5 & _).
  exists acme_then_beta, (Build_OnboardingResult "acme-farma" "tenant_acme_farma" "Ana@acme.example" "secret").
  split_and!; [exact acme_then_beta_reached|vm_compute; reflexivity|exists id, row; split; [exact H1|exact H2]|exact H5].
Defined.
