(* ===== verification/Scrapers.v ===== *)
(** The scrapers of the competitors ([scrapers/]): six VTEX storefronts that
    share one search, Drogal, Drogasil and Michelassi, as programs over HTTP
    calls whose answers are decoded JSON of the declared types, or a
    rejection.  Of the metadata of a product only what is read later is kept.

    A chunk of a page is its number of bytes and the text the decoder yields
    for it. *)

From Stdlib Require Import Ascii String.
From S2P Require Import Prelude JsText JsNumber Enums Programs Suggestions TenantCatalog.
Open Scope string_scope.
Open Scope list_scope.
Open Scope Z_scope.

(* ------------------------------------------------------------------ *)
(** * Text                                                              *)
(* ------------------------------------------------------------------ *)

Definition hex_digit (n : N) : ascii := ascii_of_N (if (n <? 10)%N then n + 48 else n + 55)%N.

(** The characters [encodeURIComponent] keeps. *)
Definition uri_kept (c : ascii) : bool :=
  is_lower c || is_upper c || is_digit c || existsb (Ascii.eqb c) ["-"; "_"; "."; "!"; "~"; "*"; "'"; "("; ")"]%char.
Fixpoint encodeURIComponent (s : string) : string :=
  match s with
  | EmptyString => ""
  | String c s =>
      (if uri_kept c then String c
       else λ s, String "%" (String (hex_digit (N_of_ascii c / 16)) (String (hex_digit (N_of_ascii c mod 16)) s)))
      (encodeURIComponent s)
  end.

Fixpoint str_drop (n : nat) (s : string) : string :=
  match n, s with
  | S n, String _ s => str_drop n s
  | _, _ => s
  end.

Definition NOT_QUOTE (c : ascii) : bool := negb (Ascii.eqb c "034").

(** [[^q]+q[^>]*>] for the quote q: the group. *)
Fixpoint quoted_then_close (s : string) : option string :=
  match s with
  | EmptyString => None
  | String c s => if NOT_QUOTE c then String c <$> quoted_then_close s else if str_includes ">" s then Some "" else None
  end.
Definition DATA_ITEM_ID : string := "data-item-id=" +:+ String "034" "".
(** [data-item-id=q([^q]+)q[^>]*>] at the start of the text. *)
Definition sku_here (s : string) : option string :=
  if String.prefix DATA_ITEM_ID s
  then sku ← quoted_then_close (str_drop (String.length DATA_ITEM_ID) s);
       truthy (Some sku)
  else None.
(** [[^>]*] as far as it goes, then back. *)
Fixpoint sku_in_tag (s : string) : option string :=
  match s with
  | EmptyString => None
  | String c r =>
      if Ascii.eqb c ">" then None
      else match sku_in_tag r with Some sku => Some sku | None => sku_here s end
  end.
Definition ARTICLE : string := "<article".
(** [SKU_PATTERN]: the group of the leftmost match. *)
Fixpoint SKU_PATTERN (s : string) : option string :=
  match s with
  | EmptyString => None
  | String _ r =>
      match (if String.prefix ARTICLE s then sku_in_tag (str_drop (String.length ARTICLE) s) else None) with
      | Some sku => Some sku
      | None => SKU_PATTERN r
      end
  end.

Definition MAX_CONTENT_BYTES : Z := 5 * 1024 * 1024.
Definition BUFFER_TAIL_BYTES : nat := N.to_nat (50 * 1024).

(** [buffer.slice(-n)] of a longer text. *)
Definition str_last (n : nat) (s : string) : string := str_drop (String.length s - n) s.

(** The loop; [chunks] is what [reader.read()] answers until it is done. *)
Fixpoint consumeForPattern (pattern : string → option string) (maxBytes : Z) (tail_bytes : nat)
    (chunks : list (Res (Z * string))) (buffer : string) (totalBytes : Z) : Res (option string) :=
  match chunks with
  | [] => Ok None
  | Throw e :: _ => Throw e
  | Ok (bytes, text) :: chunks =>
      let totalBytes := totalBytes + bytes in
      if maxBytes <? totalBytes then Ok None
      else
        let buffer := buffer +:+ text in
        match pattern buffer with
        | Some sku => Ok (Some sku)
        | None => consumeForPattern pattern maxBytes tail_bytes chunks (str_last tail_bytes buffer) totalBytes
        end
  end.

(* ------------------------------------------------------------------ *)
(** * What the sites answer                                             *)
(* ------------------------------------------------------------------ *)

Section Scrapers.
Context {N : Type} `{JsNum N}.
Abbreviation Scrape := (ScrapedProduct (N := N)).

Record VtexOffer := { vo_Price : option N }.
Record VtexRef := { vf_Key : option string; vf_Value : option string }.
(** [sellers]: the [commertialOffer] of each. *)
Record VtexCatalogItem := { vi_ean : option string; vi_sellers : option (list (option VtexOffer)); vi_referenceId : option (list VtexRef) }.
Record VtexCatalogProduct := {
  vp_productName : option string; vp_brand : option string; vp_productReferenceCode : option string; vp_items : option (list VtexCatalogItem);
}.

(** An entry of [CustomData]: a text that is no JSON or parses to [null], or
    JSON with [pbmPrice]. *)
Inductive CustomData := CD_text (raw : string) | CD_json (pbmPrice : option N).
Record DrogalProduct := {
  gp_productId : string; gp_productName : option string; gp_productReferenceCode : option string; gp_brand : option string;
  gp_items : option (list (option (list (option VtexOffer)))); gp_CustomData : option (list CustomData); gp_VAN : option (list string);
  gp_PBM : option (list string);
}.
Record DrogalMeasures := { gm_height : option N; gm_length : option N; gm_weight : option N; gm_width : option N }.
(** [skus]: the [measures] of each. *)
Record DrogalVariationsResponse := { gv_skus : option (list (option DrogalMeasures)) }.

(** [value]: the [label] of each. *)
Record DrogasilCustomAttribute := { sa_attribute_code : string; sa_value : option (list (option string)) }.
Record DrogasilPbmProduct := { sb_percentDiscountPbm : option N; sb_valueSalePbm : option N }.
Record DrogasilProductBySku := {
  sk_sku : option string; sk_name : option string; sk_price : option N; sk_weight : option N;
  sk_price_aux : option (option N);  (* [value_to] *)
  sk_pbm : list (option (list DrogasilPbmProduct));  (* the [products] of each block *)
  sk_livePrice : option (option string * option N);  (* [type], [valueTo] *)
  sk_custom_attributes : option (list DrogasilCustomAttribute);
}.
Record DrogasilProductResponse := { sr_productBySku : option DrogasilProductBySku; sr_errors : bool }.
(** An answer of [fetch]: its status, [ok] when it is 2xx. *)
Record Fetched (A : Type) := { ft_status : Z; ft_body : A }.
Arguments ft_status {A}. Arguments ft_body {A}.

Record MichelassiProduct := {
  mp_name : option string; mp_brand : option string; mp_min_price_valid : option N; mp_erp_internal_code : option string;
  mp_bar_codes : option (list string);
}.
Record MichelassiSearchResponse := { mr_data : option (list MichelassiProduct) }.

(** The calls, after the retries of the HTTP client. *)
Inductive SCall : Type → Type :=
| VtexSearch (url : string) : SCall (Res (option (list VtexCatalogProduct)))
| DrogalSearch (url : string) : SCall (Res (option (list DrogalProduct)))
| DrogalVariations (url : string) : SCall (Res (option DrogalVariationsResponse))
| DrogasilSearch (url : string) : SCall (Res (Fetched (option (list (Res (Z * string))))))
| DrogasilGraphql (sku : string) : SCall (Res (Fetched (Res (option DrogasilProductResponse))))
| MichelassiSearch (url : string) : SCall (Res (option MichelassiSearchResponse)).

Abbreviation SProg := (Program SCall).

Definition http {A} (c : SCall (Res A)) : SProg A := r ← stmt c; Ret r.

(** [toNumericString]; the column takes the text of the number. *)
Definition toNumericString (value : option N) : option N := v ← value; if n_finite v then Some v else None.

Definition not_found (ean : string) (origin : CompetitorOrigin) : Scrape :=
  {| sp_ean := ean; sp_origin := origin; sp_found := false; sp_name := None; sp_price := None; sp_supplier := None; sp_brand := None;
     sp_sku := None; sp_weight := None; sp_height := None; sp_length := None; sp_width := None; sp_isPbm := false; sp_van := None; sp_error := None |}.
Definition scrape_failed (ean : string) (origin : CompetitorOrigin) (err : Exn) : Scrape :=
  {| sp_ean := ean; sp_origin := origin; sp_found := false; sp_name := None; sp_price := None; sp_supplier := None; sp_brand := None;
     sp_sku := None; sp_weight := None; sp_height := None; sp_length := None; sp_width := None; sp_isPbm := false; sp_van := None;
     sp_error := Some (exn_message err) |}.

Fixpoint scrapeProductsSequential (scrapeProduct : string → SProg Scrape) (eans : list string) : SProg (list Scrape) :=
  match eans with
  | [] => mret []
  | ean :: eans => s ← scrapeProduct ean; scrapes ← scrapeProductsSequential scrapeProduct eans; mret (s :: scrapes)
  end.

(* ------------------------------------------------------------------ *)
(** * vtex-catalog-search.ts                                            *)
(* ------------------------------------------------------------------ *)

Definition buildMultiEanSearchUrl (catalogSearchBase : string) (eans : list string) : string :=
  let qs := str_join "&" ((λ ean, "fq=alternateIds_Ean:" +:+ encodeURIComponent ean) <$> eans) in
  let range := if (1 <? length eans)%nat then "&_from=0&_to=" +:+ pretty (Z.of_nat (length eans) - 1) else "" in
  catalogSearchBase +:+ "?" +:+ qs +:+ range.

Definition eansFromProduct (product : VtexCatalogProduct) : list string :=
  item ← default [] (vp_items product);
  option_list (truthy (vi_ean item)) ++
  omap (λ ref, if bool_decide (vf_Key ref = Some "EAN") then truthy (vf_Value ref) else None) (default [] (vi_referenceId item)).

Definition first_offer (sellers : option (list (option VtexOffer))) : option VtexOffer := ss ← sellers; s ← head ss; s.

Definition mapVtexProduct (ean : string) (p : VtexCatalogProduct) (origin : CompetitorOrigin) : Scrape :=
  match (item ← (vp_items p ≫= head); offer ← first_offer (vi_sellers item); Some (item, offer)) with
  | None => not_found ean origin
  | Some (item, offer) =>
      {| sp_ean := ean; sp_origin := origin; sp_found := true; sp_name := vp_productName p; sp_price := toNumericString (vo_Price offer);
         sp_supplier := None; sp_brand := vp_brand p;
         sp_sku := match vp_productReferenceCode p with
                   | Some code => Some code
                   | None => refs ← vi_referenceId item; r ← head (filter (λ r, vf_Key r = Some "RefId") refs); vf_Value r
                   end;
         sp_weight := None; sp_height := None; sp_length := None; sp_width := None; sp_isPbm := false; sp_van := None; sp_error := None |}
  end.

(** [eanToProduct]: the first product that lists an EAN keeps it. *)
Definition index_product (m : list (string * VtexCatalogProduct)) (product : VtexCatalogProduct) : list (string * VtexCatalogProduct) :=
  foldl (λ m ean, match js_map_get ean m with Some _ => m | None => js_map_set ean product m end) m (eansFromProduct product).

Definition mapVtexProductsToScrapes (requestedEans : list string) (products : list VtexCatalogProduct) (origin : CompetitorOrigin) : list Scrape :=
  let eanToProduct := foldl index_product [] products in
  let mapped := (λ ean, match js_map_get ean eanToProduct with
                        | None => not_found ean origin
                        | Some product => mapVtexProduct ean product origin
                        end) <$> requestedEans in
  match requestedEans, products with
  | [ean], [product] => match js_map_get ean eanToProduct with None => [mapVtexProduct ean product origin] | Some _ => mapped end
  | _, _ => mapped
  end.

Definition scrapeVtexCatalogProducts (catalogSearchBase : string) (eans : list string) (origin : CompetitorOrigin) : SProg (list Scrape) :=
  match eans with
  | [] => mret []
  | _ =>
      p_catch
        (data ← http (VtexSearch (buildMultiEanSearchUrl catalogSearchBase eans));
         mret (mapVtexProductsToScrapes eans (default [] data) origin))
        (λ err, mret ((λ ean, scrape_failed ean origin err) <$> eans))
  end.

(* ------------------------------------------------------------------ *)
(** * drogal.scraper.ts                                                 *)
(* ------------------------------------------------------------------ *)

Definition DROGAL_BASE_URL : string := "https://www.drogal.com.br".

(** [detectPbm]: [isPbm], [pbmPrice] in reais, [van]. *)
Definition drogal_detectPbm (product : DrogalProduct) : bool * N * option string :=
  let van := vs ← gp_VAN product; head vs in
  match omap (λ raw, match raw with
                     | CD_json (Some p) => if n_lt (n_int 0) p then Some p else None
                     | _ => None
                     end) (default [] (gp_CustomData product)) with
  | pbmPrice :: _ => (true, n_div pbmPrice (n_int 100), van)
  | [] => (match gp_PBM product with Some (_ :: _) => true | _ => false end, n_int 0, van)
  end.

Definition drogal_offer (product : DrogalProduct) : option VtexOffer :=
  items ← gp_items product; sellers ← head items; first_offer sellers.

Definition drogal_mapProduct (ean : string) (product : DrogalProduct) (measures : option DrogalMeasures) : Scrape :=
  match drogal_offer product with
  | None => not_found ean DROGAL
  | Some offer =>
      let '(isPbm, pbmPrice, van) := drogal_detectPbm product in
      let price := if isPbm && n_lt (n_int 0) pbmPrice then Some pbmPrice else vo_Price offer in
      {| sp_ean := ean; sp_origin := DROGAL; sp_found := true; sp_name := gp_productName product; sp_price := toNumericString price;
         sp_supplier := None; sp_brand := gp_brand product; sp_sku := gp_productReferenceCode product;
         sp_weight := toNumericString (measures ≫= gm_weight); sp_height := toNumericString (measures ≫= gm_height);
         sp_length := toNumericString (measures ≫= gm_length); sp_width := toNumericString (measures ≫= gm_width);
         sp_isPbm := isPbm; sp_van := van; sp_error := None |}
  end.

Definition drogal_fetchProductByEan (ean : string) : SProg (option DrogalProduct) :=
  data ← http (DrogalSearch (DROGAL_BASE_URL +:+ "/api/catalog_system/pub/products/search?fq=alternateIds_Ean:" +:+ ean));
  mret (data ≫= head).

Definition fetchMeasures (productId : string) : SProg (option DrogalMeasures) :=
  p_catch
    (data ← http (DrogalVariations (DROGAL_BASE_URL +:+ "/api/catalog_system/pub/products/variations/" +:+ productId));
     mret (r ← data; skus ← gv_skus r; m ← head skus; m))
    (λ _, mret None).

Definition drogal_scrapeProduct (ean : string) : SProg Scrape :=
  p_catch
    (product ← drogal_fetchProductByEan ean;
     match product with
     | None => mret (not_found ean DROGAL)
     | Some product =>
         measures ← (if String.eqb (gp_productId product) "" then mret None else fetchMeasures (gp_productId product));
         mret (drogal_mapProduct ean product measures)
     end)
    (λ err, mret (scrape_failed ean DROGAL err)).

(* ------------------------------------------------------------------ *)
(** * drogasil.scraper.ts                                               *)
(* ------------------------------------------------------------------ *)

Definition SEARCH_URL (ean : string) : string :=
  "https://www.drogasil.com.br/search?w=" +:+ ean +:+ "&facets=filters.Vendido+por%3ADrogasil&p=1".

Definition ft_ok {A} (res : Fetched A) : bool := (200 <=? ft_status res) && (ft_status res <=? 299).

Definition streamFindSku (ean : string) : SProg (option string) :=
  res ← http (DrogasilSearch (SEARCH_URL ean));
  if ft_ok res then
    match ft_body res with
    | None => mret None
    | Some body => Ret (consumeForPattern SKU_PATTERN MAX_CONTENT_BYTES BUFFER_TAIL_BYTES body "" 0)
    end
  else p_throw (EError ("search HTTP " +:+ pretty (ft_status res))).

(** The body is the JSON, or its reading that fails. *)
Definition fetchProductBySku (sku : string) : SProg (option DrogasilProductBySku) :=
  res ← http (DrogasilGraphql sku);
  if ft_ok res then
    data ← Ret (ft_body res);
    mret (d ← data; if sr_errors d then None else sr_productBySku d)
  else p_throw (EError ("product HTTP " +:+ pretty (ft_status res))).

Definition attrFor (attrs : list DrogasilCustomAttribute) (code : string) : option DrogasilCustomAttribute :=
  head (filter (λ a, sa_attribute_code a = code) attrs).
Definition labelOf (attr : option DrogasilCustomAttribute) : option string :=
  a ← attr; values ← sa_value a; v ← head values; v.

Definition drogasil_pbm_item (item : DrogasilPbmProduct) : bool :=
  n_lt (n_int 0) (default (n_int 0) (sb_percentDiscountPbm item)) || n_lt (n_int 0) (default (n_int 0) (sb_valueSalePbm item)).
(** [detectPbm]: [isPbm] and [pbmPrice]. *)
Definition drogasil_detectPbm (p : DrogasilProductBySku) : bool * N :=
  let blocks := match filter (λ item, drogasil_pbm_item item = true) (products ← sk_pbm p; default [] products) with
                | item :: _ => (true, default (n_int 0) (sb_valueSalePbm item))
                | [] => (false, n_int 0)
                end in
  match sk_livePrice p with
  | Some (type, valueTo) => if bool_decide (type = Some "PBM") then (true, default (n_int 0) valueTo) else blocks
  | None => blocks
  end.

Definition drogasil_mapProduct (ean : string) (p : DrogasilProductBySku) : Scrape :=
  let attrs := default [] (sk_custom_attributes p) in
  let basePrice := match sk_price_aux p with Some (Some v) => Some v | _ => sk_price p end in
  let '(isPbm, pbmPrice) := drogasil_detectPbm p in
  let finalPrice := if isPbm && n_lt (n_int 0) pbmPrice then Some pbmPrice else basePrice in
  {| sp_ean := ean; sp_origin := DROGASIL; sp_found := true; sp_name := sk_name p; sp_price := toNumericString finalPrice;
     sp_supplier := labelOf (attrFor attrs "fabricante"); sp_brand := labelOf (attrFor attrs "marca"); sp_sku := sk_sku p;
     sp_weight := toNumericString (sk_weight p); sp_height := None; sp_length := None; sp_width := None;
     sp_isPbm := isPbm; sp_van := None; sp_error := None |}.

Definition drogasil_scrapeProduct (ean : string) : SProg Scrape :=
  p_catch
    (sku ← streamFindSku ean;
     match truthy sku with
     | None => mret (not_found ean DROGASIL)
     | Some sku =>
         product ← fetchProductBySku sku;
         mret (match product with None => not_found ean DROGASIL | Some product => drogasil_mapProduct ean product end)
     end)
    (λ err, mret (scrape_failed ean DROGASIL err)).

(* ------------------------------------------------------------------ *)
(** * michelassi.scraper.ts                                             *)
(* ------------------------------------------------------------------ *)

Definition MICHELASSI_URL (ean : string) : string :=
  "https://api.instabuy.com.br/apiv3/search?subdomain=supermercadomichelassi&search=" +:+ ean +:+ "&page=1&N=30".

Definition michelassi_takes (ean : string) (p : MichelassiProduct) : bool :=
  match mp_bar_codes p with None => true | Some codes => bool_decide (ean ∈ codes) end.

Definition michelassi_fetchProductByEan (ean : string) : SProg (option MichelassiProduct) :=
  data ← http (MichelassiSearch (MICHELASSI_URL ean));
  mret (r ← data; ps ← mr_data r; head (filter (λ p, michelassi_takes ean p = true) ps)).

Definition michelassi_mapProduct (ean : string) (p : MichelassiProduct) : Scrape :=
  {| sp_ean := ean; sp_origin := MICHELASSI; sp_found := true; sp_name := mp_name p; sp_price := toNumericString (mp_min_price_valid p);
     sp_supplier := None; sp_brand := mp_brand p; sp_sku := mp_erp_internal_code p; sp_weight := None; sp_height := None;
     sp_length := None; sp_width := None; sp_isPbm := false; sp_van := None; sp_error := None |}.

Definition michelassi_scrapeProduct (ean : string) : SProg Scrape :=
  p_catch
    (product ← michelassi_fetchProductByEan ean;
     mret (match product with None => not_found ean MICHELASSI | Some p => michelassi_mapProduct ean p end))
    (λ err, mret (scrape_failed ean MICHELASSI err)).

(* ------------------------------------------------------------------ *)
(** * The scraper of an origin                                          *)
(* ------------------------------------------------------------------ *)

(** [CATALOG_SEARCH_BASE] of the VTEX storefronts. *)
Definition CATALOG_SEARCH_BASE (host : string) : string := "https://www." +:+ host +:+ "/api/catalog_system/pub/products/search".

(** [scraperFor], with the [scrapeProducts] of the scraper. *)
Definition scraperFor (origin : CompetitorOrigin) : list string → SProg (list Scrape) :=
  let vtex host eans := scrapeVtexCatalogProducts (CATALOG_SEARCH_BASE host) eans origin in
  match origin with
  | DROGAL => scrapeProductsSequential drogal_scrapeProduct
  | DROGASIL => scrapeProductsSequential drogasil_scrapeProduct
  | MICHELASSI => scrapeProductsSequential michelassi_scrapeProduct
  | PAGUE_MENOS => vtex "paguemenos.com.br"
  | IKESAKI => vtex "ikesaki.com.br"
  | PACHECO => vtex "drogariaspacheco.com.br"
  | SAO_PAULO => vtex "drogariasaopaulo.com.br"
  | VENANCIO => vtex "drogariavenancio.com.br"
  | INDIANA => vtex "farmaciaindiana.com.br"
  end.

(** What a program may end with, over all answers of the sites. *)
Fixpoint may_end {R} (p : SProg R) (r : Res R) : Prop :=
  match p with Ret r' => r' = r | Vis _ k => ∃ a, may_end (k a) r end.
End Scrapers.
