(* ===== verification/ScrapersLaws.v ===== *)
(** What the scrapers guarantee: whatever the sites answer, a sweep ends with
    one scrape per EAN it was asked for; the window over a page loses no tag;
    and a scrape that failed leaves what the store knew. *)

From Stdlib Require Import Ascii String.
From S2P Require Import Prelude JsText JsNumber Enums Programs Suggestions PricingDb PricingRuns TenantCatalog MetricsSteps Scrapers.
Open Scope string_scope.
Open Scope list_scope.
Open Scope Z_scope.

(* ------------------------------------------------------------------ *)
(** * Programs, whatever is answered                                    *)
(* ------------------------------------------------------------------ *)

Section Always.
Context {E : Type → Type}.

Fixpoint always {R} (Q : Res R → Prop) (p : Program E R) : Prop :=
  match p with Ret r => Q r | Vis _ k => ∀ a, always Q (k a) end.

Lemma always_mono {R} (Q Q' : Res R → Prop) p : always Q p → (∀ r, Q r → Q' r) → always Q' p.
Proof. intros Hp HQ. induction p as [r|A c k IH]; cbn in *; auto. Qed.

Lemma always_bind {R S} (Q : Res S → Prop) (p : Program E R) (f : R → Program E S) :
  always (λ r, match r with Ok x => always Q (f x) | Throw e => Q (Throw e) end) p → always Q (prog_bind p f).
Proof. induction p as [[x|e]|A c k IH]; cbn; auto. Qed.

Lemma always_catch {R} (Q : Res R → Prop) (p : Program E R) h :
  always (λ r, match r with Ok _ => Q r | Throw e => always Q (h e) end) p → always Q (p_catch p h).
Proof. induction p as [[x|e]|A c k IH]; cbn; auto. Qed.

(** Every program ends somehow. *)
Lemma always_True {R} (p : Program E R) : always (λ _, True) p.
Proof. induction p; cbn; auto. Qed.

(** The run of a program whose calls [h] answers. *)
Fixpoint run {R} (h : ∀ A, E A → A) (p : Program E R) : Res R := match p with Ret r => r | Vis c k => run h (k (h _ c)) end.

Lemma always_run {R} (Q : Res R → Prop) h (p : Program E R) : always Q p → Q (run h p).
Proof. induction p as [r|A c k IH]; cbn; auto. Qed.

Lemma run_prog_bind {R S} h (p : Program E R) (f : R → Program E S) :
  run h (prog_bind p f) = match run h p with Ok x => run h (f x) | Throw e => Throw e end.
Proof. induction p as [[x|e]|A c k IH]; cbn; auto. Qed.
Lemma run_bind {R S} h (p : Program E R) (f : R → Program E S) : run h (p ≫= f) = x ← run h p; run h (f x).
Proof. apply run_prog_bind. Qed.

Lemma run_catch {R} h (p : Program E R) f : run h (p_catch p f) = match run h p with Ok x => Ok x | Throw e => run h (f e) end.
Proof. induction p as [[x|e]|A c k IH]; cbn; auto. Qed.
End Always.

Lemma always_may_end {N} {R} (Q : Res R → Prop) (p : Program (SCall (N := N)) R) r : always Q p → may_end p r → Q r.
Proof. induction p as [r'|A c k IH]; cbn; [by intros H ->|]. intros H [a Ha]. by eapply IH. Qed.

(* ------------------------------------------------------------------ *)
(** * The window over a page                                            *)
(* ------------------------------------------------------------------ *)

Lemma str_app_length_drop a s : str_drop (String.length a) (a +:+ s) = s.
Proof. induction a as [|c a IH]; [by destruct s|exact IH]. Qed.

Lemma str_drop_split n s : ∃ x, s = x +:+ str_drop n s ∧ String.length (str_drop n s) = (String.length s - n)%nat.
Proof.
  revert s. induction n as [|n IH]; intros s; [exists ""; split; [by destruct s|destruct s; cbn; lia]|].
  destruct s as [|c s]; [by exists ""|]. destruct (IH s) as (x & E & L). exists (String c x). split; [|exact L]. rewrite str_app_cons. f_equal. exact E.
Qed.

Lemma str_split_at x y a z : x +:+ y = a +:+ z → (String.length x ≤ String.length a)%nat → ∃ a', a = x +:+ a' ∧ y = a' +:+ z.
Proof.
  revert a. induction x as [|c x IH]; intros a E L; [by exists a|]. destruct a as [|c' a]; cbn in L; [lia|].
  rewrite !str_app_cons in E. injection E as -> E. destruct (IH a E) as (a' & -> & ->); [lia|]. by exists a'.
Qed.

Lemma prefix_app p s b : String.prefix p s = true → String.prefix p (s +:+ b) = true.
Proof.
  revert s. induction p as [|c p IH]; intros s; [by destruct (s +:+ b)|]. destruct s as [|c' s]; [done|].
  rewrite str_app_cons. cbn [String.prefix]. destruct (ascii_dec c c'); [apply IH|done].
Qed.

Lemma prefix_drop_app p s b : String.prefix p s = true → str_drop (String.length p) (s +:+ b) = str_drop (String.length p) s +:+ b.
Proof.
  revert s. induction p as [|c p IH]; intros s; [by destruct s, b|]. destruct s as [|c' s]; [done|].
  rewrite str_app_cons. cbn [String.prefix String.length str_drop]. destruct (ascii_dec c c'); [apply IH|done].
Qed.

Lemma includes_app p s b : str_includes p s = true → str_includes p (s +:+ b) = true.
Proof.
  induction s as [|c s IH].
  - cbn. destruct p; [|done]. intros _. by destruct b.
  - rewrite str_app_cons. cbn [str_includes]. intros [H|H]%orb_true_iff; apply orb_true_iff; [left; exact (prefix_app p (String c s) b H)|right; auto].
Qed.

Lemma quoted_app s b sku : quoted_then_close s = Some sku → quoted_then_close (s +:+ b) = Some sku.
Proof.
  revert sku. induction s as [|c s IH]; intros sku; [done|]. rewrite str_app_cons. cbn. destruct (NOT_QUOTE c).
  - destruct (quoted_then_close s) eqn:E; [|done]. intros [= <-]. by rewrite (IH _ eq_refl).
  - destruct (str_includes ">" s) eqn:E; [|done]. by rewrite (includes_app _ _ _ E).
Qed.

Lemma sku_here_app s b : is_Some (sku_here s) → is_Some (sku_here (s +:+ b)).
Proof.
  unfold sku_here. destruct (String.prefix DATA_ITEM_ID s) eqn:E; [|by intros []]. rewrite (prefix_app _ _ _ E), (prefix_drop_app _ _ _ E).
  destruct (quoted_then_close (str_drop (String.length DATA_ITEM_ID) s)) eqn:Q; [|by intros []].
  by rewrite (quoted_app _ _ _ Q).
Qed.

Lemma sku_in_tag_app s b : is_Some (sku_in_tag s) → is_Some (sku_in_tag (s +:+ b)).
Proof.
  induction s as [|c s IH]; [by intros []|]. rewrite str_app_cons. cbn [sku_in_tag]. destruct (Ascii.eqb c ">"); [by intros []|].
  destruct (sku_in_tag s) eqn:E.
  - intros _. destruct IH as [x ->]; [done|]. done.
  - intros H%(sku_here_app _ b). rewrite str_app_cons in H. by destruct (sku_in_tag (s +:+ b)).
Qed.

Lemma sku_app s b : is_Some (SKU_PATTERN s) → is_Some (SKU_PATTERN (s +:+ b)).
Proof.
  induction s as [|c s IH]; [by intros []|]. rewrite str_app_cons. cbn [SKU_PATTERN]. rewrite <- str_app_cons.
  destruct (String.prefix ARTICLE (String c s)) eqn:E.
  - rewrite (prefix_app _ _ _ E), (prefix_drop_app _ _ _ E). destruct (sku_in_tag (str_drop (String.length ARTICLE) (String c s))) eqn:T.
    + intros _. destruct (sku_in_tag_app _ b (mk_is_Some _ _ T)) as [x ->]. done.
    + intros H%IH. by case_match.
  - intros H%IH. by case_match.
Qed.

Lemma sku_pre a s : is_Some (SKU_PATTERN s) → is_Some (SKU_PATTERN (a +:+ s)).
Proof. intros H. induction a as [|c a IH]; [done|]. rewrite str_app_cons. cbn [SKU_PATTERN]. by case_match. Qed.

(** The text of a page. *)
Definition page_text (chunks : list (Z * string)) : string := foldr (λ c s, c.2 +:+ s) "" chunks.
Definition page_bytes (chunks : list (Z * string)) : Z := foldr (λ c n, c.1 + n) 0 chunks.

(** Nothing that the window could hold has matched in the text so far. *)
Definition unmatched (n : nat) (pre : string) : Prop :=
  ∀ a m b, pre = a +:+ m +:+ b → is_Some (SKU_PATTERN m) → (String.length m ≤ n)%nat → False.

Lemma window_step n pre x buffer text : pre = x +:+ buffer → x = "" ∨ (n ≤ String.length buffer)%nat → unmatched n pre →
  SKU_PATTERN (buffer +:+ text) = None → unmatched n (pre +:+ text).
Proof.
  intros -> Hx Hpre Hn a m b E Hm Lm.
  assert (String.length (x +:+ buffer +:+ text) = String.length (a +:+ m +:+ b)) as L by (rewrite <- E; by rewrite str_app_assoc).
  rewrite !str_length_app in L.
  destruct (decide (String.length text ≤ String.length b)%nat) as [H|H].
  - destruct (str_split_at (a +:+ m) b (x +:+ buffer) text) as (b' & E1 & _); [by rewrite <- str_app_assoc| |].
    { rewrite !str_length_app. lia. }
    apply (Hpre a m b'); [|done..]. by rewrite E1, str_app_assoc.
  - destruct (str_split_at x (buffer +:+ text) a (m +:+ b)) as (a' & _ & E1); [by rewrite str_app_assoc| |].
    { destruct Hx as [->|Hx]; cbn; lia. }
    assert (is_Some (SKU_PATTERN (buffer +:+ text))) as [y Hy] by (rewrite E1; by apply sku_pre, sku_app). congruence.
Qed.

Lemma str_last_spec n s : ∃ x, s = x +:+ str_last n s ∧ (x = "" ∨ (n ≤ String.length (str_last n s))%nat).
Proof.
  unfold str_last. destruct (str_drop_split (String.length s - n) s) as (x & E & L). exists x. split; [done|].
  destruct (decide (n ≤ String.length s)%nat); [right; lia|left].
  assert (String.length s = String.length (x +:+ str_drop (String.length s - n) s)) as L' by (by rewrite <- E).
  rewrite str_length_app in L'. destruct x; [done|cbn in L'; lia].
Qed.

Lemma consume_sound pattern maxB n chunks pre x buffer total sku : pre = x +:+ buffer →
  consumeForPattern pattern maxB n (Ok <$> chunks) buffer total = Ok (Some sku) →
  ∃ a m b, pre +:+ page_text chunks = a +:+ m +:+ b ∧ pattern m = Some sku.
Proof.
  revert pre x buffer total. induction chunks as [|[bytes text] chunks IH]; intros pre x buffer total E; [done|].
  cbn [fmap list_fmap consumeForPattern page_text foldr snd]. case_match; [done|]. destruct (pattern (buffer +:+ text)) as [y|] eqn:Ep.
  - intros [= <-]. exists x, (buffer +:+ text), (page_text chunks). split; [|done]. subst pre. by rewrite !str_app_assoc.
  - intros H'. destruct (str_last_spec n (buffer +:+ text)) as (z & Ez & _).
    destruct (IH (pre +:+ text) (x +:+ z) (str_last n (buffer +:+ text)) (total + bytes)) as (a & m & b & Ea & Hm); [|exact H'|].
    { rewrite <- str_app_assoc, <- Ez, E. by rewrite str_app_assoc. }
    exists a, m, b. split; [|done]. rewrite <- Ea. by rewrite <- str_app_assoc.
Qed.

Lemma consume_complete maxB n chunks pre x buffer total : pre = x +:+ buffer → x = "" ∨ (n ≤ String.length buffer)%nat →
  unmatched n pre → Forall (λ c, 0 <= c.1) chunks → total + page_bytes chunks <= maxB →
  consumeForPattern SKU_PATTERN maxB n (Ok <$> chunks) buffer total = Ok None → unmatched n (pre +:+ page_text chunks).
Proof.
  revert pre x buffer total. induction chunks as [|[bytes text] chunks IH]; intros pre x buffer total E Hx Hpre Hb Hmax.
  { intros _. cbn. by rewrite str_app_nil_r. }
  apply Forall_cons in Hb as [Hb0 Hb]. cbn in Hb0. change (page_bytes ((bytes, text) :: chunks)) with (bytes + page_bytes chunks) in Hmax.
  assert (0 <= page_bytes chunks) as Hp by (clear - Hb; unfold page_bytes; induction Hb; cbn in *; lia).
  cbn [fmap list_fmap consumeForPattern]. destruct (Z.ltb_spec maxB (total + bytes)); [lia|].
  destruct (SKU_PATTERN (buffer +:+ text)) as [y|] eqn:Ep; [done|]. intros H'.
  destruct (str_last_spec n (buffer +:+ text)) as (z & Ez & Hz).
  change (page_text ((bytes, text) :: chunks)) with (text +:+ page_text chunks). rewrite str_app_assoc.
  apply (IH (pre +:+ text) (x +:+ z) (str_last n (buffer +:+ text)) (total + bytes)); [| | |done|lia|exact H'].
  - rewrite <- str_app_assoc, <- Ez, E. by rewrite str_app_assoc.
  - destruct Hz as [->|Hz]; [|by right]. destruct Hx as [->|Hx]; [by left|]. right.
    assert (str_last n (buffer +:+ text) = buffer +:+ text) as -> by (symmetry; exact Ez). rewrite str_length_app. lia.
  - by eapply window_step.
Qed.

Lemma consume_ok pattern maxB n chunks buffer total : ∃ r, consumeForPattern pattern maxB n (Ok <$> chunks) buffer total = Ok r.
Proof.
  revert buffer total. induction chunks as [|[bytes text] chunks IH]; intros buffer total; [by eexists|]. cbn [fmap list_fmap consumeForPattern].
  repeat case_match; eauto.
Qed.

(** [C38] Reading a page in chunks through the sliding window finds a product
    whenever the page has one: if the page stays within the byte cap and any
    part of it of at most 50 KiB matches the pattern, wherever the chunks cut
    it, the loop answers a SKU; and a SKU it answers is that of a match in
    the page. *)
Theorem window_finds_sku (chunks : list (Z * string)) : Forall (λ c, 0 <= c.1) chunks → page_bytes chunks <= MAX_CONTENT_BYTES →
  ∃ r, consumeForPattern SKU_PATTERN MAX_CONTENT_BYTES BUFFER_TAIL_BYTES (Ok <$> chunks) "" 0 = Ok r ∧
  ((∃ a m b, page_text chunks = a +:+ m +:+ b ∧ is_Some (SKU_PATTERN m) ∧ (String.length m ≤ BUFFER_TAIL_BYTES)%nat) → is_Some r) ∧
  (∀ sku, r = Some sku → ∃ a m b, page_text chunks = a +:+ m +:+ b ∧ SKU_PATTERN m = Some sku).
Proof.
  intros Hb Hmax. destruct (consume_ok SKU_PATTERN MAX_CONTENT_BYTES BUFFER_TAIL_BYTES chunks "" 0) as [r E].
  exists r. split_and!; [done| |].
  - intros (a & m & b & Ep & Hm & Lm). destruct r as [sku|]; [done|]. exfalso.
    assert (unmatched BUFFER_TAIL_BYTES "") as H0.
    { intros a' m' b' E' [y Hy] _. destruct a'; [|done]. by destruct m'. }
    exact (consume_complete _ _ chunks "" "" "" 0 eq_refl (or_introl eq_refl) H0 Hb Hmax E a m b Ep Hm Lm).
  - intros sku ->. by apply (consume_sound SKU_PATTERN MAX_CONTENT_BYTES BUFFER_TAIL_BYTES chunks "" "" "" 0 sku eq_refl) in E.
Qed.

(** [<article data-item-id=q..q>] for the quote q. *)
Definition article (sku : string) : string := "<article data-item-id=" +:+ String "034" (sku +:+ String "034" ">").

(** The tag cut in the middle of its attribute. *)
Lemma window_finds_sku_witness :
  let chunks := [(25, "<html><article data-item-"); (10, "id=" +:+ String "034" ("42" +:+ String "034" "></html>"))] in
  ∃ sku, consumeForPattern SKU_PATTERN MAX_CONTENT_BYTES BUFFER_TAIL_BYTES (Ok <$> chunks) "" 0 = Ok (Some sku).
Proof.
  intros chunks. destruct (window_finds_sku chunks) as (r & E & Hr & _); [by repeat constructor|done|].
  assert (is_Some r) as [sku ->]; [|by exists sku].
  apply Hr. exists "<html>", (article "42"), "</html>". split_and!; [reflexivity|by eexists; vm_compute|].
  apply Nat.leb_le. vm_compute. reflexivity.
Defined.

(** A page beyond the byte cap ends without a SKU, like one without a match. *)
Lemma long_page_without_sku :
  let chunks := [(MAX_CONTENT_BYTES + 1, article "42")] in
  is_Some (SKU_PATTERN (page_text chunks)) ∧
  consumeForPattern SKU_PATTERN MAX_CONTENT_BYTES BUFFER_TAIL_BYTES (Ok <$> chunks) "" 0 = Ok None.
Proof. split; [by eexists|reflexivity]. Qed.

(* ------------------------------------------------------------------ *)
(** * A sweep                                                           *)
(* ------------------------------------------------------------------ *)

Section Sweep.
Context {N : Type} `{JsNum N}.
Abbreviation Scrape := (ScrapedProduct (N := N)).

(** The scrape of an EAN: its own key, a price only when found and then
    finite, found only without an error. *)
Record scrape_of (origin : CompetitorOrigin) (ean : string) (p : Scrape) : Prop := {
  so_ean : sp_ean p = ean;
  so_origin : sp_origin p = origin;
  so_price x : sp_price p = Some x → sp_found p = true ∧ n_finite x = true;
  so_error : is_Some (sp_error p) → sp_found p = false;
}.

Lemma numeric_finite (v : option N) x : toNumericString v = Some x → n_finite x = true.
Proof. destruct v as [v|]; cbn; [|done]. destruct (n_finite v) eqn:E; [|done]. by intros [= <-]. Qed.

Lemma not_found_of o ean : scrape_of o ean (not_found ean o).
Proof. by split. Qed.
Lemma failed_of o ean e : scrape_of o ean (scrape_failed ean o e).
Proof. by split. Qed.
Lemma found_of o ean p price : sp_ean p = ean → sp_origin p = o → sp_found p = true → sp_error p = None → sp_price p = toNumericString price →
  scrape_of o ean p.
Proof. intros E1 E2 E3 E4 E5. split; [done|done| |rewrite E4; by intros []]. rewrite E5. by intros x ?%numeric_finite. Qed.

Lemma vtex_of o ean p : scrape_of o ean (mapVtexProduct ean p o).
Proof. unfold mapVtexProduct. destruct (_ ≫= _) as [[item offer]|]; [by eapply found_of|apply not_found_of]. Qed.
Lemma drogal_of ean p m : scrape_of DROGAL ean (drogal_mapProduct ean p m).
Proof. unfold drogal_mapProduct. case_match; [|apply not_found_of]. destruct (drogal_detectPbm p) as [[isPbm pbmPrice] van]. by eapply found_of. Qed.
Lemma drogasil_of ean p : scrape_of DROGASIL ean (drogasil_mapProduct ean p).
Proof. unfold drogasil_mapProduct. destruct (drogasil_detectPbm p) as [isPbm pbmPrice]. by eapply found_of. Qed.
Lemma michelassi_of ean p : scrape_of MICHELASSI ean (michelassi_mapProduct ean p).
Proof. by eapply found_of. Qed.

Definition scraped (o : CompetitorOrigin) (ean : string) (r : Res Scrape) : Prop := ∃ p, r = Ok p ∧ scrape_of o ean p.
Definition all_scraped (o : CompetitorOrigin) (eans : list string) (r : Res (list Scrape)) : Prop :=
  ∃ ps, r = Ok ps ∧ Forall2 (scrape_of o) eans ps.

(** A scrape with its [catch]. *)
Lemma scrape_caught o ean (p : Program (SCall (N := N)) Scrape) : always (λ r, ∀ s, r = Ok s → scrape_of o ean s) p →
  always (scraped o ean) (p_catch p (λ err, mret (scrape_failed ean o err))).
Proof.
  intros Hp. apply always_catch. eapply always_mono; [exact Hp|]. intros [s|e] Hs; [exists s; auto|].
  exists (scrape_failed ean o e). split; [done|apply failed_of].
Qed.

Lemma always_step {A R} (Q : R → Prop) (p : Program (SCall (N := N)) A) (f : A → Program (SCall (N := N)) R) :
  (∀ a, always (λ r, ∀ s, r = Ok s → Q s) (f a)) → always (λ r, ∀ s, r = Ok s → Q s) (prog_bind p f).
Proof. intros Hf. apply always_bind. eapply always_mono; [apply always_True|]. intros [a|e] _; [apply Hf|done]. Qed.

Lemma always_ret {R} (Q : R → Prop) (s : R) : Q s → always (E := SCall (N := N)) (λ r, ∀ s, r = Ok s → Q s) (mret s).
Proof. intros HQ s' [= <-]. exact HQ. Qed.

Lemma drogal_scraped ean : always (scraped DROGAL ean) (drogal_scrapeProduct (N := N) ean).
Proof.
  apply scrape_caught, always_step. intros [product|]; [|apply always_ret, not_found_of].
  apply always_step. intros measures. apply always_ret, drogal_of.
Qed.

Lemma drogasil_scraped ean : always (scraped DROGASIL ean) (drogasil_scrapeProduct (N := N) ean).
Proof.
  apply scrape_caught, always_step. intros sku. case_match; [|apply always_ret, not_found_of].
  apply always_step. intros [product|]; apply always_ret; [apply drogasil_of|apply not_found_of].
Qed.

Lemma michelassi_scraped ean : always (scraped MICHELASSI ean) (michelassi_scrapeProduct (N := N) ean).
Proof. apply scrape_caught, always_step. intros [product|]; apply always_ret; [apply michelassi_of|apply not_found_of]. Qed.

Lemma sequential_swept o (f : string → Program (SCall (N := N)) Scrape) eans : (∀ ean, always (scraped o ean) (f ean)) →
  always (all_scraped o eans) (scrapeProductsSequential f eans).
Proof.
  intros Hf. induction eans as [|ean eans IH]; [by exists []|]. apply always_bind. eapply always_mono; [apply Hf|].
  intros r (p & -> & Hp). apply always_bind. eapply always_mono; [exact IH|]. intros r' (ps & -> & Hps). exists (p :: ps). by split; [|constructor].
Qed.

Lemma Forall2_scrapes o (f : string → Scrape) eans : (∀ ean, scrape_of o ean (f ean)) → Forall2 (scrape_of o) eans (f <$> eans).
Proof. intros Hf. induction eans; by constructor. Qed.

Lemma vtex_swept base o eans : always (all_scraped o eans) (scrapeVtexCatalogProducts (N := N) base eans o).
Proof.
  destruct eans as [|ean eans]; [by exists []|]. unfold scrapeVtexCatalogProducts. apply always_catch, always_bind.
  eapply always_mono; [apply always_True|]. intros [data|e] _.
  - cbn [mret Program_ret always]. eexists. split; [done|]. unfold mapVtexProductsToScrapes.
    set (f := λ e, match js_map_get e _ with None => _ | Some product => mapVtexProduct e product o end).
    assert (∀ e, scrape_of o e (f e)) as Hf by (intros e; unfold f; case_match; [apply vtex_of|apply not_found_of]).
    repeat case_match; try by apply Forall2_scrapes. simplify_eq. constructor; [apply vtex_of|constructor].
  - cbn [mret Program_ret always]. eexists. split; [done|]. apply Forall2_scrapes. intros e'. apply failed_of.
Qed.

Lemma scraper_all o eans : always (all_scraped o eans) (scraperFor (N := N) o eans).
Proof.
  destruct o; cbn [scraperFor]; try apply vtex_swept; apply sequential_swept;
    [apply drogal_scraped|apply drogasil_scraped|apply michelassi_scraped].
Qed.

(* ------------------------------------------------------------------ *)
(** ** The requests of a sweep                                          *)
(* ------------------------------------------------------------------ *)

(** What one round of requests is answered; a round makes at most one request
    of each kind. *)
Record Answers := {
  an_vtex : Res (option (list (VtexCatalogProduct (N := N))));
  an_drogal : Res (option (list (DrogalProduct (N := N))));
  an_variations : Res (option (DrogalVariationsResponse (N := N)));
  an_page : Res (Fetched (option (list (Res (Z * string)))));
  an_graphql : Res (Fetched (Res (option (DrogasilProductResponse (N := N)))));
  an_michelassi : Res (option (MichelassiSearchResponse (N := N)));
}.
Definition answer_call (w : Answers) (A : Type) (c : SCall (N := N) A) : A :=
  match c with
  | VtexSearch _ => an_vtex w
  | DrogalSearch _ => an_drogal w
  | DrogalVariations _ => an_variations w
  | DrogasilSearch _ => an_page w
  | DrogasilGraphql _ => an_graphql w
  | MichelassiSearch _ => an_michelassi w
  end.

(** The storefronts that are asked for one EAN at a time. *)
Definition product_scraper (o : CompetitorOrigin) : option (string → Program (SCall (N := N)) Scrape) :=
  match o with
  | DROGAL => Some drogal_scrapeProduct
  | DROGASIL => Some drogasil_scrapeProduct
  | MICHELASSI => Some michelassi_scrapeProduct
  | _ => None
  end.

(** A round per EAN, or one for all. *)
Fixpoint sweep_products (f : string → Program (SCall (N := N)) Scrape) (site : nat → Answers) (eans : list string) : Res (list Scrape) :=
  match eans with
  | [] => Ok []
  | ean :: eans => p ← run (answer_call (site O)) (f ean); ps ← sweep_products f (site ∘ S) eans; Ok (p :: ps)
  end.
Definition sweep (site : nat → Answers) (o : CompetitorOrigin) (eans : list string) : Res (list Scrape) :=
  match product_scraper o with
  | Some f => sweep_products f site eans
  | None => run (answer_call (site O)) (scraperFor o eans)
  end.
Definition sweep_list (site : nat → Answers) (o : CompetitorOrigin) (eans : list string) : list Scrape :=
  match sweep site o eans with Ok ps => ps | Throw _ => [] end.

Lemma sequential_run f w eans : run (answer_call w) (scrapeProductsSequential f eans) = sweep_products f (λ _, w) eans.
Proof.
  induction eans as [|ean eans IH]; [done|]. cbn [scrapeProductsSequential sweep_products]. rewrite run_bind.
  destruct (run _ (f ean)); [|done]. cbn. rewrite run_bind, IH. unfold compose. by destruct (sweep_products _ _ eans).
Qed.

(** The failure of the request that decides a scrape: the request is rejected,
    or answers no 2xx, or its body cannot be read. *)
Definition error_of {A} (r : Res A) : option Exn := match r with Ok _ => None | Throw e => Some e end.
Definition page_sku (page : Fetched (option (list (Res (Z * string))))) : Res (option string) :=
  match ft_body _ page with None => Ok None | Some body => consumeForPattern SKU_PATTERN MAX_CONTENT_BYTES BUFFER_TAIL_BYTES body "" 0 end.
Definition http_failure {A} (what : string) (res : Fetched A) : option Exn :=
  if ft_ok res then None else Some (EError (what +:+ " HTTP " +:+ pretty (ft_status _ res))).
Definition failure (o : CompetitorOrigin) (w : Answers) : option Exn :=
  match o with
  | DROGAL => error_of (an_drogal w)
  | MICHELASSI => error_of (an_michelassi w)
  | DROGASIL =>
      match an_page w with
      | Throw e => Some e
      | Ok page =>
          match http_failure "search" page, page_sku page with
          | Some e, _ | None, Throw e => Some e
          | None, Ok sku =>
              match truthy sku, an_graphql w with
              | None, _ => None
              | _, Throw e => Some e
              | _, Ok res => match http_failure "product" res with Some e => Some e | None => error_of (ft_body _ res) end
              end
          end
      end
  | _ => error_of (an_vtex w)
  end.
(** The round of the [i]-th EAN. *)
Definition round_of (site : nat → Answers) (o : CompetitorOrigin) (i : nat) : Answers := site (match product_scraper o with Some _ => i | None => O end).
(** The request of the [i]-th EAN failed, for a reason that has a text. *)
Definition failed (site : nat → Answers) (o : CompetitorOrigin) (i : nat) : Prop :=
  is_Some (truthy (exn_message <$> failure o (round_of site o i))).

Lemma measures_run w (product : DrogalProduct (N := N)) : ∃ m,
  run (answer_call w) (if String.eqb (gp_productId product) "" then mret None else fetchMeasures (gp_productId product)) = Ok m.
Proof. case_match; [by eexists|]. unfold fetchMeasures, http. rewrite run_catch, !run_bind. cbn. destruct (an_variations w); by eexists. Qed.

(** The scrape of a round carries an error exactly when its request failed. *)
Definition tells (o : CompetitorOrigin) (w : Answers) (r : Res Scrape) : Prop := ∃ p, r = Ok p ∧ sp_error p = exn_message <$> failure o w.

Lemma drogal_run w ean : tells DROGAL w (run (answer_call w) (drogal_scrapeProduct ean)).
Proof.
  unfold drogal_scrapeProduct, drogal_fetchProductByEan, http. rewrite run_catch, !run_bind. cbn [run answer_call stmt]. unfold tells, failure.
  destruct (an_drogal w) as [data|e]; cbn; [|by eexists]. destruct (data ≫= head) as [product|]; cbn; [|by eexists].
  destruct (measures_run w product) as [m Em]. rewrite run_bind. cbn in Em |- *. rewrite Em. cbn. eexists. split; [done|].
  unfold drogal_mapProduct. destruct (drogal_offer product); [|done]. by destruct (drogal_detectPbm product) as [[]].
Qed.

Lemma michelassi_run w ean : tells MICHELASSI w (run (answer_call w) (michelassi_scrapeProduct ean)).
Proof.
  unfold michelassi_scrapeProduct, michelassi_fetchProductByEan, http. rewrite run_catch, !run_bind. cbn [run answer_call stmt]. unfold tells, failure.
  destruct (an_michelassi w) as [data|e]; cbn; [|by eexists]. eexists. split; [done|]. by case_match.
Qed.

Lemma streamFindSku_run w ean : run (answer_call w) (streamFindSku ean) =
  page ← an_page w; match http_failure "search" page with Some e => Throw e | None => page_sku page end.
Proof.
  unfold streamFindSku, http, http_failure, page_sku. rewrite !run_bind. cbn [run answer_call stmt]. destruct (an_page w) as [page|e]; [|done]. cbn.
  destruct (ft_ok page); [|done]. by destruct (ft_body _ page).
Qed.

Lemma fetchProductBySku_run w sku : run (answer_call w) (fetchProductBySku sku) =
  res ← an_graphql w;
  match http_failure "product" res with
  | Some e => Throw e
  | None => data ← ft_body _ res; Ok (d ← data; if sr_errors d then None else sr_productBySku d)
  end.
Proof.
  unfold fetchProductBySku, http, http_failure. rewrite !run_bind. cbn [run answer_call stmt]. destruct (an_graphql w) as [res|e]; [|done]. cbn.
  destruct (ft_ok res); [|done]. by destruct (ft_body _ res).
Qed.

Lemma drogasil_run w ean : tells DROGASIL w (run (answer_call w) (drogasil_scrapeProduct ean)).
Proof.
  unfold drogasil_scrapeProduct. rewrite run_catch, run_bind, streamFindSku_run. unfold tells, failure.
  destruct (an_page w) as [page|e]; [|by eexists]. cbv beta iota delta [mbind Res_bind]. destruct (http_failure _ page) as [e|]; [by eexists|].
  destruct (page_sku page) as [sku|e]; [|by eexists]. destruct (truthy sku) as [sku'|]; [|by eexists].
  unfold Program_bind. rewrite run_prog_bind, fetchProductBySku_run. destruct (an_graphql w) as [res|e]; cbn; [|by eexists].
  destruct (http_failure _ res) as [e|]; cbn; [by eexists|]. destruct (ft_body _ res) as [data|e]; cbn; [|by eexists].
  eexists. split; [done|]. destruct (_ ≫= _) as [p|]; [|done]. unfold drogasil_mapProduct. by destruct (drogasil_detectPbm p).
Qed.

Lemma product_scraper_tells o f w ean : product_scraper o = Some f → tells o w (run (answer_call w) (f ean)).
Proof. destruct o; intros [= <-]; [apply drogal_run|apply drogasil_run|apply michelassi_run]. Qed.

Lemma vtex_run o w eans : product_scraper o = None →
  ∃ ps, run (answer_call w) (scraperFor o eans) = Ok ps ∧ ∀ p, p ∈ ps → sp_error p = exn_message <$> failure o w.
Proof.
  assert (∀ base, failure o w = error_of (an_vtex w) → ∃ ps, run (answer_call w) (scrapeVtexCatalogProducts base eans o) = Ok ps ∧
    ∀ p, p ∈ ps → sp_error p = exn_message <$> failure o w) as Hv.
  { intros base ->. destruct eans as [|ean es]; [exists []; split; [done|by intros p ?%elem_of_nil]|].
    unfold scrapeVtexCatalogProducts, http. rewrite run_catch, !run_bind. cbn [run answer_call stmt].
    destruct (an_vtex w) as [data|e]; (eexists; split; [reflexivity|]); intros p; [|by intros (e' & -> & _)%list_elem_of_fmap].
    change (p ∈ mapVtexProductsToScrapes (ean :: es) (default [] data) o → sp_error p = None). generalize (ean :: es), (default [] data). intros eans products.
    unfold mapVtexProductsToScrapes. set (f := λ e, match js_map_get e _ with None => _ | Some product => mapVtexProduct e product o end).
    assert (∀ e q, sp_error (mapVtexProduct e q o) = None) as Hq by (intros e q; unfold mapVtexProduct; by destruct (_ ≫= _) as [[]|]).
    assert (∀ e, sp_error (f e) = None) as Hf by (intros e; unfold f; case_match; [apply Hq|done]).
    assert (∀ l, p ∈ f <$> l → sp_error p = None) as Hl by (intros l (e & -> & _)%list_elem_of_fmap; apply Hf).
    repeat case_match; try apply Hl. intros ->%list_elem_of_singleton. apply Hq. }
  destruct o; intros [=]; cbn [scraperFor]; by apply Hv.
Qed.

(** A site that answers every request with a rejection. *)
Definition silent : Answers :=
  let gone {A} : Res A := Throw (EError "socket hang up") in Build_Answers gone gone gone gone gone gone.

Lemma may_end_run {R} h (p : Program (SCall (N := N)) R) : may_end p (run h p).
Proof. induction p as [r|A c k IH]; cbn; [done|]. eexists. apply IH. Qed.

Lemma may_end_bind {R S} (p : Program (SCall (N := N)) R) (f : R → Program SCall S) r :
  may_end (p ≫= f) r → ∃ x, may_end p x ∧ match x with Ok a => may_end (f a) r | Throw e => Throw e = r end.
Proof.
  unfold mbind, Program_bind. induction p as [[x|e]|A c k IH]; cbn.
  - intros Hf. by exists (Ok x).
  - intros <-. by exists (Throw e).
  - intros [a Ha]. apply IH in Ha as (x & ? & ?). exists x. split; [by exists a|done].
Qed.

Definition drogal_round a m : Answers := Build_Answers (an_vtex silent) a m (an_page silent) (an_graphql silent) (an_michelassi silent).
Definition drogasil_round a g : Answers :=
  Build_Answers (an_vtex silent) (an_drogal silent) (an_variations silent) a g (an_michelassi silent).

Lemma drogal_answers ean r : may_end (drogal_scrapeProduct (N := N) ean) r → ∃ w, run (answer_call w) (drogal_scrapeProduct ean) = r.
Proof.
  intros [[data|e] Ha]; [|by exists (drogal_round (Throw e) (an_variations silent))]. cbn in Ha.
  destruct (data ≫= head) as [product|] eqn:Ed; cbn in Ha.
  2:{ exists (drogal_round (Ok data) (an_variations silent)). cbn. by rewrite Ed. }
  destruct (String.eqb (gp_productId product) "") eqn:Ep; [|destruct Ha as [m Ha]]; cbn in Ha.
  - exists (drogal_round (Ok data) (an_variations silent)). cbn. rewrite Ed. cbn. by rewrite Ep.
  - exists (drogal_round (Ok data) m). cbn. rewrite Ed. cbn. rewrite Ep. cbn. by destruct m.
Qed.

Lemma drogasil_answers ean r : may_end (drogasil_scrapeProduct (N := N) ean) r → ∃ w, run (answer_call w) (drogasil_scrapeProduct ean) = r.
Proof.
  intros [[page|e] Ha]; [|by exists (drogasil_round (Throw e) (an_graphql silent))]. cbn in Ha.
  destruct (ft_ok page) eqn:Ek; cbn in Ha. 2:{ exists (drogasil_round (Ok page) (an_graphql silent)). cbn. by rewrite Ek. }
  destruct (ft_body _ page) as [body|] eqn:Eb; cbn in Ha.
  2:{ exists (drogasil_round (Ok page) (an_graphql silent)). cbn. rewrite Ek. cbn. by rewrite Eb. }
  destruct (consumeForPattern _ _ _ _ _ _) as [sku|e] eqn:Es; cbn in Ha.
  2:{ exists (drogasil_round (Ok page) (an_graphql silent)). cbn. rewrite Ek. cbn. rewrite Eb. cbn. by rewrite Es. }
  destruct (truthy sku) as [sku'|] eqn:Et; cbn in Ha; [destruct Ha as [g Ha]|].
  - exists (drogasil_round (Ok page) g). cbn. rewrite Ek. cbn. rewrite Eb. cbn. rewrite Es. cbn. rewrite Et. cbn. revert Ha.
    destruct g as [res|e]; cbn; [|done]. destruct (ft_ok res); cbn; [|done]. by destruct (ft_body _ res).
  - exists (drogasil_round (Ok page) (an_graphql silent)). cbn. rewrite Ek. cbn. rewrite Eb. cbn. rewrite Es. cbn. by rewrite Et.
Qed.

Lemma michelassi_answers ean r : may_end (michelassi_scrapeProduct (N := N) ean) r → ∃ w, run (answer_call w) (michelassi_scrapeProduct ean) = r.
Proof.
  intros [a Ha]. exists (Build_Answers (an_vtex silent) (an_drogal silent) (an_variations silent) (an_page silent) (an_graphql silent) a).
  cbn. by destruct a.
Qed.

Lemma product_answers o f ean r : product_scraper o = Some f → may_end (f ean) r → ∃ w, run (answer_call w) (f ean) = r.
Proof. destruct o; intros [= <-]; [apply drogal_answers|apply drogasil_answers|apply michelassi_answers]. Qed.

Lemma sequential_answers f eans r : (∀ ean r, may_end (f ean) r → ∃ w, run (answer_call w) (f ean) = r) →
  may_end (scrapeProductsSequential (N := N) f eans) r → ∃ site, sweep_products f site eans = r.
Proof.
  intros Hf. revert r. induction eans as [|ean eans IH]; intros r; [by exists (λ _, silent)|].
  intros (x & [w Hw]%Hf & Hx)%may_end_bind. destruct x as [p|e].
  - apply may_end_bind in Hx as (y & [site Hs]%IH & Hy). exists (λ i, match i with O => w | S i => site i end).
    cbn. rewrite Hw. cbn. change (_ ∘ S) with site. rewrite Hs. destruct y; exact Hy.
  - exists (λ _, w). cbn. by rewrite Hw.
Qed.

Lemma may_end_chain {R S} (p : Program (SCall (N := N)) R) (f : R → Program SCall S) x r :
  may_end p x → match x with Ok a => may_end (f a) r | Throw e => Throw e = r end → may_end (p ≫= f) r.
Proof.
  unfold mbind, Program_bind. induction p as [r'|A c k IH]; cbn; [intros ->; by destruct x|].
  intros [a Ha] Hx. exists a. by apply IH.
Qed.

Lemma sequential_may_end f site eans : may_end (scrapeProductsSequential (N := N) f eans) (sweep_products f site eans).
Proof.
  revert site. induction eans as [|ean eans IH]; intros site; [done|]. cbn [scrapeProductsSequential sweep_products].
  eapply may_end_chain; [apply (may_end_run (answer_call (site O)))|]. destruct (run _ (f ean)) as [p|e]; [|done].
  eapply may_end_chain; [apply (IH (site ∘ S))|]. destruct (sweep_products f (site ∘ S) eans); reflexivity.
Qed.

Lemma vtex_answers base o eans r : may_end (scrapeVtexCatalogProducts (N := N) base eans o) r →
  ∃ w, run (answer_call w) (scrapeVtexCatalogProducts base eans o) = r.
Proof.
  destruct eans as [|ean eans]; [by exists silent|]. intros [a Ha].
  exists (Build_Answers a (an_drogal silent) (an_variations silent) (an_page silent) (an_graphql silent) (an_michelassi silent)).
  by destruct a.
Qed.

(** The sweeps are all that the scrapers may end with. *)
Lemma sweep_answers o eans r : may_end (scraperFor (N := N) o eans) r ↔ ∃ site, sweep site o eans = r.
Proof.
  unfold sweep. destruct (product_scraper o) as [f|] eqn:Ef.
  - assert (scraperFor o = scrapeProductsSequential f) as -> by (destruct o; try discriminate Ef; injection Ef as <-; reflexivity). split; [|intros [site <-]; apply sequential_may_end].
    apply sequential_answers. intros ean r'. by apply (product_answers o).
  - split; [|intros [site <-]; apply may_end_run]. intros Hr.
    assert (∃ w, run (answer_call w) (scraperFor o eans) = r) as [w Hw] by (destruct o; try discriminate Ef; cbn [scraperFor] in *; by apply vtex_answers).
    by exists (λ _, w).
Qed.

(** A sweep yields a scrape per EAN; it carries an error exactly when the
    request of its EAN failed. *)
Lemma sweep_scrapes site o eans : ∃ ps, sweep site o eans = Ok ps ∧ Forall2 (scrape_of o) eans ps ∧
  ∀ i p, ps !! i = Some p → sp_error p = exn_message <$> failure o (round_of site o i).
Proof.
  assert (∃ ps, sweep site o eans = Ok ps ∧ ∀ i p, ps !! i = Some p → sp_error p = exn_message <$> failure o (round_of site o i)) as (ps & Hs & He).
  { unfold sweep, round_of. destruct (product_scraper o) as [f|] eqn:Ef.
    - revert site. induction eans as [|ean eans IH]; intros site; [by exists []|]. destruct (IH (site ∘ S)) as (ps & Hps & He).
      destruct (product_scraper_tells o f (site O) ean Ef) as (p & Hp & Hpe). exists (p :: ps). cbn. rewrite Hp. cbn. rewrite Hps. split; [done|].
      intros [|i] q; cbn; [by intros [= <-]|apply He].
    - destruct (vtex_run o (site O) eans Ef) as (ps & Hps & He). exists ps. split; [done|]. intros i p ?%list_elem_of_lookup_2. by apply He. }
  exists ps. split_and!; [done| |done].
  assert (may_end (scraperFor o eans) (Ok ps)) as Hm by (apply sweep_answers; by exists site).
  destruct (always_may_end _ _ _ (scraper_all o eans) Hm) as (ps' & [= <-] & Hf). done.
Qed.

(* ------------------------------------------------------------------ *)
(** ** The store after a sweep                                          *)
(* ------------------------------------------------------------------ *)

Variable to_numeric : nat → N → Numeric.

(** The key of the row of a scrape. *)
Definition scrape_key (p : Scrape) (key : Z * string) : Prop := ean_cast (sp_ean p) = Ok key.1 ∧ key.2 = origin_str (sp_origin p).

#[local] Instance scrape_key_dec p key : Decision (scrape_key p key).
Proof.
  unfold scrape_key. destruct (ean_cast (sp_ean p)) as [z|e]; [|right; by intros [? _]].
  destruct (decide (z = key.1)) as [->|n]; [|right; intros [[=] _]; done]. destruct (decide (key.2 = origin_str (sp_origin p))); [by left|right; by intros [_ ?]].
Qed.

(** The two rows of a scrape, column by column. *)
Definition scraped_row (p : Scrape) : ScrapedRow :=
  {| sr_found := sp_found p; sr_name := sp_name p; sr_supplier := sp_supplier p; sr_brand := sp_brand p; sr_sku := sp_sku p;
     sr_weight := to_numeric 3 <$> sp_weight p; sr_height := to_numeric 4 <$> sp_height p;
     sr_length := to_numeric 4 <$> sp_length p; sr_width := to_numeric 4 <$> sp_width p |}.
Definition shared_row (p : Scrape) : SharedProductRow :=
  {| sh_price := to_numeric 2 <$> sp_price p; sh_isPbm := sp_isPbm p; sh_van := sp_van p; sh_deleted := false |}.
Definition written (p : Scrape) (key : Z * string) (s : SyncDb N) : Prop :=
  sy_scraped s !! key = Some (scraped_row p) ∧ ct_shared (sy_catalog s) !! key = Some (shared_row p).
Definition kept (s s' : SyncDb N) (key : Z * string) : Prop :=
  sy_scraped s' !! key = sy_scraped s !! key ∧ ct_shared (sy_catalog s') !! key = ct_shared (sy_catalog s) !! key.

(** The numbers of a scrape fit their columns. *)
Definition col_fits (prec scale : nat) (x : option N) : bool :=
  match x with Some x => fits prec scale (to_numeric scale x) | None => true end.
Definition storable (p : Scrape) : Prop :=
  col_fits 12 2 (sp_price p) && col_fits 10 3 (sp_weight p) && col_fits 10 4 (sp_height p) && col_fits 10 4 (sp_length p) &&
  col_fits 10 4 (sp_width p) = true.

Lemma numeric_col_cases prec scale x :
  numeric_col to_numeric prec scale x = if col_fits prec scale x then Ok (to_numeric scale <$> x) else Throw numeric_overflow.
Proof. destruct x as [x|]; [|done]. cbn. by destruct (fits _ _ _). Qed.

Definition same_elsewhere (s s' : SyncDb N) : Prop :=
  sy_extra s' = sy_extra s ∧ sy_stock s' = sy_stock s ∧ sy_base s' = sy_base s ∧ sy_settings s' = sy_settings s ∧
  ∃ m, sy_catalog s' = set_shared m (sy_catalog s).

Lemma set_shared_self (c : Catalog N) : set_shared (ct_shared c) c = c.
Proof. by destruct c. Qed.
Lemma same_elsewhere_refl s : same_elsewhere s s.
Proof. split_and!; try done. exists (ct_shared (sy_catalog s)). by rewrite set_shared_self. Qed.
Lemma same_elsewhere_trans s1 s2 s3 : same_elsewhere s1 s2 → same_elsewhere s2 s3 → same_elsewhere s1 s3.
Proof.
  intros (A1 & A2 & A3 & A4 & m1 & A5) (B1 & B2 & B3 & B4 & m2 & B5). split_and!; try congruence. exists m2. by rewrite B5, A5.
Qed.

Lemma upsert_scrape_ok (p : Scrape) s u s' : upsert_scrape to_numeric p s = (Ok u, s') →
  ∃ key, scrape_key p key ∧ same_elsewhere s s' ∧ sy_scraped s' = <[key := scraped_row p]> (sy_scraped s) ∧
    ct_shared (sy_catalog s') = <[key := shared_row p]> (ct_shared (sy_catalog s)).
Proof.
  unfold upsert_scrape, mbind, Sy_bind, sy_lift. rewrite !numeric_col_cases.
  destruct (ean_cast (sp_ean p)) as [z|] eqn:Ez; [|done].
  do 5 (destruct (col_fits _ _ _); [|done]).
  intros [= <- <-]. exists (z, origin_str (sp_origin p)). split; [done|]. split; [|split; reflexivity]. split_and!; try done. by eexists.
Qed.

Lemma upsert_scrape_goes (p : Scrape) z s : ean_cast (sp_ean p) = Ok z → storable p → ∃ s', upsert_scrape to_numeric p s = (Ok (), s').
Proof.
  unfold storable, upsert_scrape, mbind, Sy_bind, sy_lift. rewrite !numeric_col_cases, !andb_true_iff. intros -> ((((-> & ->) & ->) & ->) & ->). by eexists.
Qed.

Lemma kept_trans s1 s2 s3 key : kept s1 s2 key → kept s2 s3 key → kept s1 s3 key.
Proof. intros [A1 A2] [B1 B2]. split; congruence. Qed.

Lemma each_scrape_ok (l : list Scrape) s u s' : sy_each (upsert_scrape to_numeric) l s = (Ok u, s') →
  (∀ i j p q key, l !! i = Some p → l !! j = Some q → scrape_key p key → scrape_key q key → i = j) →
  same_elsewhere s s' ∧
  (∀ key, (∀ p, p ∈ l → ¬ scrape_key p key) → kept s s' key) ∧
  (∀ p key, p ∈ l → scrape_key p key → written p key s').
Proof.
  revert s. induction l as [|p l IH]; intros s.
  { intros [= <- <-] _. split_and!; [apply same_elsewhere_refl|done|]. by intros p key ?%elem_of_nil. }
  cbn [sy_each]. unfold mbind at 1, Sy_bind at 1. destruct (upsert_scrape to_numeric p s) as [[u1|] s1] eqn:E1; [|done]. intros E2 Hd.
  destruct (upsert_scrape_ok _ _ _ _ E1) as (k & Hk & Hs & Es & Ec).
  destruct (IH _ E2) as (Hs' & Hout & Hin).
  { intros i j q q' key Hi Hj ? ?. cut (S i = S j); [lia|]. by eapply (Hd (S i) (S j) q q' key). }
  split_and!; [by eapply same_elsewhere_trans| |].
  - intros key Hkey. eapply kept_trans; [|apply Hout; intros q Hq; by apply Hkey; right].
    assert (k ≠ key) by (intros ->; by apply (Hkey p); [left|]). split; rewrite ?Es, ?Ec; by rewrite lookup_insert_ne.
  - intros q key [->|Hq]%elem_of_cons Hkq; [|by apply Hin]. assert (key = k) as ->.
    { destruct key, k, Hk as [Hk1 Hk2], Hkq as [Hq1 Hq2]. cbn in *. congruence. }
    destruct (Hout k) as [E3 E4].
    { intros q [j Hj]%list_elem_of_lookup Hq. by pose proof (Hd 0%nat (S j) p q k eq_refl Hj Hk Hq). }
    unfold written. by rewrite E3, E4, Es, Ec, !lookup_insert_eq.
Qed.

Lemma each_scrape_goes (l : list Scrape) s : (∀ p, p ∈ l → storable p ∧ is_Some (match ean_cast (sp_ean p) with Ok z => Some z | _ => None end)) →
  ∃ s', sy_each (upsert_scrape to_numeric) l s = (Ok (), s').
Proof.
  revert s. induction l as [|p l IH]; intros s Hl; [by eexists|]. destruct (Hl p) as [Hp [z Hz]]; [by left|].
  destruct (ean_cast (sp_ean p)) as [z'|] eqn:Ez; [|done]. destruct (upsert_scrape_goes p z' s Ez Hp) as [s1 E1].
  cbn [sy_each]. unfold mbind, Sy_bind. rewrite E1. apply IH. intros q Hq. apply Hl. by right.
Qed.

Lemma casts_fmap (l : list string) zs : ean_casts l = Ok zs → ean_cast <$> l = Ok <$> zs.
Proof.
  revert zs. unfold ean_casts. induction l as [|e l IH]; intros zs; [by intros [= <-]|]. cbn [foldr fmap list_fmap].
  destruct (ean_cast e) as [z|]; [|done]. cbn. destruct (foldr _ _ l) as [zs'|]; [|done]. cbn. intros [= <-]. by rewrite (IH _ eq_refl).
Qed.

Lemma casts_all (l : list string) : (∀ ean, ean ∈ l → ∃ z, ean_cast ean = Ok z) → ∃ zs, ean_casts l = Ok zs.
Proof.
  unfold ean_casts. induction l as [|e l IH]; intros Hl; [by eexists|]. destruct (Hl e) as [z Hz]; [by left|]. destruct IH as [zs Hzs].
  { intros x Hx. apply Hl. by right. }
  cbn. rewrite Hz. cbn. rewrite Hzs. by eexists.
Qed.

Lemma casts_ok (l : list string) zs ean : ean_casts l = Ok zs → ean ∈ l → ∃ z, ean_cast ean = Ok z.
Proof.
  intros Hc%casts_fmap Hl. apply (list_elem_of_fmap_2 ean_cast) in Hl. rewrite Hc in Hl. apply list_elem_of_fmap in Hl as (z & -> & _). by exists z.
Qed.

Lemma sublist_fmap {A B} (f : A → B) l1 l2 : l1 `sublist_of` l2 → (f <$> l1) `sublist_of` (f <$> l2).
Proof. induction 1; cbn; by constructor. Qed.

Lemma lookup_zip_Some {A B} (l : list A) (k : list B) i x y : zip l k !! i = Some (x, y) ↔ l !! i = Some x ∧ k !! i = Some y.
Proof. rewrite lookup_zip_with_Some. naive_solver. Qed.

(** One statement writes the rows of all scrapes without an error, or fails
    and writes none. *)
Lemma upsert_scrapes_ok (l : list Scrape) s : let '(r, s') := rollback_tx (upsertScrapes to_numeric l) s in
  (∃ e, r = Throw e ∧ s' = s) ∨
  (r = Ok () ∧ same_elsewhere s s' ∧ (∀ key, (∀ p, p ∈ persistable l → ¬ scrape_key p key) → kept s s' key) ∧
   ∀ p key, p ∈ persistable l → scrape_key p key → written p key s').
Proof.
  unfold rollback_tx. destruct (upsertScrapes to_numeric l s) as [[[]|e] s'] eqn:E; [right|left; by eexists].
  unfold upsertScrapes, mbind, Sy_bind, sy_lift in E. destruct (ean_casts _) as [zs|] eqn:Ez; [|done]. case_bool_decide as Hd; [|done].
  apply each_scrape_ok in E; [by destruct E as (? & ? & ?)|]. intros i j p q [z o'] Hi Hj [Hp1 Hp2] [Hq1 Hq2]. cbn in *.
  assert (∀ i p, persistable l !! i = Some p → ean_cast (sp_ean p) = Ok z → o' = origin_str (sp_origin p) →
    zip zs (origin_str ∘ sp_origin <$> persistable l) !! i = Some (z, o')) as Hzip.
  { intros i' p' Hi' Hz' ->. apply lookup_zip_Some. split; [|by rewrite list_lookup_fmap, Hi'].
    pose proof (f_equal (.!! i') (casts_fmap _ _ Ez)) as Hl. cbn in Hl. rewrite !list_lookup_fmap, Hi' in Hl. cbn in Hl. rewrite Hz' in Hl.
    destruct (zs !! i'); naive_solver. }
  eapply NoDup_lookup; [exact Hd|by eapply Hzip..].
Qed.

Lemma upsert_scrapes_goes (l : list Scrape) s : (∀ p, p ∈ persistable l → storable p ∧ ∃ z, ean_cast (sp_ean p) = Ok z) →
  NoDup (ean_cast ∘ sp_ean <$> persistable l) → (rollback_tx (upsertScrapes to_numeric l) s).1 = Ok ().
Proof.
  intros Hl Hd. unfold rollback_tx, upsertScrapes, mbind, Sy_bind, sy_lift.
  destruct (casts_all (sp_ean <$> persistable l)) as [zs Ez]; [by intros ean (p & -> & Hp)%list_elem_of_fmap; apply Hl|]. rewrite Ez.
  destruct (each_scrape_goes (persistable l) s) as [s' E].
  { intros p Hp. destruct (Hl p Hp) as [? [z ->]]. split; [done|by eexists]. }
  apply casts_fmap in Ez. rewrite <- list_fmap_compose in Ez. rewrite Ez in Hd. apply NoDup_fmap_1 in Hd.
  case_bool_decide as Hdup; [by rewrite E|]. exfalso. apply Hdup, NoDup_alt. intros i j [z x] [Hi _]%lookup_zip_Some [Hj _]%lookup_zip_Some.
  by eapply NoDup_lookup.
Qed.

(** An EAN of the batch is left out: its row says not found, and it was not
    drawn for another look. *)
Definition skipped (recheck : Z → bool) (o : CompetitorOrigin) (s : SyncDb N) (ean : string) : Prop :=
  ∃ z row, ean = ean_text z ∧ sy_scraped s !! (z, origin_str o) = Some row ∧ sr_found row = false ∧ recheck z = true.

Lemma import_asks recheck scrape o eans s :
  let m := rollback_tx (importCompetitorProducts to_numeric recheck scrape o eans) s in
  ((∃ e, ean_casts eans = Throw e ∧ m = (Throw e, s)) ∨ ∃ es, es `sublist_of` eans ∧ (∀ ean, ean ∈ eans → ean ∉ es → skipped recheck o s ean) ∧
    m = match es with [] => (Ok (), s) | _ => rollback_tx (upsertScrapes to_numeric (scrape o es)) s end).
Proof.
  cbv zeta. unfold rollback_tx, importCompetitorProducts. destruct eans as [|e l] eqn:Ee.
  { right. exists []. split_and!; [done| |done]. by intros ean ?%elem_of_nil. }
  rewrite <- Ee. unfold mbind, Sy_bind, sy_get, sy_lift, findNotFoundEans.
  destruct (ean_casts eans) as [zs|err]; cbn [mbind Res_bind]; [|left; by exists err]. right.
  set (nf := ean_text <$> _). exists (filter (λ e, e ∉ nf) eans). split; [apply sublist_filter|]. split; [|by destruct (filter _ eans)].
  intros ean Hin Hno. destruct (decide (ean ∈ nf)) as [Hnf|Hnf]; [|by destruct Hno; apply list_elem_of_filter].
  apply list_elem_of_fmap in Hnf as (z & -> & [Hz _]%list_elem_of_filter). destruct (sy_scraped s !! _) as [row|] eqn:Er; [|done].
  apply andb_true_iff in Hz as [Hf ?]. exists z, row. split_and!; try done. by destruct (sr_found row).
Qed.

Lemma persisted_scrape site o es ps p : sweep site o es = Ok ps → p ∈ persistable ps →
  ∃ i ean, es !! i = Some ean ∧ ps !! i = Some p ∧ ¬ failed site o i ∧ sp_ean p = ean ∧ sp_origin p = o.
Proof.
  destruct (sweep_scrapes site o es) as (ps' & -> & Hf & He). intros [= ->] [Ht [i Hi]%list_elem_of_lookup]%list_elem_of_filter.
  destruct (Forall2_lookup_r _ _ _ _ _ Hf Hi) as (ean & Hean & Hof). exists i, ean. split_and!; try apply Hof; try done.
  unfold failed. rewrite <- (He i p Hi), Ht. by intros [].
Qed.

Lemma swept_store site o es ps s : sweep site o es = Ok ps →
  let '(r, s') := rollback_tx (upsertScrapes to_numeric ps) s in
  (∃ e, r = Throw e ∧ s' = s) ∨
  (r = Ok () ∧ same_elsewhere s s' ∧
   (∀ i ean p z, es !! i = Some ean → ps !! i = Some p → ean_cast ean = Ok z → ¬ failed site o i → written p (z, origin_str o) s') ∧
   (∀ key, (∀ i ean, es !! i = Some ean → ¬ failed site o i → ean_cast ean = Ok key.1 → key.2 ≠ origin_str o) → kept s s' key)).
Proof.
  intros Hs. pose proof (upsert_scrapes_ok ps s) as Hu. destruct (rollback_tx _ s) as [r s']. destruct Hu as [?|(? & ? & Hk & Hw)]; [by left|right].
  split_and!; [done..| |].
  - intros i ean p z Hean Hp Hz Hno. destruct (sweep_scrapes site o es) as (ps' & Hs' & Hf & He). rewrite Hs in Hs'. injection Hs' as <-.
    destruct (Forall2_lookup_lr _ _ _ _ _ _ Hf Hean Hp) as [Hsp Ho _ _]. apply Hw; [|by split; rewrite ?Hsp, ?Ho].
    apply list_elem_of_filter. split; [|by eapply list_elem_of_lookup_2]. rewrite (He i p Hp). unfold failed in Hno. by destruct (truthy _); [destruct Hno|].
  - intros key Hkey. apply Hk. intros p Hp [Hc Ho]. destruct (persisted_scrape _ _ _ _ _ Hs Hp) as (i & ean & Hean & _ & Hno & Hsp & Hso).
    rewrite Hsp in Hc. rewrite Hso in Ho. by apply (Hkey i ean).
Qed.

End Sweep.

(* ------------------------------------------------------------------ *)
(** * Concrete sweeps                                                   *)
(* ------------------------------------------------------------------ *)

Definition refused : Exn := EError "Request failed with status code 403".
(** A store that knows a price and measures of the EAN 7891 at an origin. *)
Definition known (origin : string) : SyncDb F64 :=
  Build_SyncDb (set_shared {[ (7891, origin) := Build_SharedProductRow (Some (Num 1250 2)) false None false ]}
      (Build_Catalog ∅ ∅ ∅ ∅ ∅ ∅ ∅ ∅ [] [] [] [] ∅ [] ∅ ∅)) ∅ ∅ ∅
    {[ (7891, origin) := Build_ScrapedRow true (Some "Dipirona") None None None (Some (Num 120 3)) None None None ]} [].

(** The import of that EAN with these scrapes. *)
Definition imported (o : CompetitorOrigin) (scrapes : list (ScrapedProduct (N := F64))) : SyncDb F64 :=
  (rollback_tx (importCompetitorProducts two_decimals (λ _, true) (λ _ _, scrapes) o ["7891"]) (known (origin_str o))).2.

(** Two EANs of Drogal: the search of the first is refused, the second is
    answered a product at 12.50. *)
Definition half_answered (i : nat) : Answers (N := F64) :=
  match i with
  | O => drogal_round (Throw refused) (Throw refused)
  | S _ => drogal_round (Ok (Some [Build_DrogalProduct (N := F64) "" (Some "Vela") None None
             (Some [Some [Some (Build_VtexOffer (Some (n_dec 1250 2)))]]) None None None])) (Throw refused)
  end.


(** A product with two items: the one that is not first is priced at the
    offer of the first. *)
Lemma other_item_priced :
  let item ean price := Build_VtexCatalogItem (N := F64) (Some ean) (Some [Some (Build_VtexOffer (Some (f64_of_Z price)))]) None in
  let p := Build_VtexCatalogProduct (Some "Dipirona") None None (Some [item "111" 10; item "222" 20]) in
  (sp_price <$> mapVtexProductsToScrapes ["222"] [p] PACHECO) = [Some (f64_of_Z 10)].
Proof. reflexivity. Qed.

(** The first hit without bar codes is taken before the one that lists the
    EAN. *)
Lemma hit_without_codes_taken :
  let p name codes := Build_MichelassiProduct (N := F64) (Some name) None (Some (f64_of_Z 10)) None codes in
  match michelassi_scrapeProduct (N := F64) "7891" with
  | Vis (MichelassiSearch _) k =>
      k (Ok (Some (Build_MichelassiSearchResponse (Some [p "Vela" None; p "Dipirona" (Some ["7891"])])))) =
      Ret (Ok (michelassi_mapProduct "7891" (p "Vela" None)))
  | _ => False
  end.
Proof. reflexivity. Qed.

(** A page beyond the cap is taken for one without the product: the scrape
    has no error, and the import erases the last price. *)
Lemma long_page_erases_price :
  may_end (scraperFor (N := F64) DROGASIL ["7891"]) (Ok [not_found "7891" DROGASIL]) ∧
  (sh_price <$> ct_shared (sy_catalog (imported DROGASIL [not_found "7891" DROGASIL])) !! (7891, "DROGASIL")) = Some None.
Proof.
  split; [|vm_compute; reflexivity].
  exists (Ok (Build_Fetched _ 200 (Some [Ok (MAX_CONTENT_BYTES + 1, article "42")]))). reflexivity.
Qed.

(** A rejection without a text (Node's [AggregateError], when every address
    refuses the connection) is persisted too, as a product that was not
    found: [!s.error] holds of the empty text. *)
Lemma nameless_failure_erases_price :
  may_end (scraperFor (N := F64) PACHECO ["7891"]) (Ok [scrape_failed "7891" PACHECO (EError "")]) ∧
  (sh_price <$> ct_shared (sy_catalog (imported PACHECO [scrape_failed "7891" PACHECO (EError "")])) !! (7891, "PACHECO")) = Some None.
Proof. split; [by exists (Throw (EError ""))|vm_compute; reflexivity]. Qed.

(** So does an answer of the product query that carries errors. *)
Lemma query_errors_erase_price :
  let answers : Program SCall (list (ScrapedProduct (N := F64))) := scraperFor DROGASIL ["7891"] in
  match answers with
  | Vis (DrogasilSearch _) k =>
      match k (Ok (Build_Fetched _ 200 (Some [Ok (100, article "42")]))) with
      | Vis (DrogasilGraphql sku) k' =>
          sku = "42" ∧ k' (Ok (Build_Fetched _ 200 (Ok (Some (Build_DrogasilProductResponse None true))))) = Ret (Ok [not_found "7891" DROGASIL])
      | _ => False
      end
  | _ => False
  end.
Proof. vm_compute. done. Qed.

(** The measures of a product whose second request fails are written as
    unknown over those that were known. *)
Lemma failed_measures_erased :
  let product := Build_DrogalProduct (N := F64) "9" (Some "Dipirona") None None (Some [Some [Some (Build_VtexOffer (Some (f64_of_Z 10)))]]) None None None in
  match drogal_scrapeProduct "7891" with
  | Vis (DrogalSearch _) k =>
      match k (Ok (Some [product])) with
      | Vis (DrogalVariations _) k' => k' (Throw refused) = Ret (Ok (drogal_mapProduct "7891" product None))
      | _ => False
      end
  | _ => False
  end ∧
  (sr_weight <$> sy_scraped (imported DROGAL [drogal_mapProduct "7891" product None]) !! (7891, "DROGAL")) = Some None.
Proof. split; [reflexivity|vm_compute; reflexivity]. Qed.
